(* ===== verification/_CoqProject ===== *)
-Q . S2P
Prelude.v
Sha256.v
Errors.v
Budget.v
Concurrency.v
Retry.v
PyText.v
Base64.v
Utils.v
Merkle.v
MerkleConsistency.v
Tiles.v
SignedNote.v
Policy.v
PolicySpec.v
TlogProof.v
Lr.v
ResourceFetcher.v
PyFloat.v
PyTime.v
CheckpointStore.v
HashTiles.v
HashTilesSpec.v
Canonical.v
CanonicalSpec.v
JsonScan.v
JsonRoundtrip.v
PyNum.v
Keys.v
TrustProfile.v
EventCodec.v
EventCodecSpec.v
StreamVerifier.v
LifecycleSpec.v
LifecycleDemo.v
DomainLog.v
TxtRecord.v
TxtRecordSpec.v
Identity.v
IdentitySpec.v
HttpsClient.v
StreamSpec.v
StreamSource.v
StreamSourceSpec.v
Prepared.v
PreparedSpec.v
StreamBundle.v
ReaderState.v
Reader.v
ReaderSpec.v
BundleSpec.v
ReaderApi.v
Manager.v
ManagerSpec.v
Publication.v
PublicationSpec.v
ManagerDemo.v
LocalKeys.v
LocalKeysSpec.v
Rotation.v
RotationSpec.v
HttpModels.v
HttpSignatures.v
HttpProfile.v
HttpSpec.v
HttpRoundtrip.v
HttpDemo.v
Jose.v
JoseSpec.v
Wba.v
WbaVerifier.v
WbaSpec.v
Oidc.v
OidcSpec.v
BotAuth.v
BotAuthSpec.v
Destination.v
Registries.v
RegistryApi.v
RegistryApiSpec.v
