(* ===== verification/Prelude.v ===== *)
(** * Verification of dnsid-py: identities and their transparency logs

    DNSid ties a domain name to keys and records the life of that binding
    (issuance, key rotation, delegation, migration, revocation, retirement) in
    C2SP transparency logs.  This library models the part of the SDK that
    decides whether an identity is believed and that keeps one: the identity
    manager of [src/dnsid/], the transparency logs of [src/dnsid/c2sp_tlog/],
    and the helpers they stand on.

    ** The program and its parts

    A verifier holds a log reference ([lr]), an entity key and a policy.  It
    fetches a checkpoint (a signed note), checks the log's signature and a
    quorum of witness cosignatures against the policy, compares the checkpoint
    with the one it trusted before, obtains the entries of a stream with Merkle
    proofs (from a full scan or from a signed bundle), decodes them from
    canonical JSON and replays them as a lifecycle.  A writer prepares an
    envelope, collects the signatures of the required roles and submits the
    canonical bytes.  Every public operation runs under a deadline.

    Above the log stands the identity manager.  It reads the [_dnsid] TXT record
    of a name from DNS, fetches the key sets and the status document the record
    names, checks the record's signature, the separation of its keys, the TLS
    certificate and the log evidence, keeps the result in a cache for as long as
    the evidence lasts and accepts a counterparty only if the local allow list
    names it.  For its own identity it builds and signs the record, signs and
    writes lifecycle events, and rotates the operational key through a sequence
    of persisted steps that can be resumed after any failure.

    On top of identities stand the application profiles: HTTP message signatures
    of requests and of the responses they ask for, JWTs and JWSs, OIDC assertions
    and tokens, Web Bot Auth requests with their key directories, and bearer tokens
    of bots.  Each resolves the domain that a message names through the interface
    of resolvers, which the manager implements, and checks the message against the
    keys of the identity.

    Beside them stand the ways out of the process.  Reads of the SDK connect only to
    addresses that were resolved and checked first; a verification registry turns a
    trust decision, explicit or from the embedded catalog, into readers of logs; and
    the client of a hosted registry registers agents, prepares and submits their
    events and waits for publications, which the manager then verifies itself.

    ** Files and what they model

    - [Prelude]: results and exceptions as a monad, boolean reflection, list and
      integer lemmas, tactics and the [pyb] rewrite base; [Errors]: the
      exceptions as one type ([errors.py], [exceptions.py], [enums.py]).
    - [PyText], [Base64], [PyFloat], [PyTime], [PyNum]: what the code uses of
      Python's strings, UTF-8, codecs, IEEE doubles with shortest [repr],
      [datetime], and [int] and [float] in mixed arithmetic.
    - [Sha256]: the hash itself, executable; [Budget]:
      [_verification_budget.py]; [Utils]: [_utils.py].
    - [Merkle], [MerkleConsistency]: [merkle.py], with RFC 6962 trees as the
      specification; [Tiles]: [tiles.py]; [HashTiles], [HashTilesSpec]:
      [hash_tiles.py].
    - [Retry]: [retry.py]; [ResourceFetcher]: [resource_fetcher.py] and
      [_bounded_response.py]; [StreamSource], [StreamSourceSpec]:
      [stream_source.py]; [TrustProfile]: [trust_profile.py].
    - [SignedNote]: [checkpoint.py] and [signed_note.py]; [Policy],
      [PolicySpec]: [policy.py]; [TlogProof]: [proof.py]; [Lr]: [lr.py].
    - [CheckpointStore]: [checkpoint_store.py], one operation at a time and, in
      the module [Threads], as a step relation on threads with two levels of
      locks.
    - [Canonical], [CanonicalSpec], [JsonRoundtrip]: [canonical.py], with the
      parser of [json.loads] over its hooks; [JsonScan]: what that parser reads
      back, for every escaping and every hook that keeps distinct members.
    - [Keys]: [JWK] and [_crypto.py]; the class [Platform] in it is the
      interface to code that is not in the repository (below).
    - [EventCodec], [EventCodecSpec]: [event_codec.py] and the events of
      [models.py]; [StreamVerifier]: [stream_verifier.py] and the synchronous
      driver of [_async.py]; [LifecycleSpec]: the abstract lifecycle machine and
      the refinement; [StreamSpec]: the selection of a stream's events.
    - [Prepared], [PreparedSpec]: [prepared.py]; [StreamBundle], [BundleSpec]:
      [stream_bundle.py]; [DomainLog]: the snapshots of a history
      ([DomainLog.snapshot_at] of [models.py]).
    - [ReaderState], [Reader]: [reader.py].  [ReaderState] is the state of a
      verification, the stores and the budget of one recursive history, with a
      state and error monad; [Reader] the reader over it, from the options of
      its constructor to the operations of [LogReader].  [ReaderSpec] shows how
      the state evolves, that the recursion ends and what a history is charged;
      [ReaderApi] the soundness of the public methods.
    - [Concurrency]: [run_concurrently] of [_verification_budget.py] as a step
      relation on two threads, with every interleaving of their checkpoints.
    - [TxtRecord], [TxtRecordSpec]: [DnsIdTxtRecord] of [models.py];
      [Identity], [IdentitySpec]: key sets, certificates, status documents,
      configurations and verified domains of [models.py], and the caches of
      [manager.py]; [HttpsClient]: [_https_client.py].
    - [Manager], [ManagerSpec]: verification, refreshing, eviction and
      acceptance in [manager.py], with the log registry of [registry.py];
      [Publication], [PublicationSpec]: records and events of the local identity.
    - [LocalKeys], [LocalKeysSpec]: the interface [KeyProvider] of
      [interfaces.py] as a class with an abstract state and laws, and the
      provider of [local_key_provider.py] as an instance; [Rotation],
      [RotationSpec]: [rotate_operational_key] and [resume_key_rotation] over
      that interface, as a state and error monad whose state records the trace of
      effects.
    - [HttpModels]: structured fields, component identifiers, signature parameters
      and messages of [models.py]; [HttpSignatures]: authorities, signature bases,
      digests and the negotiation of response signatures in
      [http_signatures.py]; [HttpProfile]: [HttpSignatureProfile] of that file,
      over the class [IdentityResolver], of which the manager is an instance;
      [HttpSpec], [HttpRoundtrip]: soundness over the contract of resolvers, what a
      signature base binds, and that signed requests verify.
    - [Jose], [JoseSpec]: [jose.py]; [Oidc], [OidcSpec]: [oidc.py].
    - [Wba]: [wba_signer.py] and the URLs of [wba_verifier.py]; [WbaVerifier],
      [WbaSpec]: [wba_verifier.py], whose state is that of its resolver together
      with the deadlines of refreshes; [BotAuth], [BotAuthSpec]:
      [web_bot_auth.py].
    - [Destination]: the destination policy of [safe_transport.py]; [Registries]:
      [verification_registry.py] and [managed_verification_registry.py].
    - [RegistryApi], [RegistryApiSpec]: [registry_client.py].  Its operations are
      generators in the source and resumption trees ([steps]) here, performed by the
      driver [run_registry], whose state records the requests sent; with
      [await_registry_managed_publication] of [manager.py].
    - [LifecycleDemo], [ManagerDemo], [HttpDemo]: a concrete platform, lifecycle, log,
      policy, manager and messages, on which the witnesses of the theorems are
      evaluated; [BundleSpec], [ReaderApi], [RotationSpec], [JoseSpec], [WbaSpec],
      [OidcSpec], [BotAuthSpec] and [RegistryApiSpec] end with a concrete bundle,
      reader, rotation, token, directory, issuer, bot and registry of their own.

    ** How the code is rendered

    Python integers are [Z]; [str] and [bytes] are lists of code points and
    octets; JSON values are the inductive type [json], with objects as
    association lists in member order.  A function that can raise returns
    [res A]; [try]/[except] is [try_except] with the tests of the source.  A
    loop is structural recursion, or recursion on fuel that is computed from
    the input and shown or seen to suffice: the Merkle loops use the length of
    the level or the bit length of the size, the JSON parser the length of the
    text, and the reader the depth its limits leave, which is proved enough
    ([migration_recursion_terminates]).  A generator that waits for a callback
    is split at the one event it can wait for ([lifecycle_pause],
    [run_paused]).  State is passed explicitly (the checkpoint store as a [gmap]); the
    interleavings of threads are the steps of [Threads.step].  Deadlines are an
    oracle [check], asked at the places where the code calls
    [remaining_seconds], each place with its own path, so that theorems hold for
    every pattern of expiry; the answers of DNS, HTTPS, the clock, hooks and the
    registry are oracles of the same kind, so that a repeated question may have
    another answer.  A call that changes a key provider, or a hook, meets one of
    three fates: it is done, it fails without effect, or it takes effect and then
    fails.  Times are whole milliseconds or seconds.
    Exceptions keep the fixed part of their message.

    ** Parameters

    The class [Platform] holds what comes from other packages: IDNA encoding,
    the Unicode side of [urlsplit] and [str.lower], and the verification
    primitives for Ed25519, P-256 and RSA, together with the local time zone.
    Nothing is assumed about them; security statements say which signature
    check succeeded.  Statements about hashes name the finite list of strings
    that were hashed and assume no collision in that list only
    ([collision_free]), so they are not vacuous for SHA-256.  [KeyMaterial] holds
    the key generation and signing of the cryptography package; the laws of
    [KeyMaterialLaws] are what that package documents.  [StructuredFields] is the
    [http_sf] package, with the grammar it documents as the laws [SfTokens] and
    [SfGrammar]; [PyLib], [HttpPlatform], [WbaLib], [OidcLib] and [Zlib] are the
    remaining library functions: [json.loads] of octets, [urljoin], Unicode tables,
    [httpx.URL], HTTP dates, loopback addresses and decompression.  [IpLib] is the
    [ipaddress] package and the resolution of host names.

    ** What the theorems show

    - Lifecycles: the verifier accepts exactly the runs of an abstract machine
      ([verify_lifecycle_refines]), so events are linked, timely and authorised
      by the keys in force; selection from a log returns only such runs, with
      provenance, and rejects authenticated forks.
    - Evidence: inclusion, consistency and hash-tile checks are sound and
      complete for RFC 6962 logs; a checkpoint passes the policy exactly with
      a log signature and a quorum of distinct witnesses; proofs and bundles
      that are accepted carry all of it.
    - Reading: a scan that returns is complete and within its limits, and an
      honest log is scanned to its end; a bounded fetch never returns more than
      it was allowed; a history read from a raw log rests on an accepted
      checkpoint, on entries that hash to it and on the log trusted before; a
      reader in any state it can reach vouches for an identity only on such a
      history, fresh and without revocation; recursion through previous logs
      ends, within the bounds on depth, events and octets; errors leave the
      reader only as verification errors.
    - Trusted state: in every interleaving the stored checkpoint of a log only
      moves to one that was checked against the record it replaces, and so to an
      extension of the trusted log.
    - Encodings: canonical JSON, event envelopes, logical identifiers, tiles,
      checkpoints and references round trip or determine what they encode.
    - Snapshots: the replay of a verified history stands where the lifecycle
      machine stands.
    - Signing: adding a signature changes nothing that is signed, and complete
      entries carry verified signatures of all roles.
    - Identities: what [verify_domain] returns was established, for that name,
      by a signed record, key sets, an active status, a certificate and log
      evidence, is fresh and is accepted; a cache in any state it can reach holds
      only such evidence with a positive TTL, and never an identity that was last
      seen inactive; acceptance is exactly the allow list; fetches stay on the
      hosts they may; with two concurrent branches the outcome is one of the
      documented ones, and the run ends.
    - Publication: the record that is published is the configured one and
      verifies; canonical forms determine records; an event is written only with
      the signatures its type requires.
    - Keys: the local provider refines the life of keys the interface describes
      even when writes fail, and its signatures verify; a rotation submits,
      activates and resumes signing only in the documented order over all
      failures and resumptions, and from the saved state it completes once the
      failures stop.
    - Messages: a request or response that verifies carries a fresh signature, by
      the key of the identity that the resolver vouches for, over a base that binds
      every covered component and the digest of the body; what the profile signs,
      it verifies; signing that fails leaves the message as it was.
    - Tokens: a JWT, an OIDC token or a bot's bearer token that verifies is signed
      by the key its header names, of the declared algorithm, over exactly its first
      two segments, with issuer, subject, audience and times as demanded; a JWS that
      was created verifies to its payload; an assertion is posted only to an
      endpoint that may have it, for the issuer it names.
    - Web Bot Auth: a verified request is signed by a key that the signer's own host
      publishes in a directory signed with that key, and that is the current
      operational key of the signer's identity; refreshes of identities are
      rationed.
    - Destinations and trust: a connection goes only to an address that was resolved
      for its host and that the policy allows, whatever is resolved later; a reader of
      a managed registry has the policy and the bundle keys of the embedded entry for
      exactly its log.
    - Registry client: whatever the registry answers, every request goes to the
      configured server, on one of the registry's routes, authorized with the client's
      credential, and sends no key with private members of its own; a submission that
      returns has sent exactly the given bytes, and is accepted or rejected only on a
      definite answer about them; a registration that is returned is the one asked
      for, and a registration that fails leaves what a retry needs; waiting ends; a
      publication by the registry is reported only after it was verified.
    - Some theorems record behaviour that departs from what the code means to
      do: the expired deadline that is reported as a definitive failure, the
      entity key that is not compared, the nested [none] rule, the index
      that an inclusion proof of the wrong length does not bind, the precedence of
      failures that depends on the interleaving, the zero-TTL refresh that
      starves, the records that cannot be decoded or were never grammatical, and
      the malformed tokens and answers that raise errors of undocumented classes.

    ** What is not modelled

    Network access, sockets, connection pools, TLS and DNS (only their results
    enter), the asynchronous drivers and twins of modelled operations, the HTTP
    clients and the middleware that call the signature profiles, configuration
    loading and the cloud key providers.  The recursion limit of
    the interpreter, which ends the parsing of deeply nested JSON, is not modelled
    either. *)
From stdpp Require Export base list list_numbers numbers gmap strings sorting.
From Stdlib Require Export ZArith Lia ZifyNat.

#[global] Open Scope Z_scope.

(** ** Python values

    A Python [str] is the list of its code points and a Python [bytes]
    object the list of its octets; both are [list Z], so the sequence
    operations (slicing, [find], [split], ...) are defined once. *)
Abbreviation str := (list Z) (only parsing).
Abbreviation bytes := (list Z) (only parsing).

(** A literal of the source, e.g. [lit "c2sp-tlog:"]. *)
Definition lit (s : string) : str :=
  (λ c, Z.of_N (Ascii.N_of_ascii c)) <$> String.list_ascii_of_string s.

(** Well-formed octet strings. *)
Definition is_byte (x : Z) : Prop := 0 ≤ x < 256.
Definition is_bytes (b : bytes) : Prop := Forall is_byte b.

#[global] Instance is_byte_dec x : Decision (is_byte x).
Proof. unfold is_byte. apply _. Defined.
#[global] Instance is_bytes_dec b : Decision (is_bytes b).
Proof. unfold is_bytes. apply _. Defined.

(** Boolean equality of two values with decidable equality (Python's [==]). *)
Definition eqb {A} `{EqDecision A} (x y : A) : bool := bool_decide (x = y).
Infix "==?" := eqb (at level 70, no associativity).

(** [len(l)] as a Python integer. *)
Definition len {A} (l : list A) : Z := Z.of_nat (length l).

(** [l[a:b]] for [0 <= a]; like Python it clips at the end of [l]. *)
Definition slice {A} (a b : Z) (l : list A) : list A :=
  take (Z.to_nat (b - a)) (drop (Z.to_nat a) l).

(** ** Fallible code

    [Ok a] is a normal return, [Raise e] a raised exception. *)
Inductive result (E A : Type) : Type :=
| Ok (a : A)
| Raise (e : E).
Arguments Ok {E A} a.
Arguments Raise {E A} e.

#[global] Instance result_ret {E} : MRet (result E) := λ A a, Ok a.
#[global] Instance result_bind {E} : MBind (result E) :=
  λ A B f m, match m with Ok a => f a | Raise e => Raise e end.
#[global] Instance result_fmap {E} : FMap (result E) :=
  λ A B f m, match m with Ok a => Ok (f a) | Raise e => Raise e end.

#[global] Instance result_eq_dec {E A} `{EqDecision E, EqDecision A} :
  EqDecision (result E A).
Proof. solve_decision. Defined.

(** [if b: raise e] *)
Definition raise_if {E} (b : bool) (e : E) : result E unit :=
  if b then Raise e else Ok ().

(** [try: m except: handler], where the handler decides on the exception. *)
Definition try_except {E A} (m : result E A) (h : E → result E A) : result E A :=
  match m with Ok a => Ok a | Raise e => h e end.

Definition is_Ok {E A} (m : result E A) : bool :=
  match m with Ok _ => true | Raise _ => false end.

(** [[f(x) for x in l]] with a fallible [f]: stops at the first exception. *)
Fixpoint mapM_res {E A B} (f : A → result E B) (l : list A) : result E (list B) :=
  match l with
  | [] => Ok []
  | x :: l => y ← f x; ys ← mapM_res f l; Ok (y :: ys)
  end.

(** [for x in l: f(x)] for effect (the exceptions) only. *)
Fixpoint forM_res {E A} (f : A → result E unit) (l : list A) : result E unit :=
  match l with
  | [] => Ok ()
  | x :: l => f x ;; forM_res f l
  end.

(** [for x in l: s = f(s, x)] with a fallible body. *)
Fixpoint foldM_res {E A S} (f : S → A → result E S) (l : list A) (s : S)
    : result E S :=
  match l with
  | [] => Ok s
  | x :: l => s' ← f s x; foldM_res f l s'
  end.

Lemma bind_Ok {E A B} (m : result E A) (f : A → result E B) b :
  m ≫= f = Ok b ↔ ∃ a, m = Ok a ∧ f a = Ok b.
Proof. destruct m; cbn; naive_solver. Qed.

Section result_lemmas.
Context {E A B : Type}.

Lemma Ok_inj (a a' : A) : Ok (E:=E) a = Ok a' → a = a'.
Proof. by intros [= ->]. Qed.

Lemma raise_if_Ok b (e : E) u : raise_if b e = Ok u ↔ b = false.
Proof. destruct b, u; cbn; naive_solver. Qed.

Lemma raise_if_Raise b (e e' : E) : raise_if b e = Raise e' ↔ b = true ∧ e = e'.
Proof. destruct b; cbn; naive_solver. Qed.

Lemma mapM_res_Ok (f : A → result E B) l k :
  mapM_res f l = Ok k ↔ Forall2 (λ x y, f x = Ok y) l k.
Proof.
  revert k. induction l as [|x l IH]; intros k; cbn [mapM_res].
  - split; [intros [= <-]; constructor | inversion 1; done].
  - rewrite bind_Ok. split.
    + intros (y & Hy & H). apply bind_Ok in H as (ys & Hys & [= <-]).
      constructor; [done|]. by apply IH.
    + inversion 1; subst. eexists; split; [done|].
      apply bind_Ok. eexists; split; [by apply IH | done].
Qed.

Lemma forM_res_Ok (f : A → result E unit) l :
  forM_res f l = Ok () ↔ Forall (λ x, f x = Ok ()) l.
Proof.
  induction l as [|x l IH]; cbn; [by split|].
  rewrite Forall_cons, <- IH. destruct (f x) as [[]|]; cbn; naive_solver.
Qed.

Lemma is_Ok_iff (m : result E A) : is_Ok m = true ↔ ∃ a, m = Ok a.
Proof. destruct m; cbn; naive_solver. Qed.

Lemma guard_false b (e : E) (k : result E A) : b = false → (raise_if b e ;; k) = k.
Proof. by intros ->. Qed.
Lemma guard_Ok b (e : E) (k : result E A) a : (raise_if b e ;; k) = Ok a ↔ b = false ∧ k = Ok a.
Proof. destruct b; cbn; naive_solver. Qed.

Lemma bind_unit_Ok (m : result E unit) (k : result E A) a : (m ;; k) = Ok a ↔ m = Ok () ∧ k = Ok a.
Proof. destruct m as [[]|]; cbn; naive_solver. Qed.

Lemma bind_bool_guard (m : result E bool) (e : E) (k : result E A) a :
  (b ← m; raise_if b e ;; k) = Ok a ↔ m = Ok false ∧ k = Ok a.
Proof. destruct m as [[]|]; cbn; naive_solver. Qed.
End result_lemmas.

(** ** Automation

    [res_inv] turns hypotheses about successful runs into the successful
    runs of their parts; [bool_prop] turns boolean tests into
    propositions. *)
Lemma eqb_true {A} `{EqDecision A} (x y : A) : (x ==? y) = true ↔ x = y.
Proof. unfold eqb. apply bool_decide_eq_true. Qed.
Lemma eqb_false {A} `{EqDecision A} (x y : A) : (x ==? y) = false ↔ x ≠ y.
Proof. unfold eqb. apply bool_decide_eq_false. Qed.
Lemma eqb_refl {A} `{EqDecision A} (x : A) : (x ==? x) = true.
Proof. by apply eqb_true. Qed.

Create HintDb py discriminated.
Create Rewrite HintDb pyb.
Create Rewrite HintDb pylen.
#[export] Hint Rewrite @eqb_true @eqb_false bool_decide_eq_true bool_decide_eq_false
  Bool.andb_true_iff Bool.orb_false_iff Bool.negb_true_iff Bool.negb_false_iff
  Z.eqb_eq Z.eqb_neq Z.ltb_lt Z.ltb_ge Z.leb_le Z.leb_gt Z.gtb_ltb Z.geb_leb : pyb.

Ltac bool_prop := repeat progress (autorewrite with pyb in *; destruct_and?).

Ltac res_inv :=
  repeat match goal with
  | H : Ok _ = Ok _ |- _ => injection H as H; try subst
  | H : Raise _ = Ok _ |- _ => discriminate H
  | H : Ok _ = Raise _ |- _ => discriminate H
  | H : mret _ = Ok _ |- _ => unfold mret, result_ret in H
  | H : (_ ≫= _) = Ok _ |- _ => apply bind_Ok in H as (? & ? & H)
  | H : raise_if _ _ = Ok _ |- _ => apply raise_if_Ok in H
  | u : unit |- _ => destruct u
  end; simplify_eq/=.

(** One step of a successful run: [bind_step H as x Hx] for [x ← m; k], and
    [guard_step H as Hb] for [raise_if b e ;; k]. *)
Tactic Notation "bind_step" hyp(H) "as" simple_intropattern(x) simple_intropattern(Hx) :=
  apply bind_Ok in H as (x & Hx & H).
Tactic Notation "guard_step" hyp(H) "as" ident(Hb) :=
  apply bind_Ok in H as ([] & Hb & H); apply raise_if_Ok in Hb.

(** Evaluation of binds and guards only. *)
Ltac res_cbn := cbn [raise_if try_except mbind result_bind orb andb negb].

(** Closed decidable goals, by evaluation. *)
Ltac by_decide := refine (bool_decide_eq_true_1 _ _); vm_compute; reflexivity.

(** [lia] extended with the defining equations of [/] and [mod]. *)
Ltac dlia := Z.to_euclidean_division_equations; lia.
Ltac ndlia := repeat rewrite Nat.div2_div in *; zify; Z.to_euclidean_division_equations; lia.

(** ** Lists and integers *)
Section list_lemmas.
Context {A : Type}.
Implicit Types l : list A.

Lemma len_nonneg l : 0 ≤ len l.
Proof. unfold len. lia. Qed.
Lemma len_nil : len (@nil A) = 0.
Proof. done. Qed.
Lemma len_cons x l : len (x :: l) = 1 + len l.
Proof. unfold len. cbn. lia. Qed.
Lemma len_app l k : len (l ++ k) = len l + len k.
Proof. unfold len. rewrite length_app. lia. Qed.
Lemma len_0_nil l : len l = 0 → l = [].
Proof. destruct l; [done|]. rewrite len_cons. pose proof (len_nonneg l). lia. Qed.

Lemma slice_0_app l k : slice 0 (len l) (l ++ k) = l.
Proof.
  unfold slice, len. rewrite Z.sub_0_r, Nat2Z.id. cbn.
  apply take_app_length.
Qed.

Lemma app_inj_len_r l1 l2 k1 k2 :
  length l2 = length k2 → l1 ++ l2 = k1 ++ k2 → l1 = k1 ∧ l2 = k2.
Proof. intros Hl H. by apply app_inj_2. Qed.

Lemma app_inj_len_l l1 l2 k1 k2 :
  length l1 = length k1 → l1 ++ l2 = k1 ++ k2 → l1 = k1 ∧ l2 = k2.
Proof. intros Hl H. by apply app_inj_1. Qed.

Lemma list_eq_take l k n :
  length l = n → (n ≤ length k)%nat →
  (∀ i, (i < n)%nat → l !! i = k !! i) → l = take n k.
Proof.
  intros Hl Hk H. apply list_eq. intros i.
  destruct (decide (i < n)%nat).
  - rewrite lookup_take_lt by done. auto.
  - rewrite !lookup_ge_None_2; [done| |lia]. rewrite length_take. lia.
Qed.
End list_lemmas.

(** [(hi << k) | lo] of disjoint bit ranges. *)
Lemma lor_shiftl_small hi lo k : 0 ≤ k → 0 ≤ lo < 2 ^ k → Z.lor (Z.shiftl hi k) lo = hi * 2 ^ k + lo.
Proof.
  intros Hk Hlo. rewrite <- Z.shiftl_mul_pow2 by done.
  assert (Z.land (Z.shiftl hi k) lo = 0) as Hd.
  { apply Z.bits_inj'. intros n Hn. rewrite Z.land_spec, Z.bits_0.
    destruct (Z.lt_ge_cases n k).
    - rewrite Z.shiftl_spec_low by done. done.
    - rewrite <- (Z.mod_small lo (2 ^ k)), Z.mod_pow2_bits_high by lia. apply andb_false_r. }
  by rewrite <- Z.lxor_lor, <- Z.add_nocarry_lxor.
Qed.

#[export] Hint Rewrite @len_nil @len_cons @len_app @length_app @length_cons
  @length_take @length_drop @length_fmap : pylen.
#[export] Hint Resolve len_nonneg : py.
