(* ===== verification/Sha256.v ===== *)
(** * SHA-256 ([hashlib.sha256] as used by [c2sp_tlog/merkle.py])

    FIPS 180-4 over byte lists, executable with [vm_compute].  The facts the
    other files use are the digest length and the octet range; everything
    else about the hash is stated as the absence of collisions among the
    byte strings an argument names ([collision_free]). *)
From S2P Require Import Prelude.

Definition w32 (x : Z) : Z := Z.land x 0xFFFFFFFF.
Definition rotr (n x : Z) : Z :=
  Z.lor (Z.shiftr x n) (w32 (Z.shiftl x (32 - n))).

Definition ch (x y z : Z) : Z := Z.lxor (Z.land x y) (Z.land (Z.lxor x 0xFFFFFFFF) z).
Definition maj (x y z : Z) : Z :=
  Z.lxor (Z.lxor (Z.land x y) (Z.land x z)) (Z.land y z).
Definition bsig0 (x : Z) : Z := Z.lxor (Z.lxor (rotr 2 x) (rotr 13 x)) (rotr 22 x).
Definition bsig1 (x : Z) : Z := Z.lxor (Z.lxor (rotr 6 x) (rotr 11 x)) (rotr 25 x).
Definition ssig0 (x : Z) : Z := Z.lxor (Z.lxor (rotr 7 x) (rotr 18 x)) (Z.shiftr x 3).
Definition ssig1 (x : Z) : Z := Z.lxor (Z.lxor (rotr 17 x) (rotr 19 x)) (Z.shiftr x 10).

(** The round constants are the first 32 bits of the fractional parts of the
    cube roots of the first 64 primes, the initial state those of the square
    roots of the first eight. *)
Fixpoint cbrt_bits (bits : nat) (n r : Z) : Z :=
  match bits with
  | O => r
  | S bits =>
      let r' := r + 2 ^ Z.of_nat bits in
      cbrt_bits bits n (if r' * r' * r' <=? n then r' else r)
  end.

Definition prime_numbers : list Z :=
  Eval vm_compute in
    filter (λ n, forallb (λ d, negb (n mod d =? 0)) (seqZ 2 (n - 2)) = true) (seqZ 2 310).

Definition k256 : list Z :=
  Eval vm_compute in (λ p, w32 (cbrt_bits 36 (p * 2 ^ 96) 0)) <$> prime_numbers.

(** The eight working variables. *)
Record hstate : Set := HState { ha : Z; hb : Z; hc : Z; hd : Z; he : Z; hf : Z; hg : Z; hh : Z }.

Definition h_init : hstate :=
  Eval vm_compute in
    match (λ p, w32 (Z.sqrt (p * 2 ^ 64))) <$> take 8 prime_numbers with
    | [a; b; c; d; e; f; g; h] => HState a b c d e f g h
    | _ => HState 0 0 0 0 0 0 0 0
    end.

(** The message schedule keeps the last sixteen words, newest first. *)
Fixpoint schedule (n : nat) (win acc : list Z) : list Z :=
  match n with
  | O => acc
  | S n =>
      let w i := default 0 (win !! i) in
      let x := w32 (ssig1 (w 1%nat) + w 6%nat + ssig0 (w 14%nat) + w 15%nat) in
      schedule n (x :: take 15 win) (x :: acc)
  end.

Definition round (s : hstate) (kw : Z * Z) : hstate :=
  let t1 := hh s + bsig1 (he s) + ch (he s) (hf s) (hg s) + kw.1 + kw.2 in
  let t2 := bsig0 (ha s) + maj (ha s) (hb s) (hc s) in
  HState (w32 (t1 + t2)) (ha s) (hb s) (hc s) (w32 (hd s + t1)) (he s) (hf s) (hg s).

Fixpoint be_words (b : bytes) : list Z :=
  match b with
  | b0 :: b1 :: b2 :: b3 :: b =>
      (((b0 * 256 + b1) * 256 + b2) * 256 + b3) :: be_words b
  | _ => []
  end.

Definition compress (s : hstate) (block : bytes) : hstate :=
  let w := be_words block in
  let ws := rev (schedule 48 (rev w) (rev w)) in
  let r := foldl round s (zip k256 ws) in
  HState (w32 (ha s + ha r)) (w32 (hb s + hb r)) (w32 (hc s + hc r)) (w32 (hd s + hd r))
         (w32 (he s + he r)) (w32 (hf s + hf r)) (w32 (hg s + hg r)) (w32 (hh s + hh r)).

Fixpoint blocks (n : nat) (s : hstate) (b : bytes) : hstate :=
  match n with
  | O => s
  | S n => blocks n (compress s (take 64 b)) (drop 64 b)
  end.

(** [n] big-endian octets of [x]. *)
Fixpoint be_bytes (n : nat) (x : Z) : bytes :=
  match n with
  | O => []
  | S n => (Z.shiftr x (8 * Z.of_nat n)) mod 256 :: be_bytes n x
  end.

Definition pad (b : bytes) : bytes :=
  let n := length b in
  b ++ 0x80 :: replicate (Z.to_nat ((55 - Z.of_nat n) mod 64)) 0 ++ be_bytes 8 (8 * Z.of_nat n).

Definition sha256 (b : bytes) : bytes :=
  let p := pad b in
  let s := blocks (length p / 64) h_init p in
  concat (be_bytes 4 <$> [ha s; hb s; hc s; hd s; he s; hf s; hg s; hh s]).

(** ** Facts *)
Lemma length_be_bytes n x : length (be_bytes n x) = n.
Proof. induction n; cbn; congruence. Qed.

Lemma is_bytes_be_bytes n x : is_bytes (be_bytes n x).
Proof.
  induction n; cbn; constructor; [|done]. unfold is_byte.
  apply Z.mod_pos_bound. lia.
Qed.

Lemma length_sha256 b : length (sha256 b) = 32%nat.
Proof. unfold sha256. cbn -[be_bytes blocks pad]. rewrite !length_app, !length_be_bytes. done. Qed.

Lemma is_bytes_sha256 b : is_bytes (sha256 b).
Proof.
  unfold sha256. cbn -[be_bytes blocks pad].
  repeat apply Forall_app_2; try apply is_bytes_be_bytes; constructor.
Qed.

#[global] Opaque sha256.
#[export] Hint Resolve length_sha256 is_bytes_sha256 : py.

(** Two FIPS 180-4 examples. *)

Definition hex (b : bytes) : str :=
  concat ((λ x, let d n := if n <? 10 then 48 + n else 87 + n in [d (x / 16); d (x mod 16)]) <$> b).

Example sha256_empty :
  hex (sha256 []) = lit "e3b0c44298fc1c149afbf4c8996fb92427ae41e4649b934ca495991b7852b855".
Proof. vm_compute. reflexivity. Qed.

Example sha256_abc :
  hex (sha256 (lit "abc"))
  = lit "ba7816bf8f01cfea414140de5dae2223b00361a396177a9cb410ff61f20015ad".
Proof. vm_compute. reflexivity. Qed.

(** ** Collision freedom on a finite set of inputs

    [collision_free xs] says that the hash separates the byte strings in
    [xs].  It is decidable; security statements take it for the strings
    hashed by the parties of the statement, so a violation would exhibit a
    concrete SHA-256 collision. *)
Definition collision_free (xs : list bytes) : Prop :=
  ∀ x y, x ∈ xs → y ∈ xs → sha256 x = sha256 y → x = y.

Definition collision_freeb (xs : list bytes) : bool :=
  let hs := (λ x, (x, sha256 x)) <$> xs in
  forallb (λ p, forallb (λ q, implb (p.2 ==? q.2) (p.1 ==? q.1)) hs) hs.

Lemma collision_freeb_sound xs : collision_freeb xs = true → collision_free xs.
Proof.
  intros H x y Hx Hy Heq. unfold collision_freeb in H.
  rewrite forallb_forall in H.
  assert (∀ z, z ∈ xs → In (z, sha256 z) ((λ x, (x, sha256 x)) <$> xs)) as Hin.
  { intros z Hz. apply list_elem_of_In, list_elem_of_fmap. eauto. }
  specialize (H _ (Hin x Hx)). rewrite forallb_forall in H.
  specialize (H _ (Hin y Hy)). cbn [fst snd] in H. rewrite Heq, eqb_refl in H. cbn [implb] in H.
  by rewrite eqb_true in H.
Qed.

Lemma collision_free_mono xs ys :
  (∀ x, x ∈ ys → x ∈ xs) → collision_free xs → collision_free ys.
Proof. unfold collision_free. intros Hsub H x y Hx Hy. apply H; auto. Qed.
