(* ===== verification/Errors.v ===== *)
(** * Exceptions ([dnsid/exceptions.py], [c2sp_tlog/errors.py])

    One constructor per exception class the modelled code raises or catches;
    the class hierarchy is the family of [is_...] tests, which the [except]
    clauses of the code translate to. *)
From S2P Require Import Prelude.

(** [C2spLifecycleErrorCategory] *)
Inductive category : Set :=
| CHAIN_CONTINUITY | DUPLICATE_ISSUANCE | INVALID_EVIDENCE | INCOMPLETE_STREAM
| INVALID_MIGRATION | KEY_CONTINUITY | TERMINAL_STATE | LOG_ROLLBACK | LOG_FORK
| LOG_INCONSISTENT | CHECKPOINT_STORE_ERROR.

#[global] Instance category_eq_dec : EqDecision category.
Proof. solve_decision. Defined.

(** [VerificationCode] *)
Inductive verification_code : Set :=
| DNS_RESOLUTION | DNSSEC_FAILED | RECORD_INVALID | SIGNATURE_INVALID | TLS_ERROR
| KEY_AGE_EXCEEDED | STATUS_NOT_ACTIVE | STATUS_UNAVAILABLE | LOG_ERROR
| COUNTERPARTY_NOT_ACCEPTED | RECORD_NOT_FOUND | DEADLINE_EXCEEDED | KEY_NOT_FOUND.

#[global] Instance verification_code_eq_dec : EqDecision verification_code.
Proof. solve_decision. Defined.

(** [LifecycleErrorCategory] *)
Inductive lifecycle_category : Set :=
| SNAPSHOT_EMPTY | SNAPSHOT_NON_PREFIX | DOMAIN_MISMATCH | GENESIS_REQUIRED | LC_DUPLICATE_ISSUANCE
| INVALID_ISSUANCE | LC_KEY_CONTINUITY | INVALID_REVOCATION_REASON | LC_INVALID_MIGRATION
| LC_TERMINAL_STATE | UNSUPPORTED_EVENT.

#[global] Instance lifecycle_category_eq_dec : EqDecision lifecycle_category.
Proof. solve_decision. Defined.

(** [ConnectionError], [TimeoutError] and the other [OSError]s. *)
Inductive os_error : Set := OSConnection | OSTimeout | OSOther.
(** The classes of [httpx] exceptions the code tells apart. *)
Inductive httpx_error : Set := HConnect | HTimeout | HTransport | HTooManyRedirects | HOther.

#[global] Instance os_error_eq_dec : EqDecision os_error.
Proof. solve_decision. Defined.
#[global] Instance httpx_error_eq_dec : EqDecision httpx_error.
Proof. solve_decision. Defined.

(** Exceptions, with the attributes later code looks at. *)
Inductive exn : Set :=
| C2spTlogParseError (msg : str)
| C2spTlogVerificationError (msg : str) (cat : option category) (failing_candidate_index : option Z)
| C2spTlogResourceLimitError (msg : str)
| C2spCheckpointConsistencyError (msg : str) (cat : category) (origin : str)
    (trusted_tree_size observed_tree_size : Z) (trusted_root_hash observed_root_hash : bytes)
| MissingC2spConsistencyEvidenceError (msg : str)
| C2spCheckpointStoreError (msg : str)
| C2spTlogTransportError (msg : str) (transient : bool) (status_code : option Z)
| ParseError (msg : str)
| ValidationError (msg : str)
| ArgumentError (msg : str)
| VerificationError (code : verification_code) (msg : str) (transient : bool) (cat : option str)
| LifecycleVerificationError (cat : lifecycle_category) (msg : str) (failing_event_index : option Z)
| ValueError (msg : str)
| TypeError (msg : str)
| KeyError (msg : str)
| AttributeError (msg : str)
| IndexError (msg : str)
| OverflowError (msg : str)
| OSError (kind : os_error) (msg : str)
| HttpxError (kind : httpx_error) (msg : str)
| RuntimeError (msg : str)
| NetworkError (msg : str)
| OAuthError (error error_description : str).

#[global] Instance exn_eq_dec : EqDecision exn.
Proof. solve_decision. Defined.

Abbreviation res := (result exn) (only parsing).

Definition BudgetExhausted : exn :=
  VerificationError DEADLINE_EXCEEDED (lit "verification deadline exceeded or cancelled") true None.

(** [C2spTlogVerificationError(msg)] without classification. *)
Definition verr (msg : string) : exn := C2spTlogVerificationError (lit msg) None None.
Definition verr_cat (msg : string) (c : category) : exn :=
  C2spTlogVerificationError (lit msg) (Some c) None.
Definition perr (msg : string) : exn := C2spTlogParseError (lit msg).

(** [isinstance(exc, C2spTlogResourceLimitError)] *)
Definition is_resource_limit (e : exn) : bool :=
  match e with C2spTlogResourceLimitError _ => true | _ => false end.

(** [isinstance(exc, C2spTlogVerificationError)]: the class and its subclasses. *)
Definition is_c2sp_verification (e : exn) : bool :=
  match e with
  | C2spTlogVerificationError _ _ _ | C2spTlogResourceLimitError _
  | C2spCheckpointConsistencyError _ _ _ _ _ _ _ | MissingC2spConsistencyEvidenceError _ => true
  | _ => false
  end.

(** [isinstance(exc, VerificationError)] *)
Definition is_verification (e : exn) : bool :=
  match e with VerificationError _ _ _ _ | LifecycleVerificationError _ _ _ => true | _ => false end.

(** [isinstance(exc, ValueError)] *)
Definition is_value_error (e : exn) : bool :=
  match e with ValueError _ => true | _ => false end.

(** [isinstance(exc, C2spTlogError)] *)
Definition is_c2sp (e : exn) : bool :=
  match e with
  | C2spTlogParseError _ | C2spCheckpointStoreError _ | C2spTlogTransportError _ _ _ => true
  | e => is_c2sp_verification e
  end.

(** [exc.category] of a C2SP verification error ([None] when unclassified). *)
Definition exn_category (e : exn) : option category :=
  match e with
  | C2spTlogVerificationError _ c _ => c
  | C2spTlogResourceLimitError _ => Some INVALID_EVIDENCE
  | C2spCheckpointConsistencyError _ c _ _ _ _ _ => Some c
  | _ => None
  end.

(** [str(exc)] *)
Definition verification_code_name (c : verification_code) : string :=
  match c with
  | DNS_RESOLUTION => "DNS_RESOLUTION" | DNSSEC_FAILED => "DNSSEC_FAILED"
  | RECORD_INVALID => "RECORD_INVALID" | SIGNATURE_INVALID => "SIGNATURE_INVALID"
  | TLS_ERROR => "TLS_ERROR" | KEY_AGE_EXCEEDED => "KEY_AGE_EXCEEDED"
  | STATUS_NOT_ACTIVE => "STATUS_NOT_ACTIVE" | STATUS_UNAVAILABLE => "STATUS_UNAVAILABLE"
  | LOG_ERROR => "LOG_ERROR" | COUNTERPARTY_NOT_ACCEPTED => "COUNTERPARTY_NOT_ACCEPTED"
  | RECORD_NOT_FOUND => "RECORD_NOT_FOUND" | DEADLINE_EXCEEDED => "DEADLINE_EXCEEDED"
  | KEY_NOT_FOUND => "KEY_NOT_FOUND"
  end.

Definition exn_str (e : exn) : str :=
  match e with
  | C2spTlogParseError m | C2spTlogVerificationError m _ _ | C2spTlogResourceLimitError m
  | C2spCheckpointConsistencyError m _ _ _ _ _ _ | MissingC2spConsistencyEvidenceError m
  | C2spCheckpointStoreError m | C2spTlogTransportError m _ _ | ParseError m
  | ValidationError m | ArgumentError m | ValueError m | TypeError m | KeyError m
  | AttributeError m | IndexError m | OverflowError m | OSError _ m | HttpxError _ m | RuntimeError m
  | NetworkError m => m
  | OAuthError error description =>
      if negb (description ==? []) then description else if negb (error ==? []) then error else lit "OIDC token exchange failed"
  | VerificationError c m _ _ =>
      lit "[" ++ lit (verification_code_name c) ++ lit "] " ++ m
  | LifecycleVerificationError _ m _ => lit "[LOG_ERROR] " ++ m
  end.
