(* ===== verification/Budget.v ===== *)
(** * Verification budgets ([_verification_budget.py])

    Deadlines and cancellation.  The clock reading and the state of the
    cancellation events at the moment of a call are arguments.  Times are
    integers of one unit; the finiteness tests on floats have no counterpart. *)
From S2P Require Import Prelude Errors.

(** The value of the [_budget] context variable: a deadline and the
    cancellation events, by identity. *)
Record Budget : Set := { deadline : Z; cancelled : list nat }.

(** What a call observes: [time.monotonic()] and [event.is_set()]. *)
Record moment : Set := { monotonic : Z; is_set : nat → bool }.

Definition remaining_seconds (m : moment) (budget : option Budget) (maximum : Z) : res Z :=
  raise_if (maximum <? 0) (ArgumentError (lit "child timeout must be finite and non-negative")) ;;
  match budget with
  | None => Ok maximum
  | Some b =>
      let remaining := deadline b - monotonic m in
      raise_if ((remaining <=? 0) || existsb (is_set m) (cancelled b)) BudgetExhausted ;;
      Ok (Z.min maximum remaining)
  end.

(** Entering [verification_budget]: the budget that nested code sees. *)
Definition enter_budget (m : moment) (parent : option Budget) (timeout : Z) (event : option nat)
    : res Budget :=
  raise_if (timeout <=? 0)
    (ArgumentError (lit "verification timeout must be a finite positive number")) ;;
  let deadline' := monotonic m + timeout in
  let events := match event with Some e => [e] | None => [] end in
  let b := match parent with
           | None => {| deadline := deadline'; cancelled := events |}
           | Some p => {| deadline := Z.min deadline' (deadline p);
                          cancelled := events ++ cancelled p |}
           end in
  remaining_seconds m (Some b) 30 ;;
  Ok b.

(** [with verification_budget(...)]: entered at [m], left at [m'].  On an
    exception of the body the closing check is not reached. *)
Definition with_budget {A} (m m' : moment) (parent : option Budget) (timeout : Z)
    (event : option nat) (body : Budget → res A) : res A :=
  b ← enter_budget m parent timeout event;
  a ← body b;
  remaining_seconds m' (Some b) 30 ;;
  Ok a.

(** [@verification_operation]: a default budget at the outermost call only. *)
Definition verification_operation {A} (m m' : moment) (parent : option Budget)
    (body : option Budget → res A) : res A :=
  match parent with
  | Some _ =>
      remaining_seconds m parent 30 ;;
      a ← body parent;
      remaining_seconds m' parent 30 ;;
      Ok a
  | None => with_budget m m' None 30 None (λ b, body (Some b))
  end.

(** A nested budget cannot outlive its parent or ignore its events. *)
Lemma enter_budget_nested m parent timeout event b :
  enter_budget m (Some parent) timeout event = Ok b →
  deadline b ≤ deadline parent ∧ deadline b ≤ monotonic m + timeout
  ∧ (∀ e, e ∈ cancelled parent → e ∈ cancelled b).
Proof.
  unfold enter_budget. intros H. guard_step H as Ht. bind_step H as r Hr. injection H as <-.
  cbn. split_and!; [lia..|]. intros e Hin. apply elem_of_app. by right.
Qed.

(** Child timeouts never restart the clock: under nested budgets, whatever a
    child is granted ends no later than every enclosing deadline and no later
    than its own limits, and once a parent's deadline has passed or one of its
    events is set the child is granted nothing. *)
Theorem nested_budget_bound (parent b : Budget) (m m' : moment) (timeout maximum granted : Z)
    (event : option nat)
    (Henter : enter_budget m (Some parent) timeout event = Ok b)
    (Hgrant : remaining_seconds m' (Some b) maximum = Ok granted) :
  monotonic m' + granted ≤ deadline parent ∧ monotonic m' + granted ≤ monotonic m + timeout
  ∧ granted ≤ maximum ∧ monotonic m' < deadline parent
  ∧ Forall (λ e, is_set m' e = false) (cancelled parent).
Proof.
  apply enter_budget_nested in Henter as (Hd & Ht & Hsub).
  unfold remaining_seconds in Hgrant. guard_step Hgrant as Hm. guard_step Hgrant as Hb.
  injection Hgrant as <-. rewrite orb_false_iff, Z.leb_gt in Hb. destruct Hb as [Hb He].
  split_and!; [lia..|]. apply Forall_forall. intros e Hin.
  destruct (is_set m' e) eqn:Hs; [|done]. rewrite <- He. symmetry. apply existsb_exists.
  exists e. split; [|done]. by apply list_elem_of_In, Hsub.
Qed.

Lemma nested_budget_bound_witness :
  let parent := {| deadline := 100; cancelled := [7%nat] |} in
  20 + 15 ≤ deadline parent.
Proof.
  apply (nested_budget_bound {| deadline := 100; cancelled := [7%nat] |}
           {| deadline := 35; cancelled := [8%nat; 7%nat] |}
           {| monotonic := 5; is_set := λ _, false |} {| monotonic := 20; is_set := λ _, false |}
           30 60 15 (Some 8%nat));
    reflexivity.
Defined.
