(* ===== verification/Concurrency.v ===== *)
(** * Two branches under one budget ([run_concurrently] of [_verification_budget.py])

    The outcome as a function of what the two branches did and of what the
    caller observed; and the branches as threads that share a cancellation
    event, with the outcomes every interleaving can have. *)
From S2P Require Import Prelude Errors.

#[global] Instance sum_res_dec {A} (r : res A) (e : exn) : Decision (r = Raise e).
Proof. destruct r as [a|e']; [by right|]. destruct (decide (e' = e)); [left|right]; congruence. Defined.

(** ** The function *)

(** What the caller observes: whether the event is set when the primary branch
    has run out of budget, and whether the caller's own budget ends while it
    waits for the secondary branch. *)
Record schedule : Set := { cancel_seen : bool; gave_up : bool }.

Definition is_exhausted (e : exn) : bool := e ==? BudgetExhausted.

Definition run_concurrently {T U} (s : schedule) (primary : res T) (secondary : res U) : res (T * U) :=
  match primary with
  | Ok a => if gave_up s then Raise BudgetExhausted else b ← secondary; Ok (a, b)
  | Raise e =>
      if is_exhausted e && cancel_seen s then
        match secondary with
        | Raise e' => if is_exhausted e' then Raise e else Raise e'
        | Ok _ => Raise e
        end
      else Raise e
  end.

(** Success is success of both branches, whatever the schedule. *)
Lemma run_concurrently_Ok {T U} s (primary : res T) (secondary : res U) a b :
  run_concurrently s primary secondary = Ok (a, b) → primary = Ok a ∧ secondary = Ok b.
Proof.
  destruct primary as [x|e]; cbn.
  - destruct (gave_up s); [done|]. intros Hx. bind_step Hx as y Hy. by injection Hx as -> ->.
  - destruct (is_exhausted e && cancel_seen s); [|done]. destruct secondary as [y|e']; [done|]. by destruct (is_exhausted e').
Qed.

(** [async_run_concurrently] from its settled tasks on: [None] for a task that
    was cancelled, [cancelled] when the caller itself was. *)
Definition settled (r : option exn) : bool := match r with Some e => negb (is_exhausted e) | None => false end.
Definition async_outcome {T U} (cancelled : bool) (primary : option (res T)) (secondary : option (res U))
    : option (res (T * U)) :=
  match primary, secondary with
  | Some (Ok a), Some (Ok b) => if cancelled then None else Some (Ok (a, b))
  | _, _ =>
      let error {A} (r : option (res A)) : option exn := match r with Some (Raise e) => Some e | _ => None end in
      if settled (error primary) then Raise <$> error primary
      else if settled (error secondary) then Raise <$> error secondary
      else if cancelled then None
      else match primary with
           | Some (Raise e) => Some (Raise e)
           | None => None
           | Some (Ok _) => match secondary with Some (Raise e) => Some (Raise e) | _ => None end
           end
  end.

(** ** The threads *)
Section threads.
Context {T U : Type} (primary : res T) (secondary : res U).

(** A branch passes checkpoints, each of which ends it when the budget is
    exhausted or the event is set, and then has the outcome it has; a value is
    returned only past one more test. *)
Inductive thread (A : Type) : Type := Running (checkpoints : nat) | Finished (r : res A).
#[local] Arguments Running {A}.
#[local] Arguments Finished {A}.

Record state : Type := { st_primary : thread T; st_secondary : thread U; st_cancel : bool; st_late : bool }.

Definition stopped (st : state) : bool := st_cancel st || st_late st.

(** One step of a branch with outcome [r]. *)
Inductive advance {A} (r : res A) (stop : bool) : thread A → thread A → Prop :=
| adv_check k : stop = false → advance r stop (Running (S k)) (Running k)
| adv_stop k : stop = true → (k = O → is_Ok r = true) → advance r stop (Running k) (Finished (Raise BudgetExhausted))
| adv_return : stop = false → is_Ok r = true → advance r stop (Running 0) (Finished r)
| adv_raise : is_Ok r = false → advance r stop (Running 0) (Finished r).

(** A branch that raises sets the event as it ends. *)
Definition raised {A} (t : thread A) : bool := match t with Finished (Raise _) => true | _ => false end.

Inductive step : state → state → Prop :=
| step_primary p s c l p' : advance primary (c || l) p p' → raised p' = false →
    step {| st_primary := p; st_secondary := s; st_cancel := c; st_late := l |}
         {| st_primary := p'; st_secondary := s; st_cancel := c; st_late := l |}
| step_primary_raises p s c l e : advance primary (c || l) p (Finished (Raise e)) →
    step {| st_primary := p; st_secondary := s; st_cancel := c; st_late := l |}
         {| st_primary := Finished (Raise e); st_secondary := s; st_cancel := c; st_late := l |}
| step_secondary p s c l s' : advance secondary (c || l) s s' →
    step {| st_primary := p; st_secondary := s; st_cancel := c; st_late := l |}
         {| st_primary := p; st_secondary := s'; st_cancel := c || raised s'; st_late := l |}
| step_deadline p s c : 
    step {| st_primary := p; st_secondary := s; st_cancel := c; st_late := false |}
         {| st_primary := p; st_secondary := s; st_cancel := c; st_late := true |}.

(** What the caller can be given. *)
Inductive gives (st : state) : res (T * U) → Prop :=
| gives_both a b : st_primary st = Finished (Ok a) → st_secondary st = Finished (Ok b) → gives st (Ok (a, b))
| gives_secondary a e : st_primary st = Finished (Ok a) → st_secondary st = Finished (Raise e) → gives st (Raise e)
| gives_up a : st_primary st = Finished (Ok a) → st_late st = true → gives st (Raise BudgetExhausted)
| gives_primary e : st_primary st = Finished (Raise e) → e ≠ BudgetExhausted → gives st (Raise e)
| gives_cancelled e : st_primary st = Finished (Raise BudgetExhausted) → st_cancel st = true →
    st_secondary st = Finished (Raise e) → e ≠ BudgetExhausted → gives st (Raise e)
| gives_exhausted : st_primary st = Finished (Raise BudgetExhausted) →
    (st_cancel st = false ∨ st_secondary st = Finished (Raise BudgetExhausted) ∨ ∃ b, st_secondary st = Finished (Ok b)) →
    gives st (Raise BudgetExhausted).

Definition start (i j : nat) : state :=
  {| st_primary := Running i; st_secondary := Running j; st_cancel := false; st_late := false |}.

(** The outcomes of the branches are not exhaustion of a budget. *)
Context (Hprimary : primary ≠ Raise BudgetExhausted) (Hsecondary : secondary ≠ Raise BudgetExhausted).

(** ** Invariant *)
Record sound (st : state) : Prop := {
  sd_primary : ∀ r, st_primary st = Finished r → r = primary ∨ (r = Raise BudgetExhausted ∧ stopped st = true);
  sd_secondary : ∀ r, st_secondary st = Finished r → r = secondary ∨ (r = Raise BudgetExhausted ∧ stopped st = true);
  sd_cancel : st_cancel st = true ↔ raised (st_secondary st) = true;
  sd_late : st_secondary st = Finished (Raise BudgetExhausted) → st_late st = true
}.

Lemma start_sound i j : sound (start i j).
Proof. split; cbn; try done. Qed.

Lemma advance_finished {A} (r : res A) stop t r' : advance r stop t (Finished r') → r' = r ∨ (r' = Raise BudgetExhausted ∧ stop = true).
Proof. inversion 1; subst; auto. Qed.

Lemma step_sound st st' : step st st' → sound st → sound st'.
Proof.
  intros Hs [Hp Hse Hc Hl]. destruct Hs as [p s c l p' Ha Hr|p s c l e Ha|p s c l s' Ha|p s c]; cbn in *; split; cbn; try done.
  - intros r ->. by apply advance_finished in Ha.
  - intros r [= <-]. by apply advance_finished in Ha.
  - intros r E. destruct (Hp r E) as [?|[? Hst]]; [by left|]. right. split; [done|]. unfold stopped in *. cbn in *.
    destruct c, l; cbn in *; try done. by destruct (raised s').
  - intros r ->. apply advance_finished in Ha as [?|[-> Hst]]; [by left|]. right. split; [done|]. unfold stopped. cbn. by rewrite orb_true_r.
  - destruct c; cbn; [|done]. assert (raised s = true) as Hs by by apply Hc. destruct s as [|[|e]]; try done. inversion Ha.
  - intros ->. destruct (advance_finished _ _ _ _ Ha) as [E|[_ Hst]]; [by destruct Hsecondary|]. apply orb_true_iff in Hst as [->|?]; [|done].
    assert (raised s = true) as Hs by by apply Hc. destruct s as [|[|e]]; try done. inversion Ha.
  - intros r E. destruct (Hp r E) as [?|[? _]]; [by left|]. right. unfold stopped. cbn. by rewrite orb_true_r.
  - intros r E. destruct (Hse r E) as [?|[? _]]; [by left|]. right. unfold stopped. cbn. by rewrite orb_true_r.
Qed.

Lemma reachable_sound i j st : rtc step (start i j) st → sound st.
Proof. intros Hr. assert (∀ s, rtc step s st → sound s → sound st) as Hx; [|by apply (Hx _ Hr), start_sound].
  clear Hr. induction 1 as [|s1 s2 s3 Hs _ IH]; [done|]. intros Hsd. by apply IH, (step_sound _ _ Hs). Qed.

(** ** Outcomes *)

(** The error a caller may see: of a branch that fails, or of the deadline. *)
Lemma gives_cases st r : sound st → gives st r →
  (∃ a b, primary = Ok a ∧ secondary = Ok b ∧ r = Ok (a, b)) ∨
  (∃ e, primary = Raise e ∧ r = Raise e) ∨ (∃ e, secondary = Raise e ∧ r = Raise e) ∨ (r = Raise BudgetExhausted ∧ st_late st = true).
Proof.
  intros [Hp Hs Hc Hl] [a b E1 E2|a e E1 E2|a E1 E2|e E1 E2|e E1 E2 E3 E4|E1 E2].
  - left. apply Hp in E1 as [E1|[? _]]; [|done]. apply Hs in E2 as [E2|[? _]]; [|done]. eauto.
  - apply Hs in E2 as E2'. destruct E2' as [E2'|[[= ->] _]]; [right; right; left; eauto|]. right; right; right. by rewrite (Hl E2).
  - right; right; right. done.
  - apply Hp in E1 as [E1|[[= ->] _]]; [|done]. right; left. eauto.
  - apply Hs in E3 as [E3|[[= ->] _]]; [|done]. right; right; left. eauto.
  - right; right; right. split; [done|]. destruct (Hp _ E1) as [E|[_ Hst]]; [congruence|]. unfold stopped in Hst. apply orb_true_iff in Hst as [Hst|?]; [|done].
    destruct E2 as [?|[E2|[b E2]]]; [congruence|by apply Hl|]. apply Hc in Hst. rewrite E2 in Hst. done.
Qed.
End threads.
Arguments Running {A}.
Arguments Finished {A}.

(** The function covers every interleaving: what the caller is given is the
    function of the outcomes of the threads, for some observations. *)
Lemma gives_run {T U} (st : @state T U) r : gives st r → ∃ sched p s, st_primary st = Finished p ∧
  (∀ x, st_secondary st = Finished x → s = x) ∧ r = run_concurrently sched p s.
Proof.
  intros [a b E1 E2|a e E1 E2|a E1 E2|e E1 E2|e E1 E2 E3 E4|E1 E2].
  - exists {| cancel_seen := false; gave_up := false |}, (Ok a), (Ok b). split_and!; [done|congruence|done].
  - exists {| cancel_seen := false; gave_up := false |}, (Ok a), (Raise e). split_and!; [done|congruence|done].
  - exists {| cancel_seen := false; gave_up := true |}, (Ok a).
    destruct (st_secondary st) as [k|x]; [exists (Raise BudgetExhausted)|exists x]; split_and!; naive_solver.
  - exists {| cancel_seen := false; gave_up := false |}, (Raise e).
    destruct (st_secondary st) as [k|x]; [exists (Raise BudgetExhausted)|exists x];
      (split_and!; [naive_solver..|]); cbn; by rewrite andb_false_r.
  - exists {| cancel_seen := true; gave_up := false |}, (Raise BudgetExhausted), (Raise e). split_and!; [done|congruence|].
    unfold run_concurrently. unfold is_exhausted. rewrite (proj2 (eqb_false e _)) by done. by rewrite eqb_refl.
  - destruct E2 as [E2|[E2|[b E2]]].
    + exists {| cancel_seen := false; gave_up := false |}, (Raise BudgetExhausted).
      destruct (st_secondary st) as [k|x]; [exists (Raise BudgetExhausted)|exists x]; (split_and!; [naive_solver..|]); cbn; by rewrite andb_false_r.
    + exists {| cancel_seen := true; gave_up := false |}, (Raise BudgetExhausted), (Raise BudgetExhausted). split_and!; [done|congruence|].
      by unfold run_concurrently, is_exhausted; rewrite eqb_refl.
    + exists {| cancel_seen := true; gave_up := false |}, (Raise BudgetExhausted), (Ok b). split_and!; [done|congruence|].
      by unfold run_concurrently; destruct (is_exhausted _ && _).
Qed.

(** The outcome of two concurrent branches, for every interleaving in which
    the deadline does not pass: the values when both succeed, and otherwise an
    error of a branch that fails (never the cancellation itself); so it depends
    on the interleaving only when both branches fail. *)
Theorem concurrent_outcome {T U} (primary : res T) (secondary : res U) (i j : nat) (st : state) (r : res (T * U))
    (Hp : primary ≠ Raise BudgetExhausted) (Hs : secondary ≠ Raise BudgetExhausted)
    (Hreach : rtc (step primary secondary) (start i j) st) (Hgives : gives st r) (Hlate : st_late st = false) :
  match primary, secondary with
  | Ok a, Ok b => r = Ok (a, b)
  | Raise e, Ok _ => r = Raise e
  | Ok _, Raise e => r = Raise e
  | Raise e, Raise e' => r = Raise e ∨ r = Raise e'
  end.
Proof.
  pose proof (reachable_sound _ _ Hs _ _ _ Hreach) as Hsd.
  destruct (gives_cases _ _ Hp _ _ Hsd Hgives) as [(a & b & -> & -> & ->)|[(e & -> & ->)|[(e & -> & ->)|[_ ?]]]]; [done| | |congruence].
  - destruct secondary; [done|by left].
  - destruct primary; [done|by right].
Qed.

(** The run in which the secondary branch fails first. *)
Lemma secondary_first {T U} (primary : res T) (e : exn) i : e ≠ BudgetExhausted → ∃ st,
  rtc (step primary (Raise e : res U)) (start (S i) 0) st ∧ gives st (Raise e) ∧ st_late st = false.
Proof.
  intros He. eexists. split.
  - eapply rtc_l; [apply step_secondary, adv_raise; done|]. eapply rtc_l; [|apply rtc_refl].
    eapply step_primary_raises, adv_stop; done.
  - split; [|done]. by eapply gives_cancelled.
Qed.

(** The run in which the primary branch never sees the event. *)
Lemma primary_only {T U} (e : exn) (secondary : res U) i j : e ≠ BudgetExhausted → ∃ st,
  rtc (step (Raise e : res T) secondary) (start i j) st ∧ gives st (Raise e) ∧ st_late st = false.
Proof.
  intros He. exists {| st_primary := Finished (Raise e); st_secondary := Running j; st_cancel := false; st_late := false |}. split.
  - induction i as [|i IH].
    + eapply rtc_l; [|apply rtc_refl]. by apply step_primary_raises, adv_raise.
    + eapply rtc_l; [|exact IH]. apply step_primary; [by apply adv_check|done].
  - split; [|done]. by eapply gives_primary.
Qed.

(** The documentation of [run_concurrently] fixes the precedence "so callers
    see the same code regardless of which branch settled first: primary failure,
    then secondary failure".  When both branches fail this is not so: if the
    secondary branch fails first, a primary branch with a checkpoint left is
    stopped there and the caller is given the secondary failure; in another
    interleaving it is given the primary one. *)
Theorem precedence_depends_on_interleaving {T U} (e e' : exn) (i : nat) (He : e ≠ BudgetExhausted) (He' : e' ≠ BudgetExhausted) :
  (∃ st, rtc (step (Raise e : res T) (Raise e' : res U)) (start (S i) 0) st ∧ st_late st = false ∧ gives st (Raise e)) ∧
  (∃ st, rtc (step (Raise e : res T) (Raise e' : res U)) (start (S i) 0) st ∧ st_late st = false ∧ gives st (Raise e')).
Proof.
  split.
  - destruct (primary_only (T:=T) e (Raise e' : res U) (S i) 0 He) as (st & ? & ? & ?). eauto.
  - destruct (secondary_first (U:=U) (Raise e : res T) e' i He') as (st & ? & ? & ?). eauto.
Qed.

(** ** Termination *)
Definition thread_left {A} (t : thread A) : nat := match t with Running k => S k | Finished _ => 0 end.
Definition steps_left {T U} (st : @state T U) : nat :=
  thread_left (st_primary st) + thread_left (st_secondary st) + if st_late st then 0 else 1.

Lemma advance_left {A} (r : res A) stop t t' : advance r stop t t' → (thread_left t' < thread_left t)%nat.
Proof. destruct 1; cbn; lia. Qed.

Lemma step_left {T U} (primary : res T) (secondary : res U) st st' : step primary secondary st st' → (steps_left st' < steps_left st)%nat.
Proof.
  unfold steps_left. destruct 1 as [p s c l p' Ha _|p s c l e Ha|p s c l s' Ha|p s c]; cbn [st_primary st_secondary st_late];
    try apply advance_left in Ha; cbn [thread_left] in *; lia.
Qed.

Lemma advance_total {A} (r : res A) stop k : ∃ t, advance r stop (Running k) t.
Proof.
  destruct k as [|k], stop; [| |eexists; by apply adv_stop|eexists; by apply adv_check].
  - destruct (is_Ok r) eqn:E; eexists; [by apply adv_stop|by apply adv_raise].
  - destruct (is_Ok r) eqn:E; eexists; [by apply adv_return|by apply adv_raise].
Qed.

(** Both branches and the wait end: no run of the threads is infinite, and a
    reachable state from which no step is possible gives the caller an
    outcome. *)
Theorem concurrent_terminates {T U} (primary : res T) (secondary : res U) (i j : nat) (st : state)
    (Hp : primary ≠ Raise BudgetExhausted) (Hs : secondary ≠ Raise BudgetExhausted)
    (Hreach : rtc (step primary secondary) (start i j) st) :
  Acc (λ s s', step primary secondary s' s) st ∧
  ((∀ st', ¬ step primary secondary st st') → ∃ r, gives st r).
Proof.
  split.
  - clear. induction st as [st IH] using (induction_ltof1 _ (@steps_left T U)). constructor. intros st' Hst. apply IH. by apply step_left in Hst.
  - intros Hstop. pose proof (reachable_sound _ _ Hs _ _ _ Hreach) as [_ _ Hc _]. destruct st as [p s c l]. cbn in Hc.
    destruct p as [k|p].
    { destruct (advance_total primary (c || l) k) as [t Ht]. exfalso. destruct (raised t) eqn:E.
      - destruct t as [|[|e]]; try done. eapply Hstop. by apply step_primary_raises.
      - eapply Hstop. by apply step_primary. }
    destruct s as [k|s]. { destruct (advance_total secondary (c || l) k) as [t Ht]. exfalso. eapply Hstop. by apply step_secondary. }
    destruct p as [a|e], s as [b|e'].
    + eexists. by eapply gives_both.
    + eexists. by eapply gives_secondary.
    + destruct (decide (e = BudgetExhausted)) as [->|]; eexists; [|by eapply gives_primary]. apply gives_exhausted; [done|]. right; right. by exists b.
    + destruct (decide (e = BudgetExhausted)) as [->|]; [|by eexists; eapply gives_primary]. cbn in Hc.
      destruct (decide (e' = BudgetExhausted)) as [->|]; eexists; [apply gives_exhausted; [done|]; right; by left|]. eapply gives_cancelled; [done| |done..].
      cbn. by apply Hc.
Qed.

(** ** Witnesses *)
Definition identity_failure : exn := VerificationError RECORD_INVALID (lit "ek and ku share a key") false None.
Definition status_failure : exn := VerificationError STATUS_UNAVAILABLE (lit "status endpoint unavailable") true None.

Lemma concurrent_outcome_witness : ∃ (st : @state unit unit) (r : res (unit * unit)), gives st r ∧ r = Raise status_failure.
Proof.
  destruct (secondary_first (U:=unit) (Ok () : res unit) status_failure 2 ltac:(by_decide)) as (st & Hr & Hg & Hl).
  exists st, (Raise status_failure). split; [exact Hg|].
  exact (concurrent_outcome (Ok () : res unit) (Raise status_failure : res unit) 3 0 st (Raise status_failure) ltac:(done) ltac:(by_decide) Hr Hg Hl).
Defined.

Lemma precedence_depends_on_interleaving_witness :
  ∃ st : @state unit unit, gives st (Raise status_failure) ∧ rtc (step (Raise identity_failure) (Raise status_failure)) (start 2 0) st.
Proof.
  destruct (precedence_depends_on_interleaving (T:=unit) (U:=unit) identity_failure status_failure 1 ltac:(by_decide) ltac:(by_decide))
    as [_ (st & Hr & _ & Hg)]. by exists st.
Defined.

Lemma concurrent_terminates_witness : Acc (λ s s', step (Ok () : res unit) (Raise status_failure : res unit) s' s) (start 3 4).
Proof. apply (concurrent_terminates (Ok () : res unit) (Raise status_failure : res unit) 3 4 (start 3 4)); [done|by_decide|apply rtc_refl]. Defined.
