(* ===== verification/Retry.v ===== *)
(** * Retries ([dnsid/retry.py])

    [fn k] is the outcome of the [k]th call.  The result comes with the list of
    sleeps, in some unit of time that makes the delays whole; [jitter k] is the
    value of [random.uniform(0, 1)] before the sleep after the [k]th call. *)
From S2P Require Import Prelude Errors.

(** [isinstance(exc, VerificationError)] with [exc.transient] *)
Definition transient_of (e : exn) : option bool :=
  match e with
  | VerificationError _ _ t _ => Some t
  | LifecycleVerificationError _ _ _ => Some false
  | _ => None
  end.

Section retry.
Context {A : Type} (fn : nat → res A) (max_attempts : nat) (base_delay max_delay : Z) (jitter : nat → Z).

Definition delay (attempt : nat) : Z := Z.min (base_delay * 2 ^ Z.of_nat attempt) max_delay + jitter attempt.

(** The rounds from [attempt] on, [rounds] of them; [last_exc] is the error of the
    round before. *)
Fixpoint retry_loop (rounds attempt : nat) (last_exc : option exn) (sleeps : list Z) : list Z * res A :=
  match rounds with
  | O => (sleeps, Raise (default (TypeError (lit "exceptions must derive from BaseException")) last_exc))
  | S rounds =>
      match fn attempt with
      | Ok a => (sleeps, Ok a)
      | Raise e =>
          match transient_of e with
          | Some true =>
              retry_loop rounds (S attempt) (Some e)
                (if bool_decide (attempt < max_attempts - 1)%nat then sleeps ++ [delay attempt] else sleeps)
          | _ => (sleeps, Raise e)
          end
      end
  end.

Definition retry_transient : list Z * res A := retry_loop max_attempts 0 None [].

Definition failed_transiently (k : nat) : Prop := ∃ e, fn k = Raise e ∧ transient_of e = Some true.

Lemma retry_loop_spec rounds attempt last sleeps ss r : (attempt + rounds = max_attempts)%nat → rounds ≠ 0%nat →
  retry_loop rounds attempt last sleeps = (ss, r) →
  ∃ k, (attempt ≤ k < max_attempts)%nat ∧ r = fn k ∧ (∀ j, (attempt ≤ j < k)%nat → failed_transiently j)
    ∧ (failed_transiently k → k = max_attempts - 1)%nat ∧ ss = sleeps ++ map delay (seq attempt (k - attempt)).
Proof.
  revert attempt last sleeps. induction rounds as [|rounds IH]; intros attempt last sleeps Hm H0 Hx; [done|].
  cbn [retry_loop] in Hx. destruct (fn attempt) as [a|e] eqn:Hf.
  - injection Hx as <- <-. exists attempt. rewrite Nat.sub_diag, app_nil_r. split_and!; [lia|lia|done|lia| |done].
    intros (e & He & _). congruence.
  - destruct (transient_of e) as [[]|] eqn:Ht.
    2,3: injection Hx as <- <-; exists attempt; rewrite Nat.sub_diag, app_nil_r; split_and!; [lia|lia|done|lia| |done];
         intros (e' & He' & Ht'); congruence.
    destruct rounds as [|rounds].
    + cbn in Hx. injection Hx as <- <-. exists attempt. rewrite Nat.sub_diag. rewrite bool_decide_eq_false_2 by lia.
      split_and!; [lia|lia|done|lia|lia|by rewrite app_nil_r].
    + apply IH in Hx as (k & Hk & -> & Hj & Hl & ->); [|lia|done]. exists k. split_and!; [lia|lia|done| |done|].
      * intros j Hj'. destruct (decide (j = attempt)) as [->|]; [by exists e|apply Hj; lia].
      * rewrite bool_decide_eq_true_2 by lia. rewrite <- app_assoc. f_equal.
        replace (k - attempt)%nat with (S (k - S attempt)) by lia. done.
Qed.
End retry.

(** A retried call ends: [retry_transient] calls [fn] at most [max_attempts]
    times and returns the outcome of the last call made, which is the first that
    is not a transient [VerificationError], or the last allowed; it sleeps once
    between two calls, each time at most the capped delay and the jitter. *)
Theorem retry_terminates {A} (fn : nat → res A) (max_attempts : nat) (base_delay max_delay unit_ : Z) (jitter : nat → Z)
    (sleeps : list Z) (r : res A)
    (Hmax : (1 ≤ max_attempts)%nat) (Hj : ∀ k, 0 ≤ jitter k ≤ unit_)
    (Hrun : retry_transient fn max_attempts base_delay max_delay jitter = (sleeps, r)) :
  ∃ k, (k < max_attempts)%nat ∧ r = fn k ∧ (∀ j, (j < k)%nat → failed_transiently fn j)
    ∧ (failed_transiently fn k → k = max_attempts - 1)%nat
    ∧ length sleeps = k ∧ ∀ d, d ∈ sleeps → d ≤ max_delay + unit_.
Proof.
  apply retry_loop_spec in Hrun as (k & Hk & -> & Hfail & Hlast & ->); [|done|lia].
  exists k. rewrite Nat.sub_0_r. cbn [app]. split_and!; [lia|done|intros j Hj'; apply Hfail; lia|done|by rewrite length_map, length_seq|].
  intros d (i & -> & _)%list_elem_of_fmap. unfold delay. specialize (Hj i). lia.
Qed.

(** A success that follows only transient failures is returned: if the [k]th
    call, [k < max_attempts], is the first that does not fail transiently and it
    succeeds, then [retry_transient] returns its value. *)
Theorem retry_reaches_success {A} (fn : nat → res A) (max_attempts k : nat) (base_delay max_delay : Z) (jitter : nat → Z) (a : A)
    (Hk : (k < max_attempts)%nat) (Hok : fn k = Ok a) (Hbefore : ∀ j, (j < k)%nat → failed_transiently fn j) :
  (retry_transient fn max_attempts base_delay max_delay jitter).2 = Ok a.
Proof.
  destruct (retry_transient _ _ _ _ _) as [ss r] eqn:Hrun.
  apply retry_loop_spec in Hrun as (k' & Hk' & -> & Hfail & Hlast & _); [|done|lia]. cbn.
  destruct (Nat.lt_trichotomy k' k) as [Hlt|[->|Hgt]]; [|done|].
  - pose proof (Hlast (Hbefore _ Hlt)). lia.
  - destruct (Hfail k) as (e & He & _); [lia|]. congruence.
Qed.

Definition flaky (k : nat) : res nat := if (k <? 2)%nat then Raise BudgetExhausted else Ok k.

Lemma retry_terminates_witness :
  ∃ k, (k < 3)%nat ∧ Ok 2%nat = flaky k ∧ length [1500; 2500] = k.
Proof.
  destruct (retry_terminates flaky 3 1000 30000 1000 (λ _, 500) [1500; 2500] (Ok 2%nat)) as (k & Hk & Hr & _ & _ & Hs & _);
    [lia|intros _; lia|vm_compute; reflexivity|]. exists k. split; [exact Hk|]. split; [exact Hr|exact Hs].
Defined.

Lemma retry_reaches_success_witness : (retry_transient flaky 3 1000 30000 (λ _, 500)).2 = Ok 2%nat.
Proof.
  apply (retry_reaches_success flaky 3 2); [lia|reflexivity|].
  intros [|[|j]] Hj; [exists BudgetExhausted; split; reflexivity..|lia].
Defined.
