(* ===== verification/PyText.v ===== *)
(** * Python text and integer primitives

    The parts of [str], [bytes], [int] and [re] that the modelled modules
    use, as executable functions on lists of code points. *)
From S2P Require Import Prelude Errors.

(** ** Dicts *)

(** [d.get(k)] of a dict in insertion order. *)
Fixpoint dict_get {A} (k : str) (d : list (str * A)) : option A :=
  match d with
  | [] => None
  | (k', v) :: d => if k' ==? k then Some v else dict_get k d
  end.

(** [d[k] = v]: an existing key keeps its position. *)
Fixpoint dict_set {A} (k : str) (v : A) (d : list (str * A)) : list (str * A) :=
  match d with
  | [] => [(k, v)]
  | (k', v') :: d => if k' ==? k then (k, v) :: d else (k', v') :: dict_set k v d
  end.

(** ** Searching and splitting *)

(** [s.startswith(p)] *)
Fixpoint startswith (p s : str) : bool :=
  match p, s with
  | [], _ => true
  | _ :: _, [] => false
  | x :: p, y :: s => (x =? y) && startswith p s
  end.

Definition endswith (p s : str) : bool := startswith (rev p) (rev s).

(** [s.find(sub)] from position [k] of the enclosing string; [-1] if absent. *)
Fixpoint find_at (k : Z) (sub s : str) : Z :=
  if startswith sub s then k
  else match s with [] => -1 | _ :: s => find_at (k + 1) sub s end.
Definition find (sub s : str) : Z := find_at 0 sub s.

(** [s.find(sub, start)] for [0 <= start]. *)
Definition find_from (start : Z) (sub s : str) : Z :=
  let s' := drop (Z.to_nat start) s in
  if len s <? start then -1 else find_at start sub s'.

(** [s.rfind(c)] of one character. *)
Fixpoint rfind_at (k best : Z) (c : Z) (s : str) : Z :=
  match s with
  | [] => best
  | x :: s => rfind_at (k + 1) (if x =? c then k else best) c s
  end.
Definition rfind (c : Z) (s : str) : Z := rfind_at 0 (-1) c s.

(** [sub in s] *)
Definition contains (sub s : str) : bool := negb (find sub s =? -1).

(** [s.split(c)] for a one-character separator. *)
Fixpoint split (c : Z) (s : str) : list str :=
  match s with
  | [] => [[]]
  | x :: s =>
      if x =? c then [] :: split c s
      else match split c s with
           | [] => [[x]]
           | w :: ws => (x :: w) :: ws
           end
  end.

(** [sep.join(parts)] *)
Fixpoint join (sep : str) (parts : list str) : str :=
  match parts with
  | [] => []
  | [p] => p
  | p :: parts => p ++ sep ++ join sep parts
  end.

(** ** Stripping *)
Fixpoint lstrip (f : Z → bool) (s : str) : str :=
  match s with
  | [] => []
  | x :: s' => if f x then lstrip f s' else s
  end.
Definition rstrip (f : Z → bool) (s : str) : str := rev (lstrip f (rev s)).
Definition strip (f : Z → bool) (s : str) : str := rstrip f (lstrip f s).

(** [str.isspace] of one character, the default of [strip()], [split()] and
    of the regular-expression class [\s]. *)
Definition is_space (c : Z) : bool :=
  ((9 <=? c) && (c <=? 13)) || ((28 <=? c) && (c <=? 32)) || (c =? 0x85) || (c =? 0xA0)
  || (c =? 0x1680) || ((0x2000 <=? c) && (c <=? 0x200A)) || (c =? 0x2028) || (c =? 0x2029)
  || (c =? 0x202F) || (c =? 0x205F) || (c =? 0x3000).

(** [re.split(r"[...]+", s)] and the skeleton of [s.split()]: maximal runs of
    characters outside the class. *)
Fixpoint split_runs (f : Z → bool) (s : str) : list str :=
  match s with
  | [] => [[]]
  | x :: s' =>
      if f x then
        match s' with
        | y :: _ => if f y then split_runs f s' else [] :: split_runs f s'
        | [] => [[]; []]
        end
      else match split_runs f s' with
           | [] => [[x]]
           | w :: ws => (x :: w) :: ws
           end
  end.

(** [s.split()]: the non-empty runs of non-space characters. *)
Definition words (s : str) : list str := filter (λ w, w ≠ []) (split_runs is_space s).

(** The longest prefix of characters in a class. *)
Fixpoint take_while (f : Z → bool) (s : str) : str :=
  match s with
  | [] => []
  | x :: s => if f x then x :: take_while f s else []
  end.

(** ** Character classes *)
Definition is_digit (c : Z) : bool := (48 <=? c) && (c <=? 57).
Definition is_upper (c : Z) : bool := (65 <=? c) && (c <=? 90).
Definition is_lower (c : Z) : bool := (97 <=? c) && (c <=? 122).
Definition is_alpha (c : Z) : bool := is_upper c || is_lower c.
Definition is_alnum (c : Z) : bool := is_alpha c || is_digit c.
Definition is_hex (c : Z) : bool :=
  is_digit c || ((65 <=? c) && (c <=? 70)) || ((97 <=? c) && (c <=? 102)).

(** [s.lower()] on ASCII letters, and [s.upper()]. *)
Definition lower_ascii (c : Z) : Z := if is_upper c then c + 32 else c.
Definition upper_ascii (c : Z) : Z := if is_lower c then c - 32 else c.

(** The text matched by [^...$] under [re.match]: [$] also matches before one
    final newline, which the pattern itself then does not see. *)
Definition re_dollar (s : str) : str :=
  match rev s with
  | 10 :: r => rev r
  | _ => s
  end.

(** ** Decimal numerals *)
Fixpoint digits_rev (fuel : nat) (n : Z) : list Z :=
  match fuel with
  | O => [n mod 10]
  | S fuel => if n <? 10 then [n] else (n mod 10) :: digits_rev fuel (n / 10)
  end.

(** [str(n)]: a number has at most as many decimal as binary digits. *)
Definition str_of_nonneg (n : Z) : str :=
  rev ((λ d, d + 48) <$> digits_rev (Z.to_nat (Z.log2 n)) n).
Definition str_of_int (n : Z) : str :=
  if n <? 0 then 45 :: str_of_nonneg (- n) else str_of_nonneg n.

(** [int(s)] on a string of ASCII digits. *)
Definition int_of_digits (s : str) : Z := foldl (λ a c, 10 * a + (c - 48)) 0 s.

(** The pattern of a canonical decimal: [0], or a digit [1-9] and digits. *)
Definition is_canonical_int (s : str) : bool :=
  match re_dollar s with
  | [] => false
  | [48] => true
  | c :: s => (49 <=? c) && (c <=? 57) && forallb is_digit s
  end.

(** [int(s)] where [s] matched that pattern: [int] drops the final newline. *)
Definition int_of_canonical (s : str) : Z := int_of_digits (re_dollar s).

(** [s.zfill(width)] *)
Definition zfill (width : Z) (s : str) : str :=
  replicate (Z.to_nat (width - len s)) 48 ++ s.

(** ** UTF-8 *)
Definition is_surrogate (c : Z) : bool := (0xD800 <=? c) && (c <=? 0xDFFF).

Definition utf8_char (c : Z) : bytes :=
  if c <? 0x80 then [c]
  else if c <? 0x800 then [0xC0 + c / 64; 0x80 + c mod 64]
  else if c <? 0x10000 then
    [0xE0 + c / 4096; 0x80 + (c / 64) mod 64; 0x80 + c mod 64]
  else [0xF0 + c / 262144; 0x80 + (c / 4096) mod 64; 0x80 + (c / 64) mod 64; 0x80 + c mod 64].

(** [s.encode("utf-8")]; lone surrogates raise [UnicodeEncodeError], a
    subclass of [ValueError]. *)
Definition utf8_encode (s : str) : res bytes :=
  if existsb is_surrogate s then Raise (ValueError (lit "surrogates not allowed"))
  else Ok (concat (utf8_char <$> s)).

Definition cont (b : Z) : bool := (0x80 <=? b) && (b <=? 0xBF).

(** [b.decode("utf-8", errors="strict")]; every step consumes at least one
    octet, so the length of the input is enough fuel. *)
Fixpoint utf8_decode_loop (fuel : nat) (b : bytes) : res str :=
  match fuel, b with
  | _, [] => Ok []
  | O, _ => Raise (ValueError (lit "invalid start byte"))
  | S fuel, b0 :: r0 =>
      if b0 <? 0x80 then s ← utf8_decode_loop fuel r0; Ok (b0 :: s)
      else match r0 with
      | b1 :: r1 =>
          if (0xC2 <=? b0) && (b0 <=? 0xDF) && cont b1 then
            s ← utf8_decode_loop fuel r1; Ok (((b0 - 0xC0) * 64 + (b1 - 0x80)) :: s)
          else match r1 with
          | b2 :: r2 =>
              let c3 := ((b0 - 0xE0) * 64 + (b1 - 0x80)) * 64 + (b2 - 0x80) in
              if (0xE0 <=? b0) && (b0 <=? 0xEF) && cont b1 && cont b2
                 && (0x800 <=? c3) && negb (is_surrogate c3) then
                s ← utf8_decode_loop fuel r2; Ok (c3 :: s)
              else match r2 with
              | b3 :: r3 =>
                  let c4 := (((b0 - 0xF0) * 64 + (b1 - 0x80)) * 64 + (b2 - 0x80)) * 64 + (b3 - 0x80) in
                  if (0xF0 <=? b0) && (b0 <=? 0xF4) && cont b1 && cont b2 && cont b3
                     && (0x10000 <=? c4) && (c4 <=? 0x10FFFF) then
                    s ← utf8_decode_loop fuel r3; Ok (c4 :: s)
                  else Raise (ValueError (lit "invalid continuation byte"))
              | [] => Raise (ValueError (lit "unexpected end of data"))
              end
          | [] => Raise (ValueError (lit "unexpected end of data"))
          end
      | [] => Raise (ValueError (lit "unexpected end of data"))
      end
  end.
Definition utf8_decode (b : bytes) : res str := utf8_decode_loop (length b) b.

(** ** Big-endian integers, hexadecimal *)
(** [int.from_bytes(b, "big")] *)
Definition int_from_bytes (b : bytes) : Z := foldl (λ a x, 256 * a + x) 0 b.

Definition hex_digit (n : Z) : Z := if n <? 10 then 48 + n else 87 + n.
(** [b.hex()] *)
Definition bytes_hex (b : bytes) : str :=
  concat ((λ x, [hex_digit (x / 16); hex_digit (x mod 16)]) <$> b).
Definition hex_value (c : Z) : Z :=
  if is_digit c then c - 48 else if is_upper c then c - 55 else c - 87.
(** [bytes.fromhex(s)] on pairs of hexadecimal digits. *)
Fixpoint bytes_fromhex (s : str) : bytes :=
  match s with
  | a :: b :: s => (16 * hex_value a + hex_value b) :: bytes_fromhex s
  | _ => []
  end.

(** ** Facts *)
Lemma digits_rev_spec fuel n :
  0 ≤ n < 2 ^ (Z.of_nat fuel + 1) →
  foldr (λ d a, d + 10 * a) 0 (digits_rev fuel n) = n ∧
  Forall (λ d, 0 ≤ d ≤ 9) (digits_rev fuel n).
Proof.
  revert n. induction fuel as [|fuel IH]; intros n Hn; cbn [digits_rev].
  - change (2 ^ (Z.of_nat 0 + 1)) with 2 in Hn. cbn. rewrite Z.mod_small by lia.
    split; [lia|]. repeat constructor; lia.
  - destruct (Z.ltb_spec n 10); cbn [foldr].
    + split; [lia|]. repeat constructor; lia.
    + rewrite Nat2Z.inj_succ, Z.add_succ_l, Z.pow_succ_r in Hn by lia.
      destruct (IH (n / 10)) as [-> Hf]; [dlia|]. split; [dlia|].
      constructor; [dlia|done].
Qed.

Lemma log2_fuel n : 0 ≤ n → n < 2 ^ (Z.of_nat (Z.to_nat (Z.log2 n)) + 1).
Proof.
  intros Hn. pose proof (Z.log2_nonneg n). rewrite Z2Nat.id by lia.
  destruct (decide (n = 0)) as [->|]; [done|].
  destruct (Z.log2_spec n) as [_ H1]; [lia|]. by rewrite Z.add_1_r.
Qed.

Lemma int_of_digits_snoc s c : int_of_digits (s ++ [c]) = 10 * int_of_digits s + (c - 48).
Proof. unfold int_of_digits. by rewrite foldl_app. Qed.

Lemma int_of_digits_rev l :
  int_of_digits (rev ((λ d, d + 48) <$> l)) = foldr (λ d a, d + 10 * a) 0 l.
Proof.
  induction l as [|d l IH]; [done|]. cbn [fmap list_fmap rev foldr].
  rewrite int_of_digits_snoc, IH. lia.
Qed.

(** [int(str(n)) == n] *)
Lemma int_of_str_of_nonneg n : 0 ≤ n → int_of_digits (str_of_nonneg n) = n.
Proof.
  intros Hn. unfold str_of_nonneg. rewrite int_of_digits_rev.
  apply digits_rev_spec. split; [done|by apply log2_fuel].
Qed.

Lemma forallb_Forall {A} (f : A → bool) l : forallb f l = true ↔ Forall (λ x, f x = true) l.
Proof. induction l; cbn; rewrite ?andb_true_iff, ?Forall_cons; naive_solver. Qed.

Lemma str_of_nonneg_digits n : 0 ≤ n → Forall (λ c, is_digit c = true) (str_of_nonneg n).
Proof.
  intros Hn. unfold str_of_nonneg. apply Forall_rev, Forall_fmap.
  destruct (digits_rev_spec (Z.to_nat (Z.log2 n)) n) as [_ Hf]; [split; [done|by apply log2_fuel]|].
  eapply Forall_impl; [exact Hf|]. intros d Hd. unfold compose, is_digit. cbn beta in *. lia.
Qed.

Lemma str_of_nonneg_nonempty n : str_of_nonneg n ≠ [].
Proof.
  unfold str_of_nonneg. intros H. apply (f_equal length) in H.
  rewrite length_rev, length_fmap in H. destruct (Z.to_nat (Z.log2 n)); cbn in H; [done|].
  by destruct (_ <? _).
Qed.

(** Leading zeros do not change the value. *)
Lemma int_of_digits_app s t :
  int_of_digits (s ++ t) = int_of_digits s * 10 ^ len t + int_of_digits t.
Proof.
  induction t as [|c t IH] using rev_ind.
  - rewrite app_nil_r, len_nil, Z.pow_0_r. change (int_of_digits []) with 0. lia.
  - rewrite app_assoc, !int_of_digits_snoc, IH, len_app.
    rewrite Z.pow_add_r by (pose proof (len_nonneg t); done).
    change (10 ^ len [c]) with 10. lia.
Qed.

Lemma int_of_digits_zeros k : int_of_digits (replicate k 48) = 0.
Proof.
  induction k; [done|]. cbn [replicate].
  change (48 :: replicate k 48) with ([48] ++ replicate k 48).
  rewrite int_of_digits_app, IHk. done.
Qed.

Lemma int_of_digits_zfill w s : int_of_digits (zfill w s) = int_of_digits s.
Proof. unfold zfill. rewrite int_of_digits_app, int_of_digits_zeros. lia. Qed.

Lemma zfill_digits w s :
  Forall (λ c, is_digit c = true) s → Forall (λ c, is_digit c = true) (zfill w s).
Proof.
  intros Hs. unfold zfill. apply Forall_app_2; [|done]. by apply Forall_replicate.
Qed.

Lemma len_zfill w s : len (zfill w s) = Z.max w (len s).
Proof. unfold zfill. rewrite len_app. unfold len. rewrite length_replicate. lia. Qed.

Lemma join_split c s : join [c] (split c s) = s.
Proof.
  induction s as [|x s IH]; [done|]. cbn [split].
  assert (split c s ≠ []) as Hne by (destruct s; cbn; [done|]; by repeat case_match).
  destruct (Z.eqb_spec x c) as [->|]; destruct (split c s) as [|w ws]; [done| |done|].
  - cbn [join app] in *. by rewrite IH.
  - destruct ws; cbn [join app] in *; by rewrite <- IH.
Qed.

(** *** UTF-8 round trip *)
Definition is_code_point (c : Z) : Prop := 0 ≤ c ≤ 0x10FFFF.

Ltac cmp_true := rewrite ?(proj2 (Z.ltb_lt _ _)), ?(proj2 (Z.leb_le _ _)) by dlia.

Lemma utf8_decode_char fuel c r :
  is_code_point c → is_surrogate c = false →
  utf8_decode_loop (S fuel) (utf8_char c ++ r) = (s ← utf8_decode_loop fuel r; Ok (c :: s)).
Proof.
  unfold is_code_point. intros Hc Hs.
  unfold utf8_char. destruct (Z.ltb_spec c 0x80).
  { cbn [app utf8_decode_loop]. by rewrite (proj2 (Z.ltb_lt c 0x80)) by lia. }
  destruct (Z.ltb_spec c 0x800).
  { cbn [app utf8_decode_loop].
    destruct (Z.ltb_spec (0xC0 + c / 64) 0x80); [dlia|].
    replace ((0xC2 <=? 0xC0 + c / 64) && (0xC0 + c / 64 <=? 0xDF) && cont (0x80 + c mod 64)) with true
      by (symmetry; unfold cont; rewrite !andb_true_iff, !Z.leb_le; dlia).
    replace ((0xC0 + c / 64 - 0xC0) * 64 + (0x80 + c mod 64 - 0x80)) with c by dlia. done. }
  destruct (Z.ltb_spec c 0x10000).
  { cbn [app utf8_decode_loop].
    destruct (Z.ltb_spec (0xE0 + c / 4096) 0x80); [dlia|].
    replace ((0xC2 <=? 0xE0 + c / 4096) && (0xE0 + c / 4096 <=? 0xDF)
             && cont (0x80 + (c / 64) mod 64)) with false
      by (symmetry; rewrite !andb_false_iff; left; right; apply Z.leb_gt; dlia).
    replace (((0xE0 + c / 4096 - 0xE0) * 64 + (0x80 + (c / 64) mod 64 - 0x80)) * 64
             + (0x80 + c mod 64 - 0x80)) with c by dlia.
    rewrite Hs. replace (_ && _) with true; [done|].
    symmetry. unfold cont. cbn [negb]. rewrite !andb_true_iff, !Z.leb_le. dlia. }
  cbn [app utf8_decode_loop].
  destruct (Z.ltb_spec (0xF0 + c / 262144) 0x80); [dlia|].
  replace ((0xC2 <=? 0xF0 + c / 262144) && (0xF0 + c / 262144 <=? 0xDF)
           && cont (0x80 + (c / 4096) mod 64)) with false
    by (symmetry; rewrite !andb_false_iff; left; right; apply Z.leb_gt; dlia).
  replace ((0xE0 <=? 0xF0 + c / 262144) && (0xF0 + c / 262144 <=? 0xEF)) with false
    by (symmetry; rewrite !andb_false_iff; right; apply Z.leb_gt; dlia).
  cbn [andb].
  replace ((((0xF0 + c / 262144 - 0xF0) * 64 + (0x80 + (c / 4096) mod 64 - 0x80)) * 64
            + (0x80 + (c / 64) mod 64 - 0x80)) * 64 + (0x80 + c mod 64 - 0x80)) with c by dlia.
  replace (_ && _) with true; [done|].
  symmetry. unfold cont. rewrite !andb_true_iff, !Z.leb_le. dlia.
Qed.

Lemma utf8_decode_loop_nil fuel : utf8_decode_loop fuel [] = Ok [].
Proof. by destruct fuel. Qed.

(** [s.encode("utf-8").decode("utf-8") == s] *)
Lemma utf8_roundtrip s b :
  Forall is_code_point s → utf8_encode s = Ok b → utf8_decode b = Ok s.
Proof.
  unfold utf8_encode, utf8_decode. intros Hs. destruct (existsb _ _) eqn:E; [done|].
  intros [= <-].
  assert (∀ fuel, (length s ≤ fuel)%nat →
            utf8_decode_loop fuel (concat (utf8_char <$> s)) = Ok s) as H.
  { induction Hs as [|c s Hc Hs IH]; intros fuel Hf; [apply utf8_decode_loop_nil|].
    cbn [existsb] in E. apply orb_false_iff in E as [Ec Es].
    destruct fuel as [|fuel]; [cbn in Hf; lia|].
    cbn [fmap list_fmap concat]. rewrite utf8_decode_char by done.
    rewrite IH; [done|done|cbn in Hf; lia]. }
  apply H. clear. induction s as [|c s IH]; [done|].
  rewrite fmap_cons. cbn [concat length]. rewrite length_app.
  assert (1 ≤ length (utf8_char c))%nat by (unfold utf8_char; repeat case_match; cbn; lia).
  lia.
Qed.

Lemma utf8_encode_inj s t b :
  Forall is_code_point s → Forall is_code_point t →
  utf8_encode s = Ok b → utf8_encode t = Ok b → s = t.
Proof.
  intros Hs Ht H1%utf8_roundtrip H2%utf8_roundtrip; [|done..]. congruence.
Qed.

(** *** Hexadecimal *)
Lemma hex_value_digit n : 0 ≤ n < 16 → hex_value (hex_digit n) = n.
Proof.
  intros Hn. unfold hex_digit, hex_value, is_digit, is_upper.
  repeat case_match; lia.
Qed.

Lemma bytes_fromhex_hex b : is_bytes b → bytes_fromhex (bytes_hex b) = b.
Proof.
  induction 1 as [|x b Hx Hb IH]; [done|]. unfold bytes_hex in *. unfold is_byte in Hx.
  cbn [fmap list_fmap concat app bytes_fromhex].
  rewrite !hex_value_digit, IH by dlia. f_equal. dlia.
Qed.

Lemma bytes_hex_inj b c : is_bytes b → is_bytes c → bytes_hex b = bytes_hex c → b = c.
Proof. intros Hb Hc H. rewrite <- (bytes_fromhex_hex b), <- (bytes_fromhex_hex c), H; done. Qed.

(** *** Canonical decimals *)
Lemma re_dollar_id s : (∀ r, s ≠ r ++ [10]) → re_dollar s = s.
Proof.
  intros H. unfold re_dollar. destruct (rev s) as [|c r] eqn:E; [done|].
  destruct (decide (c = 10)) as [->|Hc].
  - exfalso. apply (H (rev r)). rewrite <- (rev_involutive s), E. done.
  - repeat case_match; done.
Qed.

Lemma Forall_last_ne (P : Z → Prop) s r c : Forall P s → ¬ P c → s ≠ r ++ [c].
Proof. intros Hs Hc ->. apply Forall_app in Hs as [_ Hs]. by inversion Hs. Qed.

Lemma digits_no_newline s : Forall (λ c, is_digit c = true) s → re_dollar s = s.
Proof.
  intros Hs. apply re_dollar_id. intros r.
  apply (Forall_last_ne (λ c, is_digit c = true)); [done|by vm_compute].
Qed.

Lemma digits_rev_last fuel n : 0 < n < 2 ^ (Z.of_nat fuel + 1) →
  ∃ l d, digits_rev fuel n = l ++ [d] ∧ 0 < d.
Proof.
  revert n. induction fuel as [|fuel IH]; intros n Hn; cbn [digits_rev].
  - change (2 ^ (Z.of_nat 0 + 1)) with 2 in Hn. exists [], (n mod 10).
    split; [done|]. rewrite Z.mod_small by lia. lia.
  - destruct (Z.ltb_spec n 10); [exists [], n; by split; [|lia]|].
    rewrite Nat2Z.inj_succ, Z.add_succ_l, Z.pow_succ_r in Hn by lia.
    destruct (IH (n / 10)) as (l & d & -> & Hd); [dlia|]. by exists (n mod 10 :: l), d.
Qed.

Lemma is_canonical_str_of n : 0 ≤ n → is_canonical_int (str_of_nonneg n) = true.
Proof.
  intros Hn. unfold is_canonical_int.
  rewrite digits_no_newline by (by apply str_of_nonneg_digits).
  destruct (decide (n = 0)) as [->|]; [done|].
  pose proof (str_of_nonneg_digits n Hn) as Hd. unfold str_of_nonneg in *.
  destruct (digits_rev_last (Z.to_nat (Z.log2 n)) n) as (l & d & E & Hpos);
    [pose proof (log2_fuel n Hn); lia|].
  rewrite E, fmap_app, rev_app_distr in *. cbn [fmap list_fmap rev app] in *.
  apply Forall_cons in Hd as [Hd Hl]. unfold is_digit in Hd.
  assert (((49 <=? d + 48) && (d + 48 <=? 57)
    && forallb is_digit (rev ((λ d, d + 48) <$> l))) = true) as Hok.
  { rewrite !andb_true_iff, !Z.leb_le. split; [lia|]. by apply forallb_Forall. }
  repeat case_match; try done; lia.
Qed.

Lemma int_of_canonical_str_of n : 0 ≤ n → int_of_canonical (str_of_nonneg n) = n.
Proof.
  intros Hn. unfold int_of_canonical. rewrite digits_no_newline by (by apply str_of_nonneg_digits).
  by apply int_of_str_of_nonneg.
Qed.

Lemma str_of_int_nonneg n : 0 ≤ n → str_of_int n = str_of_nonneg n.
Proof. intros Hn. unfold str_of_int. by destruct (Z.ltb_spec n 0); [lia|]. Qed.

Lemma str_of_nonneg_inj a b : 0 ≤ a → 0 ≤ b → str_of_nonneg a = str_of_nonneg b → a = b.
Proof.
  intros Ha Hb H. rewrite <- (int_of_str_of_nonneg a), <- (int_of_str_of_nonneg b), H; done.
Qed.

Lemma int_of_digits_nonneg s : Forall (λ c, is_digit c = true) s → 0 ≤ int_of_digits s.
Proof.
  induction s as [|c s IH] using rev_ind; intros Hs; [done|].
  apply Forall_app in Hs as [Hs Hc]. rewrite Forall_singleton in Hc.
  rewrite int_of_digits_snoc. unfold is_digit in Hc. cbn beta in Hc. specialize (IH Hs). lia.
Qed.

Lemma is_canonical_int_nonneg s : is_canonical_int s = true → 0 ≤ int_of_canonical s.
Proof.
  unfold is_canonical_int, int_of_canonical. intros H. apply int_of_digits_nonneg.
  destruct (re_dollar s) as [|c r]; [done|].
  assert (c = 48 ∧ r = [] ∨ ((49 <=? c) && (c <=? 57) && forallb is_digit r) = true) as [[-> ->]|H'].
  { repeat case_match; naive_solver. }
  - by repeat constructor.
  - rewrite !andb_true_iff, !Z.leb_le, forallb_Forall in H'. constructor; [|naive_solver].
    unfold is_digit. lia.
Qed.

(** ** Positions of a character *)
Lemma find_at_char k c a b : c ∉ a → find_at k [c] (a ++ c :: b) = k + len a.
Proof.
  revert k. induction a as [|x a IH]; intros k Ha; cbn [app find_at startswith].
  - rewrite Z.eqb_refl. cbn. unfold len. cbn. lia.
  - destruct (Z.eqb_spec c x) as [->|]; [exfalso; apply Ha; left|]. cbn.
    rewrite IH by set_solver. rewrite len_cons. lia.
Qed.

Lemma find_char c a b : c ∉ a → find [c] (a ++ c :: b) = len a.
Proof. intros Ha. unfold find. by rewrite find_at_char. Qed.

Lemma find_at_none k c s : c ∉ s → find_at k [c] s = -1.
Proof.
  revert k. induction s as [|x s IH]; intros k Hs; cbn [find_at startswith]; [done|].
  destruct (Z.eqb_spec c x) as [->|]; [exfalso; apply Hs; left|]. cbn. apply IH. set_solver.
Qed.

Lemma find_none c s : c ∉ s → find [c] s = -1.
Proof. apply find_at_none. Qed.

Lemma elem_of_first (c : Z) s : c ∈ s → ∃ a b, s = a ++ c :: b ∧ c ∉ a.
Proof.
  induction s as [|x s IH]; intros Hc; [by apply not_elem_of_nil in Hc|].
  destruct (decide (x = c)) as [->|Hx]; [exists [], s; split; [done|apply not_elem_of_nil]|].
  destruct IH as (a & b & -> & Ha); [set_solver|]. exists (x :: a), b. split; [done|set_solver].
Qed.

Lemma find_cases c s :
  (c ∉ s) ∧ find [c] s = -1 ∨ (∃ a b, s = a ++ c :: b ∧ (c ∉ a) ∧ find [c] s = len a).
Proof.
  destruct (decide (c ∈ s)) as [Hc|]; [right|left; auto using find_none].
  apply elem_of_first in Hc as (a & b & -> & Ha). exists a, b. auto using find_char.
Qed.

Lemma rfind_at_app k best c a b :
  rfind_at k best c (a ++ b) = rfind_at (k + len a) (rfind_at k best c a) c b.
Proof.
  revert k best. induction a as [|x a IH]; intros k best; cbn [app rfind_at].
  - unfold len. cbn. by rewrite Z.add_0_r.
  - rewrite IH, len_cons. f_equal. lia.
Qed.

Lemma rfind_at_none k best c s : c ∉ s → rfind_at k best c s = best.
Proof.
  revert k best. induction s as [|x s IH]; intros k best Hs; cbn [rfind_at]; [done|].
  destruct (Z.eqb_spec x c) as [->|]; [exfalso; apply Hs; left|]. apply IH. set_solver.
Qed.

Lemma rfind_none c s : c ∉ s → rfind c s = -1.
Proof. apply rfind_at_none. Qed.

Lemma rfind_char c a b : c ∉ b → rfind c (a ++ c :: b) = len a.
Proof.
  intros Hb. unfold rfind. rewrite rfind_at_app. cbn [rfind_at]. rewrite Z.eqb_refl.
  by rewrite rfind_at_none.
Qed.

Lemma rfind_cases c s :
  (c ∉ s) ∧ rfind c s = -1 ∨ (∃ a b, s = a ++ c :: b ∧ (c ∉ b) ∧ rfind c s = len a).
Proof.
  destruct (decide (c ∈ s)) as [Hc|]; [right|left; auto using rfind_none].
  assert (c ∈ rev s) as Hr by (by rewrite list_elem_of_In, <- in_rev, <- list_elem_of_In).
  apply elem_of_first in Hr as (a & b & Hs & Ha).
  assert (s = rev b ++ c :: rev a) as ->.
  { rewrite <- (rev_involutive s), Hs, rev_app_distr. cbn. by rewrite <- app_assoc. }
  assert (c ∉ rev a) by (rewrite list_elem_of_In, <- in_rev, <- list_elem_of_In; done).
  exists (rev b), (rev a). split_and!; [done..|]. by apply rfind_char.
Qed.

Lemma slice_0_len_app {A} (a b : list A) : slice 0 (len a) (a ++ b) = a.
Proof. apply slice_0_app. Qed.

Lemma drop_len_cons {A} (a b : list A) c : drop (Z.to_nat (len a + 1)) (a ++ c :: b) = b.
Proof.
  unfold len. replace (Z.to_nat (Z.of_nat (length a) + 1)) with (length a + 1)%nat by lia.
  rewrite <- drop_drop, drop_app_length. done.
Qed.

Lemma startswith_app p s : startswith p s = true ↔ ∃ t, s = p ++ t.
Proof.
  revert s. induction p as [|x p IH]; intros s; cbn; [naive_solver|].
  destruct s as [|y s]; [naive_solver|]. rewrite andb_true_iff, Z.eqb_eq, IH.
  split; [intros (-> & t & ->); by exists t|intros (t & [= -> ->]); by split; [|exists t]].
Qed.
