(* ===== verification/Base64.v ===== *)
(** * Base64 ([base64] as used by [dnsid/_utils.py])

    The permissive decoder of the standard library ([binascii.a2b_base64]
    without strict mode) and the helpers of [_utils.py] on top of it. *)
From S2P Require Import Prelude Errors PyText.

(** ** The standard library *)

(** Character of a sextet; [c62] and [c63] are the last two letters of the
    alphabet. *)
Definition b64_char (c62 c63 : Z) (x : Z) : Z :=
  if x <? 26 then 65 + x
  else if x <? 52 then 71 + x
  else if x <? 62 then x - 4
  else if x =? 62 then c62 else c63.

(** [table_a2b_base64] *)
Definition b64_value (c : Z) : option Z :=
  if is_upper c then Some (c - 65)
  else if is_lower c then Some (c - 71)
  else if is_digit c then Some (c + 4)
  else if c =? 43 then Some 62
  else if c =? 47 then Some 63
  else None.

Fixpoint b64_encode_with (c62 c63 : Z) (b : bytes) : str :=
  let ch := b64_char c62 c63 in
  match b with
  | x :: y :: z :: b =>
      [ch (x / 4); ch (16 * (x mod 4) + y / 16); ch (4 * (y mod 16) + z / 64); ch (z mod 64)]
      ++ b64_encode_with c62 c63 b
  | [x; y] => [ch (x / 4); ch (16 * (x mod 4) + y / 16); ch (4 * (y mod 16)); 61]
  | [x] => [ch (x / 4); ch (16 * (x mod 4)); 61; 61]
  | [] => []
  end.

(** [base64.b64encode] and [base64.urlsafe_b64encode] *)
Definition b64encode (b : bytes) : str := b64_encode_with 43 47 b.
Definition urlsafe_b64encode (b : bytes) : str := b64_encode_with 45 95 b.

(** The automaton of [a2b_base64]: characters outside the alphabet are
    skipped, and decoding stops at a complete pad sequence. *)
Fixpoint a2b_base64 (s : bytes) (quad_pos leftchar pads : Z) : res bytes :=
  match s with
  | [] =>
      if quad_pos =? 0 then Ok []
      else if quad_pos =? 1 then
        Raise (ValueError (lit "Invalid base64-encoded string: number of data characters cannot be 1 more than a multiple of 4"))
      else Raise (ValueError (lit "Incorrect padding"))
  | c :: s =>
      if c =? 61 then
        if 2 <=? quad_pos then
          if 4 <=? quad_pos + (pads + 1) then Ok []
          else a2b_base64 s quad_pos leftchar (pads + 1)
        else a2b_base64 s quad_pos leftchar pads
      else
        match b64_value c with
        | None => a2b_base64 s quad_pos leftchar pads
        | Some x =>
            if quad_pos =? 0 then a2b_base64 s 1 x 0
            else if quad_pos =? 1 then
              r ← a2b_base64 s 2 (x mod 16) 0; Ok ((4 * leftchar + x / 16) :: r)
            else if quad_pos =? 2 then
              r ← a2b_base64 s 3 (x mod 4) 0; Ok ((16 * leftchar + x / 4) :: r)
            else
              r ← a2b_base64 s 0 0 0; Ok ((64 * leftchar + x) :: r)
        end
  end.

(** [base64.b64decode(s)] of a [str]. *)
Definition b64decode (s : str) : res bytes :=
  raise_if (existsb (λ c, 0x7F <? c) s)
    (ValueError (lit "string argument should contain only ASCII characters")) ;;
  a2b_base64 s 0 0 0.

(** [base64.urlsafe_b64decode(s)]: maps [-] and [_] and decodes. *)
Definition urlsafe_translate (c : Z) : Z := if c =? 45 then 43 else if c =? 95 then 47 else c.
Definition urlsafe_b64decode (s : str) : res bytes := b64decode (urlsafe_translate <$> s).

(** ** [dnsid/_utils.py] *)
Definition padding_needed (s : str) : Z := (4 - len s mod 4) mod 4.
Definition add_padding (s : str) : str := s ++ replicate (Z.to_nat (padding_needed s)) 61.

Definition b64url_encode (data : bytes) (padding : bool) : str :=
  let encoded := urlsafe_b64encode data in
  if padding then encoded else rstrip (λ c, c =? 61) encoded.

Definition b64url_decode (s : str) : res bytes := urlsafe_b64decode (add_padding s).

(** One character of the unpadded base64url alphabet. *)
Definition is_b64url (c : Z) : bool := is_alnum c || (c =? 95) || (c =? 45).
Definition b64url_strict_re (s : str) : bool := negb (s ==? []) && forallb is_b64url s.

Definition b64url_decode_strict (s : str) : res bytes :=
  raise_if (negb (b64url_strict_re s)) (ValueError (lit "not valid unpadded base64url")) ;;
  urlsafe_b64decode (add_padding s).

Definition b64_std_encode (data : bytes) : str := b64encode data.
Definition b64_std_decode (s : str) : res bytes := b64decode (add_padding s).

(** ** Facts *)
Definition sextet (x : Z) : Prop := 0 ≤ x < 64.

Lemma b64_value_char x : sextet x → b64_value (b64_char 43 47 x) = Some x.
Proof.
  unfold sextet, b64_value, b64_char, is_upper, is_lower, is_digit. intros Hx.
  repeat case_match; f_equal; lia.
Qed.

Lemma b64_char_neq x : sextet x → b64_char 43 47 x ≠ 61.
Proof. unfold sextet, b64_char. intros Hx. repeat case_match; lia. Qed.

Lemma b64_char_ascii x : sextet x → b64_char 43 47 x ≤ 0x7F.
Proof. unfold sextet, b64_char. intros Hx. repeat case_match; lia. Qed.

(** The character the URL-safe alphabet maps back to. *)
Lemma b64_char_urlsafe x : sextet x →
  urlsafe_translate (b64_char 45 95 x) = b64_char 43 47 x ∧ is_b64url (b64_char 45 95 x) = true ∧ b64_char 45 95 x ≠ 61.
Proof.
  unfold sextet, urlsafe_translate, b64_char, is_b64url, is_alnum, is_alpha, is_upper, is_lower, is_digit.
  intros Hx. repeat case_match; lia.
Qed.

(** One step of the automaton on a character of the alphabet. *)
Lemma a2b_step x s q l p : sextet x →
  a2b_base64 (b64_char 43 47 x :: s) q l p =
    if q =? 0 then a2b_base64 s 1 x 0
    else if q =? 1 then r ← a2b_base64 s 2 (x mod 16) 0; Ok ((4 * l + x / 16) :: r)
    else if q =? 2 then r ← a2b_base64 s 3 (x mod 4) 0; Ok ((16 * l + x / 4) :: r)
    else r ← a2b_base64 s 0 0 0; Ok ((64 * l + x) :: r).
Proof.
  intros Hx. cbn [a2b_base64]. rewrite b64_value_char by done.
  destruct (Z.eqb_spec (b64_char 43 47 x) 61); [by apply b64_char_neq in e|done].
Qed.

(** Induction three octets at a time, the recursion of the encoder. *)
Lemma triple_ind {A} (P : list A → Prop) :
  P [] → (∀ x, P [x]) → (∀ x y, P [x; y]) → (∀ x y z l, P l → P (x :: y :: z :: l)) → ∀ l, P l.
Proof.
  intros H0 H1 H2 H3. fix IH 1. intros [|x [|y [|z l]]]; [done..|]. apply H3, IH.
Qed.

Lemma a2b_encode b : is_bytes b → a2b_base64 (b64encode b) 0 0 0 = Ok b.
Proof.
  unfold b64encode, is_bytes, is_byte.
  induction b as [|x|x y|x y z b IH] using triple_ind; rewrite ?Forall_cons; intros Hb;
    destruct_and?; cbn [b64_encode_with app]; [done|..];
    rewrite !a2b_step by (unfold sextet; dlia); cbn [Z.eqb Pos.eqb].
  - change (a2b_base64 [61; 61] 2 (16 * (x mod 4) mod 16) 0) with (@Ok exn bytes []).
    cbn [mbind result_bind]. do 2 f_equal. dlia.
  - change (a2b_base64 [61] 3 (4 * (y mod 16) mod 4) 0) with (@Ok exn bytes []).
    cbn [mbind result_bind]. do 2 f_equal; [dlia|]. f_equal. dlia.
  - rewrite IH by done. cbn [mbind result_bind]. f_equal.
    f_equal; [dlia|]. f_equal; [dlia|]. f_equal. dlia.
Qed.

(** An encoding is its letters followed by the padding [add_padding] restores. *)
Lemma urlsafe_b64encode_shape b : is_bytes b →
  ∃ body p, urlsafe_b64encode b = body ++ replicate p 61
    ∧ Forall (λ c, is_b64url c = true ∧ c ≠ 61) body
    ∧ Z.of_nat p = padding_needed body ∧ (b ≠ [] → body ≠ []).
Proof.
  unfold urlsafe_b64encode, is_bytes, is_byte, padding_needed.
  induction b as [|x|x y|x y z b IH] using triple_ind; rewrite ?Forall_cons; intros Hb;
    destruct_and?; cbn [b64_encode_with].
  - exists [], 0%nat. by split_and!.
  - eexists [_; _], 2%nat. split_and!; [reflexivity| |done|done].
    repeat constructor; apply b64_char_urlsafe; unfold sextet; dlia.
  - eexists [_; _; _], 1%nat. split_and!; [reflexivity| |done|done].
    repeat constructor; apply b64_char_urlsafe; unfold sextet; dlia.
  - destruct IH as (body & p & E & Hf & Hp & _); [done|]. rewrite E.
    eexists ([_; _; _; _] ++ body), p. split_and!; [by rewrite app_assoc| | |done].
    + repeat (constructor; [apply b64_char_urlsafe; unfold sextet; dlia|]). done.
    + rewrite Hp, len_app. f_equal. f_equal. change (len [_; _; _; _]) with 4.
      rewrite <- Z.add_mod_idemp_l by lia. done.
Qed.

Lemma rstrip_app_replicate f c p body :
  f c = true → Forall (λ x, f x = false) body → rstrip f (body ++ replicate p c) = body.
Proof.
  intros Hc Hb. unfold rstrip. rewrite rev_app_distr.
  assert (rev (replicate p c) = replicate p c) as ->.
  { induction p as [|p IH]; [done|]. cbn [replicate rev].
    rewrite IH. symmetry. apply replicate_cons_app. }
  assert (∀ t, lstrip f (replicate p c ++ t) = lstrip f t) as ->
    by (intros t; induction p as [|p IH]; [done|]; cbn; by rewrite Hc).
  apply Forall_rev in Hb. destruct (rev body) as [|x r] eqn:E; cbn.
  - rewrite <- (rev_involutive body), E. done.
  - apply Forall_cons in Hb as [-> _]. rewrite <- E. apply rev_involutive.
Qed.

Lemma translate_urlsafe b : is_bytes b → urlsafe_translate <$> urlsafe_b64encode b = b64encode b.
Proof.
  unfold urlsafe_b64encode, b64encode, is_bytes, is_byte.
  assert (∀ x, sextet x → urlsafe_translate (b64_char 45 95 x) = b64_char 43 47 x) as Ht
    by (intros; by apply b64_char_urlsafe).
  induction b as [|x|x y|x y z b IH] using triple_ind; rewrite ?Forall_cons; intros Hb;
    destruct_and?; cbn [b64_encode_with app]; rewrite ?fmap_cons, ?fmap_nil; [done|..];
    rewrite ?Ht, ?IH by (done || (unfold sextet; dlia)); done.
Qed.

Lemma b64encode_ascii b : is_bytes b → existsb (λ c, 0x7F <? c) (b64encode b) = false.
Proof.
  unfold b64encode, is_bytes, is_byte.
  assert (∀ x, sextet x → (0x7F <? b64_char 43 47 x) = false) as Ha
    by (intros x Hx%b64_char_ascii; lia).
  induction b as [|x|x y|x y z b IH] using triple_ind; rewrite ?Forall_cons; intros Hb;
    destruct_and?; cbn [b64_encode_with app existsb]; [done|..];
    rewrite !Ha by (unfold sextet; dlia); auto.
Qed.

Lemma b64url_encode_padding b : is_bytes b →
  add_padding (b64url_encode b false) = urlsafe_b64encode b
  ∧ (b ≠ [] → b64url_strict_re (b64url_encode b false) = true).
Proof.
  intros Hb. destruct (urlsafe_b64encode_shape b Hb) as (body & p & E & Hf & Hp & Hne).
  unfold b64url_encode. rewrite E, rstrip_app_replicate; [|done|].
  - split.
    + unfold add_padding. by rewrite <- Hp, Nat2Z.id.
    + intros Hb0%Hne. unfold b64url_strict_re. destruct body; [done|].
      replace (_ ==? _) with false by (symmetry; by apply eqb_false).
      apply forallb_Forall. eapply Forall_impl; [exact Hf|]. naive_solver.
  - eapply Forall_impl; [exact Hf|]. intros c [_ Hc]. by apply Z.eqb_neq.
Qed.

Lemma urlsafe_b64decode_encode b : is_bytes b → urlsafe_b64decode (urlsafe_b64encode b) = Ok b.
Proof.
  intros Hb. unfold urlsafe_b64decode, b64decode.
  rewrite translate_urlsafe, b64encode_ascii by done. by apply a2b_encode.
Qed.

Lemma b64url_decode_encode b : is_bytes b → b64url_decode (b64url_encode b false) = Ok b.
Proof.
  intros Hb. unfold b64url_decode. rewrite (proj1 (b64url_encode_padding b Hb)).
  by apply urlsafe_b64decode_encode.
Qed.

Lemma b64url_encode_inj b c :
  is_bytes b → is_bytes c → b64url_encode b false = b64url_encode c false → b = c.
Proof.
  intros Hb Hc H. apply (f_equal b64url_decode) in H. rewrite !b64url_decode_encode in H by done.
  congruence.
Qed.

Lemma b64url_strict_decode (b : bytes) : is_bytes b → b ≠ [] → b64url_decode_strict (b64url_encode b false) = Ok b.
Proof.
  intros Hb Hne.
  unfold b64url_decode_strict. destruct (b64url_encode_padding b Hb) as [Hp Hre].
  rewrite Hre, Hp by done. by apply urlsafe_b64decode_encode.
Qed.

(** The permissive decoder ignores what is outside the alphabet, the strict
    one does not. *)
Example permissive_decode :
  b64url_decode (lit "A*P8*") = Ok [0; 255] ∧ is_Ok (b64url_decode_strict (lit "A*P8*")) = false.
Proof. by vm_compute. Qed.
