(* ===== verification/Utils.v ===== *)
(** * Names and references ([dnsid/_utils.py])

    FQDN normalisation over the [idna] package (a parameter), key
    identifiers, ledger references and the lexical guards.  Messages keep the
    fixed part of the text. *)
From S2P Require Import Prelude Errors PyText.

(** ** Lexical guards ([fullmatch]) *)
Definition is_valid_tag_name (name : str) : bool :=
  match name with
  | [] => false
  | c :: s => is_alpha c && forallb (λ c, is_alnum c || (c =? 95)) s
  end.

Definition is_valid_tag_value (value : str) : bool :=
  forallb (λ c, ((0x21 <=? c) && (c <=? 0x3A)) || ((0x3C <=? c) && (c <=? 0x7E))) value.

Definition is_valid_ledger_method (method : str) : bool :=
  match method with
  | [] => false
  | c :: s => is_lower c && forallb (λ c, is_lower c || is_digit c || (c =? 45)) s
  end.

Definition is_lowercase_http_field_name (name : str) : bool :=
  match name with
  | [] => false
  | c :: s =>
      is_lower c && forallb (λ c, is_lower c || is_digit c || existsb (Z.eqb c) (lit "!#$%&'*+-.^_`|~")) s
  end.

(** The permitted [ka] values, in days. *)
Definition parse_ka_duration (ka : str) : res Z :=
  if ka ==? lit "24h" then Ok 1
  else if ka ==? lit "7d" then Ok 7
  else if ka ==? lit "30d" then Ok 30
  else if ka ==? lit "90d" then Ok 90
  else Raise (KeyError ka).

Definition jose_alg_to_http_sig_alg (alg : str) : res str :=
  if alg ==? lit "EdDSA" then Ok (lit "ed25519")
  else if alg ==? lit "ES256" then Ok (lit "ecdsa-p256-sha256")
  else Raise (ArgumentError (lit "JOSE algorithm has no entry in the RFC 9421 HTTP Message Signatures Algorithm registry")).

(** ** Partition *)

(** [s.partition(c)]: the text before and after the first [c]. *)
Fixpoint partition (c : Z) (s : str) : option (str * str) :=
  match s with
  | [] => None
  | x :: s =>
      if x =? c then Some ([], s)
      else match partition c s with Some (a, b) => Some (x :: a, b) | None => None end
  end.

Lemma partition_Some c s a b : partition c s = Some (a, b) ↔ s = a ++ c :: b ∧ c ∉ a.
Proof.
  revert a. induction s as [|x s IH]; intros a; cbn.
  - split; [done|]. intros [H _]. by destruct a.
  - destruct (Z.eqb_spec x c) as [->|Hx].
    + split.
      * intros [= <- <-]. split; [done|]. apply not_elem_of_nil.
      * intros [H Ha]. destruct a as [|y a]; [cbn in H; congruence|].
        injection H as <- _. exfalso. apply Ha. left.
    + destruct (partition c s) as [[a' b']|]; split.
      * intros [= <- <-]. destruct (IH a') as [H _]. destruct (H eq_refl) as [-> ?].
        split; [done|]. set_solver.
      * intros [H Ha]. destruct a as [|y a]; [cbn in H; congruence|]. injection H as <- H.
        destruct (IH a) as [_ H']. assert (Some (a', b') = Some (a, b)) as [= -> ->]; [|done].
        apply H'. split; [done|set_solver].
      * done.
      * intros [H Ha]. destruct a as [|y a]; [cbn in H; congruence|]. injection H as <- H.
        destruct (IH a) as [_ H']. discriminate H'. split; [done|set_solver].
Qed.

Lemma partition_None c s : partition c s = None ↔ c ∉ s.
Proof.
  induction s as [|x s IH]; cbn; [split; [intros; apply not_elem_of_nil|done]|].
  rewrite not_elem_of_cons. destruct (Z.eqb_spec x c); destruct (partition c s) as [[??]|];
    naive_solver.
Qed.

(** [v.rsplit(".", 1)[-1]] *)
Definition last_label (v : str) : str := List.last (split 46 v) [].

(** One DNS label: alphanumeric at both ends, hyphens allowed inside. *)
Definition is_dns_label (l : str) : bool :=
  match l, rev l with
  | a :: _, z :: _ => is_alnum a && is_alnum z && forallb (λ c, is_alnum c || (c =? 45)) l
  | _, _ => false
  end.

(** [s[:-1] if s.endswith(".") else s] *)
Definition drop_root_dot (s : str) : str :=
  if endswith [46] s then take (length s - 1) s else s.

Definition is_domain_name (s : str) : bool :=
  let v := drop_root_dot s in
  forallb is_dns_label (split 46 v)
  && negb (negb (last_label v ==? []) && forallb is_digit (last_label v)).

(** ** Splitting and stripping *)
Lemma split_app_sep c a b : c ∉ a → split c (a ++ c :: b) = a :: split c b.
Proof.
  induction a as [|x a IH]; intros Ha; cbn [app split]; [by rewrite Z.eqb_refl|].
  destruct (Z.eqb_spec x c) as [->|]; [exfalso; apply Ha; left|].
  rewrite IH; [done|set_solver].
Qed.

Lemma split_no_sep c a : c ∉ a → split c a = [a].
Proof.
  induction a as [|x a IH]; intros Ha; cbn [split]; [done|].
  destruct (Z.eqb_spec x c) as [->|]; [exfalso; apply Ha; left|].
  rewrite IH; [done|set_solver].
Qed.

Lemma split_nonempty c s : split c s ≠ [].
Proof. destruct s; cbn; [done|]. by repeat case_match. Qed.

Lemma split_app c a b :
  ∃ w ws w' ws', split c a = ws ++ [w] ∧ split c b = w' :: ws'
    ∧ split c (a ++ b) = ws ++ (w ++ w') :: ws'.
Proof.
  induction a as [|x a IH].
  - destruct (split c b) as [|w' ws'] eqn:E; [by apply split_nonempty in E|].
    by exists [], [], w', ws'.
  - destruct IH as (w & ws & w' & ws' & E1 & E2 & E3). cbn [app split].
    rewrite E1, E3. destruct (Z.eqb_spec x c).
    + by exists w, ([] :: ws), w', ws'.
    + destruct ws as [|v ws]; [by exists (x :: w), [], w', ws'|].
      by exists w, ((x :: v) :: ws), w', ws'.
Qed.

Definition labels_ok (s : str) : Prop := Forall (λ l, len l ≤ 63) (split 46 s).

Lemma labels_ok_prefix a b : labels_ok (a ++ b) → labels_ok a.
Proof.
  unfold labels_ok. destruct (split_app 46 a b) as (w & ws & w' & ws' & -> & _ & ->).
  rewrite !Forall_app, !Forall_cons. intros (? & Hl & _).
  split_and!; [done| |constructor]. rewrite len_app in Hl. pose proof (len_nonneg w'). lia.
Qed.

Lemma labels_ok_short s : len s ≤ 63 → labels_ok s.
Proof.
  unfold labels_ok. intros Hs. apply Forall_forall. intros l Hl.
  assert (len l ≤ len s); [|lia]. clear Hs. revert l Hl.
  induction s as [|x s IH]; intros l; cbn [split].
  - intros ->%list_elem_of_singleton. done.
  - rewrite len_cons. destruct (x =? 46).
    + intros [->|Hl%IH]%elem_of_cons; [rewrite len_nil; pose proof (len_nonneg s); lia|lia].
    + destruct (split 46 s) as [|w ws] eqn:E; [by apply split_nonempty in E|].
      intros [->|Hl]%elem_of_cons.
      * rewrite len_cons. specialize (IH w ltac:(left)). lia.
      * specialize (IH l ltac:(by right)). lia.
Qed.

Lemma labels_ok_sep a b : labels_ok a → labels_ok b → labels_ok (a ++ [46] ++ b).
Proof.
  unfold labels_ok. destruct (split_app 46 a ([46] ++ b)) as (w & ws & w' & ws' & -> & E & ->).
  cbn in E. injection E as <- <-. rewrite app_nil_r, !Forall_app, !Forall_cons. naive_solver.
Qed.

Lemma labels_ok_join ls : Forall (λ l, len l ≤ 63) ls → labels_ok (join [46] ls).
Proof.
  induction 1 as [|l ls Hl Hls IH]; [by apply labels_ok_short|].
  destruct ls; [by apply labels_ok_short|].
  change (join [46] (l :: l0 :: ls)) with (l ++ [46] ++ join [46] (l0 :: ls)).
  apply labels_ok_sep; [by apply labels_ok_short|done].
Qed.

Lemma rstrip_prefix f s : ∃ t, s = rstrip f s ++ t ∧ Forall (λ c, f c = true) t.
Proof.
  unfold rstrip. assert (∃ t, rev s = t ++ lstrip f (rev s) ∧ Forall (λ c, f c = true) t)
    as (t & E & Ht).
  { generalize (rev s). induction l as [|x l IH]; [by exists []|]. cbn.
    destruct (f x) eqn:Hx; [|by exists []]. destruct IH as (t & E & Ht).
    exists (x :: t). cbn. rewrite <- E. split; [done|by constructor]. }
  exists (rev t). split; [|by apply Forall_rev].
  rewrite <- rev_app_distr, <- E. symmetry. apply rev_involutive.
Qed.

Lemma rstrip_last f s x r : rstrip f s = r ++ [x] → f x = false.
Proof.
  unfold rstrip. intros H. apply (f_equal (@rev Z)) in H. rewrite rev_involutive, rev_app_distr in H.
  cbn in H. revert H. generalize (rev s). induction l as [|y l IH]; cbn; [done|].
  destruct (f y) eqn:Hy; [done|]. congruence.
Qed.

(** ** FQDN normalisation *)
Section fqdn.
(** [idna.encode(label, uts46=True).decode("ascii")] *)
Context (idna_encode : str → res str).

Definition encode_label (label : str) : res str :=
  raise_if (label ==? []) (ValidationError (lit "FQDN contains empty label")) ;;
  try_except (idna_encode label) (λ _, Raise (ValidationError (lit "Invalid FQDN label"))).

Definition normalize_fqdn (name : str) (agent_fqdn : bool) : res str :=
  raise_if (name ==? []) (ValidationError (lit "FQDN cannot be empty")) ;;
  let without_dot := drop_root_dot name in
  raise_if (without_dot ==? [])
    (ValidationError (lit "FQDN cannot be empty after removing trailing dot")) ;;
  normalized ← mapM_res encode_label (split 46 without_dot);
  forM_res (λ label, raise_if (63 <? len label)
                       (ValidationError (lit "DNS label exceeds 63 octets"))) normalized ;;
  let result := rstrip (λ c, c =? 46) (join [46] normalized) in
  raise_if (253 <? len result)
    (ValidationError (lit "FQDN exceeds 253-octet DNS presentation limit")) ;;
  raise_if (agent_fqdn && (246 <? len result))
    (ValidationError (lit "Agent FQDN exceeds 246-octet DNSid limit")) ;;
  Ok result.

Definition parse_key_id (key_id : str) : res (str * str) :=
  match partition 35 key_id with
  | None => Raise (ArgumentError (lit "key ID has no '#' separator"))
  | Some (domain_part, kid_part) =>
      raise_if (domain_part ==? []) (ArgumentError (lit "key ID has empty domain side")) ;;
      raise_if (kid_part ==? []) (ArgumentError (lit "key ID has empty kid side")) ;;
      raise_if (bool_decide (35 ∈ kid_part))
        (ArgumentError (lit "key ID kid side must not contain '#'")) ;;
      domain ← normalize_fqdn domain_part false;
      Ok (domain, kid_part)
  end.

(** *** Bounds of a normalised name *)
(** A normalised name respects the DNS limits, whatever the IDNA library
    returns: at most 253 octets (246 for an agent name), labels of at most 63
    octets and no trailing root dot. *)
Theorem normalize_fqdn_bounds (name : str) (agent : bool) (r : str)
    (H : normalize_fqdn name agent = Ok r) :
  len r ≤ (if agent then 246 else 253) ∧ Forall (λ l, len l ≤ 63) (split 46 r)
  ∧ (∀ r', r ≠ r' ++ [46]).
Proof.
  unfold normalize_fqdn in H. res_inv.
  match goal with Hf : forM_res _ ?ls = Ok () |- _ =>
    rewrite forM_res_Ok in Hf; set (normalized := ls) in * end.
  set (r := rstrip _ _) in *. split_and!.
  - destruct agent; cbn [andb] in *; bool_prop; lia.
  - destruct (rstrip_prefix (λ c, c =? 46) (join [46] normalized)) as (t & E & _).
    apply (labels_ok_prefix _ t). fold r in E. rewrite <- E. apply labels_ok_join.
    eapply Forall_impl; [eassumption|]. intros l Hl. cbn beta in *. res_inv. bool_prop. lia.
  - intros r' E. unfold r in E. apply rstrip_last in E. done.
Qed.

(** [parse_key_id] accepts exactly the identifiers with one [#] and two
    non-empty sides, and returns the normalised domain and the key name
    unchanged. *)
Theorem parse_key_id_spec (key_id d kid : str) :
  parse_key_id key_id = Ok (d, kid) ↔
  ∃ dom, key_id = dom ++ 35 :: kid ∧ dom ≠ [] ∧ (35 ∉ dom) ∧ kid ≠ [] ∧ (35 ∉ kid)
    ∧ normalize_fqdn dom false = Ok d.
Proof.
  unfold parse_key_id. split.
  - destruct (partition 35 key_id) as [[dom k]|] eqn:E; [|done].
    apply partition_Some in E as [-> Hd]. intros H. res_inv. bool_prop. by exists dom.
  - intros (dom & -> & H1 & H2 & H3 & H4 & H5).
    rewrite (proj2 (partition_Some 35 _ dom kid)) by done.
    rewrite (proj2 (eqb_false dom [])), (proj2 (eqb_false kid [])) by done.
    rewrite (bool_decide_eq_false_2 (35 ∈ kid)) by done.
    cbn [raise_if mbind result_bind]. by rewrite H5.
Qed.
End fqdn.

(** ** Ledger references *)
Definition parse_ledger_ref (lr : str) : res (str * str) :=
  match partition 58 lr with
  | None => Raise (ParseError (lit "ledger ref has no ':' separator"))
  | Some (method, entry_ref) =>
      raise_if (method ==? []) (ParseError (lit "ledger ref has empty method")) ;;
      raise_if (negb (is_valid_ledger_method method))
        (ParseError (lit "ledger ref method violates [a-z][a-z0-9-]*")) ;;
      Ok (method, entry_ref)
  end.

(** ** Witnesses, with lower-casing as the label encoder *)
Definition idna_ascii (label : str) : res str :=
  if forallb (λ c, is_alnum c || (c =? 45)) label then Ok (lower_ascii <$> label)
  else Raise (ValueError (lit "unsupported label")).

Lemma normalize_fqdn_bounds_witness :
  normalize_fqdn idna_ascii (lit "Agent.Example.") true = Ok (lit "agent.example")
  ∧ len (lit "agent.example") ≤ 246.
Proof.
  split; [vm_compute; reflexivity|].
  apply (normalize_fqdn_bounds idna_ascii (lit "Agent.Example.") true). vm_compute. reflexivity.
Defined.
