(* ===== verification/Merkle.v ===== *)
(** * RFC 6962 Merkle trees ([c2sp_tlog/merkle.py])

    The model works on levels, as the code does: [next_level] is one pass of
    the [while] loop of [merkle_root_from_entries].  The specification is the
    recursive Merkle tree of RFC 6962 section 2.1 ([rfc_tree]). *)
From S2P Require Import Prelude Errors Sha256.

(** ** The code *)
Definition leaf_hash (entry : bytes) : bytes := sha256 (0 :: entry).
Definition node_hash (left right : bytes) : bytes := sha256 (1 :: left ++ right).

(** Body and iterations of the [for sibling in proof] loop. *)
Definition inclusion_step (hash : bytes) (i n : Z) (sibling : bytes) : bytes :=
  if i mod 2 =? 1 then node_hash sibling hash
  else if i <? n - 1 then node_hash hash sibling
  else node_hash sibling hash.

Fixpoint inclusion_loop (hash : bytes) (i n : Z) (proof : list bytes) : bytes :=
  match proof with
  | [] => hash
  | sibling :: proof =>
      inclusion_loop (inclusion_step hash i n sibling) (i / 2) ((n + 1) / 2) proof
  end.

Definition inclusion_root (leaf : bytes) (index tree_size : Z) (proof : list bytes)
    : res bytes :=
  raise_if ((index <? 0) || (tree_size <=? index))
    (ValueError (lit "invalid inclusion index or tree size")) ;;
  Ok (inclusion_loop leaf index tree_size proof).

Definition verify_inclusion (entry_bytes : bytes) (index tree_size : Z)
    (root_hash : bytes) (proof : list bytes) : res bool :=
  r ← inclusion_root (leaf_hash entry_bytes) index tree_size proof;
  Ok (r ==? root_hash).

(** [while old_index & 1: old_index >>= 1; new_index >>= 1]; [fuel] bounds the
    number of shifts and [consistency_fuel] below is always enough. *)
Fixpoint shift_odd (fuel : nat) (old_index new_index : Z) : Z * Z :=
  match fuel with
  | O => (old_index, new_index)
  | S fuel =>
      if Z.testbit old_index 0
      then shift_odd fuel (Z.shiftr old_index 1) (Z.shiftr new_index 1)
      else (old_index, new_index)
  end.

(** [while old_index and old_index & 1 == 0: ...] *)
Fixpoint shift_even (fuel : nat) (old_index new_index : Z) : Z * Z :=
  match fuel with
  | O => (old_index, new_index)
  | S fuel =>
      if negb (old_index =? 0) && negb (Z.testbit old_index 0)
      then shift_even fuel (Z.shiftr old_index 1) (Z.shiftr new_index 1)
      else (old_index, new_index)
  end.

(** [old_index] has [Z.log2_up] bits, and every shift drops one. *)
Definition consistency_fuel (index : Z) : nat := Z.to_nat (Z.log2 index + 1).

(** The main loop of [verify_consistency]; [None] is the early
    [return False]. *)
Fixpoint consistency_loop (old_index new_index : Z) (old_hash new_hash : bytes)
    (proof : list bytes) : option (Z * bytes * bytes) :=
  match proof with
  | [] => Some (new_index, old_hash, new_hash)
  | node :: proof =>
      if new_index =? 0 then None
      else if Z.testbit old_index 0 || (old_index =? new_index) then
        let '(o, n) := shift_even (consistency_fuel old_index) old_index new_index in
        consistency_loop (Z.shiftr o 1) (Z.shiftr n 1)
          (node_hash node old_hash) (node_hash node new_hash) proof
      else
        consistency_loop (Z.shiftr old_index 1) (Z.shiftr new_index 1)
          old_hash (node_hash new_hash node) proof
  end.

Definition consistency_accepts (old_root new_root : bytes)
    (r : option (Z * bytes * bytes)) : bool :=
  match r with
  | None => false
  | Some (new_index, old_hash, new_hash) =>
      (new_index =? 0) && (old_hash ==? old_root) && (new_hash ==? new_root)
  end.

Definition verify_consistency (old_size new_size : Z) (old_root new_root : bytes)
    (proof : list bytes) : bool :=
  if (old_size <? 0) || (old_size >? new_size)
     || negb (len old_root =? 32) || negb (len new_root =? 32)
     || existsb (λ node, negb (len node =? 32)) proof
  then false
  else if old_size =? 0 then
    (proof ==? []) && (old_root ==? sha256 [])
    && ((new_size >? 0) || (new_root ==? old_root))
  else if old_size =? new_size then (proof ==? []) && (old_root ==? new_root)
  else
    let '(old_index, new_index) :=
      shift_odd (consistency_fuel (old_size - 1)) (old_size - 1) (new_size - 1) in
    if Z.land old_size (old_size - 1) =? 0 then
      consistency_accepts old_root new_root
        (consistency_loop old_index new_index old_root old_root proof)
    else
      match proof with
      | [] => false
      | first :: proof =>
          consistency_accepts old_root new_root
            (consistency_loop old_index new_index first first proof)
      end.

(** One pass of the pairing loop: neighbours are hashed together and an
    unpaired last hash is carried up. *)
Fixpoint next_level (level : list bytes) : list bytes :=
  match level with
  | l :: r :: level => node_hash l r :: next_level level
  | level => level
  end.

(** [while len(level) > 1]; a pass shortens the level, so its length is
    enough fuel. *)
Fixpoint root_loop (fuel : nat) (level : list bytes) : bytes :=
  match fuel, level with
  | _, [] => []
  | O, h :: _ => h
  | S fuel, [h] => h
  | S fuel, level => root_loop fuel (next_level level)
  end.

Definition level_root (level : list bytes) : bytes := root_loop (length level) level.

Definition merkle_root_from_entries (entries : list bytes) : bytes :=
  match entries with
  | [] => sha256 []
  | _ => level_root (leaf_hash <$> entries)
  end.

(** ** Levels *)
Lemma length_node_hash l r : length (node_hash l r) = 32%nat.
Proof. apply length_sha256. Qed.
Lemma length_leaf_hash e : length (leaf_hash e) = 32%nat.
Proof. apply length_sha256. Qed.
#[export] Hint Resolve length_node_hash length_leaf_hash : py.

(** Induction two elements at a time, the recursion of [next_level]. *)
Lemma pair_ind {A} (P : list A → Prop) :
  P [] → (∀ x, P [x]) → (∀ x y l, P l → P (x :: y :: l)) → ∀ l, P l.
Proof.
  intros H0 H1 H2. fix IH 1. intros [|x [|y l]]; [done|done|]. apply H2, IH.
Qed.

Lemma length_next_level L : length (next_level L) = Nat.div2 (S (length L)).
Proof.
  induction L as [|x|x y L IH] using pair_ind; [done..|].
  cbn [next_level length]. rewrite IH. done.
Qed.

Lemma next_level_app L1 L2 :
  Nat.Even (length L1) → next_level (L1 ++ L2) = next_level L1 ++ next_level L2.
Proof.
  induction L1 as [|x|x y L IH] using pair_ind; intros Hev; [done|..].
  - destruct Hev as [k Hk]; cbn in Hk; lia.
  - cbn [app next_level]. f_equal. apply IH.
    destruct Hev as [k Hk]. exists (k - 1)%nat. cbn in Hk. lia.
Qed.

(** The parent of position [j]: a pair, or a last hash carried up. *)
Lemma next_level_lookup L j :
  next_level L !! j =
    match L !! (2 * j)%nat, L !! (2 * j + 1)%nat with
    | Some l, Some r => Some (node_hash l r)
    | Some l, None => Some l
    | None, _ => None
    end.
Proof.
  revert j. induction L as [|x|x y L IH] using pair_ind; intros j; [done|..].
  - destruct j as [|j]; [done|]. cbn. by rewrite Nat.add_succ_r.
  - destruct j as [|j]; [done|]. cbn [next_level lookup list_lookup].
    rewrite IH. by replace (2 * S j)%nat with (S (S (2 * j))) by lia.
Qed.

Lemma root_loop_fuel f1 f2 L :
  (length L ≤ S f1)%nat → (length L ≤ S f2)%nat → root_loop f1 L = root_loop f2 L.
Proof.
  revert f2 L. induction f1 as [|f1 IH]; intros f2 L H1 H2.
  - destruct L as [|x [|y L]], f2; cbn in *; done || lia.
  - destruct L as [|x [|y L]]; [by destruct f2| by destruct f2|].
    destruct f2 as [|f2]; [cbn in H2; lia|].
    cbn [root_loop]. pose proof (length_next_level (x :: y :: L)) as Hl.
    cbn [length] in *. apply IH; rewrite Hl; ndlia.
Qed.

Lemma next_level_short L : (length L ≤ 1)%nat → next_level L = L.
Proof. destruct L as [|? [|??]]; cbn; [done..|lia]. Qed.

(** Pairing does not change the root. *)
Lemma level_root_next L : level_root (next_level L) = level_root L.
Proof.
  destruct (decide (length L ≤ 1)%nat); [by rewrite next_level_short|].
  unfold level_root. destruct L as [|x [|y L]]; cbn [length] in *; [lia..|].
  change (root_loop (S (S (length L))) (x :: y :: L))
    with (root_loop (S (length L)) (next_level (x :: y :: L))).
  pose proof (length_next_level (x :: y :: L)) as Hl.
  apply root_loop_fuel; rewrite Hl; cbn [length]; ndlia.
Qed.

Lemma level_root_single h : level_root [h] = h.
Proof. done. Qed.

Lemma even_pow2 k : Nat.Even (2 ^ S k).
Proof. exists (2 ^ k)%nat. cbn. lia. Qed.

Lemma div2_S_pow2 k : Nat.div2 (S (2 ^ S k)) = (2 ^ k)%nat.
Proof. rewrite Nat.pow_succ_r', Nat.div2_succ_double. done. Qed.

(** RFC 6962: the root over [L1 ++ L2], with [L1] the largest complete
    subtree, is the node over both roots. *)
Lemma level_root_split k L1 L2 :
  length L1 = (2 ^ k)%nat → (1 ≤ length L2 ≤ 2 ^ k)%nat →
  level_root (L1 ++ L2) = node_hash (level_root L1) (level_root L2).
Proof.
  revert L1 L2. induction k as [|k IH]; intros L1 L2 H1 H2.
  - destruct L1 as [|x [|??]]; cbn in H1; [lia| |lia].
    destruct L2 as [|y [|??]]; cbn in H2; [lia| |lia]. done.
  - rewrite <- level_root_next, next_level_app by (rewrite H1; apply even_pow2).
    rewrite IH, !level_root_next; [done|..].
    + by rewrite length_next_level, H1, div2_S_pow2.
    + rewrite length_next_level. split.
      * ndlia.
      * rewrite Nat.pow_succ_r' in H2. ndlia.
Qed.

(** ** Specification: the Merkle tree of RFC 6962 section 2.1 *)
Inductive mtree : Set :=
| MLeaf (entry : bytes)
| MNode (l r : mtree).

Fixpoint mroot (t : mtree) : bytes :=
  match t with
  | MLeaf e => leaf_hash e
  | MNode l r => node_hash (mroot l) (mroot r)
  end.

Fixpoint leaves (t : mtree) : list bytes :=
  match t with
  | MLeaf e => [e]
  | MNode l r => leaves l ++ leaves r
  end.

(** MTH: the left subtree has the largest power of two smaller than the
    number of entries. *)
Inductive rfc_tree : list bytes → mtree → Prop :=
| rfc_leaf e : rfc_tree [e] (MLeaf e)
| rfc_node k l r tl tr :
    length l = (2 ^ k)%nat → (1 ≤ length r ≤ 2 ^ k)%nat →
    rfc_tree l tl → rfc_tree r tr → rfc_tree (l ++ r) (MNode tl tr).

(** PATH(m, D[n]), the audit path of entry [i] (RFC 6962 section 2.1.1). *)
Fixpoint rfc_path (t : mtree) (i : nat) : list bytes :=
  match t with
  | MLeaf _ => []
  | MNode l r =>
      if decide (i < length (leaves l))%nat then rfc_path l i ++ [mroot r]
      else rfc_path r (i - length (leaves l)) ++ [mroot l]
  end.

Lemma rfc_tree_leaves es t : rfc_tree es t → leaves t = es.
Proof. induction 1; cbn; congruence. Qed.

Lemma rfc_tree_nonempty es t : rfc_tree es t → es ≠ [].
Proof. destruct 1 as [|k l r]; [done|]. intros [-> ->]%app_nil. cbn in *. lia. Qed.

Lemma rfc_tree_total es : es ≠ [] → ∃ t, rfc_tree es t.
Proof.
  remember (length es) as n eqn:Hn. revert es Hn.
  induction (lt_wf n) as [n _ IH]. intros es -> Hne.
  destruct es as [|e [|e' es]]; [done|eexists; constructor|].
  set (L := e :: e' :: es) in *.
  destruct (Nat.log2_spec (length L - 1)) as [Hlo Hhi]; [cbn; lia|].
  set (k := Nat.log2 (length L - 1)) in *.
  assert (length (take (2 ^ k) L) = 2 ^ k)%nat as Hl by (rewrite length_take; lia).
  assert (1 ≤ length (drop (2 ^ k) L) ≤ 2 ^ k)%nat as Hr.
  { rewrite length_drop. rewrite Nat.pow_succ_r' in Hhi. lia. }
  destruct (IH (length (take (2 ^ k) L)) ltac:(lia) _ eq_refl) as [tl Htl].
  { intros H. rewrite H in Hl. pose proof (Nat.pow_nonzero 2 k). cbn in Hl. lia. }
  destruct (IH (length (drop (2 ^ k) L))
              ltac:(rewrite length_drop; pose proof (Nat.pow_nonzero 2 k); lia) _ eq_refl)
    as [tr Htr].
  { intros H. rewrite H in Hr. cbn in Hr. lia. }
  exists (MNode tl tr). rewrite <- (take_drop (2 ^ k) L). by econstructor.
Qed.

Lemma level_root_rfc es t : rfc_tree es t → level_root (leaf_hash <$> es) = mroot t.
Proof.
  induction 1 as [e|k l r tl tr Hl Hr _ IHl _ IHr]; [done|].
  rewrite fmap_app, (level_root_split k) by (rewrite ?length_fmap; done).
  by rewrite IHl, IHr.
Qed.

Lemma merkle_root_level es : es ≠ [] →
  merkle_root_from_entries es = level_root (leaf_hash <$> es).
Proof. by destruct es. Qed.

(** ** Audit paths, level by level *)
Fixpoint level_path (d : nat) (L : list bytes) (i : nat) : list bytes :=
  match d with
  | O => []
  | S d =>
      if decide (length L ≤ 1)%nat then []
      else if Nat.odd i then (L !!! (i - 1)%nat) :: level_path d (next_level L) (Nat.div2 i)
      else match L !! S i with
           | Some s => s :: level_path d (next_level L) (Nat.div2 i)
           | None => level_path d (next_level L) (Nat.div2 i)
           end
  end.

Lemma level_path_S d L i :
  level_path (S d) L i =
    if decide (length L ≤ 1)%nat then []
    else if Nat.odd i then (L !!! (i - 1)%nat) :: level_path d (next_level L) (Nat.div2 i)
    else match L !! S i with
         | Some s => s :: level_path d (next_level L) (Nat.div2 i)
         | None => level_path d (next_level L) (Nat.div2 i)
         end.
Proof. done. Qed.

Lemma length_next_level_pow2 d L :
  (length L ≤ 2 ^ S d)%nat → (length (next_level L) ≤ 2 ^ d)%nat.
Proof. rewrite length_next_level, Nat.pow_succ_r'. ndlia. Qed.

Lemma length_next_level_bounds k L :
  (1 ≤ length L ≤ 2 ^ S k)%nat → (1 ≤ length (next_level L) ≤ 2 ^ k)%nat.
Proof. rewrite length_next_level, Nat.pow_succ_r'. ndlia. Qed.

Lemma length_next_level_exact k L :
  length L = (2 ^ S k)%nat → length (next_level L) = (2 ^ k)%nat.
Proof. intros H. by rewrite length_next_level, H, div2_S_pow2. Qed.
#[local] Hint Resolve length_next_level_pow2 length_next_level_bounds
  length_next_level_exact : py.

Lemma level_path_fuel d1 d2 L i :
  (length L ≤ 2 ^ d1)%nat → (length L ≤ 2 ^ d2)%nat →
  level_path d1 L i = level_path d2 L i.
Proof.
  revert d2 L i. induction d1 as [|d1 IH]; intros d2 L i H1 H2.
  - destruct d2; cbn in *; [done|]. by case_decide.
  - destruct d2 as [|d2]; cbn [level_path].
    + cbn in H2. by case_decide.
    + case_decide; [done|]. rewrite (IH d2) by auto with py. done.
Qed.

Lemma level_path_split_l k L1 L2 i :
  length L1 = (2 ^ k)%nat → (1 ≤ length L2 ≤ 2 ^ k)%nat → (i < 2 ^ k)%nat →
  level_path (S k) (L1 ++ L2) i = level_path k L1 i ++ [level_root L2].
Proof.
  revert L1 L2 i. induction k as [|k IH]; intros L1 L2 i H1 H2 Hi.
  - destruct L1 as [|x [|??]]; cbn in H1; [lia| |lia].
    destruct L2 as [|y [|??]]; cbn in H2; [lia| |lia].
    assert (i = 0)%nat as -> by (cbn in Hi; lia). done.
  - assert (2 ≤ length L1)%nat by (rewrite H1; cbn; pose proof (Nat.pow_nonzero 2 k); lia).
    rewrite (level_path_S (S k)), (level_path_S k L1).
    rewrite !decide_False by (rewrite ?length_app; lia).
    rewrite next_level_app by (rewrite H1; apply even_pow2).
    rewrite IH by (auto with py; rewrite Nat.pow_succ_r' in Hi; ndlia).
    rewrite level_root_next. destruct (Nat.odd i) eqn:Hodd; cbn [app].
    + f_equal. rewrite lookup_total_app_l by lia. done.
    + assert (S i < length L1)%nat.
      { rewrite H1. rewrite <- Nat.negb_even in Hodd. apply negb_false_iff in Hodd.
        apply Nat.even_spec in Hodd as [m ->]. rewrite Nat.pow_succ_r' in *. lia. }
      rewrite lookup_app_l by done.
      destruct (lookup_lt_is_Some_2 L1 (S i)) as [s ->]; done.
Qed.

Lemma level_path_split_r k L1 L2 i :
  length L1 = (2 ^ k)%nat → (1 ≤ length L2 ≤ 2 ^ k)%nat → (i < length L2)%nat →
  level_path (S k) (L1 ++ L2) (2 ^ k + i) = level_path k L2 i ++ [level_root L1].
Proof.
  revert L1 L2 i. induction k as [|k IH]; intros L1 L2 i H1 H2 Hi.
  - destruct L1 as [|x [|??]]; cbn in H1; [lia| |lia].
    destruct L2 as [|y [|??]]; cbn in H2; [lia| |lia].
    assert (i = 0)%nat as -> by (cbn in Hi; lia). done.
  - assert (2 ≤ length L1)%nat by (rewrite H1; cbn; pose proof (Nat.pow_nonzero 2 k); lia).
    rewrite (level_path_S (S k)), (level_path_S k L2).
    rewrite (decide_False (P := (length (L1 ++ L2) ≤ 1)%nat)) by (rewrite ?length_app; lia).
    rewrite next_level_app by (rewrite H1; apply even_pow2).
    assert (Nat.div2 (2 ^ S k + i) = 2 ^ k + Nat.div2 i)%nat as ->
      by (rewrite Nat.pow_succ_r'; ndlia).
    rewrite IH by (auto with py; rewrite length_next_level; ndlia).
    rewrite level_root_next.
    assert (Nat.odd (2 ^ S k + i) = Nat.odd i) as Hodd.
    { by rewrite Nat.pow_succ_r', Nat.add_comm, Nat.odd_add_mul_2. }
    rewrite Hodd. rewrite !lookup_app_r by lia.
    replace (S (2 ^ S k + i) - length L1)%nat with (S i) by lia.
    case_decide as Hs.
    + assert (i = 0)%nat as -> by lia. rewrite (lookup_ge_None_2 L2) by lia.
      cbn [Nat.odd Nat.even negb]. rewrite next_level_short by lia.
      destruct k; cbn; by rewrite ?decide_True by lia.
    + destruct (Nat.odd i) eqn:Ho; cbn [app].
      * f_equal. destruct i; [done|].
        rewrite lookup_total_app_r by lia. f_equal. lia.
      * by destruct (L2 !! S i).
Qed.

Lemma level_path_rfc es t d i :
  rfc_tree es t → (i < length es)%nat → (length es ≤ 2 ^ d)%nat →
  level_path d (leaf_hash <$> es) i = rfc_path t i.
Proof.
  intros Ht. revert d i. induction Ht as [e|k l r tl tr Hl Hr Htl IHl Htr IHr]; intros d i Hi Hd.
  - destruct d; cbn; [done|]. by rewrite decide_True by lia.
  - rewrite length_app in *. cbn [rfc_path].
    rewrite (rfc_tree_leaves _ _ Htl).
    rewrite (level_path_fuel _ (S k)) by (rewrite length_fmap, length_app, ?Nat.pow_succ_r'; lia).
    rewrite fmap_app. case_decide.
    + rewrite level_path_split_l by (rewrite ?length_fmap; lia).
      rewrite (IHl k), (level_root_rfc _ _ Htr) by lia. done.
    + replace i with (2 ^ k + (i - length l))%nat at 1 by lia.
      rewrite level_path_split_r by (rewrite ?length_fmap; lia).
      rewrite (IHr k), (level_root_rfc _ _ Htl) by lia. done.
Qed.

(** ** Inclusion proofs *)

(** On the right edge of the tree every sibling is to the left. *)
Lemma inclusion_loop_edge n h p : 1 ≤ n →
  inclusion_loop h (n - 1) n p = foldl (λ h s, node_hash s h) h p.
Proof.
  revert n h. induction p as [|s p IH]; intros n h Hn; [done|].
  cbn [inclusion_loop foldl]. replace ((n - 1) / 2) with ((n + 1) / 2 - 1) by dlia.
  rewrite IH by dlia. f_equal. unfold inclusion_step.
  destruct (_ =? 1); [done|]. by rewrite Z.ltb_irrefl.
Qed.

Lemma inclusion_loop_edge_up n h p : 1 ≤ n →
  inclusion_loop h (n - 1) n p = inclusion_loop h ((n - 1) / 2) ((n + 1) / 2) p.
Proof.
  intros Hn. replace ((n - 1) / 2) with ((n + 1) / 2 - 1) by dlia.
  rewrite !inclusion_loop_edge by dlia. done.
Qed.

Lemma zlen_next_level L : len (next_level L) = (len L + 1) / 2.
Proof. unfold len. rewrite length_next_level. ndlia. Qed.

Lemma div2_Z i : Z.of_nat (Nat.div2 i) = Z.of_nat i / 2.
Proof. ndlia. Qed.

Lemma odd_mod i : Nat.odd i = (Z.of_nat i mod 2 =? 1).
Proof.
  destruct (Nat.odd i) eqn:E; symmetry.
  - apply Nat.odd_spec in E as [m ->]. apply Z.eqb_eq. dlia.
  - rewrite <- Nat.negb_even in E. apply negb_false_iff, Nat.even_spec in E as [m ->].
    apply Z.eqb_neq. dlia.
Qed.

(** One iteration of the loop at position [i] of level [L], with the three
    cases of the code. *)
Inductive sibling_case (L : list bytes) (i : nat) : Prop :=
| Sib_left l h : Nat.odd i = true → L !! (i - 1)%nat = Some l → L !! i = Some h →
    next_level L !! Nat.div2 i = Some (node_hash l h) → sibling_case L i
| Sib_right h r : Nat.odd i = false → L !! i = Some h → L !! S i = Some r →
    next_level L !! Nat.div2 i = Some (node_hash h r) → sibling_case L i
| Sib_none h : Nat.odd i = false → L !! i = Some h → L !! S i = None →
    Z.of_nat i = len L - 1 → next_level L !! Nat.div2 i = Some h → sibling_case L i.

Lemma sibling_cases L i : (i < length L)%nat → sibling_case L i.
Proof.
  intros Hi. pose proof (next_level_lookup L (Nat.div2 i)) as Hn.
  destruct (lookup_lt_is_Some_2 L i Hi) as [h Hh].
  pose proof (Nat.div2_odd i) as Hdiv.
  destruct (Nat.odd i) eqn:Ho; cbn [Nat.b2n] in Hdiv.
  - replace (2 * Nat.div2 i)%nat with (i - 1)%nat in Hn by lia.
    replace (i - 1 + 1)%nat with i in Hn by lia.
    destruct (lookup_lt_is_Some_2 L (i - 1)) as [l Hl]; [lia|].
    rewrite Hl, Hh in Hn. by apply (Sib_left _ _ l h).
  - replace (2 * Nat.div2 i)%nat with i in Hn by lia.
    replace (i + 1)%nat with (S i) in Hn by lia. rewrite Hh in Hn.
    destruct (L !! S i) as [r|] eqn:Hr.
    + by apply (Sib_right _ _ h r).
    + apply (Sib_none _ _ h); try done. apply lookup_ge_None in Hr. unfold len. lia.
Qed.

Lemma inclusion_step_odd h i n s : Nat.odd i = true →
  inclusion_step h (Z.of_nat i) n s = node_hash s h.
Proof. intros Hi. unfold inclusion_step. by rewrite <- odd_mod, Hi. Qed.

Lemma inclusion_step_even h i (L : list bytes) r s : Nat.odd i = false → L !! S i = Some r →
  inclusion_step h (Z.of_nat i) (len L) s = node_hash h s.
Proof.
  intros Hi Hr. unfold inclusion_step. rewrite <- odd_mod, Hi.
  apply lookup_lt_Some in Hr. rewrite (proj2 (Z.ltb_lt _ _)); [done|]. unfold len. lia.
Qed.

Lemma level_root_lookup (L : list bytes) h : length L = 1%nat → L !! 0%nat = Some h → level_root L = h.
Proof. destruct L as [|x [|??]]; cbn; [done|congruence|done]. Qed.

Lemma inclusion_loop_complete d L i h :
  (length L ≤ 2 ^ d)%nat → L !! i = Some h →
  inclusion_loop h (Z.of_nat i) (len L) (level_path d L i) = level_root L.
Proof.
  revert L i h. induction d as [|d IH]; intros L i h Hd Hi;
    pose proof (lookup_lt_Some _ _ _ Hi).
  - assert (i = 0 ∧ length L = 1)%nat as [-> ?] by (cbn in Hd; lia).
    cbn. symmetry. by apply level_root_lookup.
  - rewrite level_path_S. case_decide.
    { assert (i = 0 ∧ length L = 1)%nat as [-> ?] by lia.
      cbn. symmetry. by apply level_root_lookup. }
    assert (∀ h', next_level L !! Nat.div2 i = Some h' →
      inclusion_loop h' (Z.of_nat i / 2) ((len L + 1) / 2)
        (level_path d (next_level L) (Nat.div2 i)) = level_root L) as Hup.
    { intros h' Hh'. rewrite <- div2_Z, <- zlen_next_level, IH; auto with py.
      apply level_root_next. }
    destruct (sibling_cases L i) as [l h' Ho Hl Hh Hn|h' r Ho Hh Hr Hn|h' Ho Hh Hr He Hn];
      [done|..]; rewrite Ho; simplify_eq.
    + cbn [inclusion_loop]. rewrite inclusion_step_odd by done.
      rewrite (list_lookup_total_correct _ _ _ Hl). auto.
    + rewrite Hr. cbn [inclusion_loop]. rewrite (inclusion_step_even _ _ _ r) by done. auto.
    + rewrite Hr, He, inclusion_loop_edge_up, <- He by (unfold len; lia). auto.
Qed.

(** ** What is hashed

    [hash_inputs es] are the byte strings hashed to build the tree over
    [es]; [inclusion_inputs] those hashed by a run of [verify_inclusion]. *)
Fixpoint level_inputs (L : list bytes) : list bytes :=
  match L with
  | l :: r :: L => (1 :: l ++ r) :: level_inputs L
  | _ => []
  end.

Fixpoint tree_inputs (d : nat) (L : list bytes) : list bytes :=
  match d with
  | O => []
  | S d => level_inputs L ++ tree_inputs d (next_level L)
  end.

Definition hash_inputs (es : list bytes) : list bytes :=
  (cons 0 <$> es) ++ tree_inputs (length es) (leaf_hash <$> es).

Definition step_input (hash : bytes) (i n : Z) (sibling : bytes) : bytes :=
  if i mod 2 =? 1 then 1 :: sibling ++ hash
  else if i <? n - 1 then 1 :: hash ++ sibling
  else 1 :: sibling ++ hash.

Fixpoint loop_inputs (hash : bytes) (i n : Z) (proof : list bytes) : list bytes :=
  match proof with
  | [] => []
  | s :: proof =>
      step_input hash i n s
      :: loop_inputs (inclusion_step hash i n s) (i / 2) ((n + 1) / 2) proof
  end.

Definition inclusion_inputs (entry : bytes) (i n : Z) (proof : list bytes) : list bytes :=
  (0 :: entry) :: loop_inputs (leaf_hash entry) i n proof.

Lemma sha256_step_input h i n s : sha256 (step_input h i n s) = inclusion_step h i n s.
Proof. unfold step_input, inclusion_step. by repeat case_match. Qed.

Lemma level_inputs_elem L j l r :
  L !! (2 * j)%nat = Some l → L !! S (2 * j) = Some r → 1 :: l ++ r ∈ level_inputs L.
Proof.
  revert j. induction L as [|x|x y L IH] using pair_ind; intros j Hl Hr; [done|..].
  - by destruct j.
  - cbn [level_inputs]. destruct j as [|j].
    + cbn in *. simplify_eq. left.
    + right. apply (IH j).
      * rewrite <- Hl. by replace (2 * S j)%nat with (S (S (2 * j))) by lia.
      * rewrite <- Hr. by replace (2 * S j)%nat with (S (S (2 * j))) by lia.
Qed.

Lemma level_inputs_pair (L : list bytes) i l r :
  Nat.odd i = false → L !! i = Some l → L !! S i = Some r → 1 :: l ++ r ∈ level_inputs L.
Proof.
  rewrite <- Nat.negb_even. intros Hi%negb_false_iff. apply Nat.even_spec in Hi as [m ->].
  apply level_inputs_elem.
Qed.

Lemma level_inputs_pair_odd (L : list bytes) i l r :
  Nat.odd i = true → L !! (i - 1)%nat = Some l → L !! i = Some r →
  1 :: l ++ r ∈ level_inputs L.
Proof.
  intros Hi. apply Nat.odd_spec in Hi as [m ->].
  replace (2 * m + 1 - 1)%nat with (2 * m)%nat by lia.
  replace (2 * m + 1)%nat with (S (2 * m)) by lia. apply level_inputs_elem.
Qed.

Definition hashes32 (L : list bytes) : Prop := Forall (λ h, length h = 32%nat) L.

Lemma hashes32_leaf es : hashes32 (leaf_hash <$> es).
Proof. apply Forall_fmap, Forall_true. intros. apply length_leaf_hash. Qed.

Lemma hashes32_next L : hashes32 L → hashes32 (next_level L).
Proof.
  unfold hashes32. induction L as [|x|x y L IH] using pair_ind; [done..|].
  rewrite !Forall_cons. cbn [next_level]. intros (_ & _ & H).
  constructor; auto with py.
Qed.

Lemma hashes32_lookup L i h : hashes32 L → L !! i = Some h → length h = 32%nat.
Proof. unfold hashes32. rewrite Forall_lookup. eauto. Qed.
#[export] Hint Resolve hashes32_leaf hashes32_next hashes32_lookup : py.

Lemma length_inclusion_step h i n s : length (inclusion_step h i n s) = 32%nat.
Proof. unfold inclusion_step. repeat case_match; apply length_node_hash. Qed.

(** Two node hashes that agree have the same children, when one child of
    each has the length of a digest on the same side. *)
Lemma node_hash_inj S l r l' r' :
  collision_free S → 1 :: l ++ r ∈ S → 1 :: l' ++ r' ∈ S →
  (length l = length l' ∨ length r = length r') →
  node_hash l r = node_hash l' r' → l = l' ∧ r = r'.
Proof.
  intros HS H1 H2 Hlen Heq. apply HS in Heq; [|done..]. injection Heq as Heq.
  destruct Hlen; [by apply app_inj_len_l | by apply app_inj_len_r].
Qed.

Lemma step_input_odd h i n s : Nat.odd i = true →
  step_input h (Z.of_nat i) n s = 1 :: s ++ h.
Proof. intros Hi. unfold step_input. by rewrite <- odd_mod, Hi. Qed.

Lemma step_input_even h i (L : list bytes) r s : Nat.odd i = false → L !! S i = Some r →
  step_input h (Z.of_nat i) (len L) s = 1 :: h ++ s.
Proof.
  intros Hi Hr. unfold step_input. rewrite <- odd_mod, Hi.
  apply lookup_lt_Some in Hr. rewrite (proj2 (Z.ltb_lt _ _)); [done|]. unfold len. lia.
Qed.

Lemma loop_inputs_edge_up n h p : 1 ≤ n →
  loop_inputs h (n - 1) n p = loop_inputs h ((n - 1) / 2) ((n + 1) / 2) p.
Proof.
  assert (∀ p n h, 1 ≤ n → loop_inputs h (n - 1) n p
    = (fix go h p := match p with [] => [] | s :: p => (1 :: s ++ h) :: go (node_hash s h) p end)
        h p) as Hgo.
  { clear. induction p as [|s p IH]; intros n h Hn; [done|]. cbn [loop_inputs].
    replace ((n - 1) / 2) with ((n + 1) / 2 - 1) by dlia. rewrite IH by dlia.
    unfold step_input, inclusion_step. rewrite Z.ltb_irrefl. by destruct (_ =? 1). }
  intros Hn. replace ((n - 1) / 2) with ((n + 1) / 2 - 1) by dlia.
  rewrite !Hgo by dlia. done.
Qed.

Lemma inclusion_loop_sound S d L i h p :
  collision_free S →
  (length L ≤ 2 ^ d)%nat → (i < length L)%nat → length h = 32%nat → hashes32 L →
  length p = length (level_path d L i) →
  (∀ x, x ∈ tree_inputs d L → x ∈ S) →
  (∀ x, x ∈ loop_inputs h (Z.of_nat i) (len L) p → x ∈ S) →
  inclusion_loop h (Z.of_nat i) (len L) p = level_root L →
  L !! i = Some h.
Proof.
  intros HS. revert L i h p. induction d as [|d IH]; intros L i h p Hd Hi Hh HL Hp Ht Hq Hr.
  - cbn in *. apply nil_length_inv in Hp as ->. assert (length L = 1 ∧ i = 0)%nat as [? ->] by lia.
    destruct L as [|x [|??]]; cbn in *; [lia|congruence|lia].
  - rewrite level_path_S in Hp. case_decide.
    { apply nil_length_inv in Hp as ->. assert (length L = 1 ∧ i = 0)%nat as [? ->] by lia.
      destruct L as [|x [|??]]; cbn in *; [lia|congruence|lia]. }
    setoid_rewrite elem_of_app in Ht.
    assert (∀ h' p', length p' = length (level_path d (next_level L) (Nat.div2 i)) →
      length h' = 32%nat →
      (∀ x, x ∈ loop_inputs h' (Z.of_nat i / 2) ((len L + 1) / 2) p' → x ∈ S) →
      inclusion_loop h' (Z.of_nat i / 2) ((len L + 1) / 2) p' = level_root L →
      next_level L !! Nat.div2 i = Some h') as Hup.
    { intros h' p' Hp' Hh' Hq' Hr'. apply (IH _ _ _ p'); auto with py.
      - rewrite length_next_level. ndlia.
      - by rewrite div2_Z, zlen_next_level.
      - by rewrite div2_Z, zlen_next_level, level_root_next. }
    destruct (sibling_cases L i) as [l c Ho Hl Hc Hn|c r Ho Hc Hrt Hn|c Ho Hc Hrt He Hn];
      [done|..]; rewrite Ho in Hp.
    + destruct p as [|s p]; [done|]. injection Hp as Hp. cbn [loop_inputs inclusion_loop] in *.
      specialize (Hup _ _ Hp (length_inclusion_step _ _ _ _) ltac:(set_solver) Hr).
      rewrite inclusion_step_odd, Hn in Hup by done. apply (inj Some) in Hup.
      apply (node_hash_inj S) in Hup as [_ ->]; auto with py.
      * eapply Ht. left. by eapply level_inputs_pair_odd.
      * apply Hq. rewrite step_input_odd by done. left.
      * right. rewrite Hh. eauto with py.
    + rewrite Hrt in Hp. destruct p as [|s p]; [done|]. injection Hp as Hp.
      cbn [loop_inputs inclusion_loop] in *.
      specialize (Hup _ _ Hp (length_inclusion_step _ _ _ _) ltac:(set_solver) Hr).
      rewrite (inclusion_step_even _ _ _ r), Hn in Hup by done. apply (inj Some) in Hup.
      apply (node_hash_inj S) in Hup as [-> _]; auto with py.
      * eapply Ht. left. by eapply level_inputs_pair.
      * apply Hq. rewrite (step_input_even _ _ _ r) by done. left.
      * left. rewrite Hh. eauto with py.
    + rewrite Hrt in Hp. rewrite He in Hq, Hr.
      rewrite inclusion_loop_edge_up in Hr by (unfold len; lia).
      rewrite loop_inputs_edge_up in Hq by (unfold len; lia). rewrite <- He in Hq, Hr.
      specialize (Hup h p Hp Hh Hq Hr). congruence.
Qed.

(** *** Membership, whatever the length of the proof *)
Fixpoint mtree_inputs (t : mtree) : list bytes :=
  match t with
  | MLeaf e => [0 :: e]
  | MNode l r => (1 :: mroot l ++ mroot r) :: mtree_inputs l ++ mtree_inputs r
  end.

Lemma tree_inputs_fuel d1 d2 L x :
  (d1 ≤ d2)%nat → x ∈ tree_inputs d1 L → x ∈ tree_inputs d2 L.
Proof.
  revert d2 L. induction d1 as [|d1 IH]; intros d2 L Hd Hx; [by apply not_elem_of_nil in Hx|].
  destruct d2 as [|d2]; [lia|]. cbn [tree_inputs] in *.
  rewrite elem_of_app in *. destruct Hx; [auto|]. right. apply IH; [lia|done].
Qed.

Lemma level_inputs_app L1 L2 :
  Nat.Even (length L1) → level_inputs (L1 ++ L2) = level_inputs L1 ++ level_inputs L2.
Proof.
  induction L1 as [|x|x y L IH] using pair_ind; intros [k Hk]; [done|cbn in Hk; lia|].
  cbn [app level_inputs]. rewrite IH; [done|]. exists (k - 1)%nat. cbn in Hk. lia.
Qed.

Lemma tree_inputs_split k L1 L2 x :
  length L1 = (2 ^ k)%nat → (1 ≤ length L2 ≤ 2 ^ k)%nat →
  x = 1 :: level_root L1 ++ level_root L2 ∨ x ∈ tree_inputs k L1 ∨ x ∈ tree_inputs k L2 →
  x ∈ tree_inputs (S k) (L1 ++ L2).
Proof.
  revert L1 L2. induction k as [|k IH]; intros L1 L2 H1 H2 Hx.
  - destruct L1 as [|y [|??]]; cbn in H1; [lia| |lia].
    destruct L2 as [|z [|??]]; cbn in H2; [lia| |lia].
    destruct Hx as [->|[Hx|Hx]]; [left|by apply not_elem_of_nil in Hx..].
  - change (tree_inputs (S (S k)) (L1 ++ L2))
      with (level_inputs (L1 ++ L2) ++ tree_inputs (S k) (next_level (L1 ++ L2))).
    rewrite level_inputs_app, next_level_app by (rewrite H1; apply even_pow2).
    rewrite !elem_of_app. cbn [tree_inputs] in Hx. rewrite !elem_of_app in Hx.
    destruct Hx as [->|[[Hx|Hx]|[Hx|Hx]]]; auto; right; apply IH; auto with py.
    left. by rewrite !level_root_next.
Qed.

Lemma mtree_inputs_levels es t d x :
  rfc_tree es t → (length es ≤ 2 ^ d)%nat → x ∈ mtree_inputs t →
  x ∈ (cons 0 <$> es) ++ tree_inputs d (leaf_hash <$> es).
Proof.
  intros Ht. revert d x. induction Ht as [e|k l r tl tr Hl Hr Htl IHl Htr IHr]; intros d x Hd Hx.
  - apply list_elem_of_singleton in Hx as ->. apply elem_of_app. left. left.
  - rewrite length_app in Hd.
    assert (S k ≤ d)%nat.
    { apply Nat.nlt_ge. intros Hlt. assert (2 ^ d ≤ 2 ^ k)%nat by (apply Nat.pow_le_mono_r; lia). lia. }
    rewrite !fmap_app.
    cbn [mtree_inputs] in Hx. rewrite elem_of_cons, elem_of_app in Hx.
    rewrite <- (level_root_rfc _ _ Htl), <- (level_root_rfc _ _ Htr) in Hx.
    pose proof (λ y, tree_inputs_split k (leaf_hash <$> l) (leaf_hash <$> r) y) as Hsplit.
    rewrite !length_fmap in Hsplit.
    assert (∀ y, y ∈ tree_inputs (S k) ((leaf_hash <$> l) ++ (leaf_hash <$> r)) →
      y ∈ tree_inputs d ((leaf_hash <$> l) ++ (leaf_hash <$> r))) as Hf
      by (intros; by eapply tree_inputs_fuel).
    specialize (IHl k x ltac:(lia)). specialize (IHr k x ltac:(lia)).
    rewrite !elem_of_app in *. naive_solver.
Qed.

Lemma pow2_ge n : (n ≤ 2 ^ n)%nat.
Proof. apply Nat.lt_le_incl, Nat.pow_gt_lin_r. lia. Qed.

Lemma hash_inputs_mtree es t x : rfc_tree es t → x ∈ mtree_inputs t → x ∈ hash_inputs es.
Proof. intros. eapply mtree_inputs_levels; eauto using pow2_ge. Qed.

Lemma inclusion_loop_snoc h i n p s :
  ∃ i' n', let h' := inclusion_loop h i n p in
    inclusion_loop h i n (p ++ [s]) = inclusion_step h' i' n' s ∧
    loop_inputs h i n (p ++ [s]) = loop_inputs h i n p ++ [step_input h' i' n' s].
Proof.
  revert h i n. induction p as [|s' p IH]; intros h i n; [by eexists _, _|].
  cbn [inclusion_loop loop_inputs app].
  destruct (IH (inclusion_step h i n s') (i / 2) ((n + 1) / 2)) as (i' & n' & H1 & H2).
  exists i', n'. cbn. by rewrite H1, H2.
Qed.

Lemma length_inclusion_loop h i n p : length h = 32%nat → length (inclusion_loop h i n p) = 32%nat.
Proof.
  revert h i n. induction p; intros; cbn; [done|]. auto using length_inclusion_step.
Qed.

Lemma length_mroot t : length (mroot t) = 32%nat.
Proof. destruct t; apply length_sha256. Qed.

Lemma inclusion_loop_member S e i n p t :
  collision_free S → (∀ x, x ∈ mtree_inputs t → x ∈ S) →
  (∀ x, x ∈ inclusion_inputs e i n p → x ∈ S) →
  inclusion_loop (leaf_hash e) i n p = mroot t → e ∈ leaves t.
Proof.
  intros HS. revert t. induction p as [|s p IH] using rev_ind; intros t Ht Hq Hr.
  - destruct t as [e'|l r]; cbn [inclusion_loop mroot mtree_inputs leaves] in *;
      apply HS in Hr; try (by apply Hq; left); try (by apply Ht; left).
    + injection Hr as ->. left.
    + done.
  - unfold inclusion_inputs in *.
    destruct (inclusion_loop_snoc (leaf_hash e) i n p s) as (i' & n' & H1 & H2).
    cbn zeta in H1, H2. rewrite H1 in Hr. rewrite H2 in Hq.
    assert (length (inclusion_loop (leaf_hash e) i n p) = 32%nat) as Hlen
      by apply length_inclusion_loop, length_leaf_hash.
    assert (step_input (inclusion_loop (leaf_hash e) i n p) i' n' s ∈ S) as Hin
      by (apply Hq; set_solver).
    rewrite <- sha256_step_input in Hr.
    destruct t as [e'|l r]; cbn [mroot mtree_inputs leaves] in *;
      apply HS in Hr; try done; try (by apply Ht; left).
    + exfalso. revert Hr. unfold step_input. by repeat case_match.
    + assert (∀ x, x ∈ (0 :: e) :: loop_inputs (leaf_hash e) i n p → x ∈ S) as Hq'
        by (intros x Hx; apply Hq; set_solver).
      apply elem_of_app. revert Hr. unfold step_input.
      repeat case_match; intros Heq; injection Heq as Heq.
      * apply app_inj_len_r in Heq as [_ Heq]; [|by rewrite length_mroot].
        right. apply IH; [set_solver|done|done].
      * apply app_inj_len_l in Heq as [Heq _]; [|by rewrite length_mroot].
        left. apply IH; [set_solver|done|done].
      * apply app_inj_len_r in Heq as [_ Heq]; [|by rewrite length_mroot].
        right. apply IH; [set_solver|done|done].
Qed.

(** ** Theorems on inclusion *)
Lemma verify_inclusion_Ok e i n root p b :
  verify_inclusion e i n root p = Ok b ↔
  0 ≤ i < n ∧ b = (inclusion_loop (leaf_hash e) i n p ==? root).
Proof.
  unfold verify_inclusion, inclusion_root. split.
  - intros H. res_inv. bool_prop. split; [lia|done].
  - intros [H ->].
    replace ((i <? 0) || (n <=? i)) with false; [done|]. symmetry. bool_prop. lia.
Qed.

(** C38 [merkle_root_from_entries] computes the RFC 6962 Merkle tree hash: the
    hash of the empty string for no entries, and otherwise the root of the one
    tree whose left subtree is the largest complete one. *)
Theorem merkle_root_is_rfc6962 (es : list bytes) :
  match es with
  | [] => merkle_root_from_entries es = sha256 []
  | _ => ∃ t, rfc_tree es t ∧ leaves t = es ∧ merkle_root_from_entries es = mroot t
  end.
Proof.
  destruct es as [|e es]; [done|].
  destruct (rfc_tree_total (e :: es)) as [t Ht]; [done|].
  exists t. split_and!; [done|by apply rfc_tree_leaves|].
  rewrite merkle_root_level by done. by apply level_root_rfc.
Qed.

(** The path found level by level is accepted. *)
Lemma level_path_accepted es i e : es !! i = Some e →
  verify_inclusion e (Z.of_nat i) (len es) (merkle_root_from_entries es) (level_path (length es) (leaf_hash <$> es) i)
  = Ok true.
Proof.
  intros Hi. pose proof (lookup_lt_Some _ _ _ Hi). apply verify_inclusion_Ok. split; [unfold len; lia|].
  rewrite merkle_root_level by (intros ->; done).
  replace (len es) with (len (leaf_hash <$> es)) by (unfold len; by rewrite length_fmap).
  rewrite inclusion_loop_complete; [by rewrite eqb_refl|..].
  - rewrite length_fmap. apply pow2_ge.
  - by rewrite list_lookup_fmap, Hi.
Qed.

(** Every audit path of RFC 6962 is accepted: for any log and any index in
    it, [verify_inclusion] returns [True] on the entry, the root of the log and
    PATH(index, log). *)
Theorem verify_inclusion_complete (es : list bytes) (t : mtree) (i : nat) (e : bytes)
    (Ht : rfc_tree es t) (Hi : es !! i = Some e) :
  verify_inclusion e (Z.of_nat i) (len es) (merkle_root_from_entries es) (rfc_path t i)
  = Ok true.
Proof.
  rewrite <- (level_path_rfc es t (length es)) by eauto using pow2_ge, lookup_lt_Some.
  by apply level_path_accepted.
Qed.

(** Soundness of inclusion at an index: when the proof has the length of the
    audit path of that index and the hash has no collision among the strings
    hashed by log and verifier, an accepted entry is the entry of the log at
    that index. *)
Theorem verify_inclusion_sound (es : list bytes) (t : mtree) (index : Z) (e : bytes)
    (proof : list bytes)
    (Ht : rfc_tree es t)
    (Hlen : length proof = length (rfc_path t (Z.to_nat index)))
    (Hcf : collision_free (hash_inputs es ++ inclusion_inputs e index (len es) proof))
    (Hacc : verify_inclusion e index (len es) (merkle_root_from_entries es) proof = Ok true) :
  es !! Z.to_nat index = Some e.
Proof.
  apply verify_inclusion_Ok in Hacc as [Hi Hacc]. symmetry in Hacc. rewrite eqb_true in Hacc.
  unfold hash_inputs, inclusion_inputs in *. set (cf := _ ++ _) in Hcf.
  rewrite merkle_root_level in Hacc by eauto using rfc_tree_nonempty.
  assert (Z.to_nat index < length es)%nat as Hlt by (unfold len in Hi; lia).
  rewrite <- (level_path_rfc es t (length es)) in Hlen by eauto using pow2_ge.
  rewrite <- (Z2Nat.id index) in Hacc by lia.
  replace (len es) with (len (leaf_hash <$> es)) in Hacc by (unfold len; by rewrite length_fmap).
  apply (inclusion_loop_sound cf (length es)) in Hacc; auto with py.
  - rewrite list_lookup_fmap, fmap_Some in Hacc. destruct Hacc as (e' & He' & Heq).
    rewrite He'. f_equal. symmetry. apply (f_equal (drop 1)) with (x := 0 :: e) (y := 0 :: e').
    apply Hcf; [..|done]; unfold cf; rewrite !elem_of_app; [right; left|].
    left; left. apply list_elem_of_fmap. eauto using list_elem_of_lookup_2.
  - rewrite length_fmap. apply pow2_ge.
  - by rewrite length_fmap.
  - unfold cf. set_solver.
  - unfold cf. intros x Hx.
    replace (len (leaf_hash <$> es)) with (len es) in Hx by (unfold len; by rewrite length_fmap).
    rewrite Z2Nat.id in Hx by lia. set_solver.
Qed.

Lemma inclusion_member (es : list bytes) (index : Z) (e : bytes) (proof : list bytes)
    (Hne : es ≠ [])
    (Hcf : collision_free (hash_inputs es ++ inclusion_inputs e index (len es) proof))
    (Hacc : verify_inclusion e index (len es) (merkle_root_from_entries es) proof = Ok true) :
  e ∈ es.
Proof.
  apply verify_inclusion_Ok in Hacc as [Hi Hacc]. symmetry in Hacc. rewrite eqb_true in Hacc.
  destruct (rfc_tree_total es Hne) as [t Ht].
  rewrite merkle_root_level, (level_root_rfc es t) in Hacc by done.
  rewrite <- (rfc_tree_leaves es t) by done.
  eapply inclusion_loop_member; [exact Hcf|..|exact Hacc].
  - intros x Hx. apply elem_of_app. left. by eapply hash_inputs_mtree.
  - intros x Hx. apply elem_of_app. by right.
Qed.

(** Membership: with no collision among the strings hashed by log and
    verifier, an accepted entry is an entry of the log, for a proof of any
    length. *)
Theorem verify_inclusion_member (es : list bytes) (index : Z) (e : bytes) (proof : list bytes)
    (Hne : es ≠ [])
    (Hcf : collision_free (hash_inputs es ++ inclusion_inputs e index (len es) proof))
    (Hacc : verify_inclusion e index (len es) (merkle_root_from_entries es) proof = Ok true) :
  e ∈ es.
Proof. by eapply inclusion_member. Qed.

(** The index is not bound by an accepted proof of the wrong length: in a
    log of five entries the last entry is accepted at index 1, whatever the
    entries are, since [inclusion_root] does not check the number of
    siblings. *)
Theorem verify_inclusion_index_unbound (e0 e1 e2 e3 e4 : bytes) :
  verify_inclusion e4 1 5 (merkle_root_from_entries [e0; e1; e2; e3; e4])
    [merkle_root_from_entries [e0; e1; e2; e3]] = Ok true.
Proof.
  apply verify_inclusion_Ok. split; [done|]. symmetry. apply eqb_true. done.
Qed.

(** The shape of the concrete logs used in the witnesses. *)
Definition log5 : list bytes := [lit "a"; lit "b"; lit "c"; lit "d"; lit "e"].
Definition log5_tree : mtree :=
  MNode (MNode (MNode (MLeaf (lit "a")) (MLeaf (lit "b"))) (MNode (MLeaf (lit "c")) (MLeaf (lit "d"))))
        (MLeaf (lit "e")).

Lemma log5_rfc : rfc_tree log5 log5_tree.
Proof.
  apply (rfc_node 2 [_; _; _; _] [_]); [done|cbn; lia| |constructor].
  apply (rfc_node 1 [_; _] [_; _]); [done|cbn; lia|..];
    apply (rfc_node 0 [_] [_]); (done || (cbn; lia) || constructor).
Qed.

Lemma verify_inclusion_complete_witness :
  verify_inclusion (lit "c") 2 5 (merkle_root_from_entries log5) (rfc_path log5_tree 2) = Ok true.
Proof. exact (verify_inclusion_complete log5 log5_tree 2 (lit "c") log5_rfc eq_refl). Defined.

Lemma verify_inclusion_sound_witness : log5 !! 2%nat = Some (lit "c").
Proof.
  refine (verify_inclusion_sound log5 log5_tree 2 (lit "c") (rfc_path log5_tree 2) log5_rfc
            eq_refl _ _).
  - apply collision_freeb_sound. vm_compute. reflexivity.
  - vm_compute. reflexivity.
Defined.

Lemma verify_inclusion_member_witness : lit "e" ∈ log5.
Proof.
  refine (verify_inclusion_member log5 1 (lit "e")
            [merkle_root_from_entries [lit "a"; lit "b"; lit "c"; lit "d"]] _ _ _).
  - done.
  - apply collision_freeb_sound. vm_compute. reflexivity.
  - vm_compute. reflexivity.
Defined.
