(* ===== verification/MerkleConsistency.v ===== *)
(** * Consistency proofs ([verify_consistency] of [c2sp_tlog/merkle.py])

    Soundness: an accepted proof between the roots of two logs means that the
    old log is a prefix of the new one.  Completeness: the proof read off the
    new log is accepted.  Both by induction on the levels of the two trees. *)
From S2P Require Import Prelude Errors Sha256 Merkle.

(** ** What a run hashes *)
Fixpoint consistency_loop_inputs (o n : Z) (old_hash new_hash : bytes) (proof : list bytes)
    : list bytes :=
  match proof with
  | [] => []
  | node :: proof =>
      if Z.testbit o 0 || (o =? n) then
        let '(o', n') := shift_even (consistency_fuel o) o n in
        (1 :: node ++ old_hash) :: (1 :: node ++ new_hash)
        :: consistency_loop_inputs (Z.shiftr o' 1) (Z.shiftr n' 1)
             (node_hash node old_hash) (node_hash node new_hash) proof
      else
        (1 :: new_hash ++ node)
        :: consistency_loop_inputs (Z.shiftr o 1) (Z.shiftr n 1)
             old_hash (node_hash new_hash node) proof
  end.

Definition consistency_inputs (old_size new_size : Z) (old_root : bytes) (proof : list bytes)
    : list bytes :=
  let '(o, n) := shift_odd (consistency_fuel (old_size - 1)) (old_size - 1) (new_size - 1) in
  if Z.land old_size (old_size - 1) =? 0
  then consistency_loop_inputs o n old_root old_root proof
  else match proof with
       | [] => []
       | first :: proof => consistency_loop_inputs o n first first proof
       end.

(** ** Index arithmetic *)
Lemma testbit0 i : Z.testbit i 0 = Z.odd i.
Proof. apply Z.bit0_odd. Qed.

Lemma shiftr1 i : Z.shiftr i 1 = i / 2.
Proof. apply Z.shiftr_div_pow2. lia. Qed.

Lemma Zodd_mod i : Z.odd i = (i mod 2 =? 1).
Proof.
  rewrite Zmod_odd. by destruct (Z.odd i).
Qed.

Lemma consistency_fuel_step i : 2 ≤ i → consistency_fuel i = S (consistency_fuel (i / 2)).
Proof.
  intros Hi. unfold consistency_fuel.
  assert (Z.log2 i = Z.log2 (i / 2) + 1) as ->.
  { rewrite <- Z.div2_div. pose proof (Z.log2_shiftr i 1 ltac:(lia)) as H.
    rewrite Z.shiftr_div_pow2, Z.pow_1_r in H by lia. rewrite Z.div2_div.
    pose proof (Z.log2_le_mono 2 i Hi) as H2. change (Z.log2 2) with 1 in H2. lia. }
  pose proof (Z.log2_nonneg (i / 2)). lia.
Qed.

Lemma shift_even_odd o n : Z.odd o = true → shift_even (consistency_fuel o) o n = (o, n).
Proof.
  intros Ho. destruct (consistency_fuel o); cbn [shift_even]; [done|].
  rewrite testbit0, Ho. by destruct (o =? 0).
Qed.

Lemma shift_even_up n : 0 < n → Z.odd n = false →
  shift_even (consistency_fuel n) n n = shift_even (consistency_fuel (n / 2)) (n / 2) (n / 2).
Proof.
  intros Hn Ho. assert (2 ≤ n) by (rewrite Zodd_mod in Ho; bool_prop; dlia).
  rewrite consistency_fuel_step by lia. cbn [shift_even].
  rewrite testbit0, Ho, shiftr1. by destruct (Z.eqb_spec n 0); [lia|].
Qed.

(** *** The loop, case by case *)
Section cases.
Context (r r' : bytes).
Implicit Types p : list bytes.

Lemma consistency_loop_up n fr sr p : 0 < n → Z.odd n = false →
  consistency_accepts r r' (consistency_loop n n fr sr p)
  = consistency_accepts r r' (consistency_loop (n / 2) (n / 2) fr sr p) ∧
  consistency_loop_inputs n n fr sr p = consistency_loop_inputs (n / 2) (n / 2) fr sr p.
Proof.
  intros Hn Ho. assert (2 ≤ n) by (rewrite Zodd_mod in Ho; bool_prop; dlia).
  destruct p as [|c p]; cbn [consistency_loop consistency_loop_inputs].
  - split; [|done]. cbn. destruct (Z.eqb_spec n 0); [lia|].
    destruct (Z.eqb_spec (n / 2) 0); [dlia|done].
  - rewrite !Z.eqb_refl, !orb_true_r, <- shift_even_up by done.
    destruct (Z.eqb_spec n 0); [lia|].
    destruct (Z.eqb_spec (n / 2) 0); [dlia|done].
Qed.

Lemma consistency_loop_odd o n fr sr c p : Z.odd o = true → n ≠ 0 →
  consistency_loop o n fr sr (c :: p)
  = consistency_loop (o / 2) (n / 2) (node_hash c fr) (node_hash c sr) p ∧
  consistency_loop_inputs o n fr sr (c :: p)
  = (1 :: c ++ fr) :: (1 :: c ++ sr)
    :: consistency_loop_inputs (o / 2) (n / 2) (node_hash c fr) (node_hash c sr) p.
Proof.
  intros Ho Hn. cbn [consistency_loop consistency_loop_inputs].
  rewrite testbit0, Ho. cbn [orb]. rewrite shift_even_odd, !shiftr1 by done.
  by destruct (Z.eqb_spec n 0).
Qed.

Lemma consistency_loop_even o n fr sr c p : Z.odd o = false → o < n → n ≠ 0 →
  consistency_loop o n fr sr (c :: p)
  = consistency_loop (o / 2) (n / 2) fr (node_hash sr c) p ∧
  consistency_loop_inputs o n fr sr (c :: p)
  = (1 :: sr ++ c) :: consistency_loop_inputs (o / 2) (n / 2) fr (node_hash sr c) p.
Proof.
  intros Ho Hlt Hn. cbn [consistency_loop consistency_loop_inputs].
  rewrite testbit0, Ho. destruct (Z.eqb_spec o n); [lia|]. cbn [orb].
  rewrite !shiftr1. by destruct (Z.eqb_spec n 0).
Qed.
End cases.

(** ** Soundness *)
Lemma Zodd_nat f : Z.odd (Z.of_nat f) = Nat.odd f.
Proof. by rewrite Zodd_mod, odd_mod. Qed.

(** Two levels whose parents agree at [j] agree at the children of [j]. *)
Lemma next_level_agree S (O N : list bytes) j :
  collision_free S → hashes32 O → hashes32 N →
  (∀ x, x ∈ level_inputs O → x ∈ S) → (∀ x, x ∈ level_inputs N → x ∈ S) →
  (2 * j + 1 < length O)%nat → (2 * j + 1 < length N)%nat →
  next_level O !! j = next_level N !! j →
  O !! (2 * j)%nat = N !! (2 * j)%nat ∧ O !! (2 * j + 1)%nat = N !! (2 * j + 1)%nat.
Proof.
  intros HS HO HN HiO HiN HlO HlN. rewrite !next_level_lookup.
  destruct (lookup_lt_is_Some_2 O (2 * j)) as [a Ha]; [lia|].
  destruct (lookup_lt_is_Some_2 O (2 * j + 1)) as [b Hb]; [lia|].
  destruct (lookup_lt_is_Some_2 N (2 * j)) as [c Hc]; [lia|].
  destruct (lookup_lt_is_Some_2 N (2 * j + 1)) as [d Hd]; [lia|].
  rewrite Ha, Hb, Hc, Hd. intros Heq. apply (inj Some) in Heq.
  rewrite Nat.add_1_r in Hb, Hd.
  apply (node_hash_inj S) in Heq as [-> ->]; eauto using level_inputs_elem.
  left. trans 32%nat; [|symmetry]; eauto with py.
Qed.

Lemma next_level_agree_below S (O N : list bytes) m :
  collision_free S → hashes32 O → hashes32 N →
  (∀ x, x ∈ level_inputs O → x ∈ S) → (∀ x, x ∈ level_inputs N → x ∈ S) →
  (2 * m ≤ length O)%nat → (2 * m ≤ length N)%nat →
  (∀ j, (j < m)%nat → next_level O !! j = next_level N !! j) →
  ∀ x, (x < 2 * m)%nat → O !! x = N !! x.
Proof.
  intros HS HO HN HiO HiN HlO HlN Hj x Hx. pose proof (Nat.div2_odd x) as Hdiv.
  destruct (next_level_agree S O N (Nat.div2 x)) as [H0 H1]; try done.
  1-2: destruct (Nat.odd x); cbn [Nat.b2n] in *; lia.
  { apply Hj. destruct (Nat.odd x); cbn [Nat.b2n] in *; lia. }
  destruct (Nat.odd x); cbn [Nat.b2n] in Hdiv.
  - by replace x with (2 * Nat.div2 x + 1)%nat by lia.
  - by replace x with (2 * Nat.div2 x)%nat by lia.
Qed.

(** What an accepted run establishes at a level: the running hashes are the
    last hash of the old level and its counterpart in the new one, and the
    levels agree to the left of it. *)
Definition level_agrees (O N : list bytes) (f : nat) (fr sr : bytes) : Prop :=
  O !! f = Some fr ∧ N !! f = Some sr ∧ ∀ x, (x < f)%nat → O !! x = N !! x.

Lemma root_loop_singleton (L : list bytes) h : length L = 1%nat → level_root L = h → L !! 0%nat = Some h.
Proof. destruct L as [|x [|??]]; cbn; [done|congruence|done]. Qed.

Lemma level_agrees_base O N fr sr s p :
  length O = 1%nat → length N = 1%nat → Z.of_nat s = 0 →
  consistency_accepts (level_root O) (level_root N)
    (consistency_loop 0 (Z.of_nat s) fr sr p) = true →
  level_agrees O N 0 fr sr.
Proof.
  intros HO HN Hs Hacc. rewrite Hs in Hacc. destruct p; [|done].
  cbn in Hacc. bool_prop. split_and!; [|  |lia]; by apply root_loop_singleton.
Qed.

Lemma level_agrees_up_odd S O N f fr sr c :
  collision_free S → hashes32 O → hashes32 N →
  (∀ x, x ∈ level_inputs O → x ∈ S) → (∀ x, x ∈ level_inputs N → x ∈ S) →
  length O = Datatypes.S f → (f < length N)%nat → length c = 32%nat →
  1 :: c ++ fr ∈ S → 1 :: c ++ sr ∈ S → Nat.odd f = true →
  level_agrees (next_level O) (next_level N) (Nat.div2 f) (node_hash c fr) (node_hash c sr) →
  level_agrees O N f fr sr.
Proof.
  intros HS HO HN HiO HiN HlO HlN Hc H1 H2 Ho (HfO & HfN & Hx).
  pose proof (Nat.div2_odd f) as Hdiv. rewrite Ho in Hdiv. cbn [Nat.b2n] in Hdiv.
  destruct (sibling_cases O f) as [l h _ Hl Hh Hn|? ? ? _ _ _|? ? _ _ _ _]; [lia| |congruence..].
  destruct (sibling_cases N f) as [l' h' _ Hl' Hh' Hn'|? ? ? _ _ _|? ? _ _ _ _]; [lia| |congruence..].
  rewrite Hn in HfO. rewrite Hn' in HfN. apply (inj Some) in HfO, HfN.
  assert (∀ (L : list bytes) k x, hashes32 L → L !! k = Some x → length x = length c)
    as Hlen by (intros; rewrite Hc; eauto with py).
  apply (node_hash_inj S) in HfO as [-> ->]; eauto using level_inputs_pair_odd.
  apply (node_hash_inj S) in HfN as [-> ->]; eauto using level_inputs_pair_odd.
  split_and!; [done..|]. intros x Hlt.
  destruct (decide (x = f - 1)%nat) as [->|]; [by rewrite Hl, Hl'|].
  apply (next_level_agree_below S _ _ (Nat.div2 f)); auto; lia.
Qed.

Lemma level_agrees_up_even S O N f fr sr c :
  collision_free S → hashes32 O → hashes32 N →
  (∀ x, x ∈ level_inputs O → x ∈ S) → (∀ x, x ∈ level_inputs N → x ∈ S) →
  length O = Datatypes.S f → (Datatypes.S f < length N)%nat → length c = 32%nat →
  1 :: sr ++ c ∈ S → Nat.odd f = false →
  level_agrees (next_level O) (next_level N) (Nat.div2 f) fr (node_hash sr c) →
  level_agrees O N f fr sr.
Proof.
  intros HS HO HN HiO HiN HlO HlN Hc H1 Ho (HfO & HfN & Hx).
  pose proof (Nat.div2_odd f) as Hdiv. rewrite Ho in Hdiv. cbn [Nat.b2n] in Hdiv.
  destruct (sibling_cases O f) as [? ? ? _ _ _|h r _ Hh Hr Hn|h _ Hh Hr _ Hn];
    [lia|congruence|apply lookup_lt_Some in Hr; lia|].
  destruct (sibling_cases N f) as [? ? ? _ _ _|h' r' _ Hh' Hr' Hn'|h' _ Hh' Hr' _ Hn'];
    [lia|congruence| |apply lookup_ge_None in Hr'; lia].
  rewrite Hn in HfO. rewrite Hn' in HfN. apply (inj Some) in HfO, HfN. subst h.
  apply (node_hash_inj S) in HfN as [-> ->]; eauto using level_inputs_pair.
  - split_and!; [done..|]. intros x Hlt.
    apply (next_level_agree_below S _ _ (Nat.div2 f)); auto; lia.
  - right. rewrite Hc. eauto with py.
Qed.

Lemma level_agrees_up_edge S O N f fr sr :
  collision_free S → hashes32 O → hashes32 N →
  (∀ x, x ∈ level_inputs O → x ∈ S) → (∀ x, x ∈ level_inputs N → x ∈ S) →
  length O = Datatypes.S f → length N = Datatypes.S f → Nat.odd f = false →
  level_agrees (next_level O) (next_level N) (Nat.div2 f) fr sr →
  level_agrees O N f fr sr.
Proof.
  intros HS HO HN HiO HiN HlO HlN Ho (HfO & HfN & Hx).
  pose proof (Nat.div2_odd f) as Hdiv. rewrite Ho in Hdiv. cbn [Nat.b2n] in Hdiv.
  destruct (sibling_cases O f) as [? ? ? _ _ _|h r _ Hh Hr Hn|h _ Hh Hr _ Hn];
    [lia|congruence|apply lookup_lt_Some in Hr; lia|].
  destruct (sibling_cases N f) as [? ? ? _ _ _|h' r' _ Hh' Hr' Hn'|h' _ Hh' Hr' _ Hn'];
    [lia|congruence|apply lookup_lt_Some in Hr'; lia|].
  rewrite Hn in HfO. rewrite Hn' in HfN. apply (inj Some) in HfO, HfN. subst.
  split_and!; [done..|]. intros x Hlt.
  apply (next_level_agree_below S _ _ (Nat.div2 f)); auto; lia.
Qed.

Lemma consistency_loop_sound cf d O N f s fr sr p :
  collision_free cf → hashes32 O → hashes32 N → hashes32 p →
  (∀ x, x ∈ tree_inputs d O → x ∈ cf) → (∀ x, x ∈ tree_inputs d N → x ∈ cf) →
  (∀ x, x ∈ consistency_loop_inputs (Z.of_nat f) (Z.of_nat s) fr sr p → x ∈ cf) →
  length O = S f → length N = S s → (f ≤ s)%nat → (length N ≤ 2 ^ d)%nat →
  consistency_accepts (level_root O) (level_root N)
    (consistency_loop (Z.of_nat f) (Z.of_nat s) fr sr p) = true →
  level_agrees O N f fr sr.
Proof.
  intros HS. revert O N f s fr sr p.
  induction d as [|d IH]; intros O N f s fr sr p HO HN Hp HiO HiN Hip HlO HlN Hfs Hd Hacc.
  { assert (f = 0 ∧ s = 0)%nat as [-> ->] by (cbn in Hd; lia).
    eapply (level_agrees_base _ _ _ _ 0 p); [lia..|done|exact Hacc]. }
  destruct s as [|s'].
  { assert (f = 0)%nat as -> by lia.
    eapply (level_agrees_base _ _ _ _ 0 p); [lia..|done|exact Hacc]. }
  set (s := S s') in *.
  assert (∀ L, length L = S s → (length (next_level L) = S (Nat.div2 s))) as Hnext
    by (intros L HL; rewrite length_next_level, HL; done).
  cbn [tree_inputs] in HiO, HiN. setoid_rewrite elem_of_app in HiO.
  setoid_rewrite elem_of_app in HiN.
  assert (∀ fr' sr' p', hashes32 p' →
    (∀ x, x ∈ consistency_loop_inputs (Z.of_nat f / 2) (Z.of_nat s / 2) fr' sr' p' → x ∈ cf) →
    consistency_accepts (level_root O) (level_root N)
      (consistency_loop (Z.of_nat f / 2) (Z.of_nat s / 2) fr' sr' p') = true →
    level_agrees (next_level O) (next_level N) (Nat.div2 f) fr' sr') as Hup.
  { intros fr' sr' p' Hp' Hi' Ha'. rewrite <- !div2_Z in *.
    apply (IH _ _ _ (Nat.div2 s) _ _ p'); auto with py.
    all: first [ by rewrite length_next_level, HlO | by apply Nat.div2_le_mono
               | by apply length_next_level_pow2 | by rewrite !level_root_next ]. }
  destruct p as [|c p]; [by cbn in Hacc|].
  assert (Z.of_nat s ≠ 0) by (subst s; lia). pose proof Hp as [Hc Hp']%Forall_cons.
  destruct (Nat.odd f) eqn:Ho.
  - destruct (consistency_loop_odd (Z.of_nat f) (Z.of_nat s) fr sr c p) as [E1 E2];
      [by rewrite Zodd_nat|done|]. rewrite E1 in Hacc. rewrite E2 in Hip.
    apply (level_agrees_up_odd cf _ _ _ _ _ c); auto; try lia; [apply Hip; set_solver..|].
    apply (Hup _ _ p); [done|set_solver|done].
  - destruct (decide (f = s)) as [->|].
    + destruct (consistency_loop_up (level_root O) (level_root N) (Z.of_nat s) fr sr (c :: p))
        as [E1 E2]; [lia|by rewrite Zodd_nat|]. rewrite E1 in Hacc. rewrite E2 in Hip.
      apply (level_agrees_up_edge cf); auto. by apply (Hup _ _ (c :: p)).
    + destruct (consistency_loop_even (Z.of_nat f) (Z.of_nat s) fr sr c p) as [E1 E2];
        [by rewrite Zodd_nat|lia|done|]. rewrite E1 in Hacc. rewrite E2 in Hip.
      apply (level_agrees_up_even cf _ _ _ _ _ c); auto; try lia; [apply Hip; set_solver|].
      apply (Hup _ _ p); [done|set_solver|done].
Qed.

(** The initial shifts climb to the level where the old log ends on a
    subtree boundary; there both running hashes are the same. *)
Lemma consistency_shift_sound cf fuel d O N f s h p :
  collision_free cf → hashes32 O → hashes32 N → hashes32 p →
  (∀ x, x ∈ tree_inputs d O → x ∈ cf) → (∀ x, x ∈ tree_inputs d N → x ∈ cf) →
  length O = S f → length N = S s → (f ≤ s)%nat → (length N ≤ 2 ^ d)%nat →
  (let '(o, n) := shift_odd fuel (Z.of_nat f) (Z.of_nat s) in
   (∀ x, x ∈ consistency_loop_inputs o n h h p → x ∈ cf) ∧
   consistency_accepts (level_root O) (level_root N) (consistency_loop o n h h p) = true) →
  ∀ x, (x ≤ f)%nat → O !! x = N !! x.
Proof.
  intros HS. revert d O N f s.
  induction fuel as [|fuel IH]; intros d O N f s HO HN Hp HiO HiN HlO HlN Hfs Hd Hrun x Hx.
  - destruct Hrun as [Hi Hacc].
    destruct (consistency_loop_sound cf d O N f s h h p) as (H1 & H2 & H3); auto.
    destruct (decide (x = f)) as [->|]; [congruence|]. apply H3. lia.
  - cbn [shift_odd] in Hrun. rewrite testbit0, Zodd_nat in Hrun.
    destruct (Nat.odd f) eqn:Ho.
    + destruct d as [|d].
      { cbn in Hd. assert (f = 0)%nat as -> by lia. done. }
      rewrite !shiftr1, <- !div2_Z in Hrun.
      cbn [tree_inputs] in HiO, HiN. setoid_rewrite elem_of_app in HiO.
      setoid_rewrite elem_of_app in HiN.
      pose proof (Nat.div2_odd f) as Hdiv. rewrite Ho in Hdiv. cbn [Nat.b2n] in Hdiv.
      apply (next_level_agree_below cf _ _ (S (Nat.div2 f))); auto; try lia.
      intros j Hj. apply (IH d _ _ (Nat.div2 f) (Nat.div2 s)); auto with py; try lia.
      all: first [ by rewrite length_next_level, HlO | by rewrite length_next_level, HlN
                 | by apply Nat.div2_le_mono | by apply length_next_level_pow2
                 | by rewrite !level_root_next ].
    + destruct Hrun as [Hi Hacc].
      destruct (consistency_loop_sound cf d O N f s h h p) as (H1 & H2 & H3); auto.
      destruct (decide (x = f)) as [->|]; [congruence|]. apply H3. lia.
Qed.

(** Equal roots over equally long levels. *)
Lemma level_root_inj cf d O N :
  collision_free cf → hashes32 O → hashes32 N →
  (∀ x, x ∈ tree_inputs d O → x ∈ cf) → (∀ x, x ∈ tree_inputs d N → x ∈ cf) →
  length O = length N → (length N ≤ 2 ^ d)%nat → level_root O = level_root N → O = N.
Proof.
  intros HS. revert O N. induction d as [|d IH]; intros O N HO HN HiO HiN Hl Hd Hr.
  - destruct O as [|x [|??]], N as [|y [|??]]; cbn in *; try lia; congruence.
  - cbn [tree_inputs] in HiO, HiN. setoid_rewrite elem_of_app in HiO.
    setoid_rewrite elem_of_app in HiN.
    assert (next_level O = next_level N) as Heq.
    { apply IH; auto with py.
      - by rewrite !length_next_level, Hl.
      - by apply length_next_level_pow2.
      - by rewrite !level_root_next. }
    apply list_eq_same_length with (n := length N); [done..|]. intros i x y Hi Hx Hy.
    pose proof (Nat.div2_odd i) as Hdiv.
    destruct (decide (Nat.odd i = true ∨ S i < length N)%nat) as [Hpair|Hlast].
    + destruct (next_level_agree cf O N (Nat.div2 i)) as [E1 E2]; auto; [..|by rewrite Heq|].
      1-2: destruct (Nat.odd i); cbn [Nat.b2n] in *; destruct Hpair; try done; lia.
      destruct (Nat.odd i); cbn [Nat.b2n] in Hdiv.
      * replace (2 * Nat.div2 i + 1)%nat with i in E2 by lia. congruence.
      * replace (2 * Nat.div2 i)%nat with i in E1 by lia. congruence.
    + apply not_or_and_not in Hlast || apply Decidable.not_or in Hlast.
      destruct Hlast as [Ho Hlt]. apply not_true_is_false in Ho.
      rewrite Ho in Hdiv. cbn [Nat.b2n] in Hdiv.
      pose proof (next_level_lookup O (Nat.div2 i)) as EO.
      pose proof (next_level_lookup N (Nat.div2 i)) as EN.
      replace (2 * Nat.div2 i)%nat with i in EO, EN by lia.
      rewrite Hx, (lookup_ge_None_2 O (i + 1)) in EO by lia.
      rewrite Hy, (lookup_ge_None_2 N (i + 1)) in EN by lia. congruence.
Qed.

Lemma tree_inputs_short d L : (length L ≤ 1)%nat → tree_inputs d L = [].
Proof.
  revert L. induction d as [|d IH]; intros L HL; [done|]. cbn [tree_inputs].
  rewrite next_level_short, IH by done. by destruct L as [|? [|??]]; cbn in *; [..|lia].
Qed.

Lemma tree_inputs_enough d1 d2 L x :
  (length L ≤ 2 ^ d1)%nat → x ∈ tree_inputs d2 L → x ∈ tree_inputs d1 L.
Proof.
  revert d2 L. induction d1 as [|d1 IH]; intros d2 L HL Hx.
  - by rewrite tree_inputs_short in Hx.
  - destruct d2 as [|d2]; [by apply not_elem_of_nil in Hx|]. cbn [tree_inputs] in *.
    rewrite elem_of_app in *. destruct Hx as [Hx|Hx]; [auto|right].
    eapply IH; [|exact Hx]. by apply length_next_level_pow2.
Qed.

Lemma hash_inputs_levels es d x :
  x ∈ tree_inputs d (leaf_hash <$> es) → x ∈ hash_inputs es.
Proof.
  intros Hx. apply elem_of_app. right. eapply tree_inputs_enough; [|exact Hx].
  rewrite length_fmap. apply pow2_ge.
Qed.

Lemma hash_inputs_leaf es i e : es !! i = Some e → 0 :: e ∈ hash_inputs es.
Proof.
  intros Hi. apply elem_of_app. left. apply list_elem_of_fmap.
  eauto using list_elem_of_lookup_2.
Qed.

(** Equal leaf hashes come from equal entries. *)
Lemma leaf_hashes_prefix cf (old new : list bytes) :
  collision_free cf →
  (∀ x, x ∈ hash_inputs old → x ∈ cf) → (∀ x, x ∈ hash_inputs new → x ∈ cf) →
  (∀ i, (i < length old)%nat → (leaf_hash <$> old) !! i = (leaf_hash <$> new) !! i) →
  old `prefix_of` new.
Proof.
  intros Hcf Ho Hn Heq. exists (drop (length old) new).
  assert (old = take (length old) new) as Htake; [|by rewrite Htake at 1; rewrite take_drop].
  assert (∀ i, (i < length old)%nat → old !! i = new !! i) as Hall.
  { intros i Hi. specialize (Heq i Hi). rewrite !list_lookup_fmap in Heq.
    destruct (lookup_lt_is_Some_2 old i Hi) as [e He]. rewrite He in *.
    destruct (new !! i) as [e'|] eqn:He'; [|done]. cbn in Heq. apply (inj Some) in Heq.
    apply Hcf in Heq; [congruence|..]; eauto using hash_inputs_leaf. }
  apply list_eq_take; [done| |done].
  destruct (decide (length old = 0)%nat); [lia|].
  specialize (Hall (length old - 1)%nat ltac:(lia)).
  destruct (lookup_lt_is_Some_2 old (length old - 1)) as [e He]; [lia|].
  rewrite He in Hall. symmetry in Hall. apply lookup_lt_Some in Hall. lia.
Qed.

Lemma merkle_root_from_entries_length es : length (merkle_root_from_entries es) = 32%nat.
Proof.
  destruct es as [|e es]; [apply length_sha256|].
  destruct (rfc_tree_total (e :: es)) as [t Ht]; [done|].
  rewrite merkle_root_level, (level_root_rfc _ t) by done. apply length_mroot.
Qed.

Lemma existsb_hashes32 p : existsb (λ node : bytes, negb (len node =? 32)) p = false ↔ hashes32 p.
Proof.
  unfold hashes32. induction p as [|h p IH]; cbn; [by split|].
  rewrite orb_false_iff, Forall_cons, IH. unfold len. rewrite negb_false_iff, Z.eqb_eq.
  split; intros [? ?]; (split; [lia|done]).
Qed.

Lemma len32 (h : bytes) : negb (len h =? 32) = false ↔ length h = 32%nat.
Proof. unfold len. rewrite negb_false_iff, Z.eqb_eq. lia. Qed.

(** [verify_consistency] on well-formed input with [0 < old_size < new_size]. *)
Lemma verify_consistency_growth old_size new_size old_root new_root proof :
  0 < old_size < new_size → length old_root = 32%nat → length new_root = 32%nat →
  verify_consistency old_size new_size old_root new_root proof =
    bool_decide (hashes32 proof) &&
    (let '(o, n) := shift_odd (consistency_fuel (old_size - 1)) (old_size - 1) (new_size - 1) in
     if Z.land old_size (old_size - 1) =? 0 then
       consistency_accepts old_root new_root (consistency_loop o n old_root old_root proof)
     else match proof with
          | [] => false
          | first :: proof =>
              consistency_accepts old_root new_root (consistency_loop o n first first proof)
          end).
Proof.
  intros Hsz Ho Hn. unfold verify_consistency.
  rewrite (proj2 (len32 old_root) Ho), (proj2 (len32 new_root) Hn).
  destruct (Z.ltb_spec old_size 0); [lia|].
  destruct (Z.gtb_spec old_size new_size); [lia|].
  destruct (Z.eqb_spec old_size 0); [lia|]. destruct (Z.eqb_spec old_size new_size); [lia|].
  cbn [orb]. destruct (existsb _ proof) eqn:Ep.
  - rewrite bool_decide_eq_false_2; [done|]. intros Hp%existsb_hashes32. congruence.
  - apply existsb_hashes32 in Ep. by rewrite bool_decide_eq_true_2.
Qed.

Lemma verify_consistency_sizes old_size new_size old_root new_root proof :
  verify_consistency old_size new_size old_root new_root proof = true →
  0 ≤ old_size ≤ new_size ∧ hashes32 proof.
Proof.
  unfold verify_consistency. intros Hacc.
  match type of Hacc with (if ?b then _ else _) = _ => destruct b eqn:E; [done|] end.
  clear Hacc. rewrite !orb_false_iff, existsb_hashes32 in E. bool_prop. split; [lia|done].
Qed.

Lemma consistency_prefix (old new : list bytes) (proof : list bytes)
    (Hcf : collision_free (hash_inputs old ++ hash_inputs new
       ++ consistency_inputs (len old) (len new) (merkle_root_from_entries old) proof))
    (Hacc : verify_consistency (len old) (len new) (merkle_root_from_entries old)
              (merkle_root_from_entries new) proof = true) :
  old `prefix_of` new.
Proof.
  destruct (decide (old = [])) as [->|Hold]; [apply prefix_nil|].
  assert (0 < len old) by (destruct old; [done|rewrite len_cons; pose proof (len_nonneg old); lia]).
  destruct (verify_consistency_sizes _ _ _ _ _ Hacc) as [[_ Hle] Hp].
  assert (new ≠ []) as Hnew by (intros ->; rewrite len_nil in Hle; lia).
  set (cf := _ ++ _) in Hcf.
  pose proof (hash_inputs_levels old (length new)) as HiO.
  pose proof (hash_inputs_levels new (length new)) as HiN.
  assert (length (leaf_hash <$> new) ≤ 2 ^ length new)%nat by (rewrite length_fmap; apply pow2_ge).
  apply (leaf_hashes_prefix cf); [done|unfold cf; set_solver..|].
  destruct (decide (len old = len new)) as [Heq|Hne].
  - unfold verify_consistency in Hacc.
    match type of Hacc with (if ?b then _ else _) = _ => destruct b; [done|] end.
    rewrite Heq, Z.eqb_refl in Hacc. destruct (Z.eqb_spec (len new) 0); [lia|].
    bool_prop. rewrite !merkle_root_level in * by done.
    intros i _. f_equal. apply (level_root_inj cf (length new)); auto with py.
    1-2: unfold cf; set_solver. rewrite !length_fmap. unfold len in Heq. lia.
  - rewrite verify_consistency_growth in Hacc by (auto using merkle_root_from_entries_length; lia).
    apply andb_true_iff in Hacc as [_ Hacc].
    assert (∀ x, x ∈ consistency_inputs (len old) (len new) (merkle_root_from_entries old) proof
      → x ∈ cf) as Hin by (unfold cf; set_solver).
    unfold consistency_inputs in Hin.
    replace (len old - 1) with (Z.of_nat (length old - 1)) in Hacc, Hin by (unfold len in *; lia).
    replace (len new - 1) with (Z.of_nat (length new - 1)) in Hacc, Hin by (unfold len in *; lia).
    assert (∃ h q, hashes32 q ∧
      let '(o, n) := shift_odd (consistency_fuel (Z.of_nat (length old - 1)))
                       (Z.of_nat (length old - 1)) (Z.of_nat (length new - 1)) in
      (∀ x, x ∈ consistency_loop_inputs o n h h q → x ∈ cf) ∧
      consistency_accepts (level_root (leaf_hash <$> old)) (level_root (leaf_hash <$> new))
        (consistency_loop o n h h q) = true) as (h & q & Hq & Hrun).
    { rewrite <- !merkle_root_level by done.
      destruct (shift_odd _ _ _) as [o n]. destruct (_ =? 0); [by eexists _, proof|].
      destruct proof as [|c proof]; [done|]. apply Forall_cons in Hp as [_ Hp].
      by exists c, proof. }
    intros i Hi.
    apply (consistency_shift_sound cf (consistency_fuel (Z.of_nat (length old - 1)))
             (length new) _ _ (length old - 1) (length new - 1) h q); auto with py;
      rewrite ?length_fmap; try (unfold len in *; lia); unfold cf; set_solver.
Qed.

Lemma consistency_inputs_nil a b r : consistency_inputs a b r [] = [].
Proof. unfold consistency_inputs. destruct (shift_odd _ _ _). by destruct (_ =? _). Qed.

(** Two logs with the same size and root are the same log. *)
Lemma root_inj (a b : list bytes) : len a = len b → merkle_root_from_entries a = merkle_root_from_entries b →
  collision_free (hash_inputs a ++ hash_inputs b) → a = b.
Proof.
  intros Hl Hr Hcf. assert (a `prefix_of` b) as Hp.
  - apply (consistency_prefix a b []); [by rewrite consistency_inputs_nil, app_nil_r|].
    unfold verify_consistency. rewrite <- Hl, <- Hr, !Z.eqb_refl.
    assert ((len (merkle_root_from_entries a) =? 32) = true) as ->
      by (apply Z.eqb_eq; unfold len; by rewrite merkle_root_from_entries_length).
    pose proof (len_nonneg a). destruct (Z.ltb_spec (len a) 0); [lia|].
    destruct (Z.gtb_spec (len a) (len a)); [lia|]. cbn [orb negb existsb].
    destruct (Z.eqb_spec (len a) 0) as [Hz|]; [|by rewrite !eqb_refl].
    apply len_0_nil in Hz as ->. vm_compute. done.
  - destruct Hp as [k ->]. rewrite len_app in Hl.
    assert (len k = 0) as Hz by lia. apply len_0_nil in Hz as ->. by rewrite app_nil_r.
Qed.

(** C21 Soundness of consistency proofs: with no collision among the strings
    hashed for the two logs and by the verifier, a proof accepted for the
    sizes and roots of two logs shows that the old log is a prefix of the new
    one, so a rolled-back or forked log has no acceptable proof. *)
Theorem verify_consistency_sound (old new : list bytes) (proof : list bytes)
    (Hcf : collision_free (hash_inputs old ++ hash_inputs new
       ++ consistency_inputs (len old) (len new) (merkle_root_from_entries old) proof))
    (Hacc : verify_consistency (len old) (len new) (merkle_root_from_entries old)
              (merkle_root_from_entries new) proof = true) :
  old `prefix_of` new.
Proof. by eapply consistency_prefix. Qed.

(** ** Completeness

    The consistency proof of the first [m] entries: the complete subtree on
    which the old log ends (omitted when it is the whole old log), then the
    audit path of that subtree in the new log. *)
Fixpoint boundary_proof (fuel d : nat) (N : list bytes) (f : nat) : list bytes :=
  match fuel with
  | S fuel =>
      if Nat.odd f then boundary_proof fuel (d - 1) (next_level N) (Nat.div2 f)
      else (N !!! f) :: level_path d N f
  | O => (N !!! f) :: level_path d N f
  end.

Definition consistency_proof (new : list bytes) (m : nat) : list bytes :=
  if decide (m = 0 ∨ m = length new)%nat then []
  else
    let p := boundary_proof (consistency_fuel (Z.of_nat m - 1)) (length new)
               (leaf_hash <$> new) (m - 1) in
    if Z.land (Z.of_nat m) (Z.of_nat m - 1) =? 0 then tail p else p.

Lemma level_agrees_next O N f fr sr :
  length O = S f → (f < length N)%nat → level_agrees O N f fr sr →
  level_agrees (next_level O) (next_level N) (Nat.div2 f)
    (if Nat.odd f then node_hash (N !!! (f - 1)%nat) fr else fr)
    (if Nat.odd f then node_hash (N !!! (f - 1)%nat) sr
     else match N !! S f with Some r => node_hash sr r | None => sr end).
Proof.
  intros HO HN (HfO & HfN & Hx). pose proof (Nat.div2_odd f) as Hdiv.
  assert (∀ x, (x < Nat.div2 f)%nat → next_level O !! x = next_level N !! x) as Hnx.
  { intros x Hlt. rewrite !next_level_lookup, !Hx; [done|..];
      destruct (Nat.odd f); cbn [Nat.b2n] in *; lia. }
  destruct (sibling_cases O f) as [l h Ho Hl Hh Hn|h r Ho Hh Hr Hn|h Ho Hh Hr _ Hn];
    [lia| |apply lookup_lt_Some in Hr; lia|];
  (destruct (sibling_cases N f) as [l' h' Ho' Hl' Hh' Hn'|h' r' Ho' Hh' Hr' Hn'|h' Ho' Hh' Hr' _ Hn'];
    [lia|..]; try congruence); rewrite Ho; rewrite HfO in Hh; rewrite HfN in Hh';
    apply (inj Some) in Hh, Hh'; subst h h'.
  - split_and!; [| |done].
    + rewrite Hn. do 2 f_equal. symmetry. apply list_lookup_total_correct.
      rewrite <- Hx; [done|]. destruct f; [done|lia].
    + rewrite Hn'. do 2 f_equal. symmetry. by apply list_lookup_total_correct.
  - rewrite Hr'. by split_and!.
  - rewrite Hr'. by split_and!.
Qed.

Lemma consistency_loop_complete d O N f s fr sr :
  length O = S f → length N = S s → (f ≤ s)%nat → (length N ≤ 2 ^ d)%nat →
  level_agrees O N f fr sr →
  consistency_accepts (level_root O) (level_root N)
    (consistency_loop (Z.of_nat f) (Z.of_nat s) fr sr (level_path d N f)) = true.
Proof.
  revert O N f s fr sr.
  induction d as [|d IH]; intros O N f s fr sr HlO HlN Hfs Hd Hag; pose proof Hag as (HfO & HfN & _).
  { cbn in Hd. assert (f = 0 ∧ s = 0)%nat as [-> ->] by lia. cbn.
    rewrite (level_root_lookup O fr), (level_root_lookup N sr), !eqb_refl; done || lia. }
  rewrite level_path_S. case_decide.
  { assert (f = 0 ∧ s = 0)%nat as [-> ->] by lia. cbn.
    rewrite (level_root_lookup O fr), (level_root_lookup N sr), !eqb_refl; done || lia. }
  apply level_agrees_next in Hag; [|lia..].
  apply (IH _ _ _ (Nat.div2 s)) in Hag.
  2: by rewrite length_next_level, HlO. 2: by rewrite length_next_level, HlN.
  2: by apply Nat.div2_le_mono. 2: by apply length_next_level_pow2.
  rewrite !level_root_next, !div2_Z in Hag.
  assert (Z.of_nat s ≠ 0) by lia.
  destruct (Nat.odd f) eqn:Ho.
  - rewrite (proj1 (consistency_loop_odd (Z.of_nat f) (Z.of_nat s) fr sr _ _
                      ltac:(by rewrite Zodd_nat) ltac:(done))). done.
  - destruct (N !! S f) as [r|] eqn:Hr.
    + apply lookup_lt_Some in Hr as Hlt.
      rewrite (proj1 (consistency_loop_even (Z.of_nat f) (Z.of_nat s) fr sr _ _
                        ltac:(by rewrite Zodd_nat) ltac:(lia) ltac:(done))). done.
    + apply lookup_ge_None in Hr. assert (f = s) as -> by lia.
      rewrite (proj1 (consistency_loop_up (level_root O) (level_root N) (Z.of_nat s) fr sr
                        (level_path d (next_level N) (Nat.div2 s)) ltac:(lia) ltac:(by rewrite Zodd_nat))). done.
Qed.

Lemma level_path_hashes32 d L i : hashes32 L → (i < length L)%nat → hashes32 (level_path d L i).
Proof.
  revert L i. induction d as [|d IH]; intros L i HL Hi; [constructor|].
  rewrite level_path_S. case_decide; [constructor|].
  assert (hashes32 (level_path d (next_level L) (Nat.div2 i)))
    by (apply IH; [auto with py|rewrite length_next_level; ndlia]).
  destruct (Nat.odd i) eqn:Ho.
  - constructor; [|done]. destruct (lookup_lt_is_Some_2 L (i - 1)) as [l Hl]; [lia|].
    rewrite (list_lookup_total_correct _ _ _ Hl). eauto with py.
  - destruct (L !! S i) eqn:Hr; [|done]. constructor; eauto with py.
Qed.

Lemma consistency_fuel_spec f : (f < 2 ^ consistency_fuel (Z.of_nat f))%nat.
Proof.
  unfold consistency_fuel. destruct f as [|f]; [cbn; lia|].
  pose proof (Z.log2_spec (Z.of_nat (S f)) ltac:(lia)) as [_ H].
  pose proof (Z.log2_nonneg (Z.of_nat (S f))).
  apply Nat2Z.inj_lt. rewrite Nat2Z.inj_pow, Z2Nat.id by lia.
  by rewrite Z.add_1_r.
Qed.

(** [m & (m - 1) == 0] descends through the shifts and ends at index 0. *)
Lemma land_pow2_odd f : Z.odd f = true → Z.land (f + 1) f = 0 → Z.land (f / 2 + 1) (f / 2) = 0.
Proof.
  intros Ho H. rewrite Zodd_mod in Ho. bool_prop.
  replace (f / 2 + 1) with (Z.shiftr (f + 1) 1) by (rewrite Z.shiftr_div_pow2 by lia; dlia).
  rewrite <- shiftr1, <- Z.shiftr_land, H. apply Z.shiftr_0_l.
Qed.

Lemma land_pow2_even f : 0 ≤ f → Z.odd f = false → Z.land (f + 1) f = 0 → f = 0.
Proof.
  intros Hf Ho H. rewrite Zodd_mod in Ho. bool_prop.
  destruct (Z.eq_dec f 0); [done|]. exfalso.
  pose proof (Z.bit_log2 f ltac:(lia)) as Hb.
  assert (Z.testbit (Z.land (f + 1) f) (Z.log2 f) = true) as Ht; [|rewrite H, Z.bits_0 in Ht; done].
  rewrite Z.land_spec, Hb, andb_true_r.
  replace f with (2 * (f / 2)) at 1 by dlia.
  assert (0 < Z.log2 f) by (apply Z.log2_pos; dlia).
  replace (Z.log2 f) with (Z.succ (Z.log2 f - 1)) by lia.
  rewrite Z.testbit_odd_succ by lia.
  replace f with (2 * (f / 2)) in Hb at 1 by dlia.
  replace (Z.log2 f) with (Z.succ (Z.log2 f - 1)) in Hb by lia.
  by rewrite Z.testbit_even_succ in Hb by lia.
Qed.

Lemma boundary_proof_complete fuel d O N f s :
  (f < 2 ^ fuel)%nat → hashes32 N →
  length O = S f → length N = S s → (f ≤ s)%nat → (length N ≤ 2 ^ d)%nat →
  (∀ x, (x ≤ f)%nat → O !! x = N !! x) →
  ∃ h q, boundary_proof fuel d N f = h :: q ∧ hashes32 (h :: q) ∧
    (Z.land (Z.of_nat f + 1) (Z.of_nat f) = 0 → h = level_root O) ∧
    (let '(o, n) := shift_odd fuel (Z.of_nat f) (Z.of_nat s) in
     consistency_accepts (level_root O) (level_root N) (consistency_loop o n h h q) = true).
Proof.
  revert d O N f s. induction fuel as [|fuel IH]; intros d O N f s Hf HN HlO HlN Hfs Hd Hag;
    destruct (lookup_lt_is_Some_2 N f) as [h Hh]; try lia;
    assert (level_agrees O N f h h) as Hla
      by (split_and!; [by rewrite Hag|done|]; intros; apply Hag; lia).
  - assert (f = 0)%nat as -> by (cbn in Hf; lia). cbn [boundary_proof shift_odd].
    rewrite (list_lookup_total_correct _ _ _ Hh). exists h, (level_path d N 0).
    split_and!; [done| | |by apply consistency_loop_complete].
    + constructor; [eauto with py|]. apply level_path_hashes32; [done|lia].
    + intros _. symmetry. apply level_root_lookup; [done|]. apply Hla.
  - cbn [boundary_proof shift_odd]. rewrite testbit0, Zodd_nat. destruct (Nat.odd f) eqn:Ho.
    + destruct d as [|d]; [cbn in Hd; assert (f = 0)%nat as -> by lia; done|].
      replace (S d - 1)%nat with d by lia. rewrite !shiftr1, <- !div2_Z.
      pose proof (Nat.div2_odd f) as Hdiv. rewrite Ho in Hdiv. cbn [Nat.b2n] in Hdiv.
      destruct (IH d (next_level O) (next_level N) (Nat.div2 f) (Nat.div2 s))
        as (h' & q & Hb & Hq & Hland & Hacc); auto with py.
      * rewrite Nat.pow_succ_r' in Hf. lia.
      * by rewrite length_next_level, HlO.
      * by rewrite length_next_level, HlN.
      * by apply Nat.div2_le_mono.
      * by apply length_next_level_pow2.
      * intros x Hx. rewrite !next_level_lookup, !Hag by lia. done.
      * rewrite !level_root_next in *. exists h', q. split_and!; auto.
        intros Hl. apply Hland. rewrite div2_Z. apply land_pow2_odd; [by rewrite Zodd_nat|done].
    + rewrite (list_lookup_total_correct _ _ _ Hh). exists h, (level_path d N f).
      split_and!; [done| | |by apply consistency_loop_complete].
      * constructor; [eauto with py|]. apply level_path_hashes32; [done|lia].
      * intros Hl. apply land_pow2_even in Hl; [|lia|by rewrite Zodd_nat].
        assert (f = 0)%nat as -> by lia. symmetry. apply level_root_lookup; [done|]. apply Hla.
Qed.

(** Completeness of consistency proofs: for every log and every prefix of
    it, the proof read off the tree is accepted, so an honest log is never
    reported inconsistent. *)
Theorem verify_consistency_complete (new : list bytes) (m : nat) (Hm : (m ≤ length new)%nat) :
  verify_consistency (Z.of_nat m) (len new) (merkle_root_from_entries (take m new))
    (merkle_root_from_entries new) (consistency_proof new m) = true.
Proof.
  assert (∀ es, negb (len (merkle_root_from_entries es) =? 32) = false) as Hr32
    by (intros; apply len32, merkle_root_from_entries_length).
  unfold consistency_proof. case_decide as Hm0.
  - unfold verify_consistency. rewrite !Hr32. unfold len in *. cbn [existsb orb].
    destruct (Z.ltb_spec (Z.of_nat m) 0); [lia|].
    destruct (Z.gtb_spec (Z.of_nat m) (Z.of_nat (length new))); [lia|].
    destruct (Z.eqb_spec (Z.of_nat m) 0).
    + assert (m = 0)%nat as -> by lia. cbn [orb take merkle_root_from_entries].
      destruct new; cbn [length]; rewrite !eqb_refl; done.
    + assert (m = length new) as -> by lia. by rewrite Z.eqb_refl, firstn_all, !eqb_refl.
  - rewrite verify_consistency_growth by (unfold len; auto using merkle_root_from_entries_length; lia).
    replace (Z.of_nat m - 1) with (Z.of_nat (m - 1)) by lia.
    replace (len new - 1) with (Z.of_nat (length new - 1)) by (unfold len; lia).
    destruct (boundary_proof_complete (consistency_fuel (Z.of_nat (m - 1))) (length new)
      (leaf_hash <$> take m new) (leaf_hash <$> new) (m - 1) (length new - 1))
      as (h & q & Hb & Hq & Hland & Hacc); auto using consistency_fuel_spec with py;
      rewrite ?length_fmap, ?length_take; try lia; try apply pow2_ge.
    { intros x Hx. rewrite !list_lookup_fmap, lookup_take_lt by lia. done. }
    rewrite Hb. rewrite <- !merkle_root_level in * by (intros E; apply (f_equal length) in E;
      rewrite ?length_take in E; cbn in E; lia).
    replace (Z.of_nat (m - 1) + 1) with (Z.of_nat m) in Hland by lia.
    destruct (shift_odd _ _ _) as [o n]. destruct (Z.eqb_spec (Z.land (Z.of_nat m) (Z.of_nat (m - 1))) 0).
    + apply Forall_cons in Hq as [_ Hq]. rewrite (Hland e) in Hacc. cbn [tail].
      rewrite bool_decide_eq_true_2 by done. done.
    + rewrite bool_decide_eq_true_2 by done. done.
Qed.

(** Both theorems at a concrete log. *)
Lemma verify_consistency_sound_witness : take 3 log5 `prefix_of` log5.
Proof.
  refine (verify_consistency_sound (take 3 log5) log5 (consistency_proof log5 3) _ _).
  - apply collision_freeb_sound. vm_compute. reflexivity.
  - vm_compute. reflexivity.
Defined.

Lemma verify_consistency_complete_witness :
  verify_consistency 3 5 (merkle_root_from_entries (take 3 log5)) (merkle_root_from_entries log5)
    (consistency_proof log5 3) = true.
Proof. apply (verify_consistency_complete log5 3). cbn. lia. Defined.
