(* ===== verification/Tiles.v ===== *)
(** * Tiles and entry bundles ([c2sp_tlog/tiles.py])

    Paths of the tlog-tiles layout and the uint16-length-prefixed bundle
    codec with its round trips. *)
From S2P Require Import Prelude Errors PyText.

(** ** Paths *)

(** [padded[i : i + 3] for i in range(0, len(padded), 3)] *)
Fixpoint groups3 (s : str) : list str :=
  match s with
  | a :: b :: c :: s => [a; b; c] :: groups3 s
  | [] => []
  | s => [s]
  end.

(** [g if i == len(groups) - 1 else f"x{g}"] *)
Fixpoint mark_groups (gs : list str) : list str :=
  match gs with
  | [] => []
  | [g] => [g]
  | g :: gs => (lit "x" ++ g) :: mark_groups gs
  end.

Definition tile_n (n : Z) : res str :=
  raise_if (n <? 0) (perr "invalid C2SP tile number") ;;
  let digits := str_of_int n in
  let padded := zfill ((len digits + 2) / 3 * 3) digits in
  Ok (join (lit "/") (mark_groups (groups3 padded))).

Definition checkpoint_path (prefix : str) : str := prefix ++ lit "/checkpoint".

Definition width_suffix (width : option Z) : str :=
  match width with None => [] | Some w => lit ".p/" ++ str_of_int w end.

Definition tile_path (prefix : str) (level n : Z) (width : option Z) : res str :=
  t ← tile_n n;
  Ok (prefix ++ lit "/tile/" ++ str_of_int level ++ lit "/" ++ t ++ width_suffix width).

Definition entry_bundle_path (prefix : str) (n : Z) (width : option Z) : res str :=
  t ← tile_n n;
  Ok (prefix ++ lit "/tile/entries/" ++ t ++ width_suffix width).

(** ** Bundles

    One iteration of the [while off < len(data)] loop consumes at least the
    two octets of a length, so [length data] is enough fuel. *)
Fixpoint parse_bundle_loop (fuel : nat) (data : bytes) (off : Z) (out : list bytes)
    : res (list bytes) :=
  match fuel with
  | O => Ok (rev out)
  | S fuel =>
      if negb (off <? len data) then Ok (rev out)
      else
        raise_if (len data <? off + 2) (perr "truncated entry bundle length") ;;
        let length := Z.lor (Z.shiftl (data !!! Z.to_nat off) 8) (data !!! Z.to_nat (off + 1)) in
        let off := off + 2 in
        raise_if (len data <? off + length) (perr "truncated entry bundle entry") ;;
        parse_bundle_loop fuel data (off + length) (slice off (off + length) data :: out)
  end.

Definition parse_entry_bundle (data : bytes) : res (list bytes) :=
  parse_bundle_loop (S (length data)) data 0 [].

Fixpoint encode_entry_bundle (entries : list bytes) : res bytes :=
  match entries with
  | [] => Ok []
  | e :: entries =>
      raise_if (0xFFFF <? len e) (perr "entry too large for bundle") ;;
      out ← encode_entry_bundle entries;
      Ok ([len e / 256; len e mod 256] ++ e ++ out)
  end.

(** ** Paths are read back uniquely *)
Lemma join_mark_digits gs :
  Forall (Forall (λ c, is_digit c = true)) gs →
  filter (λ c, is_digit c = true) (join (lit "/") (mark_groups gs)) = concat gs.
Proof.
  assert (∀ g, Forall (λ c, is_digit c = true) g → filter (λ c, is_digit c = true) g = g) as Hid.
  { clear. induction 1 as [|c g Hc Hg IH]; [done|]. by rewrite filter_cons_True, IH. }
  induction 1 as [|g gs Hg Hgs IH]; [done|].
  destruct gs as [|g' gs]; [cbn [mark_groups join concat]; by rewrite app_nil_r, Hid|].
  change (mark_groups (g :: g' :: gs)) with ((lit "x" ++ g) :: mark_groups (g' :: gs)).
  destruct (mark_groups (g' :: gs)) as [|m ms] eqn:E; [by destruct gs|].
  change (join (lit "/") ((lit "x" ++ g) :: m :: ms))
    with ((lit "x" ++ g) ++ lit "/" ++ join (lit "/") (m :: ms)).
  rewrite !filter_app, IH, (Hid g) by done. done.
Qed.

Lemma groups3_concat s : concat (groups3 s) = s.
Proof.
  assert (∀ n s, (length s ≤ n)%nat → concat (groups3 s) = s) as H; [|eauto].
  clear. induction n as [|n IH]; intros s Hs; [by destruct s; cbn in *; [|lia]|].
  destruct s as [|a [|b [|c s]]]; [done..|]. cbn [groups3 concat app].
  rewrite IH; [done|]. cbn in Hs. lia.
Qed.

Lemma groups3_Forall (P : Z → Prop) s : Forall P s → Forall (Forall P) (groups3 s).
Proof.
  rewrite <- (groups3_concat s) at 1. generalize (groups3 s). intros gs.
  induction gs as [|g gs IH]; [constructor|]. cbn. rewrite Forall_app. intros [? ?].
  constructor; auto.
Qed.

(** The x-grouped decimal path of a tile number determines the number: its
    digits, read in order, are the number, so distinct tiles have distinct
    paths; a negative number is rejected. *)
Theorem tile_n_reads_back (n : Z) :
  match tile_n n with
  | Ok p => 0 ≤ n ∧ int_of_digits (filter (λ c, is_digit c = true) p) = n
  | Raise e => n < 0 ∧ e = perr "invalid C2SP tile number"
  end.
Proof.
  unfold tile_n. destruct (Z.ltb_spec n 0) as [Hn|Hn]; [done|]. cbn [raise_if].
  cbn [mbind result_bind]. split; [done|].
  rewrite join_mark_digits.
  - unfold str_of_int. rewrite groups3_concat, int_of_digits_zfill.
    destruct (Z.ltb_spec n 0); [lia|]. by apply int_of_str_of_nonneg.
  - apply groups3_Forall, zfill_digits. unfold str_of_int.
    destruct (Z.ltb_spec n 0); [lia|]. by apply str_of_nonneg_digits.
Qed.

Example tile_n_doc :
  tile_n 0 = Ok (lit "000") ∧ tile_n 1234 = Ok (lit "x001/234")
  ∧ tile_n 1234067 = Ok (lit "x001/x234/067").
Proof. done. Qed.

(** ** The codec *)
Lemma lookup_total_app_len (pre rest : bytes) k :
  0 ≤ k → (pre ++ rest) !!! Z.to_nat (len pre + k) = rest !!! Z.to_nat k.
Proof.
  intros Hk. unfold len. replace (Z.to_nat (Z.of_nat (length pre) + k))
    with (length pre + Z.to_nat k)%nat by lia.
  rewrite lookup_total_app_r by lia. f_equal. lia.
Qed.

Lemma slice_mid {A} (pre mid rest : list A) :
  slice (len pre) (len pre + len mid) (pre ++ mid ++ rest) = mid.
Proof.
  unfold slice, len. rewrite Nat2Z.id, drop_app_length.
  replace (Z.to_nat _) with (length mid) by lia. apply take_app_length.
Qed.

(** The loop at offset [len pre] sees exactly the rest of the data. *)
Lemma parse_bundle_step fuel pre hi lo rest out :
  0 ≤ hi → 0 ≤ lo < 256 →
  let n := 256 * hi + lo in
  parse_bundle_loop (S fuel) (pre ++ hi :: lo :: rest) (len pre) out
  = (raise_if (len rest <? n) (perr "truncated entry bundle entry") ;;
     parse_bundle_loop fuel (pre ++ hi :: lo :: rest) (len pre + 2 + n)
       (take (Z.to_nat n) rest :: out)).
Proof.
  intros Hhi Hlo n. set (data := pre ++ hi :: lo :: rest).
  assert (len data = len pre + 2 + len rest) as Hlen
    by (unfold data; rewrite len_app, !len_cons; lia).
  pose proof (len_nonneg rest). pose proof (len_nonneg pre). cbn [parse_bundle_loop].
  destruct (Z.ltb_spec (len pre) (len data)); [|lia]. cbn [negb].
  destruct (Z.ltb_spec (len data) (len pre + 2)); [lia|]. cbn [raise_if mbind result_bind].
  assert (data !!! Z.to_nat (len pre) = hi) as ->.
  { replace (len pre) with (len pre + 0) by lia. unfold data.
    by rewrite lookup_total_app_len by lia. }
  assert (data !!! Z.to_nat (len pre + 1) = lo) as ->.
  { unfold data. by rewrite lookup_total_app_len by lia. }
  assert (Z.lor (Z.shiftl hi 8) lo = n) as -> by (rewrite lor_shiftl_small by lia; lia).
  replace (len data <? len pre + 2 + n) with (len rest <? n)
    by (apply eq_true_iff_eq; rewrite !Z.ltb_lt; lia).
  destruct (len rest <? n); [done|]. cbn [raise_if mbind result_bind]. f_equal. f_equal.
  unfold slice, data, len. rewrite drop_app_ge by lia.
  replace (Z.to_nat _ - length pre)%nat with 2%nat by lia. cbn [drop]. f_equal. lia.
Qed.

Lemma parse_bundle_done fuel data out :
  parse_bundle_loop (S fuel) data (len data) out = Ok (rev out).
Proof. cbn [parse_bundle_loop]. by rewrite Z.ltb_irrefl. Qed.

Lemma encode_cons e es data :
  encode_entry_bundle (e :: es) = Ok data ↔
  len e ≤ 0xFFFF ∧ ∃ rest, encode_entry_bundle es = Ok rest
    ∧ data = (len e / 256) :: (len e mod 256) :: e ++ rest.
Proof.
  cbn [encode_entry_bundle]. destruct (Z.ltb_spec 0xFFFF (len e)); cbn [raise_if mbind result_bind].
  - split; [done|lia].
  - destruct (encode_entry_bundle es); cbn; naive_solver.
Qed.

Lemma length_encode es data :
  encode_entry_bundle es = Ok data → (length es ≤ length data)%nat.
Proof.
  revert data. induction es as [|e es IH]; intros data H; [cbn; lia|].
  apply encode_cons in H as (_ & rest & H%IH & ->). cbn. rewrite length_app. lia.
Qed.

Lemma take_len_app {A} (l k : list A) : take (Z.to_nat (len l)) (l ++ k) = l.
Proof. unfold len. rewrite Nat2Z.id. apply take_app_length. Qed.

Lemma parse_bundle_encoded es data pre out fuel :
  encode_entry_bundle es = Ok data → (length es < fuel)%nat →
  parse_bundle_loop fuel (pre ++ data) (len pre) out = Ok (rev out ++ es).
Proof.
  revert data pre out fuel. induction es as [|e es IH]; intros data pre out fuel H Hf;
    (destruct fuel as [|fuel]; [cbn in Hf; lia|]).
  - injection H as <-. rewrite app_nil_r, parse_bundle_done. by rewrite app_nil_r.
  - apply encode_cons in H as (He & rest & H & ->). pose proof (len_nonneg e).
    rewrite parse_bundle_step by dlia.
    replace (256 * (len e / 256) + len e mod 256) with (len e) by dlia.
    rewrite len_app, take_len_app. pose proof (len_nonneg rest).
    destruct (Z.ltb_spec (len e + len rest) (len e)); [lia|]. cbn [raise_if mbind result_bind].
    set (pre' := pre ++ len e / 256 :: len e mod 256 :: e).
    replace (len pre + 2 + len e) with (len pre') by (unfold pre'; rewrite len_app, !len_cons; lia).
    replace (pre ++ len e / 256 :: len e mod 256 :: e ++ rest) with (pre' ++ rest)
      by (unfold pre'; by rewrite <- app_assoc).
    rewrite IH by (done || (cbn in Hf; lia)). cbn [rev]. by rewrite <- app_assoc.
Qed.

(** What the loop decodes is the unique encoding of the rest of the data. *)
Lemma parse_bundle_loop_encode fuel pre rest out es :
  is_bytes rest → (length rest < fuel)%nat →
  parse_bundle_loop fuel (pre ++ rest) (len pre) out = Ok es →
  ∃ es', es = rev out ++ es' ∧ encode_entry_bundle es' = Ok rest.
Proof.
  revert pre rest out. induction fuel as [|fuel IH]; intros pre rest out Hb Hf H; [lia|].
  destruct rest as [|hi [|lo rest]].
  { rewrite app_nil_r, parse_bundle_done in H. injection H as <-.
    exists []. by rewrite app_nil_r. }
  { cbn [parse_bundle_loop] in H. rewrite len_app in H. change (len [hi]) with 1 in H.
    destruct (Z.ltb_spec (len pre) (len pre + 1)); [|lia].
    destruct (Z.ltb_spec (len pre + 1) (len pre + 2)); [done|lia]. }
  apply Forall_cons in Hb as [Hhi Hb]. apply Forall_cons in Hb as [Hlo Hb].
  unfold is_byte in Hhi, Hlo. rewrite parse_bundle_step in H by lia.
  destruct (Z.ltb_spec (len rest) (256 * hi + lo)) as [|Hle]; [done|].
  cbn [raise_if mbind result_bind] in H.
  set (e := take (Z.to_nat (256 * hi + lo)) rest) in *.
  set (r := drop (Z.to_nat (256 * hi + lo)) rest).
  assert (rest = e ++ r) as Hr by (symmetry; apply take_drop).
  assert (len e = 256 * hi + lo) as He by (unfold e, len in *; rewrite length_take; lia).
  set (pre' := pre ++ hi :: lo :: e).
  replace (len pre + 2 + (256 * hi + lo)) with (len pre') in H
    by (unfold pre'; rewrite len_app, !len_cons; lia).
  replace (pre ++ hi :: lo :: rest) with (pre' ++ r) in H
    by (unfold pre'; rewrite Hr; by rewrite <- app_assoc).
  rewrite Hr in Hb. apply Forall_app in Hb as [_ Hb].
  apply IH in H as (es' & -> & Henc); [|done|].
  - exists (e :: es'). cbn [rev]. split; [by rewrite <- app_assoc|].
    apply encode_cons. split; [lia|]. exists r. split; [done|].
    rewrite Hr at 1. replace (len e / 256) with hi by dlia.
    by replace (len e mod 256) with lo by dlia.
  - unfold r. rewrite length_drop. cbn in Hf. lia.
Qed.

(** Decoding an encoded bundle gives back the entries, in order. *)
Theorem parse_encode_entry_bundle (entries : list bytes) (data : bytes)
    (H : encode_entry_bundle entries = Ok data) :
  parse_entry_bundle data = Ok entries.
Proof.
  apply (parse_bundle_encoded _ _ [] [] _ H). apply length_encode in H. lia.
Qed.

(** The bundle format is unambiguous: an accepted bundle is exactly the
    encoding of the entries it decodes to, so no octet is ignored and no entry
    is truncated or padded. *)
Theorem encode_parse_entry_bundle (data : bytes) (entries : list bytes)
    (Hb : is_bytes data) (H : parse_entry_bundle data = Ok entries) :
  encode_entry_bundle entries = Ok data.
Proof.
  destruct (parse_bundle_loop_encode (S (length data)) [] data [] entries)
    as (es & -> & Henc); [done|lia|done|done].
Qed.

Lemma parse_encode_entry_bundle_witness :
  parse_entry_bundle (lit "__" ++ [0; 1; 7] ) = Raise (perr "truncated entry bundle entry")
  ∧ parse_entry_bundle [0; 2; 5; 6; 0; 0; 0; 1; 9] = Ok [[5; 6]; []; [9]].
Proof. split; [reflexivity|]. apply (parse_encode_entry_bundle [[5; 6]; []; [9]]). reflexivity. Defined.

Lemma encode_parse_entry_bundle_witness :
  encode_entry_bundle [[5; 6]; []] = Ok [0; 2; 5; 6; 0; 0].
Proof. apply encode_parse_entry_bundle; [by_decide|reflexivity]. Defined.
