(* ===== verification/SignedNote.v ===== *)
(** * Signed notes ([c2sp_tlog/checkpoint.py], [c2sp_tlog/signed_note.py])

    Checkpoint parsing and Ed25519 note signatures.  Ed25519 itself (the
    [cryptography] package) is the parameter [ed25519_verify]. *)
From S2P Require Import Prelude Sha256 Errors PyText Base64.

(** ** Data *)
Record NoteSignature : Set := {
  sig_name : str;
  signature : bytes;
  key_hash : option bytes;
  sig_raw : str
}.

Record Checkpoint : Set := {
  cp_origin : str;
  cp_tree_size : Z;
  cp_root_hash : bytes;
  cp_signatures : list NoteSignature;
  signed_text : str
}.

Record SignedNoteKey : Set := {
  key_name : str;
  key_bytes : bytes;
  key_kind : str;
  key_id : option bytes;
  signature_type : option bytes
}.

#[global] Instance NoteSignature_eq_dec : EqDecision NoteSignature.
Proof. solve_decision. Defined.
#[global] Instance SignedNoteKey_eq_dec : EqDecision SignedNoteKey.
Proof. solve_decision. Defined.
#[global] Instance Checkpoint_eq_dec : EqDecision Checkpoint.
Proof. solve_decision. Defined.

(** ** Checkpoint parsing *)

(** [text.replace("\r\n", "\n")] *)
Fixpoint normalize_crlf (s : str) : str :=
  match s with
  | 13 :: (10 :: _) as t => normalize_crlf t
  | x :: s => x :: normalize_crlf s
  | [] => []
  end.

Definition is_b64_sig_char (c : Z) : bool := is_alnum c || (c =? 43) || (c =? 47) || (c =? 61).

(** One alternative of the signature-line pattern: the dash and a space, a run
    of non-space characters, spaces, and base64 characters to the end. *)
Definition match_sig_line (dash line : str) : option (str * str) :=
  if startswith (dash ++ [32]) line then
    let rest := drop (length dash + 1) line in
    let name := take_while (λ c, negb (is_space c)) rest in
    let after := drop (length name) rest in
    let b64 := re_dollar (lstrip is_space after) in
    if negb (name ==? []) && negb (take_while is_space after ==? [])
       && negb (b64 ==? []) && forallb is_b64_sig_char b64
    then Some (name, b64) else None
  else None.

(** [_SIG_RE.match(line) or _SIG_RE_ASCII.match(line)] *)
Definition match_signature (line : str) : option (str * str) :=
  match match_sig_line [8212] line with
  | Some m => Some m
  | None => match_sig_line (lit "--") line
  end.

Definition parse_note_signature (line : str) : res NoteSignature :=
  match match_signature line with
  | None => Raise (perr "invalid signed-note signature line")
  | Some (name, b64) =>
      raw_bytes ← try_except (b64_std_decode b64)
                    (λ _, Raise (perr "invalid signed-note signature base64"));
      if 4 <? len raw_bytes then
        Ok {| sig_name := name; key_hash := Some (take 4 raw_bytes);
              signature := drop 4 raw_bytes; sig_raw := line |}
      else Ok {| sig_name := name; key_hash := None; signature := raw_bytes; sig_raw := line |}
  end.

Definition is_newline (c : Z) : bool := c =? 10.

(** The signed body: everything up to and including the first newline of the
    blank line. *)
Definition signed_text_of (normalized : str) : str :=
  let sig_start := find [10; 10] normalized in
  if sig_start =? -1 then rstrip is_space normalized ++ [10]
  else slice 0 (sig_start + 1) normalized.

(** The three fields, read from the signed body alone. *)
Definition parse_body (signed : str) : res (str * Z * bytes) :=
  let body := split 10 (rstrip is_newline signed) in
  match body with
  | origin :: size_text :: root_text :: _ =>
      raise_if (origin ==? []) (perr "checkpoint missing origin") ;;
      raise_if (negb (is_canonical_int size_text)) (perr "checkpoint has invalid tree size") ;;
      let tree_size := int_of_canonical size_text in
      root_hash ← try_except (b64_std_decode root_text)
                    (λ _, Raise (perr "checkpoint root hash is not base64"));
      raise_if (negb (len root_hash =? 32)) (perr "checkpoint root hash must be SHA-256 sized") ;;
      Ok (origin, tree_size, root_hash)
  | _ => Raise (perr "checkpoint must contain origin, size, and root hash")
  end.

Definition parse_checkpoint (text : str) : res Checkpoint :=
  let normalized := normalize_crlf text in
  let sig_start := find [10; 10] normalized in
  let signed := signed_text_of normalized in
  '(origin, tree_size, root_hash) ← parse_body signed;
  let sig_text :=
    if sig_start =? -1 then []
    else strip is_space (drop (Z.to_nat (sig_start + 2)) normalized) in
  signatures ← (if sig_text ==? [] then Ok []
                else mapM_res parse_note_signature (filter (λ l, l ≠ []) (split 10 sig_text)));
  Ok {| cp_origin := origin; cp_tree_size := tree_size; cp_root_hash := root_hash;
        cp_signatures := signatures; signed_text := signed |}.

(** ** Verifier keys *)
Definition from_hex (s : str) : res bytes :=
  let h := re_dollar s in
  raise_if (negb (negb (h ==? []) && (len h mod 2 =? 0) && forallb is_hex h))
    (perr "invalid signed-note key ID") ;;
  Ok (bytes_fromhex h).

Definition decode_key (s : str) : res (bytes * option bytes) :=
  b ← try_except (b64_std_decode s) (λ _, Raise (perr "invalid verifier key base64"));
  if len b =? 32 then Ok (b, None)
  else if len b =? 33 then Ok (drop 1 b, Some (take 1 b))
  else Raise (perr "Ed25519 verifier key must contain a signature type and 32-byte key").

Definition ed25519_kind : str := lit "ed25519".

Definition parse_signed_note_verifier_key (text : str) : res SignedNoteKey :=
  let trimmed := strip is_space text in
  let first_plus := find [43] trimmed in
  let second_plus := if first_plus =? -1 then -1 else find_from (first_plus + 1) [43] trimmed in
  if (0 <? first_plus) && (first_plus + 1 <? second_plus) then
    let name := slice 0 first_plus trimmed in
    key_id ← from_hex (slice (first_plus + 1) second_plus trimmed);
    raise_if (negb (len key_id =? 4)) (perr "signed-note key ID must be four bytes") ;;
    '(key_bytes, signature_type) ← decode_key (drop (Z.to_nat (second_plus + 1)) trimmed);
    Ok {| key_name := name; key_bytes := key_bytes; key_kind := ed25519_kind;
          key_id := Some key_id; signature_type := signature_type |}
  else
    match words trimmed with
    | [name; k] =>
        '(key_bytes, signature_type) ← decode_key k;
        Ok {| key_name := name; key_bytes := key_bytes; key_kind := ed25519_kind;
              key_id := None; signature_type := signature_type |}
    | [name; kind; k] =>
        raise_if (negb ((lower_ascii <$> kind) ==? ed25519_kind))
          (perr "unsupported signed-note verifier key") ;;
        '(key_bytes, signature_type) ← decode_key k;
        Ok {| key_name := name; key_bytes := key_bytes; key_kind := ed25519_kind;
              key_id := None; signature_type := signature_type |}
    | _ => Raise (perr "unsupported signed-note verifier key")
    end.

(** ** Signatures *)
Definition max_cosig_timestamp : Z := 0x7FFFFFFFFFFFFFFF.

(** [f"cosignature/v1\ntime {timestamp}\n{message}"] *)
Definition cosignature_message (timestamp : Z) (message : str) : str :=
  lit "cosignature/v1" ++ [10] ++ lit "time " ++ str_of_int timestamp ++ [10] ++ message.

Definition key_id_matches (sig : NoteSignature) (key : SignedNoteKey) : bool :=
  match key_id key, key_hash sig with
  | None, _ => true
  | Some _, None => false
  | Some i, Some h => h ==? i
  end.

Section signatures.
(** [Ed25519PublicKey.from_public_bytes(key).verify(signature, data)], [true]
    when neither call raises. *)
Context (ed25519_verify : bytes → bytes → bytes → bool).

Definition verify_encoded (key sig : bytes) (message : str) : bool :=
  match utf8_encode message with
  | Ok data => ed25519_verify key sig data
  | Raise _ => false
  end.

Definition verify_note_signature (message : str) (sig : NoteSignature) (key : SignedNoteKey) : bool :=
  if negb (key_kind key ==? ed25519_kind) || negb (len (key_bytes key) =? 32) then false
  else if match signature_type key with Some t => negb (len t =? 1) | None => false end then false
  else
    let type := match signature_type key with Some (t :: _) => t | _ => 0x01 end in
    let s := signature sig in
    if type =? 0x01 then
      if negb (len s =? 64) then false else verify_encoded (key_bytes key) s message
    else if type =? 0x04 then
      if negb (len s =? 72) then false
      else
        let timestamp := int_from_bytes (take 8 s) in
        if max_cosig_timestamp <? timestamp then false
        else verify_encoded (key_bytes key) (drop 8 s) (cosignature_message timestamp message)
    else false.

Definition verify_checkpoint_signature (checkpoint : Checkpoint) (key : SignedNoteKey) : bool :=
  existsb (λ sig, (sig_name sig ==? key_name key) && key_id_matches sig key
                  && verify_note_signature (signed_text checkpoint) sig key)
    (cp_signatures checkpoint).

Fixpoint cosignature_timestamp_loop (checkpoint : Checkpoint) (key : SignedNoteKey)
    (sigs : list NoteSignature) : option Z :=
  match sigs with
  | [] => None
  | sig :: sigs =>
      if negb (sig_name sig ==? key_name key) || negb (key_id_matches sig key)
         || negb (verify_note_signature (signed_text checkpoint) sig key)
         || negb (len (signature sig) =? 72)
      then cosignature_timestamp_loop checkpoint key sigs
      else
        let timestamp := int_from_bytes (take 8 (signature sig)) in
        if timestamp <=? max_cosig_timestamp then Some timestamp
        else cosignature_timestamp_loop checkpoint key sigs
  end.

Definition verified_cosignature_timestamp (checkpoint : Checkpoint) (key : SignedNoteKey)
    : option Z :=
  if signature_type key ==? Some [0x04]
  then cosignature_timestamp_loop checkpoint key (cp_signatures checkpoint)
  else None.
End signatures.

(** ** What a signature covers *)
Lemma parse_checkpoint_Ok text c :
  parse_checkpoint text = Ok c →
  parse_body (signed_text c) = Ok (cp_origin c, cp_tree_size c, cp_root_hash c)
  ∧ signed_text c = signed_text_of (normalize_crlf text).
Proof.
  unfold parse_checkpoint. intros H. apply bind_Ok in H as ([[o n] r] & Hb & H).
  apply bind_Ok in H as (sigs & _ & [= <-]). done.
Qed.

Lemma parse_body_Ok s o n r :
  parse_body s = Ok (o, n, r) → o ≠ [] ∧ 0 ≤ n ∧ length r = 32%nat.
Proof.
  unfold parse_body. intros H. destruct (split 10 _) as [|o' [|sz [|rt ?]]]; try done.
  res_inv. bool_prop. split_and!; [done| |].
  - by apply is_canonical_int_nonneg.
  - unfold len in *. lia.
Qed.

(** Everything a checkpoint asserts is in the text its signatures cover:
    two accepted documents with the same signed text have the same origin,
    tree size and root hash; the root has 32 octets and the size is not
    negative. *)
Theorem checkpoint_fields_signed (t1 t2 : str) (c1 c2 : Checkpoint)
    (H1 : parse_checkpoint t1 = Ok c1) (H2 : parse_checkpoint t2 = Ok c2)
    (Hs : signed_text c1 = signed_text c2) :
  cp_origin c1 = cp_origin c2 ∧ cp_tree_size c1 = cp_tree_size c2
  ∧ cp_root_hash c1 = cp_root_hash c2
  ∧ cp_origin c1 ≠ [] ∧ 0 ≤ cp_tree_size c1 ∧ length (cp_root_hash c1) = 32%nat.
Proof.
  apply parse_checkpoint_Ok in H1 as [H1 _]. apply parse_checkpoint_Ok in H2 as [H2 _].
  pose proof (parse_body_Ok _ _ _ _ H1). rewrite Hs, H2 in H1. injection H1 as -> -> ->. done.
Qed.

(** *** Printing and parsing a checkpoint body *)
Definition checkpoint_body (origin : str) (tree_size : Z) (root_hash : bytes) : str :=
  origin ++ [10] ++ str_of_int tree_size ++ [10] ++ b64_std_encode root_hash ++ [10].

Lemma find_at_skip k c s t :
  Forall (λ x, x ≠ c) s → find_at k [c; c] (s ++ t) = find_at (k + len s) [c; c] t.
Proof.
  revert k. induction s as [|x s IH]; intros k Hs; [by rewrite len_nil, Z.add_0_r|].
  apply Forall_cons in Hs as [Hx Hs]. cbn [app find_at startswith].
  destruct (Z.eqb_spec c x); [congruence|]. cbn [andb]. rewrite IH, len_cons by done.
  f_equal. lia.
Qed.

Lemma find_at_one k c x t : x ≠ c →
  find_at k [c; c] (c :: x :: t) = find_at (k + 1) [c; c] (x :: t).
Proof.
  intros Hx. cbn [find_at startswith]. rewrite Z.eqb_refl.
  destruct (Z.eqb_spec c x); [congruence|done].
Qed.

Lemma b64encode_no_newline b : is_bytes b → Forall (λ x, x ≠ 10) (b64encode b).
Proof.
  unfold b64encode, is_bytes, is_byte.
  assert (∀ x, sextet x → b64_char 43 47 x ≠ 10) as Ha
    by (unfold sextet, b64_char; intros; repeat case_match; lia).
  induction b as [|x|x y|x y z b IH] using triple_ind; rewrite ?Forall_cons; intros Hb;
    destruct_and?; cbn [b64_encode_with app]; [constructor|..];
    repeat (constructor; [try done; apply Ha; unfold sextet; dlia|]); [constructor..|]. auto.
Qed.

Lemma b64encode_len b : len (b64encode b) mod 4 = 0.
Proof.
  unfold b64encode. induction b as [|x|x y|x y z b IH] using triple_ind; [done..|].
  cbn [b64_encode_with]. rewrite len_app. change (len [_; _; _; _]) with 4. dlia.
Qed.

Lemma b64_std_decode_encode b : is_bytes b → b64_std_decode (b64_std_encode b) = Ok b.
Proof.
  intros Hb. unfold b64_std_decode, b64_std_encode, add_padding, padding_needed.
  rewrite b64encode_len. cbn [replicate]. change (replicate (Z.to_nat ((4 - 0) mod 4)) 61) with (@nil Z).
  rewrite app_nil_r. unfold b64decode. rewrite b64encode_ascii by done. by apply a2b_encode.
Qed.

Lemma digits_not_newline n : 0 ≤ n → Forall (λ x, x ≠ 10) (str_of_nonneg n).
Proof.
  intros Hn. eapply Forall_impl; [by apply str_of_nonneg_digits|].
  intros c Hc ->. done.
Qed.

Lemma find_body o n r rest :
  o ≠ [] → Forall (λ x, x ≠ 10) o → 0 ≤ n → is_bytes r → r ≠ [] →
  find [10; 10] (checkpoint_body o n r ++ 10 :: rest) = len (checkpoint_body o n r) - 1.
Proof.
  intros Ho Hnl Hn Hb Hr. unfold find, checkpoint_body.
  rewrite str_of_int_nonneg by done.
  pose proof (digits_not_newline n Hn) as Hd. pose proof (str_of_nonneg_nonempty n) as Hdn.
  pose proof (b64encode_no_newline r Hb) as Hx. unfold b64_std_encode.
  assert (b64encode r ≠ []) as Hbn by (destruct r as [|? [|? [|? ?]]]; done).
  rewrite <- !app_assoc. rewrite find_at_skip by done.
  destruct (str_of_nonneg n) as [|d ds]; [done|]. cbn [app].
  rewrite find_at_one by (by inversion Hd).
  change (d :: ds ++ 10 :: b64encode r ++ 10 :: 10 :: rest)
    with ((d :: ds) ++ 10 :: b64encode r ++ 10 :: 10 :: rest).
  rewrite find_at_skip by done.
  destruct (b64encode r) as [|e es]; [done|]. cbn [app].
  rewrite find_at_one by (by inversion Hx).
  change (e :: es ++ 10 :: 10 :: rest) with ((e :: es) ++ 10 :: 10 :: rest).
  rewrite find_at_skip by done. cbn [find_at startswith]. rewrite !Z.eqb_refl. cbn [andb].
  repeat (rewrite ?len_app, ?len_cons, ?len_nil). change (len []) with 0. lia.
Qed.

Lemma split_skip c s t : Forall (λ x, x ≠ c) s → split c (s ++ c :: t) = s :: split c t.
Proof.
  induction 1 as [|x s Hx Hs IH]; cbn [app split]; [by rewrite Z.eqb_refl|].
  destruct (Z.eqb_spec x c); [congruence|]. by rewrite IH.
Qed.

Lemma split_none c s : Forall (λ x, x ≠ c) s → split c s = [s].
Proof.
  induction 1 as [|x s Hx Hs IH]; cbn [split]; [done|].
  destruct (Z.eqb_spec x c); [congruence|]. by rewrite IH.
Qed.

Lemma rstrip_body s c : Forall (λ x, x ≠ 10) s → s ≠ [] →
  rstrip is_newline (c ++ 10 :: s ++ [10]) = c ++ 10 :: s.
Proof.
  intros Hs Hne. unfold rstrip. rewrite app_comm_cons, app_assoc, rev_app_distr. cbn [rev app lstrip is_newline Z.eqb Pos.eqb].
  rewrite rev_app_distr. cbn [rev]. destruct (exists_last Hne) as (s' & x & ->).
  apply Forall_app in Hs as [_ Hx]. inversion Hx as [|? ? Hx1 _]; subst.
  rewrite rev_app_distr. cbn [rev app lstrip]. unfold is_newline at 1.
  destruct (Z.eqb_spec x 10); [done|].
  change (x :: (rev s' ++ [10]) ++ rev c) with (((x :: rev s') ++ [10]) ++ rev c).
  rewrite !rev_app_distr. cbn [rev app]. rewrite !rev_involutive. done.
Qed.

(** A checkpoint body read back: for every origin without a newline, every
    size and every root, the printed body followed by a blank line is exactly
    the signed text that is extracted, and its fields parse to the printed
    ones. *)
Theorem checkpoint_body_roundtrip (origin : str) (tree_size : Z) (root_hash rest : bytes)
    (Ho : origin ≠ []) (Hnl : Forall (λ x, x ≠ 10) origin) (Hn : 0 ≤ tree_size)
    (Hb : is_bytes root_hash) (H32 : length root_hash = 32%nat) :
  let body := checkpoint_body origin tree_size root_hash in
  signed_text_of (body ++ 10 :: rest) = body
  ∧ parse_body body = Ok (origin, tree_size, root_hash).
Proof.
  cbv zeta. assert (root_hash ≠ []) as Hr by (by intros ->).
  pose proof (b64encode_no_newline root_hash Hb) as Hx.
  assert (b64encode root_hash ≠ []) as Hbn by (destruct root_hash as [|? [|? [|? ?]]]; done).
  split.
  - unfold signed_text_of. rewrite find_body by done.
    set (body := checkpoint_body _ _ _).
    assert (0 < len body) as Hpos.
    { unfold body, checkpoint_body. rewrite !len_app. change (len [10]) with 1.
      pose proof (len_nonneg origin). pose proof (len_nonneg (str_of_int tree_size)).
      pose proof (len_nonneg (b64_std_encode root_hash)). lia. }
    destruct (Z.eqb_spec (len body - 1) (-1)); [lia|].
    rewrite Z.sub_add. apply slice_0_app.
  - unfold parse_body, checkpoint_body, b64_std_encode. rewrite str_of_int_nonneg by done.
    replace (origin ++ [10] ++ str_of_nonneg tree_size ++ [10] ++ b64encode root_hash ++ [10])
      with ((origin ++ 10 :: str_of_nonneg tree_size) ++ 10 :: b64encode root_hash ++ [10])
      by (by rewrite <- app_assoc).
    rewrite rstrip_body by done. rewrite <- app_assoc. cbn [app].
    rewrite split_skip, split_skip, split_none by (done || by apply digits_not_newline).
    rewrite (proj2 (eqb_false origin [])), is_canonical_str_of by done.
    cbn [raise_if mbind result_bind negb].
    change (b64encode root_hash) with (b64_std_encode root_hash).
    rewrite b64_std_decode_encode by done. cbn [try_except mbind result_bind].
    unfold len. rewrite H32. cbn [Z.of_nat Z.eqb Pos.eqb negb raise_if mbind result_bind].
    rewrite int_of_canonical_str_of by done. done.
Qed.

(** ** Cosignatures *)
Lemma digits_newline_split a b m m' :
  Forall (λ x, x ≠ 10) a → Forall (λ x, x ≠ 10) b → a ++ 10 :: m = b ++ 10 :: m' → a = b ∧ m = m'.
Proof.
  revert b. induction a as [|x a IH]; intros [|y b] Ha Hb H; cbn in H.
  - by injection H.
  - injection H as <- _. by inversion Hb.
  - injection H as -> _. by inversion Ha.
  - injection H as <- H. apply Forall_cons in Ha as [_ Ha]. apply Forall_cons in Hb as [_ Hb].
    destruct (IH b Ha Hb H) as [-> ->]. done.
Qed.

(** A cosignature binds its time and its note: the signed message of one
    timestamp and note is the message of no other pair. *)
Theorem cosignature_message_binds (t t' : Z) (m m' : str)
    (Ht : 0 ≤ t) (Ht' : 0 ≤ t') (H : cosignature_message t m = cosignature_message t' m') :
  t = t' ∧ m = m'.
Proof.
  unfold cosignature_message in H. rewrite !app_assoc in H.
  rewrite <- !app_assoc in H. do 3 apply app_inv_head in H.
  rewrite !str_of_int_nonneg in H by done.
  apply digits_newline_split in H as [H ->]; [|by apply digits_not_newline..].
  split; [|done]. by apply str_of_nonneg_inj.
Qed.

Section cosignature_spec.
Context (ed25519_verify : bytes → bytes → bytes → bool).

(** A valid timestamped cosignature of [checkpoint] by [key]. *)
Definition cosigned (checkpoint : Checkpoint) (key : SignedNoteKey) (timestamp : Z) : Prop :=
  ∃ sig, sig ∈ cp_signatures checkpoint ∧ sig_name sig = key_name key
    ∧ key_id_matches sig key = true ∧ len (signature sig) = 72
    ∧ timestamp = int_from_bytes (take 8 (signature sig))
    ∧ timestamp ≤ max_cosig_timestamp
    ∧ verify_encoded ed25519_verify (key_bytes key) (drop 8 (signature sig))
        (cosignature_message timestamp (signed_text checkpoint)) = true.

Lemma verify_note_cosignature message sig key :
  signature_type key = Some [0x04] → len (signature sig) = 72 →
  verify_note_signature ed25519_verify message sig key = true →
  let timestamp := int_from_bytes (take 8 (signature sig)) in
  timestamp ≤ max_cosig_timestamp ∧
  verify_encoded ed25519_verify (key_bytes key) (drop 8 (signature sig))
    (cosignature_message timestamp message) = true.
Proof.
  intros Ht Hl. unfold verify_note_signature. rewrite Ht, Hl.
  cbn [Z.eqb Pos.eqb negb len length Z.of_nat Pos.of_succ_nat Pos.succ].
  destruct (negb _ || negb _); [done|].
  destruct (Z.ltb_spec max_cosig_timestamp (int_from_bytes (take 8 (signature sig)))); [done|].
  by split.
Qed.

Lemma timestamp_cosigned checkpoint key t :
  verified_cosignature_timestamp ed25519_verify checkpoint key = Some t →
  signature_type key = Some [0x04] ∧ cosigned checkpoint key t.
Proof.
  intros H. unfold verified_cosignature_timestamp in H.
  destruct (_ ==? _) eqn:Ht; [|done]. rewrite eqb_true in Ht.
  split; [done|]. unfold cosigned. revert H. generalize (cp_signatures checkpoint) as sigs.
  induction sigs as [|sig sigs IH]; cbn [cosignature_timestamp_loop]; [done|].
  destruct (_ || _) eqn:Hskip.
  { intros (s & Hs & Hrest)%IH. exists s. split; [by right|done]. }
  rewrite !orb_false_iff, !negb_false_iff, eqb_true, Z.eqb_eq in Hskip.
  destruct Hskip as (((Hn & Hid) & Hv) & Hl).
  destruct (Z.leb_spec (int_from_bytes (take 8 (signature sig))) max_cosig_timestamp) as [Hle|].
  - intros [= <-]. exists sig. split_and!; try done; [left|].
    by apply (verify_note_cosignature _ sig key).
  - intros (s & Hs & Hrest)%IH. exists s. split; [by right|done].
Qed.
(** A timestamp is reported only from a valid cosignature: the key is a
    cosignature/v1 key and some signature line of the checkpoint, under that
    key's name and identifier, carries the timestamp and verifies over the
    message that contains it. *)
Theorem cosignature_timestamp_sound (checkpoint : Checkpoint) (key : SignedNoteKey) (t : Z)
    (H : verified_cosignature_timestamp ed25519_verify checkpoint key = Some t) :
  signature_type key = Some [0x04] ∧ cosigned checkpoint key t.
Proof. by apply timestamp_cosigned. Qed.
End cosignature_spec.

(** ** Witnesses

    A concrete signature scheme, used only to evaluate the definitions: the
    signature of [data] is the key followed by the hash of [data]. *)
Definition demo_sign (key data : bytes) : bytes := key ++ sha256 data.
Definition demo_verify (key sig data : bytes) : bool := sig ==? demo_sign key data.

Definition utf8_bytes (s : str) : bytes := match utf8_encode s with Ok b => b | Raise _ => [] end.

Definition demo_key (name : str) (n : Z) (type : option bytes) : SignedNoteKey :=
  {| key_name := name; key_bytes := replicate 32 n; key_kind := ed25519_kind;
     key_id := Some [n; n; n; n]; signature_type := type |}.

(** The signature lines a log and a witness append to a body. *)
Definition demo_log_line (key : SignedNoteKey) (body : str) : str :=
  [8212; 32] ++ key_name key ++ [32]
  ++ b64_std_encode (default [] (key_id key) ++ demo_sign (key_bytes key) (utf8_bytes body)) ++ [10].
Definition demo_witness_line (key : SignedNoteKey) (t : Z) (body : str) : str :=
  [8212; 32] ++ key_name key ++ [32]
  ++ b64_std_encode (default [] (key_id key) ++ be_bytes 8 t
       ++ demo_sign (key_bytes key) (utf8_bytes (cosignature_message t body))) ++ [10].

Definition demo_log_key : SignedNoteKey := demo_key (lit "log.example") 1 (Some [0x01]).
Definition demo_witness_key (n : Z) : SignedNoteKey := demo_key (lit "witness" ++ str_of_int n) (10 + n) (Some [0x04]).

Definition demo_checkpoint_text (size : Z) (root : bytes) (times : list (Z * Z)) : str :=
  let body := checkpoint_body (lit "log.example") size root in
  body ++ [10] ++ demo_log_line demo_log_key body
  ++ mjoin ((λ '(n, t), demo_witness_line (demo_witness_key n) t body) <$> times).

Definition demo_checkpoint (size : Z) (root : bytes) (times : list (Z * Z)) : Checkpoint :=
  match parse_checkpoint (demo_checkpoint_text size root times) with
  | Ok c => c
  | Raise _ => {| cp_origin := []; cp_tree_size := 0; cp_root_hash := []; cp_signatures := [];
                  signed_text := [] |}
  end.

(** Two documents with one signed text and different witnesses. *)
Lemma checkpoint_fields_signed_witness :
  let c1 := demo_checkpoint 5 (replicate 32 7) [] in
  let c2 := demo_checkpoint 5 (replicate 32 7) [(1, 1700000000)] in
  length (cp_signatures c1) ≠ length (cp_signatures c2) ∧ cp_root_hash c1 = cp_root_hash c2.
Proof.
  split; [vm_compute; lia|].
  apply (checkpoint_fields_signed (demo_checkpoint_text 5 (replicate 32 7) [])
           (demo_checkpoint_text 5 (replicate 32 7) [(1, 1700000000)])
           (demo_checkpoint 5 (replicate 32 7) [])
           (demo_checkpoint 5 (replicate 32 7) [(1, 1700000000)]));
    by vm_compute.
Defined.

Lemma checkpoint_body_roundtrip_witness :
  parse_body (checkpoint_body (lit "log.example") 5 (replicate 32 7))
  = Ok (lit "log.example", 5, replicate 32 7).
Proof.
  apply (checkpoint_body_roundtrip (lit "log.example") 5 (replicate 32 7) []);
    [done|by_decide|lia|by_decide|done].
Defined.

Lemma cosignature_message_binds_witness :
  cosignature_message 12 (lit "3") = cosignature_message 12 (lit "3") → 12 = 12 ∧ lit "3" = lit "3".
Proof. intros H. apply (cosignature_message_binds 12 12 (lit "3") (lit "3")); [lia|lia|exact H]. Defined.

Lemma cosignature_timestamp_sound_witness :
  let c := demo_checkpoint 5 (replicate 32 7) [(1, 1700000000); (2, 1700000001)] in
  cosigned demo_verify c (demo_witness_key 2) 1700000001.
Proof.
  apply (cosignature_timestamp_sound demo_verify
    (demo_checkpoint 5 (replicate 32 7) [(1, 1700000000); (2, 1700000001)])
    (demo_witness_key 2) 1700000001).
  by vm_compute.
Defined.
