(* ===== verification/Policy.v ===== *)
(** * Checkpoint trust policy ([c2sp_tlog/policy.py])

    Log keys, witness quorum rules, the text policy format and the
    enforcement of a policy on a checkpoint.  Times are whole milliseconds:
    a fractional clock reading compares with [timestamp * 1000] as its floor
    does. *)
From S2P Require Import Prelude Sha256 Errors PyText Base64 SignedNote.

(** ** Data *)

(** [SignedNoteKey | str] *)
Inductive KeyRef : Set :=
| KeyObject (k : SignedNoteKey)
| KeyText (s : str).

(** [rule.kind]: the three documented strings, or any other. *)
Inductive rule_kind : Set := Knone | Kwitness | Kthreshold | Kother (s : str).

Inductive C2spTlogQuorumRule : Set :=
| Rule (kind : rule_kind) (key : option KeyRef) (threshold : Z)
    (members : list C2spTlogQuorumRule).

Definition kind_of (r : C2spTlogQuorumRule) : rule_kind := let 'Rule k _ _ _ := r in k.
Definition threshold_of (r : C2spTlogQuorumRule) : Z := let 'Rule _ _ t _ := r in t.
Definition members_of (r : C2spTlogQuorumRule) : list C2spTlogQuorumRule := let 'Rule _ _ _ m := r in m.

Definition rule_none : C2spTlogQuorumRule := Rule Knone None 0 [].
Definition rule_witness (k : KeyRef) : C2spTlogQuorumRule := Rule Kwitness (Some k) 0 [].
Definition rule_threshold (t : Z) (ms : list C2spTlogQuorumRule) : C2spTlogQuorumRule :=
  Rule Kthreshold None t ms.

#[global] Instance KeyRef_eq_dec : EqDecision KeyRef.
Proof. solve_decision. Defined.
#[global] Instance rule_kind_eq_dec : EqDecision rule_kind.
Proof. solve_decision. Defined.

Record C2spTlogOriginPolicy : Set := {
  log_keys : list KeyRef;
  witness_keys : list KeyRef;
  quorum : option Z;
  quorum_rule : option C2spTlogQuorumRule;
  unchained : bool
}.

Record C2spTlogPolicy : Set := {
  origins : list (str * C2spTlogOriginPolicy);
  policy_scope : option str
}.

Record NormalizedOriginPolicy : Set := {
  n_log_keys : list SignedNoteKey;
  n_witness_keys : list SignedNoteKey;
  n_quorum : Z;
  n_quorum_rule : C2spTlogQuorumRule;
  n_unchained : bool
}.

Record CheckpointPolicyResult : Set := {
  accepted_witness_timestamps : list Z;
  checkpoint_witness_time : option Z
}.

(** ** Keys *)
Definition as_key (k : KeyRef) : res SignedNoteKey :=
  match k with
  | KeyText s => parse_signed_note_verifier_key s
  | KeyObject k => Ok k
  end.

Definition key_identity (key : SignedNoteKey) : str :=
  key_kind key ++ [0] ++ bytes_hex (key_bytes key).

Definition assert_distinct_underlying_keys (keys : list SignedNoteKey) : res unit :=
  raise_if (negb (bool_decide (NoDup (key_identity <$> keys))))
    (verr "keys must be distinct by underlying public key").

Definition is_log_type (k : SignedNoteKey) : bool :=
  match signature_type k with None => true | Some t => t ==? [0x01] end.
Definition is_cosig_type (k : SignedNoteKey) : bool := signature_type k ==? Some [0x04].

(** [any(_key_identity(k) in log_identities for k in keys)] *)
Definition shares_identity (log_keys keys : list SignedNoteKey) : bool :=
  existsb (λ k, bool_decide (key_identity k ∈ key_identity <$> log_keys)) keys.

(** ** Quorum rules *)
Fixpoint normalize_quorum_rule (rule : C2spTlogQuorumRule) : res C2spTlogQuorumRule :=
  match rule with
  | Rule Knone _ _ _ => Ok rule
  | Rule Kwitness None _ _ => Raise (verr "witness quorum rule requires a key")
  | Rule Kwitness (Some k) _ _ => k ← as_key k; Ok (rule_witness (KeyObject k))
  | Rule Kthreshold _ threshold members =>
      raise_if ((threshold <? 1) || (len members <? threshold))
        (verr "checkpoint quorum rule has an invalid threshold") ;;
      members ← mapM_res normalize_quorum_rule members;
      Ok (rule_threshold threshold members)
  | Rule (Kother _) _ _ _ => Raise (verr "unsupported quorum rule kind")
  end.

Definition flat_quorum_rule (witness_keys : list SignedNoteKey) (quorum : Z) : C2spTlogQuorumRule :=
  if quorum =? 0 then rule_none
  else rule_threshold quorum ((λ k, rule_witness (KeyObject k)) <$> witness_keys).

Fixpoint collect_witness_keys (rule : C2spTlogQuorumRule) : res (list SignedNoteKey) :=
  match rule with
  | Rule Knone _ _ _ => Ok []
  | Rule Kwitness (Some (KeyObject k)) _ _ => Ok [k]
  | Rule Kwitness _ _ _ => Raise (verr "checkpoint witness rule requires a key")
  | Rule _ _ _ members => ks ← mapM_res collect_witness_keys members; Ok (concat ks)
  end.

Definition top_level_threshold (rule : C2spTlogQuorumRule) : Z :=
  match kind_of rule with
  | Knone => 0
  | Kwitness => 1
  | _ => threshold_of rule
  end.

Definition legacy_quorum (rule : C2spTlogQuorumRule) : option Z :=
  match kind_of rule with
  | Knone => Some 0
  | Kwitness => Some 1
  | _ => if forallb (λ m, kind_of m ==? Kwitness) (members_of rule)
         then Some (threshold_of rule) else None
  end.

(** [min(ts) if ts else float("inf")]; [None] is infinity. *)
Definition sort_key (ts : list Z) : option Z :=
  match ts with
  | [] => None
  | t :: ts => Some (foldl Z.min t ts)
  end.

(** [a >= b] on such keys. *)
Definition key_geb (a b : option Z) : bool :=
  match a, b with
  | None, _ => true
  | Some _, None => false
  | Some a, Some b => b <=? a
  end.

(** [satisfied.sort(key=..., reverse=True)]: descending, and stable, so that
    an element goes after the elements that precede it with the same key. *)
Fixpoint insert_desc (x : list Z) (l : list (list Z)) : list (list Z) :=
  match l with
  | [] => [x]
  | y :: l' => if key_geb (sort_key x) (sort_key y) then x :: l else y :: insert_desc x l'
  end.
Fixpoint sort_desc (l : list (list Z)) : list (list Z) :=
  match l with
  | [] => []
  | x :: l => insert_desc x (sort_desc l)
  end.

(** [l[:n]] *)
Definition prefix_slice {A} (n : Z) (l : list A) : list A :=
  if n <? 0 then take (Z.to_nat (len l + n)) l else take (Z.to_nat n) l.

(** The last second a [datetime] represents, 9999-12-31T23:59:59Z. *)
Definition max_datetime_seconds : Z := 253402300799.

Section enforcement.
Context (ed25519_verify : bytes → bytes → bytes → bool).

Definition fresh (now_ms max_clock_skew_ms timestamp : Z) : bool :=
  timestamp * 1000 <=? now_ms + max_clock_skew_ms.

Definition evaluate_witness (checkpoint : Checkpoint) (now_ms max_clock_skew_ms : Z)
    (key : SignedNoteKey) : option (list Z) :=
  match verified_cosignature_timestamp ed25519_verify checkpoint key with
  | Some timestamp => if fresh now_ms max_clock_skew_ms timestamp then Some [timestamp] else None
  | None => None
  end.

Definition select_members (threshold : Z) (results : list (option (list Z))) : option (list Z) :=
  let satisfied := omap id results in
  if len satisfied <? threshold then None
  else Some (concat (prefix_slice threshold (sort_desc satisfied))).

Fixpoint evaluate_quorum (checkpoint : Checkpoint) (now_ms max_clock_skew_ms : Z)
    (rule : C2spTlogQuorumRule) : res (option (list Z)) :=
  match rule with
  | Rule Knone _ _ _ => Ok (Some [])
  | Rule Kwitness (Some (KeyObject k)) _ _ =>
      Ok (evaluate_witness checkpoint now_ms max_clock_skew_ms k)
  | Rule Kwitness _ _ _ => Raise (verr "checkpoint witness rule requires a key")
  | Rule _ _ threshold members =>
      results ← mapM_res (evaluate_quorum checkpoint now_ms max_clock_skew_ms) members;
      Ok (select_members threshold results)
  end.

Definition normalized_origin_policy (policy : C2spTlogPolicy) (origin : str)
    : res NormalizedOriginPolicy :=
  match dict_get origin (origins policy) with
  | None => Raise (verr "no local C2SP policy for origin")
  | Some p =>
      log_keys ← mapM_res as_key (log_keys p);
      witness_keys ← mapM_res as_key (witness_keys p);
      let quorum := default 0 (quorum p) in
      raise_if (quorum <? 0) (verr "checkpoint witness quorum must be a non-negative integer") ;;
      raise_if (len witness_keys <? quorum)
        (verr "checkpoint witness quorum exceeds configured witnesses") ;;
      raise_if (log_keys ==? []) (verr "checkpoint policy requires at least one log key") ;;
      raise_if (existsb (λ k, negb (key_name k ==? origin)) log_keys)
        (verr "checkpoint log key name must match its origin") ;;
      raise_if (existsb (λ k, negb (is_log_type k)) log_keys)
        (verr "checkpoint log keys must use the supported log signature type 0x01") ;;
      raise_if (existsb (λ k, negb (is_cosig_type k)) witness_keys)
        (verr "checkpoint witness keys must use the supported cosignature type 0x04") ;;
      assert_distinct_underlying_keys log_keys ;;
      assert_distinct_underlying_keys witness_keys ;;
      raise_if (shares_identity log_keys witness_keys)
        (verr "checkpoint log and witness keys must use distinct underlying public keys") ;;
      quorum_rule ← normalize_quorum_rule
        (default (flat_quorum_rule witness_keys quorum) (quorum_rule p));
      rule_witness_keys ← collect_witness_keys quorum_rule;
      raise_if (existsb (λ k, negb (is_cosig_type k)) rule_witness_keys)
        (verr "checkpoint quorum witness keys must use the supported cosignature type 0x04") ;;
      assert_distinct_underlying_keys rule_witness_keys ;;
      raise_if (shares_identity log_keys rule_witness_keys)
        (verr "checkpoint log and witness keys must use distinct underlying public keys") ;;
      Ok {| n_log_keys := log_keys; n_witness_keys := rule_witness_keys;
            n_quorum := top_level_threshold quorum_rule; n_quorum_rule := quorum_rule;
            n_unchained := unchained p |}
  end.

Definition public : str := lit "public".

(** [datetime.datetime.fromtimestamp(min(accepted), tz=UTC)], in seconds. *)
Definition witness_time (accepted : list Z) : res (option Z) :=
  match sort_key accepted with
  | None => Ok None
  | Some t =>
      raise_if (max_datetime_seconds <? t) (ValueError (lit "year is out of range")) ;;
      Ok (Some t)
  end.

Definition enforce_checkpoint_policy (checkpoint : Checkpoint) (origin : str)
    (policy : C2spTlogPolicy) (scope : str) (now_ms max_clock_skew_ms : Z)
    : res CheckpointPolicyResult :=
  raise_if (max_clock_skew_ms <? 0) (verr "maximum clock skew must be a non-negative integer") ;;
  raise_if (match policy_scope policy with Some s => negb (s ==? scope) | None => false end)
    (verr "C2SP policy scope does not match") ;;
  raise_if (negb (cp_origin checkpoint ==? origin)) (verr "checkpoint origin mismatch") ;;
  raise_if ((cp_tree_size checkpoint =? 0) && negb (cp_root_hash checkpoint ==? sha256 []))
    (verr_cat "empty checkpoint root must be SHA-256 of the empty string" INVALID_EVIDENCE) ;;
  p ← normalized_origin_policy policy origin;
  let accepted_log_keys :=
    if scope ==? public then filter (λ k, signature_type k = Some [0x01]) (n_log_keys p)
    else n_log_keys p in
  raise_if (negb (existsb (verify_checkpoint_signature ed25519_verify checkpoint) accepted_log_keys))
    (verr "checkpoint missing accepted log signature") ;;
  raise_if ((scope ==? public) && (kind_of (n_quorum_rule p) ==? Knone))
    (verr "public C2SP policy requires a non-zero witness quorum") ;;
  accepted ← evaluate_quorum checkpoint now_ms max_clock_skew_ms (n_quorum_rule p);
  match accepted with
  | None => Raise (verr "checkpoint witness quorum not satisfied by valid timestamped cosignatures")
  | Some accepted =>
      time ← witness_time accepted;
      Ok {| accepted_witness_timestamps := accepted; checkpoint_witness_time := time |}
  end.
End enforcement.

(** ** The text policy format *)
Record policy_state : Set := {
  ps_logs : list SignedNoteKey;
  ps_witnesses : list (str * SignedNoteKey);
  ps_rules : list (str * C2spTlogQuorumRule);
  ps_quorum_rule : option C2spTlogQuorumRule;
  ps_quorum_lines : Z
}.

Definition initial_policy_state : policy_state :=
  {| ps_logs := []; ps_witnesses := []; ps_rules := []; ps_quorum_rule := None;
     ps_quorum_lines := 0 |}.

Definition verror (msg : string) : exn := ValueError (lit msg).

Definition policy_character (c : Z) : bool := (c =? 0x09) || (c =? 0x0A) || (0x20 <=? c).

Definition assert_policy_characters (text : str) : res unit :=
  raise_if (negb (forallb policy_character text)) (verr "invalid C2SP policy character").

Definition assert_new_policy_name (name : str) (st : policy_state) : res unit :=
  raise_if (name ==? lit "none") (verror "none is a reserved policy name") ;;
  raise_if (bool_decide (is_Some (dict_get name (ps_witnesses st)))
            || bool_decide (is_Some (dict_get name (ps_rules st))))
    (verror "duplicate policy name").

Definition parse_decimal_threshold (value : str) : res Z :=
  raise_if (negb (is_canonical_int value)) (verror "invalid group threshold") ;;
  Ok (int_of_canonical value).

Definition get_rule (msg : string) (st : policy_state) (name : str) : res C2spTlogQuorumRule :=
  match dict_get name (ps_rules st) with
  | Some rule => Ok rule
  | None => Raise (verror msg)
  end.

Definition log_directive (st : policy_state) (key_text : str) : res policy_state :=
  key ← parse_signed_note_verifier_key key_text;
  Ok {| ps_logs := ps_logs st ++ [key]; ps_witnesses := ps_witnesses st;
        ps_rules := ps_rules st; ps_quorum_rule := ps_quorum_rule st;
        ps_quorum_lines := ps_quorum_lines st |}.

Definition witness_directive (st : policy_state) (name key_text : str) : res policy_state :=
  assert_new_policy_name name st ;;
  key ← parse_signed_note_verifier_key key_text;
  Ok {| ps_logs := ps_logs st; ps_witnesses := dict_set name key (ps_witnesses st);
        ps_rules := dict_set name (rule_witness (KeyObject key)) (ps_rules st);
        ps_quorum_rule := ps_quorum_rule st; ps_quorum_lines := ps_quorum_lines st |}.

Definition group_directive (st : policy_state) (name threshold_text : str)
    (member_names : list str) : res policy_state :=
  assert_new_policy_name name st ;;
  raise_if (negb (bool_decide (NoDup member_names))) (verror "group members must be distinct") ;;
  members ← mapM_res (get_rule "group references unknown preceding witness or group" st) member_names;
  threshold ← (if threshold_text ==? lit "any" then Ok 1
               else if threshold_text ==? lit "all" then Ok (len members)
               else parse_decimal_threshold threshold_text);
  raise_if ((threshold <? 1) || (len members <? threshold)) (verror "invalid group threshold") ;;
  Ok {| ps_logs := ps_logs st; ps_witnesses := ps_witnesses st;
        ps_rules := dict_set name (rule_threshold threshold members) (ps_rules st);
        ps_quorum_rule := ps_quorum_rule st; ps_quorum_lines := ps_quorum_lines st |}.

Definition quorum_directive (st : policy_state) (name : str) : res policy_state :=
  raise_if (1 <? ps_quorum_lines st + 1)
    (verror "policy must contain exactly one quorum directive") ;;
  rule ← (if name ==? lit "none" then Ok rule_none
          else get_rule "quorum references unknown preceding witness or group" st name);
  Ok {| ps_logs := ps_logs st; ps_witnesses := ps_witnesses st; ps_rules := ps_rules st;
        ps_quorum_rule := Some rule; ps_quorum_lines := ps_quorum_lines st + 1 |}.

Definition is_blank (c : Z) : bool := (c =? 9) || (c =? 32).

(** The [try] block of one line. *)
Definition policy_directive (st : policy_state) (directive : str) (parts : list str)
    : res policy_state :=
  match parts with
  | [key] =>
      if directive ==? lit "log" then log_directive st key
      else if directive ==? lit "quorum" then quorum_directive st key
      else Raise (verror "unsupported directive or wrong number of fields")
  | [a; b] =>
      if directive ==? lit "log" then log_directive st a
      else if directive ==? lit "witness" then witness_directive st a b
      else Raise (verror "unsupported directive or wrong number of fields")
  | a :: b :: c :: rest =>
      if (directive ==? lit "witness") && (rest ==? []) then witness_directive st a b
      else if directive ==? lit "group" then group_directive st a b (c :: rest)
      else Raise (verror "unsupported directive or wrong number of fields")
  | [] => Raise (verror "unsupported directive or wrong number of fields")
  end.

(** [except (ValueError, C2spTlogVerificationError)] *)
Definition wrap_line_error (e : exn) : exn :=
  if is_value_error e || is_c2sp_verification e then verr "invalid C2SP policy line" else e.

Definition policy_line (st : policy_state) (raw_line : str) : res policy_state :=
  let line := strip is_blank raw_line in
  if (line ==? []) || startswith (lit "#") line then Ok st
  else match split_runs is_blank line with
       | directive :: parts =>
           try_except (policy_directive st directive parts) (λ e, Raise (wrap_line_error e))
       | [] => Raise (IndexError (lit "pop from empty list"))
       end.

(** The loop that groups the log keys by origin. *)
Definition add_log (witness_keys : list KeyRef) (quorum : option Z) (rule : C2spTlogQuorumRule)
    (origins : list (str * C2spTlogOriginPolicy)) (log : SignedNoteKey)
    : list (str * C2spTlogOriginPolicy) :=
  match dict_get (key_name log) origins with
  | Some current =>
      dict_set (key_name log)
        {| log_keys := log_keys current ++ [KeyObject log]; witness_keys := Policy.witness_keys current;
           quorum := Policy.quorum current; quorum_rule := quorum_rule current;
           unchained := unchained current |} origins
  | None =>
      dict_set (key_name log)
        {| log_keys := [KeyObject log]; witness_keys := witness_keys; quorum := quorum;
           quorum_rule := Some rule; unchained := false |} origins
  end.

Definition parse_c2sp_policy_file (text : str) : res C2spTlogPolicy :=
  assert_policy_characters text ;;
  st ← foldM_res policy_line (split 10 text) initial_policy_state;
  match ps_quorum_rule st with
  | Some rule =>
      raise_if (negb (ps_quorum_lines st =? 1))
        (verr "C2SP policy requires exactly one quorum directive") ;;
      let logs := ps_logs st in
      let witnesses := (ps_witnesses st).*2 in
      raise_if (existsb (λ k, negb (is_log_type k)) logs)
        (verr "C2SP policy log keys must use the supported log signature type 0x01") ;;
      raise_if (existsb (λ k, negb (is_cosig_type k)) witnesses)
        (verr "C2SP policy witness keys must use the supported cosignature type 0x04") ;;
      assert_distinct_underlying_keys logs ;;
      assert_distinct_underlying_keys witnesses ;;
      raise_if (shares_identity logs witnesses)
        (verr "C2SP policy log and witness keys must use distinct underlying public keys") ;;
      Ok {| origins := foldl (add_log (KeyObject <$> witnesses) (legacy_quorum rule) rule) [] logs;
            policy_scope := None |}
  | None => Raise (verr "C2SP policy requires exactly one quorum directive")
  end.
