(* ===== verification/PolicySpec.v ===== *)
(** * What a checkpoint policy guarantees

    An abstract reading of quorum rules ([quorum_holds]), the proof that
    [evaluate_quorum] of [Policy.v] implements it, and what follows for
    [enforce_checkpoint_policy] and for policies read from text. *)
From S2P Require Import Prelude Sha256 Errors PyText Base64 SignedNote Policy.

(** ** Quorum rules as predicates on the set of valid witnesses *)
Fixpoint quorum_holds (valid : SignedNoteKey → bool) (rule : C2spTlogQuorumRule) : bool :=
  match rule with
  | Rule Knone _ _ _ => true
  | Rule Kwitness (Some (KeyObject k)) _ _ => valid k
  | Rule Kwitness _ _ _ => false
  | Rule _ _ threshold members => threshold <=? len (List.filter (quorum_holds valid) members)
  end.

(** No [none] node in the rule. *)
Fixpoint no_none (rule : C2spTlogQuorumRule) : bool :=
  match rule with
  | Rule Knone _ _ _ => false
  | Rule _ _ _ members => forallb no_none members
  end.

Section rule_induction.
Context (P : C2spTlogQuorumRule → Prop)
  (HP : ∀ kind key t ms, Forall P ms → P (Rule kind key t ms)).

Fixpoint rule_nested_ind (r : C2spTlogQuorumRule) : P r :=
  match r with
  | Rule kind key t ms =>
      HP kind key t ms
        ((fix go (l : list C2spTlogQuorumRule) : Forall P l :=
            match l with
            | [] => List.Forall_nil _
            | m :: l => List.Forall_cons _ _ _ (rule_nested_ind m) (go l)
            end) ms)
  end.
End rule_induction.

(** ** Counting *)
Lemma filter_len_le {A} (f g : A → bool) l :
  Forall (λ x, f x = true → g x = true) l → len (List.filter f l) ≤ len (List.filter g l).
Proof.
  induction 1 as [|x l Hx Hl IH]; cbn; [done|].
  destruct (f x); [rewrite Hx by done|destruct (g x)]; rewrite ?len_cons; lia.
Qed.

Lemma filter_submseteq {A} (f : A → bool) l k : l ⊆+ k → len (List.filter f l) ≤ len (List.filter f k).
Proof.
  induction 1 as [|x l k _ IH|x y l|x l k _ IH|l k m _ IH1 _ IH2]; cbn; [done|..|lia];
    repeat case_match; rewrite ?len_cons; lia.
Qed.

Lemma filter_all {A} (f : A → bool) l : Forall (λ x, f x = true) l → List.filter f l = l.
Proof. induction 1 as [|x l Hx _ IH]; cbn; [done|]. by rewrite Hx, IH. Qed.

Lemma quorum_holds_mono (v w : SignedNoteKey → bool) rule :
  (∀ k, v k = true → w k = true) → quorum_holds v rule = true → quorum_holds w rule = true.
Proof.
  intros Hvw. induction rule as [kind key t ms IH] using rule_nested_ind.
  destruct kind; cbn; [done|destruct key as [[]|]; auto|..];
    rewrite !Z.leb_le; intros H; (etrans; [exact H|]; by apply filter_len_le).
Qed.

(** *** Sorting the satisfied members *)
Lemma insert_desc_perm x l : insert_desc x l ≡ₚ x :: l.
Proof.
  induction l as [|y l IH]; cbn; [done|]. case_match; [done|]. rewrite IH. constructor.
Qed.

Lemma sort_desc_perm l : sort_desc l ≡ₚ l.
Proof. induction l as [|x l IH]; cbn; [done|]. by rewrite insert_desc_perm, IH. Qed.

Lemma prefix_slice_take {A} n (l : list A) : 0 ≤ n → prefix_slice n l = take (Z.to_nat n) l.
Proof. intros Hn. unfold prefix_slice. by destruct (Z.ltb_spec n 0); [lia|]. Qed.

Lemma Forall_mjoin {A} (P : A → Prop) (ls : list (list A)) :
  Forall (Forall P) ls → Forall P (concat ls).
Proof. induction 1; cbn; [done|]. by apply Forall_app. Qed.

Lemma fmap_concat {A B} (f : A → B) (ls : list (list A)) :
  fmap (M:=list) f (concat ls) = concat (fmap (M:=list) (fmap (M:=list) f) ls).
Proof. induction ls as [|l ls IH]; cbn; [done|]. by rewrite fmap_app, IH. Qed.

Lemma concat_submseteq {A} (ls ks : list (list A)) : ls ⊆+ ks → concat ls ⊆+ concat ks.
Proof.
  induction 1 as [|x l k _ IH|x y l|x l k _ IH|l k m _ IH1 _ IH2]; cbn; [done|..].
  - by apply submseteq_app.
  - by rewrite !app_assoc, (Permutation_app_comm y x).
  - by apply submseteq_inserts_l.
  - by etrans.
Qed.

Lemma take_submseteq {A} n (l : list A) : take n l ⊆+ l.
Proof. apply sublist_submseteq, sublist_take. Qed.

Lemma submseteq_Forall {A} (P : A → Prop) l k : l ⊆+ k → Forall P k → Forall P l.
Proof. rewrite !Forall_forall. intros Hs Hk x Hx. by eapply Hk, elem_of_submseteq. Qed.

Lemma submseteq_NoDup {A} (l k : list A) : l ⊆+ k → NoDup k → NoDup l.
Proof. intros [m ->]%submseteq_Permutation [H _]%NoDup_app. done. Qed.

Section evaluation.
Context (ed25519_verify : bytes → bytes → bytes → bool).
Context (checkpoint : Checkpoint) (now_ms max_clock_skew_ms : Z).
Abbreviation eval := (evaluate_quorum ed25519_verify checkpoint now_ms max_clock_skew_ms).
Abbreviation eval_witness := (evaluate_witness ed25519_verify checkpoint now_ms max_clock_skew_ms).

(** A witness whose cosignature is valid and not from the future. *)
Definition witness_valid (k : SignedNoteKey) : bool := bool_decide (is_Some (eval_witness k)).

(** The rule is normalized: objects for keys, thresholds at least one. *)
Fixpoint normalized (rule : C2spTlogQuorumRule) : bool :=
  match rule with
  | Rule Knone _ _ _ => true
  | Rule Kwitness (Some (KeyObject _)) _ _ => true
  | Rule Kthreshold _ threshold members =>
      (1 <=? threshold) && (threshold <=? len members) && forallb normalized members
  | _ => false
  end.

Lemma normalize_normalized rule rule' :
  normalize_quorum_rule rule = Ok rule' → normalized rule' = true.
Proof.
  revert rule'. induction rule as [kind key t ms IH] using rule_nested_ind. intros rule'.
  destruct kind; cbn; [by intros [= <-]| | |done].
  - destruct key as [k|]; [|done]. intros H. res_inv. done.
  - intros H. res_inv. bool_prop. unfold rule_threshold. cbn [normalized].
    match goal with H : mapM_res _ _ = Ok ?l |- _ => apply mapM_res_Ok in H as Hms end.
    assert (len x0 = len ms) as -> by (unfold len; by rewrite (Forall2_length _ _ _ Hms)).
    assert (forallb normalized x0 = true) as ->.
    { apply forallb_Forall. clear -Hms IH. induction Hms; inversion IH; constructor; auto. }
    bool_prop. split; [lia|done].
Qed.

Lemma normalized_collect rule : normalized rule = true → ∃ ks, collect_witness_keys rule = Ok ks.
Proof.
  induction rule as [kind key t ms IH] using rule_nested_ind.
  destruct kind; cbn; [by eauto|destruct key as [[]|]; by eauto| |done].
  rewrite !andb_true_iff. intros [_ Hms]. apply forallb_Forall in Hms.
  assert (∃ l, mapM_res collect_witness_keys ms = Ok l) as [l ->]; [|by eauto].
  induction ms as [|m ms IHms]; cbn; [by eauto|]. apply Forall_cons in IH as [Hm IH], Hms as [Hm' Hms].
  destruct (Hm Hm') as [k ->]. destruct (IHms IH Hms) as [l ->]. cbn. eauto.
Qed.

Lemma omap_count (ms : list C2spTlogQuorumRule) (results : list (option (list Z))) (f : C2spTlogQuorumRule → bool) :
  Forall2 (λ m r, is_Some r ↔ f m = true) ms results → len (omap id results) = len (List.filter f ms).
Proof.
  induction 1 as [|m r ms rs Hm _ IH]; [done|].
  destruct r as [r|], (f m) eqn:Hf; cbn; rewrite ?Hf, ?len_cons, ?IH; try done.
  - exfalso. destruct Hm as [H1 _]. discriminate H1; eauto.
  - exfalso. destruct Hm as [_ H2]. by destruct (H2 eq_refl).
Qed.

Lemma eval_nested kind key t ms :
  kind ≠ Knone → kind ≠ Kwitness →
  eval (Rule kind key t ms) = (results ← mapM_res eval ms; Ok (select_members t results)).
Proof. by destruct kind. Qed.

Lemma collect_nested kind key t ms ks :
  kind ≠ Knone → kind ≠ Kwitness → collect_witness_keys (Rule kind key t ms) = Ok ks →
  ∃ kss, Forall2 (λ m k, collect_witness_keys m = Ok k) ms kss ∧ ks = concat kss.
Proof.
  intros H1 H2 H. destruct kind; try done; cbn in H; res_inv;
    (eexists; split; [by apply mapM_res_Ok|done]).
Qed.

(** A rule whose witness keys can be collected evaluates to the value of its
    predicate on the valid witnesses. *)
Lemma eval_holds rule ks :
  collect_witness_keys rule = Ok ks →
  ∃ r, eval rule = Ok r ∧ (is_Some r ↔ quorum_holds witness_valid rule = true).
Proof.
  revert ks. induction rule as [kind key t ms IH] using rule_nested_ind. intros ks Hks.
  destruct (decide (kind = Knone)) as [->|Hn]; [by eexists|].
  destruct (decide (kind = Kwitness)) as [->|Hw].
  { destruct key as [[k|]|]; cbn in Hks |- *; try done. eexists; split; [done|].
    unfold witness_valid. by rewrite bool_decide_eq_true. }
  rewrite eval_nested by done. apply collect_nested in Hks as (kss & Hkss & ->); [|done..].
  assert (∃ rs, Forall2 (λ m r, eval m = Ok r) ms rs
            ∧ Forall2 (λ m r, is_Some r ↔ quorum_holds witness_valid m = true) ms rs) as (rs & Hrs & Hh).
  { clear Hn Hw. induction Hkss as [|m k ms kss Hm _ IHm]; [by exists []|].
    apply Forall_cons in IH as [IH1 IH2]. destruct (IH1 k Hm) as (r & Hr & Hr').
    destruct (IHm IH2) as (rs & Hrs & Hrs'). exists (r :: rs).
    split; by constructor. }
  rewrite (proj2 (mapM_res_Ok _ _ _) Hrs). eexists; split; [done|].
  unfold select_members. rewrite (omap_count _ _ _ Hh).
  assert (quorum_holds witness_valid (Rule kind key t ms)
          = (t <=? len (List.filter (quorum_holds witness_valid) ms))) as -> by (by destruct kind).
  destruct (Z.ltb_spec (len (List.filter (quorum_holds witness_valid) ms)) t) as [Hlt|Hge].
  - rewrite Z.leb_le. split; [by intros []|lia].
  - rewrite Z.leb_le. split; [lia|by eauto].
Qed.

(** The witnesses behind a result: their timestamps are the result, they are
    among the rule's keys, each is valid, and they satisfy the rule by
    themselves. *)
Definition certificate (rule : C2spTlogQuorumRule) (ks : list SignedNoteKey)
    (ts : list Z) (ws : list (SignedNoteKey * Z)) : Prop :=
  ws.*2 = ts ∧ ws.*1 ⊆+ ks ∧ Forall (λ '(k, t), eval_witness k = Some [t]) ws
  ∧ quorum_holds (λ k, bool_decide (k ∈ ws.*1)) rule = true.

Lemma members_certificates ms kss results :
  Forall2 (λ m ks, collect_witness_keys m = Ok ks) ms kss →
  Forall2 (λ m r, eval m = Ok r) ms results →
  Forall (λ m, ∀ ks ts, collect_witness_keys m = Ok ks → eval m = Ok (Some ts) →
                ∃ ws, certificate m ks ts ws) ms →
  ∃ sat : list (C2spTlogQuorumRule * list (SignedNoteKey * Z)),
    sat.*1 ⊆+ ms ∧ omap id results = (λ x, x.2.*2) <$> sat
    ∧ concat ((λ x, x.2.*1) <$> sat) ⊆+ concat kss
    ∧ Forall (λ '(m, ws), Forall (λ '(k, t), eval_witness k = Some [t]) ws
                          ∧ quorum_holds (λ k, bool_decide (k ∈ ws.*1)) m = true) sat.
Proof.
  intros Hks. revert results. induction Hks as [|m ks ms kss Hm _ IH]; intros results Hrs Hall.
  - inversion Hrs; subst. by exists [].
  - inversion Hrs as [|? r ? rs Hr Hrs']; subst. apply Forall_cons in Hall as [Hc Hall].
    destruct (IH rs Hrs' Hall) as (sat & Hsub & Hres & Hkeys & Hsat).
    destruct r as [ts|].
    + destruct (Hc ks ts Hm Hr) as (ws & Hts & Hws & Hval & Hh).
      exists ((m, ws) :: sat). cbn. rewrite Hres, Hts. split_and!; try done.
      * by apply submseteq_skip.
      * by apply submseteq_app.
      * by constructor.
    + exists sat. cbn. split_and!; try done.
      * by apply submseteq_cons.
      * by apply submseteq_inserts_l.
Qed.

(** Choosing the latest satisfied members keeps a certificate. *)
Lemma select_certificate key t ms kss (sat : list (C2spTlogQuorumRule * list (SignedNoteKey * Z))) ts :
  1 ≤ t → sat.*1 ⊆+ ms → concat ((λ x, x.2.*1) <$> sat) ⊆+ concat kss →
  Forall (λ '(m, ws), Forall (λ '(k, t), eval_witness k = Some [t]) ws
                      ∧ quorum_holds (λ k, bool_decide (k ∈ ws.*1)) m = true) sat →
  t ≤ len sat → ts = concat (prefix_slice t (sort_desc ((λ x, x.2.*2) <$> sat))) →
  ∃ ws, certificate (Rule Kthreshold key t ms) (concat kss) ts ws.
Proof.
  intros Ht Hsub Hkeys Hsat Hge ->.
  pose proof (sort_desc_perm ((λ x, x.2.*2) <$> sat)) as Hperm.
  apply Permutation_map_inv in Hperm as (sat' & -> & Hperm).
  rewrite prefix_slice_take by lia. rewrite firstn_map.
  set (sel := take (Z.to_nat t) sat').
  assert (sel ⊆+ sat) as Hsel by (rewrite Hperm; apply take_submseteq).
  exists (concat sel.*2). split_and!.
  - rewrite fmap_concat. f_equal. by rewrite <- list_fmap_compose.
  - rewrite fmap_concat, <- list_fmap_compose. etrans; [|exact Hkeys].
    apply concat_submseteq. by apply fmap_submseteq.
  - apply Forall_mjoin, Forall_fmap. apply (submseteq_Forall _ _ sat); [done|].
    eapply Forall_impl; [exact Hsat|]. by intros [m ws] [? _].
  - cbn. apply Z.leb_le. trans (len sel.*1).
    { unfold len in *. rewrite length_fmap in *. unfold sel. rewrite length_take.
      rewrite (Permutation_length Hperm) in Hge. lia. }
    assert (sel.*1 ⊆+ ms) as Hms by (etrans; [by apply fmap_submseteq|done]).
    etrans; [|by apply filter_submseteq, Hms]. rewrite filter_all; [done|].
    apply Forall_fmap, Forall_forall. intros [m ws] Hin. cbn.
    assert ((m, ws) ∈ sat) as Hin' by (by eapply elem_of_submseteq).
    rewrite Forall_forall in Hsat. destruct (Hsat _ Hin') as [_ Hh].
    eapply quorum_holds_mono; [|exact Hh]. intros k. rewrite !bool_decide_eq_true.
    rewrite !list_elem_of_fmap. intros (x & -> & Hx). exists x. split; [done|].
    apply list_elem_of_In, in_concat. exists ws. split; [|by apply list_elem_of_In].
    apply list_elem_of_In, list_elem_of_fmap. by exists (m, ws).
Qed.

Lemma eval_certificate rule ks ts :
  collect_witness_keys rule = Ok ks → normalized rule = true → eval rule = Ok (Some ts) →
  ∃ ws, certificate rule ks ts ws.
Proof.
  revert ks ts. induction rule as [kind key t ms IH] using rule_nested_ind. intros ks ts Hks Hn Hev.
  destruct kind as [| | |k]; [..|done].
  - cbn in Hev, Hks. injection Hev as <-. injection Hks as <-. exists []. by split_and!.
  - destruct key as [[k|]|]; cbn in Hks, Hev; try done. injection Hks as <-. injection Hev as Hev.
    assert (∃ z, ts = [z]) as [z ->].
    { unfold evaluate_witness in Hev. repeat case_match; simplify_eq. eauto. }
    exists [(k, z)]. split_and!; [done..|by repeat constructor|].
    by apply bool_decide_eq_true, list_elem_of_singleton.
  - apply collect_nested in Hks as (kss & Hkss & ->); [|done..].
    rewrite eval_nested in Hev by done. apply bind_Ok in Hev as (rs & Hrs & Hev).
    apply mapM_res_Ok in Hrs. cbn in Hn. rewrite !andb_true_iff, !Z.leb_le in Hn.
    destruct Hn as [[Ht _] Hn]. apply forallb_Forall in Hn.
    destruct (members_certificates ms kss rs Hkss Hrs) as (sat & Hsub & Hres & Hkeys & Hsat).
    { clear -IH Hn. induction IH as [|m ms Hm _ IHm]; [done|]. apply Forall_cons in Hn as [Hn1 Hn2].
      constructor; [|by apply IHm]. intros. by apply Hm. }
    injection Hev as Hev. unfold select_members in Hev. rewrite Hres in Hev.
    destruct (Z.ltb_spec (len ((λ x, x.2.*2) <$> sat)) t) as [|Hge]; [done|]. injection Hev as <-.
    eapply select_certificate; try done. unfold len in *. by rewrite length_fmap in Hge.
Qed.

(** Without [none] nodes, at least as many witnesses as the top threshold
    asks for are valid. *)
Lemma holds_count valid rule ks :
  collect_witness_keys rule = Ok ks → normalized rule = true → no_none rule = true →
  quorum_holds valid rule = true →
  1 ≤ top_level_threshold rule ≤ len (List.filter valid ks).
Proof.
  revert ks. induction rule as [kind key t ms IH] using rule_nested_ind. intros ks Hks Hn Hnn Hh.
  destruct kind as [| | |k]; [done|..|done].
  - destruct key as [[k|]|]; cbn in *; try done. injection Hks as <-. cbn. by rewrite Hh.
  - apply collect_nested in Hks as (kss & Hkss & ->); [|done..].
    cbn in Hn, Hnn, Hh. rewrite !andb_true_iff, !Z.leb_le in Hn. destruct Hn as [[Ht _] Hn].
    apply Z.leb_le in Hh. apply forallb_Forall in Hn, Hnn. unfold top_level_threshold. cbn.
    split; [done|]. etrans; [exact Hh|]. clear Hh Ht.
    induction Hkss as [|m ks ms kss Hm _ IHm]; [done|].
    apply Forall_cons in IH as [IH1 IH], Hn as [Hn1 Hn], Hnn as [Hnn1 Hnn].
    specialize (IHm IH Hn Hnn). cbn. rewrite List.filter_app, len_app.
    pose proof (len_nonneg (List.filter valid ks)).
    destruct (quorum_holds valid m) eqn:Hv; [|lia].
    specialize (IH1 ks Hm Hn1 Hnn1 eq_refl). rewrite len_cons. lia.
Qed.
End evaluation.

(** ** Normalized policies *)
Lemma existsb_false {A} (f : A → bool) l : existsb f l = false ↔ Forall (λ x, f x = false) l.
Proof.
  induction l as [|x l IH]; cbn; [by split|]. rewrite orb_false_iff, Forall_cons, IH. done.
Qed.

Lemma existsb_negb_false {A} (f : A → bool) l :
  existsb (λ x, negb (f x)) l = false ↔ Forall (λ x, f x = true) l.
Proof. rewrite existsb_false. by setoid_rewrite negb_false_iff. Qed.

(** What [normalized_origin_policy] establishes about its result. *)
Record wf_origin_policy (origin : str) (p : NormalizedOriginPolicy) : Prop := {
  wf_log_nonempty : n_log_keys p ≠ [];
  wf_log_name : Forall (λ k, key_name k = origin) (n_log_keys p);
  wf_log_type : Forall (λ k, is_log_type k = true) (n_log_keys p);
  wf_log_distinct : NoDup (key_identity <$> n_log_keys p);
  wf_collect : collect_witness_keys (n_quorum_rule p) = Ok (n_witness_keys p);
  wf_normalized : normalized (n_quorum_rule p) = true;
  wf_quorum : n_quorum p = top_level_threshold (n_quorum_rule p);
  wf_witness_type : Forall (λ k, signature_type k = Some [0x04]) (n_witness_keys p);
  wf_witness_distinct : NoDup (key_identity <$> n_witness_keys p);
  wf_disjoint : Forall (λ k, key_identity k ∉ (key_identity <$> n_log_keys p)) (n_witness_keys p)
}.

Lemma assert_distinct_Ok keys u : assert_distinct_underlying_keys keys = Ok u ↔ NoDup (key_identity <$> keys).
Proof.
  unfold assert_distinct_underlying_keys. rewrite raise_if_Ok, negb_false_iff. apply bool_decide_eq_true.
Qed.

Lemma shares_identity_false logs keys :
  shares_identity logs keys = false ↔ Forall (λ k, key_identity k ∉ (key_identity <$> logs)) keys.
Proof.
  unfold shares_identity. rewrite existsb_false. by setoid_rewrite bool_decide_eq_false.
Qed.

Lemma normalized_wf policy origin p :
  normalized_origin_policy policy origin = Ok p → wf_origin_policy origin p.
Proof.
  intros H. unfold normalized_origin_policy in H. destruct (dict_get _ _) as [q|]; [|done]. res_inv.
  repeat match goal with
  | H : assert_distinct_underlying_keys _ = Ok _ |- _ => apply assert_distinct_Ok in H
  | H : shares_identity _ _ = false |- _ => apply shares_identity_false in H
  | H : existsb (λ x, negb _) _ = false |- _ => rewrite existsb_negb_false in H
  end.
  constructor; cbn; try done.
  - by rewrite <- eqb_false.
  - match goal with H : Forall (λ k, (key_name k ==? _) = true) _ |- _ =>
      eapply Forall_impl; [exact H|] end.
    intros k Hk. by rewrite eqb_true in Hk.
  - by eapply normalize_normalized.
  - match goal with H' : Forall (λ k, is_cosig_type k = true) ?ks |- Forall _ ?ks =>
      eapply Forall_impl; [exact H'|] end.
    intros k Hk. unfold is_cosig_type in Hk. by rewrite eqb_true in Hk.
Qed.

(** Normalization of a policy yields at least one log key, all log keys
    named by the origin with log signature type, witness keys of cosignature
    type that are exactly the keys of the quorum rule, thresholds between one
    and the number of members at every level of the rule, and no public key
    used twice, neither within a group nor as both log and witness. *)
Theorem normalized_origin_policy_wf (policy : C2spTlogPolicy) (origin : str)
    (p : NormalizedOriginPolicy) (H : normalized_origin_policy policy origin = Ok p) :
  wf_origin_policy origin p.
Proof. by eapply normalized_wf. Qed.

(** ** Enforcement *)
Section enforce.
Context (ed25519_verify : bytes → bytes → bytes → bool).

(** A log signature of [checkpoint] by [key], over the whole signed text. *)
Definition log_signed (checkpoint : Checkpoint) (key : SignedNoteKey) : Prop :=
  ∃ sig, sig ∈ cp_signatures checkpoint ∧ sig_name sig = key_name key
    ∧ key_id_matches sig key = true ∧ len (signature sig) = 64
    ∧ verify_encoded ed25519_verify (key_bytes key) (signature sig) (signed_text checkpoint) = true.

Lemma verify_log_signature checkpoint key :
  is_log_type key = true →
  verify_checkpoint_signature ed25519_verify checkpoint key = true → log_signed checkpoint key.
Proof.
  intros Ht Hv. unfold verify_checkpoint_signature in Hv. apply existsb_exists in Hv as (sig & Hin & Hv).
  rewrite !andb_true_iff, eqb_true in Hv. destruct Hv as [[Hn Hid] Hv]. exists sig.
  rewrite list_elem_of_In. split_and!; try done; unfold verify_note_signature in Hv;
    unfold is_log_type in Ht; destruct (_ || _); try done;
    (destruct (signature_type key) as [t|];
      [rewrite eqb_true in Ht; subst t|]);
    cbn [len length Z.of_nat Pos.of_succ_nat Z.eqb Pos.eqb negb] in Hv;
    destruct (Z.eqb_spec (len (signature sig)) 64); done.
Qed.

(** What an accepted checkpoint comes with: a log signature by a key of the
    policy, and distinct witnesses, none of them a log key, whose valid and
    timely cosignatures carry the reported timestamps and satisfy the quorum
    rule by themselves. *)
Record policy_evidence (checkpoint : Checkpoint) (origin scope : str) (now_ms skew : Z)
    (p : NormalizedOriginPolicy) (accepted : list Z) : Prop := {
  ev_log : ∃ k, k ∈ n_log_keys p ∧ key_name k = origin
    ∧ (scope = public → signature_type k = Some [0x01]) ∧ log_signed checkpoint k;
  ev_witnesses : ∃ ws : list (SignedNoteKey * Z),
    ws.*2 = accepted ∧ NoDup (key_identity <$> ws.*1)
    ∧ Forall (λ '(k, t), k ∈ n_witness_keys p ∧ (key_identity k ∉ (key_identity <$> n_log_keys p))
                ∧ cosigned ed25519_verify checkpoint k t ∧ t * 1000 ≤ now_ms + skew) ws
    ∧ quorum_holds (λ k, bool_decide (k ∈ ws.*1)) (n_quorum_rule p) = true;
  ev_count : no_none (n_quorum_rule p) = true →
    1 ≤ n_quorum p ≤ len accepted
}.

Lemma evaluate_witness_Some checkpoint now skew k t :
  evaluate_witness ed25519_verify checkpoint now skew k = Some [t] →
  cosigned ed25519_verify checkpoint k t ∧ t * 1000 ≤ now + skew.
Proof.
  unfold evaluate_witness, fresh.
  destruct (verified_cosignature_timestamp _ _ _) as [t'|] eqn:Hc; [|done].
  destruct (Z.leb_spec (t' * 1000) (now + skew)); [|done]. intros [= <-].
  split; [|done]. by apply timestamp_cosigned in Hc as [_ Hc].
Qed.

Lemma wf_evidence checkpoint origin now skew p ts :
  wf_origin_policy origin p →
  evaluate_quorum ed25519_verify checkpoint now skew (n_quorum_rule p) = Ok (Some ts) →
  (∃ ws : list (SignedNoteKey * Z),
    ws.*2 = ts ∧ NoDup (key_identity <$> ws.*1)
    ∧ Forall (λ '(k, t), k ∈ n_witness_keys p ∧ (key_identity k ∉ (key_identity <$> n_log_keys p))
                ∧ cosigned ed25519_verify checkpoint k t ∧ t * 1000 ≤ now + skew) ws
    ∧ quorum_holds (λ k, bool_decide (k ∈ ws.*1)) (n_quorum_rule p) = true)
  ∧ (no_none (n_quorum_rule p) = true → 1 ≤ n_quorum p ≤ len ts).
Proof.
  intros Hwf Hev.
  destruct (eval_certificate _ _ _ _ _ _ _ (wf_collect _ _ Hwf) (wf_normalized _ _ Hwf) Hev)
    as (ws & Hts & Hsub & Hval & Hh).
  assert (NoDup (key_identity <$> ws.*1)) as Hnd.
  { eapply submseteq_NoDup; [by apply fmap_submseteq|]. apply (wf_witness_distinct _ _ Hwf). }
  split.
  - exists ws. split_and!; try done. rewrite Forall_forall in Hval |- *. intros [k t] Hin.
    destruct (evaluate_witness_Some _ _ _ _ _ (Hval _ Hin)) as [Hc Ht].
    assert (k ∈ n_witness_keys p) as Hk.
    { eapply elem_of_submseteq; [|exact Hsub]. apply list_elem_of_fmap. by exists (k, t). }
    split_and!; try done. pose proof (wf_disjoint _ _ Hwf) as Hd. rewrite Forall_forall in Hd. by apply Hd.
  - intros Hnn. rewrite (wf_quorum _ _ Hwf).
    pose proof (holds_count _ _ _ (wf_collect _ _ Hwf) (wf_normalized _ _ Hwf) Hnn Hh) as [H1 H2].
    split; [done|]. etrans; [exact H2|]. rewrite <- Hts. unfold len. rewrite length_fmap.
    rewrite <- (length_fmap fst ws). apply inj_le, NoDup_incl_length.
    + apply List.NoDup_filter, NoDup_ListNoDup.
      eapply NoDup_fmap_1, (wf_witness_distinct _ _ Hwf).
    + intros k Hk. apply filter_In in Hk as [_ Hk]. apply bool_decide_eq_true in Hk.
      by apply list_elem_of_In.
Qed.

Lemma enforce_Ok checkpoint origin policy scope now skew r :
  enforce_checkpoint_policy ed25519_verify checkpoint origin policy scope now skew = Ok r →
  ∃ p, normalized_origin_policy policy origin = Ok p
    ∧ cp_origin checkpoint = origin
    ∧ (cp_tree_size checkpoint = 0 → cp_root_hash checkpoint = sha256 [])
    ∧ (scope = public → kind_of (n_quorum_rule p) ≠ Knone)
    ∧ policy_evidence checkpoint origin scope now skew p (accepted_witness_timestamps r)
    ∧ checkpoint_witness_time r = sort_key (accepted_witness_timestamps r).
Proof.
  unfold enforce_checkpoint_policy. intros H.
  guard_step H as Hskew. guard_step H as Hscope. guard_step H as Ho. guard_step H as Hempty.
  bind_step H as p Hp. guard_step H as Hlog. guard_step H as Hpub. bind_step H as acc Hev.
  destruct acc as [ts|]; [|done]. bind_step H as time Ht. injection H as <-. cbn.
  pose proof (normalized_wf _ _ _ Hp) as Hwf. exists p. split; [done|].
  rewrite negb_false_iff, eqb_true in Ho. split; [done|].
  destruct (wf_evidence _ _ _ _ _ _ Hwf Hev) as [Hws Hcount]. split_and!.
  - intros H0. rewrite H0 in Hempty. cbn in Hempty. by rewrite negb_false_iff, eqb_true in Hempty.
  - intros -> Hk. rewrite Hk, !eqb_refl in Hpub. done.
  - constructor; [|done..]. rewrite negb_false_iff in Hlog. apply existsb_exists in Hlog as (k & Hin & Hk).
    rewrite <- list_elem_of_In in Hin. exists k.
    assert (k ∈ n_log_keys p ∧ (scope = public → signature_type k = Some [0x01])) as [Hin' Hsc].
    { destruct (scope ==? public) eqn:Hs; [|rewrite eqb_false in Hs; done].
      apply list_elem_of_filter in Hin as [??]. by split. }
    pose proof (wf_log_name _ _ Hwf) as Hname. pose proof (wf_log_type _ _ Hwf) as Hty.
    rewrite Forall_forall in Hname, Hty. split_and!; auto. apply verify_log_signature; auto.
  - unfold witness_time in Ht. destruct (sort_key ts) as [t|]; res_inv; done.
Qed.

Lemma foldl_min_le ts t : foldl Z.min t ts ≤ t.
Proof. revert t. induction ts as [|u ts IH]; intros t; cbn; [lia|]. specialize (IH (t `min` u)). lia. Qed.

Lemma witness_time_Ok checkpoint origin now skew p ts :
  wf_origin_policy origin p →
  evaluate_quorum ed25519_verify checkpoint now skew (n_quorum_rule p) = Ok (Some ts) →
  now + skew < (max_datetime_seconds + 1) * 1000 → ∃ time, witness_time ts = Ok time.
Proof.
  intros Hwf Hev Hnow. unfold witness_time. destruct ts as [|t ts]; cbn [sort_key]; [by eauto|].
  destruct (wf_evidence _ _ _ _ _ _ Hwf Hev) as [(ws & Hts & _ & Hall & _) _].
  destruct ws as [|[k t'] ws]; [done|]. injection Hts as -> _.
  apply Forall_cons in Hall as [(_ & _ & _ & Ht) _]. pose proof (foldl_min_le ts t).
  destruct (Z.ltb_spec max_datetime_seconds (foldl Z.min t ts)); [lia|]. cbn. eauto.
Qed.

(** C20 A checkpoint is accepted only with sufficient evidence: it is for the
    origin asked for, an empty tree has the empty root, one of the policy's log
    keys signed its whole text (in public scope a key of explicit log type),
    and distinct witnesses, none sharing a public key with a log key, cosigned
    it at the reported times, none later than the clock plus the skew.  Those
    witnesses alone satisfy the quorum rule, and when the rule has no [none]
    node they are at least as many as its top-level threshold.  The reported
    time is the earliest of theirs. *)
Theorem enforce_checkpoint_policy_sound (checkpoint : Checkpoint) (origin : str)
    (policy : C2spTlogPolicy) (scope : str) (now_ms skew : Z) (r : CheckpointPolicyResult)
    (H : enforce_checkpoint_policy ed25519_verify checkpoint origin policy scope now_ms skew = Ok r) :
  ∃ p, normalized_origin_policy policy origin = Ok p
    ∧ cp_origin checkpoint = origin
    ∧ (cp_tree_size checkpoint = 0 → cp_root_hash checkpoint = sha256 [])
    ∧ (scope = public → kind_of (n_quorum_rule p) ≠ Knone)
    ∧ policy_evidence checkpoint origin scope now_ms skew p (accepted_witness_timestamps r)
    ∧ checkpoint_witness_time r = sort_key (accepted_witness_timestamps r).
Proof. by apply enforce_Ok. Qed.

(** Sufficient evidence is accepted: a signature by one of the log keys and
    a quorum of witnesses with valid cosignatures that are not from the future
    pass, for every quorum rule and in both scopes, while the clock is within
    the range of [datetime]. *)
Theorem enforce_checkpoint_policy_complete (checkpoint : Checkpoint) (origin : str)
    (policy : C2spTlogPolicy) (scope : str) (now_ms skew : Z) (p : NormalizedOriginPolicy)
    (k : SignedNoteKey)
    (Hp : normalized_origin_policy policy origin = Ok p)
    (Hskew : 0 ≤ skew) (Hclock : now_ms + skew < (max_datetime_seconds + 1) * 1000)
    (Hscope : match policy_scope policy with Some s => s = scope | None => True end)
    (Ho : cp_origin checkpoint = origin)
    (Hempty : cp_tree_size checkpoint = 0 → cp_root_hash checkpoint = sha256 [])
    (Hk : k ∈ n_log_keys p) (Hkp : scope = public → signature_type k = Some [0x01])
    (Hsig : verify_checkpoint_signature ed25519_verify checkpoint k = true)
    (Hnone : scope = public → kind_of (n_quorum_rule p) ≠ Knone)
    (Hq : quorum_holds (witness_valid ed25519_verify checkpoint now_ms skew) (n_quorum_rule p) = true) :
  ∃ r, enforce_checkpoint_policy ed25519_verify checkpoint origin policy scope now_ms skew = Ok r.
Proof.
  pose proof (normalized_wf _ _ _ Hp) as Hwf.
  destruct (eval_holds ed25519_verify checkpoint now_ms skew _ _ (wf_collect _ _ Hwf)) as (r & Hr & Hrs).
  apply Hrs in Hq as [ts ->]. destruct (witness_time_Ok _ _ _ _ _ _ Hwf Hr Hclock) as [time Ht].
  unfold enforce_checkpoint_policy. rewrite Hp.
  assert ((skew <? 0) = false) as -> by (by apply Z.ltb_ge).
  assert (match policy_scope policy with Some s => negb (s ==? scope) | None => false end = false) as ->
    by (destruct (policy_scope policy); [subst; by rewrite eqb_refl|done]).
  rewrite Ho, eqb_refl.
  assert ((cp_tree_size checkpoint =? 0) && negb (cp_root_hash checkpoint ==? sha256 []) = false) as ->.
  { destruct (Z.eqb_spec (cp_tree_size checkpoint) 0) as [H0|]; [|done].
    rewrite (Hempty H0), eqb_refl. done. }
  cbn [negb raise_if mbind result_bind].
  assert (existsb (verify_checkpoint_signature ed25519_verify checkpoint)
    (if scope ==? public then filter (λ k, signature_type k = Some [0x01]) (n_log_keys p)
     else n_log_keys p) = true) as ->.
  { apply existsb_exists. exists k. split; [|done]. apply list_elem_of_In.
    destruct (scope ==? public) eqn:Hs; [|done]. rewrite eqb_true in Hs.
    apply list_elem_of_filter. auto. }
  assert ((scope ==? public) && (kind_of (n_quorum_rule p) ==? Knone) = false) as ->.
  { destruct (scope ==? public) eqn:Hs; [|done]. rewrite eqb_true in Hs. apply eqb_false. auto. }
  cbn [negb raise_if mbind result_bind]. rewrite Hr. cbn. rewrite Ht. cbn. eauto.
Qed.
End enforce.

(** ** Policies read from text *)
Lemma normalize_no_none rule rule' :
  normalize_quorum_rule rule = Ok rule' → no_none rule = true → no_none rule' = true.
Proof.
  revert rule'. induction rule as [kind key t ms IH] using rule_nested_ind. intros rule' H Hn.
  destruct kind; cbn in H; [by injection H as <-| | |done].
  - destruct key as [kr|]; [|done]. bind_step H as k Hk. by injection H as <-.
  - guard_step H as Ht. bind_step H as ms' Hms. injection H as <-. apply mapM_res_Ok in Hms.
    cbn in Hn |- *. apply forallb_Forall in Hn. apply forallb_Forall.
    revert IH Hn. clear Ht. induction Hms as [|m m' ms ms' Hm _ IHm]; intros IH Hn; [constructor|].
    apply Forall_cons in IH as [IH1 IH], Hn as [Hn1 Hn]. constructor; auto.
Qed.

Lemma normalize_none rule : normalize_quorum_rule rule_none = Ok rule → rule = rule_none.
Proof. by intros [= <-]. Qed.

Lemma dict_get_elem {A} k (d : list (str * A)) v : dict_get k d = Some v → (k, v) ∈ d.
Proof.
  induction d as [|[k' v'] d IH]; cbn; [done|]. destruct (k' ==? k) eqn:Hk; [|right; auto].
  rewrite eqb_true in Hk. intros [= ->]. subst. by left.
Qed.

Lemma dict_set_Forall {A} (P : str * A → Prop) k v d :
  P (k, v) → Forall P d → Forall P (dict_set k v d).
Proof. intros Hv. induction 1 as [|[k' v'] d Hp Hd IH]; cbn; [by constructor|]. case_match; by constructor. Qed.

Definition rule_ok (r : C2spTlogQuorumRule) : Prop := no_none r = true ∧ normalized r = true.

(** What every prefix of the policy text has established. *)
Record ps_ok (st : policy_state) : Prop := {
  ok_rules : Forall (λ x, rule_ok x.2) (ps_rules st);
  ok_quorum : ∀ r, ps_quorum_rule st = Some r → r = rule_none ∨ rule_ok r
}.

Lemma get_rule_ok msg st name r : ps_ok st → get_rule msg st name = Ok r → rule_ok r.
Proof.
  unfold get_rule. intros [Hr _]. destruct (dict_get _ _) eqn:Hd; [|done]. intros [= <-].
  apply dict_get_elem in Hd. rewrite Forall_forall in Hr. by apply (Hr _ Hd).
Qed.

Lemma group_ok st ms names t :
  ps_ok st → mapM_res (get_rule "group references unknown preceding witness or group" st) names = Ok ms →
  1 ≤ t ≤ len ms → rule_ok (rule_threshold t ms).
Proof.
  intros Hok Hms Ht. apply mapM_res_Ok in Hms.
  assert (Forall rule_ok ms) as Hall.
  { clear Ht. induction Hms; constructor; [by eapply get_rule_ok|done]. }
  unfold rule_ok in *. apply Forall_and in Hall as [H1 H2].
  split; cbn; [by apply forallb_Forall|].
  apply forallb_Forall in H2. rewrite H2, !andb_true_iff, !Z.leb_le. done.
Qed.

Lemma policy_directive_ok st directive parts st' :
  ps_ok st → policy_directive st directive parts = Ok st' → ps_ok st'.
Proof.
  intros Hok H. pose proof Hok as [Hr Hq].
  assert (∀ a b, witness_directive st a b = Ok st' → ps_ok st') as Hwit.
  { unfold witness_directive. intros a b Hw. res_inv. constructor; cbn; [|done].
    by apply dict_set_Forall. }
  assert (∀ a, log_directive st a = Ok st' → ps_ok st') as Hlog.
  { unfold log_directive. intros a Hl. res_inv. by constructor. }
  assert (∀ a, quorum_directive st a = Ok st' → ps_ok st') as Hquo.
  { unfold quorum_directive. intros a Hl. guard_step Hl as Hn. bind_step Hl as r Hrule.
    injection Hl as <-. constructor; cbn; [done|]. intros r' [= <-].
    case_match; [left; by injection Hrule as <-|]. right. by eapply get_rule_ok. }
  assert (∀ a b c, group_directive st a b c = Ok st' → ps_ok st') as Hgrp.
  { unfold group_directive. intros a b c Hg. bind_step Hg as [] Hnew. guard_step Hg as Hnd.
    bind_step Hg as ms Hms. bind_step Hg as t Ht. guard_step Hg as Hrange. injection Hg as <-.
    constructor; cbn; [|done]. apply dict_set_Forall; [|done]. cbn. eapply group_ok; try done.
    rewrite orb_false_iff, !Z.ltb_ge in Hrange. lia. }
  unfold policy_directive in H. repeat case_match; eauto; done.
Qed.

Lemma policy_line_ok st raw st' : ps_ok st → policy_line st raw = Ok st' → ps_ok st'.
Proof.
  unfold policy_line. intros Hok H.
  destruct (_ || _); [by injection H as <-|].
  destruct (split_runs _ _) as [|d parts]; [done|].
  destruct (policy_directive st d parts) as [st1|] eqn:Hd; [|done].
  injection H as <-. by eapply policy_directive_ok.
Qed.

Lemma policy_lines_ok lines st st' : ps_ok st → foldM_res policy_line lines st = Ok st' → ps_ok st'.
Proof.
  revert st. induction lines as [|l lines IH]; cbn; intros st Hok H; [by injection H as <-|].
  bind_step H as st1 H1. eapply IH; [|done]. by eapply policy_line_ok.
Qed.

(** The shape of an origin's policy in a parsed file. *)
Definition parsed_origin_ok (x : str * C2spTlogOriginPolicy) : Prop :=
  log_keys x.2 ≠ []
  ∧ Forall (λ k, ∃ k', k = KeyObject k' ∧ key_name k' = x.1 ∧ is_log_type k' = true) (log_keys x.2)
  ∧ (∃ r, quorum_rule x.2 = Some r ∧ (r = rule_none ∨ rule_ok r))
  ∧ unchained x.2 = false.

Lemma add_log_ok ws q r d k :
  r = rule_none ∨ rule_ok r → is_log_type k = true →
  Forall parsed_origin_ok d → Forall parsed_origin_ok (add_log ws q r d k).
Proof.
  intros Hr Hk Hd. unfold add_log. destruct (dict_get _ _) as [c|] eqn:Hc.
  - apply dict_get_elem in Hc. assert (Hd' := Hd). rewrite Forall_forall in Hd'.
    destruct (Hd' _ Hc) as (Hn & Hl & Hq & Hu). apply dict_set_Forall; [|done]. cbn in *.
    split_and!; try done; [by destruct (log_keys c)|].
    apply Forall_app. split; [done|]. repeat constructor. by exists k.
  - apply dict_set_Forall; [|done]. split_and!; cbn; [done|repeat constructor; by exists k| |done].
    by exists r.
Qed.

Lemma parse_policy_ok text policy :
  parse_c2sp_policy_file text = Ok policy →
  policy_scope policy = None ∧ Forall parsed_origin_ok (origins policy).
Proof.
  unfold parse_c2sp_policy_file. intros H. bind_step H as [] Hchars. bind_step H as st Hst.
  apply policy_lines_ok in Hst as [_ Hq]; [|by constructor]. destruct (ps_quorum_rule st) as [r|]; [|done].
  specialize (Hq r eq_refl). guard_step H as H1. guard_step H as Hlogs.
  repeat (bind_step H as [] ?). injection H as <-. cbn. split; [done|].
  rewrite existsb_negb_false in Hlogs. revert Hlogs. generalize (@Forall_nil_2 _ parsed_origin_ok).
  generalize (@nil (str * C2spTlogOriginPolicy)) as d. generalize (ps_logs st) as logs.
  induction logs as [|k logs IH]; cbn; intros d Hd Hlogs; [done|].
  apply Forall_cons in Hlogs as [Hk Hlogs]. apply IH; [|done]. by apply add_log_ok.
Qed.

(** Every policy read from text is well formed: each origin has log keys,
    all named by the origin and of log type, and a quorum rule that is [none]
    itself or has no [none] node at any level and thresholds in range. *)
Theorem parse_c2sp_policy_file_ok (text : str) (policy : C2spTlogPolicy)
    (H : parse_c2sp_policy_file text = Ok policy) :
  Forall parsed_origin_ok (origins policy).
Proof. by apply parse_policy_ok in H as [_ H]. Qed.

(** In public scope, a policy read from text accepts no checkpoint without
    witnesses: at least as many distinct valid cosignatures as the top-level
    threshold of its quorum rule, and at least one, were counted. *)
Theorem public_text_policy_witnessed (ed25519_verify : bytes → bytes → bytes → bool)
    (text : str) (policy : C2spTlogPolicy) (checkpoint : Checkpoint) (origin : str)
    (now_ms skew : Z) (r : CheckpointPolicyResult)
    (Htext : parse_c2sp_policy_file text = Ok policy)
    (H : enforce_checkpoint_policy ed25519_verify checkpoint origin policy public now_ms skew = Ok r) :
  ∃ p, normalized_origin_policy policy origin = Ok p
    ∧ 1 ≤ n_quorum p ≤ len (accepted_witness_timestamps r)
    ∧ policy_evidence ed25519_verify checkpoint origin public now_ms skew p
        (accepted_witness_timestamps r).
Proof.
  apply parse_policy_ok in Htext as [_ Hok].
  apply enforce_Ok in H as (p & Hp & _ & _ & Hkind & Hev & _). exists p. split; [done|]. split; [|done].
  apply (ev_count _ _ _ _ _ _ _ _ Hev). specialize (Hkind eq_refl). revert Hkind.
  unfold normalized_origin_policy in Hp. destruct (dict_get _ _) as [q|] eqn:Hq; [|done].
  apply dict_get_elem in Hq. rewrite Forall_forall in Hok.
  destruct (Hok _ Hq) as (_ & _ & (rule & Hrule & Hr) & _). cbn in Hrule. res_inv. intros Hkind.
  rewrite Hrule in *. cbn [default] in *.
  match goal with H : normalize_quorum_rule _ = Ok _ |- _ => rename H into Hnorm end.
  destruct Hr as [->|[Hr _]]; [|by eapply normalize_no_none].
  apply normalize_none in Hnorm. subst. done.
Qed.

(** ** Witnesses

    A two-witness policy text, and a checkpoint of five entries signed by the
    log and by one of the witnesses. *)
Definition demo_vkey (k : SignedNoteKey) : str :=
  key_name k ++ lit "+" ++ bytes_hex (default [] (key_id k)) ++ lit "+"
  ++ b64_std_encode (default [] (signature_type k) ++ key_bytes k).

Definition demo_policy_text (threshold : str) : str :=
  lit "log " ++ demo_vkey demo_log_key ++ [10]
  ++ lit "witness w1 " ++ demo_vkey (demo_witness_key 1) ++ [10]
  ++ lit "witness w2 " ++ demo_vkey (demo_witness_key 2) ++ [10]
  ++ lit "group g " ++ threshold ++ lit " w1 w2" ++ [10]
  ++ lit "quorum g" ++ [10].

Definition demo_policy (threshold : str) : C2spTlogPolicy :=
  match parse_c2sp_policy_file (demo_policy_text threshold) with
  | Ok p => p
  | Raise _ => {| origins := []; policy_scope := None |}
  end.

Definition demo_origin : str := lit "log.example".
Definition demo_signed (root : bytes) : Checkpoint := demo_checkpoint 5 root [(1, 1700000000)].
Definition demo_now : Z := 1700000100000.
Definition demo_normalized : NormalizedOriginPolicy :=
  match normalized_origin_policy (demo_policy (lit "any")) demo_origin with
  | Ok p => p
  | Raise _ => {| n_log_keys := []; n_witness_keys := []; n_quorum := 0;
                  n_quorum_rule := rule_none; n_unchained := false |}
  end.

(** One cosignature satisfies "any" and not "all". *)
Example demo_policy_any :
  enforce_checkpoint_policy demo_verify (demo_signed (replicate 32 7)) demo_origin
    (demo_policy (lit "any")) public demo_now 0
  = Ok {| accepted_witness_timestamps := [1700000000]; checkpoint_witness_time := Some 1700000000 |}.
Proof. by vm_compute. Qed.

Example demo_policy_all :
  is_Ok (enforce_checkpoint_policy demo_verify (demo_signed (replicate 32 7)) demo_origin
    (demo_policy (lit "all")) public demo_now 0) = false.
Proof. by vm_compute. Qed.

Lemma normalized_origin_policy_wf_witness : wf_origin_policy demo_origin demo_normalized.
Proof. apply (normalized_origin_policy_wf (demo_policy (lit "any"))). by vm_compute. Defined.

Lemma enforce_checkpoint_policy_sound_witness :
  ∃ p, normalized_origin_policy (demo_policy (lit "any")) demo_origin = Ok p
    ∧ policy_evidence demo_verify (demo_signed (replicate 32 7)) demo_origin public demo_now 0 p
        [1700000000].
Proof.
  destruct (enforce_checkpoint_policy_sound demo_verify (demo_signed (replicate 32 7)) demo_origin
    (demo_policy (lit "any")) public demo_now 0
    {| accepted_witness_timestamps := [1700000000]; checkpoint_witness_time := Some 1700000000 |})
    as (p & Hp & _ & _ & _ & Hev & _).
  - by vm_compute.
  - exists p. by split.
Defined.

Lemma enforce_checkpoint_policy_complete_witness :
  ∃ r, enforce_checkpoint_policy demo_verify (demo_signed (replicate 32 7)) demo_origin
    (demo_policy (lit "any")) public demo_now 0 = Ok r.
Proof.
  apply (enforce_checkpoint_policy_complete demo_verify (demo_signed (replicate 32 7)) demo_origin
    (demo_policy (lit "any")) public demo_now 0 demo_normalized demo_log_key);
    try (by vm_compute); by_decide.
Defined.

Lemma parse_c2sp_policy_file_ok_witness : Forall parsed_origin_ok (origins (demo_policy (lit "2"))).
Proof. apply (parse_c2sp_policy_file_ok (demo_policy_text (lit "2"))). by vm_compute. Defined.

Lemma public_text_policy_witnessed_witness :
  ∃ p, normalized_origin_policy (demo_policy (lit "any")) demo_origin = Ok p ∧ 1 ≤ n_quorum p ≤ 1.
Proof.
  destruct (public_text_policy_witnessed demo_verify (demo_policy_text (lit "any"))
    (demo_policy (lit "any")) (demo_signed (replicate 32 7)) demo_origin demo_now 0
    {| accepted_witness_timestamps := [1700000000]; checkpoint_witness_time := Some 1700000000 |})
    as (p & Hp & Hq & _); [by vm_compute..|]. exists p. by split.
Defined.

(** A policy built in code whose quorum rule is "one of: none". *)
Definition nested_none_policy : C2spTlogPolicy :=
  {| origins := [(demo_origin,
       {| log_keys := [KeyObject demo_log_key]; witness_keys := []; quorum := None;
          quorum_rule := Some (rule_threshold 1 [rule_none]); unchained := false |})];
     policy_scope := None |}.

(** The check that a public policy has a witness quorum looks at the top of
    the rule only: a threshold rule over a [none] member passes it, and a
    checkpoint without any cosignature is accepted in public scope. *)
Theorem nested_none_accepted :
  enforce_checkpoint_policy demo_verify (demo_checkpoint 5 (replicate 32 7) []) demo_origin
    nested_none_policy public demo_now 0
  = Ok {| accepted_witness_timestamps := []; checkpoint_witness_time := None |}.
Proof. by vm_compute. Qed.
