(* ===== verification/TlogProof.v ===== *)
(** * Inclusion proofs of single entries ([c2sp_tlog/proof.py])

    The [tlog-proof@v1] text format and its verification, which combines the
    checkpoint policy with a Merkle inclusion proof. *)
From S2P Require Import Prelude Sha256 Errors PyText Base64 Merkle SignedNote Policy PolicySpec.

Record TlogProofV1 : Set := {
  proof_index : Z;
  hashes : list bytes;
  proof_checkpoint : Checkpoint;
  extra : list str
}.

(** [_B64_RE]: base64 characters and at most two padding characters. *)
Definition is_b64_char (c : Z) : bool := is_alnum c || (c =? 43) || (c =? 47).
Definition match_b64 (s : str) : bool :=
  let rest := lstrip is_b64_char (re_dollar s) in
  (len rest <=? 2) && forallb (Z.eqb 61) rest.

Definition parse_safe_int (s : str) : res Z :=
  raise_if (negb (is_canonical_int s)) (perr "invalid proof index") ;;
  Ok (int_of_canonical s).

(** The optional [extra] line; returns the lines after it. *)
Definition parse_extra (lines : list str) : res (list str * list str) :=
  match lines with
  | l :: rest =>
      if startswith (lit "extra ") l then
        let encoded := drop 6 l in
        raise_if (negb (match_b64 encoded)) (perr "invalid proof extra data") ;;
        Ok ([encoded], rest)
      else Ok ([], lines)
  | [] => Ok ([], [])
  end.

Definition parse_index (lines : list str) : res (Z * list str) :=
  match lines with
  | l :: rest =>
      raise_if (negb (startswith (lit "index ") l)) (perr "tlog proof missing index") ;;
      index ← parse_safe_int (drop 6 l);
      Ok (index, rest)
  | [] => Raise (perr "tlog proof missing index")
  end.

Definition parse_hash_line (line : str) : res bytes :=
  raise_if (negb (match_b64 line)) (perr "invalid inclusion proof hash") ;;
  hash ← b64_std_decode line;
  raise_if (negb (len hash =? 32)) (perr "inclusion proof hash must be SHA-256 sized") ;;
  Ok hash.

Definition proof_magic : str := lit "c2sp.org/tlog-proof@v1".

Definition parse_tlog_proof_v1 (text : str) : res TlogProofV1 :=
  raise_if (contains [13] text) (perr "tlog proof must use LF line endings") ;;
  let split_at := find [10; 10] text in
  raise_if (split_at =? -1) (perr "tlog-proof@v1 missing checkpoint separator") ;;
  match split 10 (slice 0 split_at text) with
  | magic :: lines =>
      raise_if (negb (magic ==? proof_magic)) (perr "missing c2sp.org/tlog-proof@v1 magic") ;;
      '(extra, lines) ← parse_extra lines;
      '(index, lines) ← parse_index lines;
      hashes ← mapM_res parse_hash_line lines;
      checkpoint ← parse_checkpoint (drop (Z.to_nat (split_at + 2)) text);
      Ok {| proof_index := index; hashes := hashes; extra := extra; proof_checkpoint := checkpoint |}
  | [] => Raise (IndexError (lit "list index out of range"))
  end.

(** [proof: TlogProofV1 | str] *)
Inductive ProofArg : Set :=
| ProofObject (p : TlogProofV1)
| ProofText (s : str).

Section verification.
Context (ed25519_verify : bytes → bytes → bytes → bool).

Definition verify_c2sp_tlog_proof (entry_bytes : bytes) (proof : ProofArg)
    (policy : C2spTlogPolicy) (origin : option str) (scope : str)
    (now_ms max_clock_skew_ms : Z) : res TlogProofV1 :=
  p ← match proof with ProofText s => parse_tlog_proof_v1 s | ProofObject p => Ok p end;
  let checkpoint := proof_checkpoint p in
  enforce_checkpoint_policy ed25519_verify checkpoint
    (default (cp_origin checkpoint) origin) policy scope now_ms max_clock_skew_ms ;;
  included ← verify_inclusion entry_bytes (proof_index p) (cp_tree_size checkpoint)
               (cp_root_hash checkpoint) (hashes p);
  raise_if (negb included) (verr "invalid C2SP inclusion proof") ;;
  Ok p.

(** ** What an accepted proof shows *)

(** An accepted proof ties the entry to a log the policy trusts: the
    checkpoint is for the origin asked for and carries the evidence the policy
    demands, and every log whose size and root the checkpoint states contains
    the entry, unless the hash has a collision among the strings hashed by the
    log and the verifier. *)
Theorem verify_tlog_proof_sound (entry : bytes) (proof : ProofArg) (policy : C2spTlogPolicy)
    (origin : option str) (scope : str) (now_ms skew : Z) (p : TlogProofV1) (log : list bytes)
    (H : verify_c2sp_tlog_proof entry proof policy origin scope now_ms skew = Ok p)
    (Hsize : cp_tree_size (proof_checkpoint p) = len log)
    (Hroot : cp_root_hash (proof_checkpoint p) = merkle_root_from_entries log)
    (Hcf : collision_free (hash_inputs log ++ inclusion_inputs entry (proof_index p) (len log) (hashes p))) :
  entry ∈ log
  ∧ (∀ o, origin = Some o → cp_origin (proof_checkpoint p) = o)
  ∧ ∃ np accepted,
      normalized_origin_policy policy (cp_origin (proof_checkpoint p)) = Ok np
      ∧ policy_evidence ed25519_verify (proof_checkpoint p) (cp_origin (proof_checkpoint p)) scope
          now_ms skew np accepted.
Proof.
  unfold verify_c2sp_tlog_proof in H. bind_step H as q Hq. bind_step H as r Henf.
  bind_step H as b Hb. guard_step H as Hinc. injection H as ->.
  rewrite negb_false_iff in Hinc. subst b. rewrite Hsize, Hroot in Hb.
  assert (log ≠ []) as Hne.
  { intros ->. apply verify_inclusion_Ok in Hb as [Hi _]. unfold len in Hi. cbn in Hi. lia. }
  apply enforce_Ok in Henf as (np & Hnp & Ho & _ & _ & Hev & _).
  split_and!; [by eapply inclusion_member|by intros o ->|].
  rewrite <- Ho in Hnp, Hev. by exists np, (accepted_witness_timestamps r).
Qed.
End verification.

(** ** Witness *)
Definition demo_proof_text (path : list bytes) (index : Z) : str :=
  proof_magic ++ [10] ++ lit "index " ++ str_of_int index ++ [10]
  ++ mjoin ((λ h, b64_std_encode h ++ [10]) <$> path)
  ++ [10] ++ demo_checkpoint_text 5 (merkle_root_from_entries log5) [(1, 1700000000)].

Definition demo_proof : TlogProofV1 :=
  {| proof_index := 2; hashes := rfc_path log5_tree 2;
     proof_checkpoint := demo_signed (merkle_root_from_entries log5); extra := [] |}.

(** The text of a proof for entry 2 of the five-entry log parses to it. *)
Example demo_proof_parses : parse_tlog_proof_v1 (demo_proof_text (rfc_path log5_tree 2) 2) = Ok demo_proof.
Proof. by vm_compute. Qed.

Lemma verify_tlog_proof_sound_witness : lit "c" ∈ log5.
Proof.
  apply (verify_tlog_proof_sound demo_verify (lit "c")
    (ProofText (demo_proof_text (rfc_path log5_tree 2) 2)) (demo_policy (lit "any"))
    (Some demo_origin) public demo_now 0 demo_proof log5);
    [by vm_compute..|].
  apply collision_freeb_sound. by vm_compute.
Defined.
