(* ===== verification/Lr.v ===== *)
(** * Log references ([c2sp_tlog/lr.py])

    [c2sp-tlog:<scope>:<log-prefix>#<stream-id>[@<entry-index>]].  The part of
    [urllib.parse] that the module uses is modelled; its checks of bracketed
    and of non-ASCII hosts, and Unicode lower-casing, are parameters. *)
From S2P Require Import Prelude Errors PyText SignedNote.

(** ** URLs *)
Record SplitResult : Set := {
  url_scheme : str;
  url_netloc : str;
  url_path : str;
  url_query : str;
  url_fragment : str
}.

Definition is_scheme_char (c : Z) : bool := is_alnum c || (c =? 43) || (c =? 45) || (c =? 46).

(** The text before and after the first [c]; all of it, and nothing, when
    there is none. *)
Fixpoint partition_at (c : Z) (s : str) : str * bool * str :=
  match s with
  | [] => ([], false, [])
  | x :: s => if x =? c then ([], true, s)
              else let '(a, f, b) := partition_at c s in (x :: a, f, b)
  end.

(** The text before and after the last [c]; nothing, and all of it. *)
Definition rpartition_at (c : Z) (s : str) : str * bool * str :=
  let '(b, f, a) := partition_at c (rev s) in
  if f then (rev a, true, rev b) else ([], false, s).

Definition is_delim (c : Z) : bool := (c =? 47) || (c =? 63) || (c =? 35).

Section urls.
(** The checks of a netloc that has brackets or is not ASCII, and
    [str.lower()]. *)
Context (netloc_ok : str → bool) (str_lower : str → str).

Definition split_scheme (url : str) : str * str :=
  let i := find [58] url in
  match url with
  | c :: _ =>
      let head := take (Z.to_nat i) url in
      if (0 <? i) && is_alpha c && forallb is_scheme_char head
      then (lower_ascii <$> head, drop (Z.to_nat (i + 1)) url)
      else ([], url)
  | [] => ([], url)
  end.

Definition split_netloc (url : str) : str * str :=
  if startswith [47; 47] url then
    let rest := drop 2 url in
    let netloc := take_while (λ c, negb (is_delim c)) rest in
    (netloc, drop (length netloc) rest)
  else ([], url).

Definition urlsplit (raw : str) : res SplitResult :=
  let url := filter (λ c, c ≠ 9 ∧ c ≠ 10 ∧ c ≠ 13) (lstrip (λ c, (0 <=? c) && (c <=? 32)) raw) in
  let '(scheme, url) := split_scheme url in
  let '(netloc, url) := split_netloc url in
  let open := bool_decide (91 ∈ netloc) in
  let close := bool_decide (93 ∈ netloc) in
  raise_if (xorb open close) (ValueError (lit "Invalid IPv6 URL")) ;;
  raise_if (((open && close) || negb (forallb (λ c, c <? 128) netloc)) && negb (netloc_ok netloc))
    (ValueError (lit "invalid netloc")) ;;
  let '(url, _, fragment) := partition_at 35 url in
  let '(path, _, query) := partition_at 63 url in
  Ok {| url_scheme := scheme; url_netloc := netloc; url_path := path; url_query := query;
        url_fragment := fragment |}.

(** [url.username or url.password] *)
Definition has_userinfo (netloc : str) : bool :=
  let '(userinfo, have, _) := rpartition_at 64 netloc in
  let '(username, _, password) := partition_at 58 userinfo in
  have && (negb (username ==? []) || negb (password ==? [])).

(** [url._hostinfo]: host and port text. *)
Definition hostinfo (netloc : str) : str * str :=
  let '(_, _, hostinfo) := rpartition_at 64 netloc in
  let '(_, open, bracketed) := partition_at 91 hostinfo in
  if open then
    let '(hostname, _, port) := partition_at 93 bracketed in
    let '(_, _, port) := partition_at 58 port in (hostname, port)
  else
    let '(hostname, _, port) := partition_at 58 hostinfo in (hostname, port).

(** [url.hostname] *)
Definition hostname (netloc : str) : option str :=
  let '(h, _) := hostinfo netloc in
  if h ==? [] then None
  else let '(h, f, zone) := partition_at 37 h in
       Some (str_lower h ++ (if f then 37 :: zone else [])).

(** [url.port] *)
Definition port (netloc : str) : res (option Z) :=
  let '(_, p) := hostinfo netloc in
  if p ==? [] then Ok None
  else
    raise_if (negb (forallb is_digit p)) (ValueError (lit "Port could not be cast to integer value")) ;;
    let n := int_of_digits p in
    raise_if (negb ((0 <=? n) && (n <=? 65535))) (ValueError (lit "Port out of range 0-65535")) ;;
    Ok (Some n).

(** [urlunsplit((scheme, netloc, path, "", ""))] for non-empty scheme and
    netloc. *)
Definition urlunsplit (scheme netloc path : str) : str :=
  let path := match path with [] => [] | 47 :: _ => path | _ => 47 :: path end in
  scheme ++ [58; 47; 47] ++ netloc ++ path.

(** ** Log prefixes *)

(** [[a-z]] under [re.IGNORECASE]. *)
Definition is_ci_alpha (c : Z) : bool :=
  is_alpha c || (c =? 0x130) || (c =? 0x131) || (c =? 0x17F) || (c =? 0x212A).

(** [_SCHEME_HOST_RE.sub("", raw, count=1)] *)
Definition strip_scheme_host (raw : str) : str :=
  match raw with
  | c :: rest =>
      let tail := lstrip (λ c, is_ci_alpha c || is_digit c || (c =? 43) || (c =? 45) || (c =? 46)) rest in
      if is_ci_alpha c && startswith [58; 47; 47] tail
      then lstrip (λ c, negb (is_delim c)) (drop 3 tail)
      else raw
  | [] => raw
  end.

(** [_DOT_SEGMENT_RE.search(path)] of a path without white space. *)
Definition has_dot_segment (path : str) : bool :=
  existsb (λ seg, (seg ==? [46]) || (seg ==? [46; 46])) (split 47 path).

(** [_ENCODED_SLASH_RE.search(path)] *)
Fixpoint has_encoded_slash (path : str) : bool :=
  match path with
  | 37 :: ((a :: b :: _) as rest) =>
      ((a =? 50) && ((b =? 102) || (b =? 70))) || ((a =? 53) && ((b =? 99) || (b =? 67)))
      || has_encoded_slash rest
  | _ :: rest => has_encoded_slash rest
  | [] => false
  end.

Definition is_unreserved (c : Z) : bool :=
  is_alnum c || (c =? 46) || (c =? 95) || (c =? 126) || (c =? 45).

(** [_PCT_RE.sub(_repl, path)] *)
Fixpoint normalize_percent_path (path : str) : str :=
  match path with
  | 37 :: ((a :: b :: rest) as tail) =>
      if is_hex a && is_hex b then
        let ch := 16 * hex_value a + hex_value b in
        if is_unreserved ch then ch :: normalize_percent_path rest
        else 37 :: upper_ascii a :: upper_ascii b :: normalize_percent_path rest
      else 37 :: normalize_percent_path tail
  | c :: rest => c :: normalize_percent_path rest
  | [] => []
  end.

Definition canonical_log_prefix (raw : str) : res str :=
  raise_if (existsb (λ c, (c =? 59) || is_space c) raw)
    (perr "log prefix must percent-encode DNS TXT tag delimiters") ;;
  let raw_path := match strip_scheme_host raw with [] => [47] | p => p end in
  raise_if (has_dot_segment raw_path) (perr "log prefix must not contain dot segments") ;;
  url ← try_except (urlsplit raw)
          (λ e, if is_value_error e then Raise (perr "invalid log prefix URL") else Raise e);
  match hostname (url_netloc url) with
  | None => Raise (perr "invalid log prefix URL")
  | Some host =>
      raise_if (url_scheme url ==? []) (perr "invalid log prefix URL") ;;
      raise_if (has_userinfo (url_netloc url)) (perr "log prefix must not contain userinfo") ;;
      raise_if (negb (url_query url ==? []) || negb (url_fragment url ==? []))
        (perr "log prefix must not contain query or fragment") ;;
      let path := url_path url in
      raise_if (negb (path ==? []) && negb (path ==? [47]) && endswith [47] path)
        (perr "log prefix must not have trailing slash") ;;
      raise_if (has_encoded_slash path) (perr "log prefix must not percent-encode slash or backslash") ;;
      let scheme := lower_ascii <$> url_scheme url in
      raise_if (negb ((scheme ==? lit "https") || (scheme ==? lit "http")))
        (perr "unsupported log prefix scheme") ;;
      let hostname := str_lower host in
      p ← port (url_netloc url);
      let p := if ((scheme ==? lit "https") && (p ==? Some 443))
                  || ((scheme ==? lit "http") && (p ==? Some 80)) then None else p in
      let netloc := match p with None => hostname | Some n => hostname ++ [58] ++ str_of_int n end in
      let normalized_path := normalize_percent_path path in
      let normalized_path := if normalized_path ==? [47] then [] else normalized_path in
      let out := urlunsplit scheme netloc normalized_path in
      Ok (if endswith [47] out then take (length out - 1) out else out)
  end.

Definition checkpoint_origin (log_prefix : str) : res str :=
  url ← urlsplit log_prefix;
  Ok (rstrip (λ c, c =? 47) (url_netloc url ++ url_path url)).

(** ** References *)
Record ParsedC2spTlogLr : Set := {
  lr_method : str;
  lr_scope : str;
  lr_log_prefix : str;
  lr_stream_id : str;
  lr_origin : str;
  lr_lr : str;
  lr_entry_index : option Z
}.

Definition METHOD : str := lit "c2sp-tlog:".

Definition match_private_scope (scope : str) : bool :=
  let s := re_dollar scope in
  startswith (lit "private-") s
  && negb (drop 8 s ==? []) && forallb (λ c, is_alnum c || (c =? 45)) (drop 8 s).

Definition validate_scope (scope : str) : res unit :=
  raise_if (negb (scope ==? lit "public") && negb (scope ==? lit "testnet")
            && negb (match_private_scope scope))
    (perr "invalid c2sp-tlog scope").

Fixpoint stream_chars (s : str) : bool :=
  match s with
  | [] => true
  | 37 :: a :: b :: s => is_hex a && is_hex b && stream_chars s
  | c :: s => is_unreserved c && stream_chars s
  end.

(** [_STREAM_ID_RE.match(stream_id)] *)
Definition match_stream_id (stream_id : str) : bool :=
  let s := re_dollar stream_id in negb (s ==? []) && stream_chars s.

Definition parse_index (s : str) : res Z :=
  raise_if (negb (is_canonical_int s)) (perr "invalid entry index") ;;
  Ok (int_of_canonical s).

Definition validate_signed_note_name (name : str) : res unit :=
  let s := re_dollar name in
  raise_if ((s ==? []) || negb (forallb (λ c, (0x21 <=? c) && (c <=? 0x7E)) s)
            || existsb (λ c, is_space c || (c =? 43)) name)
    (perr "invalid signed-note key name").

Definition bound_lr (scope log_prefix stream_id : str) : str :=
  METHOD ++ scope ++ [58] ++ log_prefix ++ [35] ++ stream_id.

Definition parse_c2sp_tlog_lr (lr : str) : res ParsedC2spTlogLr :=
  raise_if (negb (startswith METHOD lr)) (perr "lr must start with c2sp-tlog:") ;;
  let rest := drop (length METHOD) lr in
  let colon := find [58] rest in
  raise_if (colon <=? 0) (perr "missing c2sp-tlog scope") ;;
  let scope := slice 0 colon rest in
  validate_scope scope ;;
  let tail := drop (Z.to_nat (colon + 1)) rest in
  let hash := rfind 35 tail in
  raise_if ((hash <=? 0) || (hash =? len tail - 1)) (perr "missing log prefix or stream id") ;;
  let raw_log_prefix := slice 0 hash tail in
  log_prefix ← canonical_log_prefix raw_log_prefix;
  raise_if (negb (raw_log_prefix ==? log_prefix)) (perr "log prefix must already be canonical") ;;
  let ref := drop (Z.to_nat (hash + 1)) tail in
  let at_ := rfind 64 ref in
  let stream_id := if at_ =? -1 then ref else slice 0 at_ ref in
  raise_if (negb (match_stream_id stream_id)) (perr "invalid stream id") ;;
  entry_index ← (if at_ =? -1 then Ok None
                 else n ← parse_index (drop (Z.to_nat (at_ + 1)) ref); Ok (Some n));
  origin ← checkpoint_origin log_prefix;
  validate_signed_note_name origin ;;
  raise_if ((scope ==? lit "public") && negb (startswith (lit "https://") log_prefix))
    (perr "public c2sp-tlog requires an https log prefix") ;;
  Ok {| lr_method := lit "c2sp-tlog"; lr_scope := scope; lr_log_prefix := log_prefix;
        lr_stream_id := stream_id; lr_origin := origin; lr_lr := bound_lr scope log_prefix stream_id;
        lr_entry_index := entry_index |}.
End urls.

(** ** Properties of references *)
Lemma stream_chars_no_at s : stream_chars s = true → 64 ∉ s.
Proof.
  assert (∀ n s, (length s ≤ n)%nat → stream_chars s = true → 64 ∉ s) as H; [|by apply (H (length s))].
  induction n as [|n IH]; intros t Hn Ht.
  { destruct t; [apply not_elem_of_nil|cbn in Hn; lia]. }
  destruct t as [|c t]; [apply not_elem_of_nil|]. cbn in Hn.
  assert (is_unreserved c && stream_chars t = true ∨
    c = 37 ∧ ∃ a b u, t = a :: b :: u ∧ is_hex a && is_hex b && stream_chars u = true) as [Hc|Hc].
  { destruct (decide (c = 37)) as [->|Hne].
    - destruct t as [|a [|b u]]; [left; exact Ht..|]. right. split; [done|]. by exists a, b, u.
    - left. cbn in Ht. repeat case_match; simplify_eq; done. }
  - apply andb_true_iff in Hc as [Hc Ht']. apply not_elem_of_cons. split; [|apply IH; [lia|done]].
    intros <-. done.
  - destruct Hc as (-> & a & b & u & -> & Hab). rewrite !andb_true_iff in Hab.
    destruct Hab as [[Ha Hb] Hu]. cbn in Hn.
    rewrite !not_elem_of_cons. split_and!; [done|by intros <-|by intros <-|apply IH; [lia|done]].
Qed.

Lemma re_dollar_elem (s : str) c : c ∈ s → c ≠ 10 → c ∈ re_dollar s.
Proof.
  unfold re_dollar. intros Hc Hne. destruct (rev s) as [|x r] eqn:Hr; [done|].
  assert (s = rev r ++ [x]) as -> by (rewrite <- (rev_involutive s), Hr; done).
  apply elem_of_app in Hc as [Hc|Hc].
  - destruct (decide (x = 10)) as [->|]; [done|]. repeat case_match; simplify_eq; by apply elem_of_app; left.
  - apply list_elem_of_singleton in Hc as <-. repeat case_match; simplify_eq; by apply elem_of_app; right; left.
Qed.

Lemma match_stream_id_props s : match_stream_id s = true → s ≠ [] ∧ 64 ∉ s.
Proof.
  unfold match_stream_id. rewrite andb_true_iff, negb_true_iff, eqb_false. intros [Hne Hs]. split.
  - by intros ->.
  - intros Hin. apply (stream_chars_no_at _ Hs). by apply re_dollar_elem.
Qed.

Section references.
Context (netloc_ok : str → bool) (str_lower : str → str).

(** What the parts of an accepted reference satisfy. *)
Record lr_parts (scope prefix sid origin : str) : Prop := {
  part_scope_nonempty : scope ≠ [];
  part_scope_colon : 58 ∉ scope;
  part_scope : validate_scope scope = Ok ();
  part_prefix_nonempty : prefix ≠ [];
  part_prefix : canonical_log_prefix netloc_ok str_lower prefix = Ok prefix;
  part_sid_hash : 35 ∉ sid;
  part_sid : match_stream_id sid = true;
  part_origin : checkpoint_origin netloc_ok prefix = Ok origin;
  part_origin_name : validate_signed_note_name origin = Ok ();
  part_public : scope = lit "public" → ∃ t, prefix = lit "https://" ++ t
}.

(** The text of an entry index, when there is one. *)
Definition index_suffix (suffix : str) (entry_index : option Z) : Prop :=
  match entry_index with
  | None => suffix = []
  | Some n => ∃ t, suffix = 64 :: t ∧ (64 ∉ t) ∧ (35 ∉ t) ∧ parse_index t = Ok n
  end.

Lemma len_pos {A} (l : list A) : l ≠ [] → 0 < len l.
Proof. destruct l; [done|]. intros _. rewrite len_cons. pose proof (len_nonneg l). lia. Qed.

Lemma parse_lr_inv lr p :
  parse_c2sp_tlog_lr netloc_ok str_lower lr = Ok p →
  ∃ suffix, lr = lr_lr p ++ suffix ∧ index_suffix suffix (lr_entry_index p)
    ∧ lr_parts (lr_scope p) (lr_log_prefix p) (lr_stream_id p) (lr_origin p)
    ∧ lr_lr p = bound_lr (lr_scope p) (lr_log_prefix p) (lr_stream_id p)
    ∧ lr_method p = lit "c2sp-tlog".
Proof.
  unfold parse_c2sp_tlog_lr. intros H. guard_step H as Hm. rewrite negb_false_iff in Hm.
  apply startswith_app in Hm as [rest ->]. rewrite drop_app_length in H.
  destruct (find_cases 58 rest) as [[_ Hf]|(scope & tail & -> & Hcol & Hf)]; rewrite Hf in H; [done|].
  guard_step H as Hs0. bind_step H as [] Hscope.
  rewrite slice_0_app in Hscope. rewrite slice_0_app, drop_len_cons in H.
  destruct (rfind_cases 35 tail) as [[_ Hr]|(prefix & ref & -> & Hhash & Hr)]; rewrite Hr in H; [done|].
  guard_step H as Hp0. rewrite slice_0_app, drop_len_cons in H. bind_step H as cp Hcp.
  guard_step H as Hcanon. rewrite negb_false_iff, eqb_true in Hcanon. subst cp.
  guard_step H as Hsid. bind_step H as ei Hei. bind_step H as origin Ho. bind_step H as [] Hname.
  guard_step H as Hpub. injection H as <-. cbn [lr_lr lr_entry_index lr_scope lr_log_prefix lr_stream_id
    lr_origin lr_method].
  rewrite negb_false_iff in Hsid. rewrite orb_false_iff, Z.leb_gt in Hp0. apply Z.leb_gt in Hs0.
  assert (∀ sid, 35 ∉ sid → match_stream_id sid = true → lr_parts scope prefix sid origin) as Hparts.
  { intros sid Hsh Hm. constructor; try done.
    - intros ->. done.
    - intros ->. destruct Hp0 as [Hp0 _]. done.
    - intros ->. rewrite eqb_refl in Hpub. cbn [andb] in Hpub.
      rewrite negb_false_iff in Hpub. by apply startswith_app. }
  destruct (rfind_cases 64 ref) as [[_ Ha]|(sid & t & -> & Hat & Ha)]; rewrite Ha in *.
  - cbn in Hei, Hsid |- *. injection Hei as <-. exists []. rewrite app_nil_r. split_and!; eauto.
    unfold bound_lr. done.
  - destruct (Z.eqb_spec (len sid) (-1)) as [Hl|_]; [pose proof (len_nonneg sid); lia|].
    rewrite slice_0_app in *. rewrite drop_len_cons in Hei. bind_step Hei as n Hn. injection Hei as <-.
    exists (64 :: t). split_and!; [|exists t; split_and!; [done..| |done]; set_solver|
      apply Hparts; [set_solver|done]|done..].
    unfold bound_lr. rewrite <- !app_assoc. done.
Qed.

Lemma parse_lr_build scope prefix sid origin suffix entry_index :
  lr_parts scope prefix sid origin → index_suffix suffix entry_index →
  parse_c2sp_tlog_lr netloc_ok str_lower (bound_lr scope prefix sid ++ suffix)
  = Ok {| lr_method := lit "c2sp-tlog"; lr_scope := scope; lr_log_prefix := prefix;
          lr_stream_id := sid; lr_origin := origin; lr_lr := bound_lr scope prefix sid;
          lr_entry_index := entry_index |}.
Proof.
  intros [Hsn Hcol Hscope Hpn Hp Hsh Hsid Ho Hname Hpub] Hsuf.
  destruct (match_stream_id_props _ Hsid) as [Hne Hat].
  assert (35 ∉ suffix) as Hsx.
  { destruct entry_index as [n|]; cbn in Hsuf; [destruct Hsuf as (t & -> & _ & ? & _)|subst suffix];
      set_solver. }
  unfold bound_lr at 1. rewrite <- !app_assoc. unfold parse_c2sp_tlog_lr.
  rewrite (proj2 (startswith_app _ _)) by eauto. rewrite drop_app_length.
  cbn [app negb raise_if mbind result_bind].
  rewrite find_char, slice_0_app, drop_len_cons by done.
  rewrite rfind_char, slice_0_app, drop_len_cons by set_solver.
  rewrite (proj2 (Z.leb_gt (len scope) 0)) by (by apply len_pos).
  rewrite (proj2 (Z.leb_gt (len prefix) 0)) by (by apply len_pos).
  destruct (Z.eqb_spec (len prefix) (len (prefix ++ 35 :: sid ++ suffix) - 1)) as [He|_].
  { rewrite len_app, len_cons, len_app in He. pose proof (len_pos _ Hne).
    pose proof (len_nonneg suffix). lia. }
  cbn [orb raise_if mbind result_bind]. rewrite Hscope, Hp. cbn [raise_if mbind result_bind].
  rewrite eqb_refl. cbn [negb raise_if mbind result_bind].
  assert ((scope ==? lit "public") && negb (startswith (lit "https://") prefix) = false) as Hpub'.
  { destruct (scope ==? lit "public") eqn:Hs; [|done]. rewrite eqb_true in Hs.
    by rewrite (proj2 (startswith_app _ _)) by auto. }
  destruct entry_index as [n|]; cbn in Hsuf.
  - destruct Hsuf as (t & -> & Ht & _ & Hn). rewrite rfind_char by done.
    destruct (Z.eqb_spec (len sid) (-1)) as [Hl|_]; [pose proof (len_nonneg sid); lia|].
    rewrite slice_0_app, drop_len_cons, Hsid, Hn, Ho, Hpub'. cbn [negb raise_if mbind result_bind].
    by rewrite Hname.
  - subst suffix. rewrite app_nil_r, rfind_none by done.
    cbn [Z.eqb Pos.eqb]. rewrite Hsid, Ho, Hpub'. cbn [negb raise_if mbind result_bind]. by rewrite Hname.
Qed.


(** The bound form stands for the whole reference: parsing it gives the same
    reference without the entry index, so two references with one bound form
    have the same scope, prefix, stream and origin. *)
Theorem parse_lr_bound_form (lr : str) (p : ParsedC2spTlogLr)
    (H : parse_c2sp_tlog_lr netloc_ok str_lower lr = Ok p) :
  parse_c2sp_tlog_lr netloc_ok str_lower (lr_lr p)
  = Ok {| lr_method := lr_method p; lr_scope := lr_scope p; lr_log_prefix := lr_log_prefix p;
          lr_stream_id := lr_stream_id p; lr_origin := lr_origin p; lr_lr := lr_lr p;
          lr_entry_index := None |}.
Proof.
  apply parse_lr_inv in H as (suffix & _ & _ & Hparts & Hlr & Hm). rewrite Hlr, Hm.
  rewrite <- (app_nil_r (bound_lr _ _ _)) at 1. by rewrite (parse_lr_build _ _ _ _ [] None Hparts).
Qed.
End references.

(** ** Witnesses *)
Definition demo_lr : str := lit "c2sp-tlog:public:https://log.example/dns#abc%2D1@12".
Definition demo_bound_lr : str := lit "c2sp-tlog:public:https://log.example/dns#abc%2D1".
Definition demo_parsed (lr : str) (index : option Z) : ParsedC2spTlogLr :=
  {| lr_method := lit "c2sp-tlog"; lr_scope := lit "public";
     lr_log_prefix := lit "https://log.example/dns"; lr_stream_id := lit "abc%2D1";
     lr_origin := lit "log.example/dns"; lr_lr := lr; lr_entry_index := index |}.
Definition ascii_lower (s : str) : str := lower_ascii <$> s.
Definition no_netloc (s : str) : bool := false.


Lemma parse_lr_bound_form_witness :
  parse_c2sp_tlog_lr no_netloc ascii_lower demo_bound_lr = Ok (demo_parsed demo_bound_lr None).
Proof.
  apply (parse_lr_bound_form no_netloc ascii_lower demo_lr (demo_parsed demo_bound_lr (Some 12))).
  by vm_compute.
Defined.

(** The [$] of the stream-id and index patterns matches before a final
    newline: a reference that ends in one is accepted, with the newline in the
    stream id and in the bound form, or dropped from the index. *)
Theorem lr_trailing_newline_accepted :
  (lr_stream_id <$> parse_c2sp_tlog_lr no_netloc ascii_lower
     (lit "c2sp-tlog:public:https://log.example#abc" ++ [10])) = Ok (lit "abc" ++ [10])
  ∧ (lr_entry_index <$> parse_c2sp_tlog_lr no_netloc ascii_lower
     (lit "c2sp-tlog:public:https://log.example#abc@7" ++ [10])) = Ok (Some 7).
Proof. by vm_compute. Qed.

(** [canonical_log_prefix] checks the dot segments of the raw text and
    decodes percent-encoded dots afterwards, so its result can contain the dot
    segments it rejects; and a port out of range leaves it as a bare
    [ValueError]. *)
Theorem canonical_log_prefix_gaps :
  canonical_log_prefix no_netloc ascii_lower (lit "https://log.example/a/%2e%2e/b")
    = Ok (lit "https://log.example/a/../b")
  ∧ canonical_log_prefix no_netloc ascii_lower (lit "https://log.example/a/../b")
    = Raise (perr "log prefix must not contain dot segments")
  ∧ canonical_log_prefix no_netloc ascii_lower (lit "https://log.example:99999")
    = Raise (ValueError (lit "Port out of range 0-65535")).
Proof. by vm_compute. Qed.
