(* ===== verification/ResourceFetcher.v ===== *)
(** * Bounded resource reads ([c2sp_tlog/resource_fetcher.py], [_bounded_response.py])

    The HTTP client is a parameter: it answers a URL with a response or fails,
    and a response delivers chunks until its body ends or fails.  So is the
    [zlib] decompressor.  [check] is the outcome of each deadline test, numbered
    by the path of loop positions that leads to it. *)
From S2P Require Import Prelude Errors PyText Lr.

Definition terr (msg : string) (url : str) (transient : bool) : exn :=
  C2spTlogTransportError (lit msg ++ url) transient None.

Definition response_limit_error (url : str) (max_bytes : Z) : exn :=
  C2spTlogTransportError (lit "C2SP response exceeds configured byte maximum " ++ str_of_int max_bytes ++ lit ": " ++ url)
    false None.

Definition require_positive_integer (value : Z) (name : string) : res unit :=
  raise_if (value <? 1) (ArgumentError (lit ("c2sp-tlog " +:+ name +:+ " must be a positive integer"))).

(** ** Decompression *)

(** A [zlib.decompressobj]: [decompress] raises [zlib.error] as [None]. *)
Class Zlib := {
  decompressobj : Set;
  new_decompressor : Z → decompressobj;
  decompress : decompressobj → bytes → Z → option (decompressobj * bytes);
  eof : decompressobj → bool;
  unused_data : decompressobj → bytes
}.

Inductive encoding : Set := Identity | Gzip | Deflate.
#[global] Instance encoding_eq_dec : EqDecision encoding.
Proof. solve_decision. Defined.

Section body.
Context `{Zlib} (check : list nat → res unit) (overflow : exn) (invalid : str → exn).

Record BoundedBody : Set := {
  bb_body : bytes;
  bb_limit : Z;
  bb_encoding : encoding;
  bb_decoder : option decompressobj;
  bb_prefix : bytes
}.

Definition MAX_WBITS : Z := 15.

(** [__init__], with [decode_content]. *)
Definition new_body (content_encoding : option str) (is_stream_consumed : bool) (limit : Z) : res BoundedBody :=
  let text := lower_ascii <$> strip is_space (default (lit "identity") content_encoding) in
  e ← (if (text ==? lit "identity") || (text ==? []) then Ok Identity
       else if text ==? lit "gzip" then Ok Gzip
       else if text ==? lit "deflate" then Ok Deflate
       else Raise (invalid (lit "unsupported HTTP content encoding")));
  let e := if is_stream_consumed then Identity else e in
  Ok {| bb_body := []; bb_limit := limit; bb_encoding := e;
        bb_decoder := if e ==? Gzip then Some (new_decompressor (16 + MAX_WBITS)) else None;
        bb_prefix := [] |}.

(** The two-octet header of a [zlib] stream. *)
Definition zlib_wrapped (chunk : bytes) : bool :=
  match chunk with
  | a :: b :: _ => (Z.land a 15 =? 8) && (Z.shiftr a 4 <=? 7) && ((256 * a + b) mod 31 =? 0)
  | _ => false
  end.

Definition decode_chunk (s : BoundedBody) (d : decompressobj) (chunk : bytes) : res (decompressobj * bytes) :=
  raise_if (eof d && negb (chunk ==? [])) (invalid (lit "trailing compressed HTTP response")) ;;
  match decompress d chunk (bb_limit s - len (bb_body s) + 1) with
  | None => Raise (invalid (lit "invalid compressed HTTP response"))
  | Some (d, out) =>
      raise_if (negb (unused_data d ==? [])) (invalid (lit "trailing compressed HTTP response")) ;;
      Ok (d, out)
  end.

Definition extend (s : BoundedBody) (d : option decompressobj) (chunk : bytes) : res BoundedBody :=
  raise_if (bb_limit s <? len (bb_body s) + len chunk) overflow ;;
  Ok {| bb_body := bb_body s ++ chunk; bb_limit := bb_limit s; bb_encoding := bb_encoding s;
        bb_decoder := d; bb_prefix := [] |}.

Definition append (path : list nat) (s : BoundedBody) (chunk : bytes) : res BoundedBody :=
  check path ;;
  match bb_encoding s, bb_decoder s with
  | Deflate, None =>
      let chunk := bb_prefix s ++ chunk in
      if len chunk <? 2 then
        Ok {| bb_body := bb_body s; bb_limit := bb_limit s; bb_encoding := Deflate;
              bb_decoder := None; bb_prefix := chunk |}
      else
        '(d, out) ← decode_chunk s (new_decompressor (if zlib_wrapped chunk then MAX_WBITS else - MAX_WBITS)) chunk;
        extend s (Some d) out
  | _, Some d => '(d, out) ← decode_chunk s d chunk; extend s (Some d) out
  | _, None => extend s None chunk
  end.

Definition finish (s : BoundedBody) : res bytes :=
  raise_if (negb (bb_encoding s ==? Identity)
            && match bb_decoder s with
               | None => true
               | Some d => negb (eof d) || negb (unused_data d ==? [])
               end)
    (invalid (lit "incomplete or trailing compressed HTTP response")) ;;
  Ok (bb_body s).

Fixpoint append_all (path : list nat) (s : BoundedBody) (chunks : list bytes) : res BoundedBody :=
  match chunks with
  | [] => Ok s
  | chunk :: chunks => s ← append (length chunks :: path) s chunk; append_all path s chunks
  end.
End body.

(** ** Responses *)
Record http_response : Set := {
  hr_is_redirect : bool;
  hr_status_code : Z;
  hr_content_length : option str;
  hr_content_encoding : option str;
  hr_is_stream_consumed : bool;
  hr_chunks : list bytes;
  hr_failure : option exn
}.

(** Digits, single underscores between them. *)
Fixpoint int_digits (allow_underscore : bool) (s : str) : bool :=
  match s with
  | [] => allow_underscore
  | c :: s => if is_digit c then int_digits true s else (c =? 95) && allow_underscore && nonempty_digit s
  end
with nonempty_digit (s : str) : bool :=
  match s with c :: s => is_digit c && int_digits true s | [] => false end.

(** [int(text)] of a header; [None] for [ValueError]. *)
Definition py_int (text : str) : option Z :=
  let s := strip is_space text in
  let '(sign, ds) := match s with 43 :: ds => (1, ds) | 45 :: ds => (-1, ds) | ds => (1, ds) end in
  if int_digits false ds then Some (sign * int_of_digits (filter (λ c, c ≠ 95) ds)) else None.

Definition validate_resource_response (response : http_response) (url : str) (max_bytes : Z) : res unit :=
  raise_if (hr_is_redirect response) (terr "C2SP resource redirect rejected for " url false) ;;
  raise_if (negb (hr_status_code response =? 200))
    (C2spTlogTransportError
       (lit "C2SP resource returned HTTP " ++ str_of_int (hr_status_code response) ++ lit ": " ++ url)
       (500 <=? hr_status_code response) (Some (hr_status_code response))) ;;
  match hr_content_length response ≫= py_int with
  | None => Ok ()
  | Some declared_length => raise_if (max_bytes <? declared_length) (response_limit_error url max_bytes)
  end.

(** [url.username is not None]: a user-information part is there, even empty. *)
Definition has_credentials (netloc : str) : bool := let '(_, have, _) := rpartition_at 64 netloc in have.

Definition validate_resource_url (netloc_ok : str → bool) (str_lower : str → str) (url : str) : res unit :=
  parsed ← try_except (p ← urlsplit netloc_ok url; port (url_netloc p) ;; Ok p)
             (λ e, if is_value_error e then Raise (terr "invalid C2SP resource URL: " url false) else Raise e);
  raise_if (negb (url_scheme parsed ==? lit "https")
            || bool_decide (hostname str_lower (url_netloc parsed) = None)
            || has_credentials (url_netloc parsed)
            || negb (url_fragment parsed ==? []))
    (terr "C2SP resource URL must be absolute HTTPS without credentials or fragment: " url false).

Definition SSRF_BLOCK_MARKER : str := lit "dnsid-ssrf-blocked".

(** ** [SafeC2spResourceFetcher.fetch_bounded]: [late k] tells that the request's
    own deadline has passed at the [k]th chunk. *)
Section fetcher.
Context `{Zlib} (netloc_ok : str → bool) (str_lower : str → str) (client : str → res http_response)
  (check : list nat → res unit) (late : nat → bool).

Fixpoint read_chunks (url : str) (s : BoundedBody) (max_bytes : Z) (chunks : list bytes) : res BoundedBody :=
  match chunks with
  | [] => Ok s
  | chunk :: chunks =>
      let k := length chunks in
      check [k; 2]%nat ;;
      raise_if (late k) (terr "deadline exceeded fetching C2SP resource: " url true) ;;
      s ← append check (response_limit_error url max_bytes) (λ detail, C2spTlogTransportError detail false None)
            [k; 3]%nat s chunk;
      read_chunks url s max_bytes chunks
  end.

Definition read_response (url : str) (max_bytes : Z) : res bytes :=
  response ← client url;
  validate_resource_response response url max_bytes ;;
  s ← new_body (λ detail, C2spTlogTransportError detail false None) (hr_content_encoding response)
        (hr_is_stream_consumed response) max_bytes;
  s ← read_chunks url s max_bytes (hr_chunks response);
  match hr_failure response with
  | Some e => Raise e
  | None => finish (λ detail, C2spTlogTransportError detail false None) s
  end.

Definition fetch_bounded (url : str) (max_bytes : Z) : res bytes :=
  check [0]%nat ;;
  require_positive_integer max_bytes "max_bytes" ;;
  validate_resource_url netloc_ok str_lower url ;;
  check [1]%nat ;;
  data ← try_except (read_response url max_bytes)
    (λ e, match e with
          | HttpxError HConnect m =>
              Raise (terr "failed to connect while fetching C2SP resource: " url (negb (contains SSRF_BLOCK_MARKER m)))
          | HttpxError HTimeout _ => Raise (terr "timed out fetching C2SP resource: " url true)
          | HttpxError HTransport _ => Raise (terr "failed to fetch C2SP resource: " url true)
          | HttpxError HTooManyRedirects _ => Raise (terr "failed to fetch C2SP resource: " url false)
          | e => Raise e
          end);
  check [4]%nat ;;
  Ok data.
End fetcher.

(** ** Injected fetchers *)
Record C2spResourceFetchGuarantees : Set := {
  https_only : bool;
  rejects_redirects : bool;
  validates_all_resolved_addresses : bool;
  connects_to_validated_address : bool;
  bounds_response_during_read : bool
}.

Definition safe_fetcher_guarantees : C2spResourceFetchGuarantees :=
  {| https_only := true; rejects_redirects := true; validates_all_resolved_addresses := true;
     connects_to_validated_address := true; bounds_response_during_read := true |}.

Definition missing_guarantees (g : C2spResourceFetchGuarantees) : list str :=
  map snd (List.filter (λ p, negb p.1)
    [(https_only g, lit "HTTPS-only transport"); (rejects_redirects g, lit "redirect rejection");
     (validates_all_resolved_addresses g, lit "validation of every resolved address");
     (connects_to_validated_address g, lit "connection to a validated address");
     (bounds_response_during_read g, lit "response bounding during reads")]).

(** What an injected object answers: [bytes], [str] or something else. *)
Inductive response_value : Set := RBytes (b : bytes) | RText (s : str) | ROther.

(** An object given as transport or fetcher: which methods it has, and what
    [security_guarantees()] returns ([Ok None] for a value of another type). *)
Record injected : Type := {
  in_fetch_bounded : option (str → Z → res response_value);
  in_security_guarantees : option (res (option C2spResourceFetchGuarantees));
  in_call : str → res response_value
}.

Definition validate_resource_fetcher_capabilities (fetcher : injected) : res unit :=
  raise_if (bool_decide (¬ is_Some (in_fetch_bounded fetcher)))
    (ArgumentError (lit "c2sp-tlog resource_fetcher must implement fetch_bounded(url, max_bytes)")) ;;
  match in_security_guarantees fetcher with
  | None => Raise (ArgumentError (lit "c2sp-tlog resource_fetcher must implement security_guarantees()"))
  | Some (Raise _) => Raise (ArgumentError (lit "c2sp-tlog resource_fetcher security guarantees could not be read"))
  | Some (Ok None) =>
      Raise (ArgumentError (lit "c2sp-tlog security_guarantees() must return C2spResourceFetchGuarantees"))
  | Some (Ok (Some g)) =>
      let missing := missing_guarantees g in
      raise_if (negb (missing ==? []))
        (ArgumentError (lit "c2sp-tlog resource_fetcher lacks " ++ join (lit ", ") missing))
  end.

Definition checked_resource_response (response : response_value) (url : str) (max_bytes : Z) : res bytes :=
  match response with
  | RBytes b => raise_if (max_bytes <? len b) (response_limit_error url max_bytes) ;; Ok b
  | _ => Raise (terr "C2SP resource fetcher returned a non-bytes response: " url false)
  end.

(** The handlers of [_resource_fetch_boundary]. *)
Definition adapt_fetch_error (url : str) (e : exn) : exn :=
  match e with
  | C2spTlogTransportError _ _ _ | VerificationError _ _ _ _ | LifecycleVerificationError _ _ _ => e
  | HttpxError HConnect m =>
      terr "failed to connect while fetching C2SP resource: " url (negb (contains SSRF_BLOCK_MARKER m))
  | OSError OSTimeout _ | HttpxError HTimeout _ => terr "timed out fetching C2SP resource: " url true
  | OSError _ m | HttpxError HTransport m =>
      terr "failed to fetch C2SP resource: " url (negb (contains SSRF_BLOCK_MARKER m))
  | _ => terr "failed to fetch C2SP resource: " url false
  end.

Definition fetch_bounded_bytes (check : list nat → res unit) (fetcher : injected) (url : str) (max_bytes : Z) : res bytes :=
  check [0]%nat ;;
  require_positive_integer max_bytes "max_bytes" ;;
  match in_fetch_bounded fetcher with
  | None => Raise (C2spTlogTransportError (lit "C2SP resource fetcher does not implement fetch_bounded") false None)
  | Some fetch =>
      data ← try_except (response ← fetch url max_bytes; checked_resource_response response url max_bytes)
               (λ e, Raise (adapt_fetch_error url e));
      check [1]%nat ;;
      Ok data
  end.

(** ** Bounds *)
Section body_spec.
Context `{Zlib} (check : list nat → res unit) (overflow : exn) (invalid : str → exn).

(** The body never exceeds the limit, so each request to the decompressor is
    for at least one octet ([0] would mean no limit). *)
Definition body_ok (s : BoundedBody) : Prop := len (bb_body s) ≤ bb_limit s.

Lemma body_ok_request s : body_ok s → 1 ≤ bb_limit s - len (bb_body s) + 1.
Proof. unfold body_ok. lia. Qed.

Lemma extend_ok s d chunk s' : extend overflow s d chunk = Ok s' →
  body_ok s' ∧ bb_limit s' = bb_limit s ∧ bb_encoding s' = bb_encoding s ∧ bb_decoder s' = d ∧ bb_body s' = bb_body s ++ chunk.
Proof.
  unfold extend. intros Hx. guard_step Hx as Hl. injection Hx as <-. unfold body_ok. cbn.
  rewrite len_app. bool_prop. split_and!; [lia|done..].
Qed.

Lemma append_ok path s chunk s' : append check overflow invalid path s chunk = Ok s' → body_ok s →
  body_ok s' ∧ bb_limit s' = bb_limit s ∧ bb_encoding s' = bb_encoding s.
Proof.
  unfold append. intros Hx Hs. rewrite bind_unit_Ok in Hx. destruct Hx as [_ Hx].
  destruct (bb_encoding s) eqn:He, (bb_decoder s) as [d|] eqn:Hd;
    try (bind_step Hx as [d' out] Hdec); try (apply extend_ok in Hx as (? & ? & ? & _); split_and!; [done..|congruence]).
  destruct (len (bb_prefix s ++ chunk) <? 2); [injection Hx as <-; split_and!; done|].
  bind_step Hx as [d' out] Hdec. apply extend_ok in Hx as (? & ? & ? & _). split_and!; [done..|congruence].
Qed.

(** Without compression the body is what was received. *)
Definition plain_body (s : BoundedBody) : Prop := bb_encoding s = Identity ∧ bb_decoder s = None.

Lemma append_plain path s chunk s' : append check overflow invalid path s chunk = Ok s' → plain_body s →
  plain_body s' ∧ bb_body s' = bb_body s ++ chunk.
Proof.
  unfold append. intros Hx [He Hd]. rewrite bind_unit_Ok in Hx. destruct Hx as [_ Hx]. rewrite He, Hd in Hx.
  apply extend_ok in Hx as (_ & _ & ? & ? & ?). split; [split; congruence|done].
Qed.

Lemma new_body_ok ce consumed limit s : 0 ≤ limit → new_body invalid ce consumed limit = Ok s →
  body_ok s ∧ bb_limit s = limit ∧ bb_body s = [] ∧ (ce = None ∨ consumed = true → plain_body s).
Proof.
  intros Hl. unfold new_body. intros Hx. bind_step Hx as e He. injection Hx as <-. unfold body_ok, plain_body. cbn.
  split_and!; [done..|]. intros [->| ->]; [|done]. cbn in He. injection He as <-. by destruct consumed.
Qed.

Lemma finish_ok s b : finish invalid s = Ok b → b = bb_body s.
Proof. unfold finish. intros Hx. guard_step Hx as Hf. by injection Hx as <-. Qed.
End body_spec.

Section fetch_spec.
Context `{Zlib} (netloc_ok : str → bool) (str_lower : str → str) (client : str → res http_response)
  (check : list nat → res unit) (late : nat → bool).

Lemma read_chunks_ok url max chunks s s' : read_chunks check late url s max chunks = Ok s' → body_ok s →
  body_ok s' ∧ bb_limit s' = bb_limit s ∧ (plain_body s → bb_body s' = bb_body s ++ concat chunks).
Proof.
  revert s. induction chunks as [|chunk chunks IH]; intros s Hx Hs; cbn [read_chunks] in Hx.
  - injection Hx as <-. split_and!; [done..|]. intros _. by rewrite app_nil_r.
  - rewrite bind_unit_Ok in Hx. destruct Hx as [_ Hx]. guard_step Hx as Hl. bind_step Hx as s1 H1.
    destruct (append_ok _ _ _ _ _ _ _ H1 Hs) as (Hs1 & Hlim & _). destruct (IH s1 Hx Hs1) as (Hs' & Hlim' & Hb).
    split_and!; [done|congruence|]. intros Hp. destruct (append_plain _ _ _ _ _ _ _ H1 Hp) as [Hp1 Hb1].
    rewrite Hb, Hb1 by done. cbn [concat]. by rewrite app_assoc.
Qed.

Lemma try_bind_Ok {A} (m : res A) (h : exn → exn) a : try_except m (λ e, Raise (h e)) = Ok a → m = Ok a.
Proof. destruct m; cbn; [done|discriminate]. Qed.

Lemma fetch_bounded_cases url max data : fetch_bounded netloc_ok str_lower client check late url max = Ok data →
  1 ≤ max ∧ validate_resource_url netloc_ok str_lower url = Ok () ∧ read_response client check late url max = Ok data.
Proof.
  unfold fetch_bounded, require_positive_integer. intros Hx. rewrite bind_unit_Ok in Hx. destruct Hx as [_ Hx].
  guard_step Hx as Hm. rewrite bind_unit_Ok in Hx. destruct Hx as [Hu Hx].
  rewrite bind_unit_Ok in Hx. destruct Hx as [_ Hx]. bind_step Hx as d Hd. rewrite bind_unit_Ok in Hx.
  destruct Hx as [_ Hx]. injection Hx as ->. split_and!; [bool_prop; lia|by destruct (validate_resource_url _ _ _) as [[]|]|].
  destruct (read_response _ _ _ _ _) as [x|e]; cbn in Hd; [done|]. destruct e; try done. by destruct kind.
Qed.
End fetch_spec.

(** A read by [SafeC2spResourceFetcher] that returns was of an absolute [https]
    URL without fragment or credentials, answered without redirect by status 200; at most
    [max_bytes] octets are returned, whatever the decompressor produces; and
    without a content encoding they are exactly the octets received. *)
Theorem fetch_bounded_guarantees `{Zlib} (netloc_ok : str → bool) (str_lower : str → str)
    (client : str → res http_response) (check : list nat → res unit) (late : nat → bool)
    (url : str) (max_bytes : Z) (data : bytes)
    (Hrun : fetch_bounded netloc_ok str_lower client check late url max_bytes = Ok data) :
  len data ≤ max_bytes
  ∧ (∃ u, urlsplit netloc_ok url = Ok u ∧ url_scheme u = lit "https" ∧ url_fragment u = []
          ∧ hostname str_lower (url_netloc u) ≠ None ∧ has_credentials (url_netloc u) = false)
  ∧ ∃ r, client url = Ok r ∧ hr_is_redirect r = false ∧ hr_status_code r = 200 ∧ hr_failure r = None
         ∧ (hr_content_encoding r = None → data = concat (hr_chunks r)).
Proof.
  apply fetch_bounded_cases in Hrun as (Hmax & Hurl & Hrun). split_and!.
  - unfold read_response in Hrun. bind_step Hrun as r Hr. rewrite bind_unit_Ok in Hrun. destruct Hrun as [_ Hrun].
    bind_step Hrun as s Hs. apply new_body_ok in Hs as (Hok & Hlim & _); [|lia]. bind_step Hrun as s' Hs'.
    apply read_chunks_ok in Hs' as (Hok' & Hlim' & _); [|done]. destruct (hr_failure r); [done|].
    apply finish_ok in Hrun as ->. unfold body_ok in Hok'. lia.
  - unfold validate_resource_url in Hurl. bind_step Hurl as u Hu. apply raise_if_Ok in Hurl.
    destruct (urlsplit netloc_ok url) as [v|e]; cbn in Hu; [|by destruct (is_value_error e)].
    destruct (port _) as [p|e]; cbn in Hu; [|by destruct (is_value_error e)]. injection Hu as ->.
    exists u. rewrite !orb_false_iff, !negb_false_iff, bool_decide_eq_false, !eqb_true in Hurl.
    destruct Hurl as (((H1 & H2) & H3) & H4). split_and!; done.
  - unfold read_response in Hrun. bind_step Hrun as r Hr. exists r. rewrite bind_unit_Ok in Hrun. destruct Hrun as [Hv Hrun].
    bind_step Hrun as s Hs. apply new_body_ok in Hs as (Hok & _ & Hb & Hp); [|lia]. bind_step Hrun as s' Hs'.
    apply read_chunks_ok in Hs' as (_ & _ & Hb'); [|done]. destruct (hr_failure r); [done|]. apply finish_ok in Hrun as ->.
    unfold validate_resource_response in Hv. guard_step Hv as Hred. guard_step Hv as Hst.
    rewrite negb_false_iff, Z.eqb_eq in Hst. split_and!; [done..|]. intros Hce. rewrite Hb', Hb; [done|]. by apply Hp; left.
Qed.

(** Reads through an injected fetcher are bounded and their failures are of
    known classes: [fetch_bounded_bytes] returns at most [max_bytes] octets, and
    with a positive limit and no missed deadline every failure, whatever the
    fetcher raises, is a [C2spTlogTransportError] or a [VerificationError]. *)
Theorem fetch_bounded_bytes_total (check : list nat → res unit) (fetcher : injected) (url : str) (max_bytes : Z)
    (Hmax : 1 ≤ max_bytes) (Hcheck : ∀ path, check path = Ok ()) :
  match fetch_bounded_bytes check fetcher url max_bytes with
  | Ok data => len data ≤ max_bytes
  | Raise (C2spTlogTransportError _ _ _) => True
  | Raise e => is_verification e = true
  end.
Proof.
  unfold fetch_bounded_bytes, require_positive_integer. rewrite !Hcheck. cbn [mbind result_bind].
  rewrite guard_false by (apply Z.ltb_ge; lia). destruct (in_fetch_bounded fetcher) as [fetch|]; [|done].
  destruct (fetch url max_bytes) as [r|e]; cbn [try_except mbind result_bind].
  - destruct r as [b|t|]; cbn [checked_resource_response try_except mbind result_bind]; [|done..].
    destruct (Z.ltb_spec max_bytes (len b)); cbn; [done|lia].
  - destruct e; try done; by destruct kind.
Qed.

(** ** Witnesses *)
Section fetch_witnesses.
#[local] Instance no_zlib : Zlib :=
  {| decompressobj := unit; new_decompressor _ := (); decompress _ _ _ := None; eof _ := false; unused_data _ := [] |}.

Local Definition two_chunks : http_response :=
  {| hr_is_redirect := false; hr_status_code := 200; hr_content_length := Some (lit "4"); hr_content_encoding := None;
     hr_is_stream_consumed := false; hr_chunks := [[1; 2]; [3; 4]]; hr_failure := None |}.

Lemma fetch_bounded_guarantees_witness : len [1; 2; 3; 4] ≤ 4.
Proof.
  apply (fetch_bounded_guarantees (λ _, true) (λ s, s) (λ _, Ok two_chunks) (λ _, Ok ()) (λ _, false)
           (lit "https://log.example/checkpoint") 4 [1; 2; 3; 4]).
  vm_compute. reflexivity.
Defined.

Local Definition refusing : injected :=
  {| in_fetch_bounded := Some (λ _ _, Raise (OSError OSConnection (lit "dnsid-ssrf-blocked: 10.0.0.1")));
     in_security_guarantees := None; in_call := λ _, Ok ROther |}.

Lemma fetch_bounded_bytes_total_witness :
  match fetch_bounded_bytes (λ _, Ok ()) refusing (lit "https://log.example/checkpoint") 4 with
  | Ok data => len data ≤ 4
  | Raise (C2spTlogTransportError _ _ _) => True
  | Raise e => is_verification e = true
  end.
Proof. apply (fetch_bounded_bytes_total (λ _, Ok ()) refusing); [lia|done]. Defined.
End fetch_witnesses.
