(* ===== verification/PyFloat.v ===== *)
(** * Floating-point numbers

    Python floats as IEEE-754 binary64 values: conversion from decimal text and
    from integers (round to nearest, ties to even) and [repr], the shortest
    decimal that converts back. *)
From S2P Require Import Prelude Errors PyText.

(** [Finite neg m e] is [m * 2^e], with [2^52 <= m < 2^53], or [m < 2^53] and
    [e = -1074]. *)
Inductive pyfloat : Set :=
| Finite (neg : bool) (m e : Z)
| Infinite (neg : bool)
| NaN.

#[global] Instance pyfloat_eq_dec : EqDecision pyfloat.
Proof. solve_decision. Defined.

Definition min_exp : Z := -1074.
Definition max_exp : Z := 971.

(** [n / d] scaled by a power of two, as numerator and denominator. *)
Definition scale2 (n d e : Z) : Z * Z := if e <? 0 then (n * 2 ^ (- e), d) else (n, d * 2 ^ e).

(** Quotient rounded half to even. *)
Definition round_half_even (n d : Z) : Z :=
  let q := n / d in
  let r := n mod d in
  if 2 * r <? d then q
  else if d <? 2 * r then q + 1
  else if Z.even q then q else q + 1.

(** The integer part of the binary logarithm of [n / d], for positive [n]
    and [d]. *)
Definition log2_ratio (n d : Z) : Z :=
  let l := Z.log2 n - Z.log2 d in
  let '(a, b) := scale2 n d l in
  if a <? b then l - 1 else l.

(** The double nearest to [n / d]; [None] on overflow. *)
Definition round_to_double (n d : Z) : option (Z * Z) :=
  if n =? 0 then Some (0, min_exp)
  else
    let e := Z.max (log2_ratio n d - 52) min_exp in
    let '(a, b) := scale2 n d e in
    let m := round_half_even a b in
    let '(m, e) := if m =? 2 ^ 53 then (2 ^ 52, e + 1) else (m, e) in
    if max_exp <? e then None else Some (m, e).

(** [digits * 10^exponent] as a ratio. *)
Definition decimal_ratio (digits exponent : Z) : Z * Z :=
  if exponent <? 0 then (digits, 10 ^ (- exponent)) else (digits * 10 ^ exponent, 1).

(** [float(text)] of a decimal literal. *)
Definition float_of_decimal (neg : bool) (digits exponent : Z) : pyfloat :=
  let '(n, d) := decimal_ratio digits exponent in
  match round_to_double n d with
  | Some (m, e) => Finite neg m e
  | None => Infinite neg
  end.

(** [float(value)] of an integer. *)
Definition float_of_int (value : Z) : res pyfloat :=
  match round_to_double (Z.abs value) 1 with
  | Some (m, e) => Ok (Finite (value <? 0) m e)
  | None => Raise (OverflowError (lit "int too large to convert to float"))
  end.

(** [int(f)] of a finite float. *)
Definition int_of_finite (neg : bool) (m e : Z) : Z :=
  let v := if e <? 0 then m / 2 ^ (- e) else m * 2 ^ e in
  if neg then - v else v.

(** ** Shortest decimal digits *)

(** The value [m * 2^e] as a ratio. *)
Definition float_ratio (m e : Z) : Z * Z := if e <? 0 then (m, 2 ^ (- e)) else (m * 2 ^ e, 1).

(** [n / d >= 10^p] *)
Definition ge_pow10 (n d p : Z) : bool :=
  let '(a, b) := decimal_ratio 1 p in d * a <=? n * b.

(** The least [p >= start] with [n / d < 10^p]. *)
Fixpoint decpt_loop (fuel : nat) (n d p : Z) : Z :=
  match fuel with
  | O => p
  | S fuel => if ge_pow10 n d p then decpt_loop fuel n d (p + 1) else p
  end.
Definition decpt (n d : Z) : Z :=
  let l := log2_ratio n d in
  decpt_loop 4 n d (l * 30103 / 100000).

(** The [k]-digit decimal [D * 10^(-s)] nearest to [n / d] among its two
    neighbours that convert back to [(m, e)]. *)
Definition digits_at (m e n d s : Z) : option Z :=
  let '(a, b) := if s <? 0 then (n, d * 10 ^ (- s)) else (n * 10 ^ s, d) in
  let lo := a / b in
  let back D := let '(x, y) := decimal_ratio D (- s) in
                bool_decide (round_to_double x y = Some (m, e)) in
  let first := round_half_even a b in
  let second := if first =? lo then lo + 1 else lo in
  if back first then Some first
  else if back second then Some second
  else None.

(** From [k] digits upwards; seventeen digits always convert back. *)
Fixpoint shortest_loop (fuel : nat) (m e n d dp k : Z) : Z * Z :=
  match fuel with
  | O => (0, 0)
  | S fuel =>
      match digits_at m e n d (k - dp) with
      | Some D => (D, k - dp)
      | None => shortest_loop fuel m e n d dp (k + 1)
      end
  end.

Definition is_zero_char (c : Z) : bool := c =? 48.

(** The shortest digits of [m * 2^e] without trailing zeros, and the position
    of the decimal point: the value is [0.digits * 10^point]. *)
Definition shortest (m e : Z) : str * Z :=
  let '(n, d) := float_ratio m e in
  let '(D, s) := shortest_loop 17 m e n d (decpt n d) 1 in
  let text := str_of_nonneg D in
  (rstrip is_zero_char text, len text - s).

(** Zeros. *)
Definition zeros (n : Z) : str := replicate (Z.to_nat n) 48.

(** The layout of [repr] for digits and decimal point. *)
Definition repr_layout (digits : str) (point : Z) : str :=
  let k := len digits in
  if (point <=? -4) || (16 <? point) then
    let x := point - 1 in
    take 1 digits ++ (if k =? 1 then [] else [46] ++ drop 1 digits)
    ++ [101] ++ (if x <? 0 then [45] else [43]) ++ zfill 2 (str_of_nonneg (Z.abs x))
  else if point <=? 0 then lit "0." ++ zeros (- point) ++ digits
  else if k <=? point then digits ++ zeros (point - k) ++ lit ".0"
  else take (Z.to_nat point) digits ++ [46] ++ drop (Z.to_nat point) digits.

(** [repr(abs(f))] of a finite non-zero float. *)
Definition repr_abs (m e : Z) : str := let '(ds, point) := shortest m e in repr_layout ds point.
