(* ===== verification/PyTime.v ===== *)
(** * Dates

    The parts of Python's [datetime] the modelled modules use. *)
From S2P Require Import Prelude Errors PyText PyFloat.

(** A [datetime]: its fields as microseconds since the epoch, and its
    [utcoffset()], [None] for a naive value. *)
Record datetime : Set := { dt_wall : Z; dt_utcoffset : option Z }.

#[global] Instance datetime_eq_dec : EqDecision datetime.
Proof. solve_decision. Defined.

(** [datetime.min] and [datetime.max] in microseconds since the epoch. *)
Definition datetime_min : Z := -62135596800000000.
Definition datetime_max : Z := 253402300799999999.

(** [d.astimezone(datetime.UTC)] of an aware [d]. *)
Definition astimezone_utc (wall offset : Z) : res datetime :=
  let u := wall - offset in
  raise_if ((u <? datetime_min) || (datetime_max <? u)) (OverflowError (lit "date value out of range")) ;;
  Ok {| dt_wall := u; dt_utcoffset := Some 0 |}.

(** [datetime.fromtimestamp(seconds, tz=datetime.UTC)] of an integer. *)
Definition fromtimestamp_utc (seconds : Z) : res datetime :=
  raise_if ((seconds * 1000000 <? datetime_min) || (datetime_max <? seconds * 1000000))
    (ValueError (lit "year is out of range")) ;;
  Ok {| dt_wall := seconds * 1000000; dt_utcoffset := Some 0 |}.

(** [d.timestamp() * 1000] of an aware [d]: the quotient by [10^6] and the
    product are both rounded to a double.  The result is the magnitude
    [m * 2^e] with its sign; dates are far from the overflow threshold. *)
Definition timestamp_ms (wall offset : Z) : bool * Z * Z :=
  let us := wall - offset in
  let '(m, e) := default (0, 0) (round_to_double (Z.abs us) 1000000) in
  let '(n, d) := float_ratio m e in
  let '(m, e) := default (0, 0) (round_to_double (n * 1000) d) in
  (us <? 0, m, e).

(** On whole seconds of the representable range nothing is lost. *)
Example timestamp_ms_whole :
  timestamp_ms 1700000000000000 0 = (false, 1700000000000 * 2 ^ 12, -12).
Proof. vm_compute. reflexivity. Qed.
