(* ===== verification/CheckpointStore.v ===== *)
(** * Trusted checkpoints ([c2sp_tlog/checkpoint_store.py])

    The in-memory store of the highest accepted checkpoint per origin: its
    operations as they run under the origin's lock, and the interleavings of
    several threads that go through the two levels of locks. *)
From S2P Require Import Prelude Sha256 Errors PyText PyTime Budget.

(** ** Data *)

Record TrustedCheckpoint : Set := {
  tc_origin : str;
  tc_tree_size : Z;
  tc_root_hash : bytes;
  tc_witness_time : datetime
}.

#[global] Instance TrustedCheckpoint_eq_dec : EqDecision TrustedCheckpoint.
Proof. solve_decision. Defined.

(** ** Validation *)
Definition validate_origin (origin : str) : res unit :=
  raise_if (strip is_space origin ==? []) (ValueError (lit "checkpoint origin must be nonempty")).

(** The dynamic type tests hold by typing. *)
Definition checkpoint_snapshot (checkpoint : TrustedCheckpoint) : res TrustedCheckpoint :=
  validate_origin (tc_origin checkpoint) ;;
  raise_if (tc_tree_size checkpoint <? 0)
    (ValueError (lit "checkpoint tree size must be a non-negative integer")) ;;
  raise_if (negb (len (tc_root_hash checkpoint) =? 32))
    (ValueError (lit "checkpoint root must be a 32-byte SHA-256 hash")) ;;
  raise_if ((tc_tree_size checkpoint =? 0) && negb (tc_root_hash checkpoint ==? sha256 []))
    (ValueError (lit "empty checkpoint root must be SHA-256 of the empty string")) ;;
  match dt_utcoffset (tc_witness_time checkpoint) with
  | None => Raise (ValueError (lit "checkpoint witness time must be timezone-aware"))
  | Some offset =>
      instant ← try_except (astimezone_utc (dt_wall (tc_witness_time checkpoint)) offset)
        (λ _, Raise (ValueError (lit "checkpoint witness time is outside the supported range")));
      Ok {| tc_origin := tc_origin checkpoint; tc_tree_size := tc_tree_size checkpoint;
            tc_root_hash := tc_root_hash checkpoint; tc_witness_time := instant |}
  end.

(** [except (ValueError, TypeError, OverflowError)] *)
Definition is_malformed (e : exn) : bool :=
  match e with ValueError _ | TypeError _ | OverflowError _ => true | _ => false end.

Definition stored_checkpoint (checkpoint : option TrustedCheckpoint) (origin : str)
    : res (option TrustedCheckpoint) :=
  match checkpoint with
  | None => Ok None
  | Some c =>
      try_except
        (snapshot ← checkpoint_snapshot c;
         raise_if (negb (tc_origin snapshot ==? origin))
           (ValueError (lit "stored checkpoint origin mismatch")) ;;
         Ok (Some snapshot))
        (λ e, if is_malformed e
              then Raise (C2spCheckpointStoreError (lit "malformed stored checkpoint"))
              else Raise e)
  end.

(** ** The in-memory store *)

(** [self._by_origin] *)
Abbreviation store := (gmap (list Z) TrustedCheckpoint) (only parsing).

Definition consistency_error (msg : string) (c : category) (trusted observed : TrustedCheckpoint) : exn :=
  C2spCheckpointConsistencyError (lit msg) c (tc_origin trusted) (tc_tree_size trusted)
    (tc_tree_size observed) (tc_root_hash trusted) (tc_root_hash observed).

Definition advance_locked (s : store) (checkpoint : TrustedCheckpoint) : res store :=
  match s !! tc_origin checkpoint with
  | None => Ok (<[tc_origin checkpoint := checkpoint]> s)
  | Some current =>
      raise_if ((tc_tree_size checkpoint =? tc_tree_size current)
                && negb (tc_root_hash checkpoint ==? tc_root_hash current))
        (consistency_error "equal-size checkpoint has a conflicting root" LOG_FORK current checkpoint) ;;
      if tc_tree_size current <=? tc_tree_size checkpoint
      then Ok (<[tc_origin checkpoint := checkpoint]> s)
      else Ok s
  end.

Section operations.
(** [check k] is the outcome of the [k]-th call of [remaining_seconds]. *)
Context (check : nat → res unit).

(** [with self._locked(origin)] when no other thread holds the locks: the
    waits and the entry of the meta lock, then of the origin's lock. *)
Definition locked (origin : str) : res unit :=
  validate_origin origin ;;
  check 0%nat ;; check 1%nat ;; check 2%nat ;; check 3%nat.

Definition get (s : store) (origin : str) : res (option TrustedCheckpoint) :=
  locked origin ;;
  stored_checkpoint (s !! origin) origin.

(** The new store and the outcome; an exception leaves the store as it was. *)
Definition verify_and_advance (s : store) (candidate : TrustedCheckpoint)
    (verify : option TrustedCheckpoint → res unit) : store * res unit :=
  match
    (candidate ← checkpoint_snapshot candidate;
     locked (tc_origin candidate) ;;
     stored ← stored_checkpoint (s !! tc_origin candidate) (tc_origin candidate);
     verify stored ;;
     check 4%nat ;;
     advance_locked s candidate)
  with
  | Ok s' => (s', Ok ())
  | Raise e => (s, Raise e)
  end.

Definition put (s : store) (checkpoint : TrustedCheckpoint) : store * res unit :=
  verify_and_advance s checkpoint (λ _, Ok ()).
End operations.

(** ** Properties of one operation *)

(** A record that [checkpoint_snapshot] returns: valid, and in UTC. *)
Record valid_checkpoint (c : TrustedCheckpoint) : Prop := {
  valid_origin : strip is_space (tc_origin c) ≠ [];
  valid_size : 0 ≤ tc_tree_size c;
  valid_root : len (tc_root_hash c) = 32;
  valid_empty : tc_tree_size c = 0 → tc_root_hash c = sha256 [];
  valid_utc : dt_utcoffset (tc_witness_time c) = Some 0;
  valid_range : datetime_min ≤ dt_wall (tc_witness_time c) ≤ datetime_max
}.

Lemma snapshot_valid c c' : checkpoint_snapshot c = Ok c' →
  valid_checkpoint c' ∧ tc_origin c' = tc_origin c ∧ tc_tree_size c' = tc_tree_size c
  ∧ tc_root_hash c' = tc_root_hash c.
Proof.
  unfold checkpoint_snapshot, validate_origin, astimezone_utc. intros H.
  guard_step H as Ho. guard_step H as Hs. guard_step H as Hr. guard_step H as He.
  destruct (dt_utcoffset _) as [off|]; [|done]. bind_step H as i Hi. injection H as <-.
  rewrite eqb_false in Ho. rewrite negb_false_iff, Z.eqb_eq in Hr. apply Z.ltb_ge in Hs.
  destruct (_ || _) eqn:Hrange; [done|]. injection Hi as <-. rewrite orb_false_iff, !Z.ltb_ge in Hrange.
  split; [|done]. constructor; cbn; try done.
  intros H0. rewrite H0 in He. cbn in He. by rewrite negb_false_iff, eqb_true in He.
Qed.

Lemma snapshot_fixed c : valid_checkpoint c → checkpoint_snapshot c = Ok c.
Proof.
  intros [Ho Hs Hr He Hu Hw]. unfold checkpoint_snapshot, validate_origin, astimezone_utc.
  assert ((strip is_space (tc_origin c) ==? []) = false) as -> by (by apply eqb_false).
  assert ((tc_tree_size c <? 0) = false) as -> by (by apply Z.ltb_ge). rewrite Hr, Hu.
  assert ((tc_tree_size c =? 0) && negb (tc_root_hash c ==? sha256 []) = false) as ->.
  { destruct (Z.eqb_spec (tc_tree_size c) 0) as [H0|]; [|done]. by rewrite (He H0), eqb_refl. }
  cbn [raise_if mbind result_bind negb Z.eqb Pos.eqb]. rewrite Z.sub_0_r.
  assert ((dt_wall (tc_witness_time c) <? datetime_min) || (datetime_max <? dt_wall (tc_witness_time c))
    = false) as -> by (rewrite orb_false_iff, !Z.ltb_ge; lia).
  cbn [raise_if mbind result_bind try_except].
  by destruct c as [o n r [w u]]; cbn in *; subst.
Qed.

(** The records of the store are valid and filed under their origin. *)
Definition wf_store (s : store) : Prop :=
  ∀ o c, s !! o = Some c → valid_checkpoint c ∧ tc_origin c = o.

Lemma wf_stored s o : wf_store s → stored_checkpoint (s !! o) o = Ok (s !! o).
Proof.
  intros Hwf. unfold stored_checkpoint. destruct (s !! o) as [c|] eqn:Hc; [|done].
  destruct (Hwf o c Hc) as [Hv Ho]. rewrite snapshot_fixed by done. cbn. by rewrite Ho, eqb_refl.
Qed.

(** Moving from one record of an origin to the next. *)
Definition advances (current : option TrustedCheckpoint) (next : TrustedCheckpoint) : Prop :=
  match current with
  | None => True
  | Some c => tc_tree_size c ≤ tc_tree_size next
              ∧ (tc_tree_size c = tc_tree_size next → tc_root_hash c = tc_root_hash next)
  end.

Lemma advance_locked_cases s c :
  (∃ cur, s !! tc_origin c = Some cur ∧ tc_tree_size c < tc_tree_size cur ∧ advance_locked s c = Ok s)
  ∨ (advances (s !! tc_origin c) c ∧ advance_locked s c = Ok (<[tc_origin c := c]> s))
  ∨ (∃ cur, s !! tc_origin c = Some cur ∧ tc_tree_size c = tc_tree_size cur
       ∧ tc_root_hash c ≠ tc_root_hash cur
       ∧ advance_locked s c = Raise (consistency_error "equal-size checkpoint has a conflicting root"
                                        LOG_FORK cur c)).
Proof.
  unfold advance_locked, advances. destruct (s !! tc_origin c) as [cur|]; [|by right; left].
  destruct (Z.eqb_spec (tc_tree_size c) (tc_tree_size cur)) as [He|Hne];
    [destruct (tc_root_hash c ==? tc_root_hash cur) eqn:Hr|]; cbn.
  - rewrite eqb_true in Hr. right; left. rewrite (proj2 (Z.leb_le _ _)) by lia.
    split; [|done]. split; [lia|done].
  - rewrite eqb_false in Hr. right; right. by exists cur.
  - destruct (Z.leb_spec (tc_tree_size cur) (tc_tree_size c)).
    + right; left. split; [|done]. split; [lia|intros; lia].
    + left. by exists cur.
Qed.

Lemma wf_store_insert s c : wf_store s → valid_checkpoint c → wf_store (<[tc_origin c := c]> s).
Proof.
  intros Hwf Hc o c' H. apply lookup_insert_Some in H as [[<- <-]|[_ H]]; [done|]. by apply Hwf.
Qed.

Lemma verify_and_advance_cases (check : nat → res unit) (s s' : store)
    (candidate : TrustedCheckpoint) (verify : option TrustedCheckpoint → res unit) (r : res unit)
    (Hwf : wf_store s) (H : verify_and_advance check s candidate verify = (s', r)) :
  let o := tc_origin candidate in
  wf_store s' ∧ (∀ o', o' ≠ o → s' !! o' = s !! o')
  ∧ match r with
    | Raise _ => s' = s
    | Ok _ =>
        ∃ c, checkpoint_snapshot candidate = Ok c ∧ verify (s !! o) = Ok ()
          ∧ ((s' !! o = Some c ∧ advances (s !! o) c)
             ∨ (s' = s ∧ ∃ cur, s !! o = Some cur ∧ tc_tree_size c < tc_tree_size cur))
    end.
Proof.
  cbv zeta. unfold verify_and_advance in H.
  match type of H with match ?m with _ => _ end = _ => destruct m as [s1|e] eqn:Hm end;
    injection H as <- <-; [|done].
  bind_step Hm as c Hc. bind_step Hm as [] Hl. bind_step Hm as st Hst. bind_step Hm as [] Hv.
  bind_step Hm as [] Hb. destruct (snapshot_valid _ _ Hc) as (Hval & Ho & _ & _).
  rewrite wf_stored in Hst by done. injection Hst as <-. rewrite Ho in *.
  destruct (advance_locked_cases s c) as [(cur & Hcur & Hlt & Ha)|[[Hadv Ha]|(cur & _ & _ & _ & Ha)]];
    rewrite Ha in Hm; simplify_eq; rewrite ?Ho in *.
  - split_and!; [done..|]. exists c. eauto 10.
  - split_and!.
    + rewrite <- Ho. by apply wf_store_insert.
    + intros o' Hne. by rewrite lookup_insert_ne.
    + exists c. split_and!; [done..|]. left. by rewrite lookup_insert_eq.
Qed.

(** One [verify_and_advance], on every branch: the store stays well formed
    and only the candidate's origin can change; on an exception nothing
    changes; on success the check of the candidate passed against the very
    record that was stored, and either that record is replaced by one that is
    at least as large and equal in root at equal size, or a smaller candidate
    leaves it in place. *)
Theorem verify_and_advance_spec (check : nat → res unit) (s s' : store)
    (candidate : TrustedCheckpoint) (verify : option TrustedCheckpoint → res unit) (r : res unit)
    (Hwf : wf_store s) (H : verify_and_advance check s candidate verify = (s', r)) :
  let o := tc_origin candidate in
  wf_store s' ∧ (∀ o', o' ≠ o → s' !! o' = s !! o')
  ∧ match r with
    | Raise _ => s' = s
    | Ok _ =>
        ∃ c, checkpoint_snapshot candidate = Ok c ∧ verify (s !! o) = Ok ()
          ∧ ((s' !! o = Some c ∧ advances (s !! o) c)
             ∨ (s' = s ∧ ∃ cur, s !! o = Some cur ∧ tc_tree_size c < tc_tree_size cur))
    end.
Proof. by eapply verify_and_advance_cases. Qed.

(** ** Threads

    Several threads call [verify_and_advance] on one store.  A thread waits for
    the meta lock, finds or creates the origin's lock, waits for that lock,
    loads the record, runs the check, and publishes; every wait and every check
    of the budget can end in [BudgetExhausted], and every exception releases
    the lock that is held. *)
Module Threads.
Inductive pc : Set :=
| Idle
| WaitMeta (c : TrustedCheckpoint)
| HoldMeta (c : TrustedCheckpoint)
| WaitOrigin (c : TrustedCheckpoint)
| HoldOrigin (c : TrustedCheckpoint)
| Loaded (c : TrustedCheckpoint) (stored : option TrustedCheckpoint)
| Verified (c : TrustedCheckpoint) (stored : option TrustedCheckpoint)
| Done
| Failed (e : exn).

(** [_by_origin], the owner of [_meta], the origin locks with their owners,
    and the threads. *)
Record system : Type := {
  by_origin : store;
  meta : option nat;
  origin_locks : gmap (list Z) (option nat);
  threads : gmap nat pc
}.

Definition goto (t : nat) (p : pc) (y : system) : system :=
  {| by_origin := by_origin y; meta := meta y; origin_locks := origin_locks y;
     threads := <[t := p]> (threads y) |}.
Definition set_meta (m : option nat) (y : system) : system :=
  {| by_origin := by_origin y; meta := m; origin_locks := origin_locks y; threads := threads y |}.
Definition set_lock (o : str) (l : option nat) (y : system) : system :=
  {| by_origin := by_origin y; meta := meta y; origin_locks := <[o := l]> (origin_locks y);
     threads := threads y |}.
Definition set_store (s : store) (y : system) : system :=
  {| by_origin := s; meta := meta y; origin_locks := origin_locks y; threads := threads y |}.

(** [_lock_for] creates the lock of an origin once. *)
Definition ensure_lock (o : str) (y : system) : system :=
  match origin_locks y !! o with Some _ => y | None => set_lock o None y end.

Section semantics.
Context (verify : TrustedCheckpoint → option TrustedCheckpoint → res unit).

Inductive step : system → system → Prop :=
| step_start y t c c' :
    threads y !! t = Some Idle → checkpoint_snapshot c = Ok c' →
    step y (goto t (WaitMeta c') y)
| step_start_error y t c e :
    threads y !! t = Some Idle → checkpoint_snapshot c = Raise e →
    step y (goto t (Failed e) y)
| step_acquire_meta y t c :
    threads y !! t = Some (WaitMeta c) → meta y = None →
    step y (goto t (HoldMeta c) (set_meta (Some t) y))
| step_wait_meta_expired y t c :
    threads y !! t = Some (WaitMeta c) → step y (goto t (Failed BudgetExhausted) y)
| step_hold_meta_expired y t c :
    threads y !! t = Some (HoldMeta c) →
    step y (goto t (Failed BudgetExhausted) (set_meta None y))
| step_lock_for y t c :
    threads y !! t = Some (HoldMeta c) →
    step y (goto t (WaitOrigin c) (set_meta None (ensure_lock (tc_origin c) y)))
| step_acquire_origin y t c :
    threads y !! t = Some (WaitOrigin c) → origin_locks y !! tc_origin c = Some None →
    step y (goto t (HoldOrigin c) (set_lock (tc_origin c) (Some t) y))
| step_wait_origin_expired y t c :
    threads y !! t = Some (WaitOrigin c) → step y (goto t (Failed BudgetExhausted) y)
| step_load y t c stored :
    threads y !! t = Some (HoldOrigin c) →
    stored_checkpoint (by_origin y !! tc_origin c) (tc_origin c) = Ok stored →
    step y (goto t (Loaded c stored) y)
| step_load_error y t c e :
    threads y !! t = Some (HoldOrigin c) →
    (e = BudgetExhausted
     ∨ stored_checkpoint (by_origin y !! tc_origin c) (tc_origin c) = Raise e) →
    step y (goto t (Failed e) (set_lock (tc_origin c) None y))
| step_verify y t c stored :
    threads y !! t = Some (Loaded c stored) → verify c stored = Ok () →
    step y (goto t (Verified c stored) y)
| step_verify_error y t c stored e :
    threads y !! t = Some (Loaded c stored) → verify c stored = Raise e ∨ e = BudgetExhausted →
    step y (goto t (Failed e) (set_lock (tc_origin c) None y))
| step_advance y t c stored s' :
    threads y !! t = Some (Verified c stored) → advance_locked (by_origin y) c = Ok s' →
    step y (goto t Done (set_lock (tc_origin c) None (set_store s' y)))
| step_advance_error y t c stored e :
    threads y !! t = Some (Verified c stored) → advance_locked (by_origin y) c = Raise e →
    step y (goto t (Failed e) (set_lock (tc_origin c) None y)).

(** Any number of threads about to call, on an empty store. *)
Definition initial (y : system) : Prop :=
  by_origin y = ∅ ∧ meta y = None ∧ origin_locks y = ∅ ∧ (∀ t p, threads y !! t = Some p → p = Idle).

Definition reachable (y : system) : Prop := ∃ y0, initial y0 ∧ rtc step y0 y.

(** The candidate of a thread that is past validation. *)
Definition candidate_of (p : pc) : option TrustedCheckpoint :=
  match p with
  | WaitMeta c | HoldMeta c | WaitOrigin c | HoldOrigin c | Loaded c _ | Verified c _ => Some c
  | _ => None
  end.

(** The candidate of a thread that holds its origin's lock. *)
Definition holds_origin (p : pc) : option TrustedCheckpoint :=
  match p with HoldOrigin c | Loaded c _ | Verified c _ => Some c | _ => None end.

Definition seen (p : pc) : option (TrustedCheckpoint * option TrustedCheckpoint) :=
  match p with Loaded c v | Verified c v => Some (c, v) | _ => None end.

Record invariant (y : system) : Prop := {
  inv_store : wf_store (by_origin y);
  inv_valid : ∀ t p c, threads y !! t = Some p → candidate_of p = Some c → valid_checkpoint c;
  inv_lock : ∀ t p c, threads y !! t = Some p → holds_origin p = Some c →
    origin_locks y !! tc_origin c = Some (Some t);
  inv_seen : ∀ t p c v, threads y !! t = Some p → seen p = Some (c, v) →
    v = by_origin y !! tc_origin c;
  inv_verified : ∀ t c v, threads y !! t = Some (Verified c v) → verify c v = Ok ()
}.

Lemma invariant_initial y : initial y → invariant y.
Proof.
  intros (Hs & Hm & Hl & Ht). constructor.
  - intros o c. rewrite Hs, lookup_empty. done.
  - intros t p c Hp. by apply Ht in Hp as ->.
  - intros t p c Hp. by apply Ht in Hp as ->.
  - intros t p c v Hp. by apply Ht in Hp as ->.
  - intros t c v Hp. by apply Ht in Hp.
Qed.

(** A step of thread [t] keeps the invariant when its new state satisfies it
    and whatever other threads have locked is left alone. *)
Lemma invariant_local y y' t p p' :
  invariant y → threads y !! t = Some p → threads y' = <[t := p']> (threads y) →
  wf_store (by_origin y') →
  (∀ c, candidate_of p' = Some c → valid_checkpoint c) →
  (∀ c, holds_origin p' = Some c → origin_locks y' !! tc_origin c = Some (Some t)) →
  (∀ c v, seen p' = Some (c, v) → v = by_origin y' !! tc_origin c) →
  (∀ c v, p' = Verified c v → verify c v = Ok ()) →
  (∀ t2 o, t2 ≠ t → origin_locks y !! o = Some (Some t2) →
     origin_locks y' !! o = Some (Some t2) ∧ by_origin y' !! o = by_origin y !! o) →
  invariant y'.
Proof.
  intros Hinv Hp Ht' Hwf Hval Hlock Hseen Hver Hothers.
  constructor; [done|..]; intros t2 *; rewrite Ht'; intros H;
    (destruct (decide (t2 = t)) as [->|Hne];
      [rewrite lookup_insert_eq in H; apply (inj Some) in H; subst; eauto
      |rewrite lookup_insert_ne in H by done]).
  - by eapply inv_valid.
  - intros Hh. eapply Hothers; [done|]. by eapply inv_lock.
  - intros Hs. assert (holds_origin p0 = Some c) as Hh by (destruct p0; naive_solver).
    destruct (Hothers t2 (tc_origin c) Hne) as [_ ->]; [by eapply inv_lock|]. by eapply inv_seen.
  - by eapply inv_verified.
Qed.

Lemma set_lock_others (y : system) o l t t2 o' :
  t2 ≠ t → origin_locks y !! o = Some (Some t) ∨ origin_locks y !! o = Some None
           ∨ origin_locks y !! o = None →
  origin_locks y !! o' = Some (Some t2) → <[o := l]> (origin_locks y) !! o' = Some (Some t2).
Proof.
  intros Hne Ho Ho'. destruct (decide (o = o')) as [->|]; [|by rewrite lookup_insert_ne].
  destruct Ho as [Ho|[Ho|Ho]]; congruence.
Qed.

Lemma advance_locked_other s s' c o : advance_locked s c = Ok s' → o ≠ tc_origin c → s' !! o = s !! o.
Proof.
  intros H Hne. destruct (advance_locked_cases s c) as [(?&_&_&Ha)|[[_ Ha]|(?&_&_&_&Ha)]];
    rewrite Ha in H; simplify_eq; [done|]. by rewrite lookup_insert_ne.
Qed.

Lemma advance_locked_wf s s' c : advance_locked s c = Ok s' → wf_store s → valid_checkpoint c → wf_store s'.
Proof.
  intros H Hwf Hc. destruct (advance_locked_cases s c) as [(?&_&_&Ha)|[[_ Ha]|(?&_&_&_&Ha)]];
    rewrite Ha in H; simplify_eq; [done|]. by apply wf_store_insert.
Qed.

Lemma ensure_lock_others y o o' l :
  origin_locks y !! o' = Some l → origin_locks (ensure_lock o y) !! o' = Some l.
Proof.
  intros H. unfold ensure_lock. destruct (origin_locks y !! o) eqn:Ho; [done|].
  cbn. rewrite lookup_insert_ne; [done|]. congruence.
Qed.

Lemma ensure_lock_frame y o : by_origin (ensure_lock o y) = by_origin y
  ∧ threads (ensure_lock o y) = threads y.
Proof. unfold ensure_lock. by case_match. Qed.

Lemma invariant_step y y' : invariant y → step y y' → invariant y'.
Proof.
  intros Hinv Hstep. pose proof (inv_store _ Hinv) as Hwf.
  destruct Hstep as [y t c c' Hp Hc|y t c e Hp Hc|y t c Hp Hm|y t c Hp|y t c Hp|y t c Hp
    |y t c Hp Hl|y t c Hp|y t c v Hp Hv|y t c e Hp He|y t c v Hp Hv|y t c v e Hp He
    |y t c v s' Hp Ha|y t c v e Hp Ha];
    pose proof (λ c, inv_valid _ Hinv t _ c Hp) as Hvalid;
    pose proof (λ c, inv_lock _ Hinv t _ c Hp) as Hlocks;
    pose proof (λ c v, inv_seen _ Hinv t _ c v Hp) as Hseen;
    cbn in Hvalid, Hlocks, Hseen.
  all: try (destruct (ensure_lock_frame y (tc_origin c)) as [Hs Ht]).
  all: eapply (invariant_local y _ t); try exact Hp; try exact Hinv;
    cbn; rewrite ?Hs, ?Ht; try done; try (intros; simplify_eq; by eauto).
  - intros c0 [= <-]. by eapply snapshot_valid.
  - intros t2 o Hne Ho. split; [by apply ensure_lock_others|done].
  - intros c0 [= <-]. apply lookup_insert_eq.
  - intros t2 o Hne Ho. split; [|done]. eapply set_lock_others; eauto.
  - intros c0 v0 [= <- <-]. rewrite wf_stored in Hv by done. by injection Hv.
  - intros t2 o Hne Ho. split; [|done]. eapply set_lock_others; eauto.
  - intros t2 o Hne Ho. split; [|done]. eapply set_lock_others; eauto.
  - eapply advance_locked_wf; eauto.
  - intros t2 o Hne Ho. specialize (Hlocks c eq_refl). split; [eapply set_lock_others; eauto|].
    eapply advance_locked_other; [done|]. intros ->. congruence.
  - intros t2 o Hne Ho. split; [|done]. eapply set_lock_others; eauto.
Qed.

Lemma invariant_reachable y : reachable y → invariant y.
Proof.
  intros (y0 & Hi & Hr). apply invariant_initial in Hi. revert Hi.
  induction Hr; eauto using invariant_step.
Qed.

(** What one step of any thread does to the record of an origin. *)
Lemma step_store y y' o :
  invariant y → step y y' →
  by_origin y' !! o = by_origin y !! o
  ∨ ∃ c, by_origin y' !! o = Some c ∧ verify c (by_origin y !! o) = Ok ()
         ∧ advances (by_origin y !! o) c.
Proof.
  intros Hinv Hstep. destruct Hstep as [| | | | |y t c Hp| | | | | | |y t c v s' Hp Ha|];
    try (by left).
  - left. cbn. by destruct (ensure_lock_frame y (tc_origin c)) as [-> _].
  - cbn. destruct (decide (o = tc_origin c)) as [->|Hne]; [|left; by eapply advance_locked_other].
    pose proof (inv_verified _ Hinv _ _ _ Hp) as Hv.
    pose proof (inv_seen _ Hinv t _ c v Hp eq_refl) as ->.
    destruct (advance_locked_cases (by_origin y) c) as [(?&_&_&Hc)|[[Hadv Hc]|(?&_&_&_&Hc)]];
      rewrite Hc in Ha; simplify_eq; [by left|].
    right. exists c. split_and!; [|done..]. apply lookup_insert_eq.
Qed.
End semantics.

(** Mutual exclusion: in every reachable state of every interleaving, two
    threads that are between acquiring and releasing the lock of one origin
    are the same thread, and what such a thread has loaded is still what the
    store holds. *)
Theorem origin_lock_exclusive
    (verify : TrustedCheckpoint → option TrustedCheckpoint → res unit) (y : system)
    (t1 t2 : nat) (p1 p2 : pc) (c1 c2 : TrustedCheckpoint)
    (Hr : reachable verify y)
    (H1 : threads y !! t1 = Some p1) (H2 : threads y !! t2 = Some p2)
    (Hc1 : holds_origin p1 = Some c1) (Hc2 : holds_origin p2 = Some c2)
    (Ho : tc_origin c1 = tc_origin c2) :
  t1 = t2 ∧ (∀ v, seen p1 = Some (c1, v) → v = by_origin y !! tc_origin c1).
Proof.
  apply invariant_reachable in Hr as Hinv.
  pose proof (inv_lock _ _ Hinv _ _ _ H1 Hc1) as L1. pose proof (inv_lock _ _ Hinv _ _ _ H2 Hc2) as L2.
  rewrite Ho, L2 in L1. split; [congruence|]. intros v Hs.
  exact (inv_seen _ _ Hinv _ _ _ _ H1 Hs).
Qed.

(** C22 No check is stale: in every interleaving, a step that changes the record
    of an origin publishes a candidate whose check passed against exactly the
    record it replaces, so two threads cannot both extend the same trusted
    checkpoint in different ways. *)
Theorem publication_verified
    (verify : TrustedCheckpoint → option TrustedCheckpoint → res unit) (y y' : system) (o : str)
    (Hr : reachable verify y) (Hs : step verify y y') :
  by_origin y' !! o = by_origin y !! o
  ∨ ∃ c, by_origin y' !! o = Some c ∧ verify c (by_origin y !! o) = Ok ()
         ∧ advances (by_origin y !! o) c.
Proof. by eapply step_store, Hs; apply invariant_reachable. Qed.

(** Any reflexive and transitive relation that the check enforces holds
    between an earlier and a later record. *)
Lemma history_related (verify : TrustedCheckpoint → option TrustedCheckpoint → res unit)
    (R : TrustedCheckpoint → TrustedCheckpoint → Prop) `{!PreOrder R} y1 y2 o c1 :
  (∀ c cur, verify c (Some cur) = Ok () → advances (Some cur) c → R cur c) →
  reachable verify y1 → rtc (step verify) y1 y2 → by_origin y1 !! o = Some c1 →
  ∃ c2, by_origin y2 !! o = Some c2 ∧ R c1 c2.
Proof.
  intros HR Hr%invariant_reachable Hsteps. revert c1.
  induction Hsteps as [y|y y' y2 Hs Hsteps IH]; intros c1 H1; [by exists c1|].
  pose proof (invariant_step _ _ _ Hr Hs) as Hr'.
  destruct (step_store _ _ _ o Hr Hs) as [He|(c & Hc & Hv & Ha)].
  - apply (IH Hr'). by rewrite He.
  - destruct (IH Hr' c Hc) as (c2 & H2 & HR2). exists c2. split; [done|].
    rewrite H1 in Hv, Ha. etrans; [by apply HR|done].
Qed.

(** The order in which records of one origin may follow each other. *)
Definition extends (c c' : TrustedCheckpoint) : Prop := advances (Some c) c'.

#[global] Instance extends_preorder : PreOrder extends.
Proof.
  split; [by intros c; split|]. intros a b c [H1 H2] [H3 H4]. split; [lia|]. intros H.
  rewrite H2, H4 by lia. done.
Qed.

(** No rollback and no fork at equal size, under any check: once an origin
    has a record, every later record of it, in any interleaving, is at least
    as large, and has the same root if it is equally large. *)
Theorem store_monotone (verify : TrustedCheckpoint → option TrustedCheckpoint → res unit)
    (y1 y2 : system) (o : str) (c1 : TrustedCheckpoint)
    (Hr : reachable verify y1) (Hs : rtc (step verify) y1 y2) (H1 : by_origin y1 !! o = Some c1) :
  ∃ c2, by_origin y2 !! o = Some c2 ∧ tc_tree_size c1 ≤ tc_tree_size c2
    ∧ (tc_tree_size c1 = tc_tree_size c2 → tc_root_hash c1 = tc_root_hash c2).
Proof.
  destruct (history_related verify extends y1 y2 o c1) as (c2 & H2 & HR);
    [by intros c cur _ Ha|done..|]. by exists c2.
Qed.
End Threads.

(** ** Witnesses: two threads on one origin *)
Definition utc (t : Z) : datetime := {| dt_wall := t; dt_utcoffset := Some 0 |}.
Definition demo_tc (size : Z) (root : bytes) : TrustedCheckpoint :=
  {| tc_origin := lit "log.example"; tc_tree_size := size; tc_root_hash := root;
     tc_witness_time := utc 1700000000000000 |}.

Lemma verify_and_advance_spec_witness :
  let s := <[lit "log.example" := demo_tc 3 (replicate 32 1)]> (∅ : store) in
  fst (verify_and_advance (λ _, Ok ()) s (demo_tc 5 (replicate 32 2)) (λ _, Ok ()))
    !! lit "log.example" = Some (demo_tc 5 (replicate 32 2))
  ∧ wf_store (fst (verify_and_advance (λ _, Ok ()) s (demo_tc 5 (replicate 32 2)) (λ _, Ok ()))).
Proof.
  cbv zeta. split; [by vm_compute|].
  refine (proj1 (verify_and_advance_spec (λ _, Ok ())
    (<[lit "log.example" := demo_tc 3 (replicate 32 1)]> (∅ : store)) _
    (demo_tc 5 (replicate 32 2)) (λ _, Ok ()) (Ok ()) _ _)).
  - intros o c Hc. apply lookup_insert_Some in Hc as [[<- <-]|[_ Hc]]; [|done].
    split; [|done]. constructor; vm_compute; done.
  - rewrite (surjective_pairing (verify_and_advance _ _ _ _)). f_equal; by vm_compute.
Defined.

Import Threads.

(** The first thread has run to the end, the second is still idle; then the
    second starts. *)
Definition demo_y0 : system :=
  {| by_origin := ∅; meta := None; origin_locks := ∅;
     threads := {[ 0%nat := Idle; 1%nat := Idle ]} |}.
Definition demo_verify_any : TrustedCheckpoint → option TrustedCheckpoint → res unit := λ _ _, Ok ().
Definition demo_c : TrustedCheckpoint := demo_tc 5 (replicate 32 2).
Definition demo_y1 : system := goto 0%nat (WaitMeta demo_c) demo_y0.
Definition demo_y2 : system := goto 0%nat (HoldMeta demo_c) (set_meta (Some 0%nat) demo_y1).
Definition demo_y3 : system :=
  goto 0%nat (WaitOrigin demo_c) (set_meta None (ensure_lock (tc_origin demo_c) demo_y2)).
Definition demo_y4 : system :=
  goto 0%nat (HoldOrigin demo_c) (set_lock (tc_origin demo_c) (Some 0%nat) demo_y3).
Definition demo_y5 : system := goto 0%nat (Loaded demo_c None) demo_y4.
Definition demo_y6 : system := goto 0%nat (Verified demo_c None) demo_y5.
Definition demo_y7 : system :=
  goto 0%nat Done (set_lock (tc_origin demo_c) None
    (set_store (<[tc_origin demo_c := demo_c]> (by_origin demo_y6)) demo_y6)).

Lemma demo_y0_initial : initial demo_y0.
Proof.
  split_and!; [done..|]. intros t p Hp. cbn in Hp.
  apply lookup_insert_Some in Hp as [[_ <-]|[_ Hp]]; [done|].
  by apply lookup_singleton_Some in Hp as [_ <-].
Qed.

Lemma demo_reachable_6 : reachable demo_verify_any demo_y6.
Proof.
  exists demo_y0. split; [exact demo_y0_initial|].
  apply (rtc_l _ _ demo_y1); [by apply (step_start _ _ 0%nat demo_c); vm_compute|].
  apply (rtc_l _ _ demo_y2); [by apply step_acquire_meta; vm_compute|].
  apply (rtc_l _ _ demo_y3); [by apply step_lock_for; vm_compute|].
  apply (rtc_l _ _ demo_y4); [by apply step_acquire_origin; vm_compute|].
  apply (rtc_l _ _ demo_y5); [by apply step_load; vm_compute|].
  apply (rtc_l _ _ demo_y6); [by apply step_verify; vm_compute|].
  done.
Qed.

Lemma demo_step_7 : step demo_verify_any demo_y6 demo_y7.
Proof. by apply (step_advance _ demo_y6 0%nat demo_c None); vm_compute. Qed.

Lemma demo_reachable_7 : reachable demo_verify_any demo_y7.
Proof.
  destruct demo_reachable_6 as (y0 & Hi & Hr). exists y0. split; [done|].
  eapply rtc_r; [done|apply demo_step_7].
Qed.

Lemma origin_lock_exclusive_witness : 0%nat = 0%nat ∧ None = by_origin demo_y6 !! tc_origin demo_c.
Proof.
  destruct (origin_lock_exclusive demo_verify_any demo_y6 0 0 (Verified demo_c None)
    (Verified demo_c None) demo_c demo_c demo_reachable_6 eq_refl eq_refl eq_refl eq_refl eq_refl)
    as [H1 H2].
  split; [exact H1|exact (H2 None eq_refl)].
Defined.

Lemma publication_verified_witness :
  by_origin demo_y7 !! tc_origin demo_c = by_origin demo_y6 !! tc_origin demo_c
  ∨ ∃ c, by_origin demo_y7 !! tc_origin demo_c = Some c
         ∧ demo_verify_any c (by_origin demo_y6 !! tc_origin demo_c) = Ok ()
         ∧ advances (by_origin demo_y6 !! tc_origin demo_c) c.
Proof.
  exact (publication_verified demo_verify_any demo_y6 demo_y7 (tc_origin demo_c)
           demo_reachable_6 demo_step_7).
Defined.

Lemma store_monotone_witness :
  ∃ c2, by_origin demo_y7 !! tc_origin demo_c = Some c2 ∧ tc_tree_size demo_c ≤ tc_tree_size c2
    ∧ (tc_tree_size demo_c = tc_tree_size c2 → tc_root_hash demo_c = tc_root_hash c2).
Proof.
  apply (store_monotone demo_verify_any demo_y7 demo_y7 (tc_origin demo_c) demo_c demo_reachable_7);
    [constructor|by vm_compute].
Defined.
