(* ===== verification/HashTiles.v ===== *)
(** * Hash-tile consistency ([c2sp_tlog/hash_tiles.py])

    Continuity of a trusted checkpoint checked with the hash tiles of the
    candidate tree.  The generator is run by the driver of [_async.py], which
    answers each request with [fetch]; every URL is requested at most once, so
    [fetch] is a function.  [check] is the outcome of each call of
    [remaining_seconds]. *)
From S2P Require Import Prelude Sha256 Errors PyText PyTime Merkle Tiles CheckpointStore.

(** [data[i:i + 32] for i in range(0, len(data), 32)] *)
Fixpoint chunks (fuel : nat) (b : bytes) : list bytes :=
  match fuel, b with
  | O, _ | _, [] => []
  | S fuel, _ => take 32 b :: chunks fuel (drop 32 b)
  end.

(** [_hash_root]; each call is on a shorter list, so the length is enough
    fuel. *)
Fixpoint hash_root (fuel : nat) (hashes : list bytes) (tail : option bytes) : res bytes :=
  match hashes, tail with
  | [], None => Raise (ValueError (lit "cannot hash an empty tree"))
  | [], Some t => Ok t
  | [h], None => Ok h
  | _, _ =>
      match fuel with
      | O => Raise (ValueError (lit "unreachable"))
      | S fuel =>
          let split := (2 ^ Nat.log2 (length hashes))%nat in
          let split := if Nat.eqb split (length hashes) && bool_decide (tail = None)
                       then Nat.div2 split else split in
          l ← hash_root fuel (take split hashes) None;
          r ← hash_root fuel (drop split hashes) tail;
          Ok (node_hash l r)
      end
  end.

(** [(level, index)] *)
Abbreviation tile_key := (Z * Z)%type (only parsing).

(** The calls of [remaining_seconds]: around the reads of a tile, and at the
    end. *)
Inductive tile_moment : Set := BeforeRead (key : tile_key) | BeforeFull (key : tile_key) | AfterRead (key : tile_key) | AtEnd.

(** [tiles], in order of insertion, and [authenticated]. *)
Record tile_state : Set := { ts_tiles : list (tile_key * list bytes); ts_authenticated : list tile_key }.

Definition find_tile (key : tile_key) (st : tile_state) : option (list bytes) :=
  snd <$> List.find (λ kv, kv.1 ==? key) (ts_tiles st).
Definition add_tile (key : tile_key) (hashes : list bytes) (st : tile_state) : tile_state :=
  {| ts_tiles := ts_tiles st ++ [(key, hashes)]; ts_authenticated := ts_authenticated st |}.
Definition mark_authenticated (key : tile_key) (st : tile_state) : tile_state :=
  {| ts_tiles := ts_tiles st; ts_authenticated := key :: ts_authenticated st |}.

Section consistency.
Context (fetch : str → Z → res bytes) (check : tile_moment → res unit) (prefix : str)
  (trusted candidate : TrustedCheckpoint).

Definition invalid (message : string) : exn := consistency_error message INVALID_EVIDENCE trusted candidate.

(** The width of a tile in the candidate tree. *)
Definition tile_width (key : tile_key) : Z :=
  Z.min 256 (Z.shiftr (tc_tree_size candidate) (8 * key.1) - key.2 * 256).

(** The requests for one tile, with the full tile in place of a missing
    partial one. *)
Definition request_tile (key : tile_key) (width : Z) : res bytes :=
  path ← tile_path prefix key.1 key.2 (if width <? 256 then Some width else None);
  match fetch path (32 * width) with
  | Raise (C2spTlogTransportError m transient status_code) =>
      if negb (width <? 256)
         || negb ((status_code ==? Some 403) || (status_code ==? Some 404))
      then Raise (C2spTlogTransportError m transient status_code)
      else
        check (BeforeFull key) ;;
        full ← tile_path prefix key.1 key.2 None;
        data ← fetch full 8192;
        raise_if (negb (len data =? 8192)) (invalid "full hash tile has an invalid length") ;;
        Ok (take (Z.to_nat (32 * width)) data)
  | r => r
  end.

Definition fetch_tile (key : tile_key) : res (list bytes) :=
  check (BeforeRead key) ;;
  let width := tile_width key in
  raise_if (negb ((1 <=? width) && (width <=? 256))) (invalid "hash tile width is outside the candidate tree") ;;
  data ← request_tile key width;
  check (AfterRead key) ;;
  raise_if (negb (len data =? 32 * width)) (invalid "hash tile has an invalid length") ;;
  Ok (chunks (length data) data).

(** [read(level, index)] *)
Definition read (key : tile_key) (st : tile_state) : res (tile_state * list bytes) :=
  match find_tile key st with
  | Some hashes => Ok (st, hashes)
  | None => hashes ← fetch_tile key; Ok (add_tile key hashes st, hashes)
  end.

(** [root(size, edge=edge)]: the loop divides [size] by 256, so its bit length
    is enough fuel. *)
Fixpoint root_walk (fuel : nat) (edge : bool) (level size : Z) (tail : option bytes) (st : tile_state)
    : res (tile_state * option bytes) :=
  match fuel with
  | O => Ok (st, tail)
  | S fuel =>
      if size =? 0 then Ok (st, tail)
      else
        let width := size mod 256 in
        if width =? 0 then root_walk fuel edge (level + 1) (size / 256) tail st
        else
          let key := (level, size / 256) in
          '(st, hashes) ← read key st;
          let own := take (Z.to_nat width) hashes in
          t ← hash_root (length own) own tail;
          root_walk fuel edge (level + 1) (size / 256) (Some t) (if edge then mark_authenticated key st else st)
  end.

Definition tree_depth (size : Z) : nat := S (Z.to_nat (Z.log2 size)).

Definition root (size : Z) (edge : bool) (st : tile_state) : res (tile_state * bytes) :=
  '(st, tail) ← root_walk (tree_depth size) edge 0 size None st;
  match tail with
  | None => Raise (invalid "cannot hash an empty checkpoint tree")
  | Some t => Ok (st, t)
  end.

(** [authenticate(key)]; a full tile has fewer than 256 times fewer siblings one
    level up, so the depth of the tree is enough fuel. *)
Fixpoint authenticate_tile (fuel : nat) (key : tile_key) (st : tile_state) : res tile_state :=
  if bool_decide (key ∈ ts_authenticated st) then Ok st
  else
    match find_tile key st, fuel with
    | None, _ => Raise (KeyError (lit "tile"))
    | Some _, O => Raise (ValueError (lit "unreachable"))
    | Some own, S fuel =>
        raise_if (negb (len own =? 256)) (invalid "non-edge hash tile must be full") ;;
        let parent_key := (key.1 + 1, key.2 / 256) in
        '(st, parent) ← read parent_key st;
        st ← authenticate_tile fuel parent_key st;
        h ← hash_root (length own) own None;
        claimed ← match parent !! Z.to_nat (key.2 mod 256) with
                  | Some h => Ok h
                  | None => Raise (IndexError (lit "list index out of range"))
                  end;
        raise_if (negb (h ==? claimed))
          (invalid "hash tile does not authenticate against the candidate checkpoint") ;;
        Ok (mark_authenticated key st)
    end.

Fixpoint authenticate_all (keys : list tile_key) (st : tile_state) : res tile_state :=
  match keys with
  | [] => Ok st
  | key :: keys =>
      st ← authenticate_tile (tree_depth (tc_tree_size candidate)) key st;
      authenticate_all keys st
  end.

(** The tiles and the authenticated keys at the end. *)
Definition consistency_run (max_tree_size : Z) : res tile_state :=
  let n := tc_tree_size candidate in
  raise_if (negb ((0 <? tc_tree_size trusted) && (tc_tree_size trusted <? n) && (n <=? max_tree_size)))
    (invalid "hash-tile checkpoint sizes exceed configured limits") ;;
  '(st, new_root) ← root n true {| ts_tiles := []; ts_authenticated := [] |};
  raise_if (negb (new_root ==? tc_root_hash candidate))
    (invalid "hash tiles do not reproduce the candidate checkpoint root") ;;
  '(st, old_root) ← root (tc_tree_size trusted) false st;
  st ← authenticate_all (map fst (ts_tiles st)) st;
  check AtEnd ;;
  raise_if (negb (old_root ==? tc_root_hash trusted))
    (consistency_error "candidate-authenticated hash tiles contradict the trusted checkpoint root"
       LOG_INCONSISTENT trusted candidate) ;;
  Ok st.

Definition consistency_tiles (max_tree_size : Z) : res unit :=
  consistency_run max_tree_size ;; Ok ().
End consistency.
