(* ===== verification/HashTilesSpec.v ===== *)
(** * What the hash tiles show

    The tiles that the verifier accepts are those of the candidate's log, so the
    trusted checkpoint is that of a prefix of it; and an honest log's tiles are
    always accepted. *)
From S2P Require Import Prelude Sha256 Errors PyText PyTime Merkle MerkleConsistency Tiles CheckpointStore HashTiles.

(** ** Levels of a tree *)

(** [k] levels up. *)
Abbreviation lv k L := (Nat.iter k next_level L).

Lemma lv_S k L : lv (S k) L = lv k (next_level L).
Proof. symmetry. apply (Nat.iter_swap k). Qed.

Lemma lv_add a b L : lv (a + b) L = lv a (lv b L).
Proof. apply Nat.iter_add. Qed.

Lemma lv_nil k : lv k [] = [].
Proof. induction k; [done|]. by rewrite lv_S. Qed.

Lemma lv_root k L : level_root (lv k L) = level_root L.
Proof. revert L. induction k; intros L; [done|]. rewrite lv_S, IHk. apply level_root_next. Qed.

Lemma lv_hashes32 k L : hashes32 L → hashes32 (lv k L).
Proof. revert L. induction k; intros L HL; [done|]. rewrite lv_S. auto with py. Qed.

Lemma length_lv_exact k c L : length L = (c * 2 ^ k)%nat → length (lv k L) = c.
Proof.
  revert L. induction k as [|k IH]; intros L HL; [cbn in *; lia|].
  rewrite lv_S. apply IH. rewrite length_next_level, HL, Nat.pow_succ_r'.
  replace (c * (2 * 2 ^ k))%nat with (2 * (c * 2 ^ k))%nat by lia. by rewrite Nat.div2_succ_double.
Qed.

Lemma lv_app k c A B : length A = (c * 2 ^ k)%nat → lv k (A ++ B) = lv k A ++ lv k B.
Proof.
  revert A B. induction k as [|k IH]; intros A B HA; [done|].
  rewrite Nat.pow_succ_r' in HA. rewrite !lv_S, next_level_app by (exists (c * 2 ^ k)%nat; lia).
  apply IH. rewrite length_next_level, HA.
  replace (c * (2 * 2 ^ k))%nat with (2 * (c * 2 ^ k))%nat by lia. by rewrite Nat.div2_succ_double.
Qed.

Lemma lv_block k B : (1 ≤ length B ≤ 2 ^ k)%nat → lv k B = [level_root B].
Proof.
  intros HB. rewrite <- (lv_root k). assert (length (lv k B) = 1)%nat as Hl.
  - revert B HB. induction k as [|k IH]; intros B HB; [cbn in *; lia|].
    rewrite lv_S. apply IH. by apply length_next_level_bounds.
  - destruct (lv k B) as [|x [|??]]; cbn in *; [lia|done|lia].
Qed.

(** The root of a block, if it has one. *)
Definition block_root (B : list bytes) : list bytes := match B with [] => [] | _ => [level_root B] end.

Lemma lv_block_root k B : (length B ≤ 2 ^ k)%nat → lv k B = block_root B.
Proof. destruct B; intros HB; [apply lv_nil|]. apply lv_block. cbn in *; lia. Qed.

(** The entry [j] one tile level up is the root of the full block [j]. *)
Lemma lv_lookup_block k L j : ((j + 1) * 2 ^ k ≤ length L)%nat →
  lv k L !! j = Some (level_root (take (2 ^ k) (drop (j * 2 ^ k) L))).
Proof.
  intros HL. pose proof (Nat.pow_nonzero 2 k). set (a := (j * 2 ^ k)%nat).
  rewrite <- (take_drop a L) at 1. assert (length (take a L) = (j * 2 ^ k)%nat) as Ha by (rewrite length_take; lia).
  rewrite (lv_app _ j) by done. rewrite lookup_app_r by (rewrite (length_lv_exact _ j); done).
  rewrite (length_lv_exact _ j) by done. rewrite Nat.sub_diag.
  rewrite <- (take_drop (2 ^ k) (drop a L)) at 1.
  assert (length (take (2 ^ k) (drop a L)) = (2 ^ k)%nat) as Hb by (rewrite length_take, length_drop; lia).
  rewrite (lv_app _ 1) by lia. rewrite (lv_block _ (take _ _)) by lia. done.
Qed.

(** The complete subtrees of a prefix are those of the whole. *)
Lemma lv_take k m L : (m ≤ length L)%nat →
  take (m / 2 ^ k) (lv k (take m L)) = take (m / 2 ^ k) (lv k L).
Proof.
  intros Hm. pose proof (Nat.pow_nonzero 2 k). pose proof (Nat.Div0.mul_div_le m (2 ^ k)) as Hle.
  set (c := (m / 2 ^ k)%nat) in *. rewrite <- (take_drop (c * 2 ^ k) L) at 2.
  rewrite <- (take_drop (c * 2 ^ k) (take m L)). rewrite take_take, Nat.min_l by lia.
  assert (length (take (c * 2 ^ k) L) = (c * 2 ^ k)%nat) by (rewrite length_take; lia).
  rewrite !(lv_app k c) by done. rewrite !take_app_le by (rewrite (length_lv_exact _ c); done). done.
Qed.

(** ** [_hash_root] is the root of its hashes and the right edge *)
Lemma hash_root_level fuel hs tail : (length (hs ++ option_list tail) ≤ S fuel)%nat → hs ++ option_list tail ≠ [] →
  hash_root fuel hs tail = Ok (level_root (hs ++ option_list tail)).
Proof.
  revert hs tail. induction fuel as [|fuel IH]; intros hs tail Hf Hne.
  - destruct hs as [|h [|??]], tail; cbn in *; done || lia.
  - destruct hs as [|h hs']; [by destruct tail|]. remember (h :: hs') as hs eqn:Ehs.
    destruct (decide (hs' = [] ∧ tail = None)) as [[-> ->]|Hbig]; [by subst|].
    set (k := Nat.log2 (length hs)).
    assert (2 ^ k ≤ length hs < 2 ^ S k)%nat as Hk by (apply Nat.log2_spec; subst; cbn; lia).
    set (full := Nat.eqb (2 ^ k) (length hs) && bool_decide (tail = None)).
    assert (∃ k', (if full then Nat.div2 (2 ^ k) else 2 ^ k)%nat = (2 ^ k')%nat
      ∧ (2 ^ k' ≤ length hs)%nat ∧ (1 ≤ length (drop (2 ^ k') hs ++ option_list tail) ≤ 2 ^ k')%nat) as (k' & Hs & Hle & Hl2).
    { rewrite Nat.pow_succ_r' in Hk. subst full. destruct (Nat.eqb_spec (2 ^ k) (length hs)) as [Heq|Hneq]; cbn [andb].
      - case_bool_decide as Ht.
        + destruct k as [|k]; [exfalso; apply Hbig; subst hs tail; cbn in Heq; split; [|done]; destruct hs'; cbn in *; [done|lia]|].
          exists k. rewrite Nat.pow_succ_r' in *. rewrite Nat.div2_double. subst tail. cbn [option_list].
          rewrite app_nil_r, length_drop. split_and!; [done|lia..].
        + exists k. destruct tail; [|done]. cbn [option_list]. rewrite length_app, length_drop. cbn. split_and!; [done|lia..].
      - exists k. rewrite length_app, length_drop. split_and!; [done|lia|lia|destruct tail; cbn; lia]. }
    assert (hash_root (S fuel) hs tail
      = (l ← hash_root fuel (take (2 ^ k') hs) None; r ← hash_root fuel (drop (2 ^ k') hs) tail; Ok (node_hash l r))) as ->.
    { rewrite <- Hs. subst hs. cbn [hash_root]. destruct hs' as [|h2 hs2]; [destruct tail; [done|]|done].
      exfalso. by apply Hbig. }
    pose proof (Nat.pow_nonzero 2 k').
    rewrite (IH (take _ _)); [|cbn; rewrite app_nil_r, length_take; rewrite length_app in *; rewrite length_drop in Hl2; lia|cbn; rewrite app_nil_r; intros E; apply (f_equal length) in E;
      rewrite length_take in E; cbn in E; lia].
    rewrite (IH (drop _ _)); [|rewrite length_app in *; rewrite length_drop in *; lia|intros E; rewrite E in Hl2; cbn in Hl2; lia].
    cbn [option_list mbind result_bind]. rewrite app_nil_r, <- (level_root_split k'); [|rewrite length_take; lia|done].
    by rewrite app_assoc, take_drop.
Qed.

(** ** The walk along the right edge, on given tiles *)

(** The tile the walk reads at a level with [k] complete subtrees, and the
    hashes it uses of it. *)
Definition edge_key (l k : nat) : tile_key := (Z.of_nat l, Z.of_nat (k / 256)).
Definition edge_hashes (tile : tile_key → list bytes) (l k : nat) : list bytes :=
  take (k mod 256) (tile (edge_key l k)).

(** The running value after a level: the root of the block, or what was there. *)
Definition fold_level (tile : tile_key → list bytes) (l k : nat) (tail : option bytes) : option bytes :=
  if decide (k mod 256 = 0)%nat then tail else Some (level_root (edge_hashes tile l k ++ option_list tail)).

Fixpoint walk_value (tile : tile_key → list bytes) (fuel l k : nat) (tail : option bytes) : option bytes :=
  match fuel with
  | O => tail
  | S fuel => if decide (k = 0)%nat then tail
              else walk_value tile fuel (S l) (k / 256) (fold_level tile l k tail)
  end.

(** The strings hashed on the way. *)
Fixpoint walk_inputs (tile : tile_key → list bytes) (fuel l k : nat) (tail : option bytes) : list bytes :=
  match fuel with
  | O => []
  | S fuel => if decide (k = 0)%nat then []
              else tree_inputs 8 (edge_hashes tile l k ++ option_list tail)
                   ++ walk_inputs tile fuel (S l) (k / 256) (fold_level tile l k tail)
  end.

(** The tiles used from level [l] on are those of the tree over [L], whose first
    [k] hashes are those of complete subtrees. *)
Definition edge_agrees (tile : tile_key → list bytes) (l k : nat) (L : list bytes) : Prop :=
  ∀ i, let ki := (k / 256 ^ i)%nat in
    edge_hashes tile (l + i) ki = take (ki mod 256) (drop (256 * (ki / 256)) (lv (8 * i) L)).

Lemma edge_agrees_S tile l k L :
  edge_hashes tile l k = take (k mod 256) (drop (256 * (k / 256)) L) →
  edge_agrees tile (S l) (k / 256) (lv 8 L) → edge_agrees tile l k L.
Proof.
  intros H0 HS [|i]; cbv zeta.
  - by rewrite Nat.pow_0_r, Nat.div_1_r, Nat.add_0_r.
  - specialize (HS i). cbv zeta in HS. rewrite Nat.Div0.div_div in HS.
    replace (256 ^ S i)%nat with (256 * 256 ^ i)%nat by done.
    replace (l + S i)%nat with (S l + i)%nat by lia.
    replace (8 * S i)%nat with (8 * i + 8)%nat by lia. by rewrite lv_add.
Qed.

Lemma edge_agrees_next tile l k L : edge_agrees tile l k L →
  edge_hashes tile l k = take (k mod 256) (drop (256 * (k / 256)) L)
  ∧ edge_agrees tile (S l) (k / 256) (lv 8 L).
Proof.
  intros HE. split.
  - specialize (HE 0%nat). cbv zeta in HE. by rewrite Nat.pow_0_r, Nat.div_1_r, Nat.add_0_r in HE.
  - intros i. specialize (HE (S i)). cbv zeta in *. rewrite Nat.Div0.div_div.
    replace (256 ^ S i)%nat with (256 * 256 ^ i)%nat in HE by done.
    replace (l + S i)%nat with (S l + i)%nat in HE by lia.
    replace (8 * S i)%nat with (8 * i + 8)%nat in HE by lia. by rewrite lv_add in HE.
Qed.

Lemma option_list_short {A} (o : option A) : (length (option_list o) ≤ 1)%nat.
Proof. destruct o; cbn; lia. Qed.

Lemma option_list_length {A} (o o' : option A) : (is_Some o ↔ is_Some o') → length (option_list o') = length (option_list o).
Proof.
  intros [H1 H2]. destruct o, o'; [done|by destruct H1 as [? ?]; eauto|by destruct H2 as [? ?]; eauto|done].
Qed.

(** One level: [L] is [k] hashes of complete subtrees and perhaps a right edge;
    so is the level above, and its right edge is the root of the last block. *)
Lemma level_step L k T : L = take k L ++ option_list T → (k ≤ length L)%nat →
  let B := take (k mod 256) (drop (256 * (k / 256)) L) in
  lv 8 L = take (k / 256) (lv 8 L) ++ block_root (B ++ option_list T) ∧ (k / 256 ≤ length (lv 8 L))%nat.
Proof.
  intros HL Hk. cbv zeta. set (c := (k / 256)%nat). set (B := take (k mod 256) _).
  assert (k = 256 * c + k mod 256)%nat as Hkc by (unfold c; apply Nat.Div0.div_mod).
  pose proof (Nat.mod_upper_bound k 256 ltac:(done)).
  assert (L = take (256 * c) L ++ (B ++ option_list T)) as HLB.
  { rewrite HL at 1. rewrite app_assoc. f_equal. unfold B. rewrite Hkc at 1. symmetry. apply take_take_drop. }
  assert (length (take (256 * c) L) = (c * 2 ^ 8)%nat) as Hlen by (rewrite length_take; change (2 ^ 8)%nat with 256%nat; lia).
  assert (lv 8 L = lv 8 (take (256 * c) L) ++ block_root (B ++ option_list T)) as Hlv.
  { rewrite HLB at 1. rewrite (lv_app 8 c) by done. f_equal. apply lv_block_root.
    rewrite length_app. unfold B. rewrite length_take. change (2 ^ 8)%nat with 256%nat. pose proof (option_list_short T). lia. }
  rewrite Hlv. pose proof (length_lv_exact 8 c _ Hlen) as Hc.
  split; [|rewrite length_app; lia]. by rewrite take_app_length' by done.
Qed.

Lemma block_root_fold (B : list bytes) (T : option bytes) :
  block_root (B ++ option_list T)
  = option_list (if decide (B = []) then T else Some (level_root (B ++ option_list T))).
Proof. destruct B as [|h B]; [by destruct T|]. by rewrite decide_False. Qed.

Lemma lv_nonempty k L : L ≠ [] → lv k L ≠ [].
Proof.
  revert L. induction k as [|k IH]; intros L HL; [done|]. rewrite lv_S. apply IH.
  destruct L as [|x [|y L]]; done.
Qed.

Lemma level_root_hash32 L : L ≠ [] → hashes32 L → length (level_root L) = 32%nat.
Proof.
  intros Hne HL. assert (lv (length L) L = [level_root L]) as Hb.
  { apply lv_block. split; [destruct L; [done|cbn; lia]|apply pow2_ge]. }
  pose proof (lv_hashes32 (length L) L HL) as H32. rewrite Hb in H32. by inversion H32.
Qed.

Lemma tree_inputs_lv k d L x : x ∈ tree_inputs d (lv k L) → x ∈ tree_inputs (k + d) L.
Proof.
  revert L. induction k as [|k IH]; intros L Hx; [done|]. rewrite lv_S in Hx. cbn [tree_inputs Nat.add].
  apply elem_of_app. right. by apply IH.
Qed.

Lemma tree_inputs_app_r k c A B x : length A = (c * 2 ^ k)%nat →
  x ∈ tree_inputs k B → x ∈ tree_inputs k (A ++ B).
Proof.
  revert A B. induction k as [|k IH]; intros A B HA Hx; [done|]. cbn [tree_inputs] in *.
  rewrite Nat.pow_succ_r' in HA. assert (Nat.Even (length A)) by (exists (c * 2 ^ k)%nat; lia).
  rewrite level_inputs_app, next_level_app by done. rewrite !elem_of_app in *.
  destruct Hx as [Hx|Hx]; [auto|right]. apply IH; [|done]. rewrite length_next_level, HA.
  replace (c * (2 * 2 ^ k))%nat with (2 * (c * 2 ^ k))%nat by lia. by rewrite Nat.div2_succ_double.
Qed.

Lemma tree_inputs_take k n L x : (n * 2 ^ k ≤ length L)%nat →
  x ∈ tree_inputs k (take (n * 2 ^ k) L) → x ∈ tree_inputs k L.
Proof.
  intros Hn Hx. rewrite <- (take_drop (n * 2 ^ k) L). assert (length (take (n * 2 ^ k) L) = (n * 2 ^ k)%nat) as HA
    by (rewrite length_take; lia). revert HA Hx. generalize (take (n * 2 ^ k) L) as A. generalize (drop (n * 2 ^ k) L) as B.
  clear. intros B A. revert A B. induction k as [|k IH]; intros A B HA Hx; [done|]. cbn [tree_inputs] in *.
  rewrite Nat.pow_succ_r' in HA. assert (Nat.Even (length A)) by (exists (n * 2 ^ k)%nat; lia).
  rewrite level_inputs_app, next_level_app by done. rewrite !elem_of_app in *.
  destruct Hx as [Hx|Hx]; [auto|right]. apply IH; [|done]. rewrite length_next_level, HA.
  replace (n * (2 * 2 ^ k))%nat with (2 * (n * 2 ^ k))%nat by lia. by rewrite Nat.div2_succ_double.
Qed.

Lemma fold_level_block tile l k L T : (k ≤ length L)%nat →
  let B := take (k mod 256) (drop (256 * (k / 256)) L) in
  edge_hashes tile l k = B → block_root (B ++ option_list T) = option_list (fold_level tile l k T).
Proof.
  intros Hk B HE. rewrite block_root_fold. unfold fold_level. rewrite HE. f_equal.
  pose proof (Nat.Div0.div_mod k 256) as Hdm.
  assert (length B = k mod 256)%nat as HB by (unfold B; rewrite length_take, length_drop; clear HE; lia).
  destruct (decide (k mod 256 = 0)%nat) as [H0|H0].
  - rewrite decide_True; [done|]. apply nil_length_inv. lia.
  - rewrite decide_False; [done|]. intros E. apply H0. by rewrite <- HB, E.
Qed.

(** The tiles of the log give its root. *)
Lemma walk_true tile fuel l k L T : edge_agrees tile l k L → L = take k L ++ option_list T →
  (k ≤ length L)%nat → (k < 256 ^ fuel)%nat → L ≠ [] → walk_value tile fuel l k T = Some (level_root L).
Proof.
  revert l k L T. induction fuel as [|fuel IH]; intros l k L T HE HL Hk Hf Hne; cbn [walk_value].
  - assert (k = 0%nat) as -> by (cbn in Hf; lia). rewrite take_0, app_nil_l in HL. subst L. by destruct T.
  - case_decide as H0; [subst k; rewrite take_0, app_nil_l in HL; subst L; by destruct T|].
    destruct (edge_agrees_next _ _ _ _ HE) as [HB HE']. destruct (level_step L k T HL Hk) as [HL' Hk'].
    rewrite (fold_level_block tile l k L T Hk HB) in HL'. rewrite <- (lv_root 8 L).
    apply IH; [done|done|done| |by apply lv_nonempty].
    rewrite Nat.pow_succ_r' in Hf. apply Nat.Div0.div_lt_upper_bound. lia.
Qed.

Lemma edge_agrees_0 tile l L : edge_agrees tile l 0 L.
Proof. intros i. cbv zeta. unfold edge_hashes. by rewrite Nat.Div0.div_0_l. Qed.

(** Equal values after a level come from equal hashes and equal right edges. *)
Lemma fold_level_inj cf tile l k B T T' : collision_free cf →
  hashes32 (B ++ option_list T) → hashes32 (edge_hashes tile l k ++ option_list T') →
  length (edge_hashes tile l k) = (k mod 256)%nat → length B = (k mod 256)%nat → (is_Some T ↔ is_Some T') →
  (∀ x, x ∈ tree_inputs 8 (B ++ option_list T) → x ∈ cf) →
  (∀ x, x ∈ tree_inputs 8 (edge_hashes tile l k ++ option_list T') → x ∈ cf) →
  fold_level tile l k T' = (if decide (B = []) then T else Some (level_root (B ++ option_list T))) →
  edge_hashes tile l k = B ∧ T' = T.
Proof.
  intros Hcf H32B H32E HlE HlB HT HiB HiE HTeq. pose proof (option_list_length _ _ HT) as HTl.
  pose proof (Nat.mod_upper_bound k 256 ltac:(done)) as Hmod. unfold fold_level in HTeq.
  destruct (decide (k mod 256 = 0)%nat) as [Hz|Hz].
  - assert (B = []) as HBn by (apply nil_length_inv; lia). rewrite decide_True in HTeq by done. subst T'.
    split; [|done]. rewrite HBn. apply nil_length_inv. lia.
  - rewrite decide_False in HTeq by (intros E; apply Hz; by rewrite <- HlB, E). injection HTeq as HTeq.
    assert (edge_hashes tile l k ++ option_list T' = B ++ option_list T) as Heq.
    { apply (level_root_inj cf 8); [done|done|done|done|done| | |done]; rewrite !length_app; [lia|].
      pose proof (option_list_short T). change (2 ^ 8)%nat with 256%nat. lia. }
    apply app_inj_1 in Heq as [HEB HTT]; [|lia]. split; [done|]. destruct T, T'; cbn in HTT; congruence.
Qed.

(** Tiles that give the root of a log are the tiles of that log. *)
Lemma walk_inj cf tile fuel l k L T T' : collision_free cf → hashes32 L → (∀ key, hashes32 (tile key)) →
  (∀ i, length (edge_hashes tile (l + i) (k / 256 ^ i)) = (k / 256 ^ i) mod 256)%nat →
  (is_Some T ↔ is_Some T') → hashes32 (option_list T') →
  (∀ d x, x ∈ tree_inputs d L → x ∈ cf) → (∀ x, x ∈ walk_inputs tile fuel l k T' → x ∈ cf) →
  L = take k L ++ option_list T → (k ≤ length L)%nat → (k < 256 ^ fuel)%nat → L ≠ [] →
  walk_value tile fuel l k T' = Some (level_root L) → T' = T ∧ edge_agrees tile l k L.
Proof.
  intros Hcf. revert l k L T T'. induction fuel as [|fuel IH];
    intros l k L T T' H32 Ht Hlen HT HT' HiL HiW HL Hk Hf Hne Hw; cbn [walk_value walk_inputs] in *.
  - assert (k = 0%nat) as -> by (cbn in Hf; lia). rewrite take_0, app_nil_l in HL. subst L T'.
    split; [|apply edge_agrees_0]. by destruct T.
  - case_decide as H0.
    { subst k T'. rewrite take_0, app_nil_l in HL. subst L. split; [|apply edge_agrees_0]. by destruct T. }
    pose proof (Nat.Div0.div_mod k 256) as Hdm.
    pose proof (Hlen 0%nat) as Hlen0. rewrite Nat.pow_0_r, Nat.div_1_r, Nat.add_0_r in Hlen0.
    destruct (level_step L k T HL Hk) as [HL' Hk']. set (B := take (k mod 256) _) in HL'.
    assert (length B = k mod 256)%nat as HB by (unfold B; rewrite length_take, length_drop; lia).
    rewrite block_root_fold in HL'.
    assert (hashes32 (B ++ option_list T)) as H32B.
    { apply Forall_app. split; [by apply Forall_take, Forall_drop|]. rewrite HL in H32. by apply Forall_app in H32 as [_ ?]. }
    assert (hashes32 (edge_hashes tile l k ++ option_list T')) as H32E
      by (apply Forall_app; split; [apply Forall_take, Ht|done]).
    assert (fold_level tile l k T' = (if decide (B = []) then T else Some (level_root (B ++ option_list T)))
            ∧ edge_agrees tile (S l) (k / 256) (lv 8 L)) as [HTeq HE].
    { apply IH; [by apply lv_hashes32|done| | | | | |done|done| |by apply lv_nonempty|by rewrite lv_root].
      - intros i. specialize (Hlen (S i)). rewrite Nat.Div0.div_div.
        replace (256 ^ S i)%nat with (256 * 256 ^ i)%nat in Hlen by done.
        by replace (l + S i)%nat with (S l + i)%nat in Hlen by lia.
      - unfold fold_level. destruct (decide (k mod 256 = 0)%nat) as [Hz|Hz].
        + rewrite decide_True; [done|]. apply nil_length_inv. lia.
        + rewrite decide_False; [done|]. intros E. apply Hz. by rewrite <- HB, E.
      - unfold fold_level. destruct (decide (k mod 256 = 0)%nat) as [Hz|Hz]; [done|]. constructor; [|done]. apply level_root_hash32; [|done].
        intros [E _]%app_nil. apply Hz. by rewrite <- Hlen0, E.
      - intros d x Hx. apply (HiL (8 + d)%nat). by apply tree_inputs_lv.
      - intros x Hx. apply HiW, elem_of_app. by right.
      - rewrite Nat.pow_succ_r' in Hf. apply Nat.Div0.div_lt_upper_bound. lia. }
    assert (∀ x, x ∈ tree_inputs 8 (B ++ option_list T) → x ∈ cf) as HiB.
    { intros x Hx. apply (HiL 8%nat). rewrite HL.
      replace (take k L) with (take (256 * (k / 256)) L ++ B) by (unfold B; rewrite take_take_drop; f_equal; lia).
      rewrite <- app_assoc. apply (tree_inputs_app_r 8 (k / 256)); [|done].
      rewrite length_take. change (2 ^ 8)%nat with 256%nat. lia. }
    apply (fold_level_inj cf) in HTeq as [HEB ->]; [split; [done|]; by apply edge_agrees_S|done..|].
    intros x Hx. apply HiW, elem_of_app. by left.
Qed.

(** The checkpoint of a log. *)
Definition commits (c : TrustedCheckpoint) (es : list bytes) : Prop :=
  tc_tree_size c = len es ∧ tc_root_hash c = merkle_root_from_entries es.

(** ** Runs of the verifier *)
Definition tile_of (st : tile_state) (key : tile_key) : list bytes := default [] (find_tile key st).

(** Tiles are never replaced. *)
Definition grows (st st' : tile_state) : Prop :=
  ∀ key hs, find_tile key st = Some hs → find_tile key st' = Some hs.

Lemma grows_refl st : grows st st.
Proof. by intros key hs. Qed.
Lemma grows_trans st1 st2 st3 : grows st1 st2 → grows st2 st3 → grows st1 st3.
Proof. unfold grows. eauto. Qed.

Lemma tile_of_grows st st' key hs : grows st st' → find_tile key st = Some hs → tile_of st' key = hs.
Proof. intros Hg Hf. unfold tile_of. by rewrite (Hg _ _ Hf). Qed.

Lemma find_tile_add key key' hs st : find_tile key' (add_tile key hs st) =
  match find_tile key' st with Some x => Some x | None => if decide (key = key') then Some hs else None end.
Proof.
  unfold find_tile, add_tile. cbn [ts_tiles]. induction (ts_tiles st) as [|[k x] l IH]; cbn.
  - unfold eqb. case_decide as Hd; [by rewrite bool_decide_eq_true_2|by rewrite bool_decide_eq_false_2].
  - by destruct (k ==? key').
Qed.

Lemma find_mark key key' st : find_tile key' (mark_authenticated key st) = find_tile key' st.
Proof. done. Qed.

Lemma chunks_spec n fuel data : length data = (32 * n)%nat → (n ≤ fuel)%nat →
  hashes32 (chunks fuel data) ∧ length (chunks fuel data) = n.
Proof.
  revert n data. induction fuel as [|fuel IH]; intros n data Hd Hf.
  - assert (n = 0)%nat as -> by lia. split; [constructor|done].
  - destruct n as [|n]; [destruct data; [split; [constructor|done]|cbn in Hd; lia]|].
    destruct data as [|x data']; [cbn in Hd; lia|]. remember (x :: data') as data.
    assert (chunks (S fuel) data = take 32 data :: chunks fuel (drop 32 data)) as -> by by subst.
    destruct (IH n (drop 32 data)) as [H1 H2]; [rewrite length_drop; lia|lia|].
    split; [constructor; [rewrite length_take; lia|done]|cbn; lia].
Qed.

Lemma find_tile_elem key hs st : find_tile key st = Some hs → (key, hs) ∈ ts_tiles st.
Proof.
  unfold find_tile. intros Hf. destruct (List.find _ _) as [[k x]|] eqn:E; [|done]. injection Hf as ->.
  apply List.find_some in E as [Hin Hk]. cbn in Hk. rewrite eqb_true in Hk. subst k. by apply list_elem_of_In.
Qed.

Lemma find_tile_key key hs st : find_tile key st = Some hs → key ∈ map fst (ts_tiles st).
Proof. intros Hf%find_tile_elem. apply list_elem_of_fmap. by exists (key, hs). Qed.

Lemma tile_inputs_elem key hs st x : find_tile key st = Some hs → x ∈ tree_inputs 8 hs →
  x ∈ concat (map (λ kv, tree_inputs 8 kv.2) (ts_tiles st)).
Proof.
  intros Hf%find_tile_elem Hx. apply list_elem_of_In, List.in_concat. exists (tree_inputs 8 hs).
  split; [|by apply list_elem_of_In]. apply in_map_iff. exists (key, hs). split; [done|by apply list_elem_of_In].
Qed.

Section runs.
Context (fetch : str → Z → res bytes) (check : tile_moment → res unit) (prefix : str)
  (trusted candidate : TrustedCheckpoint).

(** Every tile has a place and the width of its place in the candidate tree. *)
Definition tiles_ok (st : tile_state) : Prop := ∀ key hs, find_tile key st = Some hs →
  hashes32 hs ∧ len hs = tile_width candidate key ∧ 1 ≤ tile_width candidate key ∧ 0 ≤ key.1 ∧ 0 ≤ key.2.

Lemma fetch_tile_ok key hs : fetch_tile fetch check prefix trusted candidate key = Ok hs →
  hashes32 hs ∧ len hs = tile_width candidate key ∧ 1 ≤ tile_width candidate key.
Proof.
  unfold fetch_tile. intros Hf. rewrite bind_unit_Ok in Hf. destruct Hf as [_ Hf]. guard_step Hf as Hw.
  bind_step Hf as data Hd. rewrite bind_unit_Ok in Hf. destruct Hf as [_ Hf]. guard_step Hf as Hl. injection Hf as <-.
  rewrite negb_false_iff in Hw, Hl. bool_prop. apply Z.eqb_eq in Hl.
  destruct (chunks_spec (Z.to_nat (tile_width candidate key)) (length data) data) as [H1 H2];
    [unfold len in Hl; lia|unfold len in Hl; lia|]. split_and!; [done|unfold len; lia|lia].
Qed.

Lemma read_spec key st st' hs : 0 ≤ key.1 → 0 ≤ key.2 → read fetch check prefix trusted candidate key st = Ok (st', hs) → tiles_ok st →
  tiles_ok st' ∧ grows st st' ∧ find_tile key st' = Some hs ∧ ts_authenticated st' = ts_authenticated st.
Proof.
  unfold read. intros H1 H2 Hr Hok. destruct (find_tile key st) as [x|] eqn:Hf.
  - injection Hr as <- <-. split_and!; [done|apply grows_refl|done|done].
  - bind_step Hr as y Hy. injection Hr as <- <-. destruct (fetch_tile_ok _ _ Hy) as (? & ? & ?). split_and!; [| | |done].
    + intros key' hs' Hfind. rewrite find_tile_add in Hfind. destruct (find_tile key' st) eqn:Hk; [by apply Hok; congruence|].
      case_decide; [|done]. simplify_eq. split_and!; done.
    + intros key' hs' Hfind. by rewrite find_tile_add, Hfind.
    + rewrite find_tile_add, Hf. by rewrite decide_True.
Qed.

(** The keys a walk visits. *)
Definition visited (l k : nat) (key : tile_key) : Prop :=
  ∃ i, ((k / 256 ^ i) mod 256 ≠ 0)%nat ∧ key = edge_key (l + i) (k / 256 ^ i).

Lemma visited_S l k key : visited (S l) (k / 256) key → visited l k key.
Proof.
  intros (i & Hi & ->). exists (S i). rewrite Nat.Div0.div_div in *.
  replace (256 ^ S i)%nat with (256 * 256 ^ i)%nat by done. split; [done|]. by replace (l + S i)%nat with (S l + i)%nat by lia.
Qed.

Lemma visited_cases l k key : visited l k key →
  ((k mod 256 ≠ 0)%nat ∧ key = edge_key l k) ∨ visited (S l) (k / 256) key.
Proof.
  intros ([|i] & Hi & ->).
  - left. rewrite Nat.pow_0_r, Nat.div_1_r, Nat.add_0_r in *. done.
  - right. exists i. rewrite Nat.Div0.div_div. replace (256 ^ S i)%nat with (256 * 256 ^ i)%nat in * by done.
    split; [done|]. by replace (l + S i)%nat with (S l + i)%nat by lia.
Qed.

Lemma visited_0 l key : ¬ visited l 0 key.
Proof. intros (i & Hi & _). by rewrite Nat.Div0.div_0_l in Hi. Qed.

Lemma walk_spec fuel edge l k tail st st' r : (k < 256 ^ fuel)%nat →
  root_walk fetch check prefix trusted candidate fuel edge (Z.of_nat l) (Z.of_nat k) tail st = Ok (st', r) → tiles_ok st →
  tiles_ok st' ∧ grows st st' ∧ (∀ stf, grows st' stf → walk_value (tile_of stf) fuel l k tail = r)
  ∧ (∀ key, visited l k key → is_Some (find_tile key st'))
  ∧ (∀ key, key ∈ ts_authenticated st' ↔ key ∈ ts_authenticated st ∨ (edge = true ∧ visited l k key)).
Proof.
  revert l k tail st. induction fuel as [|fuel IH]; intros l k tail st Hk Hw Hok; cbn [root_walk walk_value] in *.
  - injection Hw as <- <-. assert (k = 0)%nat as -> by (cbn in Hk; lia). pose proof (visited_0 l).
    split_and!; [done|apply grows_refl|done|naive_solver|naive_solver].
  - destruct (Z.eqb_spec (Z.of_nat k) 0) as [H0|H0].
    { injection Hw as <- <-. assert (k = 0)%nat as -> by lia. pose proof (visited_0 l).
      split_and!; [done|apply grows_refl|done|naive_solver|naive_solver]. }
    assert (k / 256 < 256 ^ fuel)%nat as Hk'
      by (rewrite Nat.pow_succ_r' in Hk; apply Nat.Div0.div_lt_upper_bound; lia).
    assert (Z.of_nat k / 256 = Z.of_nat (k / 256)) as Hdiv by (by rewrite Nat2Z.inj_div).
    assert (Z.of_nat k mod 256 = Z.of_nat (k mod 256)) as Hmod by (by rewrite Nat2Z.inj_mod).
    assert (Z.of_nat l + 1 = Z.of_nat (S l)) as Hl by lia. rewrite Hdiv, Hmod, Hl in Hw.
    destruct (Z.eqb_spec (Z.of_nat (k mod 256)) 0) as [Hz|Hz].
    + destruct (IH _ _ _ _ Hk' Hw Hok) as (Hok' & Hg & Hv & Hvis & Ha). split_and!; [done..| | |].
      * intros stf Hgf. rewrite decide_False by lia. unfold fold_level. rewrite decide_True by lia. by apply Hv.
      * intros key [[Hne _]|Hkey]%visited_cases; [lia|by apply Hvis].
      * intros key. rewrite Ha. split; [intros [?|[-> ?]]; [by left|right; by auto using visited_S]|].
        intros [?|[-> [[Hne _]|?]%visited_cases]]; [by left|lia|by right].
    + bind_step Hw as [st1 hs] Hr. destruct (read_spec (Z.of_nat l, Z.of_nat (k / 256)) _ _ _ ltac:(cbn [fst snd]; lia) ltac:(cbn [fst snd]; lia) Hr Hok) as (Hok1 & Hg1 & Hf1 & Ha1).
      bind_step Hw as t Ht. rewrite Nat2Z.id in Ht.
      change (Z.of_nat l, Z.of_nat (k / 256)) with (edge_key l k) in *.
      set (st2 := if edge then _ else st1) in Hw.
      assert (∀ key, find_tile key st2 = find_tile key st1) as Hf2 by (intros key; unfold st2; by destruct edge).
      assert (tiles_ok st2) as Hok2 by (intros key x Hx; rewrite Hf2 in Hx; by apply Hok1).
      destruct (IH _ _ _ _ Hk' Hw Hok2) as (Hok' & Hg & Hv & Hvis & Ha).
      assert (grows st1 st') as Hg' by (intros key x Hx; apply Hg; by rewrite Hf2).
      rewrite hash_root_level in Ht; [apply Ok_inj in Ht| |].
      2: { rewrite length_app. pose proof (option_list_short tail). lia. }
      2: { destruct (Hok1 _ _ Hf1) as (_ & Hlen & Hpos & _). intros [E _]%app_nil. apply (f_equal length) in E.
           rewrite length_take in E. cbn [length] in E. unfold len in Hlen. lia. }
      split_and!; [done|by eapply grows_trans|..].
      * intros stf Hgf. rewrite decide_False by lia. rewrite <- (Hv stf Hgf). f_equal. unfold fold_level, edge_hashes.
        rewrite decide_False by lia. by rewrite (tile_of_grows st1 stf _ hs), Ht by eauto using grows_trans.
      * intros key [[_ ->]|Hkey]%visited_cases; [exists hs; by apply Hg'|by apply Hvis].
      * intros key. rewrite Ha. assert (key ∈ ts_authenticated st2 ↔ key ∈ ts_authenticated st ∨ (edge = true ∧ key = edge_key l k)) as ->.
        { unfold st2. destruct edge; cbn [ts_authenticated mark_authenticated]; [rewrite elem_of_cons|]; rewrite Ha1; naive_solver. }
        split; [intros [[?|[-> ->]]|[-> ?]]|intros [?|[-> [[_ ->]|?]%visited_cases]]]; auto using visited_S.
        right. split; [done|]. exists 0%nat. rewrite Nat.pow_0_r, Nat.div_1_r, Nat.add_0_r. split; [lia|done].
Qed.

(** ** Authentication *)

(** The tile of [key] in the tree over the leaf hashes [N]. *)
Definition genuine (N : list bytes) (key : tile_key) (hs : list bytes) : Prop :=
  0 ≤ key.1 ∧ 0 ≤ key.2 ∧ hs = take (length hs) (drop (256 * Z.to_nat key.2) (lv (8 * Z.to_nat key.1) N)).

Definition authentic (N : list bytes) (st : tile_state) : Prop :=
  ∀ key, key ∈ ts_authenticated st → ∃ hs, find_tile key st = Some hs ∧ genuine N key hs.

Lemma length_lv_ge k L : (length L / 2 ^ k ≤ length (lv k L))%nat.
Proof.
  set (c := (length L / 2 ^ k)%nat). pose proof (Nat.Div0.mul_div_le (length L) (2 ^ k)) as Hle. fold c in Hle.
  rewrite <- (take_drop (c * 2 ^ k) L). assert (length (take (c * 2 ^ k) L) = (c * 2 ^ k)%nat) as Hc by (rewrite length_take; lia).
  rewrite (lv_app k c) by done. rewrite length_app, (length_lv_exact k c) by done. lia.
Qed.

(** A full tile lies below complete subtrees. *)
Lemma full_width N key : len N = tc_tree_size candidate → 0 ≤ key.1 → 0 ≤ key.2 → tile_width candidate key = 256 →
  ((Z.to_nat key.2 + 1) * 2 ^ 8 ≤ length (lv (8 * Z.to_nat key.1) N))%nat.
Proof.
  intros Hn H1 H2 Hw. unfold tile_width in Hw. rewrite <- Hn, Z.shiftr_div_pow2 in Hw by lia.
  pose proof (length_lv_ge (8 * Z.to_nat key.1) N) as Hge. change (2 ^ 8)%nat with 256%nat.
  assert (Z.of_nat (length N / 2 ^ (8 * Z.to_nat key.1)) = len N / 2 ^ (8 * key.1)) as Heq.
  { rewrite Nat2Z.inj_div, Nat2Z.inj_pow. unfold len. do 2 f_equal. lia. }
  lia.
Qed.

Lemma block_inputs N l j x : ((j + 1) * 2 ^ 8 ≤ length (lv l N))%nat →
  x ∈ tree_inputs 8 (take (2 ^ 8) (drop (j * 2 ^ 8) (lv l N))) → x ∈ tree_inputs (l + 8) N.
Proof.
  intros Hj Hx. apply tree_inputs_lv. rewrite <- (take_drop (j * 2 ^ 8) (lv l N)).
  apply (tree_inputs_app_r 8 j); [rewrite length_take; lia|].
  replace (2 ^ 8)%nat with (1 * 2 ^ 8)%nat in Hx at 1 by lia. apply tree_inputs_take in Hx; [done|]. rewrite length_drop. lia.
Qed.

(** A full tile whose root is the entry of a genuine parent is genuine. *)
Lemma child_genuine cf N key own parent h : collision_free cf → hashes32 N → len N = tc_tree_size candidate →
  (∀ d x, x ∈ tree_inputs d N → x ∈ cf) → (∀ x, x ∈ tree_inputs 8 own → x ∈ cf) →
  hashes32 own → len own = 256 → tile_width candidate key = 256 → 0 ≤ key.1 → 0 ≤ key.2 →
  genuine N (key.1 + 1, key.2 / 256) parent → parent !! Z.to_nat (key.2 mod 256) = Some h → level_root own = h →
  genuine N key own.
Proof.
  intros Hcf HN Hn HiN Hio H32 Hlen Hw H1 H2 (_ & _ & Hp) Hh Hroot. cbn [fst snd] in Hp.
  set (j := Z.to_nat key.2). set (l := Z.to_nat key.1). pose proof (full_width N key Hn H1 H2 Hw) as Hfull. fold j l in Hfull.
  pose proof (lookup_lt_Some _ _ _ Hh) as Hlt. rewrite Hp, lookup_take_lt, lookup_drop in Hh by done.
  replace (256 * Z.to_nat (key.2 / 256) + Z.to_nat (key.2 mod 256))%nat with j in Hh
    by (unfold j; pose proof (Z.div_mod key.2 256); pose proof (Z.mod_pos_bound key.2 256); pose proof (Z.div_pos key.2 256); lia).
  replace (8 * Z.to_nat (key.1 + 1))%nat with (8 + 8 * l)%nat in Hh by (unfold l; lia).
  rewrite lv_add, lv_lookup_block in Hh by done. apply (inj Some) in Hh.
  split_and!; [done..|]. fold j l. replace (length own) with (2 ^ 8)%nat by (change (2 ^ 8)%nat with 256%nat; unfold len in Hlen; lia).
  replace (256 * j)%nat with (j * 2 ^ 8)%nat by (change (2 ^ 8)%nat with 256%nat; lia).
  assert (length (take (2 ^ 8) (drop (j * 2 ^ 8) (lv (8 * l) N))) = (2 ^ 8)%nat) as Hb by (rewrite length_take, length_drop; lia).
  apply (level_root_inj cf 8); [done|done|by apply Forall_take, Forall_drop, lv_hashes32|done| | |lia|by rewrite Hroot].
  - intros x Hx. apply (HiN (8 * l + 8)%nat). by apply (block_inputs N (8 * l) j).
  - rewrite Hb. change (2 ^ 8)%nat with 256%nat. unfold len in Hlen. lia.
Qed.

Lemma authenticate_grows fuel key st st' :
  authenticate_tile fetch check prefix trusted candidate fuel key st = Ok st' → tiles_ok st → tiles_ok st' ∧ grows st st'.
Proof.
  revert key st st'. induction fuel as [|fuel IH]; intros key st st' Ha Hok; cbn [authenticate_tile] in Ha;
    (case_bool_decide; [injection Ha as <-; split; [done|apply grows_refl]|]); destruct (find_tile key st) as [own|] eqn:Hown; try done.
  destruct (Hok _ _ Hown) as (_ & _ & _ & H1 & H2). pose proof (Z.div_pos key.2 256).
  guard_step Ha as _Hfull. bind_step Ha as [st1 parent] Hr. bind_step Ha as st2 H2a. bind_step Ha as h Hh.
  bind_step Ha as c Hc. guard_step Ha as Heq. injection Ha as <-.
  destruct (read_spec (key.1 + 1, key.2 / 256) _ _ _ ltac:(cbn [fst snd]; lia) ltac:(cbn [fst snd]; lia) Hr Hok) as (Hok1 & Hg1 & _ & _). destruct (IH _ _ _ H2a Hok1) as [Hok2 Hg2].
  split; [done|]. eapply grows_trans; [done|]. eapply grows_trans; [exact Hg2|]. by intros k hs.
Qed.

Lemma authenticate_all_grows keys st st' :
  authenticate_all fetch check prefix trusted candidate keys st = Ok st' → tiles_ok st → tiles_ok st' ∧ grows st st'.
Proof.
  revert st. induction keys as [|key keys IH]; intros st Ha Hok; cbn [authenticate_all] in Ha.
  - injection Ha as <-. split; [done|apply grows_refl].
  - bind_step Ha as st1 H1. destruct (authenticate_grows _ _ _ _ H1 Hok) as [Hok1 Hg1].
    destruct (IH _ Ha Hok1) as [Hok' Hg']. split; [done|]. by eapply grows_trans.
Qed.

Section authenticated.
Context (cf : list bytes) (N : list bytes) (stf : tile_state) (Hcf : collision_free cf) (HN : hashes32 N)
  (Hn : len N = tc_tree_size candidate) (HiN : ∀ d x, x ∈ tree_inputs d N → x ∈ cf)
  (Hif : ∀ key hs x, find_tile key stf = Some hs → x ∈ tree_inputs 8 hs → x ∈ cf).

Lemma authenticate_spec fuel key st st' :
  authenticate_tile fetch check prefix trusted candidate fuel key st = Ok st' →
  grows st' stf → tiles_ok st → authentic N st →
  tiles_ok st' ∧ grows st st' ∧ authentic N st' ∧ key ∈ ts_authenticated st'
  ∧ ∀ k, k ∈ ts_authenticated st → k ∈ ts_authenticated st'.
Proof.
  revert key st st'. induction fuel as [|fuel IH]; intros key st st' Ha Hgf Hok Hau; cbn [authenticate_tile] in Ha;
    (case_bool_decide as Hin; [injection Ha as <-; split_and!; try done; apply grows_refl|]);
    destruct (find_tile key st) as [own|] eqn:Hown; try done.
  destruct (Hok _ _ Hown) as (H32 & Hlen & _ & H1 & H2). pose proof (Z.div_pos key.2 256).
  guard_step Ha as Hfull. rewrite negb_false_iff, Z.eqb_eq in Hfull.
  bind_step Ha as [st1 parent] Hr. bind_step Ha as st2 H2a. bind_step Ha as h Hh. bind_step Ha as claimed Hc.
  guard_step Ha as Heq. injection Ha as <-. rewrite negb_false_iff, eqb_true in Heq.
  destruct (read_spec (key.1 + 1, key.2 / 256) _ _ _ ltac:(cbn [fst snd]; lia) ltac:(cbn [fst snd]; lia) Hr Hok) as (Hok1 & Hg1 & Hf1 & Ha1).
  assert (authentic N st1) as Hau1.
  { intros k Hk. rewrite Ha1 in Hk. destruct (Hau k Hk) as (hs & Hf & Hgen). eauto. }
  destruct (IH (key.1 + 1, key.2 / 256) st1 st2) as (Hok2 & Hg2 & Hau2 & Hin2 & Hmono); [done..|].
  rewrite hash_root_level in Hh; cbn [option_list] in *; rewrite ?app_nil_r in *; [|lia|intros ->; done].
  apply Ok_inj in Hh. destruct (parent !! _) as [c|] eqn:Hp; [|done]. apply Ok_inj in Hc. subst c.
  assert (grows st st2) as Hg by eauto using grows_trans.
  assert (genuine N key own) as Hgen.
  { destruct (Hau2 _ Hin2) as (hs & Hf & Hgen). rewrite (Hg2 _ _ Hf1) in Hf. injection Hf as <-.
    eapply (child_genuine cf); [done..| |done|done| |done|done|exact Hgen|exact Hp|congruence].
    - intros x Hx. eapply Hif; [|exact Hx]. apply Hgf. rewrite find_mark. by apply Hg.
    - congruence. }
  split_and!; [by intros k hs; rewrite find_mark; apply Hok2|by intros k hs Hk; rewrite find_mark; apply Hg| | |].
  - intros k. cbn [ts_authenticated mark_authenticated]. rewrite elem_of_cons. intros [->|Hk].
    + exists own. split; [by rewrite find_mark; apply Hg|done].
    + by apply Hau2.
  - by left.
  - intros k Hk. right. apply Hmono. by rewrite Ha1.
Qed.

Lemma authenticate_all_spec keys st st' :
  authenticate_all fetch check prefix trusted candidate keys st = Ok st' →
  grows st' stf → tiles_ok st → authentic N st →
  authentic N st' ∧ (∀ key, key ∈ keys ∨ key ∈ ts_authenticated st → key ∈ ts_authenticated st').
Proof.
  revert st. induction keys as [|key keys IH]; intros st Ha Hgf Hok Hau; cbn [authenticate_all] in Ha.
  - injection Ha as <-. split; [done|]. intros key [Hk|?]; [by apply not_elem_of_nil in Hk|done].
  - bind_step Ha as st1 H1. destruct (authenticate_grows _ _ _ _ H1 Hok) as [Hok1 Hg1].
    destruct (authenticate_all_grows _ _ _ Ha Hok1) as [_ Hg2].
    destruct (authenticate_spec _ _ _ _ H1) as (_ & _ & Hau1 & Hin & Hmono); [by eapply grows_trans|done..|].
    destruct (IH st1) as [Hau' Hall]; [done..|].
    split; [done|]. intros k. rewrite elem_of_cons. intros [[->|Hk]|Hk]; auto.
Qed.
End authenticated.

(** ** Soundness *)

(** The strings the verifier hashes: along the edge of the candidate, and the
    tiles. *)
Definition verifier_inputs (n : nat) (st : tile_state) : list bytes :=
  walk_inputs (tile_of st) (tree_depth (Z.of_nat n)) 0 n None ++ concat (map (λ kv, tree_inputs 8 kv.2) (ts_tiles st)).

Lemma tree_depth_bound n : (n < 256 ^ tree_depth (Z.of_nat n))%nat.
Proof.
  destruct n as [|n]; [cbn; lia|]. unfold tree_depth. set (k := Z.log2 (Z.of_nat (S n))).
  pose proof (Z.log2_spec (Z.of_nat (S n)) ltac:(lia)) as [_ Hl]. pose proof (Z.log2_nonneg (Z.of_nat (S n))). fold k in Hl.
  apply (Nat.lt_le_trans _ (2 ^ S (Z.to_nat k))%nat); [|apply Nat.pow_le_mono_l; lia].
  apply Nat2Z.inj_lt. rewrite Nat2Z.inj_pow. replace (Z.of_nat (S (Z.to_nat k))) with (Z.succ k) by lia. exact Hl.
Qed.

Lemma pow256 i : (2 ^ (8 * i))%nat = (256 ^ i)%nat.
Proof. by rewrite Nat.pow_mul_r. Qed.

Lemma root_spec n edge st st' r : root fetch check prefix trusted candidate (Z.of_nat n) edge st = Ok (st', r) → tiles_ok st →
  tiles_ok st' ∧ grows st st'
  ∧ (∀ stf, grows st' stf → walk_value (tile_of stf) (tree_depth (Z.of_nat n)) 0 n None = Some r)
  ∧ (∀ key, visited 0 n key → is_Some (find_tile key st'))
  ∧ (∀ key, key ∈ ts_authenticated st' ↔ key ∈ ts_authenticated st ∨ (edge = true ∧ visited 0 n key)).
Proof.
  unfold root. intros Hr Hok. bind_step Hr as [st1 tail] Hw. destruct tail as [t|]; [|done]. injection Hr as <- <-.
  apply (walk_spec _ _ 0 n) in Hw as (? & ? & ? & ? & ?); [done|apply tree_depth_bound|done].
Qed.

Lemma width_at (n : list bytes) i m : len n = tc_tree_size candidate →
  tile_width candidate (edge_key i m) = Z.min 256 (Z.of_nat (length n / 256 ^ i) - Z.of_nat (m / 256) * 256).
Proof.
  intros Hn. unfold tile_width, edge_key. cbn [fst snd]. rewrite <- Hn, Z.shiftr_div_pow2 by lia.
  do 2 f_equal. unfold len. rewrite Nat2Z.inj_div, Nat2Z.inj_pow. f_equal.
  change (Z.of_nat 256) with (2 ^ 8). rewrite <- Z.pow_mul_r by lia. done.
Qed.

(** Tiles that are genuine along the edge of a prefix. *)
Lemma genuine_agrees N st m : (m ≤ length N)%nat → len N = tc_tree_size candidate → tiles_ok st →
  (∀ key, visited 0 m key → ∃ hs, find_tile key st = Some hs ∧ genuine N key hs) →
  edge_agrees (tile_of st) 0 m (take m N).
Proof.
  intros Hm Hn Hok Hg i. cbv zeta. set (mi := (m / 256 ^ i)%nat). rewrite Nat.add_0_l.
  destruct (decide (mi mod 256 = 0)%nat) as [Hz|Hz]; [unfold edge_hashes; by rewrite Hz|].
  destruct (Hg (edge_key i mi)) as (hs & Hf & (_ & _ & Hhs)); [exists i; done|]. unfold edge_hashes. rewrite (tile_of_grows st st _ hs (grows_refl st) Hf).
  destruct (Hok _ _ Hf) as (_ & Hlen & _). rewrite (width_at N i mi Hn) in Hlen. unfold len in Hlen.
  unfold edge_key in Hhs. cbn [fst snd] in Hhs. rewrite !Nat2Z.id in Hhs.
  assert (mi ≤ length N / 256 ^ i)%nat as Hle by (apply Nat.Div0.div_le_mono; done).
  pose proof (Nat.Div0.div_mod mi 256) as Hdm. pose proof (Nat.mod_upper_bound mi 256 ltac:(done)) as Hub.
  rewrite Hhs, take_take, Nat.min_l by lia. rewrite !take_drop_commute. f_equal. rewrite <- Hdm.
  pose proof (lv_take (8 * i) m N Hm) as Ht. by rewrite pow256 in Ht.
Qed.

(** Authenticated edge tiles are genuine. *)
Lemma edge_genuine N st : len N = tc_tree_size candidate → tiles_ok st → edge_agrees (tile_of st) 0 (length N) N →
  (∀ key, visited 0 (length N) key → is_Some (find_tile key st)) →
  ∀ key, visited 0 (length N) key → ∃ hs, find_tile key st = Some hs ∧ genuine N key hs.
Proof.
  intros Hn Hok HE Hs key Hv. destruct (Hs key Hv) as [hs Hf]. exists hs. split; [done|].
  destruct Hv as (i & Hi & ->). rewrite Nat.add_0_l in *. set (ni := (length N / 256 ^ i)%nat) in *.
  destruct (Hok _ _ Hf) as (_ & Hlen & _). rewrite (width_at N i ni Hn) in Hlen. fold ni in Hlen. unfold len in Hlen.
  pose proof (Nat.Div0.div_mod ni 256) as Hdm. pose proof (Nat.mod_upper_bound ni 256 ltac:(done)) as Hub.
  assert (length hs = ni mod 256)%nat as Hl by lia.
  specialize (HE i). cbv zeta in HE. fold ni in HE. unfold edge_hashes in HE. rewrite Nat.add_0_l, (tile_of_grows st st _ hs (grows_refl st) Hf) in HE.
  rewrite take_ge in HE by lia. unfold genuine, edge_key. cbn [fst snd].
  rewrite !Nat2Z.id. split_and!; [lia|lia|]. by rewrite Hl.
Qed.

(** The candidate's root, recomputed from the tiles, fixes the edge tiles. *)
Lemma edge_fixed cf new st r : collision_free cf → (∀ x, x ∈ hash_inputs new → x ∈ cf) →
  (∀ x, x ∈ verifier_inputs (length new) st → x ∈ cf) → new ≠ [] → commits candidate new → tiles_ok st →
  (∀ key, visited 0 (length new) key → is_Some (find_tile key st)) → r = tc_root_hash candidate →
  walk_value (tile_of st) (tree_depth (Z.of_nat (length new))) 0 (length new) None = Some r →
  edge_agrees (tile_of st) 0 (length new) (leaf_hash <$> new).
Proof.
  intros Hcf HiN HiV Hne [Hsz Hroot] Hok Hvis -> Hw. set (N := leaf_hash <$> new).
  assert (length N = length new) as HlN by apply length_fmap.
  refine (proj2 (walk_inj cf (tile_of st) _ 0 (length new) N None None Hcf _ _ _ _ _ _ _ _ _ _ _ _)).
  - apply hashes32_leaf.
  - intros key. unfold tile_of. destruct (find_tile key st) eqn:Hf; [by apply Hok in Hf as [? _]|constructor].
  - intros i. rewrite Nat.add_0_l. set (ni := (length new / 256 ^ i)%nat). unfold edge_hashes. rewrite length_take.
    destruct (decide (ni mod 256 = 0)%nat) as [Hz|Hz]; [lia|].
    destruct (Hvis (edge_key i ni)) as [hs Hf]; [exists i; done|]. rewrite (tile_of_grows st st _ hs (grows_refl st) Hf).
    destruct (Hok _ _ Hf) as (_ & Hlen & _). rewrite (width_at new i ni) in Hlen by done. fold ni in Hlen. unfold len in Hlen.
    pose proof (Nat.Div0.div_mod ni 256). pose proof (Nat.mod_upper_bound ni 256 ltac:(done)). lia.
  - done.
  - constructor.
  - intros d x Hx. apply HiN. by eapply hash_inputs_levels.
  - intros x Hx. apply HiV, elem_of_app. by left.
  - rewrite take_ge by lia. by rewrite app_nil_r.
  - lia.
  - apply tree_depth_bound.
  - by destruct new.
  - rewrite Hw, Hroot. by rewrite merkle_root_level.
Qed.

Lemma edge_authentic N st1 st2 st : len N = tc_tree_size candidate → tiles_ok st → edge_agrees (tile_of st) 0 (length N) N →
  (∀ key, visited 0 (length N) key → is_Some (find_tile key st1)) → grows st1 st2 → grows st2 st →
  (∀ key, key ∈ ts_authenticated st2 → visited 0 (length N) key) → authentic N st2.
Proof.
  intros Hn Hok HE Hvis Hg1 Hg2 Ha key Hin%Ha. destruct (Hvis _ Hin) as [hs Hf]. exists hs. split; [by apply Hg1|].
  destruct (edge_genuine N st Hn Hok HE) with key as (hs' & Hf' & Hgen); [|done|].
  - intros k [x Hx]%Hvis. eauto.
  - rewrite (Hg2 _ _ (Hg1 _ _ Hf)) in Hf'. by injection Hf' as ->.
Qed.

(** The stages of a run that returns. *)
Lemma run_stages max_tree_size n m st : tc_tree_size candidate = Z.of_nat n → tc_tree_size trusted = Z.of_nat m →
  consistency_run fetch check prefix trusted candidate max_tree_size = Ok st →
  ∃ st1 st2, (0 < m < n)%nat ∧ tiles_ok st2 ∧ tiles_ok st ∧ grows st1 st2 ∧ grows st2 st
    ∧ walk_value (tile_of st) (tree_depth (Z.of_nat n)) 0 n None = Some (tc_root_hash candidate)
    ∧ walk_value (tile_of st) (tree_depth (Z.of_nat m)) 0 m None = Some (tc_root_hash trusted)
    ∧ (∀ key, visited 0 n key → is_Some (find_tile key st1)) ∧ (∀ key, visited 0 m key → is_Some (find_tile key st2))
    ∧ (∀ key, key ∈ ts_authenticated st2 → visited 0 n key)
    ∧ authenticate_all fetch check prefix trusted candidate (map fst (ts_tiles st2)) st2 = Ok st.
Proof.
  intros Hsn Hsm Hrun. unfold consistency_run in Hrun. guard_step Hrun as Hs. bind_step Hrun as [st1 r1] Hr1.
  guard_step Hrun as He1. bind_step Hrun as [st2 r2] Hr2. bind_step Hrun as st3 Hau. rewrite bind_unit_Ok in Hrun.
  destruct Hrun as [_ Hrun]. guard_step Hrun as He2. injection Hrun as ->.
  rewrite negb_false_iff, eqb_true in He1, He2. rewrite negb_false_iff in Hs. subst r1 r2. rewrite Hsn, Hsm in Hs.
  rewrite Hsn in Hr1. rewrite Hsm in Hr2.
  destruct (root_spec _ _ _ _ _ Hr1) as (Hok1 & Hg1 & Hv1 & Hvis1 & Ha1); [by intros key hs|].
  destruct (root_spec _ _ _ _ _ Hr2 Hok1) as (Hok2 & Hg2 & Hv2 & Hvis2 & Ha2).
  destruct (authenticate_all_grows _ _ _ Hau Hok2) as [Hok Hg3].
  exists st1, st2. split_and!; [bool_prop; lia|bool_prop; lia|done..| | | | | |done].
  - apply Hv1. by eapply grows_trans.
  - by apply Hv2.
  - done.
  - done.
  - intros key Hin. rewrite Ha2, Ha1 in Hin. destruct Hin as [[Hin|[_ Hin]]|[? _]]; [by apply not_elem_of_nil in Hin|done|done].
Qed.

Lemma run_prefix max_tree_size old new st : commits trusted old → commits candidate new →
  consistency_run fetch check prefix trusted candidate max_tree_size = Ok st →
  collision_free (hash_inputs old ++ hash_inputs new ++ hash_inputs (take (length old) new) ++ verifier_inputs (length new) st) →
  old `prefix_of` new.
Proof.
  intros Hco Hcn Hrun Hcf. pose proof Hco as [Hso Hro]. pose proof Hcn as [Hsn Hrn].
  destruct (run_stages _ _ _ _ Hsn Hso Hrun) as (st1 & st2 & Hlt & Hok2 & Hok & Hg1 & Hg2 & Hwn & Hwm & Hvn & Hvm & Ha & Hau).
  set (N := leaf_hash <$> new). assert (length N = length new) as HlN by apply length_fmap.
  assert (len N = tc_tree_size candidate) as HnN by (rewrite Hsn; unfold len; lia).
  set (cf := hash_inputs old ++ _) in Hcf.
  assert (∀ d x, x ∈ tree_inputs d N → x ∈ cf) as HiN.
  { intros d x Hx. apply hash_inputs_levels in Hx. unfold cf. rewrite !elem_of_app. auto. }
  assert (edge_agrees (tile_of st) 0 (length N) N) as HE.
  { rewrite HlN. apply (edge_fixed cf) with (tc_root_hash candidate); [done|..|done|done| |done|done].
    - intros x Hx. unfold cf. rewrite !elem_of_app. auto.
    - intros x Hx. unfold cf. rewrite !elem_of_app. auto.
    - intros ->. cbn in Hlt. lia.
    - intros key [hs Hf]%Hvn. eauto. }
  assert (authentic N st2) as Hau2 by (apply (edge_authentic N st1 st2 st); rewrite ?HlN in *; done).
  assert (∀ key hs x, find_tile key st = Some hs → x ∈ tree_inputs 8 hs → x ∈ cf) as Hif.
  { intros key hs x Hf Hx. unfold cf. rewrite !elem_of_app. do 3 right. apply elem_of_app. right. by eapply tile_inputs_elem. }
  destruct (authenticate_all_spec cf N st Hcf (hashes32_leaf new) HnN HiN Hif _ st2 st Hau (grows_refl st) Hok2 Hau2) as [Haut Hall].
  assert (edge_agrees (tile_of st) 0 (length old) (take (length old) N)) as HEo.
  { apply genuine_agrees; [lia|done|done|]. intros key Hv. apply Haut, Hall. left.
    destruct (Hvm key Hv) as [hs Hf]. by eapply find_tile_key. }
  assert (take (length old) N = leaf_hash <$> take (length old) new) as HN by apply firstn_map. rewrite HN in HEo.
  assert (length (take (length old) new) = length old) as Hlt' by (rewrite length_take; lia).
  assert (old = take (length old) new) as Heq; [|rewrite Heq; apply prefix_take].
  apply root_inj; [unfold len; lia| |eapply collision_free_mono, Hcf; intros x; unfold cf; rewrite !elem_of_app; tauto].
  assert (take (length old) new ≠ []) as Hne by (intros E; rewrite E in Hlt'; rewrite <- Hlt' in Hlt; cbn in Hlt; lia).
  rewrite (merkle_root_level (take _ _)) by done.
  pose proof (walk_true _ (tree_depth (Z.of_nat (length old))) _ _ _ None HEo) as Hwt. rewrite Hwm in Hwt.
  rewrite <- Hro. apply (inj Some). apply Hwt; [|rewrite length_fmap; lia|apply tree_depth_bound|].
  - by rewrite (take_ge (leaf_hash <$> _)), app_nil_r by (rewrite length_fmap; lia).
  - by intros E%fmap_nil_inv.
Qed.

(** ** An honest log

    The tiles of the log, served under their paths. *)
Definition placed (key : tile_key) : Prop := 0 ≤ key.1 ∧ 0 ≤ key.2 ∧ 1 ≤ tile_width candidate key.
Definition true_tile (N : list bytes) (key : tile_key) : list bytes :=
  take (Z.to_nat (tile_width candidate key)) (drop (256 * Z.to_nat key.2) (lv (8 * Z.to_nat key.1) N)).

Definition serves (N : list bytes) : Prop := ∀ key path, placed key →
  tile_path prefix key.1 key.2 (if tile_width candidate key <? 256 then Some (tile_width candidate key) else None) = Ok path →
  fetch path (32 * tile_width candidate key) = Ok (concat (true_tile N key)).

Lemma chunks_concat hs fuel : hashes32 hs → (length hs ≤ fuel)%nat → chunks fuel (concat hs) = hs.
Proof.
  intros H32. revert fuel. induction H32 as [|h hs Hh H32 IH]; intros fuel Hf; [by destruct fuel|].
  destruct fuel as [|fuel]; [cbn in Hf; lia|]. cbn [concat].
  assert (chunks (S fuel) (h ++ concat hs) = take 32 (h ++ concat hs) :: chunks fuel (drop 32 (h ++ concat hs))) as ->
    by (destruct h; [cbn in Hh; lia|done]).
  rewrite take_app_length', drop_app_length' by done. f_equal. apply IH. cbn in Hf. lia.
Qed.

Lemma length_concat32 hs : hashes32 hs → length (concat hs) = (32 * length hs)%nat.
Proof. induction 1; cbn [concat length]; rewrite ?length_app; lia. Qed.

Section honest.
Context (new : list bytes) (Hn : commits candidate new) (Hserves : serves (leaf_hash <$> new)) (Hcheck : ∀ m, check m = Ok ()).
Local Abbreviation N := (leaf_hash <$> new).
Local Abbreviation n := (length new).

Lemma tile_width_nat key : 0 ≤ key.1 → 0 ≤ key.2 →
  tile_width candidate key = Z.min 256 (Z.of_nat (n / 256 ^ Z.to_nat key.1) - key.2 * 256).
Proof.
  intros H1 H2. unfold tile_width. rewrite (proj1 Hn), Z.shiftr_div_pow2 by lia. unfold len. do 2 f_equal.
  rewrite Nat2Z.inj_div, Nat2Z.inj_pow. f_equal. change (Z.of_nat 256) with (2 ^ 8).
  rewrite <- Z.pow_mul_r by lia. f_equal. lia.
Qed.

Lemma true_tile_shape key : placed key →
  hashes32 (true_tile N key) ∧ len (true_tile N key) = tile_width candidate key.
Proof.
  intros (H1 & H2 & Hw). split; [by apply Forall_take, Forall_drop, lv_hashes32, hashes32_leaf|].
  unfold true_tile, len. rewrite length_take, length_drop.
  pose proof (length_lv_ge (8 * Z.to_nat key.1) N) as Hge. rewrite length_fmap, pow256 in Hge.
  pose proof (tile_width_nat key H1 H2). lia.
Qed.

Lemma fetch_tile_true key : placed key → fetch_tile fetch check prefix trusted candidate key = Ok (true_tile N key).
Proof.
  intros Hp. pose proof (true_tile_shape key Hp) as [H32 Hlen]. pose proof Hp as (H1 & H2 & Hw).
  pose proof (tile_width_nat key H1 H2) as Hwn. unfold fetch_tile, request_tile. rewrite !Hcheck. cbn [mbind result_bind].
  rewrite guard_false by (rewrite negb_false_iff; apply andb_true_intro; split; apply Z.leb_le; lia).
  destruct (tile_path prefix key.1 key.2 (if tile_width candidate key <? 256 then _ else _)) as [path|e] eqn:Hpath.
  2: { exfalso. unfold tile_path, tile_n in Hpath. rewrite guard_false in Hpath by (apply Z.ltb_ge; lia). discriminate. }
  cbn [mbind result_bind]. rewrite (Hserves key path Hp Hpath). cbn [mbind result_bind].
  pose proof (length_concat32 _ H32) as Hc. unfold len in *.
  rewrite guard_false by (rewrite negb_false_iff, Z.eqb_eq; lia). cbn [mbind result_bind].
  rewrite chunks_concat; [done|done|lia].
Qed.

Definition true_state (st : tile_state) : Prop :=
  ∀ key hs, find_tile key st = Some hs → placed key ∧ hs = true_tile N key.

Lemma true_state_ok st : true_state st → tiles_ok st.
Proof.
  intros Ht key hs Hf. destruct (Ht _ _ Hf) as [Hp ->]. destruct (true_tile_shape key Hp). destruct Hp as (? & ? & ?).
  split_and!; done.
Qed.

Lemma true_state_genuine st key hs : true_state st → find_tile key st = Some hs → genuine N key hs.
Proof.
  intros Ht Hf. destruct (Ht _ _ Hf) as [Hp ->]. destruct (true_tile_shape key Hp) as [_ Hl]. destruct Hp as (? & ? & ?).
  split_and!; [done..|]. unfold len in Hl. unfold true_tile at 1. f_equal. lia.
Qed.

Lemma read_true key st : placed key → true_state st →
  ∃ st', read fetch check prefix trusted candidate key st = Ok (st', true_tile N key) ∧ true_state st'.
Proof.
  intros Hp Ht. unfold read. destruct (find_tile key st) as [hs|] eqn:Hf.
  - exists st. destruct (Ht _ _ Hf) as [_ ->]. done.
  - rewrite fetch_tile_true by done. exists (add_tile key (true_tile N key) st). split; [done|].
    intros key' hs'. rewrite find_tile_add. destruct (find_tile key' st) eqn:Hk; [intros [= <-]; by apply Ht|].
    case_decide; [|done]. intros [= <-]. by subst.
Qed.

Lemma placed_edge l k : (k ≤ n / 256 ^ l)%nat → (k mod 256 ≠ 0)%nat → placed (edge_key l k).
Proof.
  intros Hk Hz. unfold placed. rewrite tile_width_nat; unfold edge_key; cbn [fst snd]; [|lia..]. rewrite Nat2Z.id.
  pose proof (Nat.Div0.div_mod k 256). split_and!; lia.
Qed.

Lemma walk_runs fuel edge l k tail st : (k < 256 ^ fuel)%nat → (k ≤ n / 256 ^ l)%nat → true_state st →
  ∃ st' r, root_walk fetch check prefix trusted candidate fuel edge (Z.of_nat l) (Z.of_nat k) tail st = Ok (st', r) ∧ true_state st'.
Proof.
  revert l k tail st. induction fuel as [|fuel IH]; intros l k tail st Hf Hk Ht; cbn [root_walk]; [eauto|].
  destruct (Z.eqb_spec (Z.of_nat k) 0) as [H0|H0]; [eauto|].
  assert (k / 256 < 256 ^ fuel)%nat as Hf'
    by (rewrite Nat.pow_succ_r' in Hf; apply Nat.Div0.div_lt_upper_bound; lia).
  assert (k / 256 ≤ n / 256 ^ S l)%nat as Hk'.
  { replace (256 ^ S l)%nat with (256 ^ l * 256)%nat by (rewrite Nat.pow_succ_r'; lia).
    rewrite <- Nat.Div0.div_div. by apply Nat.Div0.div_le_mono. }
  assert (Z.of_nat k / 256 = Z.of_nat (k / 256)) as -> by (by rewrite Nat2Z.inj_div).
  assert (Z.of_nat k mod 256 = Z.of_nat (k mod 256)) as -> by (by rewrite Nat2Z.inj_mod).
  replace (Z.of_nat l + 1) with (Z.of_nat (S l)) by lia.
  destruct (Z.eqb_spec (Z.of_nat (k mod 256)) 0) as [Hz|Hz]; [by apply IH|].
  assert (placed (edge_key l k)) as Hp by (apply placed_edge; [done|lia]).
  destruct (read_true _ st Hp Ht) as (st1 & Hr & Ht1). unfold edge_key in Hr at 1. rewrite Hr. cbn [mbind result_bind].
  destruct (true_tile_shape _ Hp) as [_ Hl]. pose proof Hp as (_ & _ & Hw).
  rewrite hash_root_level; [apply IH; [done..|]; by destruct edge| |].
  - rewrite length_app. pose proof (option_list_short tail). lia.
  - intros [E _]%app_nil. apply (f_equal length) in E. rewrite length_take in E. cbn [length] in E. unfold len in Hl. lia.
Qed.

(** The root of each prefix is found. *)
Lemma root_runs m edge st : (0 < m ≤ n)%nat → true_state st →
  ∃ st', root fetch check prefix trusted candidate (Z.of_nat m) edge st = Ok (st', merkle_root_from_entries (take m new))
    ∧ true_state st'.
Proof.
  intros Hm Ht. destruct (walk_runs (tree_depth (Z.of_nat m)) edge 0 m None st) as (st' & r & Hw & Ht');
    [apply tree_depth_bound|rewrite Nat.pow_0_r, Nat.div_1_r; lia|done|].
  destruct (walk_spec _ _ 0 m _ _ _ _ (tree_depth_bound m) Hw (true_state_ok _ Ht)) as (Hok & _ & Hv & Hvis & _).
  assert (edge_agrees (tile_of st') 0 m (take m N)) as HE.
  { apply genuine_agrees; [rewrite length_fmap; lia|unfold len; rewrite length_fmap; symmetry; apply Hn|done|].
    intros key [hs Hf]%Hvis. eauto using true_state_genuine. }
  assert (length (take m N) = m) as Hlm by (rewrite length_take, length_fmap; lia).
  assert (take m N ≠ []) as Hne by (intros E; rewrite E in Hlm; cbn in Hlm; lia).
  assert (take m N = leaf_hash <$> take m new) as HN by apply firstn_map.
  exists st'. split; [|done]. unfold root. change 0 with (Z.of_nat 0). rewrite Hw. cbn [mbind result_bind].
  rewrite <- (Hv st' (grows_refl _)). rewrite (walk_true _ _ _ _ (take m N));
    [|done|cbn; rewrite app_nil_r, take_take; f_equal; lia|lia|apply tree_depth_bound|done].
  do 2 f_equal. rewrite HN, merkle_root_level; [done|]. intros E. rewrite HN, E in Hne. done.
Qed.

(** A tile that is not on the right edge is full. *)
Lemma placed_cases key : placed key → visited 0 n key ∨ tile_width candidate key = 256.
Proof.
  intros (H1 & H2 & Hw). rewrite tile_width_nat in * by done. set (nl := (n / 256 ^ Z.to_nat key.1)%nat) in *.
  destruct (decide (256 ≤ Z.of_nat nl - key.2 * 256)); [right; lia|left].
  exists (Z.to_nat key.1). fold nl. rewrite Nat.add_0_l. unfold edge_key.
  assert (nl / 256 = Z.to_nat key.2)%nat as Hq by (symmetry; apply (Nat.div_unique _ _ _ (nl - 256 * Z.to_nat key.2)); lia).
  pose proof (Nat.Div0.div_mod nl 256). split; [lia|]. destruct key. cbn [fst snd] in *. f_equal; lia.
Qed.

(** The parent of a full tile has its root. *)
Lemma parent_entry key : placed key → tile_width candidate key = 256 →
  let parent := (key.1 + 1, key.2 / 256) in
  placed parent ∧ true_tile N parent !! Z.to_nat (key.2 mod 256) = Some (level_root (true_tile N key)).
Proof.
  intros (H1 & H2 & Hp) Hw. cbv zeta. pose proof (Z.div_pos key.2 256). pose proof (Z.div_mod key.2 256). pose proof (Z.mod_pos_bound key.2 256).
  pose proof (full_width N key ltac:(unfold len; rewrite length_fmap; symmetry; apply Hn) H1 H2 Hw) as Hfull.
  set (l := Z.to_nat key.1) in *. set (j := Z.to_nat key.2) in *.
  assert (key.2 + 1 ≤ Z.of_nat (n / 256 ^ S l)) as Hj.
  { rewrite tile_width_nat in Hw by done. fold l in Hw.
    replace (256 ^ S l)%nat with (256 ^ l * 256)%nat by (rewrite Nat.pow_succ_r'; lia).
    rewrite <- Nat.Div0.div_div. assert (j + 1 ≤ n / 256 ^ l / 256)%nat; [|lia].
    apply Nat.div_le_lower_bound; lia. }
  assert (placed (key.1 + 1, key.2 / 256)) as Hpp.
  { split_and!; cbn [fst snd]; [lia|lia|]. rewrite tile_width_nat; cbn [fst snd]; [|lia..].
    replace (Z.to_nat (key.1 + 1)) with (S l) by lia. lia. }
  split; [done|]. unfold true_tile at 1. rewrite lookup_take_lt.
  2: { rewrite tile_width_nat; cbn [fst snd]; [|lia..]. replace (Z.to_nat (key.1 + 1)) with (S l) by lia. lia. }
  rewrite lookup_drop. cbn [fst snd].
  replace (256 * Z.to_nat (key.2 / 256) + Z.to_nat (key.2 mod 256))%nat with j by lia.
  replace (8 * Z.to_nat (key.1 + 1))%nat with (8 + 8 * l)%nat by lia.
  rewrite lv_add, lv_lookup_block by done. unfold true_tile. rewrite Hw. fold l j.
  replace (j * 2 ^ 8)%nat with (256 * j)%nat by (change (2 ^ 8)%nat with 256%nat; lia). done.
Qed.

Definition edge_marked (st : tile_state) : Prop := ∀ key, visited 0 n key → key ∈ ts_authenticated st.

Lemma authenticate_runs fuel key st : is_Some (find_tile key st) → (n / 256 ^ Z.to_nat key.1 < 256 ^ fuel)%nat →
  true_state st → edge_marked st →
  ∃ st', authenticate_tile fetch check prefix trusted candidate fuel key st = Ok st' ∧ true_state st' ∧ edge_marked st' ∧ grows st st'.
Proof.
  revert key st. induction fuel as [|fuel IH]; intros key st [own Hown] Hf Ht He; cbn [authenticate_tile];
    (case_bool_decide as Hin; [exists st; split_and!; try done; apply grows_refl|]); rewrite Hown;
    destruct (Ht _ _ Hown) as [Hp ->]; destruct (placed_cases key Hp) as [Hv|Hw]; try (by destruct Hin; apply He).
  - exfalso. destruct Hp as (H1 & H2 & _). rewrite tile_width_nat in Hw by done. cbn in Hf. lia.
  - destruct (true_tile_shape key Hp) as [_ Hlen]. destruct (parent_entry key Hp Hw) as [Hpp Hentry]. rewrite Hw in Hlen.
    rewrite guard_false by (rewrite negb_false_iff; by apply Z.eqb_eq).
    destruct (read_true _ st Hpp Ht) as (st1 & Hr & Ht1). rewrite Hr. cbn [mbind result_bind].
    destruct (read_spec (key.1 + 1, key.2 / 256) _ _ _ (proj1 Hpp) (proj1 (proj2 Hpp)) Hr (true_state_ok _ Ht)) as (_ & Hg1 & Hf1 & Ha1).
    destruct (IH (key.1 + 1, key.2 / 256) st1) as (st2 & Ha2 & Ht2 & He2 & Hg2).
    + eauto.
    + cbn [fst]. replace (Z.to_nat (key.1 + 1)) with (S (Z.to_nat key.1)) by (destruct Hp; lia).
      replace (256 ^ S (Z.to_nat key.1))%nat with (256 ^ Z.to_nat key.1 * 256)%nat by (rewrite Nat.pow_succ_r'; lia).
      rewrite <- Nat.Div0.div_div. rewrite Nat.pow_succ_r' in Hf. apply Nat.Div0.div_lt_upper_bound. lia.
    + done.
    + intros k Hk. rewrite Ha1. by apply He.
    + rewrite Ha2. cbn [mbind result_bind]. unfold len in Hlen.
      rewrite hash_root_level; cbn [option_list]; rewrite ?app_nil_r; [|lia|intros E; rewrite E in Hlen; cbn in Hlen; lia].
      cbn [mbind result_bind]. rewrite Hentry. cbn [mbind result_bind].
      rewrite guard_false by (by rewrite negb_false_iff, eqb_true). eexists. split; [done|]. split_and!.
      * intros k hs. rewrite find_mark. apply Ht2.
      * intros k Hk. right. by apply He2.
      * intros k hs Hk. rewrite find_mark. by apply Hg2, Hg1.
Qed.

Lemma authenticate_all_runs keys st : (∀ key, key ∈ keys → is_Some (find_tile key st)) → true_state st → edge_marked st →
  ∃ st', authenticate_all fetch check prefix trusted candidate keys st = Ok st'.
Proof.
  revert st. induction keys as [|key keys IH]; intros st Hk Ht He; cbn [authenticate_all]; [eauto|].
  destruct (authenticate_runs (tree_depth (tc_tree_size candidate)) key st) as (st1 & Ha & Ht1 & He1 & Hg1); [apply Hk; by left| |done|done|].
  - rewrite (proj1 Hn). eapply Nat.le_lt_trans; [|apply tree_depth_bound]. apply Nat.Div0.div_le_upper_bound.
    pose proof (Nat.pow_nonzero 256 (Z.to_nat key.1)). nia.
  - rewrite Ha. cbn [mbind result_bind]. apply IH; [|done|done]. intros k Hin. destruct (Hk k) as [hs Hf]; [by right|]. eauto.
Qed.

Lemma key_find key st : key ∈ map fst (ts_tiles st) → is_Some (find_tile key st).
Proof.
  intros ([k hs] & -> & Hin)%list_elem_of_fmap. unfold find_tile. destruct (List.find _ _) eqn:Hf; [done|].
  apply List.find_none with (x := (k, hs)) in Hf; [|by apply list_elem_of_In]. cbn in Hf. unfold eqb in Hf.
  by rewrite bool_decide_eq_true_2 in Hf.
Qed.

Lemma run_complete max_tree_size m : commits trusted (take m new) → (0 < m < n)%nat → len new ≤ max_tree_size →
  consistency_tiles fetch check prefix trusted candidate max_tree_size = Ok ().
Proof.
  intros [Hts Htr] Hm Hmax. pose proof Hn as [Hsz Hroot]. assert (len (take m new) = Z.of_nat m) as Hlm by (unfold len; rewrite length_take; lia).
  unfold consistency_tiles, consistency_run. rewrite Hts, Hlm.
  rewrite guard_false by (rewrite negb_false_iff, !andb_true_iff, !Z.ltb_lt, Z.leb_le; rewrite Hsz; unfold len in *; lia).
  destruct (root_runs n true {| ts_tiles := []; ts_authenticated := [] |}) as (st1 & Hr1 & Ht1); [lia|by intros key hs|].
  rewrite Hsz. change (len new) with (Z.of_nat n). rewrite Hr1. cbn [mbind result_bind].
  rewrite guard_false by (rewrite negb_false_iff, eqb_true, take_ge by lia; by rewrite Hroot).
  destruct (root_runs m false st1) as (st2 & Hr2 & Ht2); [lia|done|]. rewrite Hr2. cbn [mbind result_bind].
  destruct (root_spec _ _ _ _ _ Hr1) as (Hok1 & _ & _ & _ & Ha1); [by intros key hs|].
  destruct (root_spec _ _ _ _ _ Hr2 Hok1) as (_ & _ & _ & _ & Ha2).
  destruct (authenticate_all_runs (map fst (ts_tiles st2)) st2) as [st3 Hau]; [intros key; apply key_find|done| |].
  { intros key Hv. rewrite Ha2, Ha1. left. by right. }
  rewrite Hau, Hcheck. cbn [mbind result_bind]. rewrite guard_false by (rewrite negb_false_iff, eqb_true; by rewrite Htr). done.
Qed.
End honest.
End runs.

(** C28 The hash tiles that the verifier accepts prove that the log only grew:
    if [consistency_tiles] returns for checkpoints of the logs [old] and [new],
    then [old] is a prefix of [new], whatever the server answered, unless two of
    the strings hashed (in the two logs and in the tiles fetched) collide under
    SHA-256. *)
Theorem hash_tiles_sound (fetch : str → Z → res bytes) (check : tile_moment → res unit) (prefix : str)
    (trusted candidate : TrustedCheckpoint) (max_tree_size : Z) (old new : list bytes) (st : tile_state)
    (Hold : commits trusted old) (Hnew : commits candidate new)
    (Hrun : consistency_run fetch check prefix trusted candidate max_tree_size = Ok st)
    (Hcf : collision_free (hash_inputs old ++ hash_inputs new ++ hash_inputs (take (length old) new)
                           ++ verifier_inputs (length new) st)) :
  old `prefix_of` new.
Proof. by eapply run_prefix. Qed.

(** A log that serves its own tiles is accepted: if [trusted] is the checkpoint
    of a proper non-empty prefix of the log [new] of [candidate], its size is
    within the limit, the server answers each request with the tile of that
    place in the tree and no deadline expires, then [consistency_tiles] returns;
    the loops end and no lookup fails. *)
Theorem hash_tiles_complete (fetch : str → Z → res bytes) (check : tile_moment → res unit) (prefix : str)
    (trusted candidate : TrustedCheckpoint) (max_tree_size : Z) (new : list bytes) (m : nat)
    (Hnew : commits candidate new) (Hold : commits trusted (take m new))
    (Hm : (0 < m < length new)%nat) (Hmax : len new ≤ max_tree_size)
    (Hserves : serves fetch prefix candidate (leaf_hash <$> new)) (Hcheck : ∀ moment, check moment = Ok ()) :
  consistency_tiles fetch check prefix trusted candidate max_tree_size = Ok ().
Proof. by eapply run_complete. Qed.

(** ** Witnesses *)
Section witnesses.
Local Definition at_epoch : datetime := utc 1700000000000000.
Local Definition checkpoint_of (es : list bytes) : TrustedCheckpoint :=
  {| tc_origin := lit "log.example"; tc_tree_size := len es; tc_root_hash := merkle_root_from_entries es; tc_witness_time := at_epoch |}.

Lemma checkpoint_of_commits es : commits (checkpoint_of es) es.
Proof. done. Qed.

Local Definition five : list bytes := [[1]; [2]; [3]; [4]; [5]].
Local Definition serve_five (_ : str) (_ : Z) : res bytes := Ok (concat (leaf_hash <$> five)).
Local Definition no_deadline (_ : tile_moment) : res unit := Ok ().
Local Definition five_state : tile_state :=
  {| ts_tiles := [((0, 0), leaf_hash <$> five)]; ts_authenticated := [(0, 0)] |}.

Lemma hash_tiles_sound_witness : [[1]; [2]; [3]] `prefix_of` five.
Proof.
  apply (hash_tiles_sound serve_five no_deadline (lit "") (checkpoint_of (take 3 five)) (checkpoint_of five) 10 _ _ five_state);
    [split; reflexivity|split; reflexivity|vm_compute; reflexivity|apply collision_freeb_sound; vm_compute; reflexivity].
Defined.

(** A server for a log of 260 entries: two entry tiles and one above. *)
Local Definition serve_260 (candidate : TrustedCheckpoint) (N : list bytes) (path : str) (_ : Z) : res bytes :=
  if path ==? lit "/tile/0/000" then Ok (concat (true_tile candidate N (0, 0)))
  else if path ==? lit "/tile/0/001.p/4" then Ok (concat (true_tile candidate N (0, 1)))
  else Ok (concat (true_tile candidate N (1, 0))).

Lemma serves_260 candidate N : tc_tree_size candidate = 260 → serves (serve_260 candidate N) (lit "") candidate N.
Proof.
  intros Hn [l j] path (H1 & H2 & Hw) Hp. cbn [fst snd] in *. unfold tile_width in *. rewrite Hn in *. cbn [fst snd] in *.
  rewrite Z.shiftr_div_pow2 in * by lia.
  destruct (decide (l = 0)) as [->|]; [|destruct (decide (l = 1)) as [->|]].
  - change (260 / 2 ^ (8 * 0)) with 260 in *. destruct (decide (j = 0)) as [->|]; [|assert (j = 1) as -> by lia];
      vm_compute in Hp; apply Ok_inj in Hp; subst path; reflexivity.
  - change (260 / 2 ^ (8 * 1)) with 1 in *. assert (j = 0) as -> by lia. vm_compute in Hp; apply Ok_inj in Hp; subst path; reflexivity.
  - exfalso. rewrite Z.div_small in Hw; [lia|]. split; [lia|].
    apply (Z.lt_le_trans _ (2 ^ 16)); [lia|]. apply Z.pow_le_mono_r; lia.
Qed.

Local Definition entries_260 : list bytes := (λ k, [Z.of_nat k mod 256]) <$> seq 0 260.

Lemma hash_tiles_complete_witness :
  consistency_tiles (serve_260 (checkpoint_of entries_260) (leaf_hash <$> entries_260)) no_deadline (lit "")
    (checkpoint_of (take 258 entries_260)) (checkpoint_of entries_260) 1000 = Ok ().
Proof.
  apply (hash_tiles_complete _ _ _ _ _ _ entries_260 258);
    [apply checkpoint_of_commits|apply checkpoint_of_commits| | | |done].
  - unfold entries_260. rewrite length_fmap, length_seq. lia.
  - unfold entries_260, len. rewrite length_fmap, length_seq. lia.
  - apply serves_260. unfold checkpoint_of, entries_260, len. cbn [tc_tree_size]. by rewrite length_fmap, length_seq.
Defined.
End witnesses.
