(* ===== verification/Canonical.v ===== *)
(** * Canonical JSON ([c2sp_tlog/canonical.py])

    Python's JSON values, [json.loads] with the duplicate-member hook,
    [json.dumps] of strings, and the canonical serialization of RFC 8785 with
    its nesting limit. *)
From S2P Require Import Prelude Errors PyText PyFloat.

(** ** Values

    A dict keeps its insertion order; lookups use the first pair of a name,
    which is the only one after the duplicate check. *)
Inductive json : Set :=
| JNull
| JBool (b : bool)
| JInt (z : Z)
| JFloat (f : pyfloat)
| JStr (s : str)
| JList (l : list json)
| JDict (d : list (str * json)).

Section json_induction.
Context (P : json → Prop)
  (Hnull : P JNull) (Hbool : ∀ b, P (JBool b)) (Hint : ∀ z, P (JInt z))
  (Hfloat : ∀ f, P (JFloat f)) (Hstr : ∀ s, P (JStr s))
  (Hlist : ∀ l, Forall P l → P (JList l))
  (Hdict : ∀ d, Forall (λ kv, P kv.2) d → P (JDict d)).

Fixpoint json_nested_ind (v : json) : P v :=
  match v with
  | JNull => Hnull
  | JBool b => Hbool b
  | JInt z => Hint z
  | JFloat f => Hfloat f
  | JStr s => Hstr s
  | JList l =>
      Hlist l ((fix go (l : list json) : Forall P l :=
        match l with
        | [] => List.Forall_nil _
        | x :: l => List.Forall_cons _ _ _ (json_nested_ind x) (go l)
        end) l)
  | JDict d =>
      Hdict d ((fix go (d : list (str * json)) : Forall (λ kv, P kv.2) d :=
        match d with
        | [] => List.Forall_nil _
        | kv :: d => List.Forall_cons (λ kv, P kv.2) kv d (json_nested_ind kv.2) (go d)
        end) d)
  end.
End json_induction.

Definition MAX_SAFE_INT : Z := 9007199254740991.
Definition MAX_JSON_DEPTH : Z := 64.

(** [obj.get(name)] of a dict. *)
Fixpoint member (name : str) (d : list (str * json)) : option json :=
  match d with
  | [] => None
  | (k, v) :: d => if k ==? name then Some v else member name d
  end.

(** ** Serialization *)

(** The depth of the deepest value below the root. *)
Fixpoint json_depth (v : json) : Z :=
  match v with
  | JList l => foldr (λ x a, Z.max (1 + json_depth x) a) 0 l
  | JDict d => foldr (λ kv a, Z.max (1 + json_depth kv.2) a) 0 d
  | _ => 0
  end.

(** [json.dumps(s, ensure_ascii=False)] *)
Definition escape_char (c : Z) : str :=
  if c =? 34 then [92; 34]
  else if c =? 92 then [92; 92]
  else if c =? 10 then [92; 110]
  else if c =? 13 then [92; 114]
  else if c =? 9 then [92; 116]
  else if c =? 12 then [92; 102]
  else if c =? 8 then [92; 98]
  else if c <? 32 then [92; 117; 48; 48; hex_digit (c / 16); hex_digit (c mod 16)]
  else [c].
Definition dumps_str (s : str) : str := [34] ++ concat (escape_char <$> s) ++ [34].

(** [_format_jcs_number], from the text of [repr(abs(value))]. *)
Definition format_jcs_text (neg : bool) (text : str) : str :=
  let sign := if neg then [45] else [] in
  let e := find [101] text in
  let mantissa := if e =? -1 then text else take (Z.to_nat e) text in
  let exponent :=
    if e =? -1 then 0
    else match drop (Z.to_nat (e + 1)) text with
         | 45 :: ds => - int_of_digits ds
         | 43 :: ds => int_of_digits ds
         | ds => int_of_digits ds
         end in
  let dot := find [46] mantissa in
  let int_part := if dot =? -1 then mantissa else take (Z.to_nat dot) mantissa in
  let frac_part := if dot =? -1 then [] else drop (Z.to_nat (dot + 1)) mantissa in
  let all_digits := int_part ++ frac_part in
  let leading_zeros := len all_digits - len (lstrip is_zero_char all_digits) in
  let n := len int_part + exponent - leading_zeros in
  let digits := strip is_zero_char all_digits in
  let k := len digits in
  if (k <=? n) && (n <=? 21) then sign ++ digits ++ zeros (n - k)
  else if (0 <? n) && (n <=? 21) then
    sign ++ take (Z.to_nat n) digits ++ [46] ++ drop (Z.to_nat n) digits
  else if (-6 <? n) && (n <=? 0) then sign ++ lit "0." ++ zeros (- n) ++ digits
  else
    let exp10 := n - 1 in
    let exp_str := if 0 <=? exp10 then lit "e+" ++ str_of_int exp10
                   else lit "e-" ++ str_of_int (- exp10) in
    if k =? 1 then sign ++ digits ++ exp_str
    else sign ++ take 1 digits ++ [46] ++ drop 1 digits ++ exp_str.

Definition format_jcs_number (neg : bool) (m e : Z) : str :=
  if m =? 0 then lit "0" else format_jcs_text neg (repr_abs m e).

Definition canonical_int (value : Z) : res str :=
  as_double ← try_except (float_of_int value)
                (λ _, Raise (perr "integer outside IEEE-754 double range"));
  match as_double with
  | Finite neg m e =>
      raise_if (negb (int_of_finite neg m e =? value))
        (perr "integer is not exactly representable as an IEEE-754 double") ;;
      Ok (format_jcs_number neg m e)
  | _ => Raise (perr "integer outside IEEE-754 double range")
  end.

Definition assert_valid_unicode (value : str) : res unit :=
  raise_if (existsb is_surrogate value) (perr "JSON contains an unpaired surrogate").

(** [s.encode("utf-16-be")]: the code units, as sort key. *)
Definition utf16_units (c : Z) : list Z :=
  if c <? 0x10000 then [c]
  else [0xD800 + (c - 0x10000) / 1024; 0xDC00 + (c - 0x10000) mod 1024].
Definition utf16_sort_key (s : str) : res (list Z) :=
  raise_if (existsb is_surrogate s) (ValueError (lit "surrogates not allowed")) ;;
  Ok (concat (utf16_units <$> s)).

(** Lexicographic order of two keys. *)
Fixpoint key_leb (a b : list Z) : bool :=
  match a, b with
  | [], _ => true
  | _ :: _, [] => false
  | x :: a, y :: b => (x <? y) || ((x =? y) && key_leb a b)
  end.

(** [sorted(value.keys(), key=_utf16_sort_key)], with the members. *)
Fixpoint insert_member {A} (k : list Z) (x : A) (l : list (list Z * A)) : list (list Z * A) :=
  match l with
  | [] => [(k, x)]
  | (k', y) :: l' => if key_leb k k' then (k, x) :: l else (k', y) :: insert_member k x l'
  end.
Fixpoint sort_members {A} (l : list (list Z * A)) : list (list Z * A) :=
  match l with
  | [] => []
  | (k, x) :: l => insert_member k x (sort_members l)
  end.

(** [",".join(parts)] between brackets. *)
Definition bracket (l r : Z) (parts : list str) : str := [l] ++ join [44] parts ++ [r].

(** The members paired with their sort keys. *)
Definition keyed {A} (d : list (str * A)) : res (list (list Z * (str * A))) :=
  mapM_res (λ kv, k ← utf16_sort_key kv.1; Ok (k, kv)) d.

(** One [name:value] part. *)
Definition member_text (k : str) (v : res str) : res str :=
  assert_valid_unicode k ;; text ← v; Ok (dumps_str k ++ [58] ++ text).

(** [_canonical_json]; the rendering of a member value is consulted, and its
    exception raised, only when its turn in the sorted order comes. *)
Fixpoint canonical_value (value : json) : res str :=
  match value with
  | JNull => Ok (lit "null")
  | JBool b => Ok (if b then lit "true" else lit "false")
  | JInt z => canonical_int z
  | JFloat (Finite neg m e) => Ok (format_jcs_number neg m e)
  | JFloat _ => Raise (perr "non-canonical JSON number")
  | JStr s => assert_valid_unicode s ;; Ok (dumps_str s)
  | JList l => parts ← mapM_res canonical_value l; Ok (bracket 91 93 parts)
  | JDict d =>
      members ← keyed (map (λ kv, (kv.1, canonical_value kv.2)) d);
      parts ← mapM_res (λ m, member_text m.2.1 m.2.2) (sort_members members);
      Ok (bracket 123 125 parts)
  end.

Definition canonical_json (value : json) : res str :=
  raise_if (MAX_JSON_DEPTH <? json_depth value)
    (C2spTlogResourceLimitError (lit "JSON nesting limit exceeded")) ;;
  canonical_value value.

Definition canonical_bytes (value : json) : res bytes :=
  text ← canonical_json value; utf8_encode text.

(** ** Parsing *)

(** One step of the nesting scan; [None] when the limit is exceeded. *)
Record scan : Set := { sc_depth : Z; sc_in_string : bool; sc_escaped : bool }.

Definition is_json_skip (b : Z) : bool :=
  (b =? 32) || (b =? 9) || (b =? 13) || (b =? 10) || (b =? 58) || (b =? 44).
Definition is_opener (b : Z) : bool := (b =? 91) || (b =? 123).
Definition is_closer (b : Z) : bool := (b =? 93) || (b =? 125).

Definition scan_byte (st : scan) (byte : Z) : res scan :=
  if sc_in_string st then
    if sc_escaped st then Ok {| sc_depth := sc_depth st; sc_in_string := true; sc_escaped := false |}
    else if byte =? 0x5C then Ok {| sc_depth := sc_depth st; sc_in_string := true; sc_escaped := true |}
    else if byte =? 0x22 then Ok {| sc_depth := sc_depth st; sc_in_string := false; sc_escaped := false |}
    else Ok st
  else if is_json_skip byte then Ok st
  else if is_closer byte then
    Ok {| sc_depth := sc_depth st - 1; sc_in_string := false; sc_escaped := sc_escaped st |}
  else
    raise_if (MAX_JSON_DEPTH <? sc_depth st)
      (C2spTlogResourceLimitError (lit "JSON nesting limit exceeded")) ;;
    if byte =? 0x22 then
      Ok {| sc_depth := sc_depth st; sc_in_string := true; sc_escaped := sc_escaped st |}
    else if is_opener byte then
      Ok {| sc_depth := sc_depth st + 1; sc_in_string := false; sc_escaped := sc_escaped st |}
    else Ok st.

Definition check_json_nesting (data : bytes) : res unit :=
  if len (List.filter is_opener data) <=? MAX_JSON_DEPTH then Ok ()
  else
    foldM_res scan_byte data {| sc_depth := 0; sc_in_string := false; sc_escaped := false |} ;;
    Ok ().

Definition json_error : exn := ValueError (lit "invalid JSON").

Definition is_json_ws (c : Z) : bool := (c =? 32) || (c =? 9) || (c =? 10) || (c =? 13).
Definition skip_ws (s : str) : str := lstrip is_json_ws s.

Definition hex4 (a b c d : Z) : option Z :=
  if is_hex a && is_hex b && is_hex c && is_hex d
  then Some (((hex_value a * 16 + hex_value b) * 16 + hex_value c) * 16 + hex_value d)
  else None.

Definition simple_escape (c : Z) : option Z :=
  if c =? 34 then Some 34 else if c =? 92 then Some 92 else if c =? 47 then Some 47
  else if c =? 98 then Some 8 else if c =? 102 then Some 12 else if c =? 110 then Some 10
  else if c =? 114 then Some 13 else if c =? 116 then Some 9 else None.

(** Adding a decoded character to the rest of the string. *)
Definition cons_char (c : Z) (r : res (str * str)) : res (str * str) :=
  '(s, rest) ← r; Ok (c :: s, rest).

Definition is_high (u : Z) : bool := (0xD800 <=? u) && (u <=? 0xDBFF).
Definition is_low (u : Z) : bool := (0xDC00 <=? u) && (u <=? 0xDFFF).

(** The string literal after its opening quote: content and rest.  A pair of
    [\uXXXX] escapes for a high and a low surrogate is one character. *)
Fixpoint scan_string (s : str) : res (str * str) :=
  match s with
  | [] => Raise json_error
  | c :: rest =>
      if c =? 34 then Ok ([], rest)
      else if c =? 92 then
        match rest with
        | [] => Raise json_error
        | e :: rest1 =>
            if e =? 117 then
              match rest1 with
              | h1 :: h2 :: h3 :: h4 :: rest2 =>
                  match hex4 h1 h2 h3 h4 with
                  | None => Raise json_error
                  | Some u =>
                      match rest2 with
                      | b :: e' :: l1 :: l2 :: l3 :: l4 :: rest3 =>
                          if is_high u && (b =? 92) && (e' =? 117) then
                            match hex4 l1 l2 l3 l4 with
                            | None => Raise json_error
                            | Some u' =>
                                if is_low u'
                                then cons_char (0x10000 + (u - 0xD800) * 1024 + (u' - 0xDC00))
                                       (scan_string rest3)
                                else cons_char u (scan_string rest2)
                            end
                          else cons_char u (scan_string rest2)
                      | _ => cons_char u (scan_string rest2)
                      end
                  end
              | _ => Raise json_error
              end
            else match simple_escape e with
                 | Some x => cons_char x (scan_string rest1)
                 | None => Raise json_error
                 end
        end
      else if c <=? 31 then Raise json_error
      else cons_char c (scan_string rest)
  end.

(** Maximal run of digits. *)
Definition digits_of (s : str) : str * str :=
  let ds := take_while is_digit s in (ds, drop (length ds) s).

(** The integer, fraction and exponent of a number after its sign. *)
Definition scan_frac (s : str) : str * str :=
  match s with
  | c :: rest =>
      if c =? 46 then
        let '(ds, rest') := digits_of rest in if ds ==? [] then ([], s) else (ds, rest')
      else ([], s)
  | [] => ([], s)
  end.

Definition scan_exp (s : str) : option Z * str :=
  match s with
  | c :: rest =>
      if (c =? 101) || (c =? 69) then
        let neg := startswith [45] rest in
        let rest := if neg || startswith [43] rest then drop 1 rest else rest in
        let '(ds, rest') := digits_of rest in
        if ds ==? [] then (None, s)
        else (Some (if neg then - int_of_digits ds else int_of_digits ds), rest')
      else (None, s)
  | [] => (None, s)
  end.

(** The limit of [int()] on decimal text. *)
Definition int_max_str_digits : Z := 4300.

Definition scan_number (neg : bool) (s : str) : res (json * str) :=
  let '(int_part, rest) :=
    if startswith [48] s then ([48], drop 1 s) else digits_of s in
  if int_part ==? [] then Raise json_error
  else
    let '(frac, rest) := scan_frac rest in
    let '(exp, rest) := scan_exp rest in
    if (frac ==? []) && (exp ==? None) then
      raise_if (int_max_str_digits <? len int_part) json_error ;;
      let n := int_of_digits int_part in
      Ok (JInt (if neg then - n else n), rest)
    else
      Ok (JFloat (float_of_decimal neg (int_of_digits (int_part ++ frac))
                    (default 0 exp - len frac)), rest).

(** [_no_dups] *)
Definition no_dups (pairs : list (str * json)) : res (list (str * json)) :=
  raise_if (negb (bool_decide (NoDup (pairs.*1)))) (perr "duplicate JSON member") ;;
  Ok pairs.

Definition expect (c : Z) (s : str) : res str :=
  match s with
  | x :: rest => if x =? c then Ok rest else Raise json_error
  | [] => Raise json_error
  end.

(** What a caller of [json.loads] hooks in: the value of [NaN], [Infinity] and
    [-Infinity], and the members of an object. *)
Record json_hooks : Type := {
  parse_constant : str → res json;
  object_pairs_hook : list (str * json) → res (list (str * json))
}.
Definition python_constant (name : str) : res json :=
  Ok (JFloat (if name ==? lit "NaN" then NaN else Infinite (startswith [45] name))).
Definition c2sp_hooks : json_hooks := {| parse_constant := python_constant; object_pairs_hook := no_dups |}.

Section scanner.
Context (hooks : json_hooks).

(** The recursive scanner; every call consumes a character before it recurs,
    and a nested call happens only after that: twice the length of the text is
    enough fuel. *)
Fixpoint scan_value (fuel : nat) (s : str) : res (json * str) :=
  match fuel with
  | O => Raise json_error
  | S fuel =>
      match s with
      | [] => Raise json_error
      | c :: rest =>
          if c =? 34 then '(x, rest) ← scan_string rest; Ok (JStr x, rest)
          else if c =? 123 then
            let rest := skip_ws rest in
            if startswith [125] rest then Ok (JDict [], drop 1 rest)
            else '(d, rest) ← scan_members fuel rest; d ← object_pairs_hook hooks d; Ok (JDict d, rest)
          else if c =? 91 then
            let rest := skip_ws rest in
            if startswith [93] rest then Ok (JList [], drop 1 rest)
            else '(l, rest) ← scan_elements fuel rest; Ok (JList l, rest)
          else if c =? 45 then
            if startswith (lit "Infinity") rest then v ← parse_constant hooks (lit "-Infinity"); Ok (v, drop 8 rest)
            else scan_number true rest
          else if startswith (lit "null") s then Ok (JNull, drop 4 s)
          else if startswith (lit "true") s then Ok (JBool true, drop 4 s)
          else if startswith (lit "false") s then Ok (JBool false, drop 5 s)
          else if startswith (lit "NaN") s then v ← parse_constant hooks (lit "NaN"); Ok (v, drop 3 s)
          else if startswith (lit "Infinity") s then v ← parse_constant hooks (lit "Infinity"); Ok (v, drop 8 s)
          else scan_number false s
      end
  end
with scan_members (fuel : nat) (s : str) : res (list (str * json) * str) :=
  match fuel with
  | O => Raise json_error
  | S fuel =>
      s ← expect 34 s;
      '(k, s) ← scan_string s;
      s ← expect 58 (skip_ws s);
      '(v, s) ← scan_value fuel (skip_ws s);
      let s := skip_ws s in
      if startswith [125] s then Ok ([(k, v)], drop 1 s)
      else s ← expect 44 s;
           '(d, rest) ← scan_members fuel (skip_ws s); Ok ((k, v) :: d, rest)
  end
with scan_elements (fuel : nat) (s : str) : res (list json * str) :=
  match fuel with
  | O => Raise json_error
  | S fuel =>
      '(v, s) ← scan_value fuel s;
      let s := skip_ws s in
      if startswith [93] s then Ok ([v], drop 1 s)
      else s ← expect 44 s;
           '(l, rest) ← scan_elements fuel (skip_ws s); Ok (v :: l, rest)
  end.

(** [json.loads(text, object_pairs_hook=..., parse_constant=...)] *)
Definition loads (text : str) : res json :=
  raise_if (startswith [0xFEFF] text) json_error ;;
  '(v, rest) ← scan_value (2 * length text + 2) (skip_ws text);
  raise_if (negb (skip_ws rest ==? [])) json_error ;;
  Ok v.
End scanner.

Definition parse_json_no_duplicate_members (data : bytes) : res json :=
  check_json_nesting data ;;
  text ← try_except (utf8_decode data) (λ _, Raise (perr "entry is not valid UTF-8"));
  try_except (loads c2sp_hooks text)
    (λ e, if is_value_error e then Raise (perr "invalid JSON") else Raise e).

(** [assert_canonical_json_bytes(data, value)] for a parsed [value]. *)
Definition assert_canonical_json_bytes (data : bytes) (value : option json) : res unit :=
  parsed ← match value with
           | None | Some JNull => parse_json_no_duplicate_members data
           | Some v => Ok v
           end;
  got ← utf8_decode data;
  want ← canonical_json parsed;
  raise_if (negb (got ==? want)) (perr "entry bytes are not canonical JCS").
