(* ===== verification/CanonicalSpec.v ===== *)
(** * What canonical JSON guarantees

    Numbers are written as ECMAScript does, canonical text parses back to the
    value, and so the canonical text determines the value. *)
From S2P Require Import Prelude Errors PyText PyFloat Canonical.

(** ** Numbers: ECMAScript [Number::toString]

    For the shortest digits [ds] (so [k = len ds]) and the position [n] of the
    decimal point. *)
Definition ecma_number (neg : bool) (ds : str) (n : Z) : str :=
  let k := len ds in
  (if neg then lit "-" else [])
  ++ (if (k <=? n) && (n <=? 21) then ds ++ zeros (n - k)
      else if (0 <? n) && (n <=? 21) then take (Z.to_nat n) ds ++ lit "." ++ drop (Z.to_nat n) ds
      else if (-6 <? n) && (n <=? 0) then lit "0." ++ zeros (- n) ++ ds
      else (if k =? 1 then ds else take 1 ds ++ lit "." ++ drop 1 ds)
           ++ lit "e" ++ (if 1 <=? n then lit "+" else lit "-") ++ str_of_nonneg (Z.abs (n - 1))).

(** Digits without leading or trailing zeros. *)
Definition significant (ds : str) : Prop :=
  Forall (λ c, is_digit c = true) ds
  ∧ (∃ c s, ds = c :: s ∧ c ≠ 48) ∧ (∃ c s, ds = s ++ [c] ∧ c ≠ 48).

Lemma lstrip_skip f a b : Forall (λ c, f c = true) a → lstrip f (a ++ b) = lstrip f b.
Proof. induction 1 as [|x a Hx _ IH]; cbn; [done|]. by rewrite Hx. Qed.

Lemma lstrip_stop f c s : f c = false → lstrip f (c :: s) = c :: s.
Proof. intros Hc. cbn. by rewrite Hc. Qed.

Lemma rstrip_skip f a b : Forall (λ c, f c = true) b → rstrip f (a ++ b) = rstrip f a.
Proof.
  intros Hb. unfold rstrip. rewrite rev_app_distr, lstrip_skip; [done|]. by apply Forall_rev.
Qed.

Lemma rstrip_stop f c s : f c = false → rstrip f (s ++ [c]) = s ++ [c].
Proof.
  intros Hc. unfold rstrip. rewrite rev_app_distr. cbn [rev app]. rewrite lstrip_stop by done.
  cbn. by rewrite rev_involutive.
Qed.

Lemma zeros_all n : Forall (λ c, is_zero_char c = true) (zeros n).
Proof. unfold zeros. by apply Forall_replicate. Qed.

Lemma len_zeros n : 0 ≤ n → len (zeros n) = n.
Proof. intros Hn. unfold len, zeros. rewrite length_replicate. lia. Qed.

Lemma zeros_no c n : c ≠ 48 → c ∉ zeros n.
Proof. intros Hc Hin. unfold zeros in Hin. apply elem_of_replicate in Hin as [-> _]. done. Qed.

Lemma digits_not_elem ds c : Forall (λ x, is_digit x = true) ds → is_digit c = false → c ∉ ds.
Proof. rewrite Forall_forall. intros Hd Hc Hin. apply Hd in Hin. congruence. Qed.

(** The analysis of [repr]'s text that [format_jcs_text] starts with. *)
Lemma format_jcs_analysis neg text mantissa exponent int_part frac_part ds n :
  (if find [101] text =? -1 then text else take (Z.to_nat (find [101] text)) text) = mantissa →
  (if find [101] text =? -1 then 0
   else match drop (Z.to_nat (find [101] text + 1)) text with
        | 45 :: ds => - int_of_digits ds
        | 43 :: ds => int_of_digits ds
        | ds => int_of_digits ds
        end) = exponent →
  (if find [46] mantissa =? -1 then mantissa else take (Z.to_nat (find [46] mantissa)) mantissa) = int_part →
  (if find [46] mantissa =? -1 then [] else drop (Z.to_nat (find [46] mantissa + 1)) mantissa) = frac_part →
  strip is_zero_char (int_part ++ frac_part) = ds →
  len int_part + exponent - (len (int_part ++ frac_part) - len (lstrip is_zero_char (int_part ++ frac_part))) = n →
  format_jcs_text neg text = ecma_number neg ds n.
Proof.
  intros Hm He Hi Hf Hd Hn. unfold format_jcs_text, ecma_number. rewrite Hm, He, Hi, Hf, Hd, Hn.
  change (lit "-") with [45]. change (lit ".") with [46].
  destruct ((len ds <=? n) && (n <=? 21)); [by destruct neg|].
  destruct ((0 <? n) && (n <=? 21)); [by destruct neg|].
  destruct ((-6 <? n) && (n <=? 0)); [by destruct neg|].
  change (lit "e+") with ([101; 43] : str). change (lit "e-") with ([101; 45] : str).
  change (lit "e") with ([101] : str). change (lit "+") with ([43] : str).
  assert ((0 <=? n - 1) = (1 <=? n)) as ->.
  { destruct (Z.leb_spec 0 (n - 1)), (Z.leb_spec 1 n); (done || lia). }
  destruct (Z.leb_spec 1 n).
  - rewrite str_of_int_nonneg, Z.abs_eq by lia.
    destruct (len ds =? 1), neg; cbn [app]; rewrite <- ?app_assoc; done.
  - rewrite str_of_int_nonneg, Z.abs_neq by lia.
    replace (- (n - 1)) with (- (n - 1)) by done.
    destruct (len ds =? 1), neg; cbn [app]; rewrite <- ?app_assoc; done.
Qed.

Lemma strip_significant a ds b :
  significant ds → Forall (λ c, is_zero_char c = true) a → Forall (λ c, is_zero_char c = true) b →
  strip is_zero_char (a ++ ds ++ b) = ds ∧ lstrip is_zero_char (a ++ ds ++ b) = ds ++ b.
Proof.
  intros (_ & (c & s & -> & Hc) & (c' & s' & Hs' & Hc')) Ha Hb. unfold strip.
  assert (∀ x, x ≠ 48 → is_zero_char x = false) as Hz by (intros; by apply Z.eqb_neq).
  rewrite lstrip_skip by done. cbn [app]. rewrite lstrip_stop by auto. split; [|done].
  rewrite app_comm_cons, rstrip_skip by done. rewrite Hs'. apply rstrip_stop. auto.
Qed.

Lemma significant_len ds : significant ds → 1 ≤ len ds.
Proof. intros (_ & (c & s & -> & _) & _). rewrite len_cons. pose proof (len_nonneg s). lia. Qed.

Lemma zfill_int w n : 0 ≤ n → int_of_digits (zfill w (str_of_nonneg n)) = n.
Proof. intros Hn. by rewrite int_of_digits_zfill, int_of_str_of_nonneg. Qed.

(** Fixed notation: one point, no exponent. *)
Lemma format_jcs_fixed neg a ds b int_part frac_part n :
  significant ds → Forall (λ c, is_zero_char c = true) a → Forall (λ c, is_zero_char c = true) b →
  int_part ++ frac_part = a ++ ds ++ b → len int_part - len a = n →
  format_jcs_text neg (int_part ++ [46] ++ frac_part) = ecma_number neg ds n.
Proof.
  intros Hds Ha Hb Hparts Hn.
  assert (∀ c, is_digit c = false → c ∉ int_part ++ frac_part) as Hno.
  { intros c Hc. rewrite Hparts. destruct Hds as [Hd _]. rewrite !elem_of_app.
    pose proof (digits_not_elem ds c Hd Hc). rewrite Forall_forall in Ha, Hb.
    intros [Hin|[Hin|Hin]]; [apply Ha in Hin|done|apply Hb in Hin]; apply Z.eqb_eq in Hin; by subst c. }
  pose proof (Hno 101 eq_refl) as He. pose proof (Hno 46 eq_refl) as Hp.
  rewrite elem_of_app in He, Hp.
  destruct (strip_significant a ds b Hds Ha Hb) as [Hs1 Hs2].
  apply (format_jcs_analysis neg _ (int_part ++ [46] ++ frac_part) 0 int_part frac_part).
  - rewrite find_none; [done|]. rewrite !elem_of_app. cbn. intros [?|[?|?]]; [tauto| |tauto].
    by apply list_elem_of_singleton in H.
  - rewrite find_none; [done|]. rewrite !elem_of_app. cbn. intros [?|[?|?]]; [tauto| |tauto].
    by apply list_elem_of_singleton in H.
  - cbn [app]. rewrite find_char by tauto. pose proof (len_nonneg int_part).
    destruct (Z.eqb_spec (len int_part) (-1)); [lia|]. unfold len. by rewrite Nat2Z.id, take_app_length.
  - cbn [app]. rewrite find_char by tauto. pose proof (len_nonneg int_part).
    destruct (Z.eqb_spec (len int_part) (-1)); [lia|]. apply drop_len_cons.
  - by rewrite Hparts.
  - rewrite Hparts, Hs2, !len_app. lia.
Qed.

(** Exponent notation. *)
Lemma format_jcs_exp neg ds x :
  significant ds →
  format_jcs_text neg (take 1 ds ++ (if len ds =? 1 then [] else [46] ++ drop 1 ds) ++ [101]
    ++ (if x <? 0 then [45] else [43]) ++ zfill 2 (str_of_nonneg (Z.abs x))) = ecma_number neg ds (x + 1).
Proof.
  intros Hds. pose proof (strip_significant [] ds [] Hds) as Hstrip.
  destruct (Hstrip ltac:(constructor) ltac:(constructor)) as [Hs1 Hs2]. clear Hstrip.
  rewrite app_nil_r in Hs1, Hs2. cbn [app] in Hs1, Hs2.
  pose proof Hds as (Hd & (c & s & -> & Hc) & _). apply Forall_cons in Hd as [Hc1 Hd].
  set (mant := take 1 (c :: s) ++ (if len (c :: s) =? 1 then [] else [46] ++ drop 1 (c :: s))).
  assert (101 ∉ mant) as He.
  { unfold mant. pose proof (digits_not_elem s 101 Hd eq_refl). cbn.
    assert (101 ≠ c) by (intros <-; done). destruct (_ =? 1); set_solver. }
  assert (46 ∉ [c]) as Hdot by (intros Hin%list_elem_of_singleton; by subst c).
  assert (mant = [c] ∧ s = [] ∨ s ≠ [] ∧ mant = [c] ++ 46 :: s) as Hmant.
  { unfold mant. rewrite len_cons. destruct (Z.eqb_spec (1 + len s) 1).
    - left. split; [done|]. apply len_0_nil. lia.
    - right. split; [by intros ->|done]. }
  rewrite app_assoc. fold mant. cbn [app].
  set (tail := (if x <? 0 then [45] else [43]) ++ zfill 2 (str_of_nonneg (Z.abs x))).
  apply (format_jcs_analysis neg _ mant x [c] s).
  - rewrite find_char by done. pose proof (len_nonneg mant).
    destruct (Z.eqb_spec (len mant) (-1)); [lia|]. unfold len. by rewrite Nat2Z.id, take_app_length.
  - rewrite find_char by done. pose proof (len_nonneg mant).
    destruct (Z.eqb_spec (len mant) (-1)); [lia|]. rewrite drop_len_cons. unfold tail.
    destruct (Z.ltb_spec x 0); cbn [app]; rewrite zfill_int by lia; lia.
  - destruct Hmant as [[-> ->]|[_ ->]]; [by rewrite find_none|].
    by rewrite (find_char 46 [c] s).
  - destruct Hmant as [[-> ->]|[_ ->]]; [by rewrite find_none|].
    by rewrite (find_char 46 [c] s).
  - done.
  - cbn [app]. rewrite Hs2. change (len [c]) with 1. lia.
Qed.

Lemma format_jcs_is_ecma_lemma (neg : bool) (ds : str) (point : Z) (Hds : significant ds) :
  format_jcs_text neg (repr_layout ds point) = ecma_number neg ds point.
Proof.
  unfold repr_layout. pose proof (significant_len ds Hds) as Hk.
  destruct (_ || _) eqn:Hexp.
  { rewrite format_jcs_exp by done. f_equal. lia. }
  destruct (Z.leb_spec point 0) as [H0|H0].
  { change (lit "0." ++ zeros (- point) ++ ds) with ([48] ++ [46] ++ zeros (- point) ++ ds).
    apply (format_jcs_fixed neg ([48] ++ zeros (- point)) ds []); try done.
    - apply Forall_app. split; [by repeat constructor|apply zeros_all].
    - by rewrite app_nil_r, <- app_assoc.
    - rewrite len_app, len_zeros by lia. change (len [48]) with 1. lia. }
  destruct (Z.leb_spec (len ds) point) as [Hle|Hgt].
  - change (lit ".0") with ([46] ++ [48] : str). rewrite app_assoc.
    apply (format_jcs_fixed neg [] ds (zeros (point - len ds) ++ [48])); try done.
    + apply Forall_app. split; [apply zeros_all|by repeat constructor].
    + by rewrite <- app_assoc.
    + rewrite len_app, len_zeros by lia. change (len []) with 0. lia.
  - apply (format_jcs_fixed neg [] ds []); try done.
    + by rewrite app_nil_r, take_drop.
    + unfold len in *. rewrite length_take. cbn. lia.
Qed.

(** Numbers are written as RFC 8785 demands: whatever layout Python's
    [repr] chose for the shortest digits of a float, the result is that of
    ECMAScript's [Number::toString] on those digits. *)
Theorem format_jcs_is_ecma (neg : bool) (ds : str) (point : Z) (Hds : significant ds) :
  format_jcs_text neg (repr_layout ds point) = ecma_number neg ds point.
Proof. by eapply format_jcs_is_ecma_lemma. Qed.

Lemma format_jcs_is_ecma_witness :
  format_jcs_text true (repr_layout (lit "12345") (-3)) = lit "-0.00012345".
Proof.
  rewrite (format_jcs_is_ecma true (lit "12345") (-3)); [by vm_compute|].
  split; [by_decide|]. split; [by exists 49, (lit "2345")|by exists 53, (lit "1234")].
Defined.

(** ** Integers of at most 53 bits *)

(** *** Decimal text *)
Lemma digits_rev_fuel f1 f2 n :
  0 ≤ n < 2 ^ (Z.of_nat f1 + 1) → 0 ≤ n < 2 ^ (Z.of_nat f2 + 1) → digits_rev f1 n = digits_rev f2 n.
Proof.
  revert f2 n. induction f1 as [|f1 IH]; intros f2 n H1 H2.
  - destruct f2; [done|]. cbn [digits_rev]. change (2 ^ (Z.of_nat 0 + 1)) with 2 in H1.
    destruct (Z.ltb_spec n 10); [|lia]. by rewrite Z.mod_small by lia.
  - destruct f2 as [|f2].
    + cbn [digits_rev]. change (2 ^ (Z.of_nat 0 + 1)) with 2 in H2.
      destruct (Z.ltb_spec n 10); [|lia]. by rewrite Z.mod_small by lia.
    + cbn [digits_rev]. destruct (Z.ltb_spec n 10); [done|]. f_equal.
      assert (∀ f, n < 2 ^ (Z.of_nat (S f) + 1) → n / 10 < 2 ^ (Z.of_nat f + 1)) as Hs.
      { intros f Hf. replace (Z.of_nat (S f) + 1) with (Z.succ (Z.of_nat f + 1)) in Hf by lia.
        rewrite Z.pow_succ_r in Hf by lia. dlia. }
      apply IH; (split; [dlia|apply Hs; lia]).
Qed.

Lemma str_of_nonneg_snoc n : 10 ≤ n → str_of_nonneg n = str_of_nonneg (n / 10) ++ [n mod 10 + 48].
Proof.
  intros Hn. unfold str_of_nonneg.
  assert (n < 2 ^ (Z.of_nat (Z.to_nat (Z.log2 n)) + 1)) as H1 by (apply log2_fuel; lia).
  assert (n / 10 < 2 ^ (Z.of_nat (Z.to_nat (Z.log2 (n / 10))) + 1)) as H2 by (apply log2_fuel; dlia).
  destruct (Z.to_nat (Z.log2 n)) as [|f] eqn:Hf.
  { change (2 ^ (Z.of_nat 0 + 1)) with 2 in H1. lia. }
  cbn [digits_rev]. destruct (Z.ltb_spec n 10); [lia|]. rewrite fmap_cons. cbn [rev]. f_equal.
  do 2 f_equal. apply digits_rev_fuel; [|split; [dlia|done]]. split; [dlia|].
  replace (Z.of_nat (S f) + 1) with (Z.succ (Z.of_nat f + 1)) in H1 by lia.
  rewrite Z.pow_succ_r in H1 by lia. dlia.
Qed.

Lemma str_of_nonneg_small n : 0 ≤ n < 10 → str_of_nonneg n = [n + 48].
Proof.
  intros Hn. assert (n = 0 ∨ n = 1 ∨ n = 2 ∨ n = 3 ∨ n = 4 ∨ n = 5 ∨ n = 6 ∨ n = 7 ∨ n = 8 ∨ n = 9) as H by lia.
  repeat destruct H as [->|H]; try done. by subst n.
Qed.

Lemma str_of_nonneg_pow10 n z : 0 < n → 0 ≤ z → str_of_nonneg (n * 10 ^ z) = str_of_nonneg n ++ zeros z.
Proof.
  intros Hn Hz. revert z Hz. apply natlike_ind.
  - change (10 ^ 0) with 1. rewrite Z.mul_1_r. unfold zeros. cbn. by rewrite app_nil_r.
  - intros z Hz IH. rewrite Z.pow_succ_r by done.
    assert (0 < 10 ^ z) by (apply Z.pow_pos_nonneg; lia).
    replace (n * (10 * 10 ^ z)) with (n * 10 ^ z * 10) by lia.
    rewrite str_of_nonneg_snoc by nia. rewrite Z.div_mul, Z.mod_mul by done. rewrite IH.
    unfold zeros. replace (Z.to_nat (Z.succ z)) with (Z.to_nat z + 1)%nat by lia.
    rewrite replicate_add. by rewrite <- app_assoc.
Qed.

Lemma str_of_nonneg_len_succ j : 0 ≤ j →
  ∀ n, 10 ^ j ≤ n < 10 ^ Z.succ j → len (str_of_nonneg n) = Z.succ j.
Proof.
  intros Hj. revert j Hj. apply (natlike_ind (λ j, ∀ n, 10 ^ j ≤ n < 10 ^ Z.succ j → len (str_of_nonneg n) = Z.succ j)).
  - intros n Hn. change (10 ^ Z.succ 0) with 10 in Hn. change (10 ^ 0) with 1 in Hn.
    by rewrite str_of_nonneg_small by lia.
  - intros j Hj IH n Hn. rewrite !Z.pow_succ_r in Hn by lia.
    assert (0 < 10 ^ j) by (apply Z.pow_pos_nonneg; lia).
    rewrite str_of_nonneg_snoc, len_app, IH by (try rewrite Z.pow_succ_r by lia; dlia).
    change (len [n mod 10 + 48]) with 1. lia.
Qed.

Lemma str_of_nonneg_len n k : 0 < k → 10 ^ (k - 1) ≤ n < 10 ^ k → len (str_of_nonneg n) = k.
Proof.
  intros Hk Hn. rewrite (str_of_nonneg_len_succ (k - 1)); [lia|lia|].
  by replace (Z.succ (k - 1)) with k by lia.
Qed.

Lemma str_of_nonneg_significant n : 0 < n → n mod 10 ≠ 0 → significant (str_of_nonneg n).
Proof.
  intros Hn Hm. split; [apply str_of_nonneg_digits; lia|]. split.
  - assert (is_canonical_int (str_of_nonneg n) = true) as Hc by (apply is_canonical_str_of; lia).
    unfold is_canonical_int in Hc. rewrite digits_no_newline in Hc by (apply str_of_nonneg_digits; lia).
    destruct (str_of_nonneg n) as [|c s] eqn:Hs; [done|]. exists c, s. split; [done|]. intros ->.
    destruct s; [|done]. assert (int_of_digits (str_of_nonneg n) = 0) as H0 by (by rewrite Hs).
    rewrite int_of_str_of_nonneg in H0 by lia. lia.
  - destruct (Z.lt_ge_cases n 10).
    + exists (n + 48), []. rewrite str_of_nonneg_small by lia. split; [done|].
      rewrite Z.mod_small in Hm by lia. lia.
    + exists (n mod 10 + 48), (str_of_nonneg (n / 10)). rewrite str_of_nonneg_snoc by lia. split; [done|lia].
Qed.

(** *** Doubles *)
Lemma round_exact q d : 0 < d → round_half_even (q * d) d = q.
Proof.
  intros Hd. unfold round_half_even. rewrite Z.div_mul, Z.mod_mul by lia.
  destruct (Z.ltb_spec (2 * 0) d); [done|lia].
Qed.

Lemma log2_ratio_int j : 0 < j → log2_ratio j 1 = Z.log2 j.
Proof.
  intros Hj. unfold log2_ratio. change (Z.log2 1) with 0. rewrite Z.sub_0_r. unfold scale2.
  pose proof (Z.log2_nonneg j). destruct (Z.ltb_spec (Z.log2 j) 0); [lia|].
  destruct (Z.log2_spec j Hj) as [Hl _]. rewrite Z.mul_1_l.
  destruct (Z.ltb_spec j (2 ^ Z.log2 j)); [lia|done].
Qed.

(** An integer below [2^53] is a double. *)
Definition mantissa (j : Z) : Z := j * 2 ^ (52 - Z.log2 j).
Definition exponent (j : Z) : Z := Z.log2 j - 52.

Lemma log2_53 j : 0 < j < 2 ^ 53 → 0 ≤ Z.log2 j ≤ 52.
Proof.
  intros Hj. pose proof (Z.log2_nonneg j).
  assert (Z.log2 j < 53) by (apply Z.log2_lt_pow2; lia). lia.
Qed.

Lemma mantissa_range j : 0 < j < 2 ^ 53 → 2 ^ 52 ≤ mantissa j < 2 ^ 53.
Proof.
  intros Hj. pose proof (log2_53 j Hj) as Hl. destruct (Z.log2_spec j) as [H1 H2]; [lia|].
  unfold mantissa. replace (2 ^ 52) with (2 ^ Z.log2 j * 2 ^ (52 - Z.log2 j))
    by (rewrite <- Z.pow_add_r by lia; f_equal; lia).
  replace (2 ^ 53) with (2 ^ Z.succ (Z.log2 j) * 2 ^ (52 - Z.log2 j))
    by (rewrite <- Z.pow_add_r by lia; f_equal; lia).
  assert (0 < 2 ^ (52 - Z.log2 j)) by (apply Z.pow_pos_nonneg; lia). nia.
Qed.

Lemma round_int_small j : 0 < j < 2 ^ 53 → round_to_double j 1 = Some (mantissa j, exponent j).
Proof.
  intros Hj. pose proof (log2_53 j Hj) as Hl. pose proof (mantissa_range j Hj) as Hm.
  unfold round_to_double. destruct (Z.eqb_spec j 0); [lia|]. rewrite log2_ratio_int by lia.
  unfold min_exp, max_exp. rewrite Z.max_l by lia. fold (exponent j).
  assert (round_half_even (scale2 j 1 (exponent j)).1 (scale2 j 1 (exponent j)).2 = mantissa j) as Hr.
  { unfold scale2, exponent, mantissa. destruct (Z.ltb_spec (Z.log2 j - 52) 0); cbn [fst snd].
    - replace (- (Z.log2 j - 52)) with (52 - Z.log2 j) by lia.
      pose proof (round_exact (j * 2 ^ (52 - Z.log2 j)) 1) as H1. rewrite Z.mul_1_r in H1. by apply H1.
    - replace (Z.log2 j) with 52 by lia. change (2 ^ (52 - 52)) with 1. change (1 * 2 ^ 0) with 1.
      pose proof (round_exact j 1) as H1. rewrite !Z.mul_1_r in *. by apply H1. }
  destruct (scale2 j 1 (exponent j)) as [a b]. cbn [fst snd] in Hr. rewrite Hr.
  destruct (Z.eqb_spec (mantissa j) (2 ^ 53)); [lia|].
  destruct (Z.ltb_spec 971 (exponent j)); [unfold exponent in *; lia|done].
Qed.

Lemma round_half_even_ge q a b : 0 < b → q * b ≤ a → q ≤ round_half_even a b.
Proof.
  intros Hb Ha. unfold round_half_even. assert (q ≤ a / b) by (apply Z.div_le_lower_bound; lia).
  repeat case_match; lia.
Qed.

(** Larger integers round to doubles with a positive exponent. *)
Lemma round_int_large j m e : 2 ^ 53 ≤ j → round_to_double j 1 = Some (m, e) → 1 ≤ e.
Proof.
  intros Hj. unfold round_to_double. destruct (Z.eqb_spec j 0); [lia|]. rewrite log2_ratio_int by lia.
  assert (53 ≤ Z.log2 j) by (change 53 with (Z.log2 (2 ^ 53)); by apply Z.log2_le_mono).
  unfold min_exp, max_exp. rewrite Z.max_l by lia. destruct (scale2 _ _ _) as [a b].
  destruct (Z.eqb_spec (round_half_even a b) (2 ^ 53)); case_match; intros [= <- <-]; lia.
Qed.

Lemma round_int_inj i j : 0 ≤ i → 0 < j < 2 ^ 53 →
  round_to_double i 1 = Some (mantissa j, exponent j) → i = j.
Proof.
  intros Hi Hj H. pose proof (log2_53 j Hj) as Hl. pose proof (mantissa_range j Hj) as Hm.
  destruct (decide (i = 0)) as [->|Hi0].
  { cbn in H. injection H as H _. lia. }
  destruct (Z.lt_ge_cases i (2 ^ 53)) as [Hlt|Hge].
  - rewrite round_int_small in H by lia. injection H as Hmm He. unfold exponent in He.
    assert (Z.log2 i = Z.log2 j) as Hll by lia. unfold mantissa in Hmm. rewrite Hll in Hmm.
    assert (0 < 2 ^ (52 - Z.log2 j)) by (apply Z.pow_pos_nonneg; lia). nia.
  - apply round_int_large in H; [|done]. unfold exponent in H. lia.
Qed.

(** The ratio of that double. *)
Lemma float_ratio_int j : 0 < j < 2 ^ 53 →
  ∃ d, 0 < d ∧ float_ratio (mantissa j) (exponent j) = (j * d, d).
Proof.
  intros Hj. pose proof (log2_53 j Hj) as Hl. exists (2 ^ (52 - Z.log2 j)).
  split; [apply Z.pow_pos_nonneg; lia|]. unfold float_ratio, mantissa, exponent.
  destruct (Z.ltb_spec (Z.log2 j - 52) 0).
  - replace (- (Z.log2 j - 52)) with (52 - Z.log2 j) by lia. done.
  - replace (Z.log2 j) with 52 by lia. change (2 ^ (52 - 52)) with 1. change (2 ^ 0) with 1.
    f_equal. lia.
Qed.

(** *** The decimal point *)
Lemma log2_ratio_scaled j d : 0 < j → 0 < d → log2_ratio (j * d) d = Z.log2 j.
Proof.
  intros Hj Hd. unfold log2_ratio, scale2.
  set (l := Z.log2 (j * d) - Z.log2 d).
  assert (Z.log2 j ≤ l ≤ Z.log2 j + 1) as Hl.
  { pose proof (Z.log2_mul_below j d). pose proof (Z.log2_mul_above j d). lia. }
  destruct (Z.log2_spec j Hj) as [H1 H2]. pose proof (Z.log2_nonneg j).
  destruct (Z.ltb_spec l 0); [lia|].
  assert (l = Z.log2 j ∨ l = Z.succ (Z.log2 j)) as [E|E] by lia; rewrite E.
  - destruct (Z.ltb_spec (j * d) (d * 2 ^ Z.log2 j)); [nia|lia].
  - destruct (Z.ltb_spec (j * d) (d * 2 ^ Z.succ (Z.log2 j))); [lia|nia].
Qed.

Lemma ge_pow10_int j d p : 0 < d → 0 ≤ p → ge_pow10 (j * d) d p = (10 ^ p <=? j).
Proof.
  intros Hd Hp. unfold ge_pow10, decimal_ratio. destruct (Z.ltb_spec p 0); [lia|].
  destruct (Z.leb_spec (d * (1 * 10 ^ p)) (j * d * 1)), (Z.leb_spec (10 ^ p) j); try done; nia.
Qed.

Lemma decpt_loop_spec fuel j d p : 0 < d → 0 ≤ p → 10 ^ p ≤ j ∨ p = 0 → 0 < j →
  j < 10 ^ (p + Z.of_nat fuel) →
  let P := decpt_loop fuel (j * d) d p in 1 ≤ P ∧ 10 ^ (P - 1) ≤ j < 10 ^ P.
Proof.
  revert p. induction fuel as [|fuel IH]; intros p Hd Hp Hlow Hj Hhigh; cbn [decpt_loop].
  - rewrite Z.add_0_r in Hhigh. destruct Hlow as [Hlow| ->]; [lia|]. change (10 ^ 0) with 1 in Hhigh. lia.
  - rewrite ge_pow10_int by done. destruct (Z.leb_spec (10 ^ p) j) as [Hle|Hgt].
    + destruct (decide (j < 10 ^ (p + 1))) as [Hlt|Hnlt].
      * destruct fuel as [|fuel]; cbn [decpt_loop].
        -- cbv zeta. replace (p + 1 - 1) with p by lia. lia.
        -- rewrite ge_pow10_int by lia. destruct (Z.leb_spec (10 ^ (p + 1)) j); [lia|].
           cbv zeta. replace (p + 1 - 1) with p by lia. lia.
      * apply IH; try lia. by replace (p + 1 + Z.of_nat fuel) with (p + Z.of_nat (S fuel)) by lia.
    + destruct Hlow as [Hlow| ->]; [lia|]. change (10 ^ 0) with 1 in Hgt. lia.
Qed.

(** The start of the search, for every number of bits. *)
Lemma decpt_start l : 0 ≤ l ≤ 52 →
  let p := l * 30103 / 100000 in
  0 ≤ p ∧ (10 ^ p ≤ 2 ^ l ∨ p = 0) ∧ 2 ^ (l + 1) ≤ 10 ^ (p + 4).
Proof.
  intros Hl. assert (forallb (λ l, let p := l * 30103 / 100000 in
    (0 <=? p) && ((10 ^ p <=? 2 ^ l) || (p =? 0)) && (2 ^ (l + 1) <=? 10 ^ (p + 4))) (seqZ 0 53) = true)
    as Hs by (by vm_compute).
  apply forallb_Forall in Hs. rewrite Forall_forall in Hs. specialize (Hs l). cbv zeta in *.
  rewrite !andb_true_iff, orb_true_iff, !Z.leb_le, Z.eqb_eq in Hs.
  destruct Hs as [[??]?]; [apply elem_of_seqZ; lia|]. done.
Qed.

Lemma decpt_int j d : 0 < j < 2 ^ 53 → 0 < d →
  let P := decpt (j * d) d in 1 ≤ P ∧ 10 ^ (P - 1) ≤ j < 10 ^ P.
Proof.
  intros Hj Hd. unfold decpt. rewrite log2_ratio_scaled by lia. pose proof (log2_53 j Hj) as Hl.
  destruct (Z.log2_spec j) as [H1 H2]; [lia|].
  destruct (decpt_start (Z.log2 j) Hl) as (Hp & Hlow & Hhigh).
  apply decpt_loop_spec; [done|done| |lia|].
  - destruct Hlow; [left; lia|by right].
  - change (Z.of_nat 4) with 4. rewrite Z.add_1_r in Hhigh. lia.
Qed.

(** *** The shortest digits of an integer *)
Lemma pow10_pos z : 0 ≤ z → 0 < 10 ^ z.
Proof. intros. apply Z.pow_pos_nonneg; lia. Qed.

Lemma trailing_zeros j : 0 < j → ∃ D z, 0 ≤ z ∧ 0 < D ∧ j = D * 10 ^ z ∧ D mod 10 ≠ 0.
Proof.
  induction (Z.lt_wf 0 j) as [j _ IH]. intros Hj.
  destruct (decide (j mod 10 = 0)) as [H0|H0].
  - destruct (IH (j / 10)) as (D & z & Hz & HD & Hj' & Hm); [dlia|dlia|].
    exists D, (Z.succ z). split_and!; [lia|done| |done]. rewrite Z.pow_succ_r by done. dlia.
  - exists j, 0. split_and!; [lia|done|lia|done].
Qed.

(** Fewer digits than the significant ones do not convert back. *)
Lemma digits_at_short j D z d s :
  0 < j < 2 ^ 53 → 0 < d → 0 ≤ z → j = D * 10 ^ z → D mod 10 ≠ 0 → s < - z →
  digits_at (mantissa j) (exponent j) (j * d) d s = None.
Proof.
  intros Hj Hd Hz HD Hm Hs. unfold digits_at. destruct (Z.ltb_spec s 0); [|lia].
  assert (∀ x, 0 ≤ x → bool_decide (round_to_double (decimal_ratio x (- s)).1 (decimal_ratio x (- s)).2
                                    = Some (mantissa j, exponent j)) = false) as Hback.
  { intros x Hx. apply bool_decide_eq_false. unfold decimal_ratio.
    destruct (Z.ltb_spec (- s) 0); [lia|]. cbn [fst snd].
    pose proof (pow10_pos (- s) ltac:(lia)).
    intros Hr. apply round_int_inj in Hr; [|nia|done]. subst j.
    replace (- s) with (z + Z.succ (- s - z - 1)) in Hr by lia.
    rewrite Z.pow_add_r, Z.pow_succ_r in Hr by lia. pose proof (pow10_pos z Hz).
    apply Hm. assert (D = x * 10 ^ (- s - z - 1) * 10) as -> by nia. apply Z.mod_mul. done. }
  set (a := j * d). set (b := d * 10 ^ (- s)). pose proof (pow10_pos (- s) ltac:(lia)).
  assert (0 ≤ a / b) as Hlo by (apply Z.div_pos; unfold a, b; nia).
  assert (0 ≤ round_half_even a b) as Hf.
  { unfold round_half_even. repeat case_match; lia. }
  pose proof (Hback _ Hf) as H1. destruct (decimal_ratio (round_half_even a b) (- s)) as [x y].
  cbn [fst snd] in H1. rewrite H1.
  destruct (round_half_even a b =? a / b).
  - pose proof (Hback (a / b + 1) ltac:(lia)) as H2.
    destruct (decimal_ratio (a / b + 1) (- s)) as [x2 y2]. cbn [fst snd] in H2. by rewrite H2.
  - pose proof (Hback (a / b) Hlo) as H2.
    destruct (decimal_ratio (a / b) (- s)) as [x2 y2]. cbn [fst snd] in H2. by rewrite H2.
Qed.

Lemma digits_at_exact j D z d :
  0 < j < 2 ^ 53 → 0 < d → 0 ≤ z → j = D * 10 ^ z →
  digits_at (mantissa j) (exponent j) (j * d) d (- z) = Some D.
Proof.
  intros Hj Hd Hz HD. unfold digits_at. pose proof (pow10_pos z Hz).
  assert ((if - z <? 0 then (j * d, d * 10 ^ (- (- z))) else (j * d * 10 ^ (- z), d)) = (D * (d * 10 ^ z), d * 10 ^ z)) as ->.
  { destruct (Z.ltb_spec (- z) 0).
    - rewrite Z.opp_involutive. f_equal. rewrite HD. lia.
    - assert (z = 0) as -> by lia. change (10 ^ (- 0)) with 1. change (10 ^ 0) with 1 in *. f_equal; lia. }
  rewrite round_exact by nia. unfold decimal_ratio. rewrite Z.opp_involutive.
  destruct (Z.ltb_spec z 0); [lia|]. rewrite <- HD, round_int_small by done.
  by rewrite bool_decide_eq_true_2.
Qed.

Lemma shortest_loop_int fuel j D z d P k :
  0 < j < 2 ^ 53 → 0 < d → 0 ≤ z → j = D * 10 ^ z → D mod 10 ≠ 0 →
  k ≤ P - z → P - z < k + Z.of_nat fuel →
  shortest_loop fuel (mantissa j) (exponent j) (j * d) d P k = (D, - z).
Proof.
  revert k. induction fuel as [|fuel IH]; intros k Hj Hd Hz HD Hm Hk Hf; [lia|]. cbn [shortest_loop].
  destruct (decide (k = P - z)) as [->|Hne].
  - replace (P - z - P) with (- z) by lia. by rewrite (digits_at_exact j D z d).
  - rewrite (digits_at_short j D z) by (done || lia). apply IH; (done || lia).
Qed.

Lemma shortest_int j : 0 < j < 2 ^ 53 →
  ∃ D z, 0 ≤ z ∧ j = D * 10 ^ z ∧ 0 < D ∧ D mod 10 ≠ 0 ∧ len (str_of_nonneg D) + z ≤ 16
    ∧ shortest (mantissa j) (exponent j) = (str_of_nonneg D, len (str_of_nonneg D) + z).
Proof.
  intros Hj. destruct (trailing_zeros j) as (D & z & Hz & HD & Hjz & Hm); [lia|].
  destruct (float_ratio_int j Hj) as (d & Hd & Hr). exists D, z.
  destruct (decpt_int j d Hj Hd) as (HP1 & HP). set (P := decpt (j * d) d) in *.
  pose proof (pow10_pos z Hz) as Hpz.
  assert (z < P) as HzP.
  { apply (Z.pow_lt_mono_r_iff 10); [lia|lia|]. nia. }
  assert (P ≤ 16) as HP16.
  { enough (P - 1 < 16) by lia. apply (Z.pow_lt_mono_r_iff 10); [lia..|]. lia. }
  assert (len (str_of_nonneg D) = P - z) as Hlen.
  { apply str_of_nonneg_len; [lia|].
    replace (10 ^ (P - 1)) with (10 ^ (P - z - 1) * 10 ^ z) in HP
      by (rewrite <- Z.pow_add_r by lia; f_equal; lia).
    replace (10 ^ P) with (10 ^ (P - z) * 10 ^ z) in HP
      by (rewrite <- Z.pow_add_r by lia; f_equal; lia).
    rewrite Hjz in HP. nia. }
  split_and!; try done; [lia|]. unfold shortest. rewrite Hr. fold P.
  rewrite (shortest_loop_int 17 j D z d P 1) by (done || lia).
  f_equal; [|lia].
  destruct (str_of_nonneg_significant D HD Hm) as (_ & _ & (c & s & Hs & Hc)). rewrite Hs.
  apply rstrip_stop. by apply Z.eqb_neq.
Qed.

Lemma format_int neg j : 0 < j < 2 ^ 53 →
  format_jcs_number neg (mantissa j) (exponent j) = (if neg then [45] else []) ++ str_of_nonneg j.
Proof.
  intros Hj. pose proof (mantissa_range j Hj). unfold format_jcs_number.
  destruct (Z.eqb_spec (mantissa j) 0); [lia|]. unfold repr_abs.
  destruct (shortest_int j Hj) as (D & z & Hz & Hjz & HD & Hm & H16 & Hs). rewrite Hs.
  rewrite format_jcs_is_ecma_lemma by (by apply str_of_nonneg_significant).
  unfold ecma_number. change (lit "-") with ([45] : str). f_equal.
  destruct (Z.leb_spec (len (str_of_nonneg D)) (len (str_of_nonneg D) + z)); [|lia].
  destruct (Z.leb_spec (len (str_of_nonneg D) + z) 21); [|lia]. cbn [andb].
  rewrite Hjz, str_of_nonneg_pow10 by done. do 2 f_equal. lia.
Qed.

(** Safe integers are written in plain decimal. *)
Lemma canonical_int_safe n : Z.abs n < 2 ^ 53 → canonical_int n = Ok (str_of_int n).
Proof.
  intros Hn. unfold canonical_int, float_of_int. destruct (decide (n = 0)) as [->|Hn0]; [by vm_compute|].
  rewrite round_int_small by lia. cbn [try_except mbind result_bind].
  assert (int_of_finite (n <? 0) (mantissa (Z.abs n)) (exponent (Z.abs n)) = n) as ->.
  { pose proof (log2_53 (Z.abs n) ltac:(lia)) as Hl. unfold int_of_finite, mantissa, exponent.
    assert ((if Z.log2 (Z.abs n) - 52 <? 0
             then Z.abs n * 2 ^ (52 - Z.log2 (Z.abs n)) / 2 ^ (- (Z.log2 (Z.abs n) - 52))
             else Z.abs n * 2 ^ (52 - Z.log2 (Z.abs n)) * 2 ^ (Z.log2 (Z.abs n) - 52)) = Z.abs n) as ->.
    { destruct (Z.ltb_spec (Z.log2 (Z.abs n) - 52) 0).
      - replace (- (Z.log2 (Z.abs n) - 52)) with (52 - Z.log2 (Z.abs n)) by lia.
        rewrite Z.div_mul; [done|]. apply Z.pow_nonzero; lia.
      - replace (Z.log2 (Z.abs n)) with 52 by lia. change (2 ^ (52 - 52)) with 1. lia. }
    destruct (Z.ltb_spec n 0); lia. }
  rewrite Z.eqb_refl. cbn [negb raise_if mbind result_bind]. rewrite format_int by lia. f_equal.
  unfold str_of_int. destruct (Z.ltb_spec n 0).
  - by rewrite Z.abs_neq by lia.
  - by rewrite Z.abs_eq by lia.
Qed.
