(* ===== verification/JsonScan.v ===== *)
(** * Reading what [json.dumps] wrote

    The text of a value of safe integers and encodable text is read back by
    [json.loads], whatever the way its strings are escaped and the hooks, as long
    as an escape is read back and the hook keeps distinct members. *)
From S2P Require Import Prelude Errors PyText PyFloat Canonical CanonicalSpec.

(** ** Values *)
Definition char_ok (c : Z) : Prop := is_code_point c ∧ is_surrogate c = false.
Definition text_ok (s : str) : Prop := Forall char_ok s.

(** Values without floats, with safe integers, encodable text and distinct
    member names. *)
Fixpoint plain (v : json) : Prop :=
  match v with
  | JNull | JBool _ => True
  | JInt z => Z.abs z < 2 ^ 53
  | JFloat _ => False
  | JStr s => text_ok s
  | JList l => foldr (λ x P, plain x ∧ P) True l
  | JDict d => NoDup d.*1 ∧ foldr (λ kv P, text_ok kv.1 ∧ plain kv.2 ∧ P) True d
  end.

Lemma plain_list l : plain (JList l) ↔ Forall plain l.
Proof. cbn. induction l as [|x l IH]; cbn; [by split|]. rewrite Forall_cons, IH. done. Qed.

Lemma plain_dict d : plain (JDict d) ↔ NoDup d.*1 ∧ Forall (λ kv, text_ok kv.1 ∧ plain kv.2) d.
Proof.
  cbn. f_equiv. induction d as [|x d IH]; cbn; [by split|]. rewrite Forall_cons, IH. tauto.
Qed.


(** A string literal and the text of a value, members in the given order. *)
Definition quoted (escape : Z → str) (s : str) : str := [34] ++ concat (escape <$> s) ++ [34].
Fixpoint render_with (escape : Z → str) (v : json) : str :=
  match v with
  | JNull => lit "null"
  | JBool b => if b then lit "true" else lit "false"
  | JInt z => str_of_int z
  | JFloat _ => []
  | JStr s => quoted escape s
  | JList l => bracket 91 93 (map (render_with escape) l)
  | JDict d => bracket 123 125 (map (λ kv, quoted escape kv.1 ++ [58] ++ render_with escape kv.2) d)
  end.

(** ** Parsing the text of a value *)

(** *** Strings *)
Lemma scan_string_unicode h1 h2 h3 h4 u r :
  hex4 h1 h2 h3 h4 = Some u → is_high u = false →
  scan_string (92 :: 117 :: h1 :: h2 :: h3 :: h4 :: r) = cons_char u (scan_string r).
Proof.
  intros Hh Hu. cbn [scan_string Z.eqb Pos.eqb]. rewrite Hh.
  destruct r as [|? [|? [|? [|? [|? [|? ?]]]]]]; try done. by rewrite Hu.
Qed.

Lemma hex4_low c : 0 ≤ c < 32 → hex4 48 48 (hex_digit (c / 16)) (hex_digit (c mod 16)) = Some c.
Proof.
  intros Hc. assert (is_hex (hex_digit (c / 16)) = true ∧ is_hex (hex_digit (c mod 16)) = true) as [H1 H2].
  { assert (∀ n, 0 ≤ n < 16 → is_hex (hex_digit n) = true) as Hh.
    { intros n Hn. unfold hex_digit, is_hex, is_digit. destruct (Z.ltb_spec n 10); lia. }
    split; apply Hh; dlia. }
  unfold hex4. rewrite H1, H2. cbn [andb is_hex is_digit]. change (is_hex 48) with true. cbn [andb].
  rewrite !hex_value_digit by dlia. change (hex_value 48) with 0. f_equal. dlia.
Qed.

Lemma scan_string_char c r : char_ok c →
  scan_string (escape_char c ++ r) = cons_char c (scan_string r).
Proof.
  intros [Hc Hs]. unfold escape_char.
  destruct (Z.eqb_spec c 34) as [->|H1]; [done|]. destruct (Z.eqb_spec c 92) as [->|H2]; [done|].
  destruct (Z.eqb_spec c 10) as [->|]; [done|]. destruct (Z.eqb_spec c 13) as [->|]; [done|].
  destruct (Z.eqb_spec c 9) as [->|]; [done|]. destruct (Z.eqb_spec c 12) as [->|]; [done|].
  destruct (Z.eqb_spec c 8) as [->|]; [done|]. unfold is_code_point in Hc.
  destruct (Z.ltb_spec c 32) as [Hlt|Hge].
  - cbn [app]. apply scan_string_unicode; [apply hex4_low; lia|]. unfold is_high.
    apply andb_false_iff. left. apply Z.leb_gt. lia.
  - cbn [app scan_string]. destruct (Z.eqb_spec c 34); [done|]. destruct (Z.eqb_spec c 92); [done|].
    destruct (Z.leb_spec c 31); [lia|done].
Qed.

(** An escape that is read back, and hooks that keep distinct members. *)
Definition readable (escape : Z → str) : Prop := ∀ c r, char_ok c → scan_string (escape c ++ r) = cons_char c (scan_string r).
Definition keeps_members (h : json_hooks) : Prop := ∀ d, NoDup d.*1 → object_pairs_hook h d = Ok d.

Lemma escape_char_readable : readable escape_char.
Proof. intros c r. apply scan_string_char. Qed.
Lemma c2sp_keeps_members : keeps_members c2sp_hooks.
Proof. intros d Hd. cbn. unfold no_dups. by rewrite bool_decide_eq_true_2. Qed.

(** *** Numbers *)
Definition stops (rest : str) : Prop :=
  ∀ c r, rest = c :: r → is_digit c = false ∧ c ≠ 46 ∧ c ≠ 101 ∧ c ≠ 69.

Lemma take_while_app f a b : Forall (λ c, f c = true) a →
  (∀ c r, b = c :: r → f c = false) → take_while f (a ++ b) = a.
Proof.
  intros Ha Hb. induction Ha as [|x a Hx _ IH]; cbn.
  - destruct b as [|c r]; [done|]. cbn. by rewrite (Hb c r eq_refl).
  - by rewrite Hx, IH.
Qed.

Lemma scan_tail rest : stops rest → scan_frac rest = ([], rest) ∧ scan_exp rest = (None, rest).
Proof.
  intros Hr. destruct rest as [|c r]; [done|]. destruct (Hr c r eq_refl) as (_ & H1 & H2 & H3).
  cbn. destruct (Z.eqb_spec c 46); [done|]. destruct (Z.eqb_spec c 101); [done|].
  by destruct (Z.eqb_spec c 69).
Qed.

Lemma scan_number_int neg n rest : 0 ≤ n < 2 ^ 53 → stops rest →
  scan_number neg (str_of_nonneg n ++ rest) = Ok (JInt (if neg then - n else n), rest).
Proof.
  intros Hn Hr. destruct (scan_tail rest Hr) as [Hf He].
  pose proof (str_of_nonneg_digits n ltac:(lia)) as Hd.
  assert ((if startswith [48] (str_of_nonneg n ++ rest) then ([48], drop 1 (str_of_nonneg n ++ rest))
           else digits_of (str_of_nonneg n ++ rest)) = (str_of_nonneg n, rest)) as Hint.
  { destruct (decide (n = 0)) as [->|Hn0]; [done|].
    assert (is_canonical_int (str_of_nonneg n) = true) as Hc by (apply is_canonical_str_of; lia).
    unfold is_canonical_int in Hc. rewrite digits_no_newline in Hc by done.
    assert (startswith [48] (str_of_nonneg n ++ rest) = false) as ->.
    { destruct (str_of_nonneg n) as [|c s] eqn:Hs; [done|]. cbn [app startswith].
      destruct (Z.eqb_spec 48 c) as [<-|]; [|done]. destruct s; [|done].
      assert (int_of_digits (str_of_nonneg n) = 0) as H0 by (by rewrite Hs).
      rewrite int_of_str_of_nonneg in H0 by lia. done. }
    unfold digits_of. rewrite take_while_app; [|done|]. 2:{ intros c r ->. by apply (Hr c r). }
    by rewrite drop_app_length. }
  unfold scan_number. rewrite Hint.
  assert ((str_of_nonneg n ==? []) = false) as -> by (apply eqb_false, str_of_nonneg_nonempty).
  rewrite Hf, He. cbn [eqb andb].
  assert ((([] : str) ==? []) && ((None : option Z) ==? None) = true) as -> by done.
  assert (len (str_of_nonneg n) ≤ 16) as Hlen.
  { destruct (decide (n = 0)) as [->|Hn0]; [done|].
    destruct (decpt_int n 1) as (HP & HP'); [lia|lia|].
    rewrite (str_of_nonneg_len n (decpt (n * 1) 1)) by lia.
    enough (decpt (n * 1) 1 - 1 < 16) by lia. apply (Z.pow_lt_mono_r_iff 10); lia. }
  unfold int_max_str_digits. destruct (Z.ltb_spec 4300 (len (str_of_nonneg n))); [lia|]. cbn.
  by rewrite int_of_str_of_nonneg by lia.
Qed.

Section reading.
Context (h : json_hooks) (escape : Z → str) (Hescape : readable escape) (Hpairs : keeps_members h).
Abbreviation render := (render_with escape) (only parsing).

Lemma scan_string_text s rest : text_ok s →
  scan_string (concat (escape <$> s) ++ 34 :: rest) = Ok (s, rest).
Proof.
  induction 1 as [|c s Hc _ IH]; cbn [fmap list_fmap concat]; [done|].
  rewrite <- app_assoc, Hescape by done. by rewrite IH.
Qed.

Lemma scan_int fuel z rest : Z.abs z < 2 ^ 53 → stops rest →
  scan_value h (S fuel) (str_of_int z ++ rest) = Ok (JInt z, rest).
Proof.
  intros Hz Hr. unfold str_of_int. destruct (Z.ltb_spec z 0) as [Hneg|Hpos].
  - cbn [app scan_value Z.eqb Pos.eqb].
    destruct (str_of_nonneg (- z)) as [|c s] eqn:Hs; [by apply str_of_nonneg_nonempty in Hs|].
    pose proof (str_of_nonneg_digits (- z) ltac:(lia)) as Hd. rewrite Hs in Hd.
    apply Forall_cons in Hd as [Hc _].
    assert (startswith (lit "Infinity") ((c :: s) ++ rest) = false) as ->.
    { change (lit "Infinity") with (73 :: lit "nfinity"). cbn [app startswith].
      destruct (Z.eqb_spec 73 c) as [<-|]; done. }
    rewrite <- Hs, scan_number_int by (done || lia). by rewrite Z.opp_involutive.
  - rewrite <- (scan_number_int false z rest) by (done || lia).
    destruct (str_of_nonneg z) as [|c s] eqn:Hs; [by apply str_of_nonneg_nonempty in Hs|].
    pose proof (str_of_nonneg_digits z ltac:(lia)) as Hd. rewrite Hs in Hd.
    apply Forall_cons in Hd as [Hc _].
    assert (∀ x, is_digit x = false → (c =? x) = false ∧ (x =? c) = false) as Hx.
    { intros x Hx. split; apply Z.eqb_neq; intros ->; congruence. }
    cbn [app scan_value].
    destruct (Hx 34 eq_refl) as [-> _], (Hx 123 eq_refl) as [-> _], (Hx 91 eq_refl) as [-> _],
      (Hx 45 eq_refl) as [-> _].
    assert (∀ x p t, is_digit x = false → startswith (x :: p) (c :: t) = false) as Hsw.
    { intros x p t Hd. cbn [startswith]. by destruct (Hx x Hd) as [_ ->]. }
    change (lit "null") with (110 :: lit "ull"). change (lit "true") with (116 :: lit "rue").
    change (lit "false") with (102 :: lit "alse"). change (lit "NaN") with (78 :: lit "aN").
    change (lit "Infinity") with (73 :: lit "nfinity").
    by rewrite !Hsw.
Qed.

(** *** Containers *)
Lemma str_of_int_head z : ∃ c t, str_of_int z = c :: t ∧ (c = 45 ∨ is_digit c = true).
Proof.
  unfold str_of_int. destruct (Z.ltb_spec z 0); [by exists 45, (str_of_nonneg (- z)); auto|].
  destruct (str_of_nonneg z) as [|c t] eqn:Hs; [by apply str_of_nonneg_nonempty in Hs|].
  pose proof (str_of_nonneg_digits z ltac:(lia)) as Hd. rewrite Hs in Hd. apply Forall_cons in Hd as [Hc _].
  eauto.
Qed.

(** The text of a value starts with a character that is neither white space
    nor a closing bracket. *)
Definition starts_value (s : str) : Prop :=
  ∃ c t, s = c :: t ∧ is_json_ws c = false ∧ c ≠ 93 ∧ c ≠ 125.

Lemma render_head v : plain v → starts_value (render v).
Proof.
  destruct v as [|b|z|f|s|l|d]; cbn [plain render_with]; intros Hv; try done.
  - by exists 110, (lit "ull").
  - destruct b; [by exists 116, (lit "rue")|by exists 102, (lit "alse")].
  - destruct (str_of_int_head z) as (c & t & -> & Hc). exists c, t. split; [done|].
    destruct Hc as [->|Hc]; [done|]. unfold is_digit in Hc. unfold is_json_ws. lia.
  - by eexists 34, _.
  - by eexists 91, _.
  - by eexists 123, _.
Qed.

Lemma skip_ws_value s rest : starts_value s → skip_ws (s ++ rest) = s ++ rest.
Proof. intros (c & t & -> & Hc & _). unfold skip_ws. cbn. by rewrite Hc. Qed.

Lemma startswith_value s rest x : starts_value s → x = 93 ∨ x = 125 → startswith [x] (s ++ rest) = false.
Proof.
  intros (c & t & -> & _ & H1 & H2) Hx. cbn [app startswith]. rewrite andb_true_r. apply Z.eqb_neq.
  destruct Hx; congruence.
Qed.

Lemma render_pos v : plain v → (1 ≤ length (render v))%nat.
Proof. intros (c & t & -> & _)%render_head. cbn. lia. Qed.

Lemma stops_cons c r : is_digit c = false ∧ c ≠ 46 ∧ c ≠ 101 ∧ c ≠ 69 → stops (c :: r).
Proof. intros H c' r' [= <- <-]. done. Qed.

(** What the induction below establishes for a value. *)
Definition scans (v : json) : Prop :=
  ∀ fuel rest, stops rest → (2 * length (render v) ≤ fuel)%nat →
  scan_value h fuel (render v ++ rest) = Ok (v, rest).

Lemma join_cons2 sep a b (l : list str) : join sep (a :: b :: l) = a ++ sep ++ join sep (b :: l).
Proof. done. Qed.

Lemma skip_ws_comma s : skip_ws (44 :: s) = 44 :: s.
Proof. done. Qed.

Lemma starts_join sep s l : starts_value s → starts_value (join sep (s :: l)).
Proof.
  intros (c & t & -> & Hc). destruct l as [|b l]; [by exists c, t|]. rewrite join_cons2. by eexists c, _.
Qed.

Lemma scan_elements_render l :
  Forall (λ v, plain v ∧ scans v) l → l ≠ [] → ∀ fuel rest,
  (2 * length (join [44%Z] (map render l)) + 1 ≤ fuel)%nat →
  scan_elements h fuel (join [44] (map render l) ++ 93 :: rest) = Ok (l, rest).
Proof.
  induction 1 as [|v l [Hv Hs] Hl IH]; intros Hne fuel rest Hf; [done|].
  destruct fuel as [|fuel]; [lia|]. destruct l as [|w l].
  - cbn [map join] in *. cbn [scan_elements].
    rewrite Hs by (try apply stops_cons; done || lia). done.
  - cbn [map] in *. rewrite join_cons2 in *. rewrite !length_app in Hf. rewrite <- !app_assoc. cbn [app].
    cbn [scan_elements]. rewrite Hs by (try apply stops_cons; done || lia). cbn [mbind result_bind].
    rewrite !skip_ws_comma. cbn [startswith Z.eqb Pos.eqb andb expect mbind result_bind].
    apply Forall_cons in Hl as [[Hw _] _].
    rewrite skip_ws_value by (by apply starts_join, render_head).
    cbn [length] in Hf. rewrite IH by (done || lia). done.
Qed.

Definition member_render (kv : str * json) : str := quoted escape kv.1 ++ [58] ++ render kv.2.

Lemma member_head kv : starts_value (member_render kv).
Proof. by eexists 34, _. Qed.

Lemma scan_members_render d :
  Forall (λ kv, text_ok kv.1 ∧ plain kv.2 ∧ scans kv.2) d → d ≠ [] → ∀ fuel rest,
  (2 * length (join [44%Z] (map member_render d)) + 1 ≤ fuel)%nat →
  scan_members h fuel (join [44] (map member_render d) ++ 125 :: rest) = Ok (d, rest).
Proof.
  assert (∀ fuel k v r, text_ok k → plain v →
    scan_members h (S fuel) (member_render (k, v) ++ r)
    = ('(v, s) ← scan_value h fuel (render v ++ r);
       let s := skip_ws s in
       if startswith [125] s then Ok ([(k, v)], drop 1 s)
       else s ← expect 44 s;
            '(d, rest) ← scan_members h fuel (skip_ws s); Ok ((k, v) :: d, rest))) as Hone.
  { intros fuel k v r Hk Hv. unfold member_render. cbn [fst snd]. rewrite <- !app_assoc.
    cbn [scan_members]. unfold quoted. cbn [app expect Z.eqb Pos.eqb mbind result_bind].
    rewrite <- app_assoc. cbn [app]. rewrite scan_string_text by done. cbn [mbind result_bind].
    change (skip_ws (58 :: render v ++ r)) with (58 :: render v ++ r).
    cbn [expect Z.eqb Pos.eqb mbind result_bind].
    by rewrite skip_ws_value by (by apply render_head). }
  induction 1 as [|[k v] d (Hk & Hv & Hs) Hd IH]; intros Hne fuel rest Hf; [done|]. cbn [fst snd] in *.
  destruct fuel as [|fuel]; [lia|]. destruct d as [|w d].
  - cbn [map join] in *. rewrite Hone by done. unfold member_render in Hf. cbn [fst snd] in Hf.
    rewrite !length_app in Hf. rewrite Hs by (try apply stops_cons; done || lia). done.
  - cbn [map] in *. rewrite join_cons2 in *. rewrite <- !app_assoc. rewrite Hone by done.
    unfold member_render at 1 in Hf. cbn [fst snd] in Hf. rewrite !length_app in Hf. cbn [app].
    rewrite Hs by (try apply stops_cons; done || lia). cbn [mbind result_bind].
    rewrite !skip_ws_comma. cbn [startswith Z.eqb Pos.eqb andb expect mbind result_bind].
    rewrite skip_ws_value by (apply starts_join, member_head).
    cbn [length] in Hf. rewrite IH by (done || lia). done.
Qed.

Lemma scan_render v : plain v → scans v.
Proof.
  induction v as [|b|z|f|s|l IH|d IH] using json_nested_ind; intros Hv fuel rest Hr Hf;
    pose proof (render_pos _ Hv) as Hpos; (destruct fuel as [|fuel]; [lia|]); cbn [render_with] in *.
  - done.
  - by destruct b.
  - by apply scan_int.
  - done.
  - unfold quoted. cbn [app scan_value Z.eqb Pos.eqb]. rewrite <- app_assoc. cbn [app].
    by rewrite scan_string_text.
  - apply plain_list in Hv. unfold bracket in *. rewrite !length_app in Hf. cbn [length] in Hf.
    destruct (decide (l = [])) as [->|Hne]; [done|].
    assert (Forall (λ v, plain v ∧ scans v) l) as Hl.
    { apply Forall_forall. rewrite Forall_forall in IH, Hv. intros x Hx. auto. }
    rewrite <- !app_assoc. cbn [app scan_value Z.eqb Pos.eqb].
    assert (starts_value (join [44] (map render l))) as Hh.
    { destruct l as [|x l]; [done|]. apply Forall_cons in Hv as [Hx _]. by apply starts_join, render_head. }
    rewrite skip_ws_value, startswith_value by auto. rewrite scan_elements_render by (done || lia). done.
  - apply plain_dict in Hv as [Hnd Hv]. unfold bracket in *. rewrite !length_app in Hf. cbn [length] in Hf.
    destruct (decide (d = [])) as [->|Hne]; [done|].
    assert (Forall (λ kv, text_ok kv.1 ∧ plain kv.2 ∧ scans kv.2) d) as Hd.
    { apply Forall_forall. rewrite Forall_forall in IH, Hv. intros x Hx. destruct (Hv x Hx). auto. }
    change (map (λ kv, quoted escape kv.1 ++ [58] ++ render kv.2) d) with (map member_render d).
    change (map (λ kv, quoted escape kv.1 ++ [58%Z] ++ render kv.2) d) with (map member_render d) in Hf.
    rewrite <- !app_assoc. cbn [app scan_value Z.eqb Pos.eqb].
    assert (starts_value (join [44] (map member_render d))) as Hh.
    { destruct d as [|x d]; [done|]. apply starts_join, member_head. }
    rewrite skip_ws_value, startswith_value by auto. rewrite scan_members_render by (done || lia).
    cbn [mbind result_bind]. by rewrite Hpairs.
Qed.

Lemma loads_rendered v : plain v → loads h (render v) = Ok v.
Proof.
  intros Hv. unfold loads. destruct (render_head v Hv) as (c & t & Ht & Hws & _).
  assert (startswith [0xFEFF] (render v) = false) as ->.
  { rewrite Ht. cbn [startswith]. destruct (Z.eqb_spec 0xFEFF c) as [<-|]; [|done].
    exfalso. destruct v as [|[]|z| |s|l|d]; cbn [render_with] in Ht; try done.
    destruct (str_of_int_head z) as (c & t' & Hz & Hc). rewrite Hz in Ht. injection Ht as -> _.
    by destruct Hc. }
  cbn [raise_if mbind result_bind].
  rewrite <- (app_nil_r (render v)) at 2. rewrite skip_ws_value by (by apply render_head).
  rewrite scan_render by (done || lia). done.
Qed.
End reading.
