(* ===== verification/JsonRoundtrip.v ===== *)
(** * Canonical JSON and the parser agree

    Canonical bytes of a value of safe integers and text parse back to the
    value with its members in canonical order, and therefore determine it. *)
From S2P Require Import Prelude Errors PyText PyFloat Canonical CanonicalSpec JsonScan.

(** ** Canonical order *)
Definition units (s : str) : list Z := concat (utf16_units <$> s).

(** Members in the order of their names' UTF-16 code units, at every level. *)
Definition sort_dict {A} (d : list (str * A)) : list (str * A) :=
  (sort_members (map (λ kv, (units kv.1, kv)) d)).*2.

Fixpoint normal (v : json) : json :=
  match v with
  | JList l => JList (map normal l)
  | JDict d => JDict (sort_dict (map (λ kv, (kv.1, normal kv.2)) d))
  | _ => v
  end.

(** Text of a value, members in the given order. *)
Fixpoint render (v : json) : str :=
  match v with
  | JNull => lit "null"
  | JBool b => if b then lit "true" else lit "false"
  | JInt z => str_of_int z
  | JFloat _ => []
  | JStr s => dumps_str s
  | JList l => bracket 91 93 (map render l)
  | JDict d => bracket 123 125 (map (λ kv, dumps_str kv.1 ++ [58] ++ render kv.2) d)
  end.

(** *** Sorting *)
Lemma insert_member_map {A B} (f : A → B) k x l :
  insert_member k (f x) (map (λ m, (m.1, f m.2)) l) = map (λ m, (m.1, f m.2)) (insert_member k x l).
Proof. induction l as [|[k' y] l IH]; cbn; [done|]. case_match; cbn; [done|]. by rewrite IH. Qed.

Lemma sort_members_map {A B} (f : A → B) l :
  sort_members (map (λ m, (m.1, f m.2)) l) = map (λ m, (m.1, f m.2)) (sort_members l).
Proof. induction l as [|[k x] l IH]; cbn; [done|]. by rewrite IH, insert_member_map. Qed.

Lemma insert_member_perm {A} k (x : A) l : insert_member k x l ≡ₚ (k, x) :: l.
Proof.
  induction l as [|[k' y] l IH]; cbn; [done|]. case_match; [done|]. rewrite IH. constructor.
Qed.

Lemma sort_members_perm {A} (l : list (list Z * A)) : sort_members l ≡ₚ l.
Proof. induction l as [|[k x] l IH]; cbn; [done|]. by rewrite insert_member_perm, IH. Qed.

Lemma sort_dict_perm {A} (d : list (str * A)) : sort_dict d ≡ₚ d.
Proof.
  unfold sort_dict. rewrite sort_members_perm.
  induction d as [|x d IH]; cbn; [done|]. by rewrite IH.
Qed.

Lemma sort_dict_map {A B} (f : A → B) (d : list (str * A)) :
  sort_dict (map (λ kv, (kv.1, f kv.2)) d) = map (λ kv, (kv.1, f kv.2)) (sort_dict d).
Proof.
  unfold sort_dict.
  replace (map (λ kv : str * B, (units kv.1, kv)) (map (λ kv, (kv.1, f kv.2)) d))
    with (map (λ m : list Z * (str * A), (m.1, (λ kv : str * A, (kv.1, f kv.2)) m.2))
            (map (λ kv, (units kv.1, kv)) d)) by (by rewrite !map_map).
  rewrite (sort_members_map (λ kv : str * A, (kv.1, f kv.2))).
  induction (sort_members _) as [|m l IH]; cbn; [done|]. by rewrite IH.
Qed.

Lemma text_ok_no_surrogate s : text_ok s → existsb is_surrogate s = false.
Proof.
  induction 1 as [|c s [_ Hc] _ IH]; cbn; [done|]. by rewrite Hc.
Qed.

Lemma utf16_ok k : text_ok k → utf16_sort_key k = Ok (units k).
Proof. intros Hk. unfold utf16_sort_key. by rewrite text_ok_no_surrogate. Qed.

Lemma keyed_ok {A} (d : list (str * A)) : Forall (λ kv, text_ok kv.1) d →
  keyed d = Ok (map (λ kv, (units kv.1, kv)) d).
Proof.
  unfold keyed. induction 1 as [|[k x] d Hk _ IH]; cbn [mapM_res map]; [done|]. cbn [fst] in Hk |- *.
  rewrite utf16_ok by done. cbn. by rewrite IH.
Qed.

Lemma member_text_ok k t : text_ok k → member_text k (Ok t) = Ok (dumps_str k ++ [58] ++ t).
Proof. intros Hk. unfold member_text, assert_valid_unicode. by rewrite text_ok_no_surrogate. Qed.

(** ** Canonical text is the text of the sorted value *)
Lemma canonical_render v : plain v → canonical_value v = Ok (render (normal v)).
Proof.
  induction v as [| |z|f|s|l IH|d IH] using json_nested_ind; intros Hv; cbn [canonical_value normal render].
  - done.
  - done.
  - by apply canonical_int_safe.
  - done.
  - unfold assert_valid_unicode. by rewrite text_ok_no_surrogate.
  - apply plain_list in Hv.
    assert (mapM_res canonical_value l = Ok (map render (map normal l))) as ->; [|done].
    induction Hv as [|x l Hx Hl IHl]; cbn; [done|]. apply Forall_cons in IH as [H1 H2].
    rewrite H1, IHl by done. done.
  - apply plain_dict in Hv as [_ Hv].
    assert (map (λ kv, (kv.1, canonical_value kv.2)) d
            = map (λ kv : str * json, (kv.1, Ok (render (normal kv.2)))) d) as ->.
    { induction Hv as [|kv d [_ Hx] Hl IHl]; cbn; [done|]. apply Forall_cons in IH as [H1 H2].
      rewrite H1, IHl by done. done. }
    rewrite keyed_ok by (apply Forall_fmap; eapply Forall_impl; [exact Hv|]; by intros kv [? _]).
    cbn [mbind result_bind]. rewrite sort_dict_map.
    assert (sort_members (map (λ kv : str * res str, (units kv.1, kv))
              (map (λ kv : str * json, (kv.1, Ok (render (normal kv.2)))) d))
            = map (λ m : list Z * (str * json), (m.1, (m.2.1, Ok (render (normal m.2.2)))))
                (sort_members (map (λ kv, (units kv.1, kv)) d))) as ->.
    { rewrite map_map. cbn.
      rewrite <- (sort_members_map (λ kv : str * json, (kv.1, Ok (render (normal kv.2)) : res str))).
      by rewrite map_map. }
    unfold sort_dict.
    assert (Forall (λ m : list Z * (str * json), text_ok m.2.1)
              (sort_members (map (λ kv, (units kv.1, kv)) d))) as Hok.
    { rewrite sort_members_perm. apply Forall_fmap. eapply Forall_impl; [exact Hv|]. by intros kv [? _]. }
    assert (∀ L : list (list Z * (str * json)), Forall (λ m, text_ok m.2.1) L →
      mapM_res (λ m : list Z * (str * res str), member_text m.2.1 m.2.2)
        (map (λ m, (m.1, (m.2.1, Ok (render (normal m.2.2))))) L)
      = Ok (map (λ kv, dumps_str kv.1 ++ [58] ++ render kv.2)
              (map (λ kv : str * json, (kv.1, normal kv.2)) L.*2))) as HL.
    { induction 1 as [|m L Hm _ IHL]; [done|]. cbn. rewrite member_text_ok by done. cbn.
      cbn in IHL. rewrite IHL. done. }
    by rewrite (HL _ Hok).
Qed.

Lemma render_is v : render v = render_with escape_char v.
Proof.
  induction v as [|b|z|f|s|l IH|d IH] using json_nested_ind; try done; cbn [render render_with]; f_equal; apply list_fmap_ext; intros i x Hx;
    apply list_elem_of_lookup_2 in Hx; rewrite Forall_forall in IH; by rewrite (IH _ Hx).
Qed.

(** *** Sorting keeps values plain and their depth *)
Lemma plain_normal v : plain v → plain (normal v).
Proof.
  induction v as [|b|z|f|s|l IH|d IH] using json_nested_ind; intros Hv; try done.
  - apply plain_list in Hv. cbn [normal]. apply plain_list, Forall_fmap.
    apply Forall_forall. rewrite Forall_forall in IH, Hv. intros x Hx. unfold compose. auto.
  - apply plain_dict in Hv as [Hnd Hv]. cbn [normal]. apply plain_dict. rewrite sort_dict_perm. split.
    + assert ((map (λ kv : str * json, (kv.1, normal kv.2)) d).*1 = d.*1) as ->; [|done].
      induction d as [|x d IHd]; cbn; [done|]. f_equal. apply IHd.
      * by apply Forall_cons in IH as [_ IH].
      * by apply NoDup_cons in Hnd as [_ Hnd].
      * by apply Forall_cons in Hv as [_ Hv].
    + apply Forall_fmap, Forall_forall. rewrite Forall_forall in IH, Hv. intros x Hx.
      destruct (Hv x Hx). unfold compose. cbn. auto.
Qed.

Lemma depth_perm {A} (f : A → Z) (l k : list A) :
  l ≡ₚ k → foldr (λ x a, Z.max (f x) a) 0 l = foldr (λ x a, Z.max (f x) a) 0 k.
Proof. induction 1; cbn; lia. Qed.

Lemma json_depth_normal v : json_depth (normal v) = json_depth v.
Proof.
  induction v as [|b|z|f|s|l IH|d IH] using json_nested_ind; try done.
  - cbn. induction IH as [|x l Hx _ IHl]; cbn; [done|]. by rewrite Hx, IHl.
  - cbn [normal json_depth].
    rewrite (depth_perm (λ kv : str * json, 1 + json_depth kv.2) _ _ (sort_dict_perm _)).
    induction IH as [|x d Hx _ IHd]; cbn; [done|]. by rewrite Hx, IHd.
Qed.

(** *** The bytes of a value pass the nesting scan *)
Definition utf8s (s : str) : bytes := concat (utf8_char <$> s).

Lemma utf8s_app a b : utf8s (a ++ b) = utf8s a ++ utf8s b.
Proof. unfold utf8s. by rewrite fmap_app, concat_app. Qed.

Lemma utf8s_ascii c : c < 0x80 → utf8s [c] = [c].
Proof. intros Hc. unfold utf8s. cbn. unfold utf8_char. by destruct (Z.ltb_spec c 0x80); [|lia]. Qed.

Lemma foldM_res_app {E A S} (f : S → A → result E S) a b s :
  foldM_res f (a ++ b) s = (s' ← foldM_res f a s; foldM_res f b s').
Proof.
  revert s. induction a as [|x a IH]; intros s; cbn; [done|]. destruct (f s x); cbn; [apply IH|done].
Qed.

Definition outside (d : Z) : scan := {| sc_depth := d; sc_in_string := false; sc_escaped := false |}.
Definition inside (d : Z) : scan := {| sc_depth := d; sc_in_string := true; sc_escaped := false |}.

Lemma scan_inside_high d b : 0x80 ≤ b → scan_byte (inside d) b = Ok (inside d).
Proof.
  intros Hb. unfold scan_byte, inside. cbn [sc_in_string sc_escaped].
  destruct (Z.eqb_spec b 0x5C); [lia|]. destruct (Z.eqb_spec b 0x22); [lia|done].
Qed.

Lemma scan_inside_run d bs : Forall (λ b, 0x80 ≤ b) bs → foldM_res scan_byte bs (inside d) = Ok (inside d).
Proof.
  induction 1 as [|b bs Hb _ IH]; cbn [foldM_res]; [done|]. rewrite scan_inside_high by done. exact IH.
Qed.

Lemma scan_inside_char d c : char_ok c →
  foldM_res scan_byte (utf8s (escape_char c)) (inside d) = Ok (inside d).
Proof.
  intros [Hc Hs]. unfold is_code_point in Hc. unfold escape_char.
  destruct (Z.eqb_spec c 34) as [->|H1]; [done|]. destruct (Z.eqb_spec c 92) as [->|H2]; [done|].
  destruct (Z.eqb_spec c 10) as [->|]; [done|]. destruct (Z.eqb_spec c 13) as [->|]; [done|].
  destruct (Z.eqb_spec c 9) as [->|]; [done|]. destruct (Z.eqb_spec c 12) as [->|]; [done|].
  destruct (Z.eqb_spec c 8) as [->|]; [done|].
  assert (∀ b, b ≠ 0x5C → b ≠ 0x22 → scan_byte (inside d) b = Ok (inside d)) as Hb.
  { intros b Hb1 Hb2. unfold scan_byte, inside. cbn [sc_in_string sc_escaped].
    destruct (Z.eqb_spec b 0x5C); [done|]. by destruct (Z.eqb_spec b 0x22). }
  destruct (Z.ltb_spec c 32) as [Hlt|Hge].
  - assert (∀ n, 0 ≤ n < 16 → utf8_char (hex_digit n) = [hex_digit n]
      ∧ hex_digit n ≠ 0x5C ∧ hex_digit n ≠ 0x22) as Hh.
    { intros x Hx. unfold utf8_char, hex_digit. destruct (Z.ltb_spec x 10).
      - destruct (Z.ltb_spec (48 + x) 0x80); lia || (split; [done|lia]).
      - destruct (Z.ltb_spec (87 + x) 0x80); lia || (split; [done|lia]). }
    destruct (Hh (c / 16) ltac:(dlia)) as (E1 & N1 & N1'). destruct (Hh (c mod 16) ltac:(dlia)) as (E2 & N2 & N2').
    unfold utf8s. cbn [fmap list_fmap concat]. rewrite E1, E2.
    change (utf8_char 92) with [92]. change (utf8_char 117) with [117]. change (utf8_char 48) with [48].
    cbn [app foldM_res].
    assert (∀ e, scan_byte {| sc_depth := d; sc_in_string := true; sc_escaped := true |} e = Ok (inside d))
      as Hesc by done.
    change (scan_byte (inside d) 92) with
      (Ok {| sc_depth := d; sc_in_string := true; sc_escaped := true |} : res scan).
    cbn [mbind result_bind]. rewrite Hesc. cbn [mbind result_bind].
    rewrite (Hb 48) by done. cbn [mbind result_bind]. rewrite (Hb 48) by done. cbn [mbind result_bind].
    rewrite Hb by done. cbn [mbind result_bind]. by rewrite Hb.
  - unfold utf8s. cbn [fmap list_fmap concat]. rewrite app_nil_r. unfold utf8_char.
    destruct (Z.ltb_spec c 0x80) as [Ha|Ha]; [cbn [foldM_res]; by rewrite Hb|].
    apply scan_inside_run. repeat case_match; repeat constructor; dlia.
Qed.

Lemma scan_outside d b : d ≤ 64 →
  scan_byte (outside d) b
  = Ok (if is_json_skip b then outside d
        else if is_closer b then outside (d - 1)
        else if b =? 0x22 then inside d
        else if is_opener b then outside (d + 1) else outside d).
Proof.
  intros Hd. unfold scan_byte, outside, inside, MAX_JSON_DEPTH. cbn [sc_in_string sc_depth sc_escaped].
  destruct (is_json_skip b); [done|]. destruct (is_closer b); [done|].
  destruct (Z.ltb_spec 64 d); [lia|]. cbn. destruct (b =? 34); [done|]. by destruct (is_opener b).
Qed.

Lemma scan_dumps d s : d ≤ 64 → text_ok s →
  foldM_res scan_byte (utf8s (dumps_str s)) (outside d) = Ok (outside d).
Proof.
  intros Hd Hs. unfold dumps_str. rewrite !utf8s_app, !foldM_res_app.
  change (utf8s [34]) with [34]. cbn [foldM_res]. rewrite scan_outside by done.
  change (Ok (if is_json_skip 34 then _ else _)) with (Ok (inside d) : res scan). cbn [mbind result_bind].
  assert (foldM_res scan_byte (utf8s (concat (escape_char <$> s))) (inside d) = Ok (inside d)) as Hin.
  { induction Hs as [|c s Hc _ IH]; cbn [fmap list_fmap concat]; [done|].
    rewrite utf8s_app, foldM_res_app, scan_inside_char by done. cbn [mbind result_bind]. exact IH. }
  rewrite foldM_res_app, Hin. done.
Qed.

(** Characters of scalars: neither skipped, nor brackets, nor quotes. *)
Definition scalar_char (c : Z) : bool :=
  (0 <=? c) && (c <? 0x80) && negb (is_json_skip c) && negb (is_closer c) && negb (c =? 0x22)
  && negb (is_opener c).

Lemma scan_scalar d s : d ≤ 64 → Forall (λ c, scalar_char c = true) s →
  foldM_res scan_byte (utf8s s) (outside d) = Ok (outside d).
Proof.
  intros Hd. induction 1 as [|c s Hc _ IH]; [done|]. unfold scalar_char in Hc.
  rewrite !andb_true_iff, !negb_true_iff, Z.ltb_lt in Hc. destruct Hc as [[[[[_ Hlt] H1] H2] H3] H4].
  change (c :: s) with ([c] ++ s). rewrite utf8s_app, foldM_res_app.
  rewrite utf8s_ascii by done. cbn [foldM_res]. rewrite scan_outside, H1, H2, H3, H4 by done. exact IH.
Qed.

Lemma scalar_int z : Forall (λ c, scalar_char c = true) (str_of_int z).
Proof.
  assert (∀ n, 0 ≤ n → Forall (λ c, scalar_char c = true) (str_of_nonneg n)) as Hn.
  { intros n Hn. eapply Forall_impl; [by apply str_of_nonneg_digits|]. intros c Hc.
    unfold is_digit in Hc. unfold scalar_char, is_json_skip, is_closer, is_opener. lia. }
  unfold str_of_int. destruct (Z.ltb_spec z 0); [constructor; [done|]|]; apply Hn; lia.
Qed.

(** A bracketed, comma-separated list of texts that pass one level deeper. *)
Lemma scan_bracket l r parts d :
  is_opener l = true → is_closer r = true → d ≤ 64 →
  (parts ≠ [] → d + 1 ≤ 64) →
  Forall (λ s, foldM_res scan_byte (utf8s s) (outside (d + 1)) = Ok (outside (d + 1))) parts →
  foldM_res scan_byte (utf8s (bracket l r parts)) (outside d) = Ok (outside d).
Proof.
  intros Hl Hr Hd Hne Hparts. unfold bracket. rewrite !utf8s_app, !foldM_res_app.
  assert (foldM_res scan_byte (utf8s [l]) (outside d) = Ok (outside (d + 1))) as ->.
  { unfold is_opener in Hl. apply orb_true_iff in Hl as [->%Z.eqb_eq| ->%Z.eqb_eq];
      rewrite utf8s_ascii by done; cbn [foldM_res]; by rewrite scan_outside. }
  cbn [mbind result_bind]. rewrite foldM_res_app.
  assert (foldM_res scan_byte (utf8s (join [44] parts)) (outside (d + 1)) = Ok (outside (d + 1))) as ->.
  { induction Hparts as [|s parts Hs Hps IH]; [done|]. destruct parts as [|p parts]; [done|].
    rewrite join_cons2, !utf8s_app, foldM_res_app, Hs. cbn [mbind result_bind].
    rewrite foldM_res_app. change (utf8s [44]) with [44]. cbn [foldM_res].
    rewrite scan_outside by (by apply Hne).
    change (Ok (if is_json_skip 44 then _ else _)) with (Ok (outside (d + 1)) : res scan).
    cbn [mbind result_bind]. apply IH. intros _. by apply Hne. }
  cbn [mbind result_bind].
  unfold is_closer in Hr. apply orb_true_iff in Hr as [->%Z.eqb_eq| ->%Z.eqb_eq];
    rewrite utf8s_ascii by done; unfold scan_byte, outside; cbn; do 2 f_equal; lia.
Qed.

Lemma json_depth_nonneg v : 0 ≤ json_depth v.
Proof. destruct v as [| | | | |l|d]; cbn; try done; [induction l|induction d]; cbn; lia. Qed.

Lemma scan_bytes_render v : plain v → ∀ d, d + json_depth v ≤ 64 →
  foldM_res scan_byte (utf8s (render v)) (outside d) = Ok (outside d).
Proof.
  induction v as [|b|z|f|s|l IH|m IH] using json_nested_ind; intros Hv d Hd; cbn [render];
    (assert (d ≤ 64) as Hd64
      by (match type of Hd with _ + json_depth ?v ≤ _ => pose proof (json_depth_nonneg v) end; lia)).
  - apply scan_scalar; [done|by_decide].
  - destruct b; (apply scan_scalar; [done|by_decide]).
  - apply scan_scalar; [done|apply scalar_int].
  - done.
  - by apply scan_dumps.
  - apply plain_list in Hv.
    assert (Forall (λ x, 1 + json_depth x ≤ json_depth (JList l)) l) as Hdepth.
    { clear. cbn. apply Forall_forall. intros x Hx. induction Hx; cbn; lia. }
    apply scan_bracket; [done..| |].
    + destruct l as [|x l]; [done|]. intros _. apply Forall_cons in Hdepth as [Hx _].
      pose proof (json_depth_nonneg x). lia.
    + apply Forall_fmap, Forall_forall. rewrite Forall_forall in IH, Hv, Hdepth. intros x Hx.
      unfold compose. apply IH; auto. specialize (Hdepth x Hx). lia.
  - apply plain_dict in Hv as [_ Hv].
    assert (Forall (λ kv, 1 + json_depth kv.2 ≤ json_depth (JDict m)) m) as Hdepth.
    { clear. cbn. apply Forall_forall. intros x Hx. induction Hx; cbn; lia. }
    rewrite Forall_forall in IH, Hv, Hdepth.
    apply scan_bracket; [done..| |].
    + destruct m as [|x m]; [done|]. intros _. specialize (Hdepth x (list_elem_of_here _ _)).
      pose proof (json_depth_nonneg x.2). lia.
    + apply Forall_fmap, Forall_forall. intros x Hx. unfold compose.
      specialize (Hdepth x Hx). destruct (Hv x Hx) as [Hk Hx2]. pose proof (json_depth_nonneg x.2).
      rewrite !utf8s_app, foldM_res_app, scan_dumps by (done || lia). cbn [mbind result_bind].
      rewrite foldM_res_app. change (utf8s [58]) with [58]. cbn [foldM_res].
      rewrite scan_outside by lia.
      change (Ok (if is_json_skip 58 then _ else _)) with (Ok (outside (d + 1)) : res scan).
      cbn [mbind result_bind]. apply IH; auto. lia.
Qed.

(** *** The text is encodable *)
Lemma char_ok_ascii c : 0 ≤ c < 0x80 → char_ok c.
Proof. intros Hc. split; [unfold is_code_point; lia|]. unfold is_surrogate. lia. Qed.

Lemma text_ok_lit s : Forall (λ c, 0 ≤ c < 0x80) s → text_ok s.
Proof. intros Hs. eapply Forall_impl; [exact Hs|]. apply char_ok_ascii. Qed.

Lemma escape_char_ok c : char_ok c → text_ok (escape_char c).
Proof.
  intros Hc. pose proof Hc as [Hr _]. unfold is_code_point in Hr. unfold escape_char.
  repeat (case_match; [apply text_ok_lit; by_decide|]).
  destruct (Z.ltb_spec c 32); [|by constructor; [|constructor]].
  apply text_ok_lit. assert (∀ x, 0 ≤ x < 16 → 0 ≤ hex_digit x < 0x80) as Hh.
  { intros x Hx. unfold hex_digit. destruct (Z.ltb_spec x 10); lia. }
  repeat (constructor; [lia || apply Hh; dlia|]). constructor.
Qed.

Lemma concat_Forall {A} (P : A → Prop) ls : Forall (Forall P) ls → Forall P (concat ls).
Proof. induction 1; cbn; [done|]. by apply Forall_app. Qed.

Lemma dumps_str_ok s : text_ok s → text_ok (dumps_str s).
Proof.
  intros Hs. unfold dumps_str. apply Forall_app. split; [apply text_ok_lit; by_decide|].
  apply Forall_app. split; [|apply text_ok_lit; by_decide].
  apply concat_Forall, Forall_fmap. eapply Forall_impl; [exact Hs|]. intros c Hc. by apply escape_char_ok.
Qed.

Lemma join_ok sep parts : text_ok sep → Forall text_ok parts → text_ok (join sep parts).
Proof.
  intros Hsep. induction 1 as [|p parts Hp Hps IH]; [constructor|].
  destruct parts as [|q parts]; [done|]. rewrite join_cons2. apply Forall_app. split; [done|].
  by apply Forall_app.
Qed.

Lemma bracket_ok l r parts : 0 ≤ l < 0x80 → 0 ≤ r < 0x80 → Forall text_ok parts → text_ok (bracket l r parts).
Proof.
  intros Hl Hr Hp. unfold bracket. apply Forall_app. split; [by constructor; [apply char_ok_ascii|constructor]|].
  apply Forall_app. split; [|by constructor; [apply char_ok_ascii|constructor]].
  apply join_ok; [apply text_ok_lit; by_decide|done].
Qed.

Lemma render_ok v : plain v → text_ok (render v).
Proof.
  induction v as [|b|z|f|s|l IH|d IH] using json_nested_ind; intros Hv; cbn [render].
  - apply text_ok_lit. by_decide.
  - destruct b; apply text_ok_lit; by_decide.
  - eapply Forall_impl; [apply scalar_int|]. intros c Hc. unfold scalar_char in Hc.
    apply char_ok_ascii. lia.
  - done.
  - by apply dumps_str_ok.
  - apply plain_list in Hv. apply bracket_ok; [lia..|]. apply Forall_fmap, Forall_forall.
    rewrite Forall_forall in IH, Hv. intros x Hx. unfold compose. auto.
  - apply plain_dict in Hv as [_ Hv]. apply bracket_ok; [lia..|]. apply Forall_fmap, Forall_forall.
    rewrite Forall_forall in IH, Hv. intros x Hx. destruct (Hv x Hx). unfold compose.
    apply Forall_app. split; [by apply dumps_str_ok|]. constructor; [by apply char_ok_ascii|].
    by apply IH.
Qed.

(** *** Sorting twice *)
Lemma key_leb_total a b : key_leb a b = false → key_leb b a = true.
Proof.
  revert b. induction a as [|x a IH]; intros [|y b]; cbn; try done.
  rewrite orb_false_iff, andb_false_iff, Z.ltb_ge, Z.eqb_neq. intros [Hle Hk].
  rewrite orb_true_iff, andb_true_iff, Z.ltb_lt, Z.eqb_eq.
  destruct (decide (x = y)) as [->|]; [|left; lia]. right. split; [done|]. destruct Hk; [done|auto].
Qed.

Definition key_le {A} (m n : list Z * A) : Prop := key_leb m.1 n.1 = true.

Lemma insert_member_sorted {A} k (x : A) l :
  Sorted key_le l → Sorted key_le (insert_member k x l).
Proof.
  induction 1 as [|[k' y] l Hl IH Hhd]; cbn; [by repeat constructor|].
  destruct (key_leb k k') eqn:Hk.
  - constructor; [by constructor|]. by constructor.
  - constructor; [done|]. destruct l as [|[k2 z] l]; cbn in *.
    + constructor. by apply key_leb_total.
    + destruct (key_leb k k2); constructor; [by apply key_leb_total|]. by inversion Hhd.
Qed.

Lemma sort_members_sorted {A} (l : list (list Z * A)) : Sorted key_le (sort_members l).
Proof. induction l as [|[k x] l IH]; cbn; [constructor|]. by apply insert_member_sorted. Qed.

Lemma sort_members_id {A} (l : list (list Z * A)) : Sorted key_le l → sort_members l = l.
Proof.
  induction 1 as [|[k x] l Hl IH Hhd]; cbn; [done|]. rewrite IH.
  destruct l as [|[k' y] l]; [done|]. cbn. inversion Hhd as [|? ? Hle]; subst. unfold key_le in Hle.
  cbn in Hle. by rewrite Hle.
Qed.

Lemma sort_dict_id {A} (d : list (str * A)) : sort_dict (sort_dict d) = sort_dict d.
Proof.
  unfold sort_dict. set (l := sort_members (map (λ kv, (units kv.1, kv)) d)).
  assert (map (λ kv : str * A, (units kv.1, kv)) l.*2 = l) as ->.
  { assert (Forall (λ m : list Z * (str * A), m.1 = units m.2.1) l) as Hl.
    { unfold l. rewrite sort_members_perm. by apply Forall_fmap, Forall_true. }
    induction Hl as [|[k x] l Hk _ IH]; cbn; [done|]. cbn in Hk. subst k. by rewrite IH. }
  rewrite sort_members_id; [done|]. apply sort_members_sorted.
Qed.

Lemma normal_idem v : normal (normal v) = normal v.
Proof.
  induction v as [|b|z|f|s|l IH|d IH] using json_nested_ind; try done; cbn [normal]; f_equal.
  - rewrite map_map. induction IH as [|x l Hx _ IHl]; cbn; [done|]. by rewrite Hx, IHl.
  - set (N := λ kv : str * json, (kv.1, normal kv.2)).
    pose proof (sort_dict_map normal (sort_dict (map N d))) as E1. fold N in E1.
    pose proof (sort_dict_map normal (map N d)) as E2. fold N in E2.
    rewrite E1, sort_dict_id, <- E2, map_map. unfold N. cbn. f_equal. clear E1 E2 N.
    induction IH as [|x d Hx _ IHd]; cbn; [done|]. by rewrite Hx, IHd.
Qed.

(** ** Theorems *)
Lemma utf8_encode_ok s : text_ok s → utf8_encode s = Ok (utf8s s).
Proof. intros Hs. unfold utf8_encode. by rewrite text_ok_no_surrogate. Qed.

Lemma utf8_decode_ok s : text_ok s → utf8_decode (utf8s s) = Ok s.
Proof.
  intros Hs. apply utf8_roundtrip; [|by apply utf8_encode_ok].
  eapply Forall_impl; [exact Hs|]. by intros c [? _].
Qed.

Lemma canonical_bytes_plain v : plain v → json_depth v ≤ MAX_JSON_DEPTH →
  canonical_bytes v = Ok (utf8s (render (normal v))).
Proof.
  intros Hv Hd. unfold canonical_bytes, canonical_json.
  destruct (Z.ltb_spec MAX_JSON_DEPTH (json_depth v)); [lia|]. cbn [raise_if mbind result_bind].
  rewrite canonical_render by done. cbn. by apply utf8_encode_ok, render_ok, plain_normal.
Qed.

Lemma loads_render v : plain v → loads c2sp_hooks (render v) = Ok v.
Proof. intros Hv. rewrite render_is. apply loads_rendered; [apply escape_char_readable|apply c2sp_keeps_members|done]. Qed.

Lemma parse_canonical v : plain v → json_depth v ≤ MAX_JSON_DEPTH →
  parse_json_no_duplicate_members (utf8s (render v)) = Ok v.
Proof.
  intros Hv Hd. unfold parse_json_no_duplicate_members, check_json_nesting.
  assert ((if len (List.filter is_opener (utf8s (render v))) <=? MAX_JSON_DEPTH then Ok ()
           else foldM_res scan_byte (utf8s (render v)) (outside 0) ;; Ok ()) = (Ok () : res unit)) as Hn.
  { case_match; [done|]. by rewrite scan_bytes_render. }
  unfold outside in Hn. rewrite Hn. cbn [mbind result_bind].
  rewrite utf8_decode_ok by (by apply render_ok). cbn [try_except mbind result_bind].
  by rewrite loads_render.
Qed.

Lemma roundtrip_canonical (v : json) (Hv : plain v) (Hd : json_depth v ≤ MAX_JSON_DEPTH) :
  ∃ b, canonical_bytes v = Ok b
    ∧ parse_json_no_duplicate_members b = Ok (normal v)
    ∧ assert_canonical_json_bytes b (Some (normal v)) = Ok ().
Proof.
  pose proof (plain_normal v Hv) as Hn. pose proof (json_depth_normal v) as Hdn.
  exists (utf8s (render (normal v))). split; [by apply canonical_bytes_plain|].
  assert (parse_json_no_duplicate_members (utf8s (render (normal v))) = Ok (normal v)) as Hp
    by (apply parse_canonical; [done|lia]).
  split; [done|]. unfold assert_canonical_json_bytes.
  assert (match Some (normal v) with
          | None | Some JNull => parse_json_no_duplicate_members (utf8s (render (normal v)))
          | Some w => Ok w
          end = Ok (normal v)) as ->.
  { destruct (normal v) eqn:E; try done. }
  cbn [mbind result_bind]. rewrite utf8_decode_ok by (by apply render_ok). cbn [mbind result_bind].
  unfold canonical_json. rewrite Hdn. destruct (Z.ltb_spec MAX_JSON_DEPTH (json_depth v)); [lia|].
  cbn [raise_if mbind result_bind]. rewrite canonical_render, normal_idem by done. cbn.
  by rewrite eqb_refl.
Qed.

(** C39 Canonical bytes parse back: every value of safe integers, booleans, text
    and containers with distinct member names within the nesting limit has a
    canonical form, and that form passes the nesting scan, parses to the value
    with its members in canonical order, and is itself recognized as
    canonical. *)
Theorem canonical_roundtrip (v : json) (Hv : plain v) (Hd : json_depth v ≤ MAX_JSON_DEPTH) :
  ∃ b, canonical_bytes v = Ok b
    ∧ parse_json_no_duplicate_members b = Ok (normal v)
    ∧ assert_canonical_json_bytes b (Some (normal v)) = Ok ().
Proof. by eapply roundtrip_canonical. Qed.

Lemma canonical_bytes_inj v w b :
  plain v → plain w → canonical_bytes v = Ok b → canonical_bytes w = Ok b → normal v = normal w.
Proof.
  intros Hv Hw H1 H2.
  assert (∀ x, canonical_bytes x = Ok b → json_depth x ≤ MAX_JSON_DEPTH) as Hdepth.
  { intros x. unfold canonical_bytes, canonical_json.
    destruct (Z.ltb_spec MAX_JSON_DEPTH (json_depth x)); done. }
  pose proof (Hdepth _ H1) as D1. pose proof (Hdepth _ H2) as D2.
  rewrite canonical_bytes_plain in H1, H2 by done. injection H1 as H1. injection H2 as H2.
  assert (Ok (normal v) = Ok (normal w) :> res json) as [= ->]; [|done].
  rewrite <- (parse_canonical (normal v)), <- (parse_canonical (normal w))
    by (rewrite ?json_depth_normal; auto using plain_normal).
  by rewrite H1, H2.
Qed.

(** Canonical bytes determine the value: two such values with the same
    canonical bytes are equal up to the order of object members, so a
    signature over canonical bytes covers exactly one value. *)
Theorem canonical_bytes_determine (v w : json) (b : bytes) (Hv : plain v) (Hw : plain w)
    (H1 : canonical_bytes v = Ok b) (H2 : canonical_bytes w = Ok b) :
  normal v = normal w.
Proof. by eapply canonical_bytes_inj. Qed.

(** Closed ASCII values are plain. *)
Lemma text_ok_ascii s : bool_decide (Forall (λ c, 0 ≤ c < 0x80) s) = true → text_ok s.
Proof. intros Hs. apply text_ok_lit. by apply bool_decide_eq_true in Hs. Qed.

Ltac solve_plain :=
  cbn -[lit];
  repeat match goal with
  | |- True => exact I
  | |- _ ∧ _ => split
  | |- NoDup _ => by_decide
  | |- _ < _ => reflexivity
  | |- text_ok _ => apply text_ok_ascii; vm_compute; reflexivity
  end.

(** ** Witnesses *)
Definition demo_json (a : Z) : json :=
  JDict [(lit "b", JList [JInt a; JNull; JStr (lit "x" ++ [10; 0x20AC])]);
         (lit "a", JDict [(lit "n", JInt (-7)); (lit "m", JBool true)])].

Lemma demo_json_plain a : Z.abs a < 2 ^ 53 → plain (demo_json a).
Proof.
  intros Ha. split; [by_decide|]. cbn. split_and!; try done; try lia;
    try (apply text_ok_lit; by_decide); try by_decide.
Qed.

Lemma canonical_roundtrip_witness :
  ∃ b, canonical_bytes (demo_json 42) = Ok b
    ∧ parse_json_no_duplicate_members b = Ok (normal (demo_json 42)).
Proof.
  destruct (canonical_roundtrip (demo_json 42)) as (b & H1 & H2 & _).
  - apply demo_json_plain. done.
  - by vm_compute.
  - exists b. by split.
Defined.

Lemma canonical_bytes_determine_witness :
  normal (demo_json 42) = normal (normal (demo_json 42)).
Proof.
  apply (canonical_bytes_determine (demo_json 42) (normal (demo_json 42))
    (utf8s (render (normal (demo_json 42))))).
  - by apply demo_json_plain.
  - by apply plain_normal, demo_json_plain.
  - by vm_compute.
  - by vm_compute.
Defined.

(** A member name with an unpaired surrogate leaves [canonical_bytes] as the
    [UnicodeEncodeError] of the sort key, a [ValueError], and not as the
    documented [C2spTlogParseError]; the same text as a value is reported as
    documented. *)
Theorem surrogate_member_name_error :
  canonical_bytes (JDict [([0xD800], JNull)]) = Raise (ValueError (lit "surrogates not allowed"))
  ∧ canonical_bytes (JStr [0xD800]) = Raise (perr "JSON contains an unpaired surrogate").
Proof. by vm_compute. Qed.
