(* ===== verification/PyNum.v ===== *)
(** * Numbers of mixed type

    Python's [int] and [float] in comparisons, which are exact, and in sums and
    differences, which round to a double when one of the operands is a [float];
    and the timestamps of [datetime]. *)
From S2P Require Import Prelude Errors PyText PyFloat Canonical.

Inductive num : Set := NInt (z : Z) | NFloat (f : pyfloat).
#[global] Instance num_eq_dec : EqDecision num.
Proof. solve_decision. Defined.

(** The exact value of a finite number. *)
Definition exact (a : num) : option (Z * Z) :=
  match a with
  | NInt z => Some (z, 1)
  | NFloat (Finite neg m e) => let '(n, d) := float_ratio m e in Some (if neg then - n else n, d)
  | NFloat _ => None
  end.

(** [a < b] and [a <= b]; infinities compare with everything but NaN. *)
Definition num_compare (finite : Z → Z → bool) (infinite : bool) (a b : num) : bool :=
  match exact a, exact b with
  | Some (n, d), Some (n', d') => finite (n * d') (n' * d)
  | _, _ =>
      match a, b with
      | NFloat NaN, _ | _, NFloat NaN => false
      | NFloat (Infinite x), NFloat (Infinite y) => if eqb x y then infinite else x
      | NFloat (Infinite x), _ => x
      | _, NFloat (Infinite y) => negb y
      | _, _ => false
      end
  end.
Definition num_lt : num → num → bool := num_compare Z.ltb false.
Definition num_le : num → num → bool := num_compare Z.leb true.

(** The double nearest to [n / d]. *)
Definition float_of_ratio (n d : Z) : pyfloat :=
  match round_to_double (Z.abs n) d with Some (m, e) => Finite (n <? 0) m e | None => Infinite (n <? 0) end.

Definition as_float (a : num) : res pyfloat := match a with NInt z => float_of_int z | NFloat f => Ok f end.
Definition negate (f : pyfloat) : pyfloat :=
  match f with Finite neg m e => Finite (negb neg) m e | Infinite neg => Infinite (negb neg) | NaN => NaN end.
Definition float_add (a b : pyfloat) : pyfloat :=
  match exact (NFloat a), exact (NFloat b) with
  | Some (n, d), Some (n', d') => float_of_ratio (n * d' + n' * d) (d * d')
  | _, _ =>
      match a, b with
      | NaN, _ | _, NaN => NaN
      | Infinite x, Infinite y => if eqb x y then Infinite x else NaN
      | Infinite x, _ => Infinite x
      | _, b => b
      end
  end.
(** [a + b] and [a - b]; an [int] that no double can hold raises. *)
Definition num_add (a b : num) : res num :=
  match a, b with
  | NInt x, NInt y => Ok (NInt (x + y))
  | _, _ => x ← as_float a; y ← as_float b; Ok (NFloat (float_add x y))
  end.
Definition num_sub (a b : num) : res num :=
  match a, b with
  | NInt x, NInt y => Ok (NInt (x - y))
  | _, _ => x ← as_float a; y ← as_float b; Ok (NFloat (float_add x (negate y)))
  end.

(** [datetime.timestamp()] of an aware time, and [timedelta.total_seconds()], of
    microseconds. *)
Definition seconds_of (us : Z) : num := NFloat (float_of_ratio us 1000000).
(** [int(timestamp)] *)
Definition int_of_num (a : num) : Z :=
  match a with NInt z => z | NFloat (Finite neg m e) => int_of_finite neg m e | NFloat _ => 0 end.

(** A JSON value that is an [int] or a finite [float] and no [bool]. *)
Definition finite_number (v : json) : option num :=
  match v with
  | JInt z => Some (NInt z)
  | JFloat (Finite neg m e) => Some (NFloat (Finite neg m e))
  | _ => None
  end.
