(* ===== verification/Keys.v ===== *)
(** * Keys and signatures ([dnsid/_crypto.py], [JWK] of [dnsid/models.py])

    Python's equality and truth of JSON values, [json.dumps] with ASCII
    escapes, JWK thumbprints, and the dispatch of signature verification to
    the [cryptography] package, whose primitives are parameters. *)
From S2P Require Import Prelude Sha256 Errors PyText Base64 PyFloat Canonical SignedNote.

(** ** The platform

    The functions the code calls that are not part of the repository. *)
Class Platform := {
  (** [idna.encode(label, uts46=True)] *)
  idna_encode : str → res str;
  (** [urllib.parse]'s NFKC test of a network location *)
  netloc_ok : str → bool;
  (** [str.lower] *)
  str_lower : str → str;
  (** [Ed25519PublicKey.from_public_bytes(key).verify(sig, data)] returns *)
  ed25519_verify : bytes → bytes → bytes → bool;
  (** the P-256 point [(x, y)] exists and verifies [(r, s)] over the data *)
  ecdsa_p256_verify : Z → Z → Z → Z → bytes → bool;
  (** PKCS#1 v1.5 with SHA-256 under modulus [n] and exponent [e] *)
  rsa_pkcs1_verify : Z → Z → bytes → bytes → bool;
  (** [d.timestamp() * 1000] of a naive [d], which depends on the local time
      zone: sign, and magnitude [m * 2^e] *)
  naive_timestamp_ms : Z → bool * Z * Z
}.

(** ** Python's view of JSON values *)

(** [not v] *)
Definition falsy (v : json) : bool :=
  match v with
  | JNull => true
  | JBool b => negb b
  | JInt z => z =? 0
  | JFloat (Finite _ m _) => m =? 0
  | JFloat _ => false
  | JStr s => s ==? []
  | JList l => match l with [] => true | _ => false end
  | JDict d => match d with [] => true | _ => false end
  end.

(** Numbers (a [bool] is an [int]) as exact ratios. *)
Definition num_ratio (v : json) : option (Z * Z) :=
  match v with
  | JBool b => Some (if b then 1 else 0, 1)
  | JInt z => Some (z, 1)
  | JFloat (Finite neg m e) =>
      let '(n, d) := float_ratio m e in Some (if neg then - n else n, d)
  | _ => None
  end.

Definition num_eqb (a b : json) : bool :=
  match num_ratio a, num_ratio b with
  | Some (n, d), Some (n', d') => n * d' =? n' * d
  | _, _ => false
  end.

(** [a == b] *)
Fixpoint py_eq (a b : json) : bool :=
  match a, b with
  | JNull, JNull => true
  | JStr s, JStr t => s ==? t
  | JFloat (Infinite x), JFloat (Infinite y) => eqb x y
  | JList l, JList k =>
      (fix go (l k : list json) : bool :=
         match l, k with
         | [], [] => true
         | x :: l, y :: k => py_eq x y && go l k
         | _, _ => false
         end) l k
  | JDict d, JDict d' =>
      (len d =? len d')
      && forallb (λ kv, match member kv.1 d' with Some w => py_eq kv.2 w | None => false end) d
  | _, _ => num_eqb a b
  end.

(** [obj.get(name, dflt)] *)
Definition get (name : string) (dflt : json) (d : list (str * json)) : json :=
  default dflt (member (lit name) d).

(** [obj[name]] *)
Definition item (name : string) (d : list (str * json)) : res json :=
  match member (lit name) d with Some v => Ok v | None => Raise (KeyError (lit name)) end.

(** [name in obj] *)
Definition has (name : string) (d : list (str * json)) : bool :=
  match member (lit name) d with Some _ => true | None => false end.

Definition is_str (s : string) (v : json) : bool := py_eq v (JStr (lit s)).
Definition is_int (n : Z) (v : json) : bool := py_eq v (JInt n).

(** Lists and dicts cannot be dictionary keys or set members. *)
Definition hashable (v : json) : bool :=
  match v with JList _ | JDict _ => false | _ => true end.
Definition unhashable : exn := TypeError (lit "unhashable type").

(** ** [json.dumps(value, separators=(",", ":"), sort_keys=True)] *)
Definition hex4_text (u : Z) : str :=
  [92; 117; hex_digit (u / 4096); hex_digit (u / 256 mod 16); hex_digit (u / 16 mod 16); hex_digit (u mod 16)].

Definition ascii_escape (c : Z) : str :=
  if c <? 127 then escape_char c
  else concat (hex4_text <$> utf16_units c).
Definition dumps_ascii_str (s : str) : str := [34] ++ concat (ascii_escape <$> s) ++ [34].

Definition float_text (f : pyfloat) : str :=
  match f with
  | Finite neg m e => (if neg then [45] else []) ++ (if m =? 0 then lit "0.0" else repr_abs m e)
  | Infinite neg => if neg then lit "-Infinity" else lit "Infinity"
  | NaN => lit "NaN"
  end.

Fixpoint dumps_sorted (v : json) : res str :=
  match v with
  | JNull => Ok (lit "null")
  | JBool b => Ok (if b then lit "true" else lit "false")
  | JInt z =>
      raise_if (int_max_str_digits <? len (str_of_nonneg (Z.abs z)))
        (ValueError (lit "Exceeds the limit for integer string conversion")) ;;
      Ok (str_of_int z)
  | JFloat f => Ok (float_text f)
  | JStr s => Ok (dumps_ascii_str s)
  | JList l => parts ← mapM_res dumps_sorted l; Ok (bracket 91 93 parts)
  | JDict d =>
      parts ← mapM_res (λ m, t ← m.2; Ok (dumps_ascii_str m.1 ++ [58] ++ t))
                (sort_members (map (λ kv, (kv.1, dumps_sorted kv.2)) d));
      Ok (bracket 123 125 parts)
  end.

(** ** JWKs *)
Record JWK : Set := {
  jwk_kty : json;
  jwk_alg : json;
  jwk_kid : json;
  jwk_use : json;
  jwk_raw : list (str * json)
}.

Definition jwk_from_dict (v : json) : res JWK :=
  match v with
  | JDict d =>
      Ok {| jwk_kty := get "kty" (JStr []) d; jwk_alg := get "alg" (JStr []) d;
            jwk_kid := get "kid" (JStr []) d; jwk_use := get "use" (JStr []) d; jwk_raw := d |}
  | _ => Raise (AttributeError (lit "object has no attribute 'get'"))
  end.

(** [_THUMBPRINT_MEMBERS] *)
Definition thumbprint_members (kty : json) : option (list string) :=
  if is_str "EC" kty then Some ["crv"; "kty"; "x"; "y"]%string
  else if is_str "RSA" kty then Some ["e"; "kty"; "n"]%string
  else if is_str "OKP" kty then Some ["crv"; "kty"; "x"]%string
  else None.

Definition compute_thumbprint (raw : list (str * json)) : res str :=
  let kty := get "kty" (JStr []) raw in
  raise_if (negb (hashable kty)) unhashable ;;
  match thumbprint_members kty with
  | None => Raise (ValueError (lit "unsupported kty for thumbprint"))
  | Some members =>
      raise_if (existsb (λ k, negb (has k raw)) members)
        (ValueError (lit "JWK missing required thumbprint members")) ;;
      canonical ← mapM_res (λ k, v ← item k raw; Ok (lit k, v)) members;
      canonical_json ← dumps_sorted (JDict canonical);
      Ok (b64url_encode (sha256 canonical_json) false)
  end.

(** [JWK.thumbprint] *)
Definition thumbprint (k : JWK) : res str := compute_thumbprint (jwk_raw k).

Definition signature_alg_from_raw (raw : list (str * json)) : res str :=
  let kty := get "kty" (JStr []) raw in
  let crv := get "crv" (JStr []) raw in
  raise_if (negb (hashable kty) || negb (hashable crv)) unhashable ;;
  if is_str "OKP" kty && is_str "Ed25519" crv then Ok (lit "EdDSA")
  else if is_str "EC" kty && is_str "P-256" crv then Ok (lit "ES256")
  else Raise (ValueError (lit "unsupported kty/crv for DNSid signature algorithm")).

(** [JWK.signature_alg] *)
Definition signature_alg (k : JWK) : res str :=
  derived ← try_except (signature_alg_from_raw (jwk_raw k))
    (λ e, if is_value_error e then Raise (VerificationError RECORD_INVALID (exn_str e) false None)
          else Raise e);
  raise_if (negb (falsy (jwk_alg k)) && negb (py_eq (jwk_alg k) (JStr derived)))
    (VerificationError RECORD_INVALID (lit "JWK alg is inconsistent with kty/crv binding") false None) ;;
  Ok derived.

(** ** Signature verification *)

(** [int.from_bytes(b, "big")] and [int.from_bytes(b, "little")] *)
Definition from_bytes_big (b : bytes) : Z := foldl (λ a x, a * 256 + x) 0 b.
Definition from_bytes_little (b : bytes) : Z := from_bytes_big (rev b).

(** [b64url_decode] of a value that may not be a string. *)
Definition b64url_decode_value (v : json) : res bytes :=
  match v with
  | JStr s => b64url_decode s
  | _ => Raise (TypeError (lit "unsupported operand type"))
  end.

Definition ED25519_SMALL_ORDER : list bytes :=
  omap (λ h, match from_hex (lit h) with Ok b => Some b | Raise _ => None end)
  ["0100000000000000000000000000000000000000000000000000000000000000";
   "0100000000000000000000000000000000000000000000000000000000000080";
   "ecffffffffffffffffffffffffffffffffffffffffffffffffffffffffffff7f";
   "ecffffffffffffffffffffffffffffffffffffffffffffffffffffffffffffff";
   "0000000000000000000000000000000000000000000000000000000000000000";
   "0000000000000000000000000000000000000000000000000000000000000080";
   "26e8958fc2b227b045c3f489f2ef98f0d5dfac05d3c63339b13802886d53fc05";
   "26e8958fc2b227b045c3f489f2ef98f0d5dfac05d3c63339b13802886d53fc85";
   "c7176a703d4dd84fba3c0b760d10670f2a2053fa2c39ccc64ec7fd7792ac037a";
   "c7176a703d4dd84fba3c0b760d10670f2a2053fa2c39ccc64ec7fd7792ac03fa"]%string.

Definition valid_ed25519_public_key (x : bytes) : bool :=
  let y := Z.land (from_bytes_little x) (Z.shiftl 1 255 - 1) in
  (len x =? 32) && (y <? 2 ^ 255 - 19) && negb (existsb (eqb x) ED25519_SMALL_ORDER).

Section verification.
Context `{Platform}.

Definition verify_ec (raw : list (str * json)) (alg : json) (payload sig : bytes) : res bool :=
  let crv := get "crv" (JStr []) raw in
  raise_if (negb (hashable crv)) unhashable ;;
  raise_if (negb (is_str "P-256" crv)) (ValueError (lit "unsupported EC curve")) ;;
  raise_if (negb (is_str "ES256" alg)) (ValueError (lit "unsupported EC alg")) ;;
  x ← item "x" raw; raw_x ← b64url_decode_value x;
  y ← item "y" raw; raw_y ← b64url_decode_value y;
  if negb (len raw_x =? 32) || negb (len raw_y =? 32) || negb (len sig =? 64) then Ok false
  else Ok (ecdsa_p256_verify (from_bytes_big raw_x) (from_bytes_big raw_y)
             (from_bytes_big (take 32 sig)) (from_bytes_big (drop 32 sig)) payload).

Definition verify_okp (raw : list (str * json)) (payload sig : bytes) : res bool :=
  raise_if (negb (is_str "Ed25519" (get "crv" (JStr []) raw))) (ValueError (lit "unsupported OKP curve")) ;;
  v ← item "x" raw;
  x ← b64url_decode_value v;
  if negb (valid_ed25519_public_key x) then Ok false
  else Ok (ed25519_verify x sig payload).

Definition verify_rsa (raw : list (str * json)) (alg : json) (payload sig : bytes) : res bool :=
  raise_if (negb (is_str "RS256" alg)) (ValueError (lit "unsupported RSA alg")) ;;
  n ← item "n" raw; n ← b64url_decode_value n;
  e ← item "e" raw; e ← b64url_decode_value e;
  Ok (rsa_pkcs1_verify (from_bytes_big n) (from_bytes_big e) sig payload).

(** The code after the algorithm is settled. *)
Definition verify_with_alg (raw : list (str * json)) (alg : json) (payload sig : bytes) : res bool :=
  let kty := get "kty" (JStr []) raw in
  raise_if (negb (hashable alg)) unhashable ;;
  if negb (is_str "EdDSA" alg || is_str "ES256" alg || is_str "RS256" alg) then Ok false
  else
    try_except
      (if is_str "EC" kty then verify_ec raw alg payload sig
       else if is_str "OKP" kty then verify_okp raw payload sig
       else if is_str "RSA" kty then verify_rsa raw alg payload sig
       else Ok false)
      (λ _, Ok false).

Definition verify_signature (raw : list (str * json)) (payload sig : bytes) : res bool :=
  let alg := get "alg" (JStr []) raw in
  if falsy alg then
    match signature_alg_from_raw raw with
    | Ok a => verify_with_alg raw (JStr a) payload sig
    | Raise e => if is_value_error e then Ok false else Raise e
    end
  else verify_with_alg raw alg payload sig.

(** [JWK.verify] *)
Definition jwk_verify (k : JWK) (payload sig : bytes) : res bool :=
  verify_signature (jwk_raw k) payload sig.
End verification.

(** ** Lemmas *)
Lemma num_eqb_str v s : num_eqb v (JStr s) = false.
Proof. unfold num_eqb. by destruct (num_ratio v) as [[]|]. Qed.

Lemma py_eq_str v s : py_eq v (JStr s) = true ↔ v = JStr s.
Proof.
  split; [|intros ->; apply eqb_refl].
  destruct v as [|b|z|[]|t|l|d]; cbn [py_eq]; rewrite ?num_eqb_str; try done.
  rewrite eqb_true. by intros ->.
Qed.

Lemma py_eq_str_l s v : py_eq (JStr s) v = true ↔ v = JStr s.
Proof.
  split; [|intros ->; apply eqb_refl]. destruct v; cbn; try done. rewrite eqb_true. by intros ->.
Qed.

Lemma is_str_true s v : is_str s v = true ↔ v = JStr (lit s).
Proof. apply py_eq_str. Qed.

Lemma ed25519_small_order_rejected :
  length ED25519_SMALL_ORDER = 10%nat ∧ Forall (λ k, valid_ed25519_public_key k = false) ED25519_SMALL_ORDER.
Proof. by_decide. Qed.
