(* ===== verification/TrustProfile.v ===== *)
(** * Trust profiles ([c2sp_tlog/trust_profile.py])

    The document that binds a checkpoint policy and the bundle signers to one
    log. *)
From S2P Require Import Prelude Sha256 Errors PyText Merkle SignedNote Policy PolicySpec Lr Canonical Keys.

Record C2spTlogTrustProfile : Set := {
  tp_version : Z;
  tp_scope : str;
  tp_log_prefix : str;
  tp_policy_document : bytes;
  tp_bundle_verifier_keys : list SignedNoteKey
}.

Definition PROFILE_MEMBERS : list string :=
  ["version"; "scope"; "log_prefix"; "tlog_policy"; "bundle_verifier_keys"]%string.

Definition bundle_key_error : exn := perr "invalid c2sp-tlog bundle verifier key".

(** [_validate_bundle_key] *)
Definition validate_bundle_key (key : SignedNoteKey) (required_name : option str) : res bytes :=
  raise_if ((key_name key ==? [])
            || match required_name with Some n => negb (key_name key ==? n) | None => false end
            || negb (key_kind key ==? lit "ed25519") || negb (len (key_bytes key) =? 32)) bundle_key_error ;;
  match key_id key, signature_type key with
  | Some kid, Some ty =>
      raise_if (negb (len kid =? 4) || negb (ty ==? [1])) bundle_key_error ;;
      name ← utf8_encode (key_name key);
      raise_if (negb (kid ==? take 4 (sha256 (name ++ [10] ++ ty ++ key_bytes key))))
        (perr "invalid c2sp-tlog bundle verifier key hash") ;;
      Ok kid
  | _, _ => Raise bundle_key_error
  end.

(** The loop of [validate_c2sp_bundle_verifier_keys], with the identities and
    public keys of the keys before. *)
Fixpoint validate_keys_loop (required_name : option str) (checkpoint_public_keys : list bytes)
    (key_ids : list (str * bytes)) (public_keys : list bytes) (keys : list SignedNoteKey) : res unit :=
  match keys with
  | [] => Ok ()
  | key :: keys =>
      kid ← validate_bundle_key key required_name;
      let identity := (key_name key, kid) in
      raise_if (bool_decide (identity ∈ key_ids) || bool_decide (key_bytes key ∈ public_keys))
        (perr "c2sp-tlog bundle verifier keys must have distinct public keys and key IDs") ;;
      raise_if (bool_decide (key_bytes key ∈ checkpoint_public_keys))
        (perr "c2sp-tlog bundle signer must be independent of checkpoint policy keys") ;;
      validate_keys_loop required_name checkpoint_public_keys (identity :: key_ids) (key_bytes key :: public_keys) keys
  end.

Definition validate_c2sp_bundle_verifier_keys (keys checkpoint_keys : list SignedNoteKey) (required_name : option str) : res unit :=
  validate_keys_loop required_name (key_bytes <$> checkpoint_keys) [] [] keys.

Definition BUNDLE_SIGNER : str := lit "dnsid-stream-bundle".

Section profiles.
Context (netloc_ok : str → bool) (str_lower : str → str).

(** [f"c2sp-tlog:{scope}:{log_prefix}#trust-profile"] *)
Definition profile_lr (scope log_prefix : str) : str :=
  lit "c2sp-tlog:" ++ scope ++ lit ":" ++ log_prefix ++ lit "#trust-profile".

Definition validate_c2sp_tlog_trust_profile (profile : C2spTlogTrustProfile) : res unit :=
  raise_if (negb (tp_version profile =? 1) || (tp_bundle_verifier_keys profile ==? [])) (perr "invalid c2sp-tlog trust profile") ;;
  reference ← parse_c2sp_tlog_lr netloc_ok str_lower (profile_lr (tp_scope profile) (tp_log_prefix profile));
  text ← try_except (utf8_decode (tp_policy_document profile))
           (λ _, Raise (perr "c2sp-tlog trust profile policy is not UTF-8"));
  policy ← parse_c2sp_policy_file text;
  checkpoint ← normalized_origin_policy policy (lr_origin reference);
  validate_c2sp_bundle_verifier_keys (tp_bundle_verifier_keys profile)
    (n_log_keys checkpoint ++ n_witness_keys checkpoint) (Some BUNDLE_SIGNER).

(** A string of the list [bundle_verifier_keys]. *)
Definition key_string (v : json) : option str :=
  match v with
  | JStr s => if (s ==? []) || negb (s ==? strip is_space s) then None else Some s
  | _ => None
  end.

Definition parse_c2sp_tlog_trust_profile (data : bytes) : res C2spTlogTrustProfile :=
  value ← parse_json_no_duplicate_members data;
  match value with
  | JDict d =>
      raise_if (negb (forallb (λ kv, existsb (λ m, kv.1 ==? lit m) PROFILE_MEMBERS) d)
                || negb (forallb (λ m, has m d) PROFILE_MEMBERS))
        (perr "c2sp-tlog trust profile has unsupported or missing members") ;;
      match get "version" JNull d, get "scope" JNull d, get "log_prefix" JNull d, get "tlog_policy" JNull d,
            get "bundle_verifier_keys" JNull d with
      | JInt version, JStr scope, JStr log_prefix, JStr tlog_policy, JList key_values =>
          raise_if (negb (version =? 1)) (perr "invalid c2sp-tlog trust profile") ;;
          reference ← parse_c2sp_tlog_lr netloc_ok str_lower (profile_lr scope log_prefix);
          policy_document ← try_except (utf8_encode tlog_policy)
            (λ _, Raise (perr "c2sp-tlog trust profile policy is not UTF-8"));
          raise_if ((match key_values with [] => true | _ => false end)
                    || existsb (λ v, bool_decide (key_string v = None)) key_values)
            (perr "c2sp-tlog trust profile requires bundle verifier keys") ;;
          let key_strings := omap key_string key_values in
          raise_if (bool_decide (¬ NoDup key_strings))
            (perr "c2sp-tlog trust profile bundle verifier keys must be distinct") ;;
          keys ← mapM_res parse_signed_note_verifier_key key_strings;
          validate_c2sp_bundle_verifier_keys keys [] (Some BUNDLE_SIGNER) ;;
          let profile := {| tp_version := 1; tp_scope := lr_scope reference; tp_log_prefix := lr_log_prefix reference;
                            tp_policy_document := policy_document; tp_bundle_verifier_keys := keys |} in
          validate_c2sp_tlog_trust_profile profile ;;
          Ok profile
      | _, _, _, _, _ => Raise (perr "invalid c2sp-tlog trust profile")
      end
  | _ => Raise (perr "c2sp-tlog trust profile has unsupported or missing members")
  end.
End profiles.

(** ** Properties *)

(** A bundle signer key that is what it claims to be. *)
Definition genuine_signer (name : str) (key : SignedNoteKey) : Prop :=
  key_name key = name ∧ key_kind key = lit "ed25519" ∧ len (key_bytes key) = 32 ∧ signature_type key = Some [1]
  ∧ ∃ b, utf8_encode (key_name key) = Ok b ∧ key_id key = Some (take 4 (sha256 (b ++ [10] ++ [1] ++ key_bytes key))).

Lemma validate_bundle_key_ok key name kid : validate_bundle_key key (Some name) = Ok kid →
  genuine_signer name key ∧ key_id key = Some kid.
Proof.
  unfold validate_bundle_key, genuine_signer. intros Hx. guard_step Hx as H1. destruct (key_id key) as [k|]; [|done].
  destruct (signature_type key) as [ty|]; [|done]. guard_step Hx as H2. bind_step Hx as b Hb. guard_step Hx as H3. injection Hx as ->.
  rewrite !orb_false_iff, !negb_false_iff, !eqb_true, ?Z.eqb_eq in *. destruct H1 as (((H1 & H1b) & H1c) & H1d).
  destruct H2 as [H2 ->]. subst kid. split_and!; [done..| |done]. by exists b.
Qed.

Lemma validate_keys_loop_ok name cks ids pks keys : validate_keys_loop (Some name) cks ids pks keys = Ok () →
  Forall (genuine_signer name) keys ∧ NoDup (key_bytes <$> keys)
  ∧ Forall (λ k, key_bytes k ∉ cks ∧ key_bytes k ∉ pks) keys.
Proof.
  revert ids pks. induction keys as [|key keys IH]; intros ids pks Hx; cbn [validate_keys_loop] in Hx.
  - split_and!; constructor.
  - bind_step Hx as kid Hk. guard_step Hx as H1. guard_step Hx as H2. apply validate_bundle_key_ok in Hk as [Hg _].
    rewrite orb_false_iff, !bool_decide_eq_false in H1. rewrite bool_decide_eq_false in H2. destruct H1 as [_ H1].
    apply IH in Hx as (Hall & Hnd & Hf). split_and!.
    + by constructor.
    + rewrite fmap_cons. constructor; [|done]. intros (k & Heq & Hin)%list_elem_of_fmap. rewrite Forall_forall in Hf.
      destruct (Hf k Hin) as [_ Hnot]. apply Hnot. rewrite Heq. by left.
    + constructor; [done|]. eapply Forall_impl; [exact Hf|]. intros k [H3 H4]. split; [done|].
      intros Hin. apply H4. by right.
Qed.

(** The bundle signers of an accepted trust profile are independent of the
    checkpoint policy it carries: the profile names an existing log, its policy
    document decodes to a policy with keys for that log's origin, its signer keys
    exist, have the signer's name and the key ID of their own name and key, are
    pairwise different keys, and none of them is a log or witness key. *)
Theorem trust_profile_independent (netloc_ok : str → bool) (str_lower : str → str) (data : bytes) (p : C2spTlogTrustProfile)
    (Hparse : parse_c2sp_tlog_trust_profile netloc_ok str_lower data = Ok p) :
  ∃ reference text policy checkpoint,
    parse_c2sp_tlog_lr netloc_ok str_lower (profile_lr (tp_scope p) (tp_log_prefix p)) = Ok reference
    ∧ utf8_decode (tp_policy_document p) = Ok text ∧ parse_c2sp_policy_file text = Ok policy
    ∧ normalized_origin_policy policy (lr_origin reference) = Ok checkpoint
    ∧ tp_bundle_verifier_keys p ≠ [] ∧ Forall (genuine_signer BUNDLE_SIGNER) (tp_bundle_verifier_keys p)
    ∧ NoDup (key_bytes <$> tp_bundle_verifier_keys p)
    ∧ Forall (λ k, key_bytes k ∉ (key_bytes <$> (n_log_keys checkpoint ++ n_witness_keys checkpoint))) (tp_bundle_verifier_keys p).
Proof.
  unfold parse_c2sp_tlog_trust_profile in Hparse. bind_step Hparse as value Hv. destruct value as [| | | | | |d]; try done.
  guard_step Hparse as Hm. destruct (get "version" JNull d) as [| |version| | | |]; try done.
  destruct (get "scope" JNull d) as [| | | |scope| |]; try done. destruct (get "log_prefix" JNull d) as [| | | |log_prefix| |]; try done.
  destruct (get "tlog_policy" JNull d) as [| | | |tlog_policy| |]; try done.
  destruct (get "bundle_verifier_keys" JNull d) as [| | | | |key_values|]; try done. guard_step Hparse as Hver. bind_step Hparse as r Hr.
  bind_step Hparse as doc Hdoc. guard_step Hparse as Hstr. guard_step Hparse as Hdup. bind_step Hparse as keys Hk.
  bind_step Hparse as [] Hvk. bind_step Hparse as [] Hval. injection Hparse as <-. unfold validate_c2sp_tlog_trust_profile in Hval.
  cbn [tp_version tp_scope tp_log_prefix tp_policy_document tp_bundle_verifier_keys] in *.
  guard_step Hval as Hne. bind_step Hval as reference Href. bind_step Hval as text Htext. bind_step Hval as policy Hpol.
  bind_step Hval as checkpoint Hcp. exists reference, text, policy, checkpoint.
  destruct (utf8_decode doc) as [t|]; [|done]. injection Htext as ->.
  apply validate_keys_loop_ok in Hval as (Hg & Hnd & Hf). split_and!; [done..| |done|done|].
  - intros ->. done.
  - eapply Forall_impl; [exact Hf|]. by intros k [? _].
Qed.

(** ** A profile *)
Definition demo_signer : SignedNoteKey :=
  let key := replicate 32 9 in
  {| key_name := BUNDLE_SIGNER; key_bytes := key; key_kind := lit "ed25519";
     key_id := Some (take 4 (sha256 (BUNDLE_SIGNER ++ [10] ++ [1] ++ key))); signature_type := Some [1] |}.

Definition demo_profile : bytes :=
  match canonical_bytes (JDict
    [(lit "version", JInt 1); (lit "scope", JStr (lit "public")); (lit "log_prefix", JStr (lit "https://log.example"));
     (lit "tlog_policy", JStr (demo_policy_text (lit "2"))); (lit "bundle_verifier_keys", JList [JStr (demo_vkey demo_signer)])])
  with Ok b => b | Raise _ => [] end.

Lemma trust_profile_independent_witness : NoDup (key_bytes <$> [demo_signer]).
Proof.
  destruct (parse_c2sp_tlog_trust_profile (λ _, true) (λ s, s) demo_profile) as [p|e] eqn:Hp; [|vm_compute in Hp; discriminate].
  destruct (trust_profile_independent (λ _, true) (λ s, s) demo_profile p Hp) as (r & t & po & c & _ & _ & _ & _ & _ & _ & Hnd & _).
  vm_compute in Hp. apply Ok_inj in Hp. subst p. exact Hnd.
Defined.
