(* ===== verification/EventCodec.v ===== *)
(** * Lifecycle events and their envelopes ([c2sp_tlog/event_codec.py])

    The events of [dnsid/models.py], the JSON envelopes they are stored in,
    the bytes that signatures cover, and the logical identity of an entry.
    [_assert_public_chain_shape] of [prepared.py] is here because the codec
    calls it. *)
From S2P Require Import Prelude Sha256 Errors PyText Base64 Utils Lr PyFloat PyTime Canonical Keys.

(** ** Events *)
Inductive event_body : Set :=
| IssuanceEvent (governance_id : str) (entity_key operational_key : option JWK)
| KeyRotationEvent (previous_kid previous_thumbprint : str) (previous_public_key : option JWK)
    (new_kid : json) (new_thumbprint : str) (new_public_key : option JWK)
    (new_operational_proof : str)
| RevocationEvent (reason : str)
| RetirementEvent
| MigrationEvent (previous_log new_log final_entry_ref : str)
| DelegationEvent (delegatee scope : str) (expiry : datetime).

(** [LogEvent]: the common fields, with the class-specific ones as a body. *)
Record LogEvent : Set := {
  ev_domain : str;
  ev_timestamp : datetime;
  ev_signing_kid : str;
  ev_sig : str;
  ev_operational_countersig : str;
  ev_body : event_body
}.

Definition event_type (b : event_body) : string :=
  match b with
  | IssuanceEvent _ _ _ => "ISSUANCE"
  | KeyRotationEvent _ _ _ _ _ _ _ => "KEY_ROTATION"
  | RevocationEvent _ => "REVOCATION"
  | RetirementEvent => "RETIREMENT"
  | MigrationEvent _ _ _ => "MIGRATION"
  | DelegationEvent _ _ _ => "DELEGATION"
  end.

Record C2spEventContext : Set := {
  ctx_scope : option str;
  ctx_log_origin : option str;
  ctx_stream_id : option str;
  ctx_lr : option str;
  ctx_seq : option Z;
  ctx_prev_event_id : option str;
  ctx_prev_state_hash : option str
}.

Definition empty_context : C2spEventContext :=
  {| ctx_scope := None; ctx_log_origin := None; ctx_stream_id := None; ctx_lr := None;
     ctx_seq := None; ctx_prev_event_id := None; ctx_prev_state_hash := None |}.

Record C2spSignatureValue : Set := { sv_kid : str; sv_sig : str }.

(** ** Field checks *)
Definition as_str (value : json) (name : string) : res str :=
  match value with
  | JStr (c :: s) => Ok (c :: s)
  | _ => Raise (perr ("missing " +:+ name))
  end.

Definition as_safe_int (value : json) (name : string) : res Z :=
  match value with
  | JInt z =>
      raise_if ((z <? 0) || (MAX_SAFE_INT <? z)) (perr (name +:+ " outside safe integer range")) ;; Ok z
  | _ => Raise (perr (name +:+ " outside safe integer range"))
  end.

Definition as_jwk (value : json) (name : string) : res JWK :=
  match value with
  | JDict d =>
      as_str (get "kty" JNull d) (name +:+ ".kty") ;;
      as_str (get "kid" JNull d) (name +:+ ".kid") ;;
      as_str (get "alg" JNull d) (name +:+ ".alg") ;;
      jwk_from_dict value
  | _ => Raise (perr ("missing " +:+ name))
  end.

Definition is_revocation_reason (s : str) : bool :=
  existsb (eqb s)
    [lit "keyCompromise"; lit "policyViolation"; lit "superseded"; lit "cessationOfOperation"].

Definition as_revocation_reason (value : json) : res str :=
  match value with
  | JStr s => raise_if (negb (is_revocation_reason s)) (perr "invalid REVOCATION reason") ;; Ok s
  | _ => Raise (perr "invalid REVOCATION reason")
  end.

Definition MAX_ENTRY_BYTES : Z := 0xFFFF.

Definition assert_entry_size (data : bytes) : res unit :=
  raise_if ((len data =? 0) || (MAX_ENTRY_BYTES <? len data))
    (perr "C2SP entry must be between 1 and 65535 bytes").

Definition date_from_seconds (seconds : Z) (name : string) : res datetime :=
  try_except (fromtimestamp_utc seconds) (λ _, Raise (perr (name +:+ " outside date range"))).

Definition epoch_seconds (ts : datetime) (name : string) : res Z :=
  match dt_utcoffset ts with
  | None => Raise (perr (name +:+ " must be timezone-aware"))
  | Some offset =>
      let '(neg, m, e) := timestamp_ms (dt_wall ts) offset in
      let i := int_of_finite neg m e in
      let integral := if e <? 0 then m mod 2 ^ (- e) =? 0 else true in
      raise_if ((neg && negb (m =? 0)) || negb integral || negb (i mod 1000 =? 0))
        (perr (name +:+ " must have whole-second precision")) ;;
      Ok (i / 1000)
  end.

(** ** Signature objects *)
Definition SUPPORTED : list string :=
  ["ISSUANCE"; "KEY_ROTATION"; "REVOCATION"; "RETIREMENT"; "MIGRATION"; "DELEGATION"]%string.
Definition is_supported (type_ : json) : bool := existsb (λ t, is_str t type_) SUPPORTED.

Definition required_c2sp_signature_names (type_ : json) : res (list string) :=
  if is_str "ISSUANCE" type_ then Ok ["ae"; "op"]%string
  else if is_str "KEY_ROTATION" type_ then Ok ["prev_op"; "new_op"]%string
  else
    raise_if (negb (hashable type_)) unhashable ;;
    if is_supported type_ then Ok ["ae"]%string
    else Raise (perr "unsupported DNSid lifecycle event type").

Definition parse_signature_value (value : json) (name : string) : res C2spSignatureValue :=
  match value with
  | JDict d =>
      raise_if (existsb (λ kv, negb ((kv.1 ==? lit "kid") || (kv.1 ==? lit "sig"))) d)
        (perr (name +:+ " contains an unknown member")) ;;
      kid ← as_str (get "kid" JNull d) (name +:+ ".kid");
      sig ← as_str (get "sig" JNull d) (name +:+ ".sig");
      raise_if (negb (b64url_strict_re sig)) (perr (name +:+ ".sig must be unpadded base64url")) ;;
      try_except
        (decoded ← b64url_decode_strict sig;
         raise_if (negb (b64url_encode decoded false ==? sig)) (ValueError (lit "noncanonical signature")))
        (λ e, if is_value_error e then Raise (perr (name +:+ ".sig must be canonical base64url"))
              else Raise e) ;;
      Ok {| sv_kid := kid; sv_sig := sig |}
  | _ => Raise (perr (name +:+ " must be an object"))
  end.

(** The loop over the allowed roles. *)
Fixpoint parse_roles (d : list (str * json)) (require_complete : bool) (allowed : list string)
    : res (list (string * C2spSignatureValue)) :=
  match allowed with
  | [] => Ok []
  | key :: allowed =>
      match get key JNull d with
      | JNull =>
          if require_complete then Raise (perr ("missing sigs." +:+ key))
          else parse_roles d require_complete allowed
      | raw =>
          v ← parse_signature_value raw ("sigs." +:+ key);
          rest ← parse_roles d require_complete allowed;
          Ok ((key, v) :: rest)
      end
  end.

Definition parse_c2sp_signatures (value : json) (type_ : json) (require_complete : bool)
    : res (list (string * C2spSignatureValue)) :=
  match value, require_complete with
  | JNull, false => Ok []
  | JDict d, _ =>
      allowed ← required_c2sp_signature_names type_;
      raise_if (existsb (λ kv, negb (existsb (λ k, kv.1 ==? lit k) allowed)) d)
        (perr "unexpected signature role") ;;
      parse_roles d require_complete allowed
  | _, _ => Raise (perr "C2SP event missing sigs object")
  end.

(** [sigs[name]] *)
Fixpoint sig_of (name : string) (sigs : list (string * C2spSignatureValue)) : option C2spSignatureValue :=
  match sigs with
  | [] => None
  | (k, v) :: sigs => if String.eqb k name then Some v else sig_of name sigs
  end.
Definition sig_item (name : string) (sigs : list (string * C2spSignatureValue)) : res C2spSignatureValue :=
  match sig_of name sigs with Some v => Ok v | None => Raise (KeyError (lit name)) end.

(** ** Chain fields *)
Record chain_fields : Set := {
  ch_seq : option Z;
  ch_prev_event_id : option str;
  ch_prev_state_hash : option str
}.

Definition empty_chain : chain_fields :=
  {| ch_seq := None; ch_prev_event_id := None; ch_prev_state_hash := None |}.

Definition parse_chain_hash (name : string) (d : list (str * json)) : res (option str) :=
  match member (lit name) d with
  | None => Ok None
  | Some v =>
      value ← as_str v name;
      decoded ← b64url_decode_strict value;
      raise_if (negb (len decoded =? 32) || negb (b64url_encode decoded false ==? value))
        (perr (name +:+ " must be a canonical 32-byte hash")) ;;
      Ok (Some value)
  end.

Definition parse_chain_fields (obj : json) : res chain_fields :=
  match obj with
  | JDict d =>
      seq ← match member (lit "seq") d with
            | None => Ok None
            | Some v => n ← as_safe_int v "seq"; Ok (Some n)
            end;
      raise_if (has "event_id" d || has "prev_index" d || has "prev_leaf_hash" d)
        (perr "prohibited logical-chain field") ;;
      prev_event_id ← parse_chain_hash "prev_event_id" d;
      prev_state_hash ← parse_chain_hash "prev_state_hash" d;
      Ok {| ch_seq := seq; ch_prev_event_id := prev_event_id; ch_prev_state_hash := prev_state_hash |}
  | _ => Raise (perr "C2SP event entry must be an object")
  end.

(** A member that must be a non-empty string. *)
Definition require_text (name : string) (d : list (str * json)) : res unit :=
  match get name JNull d with
  | JStr (_ :: _) => Ok ()
  | _ => Raise (perr ("public C2SP event missing " +:+ name))
  end.

Definition assert_public_chain_shape (d : list (str * json)) : res unit :=
  match get "seq" JNull d with
  | JInt seq =>
      raise_if (seq <? 0) (perr "public C2SP event has invalid seq") ;;
      parse_chain_fields (JDict d) ;;
      if seq =? 0 then
        raise_if (has "prev_event_id" d || has "prev_state_hash" d)
          (perr "public seq=0 event must not contain previous-chain fields")
      else
        require_text "prev_event_id" d ;; require_text "prev_state_hash" d
  | _ => Raise (perr "public C2SP event has invalid seq")
  end.

(** Truth of an optional string, and [x is not None and v != x]. *)
Definition truthy (o : option str) : bool :=
  match o with Some (_ :: _) => true | _ => false end.
Definition pinned_other (o : option str) (v : json) : bool :=
  match o with Some s => negb (py_eq v (JStr s)) | None => false end.

Section codec.
Context `{Platform}.

(** One round of the loop over the signed context members. *)
Definition check_member (expected : option str) (name : string) (d : list (str * json)) : res unit :=
  match get name JNull d with
  | JStr (c :: s) =>
      raise_if (pinned_other expected (JStr (c :: s))) (perr ("public C2SP event mismatch: " +:+ name))
  | _ => Raise (perr ("public C2SP event missing signed " +:+ name))
  end.

Definition validate_public_fields (obj : json) (context : C2spEventContext) : res unit :=
  match obj with
  | JDict d =>
      match get "v" JNull d with
      | JInt v => raise_if (negb (v =? 1)) (perr "unsupported C2SP envelope version")
      | _ => Raise (perr "unsupported C2SP envelope version")
      end ;;
      name ← as_str (get "fqdn" JNull d) "fqdn";
      fqdn ← normalize_fqdn idna_encode name true;
      raise_if (negb (fqdn ==? name) || py_eq (get "stream_id" JNull d) (JStr fqdn))
        (perr "C2SP requires normalized FQDN and identity-instance stream ID, not the bare FQDN") ;;
      lr ← as_str (get "lr" JNull d) "lr";
      reference ← parse_c2sp_tlog_lr netloc_ok str_lower lr;
      raise_if (bool_decide (is_Some (lr_entry_index reference)) || negb (lr_lr reference ==? lr)
                || pinned_other (ctx_scope context) (JStr (lr_scope reference))
                || negb (py_eq (get "log_origin" JNull d) (JStr (lr_origin reference)))
                || negb (py_eq (get "stream_id" JNull d) (JStr (lr_stream_id reference))))
        (perr "C2SP signed context mismatch") ;;
      check_member (Some (lit "c2sp-tlog")) "method" d ;;
      check_member (ctx_log_origin context) "log_origin" d ;;
      check_member (ctx_stream_id context) "stream_id" d ;;
      check_member (ctx_lr context) "lr" d
  | _ => Raise (perr "C2SP event entry must be an object")
  end.

(** ** From events to envelopes *)
Definition require_issuance_keys (entity_key operational_key : option JWK) : res (JWK * JWK) :=
  match entity_key, operational_key with
  | Some ek, Some ku =>
      raise_if (falsy (jwk_kid ek) || falsy (jwk_kid ku))
        (perr "ISSUANCE is missing c2sp-tlog key metadata") ;;
      Ok (ek, ku)
  | _, _ => Raise (perr "ISSUANCE is missing c2sp-tlog key metadata")
  end.

(** [a or b] on strings, as a JSON value. *)
Definition or_kid (a : str) (b : json) : json := if a ==? [] then b else JStr a.
Definition sig_object (kid : json) (sig : str) : json :=
  JDict [(lit "kid", kid); (lit "sig", JStr sig)].

Definition signatures_from_event (event : LogEvent) : res (list (str * json)) :=
  let primary name kid :=
    if ev_sig event ==? [] then []
    else [(lit name, sig_object (or_kid (ev_signing_kid event) kid) (ev_sig event))] in
  match ev_body event with
  | IssuanceEvent _ ek ku =>
      '(ek, ku) ← require_issuance_keys ek ku;
      Ok (primary "ae" (jwk_kid ek)
          ++ (if ev_operational_countersig event ==? [] then []
              else [(lit "op", sig_object (jwk_kid ku) (ev_operational_countersig event))]))
  | KeyRotationEvent previous_kid _ _ new_kid _ _ proof =>
      Ok (primary "prev_op" (JStr previous_kid)
          ++ (if proof ==? [] then [] else [(lit "new_op", sig_object new_kid proof)]))
  | _ => Ok (primary "ae" (JStr []))
  end.

(** The members that depend on the class of the event. *)
Definition body_members (b : event_body) : res (list (str * json)) :=
  match b with
  | IssuanceEvent gi ek ku =>
      '(ek, ku) ← require_issuance_keys ek ku;
      Ok [(lit "gi", JStr gi); (lit "ek", JDict (jwk_raw ek)); (lit "ku", JDict (jwk_raw ku))]
  | KeyRotationEvent _ previous_thumbprint _ _ new_thumbprint new_public_key _ =>
      match new_public_key with
      | None => Raise (perr "KEY_ROTATION is missing new_public_key")
      | Some k => Ok [(lit "prev_thumb", JStr previous_thumbprint); (lit "new_ku", JDict (jwk_raw k));
                      (lit "new_thumb", JStr new_thumbprint)]
      end
  | RevocationEvent reason => Ok [(lit "reason", JStr reason)]
  | RetirementEvent => Ok []
  | MigrationEvent previous_log new_log final_entry_ref =>
      Ok [(lit "prev_lr", JStr previous_log); (lit "new_lr", JStr new_log);
          (lit "prev_ref", JStr final_entry_ref)]
  | DelegationEvent delegatee scope expiry =>
      t ← epoch_seconds expiry "expiry";
      Ok [(lit "delegatee", JStr delegatee); (lit "scope", JStr scope); (lit "expiry", JInt t)]
  end.

Definition text_member (name : string) (o : option str) : list (str * json) :=
  match o with Some s => [(lit name, JStr s)] | None => [] end.

(** The members that depend on the context. *)
Definition context_members (ctx : C2spEventContext) : list (str * json) :=
  (if bool_decide (ctx_scope ctx = Some (lit "public")) || truthy (ctx_log_origin ctx)
      || truthy (ctx_stream_id ctx) || truthy (ctx_lr ctx)
   then (lit "method", JStr (lit "c2sp-tlog"))
        :: (if truthy (ctx_log_origin ctx) then text_member "log_origin" (ctx_log_origin ctx) else [])
        ++ (if truthy (ctx_stream_id ctx) then text_member "stream_id" (ctx_stream_id ctx) else [])
        ++ (if truthy (ctx_lr ctx) then text_member "lr" (ctx_lr ctx) else [])
   else [])
  ++ (match ctx_seq ctx with Some n => [(lit "seq", JInt n)] | None => [] end)
  ++ text_member "prev_event_id" (ctx_prev_event_id ctx)
  ++ (if truthy (ctx_prev_state_hash ctx) then text_member "prev_state_hash" (ctx_prev_state_hash ctx)
      else []).

(** The member names are pairwise distinct, so the assignments append. *)
Definition event_to_c2sp_envelope (event : LogEvent) (ctx : C2spEventContext) (include_sigs : bool)
    : res (list (str * json)) :=
  ts ← epoch_seconds (ev_timestamp event) "timestamp";
  body ← body_members (ev_body event);
  let obj := [(lit "v", JInt 1); (lit "kind", JStr (lit "dnsid.lifecycle"));
              (lit "type", JStr (lit (event_type (ev_body event)))); (lit "fqdn", JStr (ev_domain event));
              (lit "ts", JInt ts)] ++ body ++ context_members ctx in
  validate_public_fields (JDict obj) ctx ;;
  if include_sigs then
    sigs ← signatures_from_event event;
    Ok (match sigs with [] => obj | _ => obj ++ [(lit "sigs", JDict sigs)] end)
  else Ok obj.

(** ** From envelopes to events *)
Definition c2sp_envelope_to_event (obj : json) : res LogEvent :=
  match obj with
  | JDict e =>
      raise_if (negb (is_int 1 (get "v" JNull e)) || negb (is_str "dnsid.lifecycle" (get "kind" JNull e)))
        (perr "unsupported C2SP event envelope") ;;
      raise_if (has "method" e && negb (is_str "c2sp-tlog" (get "method" JNull e)))
        (perr "C2SP event method mismatch") ;;
      type_ ← as_str (get "type" JNull e) "type";
      raise_if (negb (is_supported (JStr type_))) (perr "unsupported DNSid lifecycle event type") ;;
      seconds ← as_safe_int (get "ts" JNull e) "ts";
      timestamp ← date_from_seconds seconds "ts";
      domain ← as_str (get "fqdn" JNull e) "fqdn";
      sigs ← parse_c2sp_signatures (get "sigs" JNull e) (JStr type_) true;
      let event kid sig countersig body :=
        {| ev_domain := domain; ev_timestamp := timestamp; ev_signing_kid := kid; ev_sig := sig;
           ev_operational_countersig := countersig; ev_body := body |} in
      if type_ ==? lit "ISSUANCE" then
        entity_key ← as_jwk (get "ek" JNull e) "ek";
        operational_key ← as_jwk (get "ku" JNull e) "ku";
        ae ← sig_item "ae" sigs;
        op ← sig_item "op" sigs;
        raise_if (negb (py_eq (JStr (sv_kid ae)) (jwk_kid entity_key))
                  || negb (py_eq (JStr (sv_kid op)) (jwk_kid operational_key)))
          (perr "ISSUANCE signature kid does not match recorded key") ;;
        gi ← as_str (get "gi" JNull e) "gi";
        Ok (event (sv_kid ae) (sv_sig ae) (sv_sig op)
              (IssuanceEvent gi (Some entity_key) (Some operational_key)))
      else if type_ ==? lit "KEY_ROTATION" then
        new_key ← as_jwk (get "new_ku" JNull e) "new_ku";
        prev_op ← sig_item "prev_op" sigs;
        new_op ← sig_item "new_op" sigs;
        raise_if (negb (py_eq (JStr (sv_kid new_op)) (jwk_kid new_key)))
          (perr "KEY_ROTATION new_op kid does not match new_ku") ;;
        prev_thumb ← as_str (get "prev_thumb" JNull e) "prev_thumb";
        new_thumb ← as_str (get "new_thumb" JNull e) "new_thumb";
        Ok (event (sv_kid prev_op) (sv_sig prev_op) []
              (KeyRotationEvent (sv_kid prev_op) prev_thumb None (jwk_kid new_key) new_thumb
                 (Some new_key) (sv_sig new_op)))
      else
        ae ← sig_item "ae" sigs;
        let event := event (sv_kid ae) (sv_sig ae) [] in
        if type_ ==? lit "REVOCATION" then
          reason ← as_revocation_reason (get "reason" JNull e);
          Ok (event (RevocationEvent reason))
        else if type_ ==? lit "RETIREMENT" then Ok (event RetirementEvent)
        else if type_ ==? lit "MIGRATION" then
          prev_lr ← as_str (get "prev_lr" JNull e) "prev_lr";
          new_lr ← as_str (get "new_lr" JNull e) "new_lr";
          prev_ref ← as_str (get "prev_ref" JNull e) "prev_ref";
          Ok (event (MigrationEvent prev_lr new_lr prev_ref))
        else
          delegatee ← as_str (get "delegatee" JNull e) "delegatee";
          scope ← as_str (get "scope" JNull e) "scope";
          t ← as_safe_int (get "expiry" JNull e) "expiry";
          expiry ← date_from_seconds t "expiry";
          Ok (event (DelegationEvent delegatee scope expiry))
  | _ => Raise (perr "C2SP event entry must be an object")
  end.

(** ** Stored entries *)
Definition parse_c2sp_event_entry (data : bytes) (context : C2spEventContext) (candidate : bool)
    : res LogEvent :=
  assert_entry_size data ;;
  obj ← parse_json_no_duplicate_members data;
  assert_canonical_json_bytes data (Some obj) ;;
  validate_public_fields obj context ;;
  match obj with
  | JDict d => if candidate then Ok () else assert_public_chain_shape d
  | _ => Ok ()
  end ;;
  c2sp_envelope_to_event obj.

(** [d.pop(name, None)] *)
Definition pop (name : string) (d : list (str * json)) : list (str * json) :=
  List.filter (λ kv, negb (kv.1 ==? lit name)) d.

Definition signed_c2sp_entry_bytes (data : bytes) : res bytes :=
  assert_entry_size data ;;
  obj ← parse_json_no_duplicate_members data;
  assert_canonical_json_bytes data (Some obj) ;;
  match obj with
  | JDict d => canonical_bytes (JDict (pop "sigs" d))
  | _ => Raise (perr "C2SP event entry must be an object")
  end.

(** [b64url_encode(sha256(b"dnsid-c2sp-event-v1\x00", signed))] *)
Definition event_id_of (signed : bytes) : str :=
  b64url_encode (sha256 (lit "dnsid-c2sp-event-v1" ++ [0] ++ signed)) false.

Definition c2sp_event_id (data : bytes) : res str :=
  signed ← signed_c2sp_entry_bytes data; Ok (event_id_of signed).

Definition canonicalize_c2sp_event (event : LogEvent) (context : C2spEventContext) : res bytes :=
  envelope ← event_to_c2sp_envelope event context true;
  parse_c2sp_signatures (get "sigs" JNull envelope) (JStr (lit (event_type (ev_body event)))) true ;;
  data ← canonical_bytes (JDict envelope);
  assert_entry_size data ;;
  Ok data.

Definition signed_c2sp_event_bytes (event : LogEvent) (context : C2spEventContext) : res bytes :=
  envelope ← event_to_c2sp_envelope event context false;
  canonical_bytes (JDict envelope).

Definition prepare_c2sp_tlog_event (event : LogEvent) (context : C2spEventContext)
    : res (list (str * json)) :=
  obj ← event_to_c2sp_envelope event context false;
  validate_public_fields (JDict obj) context ;;
  Ok obj.
End codec.
