(* ===== verification/EventCodecSpec.v ===== *)
(** * What the envelope codec guarantees

    Signers and verifiers agree on the signed bytes of an event, and the
    logical identifier determines everything of an entry but its signatures. *)
From S2P Require Import Prelude Sha256 Errors PyText Base64 Utils Lr PyFloat PyTime Canonical CanonicalSpec JsonScan JsonRoundtrip Keys EventCodec.

(** ** Members of sorted objects *)
Lemma member_app k (a b : list (str * json)) :
  member k (a ++ b) = match member k a with Some v => Some v | None => member k b end.
Proof. induction a as [|[x v] a IH]; cbn; [done|]. by destruct (x ==? k). Qed.

Lemma member_None k (d : list (str * json)) : k ∉ d.*1 → member k d = None.
Proof.
  induction d as [|[x v] d IH]; cbn; [done|]. intros Hk. destruct (x ==? k) eqn:Hx; [|set_solver].
  rewrite eqb_true in Hx. set_solver.
Qed.

Lemma member_elem k v (d : list (str * json)) : NoDup d.*1 → (k, v) ∈ d → member k d = Some v.
Proof.
  induction d as [|[x w] d IH]; cbn; [set_solver|]. intros [Hx Hnd]%NoDup_cons Hin.
  apply elem_of_cons in Hin as [[= -> ->]|Hin]; [by rewrite eqb_refl|].
  destruct (x ==? k) eqn:E; [|auto]. rewrite eqb_true in E. subst x. exfalso. apply Hx.
  apply list_elem_of_fmap. by exists (k, v).
Qed.

Lemma member_in k v (d : list (str * json)) : member k d = Some v → (k, v) ∈ d.
Proof.
  induction d as [|[x w] d IH]; cbn; [done|]. destruct (x ==? k) eqn:E.
  - rewrite eqb_true in E. subst x. intros [= ->]. left.
  - intros Hm. right. auto.
Qed.

Lemma member_perm k (d d' : list (str * json)) : NoDup d.*1 → d ≡ₚ d' → member k d = member k d'.
Proof.
  intros Hnd Hp. assert (NoDup d'.*1) as Hnd' by (by rewrite <- Hp).
  destruct (member k d) as [v|] eqn:Hm.
  - symmetry. apply member_elem; [done|]. rewrite <- Hp. by apply member_in.
  - symmetry. apply member_None. rewrite <- Hp. intros Hin.
    apply list_elem_of_fmap in Hin as ([k' v] & Hk & Hin). cbn in Hk. subst k'.
    by rewrite (member_elem k v) in Hm.
Qed.

(** Members with normalised values. *)
Definition normal_member (kv : str * json) : str * json := (kv.1, normal kv.2).

Lemma normal_dict d : normal (JDict d) = JDict (sort_dict (map normal_member d)).
Proof. done. Qed.

Lemma keys_normal d : (map normal_member d).*1 = d.*1.
Proof. induction d; cbn; congruence. Qed.

Lemma member_map_normal k d : member k (map normal_member d) = normal <$> member k d.
Proof. induction d as [|[x v] d IH]; cbn; [done|]. by destruct (x ==? k). Qed.

Lemma member_normal k d : NoDup d.*1 →
  member k (sort_dict (map normal_member d)) = normal <$> member k d.
Proof.
  intros Hnd. rewrite <- member_map_normal. symmetry. apply member_perm; [by rewrite keys_normal|].
  by rewrite sort_dict_perm.
Qed.

(** ** Removing a member commutes with sorting *)
Definition pop_keyed (name : string) (l : list (list Z * (str * json))) : list (list Z * (str * json)) :=
  List.filter (λ m, negb (m.2.1 ==? lit name)) l.

Lemma insert_member_head {A} k (x : A) l : HdRel key_le (k, x) l → insert_member k x l = (k, x) :: l.
Proof. destruct 1 as [|[k' y] l Hle]; cbn; [done|]. unfold key_le in Hle. cbn in Hle. by rewrite Hle. Qed.

Lemma key_leb_trans a b c : key_leb a b = true → key_leb b c = true → key_leb a c = true.
Proof.
  revert b c. induction a as [|x a IH]; intros [|y b] [|z c]; cbn; try done.
  rewrite !orb_true_iff, !andb_true_iff, !Z.ltb_lt, !Z.eqb_eq.
  intros [H1|[-> H1]] [H2|[-> H2]]; try (left; lia). right. eauto.
Qed.

Lemma sorted_strong {A} (l : list (list Z * A)) : Sorted key_le l → StronglySorted key_le l.
Proof. apply Sorted_StronglySorted. intros x y z. unfold key_le. apply key_leb_trans. Qed.

Lemma pop_insert name k x l : Sorted key_le l →
  pop_keyed name (insert_member k x l)
  = if negb (x.1 ==? lit name) then insert_member k x (pop_keyed name l) else pop_keyed name l.
Proof.
  intros Hs%sorted_strong. induction Hs as [|[k' y] l Hs IH Hall]; cbn [insert_member].
  { cbn. by destruct (negb _). }
  destruct (key_leb k k') eqn:Hk.
  - cbn [pop_keyed List.filter snd]. destruct (negb (x.1 ==? lit name)); [|done].
    change (List.filter _ l) with (pop_keyed name l).
    symmetry. apply insert_member_head.
    assert (Forall (key_le (k, x)) ((k', y) :: l)) as Hall'.
    { constructor; [done|]. eapply Forall_impl; [exact Hall|]. intros m. unfold key_le. cbn.
      intros Hm. by eapply key_leb_trans. }
    assert (Forall (key_le (k, x)) (pop_keyed name ((k', y) :: l))) as Hp.
    { apply Forall_forall. intros m Hm. rewrite Forall_forall in Hall'. apply Hall'.
      apply list_elem_of_In, List.filter_In in Hm as [Hm _]. by apply list_elem_of_In. }
    change (if negb (y.1 ==? lit name) then _ else _) with (pop_keyed name ((k', y) :: l)).
    destruct Hp; by constructor.
  - cbn [pop_keyed List.filter snd]. change (List.filter _ ?l) with (pop_keyed name l). rewrite IH.
    destruct (negb (y.1 ==? lit name)), (negb (x.1 ==? lit name)); cbn [insert_member]; rewrite ?Hk; done.
Qed.

Lemma pop_sort name l : pop_keyed name (sort_members l) = sort_members (pop_keyed name l).
Proof.
  induction l as [|[k x] l IH]; cbn [sort_members]; [done|].
  rewrite pop_insert by apply sort_members_sorted. rewrite IH. cbn [pop_keyed List.filter snd].
  by destruct (negb _).
Qed.

Lemma pop_sort_dict name d : pop name (sort_dict d) = sort_dict (pop name d).
Proof.
  unfold sort_dict. transitivity ((pop_keyed name (sort_members (map (λ kv, (units kv.1, kv)) d))).*2).
  - generalize (sort_members (map (λ kv : str * json, (units kv.1, kv)) d)). intros l.
    unfold pop, pop_keyed. induction l as [|[k x] l IH]; [done|].
    cbn [fmap list_fmap List.filter snd]. rewrite IH. by destruct (negb _).
  - rewrite pop_sort. do 2 f_equal. unfold pop, pop_keyed. induction d as [|x d IH]; [done|].
    cbn [map List.filter snd fst]. rewrite IH. by destruct (negb _).
Qed.

Lemma pop_normal name d : pop name (map normal_member d) = map normal_member (pop name d).
Proof.
  unfold pop. induction d as [|x d IH]; [done|]. cbn [map List.filter].
  rewrite IH. unfold normal_member at 1. cbn [fst]. by destruct (negb _).
Qed.

Lemma normal_pop name d d' : normal (JDict d) = JDict d' →
  normal (JDict (pop name d')) = normal (JDict (pop name d)).
Proof.
  intros Hn. pose proof (normal_idem (JDict d)) as Hi. rewrite Hn in Hi. rewrite !normal_dict in *.
  injection Hn as Hn. injection Hi as Hi. f_equal.
  rewrite <- !pop_normal, <- !pop_sort_dict, Hi. by rewrite Hn.
Qed.

Lemma pop_plain name d : plain (JDict d) → plain (JDict (pop name d)).
Proof.
  rewrite !plain_dict. intros [Hnd Hall]. split.
  - induction d as [|x d IH]; cbn; [done|]. apply NoDup_cons in Hnd as [Hx Hnd].
    apply Forall_cons in Hall as [_ Hall]. destruct (negb _); cbn; [|auto]. apply NoDup_cons. split; [|auto].
    intros Hin. apply Hx. apply list_elem_of_fmap in Hin as (y & -> & Hy).
    apply list_elem_of_fmap. exists y. split; [done|]. apply list_elem_of_In, List.filter_In in Hy as [Hy _].
    by apply list_elem_of_In.
  - apply Forall_forall. rewrite Forall_forall in Hall. intros x Hx. apply Hall.
    apply list_elem_of_In, List.filter_In in Hx as [Hx _]. by apply list_elem_of_In.
Qed.

Lemma pop_depth name d : json_depth (JDict (pop name d)) ≤ json_depth (JDict d).
Proof.
  cbn [json_depth]. unfold pop. induction d as [|x d IH]; cbn [List.filter foldr]; [done|].
  destruct (negb _); cbn [foldr]; lia.
Qed.

Section codec.
Context `{Platform}.

(** ** Signed bytes *)

(** The stored form of a well-formed value, as the codec reads it back. *)
Lemma signed_of_canonical d data : plain (JDict d) → canonical_bytes (JDict d) = Ok data →
  assert_entry_size data = Ok () →
  signed_c2sp_entry_bytes data = canonical_bytes (JDict (pop "sigs" d)).
Proof.
  intros Hd Hb Hsize.
  assert (json_depth (JDict d) ≤ MAX_JSON_DEPTH) as Hdepth.
  { unfold canonical_bytes, canonical_json in Hb.
    destruct (Z.ltb_spec MAX_JSON_DEPTH (json_depth (JDict d))); [done|lia]. }
  destruct (roundtrip_canonical (JDict d) Hd Hdepth) as (b & Hb' & Hp & Hc).
  rewrite Hb in Hb'. injection Hb' as <-. unfold signed_c2sp_entry_bytes. rewrite Hsize, Hp. res_cbn.
  rewrite Hc. res_cbn. rewrite normal_dict. set (d' := sort_dict (map normal_member d)).
  assert (plain (JDict d')) as Hd' by (apply (plain_normal (JDict d)), Hd).
  assert (json_depth (JDict d') = json_depth (JDict d)) as Hdd by (apply (json_depth_normal (JDict d))).
  pose proof (pop_depth "sigs" d). pose proof (pop_depth "sigs" d').
  rewrite !canonical_bytes_plain by (auto using pop_plain || lia).
  by rewrite (normal_pop "sigs" d d').
Qed.

Lemma pop_app name a b : pop name (a ++ b) = pop name a ++ pop name b.
Proof. apply List.filter_app. Qed.

Lemma pop_fresh name d : lit name ∉ d.*1 → pop name d = d.
Proof.
  unfold pop. induction d as [|x d IH]; cbn; [done|]. intros Hn.
  destruct (x.1 ==? lit name) eqn:E; [rewrite eqb_true in E; set_solver|]. cbn. f_equal. set_solver.
Qed.

(** The names of the members an envelope can have. *)
Definition body_names : list str :=
  lit <$> ["gi"; "ek"; "ku"; "prev_thumb"; "new_ku"; "new_thumb"; "reason"; "prev_lr"; "new_lr"; "prev_ref";
           "delegatee"; "scope"; "expiry"]%string.
Definition context_names : list str :=
  lit <$> ["method"; "log_origin"; "stream_id"; "lr"; "seq"; "prev_event_id"; "prev_state_hash"]%string.

Lemma body_members_names b m : body_members b = Ok m → Forall (λ kv, kv.1 ∈ body_names) m ∧ NoDup m.*1.
Proof.
  intros Hb. destruct b; cbn in Hb;
    repeat match goal with
    | H : (_ ≫= _) = Ok _ |- _ => apply bind_Ok in H as (? & ? & H)
    | H : match ?x with _ => _ end = Ok _ |- _ => destruct x
    end; try discriminate Hb; injection Hb as <-;
    (split; [repeat constructor; cbn [fst]; by_decide|by_decide]).
Qed.

Lemma text_member_names (b : bool) name o :
  (if b then text_member name o else []).*1 `sublist_of` [lit name].
Proof. destruct b, o; cbn; repeat constructor. Qed.

Lemma context_members_names ctx : (context_members ctx).*1 `sublist_of` context_names.
Proof.
  unfold context_members, context_names. rewrite !fmap_app.
  apply (sublist_app _ [lit "method"; lit "log_origin"; lit "stream_id"; lit "lr"] _
           [lit "seq"; lit "prev_event_id"; lit "prev_state_hash"]).
  - destruct (_ || _); [|apply sublist_nil_l]. rewrite fmap_cons, !fmap_app. apply sublist_skip.
    apply (sublist_app _ [lit "log_origin"] _ [lit "stream_id"; lit "lr"]); [apply text_member_names|].
    apply (sublist_app _ [lit "stream_id"] _ [lit "lr"]); apply text_member_names.
  - apply (sublist_app _ [lit "seq"] _ [lit "prev_event_id"; lit "prev_state_hash"]).
    { destruct (ctx_seq ctx); cbn; repeat constructor. }
    apply (sublist_app _ [lit "prev_event_id"] _ [lit "prev_state_hash"]);
      [apply (text_member_names true)|apply text_member_names].
Qed.

(** The fixed members that open every envelope. *)
Definition head_members (event : LogEvent) (ts : Z) : list (str * json) :=
  [(lit "v", JInt 1); (lit "kind", JStr (lit "dnsid.lifecycle"));
   (lit "type", JStr (lit (event_type (ev_body event)))); (lit "fqdn", JStr (ev_domain event));
   (lit "ts", JInt ts)].

Lemma envelope_names event ts body ctx : body_members (ev_body event) = Ok body →
  NoDup (head_members event ts ++ body ++ context_members ctx).*1
  ∧ lit "sigs" ∉ (head_members event ts ++ body ++ context_members ctx).*1.
Proof.
  intros Hb. destruct (body_members_names _ _ Hb) as [Hbn Hnd].
  pose proof (context_members_names ctx) as Hs.
  assert (∀ x, x ∈ body.*1 → x ∈ body_names) as Hbody.
  { intros x Hx. apply list_elem_of_fmap in Hx as (kv & -> & Hin). rewrite Forall_forall in Hbn. auto. }
  assert (∀ x, x ∈ (context_members ctx).*1 → x ∈ context_names) as Hctx.
  { intros x Hx. by eapply elem_of_submseteq, sublist_submseteq. }
  assert (∀ x, x ∈ body_names → x ∉ context_names) as Hdis by (apply Forall_forall; by_decide).
  assert (∀ x, x ∈ lit <$> ["v"; "kind"; "type"; "fqdn"; "ts"; "sigs"]%string →
               (x ∉ body_names) ∧ (x ∉ context_names)) as Hhead by (apply Forall_forall; by_decide).
  rewrite !fmap_app. change ((head_members event ts).*1) with (lit <$> ["v"; "kind"; "type"; "fqdn"; "ts"]%string).
  assert (∀ x, x ∈ lit <$> ["v"; "kind"; "type"; "fqdn"; "ts"]%string →
               x ∈ lit <$> ["v"; "kind"; "type"; "fqdn"; "ts"; "sigs"]%string) as Hsub by (apply Forall_forall; by_decide).
  split.
  - apply NoDup_app. split_and!; [by_decide| |].
    + intros x Hx%Hsub%Hhead. rewrite elem_of_app. naive_solver.
    + apply NoDup_app. split_and!; [done|naive_solver|].
      eapply sublist_NoDup; [|exact Hs]. by_decide.
  - rewrite !elem_of_app. destruct (Hhead (lit "sigs")) as [H1 H2]; [by_decide|].
    intros [Hin|[Hin|Hin]]; [|naive_solver..]. revert Hin. by_decide.
Qed.

Lemma envelope_unsigned event ctx obj :
  event_to_c2sp_envelope event ctx false = Ok obj → NoDup obj.*1 ∧ lit "sigs" ∉ obj.*1.
Proof.
  unfold event_to_c2sp_envelope. intros Hv. bind_step Hv as ts Hts. bind_step Hv as body Hbody.
  rewrite bind_unit_Ok in Hv. destruct Hv as [_ [= <-]]. by apply (envelope_names event ts body ctx).
Qed.

Lemma envelope_signed event ctx envelope : event_to_c2sp_envelope event ctx true = Ok envelope →
  ∃ obj, event_to_c2sp_envelope event ctx false = Ok obj ∧ pop "sigs" envelope = obj
    ∧ NoDup envelope.*1.
Proof.
  intros Hv. assert (∃ obj, event_to_c2sp_envelope event ctx false = Ok obj
    ∧ (envelope = obj ∨ ∃ sigs, envelope = obj ++ [(lit "sigs", sigs)])) as (obj & Ho & He).
  { unfold event_to_c2sp_envelope in *. bind_step Hv as ts Hts. bind_step Hv as body Hbody.
    rewrite bind_unit_Ok in Hv. destruct Hv as [Hp Hv]. bind_step Hv as sigs Hsigs.
    rewrite Hts, Hbody. res_cbn. rewrite Hp. res_cbn. eexists. split; [done|].
    destruct sigs; injection Hv as <-; eauto. }
  destruct (envelope_unsigned _ _ _ Ho) as [Hnd Hns]. exists obj. split; [done|].
  destruct He as [->|[sigs ->]]; [by rewrite pop_fresh|]. rewrite pop_app, pop_fresh by done.
  split; [by rewrite app_nil_r|]. rewrite fmap_app. apply NoDup_app. split_and!; [done| |apply NoDup_singleton].
  intros x Hx Hx'%list_elem_of_singleton. by subst x.
Qed.

(** Signers and verifiers see the same bytes: for an event whose text and numbers
    JSON can carry, the bytes recovered from its stored form by removing the
    signatures are exactly the bytes [signed_c2sp_event_bytes] offered for
    signing, whatever signatures it was stored with. *)
Theorem signed_bytes_agree (event : LogEvent) (ctx : C2spEventContext) (envelope : list (str * json)) (data : bytes)
    (Henv : event_to_c2sp_envelope event ctx true = Ok envelope) (Hplain : plain (JDict envelope))
    (Hdata : canonicalize_c2sp_event event ctx = Ok data) :
  signed_c2sp_entry_bytes data = signed_c2sp_event_bytes event ctx.
Proof.
  unfold canonicalize_c2sp_event in Hdata. bind_step Hdata as e0 He0. rewrite Henv in He0. injection He0 as <-.
  destruct (envelope_signed _ _ _ Henv) as (obj & Ho & Hpop & _).
  bind_step Hdata as u1 Hs. bind_step Hdata as b Hb. rewrite bind_unit_Ok in Hdata.
  destruct Hdata as [Hsize [= ->]]. unfold signed_c2sp_event_bytes. rewrite Ho. res_cbn.
  by rewrite (signed_of_canonical envelope data), Hpop.
Qed.

(** ** Logical identity *)

(** A stored object is already in canonical order. *)
Lemma canonical_stored data obj : parse_json_no_duplicate_members data = Ok obj →
  assert_canonical_json_bytes data (Some obj) = Ok () → plain obj → normal obj = obj.
Proof.
  intros Hp Hc Hv. unfold assert_canonical_json_bytes in Hc. bind_step Hc as v Hvv.
  assert (v = obj) as -> by (destruct obj; congruence).
  bind_step Hc as text Ht. bind_step Hc as want Hw.
  apply raise_if_Ok in Hc. rewrite negb_false_iff, eqb_true in Hc. subst want.
  unfold canonical_json in Hw. rewrite guard_Ok in Hw. destruct Hw as [_ Hw].
  rewrite canonical_render in Hw by done. injection Hw as Hw.
  unfold parse_json_no_duplicate_members in Hp. rewrite bind_unit_Ok, Ht in Hp. destruct Hp as [_ Hp].
  cbn [try_except mbind result_bind] in Hp. rewrite <- Hw, loads_render in Hp by (by apply plain_normal).
  by injection Hp.
Qed.

(** An entry from which signed bytes can be recovered. *)
Lemma signed_entry_inv data signed d : parse_json_no_duplicate_members data = Ok (JDict d) →
  signed_c2sp_entry_bytes data = Ok signed → plain (JDict d) →
  canonical_bytes (JDict (pop "sigs" d)) = Ok signed ∧ normal (JDict (pop "sigs" d)) = JDict (pop "sigs" d).
Proof.
  unfold signed_c2sp_entry_bytes. intros Hp Hs Hd. rewrite bind_unit_Ok in Hs. destruct Hs as [_ Hs].
  rewrite Hp in Hs. cbn [mbind result_bind] in Hs. rewrite bind_unit_Ok in Hs. destruct Hs as [Hc Hs].
  split; [done|]. pose proof (canonical_stored _ _ Hp Hc Hd) as Hn.
  rewrite normal_dict in *. injection Hn as Hn. by rewrite <- pop_normal, <- pop_sort_dict, Hn.
Qed.

Lemma signed_bytes_inj data1 data2 signed d1 d2 :
  parse_json_no_duplicate_members data1 = Ok (JDict d1) → parse_json_no_duplicate_members data2 = Ok (JDict d2) →
  plain (JDict d1) → plain (JDict d2) →
  signed_c2sp_entry_bytes data1 = Ok signed → signed_c2sp_entry_bytes data2 = Ok signed →
  pop "sigs" d1 = pop "sigs" d2.
Proof.
  intros Hp1 Hp2 Hd1 Hd2 Hs1 Hs2.
  destruct (signed_entry_inv _ _ _ Hp1 Hs1 Hd1) as [Hb1 Hn1].
  destruct (signed_entry_inv _ _ _ Hp2 Hs2 Hd2) as [Hb2 Hn2].
  assert (JDict (pop "sigs" d1) = JDict (pop "sigs" d2)) as [= ?]; [|done].
  rewrite <- Hn1, <- Hn2. eapply canonical_bytes_inj; eauto using pop_plain.
Qed.

Lemma event_id_of_inj s1 s2 :
  collision_free [lit "dnsid-c2sp-event-v1" ++ [0] ++ s1; lit "dnsid-c2sp-event-v1" ++ [0] ++ s2] →
  event_id_of s1 = event_id_of s2 → s1 = s2.
Proof.
  intros Hcf Hid. unfold event_id_of in Hid. apply b64url_encode_inj in Hid; [|auto with py..].
  apply Hcf in Hid; [|left|right; left]. by apply app_inv_head, app_inv_head in Hid.
Qed.

(** Everything of an event but its signatures. *)
Definition erase_body (b : event_body) : event_body :=
  match b with
  | KeyRotationEvent _ pt pk nk nt key _ => KeyRotationEvent [] pt pk nk nt key []
  | b => b
  end.
Definition erase_signatures (e : LogEvent) : LogEvent :=
  {| ev_domain := ev_domain e; ev_timestamp := ev_timestamp e; ev_signing_kid := []; ev_sig := [];
     ev_operational_countersig := []; ev_body := erase_body (ev_body e) |}.

Lemma member_pop name k d : k ≠ lit name → member k (pop name d) = member k d.
Proof.
  intros Hk. unfold pop. induction d as [|[x v] d IH]; cbn; [done|].
  destruct (x ==? lit name) eqn:E; cbn; [|by rewrite IH].
  rewrite eqb_true in E. subst x. rewrite (proj2 (eqb_false _ _)); [done|congruence].
Qed.

(** Two runs over the same envelope members, step by step. *)
Ltac lockstep H1 H2 :=
  repeat match type of H1 with
  | (if ?b then _ else _) = Ok _ => destruct b
  | (_ ≫= _) = Ok _ =>
      let x := fresh in let y := fresh in let E1 := fresh in let E2 := fresh in
      apply bind_Ok in H1 as (x & E1 & H1); apply bind_Ok in H2 as (y & E2 & H2);
      try (rewrite E1 in E2; injection E2 as <-)
  end.

Lemma envelope_payload d1 d2 e1 e2 : (∀ k, k ≠ lit "sigs" → member k d1 = member k d2) →
  c2sp_envelope_to_event (JDict d1) = Ok e1 → c2sp_envelope_to_event (JDict d2) = Ok e2 →
  erase_signatures e1 = erase_signatures e2.
Proof.
  intros Hm. assert (∀ name, lit name ≠ lit "sigs" → get name JNull d1 = get name JNull d2) as Hg.
  { intros name Hn. unfold get. by rewrite Hm. }
  unfold c2sp_envelope_to_event. intros H1 H2.
  rewrite !(Hg "v"%string), !(Hg "kind"%string), !(Hg "method"%string), !(Hg "type"%string), !(Hg "ts"%string),
    !(Hg "fqdn"%string), !(Hg "ek"%string), !(Hg "ku"%string), !(Hg "gi"%string), !(Hg "new_ku"%string),
    !(Hg "prev_thumb"%string), !(Hg "new_thumb"%string), !(Hg "reason"%string), !(Hg "prev_lr"%string),
    !(Hg "new_lr"%string), !(Hg "prev_ref"%string), !(Hg "delegatee"%string), !(Hg "scope"%string),
    !(Hg "expiry"%string) in H1 by by_decide.
  lockstep H1 H2; injection H1 as <-; injection H2 as <-; done.
Qed.

(** Logical identifiers bind events: two stored entries with the same identifier
    carry the same envelope apart from their [sigs] members, and so parse to
    the same event apart from its signatures and have the same chain fields,
    unless they exhibit a collision of the hash. *)
Theorem event_id_binds (data1 data2 : bytes) (d1 d2 : list (str * json)) (signed1 signed2 : bytes) (id : str)
    (Hp1 : parse_json_no_duplicate_members data1 = Ok (JDict d1)) (Hd1 : plain (JDict d1))
    (Hp2 : parse_json_no_duplicate_members data2 = Ok (JDict d2)) (Hd2 : plain (JDict d2))
    (Hs1 : signed_c2sp_entry_bytes data1 = Ok signed1) (Hs2 : signed_c2sp_entry_bytes data2 = Ok signed2)
    (Hcf : collision_free [lit "dnsid-c2sp-event-v1" ++ [0] ++ signed1; lit "dnsid-c2sp-event-v1" ++ [0] ++ signed2])
    (Hid1 : c2sp_event_id data1 = Ok id) (Hid2 : c2sp_event_id data2 = Ok id) :
  pop "sigs" d1 = pop "sigs" d2
  ∧ (∀ e1 e2, c2sp_envelope_to_event (JDict d1) = Ok e1 → c2sp_envelope_to_event (JDict d2) = Ok e2 →
       erase_signatures e1 = erase_signatures e2)
  ∧ parse_chain_fields (JDict d1) = parse_chain_fields (JDict d2).
Proof.
  unfold c2sp_event_id in *. rewrite Hs1 in Hid1. rewrite Hs2 in Hid2. injection Hid1 as Hid1. injection Hid2 as Hid2.
  assert (signed1 = signed2) as <- by (apply event_id_of_inj; [exact Hcf|congruence]).
  assert (pop "sigs" d1 = pop "sigs" d2) as Hpop by (by eapply (signed_bytes_inj data1 data2)).
  assert (∀ k, k ≠ lit "sigs" → member k d1 = member k d2) as Hm.
  { intros k Hk. by rewrite <- (member_pop "sigs" k d1), <- (member_pop "sigs" k d2), Hpop. }
  split_and!; [done|intros; by eapply envelope_payload|].
  unfold parse_chain_fields, parse_chain_hash, has. by rewrite !Hm by by_decide.
Qed.
End codec.
