(* ===== verification/StreamVerifier.v ===== *)
(** * Lifecycle verification ([c2sp_tlog/stream_verifier.py])

    The selection of one domain's lifecycle from the entries of a scanned
    stream, and the verification of a selected lifecycle.  Every
    [remaining_seconds()] of the code asks [check], the outcome of the deadline
    test at that point of the run; points are numbered by the path of loop
    positions that leads to them.  The prior-log callback is a function of the
    event. *)
From S2P Require Import Prelude Sha256 Errors PyText Base64 Merkle PyFloat PyTime Canonical Keys EventCodec.

(** ** Data *)
Record IndexedEntry : Set := { ie_index : Z; ie_data : bytes }.

Record VerifiedLifecycleEvent : Set := {
  vl_index : Z;
  vl_leaf_hash : bytes;
  vl_data : bytes;
  vl_event : LogEvent;
  vl_chain : chain_fields;
  vl_post_keys : option (JWK * JWK)
}.

Record MigrationVerificationResult : Set := {
  mr_entity_key : JWK;
  mr_operational_key : JWK;
  mr_prior_events : list LogEvent;
  mr_prior_event_refs : list str
}.

Record StreamVerifierOptions : Type := {
  vo_context : C2spEventContext;
  vo_unchained : bool;
  vo_signer_key : option JWK;
  vo_integration_time_ms : option Z;
  vo_verify_migration : option (LogEvent → res MigrationVerificationResult);
  vo_cutoff_index : option Z;
  vo_max_entries : Z;
  vo_max_entry_bytes : Z
}.

Definition set_verify_migration (f : LogEvent → res MigrationVerificationResult)
    (o : StreamVerifierOptions) : StreamVerifierOptions :=
  {| vo_context := vo_context o; vo_unchained := vo_unchained o; vo_signer_key := vo_signer_key o;
     vo_integration_time_ms := vo_integration_time_ms o; vo_verify_migration := Some f;
     vo_cutoff_index := vo_cutoff_index o; vo_max_entries := vo_max_entries o;
     vo_max_entry_bytes := vo_max_entry_bytes o |}.

Definition is_issuance (e : LogEvent) : bool :=
  match ev_body e with IssuanceEvent _ _ _ => true | _ => false end.
Definition is_migration (e : LogEvent) : bool :=
  match ev_body e with MigrationEvent _ _ _ => true | _ => false end.
Definition is_terminal (e : LogEvent) : bool :=
  match ev_body e with RevocationEvent _ | RetirementEvent => true | _ => false end.
Definition type_text (e : LogEvent) : str := lit (event_type (ev_body e)).

Section verifier.
Context `{Platform}.

(** ** States *)
Definition state_hash (state : json) : res str :=
  b ← canonical_bytes state;
  Ok (b64url_encode (sha256 (lit "dnsid-c2sp-state-v1" ++ b)) false).

(** The state dict with the given status. *)
Definition state_dict (domain status entity_thumb operational_thumb : str) : json :=
  JDict [(lit "fqdn", JStr domain); (lit "status", JStr status);
         (lit "entity_thumb", JStr entity_thumb); (lit "operational_thumb", JStr operational_thumb)].

Definition state_with (status : string) (domain : str) (entity_key operational_key : JWK) : res json :=
  et ← thumbprint entity_key;
  ot ← thumbprint operational_key;
  Ok (state_dict domain (lit status) et ot).
Definition active_state (domain : str) (entity_key operational_key : JWK) : res json :=
  state_with "ACTIVE" domain entity_key operational_key.

Definition next_state (previous : json) (event : LogEvent) (entity_key operational_key : JWK) : res json :=
  match ev_body event with
  | DelegationEvent _ _ _ => Ok previous
  | RevocationEvent _ => state_with "REVOKED" (ev_domain event) entity_key operational_key
  | RetirementEvent => state_with "RETIRED" (ev_domain event) entity_key operational_key
  | _ => active_state (ev_domain event) entity_key operational_key
  end.

(** ** Checks of one event *)

(** [VerifiedLifecycleEvent.event_id] *)
Definition event_id (item : VerifiedLifecycleEvent) : res str := c2sp_event_id (vl_data item).

Definition verify_event_signature (item : VerifiedLifecycleEvent) (signature : str) (key : JWK)
    (message : str) : res unit :=
  ok ← try_except
         (sig_bytes ← b64url_decode signature;
          signed ← signed_c2sp_entry_bytes (vl_data item);
          jwk_verify key signed sig_bytes)
         (λ e, if is_resource_limit e then Raise e else Ok false);
  raise_if (negb ok) (VerificationError SIGNATURE_INVALID message false None).

Definition verify_logged_event_signature (item : VerifiedLifecycleEvent) (signer_key : JWK) : res unit :=
  raise_if (ev_sig (vl_event item) ==? [])
    (C2spTlogVerificationError (lit "missing signature for " ++ type_text (vl_event item)) None None) ;;
  verify_event_signature item (ev_sig (vl_event item)) signer_key (lit "invalid lifecycle event signature").

(** [a.thumbprint() == b.thumbprint()] *)
Definition same_thumbprint (a b : JWK) : res bool :=
  ta ← thumbprint a; tb ← thumbprint b; Ok (ta ==? tb).

Definition distinct_keys_msg : string := "entity and operational keys must be distinct by RFC 7638 thumbprint".

Definition assert_issuance_key_metadata (entity_key operational_key : option JWK) : res (JWK * JWK) :=
  match entity_key, operational_key with
  | Some ek, Some ku =>
      raise_if (falsy (jwk_kid ek) || falsy (jwk_kid ku))
        (verr "ISSUANCE is missing c2sp-tlog key metadata") ;;
      same ← same_thumbprint ek ku;
      raise_if same (verr distinct_keys_msg) ;;
      Ok (ek, ku)
  | _, _ => Raise (verr "ISSUANCE is missing c2sp-tlog key metadata")
  end.

Definition assert_rotation_key_metadata (new_kid : json) (new_thumbprint : str)
    (new_public_key : option JWK) : res JWK :=
  match new_public_key with
  | None => Raise (verr "KEY_ROTATION is missing c2sp-tlog key metadata")
  | Some k =>
      raise_if (new_thumbprint ==? []) (verr "KEY_ROTATION is missing c2sp-tlog key metadata") ;;
      t ← thumbprint k;
      raise_if (negb (new_thumbprint ==? t)) (verr "KEY_ROTATION new thumbprint does not match public key") ;;
      raise_if (negb (py_eq new_kid (jwk_kid k))) (verr "KEY_ROTATION new key metadata mismatch") ;;
      Ok k
  end.

Definition assert_chain_fields (item prev : VerifiedLifecycleEvent) (prev_state : json) : res unit :=
  match ch_seq (vl_chain prev) with
  | None => Raise (verr "invalid seq")
  | Some prev_seq =>
      raise_if (negb (ch_seq (vl_chain item) ==? Some (prev_seq + 1))) (verr "invalid seq") ;;
      id ← event_id prev;
      raise_if (negb (ch_prev_event_id (vl_chain item) ==? Some id)) (verr "invalid prev_event_id") ;;
      h ← state_hash prev_state;
      raise_if (negb (ch_prev_state_hash (vl_chain item) ==? Some h)) (verr "invalid prev_state_hash")
  end.

Definition assert_first_chain_fields (item : VerifiedLifecycleEvent) : res unit :=
  raise_if (negb (ch_seq (vl_chain item) ==? Some 0))
    (verr "first public lifecycle event must have seq 0") ;;
  raise_if (bool_decide (is_Some (ch_prev_event_id (vl_chain item)))
            || bool_decide (is_Some (ch_prev_state_hash (vl_chain item))))
    (verr "first public lifecycle event must not contain previous-chain fields").

(** [timestamp.timestamp() * 1000 > limit] *)
Definition later_than (ts : datetime) (limit : Z) : bool :=
  let '(neg, m, e) := match dt_utcoffset ts with
                      | Some offset => timestamp_ms (dt_wall ts) offset
                      | None => naive_timestamp_ms (dt_wall ts)
                      end in
  let '(n, d) := float_ratio m e in
  limit * d <? (if neg then - n else n).

(** ** [verify_lifecycle] *)

(** The local variables of the loop. *)
Record lifecycle_state : Set := {
  ls_terminal : bool;
  ls_prev_state : json;
  ls_entity_key : option JWK;
  ls_operational_key : option JWK
}.

Definition initial_state : lifecycle_state :=
  {| ls_terminal := false; ls_prev_state := JNull; ls_entity_key := None; ls_operational_key := None |}.

Section options.
Context (opts : StreamVerifierOptions).

(** [opts.signer_key is not None and opts.signer_key.thumbprint() != key.thumbprint()] *)
Definition not_trusted (key : JWK) : res bool :=
  match vo_signer_key opts with
  | None => Ok false
  | Some sk => same ← same_thumbprint sk key; Ok (negb same)
  end.

Definition verify_issuance (item : VerifiedLifecycleEvent) (ek ku : option JWK) : res (JWK * JWK * json) :=
  let event := vl_event item in
  '(entity_key, operational_key) ← assert_issuance_key_metadata ek ku;
  bad ← not_trusted entity_key;
  raise_if bad (verr "ISSUANCE entity key does not match trusted entity key") ;;
  verify_event_signature item (ev_sig event) entity_key (lit "invalid ISSUANCE entity signature") ;;
  raise_if (ev_operational_countersig event ==? [])
    (verr "ISSUANCE missing operational countersignature") ;;
  verify_event_signature item (ev_operational_countersig event) operational_key
    (lit "invalid ISSUANCE operational countersignature") ;;
  st ← active_state (ev_domain event) entity_key operational_key;
  Ok (entity_key, operational_key, st).

Definition verify_migration_genesis (item : VerifiedLifecycleEvent) (previous_log new_log : str)
    : res (JWK * JWK * json) :=
  let event := vl_event item in
  raise_if ((previous_log ==? []) || (previous_log ==? new_log))
    (verr_cat "MIGRATION must hand off from a different previous log" INVALID_MIGRATION) ;;
  match vo_verify_migration opts with
  | None => Raise (verr "MIGRATION requires verified prior-log history")
  | Some verify_migration =>
      raise_if (truthy (ctx_lr (vo_context opts)) && negb (ctx_lr (vo_context opts) ==? Some new_log))
        (verr "MIGRATION new_lr does not match the current C2SP stream") ;;
      migrated ← verify_migration event;
      let entity_key := mr_entity_key migrated in
      let operational_key := mr_operational_key migrated in
      same ← same_thumbprint entity_key operational_key;
      raise_if same (verr distinct_keys_msg) ;;
      bad ← not_trusted entity_key;
      raise_if bad (verr "MIGRATION entity key does not match trusted entity key") ;;
      raise_if (negb (py_eq (JStr (ev_signing_kid event)) (jwk_kid entity_key)))
        (verr "MIGRATION signature kid does not match entity key") ;;
      verify_event_signature item (ev_sig event) entity_key (lit "invalid MIGRATION entity signature") ;;
      st ← active_state (ev_domain event) entity_key operational_key;
      Ok (entity_key, operational_key, st)
  end.

(** A rotation; returns the new operational key. *)
Definition verify_rotation (item : VerifiedLifecycleEvent) (entity_key operational_key : JWK)
    (previous_kid previous_thumbprint : str) (new_kid : json) (new_thumbprint : str)
    (new_public_key : option JWK) (proof : str) : res JWK :=
  ot ← thumbprint operational_key;
  raise_if (negb (previous_thumbprint ==? ot) || negb (py_eq (JStr previous_kid) (jwk_kid operational_key)))
    (verr "KEY_ROTATION previous operational key does not match active key") ;;
  new_key ← assert_rotation_key_metadata new_kid new_thumbprint new_public_key;
  same ← same_thumbprint new_key operational_key;
  raise_if same (verr "KEY_ROTATION new operational key must differ from active key") ;;
  same ← same_thumbprint new_key entity_key;
  raise_if same (verr distinct_keys_msg) ;;
  verify_event_signature item (ev_sig (vl_event item)) operational_key (lit "invalid KEY_ROTATION signature") ;;
  raise_if (proof ==? []) (verr "KEY_ROTATION missing new operational proof of possession") ;;
  verify_event_signature item proof new_key (lit "invalid KEY_ROTATION new-key proof of possession") ;;
  Ok new_key.

(** Any other event, signed by the entity key. *)
Definition verify_entity_event (item : VerifiedLifecycleEvent) (entity_key : JWK) : res unit :=
  let event := vl_event item in
  match ev_body event with
  | MigrationEvent previous_log new_log _ =>
      raise_if ((previous_log ==? []) || (previous_log ==? new_log))
        (verr_cat "MIGRATION must hand off to a different log" INVALID_MIGRATION)
  | _ => Ok ()
  end ;;
  raise_if (negb (py_eq (JStr (ev_signing_kid event)) (jwk_kid entity_key)))
    (C2spTlogVerificationError (type_text event ++ lit " signature kid does not match entity key") None None) ;;
  verify_event_signature item (ev_sig event) entity_key
    (lit "invalid " ++ type_text event ++ lit " entity signature") ;;
  match ev_body event with
  | RevocationEvent reason =>
      raise_if (negb (is_revocation_reason reason)) (verr "invalid REVOCATION reason")
  | _ => Ok ()
  end.

(** One round of the loop, up to the update of [terminal]. *)
Definition lifecycle_body (st : lifecycle_state) (prev : option VerifiedLifecycleEvent)
    (item : VerifiedLifecycleEvent) : res (JWK * JWK * json) :=
  let event := vl_event item in
  let first := match prev with None => true | Some _ => false end in
  raise_if (ls_terminal st)
    (verr_cat "event appears after terminal lifecycle event" TERMINAL_STATE) ;;
  raise_if (first && negb (is_issuance event || is_migration event))
    (verr "first lifecycle event must be ISSUANCE or verified MIGRATION") ;;
  raise_if (negb first && is_issuance event) (verr "duplicate ISSUANCE event") ;;
  raise_if (negb first && is_migration event)
    (verr_cat "MIGRATION is valid only as destination stream genesis" INVALID_MIGRATION) ;;
  match vo_integration_time_ms opts with
  | None => Raise (verr "accepted checkpoint integration time is required")
  | Some limit =>
      raise_if (later_than (ev_timestamp event) limit)
        (verr "event timestamp is later than checkpoint integration time")
  end ;;
  match prev with
  | None => assert_first_chain_fields item
  | Some prev => assert_chain_fields item prev (ls_prev_state st)
  end ;;
  raise_if (ev_sig event ==? [])
    (C2spTlogVerificationError (lit "missing signature for " ++ type_text event) None None) ;;
  match ev_body event, prev with
  | IssuanceEvent _ ek ku, _ => verify_issuance item ek ku
  | MigrationEvent previous_log new_log _, None => verify_migration_genesis item previous_log new_log
  | body, _ =>
      match ls_entity_key st, ls_operational_key st with
      | Some entity_key, Some operational_key =>
          operational_key ←
            match body with
            | KeyRotationEvent previous_kid previous_thumbprint _ new_kid new_thumbprint new_public_key proof =>
                verify_rotation item entity_key operational_key previous_kid previous_thumbprint
                  new_kid new_thumbprint new_public_key proof
            | _ => verify_entity_event item entity_key ;; Ok operational_key
            end;
          st' ← next_state (ls_prev_state st) event entity_key operational_key;
          Ok (entity_key, operational_key, st')
      | _, _ => Raise (verr "lifecycle keys were not established by ISSUANCE")
      end
  end.

Definition lifecycle_step (st : lifecycle_state) (prev : option VerifiedLifecycleEvent)
    (item : VerifiedLifecycleEvent) : res lifecycle_state :=
  '(ek, ku, state) ← lifecycle_body st prev item;
  Ok {| ls_terminal := ls_terminal st || is_terminal (vl_event item); ls_prev_state := state;
        ls_entity_key := Some ek; ls_operational_key := Some ku |}.

Context (check : list nat → res unit).

Fixpoint lifecycle_loop (path : list nat) (pos : nat) (st : lifecycle_state)
    (prev : option VerifiedLifecycleEvent) (events : list VerifiedLifecycleEvent) : res lifecycle_state :=
  match events with
  | [] => Ok st
  | item :: events =>
      check (pos :: path) ;;
      st' ← lifecycle_step st prev item;
      lifecycle_loop path (S pos) st' (Some item) events
  end.

(** The body of the function, inside the decorator's checks. *)
Definition verify_lifecycle_body (path : list nat) (events : list VerifiedLifecycleEvent) : res lifecycle_state :=
  raise_if (match events with [] => true | _ => false end) (verr "lifecycle contains no ISSUANCE event") ;;
  raise_if (vo_unchained opts) (verr "unchained lifecycle verification is not supported") ;;
  lifecycle_loop path 0 initial_state None events.

(** [verify_lifecycle], decorated by [@verification_operation]: a deadline
    check before and one after the body. *)
Definition verify_lifecycle (path : list nat) (events : list VerifiedLifecycleEvent) : res unit :=
  check (0%nat :: path) ;;
  verify_lifecycle_body (2%nat :: path) events ;;
  check (1%nat :: path).

(** ** Authentication of candidates *)

(** Keys in force after the last of [selected]. *)
Fixpoint rotate_keys (operational_key : JWK) (items : list VerifiedLifecycleEvent) : res JWK :=
  match items with
  | [] => Ok operational_key
  | item :: items =>
      match ev_body (vl_event item) with
      | KeyRotationEvent _ _ _ _ _ (Some k) _ => rotate_keys k items
      | KeyRotationEvent _ _ _ _ _ None _ =>
          Raise (verr "KEY_ROTATION is missing c2sp-tlog key metadata")
      | _ => rotate_keys operational_key items
      end
  end.

Definition genesis_keys (verify_migration : option (LogEvent → res MigrationVerificationResult))
    (first : LogEvent) : res (JWK * JWK) :=
  match ev_body first, verify_migration with
  | IssuanceEvent _ (Some ek) (Some ku), _ => Ok (ek, ku)
  | IssuanceEvent _ _ _, _ => Raise (verr "ISSUANCE is missing c2sp-tlog key metadata")
  | MigrationEvent _ _ _, Some f =>
      migrated ← f first; Ok (mr_entity_key migrated, mr_operational_key migrated)
  | _, _ => Raise (verr "lifecycle keys require ISSUANCE or verified MIGRATION")
  end.
End options.

Definition applied_keys (opts : StreamVerifierOptions) (selected : list VerifiedLifecycleEvent)
    : res (JWK * JWK) :=
  match last selected, selected with
  | Some l, first :: rest =>
      match vl_post_keys l with
      | Some keys => Ok keys
      | None =>
          '(entity_key, operational_key) ← genesis_keys (vo_verify_migration opts) (vl_event first);
          operational_key ← rotate_keys operational_key rest;
          Ok (entity_key, operational_key)
      end
  | _, _ => Raise (IndexError (lit "list index out of range"))
  end.

(** [except C2spTlogResourceLimitError: raise], then the two verification
    errors as [False]. *)
Definition rejected_is_false (m : res bool) : res bool :=
  try_except m
    (λ e, if is_resource_limit e then Raise e
          else if is_c2sp_verification e || is_verification e then Ok false else Raise e).

Definition migration_signed_by (candidate : VerifiedLifecycleEvent) (key : JWK) : res bool :=
  if negb (py_eq (JStr (ev_signing_kid (vl_event candidate))) (jwk_kid key)) then Ok false
  else
    rejected_is_false
      (verify_event_signature candidate (ev_sig (vl_event candidate)) key
         (lit "invalid MIGRATION entity signature") ;; Ok true).

(** [_candidate_is_authenticated] for a migration at genesis ... *)
Definition migration_is_authenticated (opts : StreamVerifierOptions) (candidate : VerifiedLifecycleEvent)
    : res bool :=
  match vo_verify_migration opts with
  | None => Raise (verr "MIGRATION requires verified prior-log history")
  | Some verify_migration =>
      match vo_signer_key opts with
      | None =>
          migrated ← verify_migration (vl_event candidate);
          migration_signed_by candidate (mr_entity_key migrated)
      | Some key =>
          signed ← migration_signed_by candidate key;
          if signed : bool then verify_migration (vl_event candidate) ;; Ok true else Ok false
      end
  end.

(** ... for any other candidate at genesis ... *)
Definition genesis_is_authenticated (opts : StreamVerifierOptions) (candidate : VerifiedLifecycleEvent)
    : res bool :=
  let event := vl_event candidate in
  match ev_body event with
  | IssuanceEvent _ (Some ek) (Some ku) =>
      if negb (py_eq (JStr (ev_signing_kid event)) (jwk_kid ek)) then Ok false
      else
        bad ← not_trusted opts ek;
        if bad : bool then Ok false
        else
          verify_event_signature candidate (ev_sig event) ek (lit "invalid ISSUANCE entity signature") ;;
          verify_event_signature candidate (ev_operational_countersig event) ku
            (lit "invalid ISSUANCE operational countersignature") ;;
          Ok true
  | _ => Ok false
  end.

(** ... and for a successor, under the keys its predecessors established. *)
Definition successor_is_authenticated (candidate : VerifiedLifecycleEvent)
    (entity_key operational_key : JWK) : res bool :=
  let event := vl_event candidate in
  let by_entity :=
    if negb (py_eq (JStr (ev_signing_kid event)) (jwk_kid entity_key)) then Ok false
    else
      verify_event_signature candidate (ev_sig event) entity_key (lit "invalid lifecycle entity signature") ;;
      Ok true in
  match ev_body event with
  | IssuanceEvent _ (Some ek) (Some ku) =>
      same ← same_thumbprint ek entity_key;
      if negb same then Ok false
      else
        verify_event_signature candidate (ev_operational_countersig event) ku
          (lit "invalid ISSUANCE countersignature") ;;
        by_entity
  | IssuanceEvent _ _ _ => Ok false
  | KeyRotationEvent previous_kid _ _ _ _ new_public_key proof =>
      if negb (py_eq (JStr previous_kid) (jwk_kid operational_key)) then Ok false
      else
        verify_event_signature candidate (ev_sig event) operational_key (lit "invalid KEY_ROTATION signature") ;;
        match new_public_key with
        | None => Ok false
        | Some k =>
            verify_event_signature candidate proof k (lit "invalid KEY_ROTATION proof") ;; Ok true
        end
  | _ => by_entity
  end.

Definition candidate_is_authenticated (opts : StreamVerifierOptions) (candidate : VerifiedLifecycleEvent)
    (selected : list VerifiedLifecycleEvent) : res bool :=
  match selected with
  | [] => if is_migration (vl_event candidate) then migration_is_authenticated opts candidate
          else rejected_is_false (genesis_is_authenticated opts candidate)
  | _ => rejected_is_false
           ('(entity_key, operational_key) ← applied_keys opts selected;
            successor_is_authenticated candidate entity_key operational_key)
  end.

(** ** Selection *)

(** The applied events with their identifiers, in the order of application:
    the list [selected] and the dict [applied] in one. *)
Abbreviation history := (list (str * VerifiedLifecycleEvent)) (only parsing).

(** The events up to and including the one with identifier [id]. *)
Fixpoint upto (id : str) (h : history) : option (list VerifiedLifecycleEvent) :=
  match h with
  | [] => None
  | (k, v) :: h => if k ==? id then Some [v] else option_map (cons v) (upto id h)
  end.

Definition applied_get (id : str) (h : history) : option VerifiedLifecycleEvent :=
  match List.find (λ kv, kv.1 ==? id) h with Some kv => Some kv.2 | None => None end.

(** [str(raw.get("prev_event_id", ""))] where it matters: the text of a value
    that is not a string is never a 43-character identifier. *)
Definition prev_id_text (d : list (str * json)) : str :=
  match get "prev_event_id" (JStr []) d with JStr s => s | _ => [] end.

(** The signer state a candidate is judged under. *)
Definition authority_of (id : str) (h : history) : list VerifiedLifecycleEvent :=
  match upto id h with Some l => l | None => map snd h end.

(** [sig.kid == keys[role].kid and keys[role].verify(signed, b64url_decode(sig.sig))] for all roles *)
Fixpoint all_roles_verify (keys : string → option JWK) (signed : bytes)
    (sigs : list (string * C2spSignatureValue)) : res bool :=
  match sigs with
  | [] => Ok true
  | (role, sig) :: sigs =>
      match keys role with
      | None => Raise (KeyError (lit role))
      | Some k =>
          if negb (py_eq (JStr (sv_kid sig)) (jwk_kid k)) then Ok false
          else
            b ← b64url_decode (sv_sig sig);
            ok ← jwk_verify k signed b;
            if ok : bool then all_roles_verify keys signed sigs else Ok false
      end
  end.

Definition malformed_keys (opts : StreamVerifierOptions) (h : history) (d : list (str * json))
    : res (option (JWK * JWK)) :=
  match h with
  | [] =>
      if negb (is_str "ISSUANCE" (get "type" JNull d)) then Ok None
      else
        ek ← item "ek" d; entity ← jwk_from_dict ek;
        ku ← item "ku" d; operational ← jwk_from_dict ku;
        bad ← match vo_signer_key opts with
              | None => Ok false
              | Some sk => same ← same_thumbprint entity sk; Ok (negb same)
              end;
        Ok (if bad : bool then None else Some (entity, operational))
  | _ =>
      let authority := match get "prev_event_id" JNull d with
                       | JStr s => authority_of s h
                       | _ => map snd h
                       end in
      keys ← applied_keys opts authority; Ok (Some keys)
  end.

Definition malformed_authenticated (opts : StreamVerifierOptions) (data : bytes) (domain : str)
    (h : history) : res bool :=
  try_except
    (obj ← parse_json_no_duplicate_members data;
     signed ← signed_c2sp_entry_bytes data;
     validate_public_fields obj (vo_context opts) ;;
     match obj with
     | JDict d =>
         if negb (py_eq (get "fqdn" JNull d) (JStr domain)) || negb (is_int 1 (get "v" JNull d))
            || negb (is_str "dnsid.lifecycle" (get "kind" JNull d)) then Ok false
         else
           signatures ← parse_c2sp_signatures (get "sigs" JNull d) (get "type" JNull d) true;
           keys ← malformed_keys opts h d;
           match keys with
           | None => Ok false
           | Some (entity, operational) =>
               let has_role r := bool_decide (is_Some (sig_of r signatures)) in
               foreign ← (if has_role "op"%string then
                            ek ← item "ek" d; k ← jwk_from_dict ek;
                            same ← same_thumbprint k entity; Ok (negb same)
                          else Ok false);
               if foreign : bool then Ok false
               else
                 op ← (if has_role "op"%string then ku ← item "ku" d; k ← jwk_from_dict ku; Ok (Some k)
                       else Ok None);
                 new_op ← (if has_role "new_op"%string then ku ← item "new_ku" d; k ← jwk_from_dict ku; Ok (Some k)
                           else Ok None);
                 all_roles_verify
                   (λ r, if String.eqb r "ae" then Some entity
                         else if String.eqb r "prev_op" then Some operational
                         else if String.eqb r "op" then op
                         else if String.eqb r "new_op" then new_op else None)
                   signed signatures
           end
     | _ => Raise (AttributeError (lit "object has no attribute 'get'"))
     end)
    (λ e, if is_resource_limit e then Raise e else Ok false).

Definition authenticated_failure_category (error : exn) (event : LogEvent) : option category :=
  match (if is_c2sp_verification error then exn_category error else None) with
  | Some c => Some c
  | None =>
      let message := exn_str error in
      if contains (lit "seq") message || contains (lit "prev_") message
         || contains (lit "public lifecycle event") message then Some CHAIN_CONTINUITY
      else match ev_body event with
           | KeyRotationEvent _ _ _ _ _ _ _ => Some KEY_CONTINUITY
           | MigrationEvent _ _ _ => Some INVALID_MIGRATION
           | _ => if contains (lit "terminal lifecycle") message then Some TERMINAL_STATE else None
           end
  end.

(** [try: ... except C2spTlogResourceLimitError: raise; except Exception as exc: ...] as a
    value: the inner result is the outcome, the outer error the re-raised limit. *)
Definition attempt {A} (m : res A) : res (A + exn) :=
  match m with
  | Ok a => Ok (inl a)
  | Raise e => if is_resource_limit e then Raise e else Ok (inr e)
  end.

Definition is_deadline (e : exn) : bool :=
  match e with VerificationError DEADLINE_EXCEEDED _ _ _ => true | _ => false end.

(** What an entry of the domain offers before authentication. *)
Definition entry_head (opts : StreamVerifierOptions) (data : bytes)
    : res (list (str * json) * bytes * str) :=
  obj ← parse_json_no_duplicate_members data;
  validate_public_fields obj (vo_context opts) ;;
  signed ← signed_c2sp_entry_bytes data;
  identifier ← c2sp_event_id data;
  match obj with
  | JDict d => Ok (d, signed, identifier)
  | _ => Raise (AttributeError (lit "object has no attribute 'get'"))
  end.

Definition candidate_error (msg : string) (c : option category) (entry : IndexedEntry) : exn :=
  C2spTlogVerificationError (lit msg) c (Some (ie_index entry)).

(** The pause for the predecessor read of a migration at genesis.  The driver
    [run_verification] lets a missed deadline through and throws any other
    failure into the [try] at the pause. *)
Definition resolve_migration (opts : StreamVerifierOptions) (candidate : VerifiedLifecycleEvent)
    : res (unit + exn) :=
  wanted ← attempt (match vo_signer_key opts with
                    | None => Ok true
                    | Some key => migration_signed_by candidate key
                    end);
  match wanted with
  | inr e => Ok (inr e)
  | inl false => Ok (inl ())
  | inl true =>
      match vo_verify_migration opts with
      | None => Ok (inl ())
      | Some f =>
          match f (vl_event candidate) with
          | Ok _ => Ok (inl ())
          | Raise e => if is_deadline e then Raise e else attempt (Raise e)
          end
      end
  end.

(** The authentication block; [Ok false] skips the entry. *)
Definition authenticate (opts : StreamVerifierOptions) (entry : IndexedEntry)
    (candidate : VerifiedLifecycleEvent) (d : list (str * json)) (h : history) : res bool :=
  let genesis_migration := (match h with [] => true | _ => false end) && is_migration (vl_event candidate) in
  resolved ← (if genesis_migration then resolve_migration opts candidate else Ok (inl ()));
  outcome ← match resolved with
            | inr e => Ok (inr e)
            | inl _ => attempt (candidate_is_authenticated opts candidate (authority_of (prev_id_text d) h))
            end;
  match outcome with
  | inl b => Ok b
  | inr e =>
      if genesis_migration then
        Raise (candidate_error "MIGRATION prior-log history could not be verified"
                 (Some INVALID_MIGRATION) entry)
      else Ok false
  end.

Definition with_post_keys (keys : JWK * JWK) (v : VerifiedLifecycleEvent) : VerifiedLifecycleEvent :=
  {| vl_index := vl_index v; vl_leaf_hash := vl_leaf_hash v; vl_data := vl_data v;
     vl_event := vl_event v; vl_chain := vl_chain v; vl_post_keys := Some keys |}.

Definition nonempty {A} (l : list A) : bool := match l with [] => false | _ => true end.

Section selection.
Context (opts : StreamVerifierOptions) (check : list nat → res unit) (domain : str).

(** An authenticated candidate is applied, or the stream is rejected. *)
Definition apply_candidate (path : list nat) (entry : IndexedEntry) (identifier : str)
    (candidate : VerifiedLifecycleEvent) (chain_error : option exn) (h : history) : res history :=
  raise_if (bool_decide (is_Some chain_error))
    (candidate_error "authenticated lifecycle candidate has invalid chain fields"
       (Some CHAIN_CONTINUITY) entry) ;;
  raise_if (nonempty h && is_issuance (vl_event candidate))
    (candidate_error "authenticated duplicate ISSUANCE event" (Some DUPLICATE_ISSUANCE) entry) ;;
  outcome ← attempt (verify_lifecycle opts check path (map snd h ++ [candidate]));
  match outcome with
  | inr e =>
      Raise (candidate_error "authenticated lifecycle candidate is invalid"
               (authenticated_failure_category e (vl_event candidate)) entry)
  | inl _ =>
      keys ← applied_keys opts (map snd h ++ [candidate]);
      Ok (h ++ [(identifier, with_post_keys keys candidate)])
  end.

(** A parsed event of the domain that is not yet applied. *)
Definition consider_event (path : list nat) (entry : IndexedEntry) (d : list (str * json))
    (identifier : str) (event : LogEvent) (h : history) : res history :=
  if negb (ev_domain event ==? domain) then Ok h
  else
    parsed ← attempt (obj ← parse_json_no_duplicate_members (ie_data entry); parse_chain_fields obj);
    let chain := match parsed with inl c => c | inr _ => empty_chain end in
    let chain_error := match parsed with inl _ => None | inr e => Some e end in
    let candidate := {| vl_index := ie_index entry; vl_leaf_hash := leaf_hash (ie_data entry);
                        vl_data := ie_data entry; vl_event := event; vl_chain := chain;
                        vl_post_keys := None |} in
    if negb (nonempty h) && negb (is_issuance event || is_migration event) then Ok h
    else
      raise_if (negb (nonempty h) && is_migration event
                && match vo_verify_migration opts with None => true | Some _ => false end)
        (candidate_error "MIGRATION requires verified prior-log history" (Some INVALID_MIGRATION) entry) ;;
      authenticated ← authenticate opts entry candidate d h;
      if authenticated : bool then apply_candidate path entry identifier candidate chain_error h
      else Ok h.

(** One round of the selection loop. *)
Definition select_entry (path : list nat) (h : history) (entry : IndexedEntry) : res history :=
  check (0%nat :: path) ;;
  head ← attempt (entry_head opts (ie_data entry));
  match head with
  | inr _ => Ok h
  | inl (d, signed, identifier) =>
      if negb (py_eq (get "fqdn" JNull d) (JStr domain)) then Ok h
      else
        match applied_get identifier h with
        | Some previous_copy =>
            signed' ← signed_c2sp_entry_bytes (vl_data previous_copy);
            raise_if (negb (signed' ==? signed)) (verr "logical event ID collision") ;;
            Ok h
        | None =>
            parsed ← attempt (parse_c2sp_event_entry (ie_data entry) (vo_context opts) true);
            match parsed with
            | inr _ =>
                bad ← malformed_authenticated opts (ie_data entry) domain h;
                raise_if bad
                  (candidate_error "authenticated lifecycle candidate is malformed"
                     (Some INVALID_EVIDENCE) entry) ;;
                Ok h
            | inl event => consider_event (1%nat :: path) entry d identifier event h
            end
        end
  end.

Fixpoint select_loop (i : nat) (h : history) (entries : list IndexedEntry) : res history :=
  match entries with
  | [] => Ok h
  | entry :: entries => h' ← select_entry [i; 0]%nat h entry; select_loop (S i) h' entries
  end.

(** ** The pause for a predecessor

    [_verify_stream_lifecycle_steps] hands the genesis MIGRATION to its driver and
    waits for the outcome.  The event handed over at this entry, when no event is
    applied yet, ... *)
Definition pauses_at (i : nat) (entry : IndexedEntry) : option LogEvent :=
  match check [0; i; 0]%nat, entry_head opts (ie_data entry), vo_verify_migration opts with
  | Ok _, Ok (d, _, _), Some _ =>
      if negb (py_eq (get "fqdn" JNull d) (JStr domain)) then None
      else
        match parse_c2sp_event_entry (ie_data entry) (vo_context opts) true with
        | Ok event =>
            let candidate := {| vl_index := ie_index entry; vl_leaf_hash := leaf_hash (ie_data entry);
                                vl_data := ie_data entry; vl_event := event; vl_chain := empty_chain;
                                vl_post_keys := None |} in
            if (ev_domain event ==? domain) && is_migration event
               && match vo_signer_key opts with
                  | None => true
                  | Some key => match migration_signed_by candidate key with Ok b => b | Raise _ => false end
                  end
            then Some event else None
        | Raise _ => None
        end
  | _, _, _ => None
  end.

(** ... and the first of a scan, up to the entry that is applied or rejected. *)
Fixpoint first_pause (i : nat) (entries : list IndexedEntry) : option LogEvent :=
  match entries with
  | [] => None
  | entry :: entries =>
      match pauses_at i entry with
      | Some event => Some event
      | None =>
          match select_entry [i; 0]%nat [] entry with
          | Ok [] => first_pause (S i) entries
          | _ => None
          end
      end
  end.

(** The first event with the identifier, and the events before it. *)
Fixpoint find_occurrence (id : str) (before selected : list VerifiedLifecycleEvent)
    : res (option (list VerifiedLifecycleEvent * VerifiedLifecycleEvent)) :=
  match selected with
  | [] => Ok None
  | v :: selected =>
      k ← event_id v;
      if k ==? id then Ok (Some (before, v)) else find_occurrence id (before ++ [v]) selected
  end.

(** An exact physical copy of an applied event. *)
Definition verify_occurrence (entry : IndexedEntry) (selected : list VerifiedLifecycleEvent)
    : res VerifiedLifecycleEvent :=
  event ← parse_c2sp_event_entry (ie_data entry) (vo_context opts) false;
  obj ← parse_json_no_duplicate_members (ie_data entry);
  chain ← parse_chain_fields obj;
  let item := {| vl_index := ie_index entry; vl_leaf_hash := leaf_hash (ie_data entry);
                 vl_data := ie_data entry; vl_event := event; vl_chain := chain; vl_post_keys := None |} in
  id ← event_id item;
  found ← find_occurrence id [] selected;
  match found with
  | None => Raise (verr "occurrence is not in the verified lifecycle")
  | Some (authority, original) =>
      so ← signed_c2sp_entry_bytes (vl_data original);
      si ← signed_c2sp_entry_bytes (vl_data item);
      raise_if (negb (so ==? si)) (verr "occurrence is not in the verified lifecycle") ;;
      let opts' := match authority, vl_post_keys original with
                   | [], Some (ek, ku) =>
                       if is_migration event then
                         set_verify_migration
                           (λ _, Ok {| mr_entity_key := ek; mr_operational_key := ku; mr_prior_events := []; mr_prior_event_refs := [] |}) opts
                       else opts
                   | _, _ => opts
                   end in
      ok ← candidate_is_authenticated opts' item authority;
      raise_if (negb ok) (verr "invalid signed occurrence") ;;
      Ok item
  end.

(** [sorted(entries, key=lambda e: e.index)] *)
Fixpoint insert_entry (e : IndexedEntry) (l : list IndexedEntry) : list IndexedEntry :=
  match l with
  | [] => [e]
  | x :: l => if ie_index e <=? ie_index x then e :: x :: l else x :: insert_entry e l
  end.
Definition sort_entries (l : list IndexedEntry) : list IndexedEntry := foldr insert_entry [] l.

(** The replacement of the last event by the copy at the cutoff. *)
Definition apply_cutoff (entries : list IndexedEntry) (selected : list VerifiedLifecycleEvent)
    : res (list VerifiedLifecycleEvent) :=
  match vo_cutoff_index opts with
  | None => Ok selected
  | Some cutoff =>
      match List.find (λ e, ie_index e =? cutoff) entries, last selected with
      | None, _ => Raise (verr "missing exact migration cutoff occurrence")
      | Some _, None => Raise (IndexError (lit "list index out of range"))
      | Some cutoff_entry, Some final =>
          occurrence ← verify_occurrence cutoff_entry selected;
          a ← event_id occurrence;
          b ← event_id final;
          raise_if (negb (a ==? b)) (verr "cutoff does not identify final logical event") ;;
          Ok (removelast selected
              ++ [{| vl_index := ie_index cutoff_entry; vl_leaf_hash := vl_leaf_hash occurrence;
                     vl_data := ie_data cutoff_entry; vl_event := vl_event final;
                     vl_chain := vl_chain final; vl_post_keys := vl_post_keys final |}])
      end
  end.

(** [_verify_stream_lifecycle_steps], with its pause resolved. *)
Definition verify_stream_lifecycle_steps (entries : list IndexedEntry) : res (list VerifiedLifecycleEvent) :=
  raise_if ((vo_max_entries opts <=? 0) || (vo_max_entry_bytes opts <=? 0))
    (verr "lifecycle limits must be positive integers") ;;
  raise_if ((vo_max_entries opts <? len entries)
            || (vo_max_entry_bytes opts <? foldr (λ e a, len (ie_data e) + a) 0 entries))
    (verr "lifecycle input limit exceeded") ;;
  h ← select_loop 0 [] (sort_entries entries);
  verify_lifecycle opts check [1%nat] (map snd h) ;;
  apply_cutoff entries (map snd h).

Definition lifecycle_pause (entries : list IndexedEntry) : option LogEvent :=
  if (vo_max_entries opts <=? 0) || (vo_max_entry_bytes opts <=? 0) || (vo_max_entries opts <? len entries)
     || (vo_max_entry_bytes opts <? foldr (λ e a, len (ie_data e) + a) 0 entries)
  then None
  else first_pause 0 (sort_entries entries).

(** [verify_stream_lifecycle], decorated by [@verification_operation]. *)
Definition verify_stream_lifecycle (entries : list IndexedEntry) : res (list VerifiedLifecycleEvent) :=
  check [2%nat] ;;
  selected ← verify_stream_lifecycle_steps entries;
  check [3%nat] ;;
  Ok selected.
End selection.
End verifier.
