(* ===== verification/LifecycleSpec.v ===== *)
(** * What an accepted lifecycle is

    An abstract specification of identity lifecycles (a state machine over the
    identity, its transitions authorised by signatures), and the theorem that
    [verify_lifecycle] accepts exactly its runs. *)
From S2P Require Import Prelude Sha256 Errors PyText Base64 PyFloat PyTime Canonical Keys EventCodec StreamVerifier.

(** ** The abstract machine *)
Inductive status : Set := Active | Revoked | Retired.

#[global] Instance status_eq_dec : EqDecision status.
Proof. solve_decision. Defined.

Record identity : Set := {
  id_status : status;
  id_domain : str;
  id_entity : JWK;
  id_operational : JWK
}.

Definition status_name (s : status) : string :=
  match s with Active => "ACTIVE" | Revoked => "REVOKED" | Retired => "RETIRED" end.

Section spec.
Context `{Platform} (opts : StreamVerifierOptions).

(** The state object whose hash the next event must name. *)
Definition identity_state (s : identity) : res json :=
  state_with (status_name (id_status s)) (id_domain s) (id_entity s) (id_operational s).

(** [sig] is a signature by [key] over the signed bytes of the entry. *)
Definition signed_by (key : JWK) (item : VerifiedLifecycleEvent) (sig : str) : Prop :=
  ∃ b signed, b64url_decode sig = Ok b ∧ signed_c2sp_entry_bytes (vl_data item) = Ok signed
    ∧ jwk_verify key signed b = Ok true.

Definition distinct (a b : JWK) : Prop :=
  ∃ ta tb, thumbprint a = Ok ta ∧ thumbprint b = Ok tb ∧ ta ≠ tb.

(** The entity key is the one the caller trusts, when it names one. *)
Definition trusted (key : JWK) : Prop :=
  ∀ sk, vo_signer_key opts = Some sk → ∃ t, thumbprint sk = Ok t ∧ thumbprint key = Ok t.

Definition kid_is (kid : str) (key : JWK) : Prop := jwk_kid key = JStr kid.

(** Events that may open a stream. *)
Inductive genesis (item : VerifiedLifecycleEvent) : identity → Prop :=
| genesis_issuance gi ek ku :
    ev_body (vl_event item) = IssuanceEvent gi (Some ek) (Some ku) →
    falsy (jwk_kid ek) = false → falsy (jwk_kid ku) = false →
    distinct ek ku → trusted ek →
    signed_by ek item (ev_sig (vl_event item)) →
    ev_operational_countersig (vl_event item) ≠ [] →
    signed_by ku item (ev_operational_countersig (vl_event item)) →
    genesis item {| id_status := Active; id_domain := ev_domain (vl_event item);
                    id_entity := ek; id_operational := ku |}
| genesis_migration previous_log new_log final_ref verify_migration r :
    ev_body (vl_event item) = MigrationEvent previous_log new_log final_ref →
    previous_log ≠ [] → previous_log ≠ new_log →
    vo_verify_migration opts = Some verify_migration →
    (truthy (ctx_lr (vo_context opts)) = true → ctx_lr (vo_context opts) = Some new_log) →
    verify_migration (vl_event item) = Ok r →
    distinct (mr_entity_key r) (mr_operational_key r) → trusted (mr_entity_key r) →
    kid_is (ev_signing_kid (vl_event item)) (mr_entity_key r) →
    signed_by (mr_entity_key r) item (ev_sig (vl_event item)) →
    genesis item {| id_status := Active; id_domain := ev_domain (vl_event item);
                    id_entity := mr_entity_key r; id_operational := mr_operational_key r |}.

(** Signed by the entity key under its own key identifier. *)
Definition entity_signed (s : identity) (item : VerifiedLifecycleEvent) : Prop :=
  kid_is (ev_signing_kid (vl_event item)) (id_entity s)
  ∧ signed_by (id_entity s) item (ev_sig (vl_event item)).

(** Events that may follow. *)
Inductive transition (s : identity) (item : VerifiedLifecycleEvent) : identity → Prop :=
| rotates previous_kid previous_thumbprint pk new_thumbprint key proof new_kid :
    ev_body (vl_event item)
      = KeyRotationEvent previous_kid previous_thumbprint pk new_kid new_thumbprint (Some key) proof →
    thumbprint (id_operational s) = Ok previous_thumbprint → kid_is previous_kid (id_operational s) →
    new_thumbprint ≠ [] → thumbprint key = Ok new_thumbprint → py_eq new_kid (jwk_kid key) = true →
    distinct key (id_operational s) → distinct key (id_entity s) →
    signed_by (id_operational s) item (ev_sig (vl_event item)) →
    proof ≠ [] → signed_by key item proof →
    transition s item {| id_status := Active; id_domain := ev_domain (vl_event item);
                         id_entity := id_entity s; id_operational := key |}
| delegates delegatee scope expiry :
    ev_body (vl_event item) = DelegationEvent delegatee scope expiry → entity_signed s item →
    transition s item s
| revokes reason :
    ev_body (vl_event item) = RevocationEvent reason → is_revocation_reason reason = true →
    entity_signed s item →
    transition s item {| id_status := Revoked; id_domain := ev_domain (vl_event item);
                         id_entity := id_entity s; id_operational := id_operational s |}
| retires :
    ev_body (vl_event item) = RetirementEvent → entity_signed s item →
    transition s item {| id_status := Retired; id_domain := ev_domain (vl_event item);
                         id_entity := id_entity s; id_operational := id_operational s |}.

(** Not later than the accepted checkpoint, and carrying a signature. *)
Definition timely (item : VerifiedLifecycleEvent) : Prop :=
  (∃ limit, vo_integration_time_ms opts = Some limit
     ∧ later_than (ev_timestamp (vl_event item)) limit = false)
  ∧ ev_sig (vl_event item) ≠ [].

(** The hash chain: number, identifier of the predecessor, hash of its state. *)
Definition linked (prev item : VerifiedLifecycleEvent) (s : identity) : Prop :=
  ∃ n id state h,
    ch_seq (vl_chain prev) = Some n ∧ ch_seq (vl_chain item) = Some (n + 1)
    ∧ event_id prev = Ok id ∧ ch_prev_event_id (vl_chain item) = Some id
    ∧ identity_state s = Ok state ∧ state_hash state = Ok h
    ∧ ch_prev_state_hash (vl_chain item) = Some h.

Definition opening (item : VerifiedLifecycleEvent) : Prop :=
  ch_seq (vl_chain item) = Some 0 ∧ ch_prev_event_id (vl_chain item) = None
  ∧ ch_prev_state_hash (vl_chain item) = None.

(** Runs of the machine and the identity they lead to. *)
Inductive lifecycle : list VerifiedLifecycleEvent → identity → Prop :=
| lifecycle_opens item s :
    opening item → timely item → genesis item s → is_Ok (identity_state s) = true →
    lifecycle [item] s
| lifecycle_continues events prev item s s' :
    lifecycle (events ++ [prev]) s → id_status s = Active →
    linked prev item s → timely item → transition s item s' → is_Ok (identity_state s') = true →
    lifecycle (events ++ [prev; item]) s'.

(** ** The code's checks and the machine's premises *)
Lemma verify_event_signature_Ok item sig key msg :
  verify_event_signature item sig key msg = Ok () ↔ signed_by key item sig.
Proof.
  unfold verify_event_signature, signed_by. split.
  - intros Hv. bind_step Hv as ok Hok. apply raise_if_Ok in Hv. destruct ok; [|done].
    destruct (b64url_decode sig) as [b|e] eqn:Hb; cbn in Hok; [|by case_match].
    destruct (signed_c2sp_entry_bytes (vl_data item)) as [sg|e] eqn:Hs; cbn in Hok; [|by case_match].
    exists b, sg. split_and!; [done..|]. destruct (jwk_verify key sg b); cbn in Hok; [done|by case_match].
  - intros (b & sg & -> & -> & Hk). cbn. by rewrite Hk.
Qed.

Lemma same_thumbprint_false a b : same_thumbprint a b = Ok false ↔ distinct a b.
Proof.
  unfold same_thumbprint, distinct. split.
  - intros Hs. bind_step Hs as ta Ha. bind_step Hs as tb Hb. injection Hs as Hs%eqb_false. eauto 6.
  - intros (ta & tb & -> & -> & Hne). cbn. by rewrite (proj2 (eqb_false _ _) Hne).
Qed.

Lemma not_trusted_false key : not_trusted opts key = Ok false ↔ trusted key.
Proof.
  unfold not_trusted, trusted. destruct (vo_signer_key opts) as [sk|]; [|naive_solver].
  unfold same_thumbprint. split.
  - intros Hs sk' [= <-]. bind_step Hs as s Hs'. bind_step Hs' as ta Ha. bind_step Hs' as tb Hb.
    injection Hs' as <-. injection Hs as Hs. rewrite negb_false_iff, eqb_true in Hs. subst tb. eauto.
  - intros Ht. destruct (Ht sk eq_refl) as (t & -> & ->). cbn. by rewrite eqb_refl.
Qed.

Lemma kid_is_eq kid key : negb (py_eq (JStr kid) (jwk_kid key)) = false ↔ kid_is kid key.
Proof. unfold kid_is. rewrite negb_false_iff. apply py_eq_str_l. Qed.

Lemma eqb_nil_false (s : str) : (s ==? []) = false ↔ s ≠ [].
Proof. apply eqb_false. Qed.

Lemma verify_issuance_Ok item ek ku r :
  verify_issuance opts item ek ku = Ok r ↔
  ∃ e k st, ek = Some e ∧ ku = Some k ∧ falsy (jwk_kid e) = false ∧ falsy (jwk_kid k) = false
    ∧ distinct e k ∧ trusted e ∧ signed_by e item (ev_sig (vl_event item))
    ∧ ev_operational_countersig (vl_event item) ≠ []
    ∧ signed_by k item (ev_operational_countersig (vl_event item))
    ∧ active_state (ev_domain (vl_event item)) e k = Ok st ∧ r = (e, k, st).
Proof.
  unfold verify_issuance, assert_issuance_key_metadata. split.
  - intros Hv. bind_step Hv as [e k] Hm. destruct ek as [e'|], ku as [k'|]; try done.
    rewrite guard_Ok, orb_false_iff, bind_bool_guard in Hm. destruct Hm as ([H1 H2] & H3 & [= -> ->]).
    rewrite bind_bool_guard, bind_unit_Ok, guard_Ok, bind_unit_Ok in Hv.
    destruct Hv as (Ht & Hs & Hc & Hcs & Hv). bind_step Hv as st Hst. injection Hv as <-.
    rewrite same_thumbprint_false in H3. rewrite not_trusted_false in Ht. rewrite eqb_nil_false in Hc.
    rewrite verify_event_signature_Ok in Hs, Hcs. eauto 15.
  - intros (e & k & st & -> & -> & H1 & H2 & Hd & Ht & Hs & Hc & Hcs & Hst & ->).
    rewrite H1, H2. cbn [orb raise_if mbind result_bind]. rewrite (proj2 (same_thumbprint_false _ _) Hd). res_cbn.
    rewrite (proj2 (not_trusted_false _) Ht). res_cbn. rewrite (proj2 (verify_event_signature_Ok _ _ _ _) Hs). res_cbn.
    rewrite (proj2 (eqb_nil_false _) Hc). res_cbn. rewrite (proj2 (verify_event_signature_Ok _ _ _ _) Hcs). res_cbn.
    by rewrite Hst.
Qed.

Lemma verify_migration_genesis_Ok item previous_log new_log r :
  verify_migration_genesis opts item previous_log new_log = Ok r ↔
  ∃ f m st, previous_log ≠ [] ∧ previous_log ≠ new_log ∧ vo_verify_migration opts = Some f
    ∧ (truthy (ctx_lr (vo_context opts)) = true → ctx_lr (vo_context opts) = Some new_log)
    ∧ f (vl_event item) = Ok m ∧ distinct (mr_entity_key m) (mr_operational_key m)
    ∧ trusted (mr_entity_key m) ∧ kid_is (ev_signing_kid (vl_event item)) (mr_entity_key m)
    ∧ signed_by (mr_entity_key m) item (ev_sig (vl_event item))
    ∧ active_state (ev_domain (vl_event item)) (mr_entity_key m) (mr_operational_key m) = Ok st
    ∧ r = (mr_entity_key m, mr_operational_key m, st).
Proof.
  assert (truthy (ctx_lr (vo_context opts)) && negb (ctx_lr (vo_context opts) ==? Some new_log) = false
          ↔ (truthy (ctx_lr (vo_context opts)) = true → ctx_lr (vo_context opts) = Some new_log)) as Hlr.
  { rewrite andb_false_iff, negb_false_iff, eqb_true. destruct (truthy _); naive_solver. }
  unfold verify_migration_genesis. rewrite guard_Ok, orb_false_iff, !eqb_false. split.
  - intros ([Hp Hpn] & Hv). destruct (vo_verify_migration opts) as [f|]; [|done].
    rewrite guard_Ok, Hlr in Hv. destruct Hv as [Hl Hv]. bind_step Hv as m Hm.
    rewrite !bind_bool_guard, guard_Ok, bind_unit_Ok in Hv. destruct Hv as (Hd & Ht & Hk & Hs & Hv).
    bind_step Hv as st Hst. injection Hv as <-.
    rewrite same_thumbprint_false in Hd. rewrite not_trusted_false in Ht. rewrite kid_is_eq in Hk.
    rewrite verify_event_signature_Ok in Hs. exists f, m, st. eauto 15.
  - intros (f & m & st & Hp & Hpn & -> & Hl & Hm & Hd & Ht & Hk & Hs & Hst & ->).
    split; [done|]. rewrite (proj2 Hlr Hl). res_cbn. rewrite Hm. res_cbn.
    rewrite (proj2 (same_thumbprint_false _ _) Hd). res_cbn. rewrite (proj2 (not_trusted_false _) Ht). res_cbn.
    rewrite (proj2 (kid_is_eq _ _) Hk). res_cbn. rewrite (proj2 (verify_event_signature_Ok _ _ _ _) Hs). res_cbn.
    by rewrite Hst.
Qed.

Lemma verify_rotation_Ok item ek ku pkid pthumb nkid nthumb key proof k :
  verify_rotation item ek ku pkid pthumb nkid nthumb key proof = Ok k ↔
  thumbprint ku = Ok pthumb ∧ kid_is pkid ku ∧ key = Some k ∧ nthumb ≠ [] ∧ thumbprint k = Ok nthumb
  ∧ py_eq nkid (jwk_kid k) = true ∧ distinct k ku ∧ distinct k ek
  ∧ signed_by ku item (ev_sig (vl_event item)) ∧ proof ≠ [] ∧ signed_by k item proof.
Proof.
  unfold verify_rotation, assert_rotation_key_metadata. split.
  - intros Hv. bind_step Hv as ot Hot. rewrite guard_Ok, orb_false_iff, negb_false_iff, eqb_true, kid_is_eq in Hv.
    destruct Hv as ([-> Hk] & Hv). bind_step Hv as k' Hm. destruct key as [key|]; [|done].
    rewrite guard_Ok, eqb_nil_false in Hm. destruct Hm as [Hn Hm]. bind_step Hm as t Ht.
    rewrite !guard_Ok, !negb_false_iff, eqb_true in Hm. destruct Hm as (-> & Hnk & [= ->]).
    rewrite !bind_bool_guard, bind_unit_Ok, guard_Ok, bind_unit_Ok, eqb_nil_false in Hv.
    destruct Hv as (Hd1 & Hd2 & Hs & Hp & Hps & [= ->]).
    rewrite same_thumbprint_false in Hd1, Hd2. rewrite verify_event_signature_Ok in Hs, Hps. done.
  - intros (Hot & Hk & -> & Hn & Ht & Hnk & Hd1 & Hd2 & Hs & Hp & Hps).
    rewrite Hot. res_cbn. rewrite eqb_refl, (proj2 (kid_is_eq _ _) Hk). res_cbn.
    rewrite (proj2 (eqb_nil_false _) Hn). res_cbn. rewrite Ht. res_cbn. rewrite eqb_refl, Hnk. res_cbn.
    rewrite (proj2 (same_thumbprint_false _ _) Hd1). res_cbn. rewrite (proj2 (same_thumbprint_false _ _) Hd2). res_cbn.
    rewrite (proj2 (verify_event_signature_Ok _ _ _ _) Hs). res_cbn. rewrite (proj2 (eqb_nil_false _) Hp). res_cbn.
    by rewrite (proj2 (verify_event_signature_Ok _ _ _ _) Hps).
Qed.

(** Entity-signed events; a migration does not get here. *)
Lemma verify_entity_event_Ok item s : is_migration (vl_event item) = false →
  verify_entity_event item (id_entity s) = Ok () ↔
  entity_signed s item
  ∧ (∀ reason, ev_body (vl_event item) = RevocationEvent reason → is_revocation_reason reason = true).
Proof.
  intros Hm. unfold verify_entity_event, is_migration, entity_signed in *.
  assert (match ev_body (vl_event item) with
          | MigrationEvent previous_log new_log _ =>
              raise_if ((previous_log ==? []) || (previous_log ==? new_log))
                (verr_cat "MIGRATION must hand off to a different log" INVALID_MIGRATION)
          | _ => Ok () end = Ok ()) as -> by (by destruct (ev_body (vl_event item))).
  rewrite bind_unit_Ok, guard_Ok, bind_unit_Ok, kid_is_eq, verify_event_signature_Ok. split.
  - intros (_ & Hk & Hs & Hr). split; [done|]. intros reason Hb. rewrite Hb in Hr.
    apply raise_if_Ok in Hr. by rewrite negb_false_iff in Hr.
  - intros ([Hk Hs] & Hr). split_and!; [done..|]. destruct (ev_body (vl_event item)) eqn:Hb; try done.
    by rewrite (Hr _ eq_refl).
Qed.

(** ** The loop follows the machine *)
Definition loop_state (s : identity) (state : json) : lifecycle_state :=
  {| ls_terminal := bool_decide (id_status s ≠ Active); ls_prev_state := state;
     ls_entity_key := Some (id_entity s); ls_operational_key := Some (id_operational s) |}.

Lemma timely_Ok item :
  (match vo_integration_time_ms opts with
   | None => Raise (verr "accepted checkpoint integration time is required")
   | Some limit => raise_if (later_than (ev_timestamp (vl_event item)) limit)
                     (verr "event timestamp is later than checkpoint integration time")
   end = Ok ()) ∧ (ev_sig (vl_event item) ==? []) = false ↔ timely item.
Proof.
  unfold timely. rewrite eqb_nil_false. destruct (vo_integration_time_ms opts) as [limit|].
  - rewrite raise_if_Ok. naive_solver.
  - naive_solver.
Qed.

Lemma opening_Ok item : assert_first_chain_fields item = Ok () ↔ opening item.
Proof.
  unfold assert_first_chain_fields, opening.
  rewrite guard_Ok, raise_if_Ok, negb_false_iff, eqb_true, orb_false_iff, !bool_decide_eq_false.
  by rewrite !eq_None_not_Some.
Qed.

Lemma linked_Ok item prev s state : identity_state s = Ok state →
  assert_chain_fields item prev state = Ok () ↔ linked prev item s.
Proof.
  intros Hst. unfold assert_chain_fields, linked. split.
  - intros Hv. destruct (ch_seq (vl_chain prev)) as [n|]; [|done].
    rewrite guard_Ok, negb_false_iff, eqb_true in Hv. destruct Hv as [Hseq Hv]. bind_step Hv as id Hid.
    rewrite guard_Ok, negb_false_iff, eqb_true in Hv. destruct Hv as [Hp Hv]. bind_step Hv as h Hh.
    rewrite raise_if_Ok, negb_false_iff, eqb_true in Hv. eauto 15.
  - intros (n & id & st & h & -> & -> & -> & -> & Hst' & Hh & ->). rewrite Hst in Hst'.
    injection Hst' as ->. rewrite !eqb_refl. res_cbn. rewrite Hh. res_cbn. by rewrite ?eqb_refl.
Qed.

Lemma step_opens item st' :
  lifecycle_step opts initial_state None item = Ok st' ↔
  ∃ s state, opening item ∧ timely item ∧ genesis item s ∧ identity_state s = Ok state
    ∧ st' = loop_state s state.
Proof.
  unfold lifecycle_step, lifecycle_body. cbn [initial_state ls_terminal]. split.
  - intros Hv. bind_step Hv as [[ek ku] st] Hb. injection Hv as <-.
    rewrite !guard_Ok, bind_unit_Ok, bind_unit_Ok, guard_Ok, opening_Ok in Hb.
    destruct Hb as (_ & Hg & _ & _ & Ht & Ho & Hsig & Hb).
    assert (timely item) as Htime by (by apply timely_Ok). clear Ht Hsig.
    destruct (ev_body (vl_event item)) eqn:Hev; cbn [ls_entity_key ls_operational_key initial_state] in Hb;
      try done.
    + apply verify_issuance_Ok in Hb as (e & k & st0 & -> & -> & ? & ? & ? & ? & ? & ? & ? & Hst & [= -> -> ->]).
      eexists {| id_status := Active; id_domain := _; id_entity := e; id_operational := k |}, st0.
      split_and!; [done..| | |]; [by econstructor|exact Hst|].
      unfold loop_state, is_terminal. by rewrite Hev.
    + apply verify_migration_genesis_Ok in Hb
        as (f & m & st0 & ? & ? & ? & ? & ? & ? & ? & ? & ? & Hst & [= -> -> ->]).
      eexists {| id_status := Active; id_domain := _; id_entity := mr_entity_key m;
                 id_operational := mr_operational_key m |}, st0.
      split_and!; [done..| | |]; [by eapply genesis_migration|exact Hst|].
      unfold loop_state, is_terminal. by rewrite Hev.
  - intros (s & state & Ho & Ht & Hg & Hst & ->). apply timely_Ok in Ht as [Ht Hsig].
    rewrite Ht, Hsig, (proj2 (opening_Ok _) Ho). clear Ht Hsig Ho.
    destruct Hg as [gi ek ku Hev ? ? ? ? ? ? ?|pl nl fr f r Hev ? ? ? ? ? ? ? ? ?];
      unfold is_issuance, is_migration, is_terminal; rewrite Hev; cbn [andb orb negb raise_if mbind result_bind].
    + rewrite (proj2 (verify_issuance_Ok item (Some ek) (Some ku) (ek, ku, state))); [done|]. eauto 20.
    + rewrite (proj2 (verify_migration_genesis_Ok item pl nl (mr_entity_key r, mr_operational_key r, state)));
        [done|]. exists f, r, state. done.
Qed.

(** What a successor does to the keys and the state object. *)
Lemma successor_Ok s item state ek ku st : identity_state s = Ok state → id_status s = Active →
  is_issuance (vl_event item) = false → is_migration (vl_event item) = false →
  (ku' ← match ev_body (vl_event item) with
         | KeyRotationEvent pk pt _ nk nt key proof =>
             verify_rotation item (id_entity s) (id_operational s) pk pt nk nt key proof
         | _ => verify_entity_event item (id_entity s) ;; Ok (id_operational s)
         end;
   st' ← next_state state (vl_event item) (id_entity s) ku';
   Ok (id_entity s, ku', st')) = Ok (ek, ku, st) ↔
  ∃ s', transition s item s' ∧ identity_state s' = Ok st ∧ ek = id_entity s' ∧ ku = id_operational s'
    ∧ bool_decide (id_status s' ≠ Active) = is_terminal (vl_event item).
Proof.
  intros Hst Hact Hi Hm. split.
  - intros Hv. bind_step Hv as ku' Hku. bind_step Hv as st' Hst'. injection Hv as <- <- <-.
    unfold next_state, is_terminal, is_issuance, is_migration in *.
    destruct (ev_body (vl_event item)) as [?|pk pt pp nk nt key proof|reason| |?|de sc ex] eqn:Hev; try done.
    + apply verify_rotation_Ok in Hku as (? & ? & -> & ? & ? & ? & ? & ? & ? & ? & ?).
      eexists {| id_status := Active; id_domain := _; id_entity := id_entity s; id_operational := ku' |}.
      split_and!; [by eapply rotates|exact Hst'|done..].
    + rewrite bind_unit_Ok, verify_entity_event_Ok in Hku by (unfold is_migration; by rewrite Hev).
      destruct Hku as [[He Hr] [= <-]].
      eexists {| id_status := Revoked; id_domain := _; id_entity := id_entity s; id_operational := _ |}.
      split_and!; [by eapply revokes; eauto|exact Hst'|done..].
    + rewrite bind_unit_Ok, verify_entity_event_Ok in Hku by (unfold is_migration; by rewrite Hev).
      destruct Hku as [[He Hr] [= <-]].
      eexists {| id_status := Retired; id_domain := _; id_entity := id_entity s; id_operational := _ |}.
      split_and!; [by eapply retires|exact Hst'|done..].
    + rewrite bind_unit_Ok, verify_entity_event_Ok in Hku by (unfold is_migration; by rewrite Hev).
      destruct Hku as [[He Hr] [= <-]]. injection Hst' as <-. exists s.
      split_and!; [by eapply delegates|done|done|done|]. by rewrite Hact.
  - intros (s' & Ht & Hst' & -> & -> & _).
    assert (is_migration (vl_event item) = false) as Hm' by done.
    destruct Ht as [pk pt pp nt key proof nk Hev ? ? ? ? ? ? ? ? ? ?|de sc ex Hev ?|reason Hev ? ?|Hev ?];
      unfold next_state; rewrite Hev; cbn [id_entity id_operational id_status].
    + rewrite (proj2 (verify_rotation_Ok item (id_entity s) (id_operational s) pk pt nk nt (Some key) proof key))
        by done. res_cbn. unfold identity_state in Hst'. cbn in Hst'. unfold active_state. by rewrite Hst'.
    + rewrite (proj2 (verify_entity_event_Ok item s Hm')) by (split; [done|]; intros ? He; congruence).
      res_cbn. rewrite Hst in Hst'. injection Hst' as ->. done.
    + rewrite (proj2 (verify_entity_event_Ok item s Hm')) by (split; [done|]; intros ? He; congruence).
      res_cbn. unfold identity_state in Hst'. cbn in Hst'. by rewrite Hst'.
    + rewrite (proj2 (verify_entity_event_Ok item s Hm')) by (split; [done|]; intros ? He; congruence).
      res_cbn. unfold identity_state in Hst'. cbn in Hst'. by rewrite Hst'.
Qed.

Lemma transition_kind s item s' : transition s item s' →
  is_issuance (vl_event item) = false ∧ is_migration (vl_event item) = false.
Proof. unfold is_issuance, is_migration. by destruct 1 as [? ? ? ? ? ? ? ->|? ? ? ->|? ->| ->]. Qed.

(** The last branch of the loop body, reached by every event that is not a
    genesis event. *)
Lemma body_successor s state item :
  is_issuance (vl_event item) = false → is_migration (vl_event item) = false → ∀ prev,
  match ev_body (vl_event item), Some prev : option VerifiedLifecycleEvent with
  | IssuanceEvent _ ek ku, _ => verify_issuance opts item ek ku
  | MigrationEvent previous_log new_log _, None => verify_migration_genesis opts item previous_log new_log
  | body, _ =>
      match ls_entity_key (loop_state s state), ls_operational_key (loop_state s state) with
      | Some entity_key, Some operational_key =>
          operational_key ←
            match body with
            | KeyRotationEvent previous_kid previous_thumbprint _ new_kid new_thumbprint new_public_key proof =>
                verify_rotation item entity_key operational_key previous_kid previous_thumbprint
                  new_kid new_thumbprint new_public_key proof
            | _ => verify_entity_event item entity_key ;; Ok operational_key
            end;
          st' ← next_state (ls_prev_state (loop_state s state)) (vl_event item) entity_key operational_key;
          Ok (entity_key, operational_key, st')
      | _, _ => Raise (verr "lifecycle keys were not established by ISSUANCE")
      end
  end =
  (ku' ← match ev_body (vl_event item) with
         | KeyRotationEvent pk pt _ nk nt key proof =>
             verify_rotation item (id_entity s) (id_operational s) pk pt nk nt key proof
         | _ => verify_entity_event item (id_entity s) ;; Ok (id_operational s)
         end;
   st' ← next_state state (vl_event item) (id_entity s) ku';
   Ok (id_entity s, ku', st')).
Proof. unfold is_issuance, is_migration. intros Hi Hm prev. by destruct (ev_body (vl_event item)). Qed.

Lemma step_continues s state prev item st' : identity_state s = Ok state →
  lifecycle_step opts (loop_state s state) (Some prev) item = Ok st' ↔
  ∃ s' state', id_status s = Active ∧ linked prev item s ∧ timely item ∧ transition s item s'
    ∧ identity_state s' = Ok state' ∧ st' = loop_state s' state'.
Proof.
  intros Hst. unfold lifecycle_step, lifecycle_body. split.
  - intros Hv. bind_step Hv as [[ek ku] st] Hb. injection Hv as <-.
    rewrite !guard_Ok, bind_unit_Ok, bind_unit_Ok, guard_Ok in Hb.
    destruct Hb as (Hact & _ & Hi & Hm & Ht & Hl & Hsig & Hb).
    cbn [loop_state ls_terminal ls_prev_state negb andb] in Hact, Hi, Hm, Hl.
    rewrite bool_decide_eq_false in Hact. apply dec_stable in Hact.
    rewrite (linked_Ok _ _ s) in Hl by done.
    rewrite body_successor in Hb by done. apply successor_Ok in Hb as (s' & Htr & Hs' & -> & -> & Hterm); [|done..].
    exists s', st. split_and!; [done..|by apply timely_Ok|done|done|].
    unfold loop_state. cbn. by rewrite Hact, Hterm.
  - intros (s' & state' & Hact & Hl & Ht & Htr & Hs' & ->). apply timely_Ok in Ht as [Ht Hsig].
    destruct (transition_kind _ _ _ Htr) as [Hi Hm].
    rewrite Ht, Hsig, body_successor, Hi, Hm by done.
    cbn [loop_state ls_terminal ls_prev_state]. rewrite (proj2 (linked_Ok item prev s state Hst) Hl).
    rewrite Hact. cbn [negb andb orb raise_if mbind result_bind bool_decide].
    assert (bool_decide (id_status s' ≠ Active) = is_terminal (vl_event item)) as Hterm.
    { unfold is_terminal. by destruct Htr as [? ? ? ? ? ? ? ->|? ? ? ->|? ->| ->]; cbn; rewrite ?Hact. }
    rewrite (proj2 (successor_Ok s item state (id_entity s') (id_operational s') state' Hst Hact Hi Hm))
      by eauto 10.
    unfold loop_state. cbn. by rewrite Hterm.
Qed.

Section loop.
Context (check : list nat → res unit).

Lemma loop_snoc path events item : ∀ pos st prev,
  lifecycle_loop opts check path pos st prev (events ++ [item]) =
  (st' ← lifecycle_loop opts check path pos st prev events;
   check ((pos + length events)%nat :: path) ;;
   lifecycle_step opts st' (match last events with Some p => Some p | None => prev end) item).
Proof.
  induction events as [|x events IH]; intros pos st prev; cbn [app lifecycle_loop length].
  - res_cbn. rewrite Nat.add_0_r. destruct (check _); [|done]. res_cbn. cbn [last].
    by destruct (lifecycle_step opts st prev item).
  - destruct (check _); [|done]. res_cbn. destruct (lifecycle_step opts st prev x) as [st'|]; [|done]. res_cbn.
    rewrite IH, Nat.add_succ_comm.
    assert (match last events with Some p => Some p | None => Some x end
            = match last (x :: events) with Some p => Some p | None => prev end) as ->; [|done].
    destruct events as [|y events]; [done|]. rewrite last_cons_cons.
    destruct (last (y :: events)) eqn:Hl; [done|]. by apply last_None in Hl.
Qed.

Lemma lifecycle_nonempty events s : lifecycle events s → events ≠ [].
Proof. destruct 1; [done|]. by intros [_ ?]%app_nil. Qed.

Lemma lifecycle_single item s : lifecycle [item] s →
  opening item ∧ timely item ∧ genesis item s ∧ is_Ok (identity_state s) = true.
Proof.
  inversion 1 as [|l p x ? ? ? ? ? ? ? ? Heq]; subst; [done|].
  destruct l as [|? [|]]; discriminate Heq.
Qed.

Lemma lifecycle_snoc events prev item s' : lifecycle (events ++ [prev; item]) s' → ∃ s,
  lifecycle (events ++ [prev]) s ∧ id_status s = Active ∧ linked prev item s ∧ timely item
  ∧ transition s item s' ∧ is_Ok (identity_state s') = true.
Proof.
  inversion 1 as [? ? ? ? ? ? Heq|l p x s ? ? ? ? ? ? ? Heq]; subst.
  - destruct events as [|? [|]]; discriminate Heq.
  - change [prev; item] with ([prev] ++ [item]) in Heq. change [p; x] with ([p] ++ [x]) in Heq.
    rewrite !app_assoc in Heq. apply app_inj_tail in Heq as [Heq ->].
    apply app_inj_tail in Heq as [-> ->]. eauto 10.
Qed.

Lemma loop_sound path events st' : events ≠ [] →
  lifecycle_loop opts check path 0 initial_state None events = Ok st' →
  ∃ s state, lifecycle events s ∧ identity_state s = Ok state ∧ st' = loop_state s state.
Proof.
  revert st'. induction events as [|item events IH] using rev_ind; intros st' Hne Hv; [done|].
  rewrite loop_snoc in Hv. bind_step Hv as st Hst. rewrite bind_unit_Ok in Hv. destruct Hv as [_ Hv].
  destruct events as [|prev events _] using rev_ind.
  - cbn [app lifecycle_loop] in Hst. injection Hst as <-.
    apply step_opens in Hv as (s & state & ? & ? & ? & Hs & ->). exists s, state.
    split_and!; [|done..]. constructor; [done..|]. by rewrite Hs.
  - destruct (IH st) as (s & state & Hl & Hs & ->); [by intros [_ ?]%app_nil|done|].
    rewrite last_snoc in Hv.
    apply step_continues in Hv as (s' & state' & ? & ? & ? & ? & Hs' & ->); [|done].
    exists s', state'. split_and!; [|done..]. rewrite <- app_assoc. cbn.
    eapply lifecycle_continues; [done..|]. by rewrite Hs'.
Qed.

Lemma loop_complete path events s : (∀ p, check p = Ok ()) → lifecycle events s →
  ∃ state, identity_state s = Ok state
    ∧ lifecycle_loop opts check path 0 initial_state None events = Ok (loop_state s state).
Proof.
  intros Hc. revert s. induction events as [|item events IH] using rev_ind; intros s' Hl.
  { by apply lifecycle_nonempty in Hl. }
  rewrite loop_snoc. destruct events as [|prev events _] using rev_ind.
  - apply lifecycle_single in Hl as (? & ? & ? & Hs). apply is_Ok_iff in Hs as [state Hs].
    exists state. split; [done|]. cbn [lifecycle_loop]. res_cbn. rewrite Hc. res_cbn.
    apply step_opens. eauto 10.
  - rewrite <- app_assoc in Hl. apply lifecycle_snoc in Hl as (s & Hl & ? & ? & ? & ? & Hs').
    apply is_Ok_iff in Hs' as [state' Hs']. exists state'. split; [done|].
    destruct (IH s Hl) as (state & Hs & ->). res_cbn. rewrite Hc, last_snoc. res_cbn.
    apply step_continues; [done|]. eauto 10.
Qed.

Lemma verify_lifecycle_lifecycle path events :
  verify_lifecycle opts check path events = Ok () → ∃ s, lifecycle events s.
Proof.
  unfold verify_lifecycle, verify_lifecycle_body. intros Hv. rewrite bind_unit_Ok in Hv. destruct Hv as [_ Hv].
  bind_step Hv as st Hb. rewrite !guard_Ok in Hb. destruct Hb as (He & _ & Hb).
  apply loop_sound in Hb as (s & ? & ? & _); [eauto|by destruct events].
Qed.
End loop.

(** C2 The lifecycle verifier accepts exactly the runs of the abstract machine:
    with time left at every deadline test, [verify_lifecycle] returns normally
    on a list of events if and only if the list is a run (an authorised genesis
    followed by linked, timely transitions, each signed under the keys in force)
    and chaining has not been disabled. *)
Theorem verify_lifecycle_refines (check : list nat → res unit) (path : list nat)
    (events : list VerifiedLifecycleEvent) (Hcheck : ∀ p, check p = Ok ()) :
  verify_lifecycle opts check path events = Ok () ↔
  vo_unchained opts = false ∧ ∃ s, lifecycle events s.
Proof.
  split.
  - intros Hv. split; [|by eapply verify_lifecycle_lifecycle]. unfold verify_lifecycle, verify_lifecycle_body in Hv.
    rewrite bind_unit_Ok in Hv. destruct Hv as [_ Hv]. bind_step Hv as st Hb. rewrite !guard_Ok in Hb. by destruct Hb as (_ & ? & _).
  - intros [Hu [s Hl]]. unfold verify_lifecycle, verify_lifecycle_body. rewrite !Hcheck, Hu. res_cbn.
    pose proof (lifecycle_nonempty _ _ Hl). destruct events as [|x l]; [done|]. res_cbn.
    destruct (loop_complete check (2%nat :: path) (x :: l) s Hcheck Hl) as (state & _ & ->). done.
Qed.

(** ** Consequences *)
Lemma lifecycle_ind_snoc (P : list VerifiedLifecycleEvent → identity → Prop) :
  (∀ item s, lifecycle [item] s → P [item] s) →
  (∀ events prev item s s', lifecycle (events ++ [prev]) s → P (events ++ [prev]) s →
     id_status s = Active → linked prev item s → timely item → transition s item s' →
     lifecycle (events ++ [prev; item]) s' → P (events ++ [prev; item]) s') →
  ∀ events s, lifecycle events s → P events s.
Proof.
  intros H1 H2 events s. induction 1; [by apply H1; constructor|].
  eapply H2; eauto. by eapply lifecycle_continues.
Qed.

Definition opens_stream (e : LogEvent) : bool := is_issuance e || is_migration e.

(** Position, kind and number of the event at position [i] of [n]. *)
Record placed (n i : nat) (v : VerifiedLifecycleEvent) : Prop := {
  placed_seq : ch_seq (vl_chain v) = Some (Z.of_nat i);
  placed_kind : opens_stream (vl_event v) = bool_decide (i = 0%nat);
  placed_terminal : is_terminal (vl_event v) = true → S i = n;
  placed_timely : timely v
}.

Lemma genesis_kind item s : genesis item s →
  opens_stream (vl_event item) = true ∧ is_terminal (vl_event item) = false ∧ id_status s = Active.
Proof. unfold opens_stream, is_issuance, is_migration, is_terminal. by destruct 1 as [? ? ? ->|? ? ? ? ? ->]. Qed.

(** The status of the identity tells whether the last event is terminal. *)
Lemma lifecycle_terminal events s : lifecycle events s → ∀ v, last events = Some v →
  is_terminal (vl_event v) = bool_decide (id_status s ≠ Active).
Proof.
  induction 1 as [item s Hl|events prev item s s' _ IH Hact _ _ Ht _] using lifecycle_ind_snoc; intros v.
  - intros [= <-]. apply lifecycle_single in Hl as (_ & _ & Hg & _).
    destruct (genesis_kind _ _ Hg) as (_ & -> & ->). done.
  - change [prev; item] with ([prev] ++ [item]). rewrite app_assoc, last_snoc. intros [= <-].
    unfold is_terminal. by destruct Ht as [? ? ? ? ? ? ? ->|? ? ? ->|? ->| ->]; cbn; rewrite ?Hact.
Qed.

Lemma lifecycle_placed events s : lifecycle events s →
  ∀ i v, events !! i = Some v → placed (length events) i v.
Proof.
  induction 1 as [item s Hl|events prev item s s' Hl IH Hact Hlink Htime Ht _] using lifecycle_ind_snoc; intros i v Hi.
  - apply lifecycle_single in Hl as ((Hseq & _ & _) & Ht & Hg & _). destruct i as [|i]; [|done].
    injection Hi as <-. destruct (genesis_kind _ _ Hg) as (Hk & Hterm & _).
    split; [done|done|by rewrite Hterm|done].
  - change [prev; item] with ([prev] ++ [item]) in *. rewrite app_assoc in *.
    rewrite length_app. cbn [length]. apply lookup_snoc_Some in Hi as [[Hlt Hi]|[-> ->]].
    + destruct (IH i v Hi) as [H1 H2 H3 H4]. split; [done..| |done]. intros Hterm. exfalso.
      assert (v = prev) as ->.
      { specialize (H3 Hterm). rewrite length_app in H3. cbn in H3. assert (i = length events) as -> by lia.
        rewrite lookup_app_r, Nat.sub_diag in Hi by done. by injection Hi. }
      rewrite (lifecycle_terminal _ _ Hl prev) in Hterm by apply last_snoc.
      rewrite bool_decide_eq_true in Hterm. done.
    + destruct (transition_kind _ _ _ Ht) as [Hi Hm].
      assert (placed (length (events ++ [prev])) (length events) prev) as [Hseq _ _ _].
      { apply IH. by rewrite lookup_app_r, Nat.sub_diag. }
      destruct Hlink as (n & id & st & h & Hn & Hn' & _). rewrite Hn in Hseq. injection Hseq as ->.
      rewrite length_app. cbn [length]. split; [|..|done].
      * rewrite Hn'. f_equal. lia.
      * unfold opens_stream. rewrite Hi, Hm. symmetry. apply bool_decide_eq_false. lia.
      * intros _. lia.
Qed.

Lemma lifecycle_chained events s : lifecycle events s → ∀ i v w,
  events !! i = Some v → events !! S i = Some w →
  ∃ id, event_id v = Ok id ∧ ch_prev_event_id (vl_chain w) = Some id.
Proof.
  induction 1 as [item s Hl|events prev item s s' Hl IH Hact Hlink Htime Ht _] using lifecycle_ind_snoc;
    intros i v w Hv Hw; [done|].
  change [prev; item] with ([prev] ++ [item]) in *. rewrite app_assoc in *.
  apply lookup_snoc_Some in Hw as [[Hlt Hw]|[Hlt <-]].
  - apply (IH i); [|done]. rewrite lookup_app_l in Hv by lia. done.
  - rewrite length_app in Hlt. cbn in Hlt. assert (i = length events) as -> by lia.
    rewrite lookup_app_l, lookup_app_r, Nat.sub_diag in Hv by (rewrite ?length_app; cbn; lia).
    injection Hv as <-. destruct Hlink as (n & id & st & h & _ & _ & Hid & Hp & _). eauto.
Qed.

(** Shape of accepted lifecycles: if [verify_lifecycle] returns, the events are
    numbered 0, 1, 2, ... without gaps, exactly the first one is an issuance
    or migration, a revocation or retirement can only be the last one, none is
    later than the accepted checkpoint, and each event after the first names
    the logical identifier of the event before it. *)
Theorem accepted_lifecycle_shape (check : list nat → res unit) (path : list nat)
    (events : list VerifiedLifecycleEvent)
    (Hok : verify_lifecycle opts check path events = Ok ()) :
  (∀ i v, events !! i = Some v → placed (length events) i v)
  ∧ (∀ i v w, events !! i = Some v → events !! S i = Some w →
       ∃ id, event_id v = Ok id ∧ ch_prev_event_id (vl_chain w) = Some id).
Proof.
  apply verify_lifecycle_lifecycle in Hok as [s Hl].
  split; [by eapply lifecycle_placed|by eapply lifecycle_chained].
Qed.

(** The keys a list of events establishes. *)
Definition keys_after (events : list VerifiedLifecycleEvent) : res (JWK * JWK) :=
  match events with
  | [] => Raise (IndexError (lit "list index out of range"))
  | first :: rest =>
      '(entity_key, operational_key) ← genesis_keys (vo_verify_migration opts) (vl_event first);
      operational_key ← rotate_keys operational_key rest;
      Ok (entity_key, operational_key)
  end.

Lemma rotate_keys_app k l1 l2 : rotate_keys k (l1 ++ l2) = (k' ← rotate_keys k l1; rotate_keys k' l2).
Proof.
  revert k. induction l1 as [|x l1 IH]; intros k; cbn; [done|]. repeat case_match; try apply IH; done.
Qed.

Lemma keys_after_snoc events item : events ≠ [] →
  keys_after (events ++ [item]) =
  ('(ek, ku) ← keys_after events; ku' ← rotate_keys ku [item]; Ok (ek, ku')).
Proof.
  destruct events as [|first rest]; [done|]. intros _. cbn [app keys_after].
  destruct (genesis_keys _ _) as [[ek ku]|]; [|done]. res_cbn. rewrite rotate_keys_app.
  by destruct (rotate_keys ku rest).
Qed.

Lemma lifecycle_keys events s : lifecycle events s →
  keys_after events = Ok (id_entity s, id_operational s) ∧ distinct (id_entity s) (id_operational s).
Proof.
  induction 1 as [item s Hl|events prev item s s' Hl [IH Hd] Hact Hlink Htime Ht _] using lifecycle_ind_snoc.
  - apply lifecycle_single in Hl as (_ & _ & Hg & _). unfold keys_after, genesis_keys.
    destruct Hg as [gi ek ku Hev|pl nl fr f r Hev ? ? Hf ? Hr]; rewrite Hev; [done|].
    rewrite Hf. res_cbn. by rewrite Hr.
  - change [prev; item] with ([prev] ++ [item]) in *. rewrite app_assoc in *.
    rewrite keys_after_snoc by (by intros [_ ?]%app_nil). rewrite IH. res_cbn.
    destruct Ht as [? ? ? ? key ? ? Hev ? ? ? ? ? ? Hdk ? ? ?|? ? ? Hev|? Hev|Hev]; cbn [rotate_keys]; rewrite Hev;
      res_cbn; cbn [id_entity id_operational]; try done.
    split; [done|]. destruct Hdk as (ta & tb & ? & ? & ?). exists tb, ta. done.
Qed.

Lemma lifecycle_prefix l k s : lifecycle (l ++ k) s → l ≠ [] → ∃ s', lifecycle l s'.
Proof.
  revert s. induction k as [|x k IH] using rev_ind; intros s Hl Hne; [rewrite app_nil_r in Hl; eauto|].
  rewrite app_assoc in Hl. destruct (l ++ k) as [|p m _] eqn:Heq using rev_ind.
  { by apply app_nil in Heq as [-> _]. }
  rewrite <- app_assoc in Hl. apply lifecycle_snoc in Hl as (s0 & Hl & _). by eapply IH.
Qed.

(** The keys that must sign an event after the first, by its class. *)
Definition authorised (entity_key operational_key : JWK) (v : VerifiedLifecycleEvent) : Prop :=
  match ev_body (vl_event v) with
  | KeyRotationEvent _ previous_thumbprint _ _ new_thumbprint (Some new_key) proof =>
      thumbprint operational_key = Ok previous_thumbprint ∧ thumbprint new_key = Ok new_thumbprint
      ∧ distinct new_key operational_key ∧ distinct new_key entity_key
      ∧ signed_by operational_key v (ev_sig (vl_event v)) ∧ signed_by new_key v proof
  | KeyRotationEvent _ _ _ _ _ None _ => False
  | _ => signed_by entity_key v (ev_sig (vl_event v))
  end.

(** Authority: in an accepted lifecycle every event after the first is signed
    under the keys that the events before it established (the genesis event's
    keys, with the operational key of the last rotation); a rotation is signed
    by the operational key it replaces and by the new one, which differs from
    it and from the entity key, and every other event by the entity key.  The
    two keys in force are distinct at every point. *)
Theorem accepted_events_authorised (check : list nat → res unit) (path : list nat)
    (events : list VerifiedLifecycleEvent) (i : nat) (v : VerifiedLifecycleEvent)
    (Hok : verify_lifecycle opts check path events = Ok ()) (Hi : events !! S i = Some v) :
  ∃ entity_key operational_key,
    keys_after (take (S i) events) = Ok (entity_key, operational_key)
    ∧ distinct entity_key operational_key ∧ authorised entity_key operational_key v.
Proof.
  apply verify_lifecycle_lifecycle in Hok as [s Hl].
  rewrite <- (take_drop_middle _ _ _ Hi) in Hl.
  change (v :: drop (S (S i)) events) with ([v] ++ drop (S (S i)) events) in Hl. rewrite app_assoc in Hl.
  apply lifecycle_prefix in Hl as [s1 Hl]; [|by intros [_ ?]%app_nil].
  destruct (take (S i) events) as [|p m _] eqn:Heq using rev_ind.
  { apply (f_equal length) in Heq. rewrite length_take in Heq. apply lookup_lt_Some in Hi. cbn [length] in Heq. lia. }
  rewrite <- app_assoc in Hl. apply lifecycle_snoc in Hl as (s0 & Hl & _ & _ & _ & Ht & _).
  destruct (lifecycle_keys _ _ Hl) as [Hk Hd]. exists (id_entity s0), (id_operational s0).
  split_and!; [done..|]. unfold authorised.
  by destruct Ht as [? ? ? ? ? ? ? ->|? ? ? -> []|? -> ? []| -> []].
Qed.
End spec.
