(* ===== verification/LifecycleDemo.v ===== *)
(** * A concrete lifecycle

    A platform whose signatures are the key and a hash of the message, and a
    lifecycle of three events built with the codec itself; the witnesses of the
    lifecycle theorems evaluate the verifier on it. *)
From S2P Require Import Prelude Sha256 Errors PyText Base64 Utils SignedNote Lr PyFloat PyTime Canonical CanonicalSpec JsonScan JsonRoundtrip Keys EventCodec EventCodecSpec StreamVerifier LifecycleSpec.

(** The signature of [data] under [key] on this platform. *)
Definition toy_sign (key data : bytes) : bytes := demo_sign key data.

#[export] Instance toy_platform : Platform := {|
  idna_encode := idna_ascii;
  netloc_ok := no_netloc;
  str_lower := ascii_lower;
  ed25519_verify := λ key sig data, sig ==? toy_sign key data;
  ecdsa_p256_verify := λ _ _ _ _ _, false;
  rsa_pkcs1_verify := λ _ _ _ _, false;
  naive_timestamp_ms := λ wall, timestamp_ms wall 0
|}.

Definition toy_jwk (kid : string) (key : bytes) : list (str * json) :=
  [(lit "alg", JStr (lit "EdDSA")); (lit "crv", JStr (lit "Ed25519")); (lit "kid", JStr (lit kid));
   (lit "kty", JStr (lit "OKP")); (lit "x", JStr (b64url_encode key false))].
Definition toy_key (kid : string) (key : bytes) : JWK :=
  {| jwk_kty := JStr (lit "OKP"); jwk_alg := JStr (lit "EdDSA"); jwk_kid := JStr (lit kid);
     jwk_use := JStr []; jwk_raw := toy_jwk kid key |}.

Definition entity_bytes : bytes := replicate 32 7.
Definition op1_bytes : bytes := replicate 32 9.
Definition op2_bytes : bytes := replicate 32 11.
Definition entity : JWK := toy_key "ek-1" entity_bytes.
Definition op1 : JWK := toy_key "ku-1" op1_bytes.
Definition op2 : JWK := toy_key "ku-2" op2_bytes.

Definition or_empty {A} (m : res (list A)) : list A := match m with Ok s => s | Raise _ => [] end.

Definition toy_domain : str := lit "agent.example.com".
Definition toy_context (seq : Z) (prev_event_id prev_state_hash : option str) : C2spEventContext :=
  {| ctx_scope := Some (lit "public"); ctx_log_origin := Some (lit "log.example/dns");
     ctx_stream_id := Some (lit "abc-1"); ctx_lr := Some (lit "c2sp-tlog:public:https://log.example/dns#abc-1");
     ctx_seq := Some seq; ctx_prev_event_id := prev_event_id; ctx_prev_state_hash := prev_state_hash |}.

Definition toy_event (seconds : Z) (kid sig countersig : str) (body : event_body) : LogEvent :=
  {| ev_domain := toy_domain; ev_timestamp := {| dt_wall := seconds * 1000000; dt_utcoffset := Some 0 |};
     ev_signing_kid := kid; ev_sig := sig; ev_operational_countersig := countersig; ev_body := body |}.

Definition toy_b64_sign (key data : bytes) : str := b64url_encode (toy_sign key data) false.

(** Issuance. *)
Definition issuance_body : event_body := IssuanceEvent (lit "gi-1") (Some entity) (Some op1).
Definition issuance_signed : bytes :=
  or_empty (signed_c2sp_event_bytes (toy_event 1700000000 [] [] [] issuance_body) (toy_context 0 None None)).
Definition issuance : LogEvent :=
  toy_event 1700000000 (lit "ek-1") (toy_b64_sign entity_bytes issuance_signed)
    (toy_b64_sign op1_bytes issuance_signed) issuance_body.
Definition issuance_data : bytes :=
  Eval vm_compute in or_empty (canonicalize_c2sp_event issuance (toy_context 0 None None)).

(** Rotation to a second operational key. *)
Definition toy_thumb (k : JWK) : str := or_empty (thumbprint k).
Definition toy_state (status : string) (k : JWK) : str :=
  or_empty (s ← state_with status toy_domain entity k; state_hash s).
Definition rotation_context : C2spEventContext :=
  toy_context 1 (Some (or_empty (c2sp_event_id issuance_data))) (Some (toy_state "ACTIVE" op1)).
Definition rotation_body (proof : str) : event_body :=
  KeyRotationEvent (lit "ku-1") (toy_thumb op1) None (JStr (lit "ku-2")) (toy_thumb op2) (Some op2) proof.
Definition rotation_signed : bytes :=
  or_empty (signed_c2sp_event_bytes (toy_event 1700000100 [] [] [] (rotation_body [])) rotation_context).
Definition rotation : LogEvent :=
  toy_event 1700000100 (lit "ku-1") (toy_b64_sign op1_bytes rotation_signed) []
    (rotation_body (toy_b64_sign op2_bytes rotation_signed)).
Definition rotation_data : bytes :=
  Eval vm_compute in or_empty (canonicalize_c2sp_event rotation rotation_context).

(** Revocation. *)
Definition revocation_context : C2spEventContext :=
  toy_context 2 (Some (or_empty (c2sp_event_id rotation_data))) (Some (toy_state "ACTIVE" op2)).
Definition revocation_body : event_body := RevocationEvent (lit "superseded").
Definition revocation_signed : bytes :=
  or_empty (signed_c2sp_event_bytes (toy_event 1700000200 [] [] [] revocation_body) revocation_context).
Definition revocation : LogEvent :=
  toy_event 1700000200 (lit "ek-1") (toy_b64_sign entity_bytes revocation_signed) [] revocation_body.
Definition revocation_data : bytes :=
  Eval vm_compute in or_empty (canonicalize_c2sp_event revocation revocation_context).

Definition toy_options : StreamVerifierOptions :=
  {| vo_context := toy_context 0 None None; vo_unchained := false; vo_signer_key := Some entity;
     vo_integration_time_ms := Some 1700001000000; vo_verify_migration := None;
     vo_cutoff_index := None; vo_max_entries := 100; vo_max_entry_bytes := 100000 |}.

Definition no_deadline (p : list nat) : res unit := Ok ().
Definition noise : bytes := lit "not an entry".
Definition toy_entries : list IndexedEntry :=
  [{| ie_index := 9; ie_data := revocation_data |}; {| ie_index := 3; ie_data := issuance_data |};
   {| ie_index := 4; ie_data := noise |}; {| ie_index := 7; ie_data := rotation_data |};
   {| ie_index := 8; ie_data := rotation_data |}].

Definition toy_selected : list VerifiedLifecycleEvent :=
  Eval vm_compute in or_empty (verify_stream_lifecycle toy_options no_deadline toy_domain toy_entries).

(** A retirement that branches off after the issuance. *)
Definition fork_signed : bytes :=
  or_empty (signed_c2sp_event_bytes (toy_event 1700000150 [] [] [] RetirementEvent) rotation_context).
Definition fork : LogEvent :=
  toy_event 1700000150 (lit "ek-1") (toy_b64_sign entity_bytes fork_signed) [] RetirementEvent.
Definition fork_data : bytes :=
  Eval vm_compute in or_empty (canonicalize_c2sp_event fork rotation_context).

(** ** Witnesses of the lifecycle theorems *)
Lemma verify_lifecycle_refines_witness : ∃ s, lifecycle toy_options toy_selected s.
Proof.
  apply (verify_lifecycle_refines toy_options no_deadline [] toy_selected); [done|]. vm_compute. reflexivity.
Defined.

Definition toy_rotation : VerifiedLifecycleEvent :=
  Eval vm_compute in nth 1 toy_selected
    {| vl_index := 0; vl_leaf_hash := []; vl_data := []; vl_event := rotation; vl_chain := empty_chain;
       vl_post_keys := None |}.

Lemma accepted_lifecycle_shape_witness : placed toy_options 3 1 toy_rotation.
Proof.
  apply (accepted_lifecycle_shape toy_options no_deadline [] toy_selected); vm_compute; reflexivity.
Defined.

Lemma accepted_events_authorised_witness : ∃ ek ku,
  keys_after toy_options (take 1 toy_selected) = Ok (ek, ku) ∧ distinct ek ku ∧ authorised ek ku toy_rotation.
Proof.
  apply (accepted_events_authorised toy_options no_deadline [] toy_selected 0 toy_rotation);
    vm_compute; reflexivity.
Defined.

(** ** Witnesses of the codec theorems *)
Definition toy_obj (data : bytes) : json :=
  match parse_json_no_duplicate_members data with Ok v => v | Raise _ => JNull end.
Definition members_of (v : json) : list (str * json) := match v with JDict d => d | _ => [] end.

Definition issuance_envelope : list (str * json) :=
  Eval vm_compute in or_empty (event_to_c2sp_envelope issuance (toy_context 0 None None) true).

Lemma signed_bytes_agree_witness : signed_c2sp_entry_bytes issuance_data = Ok issuance_signed.
Proof.
  transitivity (signed_c2sp_event_bytes issuance (toy_context 0 None None)); [|vm_compute; reflexivity].
  apply (signed_bytes_agree issuance (toy_context 0 None None) issuance_envelope);
    [vm_compute; reflexivity|solve_plain|vm_compute; reflexivity].
Defined.

(** The same issuance with other signatures. *)
Definition resigned_data : bytes :=
  Eval vm_compute in or_empty (canonicalize_c2sp_event
    (toy_event 1700000000 (lit "ek-1") (lit "AAAA") (lit "BBBB") issuance_body) (toy_context 0 None None)).
Definition issuance_members : list (str * json) := Eval vm_compute in members_of (toy_obj issuance_data).
Definition resigned_members : list (str * json) := Eval vm_compute in members_of (toy_obj resigned_data).

Lemma event_id_binds_witness :
  c2sp_event_id issuance_data = c2sp_event_id resigned_data
  ∧ pop "sigs" issuance_members = pop "sigs" resigned_members.
Proof.
  split; [vm_compute; reflexivity|].
  apply (event_id_binds issuance_data resigned_data issuance_members resigned_members
           issuance_signed issuance_signed (or_empty (c2sp_event_id issuance_data)));
    [vm_compute; reflexivity|solve_plain|vm_compute; reflexivity|solve_plain|vm_compute; reflexivity
    |vm_compute; reflexivity|apply collision_freeb_sound; vm_compute; reflexivity
    |vm_compute; reflexivity|vm_compute; reflexivity].
Defined.
