(* ===== verification/DomainLog.v ===== *)
(** * Domain history and its snapshots ([DomainLog] of [dnsid/models.py])

    The state of a domain at a time, derived by replaying a verified history;
    and its agreement with the lifecycle machine the stream verifier implements.
    Error messages leave out the domain's [repr]. *)
From S2P Require Import Prelude Sha256 Errors PyText PyFloat PyTime Canonical Keys EventCodec StreamVerifier LifecycleSpec CheckpointStore LifecycleDemo.

(** [a > b] of two datetimes. *)
Definition dt_gt (a b : datetime) : res bool :=
  match dt_utcoffset a, dt_utcoffset b with
  | Some oa, Some ob => Ok (dt_wall b - ob <? dt_wall a - oa)
  | None, None => Ok (dt_wall b <? dt_wall a)
  | _, _ => Raise (TypeError (lit "can't compare offset-naive and offset-aware datetimes"))
  end.

(** [max(...)] of datetimes: the first of the latest. *)
Fixpoint dt_max (best : datetime) (l : list datetime) : res datetime :=
  match l with
  | [] => Ok best
  | d :: l => later ← dt_gt d best; dt_max (if later : bool then d else best) l
  end.

Definition max_timestamp (events : list LogEvent) : res datetime :=
  match events with
  | [] => Raise (ValueError (lit "max() iterable argument is empty"))
  | e :: events => dt_max (ev_timestamp e) (map ev_timestamp events)
  end.

Definition ZERO_TIME : datetime := {| dt_wall := datetime_min; dt_utcoffset := Some 0 |}.

(** The local variables of [snapshot_at]; [None] is the empty [state]. *)
Record replay : Set := {
  rp_state : option status;
  rp_entity_key : option JWK;
  rp_active_key : option JWK;
  rp_active_key_thumbprint : str;
  rp_key_bound_at : datetime;
  rp_governance_id : str;
  rp_events : list LogEvent;
  rp_past_boundary : bool
}.

Definition empty_replay : replay :=
  {| rp_state := None; rp_entity_key := None; rp_active_key := None; rp_active_key_thumbprint := [];
     rp_key_bound_at := ZERO_TIME; rp_governance_id := []; rp_events := []; rp_past_boundary := false |}.

Record DomainSnapshot : Set := {
  ds_domain : str;
  ds_historical_state : status;
  ds_active_key : JWK;
  ds_active_key_thumbprint : str;
  ds_key_bound_at : datetime;
  ds_governance_id : str;
  ds_snapshot_at : datetime;
  ds_events : list LogEvent
}.

Definition lerr (c : lifecycle_category) (msg : string) (index : option nat) : exn :=
  LifecycleVerificationError c (lit msg) (Z.of_nat <$> index).

Section snapshot.
Context `{Platform} (domain : str).

Definition with_state (r : replay) (s : status) : replay :=
  {| rp_state := Some s; rp_entity_key := rp_entity_key r; rp_active_key := rp_active_key r;
     rp_active_key_thumbprint := rp_active_key_thumbprint r; rp_key_bound_at := rp_key_bound_at r;
     rp_governance_id := rp_governance_id r; rp_events := rp_events r; rp_past_boundary := rp_past_boundary r |}.

Definition issue (r : replay) (event : LogEvent) (gi : str) (ek ku : JWK) (thumb : str) : replay :=
  {| rp_state := Some Active; rp_entity_key := Some ek; rp_active_key := Some ku; rp_active_key_thumbprint := thumb;
     rp_key_bound_at := ev_timestamp event; rp_governance_id := gi; rp_events := rp_events r;
     rp_past_boundary := rp_past_boundary r |}.

Definition rotate (r : replay) (event : LogEvent) (key : JWK) (thumb : str) : replay :=
  {| rp_state := rp_state r; rp_entity_key := rp_entity_key r; rp_active_key := Some key;
     rp_active_key_thumbprint := thumb; rp_key_bound_at := ev_timestamp event;
     rp_governance_id := rp_governance_id r; rp_events := rp_events r; rp_past_boundary := rp_past_boundary r |}.

(** The [if] chain on the class of the event. *)
Definition replay_event (index : nat) (r : replay) (event : LogEvent) : res replay :=
  match ev_body event with
  | IssuanceEvent gi ek ku =>
      raise_if (bool_decide (is_Some (rp_state r)))
        (lerr LC_DUPLICATE_ISSUANCE "duplicate ISSUANCE in one identity history" (Some index)) ;;
      match ek, ku with
      | Some ek, Some ku =>
          te ← thumbprint ek;
          tu ← thumbprint ku;
          raise_if (te ==? tu) (lerr INVALID_ISSUANCE "ISSUANCE key binding is invalid" (Some index)) ;;
          Ok (issue r event gi ek ku tu)
      | _, _ => Raise (lerr INVALID_ISSUANCE "ISSUANCE key binding is invalid" (Some index))
      end
  | KeyRotationEvent _ previous_thumbprint _ _ new_thumbprint new_public_key _ =>
      let bad := lerr LC_KEY_CONTINUITY "KEY_ROTATION does not continue from the active key" (Some index) in
      match rp_active_key r, rp_entity_key r, new_public_key with
      | Some _, Some ek, Some key =>
          raise_if (negb (previous_thumbprint ==? rp_active_key_thumbprint r)) bad ;;
          tk ← thumbprint key;
          raise_if (negb (new_thumbprint ==? tk) || (new_thumbprint ==? rp_active_key_thumbprint r)) bad ;;
          te ← thumbprint ek;
          raise_if (new_thumbprint ==? te) bad ;;
          Ok (rotate r event key new_thumbprint)
      | _, _, _ => Raise bad
      end
  | RevocationEvent reason =>
      raise_if (negb (is_revocation_reason reason))
        (lerr INVALID_REVOCATION_REASON "invalid REVOCATION reason" (Some index)) ;;
      Ok (with_state r Revoked)
  | RetirementEvent => Ok (with_state r Retired)
  | MigrationEvent previous_log new_log final_entry_ref =>
      raise_if ((previous_log ==? []) || (new_log ==? []) || (final_entry_ref ==? []) || (previous_log ==? new_log))
        (lerr LC_INVALID_MIGRATION "invalid MIGRATION" (Some index)) ;;
      Ok r
  | DelegationEvent _ _ _ => Ok r
  end.

Definition past (r : replay) : replay :=
  {| rp_state := rp_state r; rp_entity_key := rp_entity_key r; rp_active_key := rp_active_key r;
     rp_active_key_thumbprint := rp_active_key_thumbprint r; rp_key_bound_at := rp_key_bound_at r;
     rp_governance_id := rp_governance_id r; rp_events := rp_events r; rp_past_boundary := true |}.

Definition keep (r : replay) (event : LogEvent) : replay :=
  {| rp_state := rp_state r; rp_entity_key := rp_entity_key r; rp_active_key := rp_active_key r;
     rp_active_key_thumbprint := rp_active_key_thumbprint r; rp_key_bound_at := rp_key_bound_at r;
     rp_governance_id := rp_governance_id r; rp_events := rp_events r ++ [event]; rp_past_boundary := rp_past_boundary r |}.

(** One round of the loop. *)
Definition replay_step (at_ : datetime) (index : nat) (r : replay) (event : LogEvent) : res replay :=
  raise_if (negb (ev_domain event ==? domain))
    (lerr DOMAIN_MISMATCH "lifecycle event domain mismatch" (Some index)) ;;
  later ← dt_gt (ev_timestamp event) at_;
  if later : bool then Ok (past r)
  else
    raise_if (rp_past_boundary r)
      (lerr SNAPSHOT_NON_PREFIX "snapshot time is not a verified lifecycle prefix" (Some index)) ;;
    let r := keep r event in
    raise_if (bool_decide (rp_state r = None) && negb (is_issuance event))
      (lerr GENESIS_REQUIRED "first lifecycle event must be ISSUANCE" (Some index)) ;;
    raise_if (bool_decide (rp_state r = Some Revoked) || bool_decide (rp_state r = Some Retired))
      (lerr LC_TERMINAL_STATE "event after terminal identity state" (Some index)) ;;
    replay_event index r event.

Fixpoint replay_loop (at_ : datetime) (index : nat) (r : replay) (events : list LogEvent) : res replay :=
  match events with
  | [] => Ok r
  | event :: events => r ← replay_step at_ index r event; replay_loop at_ (S index) r events
  end.

Definition snapshot_at (events : list LogEvent) (at_ : datetime) : res DomainSnapshot :=
  raise_if (match events with [] => true | _ => false end) (lerr SNAPSHOT_EMPTY "no lifecycle events" None) ;;
  r ← replay_loop at_ 0 empty_replay events;
  raise_if (match rp_events r with [] => true | _ => false end)
    (lerr SNAPSHOT_EMPTY "no lifecycle events at or before the time" None) ;;
  match rp_state r, rp_active_key r with
  | Some state, Some key =>
      Ok {| ds_domain := domain; ds_historical_state := state; ds_active_key := key;
            ds_active_key_thumbprint := rp_active_key_thumbprint r; ds_key_bound_at := rp_key_bound_at r;
            ds_governance_id := rp_governance_id r; ds_snapshot_at := at_; ds_events := rp_events r |}
  | _, _ => Raise (lerr GENESIS_REQUIRED "no ISSUANCE event found at or before the time" None)
  end.

(** ** Snapshots are prefixes *)
Lemma replay_event_frame index r event r' : replay_event index r event = Ok r' →
  rp_events r' = rp_events r ∧ rp_past_boundary r' = rp_past_boundary r.
Proof.
  unfold replay_event. intros Hx. destruct (ev_body event) as [gi ek ku|? pt ? ? nt nk ?|reason| |pl nl fr|].
  - guard_step Hx as Hg. destruct ek, ku; try done. bind_step Hx as te He. bind_step Hx as tu Hu. guard_step Hx as Hne.
    by apply Ok_inj in Hx as <-.
  - destruct (rp_active_key r), (rp_entity_key r), nk; try done. guard_step Hx as Hp. bind_step Hx as tk Hk.
    guard_step Hx as Hn. bind_step Hx as te He. guard_step Hx as Hne. by apply Ok_inj in Hx as <-.
  - guard_step Hx as Hg. by apply Ok_inj in Hx as <-.
  - by apply Ok_inj in Hx as <-.
  - guard_step Hx as Hg. by apply Ok_inj in Hx as <-.
  - by apply Ok_inj in Hx as <-.
Qed.

Lemma replay_step_frame at_ index r event r' : replay_step at_ index r event = Ok r' →
  ev_domain event = domain
  ∧ ((dt_gt (ev_timestamp event) at_ = Ok true ∧ r' = past r)
     ∨ (dt_gt (ev_timestamp event) at_ = Ok false ∧ rp_past_boundary r = false ∧ rp_past_boundary r' = false
        ∧ rp_events r' = rp_events r ++ [event] ∧ replay_event index (keep r event) event = Ok r'
        ∧ (rp_state r = None → is_issuance event = true) ∧ rp_state r ≠ Some Revoked ∧ rp_state r ≠ Some Retired)).
Proof.
  unfold replay_step. intros Hx. guard_step Hx as Hd. rewrite negb_false_iff, eqb_true in Hd.
  bind_step Hx as later Hl. split; [done|]. destruct later; [left; by injection Hx as <-|right].
  guard_step Hx as Hp. guard_step Hx as Hi. guard_step Hx as Ht. destruct (replay_event_frame _ _ _ _ Hx) as [He Hb].
  cbn [keep rp_events rp_past_boundary rp_state] in *. rewrite orb_false_iff, !bool_decide_eq_false in Ht. destruct Ht.
  split_and!; [done|done|congruence|done|done| |done|done].
  intros Hs. rewrite Hs in Hi. rewrite bool_decide_eq_true_2 in Hi by done. by destruct (is_issuance event).
Qed.

(** Once past the time, every event left is past it. *)
Lemma replay_past at_ index r events r' : rp_past_boundary r = true → replay_loop at_ index r events = Ok r' →
  Forall (λ e, dt_gt (ev_timestamp e) at_ = Ok true) events ∧ Forall (λ e, ev_domain e = domain) events
  ∧ rp_events r' = rp_events r ∧ rp_state r' = rp_state r.
Proof.
  revert index r. induction events as [|e events IH]; intros index r Hp Hx; cbn [replay_loop] in Hx.
  - injection Hx as <-. split_and!; [constructor|constructor|done|done].
  - bind_step Hx as r1 H1. apply replay_step_frame in H1 as (Hd & [[Hg ->]|(_ & Hb & _)]); [|congruence].
    destruct (IH _ (past r) eq_refl Hx) as (? & ? & ? & ?). split_and!; [by constructor|by constructor|done|done].
Qed.

Lemma replay_loop_prefix at_ index r events r' : rp_past_boundary r = false → replay_loop at_ index r events = Ok r' →
  ∃ before after, events = before ++ after ∧ rp_events r' = rp_events r ++ before
    ∧ Forall (λ e, dt_gt (ev_timestamp e) at_ = Ok false) before ∧ Forall (λ e, dt_gt (ev_timestamp e) at_ = Ok true) after
    ∧ Forall (λ e, ev_domain e = domain) events.
Proof.
  revert index r. induction events as [|e events IH]; intros index r Hp Hx; cbn [replay_loop] in Hx.
  - injection Hx as <-. exists [], []. split_and!; [done|by rewrite app_nil_r|constructor..].
  - bind_step Hx as r1 H1. apply replay_step_frame in H1 as (Hd & [[Hg ->]|(Hg & _ & Hb & He & _)]).
    + apply replay_past in Hx as (? & ? & Hev & _); [|done]. exists [], (e :: events).
      split_and!; [done|by rewrite app_nil_r|constructor|by constructor|by constructor].
    + destruct (IH _ _ Hb Hx) as (before & after & -> & Hev & ? & ? & ?). exists (e :: before), after.
      split_and!; [done|rewrite Hev, He; by rewrite <- app_assoc|by constructor|done|by constructor].
Qed.

(** ** Agreement with the lifecycle machine *)

(** The replay stands where the machine stands. *)
Definition replays (r : replay) (s : identity) : Prop :=
  rp_state r = Some (id_status s) ∧ rp_entity_key r = Some (id_entity s) ∧ rp_active_key r = Some (id_operational s)
  ∧ thumbprint (id_operational s) = Ok (rp_active_key_thumbprint r) ∧ rp_past_boundary r = false.

Lemma replay_transition at_ index r s item s' : replays r s → id_status s = Active → transition s item s' →
  ev_domain (vl_event item) = domain → dt_gt (ev_timestamp (vl_event item)) at_ = Ok false →
  ∃ r', replay_step at_ index r (vl_event item) = Ok r' ∧ replays r' s' ∧ rp_events r' = rp_events r ++ [vl_event item]
    ∧ rp_governance_id r' = rp_governance_id r.
Proof.
  intros (Hs & He & Ha & Ht & Hp) Hact Htr Hd Hg. unfold replay_step. rewrite Hd, eqb_refl. res_cbn. rewrite Hg. res_cbn.
  rewrite Hp. res_cbn. cbn [keep rp_state]. rewrite Hs, Hact. rewrite !bool_decide_eq_false_2 by done. res_cbn.
  unfold replay_event. cbn [keep rp_state rp_active_key rp_entity_key rp_active_key_thumbprint].
  destruct Htr as [pk pt pkey nt key proof nk Hbody Hpt Hkid Hnt Htk Hpy Hd1 Hd2 Hs1 Hpr Hs2
                  |dg sc ex Hbody Hsig|reason Hbody Hreason Hsig|Hbody Hsig]; rewrite Hbody.
  - rewrite Ha, He. rewrite Hpt in Ht. injection Ht as ->. rewrite eqb_refl. res_cbn. rewrite Htk. res_cbn. rewrite eqb_refl.
    destruct Hd1 as (ta & tb & H1 & H2 & Hne). destruct Hd2 as (tc & td & H3 & H4 & Hne').
    assert (ta = nt) as -> by congruence. assert (tb = rp_active_key_thumbprint r) as -> by congruence.
    assert (tc = nt) as -> by congruence.
    rewrite (proj2 (eqb_false _ _) Hne). res_cbn. rewrite H4. res_cbn. rewrite (proj2 (eqb_false _ _) Hne'). res_cbn.
    eexists. split; [done|]. unfold replays. cbn. rewrite Hs, Hact. split_and!; done.
  - eexists. split; [done|]. unfold replays. cbn. rewrite Hact in *. split_and!; done.
  - rewrite Hreason. res_cbn. eexists. split; [done|]. unfold replays. cbn. split_and!; done.
  - eexists. split; [done|]. unfold replays. cbn. split_and!; done.
Qed.

Lemma replay_app at_ index r a b : replay_loop at_ index r (a ++ b)
  = (r' ← replay_loop at_ index r a; replay_loop at_ (index + length a) r' b).
Proof.
  revert index r. induction a as [|e a IH]; intros index r; cbn [app replay_loop length]; [by rewrite Nat.add_0_r|].
  destruct (replay_step at_ index r e) as [r1|]; cbn [mbind result_bind]; [|done]. rewrite IH.
  by rewrite Nat.add_succ_comm.
Qed.

(** ** Runs *)
Section runs.
Context (opts : StreamVerifierOptions).

Definition within (at_ : datetime) (events : list VerifiedLifecycleEvent) : Prop :=
  Forall (λ v, ev_domain (vl_event v) = domain ∧ dt_gt (ev_timestamp (vl_event v)) at_ = Ok false) events.

Lemma replay_issuance at_ index item s : genesis opts item s → is_issuance (vl_event item) = true → within at_ [item] →
  ∃ r, replay_step at_ index empty_replay (vl_event item) = Ok r ∧ replays r s ∧ rp_events r = [vl_event item].
Proof.
  intros Hg Hi [[Hd Ht] _]%Forall_cons. unfold is_issuance in Hi.
  destruct Hg as [gi ek ku Hbody _ _ (te & tu & He & Hu & Hne) _ _ _ _|? ? ? ? ? Hbody]; rewrite Hbody in Hi; [|done].
  unfold replay_step. rewrite Hd, eqb_refl. res_cbn. rewrite Ht. res_cbn. cbn [empty_replay rp_past_boundary]. res_cbn.
  cbn [keep rp_state empty_replay]. unfold is_issuance. rewrite Hbody.
  rewrite (bool_decide_eq_true_2 (@None status = None)) by done. res_cbn.
  rewrite !bool_decide_eq_false_2 by done. res_cbn. unfold replay_event. rewrite Hbody. cbn [keep rp_state].
  rewrite (bool_decide_eq_false_2 (is_Some (rp_state empty_replay))) by (by intros [? ?]). res_cbn. rewrite He, Hu. res_cbn. rewrite (proj2 (eqb_false _ _) Hne). res_cbn.
  eexists. split; [done|]. split; [|done]. unfold replays. cbn. done.
Qed.

(** A genesis MIGRATION keeps the keys recovered from the previous log. *)
Lemma replay_migration at_ index r s0 item s : genesis opts item s → is_migration (vl_event item) = true → within at_ [item] →
  replays r s0 → id_status s0 = Active → id_entity s = id_entity s0 → id_operational s = id_operational s0 →
  (∀ p n f, ev_body (vl_event item) = MigrationEvent p n f → n ≠ [] ∧ f ≠ []) →
  ∃ r', replay_step at_ index r (vl_event item) = Ok r' ∧ replays r' s ∧ rp_events r' = rp_events r ++ [vl_event item]
    ∧ rp_governance_id r' = rp_governance_id r.
Proof.
  intros Hg Hi [[Hd Ht] _]%Forall_cons (Hs & He & Ha & Hth & Hp) Hact Hek Hok Href. unfold is_migration in Hi.
  destruct Hg as [? ? ? Hbody|pl nl fr f m Hbody Hpl Hne Hvm Hctx Hm Hdist Htr Hkid Hsig]; rewrite Hbody in Hi; [done|].
  cbn [id_entity id_operational] in *. destruct (Href _ _ _ Hbody) as [Hn Hf].
  unfold replay_step. rewrite Hd, eqb_refl. res_cbn. rewrite Ht. res_cbn. rewrite Hp. res_cbn. cbn [keep rp_state].
  rewrite Hs, Hact. rewrite !bool_decide_eq_false_2 by done. res_cbn. unfold replay_event. rewrite Hbody.
  rewrite (proj2 (eqb_false pl []) Hpl), (proj2 (eqb_false nl []) Hn), (proj2 (eqb_false fr []) Hf), (proj2 (eqb_false pl nl) Hne).
  res_cbn. eexists. split; [done|]. unfold replays. cbn. rewrite Hek, Hok, Hs, Hact. split_and!; done.
Qed.

(** From any state that replays the genesis on, the rest follows. *)
Lemma replay_run at_ index r0 events s : lifecycle opts events s → within at_ events →
  (∀ item s0, genesis opts item s0 → head events = Some item →
     ∃ r, replay_step at_ index r0 (vl_event item) = Ok r ∧ replays r s0 ∧ rp_events r = rp_events r0 ++ [vl_event item]) →
  ∃ r, replay_loop at_ index r0 (map vl_event events) = Ok r ∧ replays r s ∧ rp_events r = rp_events r0 ++ map vl_event events.
Proof.
  intros Hl Hw Hgen. induction Hl as [item s Ho Htm Hg Hst|events prev item s s' Hl IH Hact Hlk Htm Htr Hst].
  - destruct (Hgen item s Hg eq_refl) as (r & Hr & Hrs & Hev). exists r. cbn [map replay_loop]. rewrite Hr. done.
  - change [prev; item] with ([prev] ++ [item]) in *. rewrite app_assoc in Hw |- *. apply Forall_app in Hw as [Hw [[Hd Ht] _]%Forall_cons].
    destruct IH as (r & Hr & Hrs & Hev); [done| |].
    { intros x s0 Hx Hh. apply Hgen; [done|]. destruct events; done. }
    destruct (replay_transition at_ (index + length (map vl_event (events ++ [prev]))) _ _ _ _ Hrs Hact Htr Hd Ht)
      as (r' & Hr' & Hrs' & Hev' & _).
    exists r'. rewrite (map_app vl_event (events ++ [prev])), replay_app, Hr. cbn [mbind result_bind map replay_loop].
    rewrite Hr'. split_and!; [done..|]. rewrite Hev', Hev. by rewrite app_assoc.
Qed.
End runs.
End snapshot.

(** ** What a replay has seen *)
Section seen.
Context `{Platform} (domain : str).

(** Nothing yet; or an ISSUANCE, then events of other classes, of which only the
    last may be terminal, and it sets the state. *)
Definition replay_ok (r : replay) : Prop :=
  match rp_state r with
  | None => rp_events r = []
  | Some st =>
      (∃ e0 rest, rp_events r = e0 :: rest ∧ is_issuance e0 = true ∧ Forall (λ e, is_issuance e = false) rest)
      ∧ match st with
        | Active => Forall (λ e, is_terminal e = false) (rp_events r)
        | _ => ∃ l e, rp_events r = l ++ [e] ∧ is_terminal e = true ∧ Forall (λ e, is_terminal e = false) l
        end
      ∧ ∃ key, rp_active_key r = Some key ∧ thumbprint key = Ok (rp_active_key_thumbprint r)
  end.

Definition is_revocation (e : LogEvent) : bool := match ev_body e with RevocationEvent _ => true | _ => false end.

Lemma replay_event_ok index r event r' : replay_ok r → rp_state r ≠ Some Revoked → rp_state r ≠ Some Retired →
  (rp_state r = None → is_issuance event = true) → replay_event index (keep r event) event = Ok r' → replay_ok r'.
Proof.
  unfold replay_ok. intros Hok Hnr Hnt Hi Hx. unfold replay_event in Hx. cbn [keep rp_state rp_active_key rp_entity_key rp_active_key_thumbprint] in Hx.
  destruct (rp_state r) as [[]|] eqn:Hs; [| |done|].
  - destruct Hok as ((e0 & rest & Hev & He0 & Hrest) & Hterm & key & Hkey & Hth).
    assert (is_issuance event = false → (∃ e0' rest', rp_events r ++ [event] = e0' :: rest' ∧ is_issuance e0' = true ∧ Forall (λ e, is_issuance e = false) rest')) as Hcons.
    { intros Hne. exists e0, (rest ++ [event]). rewrite Hev. split_and!; [done..|]. apply Forall_app. by split; [|constructor]. }
    unfold is_issuance, is_terminal in *. destruct (ev_body event) as [gi ek ku|? pt ? ? nt nk ?|reason| |pl nl fr|] eqn:Hb; cbn in Hx.
    + done.
    + rewrite Hkey in Hx. destruct (rp_entity_key r), nk as [nk|]; try done. guard_step Hx as Hp. bind_step Hx as tk Hk.
      guard_step Hx as Hn. bind_step Hx as te He. guard_step Hx as Hne. apply Ok_inj in Hx as <-. cbn. rewrite Hs.
      rewrite orb_false_iff, negb_false_iff, eqb_true in Hn. destruct Hn as [-> _].
      split_and!; [by apply Hcons|apply Forall_app; split; [done|constructor; [by rewrite Hb|constructor]]|eauto].
    + guard_step Hx as Hg. apply Ok_inj in Hx as <-. cbn. split_and!; [by apply Hcons| |eauto].
      exists (rp_events r), event. rewrite Hb. done.
    + apply Ok_inj in Hx as <-. cbn. split_and!; [by apply Hcons| |eauto]. exists (rp_events r), event. rewrite Hb. done.
    + guard_step Hx as Hg. apply Ok_inj in Hx as <-. cbn. rewrite Hs.
      split_and!; [by apply Hcons|apply Forall_app; split; [done|constructor; [by rewrite Hb|constructor]]|eauto].
    + apply Ok_inj in Hx as <-. cbn. rewrite Hs.
      split_and!; [by apply Hcons|apply Forall_app; split; [done|constructor; [by rewrite Hb|constructor]]|eauto].
  - done.
  - specialize (Hi eq_refl). unfold is_issuance in Hi. destruct (ev_body event) as [gi ek ku| | | | |] eqn:Hb; try done.
    guard_step Hx as Hg. destruct ek as [ek|], ku as [ku|]; try done. bind_step Hx as te He. bind_step Hx as tu Hu.
    guard_step Hx as Hne. apply Ok_inj in Hx as <-. cbn. rewrite Hok. unfold is_issuance, is_terminal. cbn.
    split_and!; [exists event, []; rewrite Hb; done|constructor; [by rewrite Hb|constructor]|eauto].
Qed.

Lemma replay_loop_ok at_ index r events r' : replay_ok r → replay_loop domain at_ index r events = Ok r' → replay_ok r'.
Proof.
  revert index r. induction events as [|e events IH]; intros index r Hok Hx; cbn [replay_loop] in Hx; [by apply Ok_inj in Hx as <-|].
  bind_step Hx as r1 H1. apply replay_step_frame in H1 as (_ & [[_ ->]|(_ & _ & _ & _ & Hev & Hi & H1 & H2)]).
  - by apply (IH _ (past r)) in Hx.
  - eapply IH; [|exact Hx]. by eapply replay_event_ok.
Qed.
End seen.

(** A snapshot is a prefix of the history: the events it is derived from are
    those not later than the time asked for, and every other event is later; the
    first is the only ISSUANCE; the state is ACTIVE exactly when none of them
    revokes or retires the identity, and otherwise only the last one does; the
    active thumbprint is that of the active key. *)
Theorem snapshot_is_prefix `{Platform} (domain : str) (events : list LogEvent) (at_ : datetime) (snap : DomainSnapshot)
    (Hsnap : snapshot_at domain events at_ = Ok snap) :
  (∃ after, events = ds_events snap ++ after
     ∧ Forall (λ e, dt_gt (ev_timestamp e) at_ = Ok false) (ds_events snap)
     ∧ Forall (λ e, dt_gt (ev_timestamp e) at_ = Ok true) after ∧ Forall (λ e, ev_domain e = domain) events)
  ∧ (∃ e0 rest, ds_events snap = e0 :: rest ∧ is_issuance e0 = true ∧ Forall (λ e, is_issuance e = false) rest)
  ∧ match ds_historical_state snap with
    | Active => Forall (λ e, is_terminal e = false) (ds_events snap)
    | _ => ∃ l e, ds_events snap = l ++ [e] ∧ is_terminal e = true ∧ Forall (λ e, is_terminal e = false) l
    end
  ∧ thumbprint (ds_active_key snap) = Ok (ds_active_key_thumbprint snap).
Proof.
  unfold snapshot_at in Hsnap. guard_step Hsnap as Hne. bind_step Hsnap as r Hr. guard_step Hsnap as Hev.
  assert (replay_ok empty_replay) as H0 by done. pose proof (replay_loop_ok _ _ _ _ _ _ H0 Hr) as Hok.
  apply replay_loop_prefix in Hr as (before & after & -> & Hb & H1 & H2 & H3); [|done]. cbn in Hb.
  unfold replay_ok in Hok. destruct (rp_state r) as [st|]; [|done]. destruct Hok as (Hi & Ht & key & Hkey & Hth).
  rewrite Hkey in Hsnap. apply Ok_inj in Hsnap as <-. cbn. rewrite Hb in *.
  split_and!; [exists after; done|done|done|done].
Qed.

(** The snapshot of a verified stream is the state of the lifecycle machine: if
    [verify_lifecycle] accepts events that begin with an ISSUANCE, then the
    snapshot at any time not before them exists and has the status and the
    operational key that the machine reached, and all the events. *)
Theorem snapshot_of_verified_lifecycle `{Platform} (opts : StreamVerifierOptions) (check : list nat → res unit)
    (path : list nat) (domain : str) (events : list VerifiedLifecycleEvent) (at_ : datetime)
    (Hverify : verify_lifecycle opts check path events = Ok ())
    (Hissued : ∃ item, head events = Some item ∧ is_issuance (vl_event item) = true)
    (Hwithin : within domain at_ events) :
  ∃ s snap, lifecycle opts events s ∧ snapshot_at domain (map vl_event events) at_ = Ok snap
    ∧ ds_historical_state snap = id_status s ∧ ds_active_key snap = id_operational s
    ∧ ds_events snap = map vl_event events.
Proof.
  apply verify_lifecycle_lifecycle in Hverify as [s Hl]. destruct Hissued as (item0 & Hh & Hi).
  destruct (replay_run domain opts at_ 0 empty_replay events s Hl Hwithin) as (r & Hr & (Hs & _ & Ha & _ & _) & Hev).
  { intros item s0 Hg Hh'. rewrite Hh in Hh'. injection Hh' as <-. apply (replay_issuance domain opts); [done..|].
    destruct events; [done|]. injection Hh as ->. apply Forall_cons in Hwithin as [Hw _]. by constructor. }
  assert (events ≠ []) as Hne by (by destruct events).
  unfold snapshot_at. rewrite guard_false by (by destruct events). rewrite Hr. cbn [mbind result_bind].
  rewrite Hev. rewrite guard_false by (by destruct events). rewrite Hs, Ha.
  eexists s, _. split_and!; done.
Qed.

(** ** Witnesses *)
Definition toy_time : datetime := utc 1800000000000000.

Lemma snapshot_is_prefix_witness :
  match snapshot_at toy_domain (map vl_event toy_selected) toy_time with
  | Ok snap => thumbprint (ds_active_key snap) = Ok (ds_active_key_thumbprint snap)
  | Raise _ => False
  end.
Proof.
  destruct (snapshot_at toy_domain (map vl_event toy_selected) toy_time) as [snap|e] eqn:Hs; [|vm_compute in Hs; discriminate].
  apply (snapshot_is_prefix toy_domain (map vl_event toy_selected) toy_time snap Hs).
Defined.

Lemma snapshot_of_verified_lifecycle_witness :
  ∃ s snap, lifecycle toy_options toy_selected s ∧ snapshot_at toy_domain (map vl_event toy_selected) toy_time = Ok snap
    ∧ ds_historical_state snap = id_status s ∧ ds_active_key snap = id_operational s
    ∧ ds_events snap = map vl_event toy_selected.
Proof.
  apply (snapshot_of_verified_lifecycle toy_options no_deadline []); [vm_compute; reflexivity|..].
  - eexists. split; [vm_compute; reflexivity|vm_compute; reflexivity].
  - repeat constructor; vm_compute; reflexivity.
Defined.
