(* ===== verification/TxtRecord.v ===== *)
(** * Identity records ([DnsIdTxtRecord] of [dnsid/models.py])

    The [_dnsid] TXT record: parsing, semantic validation, the canonical form
    that is signed and the form that is published. *)
From S2P Require Import Prelude Errors PyText Utils Lr Canonical Keys.

(** ** Tags *)

(** [_KNOWN_TAGS], in the order [_all_tags] lists them. *)
Inductive known_tag : Set := Tv | Tgi | Tek | Tku | Tlr | Tsu | Tsg | Tfl | Tka | Tcu.

#[global] Instance known_tag_eq_dec : EqDecision known_tag.
Proof. solve_decision. Defined.
#[global] Program Instance known_tag_finite : finite.Finite known_tag :=
  {| finite.enum := [Tv; Tgi; Tek; Tku; Tlr; Tsu; Tsg; Tfl; Tka; Tcu] |}.
Next Obligation. by_decide. Qed.
Next Obligation. intros []; by_decide. Qed.

Definition known_tags : list known_tag := [Tv; Tgi; Tek; Tku; Tlr; Tsu; Tsg; Tfl; Tka; Tcu].

Definition tag_name (t : known_tag) : str :=
  match t with
  | Tv => lit "v" | Tgi => lit "gi" | Tek => lit "ek" | Tku => lit "ku" | Tlr => lit "lr" | Tsu => lit "su"
  | Tsg => lit "sg" | Tfl => lit "fl" | Tka => lit "ka" | Tcu => lit "cu"
  end.

(** [tag in _KNOWN_TAGS] *)
Definition known_tag_of (name : str) : option known_tag := List.find (λ t, tag_name t ==? name) known_tags.

(** [_DRAFT01_REQUIRED] *)
Definition required_tags : list known_tag := [Tv; Tgi; Tek; Tku; Tlr; Tsu; Tsg].

Definition DRAFT01 : str := lit "dnsid-draft-01".
Definition DNSID1 : str := lit "DNSid1".
Definition is_supported_version (v : str) : bool := bool_decide (v ∈ [DRAFT01; DNSID1]).
Definition publish_allowed_version (v : str) : bool := bool_decide (v ∈ [DRAFT01]).

(** ** The record *)
Record DnsIdTxtRecord : Set := {
  rec_v : str; rec_gi : str; rec_ek : str; rec_ku : str; rec_lr : str; rec_su : str; rec_sg : str;
  rec_fl : str; rec_ka : str; rec_cu : str;
  rec_identity_fqdn : str;
  rec_unknown_tags : list (str * str);
  rec_parsed_optional_tags : gset known_tag
}.

(** [cls()] *)
Definition new_record : DnsIdTxtRecord :=
  {| rec_v := DRAFT01; rec_gi := []; rec_ek := []; rec_ku := []; rec_lr := []; rec_su := []; rec_sg := [];
     rec_fl := []; rec_ka := []; rec_cu := []; rec_identity_fqdn := []; rec_unknown_tags := [];
     rec_parsed_optional_tags := ∅ |}.

(** [getattr(record, tag)] and [setattr(record, tag, value)] *)
Definition get_tag (r : DnsIdTxtRecord) (t : known_tag) : str :=
  match t with
  | Tv => rec_v r | Tgi => rec_gi r | Tek => rec_ek r | Tku => rec_ku r | Tlr => rec_lr r | Tsu => rec_su r
  | Tsg => rec_sg r | Tfl => rec_fl r | Tka => rec_ka r | Tcu => rec_cu r
  end.

Definition build_record (f : known_tag → str) (identity : str) (unknown : list (str * str)) (optional : gset known_tag)
    : DnsIdTxtRecord :=
  {| rec_v := f Tv; rec_gi := f Tgi; rec_ek := f Tek; rec_ku := f Tku; rec_lr := f Tlr; rec_su := f Tsu;
     rec_sg := f Tsg; rec_fl := f Tfl; rec_ka := f Tka; rec_cu := f Tcu; rec_identity_fqdn := identity;
     rec_unknown_tags := unknown; rec_parsed_optional_tags := optional |}.

Definition set_tag (t : known_tag) (value : str) (r : DnsIdTxtRecord) : DnsIdTxtRecord :=
  build_record (λ t', if decide (t' = t) then value else get_tag r t') (rec_identity_fqdn r) (rec_unknown_tags r)
    (rec_parsed_optional_tags r).
Definition set_unknown (tag value : str) (r : DnsIdTxtRecord) : DnsIdTxtRecord :=
  build_record (get_tag r) (rec_identity_fqdn r) (dict_set tag value (rec_unknown_tags r)) (rec_parsed_optional_tags r).
Definition add_optional (t : known_tag) (r : DnsIdTxtRecord) : DnsIdTxtRecord :=
  build_record (get_tag r) (rec_identity_fqdn r) (rec_unknown_tags r) ({[t]} ∪ rec_parsed_optional_tags r).
Definition set_identity (fqdn : str) (r : DnsIdTxtRecord) : DnsIdTxtRecord :=
  build_record (get_tag r) fqdn (rec_unknown_tags r) (rec_parsed_optional_tags r).

(** ** Parsing *)

(** One element of the list; the first may not start with a space. *)
Definition parse_element (first : bool) (element : str) : res (str * str) :=
  let element := if negb first && startswith [32] element then drop 1 element else element in
  match partition 61 element with
  | None => Raise (ParseError (lit "TXT element has no '='"))
  | Some (tag, value) =>
      raise_if (negb (is_valid_tag_name tag)) (ParseError (lit "invalid TXT tag name")) ;;
      raise_if (negb (is_valid_tag_value value)) (ParseError (lit "invalid TXT tag value")) ;;
      Ok (tag, value)
  end.

(** The elements in order, without repeated tags; an empty one is allowed only
    at the very end.  [forbidden] is the test that follows that for repeats. *)
Fixpoint parse_pairs (forbidden : str → res unit) (first : bool) (seen : list str) (pairs : list str)
    : res (list (str * str)) :=
  match pairs with
  | [] => Ok []
  | element :: rest =>
      if element ==? [] then
        match rest with
        | [] => Ok []
        | _ => Raise (ParseError (lit "empty TXT tag element"))
        end
      else
        '(tag, value) ← parse_element first element;
        raise_if (bool_decide (tag ∈ seen)) (ParseError (lit "duplicate TXT tag")) ;;
        forbidden tag ;;
        parsed ← parse_pairs forbidden false (tag :: seen) rest;
        Ok ((tag, value) :: parsed)
  end.

(** The assignment of one parsed element. *)
Definition assign (required : list known_tag) (r : DnsIdTxtRecord) (kv : str * str) : DnsIdTxtRecord :=
  let '(tag, value) := kv in
  match known_tag_of tag with
  | Some t =>
      let r := if bool_decide (t ∈ required) then r else add_optional t r in
      if negb (value ==? []) || bool_decide (t ∈ required) then set_tag t value r else r
  | None => set_unknown tag value r
  end.

Definition missing_tags (required : list known_tag) (seen : list str) : bool :=
  existsb (λ t, negb (bool_decide (tag_name t ∈ seen))) required.

Definition parse_record (raw : str) : res DnsIdTxtRecord :=
  let pairs := PyText.split 59 raw in
  let head := strip is_space (List.hd [] pairs) in
  raise_if (negb (startswith (lit "v=") head)) (ParseError (lit "v= tag must be first")) ;;
  let version := drop 2 head in
  raise_if (negb (is_supported_version version)) (ParseError (lit "unsupported DNSid TXT record profile")) ;;
  parsed ← parse_pairs (λ _, Ok ()) true [] pairs;
  let record := foldl (assign required_tags) new_record parsed in
  raise_if (missing_tags required_tags parsed.*1) (ParseError (lit "missing required TXT tags")) ;;
  raise_if (existsb (λ t, get_tag record t ==? []) required_tags)
    (ParseError (lit "required TXT tags have empty values")) ;;
  Ok record.

(** ** Canonical form and serialisation *)
Definition tag_text (kv : str * str) : str := kv.1 ++ [61] ++ kv.2.

(** [_all_tags], as pairs. *)
Definition tag_pairs (tags : list known_tag) (r : DnsIdTxtRecord) : list (str * str) :=
  omap (λ t, if negb (get_tag r t ==? []) || bool_decide (t ∈ rec_parsed_optional_tags r)
             then Some (tag_name t, get_tag r t) else None) tags.
Definition all_tags (r : DnsIdTxtRecord) : list str := map tag_text (tag_pairs known_tags r ++ rec_unknown_tags r).

(** [t.partition("=")[0]] *)
Definition text_tag (text : str) : str := match partition 61 text with Some (tag, _) => tag | None => text end.

(** [sorted(texts, key=...)] *)
Definition sort_texts (key : str → str) (texts : list str) : list str :=
  (sort_members (map (λ t, (key t, t)) texts)).*2.

Definition record_canonical (r : DnsIdTxtRecord) : str :=
  join [59] (sort_texts text_tag (List.filter (λ t, negb (startswith (lit "sg=") t)) (all_tags r))).

Definition known_tags_canonical (r : DnsIdTxtRecord) : str :=
  join [59] (sort_texts id (map tag_text (tag_pairs (List.filter (λ t, negb (bool_decide (t = Tsg))) known_tags) r))).

Definition serialize_record (r : DnsIdTxtRecord) : str :=
  lit "v=" ++ rec_v r ++ lit ";" ++ join [59] (List.filter (λ t, negb (startswith (lit "v=") t)) (all_tags r)).

(** [policy_flags] *)
Definition policy_flags (r : DnsIdTxtRecord) : list str :=
  if rec_fl r ==? [] then []
  else List.filter (λ t, negb (t ==? [])) (map (strip is_space) (PyText.split 44 (rec_fl r))).

(** ** Validation *)
Section validation.
Context `{Platform}.

(** [_parse_https_uri_host] *)
Definition parse_https_uri_host (uri : str) (field : string) : res str :=
  let bad := λ msg, ValidationError (lit field ++ lit msg) in
  parsed ← try_except (urlsplit netloc_ok uri) (λ _, Raise (bad " is not a valid URI"));
  raise_if (negb (url_scheme parsed ==? lit "https")) (bad " must use the https scheme") ;;
  match hostname str_lower (url_netloc parsed) with
  | None => Raise (bad " must have a non-empty host")
  | Some host =>
      raise_if (host ==? []) (bad " must have a non-empty host") ;;
      raise_if (let '(_, have, _) := rpartition_at 64 (url_netloc parsed) in have) (bad " must not contain credentials") ;;
      raise_if (bool_decide (35 ∈ uri)) (bad " must not contain a fragment") ;;
      try_except (port (url_netloc parsed) ;; Ok ())
        (λ e, if is_value_error e then Raise (bad " is not a valid URI") else Raise e) ;;
      Ok host
  end.

Definition at_or_beneath (host domain : str) : bool := (host ==? domain) || endswith ([46] ++ domain) host.

Definition permitted_ka (ka : str) : bool := bool_decide (ka ∈ [lit "24h"; lit "7d"; lit "30d"; lit "90d"]).

Definition validate_record (r : DnsIdTxtRecord) : res unit :=
  raise_if (negb (is_supported_version (rec_v r))) (ValidationError (lit "unsupported DNSid profile")) ;;
  identity ← normalize_fqdn idna_encode (rec_identity_fqdn r) true;
  let bad := ValidationError (lit "draft 01 gi must be a lowercase ASCII DNS domain") in
  raise_if (negb (is_domain_name (rec_gi r))) bad ;;
  gi_domain ← normalize_fqdn idna_encode (rec_gi r) false;
  raise_if (negb (rec_gi r ==? gi_domain)) bad ;;
  ku_host ← parse_https_uri_host (rec_ku r) "ku";
  let ku_bad := ValidationError (lit "ku host must equal identity FQDN") in
  raise_if (endswith [46] ku_host) ku_bad ;;
  ku_name ← normalize_fqdn idna_encode ku_host false;
  raise_if (negb (ku_name ==? identity)) ku_bad ;;
  ek_host ← parse_https_uri_host (rec_ek r) "ek";
  raise_if (endswith [46] ek_host) (ValidationError (lit "ek host must not end with a root dot")) ;;
  ek_name ← normalize_fqdn idna_encode ek_host false;
  raise_if (negb (at_or_beneath ek_name gi_domain)) (ValidationError (lit "ek host must equal or be beneath gi")) ;;
  parse_https_uri_host (rec_su r) "su" ;;
  (if rec_lr r ==? [] then Ok ()
   else try_except (parse_ledger_ref (rec_lr r) ;; Ok ())
          (λ e, match e with ParseError _ => Raise (ValidationError (lit "malformed lr value")) | e => Raise e end)) ;;
  (if rec_cu r ==? [] then Ok () else parse_https_uri_host (rec_cu r) "cu" ;; Ok ()) ;;
  raise_if (negb (rec_ka r ==? []) && negb (permitted_ka (rec_ka r))) (ValidationError (lit "ka is not permitted")).

(** [parse_unsigned_canonical] *)
Definition unsigned_required : list known_tag := [Tv; Tgi; Tek; Tku; Tlr; Tsu].

Definition parse_unsigned_canonical (raw : str) (identity_fqdn : option str) : res DnsIdTxtRecord :=
  parsed ← parse_pairs
    (λ tag, raise_if (tag ==? lit "sg") (ParseError (lit "sg= tag must not appear in unsigned canonical form")))
    true [] (PyText.split 59 raw);
  let version := default [] (dict_get (lit "v") parsed) in
  raise_if (version ==? []) (ParseError (lit "missing required TXT tags in canonical form: ['v']")) ;;
  raise_if (negb (is_supported_version version)) (ParseError (lit "unsupported DNSid TXT record profile")) ;;
  let record := foldl (assign unsigned_required) new_record parsed in
  raise_if (missing_tags unsigned_required parsed.*1) (ParseError (lit "missing required TXT tags in canonical form")) ;;
  raise_if (negb (record_canonical record ==? raw)) (ParseError (lit "unsigned TXT record is not in canonical form")) ;;
  match identity_fqdn with
  | None => Ok record
  | Some fqdn => let record := set_identity fqdn record in validate_record record ;; Ok record
  end.
End validation.
