(* ===== verification/TxtRecordSpec.v ===== *)
(** * What identity records mean

    Printing and parsing are inverse; the canonical form, which is what the
    entity signs, determines every tag but the signature; a record built from
    unsigned canonical text verifies against exactly that text. *)
From S2P Require Import Prelude Errors PyText Base64 Utils Lr Canonical JsonScan JsonRoundtrip Keys TxtRecord LifecycleDemo.

(** ** Text *)
Lemma split_join c ls : ls ≠ [] → Forall (λ l, c ∉ l) ls → PyText.split c (join [c] ls) = ls.
Proof.
  intros Hne Hf. induction Hf as [|l ls Hl Hls IH]; [done|]. destruct ls as [|l' ls].
  - change (join [c] [l]) with l. by apply split_no_sep.
  - change (join [c] (l :: l' :: ls)) with (l ++ c :: join [c] (l' :: ls)). rewrite split_app_sep by done. by rewrite IH.
Qed.

Lemma startswith_refl p s : startswith p (p ++ s) = true.
Proof. apply startswith_app. eauto. Qed.

Lemma filter_holds {A} (f : A → bool) l : Forall (λ x, f x = true) l → List.filter f l = l.
Proof. induction 1 as [|x l Hx _ IH]; [done|]. cbn. by rewrite Hx, IH. Qed.
Lemma filter_none {A} (f : A → bool) l : Forall (λ x, f x = false) l → List.filter f l = [].
Proof. induction 1 as [|x l Hx _ IH]; [done|]. cbn. by rewrite Hx. Qed.

(** A name has letters, digits and underscores only; a value anything printable
    but the semicolon. *)
Lemma tag_name_chars n c : is_valid_tag_name n = true → c ∈ n → is_alnum c = true ∨ c = 95.
Proof.
  destruct n as [|x n]; [done|]. cbn. rewrite andb_true_iff, forallb_Forall. intros [Hx Hn] [->|Hc]%elem_of_cons.
  - left. unfold is_alnum. by rewrite Hx.
  - rewrite Forall_forall in Hn. specialize (Hn _ Hc). cbn in Hn. rewrite orb_true_iff, Z.eqb_eq in Hn. naive_solver.
Qed.

Lemma tag_name_no c n : is_alnum c = false → c ≠ 95 → is_valid_tag_name n = true → c ∉ n.
Proof. intros Hc H95 Hn Hin. destruct (tag_name_chars n c Hn Hin); congruence. Qed.

Lemma tag_value_no_semi v : is_valid_tag_value v = true → 59 ∉ v.
Proof.
  unfold is_valid_tag_value. rewrite forallb_Forall, Forall_forall. intros Hv Hin. by specialize (Hv _ Hin).
Qed.

Lemma known_tag_name_valid t : is_valid_tag_name (tag_name t) = true.
Proof. by destruct t. Qed.

#[global] Instance tag_name_inj : Inj (=) (=) tag_name.
Proof. intros [] []; vm_compute; congruence. Qed.

Lemma known_tag_of_name t : known_tag_of (tag_name t) = Some t.
Proof. by destruct t; vm_compute. Qed.

Lemma known_tag_of_Some n t : known_tag_of n = Some t ↔ n = tag_name t.
Proof.
  split; [|by intros ->; apply known_tag_of_name]. unfold known_tag_of. intros [_ Hf]%List.find_some.
  cbn beta in Hf. rewrite eqb_true in Hf. done.
Qed.

(** ** Pairs and their text *)
Definition pair_ok (kv : str * str) : Prop := is_valid_tag_name kv.1 = true ∧ is_valid_tag_value kv.2 = true.

Lemma partition_tag_text kv : is_valid_tag_name kv.1 = true → partition 61 (tag_text kv) = Some kv.
Proof.
  intros Hn. destruct kv as [n v]. unfold tag_text. cbn. rewrite (proj2 (partition_Some 61 (n ++ 61 :: v) n v)); [done|].
  split; [done|]. by apply tag_name_no.
Qed.

Lemma tag_text_inj a b : is_valid_tag_name a.1 = true → is_valid_tag_name b.1 = true → tag_text a = tag_text b → a = b.
Proof. intros Ha Hb Hab. apply (f_equal (partition 61)) in Hab. rewrite !partition_tag_text in Hab by done. congruence. Qed.

Lemma tag_text_no_semi kv : pair_ok kv → 59 ∉ tag_text kv.
Proof.
  intros [Hn Hv] Hin. unfold tag_text in Hin. apply elem_of_app in Hin as [Hin|Hin]; [by eapply tag_name_no in Hin|].
  apply elem_of_cons in Hin as [?|Hin]; [done|]. by apply tag_value_no_semi in Hin.
Qed.

(** The test for a name at the beginning of a text. *)
Lemma startswith_tag n kv : is_valid_tag_name n = true → is_valid_tag_name kv.1 = true →
  startswith (n ++ [61]) (tag_text kv) = (kv.1 ==? n).
Proof.
  intros Hn Hk. apply eq_bool_prop_intro. rewrite !Is_true_true, startswith_app, eqb_true. split.
  - intros [t Ht]. rewrite <- app_assoc in Ht. cbn in Ht. apply (f_equal (partition 61)) in Ht.
    rewrite partition_tag_text in Ht by done. rewrite (proj2 (partition_Some 61 (n ++ 61 :: t) n t)) in Ht.
    + injection Ht as ->. done.
    + split; [done|]. by apply tag_name_no.
  - intros <-. unfold tag_text. exists kv.2. by rewrite <- app_assoc.
Qed.

Lemma parse_element_text first kv : pair_ok kv → parse_element first (tag_text kv) = Ok kv.
Proof.
  intros [Hn Hv]. unfold parse_element. assert (startswith [32] (tag_text kv) = false) as ->.
  { apply not_true_is_false. rewrite startswith_app. intros [t Ht]. destruct kv as [[|x n] v]; [done|].
    injection Ht as -> _. cbn in Hn. discriminate. }
  rewrite andb_false_r, partition_tag_text by done. destruct kv as [n v]. cbn [fst snd] in *. by rewrite Hn, Hv.
Qed.

Lemma parse_element_Ok first e kv : parse_element first e = Ok kv → pair_ok kv.
Proof.
  unfold parse_element. destruct (partition _ _) as [[n v]|]; [|done]. intros Hx. guard_step Hx as Hn. guard_step Hx as Hv.
  apply Ok_inj in Hx as <-. by rewrite negb_false_iff in Hn, Hv.
Qed.

Lemma parse_pairs_Ok forbidden first seen pairs kvs : parse_pairs forbidden first seen pairs = Ok kvs →
  NoDup kvs.*1 ∧ Forall pair_ok kvs ∧ Forall (λ kv, kv.1 ∉ seen ∧ forbidden kv.1 = Ok ()) kvs.
Proof.
  revert first seen kvs. induction pairs as [|e pairs IH]; intros first seen kvs Hx; cbn [parse_pairs] in Hx.
  - apply Ok_inj in Hx as <-. split_and!; constructor.
  - destruct (e ==? []); [destruct pairs; [|done]; apply Ok_inj in Hx as <-; split_and!; constructor|].
    bind_step Hx as [n v] He. guard_step Hx as Hd. rewrite bool_decide_eq_false in Hd.
    rewrite bind_unit_Ok in Hx. destruct Hx as [Hf Hx]. bind_step Hx as rest Hr. apply Ok_inj in Hx as <-.
    apply IH in Hr as (Hnd & Hok & Hs). apply parse_element_Ok in He. split_and!.
    + cbn. constructor; [|done]. intros Hin. apply list_elem_of_fmap in Hin as (kv & -> & Hin).
      rewrite Forall_forall in Hs. destruct (Hs _ Hin) as [Hnot _]. set_solver.
    + by constructor.
    + constructor; [done|]. eapply Forall_impl; [exact Hs|]. intros kv [Hnot ?]. split; [set_solver|done].
Qed.

Lemma parse_pairs_texts forbidden first seen kvs : NoDup kvs.*1 → Forall pair_ok kvs →
  Forall (λ kv, kv.1 ∉ seen ∧ forbidden kv.1 = Ok ()) kvs → parse_pairs forbidden first seen (map tag_text kvs) = Ok kvs.
Proof.
  revert first seen. induction kvs as [|kv kvs IH]; intros first seen Hnd Hok Hs; [done|]. cbn [map parse_pairs].
  apply Forall_cons in Hok as [Hkv Hok], Hs as [[Hnot Hf] Hs]. cbn in Hnd. apply NoDup_cons in Hnd as [Hnin Hnd].
  assert (tag_text kv ==? [] = false) as ->.
  { apply eqb_false. unfold tag_text. by destruct kv as [[|]]. }
  rewrite parse_element_text by done. destruct kv as [n v]. cbn [mbind result_bind]. cbn in Hnot, Hf, Hnin.
  rewrite bool_decide_eq_false_2 by done. res_cbn. rewrite Hf. cbn [mbind result_bind].
  rewrite IH; [done|done|done|]. rewrite Forall_forall in Hs |- *. intros kv' Hin. destruct (Hs _ Hin) as [Hn' Hf']. split; [|done].
  intros [E|?]%elem_of_cons; [|done]. apply Hnin. apply list_elem_of_fmap. exists kv'. done.
Qed.

(** ** Records from pairs *)
Lemma get_build f i u o t : get_tag (build_record f i u o) t = f t.
Proof. by destruct t. Qed.

Lemma record_ext r1 r2 : (∀ t, get_tag r1 t = get_tag r2 t) → rec_identity_fqdn r1 = rec_identity_fqdn r2 →
  rec_unknown_tags r1 = rec_unknown_tags r2 → rec_parsed_optional_tags r1 = rec_parsed_optional_tags r2 → r1 = r2.
Proof.
  intros Ht ? ? ?. pose proof (Ht Tv). pose proof (Ht Tgi). pose proof (Ht Tek). pose proof (Ht Tku). pose proof (Ht Tlr).
  pose proof (Ht Tsu). pose proof (Ht Tsg). pose proof (Ht Tfl). pose proof (Ht Tka). pose proof (Ht Tcu).
  destruct r1, r2. cbn in *. congruence.
Qed.

Lemma dict_get_None {A} k (d : list (str * A)) : dict_get k d = None ↔ k ∉ d.*1.
Proof.
  induction d as [|[k' v] d IH]; cbn [dict_get]; [cbn; split; [intros _; apply not_elem_of_nil|done]|].
  cbn [fmap list_fmap fst]. rewrite not_elem_of_cons. destruct (k' ==? k) eqn:E; [rewrite eqb_true in E|rewrite eqb_false in E]; naive_solver.
Qed.

Lemma dict_get_member {A} k v (d : list (str * A)) : NoDup d.*1 → dict_get k d = Some v ↔ (k, v) ∈ d.
Proof.
  induction d as [|[k' v'] d IH]; cbn [dict_get fmap list_fmap fst]; [intros _; split; [done|by intros ?%elem_of_nil]|].
  intros [Hn Hd]%NoDup_cons. rewrite elem_of_cons. destruct (k' ==? k) eqn:E; [rewrite eqb_true in E|rewrite eqb_false in E].
  - subst k'. split; [intros [= ->]; by left|]. intros [[= ->]|Hin]; [done|]. exfalso. apply Hn.
    apply list_elem_of_fmap. by exists (k, v).
  - rewrite IH by done. naive_solver.
Qed.

Lemma dict_set_snoc {A} k (v : A) d : k ∉ d.*1 → dict_set k v d = d ++ [(k, v)].
Proof.
  induction d as [|[k' v'] d IH]; [done|]. cbn [fmap list_fmap fst dict_set]. rewrite not_elem_of_cons. intros [Hne Hn].
  rewrite (proj2 (eqb_false k' k)) by done. by rewrite IH.
Qed.

(** The pairs of unknown tags, in order. *)
Definition unknown_pairs (kvs : list (str * str)) : list (str * str) :=
  List.filter (λ kv, bool_decide (known_tag_of kv.1 = None)) kvs.

(** What the assignments amount to. *)
Definition record_of (required : list known_tag) (kvs : list (str * str)) : DnsIdTxtRecord :=
  build_record (λ t, default (get_tag new_record t) (dict_get (tag_name t) kvs)) [] (unknown_pairs kvs)
    (list_to_set (List.filter (λ t, negb (bool_decide (t ∈ required)) && bool_decide (tag_name t ∈ kvs.*1)) known_tags)).

Lemma elem_of_optional required kvs t : t ∈ rec_parsed_optional_tags (record_of required kvs) ↔ t ∉ required ∧ tag_name t ∈ kvs.*1.
Proof.
  unfold record_of. cbn [build_record rec_parsed_optional_tags].
  rewrite elem_of_list_to_set, list_elem_of_In, List.filter_In, andb_true_iff, negb_true_iff, bool_decide_eq_true, bool_decide_eq_false.
  split; [tauto|]. intros ?. split; [|done]. apply list_elem_of_In. destruct t; by_decide.
Qed.

Lemma dict_get_snoc {A} k k' (v : A) d : k' ∉ d.*1 → dict_get k (d ++ [(k', v)]) = if decide (k = k') then Some v else dict_get k d.
Proof.
  induction d as [|[x y] d IH]; cbn [app dict_get fmap list_fmap fst].
  - intros _. unfold eqb. case_bool_decide; case_decide; naive_solver.
  - rewrite not_elem_of_cons. intros [Hne Hn]. rewrite IH by done. destruct (x ==? k) eqn:E; [|done].
    apply eqb_true in E as ->. by rewrite decide_False.
Qed.

(** One assignment, field by field. *)
Lemma get_assign required r n v t : get_tag (assign required r (n, v)) t =
  if decide (n = tag_name t ∧ (v ≠ [] ∨ t ∈ required)) then v else get_tag r t.
Proof.
  unfold assign. destruct (known_tag_of n) as [t'|] eqn:Hn.
  - apply known_tag_of_Some in Hn as ->. unfold set_tag, add_optional. destruct (v ==? []) eqn:Hv; [rewrite eqb_true in Hv|rewrite eqb_false in Hv];
      case_bool_decide; cbn [negb orb]; rewrite ?get_build; repeat case_decide; subst; rewrite ?get_build; naive_solver.
  - unfold set_unknown. rewrite get_build. case_decide as Hd; [|done]. destruct Hd as [-> _]. by rewrite known_tag_of_name in Hn.
Qed.

Lemma optional_assign required r n v t : t ∈ rec_parsed_optional_tags (assign required r (n, v)) ↔
  t ∈ rec_parsed_optional_tags r ∨ (n = tag_name t ∧ t ∉ required).
Proof.
  unfold assign. destruct (known_tag_of n) as [t'|] eqn:Hn.
  - apply known_tag_of_Some in Hn as ->. assert (tag_name t' = tag_name t ↔ t = t') as -> by (split; [by intros ->%tag_name_inj|by intros ->]).
    unfold set_tag, add_optional. case_bool_decide; destruct (v ==? []); cbn [negb orb build_record rec_parsed_optional_tags];
      rewrite ?elem_of_union, ?elem_of_singleton; naive_solver.
  - cbn. split; [by left|]. intros [?|[-> _]]; [done|]. by rewrite known_tag_of_name in Hn.
Qed.

Lemma unknown_assign required r n v : rec_unknown_tags (assign required r (n, v)) =
  if decide (known_tag_of n = None) then dict_set n v (rec_unknown_tags r) else rec_unknown_tags r.
Proof. unfold assign. destruct (known_tag_of n); cbn; [|done]. by case_bool_decide; destruct (v ==? []). Qed.

Lemma identity_assign required r kv : rec_identity_fqdn (assign required r kv) = rec_identity_fqdn r.
Proof. destruct kv as [n v]. unfold assign. destruct (known_tag_of n); [|done]. by case_bool_decide; destruct (v ==? []). Qed.

Lemma unknown_pairs_sub kvs kv : kv ∈ unknown_pairs kvs → kv ∈ kvs ∧ known_tag_of kv.1 = None.
Proof. unfold unknown_pairs. rewrite !list_elem_of_In, List.filter_In, bool_decide_eq_true. done. Qed.

Lemma unknown_pairs_app a b : unknown_pairs (a ++ b) = unknown_pairs a ++ unknown_pairs b.
Proof. apply List.filter_app. Qed.

#[global] Instance unknown_pairs_proper : Proper ((≡ₚ) ==> (≡ₚ)) unknown_pairs.
Proof.
  intros a b Hp. unfold unknown_pairs. induction Hp as [|x a b Hp IH|x y l|a b c _ IH1 _ IH2]; cbn [List.filter]; [done| | |by rewrite IH1].
  - by case_bool_decide; rewrite ?IH.
  - repeat case_bool_decide; try done. apply perm_swap.
Qed.

Lemma assign_record_of required kvs kv : Tv ∈ required → NoDup (kvs ++ [kv]).*1 →
  assign required (record_of required kvs) kv = record_of required (kvs ++ [kv]).
Proof.
  intros HTv Hnd. rewrite fmap_app in Hnd. apply NoDup_app in Hnd as (_ & Hdis & _). destruct kv as [n v].
  assert (n ∉ kvs.*1) as Hn by (intros Hin; apply (Hdis _ Hin); by left). apply record_ext.
  - intros t. rewrite get_assign. unfold record_of. rewrite !get_build, dict_get_snoc by done. repeat case_decide; try naive_solver.
    destruct v; [|naive_solver]. subst n. rewrite (proj2 (dict_get_None _ _) Hn). destruct t; try done. naive_solver.
  - by rewrite identity_assign.
  - rewrite unknown_assign. cbn [record_of build_record rec_unknown_tags]. rewrite unknown_pairs_app.
    unfold unknown_pairs at 4. cbn. case_decide as Hk; [rewrite bool_decide_eq_true_2 by done|rewrite bool_decide_eq_false_2 by done; by rewrite app_nil_r].
    apply dict_set_snoc. intros (kv & -> & [Hin _]%unknown_pairs_sub)%list_elem_of_fmap. apply Hn, list_elem_of_fmap. eauto.
  - apply set_eq. intros t. rewrite optional_assign, !elem_of_optional, fmap_app, elem_of_app. cbn. rewrite list_elem_of_singleton. naive_solver.
Qed.

Lemma assign_all required kvs : Tv ∈ required → NoDup kvs.*1 → foldl (assign required) new_record kvs = record_of required kvs.
Proof.
  intros HTv. induction kvs as [|kv kvs IH] using rev_ind; intros Hnd.
  - apply record_ext; [intros t; cbn [foldl]; unfold record_of; by rewrite get_build|done|done|].
    apply set_eq. intros t. rewrite elem_of_optional. cbn. set_solver.
  - rewrite foldl_app. cbn [foldl]. rewrite IH, assign_record_of; [done|done|done|].
    rewrite fmap_app in Hnd. by apply NoDup_app in Hnd as [? _].
Qed.

(** ** Printing *)

(** A record whose values and unknown names are of the grammar, without
    repeated names; it can be printed when the required tags are set. *)
Record well_tagged (r : DnsIdTxtRecord) : Prop := {
  pr_values : ∀ t, is_valid_tag_value (get_tag r t) = true;
  pr_unknown : Forall (λ kv, pair_ok kv ∧ known_tag_of kv.1 = None) (rec_unknown_tags r);
  pr_nodup : NoDup (rec_unknown_tags r).*1
}.
Record printable (r : DnsIdTxtRecord) : Prop := {
  pr_required : Forall (λ t, get_tag r t ≠ []) required_tags;
  pr_version : is_supported_version (rec_v r) = true;
  pr_well : well_tagged r
}.
#[export] Hint Resolve pr_well : py.

(** The pairs that are printed, and the record they are read back as. *)
Definition printed (r : DnsIdTxtRecord) : list (str * str) := tag_pairs known_tags r ++ rec_unknown_tags r.
Definition as_parsed (r : DnsIdTxtRecord) : DnsIdTxtRecord :=
  build_record (get_tag r) [] (rec_unknown_tags r)
    (list_to_set (List.filter (λ t, negb (bool_decide (t ∈ required_tags)) && bool_decide (tag_name t ∈ (printed r).*1)) known_tags)).

Definition is_printed (r : DnsIdTxtRecord) (t : known_tag) : Prop := get_tag r t ≠ [] ∨ t ∈ rec_parsed_optional_tags r.

#[global] Instance is_printed_dec r t : Decision (is_printed r t).
Proof. unfold is_printed. apply _. Defined.

Lemma printed_test r t : negb (get_tag r t ==? []) || bool_decide (t ∈ rec_parsed_optional_tags r) = true ↔ is_printed r t.
Proof. unfold is_printed. rewrite orb_true_iff, negb_true_iff, eqb_false, bool_decide_eq_true. done. Qed.

Lemma tag_pairs_elem tags r kv : kv ∈ tag_pairs tags r ↔ ∃ t, t ∈ tags ∧ is_printed r t ∧ kv = (tag_name t, get_tag r t).
Proof.
  unfold tag_pairs. rewrite list_elem_of_omap. split; intros (t & Hin & Hx); exists t.
  - case_match eqn:Hb; [|done]. injection Hx as <-. apply printed_test in Hb. done.
  - destruct Hx as [Hp ->]. apply printed_test in Hp. by rewrite Hp.
Qed.

Lemma tag_pairs_nodup tags r : NoDup tags → NoDup (tag_pairs tags r).*1.
Proof.
  induction 1 as [|t tags Hn _ IH]; [constructor|]. unfold tag_pairs. cbn [omap list_omap]. fold (tag_pairs tags r).
  destruct (_ || _); [|done]. cbn. constructor; [|done]. intros (kv & Hkv & Hin)%list_elem_of_fmap.
  apply tag_pairs_elem in Hin as (t' & Hin & _ & ->). cbn in Hkv. by apply (inj tag_name) in Hkv as <-.
Qed.

Lemma printed_nodup r : well_tagged r → NoDup (printed r).*1.
Proof.
  intros Hr. unfold printed. rewrite fmap_app. apply NoDup_app. split_and!; [apply tag_pairs_nodup; by_decide| |apply pr_nodup, Hr].
  intros n (kv & -> & Hin)%list_elem_of_fmap (kv' & Hn & Hin')%list_elem_of_fmap.
  apply tag_pairs_elem in Hin as (t & _ & _ & ->). pose proof (pr_unknown _ Hr) as Hu. rewrite Forall_forall in Hu.
  destruct (Hu _ Hin') as [_ Hk]. cbn in Hn. rewrite <- Hn, known_tag_of_name in Hk. done.
Qed.

Lemma printed_ok r : well_tagged r → Forall pair_ok (printed r).
Proof.
  intros Hr. apply Forall_app. split.
  - apply Forall_forall. intros kv (t & _ & _ & ->)%tag_pairs_elem. split; [apply known_tag_name_valid|apply pr_values, Hr].
  - eapply Forall_impl; [apply pr_unknown, Hr|]. naive_solver.
Qed.

Lemma printed_get r t : well_tagged r → dict_get (tag_name t) (printed r) = if decide (is_printed r t) then Some (get_tag r t) else None.
Proof.
  intros Hr. case_decide as Hp.
  - apply dict_get_member; [by apply printed_nodup|]. apply elem_of_app. left. apply tag_pairs_elem. exists t.
    split; [destruct t; by_decide|done].
  - apply dict_get_None. intros (kv & Hn & Hin)%list_elem_of_fmap. apply elem_of_app in Hin as [Hin|Hin].
    + apply tag_pairs_elem in Hin as (t' & _ & Hp' & ->). cbn in Hn. by apply (inj tag_name) in Hn as ->.
    + pose proof (pr_unknown _ Hr) as Hu. rewrite Forall_forall in Hu. destruct (Hu _ Hin) as [_ Hk].
      rewrite <- Hn, known_tag_of_name in Hk. done.
Qed.

Lemma unknown_pairs_printed r : well_tagged r → unknown_pairs (printed r) = rec_unknown_tags r.
Proof.
  intros Hr. unfold printed. rewrite unknown_pairs_app. unfold unknown_pairs. rewrite filter_none, filter_holds; [done| |].
  - eapply Forall_impl; [apply pr_unknown, Hr|]. intros kv [_ Hk]. by apply bool_decide_eq_true_2.
  - apply Forall_forall. intros kv (t & _ & _ & ->)%tag_pairs_elem. cbn [fst]. rewrite known_tag_of_name. by apply bool_decide_eq_false_2.
Qed.

Lemma record_of_printed r : printable r → record_of required_tags (printed r) = as_parsed r.
Proof.
  intros Hr. unfold record_of, as_parsed. rewrite unknown_pairs_printed by apply Hr. apply record_ext; [|done..].
  intros t. rewrite !get_build, printed_get by apply Hr. case_decide as Hp; [done|]. cbn. unfold is_printed in Hp.
  destruct (decide (t ∈ required_tags)) as [Hq|Hq].
  - pose proof (pr_required _ Hr) as Hreq. rewrite Forall_forall in Hreq. destruct Hp. left. by apply Hreq.
  - assert (get_tag r t = []) as -> by (destruct (decide (get_tag r t = [])); naive_solver). destruct t; try done. destruct Hq; by_decide.
Qed.

(** The version comes first, then everything else. *)
Lemma printed_version r : printable r → ∃ rest, printed r = (lit "v", rec_v r) :: rest ∧ rest ≠ [] ∧ Forall (λ kv, kv.1 ≠ lit "v") rest.
Proof.
  intros Hr. pose proof (printed_nodup r (pr_well _ Hr)) as Hnd. pose proof (pr_required _ Hr) as Hreq. apply Forall_cons in Hreq as [Hv Hreq].
  unfold printed, tag_pairs, known_tags in *. cbn [omap list_omap] in *. rewrite (proj2 (eqb_false (get_tag r Tv) [])) in * by done.
  cbn [negb orb app] in *. eexists. split; [reflexivity|]. cbn in Hnd. apply NoDup_cons in Hnd as [Hn _]. split.
  - apply Forall_cons in Hreq as [Hgi _]. cbn. rewrite (proj2 (eqb_false (rec_gi r) [])) by done. done.
  - apply Forall_forall. intros kv Hin E. apply Hn. apply list_elem_of_fmap. eauto.
Qed.

Lemma serialize_texts r : printable r → serialize_record r = join [59] (map tag_text (printed r)).
Proof.
  intros Hr. destruct (printed_version r Hr) as (rest & Hp & Hne & Hrest). pose proof (printed_ok r (pr_well _ Hr)) as Hok. rewrite Hp in Hok.
  apply Forall_cons in Hok as [_ Hok]. unfold serialize_record, all_tags. fold (printed r). rewrite Hp. cbn [map List.filter].
  change (lit "v=") with (tag_name Tv ++ [61]). rewrite startswith_tag by done. rewrite eqb_refl. cbn [negb].
  rewrite filter_holds.
  - destruct rest as [|kv rest]; [done|]. cbn [map]. generalize (tag_text kv), (map tag_text rest). intros x l.
    change (join [59] (tag_text (lit "v", rec_v r) :: x :: l)) with (tag_text (lit "v", rec_v r) ++ [59] ++ join [59] (x :: l)).
    unfold tag_text. cbn [fst snd]. by rewrite <- !app_assoc.
  - apply Forall_map, Forall_forall. intros kv Hin. rewrite Forall_forall in Hrest, Hok.
    rewrite startswith_tag; [|done|apply (Hok _ Hin)]. apply negb_true_iff, eqb_false. by apply Hrest.
Qed.

Lemma lstrip_id f s : Forall (λ c, f c = false) s → lstrip f s = s.
Proof. destruct 1 as [|x s Hx _]; [done|]. cbn. by rewrite Hx. Qed.
Lemma strip_id f s : Forall (λ c, f c = false) s → strip f s = s.
Proof.
  intros Hs. unfold strip, rstrip. rewrite (lstrip_id f s) by done. rewrite lstrip_id; [apply rev_involutive|].
  apply Forall_forall. intros x Hx. rewrite Forall_forall in Hs. apply Hs. apply list_elem_of_In. by rewrite list_elem_of_In, <- List.in_rev in Hx.
Qed.

(** No character of the grammar is white space. *)
Lemma strip_tag_text kv : pair_ok kv → strip is_space (tag_text kv) = tag_text kv.
Proof.
  intros [Hn Hv]. apply strip_id. apply Forall_forall. intros c [Hc|[->|Hc]%elem_of_cons]%elem_of_app; [| |].
  - apply (tag_name_chars _ c Hn) in Hc. unfold is_alnum, is_alpha, is_lower, is_upper, is_digit in Hc. unfold is_space. lia.
  - done.
  - unfold is_valid_tag_value in Hv. rewrite forallb_Forall, Forall_forall in Hv. specialize (Hv _ Hc). unfold is_space. lia.
Qed.

Lemma parse_serialize r : printable r → parse_record (serialize_record r) = Ok (as_parsed r).
Proof.
  intros Hr. destruct (printed_version r Hr) as (rest & Hp & Hne & Hrest). pose proof (printed_ok r (pr_well _ Hr)) as Hok.
  unfold parse_record. rewrite serialize_texts by done. rewrite split_join.
  2: by rewrite Hp. 2: { apply Forall_map. eapply Forall_impl; [exact Hok|]. apply tag_text_no_semi. }
  assert (List.hd [] (map tag_text (printed r)) = tag_text (lit "v", rec_v r)) as Hhd by (by rewrite Hp).
  cbv zeta. rewrite Hhd. rewrite Hp in Hok. apply Forall_cons in Hok as [Hv _]. rewrite strip_tag_text by done.
  change (lit "v=") with (tag_name Tv ++ [61]). rewrite startswith_tag, eqb_refl by done. res_cbn.
  change (drop 2 (tag_text (lit "v", rec_v r))) with (rec_v r). rewrite (pr_version _ Hr). res_cbn.
  rewrite parse_pairs_texts; [|by apply printed_nodup, pr_well|by apply printed_ok, pr_well|by apply Forall_forall; intros; split; [apply not_elem_of_nil|]].
  cbn [mbind result_bind]. rewrite assign_all; [|by_decide|by apply printed_nodup, pr_well]. rewrite record_of_printed by done.
  rewrite guard_false, guard_false; [done| |].
  - apply not_true_is_false. rewrite List.existsb_exists. intros (t & Hin & Ht). rewrite eqb_true in Ht. unfold as_parsed in Ht.
    rewrite get_build in Ht. pose proof (pr_required _ Hr) as Hreq. rewrite Forall_forall in Hreq.
    apply (Hreq t); [by apply list_elem_of_In|done].
  - apply not_true_is_false. unfold missing_tags. rewrite List.existsb_exists. intros (t & Hin & Ht).
    rewrite negb_true_iff, bool_decide_eq_false in Ht. apply Ht. pose proof (pr_required _ Hr) as Hreq. rewrite Forall_forall in Hreq.
    apply list_elem_of_fmap. exists (tag_name t, get_tag r t). split; [done|]. apply elem_of_app. left. apply tag_pairs_elem. exists t.
    split; [destruct t; by_decide|]. split; [|done]. left. apply Hreq. by apply list_elem_of_In.
Qed.

(** ** What parsing gives *)
Lemma record_of_well required kvs : Tv ∈ required → NoDup kvs.*1 → Forall pair_ok kvs → well_tagged (record_of required kvs).
Proof.
  intros HTv Hnd Hok. rewrite Forall_forall in Hok. split.
  - intros t. unfold record_of. rewrite get_build. destruct (dict_get _ kvs) as [v|] eqn:Hg; [|by destruct t].
    apply dict_get_member in Hg; [|done]. apply (Hok _ Hg).
  - apply Forall_forall. intros kv [Hin Hk]%unknown_pairs_sub. auto.
  - cbn [record_of build_record rec_unknown_tags]. unfold unknown_pairs. induction kvs as [|kv kvs IH]; [constructor|].
    cbn in Hnd. apply NoDup_cons in Hnd as [Hn Hnd]. cbn [List.filter].
    assert (NoDup (List.filter (λ kv, bool_decide (known_tag_of kv.1 = None)) kvs).*1) as Hr by (apply IH; [done|set_solver]).
    case_bool_decide; [|done]. cbn. constructor; [|done]. intros (kv' & E & [Hin _]%unknown_pairs_sub)%list_elem_of_fmap.
    apply Hn. apply list_elem_of_fmap. eauto.
Qed.

Lemma parse_element_text_inv e kv : parse_element true e = Ok kv → e = tag_text kv.
Proof.
  unfold parse_element. cbn [negb andb]. destruct (partition 61 e) as [[n v]|] eqn:Hp; [|done]. intros Hx.
  guard_step Hx as Hn. guard_step Hx as Hv. apply Ok_inj in Hx as <-. by apply partition_Some in Hp as [-> _].
Qed.

Lemma parse_record_of raw r : parse_record raw = Ok r → ∃ kvs,
  r = record_of required_tags kvs ∧ NoDup kvs.*1 ∧ Forall pair_ok kvs ∧ printable r.
Proof.
  unfold parse_record. intros Hx. guard_step Hx as Hv. rewrite negb_false_iff, startswith_app in Hv. destruct Hv as [v Hv].
  guard_step Hx as Hs. rewrite negb_false_iff, Hv in Hs. cbn [drop app] in Hs. bind_step Hx as kvs Hk.
  guard_step Hx as Hm. guard_step Hx as He. apply Ok_inj in Hx. pose proof (parse_pairs_Ok _ _ _ _ _ Hk) as (Hnd & Hok & _).
  rewrite assign_all in Hx by (done || by_decide). rewrite assign_all in He by (done || by_decide). exists kvs. split_and!; try done.
  assert (dict_get (lit "v") kvs = Some v) as Hvv.
  { destruct (PyText.split 59 raw) as [|e pairs]; [done|]. cbn [List.hd] in Hv. cbn [parse_pairs] in Hk.
    destruct (e ==? []) eqn:E; [rewrite eqb_true in E; by subst e|]. bind_step Hk as kv Hkv. destruct kv as [n w].
    guard_step Hk as Hd. rewrite bind_unit_Ok in Hk. destruct Hk as [_ Hk]. bind_step Hk as rest Hr. apply Ok_inj in Hk as <-.
    pose proof (parse_element_Ok _ _ _ Hkv) as Hpo. apply parse_element_text_inv in Hkv as ->.
    rewrite strip_tag_text in Hv by done. change (lit "v=" ++ v) with (tag_text (lit "v", v)) in Hv.
    apply tag_text_inj in Hv; [|apply Hpo|done]. injection Hv as -> ->. cbn [dict_get]. by rewrite eqb_refl. }
  subst r. split; [| |by apply record_of_well; [by_decide|..]].
  - apply Forall_forall. intros t Ht E. apply not_true_iff_false in He. apply He. apply List.existsb_exists. exists t.
    split; [by apply list_elem_of_In|by apply eqb_true].
  - unfold record_of. cbn [build_record rec_v]. change (tag_name Tv) with (lit "v"). by rewrite Hvv.
Qed.

Lemma optional_printed r t : well_tagged r → tag_name t ∈ (printed r).*1 ↔ is_printed r t.
Proof.
  intros Hr. pose proof (printed_get r t Hr) as Hg. case_decide as Hp.
  - split; [done|]. intros _. apply dict_get_member in Hg; [|by apply printed_nodup]. apply list_elem_of_fmap. eexists (_, _). by split; [|exact Hg].
  - apply dict_get_None in Hg. tauto.
Qed.

Lemma as_parsed_id kvs : NoDup kvs.*1 → Forall pair_ok kvs → as_parsed (record_of required_tags kvs) = record_of required_tags kvs.
Proof.
  intros Hnd Hok. pose proof (record_of_well required_tags kvs ltac:(by_decide) Hnd Hok) as Hw.
  set (r := record_of required_tags kvs) in *. apply record_ext; [intros t; unfold as_parsed; apply get_build|done..|].
  apply set_eq. intros t. unfold as_parsed. cbn [build_record rec_parsed_optional_tags].
  rewrite elem_of_list_to_set, list_elem_of_In, List.filter_In, andb_true_iff, negb_true_iff, bool_decide_eq_true, bool_decide_eq_false.
  rewrite optional_printed by done. unfold is_printed. unfold r at 2 3. rewrite elem_of_optional. split.
  - intros (_ & Hq & [Hg|?]); [|done]. split; [done|]. unfold r, record_of in Hg. rewrite get_build in Hg.
    destruct (dict_get (tag_name t) kvs) as [v|] eqn:E.
    + apply dict_get_member in E; [|done]. apply list_elem_of_fmap. by exists (tag_name t, v).
    + destruct t; try done. destruct Hq. by_decide.
  - intros [Hq Hin]. split_and!; [apply list_elem_of_In; destruct t; by_decide|done|by right].
Qed.

(** Parsing a published record, printing it and parsing again gives the
    same record. *)
Theorem parse_serialize_parse raw r : parse_record raw = Ok r → parse_record (serialize_record r) = Ok r.
Proof. intros (kvs & -> & Hnd & Hok & Hr)%parse_record_of. rewrite parse_serialize by done. by rewrite as_parsed_id. Qed.

(** ** The canonical form *)

(** The signed tags, as pairs. *)
Definition signed_tags : list known_tag := [Tv; Tgi; Tek; Tku; Tlr; Tsu; Tfl; Tka; Tcu].
Definition signed_pairs (r : DnsIdTxtRecord) : list (str * str) := tag_pairs signed_tags r ++ rec_unknown_tags r.

Lemma signed_printed r : well_tagged r → List.filter (λ kv, negb (kv.1 ==? lit "sg")) (printed r) = signed_pairs r.
Proof.
  intros Hr. unfold printed, signed_pairs. rewrite List.filter_app. f_equal.
  - unfold tag_pairs, known_tags, signed_tags. cbn [omap list_omap].
    destruct (negb (get_tag r Tv ==? []) || _), (negb (get_tag r Tgi ==? []) || _), (negb (get_tag r Tek ==? []) || _),
      (negb (get_tag r Tku ==? []) || _), (negb (get_tag r Tlr ==? []) || _), (negb (get_tag r Tsu ==? []) || _),
      (negb (get_tag r Tsg ==? []) || _), (negb (get_tag r Tfl ==? []) || _), (negb (get_tag r Tka ==? []) || _),
      (negb (get_tag r Tcu ==? []) || _); reflexivity.
  - apply filter_holds. eapply Forall_impl; [apply pr_unknown, Hr|]. intros kv [_ Hk]. apply negb_true_iff, eqb_false. intros E.
    rewrite E in Hk. by vm_compute in Hk.
Qed.

Lemma filter_map {A B} (f : B → bool) (g : A → B) l : List.filter f (map g l) = map g (List.filter (λ x, f (g x)) l).
Proof. induction l as [|x l IH]; [done|]. cbn [map List.filter]. rewrite IH. by destruct (f (g x)). Qed.

Lemma filter_ext_Forall {A} (f g : A → bool) l : Forall (λ x, f x = g x) l → List.filter f l = List.filter g l.
Proof. induction 1 as [|x l Hx _ IH]; [done|]. cbn [List.filter]. by rewrite Hx, IH. Qed.

Lemma sort_texts_perm key texts : sort_texts key texts ≡ₚ texts.
Proof. unfold sort_texts. rewrite sort_members_perm. clear. induction texts as [|x l IH]; [done|]. cbn. by apply perm_skip. Qed.

(** The canonical form is the signed pairs in a fixed order. *)
Lemma canonical_pairs r : well_tagged r → ∃ kvs, kvs ≡ₚ signed_pairs r ∧ record_canonical r = join [59] (map tag_text kvs).
Proof.
  intros Hr. pose proof (printed_ok r Hr) as Hok. unfold record_canonical, all_tags. fold (printed r). rewrite filter_map.
  rewrite (filter_ext_Forall _ (λ kv, negb (kv.1 ==? lit "sg"))), signed_printed by
    (done || (eapply Forall_impl; [exact Hok|]; intros kv [Hn _]; f_equal; change (lit "sg=") with (lit "sg" ++ [61]); by apply startswith_tag)).
  destruct (Permutation_map_inv tag_text _ (sort_texts_perm text_tag (map tag_text (signed_pairs r)))) as (kvs & E & Hp).
  exists kvs. split; [by symmetry|]. by rewrite E.
Qed.

Lemma signed_ok r : well_tagged r → NoDup (signed_pairs r).*1 ∧ Forall pair_ok (signed_pairs r).
Proof.
  intros Hr. rewrite <- signed_printed by done. pose proof (printed_nodup r Hr) as Hnd. pose proof (printed_ok r Hr) as Hok.
  rewrite !Forall_forall in *. induction (printed r) as [|kv l IH]; [by split; [constructor|]|]. cbn in Hnd. apply NoDup_cons in Hnd as [Hn Hnd].
  destruct IH as [IH1 IH2]; [done|set_solver|]. cbn [List.filter]. destruct (negb _); [|done]. split.
  - cbn. constructor; [|done]. intros (x & E & Hin)%list_elem_of_fmap. apply Hn. apply list_elem_of_fmap. exists x. split; [done|].
    apply list_elem_of_In, List.filter_In in Hin. apply list_elem_of_In. apply Hin.
  - set_solver.
Qed.

Lemma map_tag_text_inj a b : Forall pair_ok a → Forall pair_ok b → map tag_text a = map tag_text b → a = b.
Proof.
  intros Ha. revert b. induction Ha as [|x a Hx Ha IH]; intros [|y b] Hb Hab; try done. apply Forall_cons in Hb as [Hy Hb].
  injection Hab as Hxy Hab. apply tag_text_inj in Hxy; [|apply Hx|apply Hy]. f_equal; [done|]. by apply IH.
Qed.

Lemma join_texts_inj a b : Forall pair_ok a → Forall pair_ok b → join [59] (map tag_text a) = join [59] (map tag_text b) → a = b.
Proof.
  intros Ha Hb E. assert (∀ l, Forall pair_ok l → l ≠ [] → PyText.split 59 (join [59] (map tag_text l)) = map tag_text l) as Hs.
  { intros l Hl Hne. apply split_join; [by destruct l|]. apply Forall_map. eapply Forall_impl; [exact Hl|]. apply tag_text_no_semi. }
  assert (∀ l, Forall pair_ok l → l ≠ [] → join [59] (map tag_text l) ≠ []) as Hn.
  { intros [|[n v] l] Hl Hne; [done|]. cbn [map]. generalize (map tag_text l). intros m Em. apply (f_equal (@length Z)) in Em. unfold tag_text in Em. destruct m; cbn in Em; rewrite ?length_app in Em; cbn in Em; lia. }
  destruct (decide (a = [])) as [->|Hna], (decide (b = [])) as [->|Hnb]; try done.
  - symmetry in E. by apply Hn in E.
  - by apply Hn in E.
  - apply (f_equal (PyText.split 59)) in E. rewrite !Hs in E by done. by apply map_tag_text_inj in E.
Qed.

(** Equal canonical forms carry the same signed pairs. *)
Lemma canonical_inj r1 r2 : well_tagged r1 → well_tagged r2 → record_canonical r1 = record_canonical r2 →
  signed_pairs r1 ≡ₚ signed_pairs r2.
Proof.
  intros H1 H2 E. destruct (canonical_pairs r1 H1) as (k1 & P1 & E1), (canonical_pairs r2 H2) as (k2 & P2 & E2).
  rewrite E1, E2 in E. apply join_texts_inj in E; [by rewrite <- P1, <- P2, E| |].
  - rewrite P1. by apply signed_ok.
  - rewrite P2. by apply signed_ok.
Qed.

Lemma signed_get r t : well_tagged r → t ≠ Tsg →
  dict_get (tag_name t) (signed_pairs r) = if decide (is_printed r t) then Some (get_tag r t) else None.
Proof.
  intros Hr Ht. pose proof (signed_ok r Hr) as [Hnd _]. case_decide as Hp.
  - apply dict_get_member; [done|]. apply elem_of_app. left. apply tag_pairs_elem. exists t. split; [destruct t; try done; by_decide|done].
  - apply dict_get_None. intros (kv & Hn & Hin)%list_elem_of_fmap. apply elem_of_app in Hin as [Hin|Hin].
    + apply tag_pairs_elem in Hin as (t' & _ & Hp' & ->). cbn in Hn. by apply (inj tag_name) in Hn as ->.
    + pose proof (pr_unknown _ Hr) as Hu. rewrite Forall_forall in Hu. destruct (Hu _ Hin) as [_ Hk].
      rewrite <- Hn, known_tag_of_name in Hk. done.
Qed.

Lemma dict_get_perm {A} k (d1 d2 : list (str * A)) : NoDup d1.*1 → d1 ≡ₚ d2 → dict_get k d1 = dict_get k d2.
Proof.
  intros Hnd Hp. apply option_eq. intros v. rewrite !dict_get_member; [by rewrite Hp|by rewrite <- Hp|done].
Qed.
Lemma unknown_signed r : well_tagged r → unknown_pairs (signed_pairs r) = rec_unknown_tags r.
Proof.
  intros Hr. unfold signed_pairs. rewrite unknown_pairs_app. unfold unknown_pairs. rewrite filter_none, filter_holds; [done| |].
  - eapply Forall_impl; [apply pr_unknown, Hr|]. intros kv [_ Hk]. by apply bool_decide_eq_true_2.
  - apply Forall_forall. intros kv (t & _ & _ & ->)%tag_pairs_elem. cbn [fst]. rewrite known_tag_of_name. by apply bool_decide_eq_false_2.
Qed.

(** The text that is signed determines the record but for its signature: two
    published records with the same canonical form agree on every known tag but
    [sg], on which optional tags are present and on the unknown tags. *)
Theorem canonical_determines raw1 raw2 r1 r2 : parse_record raw1 = Ok r1 → parse_record raw2 = Ok r2 →
  record_canonical r1 = record_canonical r2 →
  (∀ t, t ≠ Tsg → get_tag r1 t = get_tag r2 t) ∧
  rec_parsed_optional_tags r1 = rec_parsed_optional_tags r2 ∧ rec_unknown_tags r1 ≡ₚ rec_unknown_tags r2.
Proof.
  intros (k1 & -> & Hn1 & Hk1 & [Hq1 _ H1])%parse_record_of (k2 & -> & Hn2 & Hk2 & [Hq2 _ H2])%parse_record_of E.
  pose proof (canonical_inj _ _ H1 H2 E) as Hp. pose proof (signed_ok _ H1) as [Hnd _].
  rewrite <- (as_parsed_id k1), <- (as_parsed_id k2) by done.
  assert (∀ t, t ≠ Tsg → dict_get (tag_name t) (signed_pairs (record_of required_tags k1)) =
    dict_get (tag_name t) (signed_pairs (record_of required_tags k2))) as Hg by (intros t _; by apply dict_get_perm).
  set (r1 := record_of required_tags k1) in *. set (r2 := record_of required_tags k2) in *.
  assert (∀ t, t ≠ Tsg → (is_printed r1 t ↔ is_printed r2 t) ∧ get_tag r1 t = get_tag r2 t) as Ht.
  { intros t Hne. pose proof (Hg t Hne) as G. rewrite !signed_get in G by done. repeat case_decide; try done.
    - injection G as ->. done.
    - split; [done|]. unfold is_printed in *. destruct (decide (get_tag r1 t = [])), (decide (get_tag r2 t = [])); [congruence|tauto..]. }
  split_and!.
  - intros t Hne. unfold as_parsed. rewrite !get_build. by apply Ht.
  - apply set_eq. intros t. unfold as_parsed. cbn [build_record rec_parsed_optional_tags].
    rewrite !elem_of_list_to_set, !list_elem_of_In, !List.filter_In, !andb_true_iff, !negb_true_iff, !bool_decide_eq_true, !bool_decide_eq_false.
    rewrite !optional_printed by done. destruct (decide (t = Tsg)) as [->|Hne]; [split; intros (_ & Hq & _); destruct Hq; by_decide|].
    by rewrite (proj1 (Ht t Hne)).
  - cbn [as_parsed build_record rec_unknown_tags]. rewrite <- (unknown_signed r1), <- (unknown_signed r2) by done.
    by rewrite Hp.
Qed.

Lemma tag_pairs_ext tags r1 r2 : (∀ t, t ∈ tags → get_tag r1 t = get_tag r2 t ∧ (is_printed r1 t ↔ is_printed r2 t)) →
  tag_pairs tags r1 = tag_pairs tags r2.
Proof.
  induction tags as [|t tags IH]; intros Ht; [done|]. unfold tag_pairs. cbn [omap list_omap]. fold (tag_pairs tags r1) (tag_pairs tags r2).
  rewrite IH by (intros; apply Ht; by right). destruct (Ht t) as [Hg Hp]; [by left|]. rewrite <- !printed_test in Hp.
  destruct (negb (get_tag r1 t ==? []) || _), (negb (get_tag r2 t ==? []) || _); [by rewrite Hg|naive_solver..|done].
Qed.

Lemma canonical_ext r1 r2 : well_tagged r1 → well_tagged r2 → signed_pairs r1 = signed_pairs r2 → record_canonical r1 = record_canonical r2.
Proof.
  intros H1 H2 E. unfold record_canonical, all_tags. fold (printed r1) (printed r2). rewrite !filter_map.
  assert (∀ r, well_tagged r → List.filter (λ kv, negb (startswith (lit "sg=") (tag_text kv))) (printed r) = signed_pairs r) as Hs.
  { intros r Hr. rewrite <- signed_printed by done. apply filter_ext_Forall. eapply Forall_impl; [by apply printed_ok|].
    intros kv [Hn _]. f_equal. change (lit "sg=") with (lit "sg" ++ [61]). by apply startswith_tag. }
  by rewrite !Hs, E.
Qed.

Lemma set_sg_well s r : is_valid_tag_value s = true → well_tagged r → well_tagged (set_tag Tsg s r).
Proof. intros Hs [Hv Hu Hn]. split; [|done|done]. intros t. unfold set_tag. rewrite get_build. by case_decide. Qed.
Lemma set_sg_signed s r : signed_pairs (set_tag Tsg s r) = signed_pairs r.
Proof. reflexivity. Qed.

Lemma as_parsed_well r : well_tagged r → well_tagged (as_parsed r).
Proof. intros [Hv Hu Hn]. split; [|done|done]. intros t. unfold as_parsed. by rewrite get_build. Qed.
Lemma elem_of_as_parsed r t : well_tagged r → t ∈ rec_parsed_optional_tags (as_parsed r) ↔ t ∉ required_tags ∧ is_printed r t.
Proof.
  intros Hr. unfold as_parsed. cbn [build_record rec_parsed_optional_tags].
  rewrite elem_of_list_to_set, list_elem_of_In, List.filter_In, andb_true_iff, negb_true_iff, bool_decide_eq_true, bool_decide_eq_false.
  rewrite optional_printed by done. split; [tauto|]. intros ?. split; [|done]. apply list_elem_of_In. destruct t; by_decide.
Qed.
Lemma as_parsed_signed r : printable r → signed_pairs (as_parsed r) = signed_pairs r.
Proof.
  intros Hr. unfold signed_pairs. f_equal. apply tag_pairs_ext. intros t Ht. unfold is_printed at 1.
  rewrite elem_of_as_parsed by apply Hr. unfold as_parsed. rewrite get_build. split; [done|]. unfold is_printed.
  pose proof (pr_required _ Hr) as Hq. rewrite Forall_forall in Hq. destruct (decide (t ∈ required_tags)) as [Hin|]; [|tauto].
  specialize (Hq _ Hin). tauto.
Qed.

(** A printable record is read back with the canonical form it was signed under. *)
Lemma canonical_as_parsed r : printable r → record_canonical (as_parsed r) = record_canonical r.
Proof. intros Hr. apply canonical_ext; [apply as_parsed_well|..]; [apply Hr..|by apply as_parsed_signed]. Qed.
Lemma canonical_set_sg s r : is_valid_tag_value s = true → well_tagged r → record_canonical (set_tag Tsg s r) = record_canonical r.
Proof. intros. apply canonical_ext; [by apply set_sg_well|done|apply set_sg_signed]. Qed.

(** ** Unsigned records *)
Lemma set_identity_same fqdn r : record_canonical (set_identity fqdn r) = record_canonical r ∧
  serialize_record (set_identity fqdn r) = serialize_record r.
Proof. done. Qed.

(** An unsigned record is canonical text, so its required tags are present and not empty. *)
Lemma unsigned_printable raw kvs r s : parse_pairs (λ tag, raise_if (tag ==? lit "sg") (ParseError (lit "sg= tag must not appear in unsigned canonical form"))) true [] (PyText.split 59 raw) = Ok kvs →
  default [] (dict_get (lit "v") kvs) ≠ [] → is_supported_version (default [] (dict_get (lit "v") kvs)) = true →
  missing_tags unsigned_required kvs.*1 = false → r = record_of unsigned_required kvs → record_canonical r = raw →
  s ≠ [] → is_valid_tag_value s = true → printable (set_tag Tsg s r).
Proof.
  intros Hk Hv0 Hv Hm -> Hraw Hs Hsv. pose proof (parse_pairs_Ok _ _ _ _ _ Hk) as (Hnd & Hok & _).
  pose proof (record_of_well unsigned_required kvs ltac:(by_decide) Hnd Hok) as Hw. set (r := record_of unsigned_required kvs) in *.
  split; [| |by apply set_sg_well].
  2: { unfold set_tag. cbn [build_record rec_v]. rewrite decide_False by done. unfold r, record_of. cbn [build_record get_tag rec_v].
    change (tag_name Tv) with (lit "v"). by destruct (dict_get (lit "v") kvs). }
  destruct (canonical_pairs r Hw) as (l & Hl & El). pose proof (signed_ok r Hw) as [Hsn Hso]. rewrite <- Hl in Hsn, Hso.
  assert (l = kvs) as ->.
  { rewrite <- Hraw, El in Hk. destruct (decide (l = [])) as [->|Hne].
    - cbn in Hk. apply Ok_inj in Hk. congruence.
    - rewrite split_join in Hk; [|by destruct l|apply Forall_map; eapply Forall_impl; [exact Hso|apply tag_text_no_semi]].
      rewrite parse_pairs_texts in Hk; [by apply Ok_inj in Hk|done|done|].
      apply Forall_forall. intros kv Hin. split; [apply not_elem_of_nil|].
      rewrite Hl, <- signed_printed in Hin by done. apply list_elem_of_In, List.filter_In in Hin as [_ Hin]. cbn beta in Hin.
      rewrite negb_true_iff in Hin. by rewrite Hin. }
  apply Forall_forall. intros t Ht. unfold set_tag. rewrite get_build. case_decide as Hts; [done|]. intros E.
  assert (t ∈ unsigned_required) as Hq by (destruct t; try done; try by_decide; by apply (bool_decide_eq_true_2 _) in Ht).
  unfold missing_tags in Hm. apply not_true_iff_false in Hm. apply Hm. apply List.existsb_exists. exists t.
  split; [by apply list_elem_of_In|]. apply negb_true_iff, bool_decide_eq_false. intros Hin.
  destruct (dict_get (tag_name t) kvs) as [v|] eqn:Hg; [|by apply dict_get_None in Hg].
  pose proof (signed_get r t Hw Hts) as Hsg. rewrite <- (dict_get_perm _ kvs) in Hsg by done. rewrite Hg in Hsg.
  case_decide as Hp; [|done]. destruct Hp as [Hp|Hp]; [done|]. unfold r in Hp. apply elem_of_optional in Hp. tauto.
Qed.

Section unsigned.
Context `{Platform}.

Lemma parse_unsigned_of raw identity r s : parse_unsigned_canonical raw identity = Ok r → s ≠ [] → is_valid_tag_value s = true →
  printable (set_tag Tsg s r) ∧ record_canonical r = raw ∧ well_tagged r.
Proof.
  intros Hx Hs Hv. unfold parse_unsigned_canonical in Hx. bind_step Hx as kvs Hk. guard_step Hx as H0. rewrite eqb_false in H0. guard_step Hx as H1.
  rewrite negb_false_iff in H1. guard_step Hx as H2. guard_step Hx as H3. rewrite negb_false_iff, eqb_true in H3.
  pose proof (parse_pairs_Ok _ _ _ _ _ Hk) as (Hnd & Hok & _).
  assert (Tv ∈ unsigned_required) as HTv by by_decide. rewrite assign_all in Hx, H3 by done.
  pose proof (unsigned_printable _ _ _ s Hk H0 H1 H2 eq_refl H3 Hs Hv) as Hp. pose proof (record_of_well _ _ HTv Hnd Hok) as Hw.
  destruct identity as [fqdn|].
  - rewrite bind_unit_Ok in Hx. destruct Hx as [_ Hx]. apply Ok_inj in Hx as <-. split_and!; [|done|].
    + destruct Hp as [? ? [? ? ?]]. by split.
    + destruct Hw. by split.
  - apply Ok_inj in Hx as <-. done.
Qed.

(** What a registry returns as unsigned text is what is published once it is
    signed: the record built from canonical text, given any signature value of
    the grammar, is printed as a record that parses, that carries that signature
    and whose canonical form is exactly the text that was signed. *)
Theorem unsigned_record_published raw identity r s : parse_unsigned_canonical raw identity = Ok r → s ≠ [] →
  is_valid_tag_value s = true →
  ∃ r', parse_record (serialize_record (set_tag Tsg s r)) = Ok r' ∧ rec_sg r' = s ∧ record_canonical r' = raw ∧
    ∀ t, t ≠ Tsg → get_tag r' t = get_tag r t.
Proof.
  intros Hx Hs Hv. destruct (parse_unsigned_of _ _ _ _ Hx Hs Hv) as (Hp & Hraw & Hw).
  exists (as_parsed (set_tag Tsg s r)). split_and!; [by apply parse_serialize|done| |].
  - by rewrite canonical_as_parsed, canonical_set_sg.
  - intros t Ht. unfold as_parsed, set_tag. rewrite !get_build. by rewrite decide_False.
Qed.
End unsigned.

(** ** A record of each kind *)
Definition toy_unsigned : str := lit "ek=https://example.com/ek;gi=example.com;ku=https://agent.example.com/ku;lr=c2sp-tlog:example.com/log:7;note=x;su=https://example.com/su;v=dnsid-draft-01".
Definition toy_record : DnsIdTxtRecord := Eval vm_compute in
  match parse_unsigned_canonical toy_unsigned (Some (lit "agent.example.com")) with Ok r => r | Raise _ => new_record end.
Lemma toy_record_Ok : parse_unsigned_canonical toy_unsigned (Some (lit "agent.example.com")) = Ok toy_record.
Proof. vm_compute. reflexivity. Qed.

Definition toy_published : str := serialize_record (set_tag Tsg (lit "c2ln") toy_record).
Definition toy_parsed : DnsIdTxtRecord := match parse_record toy_published with Ok r => r | Raise _ => new_record end.
(** The same tags in another order, with white space between them. *)
Definition toy_shuffled : str := lit "v=dnsid-draft-01; note=x; su=https://example.com/su; sg=b3RoZXI; lr=c2sp-tlog:example.com/log:7; ku=https://agent.example.com/ku; gi=example.com; ek=https://example.com/ek;".
Definition toy_shuffled_parsed : DnsIdTxtRecord := match parse_record toy_shuffled with Ok r => r | Raise _ => new_record end.

Lemma toy_parsed_Ok : parse_record toy_published = Ok toy_parsed ∧ parse_record toy_shuffled = Ok toy_shuffled_parsed ∧
  record_canonical toy_parsed = record_canonical toy_shuffled_parsed ∧ rec_sg toy_parsed ≠ rec_sg toy_shuffled_parsed.
Proof. split_and!; [vm_compute; reflexivity..|by_decide]. Qed.

Lemma parse_serialize_parse_witness : parse_record (serialize_record toy_shuffled_parsed) = Ok toy_shuffled_parsed.
Proof. apply (parse_serialize_parse toy_shuffled). apply toy_parsed_Ok. Defined.

Lemma canonical_determines_witness : rec_gi toy_parsed = rec_gi toy_shuffled_parsed.
Proof.
  destruct (canonical_determines toy_published toy_shuffled toy_parsed toy_shuffled_parsed) as [Ht _];
    [apply toy_parsed_Ok..|]. by apply (Ht Tgi).
Defined.

Lemma unsigned_record_published_witness : ∃ r', parse_record toy_published = Ok r' ∧ record_canonical r' = toy_unsigned.
Proof.
  destruct (unsigned_record_published _ _ _ (lit "c2ln") toy_record_Ok) as (r' & Hp & _ & Hc & _); [done|reflexivity|]. by exists r'.
Defined.
