(* ===== verification/Identity.v ===== *)
(** * Verified identities ([dnsid/models.py], caches of [dnsid/manager.py])

    Key sets, TLS certificates, agent status documents and the result of a
    verification with its expiry; the caches that keep such results. *)
From S2P Require Import Prelude Errors PyText Utils Canonical Keys PyTime EventCodec DomainLog TxtRecord.

Definition vfail (c : verification_code) (msg : string) : exn := VerificationError c (lit msg) false None.

(** ** Times *)

(** [a >= b], [a == b], [a - b] (microseconds) and [a + timedelta]. *)
Definition dt_ge (a b : datetime) : res bool := later ← dt_gt b a; Ok (negb later).
Definition dt_eq (a b : datetime) : bool :=
  match dt_utcoffset a, dt_utcoffset b with
  | Some oa, Some ob => dt_wall a - oa =? dt_wall b - ob
  | None, None => dt_wall a =? dt_wall b
  | _, _ => false
  end.
Definition dt_sub (a b : datetime) : res Z :=
  match dt_utcoffset a, dt_utcoffset b with
  | Some oa, Some ob => Ok (dt_wall a - oa - (dt_wall b - ob))
  | None, None => Ok (dt_wall a - dt_wall b)
  | _, _ => Raise (TypeError (lit "can't subtract offset-naive and offset-aware datetimes"))
  end.
Definition dt_add (a : datetime) (us : Z) : res datetime :=
  let wall := dt_wall a + us in
  raise_if ((wall <? datetime_min) || (datetime_max <? wall)) (OverflowError (lit "date value out of range")) ;;
  Ok {| dt_wall := wall; dt_utcoffset := dt_utcoffset a |}.

Definition second_us : Z := 1000000.
Definition day_us : Z := 86400 * second_us.

(** [min(candidates)]: the first of the earliest. *)
Fixpoint dt_min (best : datetime) (l : list datetime) : res datetime :=
  match l with
  | [] => Ok best
  | d :: l => earlier ← dt_gt best d; dt_min (if earlier : bool then d else best) l
  end.

(** ** Key sets *)
Abbreviation JWKS := (list JWK) (only parsing).

(** [k.use not in ("", "sig")] *)
Definition use_excluded (k : JWK) : bool := negb (py_eq (jwk_use k) (JStr []) || is_str "sig" (jwk_use k)).

(** The eligible keys: unsupported ones are skipped. *)
Fixpoint eligible_keys (keys : JWKS) : res JWKS :=
  match keys with
  | [] => Ok []
  | k :: keys =>
      if use_excluded k then eligible_keys keys
      else match signature_alg k with
           | Ok _ => rest ← eligible_keys keys; Ok (k :: rest)
           | Raise e => if is_verification e then eligible_keys keys else Raise e
           end
  end.

Definition signing_keys (keys : JWKS) : res JWKS :=
  result ← eligible_keys keys;
  raise_if (match result with [] => true | _ => false end) (vfail RECORD_INVALID "JWKS contains no signing keys") ;;
  Ok result.

Definition key_by_id (kid : json) (keys : JWKS) : option JWK := List.find (λ k, py_eq (jwk_kid k) kid) keys.

(** A present [alg] has to fit the key. *)
Definition check_declared_alg (k : JWK) : res unit :=
  if falsy (jwk_alg k) then Ok ()
  else match signature_alg k with
       | Ok _ => Ok ()
       | Raise e => if is_verification e then Raise e
                    else Raise (vfail RECORD_INVALID "JWKS key has unsupported kty/crv")
       end.

Fixpoint check_distinct_kids (seen : list json) (keys : JWKS) : res unit :=
  match keys with
  | [] => Ok ()
  | k :: keys =>
      if falsy (jwk_kid k) then check_distinct_kids seen keys
      else
        raise_if (negb (hashable (jwk_kid k))) unhashable ;;
        raise_if (existsb (py_eq (jwk_kid k)) seen) (vfail RECORD_INVALID "JWKS: duplicate kid") ;;
        check_distinct_kids (jwk_kid k :: seen) keys
  end.

Definition validate_jwks (keys : JWKS) : res unit :=
  forM_res check_declared_alg keys ;;
  check_distinct_kids [] keys ;;
  signing ← eligible_keys keys;
  raise_if (match signing with [] => true | _ => false end) (vfail RECORD_INVALID "JWKS contains no signing keys") ;;
  raise_if (negb (existsb (λ k, negb (falsy (jwk_kid k))) signing)) (vfail RECORD_INVALID "JWKS: no signing key has a kid field").

(** [_current_protocol_signing_key]; the role only appears in messages. *)
Definition current_protocol_signing_key (profile : str) (keys : JWKS) : res JWK :=
  let selected := if profile ==? [] then DRAFT01 else profile in
  raise_if (negb (is_supported_version selected)) (vfail RECORD_INVALID "unsupported identity record profile") ;;
  validate_jwks keys ;;
  match List.filter (λ k, falsy (jwk_use k) || is_str "sig" (jwk_use k)) keys with
  | [key] =>
      raise_if (falsy (jwk_kid key)) (vfail RECORD_INVALID "draft 01 key missing kid") ;;
      raise_if (falsy (jwk_alg key)) (vfail RECORD_INVALID "draft 01 key must declare alg") ;;
      signature_alg key ;;
      Ok key
  | _ => Raise (vfail RECORD_INVALID "draft 01 JWKS must contain exactly one current signing key")
  end.
Definition current_record_signing_key : str → JWKS → res JWK := current_protocol_signing_key.
Definition current_operational_signing_key : str → JWKS → res JWK := current_protocol_signing_key.

(** [bool(a & b)] of two sets of thumbprints. *)
Definition share (a b : list str) : bool := existsb (λ t, bool_decide (t ∈ b)) a.

Definition check_ek_ku_distinctness (ek ku : option JWKS) : res unit :=
  match ek, ku with
  | Some ((_ :: _) as ek), Some ((_ :: _) as ku) =>
      ek_thumbprints ← mapM_res thumbprint ek;
      ku_thumbprints ← mapM_res thumbprint ku;
      raise_if (share ek_thumbprints ku_thumbprints) (vfail RECORD_INVALID "ek and ku key sets share key material")
  | _, _ => Ok ()
  end.

(** ** Certificates *)
Record TLSCertificate : Set := {
  tls_not_after : datetime;
  tls_san_dns_names : list str;
  tls_der : bytes
}.
(** [TLSCertificate()] *)
Definition no_certificate : TLSCertificate := {| tls_not_after := ZERO_TIME; tls_san_dns_names := []; tls_der := [] |}.

Section certificates.
Context `{Platform}.

(** One alternative name against the expected one. *)
Definition san_matches (expected presented : str) : res bool :=
  if startswith (lit "*.") presented && (len (List.filter (Z.eqb 42) presented) =? 1) then
    suffix ← normalize_fqdn idna_encode (drop 2 presented) false;
    Ok ((len (PyText.split 46 expected) =? len (PyText.split 46 suffix) + 1) && endswith ([46] ++ suffix) expected)
  else if bool_decide (42 ∈ presented) then Ok false
  else name ← normalize_fqdn idna_encode presented false; Ok (name ==? expected).

Fixpoint match_sans (expected : str) (sans : list str) : res bool :=
  match sans with
  | [] => Ok false
  | presented :: sans =>
      if presented ==? [] then match_sans expected sans
      else match san_matches expected presented with
           | Ok true => Ok true
           | Ok false => match_sans expected sans
           | Raise (ValidationError _) => match_sans expected sans
           | Raise e => Raise e
           end
  end.

Definition validate_against_fqdn (cert : TLSCertificate) (fqdn : str) : res unit :=
  expected ← normalize_fqdn idna_encode fqdn true;
  matched ← match_sans expected (tls_san_dns_names cert);
  raise_if (negb matched) (ValidationError (lit "TLS certificate dNSName SAN does not match")).
End certificates.

(** ** Status documents *)
Record AgentStatus : Set := { as_state : json; as_last_transition_at : datetime; as_revocation_reason : json }.

Definition VALID_STATES : list str := lit <$> ["PENDING"; "PROVISIONING"; "VERIFYING"; "ACTIVE"; "RETIRED"; "REVOKED"]%string.

Definition validate_status (s : AgentStatus) : res unit :=
  raise_if (negb match as_state s with JStr t => bool_decide (t ∈ VALID_STATES) | _ => false end)
    (ValidationError (lit "unknown agent status state")) ;;
  raise_if (dt_eq (as_last_transition_at s) ZERO_TIME) (ValidationError (lit "lastTransitionAt is required")) ;;
  match as_revocation_reason s with
  | JStr reason =>
      raise_if (is_str "REVOKED" (as_state s) && negb (is_revocation_reason reason))
        (ValidationError (lit "valid revocationReason is required when state is REVOKED"))
  | _ => Raise (ValidationError (lit "revocationReason must be a string"))
  end.

(** ** Results *)
Inductive DNSSECState : Set := UNSIGNED | VALID | FAILED | UNKNOWN.
Inductive DNSSECMode : Set := AUTO | VALIDATED | REQUIRED.
#[global] Instance dnssec_state_eq_dec : EqDecision DNSSECState.
Proof. solve_decision. Defined.
#[global] Instance dnssec_mode_eq_dec : EqDecision DNSSECMode.
Proof. solve_decision. Defined.

(** [R] is the type of log readers. *)
Record VerifiedDomain {R : Type} : Type := {
  vd_domain : str;
  vd_record : DnsIdTxtRecord;
  vd_jwks : JWKS;
  vd_signing_key : JWK;
  vd_tls_cert : TLSCertificate;
  vd_registry_status : AgentStatus;
  vd_verified_at : datetime;
  vd_dns_ttl : Z;
  vd_key_bound_at : datetime;
  vd_last_status_check_at : datetime;
  vd_dnssec_state : DNSSECState;
  vd_log_reader : R;
  vd_record_signing_jwks : option JWKS;
  vd_record_signing_tls_cert : option TLSCertificate;
  vd_dns_expires_at : option datetime
}.
Arguments VerifiedDomain : clear implicits.

Section results.
Context {R : Type}.
Implicit Types vd : VerifiedDomain R.

Definition cached_state vd : json := as_state (vd_registry_status vd).
Definition requires_log_check vd : bool := bool_decide (lit "logchk" ∈ policy_flags (vd_record vd)).

(** [self.dns_expires_at or self.verified_at + timedelta(seconds=self.dns_ttl)] *)
Definition dns_expiry vd : res datetime :=
  match vd_dns_expires_at vd with
  | Some at_ => Ok at_
  | None => dt_add (vd_verified_at vd) (vd_dns_ttl vd * second_us)
  end.

(** The certificates, without those that say nothing. *)
Definition dated_certs vd : list TLSCertificate :=
  List.filter (λ c, negb (dt_eq (tls_not_after c) ZERO_TIME))
    (vd_tls_cert vd :: match vd_record_signing_tls_cert vd with Some c => [c] | None => [] end).

Definition key_age_limit vd : res datetime :=
  days ← parse_ka_duration (rec_ka (vd_record vd));
  dt_add (vd_key_bound_at vd) (days * day_us).

Definition expiry vd : res datetime :=
  dns ← dns_expiry vd;
  ka ← (if permitted_ka (rec_ka (vd_record vd)) && negb (dt_eq (vd_key_bound_at vd) ZERO_TIME)
        then limit ← key_age_limit vd; Ok [limit] else Ok []);
  dt_min dns (map tls_not_after (dated_certs vd) ++ ka).

(** [VerifiedDomain._require_fresh_evidence] *)
Definition require_fresh_evidence_at (now : datetime) (fresh_dns_lookup : bool) vd : res unit :=
  expired ← mapM_res (λ c, dt_ge now (tls_not_after c)) (dated_certs vd);
  let code := if existsb id expired then Some TLS_ERROR else None in
  aged ← (if rec_ka (vd_record vd) ==? [] then Ok false else limit ← key_age_limit vd; dt_ge now limit);
  let code := if aged : bool then Some KEY_AGE_EXCEEDED else code in
  dns ← dns_expiry vd;
  code ← match code with
         | Some c => Ok (Some c)
         | None =>
             if fresh_dns_lookup && (vd_dns_ttl vd =? 0) then Ok None
             else stale ← dt_ge now dns; Ok (if stale : bool then Some DNS_RESOLUTION else None)
         end;
  match code with
  | None => Ok ()
  | Some c => Raise (VerificationError c (lit "identity evidence expired during verification")
                       (bool_decide (c = DNS_RESOLUTION)) None)
  end.

(** The test both caches make before they keep or return a result. *)
Definition unusable (now : datetime) vd : res bool :=
  if vd_dns_ttl vd <=? 0 then Ok true else at_ ← expiry vd; dt_ge now at_.
End results.

(** ** Caches *)

(** [IdentityCache]: a cache that reads the clock, as the manager uses it. *)
Class IdentityCache (C V : Type) := {
  cache_get : datetime → str → C → C * res (option V);
  cache_put : datetime → str → V → C → C * res unit;
  cache_evict : str → C → C
}.

(** A backend supplied by the application: a store by key. *)
Class CacheBackend (B V : Type) := {
  backend_get : str → B → option V;
  backend_put : str → V → B → B;
  backend_evict : str → B → B
}.

(** [_InMemoryCache] *)
Definition InMemoryCache R : IdentityCache (gmap str (VerifiedDomain R)) (VerifiedDomain R) := {|
  cache_get now domain store :=
    match store !! domain with
    | None => (store, Ok None)
    | Some entry =>
        match unusable now entry with
        | Ok true => (delete domain store, Ok None)
        | Ok false => (store, Ok (Some entry))
        | Raise e => (store, Raise e)
        end
    end;
  cache_put now domain result store :=
    match unusable now result with
    | Ok true => (delete domain store, Ok ())
    | Ok false => (<[domain := result]> store, Ok ())
    | Raise e => (store, Raise e)
    end;
  cache_evict domain store := delete domain store
|}.
#[export] Existing Instance InMemoryCache.

(** [_PrivateCache]: a namespace of the backend. *)
Record PrivateCache (B : Type) : Type := { pc_backend : B; pc_prefix : str }.
Arguments pc_backend {B}.
Arguments pc_prefix {B}.

Definition on_backend {B} (f : str → B → B) (domain : str) (c : PrivateCache B) : PrivateCache B :=
  {| pc_backend := f (pc_prefix c ++ domain) (pc_backend c); pc_prefix := pc_prefix c |}.

Definition PrivateCache_ops B R `{CacheBackend B (VerifiedDomain R)} : IdentityCache (PrivateCache B) (VerifiedDomain R) := {|
  cache_get now domain c :=
    match backend_get (pc_prefix c ++ domain) (pc_backend c) with
    | None => (c, Ok None)
    | Some result =>
        match unusable now result with
        | Ok true => (on_backend backend_evict domain c, Ok None)
        | Ok false => (c, Ok (Some result))
        | Raise e => (c, Raise e)
        end
    end;
  cache_put now domain result c :=
    match unusable now result with
    | Ok true => (on_backend backend_evict domain c, Ok ())
    | Ok false => (on_backend (λ key, backend_put key result) domain c, Ok ())
    | Raise e => (c, Raise e)
    end;
  cache_evict domain c := on_backend backend_evict domain c
|}.
#[export] Existing Instance PrivateCache_ops.
