(* ===== verification/IdentitySpec.v ===== *)
(** * Key sets and certificates

    The current signing key of a set is the only one, and the one its identifier
    finds; a certificate is accepted exactly when one of its names is the
    expected one, or a wildcard for one label of it. *)
From S2P Require Import Prelude Errors PyText Utils Canonical Keys PyTime EventCodec LifecycleDemo DomainLog TxtRecord Identity.

(** ** Key sets *)
Lemma distinct_kids_seen seen keys : check_distinct_kids seen keys = Ok () →
  ∀ k, k ∈ keys → falsy (jwk_kid k) = false → Forall (λ kid, py_eq (jwk_kid k) kid = false) seen.
Proof.
  revert seen. induction keys as [|k0 keys IH]; intros seen Hx k Hk Hf; [by apply elem_of_nil in Hk|]. cbn [check_distinct_kids] in Hx.
  apply elem_of_cons in Hk as [->|Hk].
  - rewrite Hf in Hx. guard_step Hx as Hh. guard_step Hx as Hd. apply Forall_forall. intros kid Hin. apply not_true_is_false. intros He.
    apply not_true_iff_false in Hd. apply Hd. apply List.existsb_exists. exists kid. split; [by apply list_elem_of_In|done].
  - destruct (falsy (jwk_kid k0)); [by eapply IH|]. guard_step Hx as Hh. guard_step Hx as Hd. specialize (IH _ Hx _ Hk Hf). by apply Forall_cons in IH as [_ IH].
Qed.

(** A string identifier finds the key that carries it. *)
Lemma key_by_id_found seen keys k kid : check_distinct_kids seen keys = Ok () → k ∈ keys → jwk_kid k = JStr kid → kid ≠ [] →
  key_by_id (JStr kid) keys = Some k.
Proof.
  intros Hx Hk Hkid Hne. revert seen Hx. induction keys as [|k0 keys IH]; intros seen Hx; [by apply elem_of_nil in Hk|].
  unfold key_by_id. cbn [List.find]. fold (key_by_id (JStr kid) keys). assert (falsy (jwk_kid k) = false) as Hf by (rewrite Hkid; by apply eqb_false).
  cbn [check_distinct_kids] in Hx. destruct (py_eq (jwk_kid k0) (JStr kid)) eqn:E.
  - apply py_eq_str in E. apply elem_of_cons in Hk as [->|Hk]; [done|]. rewrite E in Hx. cbn [falsy] in Hx. rewrite (proj2 (eqb_false kid [])) in Hx by done.
    guard_step Hx as Hh. guard_step Hx as Hd. pose proof (distinct_kids_seen _ _ Hx k Hk Hf) as Hs. apply Forall_cons in Hs as [Hs _]. rewrite Hkid in Hs.
    cbn in Hs. by rewrite eqb_refl in Hs.
  - apply elem_of_cons in Hk as [->|Hk]; [rewrite Hkid in E; cbn in E; by rewrite eqb_refl in E|].
    destruct (falsy (jwk_kid k0)); [by eapply IH|]. guard_step Hx as Hh. guard_step Hx as Hd. by eapply IH.
Qed.

(** The current signing key of a key set is well defined: it is in the set and
    no other key of the set is for signing, it declares an identifier and the
    algorithm its key type has, and looking its identifier up finds it. *)
Theorem current_key_unique (profile : str) (keys : JWKS) (key : JWK) (Hok : current_protocol_signing_key profile keys = Ok key) :
  key ∈ keys ∧ (∀ k, k ∈ keys → falsy (jwk_use k) || is_str "sig" (jwk_use k) = true → k = key)
  ∧ falsy (jwk_kid key) = false ∧ (∃ alg, signature_alg_from_raw (jwk_raw key) = Ok alg ∧ jwk_alg key = JStr alg)
  ∧ (∀ kid, jwk_kid key = JStr kid → key_by_id (JStr kid) keys = Some key).
Proof.
  unfold current_protocol_signing_key in Hok. guard_step Hok as Hp. apply bind_unit_Ok in Hok as [Hval Hok].
  destruct (List.filter _ keys) as [|k [|]] eqn:Hf; [done| |done]. guard_step Hok as Hkid. guard_step Hok as Halg. bind_step Hok as alg Hsig. apply Ok_inj in Hok as ->.
  assert (∀ x, x ∈ keys ∧ falsy (jwk_use x) || is_str "sig" (jwk_use x) = true ↔ x ∈ [key]) as Hin.
  { intros x. rewrite <- Hf, !list_elem_of_In, List.filter_In. done. }
  assert (key ∈ keys) as Hkey by (apply Hin; by left). split_and!; [done| |done| |].
  - intros x Hx Hu. assert (x ∈ [key]) as Hk by by apply Hin. by apply list_elem_of_singleton in Hk.
  - unfold signature_alg in Hsig. destruct (signature_alg_from_raw (jwk_raw key)) as [a|e] eqn:Hraw; cbn in Hsig; [|by destruct (is_value_error e)].
    guard_step Hsig as Hb. apply Ok_inj in Hsig as ->. rewrite Halg in Hb. cbn [negb andb] in Hb. rewrite negb_false_iff in Hb. apply py_eq_str in Hb. eauto.
  - intros kid Hk. unfold validate_jwks in Hval. apply bind_unit_Ok in Hval as [_ Hval]. apply bind_unit_Ok in Hval as [Hd _].
    eapply key_by_id_found; [exact Hd|done|done|]. intros ->. by rewrite Hk in Hkid.
Qed.

Lemma current_key_unique_witness : key_by_id (JStr (lit "ku-1")) [op1] = Some op1.
Proof. apply (current_key_unique DRAFT01 [op1] op1); [vm_compute; reflexivity|reflexivity]. Defined.

(** Two-key separation reads every published key, so one key of a type without a
    thumbprint, even one that is not for signing, makes the check raise a
    [ValueError] instead of a verification error. *)
Definition symmetric_key : JWK :=
  {| jwk_kty := JStr (lit "oct"); jwk_alg := JStr []; jwk_kid := JStr (lit "s"); jwk_use := JStr (lit "enc");
     jwk_raw := [(lit "kty", JStr (lit "oct")); (lit "kid", JStr (lit "s")); (lit "use", JStr (lit "enc"))] |}.
Theorem foreign_key_type_raises :
  current_record_signing_key DRAFT01 [entity; symmetric_key] = Ok entity
  ∧ match check_ek_ku_distinctness (Some [entity; symmetric_key]) (Some [op1]) with
    | Raise e => is_value_error e = true ∧ is_verification e = false
    | Ok _ => False
    end.
Proof. by vm_compute. Qed.

(** ** Certificates *)
Section names.
Context `{Platform}.

Lemma normalize_raises name agent e : normalize_fqdn idna_encode name agent = Raise e → ∃ m, e = ValidationError m.
Proof.
  unfold normalize_fqdn. destruct (name ==? []); [intros [= <-]; eauto|]. cbn [raise_if mbind result_bind]. destruct (drop_root_dot name ==? []); [intros [= <-]; eauto|].
  cbn [raise_if mbind result_bind]. destruct (mapM_res _ _) as [l|e'] eqn:E; cbn [mbind result_bind].
  - destruct (forM_res _ l) as [[]|e'] eqn:E'; cbn [mbind result_bind].
    + destruct (253 <? _); [intros [= <-]; eauto|]. cbn [raise_if mbind result_bind]. destruct (agent && _); [intros [= <-]; eauto|done].
    + intros [= <-]. clear E. induction l as [|x l IH]; cbn [forM_res] in E'; [done|]. destruct (63 <? _); cbn in E'; [injection E' as <-; eauto|auto].
  - intros [= <-]. revert E. induction (PyText.split 46 (drop_root_dot name)) as [|x l IH]; cbn [mapM_res]; [done|].
    destruct (encode_label idna_encode x) as [y|e1] eqn:Hl; cbn [mbind result_bind].
    + destruct (mapM_res _ l) as [|e2]; cbn; [done|]. intros Hx. injection Hx as ->. by apply IH.
    + intros Hx. injection Hx as ->. unfold encode_label in Hl. destruct (x ==? []); cbn in Hl; [injection Hl as <-; eauto|].
      destruct (idna_encode x); cbn in Hl; [done|injection Hl as <-; eauto].
Qed.

(** When a presented name stands for the expected one. *)
Inductive names (expected : str) : str → Prop :=
| names_exact san : 42 ∉ san → normalize_fqdn idna_encode san false = Ok expected → names expected san
| names_wildcard rest suffix label : 42 ∉ rest → normalize_fqdn idna_encode rest false = Ok suffix → 46 ∉ label →
    expected = label ++ [46] ++ suffix → names expected (lit "*." ++ rest).

Lemma endswith_app p s : endswith p s = true ↔ ∃ t, s = t ++ p.
Proof.
  unfold endswith. rewrite startswith_app. split; intros [t Ht].
  - exists (rev t). apply (f_equal (@rev Z)) in Ht. by rewrite rev_involutive, rev_app_distr, rev_involutive in Ht.
  - exists (rev t). by rewrite Ht, rev_app_distr.
Qed.

Lemma split_length c s : length (PyText.split c s) = S (length (List.filter (Z.eqb c) s)).
Proof.
  induction s as [|x s IH]; [done|]. cbn [PyText.split List.filter]. rewrite (Z.eqb_sym c x). destruct (x =? c); cbn [length]; [by rewrite IH|].
  destruct (PyText.split c s) as [|w ws] eqn:E; [by apply split_nonempty in E|]. exact IH.
Qed.

Lemma count_zero c s : List.filter (Z.eqb c) s = [] ↔ c ∉ s.
Proof.
  induction s as [|x s IH]; cbn [List.filter]; [split; [intros _; apply not_elem_of_nil|done]|]. rewrite not_elem_of_cons.
  destruct (Z.eqb_spec c x); [naive_solver|]. rewrite IH. naive_solver.
Qed.

Lemma wildcard_label expected suffix :
  (len (PyText.split 46 expected) =? len (PyText.split 46 suffix) + 1) && endswith ([46] ++ suffix) expected = true
  ↔ ∃ label, 46 ∉ label ∧ expected = label ++ [46] ++ suffix.
Proof.
  rewrite andb_true_iff, endswith_app, Z.eqb_eq. unfold len. rewrite !split_length. split.
  - intros [Hl [label ->]]. exists label. split; [|done]. rewrite !List.filter_app, !length_app in Hl. change (length (List.filter (Z.eqb 46) [46])) with 1%nat in Hl.
    apply count_zero. apply length_zero_iff_nil. lia.
  - intros (label & Hn & ->). split; [|by exists label]. rewrite !List.filter_app, !length_app. apply count_zero in Hn as ->. cbn [length].
    change (length (List.filter (Z.eqb 46) [46])) with 1%nat. lia.
Qed.

Lemma san_matches_names expected san : san_matches expected san = Ok true ↔ names expected san.
Proof.
  unfold san_matches. destruct (startswith (lit "*.") san && _) eqn:Hw.
  - apply andb_true_iff in Hw as [Hs Hc]. apply startswith_app in Hs as [rest ->]. change (drop 2 (lit "*." ++ rest)) with rest.
    change (List.filter (Z.eqb 42) (lit "*." ++ rest)) with (42 :: List.filter (Z.eqb 42) rest) in Hc. rewrite Z.eqb_eq in Hc.
    assert (42 ∉ rest) as Hrest. { apply count_zero, length_zero_iff_nil. unfold len in Hc. cbn [length] in Hc. lia. } split.
    + intros Hx. bind_step Hx as suffix Hn. apply Ok_inj in Hx. apply wildcard_label in Hx as (label & Hl & E). by eapply names_wildcard.
    + intros Hn. inversion Hn as [? Hno|r suffix label Hr Hnorm Hl E]; subst; [destruct Hno; by left|].
      rewrite Hnorm. cbn [mbind result_bind]. f_equal. apply wildcard_label. eauto.
  - split.
    + case_bool_decide as Hstar; [done|]. intros Hx. bind_step Hx as name Hn. apply Ok_inj in Hx. apply eqb_true in Hx as ->. by apply names_exact.
    + intros Hn. revert Hw. destruct Hn as [? Hno Hnorm|rest suffix label Hr Hnorm Hl ->]; intros Hw.
      * rewrite bool_decide_eq_false_2 by done. rewrite Hnorm. cbn [mbind result_bind]. by rewrite eqb_refl.
      * exfalso. apply andb_false_iff in Hw as [Hw|Hw].
        -- apply not_true_iff_false in Hw. apply Hw. apply (proj2 (startswith_app _ _)). by exists rest.
        -- change (List.filter (Z.eqb 42) (lit "*." ++ rest)) with (42 :: List.filter (Z.eqb 42) rest) in Hw. by rewrite (proj2 (count_zero 42 rest)) in Hw.
Qed.

Lemma san_matches_raises expected san e : san_matches expected san = Raise e → ∃ m, e = ValidationError m.
Proof.
  unfold san_matches. destruct (_ && _).
  - destruct (normalize_fqdn idna_encode _ _) as [|e'] eqn:E; cbn; [done|]. intros [= <-]. by eapply normalize_raises.
  - case_bool_decide; [done|]. destruct (normalize_fqdn idna_encode _ _) as [|e'] eqn:E; cbn; [done|]. intros [= <-]. by eapply normalize_raises.
Qed.

Lemma match_sans_spec expected sans : ∃ b, match_sans expected sans = Ok b ∧ (b = true ↔ ∃ san, san ∈ sans ∧ names expected san).
Proof.
  induction sans as [|san sans (b & IH & Hb)]; cbn [match_sans].
  { exists false. split; [done|]. split; [done|]. by intros (? & ?%elem_of_nil & _). }
  destruct (san ==? []) eqn:He.
  { apply eqb_true in He as ->. exists b. split; [done|]. rewrite Hb. split; intros (x & Hx & Hn).
    - exists x. split; [by right|done].
    - apply elem_of_cons in Hx as [->|Hx]; [|eauto]. inversion Hn as [? _ Hno|]; subst. discriminate Hno. }
  destruct (san_matches expected san) as [[]|e] eqn:Hs.
  - exists true. split; [done|]. split; [|done]. intros _. exists san. split; [by left|]. by apply san_matches_names.
  - exists b. split; [done|]. rewrite Hb. split; intros (x & Hx & Hn); [exists x; split; [by right|done]|].
    apply elem_of_cons in Hx as [->|Hx]; [|eauto]. apply san_matches_names in Hn. congruence.
  - destruct (san_matches_raises _ _ _ Hs) as [m ->]. exists b. split; [done|]. rewrite Hb. split; intros (x & Hx & Hn); [exists x; split; [by right|done]|].
    apply elem_of_cons in Hx as [->|Hx]; [|eauto]. apply san_matches_names in Hn. congruence.
Qed.
End names.

(** A certificate is accepted for a name exactly when one of its alternative
    names normalises to it, or is [*.] followed by a name that, with one label and
    a dot before it, is the expected one; malformed names elsewhere in the
    certificate do not matter. *)
Theorem certificate_names `{Platform} (cert : TLSCertificate) (fqdn : str) :
  validate_against_fqdn cert fqdn = Ok () ↔
  ∃ expected san, normalize_fqdn idna_encode fqdn true = Ok expected ∧ san ∈ tls_san_dns_names cert ∧ names expected san.
Proof.
  unfold validate_against_fqdn. destruct (normalize_fqdn idna_encode fqdn true) as [expected|e]; cbn [mbind result_bind].
  - destruct (match_sans_spec expected (tls_san_dns_names cert)) as (b & -> & Hb). cbn [mbind result_bind]. rewrite raise_if_Ok, negb_false_iff, Hb. naive_solver.
  - naive_solver.
Qed.
