(* ===== verification/HttpsClient.v ===== *)
(** * Key sets and status documents over HTTPS ([dnsid/_https_client.py])

    The redirect loops, the checks of every hop, bounded reading and parsing.
    The HTTP client is a parameter: [stream path revalidate url] is what
    the request made at [path] answers; [check path] is the deadline test made there.  URLs in
    messages are left out. *)
From S2P Require Import Prelude Errors PyText Utils Lr ResourceFetcher Canonical Keys PyTime DomainLog TxtRecord Identity.

(** Functions of the standard library on whose results nothing here depends:
    [json.loads] of octets, [urllib.parse.urljoin] and
    [datetime.fromisoformat]. *)
Class PyLib := {
  json_loads : bytes → res json;
  urljoin : str → str → res str;
  fromisoformat : str → res datetime
}.

Definition MAX_REDIRECTS : nat := 5.
Definition MAX_JWKS_BODY_BYTES : Z := 1024 * 1024.
Definition MAX_STATUS_BODY_BYTES : Z := 64 * 1024.

(** A response: what a bounded read needs, the [location] header and the
    certificate of the peer, when the transport gives access to it. *)
Record https_response : Set := {
  hs_response : http_response;
  hs_location : option str;
  hs_peer_cert : option TLSCertificate
}.

(** [_extract_tls_cert] *)
Definition extract_tls_cert (r : https_response) : TLSCertificate := default no_certificate (hs_peer_cert r).

(** ** Checks of a URL *)
Section urls.
Context `{Platform}.

Definition assert_https_redirect (location : str) : res unit :=
  parsed ← try_except (p ← urlsplit netloc_ok location; port (url_netloc p) ;; Ok p)
             (λ e, if is_value_error e then Raise (vfail TLS_ERROR "Invalid HTTPS URL") else Raise e);
  raise_if (negb (url_scheme parsed ==? lit "https")
            || bool_decide (hostname str_lower (url_netloc parsed) = None)
            || has_credentials (url_netloc parsed)
            || bool_decide (35 ∈ location))
    (vfail TLS_ERROR "URL must be absolute HTTPS without credentials or a fragment").

(** The host a redirect goes to, as it is compared. *)
Definition redirect_host (host : str) : str :=
  match normalize_fqdn idna_encode host false with Ok name => name | Raise _ => str_lower host end.

Definition in_boundary (allowed_host : str) (domain_boundary : bool) (host : str) : bool :=
  (host ==? allowed_host) || (domain_boundary && endswith ([46] ++ allowed_host) host).

Definition assert_same_host_https_redirect (location allowed_host : str) (domain_boundary : bool) : res unit :=
  assert_https_redirect location ;;
  parsed ← urlsplit netloc_ok location;
  match hostname str_lower (url_netloc parsed) with
  | None | Some [] => Ok ()
  | Some host => raise_if (negb (in_boundary allowed_host domain_boundary (redirect_host host)))
                   (vfail TLS_ERROR "Redirect changes host")
  end.
End urls.

(** ** Errors of the transport *)

(** [isinstance(exc, httpx.TransportError)] *)
Definition is_transport_error (e : exn) : bool :=
  match e with HttpxError (HConnect | HTimeout | HTransport) _ => true | _ => false end.

Definition jwks_transport_error (e : exn) : exn :=
  match e with
  | HttpxError HConnect m =>
      VerificationError TLS_ERROR (lit "TLS/connection error fetching JWKS") (negb (contains SSRF_BLOCK_MARKER m)) None
  | _ => VerificationError DNS_RESOLUTION (lit "Network error fetching JWKS") true None
  end.

Definition status_transport_error (e : exn) : exn :=
  match e with
  | HttpxError HConnect m =>
      if contains SSRF_BLOCK_MARKER m
      then vfail TLS_ERROR "status endpoint rejected: resolves to a non-public address (SSRF guard)"
      else VerificationError TLS_ERROR (lit "TLS/connection error fetching status") true None
  | _ => VerificationError DNS_RESOLUTION (lit "Network error fetching status") true None
  end.

(** ** Parsing *)
Section parsing.
Context `{PyLib}.

(** [[jwk_from_dict(k) for k in data.get("keys", [])]] *)
Definition keys_of (data : json) : res JWKS :=
  match data with
  | JDict d =>
      match get "keys" (JList []) d with
      | JList keys => mapM_res jwk_from_dict keys
      | JDict members => mapM_res (λ kv, jwk_from_dict (JStr kv.1)) members
      | JStr s => mapM_res (λ c, jwk_from_dict (JStr [c])) s
      | _ => Raise (TypeError (lit "object is not iterable"))
      end
  | _ => Raise (AttributeError (lit "object has no attribute 'get'"))
  end.

Definition parse_jwks_body (body : bytes) : res JWKS :=
  try_except (data ← json_loads body; keys_of data) (λ _, Raise (vfail RECORD_INVALID "JWKS response is not valid JSON")).

(** [a or b] *)
Definition py_or (a b : json) : json := if falsy a then b else a.

(** [text.replace("Z", "+00:00")] *)
Definition replace_z (text : str) : str := concat ((λ c, if c =? 90 then lit "+00:00" else [c]) <$> text).

Definition parse_agent_status_from_dict (data : json) : res AgentStatus :=
  let d := match data with JDict d => d | _ => [] end in
  let d := match get "protocolStatus" JNull d with JDict d' => d' | _ => d end in
  let raw := py_or (get "lastTransitionAt" JNull d) (get "updated_at" (JStr []) d) in
  last_transition ← try_except (fromisoformat match raw with JStr text => replace_z text | _ => [] end)
    (λ e, if is_value_error e then Ok ZERO_TIME
          else match e with AttributeError _ => Ok ZERO_TIME | e => Raise e end);
  Ok {| as_state := py_or (get "state" JNull d) (get "status" (JStr []) d);
        as_last_transition_at := last_transition;
        as_revocation_reason := py_or (get "revocationReason" JNull d) (get "revocation_reason" (JStr []) d) |}.

Definition parse_status_body (body : bytes) : res AgentStatus :=
  data ← try_except (json_loads body) (λ _, Raise (vfail STATUS_NOT_ACTIVE "Status endpoint returned non-JSON response"));
  parse_agent_status_from_dict data.
End parsing.

(** ** Fetching *)
Section fetching.
Context `{Platform, PyLib, Zlib} (check : list nat → res unit) (stream : list nat → bool → str → res https_response).

(** [_read_limited] *)
Definition read_limited (path : list nat) (response : http_response) (limit : Z) (code : verification_code) : res bytes :=
  let overflow := vfail code "response body too large" in
  let invalid := λ detail, VerificationError code detail false None in
  s ← new_body invalid (hr_content_encoding response) (hr_is_stream_consumed response) limit;
  s ← append_all check overflow invalid path s (hr_chunks response);
  match hr_failure response with
  | Some e => Raise e
  | None => finish invalid s
  end.

(** One request: the next URL, or the body of the final response with its
    certificate.  [follow] checks where a redirect goes, [accept] the status. *)
Definition request (path : list nat) (revalidate : bool) (follow : str → res unit) (accept : Z → res unit) (limit : Z)
    (code : verification_code) (wrap : exn → exn) (url : str) : res (str + bytes * TLSCertificate) :=
  try_except
    (check (0 :: path)%nat ;;
     response ← stream path revalidate url;
     if hr_is_redirect (hs_response response) then
       location ← urljoin url (default [] (hs_location response));
       follow location ;;
       Ok (inl location)
     else
       accept (hr_status_code (hs_response response)) ;;
       body ← read_limited (1 :: path)%nat (hs_response response) limit code;
       Ok (inr (body, extract_tls_cert response)))
    (λ e, if is_transport_error e then Raise (wrap e) else Raise e).

(** [for _ in range(_MAX_REDIRECTS + 1)] *)
Fixpoint request_loop (hops : nat) (path : list nat) (revalidate : bool) (follow : str → res unit) (accept : Z → res unit) (limit : Z)
    (code : verification_code) (wrap : exn → exn) (url : str) : res (bytes * TLSCertificate) :=
  match hops with
  | O => Raise (vfail TLS_ERROR "Too many redirects")
  | S hops =>
      step ← request (hops :: path) revalidate follow accept limit code wrap url;
      match step with
      | inl location => request_loop hops path revalidate follow accept limit code wrap location
      | inr done => Ok done
      end
  end.

(** [@verification_operation] under the caller's budget. *)
Definition operation {A} (path : list nat) (m : res A) : res A :=
  check (0 :: path)%nat ;; a ← m; check (1 :: path)%nat ;; Ok a.

Definition fetch_jwks (path : list nat) (ku allowed_host : str) (domain_boundary revalidate : bool) : res (JWKS * TLSCertificate) :=
  operation path (
    assert_https_redirect ku ;;
    '(body, cert) ← request_loop (S MAX_REDIRECTS) (2 :: path)%nat revalidate
      (λ location, assert_same_host_https_redirect location allowed_host domain_boundary)
      (λ status, raise_if (negb (status =? 200)) (vfail TLS_ERROR "JWKS fetch returned HTTP error"))
      MAX_JWKS_BODY_BYTES RECORD_INVALID jwks_transport_error ku;
    keys ← parse_jwks_body body;
    Ok (keys, cert)).

Definition fetch_agent_status (path : list nat) (su : str) (revalidate : bool) : res AgentStatus :=
  operation path (
    assert_https_redirect su ;;
    '(body, _) ← request_loop (S MAX_REDIRECTS) (2 :: path)%nat revalidate assert_https_redirect
      (λ status, raise_if (negb (status =? 200))
         (VerificationError STATUS_NOT_ACTIVE (lit "Status endpoint returned HTTP error") (500 <=? status) None))
      MAX_STATUS_BODY_BYTES STATUS_NOT_ACTIVE status_transport_error su;
    parse_status_body body).
End fetching.

(** ** What the loops promise *)

(** A URL that may be requested: secure, and where its host has to be. *)
Definition permitted_url `{Platform} (initial allowed_host : str) (domain_boundary : bool) (url : str) : Prop :=
  assert_https_redirect url = Ok () ∧
  (url = initial ∨ ∃ u, urlsplit netloc_ok url = Ok u ∧
     ∀ host, hostname str_lower (url_netloc u) = Some host → host ≠ [] → in_boundary allowed_host domain_boundary (redirect_host host) = true).

Section confinement.
Context `{Platform, PyLib, Zlib} (check : list nat → res unit).

Lemma same_host_permitted initial allowed_host boundary location :
  assert_same_host_https_redirect location allowed_host boundary = Ok () → permitted_url initial allowed_host boundary location.
Proof.
  unfold assert_same_host_https_redirect. intros [Hs Hx]%bind_unit_Ok. split; [done|]. right. bind_step Hx as u Hu. exists u. split; [done|].
  intros host Hh Hne. rewrite Hh in Hx. destruct host; [done|]. by apply raise_if_Ok, negb_false_iff in Hx.
Qed.

(** Two clients that agree on the URLs [P] cannot be told apart by a loop whose
    redirects stay in [P]. *)
Lemma request_loop_agree (P : str → Prop) stream1 stream2 hops path revalidate follow accept limit code wrap url :
  (∀ l, follow l = Ok () → P l) → (∀ p u, P u → stream1 p revalidate u = stream2 p revalidate u) → P url →
  request_loop check stream1 hops path revalidate follow accept limit code wrap url =
  request_loop check stream2 hops path revalidate follow accept limit code wrap url.
Proof.
  intros Hf Hs. revert url. induction hops as [|hops IH]; intros url Hu; [done|]. cbn [request_loop].
  assert (request check stream1 (hops :: path) revalidate follow accept limit code wrap url =
    request check stream2 (hops :: path) revalidate follow accept limit code wrap url) as E by (unfold request; by rewrite Hs).
  rewrite <- E. destruct (request check stream1 _ _ _ _ _ _ _ _) as [[location|fin]|e] eqn:Hr; [|done..]. cbn [mbind result_bind].
  apply IH. unfold request in Hr. destruct (check _) as [[]|e]; cbn in Hr; [|by destruct (is_transport_error e)].
  destruct (stream1 _ _ _) as [response|e]; cbn in Hr; [|by destruct (is_transport_error e)].
  destruct (hr_is_redirect _).
  - destruct (urljoin _ _) as [l|e]; cbn in Hr; [|by destruct (is_transport_error e)].
    destruct (follow l) as [[]|e] eqn:Hl; cbn in Hr; [|by destruct (is_transport_error e)]. injection Hr as <-. by apply Hf.
  - destruct (accept _) as [[]|e]; cbn in Hr; [|by destruct (is_transport_error e)].
    destruct (read_limited _ _ _ _ _) as [b|e]; cbn in Hr; [done|by destruct (is_transport_error e)].
Qed.

Lemma append_all_ok overflow invalid path s chunks s' : append_all check overflow invalid path s chunks = Ok s' → body_ok s →
  body_ok s' ∧ bb_limit s' = bb_limit s.
Proof.
  revert s. induction chunks as [|chunk chunks IH]; intros s Hx Hs; cbn [append_all] in Hx; [by apply Ok_inj in Hx as <-|].
  bind_step Hx as s1 Hs1. destruct (append_ok _ _ _ _ _ _ _ Hs1 Hs) as (Hb1 & Hlim & _). destruct (IH s1 Hx Hb1) as [? Hl].
  split; [done|congruence].
Qed.

Lemma read_limited_bound path response limit code b : 0 ≤ limit → read_limited check path response limit code = Ok b → len b ≤ limit.
Proof.
  intros Hl. unfold read_limited. intros Hx. bind_step Hx as s Hs. apply new_body_ok in Hs as (Hok & Hlim & _); [|done].
  bind_step Hx as s' Hs'. apply append_all_ok in Hs' as [Hok' Hlim']; [|done]. destruct (hr_failure response); [done|].
  apply finish_ok in Hx as ->. unfold body_ok in Hok'. lia.
Qed.

Lemma request_loop_bound stream hops path revalidate follow accept limit code wrap url b cert : 0 ≤ limit →
  request_loop check stream hops path revalidate follow accept limit code wrap url = Ok (b, cert) → len b ≤ limit.
Proof.
  intros Hl. revert url. induction hops as [|hops IH]; intros url Hx; [done|]. cbn [request_loop] in Hx. bind_step Hx as step Hr.
  destruct step as [location|fin]; [by apply (IH location)|]. apply Ok_inj in Hx as ->. unfold request in Hr.
  match type of Hr with try_except ?m _ = _ => destruct m as [x|e] eqn:Hm; [|by cbn in Hr; destruct (is_transport_error e)] end.
  cbn [try_except] in Hr. apply Ok_inj in Hr as ->. apply bind_unit_Ok in Hm as [_ Hm]. bind_step Hm as r Hs. destruct (hr_is_redirect _).
  - bind_step Hm as l Hj. by apply bind_unit_Ok in Hm as [_ [=]].
  - apply bind_unit_Ok in Hm as [_ Hm]. bind_step Hm as body Hb. injection Hm as <- _. by apply read_limited_bound in Hb.
Qed.

Lemma operation_Ok {A} path (m : res A) a : operation check path m = Ok a → m = Ok a.
Proof. unfold operation. intros [_ Hx]%bind_unit_Ok. bind_step Hx as b Hb. apply bind_unit_Ok in Hx as [_ Hx]. congruence. Qed.
End confinement.

