(* ===== verification/StreamSpec.v ===== *)
(** * What the selection guarantees

    Provenance of the selected lifecycle, indifference to entries that nobody
    signed, and the fate of authenticated forks. *)
From S2P Require Import Prelude Sha256 Errors PyText Base64 Utils Lr Merkle PyFloat PyTime Canonical Keys EventCodec StreamVerifier LifecycleSpec LifecycleDemo.

Section selection.
Context `{Platform} (opts : StreamVerifierOptions) (check : list nat → res unit) (domain : str).

Lemma attempt_inl {A} (m : res A) a : attempt m = Ok (inl a) ↔ m = Ok a.
Proof. unfold attempt. destruct m as [|e]; [naive_solver|]. destruct (is_resource_limit e); naive_solver. Qed.

(** ** Provenance *)

(** A selected event is the parse of an entry with the identifier it is filed
    under. *)
Record provenance (entries : list IndexedEntry) (id : str) (v : VerifiedLifecycleEvent) : Prop := {
  pv_entry : ∃ e, e ∈ entries ∧ vl_index v = ie_index e ∧ vl_data v = ie_data e;
  pv_leaf : vl_leaf_hash v = leaf_hash (vl_data v);
  pv_event : parse_c2sp_event_entry (vl_data v) (vo_context opts) true = Ok (vl_event v);
  pv_chain : ∃ obj, parse_json_no_duplicate_members (vl_data v) = Ok obj ∧ parse_chain_fields obj = Ok (vl_chain v);
  pv_domain : ev_domain (vl_event v) = domain;
  pv_id : event_id v = Ok id
}.

Definition history_ok (entries : list IndexedEntry) (h : list (str * VerifiedLifecycleEvent)) : Prop :=
  NoDup h.*1 ∧ Forall (λ kv, provenance entries kv.1 kv.2) h.

(** A step of the selection keeps the history or appends one event. *)
Lemma consider_event_Ok path entry d id event h h' :
  consider_event opts check domain path entry d id event h = Ok h' →
  h' = h ∨ ∃ chain keys, let candidate :=
      {| vl_index := ie_index entry; vl_leaf_hash := leaf_hash (ie_data entry); vl_data := ie_data entry;
         vl_event := event; vl_chain := chain; vl_post_keys := None |} in
    ev_domain event = domain
    ∧ (∃ obj, parse_json_no_duplicate_members (ie_data entry) = Ok obj ∧ parse_chain_fields obj = Ok chain)
    ∧ authenticate opts entry candidate d h = Ok true
    ∧ verify_lifecycle opts check path (map snd h ++ [candidate]) = Ok ()
    ∧ applied_keys opts (map snd h ++ [candidate]) = Ok keys
    ∧ h' = h ++ [(id, with_post_keys keys candidate)].
Proof.
  unfold consider_event, apply_candidate. intros Hv.
  destruct (ev_domain event ==? domain) eqn:Hdom; cbn [negb] in Hv; [|by injection Hv as <-; left].
  rewrite eqb_true in Hdom. bind_step Hv as parsed Hp. case_match; [by injection Hv as <-; left|].
  rewrite guard_Ok in Hv. destruct Hv as [_ Hv]. bind_step Hv as auth Ha.
  destruct auth; [|by injection Hv as <-; left]. right.
  rewrite !guard_Ok in Hv. destruct Hv as (Hce & _ & Hv). destruct parsed as [chain|]; [|done].
  bind_step Hv as outcome Ho. destruct outcome as [[]|]; [|done]. bind_step Hv as keys Hk. injection Hv as <-.
  rewrite attempt_inl in Hp; rewrite attempt_inl in Ho. bind_step Hp as obj Hobj. exists chain, keys. eauto 10.
Qed.

Lemma applied_get_None id (h : list (str * VerifiedLifecycleEvent)) : applied_get id h = None → id ∉ h.*1.
Proof.
  unfold applied_get. intros Hf Hin. apply list_elem_of_fmap in Hin as ([k v] & -> & Hin).
  case_match eqn:Hfind; [done|]. pose proof (List.find_none _ _ Hfind (k, v)) as Hn.
  rewrite eqb_false in Hn. apply Hn; [|done]. by apply list_elem_of_In.
Qed.

Lemma select_entry_ok path entries h h' entry : entry ∈ entries → history_ok entries h →
  select_entry opts check domain path h entry = Ok h' → history_ok entries h'.
Proof.
  intros Hin [Hnd Hall] Hv. unfold select_entry in Hv. rewrite bind_unit_Ok in Hv. destruct Hv as [_ Hv].
  bind_step Hv as head Hh. destruct head as [[[d signed] id]|]; [|by injection Hv as <-].
  case_match; [by injection Hv as <-|]. destruct (applied_get id h) eqn:Hget.
  { bind_step Hv as s Hs. rewrite guard_Ok in Hv. by destruct Hv as [_ [= <-]]. }
  bind_step Hv as parsed Hp. destruct parsed as [event|].
  2: { bind_step Hv as bad Hb. rewrite guard_Ok in Hv. by destruct Hv as [_ [= <-]]. }
  rewrite attempt_inl in Hp; rewrite attempt_inl in Hh.
  apply consider_event_Ok in Hv as [->|(chain & keys & Hdom & Hchain & _ & _ & _ & ->)]; [done|].
  split.
  - rewrite fmap_app. apply NoDup_app. split_and!; [done| |apply NoDup_singleton].
    intros x Hx Hx'%list_elem_of_singleton. subst x. by eapply applied_get_None.
  - apply Forall_app. split; [done|]. apply Forall_singleton. cbn. split; cbn; eauto.
    unfold entry_head in Hh. bind_step Hh as obj Hobj. rewrite bind_unit_Ok in Hh. destruct Hh as [_ Hh].
    bind_step Hh as sg Hsg. bind_step Hh as id' Hid. destruct obj; try done. injection Hh as <- <- <-. done.
Qed.

Lemma select_loop_ok entries l i h h' : (∀ e, e ∈ l → e ∈ entries) → history_ok entries h →
  select_loop opts check domain i h l = Ok h' → history_ok entries h'.
Proof.
  revert i h. induction l as [|e l IH]; intros i h Hin Hok Hv; cbn in Hv; [by injection Hv as <-|].
  bind_step Hv as h1 He. eapply IH; [|..|done].
  - intros x Hx. apply Hin. by right.
  - eapply select_entry_ok; [|done|done]. apply Hin. by left.
Qed.

Lemma insert_entry_elem x e l : x ∈ insert_entry e l ↔ x = e ∨ x ∈ l.
Proof. induction l as [|y l IH]; cbn; [set_solver|]. case_match; set_solver. Qed.

Lemma sort_entries_elem x l : x ∈ sort_entries l ↔ x ∈ l.
Proof.
  induction l as [|e l IH]; cbn; [done|]. rewrite insert_entry_elem, elem_of_cons. by rewrite IH.
Qed.

Lemma stream_steps_sound entries selected : vo_cutoff_index opts = None →
  verify_stream_lifecycle_steps opts check domain entries = Ok selected →
  (∃ s, lifecycle opts selected s) ∧ ∃ ids, NoDup ids ∧ Forall2 (provenance entries) ids selected.
Proof.
  intros Hcut Hsel. unfold verify_stream_lifecycle_steps, apply_cutoff in Hsel. rewrite Hcut in Hsel.
  rewrite !guard_Ok in Hsel. destruct Hsel as (_ & _ & Hsel). bind_step Hsel as h Hh.
  rewrite bind_unit_Ok in Hsel. destruct Hsel as [Hl [= <-]].
  split; [by eapply verify_lifecycle_lifecycle|].
  apply (select_loop_ok entries) in Hh as [Hnd Hall].
  - exists h.*1. split; [done|]. clear -Hall. induction Hall as [|[k v] h]; cbn; by constructor.
  - intros e. by rewrite sort_entries_elem.
  - by split; [constructor|].
Qed.

(** C18 Soundness of stream selection: what [verify_stream_lifecycle] returns (for
    a read without a migration cutoff) is a run of the lifecycle machine; each
    of its events is the parse of one of the given entries, in canonical form
    and bound to the expected stream context, for the requested domain, with
    the leaf hash of exactly those bytes; and no logical event occurs twice. *)
Theorem stream_lifecycle_sound (entries : list IndexedEntry) (selected : list VerifiedLifecycleEvent)
    (Hcut : vo_cutoff_index opts = None)
    (Hok : verify_stream_lifecycle opts check domain entries = Ok selected) :
  (∃ s, lifecycle opts selected s)
  ∧ ∃ ids, NoDup ids ∧ Forall2 (provenance entries) ids selected.
Proof.
  unfold verify_stream_lifecycle in Hok. rewrite bind_unit_Ok in Hok. destruct Hok as [_ Hok].
  bind_step Hok as sel Hsel. rewrite bind_unit_Ok in Hok. destruct Hok as [_ [= ->]].
  by apply stream_steps_sound.
Qed.

(** ** Forks *)
Definition candidate_of (entry : IndexedEntry) (event : LogEvent) (chain : chain_fields) : VerifiedLifecycleEvent :=
  {| vl_index := ie_index entry; vl_leaf_hash := leaf_hash (ie_data entry); vl_data := ie_data entry;
     vl_event := event; vl_chain := chain; vl_post_keys := None |}.

Lemma consider_authenticated path entry d id event h obj chain : h ≠ [] → ev_domain event = domain →
  parse_json_no_duplicate_members (ie_data entry) = Ok obj → parse_chain_fields obj = Ok chain →
  authenticate opts entry (candidate_of entry event chain) d h = Ok true →
  consider_event opts check domain path entry d id event h =
  apply_candidate opts check path entry id (candidate_of entry event chain) None h.
Proof.
  intros Hne Hdom Hobj Hchain Ha. unfold consider_event.
  rewrite (proj2 (eqb_true _ _) Hdom), Hobj. cbn [negb mbind result_bind]. rewrite Hchain.
  cbn [attempt mbind result_bind]. destruct h; [done|]. cbn [nonempty negb andb raise_if].
  unfold candidate_of in Ha. by rewrite Ha.
Qed.

End selection.

(** ** Deadlines *)

(** The deadline passes while the first candidate is being verified. *)
Definition late (p : list nat) : res unit :=
  if bool_decide (p = [0; 2; 1; 0; 0]%nat) then Raise BudgetExhausted else Ok ().

(** A missed deadline inside the verification of a candidate is caught with the
    verification failures: it is reported as an invalid authenticated candidate,
    a definitive error about the log, instead of the transient
    [BudgetExhausted]. *)
Theorem deadline_reported_as_invalid :
  verify_stream_lifecycle toy_options late toy_domain toy_entries
  = Raise (C2spTlogVerificationError (lit "authenticated lifecycle candidate is invalid") None (Some 3)).
Proof. vm_compute. reflexivity. Qed.

(** ** Witnesses *)
Lemma stream_lifecycle_sound_witness :
  (∃ s, lifecycle toy_options toy_selected s)
  ∧ ∃ ids, NoDup ids ∧ Forall2 (provenance toy_options toy_domain toy_entries) ids toy_selected.
Proof. apply (stream_lifecycle_sound toy_options no_deadline toy_domain); vm_compute; reflexivity. Defined.

(** The history after the issuance and the rotation, and the branch. *)
Definition toy_history : list (str * VerifiedLifecycleEvent) :=
  Eval vm_compute in or_empty (select_loop toy_options no_deadline toy_domain 0 []
    [{| ie_index := 3; ie_data := issuance_data |}; {| ie_index := 7; ie_data := rotation_data |}]).
