(* ===== verification/StreamSource.v ===== *)
(** * Stream sources ([c2sp_tlog/stream_source.py])

    The complete scan of a log through an injected transport, the proof of one
    entry from a scan, and the capabilities a public source must declare.  The
    generator [_load_steps] is run with [fetch] answering each request. *)
From S2P Require Import Prelude Sha256 Errors PyText Merkle Tiles SignedNote Lr PyTime CheckpointStore HashTiles Keys StreamVerifier ResourceFetcher.

(** ** Data *)
Record C2spScanLimits : Set := {
  max_tree_size : Z;
  max_checkpoint_bytes : Z;
  max_entry_bundle_bytes : Z;
  max_total_entry_bytes : Z
}.

Record C2spProvenEntry : Set := {
  pe_index : Z;
  pe_entry_bytes : bytes;
  pe_inclusion_proof : list bytes;
  pe_checkpoint : bytes
}.

Record StreamEvidence : Set := {
  se_checkpoint : Checkpoint;
  se_entries : list IndexedEntry;
  se_complete : bool;
  se_checkpoint_bytes : bytes;
  se_completeness_mode : str;
  se_complete_through_size : option Z;
  se_response_bytes : option Z
}.

Definition positive (value : Z) (name : string) : res unit :=
  raise_if (value <? 1) (verr (name +:+ " must be a positive integer")).

(** [__post_init__], and the checks of [ScanStreamSource.__init__]. *)
Definition validate_scan_limits (l : C2spScanLimits) : res unit :=
  positive (max_tree_size l) "max_tree_size" ;;
  positive (max_checkpoint_bytes l) "max_checkpoint_bytes" ;;
  positive (max_entry_bundle_bytes l) "max_entry_bundle_bytes" ;;
  positive (max_total_entry_bytes l) "max_total_entry_bytes".

Definition default_scan_limits : C2spScanLimits :=
  {| max_tree_size := 1000000; max_checkpoint_bytes := 1048576; max_entry_bundle_bytes := 16777472;
     max_total_entry_bytes := 268435456 |}.

Definition entries_per_bundle : Z := 256.

(** ** The scan *)
Section scan.
Context (fetch : str → Z → res bytes) (authenticate_checkpoint : Checkpoint → res unit) (limits : C2spScanLimits).

Fixpoint enumerate_from (start : Z) (bundle : list bytes) : list IndexedEntry :=
  match bundle with
  | [] => []
  | entry :: bundle => {| ie_index := start; ie_data := entry |} :: enumerate_from (start + 1) bundle
  end.

(** The [while] loop at bundle [n]; each round is for one more bundle of the
    tree, so their number is enough fuel. *)
Fixpoint scan_loop (fuel : nat) (prefix : str) (tree_size n total : Z) (entries : list IndexedEntry)
    : res (list IndexedEntry * Z) :=
  if negb (n * entries_per_bundle <? tree_size) then Ok (entries, total)
  else
    match fuel with
    | O => Raise (RuntimeError (lit "unreachable"))
    | S fuel =>
        let want := Z.min entries_per_bundle (tree_size - n * entries_per_bundle) in
        let width := if want =? entries_per_bundle then None else Some want in
        path ← entry_bundle_path prefix n width;
        bundle_bytes ← fetch path (max_entry_bundle_bytes limits);
        let total := total + len bundle_bytes in
        raise_if (max_total_entry_bytes limits <? total)
          (C2spTlogVerificationError
             (lit "entry bundles exceed configured total byte maximum " ++ str_of_int (max_total_entry_bytes limits)) None None) ;;
        bundle ← parse_entry_bundle bundle_bytes;
        raise_if (negb (len bundle =? want)) (verr "entry bundle width mismatch") ;;
        scan_loop fuel prefix tree_size (n + 1) total (entries ++ enumerate_from (n * entries_per_bundle) bundle)
    end.

Definition bundle_count (tree_size : Z) : nat := Z.to_nat ((tree_size + 255) / 256).

(** [load(prefix)] *)
Definition load (prefix : str) : res StreamEvidence :=
  checkpoint_bytes ← fetch (checkpoint_path prefix) (max_checkpoint_bytes limits);
  text ← utf8_decode checkpoint_bytes;
  checkpoint ← parse_checkpoint text;
  authenticate_checkpoint checkpoint ;;
  raise_if (max_tree_size limits <? cp_tree_size checkpoint)
    (C2spTlogVerificationError
       (lit "checkpoint tree size exceeds configured maximum " ++ str_of_int (max_tree_size limits)) None None) ;;
  '(entries, total) ← scan_loop (bundle_count (cp_tree_size checkpoint)) prefix (cp_tree_size checkpoint) 0 0 [];
  Ok {| se_checkpoint := checkpoint; se_entries := entries; se_complete := true; se_checkpoint_bytes := checkpoint_bytes;
        se_completeness_mode := lit "full-scan"; se_complete_through_size := Some (cp_tree_size checkpoint);
        se_response_bytes := Some (len checkpoint_bytes + total) |}.

Definition fetch_checkpoint (reference : ParsedC2spTlogLr) : res bytes :=
  fetch (checkpoint_path (lr_log_prefix reference)) (max_checkpoint_bytes limits).

Definition load_stream (reference : ParsedC2spTlogLr) (fqdn : str) : res StreamEvidence := load (lr_log_prefix reference).

(** ** Inclusion proofs *)

(** The [while len(level) > 1] loop; each level is shorter, so the length is
    enough fuel. *)
Fixpoint proof_loop (fuel : nat) (level : list bytes) (position : Z) : list bytes :=
  match fuel with
  | O => []
  | S fuel =>
      if len level <=? 1 then []
      else
        let rest := proof_loop fuel (next_level level) (position / 2) in
        if position mod 2 =? 1 then (level !!! Z.to_nat (position - 1)) :: rest
        else if position + 1 <? len level then (level !!! Z.to_nat (position + 1)) :: rest
        else rest
  end.

Definition index_error (index : Z) : exn :=
  C2spTlogVerificationError (lit "C2SP entry index out of range: " ++ str_of_int index) None None.

Definition inclusion_proof (entries : list bytes) (index : Z) : res (list bytes) :=
  raise_if ((index <? 0) || (len entries <=? index)) (index_error index) ;;
  Ok (proof_loop (length entries) (leaf_hash <$> entries) index).

Definition proven_entry (evidence : StreamEvidence) (index : Z) : res C2spProvenEntry :=
  let entries := sort_entries (se_entries evidence) in
  match (if (index <? 0) || (len entries <=? index) then None else entries !! Z.to_nat index) with
  | None => Raise (index_error index)
  | Some entry =>
      raise_if (negb (ie_index entry =? index)) (index_error index) ;;
      proof ← inclusion_proof (map ie_data entries) index;
      Ok {| pe_index := index; pe_entry_bytes := ie_data entry; pe_inclusion_proof := proof;
            pe_checkpoint := se_checkpoint_bytes evidence |}
  end.

Definition read_entry (reference : ParsedC2spTlogLr) (index : Z) : res C2spProvenEntry :=
  evidence ← load_stream reference (lr_stream_id reference);
  proven_entry evidence index.

(** [verify_checkpoint_consistency] *)
Definition verify_checkpoint_consistency (check : tile_moment → res unit) (begin_ end_ : res unit)
    (reference : ParsedC2spTlogLr) (trusted candidate : TrustedCheckpoint) : res unit :=
  begin_ ;;
  consistency_tiles fetch check (lr_log_prefix reference) trusted candidate (max_tree_size limits) ;;
  end_.
End scan.

(** ** The transport *)

(** [_bytes] *)
Definition source_bytes (check : list nat → res unit) (transport : injected) (url : str) (maximum : Z) : res bytes :=
  match in_fetch_bounded transport with
  | Some _ => fetch_bounded_bytes check transport url maximum
  | None =>
      response ← try_except (in_call transport url)
        (λ e, if is_c2sp e then Raise e
              else match e with
                   | OSError _ _ => Raise (terr "failed to fetch C2SP resource: " url true)
                   | _ => Raise (terr "failed to fetch C2SP resource: " url false)
                   end);
      data ← match response with RText s => b ← utf8_encode s; Ok (RBytes b) | r => Ok r end;
      match data with
      | RBytes b => raise_if (maximum <? len b) (response_limit_error url maximum) ;; Ok b
      | _ => Raise (terr "C2SP transport returned a non-bytes response: " url false)
      end
  end.

Definition security_guarantees (transport : injected) : res (option C2spResourceFetchGuarantees) :=
  match in_fetch_bounded transport with
  | None => Ok None
  | Some _ => default (Ok None) (in_security_guarantees transport)
  end.

(** [enforce_public_read_guarantees] of what the source declares. *)
Definition enforce_public_read_guarantees (declared : option (res (option C2spResourceFetchGuarantees))) : res unit :=
  guarantees ← default (Ok None) declared;
  match guarantees with
  | None => Raise (verr "public c2sp-tlog source must declare resource-fetch security capabilities")
  | Some g =>
      let missing := missing_guarantees g in
      raise_if (negb (missing ==? []))
        (C2spTlogVerificationError (lit "public c2sp-tlog source lacks " ++ join (lit ", ") missing) None None)
  end.
