(* ===== verification/StreamSourceSpec.v ===== *)
(** * What a scan returns *)
From S2P Require Import Prelude Sha256 Errors PyText Merkle Tiles SignedNote Lr PyTime CheckpointStore HashTiles Keys StreamVerifier ResourceFetcher StreamSource.

(** ** Entries in order *)
Lemma enumerate_from_data s es : map ie_data (enumerate_from s es) = es.
Proof. revert s. induction es as [|e es IH]; intros s; cbn; [done|]. by rewrite IH. Qed.

Lemma enumerate_from_length s es : length (enumerate_from s es) = length es.
Proof. rewrite <- (length_map ie_data), enumerate_from_data. done. Qed.

Lemma enumerate_from_lookup s es i : enumerate_from s es !! i = (λ d, {| ie_index := s + Z.of_nat i; ie_data := d |}) <$> (es !! i).
Proof.
  revert s i. induction es as [|e es IH]; intros s [|i]; cbn [enumerate_from lookup list_lookup]; [done|done|cbn; do 2 f_equal; lia|].
  rewrite IH. destruct (es !! i); cbn; [|done]. do 2 f_equal. lia.
Qed.

Lemma enumerate_from_app s es fs : enumerate_from s (es ++ fs) = enumerate_from s es ++ enumerate_from (s + len es) fs.
Proof.
  revert s. induction es as [|e es IH]; intros s; cbn [app enumerate_from]; [by rewrite Z.add_0_r|].
  rewrite IH. do 3 f_equal. unfold len. cbn. lia.
Qed.

Lemma sort_enumerate s es : sort_entries (enumerate_from s es) = enumerate_from s es.
Proof.
  revert s. induction es as [|e es IH]; intros s; [done|]. unfold sort_entries in *. cbn [enumerate_from foldr]. rewrite IH.
  destruct es as [|e' es]; [done|]. cbn [enumerate_from insert_entry ie_index].
  by rewrite (proj2 (Z.leb_le _ _)) by lia.
Qed.

(** ** The scan *)
Section scan.
Context (fetch : str → Z → res bytes) (authenticate_checkpoint : Checkpoint → res unit) (limits : C2spScanLimits).

Lemma scan_loop_spec fuel prefix size n total es r total' : 0 ≤ n →
  len es = Z.min (n * 256) size →
  scan_loop fetch limits fuel prefix size n total (enumerate_from 0 es) = Ok (r, total') →
  ∃ es', r = enumerate_from 0 es' ∧ len es' = size ∧ total ≤ total'
    ∧ (total ≤ max_total_entry_bytes limits → total' ≤ max_total_entry_bytes limits).
Proof.
  revert n total es. induction fuel as [|fuel IH]; intros n total es Hn Hes Hx; cbn [scan_loop] in Hx;
    change entries_per_bundle with 256 in Hx; destruct (Z.ltb_spec (n * 256) size) as [Hlt|Hge]; cbn [negb] in Hx; try done;
    try (injection Hx as <- <-; exists es; split_and!; [done|lia|lia|done]).
  bind_step Hx as path Hp. bind_step Hx as data Hd. guard_step Hx as Ht. bind_step Hx as bundle Hb. guard_step Hx as Hw.
  rewrite negb_false_iff, Z.eqb_eq in Hw. bool_prop.
  replace (n * 256) with (0 + len es) in Hx by lia. rewrite <- enumerate_from_app in Hx.
  apply IH in Hx as (es' & -> & Hlen & Hge & Hle); [|lia|rewrite len_app; lia].
  pose proof (len_nonneg data). exists es'. split_and!; [done..|lia|intros; apply Hle; lia].
Qed.

Lemma load_cases prefix ev : load fetch authenticate_checkpoint limits prefix = Ok ev →
  authenticate_checkpoint (se_checkpoint ev) = Ok () ∧ cp_tree_size (se_checkpoint ev) ≤ max_tree_size limits
  ∧ (∃ text, fetch (checkpoint_path prefix) (max_checkpoint_bytes limits) = Ok (se_checkpoint_bytes ev)
       ∧ utf8_decode (se_checkpoint_bytes ev) = Ok text ∧ parse_checkpoint text = Ok (se_checkpoint ev))
  ∧ se_complete ev = true ∧ se_complete_through_size ev = Some (cp_tree_size (se_checkpoint ev))
  ∧ ∃ es total, se_entries ev = enumerate_from 0 es ∧ len es = cp_tree_size (se_checkpoint ev)
      ∧ se_response_bytes ev = Some (len (se_checkpoint_bytes ev) + total)
      ∧ 0 ≤ total ∧ (0 ≤ max_total_entry_bytes limits → total ≤ max_total_entry_bytes limits).
Proof.
  unfold load. intros Hx. bind_step Hx as cb Hcb. bind_step Hx as text Htext. bind_step Hx as c Hc.
  rewrite bind_unit_Ok in Hx. destruct Hx as [Ha Hx]. guard_step Hx as Hs. bind_step Hx as [es total] Hl. injection Hx as <-. cbn.
  pose proof Hc as Hpos. apply parse_checkpoint_Ok in Hpos as [Hpos _]. apply parse_body_Ok in Hpos as (_ & Hpos & _).
  change [] with (enumerate_from 0 []) in Hl. apply scan_loop_spec in Hl as (es' & -> & Hlen & Hge & Hle); [|lia|unfold len; cbn; lia].
  bool_prop. split_and!; [done|lia|eauto|done|done|]. exists es', total. split_and!; done.
Qed.

(** ** An honest log *)
Definition bundle_slice (es : list bytes) (n : nat) : list bytes := take 256 (drop (256 * n) es).
Definition slice_width (es : list bytes) (n : nat) : option Z :=
  if (length es <? 256 * (n + 1))%nat then Some (len es - 256 * Z.of_nat n) else None.

(** The bundles of the log [es], each under its path. *)
Definition serves_bundles (prefix : str) (es : list bytes) : Prop := ∀ n path, (256 * n < length es)%nat →
  entry_bundle_path prefix (Z.of_nat n) (slice_width es n) = Ok path →
  ∃ data, encode_entry_bundle (bundle_slice es n) = Ok data ∧ fetch path (max_entry_bundle_bytes limits) = Ok data.

(** The octets of the bundles from [n] on. *)
Fixpoint bundles_bytes (fuel n : nat) (es : list bytes) : Z :=
  match fuel with
  | O => 0
  | S fuel => match encode_entry_bundle (bundle_slice es n) with Ok d => len d | Raise _ => 0 end + bundles_bytes fuel (S n) es
  end.

Lemma bundles_bytes_nonneg fuel n es : 0 ≤ bundles_bytes fuel n es.
Proof.
  revert n. induction fuel as [|fuel IH]; intros n; cbn [bundles_bytes]; [lia|]. specialize (IH (S n)).
  destruct (encode_entry_bundle _) as [d|]; [pose proof (len_nonneg d)|]; lia.
Qed.

Lemma scan_loop_honest fuel prefix es n total : serves_bundles prefix es → (length es ≤ 256 * (n + fuel))%nat →
  total + bundles_bytes fuel n es ≤ max_total_entry_bytes limits →
  ∃ total', scan_loop fetch limits fuel prefix (len es) (Z.of_nat n) total (enumerate_from 0 (take (256 * n) es))
            = Ok (enumerate_from 0 es, total').
Proof.
  intros Hserves. revert n total. induction fuel as [|fuel IH]; intros n total Hf Ht; cbn [scan_loop];
    change entries_per_bundle with 256; destruct (Z.ltb_spec (Z.of_nat n * 256) (len es)) as [Hlt|Hge]; cbn [negb];
    try (exists total; by rewrite take_ge by (unfold len in *; lia)); unfold len in Hlt; try lia.
  set (want := Z.min 256 (len es - Z.of_nat n * 256)).
  assert ((if want =? 256 then None else Some want) = slice_width es n) as ->.
  { unfold slice_width, want, len. destruct (Nat.ltb_spec (length es) (256 * (n + 1))).
    - rewrite (proj2 (Z.eqb_neq _ _)) by lia. f_equal. lia.
    - by rewrite (proj2 (Z.eqb_eq _ _)) by lia. }
  destruct (entry_bundle_path prefix (Z.of_nat n) (slice_width es n)) as [path|e] eqn:Hpath.
  2: { unfold entry_bundle_path, tile_n in Hpath. rewrite guard_false in Hpath by (apply Z.ltb_ge; lia). discriminate. }
  cbn [mbind result_bind]. destruct (Hserves n path) as (data & Henc & Hfetch); [lia|done|]. rewrite Hfetch. cbn [mbind result_bind].
  cbn [bundles_bytes] in Ht. rewrite Henc in Ht. pose proof (bundles_bytes_nonneg fuel (S n) es).
  rewrite guard_false by (apply Z.ltb_ge; lia).
  assert (parse_entry_bundle data = Ok (bundle_slice es n)) as ->.
  { apply (parse_bundle_encoded _ _ [] [] _ Henc). apply length_encode in Henc. lia. }
  cbn [mbind result_bind]. assert (len (bundle_slice es n) = want) as Hw
    by (unfold bundle_slice, want, len; rewrite length_take, length_drop; lia).
  rewrite guard_false by (rewrite negb_false_iff; by apply Z.eqb_eq).
  replace (Z.of_nat n * 256) with (0 + len (take (256 * n) es)) by (unfold len; rewrite length_take; lia).
  rewrite <- enumerate_from_app. unfold bundle_slice. rewrite take_take_drop.
  replace (256 * n + 256)%nat with (256 * S n)%nat by lia. replace (Z.of_nat n + 1) with (Z.of_nat (S n)) by lia.
  apply IH; lia.
Qed.

Lemma load_honest prefix es cb text c : serves_bundles prefix es →
  fetch (checkpoint_path prefix) (max_checkpoint_bytes limits) = Ok cb → utf8_decode cb = Ok text →
  parse_checkpoint text = Ok c → cp_tree_size c = len es → authenticate_checkpoint c = Ok () →
  len es ≤ max_tree_size limits → bundles_bytes (bundle_count (len es)) 0 es ≤ max_total_entry_bytes limits →
  ∃ ev, load fetch authenticate_checkpoint limits prefix = Ok ev
    ∧ se_checkpoint ev = c ∧ se_entries ev = enumerate_from 0 es ∧ se_complete ev = true.
Proof.
  intros Hserves Hcb Htext Hc Hsz Ha Hmax Htot. unfold load. rewrite Hcb. cbn [mbind result_bind].
  rewrite Htext. cbn [mbind result_bind]. rewrite Hc. cbn [mbind result_bind]. rewrite Ha. cbn [mbind result_bind].
  rewrite Hsz, guard_false by (apply Z.ltb_ge; lia).
  destruct (scan_loop_honest (bundle_count (len es)) prefix es 0 0 Hserves) as [total Hl]; [|lia|].
  { unfold bundle_count, len. lia. }
  change (Z.of_nat 0) with 0 in Hl. change (enumerate_from 0 (take (256 * 0) es)) with (@nil IndexedEntry) in Hl.
  rewrite Hl. cbn [mbind result_bind]. eexists. split; [done|]. cbn. done.
Qed.

End scan.

(** ** Inclusion proofs *)
Lemma proof_loop_path fuel L i : proof_loop fuel L (Z.of_nat i) = level_path fuel L i.
Proof.
  revert L i. induction fuel as [|fuel IH]; intros L i; cbn [proof_loop level_path]; [done|].
  rewrite <- div2_Z, IH, <- odd_mod. destruct (Z.leb_spec (len L) 1) as [Hl|Hl]; unfold len in Hl.
  - by rewrite decide_True by lia.
  - rewrite decide_False by lia. destruct (Nat.odd i) eqn:Ho.
    + do 2 f_equal. lia.
    + destruct (Z.ltb_spec (Z.of_nat i + 1) (len L)) as [Hi|Hi]; unfold len in Hi.
      * destruct (L !! S i) as [s|] eqn:Hs; [|apply lookup_ge_None in Hs; lia].
        f_equal. apply list_lookup_total_correct. rewrite <- Hs. f_equal. lia.
      * destruct (L !! S i) as [s|] eqn:Hs; [apply lookup_lt_Some in Hs; lia|done].
Qed.

Lemma proven_entry_ok ev es index p : se_entries ev = enumerate_from 0 es → proven_entry ev index = Ok p →
  pe_index p = index ∧ es !! Z.to_nat index = Some (pe_entry_bytes p) ∧ 0 ≤ index < len es
  ∧ pe_inclusion_proof p = level_path (length es) (leaf_hash <$> es) (Z.to_nat index)
  ∧ pe_checkpoint p = se_checkpoint_bytes ev.
Proof.
  intros Hes Hx. unfold proven_entry in Hx. rewrite Hes, sort_enumerate in Hx. unfold len in Hx at 1.
  rewrite enumerate_from_length, enumerate_from_lookup in Hx.
  destruct ((index <? 0) || (Z.of_nat (length es) <=? index)) eqn:Hi; [done|]. bool_prop.
  destruct (es !! Z.to_nat index) as [d|] eqn:Hd; [|done]. cbn [fmap option_fmap option_map ie_index ie_data] in Hx.
  guard_step Hx as Hidx. bind_step Hx as proof Hp. injection Hx as <-. cbn. rewrite enumerate_from_data in Hp.
  unfold inclusion_proof in Hp. guard_step Hp as Hi2. injection Hp as <-. unfold len. split_and!; [done|done|lia|lia| |done].
  by rewrite <- proof_loop_path, Z2Nat.id by lia.
Qed.

(** A scan that returns is complete: its entries carry the indexes [0], [1], …,
    up to the tree size of the checkpoint, which was authenticated before any
    entry was read and does not exceed the configured size; the octets of the
    entry bundles do not exceed the configured total, and the count of received
    octets is that of the checkpoint and the bundles. *)
Theorem scan_complete (fetch : str → Z → res bytes) (authenticate_checkpoint : Checkpoint → res unit)
    (limits : C2spScanLimits) (prefix : str) (ev : StreamEvidence)
    (Hlimits : validate_scan_limits limits = Ok ())
    (Hload : load fetch authenticate_checkpoint limits prefix = Ok ev) :
  map ie_index (se_entries ev) = map Z.of_nat (seq 0 (Z.to_nat (cp_tree_size (se_checkpoint ev))))
  ∧ authenticate_checkpoint (se_checkpoint ev) = Ok ()
  ∧ cp_tree_size (se_checkpoint ev) ≤ max_tree_size limits
  ∧ ∃ total, 0 ≤ total ≤ max_total_entry_bytes limits
      ∧ se_response_bytes ev = Some (len (se_checkpoint_bytes ev) + total).
Proof.
  apply load_cases in Hload as (Ha & Hmax & _ & _ & _ & es & total & Hes & Hlen & Hr & Hge & Hle).
  unfold validate_scan_limits, positive in Hlimits. rewrite !bind_unit_Ok in Hlimits. destruct Hlimits as (_ & _ & _ & Ht).
  apply raise_if_Ok, Z.ltb_ge in Ht. split_and!; [|done|done|exists total; split; [lia|done]].
  rewrite Hes, <- Hlen. unfold len. rewrite Nat2Z.id. apply list_eq. intros i.
  rewrite (list_lookup_fmap ie_index), enumerate_from_lookup, list_lookup_fmap.
  destruct (decide (i < length es)%nat) as [Hi|Hi].
  - destruct (lookup_lt_is_Some_2 es i Hi) as [d ->]. rewrite lookup_seq_lt by done. done.
  - rewrite lookup_ge_None_2 by lia. rewrite lookup_seq_ge by lia. done.
Qed.

(** A log that serves its own bundles is scanned to the end: if the server
    answers the checkpoint and, for each bundle of the log [es], the encoding of
    its entries, and the log is within the limits, then [load] returns exactly
    the entries of [es] in order. *)
Theorem scan_honest_log (fetch : str → Z → res bytes) (authenticate_checkpoint : Checkpoint → res unit)
    (limits : C2spScanLimits) (prefix text : str) (es : list bytes) (cb : bytes) (c : Checkpoint)
    (Hserves : serves_bundles fetch limits prefix es)
    (Hfetch : fetch (checkpoint_path prefix) (max_checkpoint_bytes limits) = Ok cb)
    (Htext : utf8_decode cb = Ok text) (Hc : parse_checkpoint text = Ok c) (Hsize : cp_tree_size c = len es)
    (Ha : authenticate_checkpoint c = Ok ()) (Hmax : len es ≤ max_tree_size limits)
    (Htotal : bundles_bytes (bundle_count (len es)) 0 es ≤ max_total_entry_bytes limits) :
  ∃ ev, load fetch authenticate_checkpoint limits prefix = Ok ev ∧ se_checkpoint ev = c
    ∧ map ie_data (se_entries ev) = es ∧ se_complete ev = true.
Proof.
  destruct (load_honest _ _ _ _ _ _ _ _ Hserves Hfetch Htext Hc Hsize Ha Hmax Htotal) as (ev & Hl & Hcp & Hes & Hco).
  exists ev. split_and!; [done..| |done]. by rewrite Hes, enumerate_from_data.
Qed.

(** The proof returned with one entry is the RFC 6962 audit path: whatever the
    server answered, [read_entry] at [index] returns the scanned entry at that
    index and a proof that [verify_inclusion] accepts under the root of the
    scanned entries. *)
Theorem proven_entry_verifies (fetch : str → Z → res bytes) (authenticate_checkpoint : Checkpoint → res unit)
    (limits : C2spScanLimits) (reference : ParsedC2spTlogLr) (index : Z) (p : C2spProvenEntry)
    (Hread : read_entry fetch authenticate_checkpoint limits reference index = Ok p) :
  ∃ ev t, load_stream fetch authenticate_checkpoint limits reference (lr_stream_id reference) = Ok ev
    ∧ pe_checkpoint p = se_checkpoint_bytes ev ∧ pe_index p = index
    ∧ map ie_data (se_entries ev) !! Z.to_nat index = Some (pe_entry_bytes p)
    ∧ rfc_tree (map ie_data (se_entries ev)) t ∧ pe_inclusion_proof p = rfc_path t (Z.to_nat index)
    ∧ verify_inclusion (pe_entry_bytes p) index (cp_tree_size (se_checkpoint ev))
        (merkle_root_from_entries (map ie_data (se_entries ev))) (pe_inclusion_proof p) = Ok true.
Proof.
  unfold read_entry in Hread. bind_step Hread as ev Hl.
  pose proof Hl as (_ & _ & _ & _ & _ & es & total & Hes & Hlen & _)%load_cases.
  destruct (proven_entry_ok ev es index p Hes Hread) as (Hi & Hd & Hrange & Hp & Hcp). assert (es ≠ []) as Hne by (intros E; by rewrite E in Hd).
  destruct (rfc_tree_total es) as [t Ht]; [done|]. exists ev, t. rewrite Hes, enumerate_from_data, Hp, <- Hlen.
  split_and!; [done..| |].
  - apply level_path_rfc; [done|unfold len in Hrange; lia|apply pow2_ge].
  - pose proof (level_path_accepted es _ _ Hd) as Hacc. by rewrite Z2Nat.id in Hacc by lia.
Qed.

(** A public source is accepted only with every capability declared. *)
Theorem public_read_requires_all (declared : option (res (option C2spResourceFetchGuarantees))) :
  enforce_public_read_guarantees declared = Ok () ↔ declared = Some (Ok (Some safe_fetcher_guarantees)).
Proof.
  unfold enforce_public_read_guarantees. destruct declared as [[[g|]|e]|]; cbn [default from_option mbind result_bind id]; [|naive_solver..].
  destruct g as [[] [] [] [] []]; cbn; naive_solver.
Qed.

(** ** Witnesses: a log of three entries *)
Section witnesses.
Local Definition three : list bytes := [[1]; [2]; [3]].
Local Definition three_text : str := lit "log.example
3
Tma7GofIpKaeLpsP1dUADz5C2K8y8bLDWHvQeEdKZ04=
".
Local Definition serve_three (path : str) (_ : Z) : res bytes :=
  if path ==? lit "/checkpoint" then Ok three_text
  else if path ==? lit "/tile/entries/000.p/3" then Ok [0; 1; 1; 0; 1; 2; 0; 1; 3]
  else Raise (C2spTlogTransportError (lit "not found") false (Some 404)).
Local Definition accept (_ : Checkpoint) : res unit := Ok ().
Local Definition three_evidence : StreamEvidence :=
  match load serve_three accept default_scan_limits [] with
  | Ok ev => ev
  | Raise _ => {| se_checkpoint := {| cp_origin := []; cp_tree_size := 0; cp_root_hash := []; cp_signatures := []; signed_text := [] |};
                  se_entries := []; se_complete := false; se_checkpoint_bytes := []; se_completeness_mode := [];
                  se_complete_through_size := None; se_response_bytes := None |}
  end.

Lemma scan_complete_witness : map ie_index (se_entries three_evidence) = [0; 1; 2].
Proof.
  apply (scan_complete serve_three accept default_scan_limits [] three_evidence);
    [vm_compute; reflexivity|vm_compute; reflexivity].
Defined.

Lemma serves_three : serves_bundles serve_three default_scan_limits [] three.
Proof.
  intros [|n] path Hn Hp; [|cbn in Hn; lia]. vm_compute in Hp. apply Ok_inj in Hp. subst path.
  exists [0; 1; 1; 0; 1; 2; 0; 1; 3]. split; vm_compute; reflexivity.
Qed.

Lemma scan_honest_log_witness :
  ∃ ev, load serve_three accept default_scan_limits [] = Ok ev ∧ se_checkpoint ev = se_checkpoint three_evidence
    ∧ map ie_data (se_entries ev) = three ∧ se_complete ev = true.
Proof.
  apply (scan_honest_log serve_three accept default_scan_limits [] three_text three three_text);
    [exact serves_three|vm_compute; reflexivity..|vm_compute; discriminate|vm_compute; discriminate].
Defined.

Local Definition three_lr : ParsedC2spTlogLr :=
  {| lr_method := []; lr_scope := []; lr_log_prefix := []; lr_stream_id := []; lr_origin := []; lr_lr := []; lr_entry_index := None |}.

Lemma proven_entry_verifies_witness :
  ∃ ev t, load_stream serve_three accept default_scan_limits three_lr [] = Ok ev
    ∧ rfc_tree (map ie_data (se_entries ev)) t.
Proof.
  destruct (read_entry serve_three accept default_scan_limits three_lr 1) as [p|e] eqn:Hp; [|vm_compute in Hp; discriminate].
  destruct (proven_entry_verifies serve_three accept default_scan_limits three_lr 1 p Hp) as (ev & t & Hl & _ & _ & _ & Ht & _).
  exists ev, t. split; [exact Hl|exact Ht].
Defined.
End witnesses.
