(* ===== verification/Prepared.v ===== *)
(** * Prepared events ([c2sp_tlog/prepared.py])

    Split signing: envelopes that collect the signatures of their roles one
    process at a time, each validating what it received.  Key providers and
    the append function are parameters. *)
From S2P Require Import Prelude Sha256 Errors PyText Base64 Utils Lr PyFloat PyTime Canonical Keys EventCodec StreamVerifier.

(** ** Data *)
Inductive C2spSignerRole : Set := ENTITY | OPERATIONAL_COUNTERSIGNATURE | PREVIOUS_OPERATIONAL | NEW_OPERATIONAL.

#[global] Instance C2spSignerRole_eq_dec : EqDecision C2spSignerRole.
Proof. solve_decision. Defined.

(** [_ROLE_TO_SIGNATURE] and [_SIGNATURE_TO_ROLE] *)
Definition role_signature (r : C2spSignerRole) : string :=
  match r with
  | ENTITY => "ae" | OPERATIONAL_COUNTERSIGNATURE => "op"
  | PREVIOUS_OPERATIONAL => "prev_op" | NEW_OPERATIONAL => "new_op"
  end.
Definition signature_role (name : string) : res C2spSignerRole :=
  if String.eqb name "ae" then Ok ENTITY
  else if String.eqb name "op" then Ok OPERATIONAL_COUNTERSIGNATURE
  else if String.eqb name "prev_op" then Ok PREVIOUS_OPERATIONAL
  else if String.eqb name "new_op" then Ok NEW_OPERATIONAL
  else Raise (KeyError (lit name)).

Definition required_signer_roles (type_ : json) : res (list C2spSignerRole) :=
  names ← required_c2sp_signature_names type_; mapM_res signature_role names.

Record C2spChain : Set := {
  sequence : Z;
  previous_event_id : option str;
  previous_state_hash : option str
}.

Record C2spVerificationContext : Set := {
  vc_entity_key : option JWK;
  vc_previous_operational_key : option JWK;
  vc_operational_key : option JWK;
  vc_fqdn : option str;
  vc_gi : option str;
  vc_new_lr : option str
}.

Record PreparedC2spTlogEvent : Set := {
  pe_reference : ParsedC2spTlogLr;
  pe_envelope : list (str * json);
  pe_signed_bytes : bytes;
  pe_required_signatures : list C2spSignerRole
}.

(** What a [KeyProvider] offers to signing. *)
Record KeyProvider : Type := {
  kp_jwk : json → res JWK;
  kp_sign_key : json → bytes → res bytes
}.

(** [prepared.event_id] *)
Definition prepared_event_id (p : PreparedC2spTlogEvent) : str := event_id_of (pe_signed_bytes p).

Definition missing_signatures (p : PreparedC2spTlogEvent) : list C2spSignerRole :=
  let present r := match get "sigs" JNull (pe_envelope p) with
                   | JDict sigs => has (role_signature r) sigs
                   | _ => false
                   end in
  List.filter (λ r, negb (present r)) (pe_required_signatures p).

(** [str(envelope.get("type"))]; the text of a value that is not a string is
    not the name of an event type. *)
Definition type_str (d : list (str * json)) : json :=
  match get "type" JNull d with JStr s => JStr s | _ => JStr (lit "None") end.

Definition reference_context (r : ParsedC2spTlogLr) : C2spEventContext :=
  {| ctx_scope := Some (lr_scope r); ctx_log_origin := Some (lr_origin r);
     ctx_stream_id := Some (lr_stream_id r); ctx_lr := Some (lr_lr r);
     ctx_seq := None; ctx_prev_event_id := None; ctx_prev_state_hash := None |}.

Section prepared.
Context `{Platform}.

(** ** Validation *)
Definition bound_reference (lr : str) : res ParsedC2spTlogLr :=
  parsed ← parse_c2sp_tlog_lr netloc_ok str_lower lr;
  raise_if (bool_decide (is_Some (lr_entry_index parsed)))
    (perr "prepared events require a bound reference without @index") ;;
  Ok parsed.

Definition reject_bare_fqdn_writer_stream (reference : ParsedC2spTlogLr) (fqdn : str) : res unit :=
  normalized ← normalize_fqdn idna_encode fqdn true;
  raise_if (lr_stream_id reference ==? normalized)
    (perr "c2sp-tlog writers require an identity-instance stream id, not the bare FQDN").

(** [_as_jwk] of [prepared.py], which lets an empty [kty] pass. *)
Definition prepared_jwk (value : json) (name : string) : res JWK :=
  match value with
  | JDict d =>
      match get "kty" JNull d, get "kid" JNull d, get "alg" JNull d with
      | JStr _, JStr (_ :: _), JStr (_ :: _) => jwk_from_dict value
      | _, _, _ => Raise (perr ("prepared C2SP event has malformed " +:+ name))
      end
  | _ => Raise (perr ("prepared C2SP event missing " +:+ name))
  end.

Definition prepare_chain (event : LogEvent) (reference : ParsedC2spTlogLr) (chain : option C2spChain)
    : res C2spChain :=
  let genesis := {| sequence := 0; previous_event_id := None; previous_state_hash := None |} in
  match ev_body event, chain with
  | IssuanceEvent _ _ _, None => Ok genesis
  | IssuanceEvent _ _ _, Some c =>
      raise_if (negb (sequence c =? 0) || bool_decide (is_Some (previous_event_id c))
                || bool_decide (is_Some (previous_state_hash c)))
        (perr "public ISSUANCE must be an unchained seq=0 event") ;;
      Ok genesis
  | MigrationEvent _ new_log _, None =>
      if new_log ==? lr_lr reference then Ok genesis
      else Raise (perr "public non-genesis event requires prepared chain metadata")
  | _, None => Raise (perr "public non-genesis event requires prepared chain metadata")
  | _, Some c => Ok c
  end.

Definition assert_prepared_envelope (envelope : list (str * json)) (reference : ParsedC2spTlogLr) : res unit :=
  validate_public_fields (JDict envelope) (reference_context reference) ;;
  raise_if (negb (is_int 1 (get "v" JNull envelope)) || negb (is_str "dnsid.lifecycle" (get "kind" JNull envelope)))
    (perr "unsupported C2SP event envelope") ;;
  match get "type" JNull envelope with
  | JStr type_ =>
      required_c2sp_signature_names (JStr type_) ;;
      match get "fqdn" JNull envelope with
      | JStr (_ :: _) => Ok ()
      | _ => Raise (perr "prepared C2SP event missing fqdn")
      end ;;
      match get "ts" JNull envelope with
      | JInt ts => raise_if (ts <? 0) (perr "prepared C2SP event has invalid ts")
      | _ => Raise (perr "prepared C2SP event has invalid ts")
      end ;;
      assert_public_chain_shape envelope ;;
      let genesis := is_int 0 (get "seq" JNull envelope) in
      raise_if (genesis && negb (type_ ==? lit "ISSUANCE") && negb (type_ ==? lit "MIGRATION"))
        (perr "public seq=0 event must be ISSUANCE or inbound MIGRATION") ;;
      raise_if (genesis && (type_ ==? lit "MIGRATION")
                && negb (py_eq (get "new_lr" JNull envelope) (JStr (lr_lr reference))))
        (perr "inbound MIGRATION new_lr must match the bound reference") ;;
      parse_c2sp_signatures (get "sigs" JNull envelope) (JStr type_) false ;;
      Ok ()
  | _ => Raise (perr "prepared C2SP event missing type")
  end.

Definition make_prepared (reference : ParsedC2spTlogLr) (envelope : list (str * json))
    : res PreparedC2spTlogEvent :=
  parse_c2sp_signatures (get "sigs" JNull envelope) (type_str envelope) false ;;
  signed ← canonical_bytes (JDict (pop "sigs" envelope));
  roles ← required_signer_roles (type_str envelope);
  Ok {| pe_reference := reference; pe_envelope := envelope; pe_signed_bytes := signed;
        pe_required_signatures := roles |}.

Definition assert_prepared_integrity (p : PreparedC2spTlogEvent) : res unit :=
  signed ← canonical_bytes (JDict (pop "sigs" (pe_envelope p)));
  raise_if (negb (signed ==? pe_signed_bytes p)) (verr "prepared signed bytes do not match the envelope") ;;
  assert_prepared_envelope (pe_envelope p) (pe_reference p).

(** ** Keys and identity *)
Definition key_for_role (p : PreparedC2spTlogEvent) (role : C2spSignerRole) (ctx : C2spVerificationContext)
    : res JWK :=
  let envelope := pe_envelope p in
  match role with
  | ENTITY =>
      if is_str "ISSUANCE" (get "type" JNull envelope) then
        embedded ← prepared_jwk (get "ek" JNull envelope) "ek";
        other ← match vc_entity_key ctx with
                | None => Ok false
                | Some k => same ← same_thumbprint embedded k; Ok (negb same)
                end;
        raise_if other (verr "ISSUANCE ek does not match the trusted entity key") ;;
        Ok embedded
      else match vc_entity_key ctx with
           | Some k => Ok k
           | None => Raise (verr "Entity signing requires a trusted entity key")
           end
  | OPERATIONAL_COUNTERSIGNATURE => prepared_jwk (get "ku" JNull envelope) "ku"
  | NEW_OPERATIONAL => prepared_jwk (get "new_ku" JNull envelope) "new_ku"
  | PREVIOUS_OPERATIONAL =>
      match vc_previous_operational_key ctx with
      | Some k => Ok k
      | None => Raise (verr "PreviousOperational signing requires the trusted previous operational key")
      end
  end.

Definition assert_same_key (actual expected : JWK) : res unit :=
  if negb (py_eq (jwk_kid actual) (jwk_kid expected)) || negb (py_eq (jwk_alg actual) (jwk_alg expected))
  then Raise (verr "key provider does not match the prepared event")
  else
    same ← same_thumbprint actual expected;
    raise_if (negb same) (verr "key provider does not match the prepared event").

Definition assert_expected_identity (p : PreparedC2spTlogEvent) (ctx : C2spVerificationContext) : res unit :=
  let envelope := pe_envelope p in
  let event_type := get "type" JNull envelope in
  raise_if (pinned_other (vc_fqdn ctx) (get "fqdn" JNull envelope))
    (verr "prepared fqdn does not match the expected identity") ;;
  raise_if (is_str "MIGRATION" event_type && pinned_other (vc_new_lr ctx) (get "new_lr" JNull envelope))
    (verr "prepared MIGRATION new_lr does not match the expected destination") ;;
  if negb (is_str "ISSUANCE" event_type) then
    raise_if (bool_decide (is_Some (vc_gi ctx)))
      (verr "non-ISSUANCE events do not carry gi; verify the trusted stream history")
  else
    raise_if (pinned_other (vc_gi ctx) (get "gi" JNull envelope))
      (verr "prepared ISSUANCE gi does not match the expected identity") ;;
    match vc_operational_key ctx with
    | None => Ok ()
    | Some k =>
        embedded_ku ← prepared_jwk (get "ku" JNull envelope) "ku";
        same ← same_thumbprint embedded_ku k;
        raise_if (negb same) (verr "prepared ISSUANCE ku is not the expected operational key")
    end.

(** One existing signature. *)
Definition verify_existing_signature (p : PreparedC2spTlogEvent) (ctx : C2spVerificationContext)
    (entry : string * C2spSignatureValue) : res unit :=
  let '(name, signature) := entry in
  role ← signature_role name;
  key ← key_for_role p role ctx;
  raise_if (negb (py_eq (JStr (sv_kid signature)) (jwk_kid key)))
    (verr "signature kid does not match the required key") ;;
  ok ← try_except (b ← b64url_decode (sv_sig signature); jwk_verify key (pe_signed_bytes p) b) (λ _, Ok false);
  raise_if (negb ok) (verr "invalid existing signature").

Definition verify_existing_signatures (p : PreparedC2spTlogEvent) (ctx : C2spVerificationContext) : res unit :=
  signatures ← parse_c2sp_signatures (get "sigs" JNull (pe_envelope p)) (type_str (pe_envelope p)) false;
  forM_res (verify_existing_signature p ctx) signatures.

(** ** Operations *)
Definition prepare_event (event : LogEvent) (lr : str) (chain : option C2spChain) : res PreparedC2spTlogEvent :=
  reference ← bound_reference lr;
  reject_bare_fqdn_writer_stream reference (ev_domain event) ;;
  normalized ← prepare_chain event reference chain;
  let context := {| ctx_scope := Some (lr_scope reference); ctx_log_origin := Some (lr_origin reference);
                    ctx_stream_id := Some (lr_stream_id reference); ctx_lr := Some (lr_lr reference);
                    ctx_seq := Some (sequence normalized); ctx_prev_event_id := previous_event_id normalized;
                    ctx_prev_state_hash := previous_state_hash normalized |} in
  envelope ← event_to_c2sp_envelope event context false;
  assert_prepared_envelope envelope reference ;;
  make_prepared reference envelope.

(** [str(envelope.get("fqdn", ""))]: a string by now. *)
Definition fqdn_text (envelope : list (str * json)) : str :=
  match get "fqdn" (JStr []) envelope with JStr s => s | _ => [] end.

Definition parse_prepared_event (data : bytes) (lr : str) (ctx : C2spVerificationContext)
    : res PreparedC2spTlogEvent :=
  assert_entry_size data ;;
  reference ← bound_reference lr;
  obj ← parse_json_no_duplicate_members data;
  assert_canonical_json_bytes data (Some obj) ;;
  match obj with
  | JDict envelope =>
      assert_prepared_envelope envelope reference ;;
      reject_bare_fqdn_writer_stream reference (fqdn_text envelope) ;;
      prepared ← make_prepared reference envelope;
      assert_expected_identity prepared ctx ;;
      verify_existing_signatures prepared ctx ;;
      Ok prepared
  | _ => Raise (perr "prepared C2SP event must be an object")
  end.

Definition parse_prepared_issuance (data : bytes) (ctx : C2spVerificationContext) : res PreparedC2spTlogEvent :=
  assert_entry_size data ;;
  obj ← parse_json_no_duplicate_members data;
  assert_canonical_json_bytes data (Some obj) ;;
  match obj with
  | JDict d =>
      raise_if (negb (is_str "ISSUANCE" (get "type" JNull d)))
        (perr "prepared issuance must be an ISSUANCE object") ;;
      match get "lr" JNull d with
      | JStr lr => reference ← bound_reference lr; parse_prepared_event data (lr_lr reference) ctx
      | _ => Raise (perr "prepared issuance requires a signed lr string")
      end
  | _ => Raise (perr "prepared issuance must be an ISSUANCE object")
  end.

(** The statements a signer must make about the identity it signs for. *)
Definition assert_signing_context (p : PreparedC2spTlogEvent) (role : C2spSignerRole)
    (ctx : C2spVerificationContext) : res unit :=
  let type_ := get "type" JNull (pe_envelope p) in
  match role with
  | ENTITY =>
      if is_str "ISSUANCE" type_ then Ok ()
      else
        raise_if (negb (truthy (vc_fqdn ctx)))
          (verr "Entity signing requires the expected fqdn for non-ISSUANCE events") ;;
        raise_if (is_str "MIGRATION" type_ && negb (truthy (vc_new_lr ctx)))
          (verr "Entity signing a MIGRATION requires the expected new_lr")
  | OPERATIONAL_COUNTERSIGNATURE =>
      raise_if (negb (bool_decide (is_Some (vc_fqdn ctx))) || negb (bool_decide (is_Some (vc_gi ctx)))
                || match vc_entity_key ctx with None => true | Some _ => false end
                || match vc_operational_key ctx with None => true | Some _ => false end)
        (verr "operational countersigning requires the complete expected identity context")
  | _ => Ok ()
  end.

Definition sign_prepared_event (p : PreparedC2spTlogEvent) (role : C2spSignerRole) (provider : KeyProvider)
    (ctx : C2spVerificationContext) (replace_existing : bool) : res PreparedC2spTlogEvent :=
  assert_prepared_integrity p ;;
  raise_if (negb (bool_decide (role ∈ pe_required_signatures p))) (verr "role is not required") ;;
  assert_signing_context p role ctx ;;
  assert_expected_identity p ctx ;;
  verify_existing_signatures p ctx ;;
  let signature_name := role_signature role in
  signatures ← parse_c2sp_signatures (get "sigs" JNull (pe_envelope p)) (type_str (pe_envelope p)) false;
  raise_if (bool_decide (is_Some (sig_of signature_name signatures)) && negb replace_existing)
    (verr "prepared event already has a signature for the role") ;;
  expected_key ← key_for_role p role ctx;
  provider_key ← kp_jwk provider (jwk_kid expected_key);
  assert_same_key provider_key expected_key ;;
  signature ← kp_sign_key provider (jwk_kid expected_key) (pe_signed_bytes p);
  let new_sigs := dict_set (lit signature_name)
                    (sig_object (jwk_kid expected_key) (b64url_encode signature false))
                    (match get "sigs" JNull (pe_envelope p) with JDict d => d | _ => [] end) in
  make_prepared (pe_reference p) (dict_set (lit "sigs") (JDict new_sigs) (pe_envelope p)).

Definition entry_bytes (p : PreparedC2spTlogEvent) (ctx : C2spVerificationContext) : res bytes :=
  assert_prepared_integrity p ;;
  signatures ← parse_c2sp_signatures (get "sigs" JNull (pe_envelope p)) (type_str (pe_envelope p)) true;
  forM_res (λ role, raise_if (negb (bool_decide (is_Some (sig_of (role_signature role) signatures))))
                      (verr "missing required signature")) (pe_required_signatures p) ;;
  verify_existing_signatures p ctx ;;
  data ← canonical_bytes (JDict (pe_envelope p));
  assert_entry_size data ;;
  parse_c2sp_event_entry data (reference_context (pe_reference p)) false ;;
  Ok data.

(** [submit(entry_bytes, idempotency_key)] may return any value. *)
Definition write_prepared_event (p : PreparedC2spTlogEvent) (submit : bytes → str → res json)
    (idempotency_key : str) (validate_chain : option (PreparedC2spTlogEvent → res unit))
    (ctx : C2spVerificationContext) : res (str * str) :=
  raise_if (idempotency_key ==? [])
    (verr "safe c2sp-tlog append requires a non-empty idempotency key") ;;
  data ← entry_bytes p ctx;
  (if is_int 0 (get "seq" JNull (pe_envelope p)) then Ok ()
   else match validate_chain with
        | None => Raise (verr "public non-genesis append requires authoritative chain validation")
        | Some f => f p
        end) ;;
  index ← submit data idempotency_key;
  match index with
  | JInt n =>
      raise_if (n <? 0) (verr "append returned an invalid entry index") ;;
      parse_ledger_ref (lr_lr (pe_reference p) ++ [64] ++ str_of_int n)
  | _ => Raise (verr "append returned an invalid entry index")
  end.
End prepared.
