(* ===== verification/PreparedSpec.v ===== *)
(** * What split signing guarantees

    Signing a role changes nothing but that role's signature, complete entries
    carry verified signatures of every role over the recovered signed bytes,
    and what an operational countersignature does and does not pin. *)
From S2P Require Import Prelude Sha256 Errors PyText Base64 Utils Lr PyFloat PyTime Canonical CanonicalSpec JsonScan JsonRoundtrip Keys EventCodec EventCodecSpec StreamVerifier LifecycleSpec LifecycleDemo Prepared.

Lemma member_dict_set k k' v d :
  member k (dict_set k' v d) = if k' ==? k then Some v else member k d.
Proof.
  induction d as [|[x w] d IH]; cbn; [done|]. destruct (x ==? k') eqn:E; cbn.
  - rewrite eqb_true in E. subst x. by destruct (k' ==? k).
  - rewrite IH. destruct (x ==? k) eqn:E2; [|done]. rewrite eqb_true in E2. subst x.
    rewrite eqb_false in E. by rewrite (proj2 (eqb_false _ _)).
Qed.

Lemma pop_dict_set name v d : pop name (dict_set (lit name) v d) = pop name d.
Proof.
  unfold pop. induction d as [|[x w] d IH]; cbn; [by rewrite eqb_refl|].
  destruct (x ==? lit name) eqn:E; cbn; [by rewrite eqb_refl|]. rewrite E. cbn. by rewrite IH.
Qed.

(** The members of an envelope's [sigs] object. *)
Definition sigs_of (d : list (str * json)) : list (str * json) :=
  match get "sigs" JNull d with JDict s => s | _ => [] end.

Section prepared.
Context `{Platform}.

Lemma integrity_signed p : assert_prepared_integrity p = Ok () →
  canonical_bytes (JDict (pop "sigs" (pe_envelope p))) = Ok (pe_signed_bytes p).
Proof.
  unfold assert_prepared_integrity. intros Hi. bind_step Hi as signed Hs.
  rewrite guard_Ok, negb_false_iff, eqb_true in Hi. destruct Hi as [-> _]. done.
Qed.

Lemma make_prepared_Ok reference envelope p : make_prepared reference envelope = Ok p →
  pe_reference p = reference ∧ pe_envelope p = envelope
  ∧ canonical_bytes (JDict (pop "sigs" envelope)) = Ok (pe_signed_bytes p).
Proof.
  unfold make_prepared. intros Hm. bind_step Hm as u Hu. bind_step Hm as signed Hs. bind_step Hm as roles Hr.
  by injection Hm as <-.
Qed.

(** Signing is additive: [sign_prepared_event] leaves the bound reference, every
    signed member, the signed bytes and so the logical identifier as they were,
    and every other role's signature; it stores one signature for the requested
    role, made by the provider over exactly the signed bytes with the key the
    role requires, and replaces an earlier one only when told to. *)
Theorem signing_is_additive (p p' : PreparedC2spTlogEvent) (role : C2spSignerRole) (provider : KeyProvider)
    (ctx : C2spVerificationContext) (replace_existing : bool)
    (Hsign : sign_prepared_event p role provider ctx replace_existing = Ok p') :
  pe_reference p' = pe_reference p ∧ pop "sigs" (pe_envelope p') = pop "sigs" (pe_envelope p)
  ∧ pe_signed_bytes p' = pe_signed_bytes p ∧ prepared_event_id p' = prepared_event_id p
  ∧ (∀ k, k ≠ lit (role_signature role) → member k (sigs_of (pe_envelope p')) = member k (sigs_of (pe_envelope p)))
  ∧ ∃ key own sig, key_for_role p role ctx = Ok key ∧ kp_jwk provider (jwk_kid key) = Ok own
      ∧ same_thumbprint own key = Ok true ∧ kp_sign_key provider (jwk_kid key) (pe_signed_bytes p) = Ok sig
      ∧ member (lit (role_signature role)) (sigs_of (pe_envelope p'))
        = Some (sig_object (jwk_kid key) (b64url_encode sig false)).
Proof.
  unfold sign_prepared_event in Hsign. rewrite bind_unit_Ok in Hsign. destruct Hsign as [Hi Hsign].
  rewrite guard_Ok, !bind_unit_Ok in Hsign. destruct Hsign as (_ & _ & _ & _ & Hsign).
  bind_step Hsign as signatures Hsigs. rewrite guard_Ok in Hsign. destruct Hsign as [_ Hsign].
  bind_step Hsign as key Hkey. bind_step Hsign as own Hown. rewrite bind_unit_Ok in Hsign. destruct Hsign as [Hsame Hsign].
  bind_step Hsign as sig Hsig. apply integrity_signed in Hi.
  destruct (make_prepared_Ok _ _ _ Hsign) as (Hr & He & Hs). rewrite pop_dict_set in Hs.
  assert (pe_signed_bytes p' = pe_signed_bytes p) as Hsb by congruence.
  assert (sigs_of (pe_envelope p') = dict_set (lit (role_signature role))
            (sig_object (jwk_kid key) (b64url_encode sig false)) (sigs_of (pe_envelope p))) as Hn.
  { rewrite He. unfold sigs_of at 1, get. by rewrite member_dict_set, eqb_refl. }
  split_and!; [done|by rewrite He, pop_dict_set|done|unfold prepared_event_id; congruence| |].
  - intros k Hk. rewrite Hn, member_dict_set. by rewrite (proj2 (eqb_false _ _)).
  - exists key, own, sig. split; [done|]. split; [done|]. split; [|split; [done|by rewrite Hn, member_dict_set, eqb_refl]].
    unfold assert_same_key in Hsame. destruct (negb (py_eq (jwk_kid own) (jwk_kid key)) || _); [done|]. bind_step Hsame as same Hsame'.
    apply raise_if_Ok in Hsame. by destruct same.
Qed.

(** ** Complete entries *)

(** A signature of the role, verified under the key the role requires. *)
Definition role_verified (p : PreparedC2spTlogEvent) (ctx : C2spVerificationContext)
    (signatures : list (string * C2spSignatureValue)) (role : C2spSignerRole) : Prop :=
  ∃ sv key b, sig_of (role_signature role) signatures = Some sv
    ∧ key_for_role p role ctx = Ok key ∧ kid_is (sv_kid sv) key
    ∧ b64url_decode (sv_sig sv) = Ok b ∧ jwk_verify key (pe_signed_bytes p) b = Ok true.

Lemma sig_of_elem name sigs v : sig_of name sigs = Some v → (name, v) ∈ sigs.
Proof.
  induction sigs as [|[k w] sigs IH]; cbn; [done|]. destruct (String.eqb_spec k name) as [->|].
  - intros [= ->]. left.
  - intros Hs. right. auto.
Qed.

Lemma signature_role_name role role' : signature_role (role_signature role) = Ok role' → role' = role.
Proof. by destruct role; intros [= <-]. Qed.

Lemma parse_roles_complete d allowed s : parse_roles d true allowed = Ok s → parse_roles d false allowed = Ok s.
Proof.
  revert s. induction allowed as [|k allowed IH]; intros s; cbn [parse_roles]; [done|].
  destruct (get k JNull d); [done|..]; intros Hs; bind_step Hs as v Hv; bind_step Hs as rest Hr; rewrite Hv; res_cbn;
    rewrite (IH _ Hr); done.
Qed.

Lemma parse_signatures_complete v t s :
  parse_c2sp_signatures v t true = Ok s → parse_c2sp_signatures v t false = Ok s.
Proof.
  unfold parse_c2sp_signatures. destruct v as [| | | | | |d]; try done. intros Hs. bind_step Hs as allowed Ha.
  rewrite guard_Ok in Hs. destruct Hs as [Hg Hs]. rewrite Ha. res_cbn. rewrite Hg. res_cbn. by apply parse_roles_complete.
Qed.

Lemma existing_verified p ctx name sv role : verify_existing_signature p ctx (name, sv) = Ok () →
  name = role_signature role →
  ∃ key b, key_for_role p role ctx = Ok key ∧ kid_is (sv_kid sv) key
    ∧ b64url_decode (sv_sig sv) = Ok b ∧ jwk_verify key (pe_signed_bytes p) b = Ok true.
Proof.
  intros Hv ->. unfold verify_existing_signature in Hv. bind_step Hv as role' Hr. apply signature_role_name in Hr as ->.
  bind_step Hv as key Hk. rewrite guard_Ok, kid_is_eq in Hv. destruct Hv as [Hkid Hv]. bind_step Hv as ok Hok.
  apply raise_if_Ok in Hv. destruct ok; [|done].
  destruct (b64url_decode (sv_sig sv)) as [b|] eqn:Hb; [|done]. cbn [mbind result_bind] in Hok.
  exists key, b. split_and!; [done..|]. by destruct (jwk_verify key (pe_signed_bytes p) b).
Qed.

Lemma signatures_verified p ctx signatures : verify_existing_signatures p ctx = Ok () →
  parse_c2sp_signatures (get "sigs" JNull (pe_envelope p)) (type_str (pe_envelope p)) false = Ok signatures →
  ∀ role sv, sig_of (role_signature role) signatures = Some sv → role_verified p ctx signatures role.
Proof.
  unfold verify_existing_signatures. intros Hv Hp role sv Hs. rewrite Hp in Hv. cbn [mbind result_bind] in Hv.
  apply forM_res_Ok in Hv. rewrite Forall_forall in Hv. pose proof (Hv _ (sig_of_elem _ _ _ Hs)) as Hv'.
  destruct (existing_verified _ _ _ _ role Hv' eq_refl) as (key & b & H1 & H2 & H3 & H4).
  exists sv, key, b. done.
Qed.

(** Complete entries are fully signed: if [entry_bytes] returns, every required
    role has a signature that verifies under the key the envelope or the trusted
    context assigns to the role, the returned bytes parse as a lifecycle event
    of the bound stream with well-formed chain fields, and the bytes a verifier
    will recover from them, and their logical identifier, are the ones that
    were signed. *)
Theorem entry_bytes_sound (p : PreparedC2spTlogEvent) (ctx : C2spVerificationContext) (data : bytes)
    (Hplain : plain (JDict (pe_envelope p))) (Hok : entry_bytes p ctx = Ok data) :
  (∃ signatures,
     parse_c2sp_signatures (get "sigs" JNull (pe_envelope p)) (type_str (pe_envelope p)) true = Ok signatures
     ∧ ∀ role, role ∈ pe_required_signatures p → role_verified p ctx signatures role)
  ∧ (∃ e, parse_c2sp_event_entry data (reference_context (pe_reference p)) false = Ok e)
  ∧ signed_c2sp_entry_bytes data = Ok (pe_signed_bytes p)
  ∧ c2sp_event_id data = Ok (prepared_event_id p).
Proof.
  unfold entry_bytes in Hok. rewrite bind_unit_Ok in Hok. destruct Hok as [Hi Hok].
  bind_step Hok as signatures Hs. rewrite !bind_unit_Ok in Hok. destruct Hok as (Hall & Hv & Hok).
  bind_step Hok as b Hb. rewrite bind_unit_Ok in Hok. destruct Hok as [Hsize Hok]. bind_step Hok as e He. injection Hok as ->.
  assert (signed_c2sp_entry_bytes data = Ok (pe_signed_bytes p)) as Hsb.
  { rewrite (signed_of_canonical (pe_envelope p)) by done. by apply integrity_signed. }
  split_and!; [|eauto|done|unfold c2sp_event_id; by rewrite Hsb].
  exists signatures. split; [done|]. intros role Hrole. apply forM_res_Ok in Hall. rewrite Forall_forall in Hall.
  specialize (Hall role Hrole). apply raise_if_Ok in Hall. rewrite negb_false_iff, bool_decide_eq_true in Hall.
  destruct Hall as [sv Hsv]. eapply signatures_verified; [done|by apply parse_signatures_complete|done].
Qed.

(** ** Operational countersignatures *)

(** What a countersigner gets for its context: an operational countersignature is
    only made over an ISSUANCE-shaped identity with the expected FQDN and
    governance id, whose operational key has the expected thumbprint; and when
    the entity's signature is already present it verifies under the embedded
    entity key, which has the thumbprint of the expected one. *)
Theorem countersignature_pins (p p' : PreparedC2spTlogEvent) (provider : KeyProvider)
    (ctx : C2spVerificationContext) (replace_existing : bool)
    (Htype : is_str "ISSUANCE" (get "type" JNull (pe_envelope p)) = true)
    (Hsign : sign_prepared_event p OPERATIONAL_COUNTERSIGNATURE provider ctx replace_existing = Ok p') :
  ∃ fqdn gi entity_key operational_key ku,
    vc_fqdn ctx = Some fqdn ∧ get "fqdn" JNull (pe_envelope p) = JStr fqdn
    ∧ vc_gi ctx = Some gi ∧ get "gi" JNull (pe_envelope p) = JStr gi
    ∧ vc_operational_key ctx = Some operational_key
    ∧ prepared_jwk (get "ku" JNull (pe_envelope p)) "ku" = Ok ku ∧ same_thumbprint ku operational_key = Ok true
    ∧ vc_entity_key ctx = Some entity_key
    ∧ (∀ signatures sv,
         parse_c2sp_signatures (get "sigs" JNull (pe_envelope p)) (type_str (pe_envelope p)) false = Ok signatures →
         sig_of "ae" signatures = Some sv →
         ∃ ek, prepared_jwk (get "ek" JNull (pe_envelope p)) "ek" = Ok ek ∧ same_thumbprint ek entity_key = Ok true
           ∧ role_verified p ctx signatures ENTITY).
Proof.
  unfold sign_prepared_event in Hsign. rewrite bind_unit_Ok in Hsign. destruct Hsign as [Hi Hsign].
  rewrite guard_Ok, !bind_unit_Ok in Hsign. destruct Hsign as (_ & Hc & Hid & Hv & _).
  unfold assert_signing_context in Hc. apply raise_if_Ok in Hc.
  rewrite !orb_false_iff, !negb_false_iff, !bool_decide_eq_true in Hc. destruct Hc as [[[[fqdn Hf] [gi Hg]] Hek] Hku].
  destruct (vc_entity_key ctx) as [entity_key|] eqn:He; [|done].
  destruct (vc_operational_key ctx) as [operational_key|] eqn:Ho; [|done].
  unfold assert_expected_identity in Hid. rewrite Htype, Hf, Hg, Ho in Hid. cbn [negb] in Hid.
  rewrite !guard_Ok in Hid. destruct Hid as (Hpf & _ & Hpg & Hid).
  cbn [pinned_other] in Hpf, Hpg. rewrite negb_false_iff, py_eq_str in Hpf, Hpg.
  bind_step Hid as ku Hkuj. bind_step Hid as same Hsame. apply raise_if_Ok in Hid. destruct same; [|done].
  exists fqdn, gi, entity_key, operational_key, ku. split_and!; [done..|].
  intros signatures sv Hp Hsv.
  pose proof (signatures_verified p ctx signatures Hv Hp ENTITY sv Hsv) as Hrv. pose proof Hrv as (sv' & key & b & _ & Hk & _).
  unfold key_for_role in Hk. rewrite Htype, He in Hk. bind_step Hk as ek Hekj. exists ek. split; [done|]. split; [|done].
  bind_step Hk as other Hother. rewrite guard_Ok in Hk. destruct Hk as [-> _]. bind_step Hother as same Hst.
  injection Hother as Hn. by destruct same.
Qed.
End prepared.

(** ** Witnesses *)

(** A provider that holds one key. *)
Definition toy_provider (key : JWK) (secret : bytes) : KeyProvider :=
  {| kp_jwk := λ kid, if py_eq kid (jwk_kid key) then Ok key else Raise (ArgumentError (lit "unknown kid"));
     kp_sign_key := λ kid data, Ok (toy_sign secret data) |}.

Definition toy_lr : str := lit "c2sp-tlog:public:https://log.example/dns#abc-1".
Definition toy_signing_context : C2spVerificationContext :=
  {| vc_entity_key := Some entity; vc_previous_operational_key := None; vc_operational_key := Some op1;
     vc_fqdn := Some toy_domain; vc_gi := Some (lit "gi-1"); vc_new_lr := None |}.

Definition empty_prepared : PreparedC2spTlogEvent :=
  {| pe_reference := demo_parsed [] None; pe_envelope := []; pe_signed_bytes := []; pe_required_signatures := [] |}.
Definition or_prepared (m : res PreparedC2spTlogEvent) : PreparedC2spTlogEvent :=
  match m with Ok p => p | Raise _ => empty_prepared end.

Definition toy_prepared (ek : JWK) : PreparedC2spTlogEvent :=
  or_prepared (prepare_event (toy_event 1700000000 [] [] [] (IssuanceEvent (lit "gi-1") (Some ek) (Some op1))) toy_lr None).
Definition prepared0 : PreparedC2spTlogEvent := Eval vm_compute in toy_prepared entity.
Definition prepared1 : PreparedC2spTlogEvent := Eval vm_compute in
  or_prepared (sign_prepared_event prepared0 ENTITY (toy_provider entity entity_bytes) toy_signing_context false).
Definition prepared2 : PreparedC2spTlogEvent := Eval vm_compute in
  or_prepared (sign_prepared_event prepared1 OPERATIONAL_COUNTERSIGNATURE (toy_provider op1 op1_bytes)
                 toy_signing_context false).

Lemma signing_is_additive_witness :
  prepared_event_id prepared2 = prepared_event_id prepared1
  ∧ member (lit "ae") (sigs_of (pe_envelope prepared2)) = member (lit "ae") (sigs_of (pe_envelope prepared1)).
Proof.
  destruct (signing_is_additive prepared1 prepared2 OPERATIONAL_COUNTERSIGNATURE (toy_provider op1 op1_bytes)
    toy_signing_context false) as (_ & _ & _ & H1 & H2 & _); [vm_compute; reflexivity|].
  split; [exact H1|]. apply H2. by_decide.
Defined.

(** The split flow ends in the bytes of the directly signed issuance. *)
Example split_flow_complete : entry_bytes prepared2 toy_signing_context = Ok issuance_data.
Proof. vm_compute. reflexivity. Qed.

Lemma prepared2_plain : plain (JDict (pe_envelope prepared2)).
Proof. solve_plain. Qed.

Lemma entry_bytes_sound_witness :
  signed_c2sp_entry_bytes issuance_data = Ok (pe_signed_bytes prepared2).
Proof.
  destruct (entry_bytes_sound prepared2 toy_signing_context issuance_data) as (_ & _ & H1 & _);
    [apply prepared2_plain|vm_compute; reflexivity|exact H1].
Defined.

Lemma countersignature_pins_witness : get "fqdn" JNull (pe_envelope prepared1) = JStr toy_domain.
Proof.
  destruct (countersignature_pins prepared1 prepared2 (toy_provider op1 op1_bytes) toy_signing_context false)
    as (f & gi & ek & ku & k & [= <-] & H1 & _); [vm_compute; reflexivity..|exact H1].
Defined.

(** An envelope that names another entity key, not signed by anyone yet. *)
Definition foreign_entity : JWK := toy_key "ek-1" (replicate 32 13).
Definition foreign_prepared : PreparedC2spTlogEvent := Eval vm_compute in toy_prepared foreign_entity.

(** The expected entity key is not compared when the entity has not signed yet:
    with the complete expected identity, including the trusted entity key, the
    countersigner signs an issuance that embeds a different entity key, because
    the embedded key is only checked while verifying an existing entity
    signature. *)
Theorem countersign_entity_unpinned :
  (∃ p', sign_prepared_event foreign_prepared OPERATIONAL_COUNTERSIGNATURE (toy_provider op1 op1_bytes)
           toy_signing_context false = Ok p')
  ∧ prepared_jwk (get "ek" JNull (pe_envelope foreign_prepared)) "ek" = Ok foreign_entity
  ∧ same_thumbprint foreign_entity entity = Ok false.
Proof. split; [eexists; vm_compute; reflexivity|]. vm_compute. split; reflexivity. Qed.
