(* ===== verification/StreamBundle.v ===== *)
(** * Stream bundles ([c2sp_tlog/stream_bundle.py])

    Verification of portable bundles, the growth check of trusted checkpoints,
    and the fetching source with its raw-scan fallback.  Network reads, the
    consistency-proof source, the tile check and the accounting callback are
    parameters; the checkpoint store is the in-memory one.  Times are whole
    milliseconds. *)
From S2P Require Import Prelude Sha256 Errors PyText Base64 Utils Merkle SignedNote Policy Lr PyFloat PyTime CheckpointStore HashTiles Canonical Keys EventCodec StreamVerifier StreamSource.

(** ** Data *)
Record C2spStreamBundleVerifierOptions : Type := {
  bo_policy_bytes : bytes;
  bo_bundle_keys : list SignedNoteKey;
  bo_entity_key : JWK;
  bo_checkpoint_freshness_ms : Z;
  bo_max_bundle_lifetime_ms : Z;
  bo_max_bundle_bytes : Z;
  bo_max_events : Z;
  bo_max_tree_size : Z;
  bo_max_clock_skew_ms : Z;
  bo_consistency_source : option (ParsedC2spTlogLr → Z → Z → res (list bytes));
  bo_now_ms : Z
}.

(** The [migration_results] are the values of the pure [verify_migration] on
    the events, so they are not stored apart. *)
Record VerifiedC2spStreamBundle : Set := {
  vb_reference : ParsedC2spTlogLr;
  vb_checkpoint : Checkpoint;
  vb_events : list VerifiedLifecycleEvent;
  vb_logged_state : str;
  vb_active_operational_thumbprint : str;
  vb_expires : Z;
  vb_bundle_signer_kid : str;
  vb_fqdn : str;
  vb_checkpoint_witness_time : Z;
  vb_checkpoint_bytes : bytes
}.

(** ** Strict members *)
Definition exact_object (value : json) (members : list string) (name : string) : res (list (str * json)) :=
  match value with
  | JDict d =>
      raise_if (negb (forallb (λ kv, existsb (λ m, kv.1 ==? lit m) members) d)
                || negb (forallb (λ m, has m d) members))
        (perr (name +:+ " must contain exactly its required members")) ;;
      Ok d
  | _ => Raise (perr (name +:+ " must contain exactly its required members"))
  end.

(** [_string] *)
Definition string_value (value : json) (name : string) : res str :=
  match value with JStr s => Ok s | _ => Raise (perr (name +:+ " must be a string")) end.

Definition safe_int (value : json) (name : string) : res Z :=
  match value with
  | JInt z =>
      raise_if ((z <? 0) || (MAX_SAFE_INT <? z)) (perr (name +:+ " must be a non-negative safe integer")) ;;
      Ok z
  | _ => Raise (perr (name +:+ " must be a non-negative safe integer"))
  end.

Fixpoint assert_all_safe_integers (value : json) : res unit :=
  match value with
  | JBool _ | JNull | JStr _ => Ok ()
  | JInt z => safe_int (JInt z) "stream bundle integer" ;; Ok ()
  | JList l => forM_res assert_all_safe_integers l
  | JDict d => forM_res (λ kv, assert_all_safe_integers kv.2) d
  | JFloat _ => Raise (perr "stream bundle values must be I-JSON integers or strings")
  end.

Definition decode_b64 (value : json) (name : string) (allow_empty : bool) : res bytes :=
  text ← string_value value name;
  if allow_empty && (text ==? []) then Ok []
  else
    decoded ← try_except (b64url_decode_strict text)
      (λ e, if is_value_error e then Raise (perr (name +:+ " is not canonical unpadded base64url"))
            else Raise e);
    raise_if (negb (b64url_encode decoded false ==? text))
      (perr (name +:+ " is not canonical unpadded base64url")) ;;
    Ok decoded.

Definition bundle_kid (key : SignedNoteKey) : option str :=
  match key_id key with
  | Some id => if len id =? 4 then Some (key_name key ++ [43] ++ bytes_hex id) else None
  | None => None
  end.

(** ** Events *)

Definition parse_bundle_event (checkpoint : Checkpoint) (previous_index : Z) (raw : json) : res IndexedEntry :=
  event ← exact_object raw ["index"; "entry"; "proof"]%string "stream bundle event";
  index ← safe_int (get "index" JNull event) "event.index";
  raise_if ((index <=? previous_index) || (cp_tree_size checkpoint <=? index))
    (verr "stream bundle event indexes must be unique, increasing, and in range") ;;
  entry ← decode_b64 (get "entry" JNull event) "event.entry" false;
  proof_bytes ← decode_b64 (get "proof" JNull event) "event.proof" true;
  raise_if (negb ((1 <=? len entry) && (len entry <=? 65535)))
    (verr "stream bundle event entry size is invalid") ;;
  raise_if (negb (len proof_bytes mod 32 =? 0) || (64 <? len proof_bytes / 32))
    (verr "stream bundle event proof length is invalid") ;;
  ok ← verify_inclusion entry index (cp_tree_size checkpoint) (cp_root_hash checkpoint)
         (chunks (length proof_bytes) proof_bytes);
  raise_if (negb ok) (verr "invalid stream bundle inclusion proof") ;;
  Ok {| ie_index := index; ie_data := entry |}.

Fixpoint parse_and_verify_events (checkpoint : Checkpoint) (previous_index : Z) (raw_events : list json)
    : res (list IndexedEntry) :=
  match raw_events with
  | [] => Ok []
  | raw :: raw_events =>
      entry ← parse_bundle_event checkpoint previous_index raw;
      rest ← parse_and_verify_events checkpoint (ie_index entry) raw_events;
      Ok (entry :: rest)
  end.

Definition logged_state (events : list VerifiedLifecycleEvent) : res str :=
  match last events with
  | None => Raise (IndexError (lit "list index out of range"))
  | Some v =>
      Ok (match ev_body (vl_event v) with
          | RevocationEvent _ => lit "REVOKED"
          | RetirementEvent => lit "RETIRED"
          | _ => lit "ACTIVE"
          end)
  end.

Definition active_operational_thumbprint
    (verify_migration : option (LogEvent → res MigrationVerificationResult))
    (events : list VerifiedLifecycleEvent) : res str :=
  let step active v :=
    match ev_body (vl_event v), verify_migration with
    | IssuanceEvent _ _ ku, _ => ku
    | MigrationEvent _ _ _, Some f =>
        match f (vl_event v) with Ok m => Some (mr_operational_key m) | Raise _ => active end
    | KeyRotationEvent _ _ _ _ _ k _, _ => k
    | _, _ => active
    end in
  match foldl step None events with
  | None => Raise (verr "stream bundle replay did not establish an operational key")
  | Some k => thumbprint k
  end.

(** ** Checkpoint growth *)
Definition verify_checkpoint_prefix (entries : list IndexedEntry) (tree_size : Z) (root_hash : bytes) : res unit :=
  let prefix := prefix_slice tree_size entries in
  raise_if (negb (len prefix =? tree_size)
            || negb (bool_decide (map ie_index prefix = map Z.of_nat (seq 0 (length prefix)))))
    (verr_cat "complete scan does not contain the checkpoint prefix" INVALID_EVIDENCE) ;;
  raise_if (negb (merkle_root_from_entries (map ie_data prefix) ==? root_hash))
    (verr_cat "complete scan prefix does not match the checkpoint" INVALID_EVIDENCE).

Definition verified_complete_scan_entries (evidence : StreamEvidence) : res (list IndexedEntry) :=
  raise_if (negb (se_complete evidence))
    (verr_cat "stream bundle consistency fallback requires a complete raw scan" INVALID_EVIDENCE) ;;
  raise_if (existsb (λ e, ie_index e <? 0) (se_entries evidence))
    (verr_cat "complete raw scan contains an invalid index" INVALID_EVIDENCE) ;;
  let entries := sort_entries (se_entries evidence) in
  raise_if (negb (len entries =? cp_tree_size (se_checkpoint evidence)))
    (verr_cat "complete raw scan length does not match its checkpoint" INVALID_EVIDENCE) ;;
  verify_checkpoint_prefix entries (cp_tree_size (se_checkpoint evidence)) (cp_root_hash (se_checkpoint evidence)) ;;
  Ok entries.

Section growth.
Context (reference : ParsedC2spTlogLr) (complete_entries : option (list IndexedEntry))
  (consistency_source : option (ParsedC2spTlogLr → Z → Z → res (list bytes)))
  (tile_consistency : option (ParsedC2spTlogLr → TrustedCheckpoint → TrustedCheckpoint → res unit)).

(** The nested [_verify], run by the store under the origin's lock. *)
Definition verify_growth (candidate : TrustedCheckpoint) (stored : option TrustedCheckpoint) : res unit :=
  stored ← stored_checkpoint stored (lr_origin reference);
  match complete_entries with
  | Some l => verify_checkpoint_prefix (sort_entries l) (tc_tree_size candidate) (tc_root_hash candidate)
  | None => Ok ()
  end ;;
  match stored with
  | None => Ok ()
  | Some stored =>
      raise_if (tc_tree_size candidate <? tc_tree_size stored)
        (consistency_error "stream bundle checkpoint regressed below trusted size" LOG_ROLLBACK stored candidate) ;;
      if tc_tree_size stored =? tc_tree_size candidate then
        raise_if (negb (tc_root_hash stored ==? tc_root_hash candidate))
          (consistency_error "stream bundle checkpoint conflicts at trusted size" LOG_FORK stored candidate)
      else if tc_tree_size stored =? 0 then Ok ()
      else
        match complete_entries, consistency_source, tile_consistency with
        | Some l, _, _ =>
            try_except (verify_checkpoint_prefix (sort_entries l) (tc_tree_size stored) (tc_root_hash stored))
              (λ e, if is_c2sp_verification e then
                      Raise (consistency_error
                        "stream bundle checkpoint is not consistent with previously trusted prefix"
                        LOG_INCONSISTENT stored candidate)
                    else Raise e)
        | None, Some fetch_consistency_proof, _ =>
            proof ← fetch_consistency_proof reference (tc_tree_size stored) (tc_tree_size candidate);
            raise_if (negb (verify_consistency (tc_tree_size stored) (tc_tree_size candidate)
                              (tc_root_hash stored) (tc_root_hash candidate) proof))
              (consistency_error "stream bundle checkpoint consistency proof is invalid" LOG_INCONSISTENT
                 stored candidate)
        | None, None, Some check_tiles => check_tiles reference stored candidate
        | None, None, None =>
            Raise (MissingC2spConsistencyEvidenceError
              (lit "stream bundle checkpoint growth requires a consistency-proof source or hash tiles"))
        end
  end.

Definition trusted_of (checkpoint : Checkpoint) (witness_seconds : Z) : TrustedCheckpoint :=
  {| tc_origin := lr_origin reference; tc_tree_size := cp_tree_size checkpoint;
     tc_root_hash := cp_root_hash checkpoint;
     tc_witness_time := {| dt_wall := witness_seconds * 1000000; dt_utcoffset := Some 0 |} |}.

Definition verify_and_advance_checkpoint (check : nat → res unit) (s : gmap (list Z) TrustedCheckpoint)
    (checkpoint : Checkpoint) (witness_seconds : Z) : gmap (list Z) TrustedCheckpoint * res unit :=
  let candidate := trusted_of checkpoint witness_seconds in
  match
    (raise_if ((tc_tree_size candidate =? 0) && negb (tc_root_hash candidate ==? sha256 []))
       (verr_cat "empty checkpoint root must be SHA-256 of the empty string" INVALID_EVIDENCE) ;;
     raise_if (match complete_entries with
               | Some l => existsb (λ e, ie_index e <? 0) l
               | None => false
               end)
       (verr_cat "complete scan contains an invalid index" INVALID_EVIDENCE))
  with
  | Raise e => (s, Raise e)
  | Ok _ => verify_and_advance check s candidate (verify_growth candidate)
  end.
End growth.

(** ** Bundles *)
Definition TOP_LEVEL_MEMBERS : list string :=
  ["v"; "type"; "fqdn"; "lr"; "checkpoint"; "policy_hash"; "complete_through_size"; "completeness_mode";
   "events"; "state"; "expires"; "sig"]%string.

Definition validate_options (o : C2spStreamBundleVerifierOptions) : res unit :=
  raise_if (existsb (λ v, v <? 1)
              [bo_max_bundle_bytes o; bo_max_events o; bo_max_tree_size o;
               bo_checkpoint_freshness_ms o; bo_max_bundle_lifetime_ms o])
    (verr "limit must be a positive integer") ;;
  raise_if (bo_max_clock_skew_ms o <? 0) (verr "max_clock_skew_ms must be a non-negative integer") ;;
  raise_if (bo_bundle_keys o ==? []) (verr "stream bundle verifier requires trusted keys").

(** The only exceptions [utf8_decode] raises are decoding errors. *)
Definition parse_policy (policy_bytes : bytes) : res C2spTlogPolicy :=
  text ← try_except (utf8_decode policy_bytes)
           (λ _, Raise (verr "configured policy bytes are not UTF-8"));
  parse_c2sp_policy_file text.

(** [if exc.category is None: exc.category = INVALID_EVIDENCE] *)
Definition default_category (e : exn) : exn :=
  match e with
  | C2spTlogVerificationError m None i => C2spTlogVerificationError m (Some INVALID_EVIDENCE) i
  | e => e
  end.

Section bundles.
Context `{Platform}.

Definition is_bundle_signer_key (key : SignedNoteKey) : bool :=
  (key_kind key ==? lit "ed25519") && (len (key_bytes key) =? 32)
  && match signature_type key with None => true | Some t => t ==? [1] end.

Definition verify_bundle_signature (obj : list (str * json)) (bundle_keys : list SignedNoteKey)
    (policy : C2spTlogPolicy) (reference : ParsedC2spTlogLr) : res str :=
  sig ← exact_object (get "sig" JNull obj) ["alg"; "kid"; "value"]%string "stream bundle sig";
  raise_if (negb (is_str "EdDSA" (get "alg" JNull sig)))
    (verr "unsupported stream bundle signature algorithm") ;;
  kid ← string_value (get "kid" JNull sig) "sig.kid";
  match List.filter (λ key, bundle_kid key ==? Some kid) bundle_keys with
  | [key] =>
      raise_if (negb (is_bundle_signer_key key)) (verr "stream bundle signer must be Ed25519") ;;
      accepted_policy ← normalized_origin_policy policy (lr_origin reference);
      raise_if (existsb (λ k, key_bytes k ==? key_bytes key)
                  (n_log_keys accepted_policy ++ n_witness_keys accepted_policy))
        (verr "stream bundle signer must be independent of checkpoint policy keys") ;;
      signature ← decode_b64 (get "value" JNull sig) "sig.value" false;
      raise_if (negb (len signature =? 64)) (verr "stream bundle signature must be 64 bytes") ;;
      unsigned ← try_except (canonical_bytes (JDict (pop "sig" obj)))
        (λ e, if is_value_error e then Raise (verr "invalid stream bundle signature") else Raise e);
      raise_if (negb (ed25519_verify (key_bytes key) signature unsigned))
        (verr "invalid stream bundle signature") ;;
      Ok kid
  | _ => Raise (verr "stream bundle signer is not uniquely trusted")
  end.

(** What the head of a bundle establishes: names, policy, checkpoint. *)
Record bundle_head : Set := {
  bh_fqdn : str;
  bh_reference : ParsedC2spTlogLr;
  bh_events : list json;
  bh_policy : C2spTlogPolicy;
  bh_checkpoint_bytes : bytes;
  bh_checkpoint : Checkpoint
}.

Definition bundle_names (obj : list (str * json)) (expected_lr : option str) : res (str * ParsedC2spTlogLr) :=
  raise_if (negb (is_int 1 (get "v" JNull obj)) || negb (is_str "dnsid-c2sp-stream-bundle" (get "type" JNull obj)))
    (perr "unsupported stream bundle type or version") ;;
  fqdn ← string_value (get "fqdn" JNull obj) "fqdn";
  normalized_fqdn ← try_except (normalize_fqdn idna_encode fqdn true)
    (λ _, Raise (perr "invalid stream bundle fqdn"));
  raise_if (negb (fqdn ==? normalized_fqdn)) (perr "stream bundle fqdn must be normalized lowercase") ;;
  lr ← string_value (get "lr" JNull obj) "lr";
  reference ← parse_c2sp_tlog_lr netloc_ok str_lower lr;
  raise_if (negb (lr ==? lr_lr reference)) (perr "stream bundle lr must be a canonical bound reference") ;;
  raise_if (match expected_lr with Some e => negb (lr_lr reference ==? e) | None => false end)
    (verr "stream bundle lr does not match authenticated record") ;;
  Ok (fqdn, reference).

Definition bundle_checkpoint (obj : list (str * json)) (o : C2spStreamBundleVerifierOptions)
    : res (bytes * Checkpoint) :=
  checkpoint_bytes ← decode_b64 (get "checkpoint" JNull obj) "checkpoint" false;
  text ← try_except (utf8_decode checkpoint_bytes) (λ _, Raise (perr "stream bundle checkpoint is not UTF-8"));
  checkpoint ← parse_checkpoint text;
  tree_size ← safe_int (get "complete_through_size" JNull obj) "complete_through_size";
  raise_if (negb (tree_size =? cp_tree_size checkpoint)) (verr "stream bundle checkpoint size mismatch") ;;
  raise_if (bo_max_tree_size o <? tree_size) (verr "stream bundle checkpoint exceeds tree-size maximum") ;;
  raise_if (negb (is_str "trusted-index" (get "completeness_mode" JNull obj)))
    (verr "unsupported stream bundle completeness_mode") ;;
  Ok (checkpoint_bytes, checkpoint).

Definition parse_bundle_head (obj : list (str * json)) (o : C2spStreamBundleVerifierOptions)
    (expected_lr : option str) : res bundle_head :=
  '(fqdn, reference) ← bundle_names obj expected_lr;
  match get "events" JNull obj with
  | JList raw_events =>
      raise_if (negb (nonempty raw_events)) (verr "stream bundle requires events") ;;
      raise_if (bo_max_events o <? len raw_events) (verr "stream bundle exceeds configured event maximum") ;;
      policy ← parse_policy (bo_policy_bytes o);
      policy_hash ← decode_b64 (get "policy_hash" JNull obj) "policy_hash" false;
      raise_if (negb (len policy_hash =? 32) || negb (policy_hash ==? sha256 (bo_policy_bytes o)))
        (verr "stream bundle policy_hash mismatch") ;;
      '(checkpoint_bytes, checkpoint) ← bundle_checkpoint obj o;
      Ok {| bh_fqdn := fqdn; bh_reference := reference; bh_events := raw_events; bh_policy := policy;
            bh_checkpoint_bytes := checkpoint_bytes; bh_checkpoint := checkpoint |}
  | _ => Raise (perr "stream bundle events must be an array")
  end.

(** Policy, freshness: the time of the witness quorum, in seconds. *)
Definition bundle_witness_time (h : bundle_head) (o : C2spStreamBundleVerifierOptions) : res Z :=
  policy_result ← try_except
    (enforce_checkpoint_policy ed25519_verify (bh_checkpoint h) (lr_origin (bh_reference h)) (bh_policy h)
       (lr_scope (bh_reference h)) (bo_now_ms o) (bo_max_clock_skew_ms o))
    (λ e, Raise (default_category e));
  match checkpoint_witness_time policy_result with
  | None =>
      Raise (verr_cat "stream bundle requires an accepted timestamped checkpoint witness quorum" INVALID_EVIDENCE)
  | Some t =>
      raise_if (bo_checkpoint_freshness_ms o <? bo_now_ms o - t * 1000)
        (verr "stream bundle checkpoint is too stale") ;;
      Ok t
  end.

Definition bundle_lifecycle_options (h : bundle_head) (o : C2spStreamBundleVerifierOptions) (unchained : bool)
    (t : Z) (verify_migration : option (LogEvent → res MigrationVerificationResult)) (cutoff_index : option Z)
    : StreamVerifierOptions :=
  let r := bh_reference h in
  {| vo_context := {| ctx_scope := Some (lr_scope r); ctx_log_origin := Some (lr_origin r);
                      ctx_stream_id := Some (lr_stream_id r); ctx_lr := Some (lr_lr r);
                      ctx_seq := None; ctx_prev_event_id := None; ctx_prev_state_hash := None |};
     vo_unchained := unchained; vo_signer_key := Some (bo_entity_key o);
     vo_integration_time_ms := Some (t * 1000 + bo_max_clock_skew_ms o);
     vo_verify_migration := verify_migration; vo_cutoff_index := cutoff_index;
     vo_max_entries := 100000; vo_max_entry_bytes := 64 * 1024 * 1024 |}.

Definition expected_state (verified : list VerifiedLifecycleEvent) (state : str) : json :=
  JDict [(lit "event_count", JInt (len verified));
         (lit "last_event_type", JStr (match last verified with Some v => type_text (vl_event v) | None => [] end));
         (lit "logged_state", JStr state)].

(** Expiry and the final state, once the lifecycle is verified. *)
Definition bundle_result (obj : list (str * json)) (h : bundle_head) (o : C2spStreamBundleVerifierOptions)
    (t : Z) (kid : str) (verify_migration : option (LogEvent → res MigrationVerificationResult))
    (cutoff_index : option Z) (verified : list VerifiedLifecycleEvent) : res VerifiedC2spStreamBundle :=
  raise_if (match cutoff_index, last verified with
            | Some c, Some v => negb (vl_index v =? c)
            | Some _, None => true
            | None, _ => false
            end)
    (verr_cat "MIGRATION prev_ref does not identify the final applied cutoff event" INVALID_MIGRATION) ;;
  state_name ← logged_state verified;
  state ← exact_object (get "state" JNull obj) ["event_count"; "last_event_type"; "logged_state"]%string
            "stream bundle state";
  raise_if (bool_decide (cutoff_index = None) && negb (py_eq (JDict state) (expected_state verified state_name)))
    (verr "stream bundle state does not match replay") ;;
  expires ← safe_int (get "expires" JNull obj) "expires";
  raise_if (expires * 1000 <=? bo_now_ms o) (verr "stream bundle is expired") ;;
  raise_if (bo_max_bundle_lifetime_ms o <? expires * 1000 - t * 1000)
    (verr "stream bundle expiry exceeds configured checkpoint lifetime") ;;
  thumb ← active_operational_thumbprint verify_migration verified;
  Ok {| vb_reference := bh_reference h; vb_checkpoint := bh_checkpoint h; vb_events := verified;
        vb_logged_state := state_name; vb_active_operational_thumbprint := thumb; vb_expires := expires;
        vb_bundle_signer_kid := kid; vb_fqdn := bh_fqdn h; vb_checkpoint_witness_time := t;
        vb_checkpoint_bytes := bh_checkpoint_bytes h |}.

Context (check : list nat → res unit).

(** What the lifecycle of a bundle is verified from. *)
Record bundle_run : Set := {
  br_obj : list (str * json);
  br_head : bundle_head;
  br_time : Z;
  br_kid : str;
  br_entries : list IndexedEntry;
  br_unchained : bool
}.

Definition prepare_bundle (data : bytes) (o : C2spStreamBundleVerifierOptions) (cutoff_index : option Z)
    (expected_lr : option str) : res bundle_run :=
  validate_options o ;;
  raise_if (bo_max_bundle_bytes o <? len data) (verr "stream bundle exceeds configured byte maximum") ;;
  value ← parse_json_no_duplicate_members data;
  assert_canonical_json_bytes data (Some value) ;;
  obj ← exact_object value TOP_LEVEL_MEMBERS "stream bundle";
  assert_all_safe_integers (JDict obj) ;;
  h ← parse_bundle_head obj o expected_lr;
  t ← bundle_witness_time h o;
  kid ← verify_bundle_signature obj (bo_bundle_keys o) (bh_policy h) (bh_reference h);
  entries ← parse_and_verify_events (bh_checkpoint h) (-1) (bh_events h);
  let entries := match cutoff_index with
                 | Some c => List.filter (λ e, ie_index e <=? c) entries
                 | None => entries
                 end in
  p ← normalized_origin_policy (bh_policy h) (lr_origin (bh_reference h));
  Ok {| br_obj := obj; br_head := h; br_time := t; br_kid := kid; br_entries := entries;
        br_unchained := n_unchained p |}.

Definition bundle_run_options (run : bundle_run) (o : C2spStreamBundleVerifierOptions)
    (verify_migration : option (LogEvent → res MigrationVerificationResult)) (cutoff_index : option Z)
    : StreamVerifierOptions :=
  bundle_lifecycle_options (br_head run) o (br_unchained run) (br_time run) verify_migration cutoff_index.

(** Everything before the checkpoint is published. *)
Definition verify_bundle_evidence (data : bytes) (o : C2spStreamBundleVerifierOptions)
    (verify_migration : option (LogEvent → res MigrationVerificationResult)) (cutoff_index : option Z)
    (expected_lr : option str) : res VerifiedC2spStreamBundle :=
  run ← prepare_bundle data o cutoff_index expected_lr;
  verified ← verify_stream_lifecycle_steps (bundle_run_options run o verify_migration cutoff_index) check
    (bh_fqdn (br_head run)) (br_entries run);
  bundle_result (br_obj run) (br_head run) o (br_time run) (br_kid run) verify_migration cutoff_index verified.

(** The MIGRATION handed to the driver, when the caller can verify one. *)
Definition bundle_pause (data : bytes) (o : C2spStreamBundleVerifierOptions) (cutoff_index : option Z)
    (expected_lr : option str) : option LogEvent :=
  match prepare_bundle data o cutoff_index expected_lr with
  | Ok run =>
      lifecycle_pause (bundle_run_options run o (Some (λ _, Raise BudgetExhausted)) cutoff_index) check
        (bh_fqdn (br_head run)) (br_entries run)
  | Raise _ => None
  end.

(** The deadline checks of the store, numbered apart from the others. *)
Definition store_check (branch k : nat) : res unit := check [k; branch; 4]%nat.

(** [_verify_c2sp_stream_bundle]: the evidence, then the checkpoint store. *)
Definition verify_bundle (s : gmap (list Z) TrustedCheckpoint) (data : bytes) (o : C2spStreamBundleVerifierOptions)
    (verify_migration : option (LogEvent → res MigrationVerificationResult)) (cutoff_index : option Z)
    (expected_lr : option str) : gmap (list Z) TrustedCheckpoint * res VerifiedC2spStreamBundle :=
  match verify_bundle_evidence data o verify_migration cutoff_index expected_lr with
  | Raise e => (s, Raise e)
  | Ok b =>
      match verify_and_advance_checkpoint (vb_reference b) None (bo_consistency_source o) None
              (store_check 0) s (vb_checkpoint b) (vb_checkpoint_witness_time b) with
      | (s', Ok _) => (s', Ok b)
      | (s', Raise e) => (s', Raise e)
      end
  end.

(** [verify_c2sp_stream_bundle], decorated by [@verification_operation]. *)
Definition verify_c2sp_stream_bundle (s : gmap (list Z) TrustedCheckpoint) (data : bytes)
    (o : C2spStreamBundleVerifierOptions) : gmap (list Z) TrustedCheckpoint * res VerifiedC2spStreamBundle :=
  match check [2%nat] with
  | Raise e => (s, Raise e)
  | Ok _ =>
      match verify_bundle s data o None None None with
      | (s', Ok b) => (s', check [3%nat] ;; Ok b)
      | (s', Raise e) => (s', Raise e)
      end
  end.

(** ** Fetched bundles ([_FetchedStreamBundleSource]) *)

(** [quote(s, safe='')] *)
Definition upper_hex (n : Z) : Z := if n <? 10 then 48 + n else 55 + n.
Definition quote_byte (b : Z) : str :=
  if is_alnum b || (b =? 95) || (b =? 46) || (b =? 45) || (b =? 126) then [b]
  else [37; upper_hex (b / 16); upper_hex (b mod 16)].
Definition quote (s : str) : res str := b ← utf8_encode s; Ok (concat (quote_byte <$> b)).

Definition bundle_fallback_allowed (status_code : option Z) (transient : bool) : bool :=
  match status_code with
  | Some c => (c =? 404) || (c =? 408) || (c =? 429) || (500 <=? c)
  | None => transient
  end.

Definition stream_evidence_bytes (evidence : StreamEvidence) : Z :=
  Z.max (len (se_checkpoint_bytes evidence) + foldr (λ e a, len (ie_data e) + 2 + a) 0 (se_entries evidence))
        (default 0 (se_response_bytes evidence)).

Definition bundle_endpoint (reference : ParsedC2spTlogLr) (normalized : str) : res str :=
  q ← quote normalized;
  Ok (lr_log_prefix reference ++ lit "/streams/" ++ q ++ lit "?format=bundle").

End bundles.
