(* ===== verification/ReaderState.v ===== *)
(** * State of a verification ([_MigrationBudget] of [c2sp_tlog/reader.py])

    A verification changes the checkpoint stores it is given and the cumulative
    budget of one recursive history.  Both survive an exception, so operations
    are functions from a world to a world and an outcome. *)
From S2P Require Import Prelude Errors PyText CheckpointStore.

(** ** The budget *)
Record C2spMigrationVerificationLimits : Set := {
  max_depth : Z;
  max_history_events : Z;
  max_response_bytes : Z
}.

(** [__post_init__] *)
Definition validate_migration_limits (l : C2spMigrationVerificationLimits) : res unit :=
  raise_if (max_depth l <? 1) (verr "max_depth must be a positive integer") ;;
  raise_if (max_history_events l <? 1) (verr "max_history_events must be a positive integer") ;;
  raise_if (max_response_bytes l <? 1) (verr "max_response_bytes must be a positive integer").

Record MigrationBudget : Set := {
  mb_limits : C2spMigrationVerificationLimits;
  mb_seen : list str;
  mb_history_events : Z;
  mb_response_bytes : Z;
  mb_active : bool
}.

Definition new_budget (limits : C2spMigrationVerificationLimits) (seen : list str) : MigrationBudget :=
  {| mb_limits := limits; mb_seen := seen; mb_history_events := 0; mb_response_bytes := 0; mb_active := false |}.

Definition migration_error (msg : string) : exn := verr_cat msg INVALID_MIGRATION.

Definition enforce (b : MigrationBudget) : res unit :=
  if negb (mb_active b) then Ok ()
  else
    raise_if (max_history_events (mb_limits b) <? mb_history_events b)
      (migration_error "recursive MIGRATION history exceeds configured event maximum") ;;
    raise_if (max_response_bytes (mb_limits b) <? mb_response_bytes b)
      (migration_error "recursive MIGRATION responses exceed configured byte maximum").

(** ** Worlds *)
Abbreviation checkpoints := (gmap (list Z) TrustedCheckpoint) (only parsing).

(** Stores by identity: readers may share one. *)
Record world : Set := { w_stores : gmap nat checkpoints; w_budget : MigrationBudget }.

Definition M (A : Type) : Type := world → world * res A.

#[global] Instance M_ret : MRet M := λ A a w, (w, Ok a).
#[global] Instance M_bind : MBind M := λ A B k m w,
  match m w with
  | (w', Ok a) => k a w'
  | (w', Raise e) => (w', Raise e)
  end.

Definition lift {A} (r : res A) : M A := λ w, (w, r).
Definition get_budget : M MigrationBudget := λ w, (w, Ok (w_budget w)).
Definition put_budget (b : MigrationBudget) : M unit :=
  λ w, ({| w_stores := w_stores w; w_budget := b |}, Ok ()).

(** The change of a budget, then its [_enforce]. *)
Definition update_budget (f : MigrationBudget → MigrationBudget) : M unit :=
  b ← get_budget; put_budget (f b) ;; lift (enforce (f b)).

Definition add_response (size : Z) : M unit := update_budget (λ b,
  {| mb_limits := mb_limits b; mb_seen := mb_seen b; mb_history_events := mb_history_events b;
     mb_response_bytes := mb_response_bytes b + size; mb_active := mb_active b |}).
Definition add_events (count : Z) : M unit := update_budget (λ b,
  {| mb_limits := mb_limits b; mb_seen := mb_seen b; mb_history_events := mb_history_events b + count;
     mb_response_bytes := mb_response_bytes b; mb_active := mb_active b |}).
Definition activate : M unit := update_budget (λ b,
  {| mb_limits := mb_limits b; mb_seen := mb_seen b; mb_history_events := mb_history_events b;
     mb_response_bytes := mb_response_bytes b; mb_active := true |}).

(** [budget.seen.update(...)] *)
Definition see (logs : list str) : M unit := λ w,
  ({| w_stores := w_stores w;
      w_budget := let b := w_budget w in
        {| mb_limits := mb_limits b; mb_seen := logs ++ mb_seen b; mb_history_events := mb_history_events b;
           mb_response_bytes := mb_response_bytes b; mb_active := mb_active b |} |}, Ok ()).

(** An operation of the store [i]. *)
Definition store_of (i : nat) (w : world) : checkpoints := default ∅ (w_stores w !! i).
Definition on_store {A} (i : nat) (f : checkpoints → checkpoints * res A) : M A := λ w,
  let '(s, r) := f (store_of i w) in
  ({| w_stores := <[i := s]> (w_stores w); w_budget := w_budget w |}, r).

(** A generator that waits at most once, for the outcome of [resolve] at the
    event [pause] names; [run] takes that outcome.  The result comes with the
    value recorded for the event. *)
Definition run_paused {E A R} (pause : option E) (resolve : E → M R) (run : (E → res R) → res A) : M (A * option R) :=
  match pause with
  | None => a ← lift (run (λ _, Raise (RuntimeError (lit "unreachable")))); mret (a, None)
  | Some event => λ w,
      let '(w', r) := resolve event w in
      (w', a ← run (λ _, r); Ok (a, match r with Ok x => Some x | Raise _ => None end))
  end.

(** ** Reasoning about runs *)
Lemma M_bind_Ok {A B} (m : M A) (k : A → M B) w w' b : (m ≫= k) w = (w', Ok b) →
  ∃ w1 a, m w = (w1, Ok a) ∧ k a w1 = (w', Ok b).
Proof. unfold mbind, M_bind. destruct (m w) as [w1 [a|e]]; [eauto|discriminate]. Qed.

Lemma lift_Ok {A} (r : res A) w w' a : lift r w = (w', Ok a) → w' = w ∧ r = Ok a.
Proof. unfold lift. by intros [= -> ->]. Qed.

(** What an active budget promises after every successful operation. *)
Definition within_limits (b : MigrationBudget) : Prop :=
  mb_active b = true → mb_history_events b ≤ max_history_events (mb_limits b) ∧ mb_response_bytes b ≤ max_response_bytes (mb_limits b).

Lemma budget_enforce_Ok b : enforce b = Ok () ↔ within_limits b.
Proof.
  unfold enforce, within_limits. destruct (mb_active b); cbn; [|naive_solver].
  rewrite guard_Ok, raise_if_Ok, !Z.ltb_ge. naive_solver.
Qed.

Lemma update_budget_Ok f w w' u : update_budget f w = (w', Ok u) →
  w_budget w' = f (w_budget w) ∧ within_limits (w_budget w') ∧ w_stores w' = w_stores w.
Proof.
  unfold update_budget. intros (w1 & b & Hg & Hx)%M_bind_Ok. unfold get_budget in Hg. injection Hg as <- <-.
  apply M_bind_Ok in Hx as (w2 & ? & Hp & Hx). unfold put_budget in Hp. injection Hp as <- <-.
  apply lift_Ok in Hx as [-> Hx]. destruct u. apply budget_enforce_Ok in Hx. done.
Qed.
