(* ===== verification/Reader.v ===== *)
(** * The log reader ([c2sp_tlog/reader.py])

    Loading and verifying the complete history of a domain from a bundle or a
    scan, recursively through the logs it migrated from, and the checks that
    [LogReader] offers on a verified history.  Times are whole milliseconds and
    the clock stands still during one operation; network reads are parameters.
    The asynchronous methods run the same steps. *)
From S2P Require Import Prelude Sha256 Errors PyText Base64 Utils Merkle SignedNote Policy TlogProof Lr PyFloat PyTime CheckpointStore HashTiles Canonical Keys EventCodec StreamVerifier LifecycleSpec DomainLog ResourceFetcher StreamSource StreamBundle ReaderState.

(** ** Data *)

(** What [_FetchedStreamBundleSource] is configured with: the bounded fetch and
    the raw fallback with its optional tile check. *)
Record bundle_source : Type := {
  bs_fetch : str → Z → res bytes;
  bs_load_stream : ParsedC2spTlogLr → str → res StreamEvidence;
  bs_tile_consistency : option (ParsedC2spTlogLr → TrustedCheckpoint → TrustedCheckpoint → res unit);
  bs_require_bundle : bool
}.

Inductive reader_source : Type :=
| RawSource (load_stream : ParsedC2spTlogLr → str → res StreamEvidence)
| FetchedStreamBundleSource (src : bundle_source) (cfg : C2spStreamBundleVerifierOptions).

(** A reader with the options its operations look at. *)
Record reader_config : Type := {
  rc_parsed : ParsedC2spTlogLr;
  rc_policy : C2spTlogPolicy;
  rc_source : reader_source;
  rc_proofs : list (str * ProofArg);
  rc_unchained : option bool;
  rc_entity_key : option JWK;
  rc_max_clock_skew_ms : Z;
  rc_checkpoint_freshness_ms : option Z;
  rc_max_tree_size : option Z;
  rc_migration_limits : C2spMigrationVerificationLimits;
  rc_store : nat
}.

Record VerifiedCutoffHistory : Set := {
  vc_events : list LogEvent;
  vc_event_refs : list str;
  vc_response_bytes : Z
}.

(** The arguments of [rebuild_history_through]. *)
Record cutoff_request : Set := {
  cr_domain : str;
  cr_final_entry_ref : str;
  cr_entity_key : JWK;
  cr_max_depth : Z;
  cr_max_events : Z;
  cr_max_response_bytes : Z;
  cr_seen : list str
}.

(** A reader of this method, with its [migration_reader_factory], or of another
    one; [None] is an answer of another type. *)
Inductive LogReader : Type :=
| C2spTlogReader (c : reader_config) (factory : option (str → result exn LogReader))
| OtherLogReader (rebuild_history_through : cutoff_request → res (option VerifiedCutoffHistory)).

Inductive boundary : Set := ThroughSize (n : Z) | ThroughRef (ref : str).
Inductive checkpoint_evidence : Set := CheckpointBytes (b : bytes) | ParsedCheckpoint (c : Checkpoint) | NoCheckpoint.

Record VerifiedHistory : Set := {
  vh_events : list LogEvent;
  vh_checkpoint_witness_time : Z;
  vh_complete_through : boundary;
  vh_completeness_mode : str;
  vh_checkpoint : checkpoint_evidence;
  vh_evidence_expires_at : option Z;
  vh_current_stream_events : list VerifiedLifecycleEvent;
  vh_event_refs : list str
}.

(** [category.value] *)
Definition category_name (c : category) : string :=
  match c with
  | CHAIN_CONTINUITY => "CHAIN_CONTINUITY" | DUPLICATE_ISSUANCE => "DUPLICATE_ISSUANCE"
  | INVALID_EVIDENCE => "INVALID_EVIDENCE" | INCOMPLETE_STREAM => "INCOMPLETE_STREAM"
  | INVALID_MIGRATION => "INVALID_MIGRATION" | KEY_CONTINUITY => "KEY_CONTINUITY"
  | TERMINAL_STATE => "TERMINAL_STATE" | LOG_ROLLBACK => "LOG_ROLLBACK" | LOG_FORK => "LOG_FORK"
  | LOG_INCONSISTENT => "LOG_INCONSISTENT" | CHECKPOINT_STORE_ERROR => "CHECKPOINT_STORE_ERROR"
  end.

Definition log_error_cat (msg : str) (c : category) : exn :=
  VerificationError LOG_ERROR msg false (Some (lit (category_name c))).
Definition log_error (msg : string) : exn := log_error_cat (lit msg) INVALID_EVIDENCE.

(** [_adapt_c2sp_error] *)
Definition c2sp_category (e : exn) : category :=
  match e with
  | C2spCheckpointStoreError _ => CHECKPOINT_STORE_ERROR
  | e => default INVALID_EVIDENCE (exn_category e)
  end.
Definition adapt_c2sp_error (e : exn) : exn :=
  VerificationError LOG_ERROR (lit "C2SP log verification failed: " ++ exn_str e)
    (match e with C2spTlogTransportError _ transient _ => transient | _ => false end)
    (Some (lit (category_name (c2sp_category e)))).

(** The handlers of [_verification_boundary]. *)
Definition boundary_error (e : exn) : exn :=
  if is_verification e then e
  else if is_c2sp e then adapt_c2sp_error e
  else match e with
       | OSError _ _ =>
           adapt_c2sp_error (C2spTlogTransportError (lit "C2SP verification resource is unavailable") true None)
       | e => e
       end.

(** [f"{lr}@{index}"] *)
Definition event_ref (lr : str) (index : Z) : str := lr ++ lit "@" ++ str_of_int index.

Definition find_issuance (events : list LogEvent) : option LogEvent := List.find is_issuance events.

Definition issuance_keys (e : LogEvent) : option JWK * option JWK :=
  match ev_body e with IssuanceEvent _ ek ku => (ek, ku) | _ => (None, None) end.
Definition issuance_governance_id (e : LogEvent) : str :=
  match ev_body e with IssuanceEvent gi _ _ => gi | _ => [] end.

Section reader.
Context `{Platform} (now_ms : Z) (check : list nat → res unit).

(** ** Migrated histories *)
Definition stitched_event_refs (lr : str) (events : list VerifiedLifecycleEvent)
    (migration : option MigrationVerificationResult) : res (list str) :=
  let current := map (λ item, event_ref lr (vl_index item)) events in
  match events with
  | first :: _ =>
      if is_migration (vl_event first) then
        match migration with
        | Some m =>
            raise_if (negb (len (mr_prior_event_refs m) =? len (mr_prior_events m)))
              (migration_error "MIGRATION verification did not preserve prior-log event references") ;;
            Ok (mr_prior_event_refs m ++ current)
        | None => Raise (migration_error "MIGRATION verification did not preserve prior-log event references")
        end
      else Ok current
  | [] => Ok current
  end.

(** The same hand-off. *)
Definition same_migration (a b : LogEvent) : bool :=
  (ev_domain a ==? ev_domain b)
  && match ev_body a, ev_body b with
     | MigrationEvent p n f, MigrationEvent p' n' f' => (p ==? p') && (n ==? n') && (f ==? f')
     | _, _ => false
     end.

Definition mig_error (msg : string) : exn := log_error_cat (lit msg) INVALID_MIGRATION.

Definition stitch_migration_history (domain : str) (events : list LogEvent)
    (migration : option MigrationVerificationResult) : res (list LogEvent) :=
  match events with
  | first :: _ =>
      if is_migration first then
        match migration with
        | Some m =>
            raise_if (match mr_prior_events m with [] => true | _ => false end)
              (mig_error "MIGRATION verification did not return complete prior-log history") ;;
            raise_if (existsb (λ prior, same_migration prior first) (mr_prior_events m))
              (mig_error "MIGRATION prior-log history contains the inbound migration") ;;
            at_ ← max_timestamp (mr_prior_events m);
            snapshot ← snapshot_at domain (mr_prior_events m) at_;
            active ← (if bool_decide (ds_historical_state snapshot = Active)
                      then t ← thumbprint (mr_operational_key m); Ok (ds_active_key_thumbprint snapshot ==? t)
                      else Ok false);
            raise_if (negb active)
              (mig_error "MIGRATION prior-log history does not establish the recovered active key") ;;
            known ← match find_issuance (mr_prior_events m) with
                    | Some i =>
                        match (issuance_keys i).1 with
                        | Some ek => same_thumbprint ek (mr_entity_key m)
                        | None => Ok false
                        end
                    | None => Ok false
                    end;
            raise_if (negb known)
              (mig_error "MIGRATION prior-log history does not establish the recovered entity key") ;;
            Ok (mr_prior_events m ++ events)
        | None => Raise (mig_error "MIGRATION verification did not return complete prior-log history")
        end
      else Ok events
  | [] => Ok events
  end.

Definition assert_cutoff (events : list VerifiedLifecycleEvent) (cutoff_index : option Z) : res unit :=
  raise_if (match cutoff_index, last events with
            | Some c, Some v => negb (vl_index v =? c)
            | Some _, None => true
            | None, _ => false
            end)
    (migration_error "MIGRATION prev_ref does not identify the final applied cutoff event").

(** [_prior_result] *)
Definition prior_result (domain : str) (trusted : JWK) (prior : VerifiedHistory) : res MigrationVerificationResult :=
  snapshot ← snapshot_at domain (vh_events prior) {| dt_wall := datetime_max; dt_utcoffset := Some 0 |};
  let bad := migration_error "MIGRATION previous history must preserve an ACTIVE identity" in
  match find_issuance (vh_events prior) with
  | None => Raise bad
  | Some issuance =>
      match (issuance_keys issuance).1 with
      | None => Raise bad
      | Some ek =>
          raise_if (negb (bool_decide (ds_historical_state snapshot = Active))
                    || negb (issuance_governance_id issuance ==? ds_governance_id snapshot)) bad ;;
          same ← same_thumbprint ek trusted;
          raise_if (negb same) (migration_error "MIGRATION entity-key continuity mismatch") ;;
          Ok {| mr_entity_key := ek; mr_operational_key := ds_active_key snapshot;
                mr_prior_events := vh_events prior; mr_prior_event_refs := vh_event_refs prior |}
      end
  end.

(** ** Readers of other methods *)

(** The loop over the migrations of a predecessor's history: the logs seen, and
    the log reached. *)
Fixpoint follow_migrations (seen : list str) (current_log : option str) (migrations : list LogEvent)
    : res (list str * option str) :=
  match migrations with
  | [] => Ok (seen, current_log)
  | event :: migrations =>
      match ev_body event with
      | MigrationEvent previous_log new_log _ =>
          seen ← match current_log with
                 | None =>
                     raise_if (bool_decide (previous_log ∈ seen)) (migration_error "MIGRATION cycle") ;;
                     Ok (previous_log :: seen)
                 | Some log =>
                     raise_if (negb (previous_log ==? log))
                       (migration_error "MIGRATION previous history is not a continuous log handoff") ;;
                     Ok seen
                 end;
          raise_if (bool_decide (new_log ∈ seen)) (migration_error "MIGRATION cycle") ;;
          follow_migrations (new_log :: seen) (Some new_log) migrations
      | _ => follow_migrations seen current_log migrations
      end
  end.

(** [_validate_predecessor_history]; the logs it adds to those seen. *)
Definition validate_predecessor_history (previous_log final_entry_ref : str) (history : option VerifiedCutoffHistory)
    (b : MigrationBudget) (depth max_events max_response : Z) : res (VerifiedCutoffHistory * list str) :=
  match history with
  | None => Raise (migration_error "MIGRATION previous reader returned invalid cutoff evidence")
  | Some h =>
      raise_if (match vc_events h with [] => true | _ => false end
                || (max_events <? len (vc_events h))
                || negb (len (vc_event_refs h) =? len (vc_events h))
                || existsb (λ ref, ref ==? []) (vc_event_refs h)
                || negb (last (vc_event_refs h) ==? Some final_entry_ref)
                || (vc_response_bytes h <? 0) || (max_response <? vc_response_bytes h))
        (migration_error "MIGRATION previous reader did not preserve the exact cutoff or bounds") ;;
      let migrations := List.filter is_migration (vc_events h) in
      raise_if (max_depth (mb_limits b) <? depth + 1 + len migrations)
        (migration_error "MIGRATION recursion exceeds configured depth maximum") ;;
      '(seen, current_log) ← follow_migrations (List.filter (λ l, negb (l ==? previous_log)) (mb_seen b)) None migrations;
      raise_if (match current_log with Some l => negb (l ==? previous_log) | None => false end)
        (migration_error "MIGRATION previous history does not end in prev_lr") ;;
      Ok (h, seen)
  end.

Definition external_prior (previous_log final_entry_ref : str) (history : option VerifiedCutoffHistory)
    (depth remaining_events remaining_bytes : Z) : M VerifiedHistory :=
  b ← get_budget;
  '(h, seen) ← lift (validate_predecessor_history previous_log final_entry_ref history b depth remaining_events remaining_bytes);
  see seen ;;
  add_response (vc_response_bytes h) ;;
  add_events (len (vc_events h)) ;;
  mret {| vh_events := vc_events h; vh_checkpoint_witness_time := datetime_min / 1000000;
          vh_complete_through := ThroughRef final_entry_ref; vh_completeness_mode := lit "verified-cutoff";
          vh_checkpoint := NoCheckpoint; vh_evidence_expires_at := None; vh_current_stream_events := [];
          vh_event_refs := vc_event_refs h |}.

(** [_prior_cutoff]: the index of the entry the migration names. *)
Definition prior_cutoff (previous_log final_entry_ref reader_lr : str) : res Z :=
  '(previous, cutoff) ← try_except
    (p ← parse_c2sp_tlog_lr netloc_ok str_lower previous_log;
     c ← parse_c2sp_tlog_lr netloc_ok str_lower final_entry_ref; Ok (p, c))
    (λ e, if is_c2sp e then Raise (migration_error "MIGRATION previous-log reference is invalid") else Raise e);
  let bad := migration_error "MIGRATION prev_ref must exactly identify an entry in prev_lr" in
  match lr_entry_index previous, lr_entry_index cutoff with
  | None, Some index =>
      raise_if (negb (previous_log ==? lr_lr previous) || negb (lr_lr cutoff ==? lr_lr previous)
                || negb (final_entry_ref ==? event_ref (lr_lr previous) index)
                || negb (reader_lr ==? lr_lr previous)) bad ;;
      Ok index
  | _, _ => Raise bad
  end.

(** [_prior_reader] *)
Definition prior_reader (lr : str) (factory : option (str → result exn LogReader)) (depth : Z)
    (previous_log new_log final_entry_ref : str) : M LogReader :=
  activate ;;
  lift (raise_if (negb (new_log ==? lr)) (migration_error "MIGRATION new_lr does not match the current C2SP stream")) ;;
  '(previous_method, cutoff_method) ← lift (try_except
    ('(a, _) ← parse_ledger_ref previous_log; '(b, _) ← parse_ledger_ref final_entry_ref; Ok (a, b))
    (λ e, match e with
          | ParseError _ => Raise (migration_error "MIGRATION previous-log reference is invalid")
          | e => Raise e
          end));
  lift (raise_if (negb (previous_method ==? cutoff_method))
          (migration_error "MIGRATION prev_ref must identify an entry in prev_lr")) ;;
  b ← get_budget;
  lift (raise_if (max_depth (mb_limits b) <=? depth)
          (migration_error "MIGRATION recursion exceeds configured depth maximum")) ;;
  lift (raise_if (bool_decide (previous_log ∈ mb_seen b)) (migration_error "MIGRATION cycle")) ;;
  match factory with
  | None => lift (Raise (migration_error "MIGRATION requires a registered previous-log reader"))
  | Some factory => see [previous_log] ;; lift (factory previous_log)
  end.

(** ** One reader *)
Section config.
Context (c : reader_config).
Local Abbreviation lr := (lr_lr (rc_parsed c)).

Definition reader_context (p : ParsedC2spTlogLr) : C2spEventContext :=
  {| ctx_scope := Some (lr_scope p); ctx_log_origin := Some (lr_origin p); ctx_stream_id := Some (lr_stream_id p);
     ctx_lr := Some lr; ctx_seq := None; ctx_prev_event_id := None; ctx_prev_state_hash := None |}.

Definition reader_unchained (origin : str) : res bool :=
  match rc_unchained c with
  | Some b => Ok b
  | None => p ← normalized_origin_policy (rc_policy c) origin; Ok (n_unchained p)
  end.

Definition reader_verifier_options (p : ParsedC2spTlogLr) (signer_key : JWK) (witness_seconds : Z)
    : res StreamVerifierOptions :=
  unchained ← reader_unchained (lr_origin p);
  Ok {| vo_context := reader_context p; vo_unchained := unchained; vo_signer_key := Some signer_key;
        vo_integration_time_ms := Some (witness_seconds * 1000 + rc_max_clock_skew_ms c);
        vo_verify_migration := None; vo_cutoff_index := None; vo_max_entries := 100000;
        vo_max_entry_bytes := 64 * 1024 * 1024 |}.

(** The options of [_scan_history_steps]. *)
Definition scan_options (opts : StreamVerifierOptions) (verify_migration : LogEvent → res MigrationVerificationResult)
    (cutoff_index : option Z) : StreamVerifierOptions :=
  {| vo_context := vo_context opts; vo_unchained := vo_unchained opts; vo_signer_key := vo_signer_key opts;
     vo_integration_time_ms := vo_integration_time_ms opts; vo_verify_migration := Some verify_migration;
     vo_cutoff_index := cutoff_index; vo_max_entries := vo_max_entries opts;
     vo_max_entry_bytes := vo_max_entry_bytes opts |}.

(** [_authenticate_checkpoint] *)
Definition authenticate_checkpoint (checkpoint : Checkpoint) : res CheckpointPolicyResult :=
  try_except
    (enforce_checkpoint_policy ed25519_verify checkpoint (lr_origin (rc_parsed c)) (rc_policy c)
       (lr_scope (rc_parsed c)) now_ms (rc_max_clock_skew_ms c))
    (λ e, Raise (default_category e)).

(** [_prepare_scan]: the witness time of the scanned checkpoint. *)
Definition prepare_scan (evidence : StreamEvidence) : M Z :=
  add_response (stream_evidence_bytes evidence) ;;
  lift (
    raise_if (match rc_max_tree_size c with Some m => m <? cp_tree_size (se_checkpoint evidence) | None => false end)
      (log_error "checkpoint tree size exceeds configured maximum") ;;
    raise_if (negb (se_complete evidence))
      (log_error_cat (lit "C2SP stream source is incomplete for current-state verification") INCOMPLETE_STREAM) ;;
    policy_result ← authenticate_checkpoint (se_checkpoint evidence);
    match checkpoint_witness_time policy_result with
    | None => Raise (log_error "C2SP lifecycle timestamps require an accepted timestamped witness quorum")
    | Some t => verified_complete_scan_entries evidence ;; Ok t
    end).

(** The check that [_enforce_append_only_consistency] runs under the lock of the
    store. *)
Definition verify_append_only (evidence : StreamEvidence) (candidate : TrustedCheckpoint)
    (stored : option TrustedCheckpoint) : res unit :=
  stored ← stored_checkpoint stored (lr_origin (rc_parsed c));
  match stored with
  | None => Ok ()
  | Some stored =>
      raise_if (tc_tree_size candidate <? tc_tree_size stored)
        (consistency_error "C2SP checkpoint tree size regressed: rollback or fork" LOG_ROLLBACK stored candidate) ;;
      raise_if ((tc_tree_size stored =? tc_tree_size candidate) && negb (tc_root_hash stored ==? tc_root_hash candidate))
        (consistency_error "C2SP checkpoint is not consistent: different root at trusted size" LOG_FORK stored candidate) ;;
      raise_if (negb (merkle_root_from_entries
                        (map ie_data (prefix_slice (tc_tree_size stored) (sort_entries (se_entries evidence))))
                      ==? tc_root_hash stored))
        (consistency_error
           "C2SP checkpoint is not consistent with the trusted checkpoint: the trusted tree is not a prefix (fork)"
           LOG_INCONSISTENT stored candidate)
  end.

Definition enforce_append_only_consistency (path : list nat) (evidence : StreamEvidence) (witness_seconds : Z) : M unit :=
  let candidate := trusted_of (rc_parsed c) (se_checkpoint evidence) witness_seconds in
  on_store (rc_store c) (λ s,
    verify_and_advance (λ k, check (k :: path)) s candidate (verify_append_only evidence candidate)).

(** [_scan_history_steps], with its pause resolved. *)
Definition scan_history (path : list nat) (evidence : StreamEvidence) (domain : str) (trusted : JWK)
    (cutoff_index : option Z) (witness_seconds : Z) (verify_migration : LogEvent → M MigrationVerificationResult)
    : M VerifiedHistory :=
  opts ← lift (reader_verifier_options (rc_parsed c) trusted witness_seconds);
  let entries := match cutoff_index with
                 | Some i => List.filter (λ e, ie_index e <=? i) (se_entries evidence)
                 | None => se_entries evidence
                 end in
  let here := λ p, check (p ++ path) in
  '(verified, migration) ← run_paused
    (lifecycle_pause (scan_options opts (λ _, Raise BudgetExhausted) cutoff_index) here domain entries)
    verify_migration
    (λ f, verify_stream_lifecycle_steps (scan_options opts f cutoff_index) here domain entries);
  lift (assert_cutoff verified cutoff_index) ;;
  add_events (len verified) ;;
  events ← lift (stitch_migration_history domain (map vl_event verified) migration);
  refs ← lift (stitched_event_refs lr verified migration);
  mret {| vh_events := events; vh_checkpoint_witness_time := witness_seconds;
          vh_complete_through := ThroughSize (cp_tree_size (se_checkpoint evidence));
          vh_completeness_mode := if se_completeness_mode evidence ==? [] then lit "full-scan" else se_completeness_mode evidence;
          vh_checkpoint := if se_checkpoint_bytes evidence ==? [] then ParsedCheckpoint (se_checkpoint evidence)
                           else CheckpointBytes (se_checkpoint_bytes evidence);
          vh_evidence_expires_at := None; vh_current_stream_events := verified; vh_event_refs := refs |}.

(** [_bundle_history] *)
Definition bundle_history (bundle : VerifiedC2spStreamBundle) (migration : option MigrationVerificationResult)
    (domain : str) (cutoff_index : option Z) : M VerifiedHistory :=
  lift (raise_if (negb (lr_lr (vb_reference bundle) ==? lr))
          (verr "stream bundle lr does not exactly match authenticated record")) ;;
  lift (assert_cutoff (vb_events bundle) cutoff_index) ;;
  add_events (len (vb_events bundle)) ;;
  events ← lift (stitch_migration_history domain (map vl_event (vb_events bundle)) migration);
  expires ← lift (fromtimestamp_utc (vb_expires bundle));
  refs ← lift (stitched_event_refs lr (vb_events bundle) migration);
  mret {| vh_events := events; vh_checkpoint_witness_time := vb_checkpoint_witness_time bundle;
          vh_complete_through := ThroughSize (cp_tree_size (vb_checkpoint bundle));
          vh_completeness_mode := lit "trusted-index";
          vh_checkpoint := if vb_checkpoint_bytes bundle ==? [] then ParsedCheckpoint (vb_checkpoint bundle)
                           else CheckpointBytes (vb_checkpoint_bytes bundle);
          vh_evidence_expires_at := Some (vb_expires bundle); vh_current_stream_events := vb_events bundle;
          vh_event_refs := refs |}.

(** *** [_FetchedStreamBundleSource] *)

(** The bytes of the bundle, or [None] to use the fallback. *)
Definition fetch_bundle (src : bundle_source) (o : C2spStreamBundleVerifierOptions) (endpoint : str)
    : res (option bytes) :=
  match bs_fetch src endpoint (bo_max_bundle_bytes o) with
  | Ok data => Ok (Some data)
  | Raise (C2spTlogTransportError m transient status_code) =>
      if negb (bs_require_bundle src) && bundle_fallback_allowed status_code transient then Ok None
      else Raise (C2spTlogTransportError m transient status_code)
  | Raise e => Raise e
  end.

(** [_verifier_options]: the configured limits, without a consistency source. *)
Definition verifier_options (cfg : C2spStreamBundleVerifierOptions) (entity_key : JWK)
    : C2spStreamBundleVerifierOptions :=
  {| bo_policy_bytes := bo_policy_bytes cfg; bo_bundle_keys := bo_bundle_keys cfg; bo_entity_key := entity_key;
     bo_checkpoint_freshness_ms := bo_checkpoint_freshness_ms cfg;
     bo_max_bundle_lifetime_ms := bo_max_bundle_lifetime_ms cfg; bo_max_bundle_bytes := bo_max_bundle_bytes cfg;
     bo_max_events := bo_max_events cfg; bo_max_tree_size := bo_max_tree_size cfg;
     bo_max_clock_skew_ms := bo_max_clock_skew_ms cfg; bo_consistency_source := None;
     bo_now_ms := now_ms |}.

(** [verify_and_advance_checkpoint] on the reader's store. *)
Definition advance_verified (path : list nat) (b : VerifiedC2spStreamBundle) (entries : option (list IndexedEntry))
    (tiles : option (ParsedC2spTlogLr → TrustedCheckpoint → TrustedCheckpoint → res unit)) : M unit :=
  on_store (rc_store c) (λ s,
    verify_and_advance_checkpoint (vb_reference b) entries None tiles (λ i, check (i :: path)) s
      (vb_checkpoint b) (vb_checkpoint_witness_time b)).

(** Publication in the long-lived store, with a complete raw scan in place of
    missing consistency evidence. *)
Definition publish_bundle (path : list nat) (src : bundle_source) (reference : ParsedC2spTlogLr) (fqdn : str)
    (b : VerifiedC2spStreamBundle) : M unit := λ w,
  match advance_verified (1%nat :: path) b None (bs_tile_consistency src) w with
  | (w', Raise (MissingC2spConsistencyEvidenceError m)) =>
      if bs_require_bundle src || bool_decide (is_Some (bs_tile_consistency src))
      then (w', Raise (MissingC2spConsistencyEvidenceError m))
      else
        (evidence ← lift (bs_load_stream src reference fqdn);
         add_response (stream_evidence_bytes evidence) ;;
         complete_entries ← lift (verified_complete_scan_entries evidence);
         advance_verified (2%nat :: path) b (Some complete_entries) None) w'
  | r => r
  end.

(** [load_verified_bundle]: the bundle is first verified against an empty
    store, then published in the long-lived one. *)
Definition load_verified_bundle (path : list nat) (src : bundle_source) (cfg : C2spStreamBundleVerifierOptions)
    (domain : str) (entity_key : JWK) (verify_migration : LogEvent → M MigrationVerificationResult)
    (cutoff_index : option Z) : M (option (VerifiedC2spStreamBundle * option MigrationVerificationResult)) :=
  let reference := rc_parsed c in
  let o := verifier_options cfg entity_key in
  normalized ← lift (normalize_fqdn idna_encode domain true);
  endpoint ← lift (bundle_endpoint reference normalized);
  fetched ← lift (fetch_bundle src o endpoint);
  match fetched with
  | None => mret None
  | Some data =>
      add_response (len data) ;;
      let here := λ p, check (p ++ path) in
      '(verified, migration) ← run_paused
        (bundle_pause here data o cutoff_index (Some (lr_lr reference)))
        verify_migration
        (λ f, (verify_bundle here ∅ data o (Some f) cutoff_index (Some (lr_lr reference))).2);
      lift (raise_if (negb (vb_fqdn verified ==? normalized))
              (verr "stream bundle fqdn does not match requested domain")) ;;
      publish_bundle path src reference domain verified ;;
      mret (Some (verified, migration))
  end.

(** *** [_load_complete_history], without the cache *)
Definition load_scan (path : list nat) (load_stream : ParsedC2spTlogLr → str → res StreamEvidence) (domain : str)
    (trusted : JWK) (cutoff_index : option Z) (verify_migration : LogEvent → M MigrationVerificationResult)
    : M VerifiedHistory :=
  evidence ← lift (load_stream (rc_parsed c) domain);
  witness_time ← prepare_scan evidence;
  enforce_append_only_consistency (0%nat :: path) evidence witness_time ;;
  scan_history (1%nat :: path) evidence domain trusted cutoff_index witness_time verify_migration.

Definition load_body (path : list nat) (domain : str) (trusted : JWK) (cutoff_index : option Z)
    (verify_migration : LogEvent → M MigrationVerificationResult) : M VerifiedHistory :=
  match rc_source c with
  | RawSource load_stream => load_scan path load_stream domain trusted cutoff_index verify_migration
  | FetchedStreamBundleSource src cfg =>
      bundle ← load_verified_bundle (2%nat :: path) src cfg domain trusted verify_migration cutoff_index;
      match bundle with
      | Some (b, migration) => bundle_history b migration domain cutoff_index
      | None => load_scan path (bs_load_stream src) domain trusted cutoff_index verify_migration
      end
  end.
End config.

(** [_verify_prior_history]: [load] loads the history of a predecessor of this
    method through a cutoff. *)
Definition verify_prior_history (c : reader_config) (factory : option (str → result exn LogReader)) (domain : str)
    (trusted : JWK) (depth : Z) (load : reader_config → option (str → result exn LogReader) → Z → M VerifiedHistory)
    (event : LogEvent) : M MigrationVerificationResult :=
  match ev_body event with
  | MigrationEvent previous_log new_log final_entry_ref =>
      reader ← prior_reader (lr_lr (rc_parsed c)) factory depth previous_log new_log final_entry_ref;
      prior ←
        match reader with
        | C2spTlogReader c' factory' =>
            cutoff ← lift (prior_cutoff previous_log final_entry_ref (lr_lr (rc_parsed c')));
            load c' factory' cutoff
        | OtherLogReader rebuild_history_through =>
            b ← get_budget;
            let remaining_events := max_history_events (mb_limits b) - mb_history_events b in
            let remaining_bytes := max_response_bytes (mb_limits b) - mb_response_bytes b in
            history ← lift (rebuild_history_through
              {| cr_domain := domain; cr_final_entry_ref := final_entry_ref; cr_entity_key := trusted;
                 cr_max_depth := max_depth (mb_limits b) - depth; cr_max_events := remaining_events;
                 cr_max_response_bytes := remaining_bytes; cr_seen := mb_seen b |});
            external_prior previous_log final_entry_ref history depth remaining_events remaining_bytes
        end;
      lift (prior_result domain trusted prior)
  | _ => lift (Raise (TypeError (lit "not a MIGRATION")))
  end.

(** [_load_complete_history] of a log and its predecessors.  Each predecessor is
    one deeper, and no reader goes deeper than the limit, so the limit less the
    depth is enough fuel. *)
Fixpoint load_history (fuel : nat) (c : reader_config) (factory : option (str → result exn LogReader)) (path : list nat)
    (domain : str) (trusted : JWK) (cutoff_index : option Z) (depth : Z) : M VerifiedHistory :=
  load_body c path domain trusted cutoff_index
    (verify_prior_history c factory domain trusted depth (λ c' factory' cutoff,
       match fuel with
       | O => lift (Raise (RuntimeError (lit "unreachable")))
       | S fuel => load_history fuel c' factory' (3%nat :: path) domain trusted (Some cutoff) (depth + 1)
       end)).

Definition depth_fuel (limits : C2spMigrationVerificationLimits) : nat := Z.to_nat (max_depth limits).

(** ** A reader object *)

(** [_history_cache] and [_trusted_entity_key], with the stores outside. *)
Record reader_object : Set := {
  ro_stores : gmap nat checkpoints;
  ro_cache : gmap (list Z * list Z) VerifiedHistory;
  ro_trusted : option JWK
}.

Section object.
Context (c : reader_config) (factory : option (str → result exn LogReader)).

Definition checkpoint_is_stale (witness_seconds : Z) : bool :=
  match rc_checkpoint_freshness_ms c with
  | Some freshness => freshness <? now_ms - witness_seconds * 1000
  | None => false
  end.

Definition assert_fresh (witness_seconds : Z) : res unit :=
  raise_if (bool_decide (rc_checkpoint_freshness_ms c = None))
    (log_error "non-revocation verification requires checkpoint_freshness_ms") ;;
  raise_if (checkpoint_is_stale witness_seconds)
    (log_error "C2SP checkpoint is too stale for non-revocation verification").

(** [_cached_history]: the entry to use, and the cache without an entry that is
    no longer good. *)
Definition cached_history (cache : gmap (list Z * list Z) VerifiedHistory) (key : list Z * list Z) (require_fresh : bool)
    : gmap (list Z * list Z) VerifiedHistory * option VerifiedHistory :=
  match cache !! key with
  | None => (cache, None)
  | Some cached =>
      let expired := match vh_evidence_expires_at cached with Some t => t * 1000 <=? now_ms | None => false end in
      let stale := require_fresh && checkpoint_is_stale (vh_checkpoint_witness_time cached) in
      if negb expired && negb stale then (cache, Some cached) else (delete key cache, None)
  end.

Definition with_cache (o : reader_object) (cache : gmap (list Z * list Z) VerifiedHistory) : reader_object :=
  {| ro_stores := ro_stores o; ro_cache := cache; ro_trusted := ro_trusted o |}.
Definition with_stores (o : reader_object) (s : gmap nat checkpoints) : reader_object :=
  {| ro_stores := s; ro_cache := ro_cache o; ro_trusted := ro_trusted o |}.
Definition with_trusted (o : reader_object) (k : JWK) : reader_object :=
  {| ro_stores := ro_stores o; ro_cache := ro_cache o; ro_trusted := Some k |}.

Definition first_some {A} (a b : option A) : option A := match a with Some x => Some x | None => b end.

(** [_load_complete_history] of the caller's own domain, with the cache. *)
Definition load_complete_history (path : list nat) (domain : str) (entity_key : option JWK) (require_fresh : bool)
    (o : reader_object) : reader_object * res VerifiedHistory :=
  match first_some (first_some entity_key (rc_entity_key c)) (ro_trusted o) with
  | None => (o, Raise (log_error "C2SP lifecycle verification requires a trusted entity key"))
  | Some trusted =>
      match thumbprint trusted with
      | Raise e => (o, Raise e)
      | Ok t =>
          match cached_history (ro_cache o) (domain, t) require_fresh with
          | (cache, Some cached) => (with_cache o cache, Ok cached)
          | (cache, None) =>
              let o := with_cache o cache in
              let limits := rc_migration_limits c in
              match load_history (depth_fuel limits) c factory path domain trusted None 0
                      {| w_stores := ro_stores o; w_budget := new_budget limits [lr_lr (rc_parsed c)] |} with
              | (w, Ok history) =>
                  (with_cache (with_stores o (w_stores w)) (<[(domain, t) := history]> cache), Ok history)
              | (w, Raise e) => (with_stores o (w_stores w), Raise e)
              end
          end
      end
  end.

(** A load in the middle of an operation. *)
Definition then_pure {A} (m : reader_object * res VerifiedHistory) (k : VerifiedHistory → res A) : reader_object * res A :=
  match m with
  | (o, Ok v) => (o, k v)
  | (o, Raise e) => (o, Raise e)
  end.

(** [_verification_boundary]: a deadline test before and after, and the adapted
    errors. *)
Definition at_boundary {A} (path : list nat) (o : reader_object) (op : reader_object → reader_object * res A)
    : reader_object * res A :=
  match check (0%nat :: path) with
  | Raise e => (o, Raise e)
  | Ok _ =>
      match op o with
      | (o', Ok a) => (o', check (1%nat :: path) ;; Ok a)
      | (o', Raise e) => (o', Raise (boundary_error e))
      end
  end.

(** *** Checks of a verified history *)
Definition introduces_key (thumb : str) (e : LogEvent) : res bool :=
  match ev_body e with
  | IssuanceEvent _ _ (Some ku) => t ← thumbprint ku; Ok (t ==? thumb)
  | KeyRotationEvent _ _ _ _ new_thumbprint _ _ => Ok (new_thumbprint ==? thumb)
  | _ => Ok false
  end.

(** [_key_timestamp] *)
Fixpoint key_timestamp_of (events : list LogEvent) (thumb : str) : res datetime :=
  match events with
  | [] => Raise (log_error "key thumbprint not found in C2SP lifecycle history")
  | e :: events => found ← introduces_key thumb e; if found : bool then Ok (ev_timestamp e) else key_timestamp_of events thumb
  end.

Record BilateralBindingResult : Set := {
  bb_initial_operational_thumbprint : str;
  bb_initial_entity_thumbprint : str;
  bb_timestamp : datetime
}.

Definition terminal_error (s : status) : exn :=
  log_error_cat (lit "complete lifecycle history is terminal: " ++ lit (status_name s)) INVALID_EVIDENCE.

(** [any(...)] over the events, up to the first that holds. *)
Fixpoint any_introduces (events : list LogEvent) (thumb : str) : res bool :=
  match events with
  | [] => Ok false
  | e :: events => found ← introduces_key thumb e; if found : bool then Ok true else any_introduces events thumb
  end.

(** [_bilateral_binding]: the first part, up to the assignment of the trusted
    key, ... *)
Definition current_snapshot (domain : str) (events : list LogEvent) : res DomainSnapshot :=
  at_ ← max_timestamp events;
  snapshot_at domain events at_.

Definition binding_head (domain : str) (entity_key : JWK) (v : VerifiedHistory) : res str :=
  initial ← thumbprint entity_key;
  snapshot ← current_snapshot domain (vh_events v);
  raise_if (negb (bool_decide (ds_historical_state snapshot = Active))) (terminal_error (ds_historical_state snapshot)) ;;
  Ok initial.

(** ... and the rest. *)
Definition binding_tail (domain : str) (record_gi : option str) (operational_key : JWK) (initial : str) (v : VerifiedHistory)
    : res BilateralBindingResult :=
  match find_issuance (vh_events v) with
  | None => Raise (log_error "ISSUANCE not found")
  | Some issuance =>
      match issuance_keys issuance with
      | (Some ek, Some ku) =>
          raise_if (negb (ev_domain issuance ==? domain) || negb (Some (issuance_governance_id issuance) ==? record_gi))
            (log_error "ISSUANCE does not match current domain and governance ID") ;;
          te ← thumbprint ek;
          raise_if (negb (te ==? initial)) (log_error "ISSUANCE entity key does not match current ek key") ;;
          current ← thumbprint operational_key;
          recorded ← any_introduces (vh_events v) current;
          raise_if (negb recorded) (log_error "current operational key is not recorded in lifecycle history") ;;
          tu ← thumbprint ku;
          Ok {| bb_initial_operational_thumbprint := tu; bb_initial_entity_thumbprint := initial;
                bb_timestamp := ev_timestamp issuance |}
      | _ => Raise (log_error "ISSUANCE is missing c2sp-tlog key metadata")
      end
  end.

(** [_operational_continuity] *)
Definition operational_continuity (domain initial current : str) (v : VerifiedHistory) : res unit :=
  first ← match find_issuance (vh_events v) with
          | Some e => match (issuance_keys e).2 with
                      | Some ku => t ← thumbprint ku; Ok (t ==? initial)
                      | None => Ok false
                      end
          | None => Ok false
          end;
  raise_if (negb first) (log_error "initial operational key mismatch") ;;
  snapshot ← current_snapshot domain (vh_events v);
  raise_if (negb (bool_decide (ds_historical_state snapshot = Active))) (terminal_error (ds_historical_state snapshot)) ;;
  raise_if (negb (ds_active_key_thumbprint snapshot ==? current)) (log_error "current operational key mismatch").

Record LoggedStateEvidence : Set := {
  le_log_reference : str;
  le_logged_state : status;
  le_history_start : str;
  le_history_end : str;
  le_complete_through : boundary;
  le_completeness_mode : str;
  le_checkpoint : checkpoint_evidence;
  le_freshness_time : Z
}.

(** [_non_revocation] *)
Definition non_revocation (domain : str) (at_ : datetime) (v : VerifiedHistory) : res LoggedStateEvidence :=
  assert_fresh (vh_checkpoint_witness_time v) ;;
  snapshot ← snapshot_at domain (vh_events v) at_;
  raise_if (negb (bool_decide (ds_historical_state snapshot = Active)))
    (log_error_cat (lit "domain " ++ domain ++ lit " was "
                    ++ (lower_ascii <$> lit (status_name (ds_historical_state snapshot)))) INVALID_EVIDENCE) ;;
  raise_if (negb (len (vh_event_refs v) =? len (vh_events v)))
    (log_error "C2SP verified history is missing event references") ;;
  match head (vh_event_refs v), vh_event_refs v !! (length (ds_events snapshot) - 1)%nat with
  | Some first, Some last =>
      Ok {| le_log_reference := lr_lr (rc_parsed c); le_logged_state := ds_historical_state snapshot;
            le_history_start := first; le_history_end := last; le_complete_through := vh_complete_through v;
            le_completeness_mode := vh_completeness_mode v; le_checkpoint := vh_checkpoint v;
            le_freshness_time := vh_checkpoint_witness_time v |}
  | _, _ => Raise (IndexError (lit "list index out of range"))
  end.

(** *** The operations *)
Definition rebuild_history (path : list nat) (domain : str) (o : reader_object) : reader_object * res (list LogEvent) :=
  at_boundary path o (λ o, then_pure (load_complete_history (2%nat :: path) domain None false o) (λ v, Ok (vh_events v))).

Definition preload_history (path : list nat) (domain : str) (entity_key : JWK) (o : reader_object) : reader_object * res unit :=
  at_boundary path o (λ o, then_pure (load_complete_history (2%nat :: path) domain (Some entity_key) false o) (λ _, Ok ())).

(** The signed bytes of an ISSUANCE, the only event this method encodes. *)
Definition canonical (path : list nat) (event : LogEvent) (o : reader_object) : reader_object * res bytes :=
  at_boundary path o (λ o, (o,
    raise_if (negb (is_issuance event)) (log_error "c2sp-tlog events after ISSUANCE require the prepared-event API") ;;
    let context := reader_context c (rc_parsed c) in
    signed_c2sp_event_bytes event
      {| ctx_scope := ctx_scope context; ctx_log_origin := ctx_log_origin context; ctx_stream_id := ctx_stream_id context;
         ctx_lr := ctx_lr context; ctx_seq := Some 0; ctx_prev_event_id := ctx_prev_event_id context;
         ctx_prev_state_hash := ctx_prev_state_hash context |})).

(** [rebuild_history] is itself at the boundary. *)
Definition key_timestamp (path : list nat) (domain thumb : str) (o : reader_object) : reader_object * res datetime :=
  at_boundary path o (λ o,
    match rebuild_history (2%nat :: path) domain o with
    | (o, Ok events) => (o, key_timestamp_of events thumb)
    | (o, Raise e) => (o, Raise e)
    end).

Definition verify_bilateral_binding (path : list nat) (domain : str) (record_gi : option str)
    (entity_key operational_key : JWK) (o : reader_object) : reader_object * res BilateralBindingResult :=
  at_boundary path o (λ o,
    if domain ==? [] then (o, Raise (log_error "cannot infer domain for bilateral binding"))
    else
      match load_complete_history (2%nat :: path) domain (Some entity_key) false o with
      | (o, Raise e) => (o, Raise e)
      | (o, Ok v) =>
          match binding_head domain entity_key v with
          | Raise e => (o, Raise e)
          | Ok initial => (with_trusted o entity_key, binding_tail domain record_gi operational_key initial v)
          end
      end).

Definition verify_operational_continuity (path : list nat) (domain initial current : str) (o : reader_object)
    : reader_object * res unit :=
  at_boundary path o (λ o,
    then_pure (load_complete_history (2%nat :: path) domain None false o) (operational_continuity domain initial current)).

Definition verify_non_revocation (path : list nat) (domain : str) (at_ : datetime) (o : reader_object)
    : reader_object * res LoggedStateEvidence :=
  at_boundary path o (λ o,
    then_pure (load_complete_history (2%nat :: path) domain None true o) (non_revocation domain at_)).

(** *** [rebuild_history_through] *)
Definition cutoff_context (final_entry_ref : str) (limits : C2spMigrationVerificationLimits) (seen : list str)
    : res (Z * MigrationBudget) :=
  cutoff ← parse_c2sp_tlog_lr netloc_ok str_lower final_entry_ref;
  let bad := migration_error "MIGRATION prev_ref must exactly identify an entry in prev_lr" in
  match lr_entry_index cutoff with
  | None => Raise bad
  | Some index =>
      raise_if (negb (lr_lr cutoff ==? lr_lr (rc_parsed c)) || negb (final_entry_ref ==? event_ref (lr_lr (rc_parsed c)) index)) bad ;;
      validate_migration_limits limits ;;
      let b := new_budget limits (lr_lr (rc_parsed c) :: seen) in
      let b := {| mb_limits := limits; mb_seen := mb_seen b; mb_history_events := 0; mb_response_bytes := 0; mb_active := true |} in
      enforce b ;;
      Ok (index, b)
  end.

Definition rebuild_history_through (path : list nat) (r : cutoff_request) (o : reader_object)
    : reader_object * res VerifiedCutoffHistory :=
  at_boundary path o (λ o,
    let limits := {| max_depth := cr_max_depth r; max_history_events := cr_max_events r;
                     max_response_bytes := cr_max_response_bytes r |} in
    match cutoff_context (cr_final_entry_ref r) limits (cr_seen r) with
    | Raise e => (o, Raise e)
    | Ok (index, b) =>
        match load_history (depth_fuel limits) c factory (2%nat :: path) (cr_domain r) (cr_entity_key r) (Some index) 0
                {| w_stores := ro_stores o; w_budget := b |} with
        | (w, Raise e) => (with_stores o (w_stores w), Raise e)
        | (w, Ok history) =>
            (with_stores o (w_stores w),
             raise_if (negb (last (vh_event_refs history) ==? Some (cr_final_entry_ref r)))
               (migration_error "MIGRATION prior history does not end at the signed cutoff") ;;
             Ok {| vc_events := vh_events history; vc_event_refs := vh_event_refs history;
                   vc_response_bytes := mb_response_bytes (w_budget w) |})
        end
    end).

(** *** [read_event] *)
Definition event_reference (ref : str) : res (ParsedC2spTlogLr * Z * ProofArg) :=
  parsed ← parse_c2sp_tlog_lr netloc_ok str_lower ref;
  raise_if (negb (lr_scope parsed ==? lr_scope (rc_parsed c)) || negb (lr_log_prefix parsed ==? lr_log_prefix (rc_parsed c))
            || negb (lr_stream_id parsed ==? lr_stream_id (rc_parsed c)))
    (log_error "C2SP event ref does not belong to this reader") ;;
  match lr_entry_index parsed with
  | None => Raise (log_error "C2SP event ref missing @index")
  | Some index =>
      match dict_get (str_of_int index) (rc_proofs c) with
      | None => Raise (log_error "C2SP read_event requires a proof/source for historical inclusion")
      | Some proof => Ok (parsed, index, proof)
      end
  end.

Definition is_bundle_source : bool :=
  match rc_source c with FetchedStreamBundleSource _ _ => true | RawSource _ => false end.

Definition event_evidence (parsed : ParsedC2spTlogLr) (index : Z) (proof : ProofArg) (trusted : option JWK)
    (evidence : StreamEvidence) : res (IndexedEntry * LogEvent * JWK) :=
  match List.find (λ e, ie_index e =? index) (se_entries evidence) with
  | None => Raise (log_error "C2SP entry not found in source")
  | Some entry =>
      verified_proof ← verify_c2sp_tlog_proof ed25519_verify (ie_data entry) proof (rc_policy c) (Some (lr_origin parsed))
                         (lr_scope parsed) now_ms (rc_max_clock_skew_ms c);
      raise_if (negb (proof_index verified_proof =? index)) (log_error "C2SP proof index mismatch") ;;
      event ← parse_c2sp_event_entry (ie_data entry) (reader_context c parsed) false;
      policy ← enforce_checkpoint_policy ed25519_verify (proof_checkpoint verified_proof) (lr_origin parsed) (rc_policy c)
                 (lr_scope parsed) now_ms (rc_max_clock_skew_ms c);
      match checkpoint_witness_time policy with
      | None => Raise (log_error "C2SP proof timestamp requires an accepted timestamped witness quorum")
      | Some t =>
          raise_if (later_than (ev_timestamp event) (t * 1000 + rc_max_clock_skew_ms c))
            (log_error "C2SP event timestamp is later than its proof checkpoint integration time") ;;
          match first_some (rc_entity_key c) trusted with
          | None => Raise (log_error "C2SP read_event requires a trusted entity key")
          | Some entity_key =>
              raise_if (negb is_bundle_source && negb (se_complete evidence))
                (log_error "C2SP read_event requires complete lifecycle evidence for event authorization") ;;
              Ok (entry, event, entity_key)
          end
      end
  end.

Definition source_load_stream : ParsedC2spTlogLr → str → res StreamEvidence :=
  match rc_source c with RawSource load_stream => load_stream | FetchedStreamBundleSource src _ => bs_load_stream src end.

(** The history that authorises an event read from a raw source. *)
Definition authorise_scan (path : list nat) (evidence : StreamEvidence) (domain : str) (entity_key : JWK) : M (VerifiedHistory * Z) :=
  witness_time ← prepare_scan c evidence;
  enforce_append_only_consistency c (0%nat :: path) evidence witness_time ;;
  history ← scan_history c (1%nat :: path) evidence domain entity_key None witness_time
    (verify_prior_history c factory domain entity_key 0 (λ c' factory' cutoff,
       load_history (depth_fuel (rc_migration_limits c)) c' factory' (3%nat :: path) domain entity_key (Some cutoff) 1));
  mret (history, witness_time).

Definition read_event (path : list nat) (ref : str) (o : reader_object) : reader_object * res LogEvent :=
  at_boundary path o (λ o,
    match
      ('(parsed, index, proof) ← event_reference ref;
       evidence ← source_load_stream parsed (lr_stream_id parsed);
       '(entry, event, entity_key) ← event_evidence parsed index proof (ro_trusted o) evidence;
       Ok (parsed, evidence, entry, event, entity_key))
    with
    | Raise e => (o, Raise e)
    | Ok (parsed, evidence, entry, event, entity_key) =>
        let finish (v : VerifiedHistory) (t : Z) : res LogEvent :=
          opts ← reader_verifier_options c parsed entity_key t;
          item ← verify_occurrence opts entry (vh_current_stream_events v);
          Ok (vl_event item) in
        if is_bundle_source then
          then_pure (load_complete_history (2%nat :: path) (ev_domain event) (Some entity_key) false o)
            (λ v, finish v (vh_checkpoint_witness_time v))
        else
          match authorise_scan (2%nat :: path) evidence (ev_domain event) entity_key
                  {| w_stores := ro_stores o;
                     w_budget := new_budget (rc_migration_limits c) [lr_lr (rc_parsed c)] |} with
          | (w, Raise e) => (with_stores o (w_stores w), Raise e)
          | (w, Ok (v, t)) => (with_stores o (w_stores w), finish v t)
          end
    end).
End object.

(** ** [C2spTlogReader.__init__] *)

(** An injected [C2spTlogSource]: its reads, and what it declares. *)
Record injected_source : Type := {
  is_load_stream : ParsedC2spTlogLr → str → res StreamEvidence;
  is_security_guarantees : option (res (option C2spResourceFetchGuarantees))
}.

Record C2spTlogReaderOptions : Type := {
  op_policy : C2spTlogPolicy;
  op_transport : option injected;
  op_source : option injected_source;
  op_proofs : list (str * ProofArg);
  op_unchained : option bool;
  op_entity_key : option JWK;
  op_max_clock_skew_ms : Z;
  op_checkpoint_freshness_ms : option Z;
  op_max_tree_size : option Z;
  op_scan_limits : option C2spScanLimits;
  op_migration_limits : C2spMigrationVerificationLimits;
  op_checkpoint_store : nat;
  op_bundle_policy_document : option bytes;
  op_bundle_keys : list SignedNoteKey;
  op_bundle_checkpoint_freshness_ms : Z;
  op_max_bundle_lifetime_ms : Z;
  op_max_bundle_bytes : Z;
  op_max_bundle_events : Z;
  op_require_stream_bundle : bool
}.

Definition has_bundle_keys (o : C2spTlogReaderOptions) : bool := match op_bundle_keys o with [] => false | _ => true end.

Definition validate_reader_options (o : C2spTlogReaderOptions) : res unit :=
  raise_if (op_max_clock_skew_ms o <? 0) (verr "max_clock_skew_ms must be a non-negative integer") ;;
  raise_if (match op_checkpoint_freshness_ms o with Some v => v <? 1 | None => false end)
    (verr "checkpoint_freshness_ms must be a positive integer when supplied") ;;
  raise_if (match op_max_tree_size o with Some v => v <? 1 | None => false end)
    (verr "max_tree_size must be a positive integer when supplied") ;;
  raise_if (op_require_stream_bundle o && negb (has_bundle_keys o))
    (verr "require_stream_bundle requires trusted bundle keys") ;;
  (if has_bundle_keys o then
     raise_if (bool_decide (op_bundle_policy_document o = None))
       (verr "stream bundles require the exact trusted policy document") ;;
     raise_if (op_bundle_checkpoint_freshness_ms o <? 1) (verr "bundle_checkpoint_freshness_ms must be a positive integer") ;;
     raise_if (op_max_bundle_lifetime_ms o <? 1) (verr "max_bundle_lifetime_ms must be a positive integer") ;;
     raise_if (op_max_bundle_bytes o <? 1) (verr "max_bundle_bytes must be a positive integer") ;;
     raise_if (op_max_bundle_events o <? 1) (verr "max_bundle_events must be a positive integer")
   else Ok ()) ;;
  raise_if (match op_transport o, op_source o with None, None => true | _, _ => false end)
    (verr "C2spTlogReader requires a transport or C2spTlogSource") ;;
  raise_if (match op_transport o, op_source o with Some _, Some _ => true | _, _ => false end)
    (verr "C2spTlogReader accepts either transport or source, not both") ;;
  raise_if (has_bundle_keys o && match op_source o with Some _ => true | None => false end)
    (verr "stream bundle fetching requires a transport").

(** [kwargs]: the configured limits, with [max_tree_size] on top. *)
Definition effective_limits (o : C2spTlogReaderOptions) : C2spScanLimits :=
  let l := default default_scan_limits (op_scan_limits o) in
  {| max_tree_size := default (max_tree_size l) (op_max_tree_size o); max_checkpoint_bytes := max_checkpoint_bytes l;
     max_entry_bundle_bytes := max_entry_bundle_bytes l; max_total_entry_bytes := max_total_entry_bytes l |}.

(** The configuration with a given source. *)
Definition config_with (parsed : ParsedC2spTlogLr) (o : C2spTlogReaderOptions) (source : reader_source) : reader_config :=
  {| rc_parsed := parsed; rc_policy := op_policy o; rc_source := source; rc_proofs := op_proofs o;
     rc_unchained := op_unchained o; rc_entity_key := op_entity_key o; rc_max_clock_skew_ms := op_max_clock_skew_ms o;
     rc_checkpoint_freshness_ms := op_checkpoint_freshness_ms o; rc_max_tree_size := op_max_tree_size o;
     rc_migration_limits := op_migration_limits o; rc_store := op_checkpoint_store o |}.

Definition no_source : reader_source := RawSource (λ _ _, Raise (RuntimeError (lit "unreachable"))).

(** The deadline tests of one fetch are told apart by its URL. *)
Definition transport_bytes (transport : injected) (url : str) (maximum : Z) : res bytes :=
  source_bytes (λ p, check (p ++ map Z.to_nat url)) transport url maximum.

(** The scanner over the transport, which authenticates with the reader's policy. *)
Definition scan_load_stream (parsed : ParsedC2spTlogLr) (o : C2spTlogReaderOptions) (transport : injected)
    : ParsedC2spTlogLr → str → res StreamEvidence :=
  load_stream (transport_bytes transport)
    (λ checkpoint, authenticate_checkpoint (config_with parsed o no_source) checkpoint ;; Ok ()) (effective_limits o).

Definition scan_tile_consistency (o : C2spTlogReaderOptions) (transport : injected) (tick : tile_moment → res unit)
    : ParsedC2spTlogLr → TrustedCheckpoint → TrustedCheckpoint → res unit :=
  verify_checkpoint_consistency (transport_bytes transport) (effective_limits o) tick (tick AtEnd) (tick AtEnd).

Definition bundle_config (o : C2spTlogReaderOptions) (policy_document : bytes) (entity_key : JWK) : C2spStreamBundleVerifierOptions :=
  {| bo_policy_bytes := policy_document; bo_bundle_keys := op_bundle_keys o; bo_entity_key := entity_key;
     bo_checkpoint_freshness_ms := op_bundle_checkpoint_freshness_ms o;
     bo_max_bundle_lifetime_ms := op_max_bundle_lifetime_ms o; bo_max_bundle_bytes := op_max_bundle_bytes o;
     bo_max_events := op_max_bundle_events o; bo_max_tree_size := max_tree_size (effective_limits o);
     bo_max_clock_skew_ms := op_max_clock_skew_ms o; bo_consistency_source := None; bo_now_ms := now_ms |}.

(** The source of the reader and what it declares.  [dummy] stands for the
    entity key of the configuration, which each read replaces. *)
Definition reader_source_of (parsed : ParsedC2spTlogLr) (o : C2spTlogReaderOptions) (tick : tile_moment → res unit) (dummy : JWK)
    : res (reader_source * option (res (option C2spResourceFetchGuarantees))) :=
  match op_source o, op_transport o with
  | Some source, _ => Ok (RawSource (is_load_stream source), is_security_guarantees source)
  | None, None => Raise (verr "C2spTlogReader requires a transport")
  | None, Some transport =>
      validate_scan_limits (effective_limits o) ;;
      if negb (has_bundle_keys o) then
        Ok (RawSource (scan_load_stream parsed o transport), Some (security_guarantees transport))
      else
        raise_if (bool_decide (¬ is_Some (in_fetch_bounded transport)))
          (verr "stream bundles require a bounded resource fetcher") ;;
        match op_bundle_policy_document o with
        | None => Raise (verr "stream bundles require a policy document")
        | Some document =>
            Ok (FetchedStreamBundleSource
                  {| bs_fetch := transport_bytes transport; bs_load_stream := scan_load_stream parsed o transport;
                     bs_tile_consistency := Some (scan_tile_consistency o transport tick);
                     bs_require_bundle := op_require_stream_bundle o |}
                  (bundle_config o document dummy),
                Some (default (Raise (AttributeError (lit "security_guarantees"))) (in_security_guarantees transport)))
        end
  end.

Definition init_reader (lr : str) (o : C2spTlogReaderOptions) (tick : tile_moment → res unit) (dummy : JWK) : res reader_config :=
  parsed ← parse_c2sp_tlog_lr netloc_ok str_lower lr;
  raise_if (bool_decide (is_Some (lr_entry_index parsed)))
    (verr "C2spTlogReader requires a bound log reference without @index") ;;
  validate_reader_options o ;;
  '(source, declared) ← reader_source_of parsed o tick dummy;
  (if lr_scope parsed ==? public then enforce_public_read_guarantees declared else Ok ()) ;;
  Ok (config_with parsed o source).
End reader.
