(* ===== verification/ReaderSpec.v ===== *)
(** * What the reader promises

    Trust only grows, whatever fails; the recursion through previous logs ends
    within its limits; and the bounds hold of every history returned. *)
From S2P Require Import Prelude Sha256 Errors PyText Base64 Utils Merkle SignedNote Policy TlogProof Lr PyFloat PyTime CheckpointStore HashTiles Canonical Keys EventCodec StreamVerifier LifecycleSpec StreamSpec DomainLog ResourceFetcher StreamSource StreamBundle ReaderState Reader.

(** ** How the world changes *)

(** A store that was well formed stays so and keeps every origin at a checkpoint
    that is as large, and equal in root at equal size. *)
Definition trust_grows (s s' : checkpoints) : Prop :=
  wf_store s → wf_store s' ∧ ∀ o c, s !! o = Some c → ∃ c', s' !! o = Some c' ∧ advances (Some c) c'.

Record evolves (w w' : world) : Prop := {
  ev_limits : mb_limits (w_budget w') = mb_limits (w_budget w);
  ev_active : mb_active (w_budget w) = true → mb_active (w_budget w') = true;
  ev_seen : ∀ l, l ∈ mb_seen (w_budget w) → l ∈ mb_seen (w_budget w');
  ev_events : mb_history_events (w_budget w) ≤ mb_history_events (w_budget w');
  ev_stores : ∀ i, trust_grows (store_of i w) (store_of i w')
}.

Lemma trust_grows_refl s : trust_grows s s.
Proof. intros Hwf. split; [done|]. intros o c Hc. exists c. split; [done|]. split; [lia|done]. Qed.

Lemma trust_grows_trans s1 s2 s3 : trust_grows s1 s2 → trust_grows s2 s3 → trust_grows s1 s3.
Proof.
  intros H1 H2 Hwf. destruct (H1 Hwf) as [Hwf2 Hs1]. destruct (H2 Hwf2) as [Hwf3 Hs2]. split; [done|].
  intros o c Hc. destruct (Hs1 _ _ Hc) as (c2 & Hc2 & [Hle Heq]). destruct (Hs2 _ _ Hc2) as (c3 & Hc3 & [Hle' Heq']).
  exists c3. split; [done|]. split; [lia|]. intros E. rewrite Heq by lia. apply Heq'. lia.
Qed.

#[global] Instance evolves_preorder : PreOrder evolves.
Proof.
  split.
  - intros w. constructor; [done..|lia|]. intros i. apply trust_grows_refl.
  - intros w1 w2 w3 [] []. constructor; [congruence|auto..|lia|]. intros i. by eapply trust_grows_trans.
Qed.

Lemma verify_and_advance_grows check s candidate verify : trust_grows s (verify_and_advance check s candidate verify).1.
Proof.
  intros Hwf. destruct (verify_and_advance check s candidate verify) as [s' r] eqn:Hv. cbn [fst].
  destruct (verify_and_advance_cases _ _ _ _ _ _ Hwf Hv) as (Hwf' & Hother & Hr). split; [done|]. intros o c Hc.
  destruct r as [u|e]; [|subst s'; by apply trust_grows_refl].
  destruct Hr as (x & _ & _ & [[Hx Hadv]|[-> _]]); [|by apply trust_grows_refl].
  destruct (decide (o = tc_origin candidate)) as [->|Hne]; [|rewrite Hother by done; by apply trust_grows_refl].
  exists x. split; [done|]. by rewrite Hc in Hadv.
Qed.

(** ** Operations that only move the world forward *)
Definition Evolving {A} (m : M A) : Prop := ∀ w, evolves w (m w).1.

Create HintDb evolve.

Lemma evolving_bind {A B} (m : M A) (k : A → M B) : Evolving m → (∀ a, Evolving (k a)) → Evolving (m ≫= k).
Proof.
  intros Hm Hk w. unfold mbind, M_bind. specialize (Hm w). destruct (m w) as [w1 [a|e]]; cbn in *; [|done].
  etrans; [exact Hm|]. apply Hk.
Qed.

Lemma evolving_lift {A} (r : res A) : Evolving (lift r).
Proof. intros w. reflexivity. Qed.

Lemma evolving_ret {A} (a : A) : Evolving (mret a).
Proof. intros w. reflexivity. Qed.

Lemma evolving_get : Evolving get_budget.
Proof. intros w. reflexivity. Qed.

Lemma evolves_budget w b : mb_limits b = mb_limits (w_budget w) → (mb_active (w_budget w) = true → mb_active b = true) →
  (∀ l, l ∈ mb_seen (w_budget w) → l ∈ mb_seen b) → mb_history_events (w_budget w) ≤ mb_history_events b →
  evolves w {| w_stores := w_stores w; w_budget := b |}.
Proof. intros. constructor; [done..|]. intros i. apply trust_grows_refl. Qed.

Lemma evolving_update f : (∀ b, mb_limits (f b) = mb_limits b ∧ (mb_active b = true → mb_active (f b) = true)
    ∧ mb_seen (f b) = mb_seen b ∧ mb_history_events b ≤ mb_history_events (f b)) → Evolving (update_budget f).
Proof.
  intros Hf w. unfold update_budget, get_budget, put_budget, lift, mbind, M_bind. cbn.
  destruct (Hf (w_budget w)) as (? & ? & Hs & ?). apply evolves_budget; [done..| |done]. by rewrite Hs.
Qed.

Lemma evolving_response n : Evolving (add_response n).
Proof. apply evolving_update. intros b. split_and!; cbn; [done..|lia]. Qed.
Lemma evolving_events n : 0 ≤ n → Evolving (add_events n).
Proof. intros. apply evolving_update. intros b. split_and!; cbn; [done..|lia]. Qed.
Lemma evolving_activate : Evolving activate.
Proof. apply evolving_update. intros b. split_and!; cbn; [done..|lia]. Qed.
Lemma evolving_see l : Evolving (see l).
Proof. intros w. apply evolves_budget; [done..| |cbn; lia]. intros x Hx. apply elem_of_app. by right. Qed.

Lemma evolving_on_store {A} (i : nat) (f : checkpoints → checkpoints * res A) : (∀ s, trust_grows s (f s).1) → Evolving (on_store i f).
Proof.
  intros Hf w. unfold on_store. specialize (Hf (store_of i w)). destruct (f (store_of i w)) as [s r]. cbn in *.
  constructor; cbn; [done..|lia|]. intros j. unfold store_of at 2. cbn. destruct (decide (i = j)) as [->|Hne].
  - by rewrite lookup_insert_eq.
  - rewrite lookup_insert_ne by done. apply trust_grows_refl.
Qed.

Lemma evolving_run_paused {E A R} (pause : option E) (resolve : E → M R) (run : (E → res R) → res A) :
  (∀ e, Evolving (resolve e)) → Evolving (run_paused pause resolve run).
Proof.
  intros Hr. destruct pause as [e|]; cbn [run_paused].
  - intros w. specialize (Hr e w). by destruct (resolve e w) as [w' r].
  - apply evolving_bind; [apply evolving_lift|]. intros a. apply evolving_ret.
Qed.
#[export] Hint Resolve evolving_bind evolving_lift evolving_ret evolving_get evolving_response evolving_activate
  evolving_see evolving_on_store evolving_run_paused verify_and_advance_grows : evolve.

Lemma evolving_events_len {A} (l : list A) : Evolving (add_events (len l)).
Proof. apply evolving_events, len_nonneg. Qed.
#[export] Hint Resolve evolving_events_len : evolve.

(** Binds and case distinctions, down to the operations. *)
Ltac evolve :=
  repeat first
    [ done
    | match goal with
      | |- ∀ _, _ => intro
      | |- Evolving (mbind _ _) => apply evolving_bind
      | |- Evolving (match ?x with _ => _ end) => destruct x
      | |- Evolving (let _ := _ in _) => cbv zeta
      end
    | solve [eauto with evolve] ].

Section reader.
Context `{Platform} (now_ms : Z) (check : list nat → res unit).

Lemma verify_and_advance_checkpoint_grows reference entries source tiles chk s cp t :
  trust_grows s (verify_and_advance_checkpoint reference entries source tiles chk s cp t).1.
Proof.
  unfold verify_and_advance_checkpoint. destruct (_ ;; _); [apply verify_and_advance_grows|apply trust_grows_refl].
Qed.
#[local] Hint Resolve verify_and_advance_checkpoint_grows : evolve.

Lemma evolving_prior_reader lr factory depth p n f : Evolving (prior_reader lr factory depth p n f).
Proof. unfold prior_reader. evolve. Qed.

Lemma evolving_external p f h d re rb : Evolving (external_prior p f h d re rb).
Proof. unfold external_prior. evolve. Qed.
#[local] Hint Resolve evolving_prior_reader evolving_external : evolve.

Section config.
Context (c : reader_config).

Lemma evolving_prepare_scan ev : Evolving (prepare_scan now_ms c ev).
Proof. unfold prepare_scan. evolve. Qed.

Lemma evolving_append_only path ev t : Evolving (enforce_append_only_consistency check c path ev t).
Proof. unfold enforce_append_only_consistency. evolve. Qed.

Lemma evolving_advance path b entries tiles : Evolving (advance_verified check c path b entries tiles).
Proof. unfold advance_verified. evolve. Qed.
#[local] Hint Resolve evolving_advance : evolve.

Lemma evolving_publish path src reference fqdn b : Evolving (publish_bundle check c path src reference fqdn b).
Proof.
  intros w. unfold publish_bundle. pose proof (evolving_advance (1%nat :: path) b None (bs_tile_consistency src) w) as H1.
  destruct (advance_verified _ _ _ _ _ _ _) as [w1 [u|e]]; [done|]. destruct e; try done.
  destruct (_ || _); [done|]. cbn in H1. etrans; [exact H1|].
  match goal with |- evolves _ (?m w1).1 => assert (Evolving m) as Hm; [|apply Hm] end. evolve.
Qed.

Lemma evolving_scan_history path ev domain trusted cutoff t vm : (∀ e, Evolving (vm e)) →
  Evolving (scan_history check c path ev domain trusted cutoff t vm).
Proof. intros Hvm. unfold scan_history. evolve. Qed.

Lemma evolving_bundle_history b m domain cutoff : Evolving (bundle_history c b m domain cutoff).
Proof. unfold bundle_history. evolve. Qed.
#[local] Hint Resolve evolving_prepare_scan evolving_append_only evolving_publish evolving_scan_history evolving_bundle_history : evolve.

Lemma evolving_load_bundle path src cfg domain k vm cutoff : (∀ e, Evolving (vm e)) →
  Evolving (load_verified_bundle now_ms check c path src cfg domain k vm cutoff).
Proof. intros Hvm. unfold load_verified_bundle. evolve. Qed.

Lemma evolving_load_scan path load domain k cutoff vm : (∀ e, Evolving (vm e)) →
  Evolving (load_scan now_ms check c path load domain k cutoff vm).
Proof. intros Hvm. unfold load_scan. evolve. Qed.
#[local] Hint Resolve evolving_load_bundle evolving_load_scan : evolve.

Lemma evolving_load_body path domain k cutoff vm : (∀ e, Evolving (vm e)) →
  Evolving (load_body now_ms check c path domain k cutoff vm).
Proof. intros Hvm. unfold load_body. evolve. Qed.
End config.

Lemma evolving_prior_history c factory domain trusted depth load event : (∀ c' f' i, Evolving (load c' f' i)) →
  Evolving (verify_prior_history c factory domain trusted depth load event).
Proof. intros Hl. unfold verify_prior_history. evolve. Qed.

Lemma evolving_load_history fuel c factory path domain trusted cutoff depth :
  Evolving (load_history now_ms check fuel c factory path domain trusted cutoff depth).
Proof.
  revert c factory path cutoff depth. induction fuel as [|fuel IH]; intros; cbn [load_history];
    apply evolving_load_body; intros e; apply evolving_prior_history; intros; auto with evolve.
Qed.
End reader.
#[export] Hint Resolve evolving_prior_reader evolving_external evolving_prepare_scan evolving_append_only evolving_advance
  evolving_publish evolving_scan_history evolving_bundle_history evolving_load_bundle evolving_load_scan evolving_load_body
  evolving_prior_history evolving_load_history : evolve.

(** ** The recursion ends *)
Section fuel.
Context `{Platform} (now_ms : Z) (check : list nat → res unit) (limits : C2spMigrationVerificationLimits).

(** Equal where the limits are these. *)
Definition agree {A} (m1 m2 : M A) : Prop := ∀ w, mb_limits (w_budget w) = limits → m1 w = m2 w.

Lemma agree_bind {A B} (m1 m2 : M A) (k1 k2 : A → M B) : Evolving m1 → agree m1 m2 → (∀ a, agree (k1 a) (k2 a)) →
  agree (m1 ≫= k1) (m2 ≫= k2).
Proof.
  intros He Hm Hk w Hw. unfold mbind, M_bind. rewrite <- Hm by done. specialize (He w).
  destruct (m1 w) as [w1 [a|e]]; [|done]. apply Hk. pose proof (ev_limits _ _ He) as El. cbn in El. congruence.
Qed.

Lemma bind_ext {A B} (m : M A) (k1 k2 : A → M B) w : (∀ w1 a, m w = (w1, Ok a) → k1 a w1 = k2 a w1) →
  (m ≫= k1) w = (m ≫= k2) w.
Proof. intros Hk. unfold mbind, M_bind. destruct (m w) as [w1 [a|e]] eqn:Hm; [by apply Hk|done]. Qed.

Lemma agree_refl {A} (m : M A) : agree m m.
Proof. by intros w _. Qed.

Lemma agree_run_paused {E A R} (pause : option E) (r1 r2 : E → M R) (run : (E → res R) → res A) :
  (∀ e, agree (r1 e) (r2 e)) → agree (run_paused pause r1 run) (run_paused pause r2 run).
Proof. intros Hr w Hw. destruct pause as [e|]; cbn [run_paused]; [by rewrite Hr|done]. Qed.

Lemma prior_reader_depth lr factory depth p n f w w' r : prior_reader lr factory depth p n f w = (w', Ok r) →
  depth < max_depth (mb_limits (w_budget w)).
Proof.
  unfold prior_reader. intros (w1 & u & Ha & Hx)%M_bind_Ok. apply update_budget_Ok in Ha as (Hb & _ & _).
  apply M_bind_Ok in Hx as (w2 & ? & [-> _]%lift_Ok & Hx). apply M_bind_Ok in Hx as (w3 & [pm cm] & [-> _]%lift_Ok & Hx).
  apply M_bind_Ok in Hx as (w4 & ? & [-> _]%lift_Ok & Hx). apply M_bind_Ok in Hx as (w5 & b & Hg & Hx).
  unfold get_budget in Hg. injection Hg as <- <-. apply M_bind_Ok in Hx as (w6 & ? & [-> Hd]%lift_Ok & _).
  rewrite raise_if_Ok, Z.leb_gt, Hb in Hd. done.
Qed.

Lemma agree_prior_history c factory domain trusted depth load1 load2 event :
  (∀ c' f' i, Evolving (load1 c' f' i)) →
  (depth < max_depth limits → ∀ c' f' i, agree (load1 c' f' i) (load2 c' f' i)) →
  agree (verify_prior_history c factory domain trusted depth load1 event)
        (verify_prior_history c factory domain trusted depth load2 event).
Proof.
  intros He1 Hl w Hw. unfold verify_prior_history. destruct (ev_body event) as [| | | |p n f|]; try done.
  apply bind_ext. intros w1 r Hr. pose proof (evolving_prior_reader (lr_lr (rc_parsed c)) factory depth p n f w) as He.
  rewrite Hr in He. apply prior_reader_depth in Hr. rewrite Hw in Hr. apply ev_limits in He. cbn in He.
  destruct r as [c' f'|rebuild]; [|done]. apply agree_bind; [| |intros; apply agree_refl|congruence].
  - intros w2. unfold mbind, M_bind, lift. destruct (prior_cutoff _ _ _) as [i|]; [|reflexivity]. apply He1.
  - intros w2 Hw2. apply bind_ext. intros w3 i [-> _]%lift_Ok. by apply Hl.
Qed.

Lemma agree_load_body c path domain trusted cutoff vm1 vm2 : (∀ e, Evolving (vm1 e)) → (∀ e, agree (vm1 e) (vm2 e)) →
  agree (load_body now_ms check c path domain trusted cutoff vm1) (load_body now_ms check c path domain trusted cutoff vm2).
Proof.
  intros He Hvm. unfold load_body, load_verified_bundle, load_scan, scan_history.
  repeat first [ apply agree_refl | apply agree_run_paused; exact Hvm
    | match goal with
      | |- agree (mbind _ _) (mbind _ _) => apply agree_bind; [evolve| |intro]
      | |- agree (match ?x with _ => _ end) _ => destruct x
      end ].
Qed.

Lemma load_history_fuel fuel c factory path domain trusted cutoff depth : max_depth limits - depth ≤ Z.of_nat fuel →
  agree (load_history now_ms check fuel c factory path domain trusted cutoff depth)
        (load_history now_ms check (S fuel) c factory path domain trusted cutoff depth).
Proof.
  revert c factory path cutoff depth. induction fuel as [|fuel IH]; intros c factory path cutoff depth Hf;
    cbn [load_history]; (apply agree_load_body; [intros e; apply evolving_prior_history; intros; auto with evolve|]);
    intros e; (apply agree_prior_history; [intros; auto with evolve|]); intros Hd c' f' i; [lia|].
  apply IH. lia.
Qed.
End fuel.

(** C35 Verification through any chain of previous logs ends: with at least as much
    fuel as the levels left below the configured maximum depth, loading a history
    gives the same outcome, in result and in state, as with exactly that much, so
    the recursion of the code, which has no bound of its own, is never deeper than
    the limits allow. *)
Theorem migration_recursion_terminates `{Platform} (now_ms : Z) (check : list nat → res unit) (c : reader_config)
    (factory : option (str → result exn LogReader)) (path : list nat) (domain : str) (trusted : JWK)
    (cutoff : option Z) (depth : Z) (w : world) (fuel : nat)
    (Hfuel : max_depth (mb_limits (w_budget w)) - depth ≤ Z.of_nat fuel) :
  load_history now_ms check fuel c factory path domain trusted cutoff depth w
  = load_history now_ms check (Z.to_nat (max_depth (mb_limits (w_budget w)) - depth)) c factory path domain trusted cutoff depth w.
Proof.
  set (k := Z.to_nat (max_depth (mb_limits (w_budget w)) - depth)).
  assert (k ≤ fuel)%nat as Hk by lia. induction Hk as [|fuel' Hk IH]; [done|]. rewrite <- IH by lia. symmetry.
  apply (load_history_fuel now_ms check (mb_limits (w_budget w))); [lia|done].
Qed.

(** ** What a loaded history is charged *)

(** The events a step may add to a history are those it charged to the budget. *)
Definition charged (w w' : world) (n : Z) : Prop := n ≤ mb_history_events (w_budget w') - mb_history_events (w_budget w).

Lemma len_map {A B} (f : A → B) l : len (map f l) = len l.
Proof. unfold len. by rewrite length_map. Qed.

Lemma charged_evolves w w1 w2 w3 n : evolves w w1 → charged w1 w2 n → evolves w2 w3 → charged w w3 n.
Proof. unfold charged. intros [_ _ _ ? _] ? [_ _ _ ? _]. lia. Qed.

Lemma add_events_Ok n w w' u : add_events n w = (w', Ok u) →
  mb_history_events (w_budget w') = mb_history_events (w_budget w) + n ∧ within_limits (w_budget w').
Proof. intros (Hb & Hw & _)%update_budget_Ok. by rewrite Hb in *. Qed.

Lemma evolving_run {A} (m : M A) w w' r : Evolving m → m w = (w', r) → evolves w w'.
Proof. intros Hm Hr. specialize (Hm w). by rewrite Hr in Hm. Qed.

(** The world moved forward in this run. *)
Ltac ran H := eapply evolving_run; [|exact H]; eauto with evolve.

(** What a verified migration brings: no more events than were charged. *)
Definition charges (vm : LogEvent → M MigrationVerificationResult) : Prop := ∀ e w w' m,
  vm e w = (w', Ok m) → charged w w' (len (mr_prior_events m)).

Definition prior_count (m : option MigrationVerificationResult) : Z :=
  match m with Some m => len (mr_prior_events m) | None => 0 end.

Lemma run_paused_charged {A} (pause : option LogEvent) vm (run : (LogEvent → res MigrationVerificationResult) → res A) w w' a m :
  (∀ e, Evolving (vm e)) → charges vm → run_paused pause vm run w = (w', Ok (a, m)) → charged w w' (prior_count m).
Proof.
  intros Hev Hvm. destruct pause as [e|]; cbn [run_paused].
  - destruct (vm e w) as [w1 r] eqn:Hr. intros Hx. injection Hx as <- Hx. bind_step Hx as b Hb. injection Hx as <- <-.
    destruct r as [x|]; [by eapply Hvm|].
    apply evolving_run in Hr; [|done]. destruct Hr as [_ _ _ Hr _]. unfold charged. cbn. lia.
  - intros (w1 & b & [-> Hb]%lift_Ok & Hx)%M_bind_Ok. injection Hx as <- <- <-. unfold charged. cbn. lia.
Qed.

(** Only a genesis MIGRATION has a history before it. *)
Lemma stitch_cases `{Platform} domain events m l : stitch_migration_history domain events m = Ok l →
  (l = events ∧ ∀ first, head events = Some first → is_migration first = false)
  ∨ ∃ m' first, m = Some m' ∧ head events = Some first ∧ is_migration first = true ∧ l = mr_prior_events m' ++ events.
Proof.
  unfold stitch_migration_history. intros Hx. destruct events as [|e events]; [injection Hx as <-; by left|].
  destruct (is_migration e) eqn:Hm; [|injection Hx as <-; left; split; [done|by intros ? [= <-]]]. destruct m as [m|]; [|done].
  guard_step Hx as H1. guard_step Hx as H2. bind_step Hx as t Ht. bind_step Hx as snap Hs.
  bind_step Hx as b Hb. guard_step Hx as H3. bind_step Hx as k Hk. guard_step Hx as H4. injection Hx as <-. right. eauto 10.
Qed.

Lemma stitch_events_len `{Platform} domain events m l : stitch_migration_history domain events m = Ok l →
  len l ≤ prior_count m + len events.
Proof.
  intros [[-> _]|(m' & first & -> & _ & _ & ->)]%stitch_cases; [|rewrite len_app; cbn; lia].
  destruct m as [m|]; cbn; [pose proof (len_nonneg (mr_prior_events m))|]; lia.
Qed.

(** The references follow the events. *)
Lemma stitched_refs_len `{Platform} domain lr verified m events refs : stitch_migration_history domain (map vl_event verified) m = Ok events →
  stitched_event_refs lr verified m = Ok refs → len refs = len events.
Proof.
  intros Hs Hr. apply stitch_cases in Hs. unfold stitched_event_refs in Hr. destruct verified as [|v verified].
  { destruct Hs as [[-> _]|(m' & first & _ & ? & _)]; [|done]. by injection Hr as <-. }
  destruct Hs as [[-> Hf]|(m' & first & -> & [= <-] & Hm & ->)].
  - rewrite (Hf _ eq_refl) in Hr. injection Hr as <-. cbn [map]. by rewrite !len_cons, !len_map.
  - rewrite Hm in Hr. guard_step Hr as Hl. injection Hr as <-. rewrite negb_false_iff, Z.eqb_eq in Hl.
    cbn [map]. by rewrite !len_app, !len_cons, !len_map, Hl.
Qed.

(** What is known of every history that was loaded. *)
Record loaded (w w' : world) (v : VerifiedHistory) : Prop := {
  ld_charged : charged w w' (len (vh_events v));
  ld_within : within_limits (w_budget w');
  ld_refs : len (vh_event_refs v) = len (vh_events v);
  ld_evolves : evolves w w'
}.

Section loaded.
Context `{Platform} (now_ms : Z) (check : list nat → res unit) (c : reader_config).
Context (vm : LogEvent → M MigrationVerificationResult) (Hev : ∀ e, Evolving (vm e)) (Hvm : charges vm).

Lemma scan_history_loaded path ev domain trusted cutoff t w w' v :
  scan_history check c path ev domain trusted cutoff t vm w = (w', Ok v) → loaded w w' v.
Proof.
  intros Hx. pose proof (evolving_run _ _ _ _ (evolving_scan_history check c path ev domain trusted cutoff t vm Hev) Hx) as He.
  unfold scan_history in Hx. apply M_bind_Ok in Hx as (w1 & opts & [-> _]%lift_Ok & Hx).
  apply M_bind_Ok in Hx as (w2 & [verified m] & Hrun & Hx). apply run_paused_charged in Hrun as Hc; [|done..].
  apply M_bind_Ok in Hx as (w3 & ? & [-> _]%lift_Ok & Hx). apply M_bind_Ok in Hx as (w4 & ? & [Ha Hw]%add_events_Ok & Hx).
  apply M_bind_Ok in Hx as (w5 & events & [-> Hs]%lift_Ok & Hx). apply M_bind_Ok in Hx as (w6 & refs & [-> Hr]%lift_Ok & Hx).
  injection Hx as <- <-. constructor; cbn; [|done|by eapply stitched_refs_len|done].
  apply stitch_events_len in Hs. rewrite len_map in Hs. unfold charged in *. lia.
Qed.

Lemma bundle_history_loaded b m domain cutoff w0 w w' v : evolves w0 w → charged w0 w (prior_count m) →
  bundle_history c b m domain cutoff w = (w', Ok v) → loaded w0 w' v.
Proof.
  intros He0 Hc Hx. pose proof (evolving_run _ _ _ _ (evolving_bundle_history c b m domain cutoff) Hx) as He.
  unfold bundle_history in Hx. apply M_bind_Ok in Hx as (w1 & ? & [-> _]%lift_Ok & Hx).
  apply M_bind_Ok in Hx as (w3 & ? & [-> _]%lift_Ok & Hx). apply M_bind_Ok in Hx as (w4 & ? & [Ha Hw]%add_events_Ok & Hx).
  apply M_bind_Ok in Hx as (w5 & events & [-> Hs]%lift_Ok & Hx). apply M_bind_Ok in Hx as (w6 & ? & [-> _]%lift_Ok & Hx).
  apply M_bind_Ok in Hx as (w7 & refs & [-> Hr]%lift_Ok & Hx).
  injection Hx as <- <-. constructor; cbn; [|done|by eapply stitched_refs_len|by etrans].
  apply stitch_events_len in Hs. rewrite len_map in Hs. unfold charged in *. lia.
Qed.

Lemma load_bundle_charged path src cfg domain trusted cutoff w w' b m :
  load_verified_bundle now_ms check c path src cfg domain trusted vm cutoff w = (w', Ok (Some (b, m))) →
  evolves w w' ∧ charged w w' (prior_count m).
Proof.
  intros Hx. pose proof (evolving_run _ _ _ _ (evolving_load_bundle now_ms check c path src cfg domain trusted vm cutoff Hev) Hx) as He.
  split; [done|]. unfold load_verified_bundle in Hx. apply M_bind_Ok in Hx as (w1 & n & [-> _]%lift_Ok & Hx).
  apply M_bind_Ok in Hx as (w2 & e & [-> _]%lift_Ok & Hx). apply M_bind_Ok in Hx as (w3 & [data|] & [-> _]%lift_Ok & Hx); [|done].
  apply M_bind_Ok in Hx as (w4 & ? & Ha & Hx). apply M_bind_Ok in Hx as (w5 & [verified m'] & Hrun & Hx).
  apply run_paused_charged in Hrun as Hc; [|done..]. apply M_bind_Ok in Hx as (w6 & ? & [-> _]%lift_Ok & Hx).
  apply M_bind_Ok in Hx as (w7 & ? & Hp & Hx). injection Hx as <- <- <-.
  eapply charged_evolves; [ran Ha|exact Hc|ran Hp].
Qed.

Lemma loaded_after w0 w w' v : evolves w0 w → loaded w w' v → loaded w0 w' v.
Proof.
  intros He [Hc Hw Hr Hl]. constructor; [|done|done|by etrans]. by eapply charged_evolves; [exact He|exact Hc|].
Qed.

Lemma load_scan_loaded path load domain trusted cutoff w w' v :
  load_scan now_ms check c path load domain trusted cutoff vm w = (w', Ok v) → loaded w w' v.
Proof.
  unfold load_scan. intros Hx. apply M_bind_Ok in Hx as (w1 & ev & [-> _]%lift_Ok & Hx).
  apply M_bind_Ok in Hx as (w2 & t & Hp & Hx). apply M_bind_Ok in Hx as (w3 & ? & Ha & Hx).
  apply scan_history_loaded in Hx. eapply loaded_after; [|exact Hx].
  etrans; [ran Hp|ran Ha].
Qed.

Lemma load_body_loaded path domain trusted cutoff w w' v :
  load_body now_ms check c path domain trusted cutoff vm w = (w', Ok v) → loaded w w' v.
Proof.
  unfold load_body. destruct (rc_source c) as [load|src cfg]; [apply load_scan_loaded|].
  intros (w1 & [[b m]|] & Hb & Hx)%M_bind_Ok.
  - apply load_bundle_charged in Hb as [He Hc]. by eapply bundle_history_loaded.
  - apply load_scan_loaded in Hx. eapply loaded_after; [ran Hb|exact Hx].
Qed.
End loaded.

Lemma prior_result_events `{Platform} domain trusted prior m : prior_result domain trusted prior = Ok m →
  mr_prior_events m = vh_events prior ∧ mr_prior_event_refs m = vh_event_refs prior.
Proof.
  unfold prior_result. intros Hx. bind_step Hx as snap Hs. destruct (find_issuance _); [|done].
  destruct (issuance_keys _).1; [|done]. guard_step Hx as H1. bind_step Hx as b Hb. guard_step Hx as H2.
  by injection Hx as <-.
Qed.

Lemma external_charged p f h d re rb w w' v : external_prior p f h d re rb w = (w', Ok v) → charged w w' (len (vh_events v)).
Proof.
  unfold external_prior. intros (w1 & b & Hg & Hx)%M_bind_Ok. injection Hg as <- <-.
  apply M_bind_Ok in Hx as (w2 & [h' seen] & [-> _]%lift_Ok & Hx). apply M_bind_Ok in Hx as (w3 & ? & Hs & Hx).
  apply M_bind_Ok in Hx as (w4 & ? & Hr & Hx). apply M_bind_Ok in Hx as (w5 & ? & [Ha _]%add_events_Ok & Hx).
  injection Hx as <- <-. cbn. apply evolving_run in Hs; [|auto with evolve]. apply evolving_run in Hr; [|auto with evolve].
  destruct Hs as [_ _ _ Hs _], Hr as [_ _ _ Hr _]. unfold charged. lia.
Qed.

Lemma prior_history_charges `{Platform} c factory domain trusted depth load :
  (∀ c' f' i w w' v, load c' f' i w = (w', Ok v) → charged w w' (len (vh_events v))) → (∀ c' f' i, Evolving (load c' f' i)) →
  charges (verify_prior_history c factory domain trusted depth load).
Proof.
  intros Hl He e w w' m. unfold verify_prior_history. destruct (ev_body e) as [| | | |p n f|]; try done.
  intros (w1 & r & Hr & Hx)%M_bind_Ok. apply evolving_run in Hr; [|auto with evolve].
  apply M_bind_Ok in Hx as (w2 & prior & Hp & [-> Hm]%lift_Ok). apply prior_result_events in Hm as [-> _].
  eapply charged_evolves; [exact Hr| |reflexivity]. destruct r as [c' f'|rebuild].
  - apply M_bind_Ok in Hp as (w3 & i & [-> _]%lift_Ok & Hp). by eapply Hl.
  - apply M_bind_Ok in Hp as (w3 & b & Hg & Hp). injection Hg as <- <-.
    apply M_bind_Ok in Hp as (w4 & h & [-> _]%lift_Ok & Hp). by eapply external_charged.
Qed.

Lemma load_history_loaded `{Platform} now_ms check fuel c factory path domain trusted cutoff depth w w' v :
  load_history now_ms check fuel c factory path domain trusted cutoff depth w = (w', Ok v) → loaded w w' v.
Proof.
  revert c factory path cutoff depth w w' v. induction fuel as [|fuel IH]; intros c factory path cutoff depth w w' v;
    cbn [load_history]; apply load_body_loaded; try (intros; apply evolving_prior_history; intros; auto with evolve);
    (apply prior_history_charges; [|intros; auto with evolve]); intros c' f' i w1 w2 v' Hx; [done|].
  by apply IH in Hx as [].
Qed.
