(* ===== verification/BundleSpec.v ===== *)
(** * What a verified bundle establishes

    Growth of the trusted checkpoint keeps every entry already trusted, and an
    accepted bundle carries a lifecycle of logged entries under an accepted
    checkpoint, a trusted and independent signer, and bounded times. *)
From S2P Require Import Prelude Sha256 Errors PyText Base64 Utils Merkle MerkleConsistency SignedNote Policy PolicySpec Lr PyFloat PyTime CheckpointStore HashTiles HashTilesSpec Canonical CanonicalSpec JsonScan JsonRoundtrip Keys EventCodec EventCodecSpec StreamVerifier LifecycleSpec LifecycleDemo StreamSpec StreamSource StreamBundle.

(** Past a guard whose condition is of no use later. *)
Ltac skip_guard H := rewrite guard_Ok in H; destruct H as [_ H].

(** The strings hashed while checking the proof the source serves. *)
Definition served_inputs (reference : ParsedC2spTlogLr) (fetch : ParsedC2spTlogLr → Z → Z → res (list bytes))
    (cur c : TrustedCheckpoint) : list bytes :=
  match fetch reference (tc_tree_size cur) (tc_tree_size c) with
  | Ok proof => consistency_inputs (tc_tree_size cur) (tc_tree_size c) (tc_root_hash cur) proof
  | Raise _ => []
  end.

Section growth.
Context (reference : ParsedC2spTlogLr).

(** What the growth check lets through, from one trusted checkpoint to the next. *)
Lemma growth_cases complete source tiles c cur : wf_store {[tc_origin cur := cur]} →
  tc_origin cur = lr_origin reference →
  verify_growth reference complete source tiles c (Some cur) = Ok () →
  tc_tree_size cur ≤ tc_tree_size c
  ∧ (tc_tree_size cur = tc_tree_size c → tc_root_hash cur = tc_root_hash c)
  ∧ (0 < tc_tree_size cur < tc_tree_size c →
     match complete, source, tiles with
     | Some l, _, _ =>
         verify_checkpoint_prefix (sort_entries l) (tc_tree_size c) (tc_root_hash c) = Ok ()
         ∧ verify_checkpoint_prefix (sort_entries l) (tc_tree_size cur) (tc_root_hash cur) = Ok ()
     | None, Some fetch, _ => ∃ proof,
         fetch reference (tc_tree_size cur) (tc_tree_size c) = Ok proof
         ∧ verify_consistency (tc_tree_size cur) (tc_tree_size c) (tc_root_hash cur) (tc_root_hash c) proof = true
     | None, None, Some check_tiles => check_tiles reference cur c = Ok ()
     | None, None, None => False
     end).
Proof.
  intros Hwf Ho Hv. unfold verify_growth in Hv. rewrite bind_Ok in Hv. destruct Hv as (st & Hst & Hv).
  assert (st = Some cur) as ->.
  { pose proof (wf_stored _ (tc_origin cur) Hwf) as Hs. rewrite lookup_singleton_eq in Hs. congruence. }
  rewrite bind_unit_Ok, guard_Ok, Z.ltb_ge in Hv. destruct Hv as (Hc & Hle & Hv).
  destruct (Z.eqb_spec (tc_tree_size cur) (tc_tree_size c)) as [Heq|Hne].
  { apply raise_if_Ok in Hv. rewrite negb_false_iff, eqb_true in Hv. split_and!; [done..|lia]. }
  split_and!; [done|done|]. intros Hpos. destruct (Z.eqb_spec (tc_tree_size cur) 0); [lia|].
  destruct complete as [l|]; [|destruct source as [fetch|]; [|destruct tiles; [done|done]]].
  - split; [done|]. destruct (verify_checkpoint_prefix (sort_entries l) (tc_tree_size cur) (tc_root_hash cur))
      as [[]|e]; [done|]. cbn in Hv. by destruct (is_c2sp_verification e).
  - bind_step Hv as proof Hp. apply raise_if_Ok in Hv. rewrite negb_false_iff in Hv. eauto.
Qed.

Lemma prefix_checked entries n root : verify_checkpoint_prefix entries n root = Ok () → 0 ≤ n →
  merkle_root_from_entries (map ie_data (take (Z.to_nat n) entries)) = root
  ∧ len (take (Z.to_nat n) entries) = n.
Proof.
  unfold verify_checkpoint_prefix, prefix_slice. intros Hv Hn. destruct (Z.ltb_spec n 0); [lia|].
  rewrite guard_Ok, orb_false_iff, raise_if_Ok, !negb_false_iff, Z.eqb_eq, eqb_true in Hv. tauto.
Qed.

(** With a source of consistency proofs, growth keeps the trusted log as a prefix. *)
Lemma growth_prefix fetch tiles c cur old new : wf_store {[tc_origin cur := cur]} →
  tc_origin cur = lr_origin reference → commits cur old → commits c new →
  collision_free (hash_inputs old ++ hash_inputs new ++ served_inputs reference fetch cur c) →
  verify_growth reference None (Some fetch) tiles c (Some cur) = Ok () → old `prefix_of` new.
Proof.
  intros Hwf Ho [Hs1 Hr1] [Hs2 Hr2] Hcf Hv.
  destruct (growth_cases _ _ _ _ _ Hwf Ho Hv) as (Hle & Heq & Hgrow).
  destruct (decide (old = [])) as [->|Hne]; [apply prefix_nil|].
  assert (0 < len old) by (destruct old; [done|rewrite len_cons; pose proof (len_nonneg old); lia]).
  destruct (decide (len old = len new)) as [Hl|Hl].
  - assert (old = new) as ->; [|done]. apply root_inj; [done|rewrite <- Hr1, <- Hr2; apply Heq; lia|].
    eapply collision_free_mono, Hcf. set_solver.
  - destruct Hgrow as (proof & Hp & Hvc); [lia|]. unfold served_inputs in Hcf. rewrite Hp in Hcf.
    rewrite Hs1, Hs2, Hr1, Hr2 in *. by eapply consistency_prefix.
Qed.

(** With a complete scan in its place, the same holds. *)
Lemma growth_prefix_scan l source tiles c cur old new : wf_store {[tc_origin cur := cur]} →
  tc_origin cur = lr_origin reference → commits cur old → commits c new →
  collision_free (hash_inputs old ++ hash_inputs new
    ++ hash_inputs (map ie_data (take (length old) (sort_entries l)))
    ++ hash_inputs (map ie_data (take (length new) (sort_entries l)))) →
  verify_growth reference (Some l) source tiles c (Some cur) = Ok () → old `prefix_of` new.
Proof.
  intros Hwf Ho [Hs1 Hr1] [Hs2 Hr2] Hcf Hv.
  destruct (growth_cases _ _ _ _ _ Hwf Ho Hv) as (Hle & Heq & Hgrow).
  destruct (decide (old = [])) as [->|Hne]; [apply prefix_nil|].
  assert (0 < len old) by (destruct old; [done|rewrite len_cons; pose proof (len_nonneg old); lia]).
  destruct (decide (len old = len new)) as [Hl|Hl].
  - assert (old = new) as ->; [|done]. apply root_inj; [done|rewrite <- Hr1, <- Hr2; apply Heq; lia|].
    eapply collision_free_mono, Hcf. set_solver.
  - destruct Hgrow as (H1 & H2); [lia|]. apply prefix_checked in H1 as [R1 L1], H2 as [R2 L2]; [|lia..].
    rewrite Hs1 in R2, L2. rewrite Hs2 in R1, L1. unfold len in R1, R2, L1, L2. rewrite Nat2Z.id in *.
    assert (map ie_data (take (length old) (sort_entries l)) = old) as Eo.
    { apply root_inj; [unfold len; rewrite length_map; lia|congruence|].
      eapply collision_free_mono, Hcf. set_solver. }
    assert (map ie_data (take (length new) (sort_entries l)) = new) as En.
    { apply root_inj; [unfold len; rewrite length_map; lia|congruence|].
      eapply collision_free_mono, Hcf. set_solver. }
    rewrite <- Eo, <- En. unfold len in *.
    replace (take (length old) (sort_entries l)) with (take (length old) (take (length new) (sort_entries l)))
      by (rewrite take_take; f_equal; lia).
    rewrite <- firstn_map. apply prefix_take.
Qed.
End growth.

(** The check the bundle verifier hands to the store, for every origin. *)
Definition bundle_growth (refs : str → ParsedC2spTlogLr) (fetch : ParsedC2spTlogLr → Z → Z → res (list bytes))
    (c : TrustedCheckpoint) (stored : option TrustedCheckpoint) : res unit :=
  verify_growth (refs (tc_origin c)) None (Some fetch) None c stored.

(** Append-only across threads: whenever any thread of any interleaving replaces
    the trusted checkpoint of an origin while verifying bundles, the log behind
    the old checkpoint is a prefix of the log behind the new one, unless the two
    logs and the served proof exhibit a hash collision. *)
Theorem published_checkpoint_extends (refs : str → ParsedC2spTlogLr)
    (fetch : ParsedC2spTlogLr → Z → Z → res (list bytes)) (y y' : Threads.system) (o : str)
    (cur c : TrustedCheckpoint) (old new : list bytes)
    (Hrefs : ∀ o, lr_origin (refs o) = o)
    (Hreach : Threads.reachable (bundle_growth refs fetch) y)
    (Hstep : Threads.step (bundle_growth refs fetch) y y')
    (Hcur : Threads.by_origin y !! o = Some cur) (Hc : Threads.by_origin y' !! o = Some c)
    (Hold : commits cur old) (Hnew : commits c new)
    (Hcf : collision_free (hash_inputs old ++ hash_inputs new ++ served_inputs (refs o) fetch cur c)) :
  old `prefix_of` new.
Proof.
  pose proof (Threads.invariant_reachable _ _ Hreach) as Hinv.
  pose proof (Threads.invariant_step _ _ _ Hinv Hstep) as Hinv'.
  destruct (Threads.inv_store _ _ Hinv _ _ Hcur) as [Hval Ho].
  destruct (Threads.inv_store _ _ Hinv' _ _ Hc) as [_ Ho'].
  destruct (Threads.step_store _ _ _ o Hinv Hstep) as [He|(c' & Hc' & Hv & _)].
  - rewrite He, Hcur in Hc. injection Hc as <-. destruct Hold as [S1 R1], Hnew as [S2 R2].
    assert (old = new) as ->; [|done]. apply root_inj; [by rewrite <- S1, <- S2|by rewrite <- R1, <- R2|].
    eapply collision_free_mono, Hcf. set_solver.
  - rewrite Hc' in Hc. injection Hc as ->. rewrite Hcur in Hv. unfold bundle_growth in Hv. rewrite Ho' in Hv.
    eapply (growth_prefix (refs o) _ _ _ cur); [|by rewrite Hrefs|exact Hold|exact Hnew|exact Hcf|exact Hv].
    intros o' x Hx. apply lookup_singleton_Some in Hx as [<- <-]. done.
Qed.

(** ** An accepted bundle *)
Section accepted.
Context `{Platform} (check : list nat → res unit).

(** What a bundle [obj] with head [h] shows, under the policy [p] of its log. *)
Record bundle_established (obj : list (str * json)) (h : bundle_head) (p : NormalizedOriginPolicy)
    (o : C2spStreamBundleVerifierOptions) (b : VerifiedC2spStreamBundle) : Prop := {
  be_head : vb_reference b = bh_reference h ∧ vb_checkpoint b = bh_checkpoint h ∧ vb_fqdn b = bh_fqdn h;
  be_signer : ∃ key sig unsigned,
    List.filter (λ k, bundle_kid k ==? Some (vb_bundle_signer_kid b)) (bo_bundle_keys o) = [key]
    ∧ Forall (λ k, key_bytes k ≠ key_bytes key) (n_log_keys p ++ n_witness_keys p)
    ∧ canonical_bytes (JDict (pop "sig" obj)) = Ok unsigned
    ∧ ed25519_verify (key_bytes key) sig unsigned = true;
  be_witnessed : ∃ ts,
    policy_evidence ed25519_verify (vb_checkpoint b) (lr_origin (vb_reference b)) (lr_scope (vb_reference b))
      (bo_now_ms o) (bo_max_clock_skew_ms o) p ts
    ∧ sort_key ts = Some (vb_checkpoint_witness_time b);
  be_times : bo_now_ms o < vb_expires b * 1000 ≤ vb_checkpoint_witness_time b * 1000 + bo_max_bundle_lifetime_ms o
    ∧ bo_now_ms o ≤ vb_checkpoint_witness_time b * 1000 + bo_checkpoint_freshness_ms o;
  be_lifecycle : ∃ st, lifecycle
    (bundle_lifecycle_options h o (n_unchained p) (vb_checkpoint_witness_time b) None None) (vb_events b) st;
  be_logged : Forall (λ v, ev_domain (vl_event v) = vb_fqdn b ∧ ∃ proof,
      verify_inclusion (vl_data v) (vl_index v) (cp_tree_size (vb_checkpoint b)) (cp_root_hash (vb_checkpoint b)) proof
      = Ok true) (vb_events b);
  be_state : logged_state (vb_events b) = Ok (vb_logged_state b)
}.

Lemma try_reraise {A} (m : res A) (f : exn → exn) a : try_except m (λ e, Raise (f e)) = Ok a ↔ m = Ok a.
Proof. by destruct m. Qed.

Lemma try_value_error {A} (m : res A) e' a :
  try_except m (λ e, if is_value_error e then Raise e' else Raise e) = Ok a ↔ m = Ok a.
Proof. destruct m as [|e]; cbn; [done|]. by destruct (is_value_error e). Qed.

Lemma bundle_signature_Ok obj keys policy reference kid p :
  normalized_origin_policy policy (lr_origin reference) = Ok p →
  verify_bundle_signature obj keys policy reference = Ok kid →
  ∃ key sig unsigned, List.filter (λ k, bundle_kid k ==? Some kid) keys = [key]
    ∧ Forall (λ k, key_bytes k ≠ key_bytes key) (n_log_keys p ++ n_witness_keys p)
    ∧ canonical_bytes (JDict (pop "sig" obj)) = Ok unsigned
    ∧ ed25519_verify (key_bytes key) sig unsigned = true.
Proof.
  intros Hp Hv. unfold verify_bundle_signature in Hv. bind_step Hv as sg Hsg. skip_guard Hv.
  bind_step Hv as kid' Hkid. destruct (List.filter _ keys) as [|key [|]] eqn:Hf; try done.
  skip_guard Hv. rewrite Hp in Hv. cbn [mbind result_bind] in Hv. guard_step Hv as Hind.
  bind_step Hv as sig Hsig. skip_guard Hv. bind_step Hv as unsigned Hu. guard_step Hv as Hver.
  injection Hv as ->. rewrite try_value_error in Hu. exists key, sig, unsigned.
  rewrite negb_false_iff in Hver. split_and!; [done| |done|done].
  apply Forall_forall. intros k Hk Heq. apply not_true_iff_false in Hind. apply Hind.
  apply existsb_exists. exists k. rewrite <- list_elem_of_In, eqb_true. done.
Qed.

Lemma bundle_events_Ok cp prev raws es : parse_and_verify_events cp prev raws = Ok es →
  Forall (λ e, prev < ie_index e ∧ ∃ proof,
    verify_inclusion (ie_data e) (ie_index e) (cp_tree_size cp) (cp_root_hash cp) proof = Ok true) es.
Proof.
  revert prev es. induction raws as [|raw raws IH]; intros prev es Hv; cbn in Hv; [by injection Hv as <-|].
  bind_step Hv as e He. bind_step Hv as rest Hr. injection Hv as <-. apply IH in Hr.
  assert (prev < ie_index e ∧ ∃ proof,
    verify_inclusion (ie_data e) (ie_index e) (cp_tree_size cp) (cp_root_hash cp) proof = Ok true) as Hhd.
  { unfold parse_bundle_event in He. bind_step He as ev Hev. bind_step He as index Hi. guard_step He as Hrange.
    bind_step He as entry Hen. bind_step He as pb Hpb. skip_guard He. skip_guard He.
    bind_step He as ok Hok. guard_step He as Hbad. injection He as <-. cbn.
    rewrite negb_false_iff in Hbad. subst ok. split; [lia|eauto]. }
  constructor; [done|]. eapply Forall_impl; [exact Hr|]. cbn. intros x [Hx ?]. split; [lia|done].
Qed.

Lemma bundle_witness_time_Ok h o t : bundle_witness_time h o = Ok t → ∃ p ts,
  normalized_origin_policy (bh_policy h) (lr_origin (bh_reference h)) = Ok p
  ∧ policy_evidence ed25519_verify (bh_checkpoint h) (lr_origin (bh_reference h)) (lr_scope (bh_reference h))
      (bo_now_ms o) (bo_max_clock_skew_ms o) p ts
  ∧ sort_key ts = Some t ∧ bo_now_ms o ≤ t * 1000 + bo_checkpoint_freshness_ms o.
Proof.
  intros Hv. unfold bundle_witness_time in Hv. bind_step Hv as r Hr. rewrite try_reraise in Hr.
  apply enforce_Ok in Hr as (p & Hp & _ & _ & _ & Hev & Ht). rewrite Ht in Hv.
  destruct (sort_key _) as [t'|] eqn:Hs; [|done]. guard_step Hv as Hfresh. injection Hv as ->.
  exists p, (accepted_witness_timestamps r). split_and!; [done..|lia].
Qed.

Lemma bundle_result_Ok obj h o t kid verified b : bundle_result obj h o t kid None None verified = Ok b →
  vb_reference b = bh_reference h ∧ vb_checkpoint b = bh_checkpoint h ∧ vb_fqdn b = bh_fqdn h
  ∧ vb_events b = verified ∧ vb_bundle_signer_kid b = kid ∧ vb_checkpoint_witness_time b = t
  ∧ logged_state verified = Ok (vb_logged_state b)
  ∧ bo_now_ms o < vb_expires b * 1000 ≤ t * 1000 + bo_max_bundle_lifetime_ms o.
Proof.
  intros Hv. unfold bundle_result in Hv. skip_guard Hv. bind_step Hv as st Hst. bind_step Hv as d Hd.
  skip_guard Hv. bind_step Hv as ex Hex. guard_step Hv as He. guard_step Hv as Hl. bind_step Hv as th Hth.
  injection Hv as <-. cbn. split_and!; [done..|lia|lia].
Qed.

Lemma bundle_evidence_Ok data o b : verify_bundle_evidence check data o None None None = Ok b →
  ∃ obj h p, parse_json_no_duplicate_members data = Ok (JDict obj) ∧ parse_bundle_head obj o None = Ok h
    ∧ normalized_origin_policy (bh_policy h) (lr_origin (bh_reference h)) = Ok p
    ∧ bundle_established obj h p o b.
Proof.
  intros Hv. unfold verify_bundle_evidence in Hv. bind_step Hv as run Hrun. unfold prepare_bundle in Hrun.
  rewrite bind_unit_Ok, guard_Ok in Hrun. destruct Hrun as (_ & _ & Hrun).
  bind_step Hrun as value Hj. rewrite bind_unit_Ok in Hrun. destruct Hrun as [_ Hrun]. bind_step Hrun as obj Hobj.
  rewrite bind_unit_Ok in Hrun. destruct Hrun as [_ Hrun]. bind_step Hrun as h Hh. bind_step Hrun as t Ht.
  bind_step Hrun as kid Hkid. bind_step Hrun as es Hes. bind_step Hrun as p Hp. apply Ok_inj in Hrun. subst run.
  unfold bundle_run_options in Hv. cbn [br_obj br_head br_time br_kid br_entries br_unchained] in Hv. bind_step Hv as verified Hver.
  destruct (bundle_witness_time_Ok _ _ _ Ht) as (p' & ts & Hp' & Hev & Hts & Hfresh).
  rewrite Hp in Hp'. injection Hp' as <-.
  apply bundle_result_Ok in Hv as (Hr & Hc & Hf & He & Hk & Hwt & Hst & Hexp).
  apply stream_steps_sound in Hver as [Hlife (ids & _ & Hprov)]; [|done].
  assert (value = JDict obj) as ->.
  { unfold exact_object in Hobj. destruct value; try done. skip_guard Hobj. by injection Hobj as ->. }
  exists obj, h, p. split_and!; [done..|]. constructor; rewrite ?Hr, ?Hc, ?Hf, ?He, ?Hk, ?Hwt.
  - done.
  - by eapply bundle_signature_Ok.
  - eauto.
  - split; [exact Hexp|done].
  - done.
  - apply bundle_events_Ok in Hes. rewrite Forall_forall in Hes. apply Forall_forall. intros v Hv.
    apply list_elem_of_lookup in Hv as [i Hi]. destruct (Forall2_lookup_r _ _ _ _ _ Hprov Hi) as (id & _ & Hpv).
    destruct (pv_entry _ _ _ _ _ Hpv) as (e & Hin & -> & ->). split; [by eapply pv_domain|]. by apply Hes in Hin as [_ ?].
  - done.
Qed.

Lemma advance_checkpoint_Ok reference source ck s s' cp t : wf_store s →
  verify_and_advance_checkpoint reference None source None ck s cp t = (s', Ok ()) →
  wf_store s' ∧ ∃ c, s' !! lr_origin reference = Some c
    ∧ tc_tree_size c = cp_tree_size cp ∧ tc_root_hash c = cp_root_hash cp.
Proof.
  intros Hwf Hv. unfold verify_and_advance_checkpoint in Hv. case_match; [|done].
  apply verify_and_advance_cases in Hv as (Hwf' & _ & c & Hc & Hg & Hs); [|done].
  destruct (snapshot_valid _ _ Hc) as (_ & Ho & Hsz & Hr). split; [done|]. exists c.
  split_and!; [|by rewrite Hsz|by rewrite Hr].
  destruct Hs as [[Hs _]|(_ & cur & Hcur & Hlt)]; [exact Hs|exfalso].
  destruct (Hwf _ _ Hcur) as [Hval Hoc]. rewrite Hcur in Hg.
  apply growth_cases in Hg as [Hle _]; [rewrite Hsz in Hlt; lia| |done].
  intros o' x Hx. by apply lookup_singleton_Some in Hx as [<- <-].
Qed.

(** C3 Soundness of stream bundles: the canonical bytes of an accepted bundle
    without its [sig] are signed by the one configured key with the bundle's
    key identifier, a key apart from the log and witness keys of the policy; its
    checkpoint satisfies the witness policy, at a witness time within the
    freshness bound; the expiry lies in the future and within the configured
    lifetime; the returned events are a run of the lifecycle machine under the
    configured entity key, for the bundle's domain, each with an inclusion proof
    that verifies at its index in the checkpoint's tree; the reported state is
    that of the last event; and the trusted checkpoint of the log is now this
    one. *)
Theorem bundle_sound (s s' : store) (data : bytes) (o : C2spStreamBundleVerifierOptions)
    (b : VerifiedC2spStreamBundle) (Hwf : wf_store s)
    (Hok : verify_c2sp_stream_bundle check s data o = (s', Ok b)) :
  (∃ obj h p, parse_json_no_duplicate_members data = Ok (JDict obj) ∧ parse_bundle_head obj o None = Ok h
     ∧ normalized_origin_policy (bh_policy h) (lr_origin (bh_reference h)) = Ok p
     ∧ bundle_established obj h p o b)
  ∧ wf_store s'
  ∧ ∃ c, s' !! lr_origin (vb_reference b) = Some c
      ∧ tc_tree_size c = cp_tree_size (vb_checkpoint b) ∧ tc_root_hash c = cp_root_hash (vb_checkpoint b).
Proof.
  unfold verify_c2sp_stream_bundle, verify_bundle in Hok. destruct (check [2%nat]); [|done].
  destruct (verify_bundle_evidence _ _ _ _ _ _) as [b'|] eqn:He; [|done].
  destruct (verify_and_advance_checkpoint _ _ _ _ _ _ _ _) as [s1 [[]|]] eqn:Ha; [|done].
  injection Hok as <- Hb. rewrite bind_unit_Ok in Hb. destruct Hb as [_ [= ->]].
  apply advance_checkpoint_Ok in Ha as [Hwf' Hc]; [|done]. split; [by apply bundle_evidence_Ok|done].
Qed.
End accepted.

(** ** A concrete bundle *)
(** The log: noise at the even indexes. *)
Definition toy_log : list bytes :=
  [noise; issuance_data; noise; rotation_data; noise; revocation_data].
Definition toy_root : bytes := Eval vm_compute in merkle_root_from_entries toy_log.
Definition toy_path (i : nat) : list bytes := level_path 3 (leaf_hash <$> toy_log) i.

(** The checkpoint, signed by the log and by one witness, and the policy. *)
Definition toy_origin : str := lit "log.example/dns".
Definition toy_log_key : SignedNoteKey := demo_key toy_origin 1 (Some [0x01]).
Definition toy_bundle_key : SignedNoteKey := demo_key (lit "bundler.example") 40 (Some [0x01]).
Definition toy_witness_seconds : Z := 1700000900.
Definition toy_checkpoint_text (entries : list bytes) : str :=
  let body := checkpoint_body toy_origin (len entries) (merkle_root_from_entries entries) in
  body ++ [10] ++ demo_log_line toy_log_key body ++ demo_witness_line (demo_witness_key 1) toy_witness_seconds body.
Definition toy_policy_text : str :=
  lit "log " ++ demo_vkey toy_log_key ++ [10]
  ++ lit "witness w1 " ++ demo_vkey (demo_witness_key 1) ++ [10]
  ++ lit "quorum w1" ++ [10].

Definition toy_bundle_event (i : nat) : json :=
  JDict [(lit "index", JInt (Z.of_nat i)); (lit "entry", JStr (b64url_encode (nth i toy_log []) false));
         (lit "proof", JStr (b64url_encode (mjoin (toy_path i)) false))].

Definition toy_unsigned_bundle : list (str * json) :=
  [(lit "v", JInt 1); (lit "type", JStr (lit "dnsid-c2sp-stream-bundle")); (lit "fqdn", JStr toy_domain);
   (lit "lr", JStr (lit "c2sp-tlog:public:https://log.example/dns#abc-1"));
   (lit "checkpoint", JStr (b64url_encode (utf8_bytes (toy_checkpoint_text toy_log)) false));
   (lit "policy_hash", JStr (b64url_encode (sha256 (utf8_bytes toy_policy_text)) false));
   (lit "complete_through_size", JInt 6); (lit "completeness_mode", JStr (lit "trusted-index"));
   (lit "events", JList (map toy_bundle_event [1; 3; 5]%nat));
   (lit "state", JDict [(lit "event_count", JInt 3); (lit "last_event_type", JStr (lit "REVOCATION"));
                        (lit "logged_state", JStr (lit "REVOKED"))]);
   (lit "expires", JInt 1700005000)].

Definition toy_bundle : bytes :=
  Eval vm_compute in
    let unsigned := or_empty (canonical_bytes (JDict toy_unsigned_bundle)) in
    or_empty (canonical_bytes (JDict (toy_unsigned_bundle ++
      [(lit "sig", JDict [(lit "alg", JStr (lit "EdDSA"));
                          (lit "kid", JStr (default [] (bundle_kid toy_bundle_key)));
                          (lit "value", JStr (b64url_encode (demo_sign (key_bytes toy_bundle_key) unsigned) false))])]))).

Definition toy_bundle_options : C2spStreamBundleVerifierOptions :=
  {| bo_policy_bytes := utf8_bytes toy_policy_text; bo_bundle_keys := [toy_bundle_key]; bo_entity_key := entity;
     bo_checkpoint_freshness_ms := 600000; bo_max_bundle_lifetime_ms := 86400000; bo_max_bundle_bytes := 1000000;
     bo_max_events := 1000; bo_max_tree_size := 1000000; bo_max_clock_skew_ms := 60000;
     bo_consistency_source := None; bo_now_ms := 1700001000000 |}.

Definition toy_accepted : option VerifiedC2spStreamBundle :=
  Eval vm_compute in
    match (verify_c2sp_stream_bundle no_deadline ∅ toy_bundle toy_bundle_options).2 with
    | Ok b => Some b
    | Raise _ => None
    end.
Definition toy_verified_bundle : VerifiedC2spStreamBundle :=
  Eval vm_compute in
    default {| vb_reference := demo_parsed [] None; vb_checkpoint := demo_checkpoint 0 [] []; vb_events := [];
               vb_logged_state := []; vb_active_operational_thumbprint := []; vb_expires := 0;
               vb_bundle_signer_kid := []; vb_fqdn := []; vb_checkpoint_witness_time := 0;
               vb_checkpoint_bytes := [] |} toy_accepted.

Lemma wf_store_empty : wf_store ∅.
Proof. intros o c Hc. by rewrite lookup_empty in Hc. Qed.

Lemma pair_by_snd {A B} (p : A * B) (b : B) : p.2 = b → p = (p.1, b).
Proof. by destruct p; intros <-. Qed.

Lemma bundle_sound_witness :
  vb_logged_state toy_verified_bundle = lit "REVOKED"
  ∧ wf_store (verify_c2sp_stream_bundle no_deadline ∅ toy_bundle toy_bundle_options).1.
Proof.
  split; [vm_compute; reflexivity|].
  refine (proj1 (proj2 (bundle_sound no_deadline ∅
    (verify_c2sp_stream_bundle no_deadline ∅ toy_bundle toy_bundle_options).1
    toy_bundle toy_bundle_options toy_verified_bundle wf_store_empty _))).
  apply pair_by_snd. vm_compute. reflexivity.
Defined.

(** ** Growth in a threaded store *)
Import Threads.

Definition toy_reference (o : str) : ParsedC2spTlogLr :=
  {| lr_method := lit "c2sp-tlog"; lr_scope := public; lr_log_prefix := lit "https://" ++ o; lr_origin := o; lr_stream_id := lit "abc-1";
     lr_entry_index := None; lr_lr := [] |}.
Definition serve_proof (reference : ParsedC2spTlogLr) (from to : Z) : res (list bytes) :=
  Ok (consistency_proof toy_log (Z.to_nat from)).
Definition toy_trusted (entries : list bytes) : TrustedCheckpoint :=
  {| tc_origin := toy_origin; tc_tree_size := len entries; tc_root_hash := merkle_root_from_entries entries;
     tc_witness_time := utc (toy_witness_seconds * 1000000) |}.
Definition trusted3 : TrustedCheckpoint := Eval vm_compute in toy_trusted (take 3 toy_log).
Definition trusted6 : TrustedCheckpoint := Eval vm_compute in toy_trusted toy_log.

(** A thread on its way to publication. *)
Definition started (t : nat) (c : TrustedCheckpoint) (y : system) : system := goto t (WaitMeta c) y.
Definition holding (t : nat) (c : TrustedCheckpoint) (y : system) : system :=
  goto t (HoldMeta c) (set_meta (Some t) (started t c y)).
Definition waiting (t : nat) (c : TrustedCheckpoint) (y : system) : system :=
  goto t (WaitOrigin c) (set_meta None (ensure_lock (tc_origin c) (holding t c y))).
Definition owning (t : nat) (c : TrustedCheckpoint) (y : system) : system :=
  goto t (HoldOrigin c) (set_lock (tc_origin c) (Some t) (waiting t c y)).
Definition loaded (t : nat) (c : TrustedCheckpoint) (cur : option TrustedCheckpoint) (y : system) : system :=
  goto t (Loaded c cur) (owning t c y).
Definition checked (t : nat) (c : TrustedCheckpoint) (cur : option TrustedCheckpoint) (y : system) : system :=
  goto t (Verified c cur) (loaded t c cur y).
Definition published (t : nat) (c : TrustedCheckpoint) (cur : option TrustedCheckpoint) (y : system) : system :=
  goto t Done (set_lock (tc_origin c) None
    (set_store (<[tc_origin c := c]> (by_origin y)) (checked t c cur y))).

Definition toy_y3 : system := published 0 trusted3 None demo_y0.
Definition toy_y6 : system := checked 1 trusted6 (Some trusted3) toy_y3.

Ltac thread_runs t c cur y :=
  apply (rtc_l _ _ (started t c y)); [by apply (step_start _ _ t c); vm_compute|];
  apply (rtc_l _ _ (holding t c y)); [by apply step_acquire_meta; vm_compute|];
  apply (rtc_l _ _ (waiting t c y)); [by apply step_lock_for; vm_compute|];
  apply (rtc_l _ _ (owning t c y)); [by apply step_acquire_origin; vm_compute|];
  apply (rtc_l _ _ (loaded t c cur y)); [by apply step_load; vm_compute|];
  apply (rtc_l _ _ (checked t c cur y)); [by apply step_verify; vm_compute|].

Lemma publishes verify t c cur y :
  advance_locked (by_origin y) c = Ok (<[tc_origin c := c]> (by_origin y)) →
  step verify (checked t c cur y) (published t c cur y).
Proof.
  intros Ha. apply (step_advance _ _ t c cur); [apply lookup_insert_eq|]. rewrite <- Ha. cbn. f_equal.
  unfold ensure_lock. by case_match.
Qed.

Lemma toy_reachable : reachable (bundle_growth toy_reference serve_proof) toy_y6.
Proof.
  exists demo_y0. split; [exact demo_y0_initial|].
  thread_runs 0%nat trusted3 (@None TrustedCheckpoint) demo_y0.
  apply (rtc_l _ _ toy_y3); [apply publishes; vm_compute; reflexivity|].
  thread_runs 1%nat trusted6 (Some trusted3) toy_y3. done.
Qed.

Lemma published_checkpoint_extends_witness : take 3 toy_log `prefix_of` toy_log.
Proof.
  apply (published_checkpoint_extends toy_reference serve_proof toy_y6
           (published 1 trusted6 (Some trusted3) toy_y3) toy_origin trusted3 trusted6);
    [done|exact toy_reachable| | | | | |].
  - apply publishes; vm_compute; reflexivity.
  - vm_compute; reflexivity.
  - vm_compute; reflexivity.
  - split; vm_compute; reflexivity.
  - split; vm_compute; reflexivity.
  - apply collision_freeb_sound. vm_compute. reflexivity.
Defined.
