(* ===== verification/ReaderApi.v ===== *)
(** * Soundness of the reader's operations

    What a history read from a raw log rests on; the reader object as a machine
    whose steps are its public methods, with the invariant of its cache and
    stores; and what its answers mean. *)
From S2P Require Import Prelude Sha256 Errors PyText Base64 Utils Merkle SignedNote Policy PolicySpec TlogProof Lr ResourceFetcher PyFloat PyTime CheckpointStore HashTiles Canonical Keys EventCodec StreamVerifier LifecycleSpec LifecycleDemo DomainLog StreamSpec StreamSource StreamBundle ReaderState Reader ReaderSpec BundleSpec.

(** ** Raw histories *)

(** The checkpoint of a complete scan that the policy accepts. *)
Record authentic_scan `{Platform} (now_ms : Z) (c : reader_config) (ev : StreamEvidence) (t : Z) : Prop := {
  as_complete : se_complete ev = true;
  as_policy : ∃ p, enforce_checkpoint_policy ed25519_verify (se_checkpoint ev) (lr_origin (rc_parsed c)) (rc_policy c)
    (lr_scope (rc_parsed c)) now_ms (rc_max_clock_skew_ms c) = Ok p ∧ checkpoint_witness_time p = Some t;
  as_indexes : map ie_index (sort_entries (se_entries ev)) = map Z.of_nat (seq 0 (length (se_entries ev)));
  as_size : len (se_entries ev) = cp_tree_size (se_checkpoint ev);
  as_root : merkle_root_from_entries (map ie_data (sort_entries (se_entries ev))) = cp_root_hash (se_checkpoint ev)
}.

Lemma run_paused_run {E A R} (pause : option E) (resolve : E → M R) (run : (E → res R) → res A) w w' a m :
  run_paused pause resolve run w = (w', Ok (a, m)) → ∃ f, run f = Ok a.
Proof.
  destruct pause as [e|]; cbn [run_paused].
  - destruct (resolve e w) as [w1 r]. intros Hx. injection Hx as <- Hx. bind_step Hx as b Hb. injection Hx as <- <-. eauto.
  - intros (w1 & b & [-> Hb]%lift_Ok & Hx)%M_bind_Ok. injection Hx as <- <- <-. eauto.
Qed.

Lemma stitch_Ok `{Platform} domain events m l : stitch_migration_history domain events m = Ok l →
  ∃ prior, l = prior ++ events ∧ ∀ first, head events = Some first → is_migration first = false → prior = [].
Proof.
  intros [[-> _]|(m' & first & -> & Hh & Hm & ->)]%stitch_cases; [by exists []|].
  exists (mr_prior_events m'). split; [done|]. intros first' Hf Hn. congruence.
Qed.

Section raw.
Context `{Platform} (now_ms : Z) (check : list nat → res unit) (c : reader_config).

Lemma insert_entry_length e l : length (insert_entry e l) = S (length l).
Proof. induction l as [|y l IH]; cbn; [done|]. case_match; cbn; [done|by rewrite IH]. Qed.

Lemma sort_entries_length l : length (sort_entries l) = length l.
Proof. induction l as [|e l IH]; [done|]. cbn [sort_entries foldr length]. rewrite insert_entry_length. by f_equal. Qed.

Lemma complete_scan_Ok ev l : verified_complete_scan_entries ev = Ok l →
  se_complete ev = true ∧ map ie_index (sort_entries (se_entries ev)) = map Z.of_nat (seq 0 (length (se_entries ev)))
  ∧ len (se_entries ev) = cp_tree_size (se_checkpoint ev)
  ∧ merkle_root_from_entries (map ie_data (sort_entries (se_entries ev))) = cp_root_hash (se_checkpoint ev).
Proof.
  unfold verified_complete_scan_entries, verify_checkpoint_prefix. intros Hx. guard_step Hx as Hc. guard_step Hx as Hneg.
  guard_step Hx as Hl. rewrite negb_false_iff in Hc. rewrite negb_false_iff, Z.eqb_eq in Hl. unfold len in Hl. rewrite sort_entries_length in Hl.
  bind_step Hx as u Hp. assert (prefix_slice (cp_tree_size (se_checkpoint ev)) (sort_entries (se_entries ev)) = sort_entries (se_entries ev)) as He.
  { unfold prefix_slice. rewrite <- Hl. destruct (Z.ltb_spec (Z.of_nat (length (se_entries ev))) 0); [lia|].
    rewrite Nat2Z.id. apply take_ge. rewrite sort_entries_length. lia. }
  rewrite He in Hp. guard_step Hp as Hi. apply raise_if_Ok in Hp. rewrite negb_false_iff, eqb_true in Hp.
  rewrite orb_false_iff, !negb_false_iff, bool_decide_eq_true, sort_entries_length in Hi. destruct Hi as [_ Hi]. done.
Qed.

Lemma prepare_scan_Ok ev w w' t : prepare_scan now_ms c ev w = (w', Ok t) →
  authentic_scan now_ms c ev t ∧ w_stores w' = w_stores w.
Proof.
  unfold prepare_scan. intros (w1 & u & (_ & _ & Hs)%update_budget_Ok & [-> Hx]%lift_Ok)%M_bind_Ok.
  guard_step Hx as Hm. guard_step Hx as Hc. bind_step Hx as p Hp. unfold authenticate_checkpoint in Hp. rewrite try_reraise in Hp.
  destruct (checkpoint_witness_time p) as [t'|] eqn:Ht; [|done]. bind_step Hx as l Hl. apply Ok_inj in Hx as <-.
  apply complete_scan_Ok in Hl as (? & ? & ? & ?). split; [|done]. split; eauto.
Qed.

(** The store ends at the scanned checkpoint, and the checkpoint it held before
    commits to the first entries of the scan. *)
Lemma append_only_Ok path ev t w w' u : wf_store (store_of (rc_store c) w) →
  enforce_append_only_consistency check c path ev t w = (w', Ok u) →
  (∃ cp, store_of (rc_store c) w' !! lr_origin (rc_parsed c) = Some cp
     ∧ tc_tree_size cp = cp_tree_size (se_checkpoint ev) ∧ tc_root_hash cp = cp_root_hash (se_checkpoint ev))
  ∧ ∀ old, store_of (rc_store c) w !! lr_origin (rc_parsed c) = Some old →
      tc_tree_size old ≤ cp_tree_size (se_checkpoint ev)
      ∧ merkle_root_from_entries (map ie_data (prefix_slice (tc_tree_size old) (sort_entries (se_entries ev)))) = tc_root_hash old.
Proof.
  intros Hwf. unfold enforce_append_only_consistency, on_store.
  set (cand := trusted_of _ _ _). destruct (verify_and_advance _ _ _ _) as [s' r] eqn:Hv. intros Hx. injection Hx as <- ->.
  destruct (verify_and_advance_cases _ _ _ _ _ _ Hwf Hv) as (_ & _ & x & Hsnap & Hver & Hcase).
  assert (tc_origin cand = lr_origin (rc_parsed c)) as Ho by done. rewrite Ho in *.
  assert (∀ old, store_of (rc_store c) w !! lr_origin (rc_parsed c) = Some old →
      tc_tree_size old ≤ tc_tree_size cand
      ∧ merkle_root_from_entries (map ie_data (prefix_slice (tc_tree_size old) (sort_entries (se_entries ev)))) = tc_root_hash old) as Hold.
  { intros old Hl. rewrite Hl in Hver. unfold verify_append_only in Hver. pose proof (wf_stored _ (lr_origin (rc_parsed c)) Hwf) as Hst.
    rewrite Hl in Hst. rewrite Hst in Hver. cbn [mbind result_bind] in Hver. guard_step Hver as H1. guard_step Hver as H2.
    apply raise_if_Ok in Hver. rewrite negb_false_iff, eqb_true in Hver. apply Z.ltb_ge in H1. done. }
  split; [|done]. unfold store_of at 1. cbn [w_stores]. rewrite lookup_insert_eq. cbn [default].
  destruct (snapshot_valid _ _ Hsnap) as (_ & _ & Hsz & Hrt).
  destruct Hcase as [[Hx _]|[-> (cur & Hcur & Hlt)]].
  - exists x. split; [done|]. by rewrite Hsz, Hrt.
  - apply Hold in Hcur as [? _]. lia.
Qed.

(** The current stream of the history is a run of the lifecycle machine on the
    entries of the scan, for some answer to the migration it waited for. *)
Lemma scan_history_Ok path ev domain trusted t vm w w' v :
  scan_history check c path ev domain trusted None t vm w = (w', Ok v) →
  vh_checkpoint_witness_time v = t ∧ vh_complete_through v = ThroughSize (cp_tree_size (se_checkpoint ev))
  ∧ (∃ prior, vh_events v = prior ++ map vl_event (vh_current_stream_events v)
       ∧ (∀ first, head (vh_current_stream_events v) = Some first → is_migration (vl_event first) = false → prior = []))
  ∧ ∃ opts f, reader_verifier_options c (rc_parsed c) trusted t = Ok opts
      ∧ (∃ s, lifecycle (scan_options opts f None) (vh_current_stream_events v) s)
      ∧ ∃ ids, NoDup ids ∧ Forall2 (provenance (scan_options opts f None) domain (se_entries ev)) ids (vh_current_stream_events v).
Proof.
  unfold scan_history. intros Hx. apply M_bind_Ok in Hx as (w1 & opts & [-> Ho]%lift_Ok & Hx).
  apply M_bind_Ok in Hx as (w2 & [verified m] & Hrun & Hx). apply M_bind_Ok in Hx as (w3 & ? & [-> _]%lift_Ok & Hx).
  apply M_bind_Ok in Hx as (w4 & ? & _ & Hx). apply M_bind_Ok in Hx as (w5 & events & [-> Hs]%lift_Ok & Hx).
  apply M_bind_Ok in Hx as (w6 & refs & [-> Hr]%lift_Ok & Hx). injection Hx as <- <-. cbn. split_and!; [done..| |].
  - apply stitch_Ok in Hs as (prior & -> & Hp). exists prior. split; [done|]. intros first Hf. apply Hp.
    destruct verified; [done|]. injection Hf as ->. done.
  - apply run_paused_run in Hrun as [f Hf]. exists opts, f. split; [done|]. by apply stream_steps_sound in Hf.
Qed.
End raw.

(** What a raw history rests on.  If a reader over a raw source returns a
    history, then its source returned a complete scan, whose checkpoint the
    policy accepts with the witness time of the history; the entries of the scan
    carry the indexes from 0 to the tree size and hash to the root of the
    checkpoint; the store of the reader trusts a checkpoint of the log at least
    that large, and what it trusted before commits to the first entries of the
    scan; the events of the current stream are a run of the lifecycle machine,
    each the parse of one of the entries; and other events come before them only
    when the stream opens with a MIGRATION. *)
Theorem raw_history_sound `{Platform} (now_ms : Z) (check : list nat → res unit) (fuel : nat) (c : reader_config)
    (load : ParsedC2spTlogLr → str → res StreamEvidence) (factory : option (str → result exn LogReader)) (path : list nat)
    (domain : str) (trusted : JWK) (depth : Z) (w w' : world) (v : VerifiedHistory)
    (Hraw : rc_source c = RawSource load) (Hwf : wf_store (store_of (rc_store c) w))
    (Hload : load_history now_ms check fuel c factory path domain trusted None depth w = (w', Ok v)) :
  ∃ ev, load (rc_parsed c) domain = Ok ev ∧ authentic_scan now_ms c ev (vh_checkpoint_witness_time v)
  ∧ vh_complete_through v = ThroughSize (cp_tree_size (se_checkpoint ev))
  ∧ (∃ cp, store_of (rc_store c) w' !! lr_origin (rc_parsed c) = Some cp ∧ cp_tree_size (se_checkpoint ev) ≤ tc_tree_size cp
       ∧ (tc_tree_size cp = cp_tree_size (se_checkpoint ev) → tc_root_hash cp = cp_root_hash (se_checkpoint ev)))
  ∧ (∀ old, store_of (rc_store c) w !! lr_origin (rc_parsed c) = Some old → tc_tree_size old ≤ cp_tree_size (se_checkpoint ev)
       ∧ merkle_root_from_entries (map ie_data (prefix_slice (tc_tree_size old) (sort_entries (se_entries ev)))) = tc_root_hash old)
  ∧ (∃ prior, vh_events v = prior ++ map vl_event (vh_current_stream_events v)
       ∧ (∀ first, head (vh_current_stream_events v) = Some first → is_migration (vl_event first) = false → prior = []))
  ∧ ∃ opts f, reader_verifier_options c (rc_parsed c) trusted (vh_checkpoint_witness_time v) = Ok opts
      ∧ (∃ s, lifecycle (scan_options opts f None) (vh_current_stream_events v) s)
      ∧ ∃ ids, NoDup ids ∧ Forall2 (provenance (scan_options opts f None) domain (se_entries ev)) ids (vh_current_stream_events v).
Proof.
  assert (∃ vm, (∀ e, Evolving (vm e)) ∧ load_scan now_ms check c path load domain trusted None vm w = (w', Ok v)) as (vm & Hev & Hx).
  { destruct fuel; cbn [load_history] in Hload; unfold load_body in Hload; rewrite Hraw in Hload;
      (eexists; split; [|exact Hload]); intros e; apply evolving_prior_history; intros; auto with evolve. }
  clear Hload. unfold load_scan in Hx. apply M_bind_Ok in Hx as (w1 & ev & [-> Hev']%lift_Ok & Hx).
  apply M_bind_Ok in Hx as (w2 & t & [Has Hst]%prepare_scan_Ok & Hx). apply M_bind_Ok in Hx as (w3 & u & Ha & Hx).
  assert (store_of (rc_store c) w2 = store_of (rc_store c) w) as Hs2 by (unfold store_of; by rewrite Hst).
  pose proof (evolving_append_only check c (0%nat :: path) ev t w2) as He3. rewrite Ha in He3. cbn in He3.
  apply append_only_Ok in Ha as [(cp & Hcp & Hsz & Hrt) Hold]; [|by rewrite Hs2]. rewrite Hs2 in Hold.
  pose proof (evolving_run _ _ _ _ (evolving_scan_history check c _ ev domain trusted None t vm Hev) Hx) as He.
  apply scan_history_Ok in Hx as (-> & Hthrough & Hprior & Hlc). exists ev. split_and!; [done..| |done|done|done].
  destruct (ev_stores _ _ He3 (rc_store c)) as [Hwf3 _]; [by rewrite Hs2|].
  destruct (ev_stores _ _ He (rc_store c) Hwf3) as [_ Hgrow]. destruct (Hgrow _ _ Hcp) as (cp' & Hcp' & Hle & Heq).
  exists cp'. split; [done|]. split; [lia|]. intros E. rewrite <- Heq by lia. done.
Qed.

(** ** The latest event *)
Lemma dt_gt_trans a b c : dt_gt a b = Ok false → dt_gt b c = Ok false → dt_gt a c = Ok false.
Proof.
  unfold dt_gt. destruct (dt_utcoffset a), (dt_utcoffset b), (dt_utcoffset c); try done; intros [= H1%Z.ltb_ge] [= H2%Z.ltb_ge];
    f_equal; apply Z.ltb_ge; lia.
Qed.

Lemma dt_max_latest best l m : dt_max best l = Ok m → dt_gt best m = Ok false ∧ Forall (λ d, dt_gt d m = Ok false) l.
Proof.
  assert (∀ d, dt_gt d d = Ok false) as Hrefl by (intros d; unfold dt_gt; case_match; by rewrite Z.ltb_irrefl).
  revert best. induction l as [|d l IH]; intros best Hx; cbn [dt_max] in Hx; [apply Ok_inj in Hx as <-; done|].
  bind_step Hx as later Hl. apply IH in Hx as [Hb Hr]. destruct later; [|split; [done|constructor; [by eapply dt_gt_trans|done]]].
  split; [|by constructor]. eapply dt_gt_trans; [|exact Hb]. unfold dt_gt in *. destruct (dt_utcoffset d), (dt_utcoffset best); try done;
    injection Hl as Hl%Z.ltb_lt; f_equal; apply Z.ltb_ge; lia.
Qed.

Lemma max_timestamp_latest events m : max_timestamp events = Ok m → Forall (λ e, dt_gt (ev_timestamp e) m = Ok false) events.
Proof. destruct events as [|e events]; [done|]. intros [H1 H2]%dt_max_latest. constructor; [done|]. by rewrite Forall_map in H2. Qed.

(** ** The reader as a machine *)

(** The public methods. *)
Inductive call : Set :=
| Canonical (event : LogEvent)
| RebuildHistory (domain : str)
| PreloadHistory (domain : str) (entity_key : JWK)
| KeyTimestamp (domain thumb : str)
| VerifyBilateralBinding (domain : str) (record_gi : option str) (entity_key operational_key : JWK)
| VerifyOperationalContinuity (domain initial current : str)
| VerifyNonRevocation (domain : str) (at_ : datetime)
| RebuildHistoryThrough (r : cutoff_request)
| ReadEvent (ref : str).

Section machine.
Context `{Platform} (c : reader_config) (factory : option (str → result exn LogReader)).

(** The outcome without the value. *)
Definition outcome {A} (r : reader_object * res A) : reader_object * res unit := (r.1, r.2 ;; Ok ()).

Definition perform (now_ms : Z) (check : list nat → res unit) (path : list nat) (k : call) (o : reader_object)
    : reader_object * res unit :=
  match k with
  | Canonical e => outcome (canonical check c path e o)
  | RebuildHistory d => outcome (rebuild_history now_ms check c factory path d o)
  | PreloadHistory d key => outcome (preload_history now_ms check c factory path d key o)
  | KeyTimestamp d t => outcome (key_timestamp now_ms check c factory path d t o)
  | VerifyBilateralBinding d gi ek ku => outcome (verify_bilateral_binding now_ms check c factory path d gi ek ku o)
  | VerifyOperationalContinuity d i cur => outcome (verify_operational_continuity now_ms check c factory path d i cur o)
  | VerifyNonRevocation d t => outcome (verify_non_revocation now_ms check c factory path d t o)
  | RebuildHistoryThrough r => outcome (rebuild_history_through now_ms check c factory path r o)
  | ReadEvent ref => outcome (read_event now_ms check c factory path ref o)
  end.

Definition object_store (i : nat) (o : reader_object) : checkpoints := default ∅ (ro_stores o !! i).

(** A call, at any time and under any deadline, or an advance of a shared store
    by somebody else. *)
Inductive reader_step (o : reader_object) : reader_object → Prop :=
| step_call now_ms check path k : reader_step o (perform now_ms check path k o).1
| step_shared stores : (∀ i, trust_grows (object_store i o) (object_store i (with_stores o stores))) →
    reader_step o (with_stores o stores).

(** The history came from a complete load for a key with this thumbprint. *)
Definition came_from (domain thumb : str) (v : VerifiedHistory) : Prop :=
  ∃ trusted now_ms check path stores w',
    thumbprint trusted = Ok thumb
    ∧ load_history now_ms check (depth_fuel (rc_migration_limits c)) c factory path domain trusted None 0
        {| w_stores := stores; w_budget := new_budget (rc_migration_limits c) [lr_lr (rc_parsed c)] |} = (w', Ok v).

Definition cache_ok (o : reader_object) : Prop := ∀ d t v, ro_cache o !! (d, t) = Some v → came_from d t v.

(** What every operation does to the object. *)
Record keeps (o o' : reader_object) : Prop := {
  kp_stores : ∀ i, trust_grows (object_store i o) (object_store i o');
  kp_cache : cache_ok o → cache_ok o'
}.

#[local] Instance keeps_preorder : PreOrder keeps.
Proof.
  split.
  - intros o. split; [intros; apply trust_grows_refl|done].
  - intros o1 o2 o3 [] []. split; [intros; by eapply trust_grows_trans|auto].
Qed.

Lemma keeps_load {A} (m : M A) o b w' r : Evolving m → m {| w_stores := ro_stores o; w_budget := b |} = (w', r) →
  keeps o (with_stores o (w_stores w')).
Proof. intros Hm Hx. specialize (Hm {| w_stores := ro_stores o; w_budget := b |}). rewrite Hx in Hm. by split; [apply (ev_stores _ _ Hm)|]. Qed.

Lemma keeps_boundary {A} check path (op : reader_object → reader_object * res A) o : keeps o (op o).1 →
  keeps o (at_boundary check path o op).1.
Proof. intros Hop. unfold at_boundary. destruct (check _) as [u|]; [|reflexivity]. by destruct (op o) as [o' [a|e]]. Qed.

Lemma cached_history_Ok now_ms cache key fresh cache' v : cached_history now_ms c cache key fresh = (cache', v) →
  (∀ k x, cache' !! k = Some x → cache !! k = Some x) ∧ (∀ x, v = Some x → cache !! key = Some x
    ∧ match vh_evidence_expires_at x with Some t => now_ms < t * 1000 | None => True end
    ∧ (fresh = true → checkpoint_is_stale now_ms c (vh_checkpoint_witness_time x) = false)).
Proof.
  unfold cached_history. destruct (cache !! key) as [x|] eqn:Hk; [|by intros [= <- <-]].
  match goal with |- (if ?b then _ else _) = _ → _ => destruct b eqn:Hb end; intros [= <- <-].
  - split; [done|]. intros ? [= <-]. rewrite andb_true_iff, !negb_true_iff in Hb. destruct Hb as [He Hs]. split_and!; [done| |].
    + destruct (vh_evidence_expires_at x); [by apply Z.leb_gt|done].
    + intros ->. done.
  - split; [|done]. intros k y Hy. by apply lookup_delete_Some in Hy as [_ Hy].
Qed.

Lemma load_complete_Ok now_ms check path domain key fresh o o' r :
  load_complete_history now_ms check c factory path domain key fresh o = (o', r) →
  keeps o o' ∧ ro_trusted o' = ro_trusted o ∧ ∀ v, r = Ok v → cache_ok o →
    ∃ trusted t, first_some (first_some key (rc_entity_key c)) (ro_trusted o) = Some trusted
      ∧ thumbprint trusted = Ok t ∧ came_from domain t v.
Proof.
  unfold load_complete_history. destruct (first_some _ _) as [trusted|]; [|intros [= <- <-]; split; [reflexivity|done]].
  destruct (thumbprint trusted) as [t|e] eqn:Ht; [|intros [= <- <-]; split; [reflexivity|done]].
  destruct (cached_history _ _ _ _ _) as [cache [v|]] eqn:Hc; apply cached_history_Ok in Hc as [Hsub Hhit].
  - intros [= <- <-]. split_and!; [split; [intros; apply trust_grows_refl|intros Hok ???; by eauto]|done|].
    intros ? [= <-] Hok. destruct (Hhit _ eq_refl) as [Hk _]. eauto 10.
  - destruct (load_history _ _ _ _ _ _ _ _ _ _ _) as [w' [v|e]] eqn:Hl; intros [= <- <-].
    + pose proof (keeps_load _ (with_cache o cache) _ _ _ (evolving_load_history _ _ _ _ _ _ _ _ _ _) Hl) as [Hs _].
      assert (came_from domain t v) as Hv by (unfold came_from; eauto 10).
      split_and!; [split; [exact Hs|]|done|by intros ? [= <-] _; eauto 10].
      intros Hok d t' x Hx. cbn in Hx. destruct (decide ((domain, t) = (d, t'))) as [[= <- <-]|Hne].
      * rewrite lookup_insert_eq in Hx. by injection Hx as <-.
      * rewrite lookup_insert_ne in Hx by done. eauto.
    + pose proof (keeps_load _ (with_cache o cache) _ _ _ (evolving_load_history _ _ _ _ _ _ _ _ _ _) Hl) as [Hs _].
      split_and!; [split; [exact Hs|intros Hok ???; by eauto]|done|done].
Qed.
Lemma keeps_then {A} now_ms check path domain key fresh o (k : VerifiedHistory → res A) :
  keeps o (then_pure (load_complete_history now_ms check c factory path domain key fresh o) k).1.
Proof.
  destruct (load_complete_history _ _ _ _ _ _ _ _ _) as [o' [v|e]] eqn:Hl; apply load_complete_Ok in Hl as [Hk _]; exact Hk.
Qed.

Lemma evolving_authorise now_ms check path ev domain key : Evolving (authorise_scan now_ms check c factory path ev domain key).
Proof. unfold authorise_scan. evolve. Qed.

Lemma perform_keeps now_ms check path k o : keeps o (perform now_ms check path k o).1.
Proof.
  destruct k as [e|d|d key|d t|d gi ek ku|d i cur|d t|r|ref]; cbn [perform outcome fst]; apply keeps_boundary;
    try apply keeps_then; [reflexivity|..].
  - assert (keeps o (rebuild_history now_ms check c factory (2%nat :: path) d o).1) as Hk by apply keeps_boundary, keeps_then.
    by destruct (rebuild_history _ _ _ _ _ _ _) as [o' [l|e]].
  - destruct (d ==? []); [reflexivity|]. destruct (load_complete_history _ _ _ _ _ _ _ _ _) as [o' [v|e]] eqn:Hl;
      apply load_complete_Ok in Hl as [Hk _]; [|exact Hk]. destruct (binding_head _ _ _); [|exact Hk].
    destruct Hk as [Hs Hc]. split; [exact Hs|exact Hc].
  - cbv zeta. destruct (cutoff_context _ _ _ _) as [[index b]|e]; [|reflexivity].
    destruct (load_history _ _ _ _ _ _ _ _ _ _ _) as [w' [v|e]] eqn:Hl; (eapply keeps_load; [|exact Hl]); apply evolving_load_history.
  - destruct (_ ← _; _) as [[[[[p ev] en] event] key]|e]; [|reflexivity]. destruct (is_bundle_source c); [apply keeps_then|].
    destruct (authorise_scan _ _ _ _ _ _ _ _ _) as [w' [[v t]|e]] eqn:Hl; (eapply keeps_load; [|exact Hl]); apply evolving_authorise.
Qed.

Lemma step_keeps o o' : reader_step o o' → keeps o o'.
Proof. intros [now_ms check path k|stores Hs]; [apply perform_keeps|]. by split. Qed.

Lemma steps_keep o o' : rtc reader_step o o' → keeps o o'.
Proof. induction 1 as [o|o1 o2 o3 Hs _ IH]; [reflexivity|]. etrans; [by apply step_keeps|done]. Qed.

(** C17 The invariant of a reader.  Whatever methods are called, at whatever times,
    with whatever deadlines and failures, and however other users advance shared
    stores: every store that was well formed stays so and never loses or
    replaces a trusted checkpoint except by one that is larger, or equal; and
    every history in the cache was loaded and verified in full for its domain
    and for a key with its thumbprint. *)
Theorem reader_invariant (o0 o : reader_object) (Hempty : ro_cache o0 = ∅) (Hreach : rtc reader_step o0 o) :
  (∀ i, trust_grows (object_store i o0) (object_store i o)) ∧ cache_ok o.
Proof.
  destruct (steps_keep _ _ Hreach) as [Hs Hc]. split; [done|]. apply Hc. intros d t v Hv. by rewrite Hempty, lookup_empty in Hv.
Qed.

(** ** Errors *)
Lemma boundary_error_plain e : is_c2sp (boundary_error e) = false ∧ ∀ k m, boundary_error e ≠ OSError k m.
Proof.
  unfold boundary_error. destruct (is_verification e) eqn:Hv; [by destruct e|]. destruct (is_c2sp e) eqn:Hc; [by split|].
  by destruct e.
Qed.

Definition outside_c2sp {A} (r : res A) : Prop :=
  match r with Ok _ => True | Raise e => is_c2sp e = false ∧ ∀ k m, e ≠ OSError k m end.

Lemma boundary_outside {A} check path o (op : reader_object → reader_object * res A) :
  (∀ p, outside_c2sp (check p)) → outside_c2sp (at_boundary check path o op).2.
Proof.
  intros Hc. unfold at_boundary. pose proof (Hc (0%nat :: path)) as H0. destruct (check (0%nat :: path)) as [u|e]; [|done].
  destruct (op o) as [o' [a|e]]; cbn; [|apply boundary_error_plain].
  pose proof (Hc (1%nat :: path)) as H1. by destruct (check (1%nat :: path)).
Qed.

(** The boundary of the reader: no public method ever raises an error of the
    C2SP classes or an operating-system error, whatever its sources, stores and
    predecessors raise; they all come out as verification errors.  (A missed
    deadline passes through as it is.) *)
Theorem reader_errors_adapted (now_ms : Z) (check : list nat → res unit) (path : list nat) (k : call) (o : reader_object)
    (Hcheck : ∀ p, check p = Ok () ∨ check p = Raise BudgetExhausted) :
  outside_c2sp (perform now_ms check path k o).2.
Proof.
  assert (∀ p, outside_c2sp (check p)) as Hc by (intros p; by destruct (Hcheck p) as [->| ->]).
  assert (∀ A (r : reader_object * res A), outside_c2sp r.2 → outside_c2sp (outcome r).2) as Ho by (by intros A [o' [a|e]]).
  destruct k; apply Ho, boundary_outside, Hc.
Qed.
(** ** Answers *)
Lemma came_from_refs d t v : came_from d t v → len (vh_event_refs v) = len (vh_events v).
Proof. intros (trusted & now & chk & path & stores & w' & _ & Hl). by apply load_history_loaded in Hl as []. Qed.

Lemma at_boundary_Ok {A} check path (op : reader_object → reader_object * res A) o o' a :
  at_boundary check path o op = (o', Ok a) → op o = (o', Ok a).
Proof.
  unfold at_boundary. destruct (check _) as [u|]; [|done]. destruct (op o) as [o1 [x|e]]; [|done].
  intros Hx. injection Hx as -> Hx. bind_step Hx as u' Hu. by apply Ok_inj in Hx as ->.
Qed.

Lemma then_pure_Ok {A} (m : reader_object * res VerifiedHistory) (k : VerifiedHistory → res A) o a :
  then_pure m k = (o, Ok a) → ∃ v, m = (o, Ok v) ∧ k v = Ok a.
Proof. destruct m as [o' [v|e]]; [|done]. intros [= -> Hk]. eauto. Qed.

(** The events not later than a time: a beginning of the history that opens with
    the only ISSUANCE and contains no revocation and no retirement. *)
Definition active_until (at_ : datetime) (events before : list LogEvent) : Prop :=
  before `prefix_of` events
  ∧ (∀ e, e ∈ before → dt_gt (ev_timestamp e) at_ = Ok false)
  ∧ (∀ e, e ∈ drop (length before) events → dt_gt (ev_timestamp e) at_ = Ok true)
  ∧ (∃ e0 rest, before = e0 :: rest ∧ is_issuance e0 = true ∧ Forall (λ e, is_issuance e = false) rest)
  ∧ Forall (λ e, is_terminal e = false) before.

Lemma snapshot_active domain events at_ snap : snapshot_at domain events at_ = Ok snap → ds_historical_state snap = Active →
  active_until at_ events (ds_events snap).
Proof.
  intros Hs Ha. destruct (snapshot_is_prefix _ _ _ _ Hs) as ((after & He & H1 & H2 & _) & Hi & Ht & _). rewrite Ha in Ht.
  rewrite Forall_forall in H1, H2. split_and!; [by exists after|done| |done|done].
  intros e. rewrite He, drop_app_length. apply H2.
Qed.

(** With the references in place, the only grounds for refusal are staleness and
    the state. *)
Lemma non_revocation_iff now_ms domain at_ v ev : len (vh_event_refs v) = len (vh_events v) →
  non_revocation now_ms c domain at_ v = Ok ev ↔
  (∃ f, rc_checkpoint_freshness_ms c = Some f ∧ now_ms - vh_checkpoint_witness_time v * 1000 ≤ f)
  ∧ ∃ snap first last, snapshot_at domain (vh_events v) at_ = Ok snap ∧ ds_historical_state snap = Active
    ∧ head (vh_event_refs v) = Some first ∧ vh_event_refs v !! (length (ds_events snap) - 1)%nat = Some last
    ∧ ev = {| le_log_reference := lr_lr (rc_parsed c); le_logged_state := Active; le_history_start := first;
              le_history_end := last; le_complete_through := vh_complete_through v;
              le_completeness_mode := vh_completeness_mode v; le_checkpoint := vh_checkpoint v;
              le_freshness_time := vh_checkpoint_witness_time v |}.
Proof.
  intros Hl. unfold non_revocation, assert_fresh, checkpoint_is_stale. split.
  - intros Hx. rewrite bind_unit_Ok in Hx. destruct Hx as [Hf Hx]. guard_step Hf as Hn. apply raise_if_Ok in Hf.
    destruct (rc_checkpoint_freshness_ms c) as [f|]; [|by rewrite bool_decide_eq_true_2 in Hn]. apply Z.ltb_ge in Hf.
    split; [by eauto|]. bind_step Hx as snap Hs. guard_step Hx as Ha. rewrite negb_false_iff, bool_decide_eq_true in Ha.
    guard_step Hx as Hr. destruct (head (vh_event_refs v)) as [first|]; [|done].
    destruct (vh_event_refs v !! _) as [last|] eqn:Hlast; [|done]. apply Ok_inj in Hx as <-. rewrite Ha.
    exists snap, first, last. done.
  - intros [(f & Hf & Hle) (snap & first & last & Hs & Ha & Hh & Hlast & ->)]. rewrite Hf.
    rewrite bool_decide_eq_false_2 by done. res_cbn. rewrite (proj2 (Z.ltb_ge _ _) Hle). res_cbn. rewrite Hs. res_cbn.
    rewrite Ha. rewrite bool_decide_eq_true_2 by done. res_cbn. rewrite Hl, Z.eqb_refl. res_cbn. by rewrite Hh, Hlast.
Qed.

(** C16 Non-revocation: when a reader in any state it can reach vouches for a domain
    at a time, there is a history of the domain that it loaded and verified in
    full for its trusted key, under a checkpoint whose witness time is within the
    configured freshness; the events of that history not later than the time
    open with the only ISSUANCE and none of them revokes or retires the
    identity; and the evidence names the references of the first and the last
    of them.  Fresh and active are also enough: on such a history the check
    never fails. *)
Theorem non_revocation_sound (o0 o o' : reader_object) (now_ms : Z) (check : list nat → res unit) (path : list nat)
    (domain : str) (at_ : datetime) (ev : LoggedStateEvidence)
    (Hempty : ro_cache o0 = ∅) (Hreach : rtc reader_step o0 o)
    (Hok : verify_non_revocation now_ms check c factory path domain at_ o = (o', Ok ev)) :
  ∃ trusted thumb v before,
    first_some (rc_entity_key c) (ro_trusted o) = Some trusted ∧ thumbprint trusted = Ok thumb ∧ came_from domain thumb v
    ∧ (∃ f, rc_checkpoint_freshness_ms c = Some f ∧ now_ms - vh_checkpoint_witness_time v * 1000 ≤ f)
    ∧ active_until at_ (vh_events v) before
    ∧ le_logged_state ev = Active ∧ head (vh_event_refs v) = Some (le_history_start ev)
    ∧ vh_event_refs v !! (length before - 1)%nat = Some (le_history_end ev)
    ∧ (∀ at', (∃ snap, snapshot_at domain (vh_events v) at' = Ok snap ∧ ds_historical_state snap = Active) →
         is_Ok (non_revocation now_ms c domain at' v) = true).
Proof.
  destruct (steps_keep _ _ Hreach) as [_ Hcache]. unfold verify_non_revocation in Hok. apply at_boundary_Ok, then_pure_Ok in Hok as (v & Hl & Hv).
  apply load_complete_Ok in Hl as (_ & _ & Hload). destruct (Hload v eq_refl) as (trusted & t & Ht & Hth & Hfrom).
  { apply Hcache. intros d t x Hx. by rewrite Hempty, lookup_empty in Hx. }
  pose proof (came_from_refs _ _ _ Hfrom) as Hrefs. apply (non_revocation_iff _ _ _ _ _ Hrefs) in Hv as [Hfresh (snap & first & last & Hs & Ha & Hh & Hlast & ->)].
  exists trusted, t, v, (ds_events snap). split_and!; [done..|by eapply snapshot_active|done|done|done|].
  intros at' (snap' & Hs' & Ha'). destruct (snapshot_active _ _ _ _ Hs' Ha') as ([after He] & _ & _ & (e0 & rest & Hb & _) & _).
  assert (length (ds_events snap') - 1 < length (vh_event_refs v))%nat as Hlt.
  { unfold len in Hrefs. apply Nat2Z.inj in Hrefs. rewrite Hrefs, He, Hb, length_app. cbn. lia. }
  apply lookup_lt_is_Some in Hlt as [l' Hl'].
  match goal with |- is_Ok ?m = true => destruct m as [x|e] eqn:E; [done|] end. exfalso.
  pose proof (proj2 (non_revocation_iff now_ms domain at' v _ Hrefs) (conj Hfresh (ex_intro _ snap' (ex_intro _ first (ex_intro _ l'
    (conj Hs' (conj Ha' (conj Hh (conj Hl' eq_refl))))))))) as E'. congruence.
Qed.

(** C33 A history rebuilt through a cutoff keeps within its bounds: it has between
    one and the allowed number of events, counting those of every previous log,
    the octets read for all of them are within the allowed number, each event
    has its reference, and the last reference is exactly the cutoff asked for. *)
Theorem cutoff_history_bounded (now_ms : Z) (check : list nat → res unit) (path : list nat) (r : cutoff_request)
    (o o' : reader_object) (h : VerifiedCutoffHistory)
    (Hok : rebuild_history_through now_ms check c factory path r o = (o', Ok h)) :
  1 ≤ len (vc_events h) ≤ cr_max_events r ∧ vc_response_bytes h ≤ cr_max_response_bytes r
  ∧ len (vc_event_refs h) = len (vc_events h) ∧ last (vc_event_refs h) = Some (cr_final_entry_ref r).
Proof.
  unfold rebuild_history_through in Hok. apply at_boundary_Ok in Hok. cbv zeta in Hok.
  destruct (cutoff_context _ _ _ _) as [[index b]|e] eqn:Hb; [|done].
  assert (b = {| mb_limits := {| max_depth := cr_max_depth r; max_history_events := cr_max_events r; max_response_bytes := cr_max_response_bytes r |};
                 mb_seen := lr_lr (rc_parsed c) :: cr_seen r; mb_history_events := 0; mb_response_bytes := 0; mb_active := true |}) as ->.
  { unfold cutoff_context in Hb. bind_step Hb as p Hp. destruct (lr_entry_index p); [|done]. guard_step Hb as H1.
    bind_step Hb as u Hu. bind_step Hb as u' Hu'. by injection Hb as _ <-. }
  destruct (load_history _ _ _ _ _ _ _ _ _ _ _) as [w [v|e]] eqn:Hl; [|done]. injection Hok as <- Hx.
  guard_step Hx as Hlast. rewrite negb_false_iff, eqb_true in Hlast. apply Ok_inj in Hx as <-. cbn.
  apply load_history_loaded in Hl as [Hc Hw Hr He]. unfold charged in Hc. cbn in Hc. unfold within_limits in Hw.
  rewrite (ev_limits _ _ He) in Hw. destruct Hw as [Hw1 Hw2]; [by apply (ev_active _ _ He)|]. cbn in Hw1, Hw2.
  split_and!; [|lia|lia|done|done]. rewrite <- Hr. destruct (vh_event_refs v) as [|x l]; [done|]. rewrite len_cons.
  pose proof (len_nonneg l). lia.
Qed.
(** A current snapshot covers the whole history. *)
Lemma current_active domain v snap : current_snapshot domain (vh_events v) = Ok snap → ds_historical_state snap = Active →
  ds_events snap = vh_events v ∧ Forall (λ e, is_terminal e = false) (vh_events v)
  ∧ thumbprint (ds_active_key snap) = Ok (ds_active_key_thumbprint snap).
Proof.
  unfold current_snapshot. intros Hx Ha. bind_step Hx as t Ht. apply max_timestamp_latest in Ht.
  destruct (snapshot_is_prefix _ _ _ _ Hx) as ((after & He & _ & H2 & _) & _ & Hterm & Hth). rewrite Ha in Hterm.
  assert (after = []) as ->.
  { destruct after as [|e after]; [done|]. rewrite He in Ht. apply Forall_app in Ht as [_ Ht].
    apply Forall_cons in Ht as [Ht _], H2 as [H2 _]. congruence. }
  rewrite app_nil_r in He. by rewrite He.
Qed.

Definition introduces (thumb : str) (e : LogEvent) : Prop := introduces_key thumb e = Ok true.

Lemma any_introduces_true events thumb : any_introduces events thumb = Ok true → ∃ e, e ∈ events ∧ introduces thumb e.
Proof.
  induction events as [|e events IH]; cbn [any_introduces]; [done|]. intros Hx. bind_step Hx as found Hf.
  destruct found; [exists e; split; [left|done]|]. apply IH in Hx as (e' & Hin & He). exists e'. split; [by right|done].
Qed.

Lemma bilateral_binding_facts (o0 o o' : reader_object) (now_ms : Z) (check : list nat → res unit) (path : list nat)
    (domain : str) (record_gi : option str) (entity_key operational_key : JWK) (b : BilateralBindingResult)
    (Hempty : ro_cache o0 = ∅) (Hreach : rtc reader_step o0 o)
    (Hok : verify_bilateral_binding now_ms check c factory path domain record_gi entity_key operational_key o = (o', Ok b)) :
  ro_trusted o' = Some entity_key
  ∧ ∃ v issuance gi ek ku current,
      thumbprint entity_key = Ok (bb_initial_entity_thumbprint b)
      ∧ came_from domain (bb_initial_entity_thumbprint b) v ∧ Forall (λ e, is_terminal e = false) (vh_events v)
      ∧ issuance ∈ vh_events v ∧ ev_body issuance = IssuanceEvent gi (Some ek) (Some ku)
      ∧ ev_domain issuance = domain ∧ record_gi = Some gi ∧ ev_timestamp issuance = bb_timestamp b
      ∧ thumbprint ek = Ok (bb_initial_entity_thumbprint b) ∧ thumbprint ku = Ok (bb_initial_operational_thumbprint b)
      ∧ thumbprint operational_key = Ok current ∧ ∃ e, e ∈ vh_events v ∧ introduces current e.
Proof.
  destruct (steps_keep _ _ Hreach) as [_ Hcache]. unfold verify_bilateral_binding in Hok. apply at_boundary_Ok in Hok.
  destruct (domain ==? []); [done|]. destruct (load_complete_history _ _ _ _ _ _ _ _ _) as [o1 [v|e]] eqn:Hl; [|done].
  apply load_complete_Ok in Hl as (_ & _ & Hload). destruct (Hload v eq_refl) as (trusted & t & [= <-] & Hth & Hfrom).
  { apply Hcache. intros d t x Hx. by rewrite Hempty, lookup_empty in Hx. }
  destruct (binding_head domain entity_key v) as [initial|e] eqn:Hh; [|done]. injection Hok as <- Hx. split; [done|].
  unfold binding_head in Hh. rewrite Hth in Hh. cbn [mbind result_bind] in Hh. bind_step Hh as snap Hs. guard_step Hh as Ha.
  rewrite negb_false_iff, bool_decide_eq_true in Ha. apply Ok_inj in Hh as <-. destruct (current_active _ _ _ Hs Ha) as (_ & Hterm & _).
  unfold binding_tail in Hx. destruct (find_issuance (vh_events v)) as [issuance|] eqn:Hf; [|done].
  apply List.find_some in Hf as [Hin Hi]. apply list_elem_of_In in Hin. unfold issuance_keys, issuance_governance_id in Hx.
  destruct (ev_body issuance) as [gi [ek|] [ku|]| | | | |] eqn:Hbody; try done. guard_step Hx as Hd.
  rewrite orb_false_iff, !negb_false_iff, !eqb_true in Hd. destruct Hd as [Hd Hgi]. bind_step Hx as te He. guard_step Hx as Hte.
  rewrite negb_false_iff, eqb_true in Hte. bind_step Hx as cur Hc. bind_step Hx as found Hfound. guard_step Hx as Hrec.
  bind_step Hx as tu Hu. apply Ok_inj in Hx as <-. cbn. rewrite negb_false_iff in Hrec. subst found te.
  exists v, issuance, gi, ek, ku, cur. split_and!; [done..|by apply any_introduces_true].
Qed.

(** Bilateral binding: when the check succeeds, the reader now trusts the given
    entity key; there is a history of the domain that it loaded and verified in
    full for that key, without any revocation or retirement; an ISSUANCE in it
    for the same domain and governance identifier carries an entity key with the
    same thumbprint and the operational key whose thumbprint is reported; and
    the current operational key is one that some event of the history
    introduced. *)
Theorem bilateral_binding_sound (o0 o o' : reader_object) (now_ms : Z) (check : list nat → res unit) (path : list nat)
    (domain : str) (record_gi : option str) (entity_key operational_key : JWK) (b : BilateralBindingResult)
    (Hempty : ro_cache o0 = ∅) (Hreach : rtc reader_step o0 o)
    (Hok : verify_bilateral_binding now_ms check c factory path domain record_gi entity_key operational_key o = (o', Ok b)) :
  ro_trusted o' = Some entity_key
  ∧ ∃ v issuance gi ek ku current,
      thumbprint entity_key = Ok (bb_initial_entity_thumbprint b)
      ∧ came_from domain (bb_initial_entity_thumbprint b) v ∧ Forall (λ e, is_terminal e = false) (vh_events v)
      ∧ issuance ∈ vh_events v ∧ ev_body issuance = IssuanceEvent gi (Some ek) (Some ku)
      ∧ ev_domain issuance = domain ∧ record_gi = Some gi ∧ ev_timestamp issuance = bb_timestamp b
      ∧ thumbprint ek = Ok (bb_initial_entity_thumbprint b) ∧ thumbprint ku = Ok (bb_initial_operational_thumbprint b)
      ∧ thumbprint operational_key = Ok current ∧ ∃ e, e ∈ vh_events v ∧ introduces current e.
Proof. by eapply bilateral_binding_facts. Qed.
End machine.

(** ** A reader at work *)
Definition toy_lr_text : str := lit "c2sp-tlog:public:https://log.example/dns#abc-1".
Definition toy_parsed : ParsedC2spTlogLr :=
  Eval vm_compute in
    match parse_c2sp_tlog_lr netloc_ok str_lower toy_lr_text with Ok p => p | Raise _ => demo_parsed [] None end.
Definition toy_policy : C2spTlogPolicy :=
  Eval vm_compute in
    match parse_policy (utf8_bytes toy_policy_text) with Ok p => p | Raise _ => {| origins := []; policy_scope := None |} end.

Definition active_log : list bytes := take 4 toy_log.
Definition active_evidence : StreamEvidence :=
  Eval vm_compute in
    {| se_checkpoint := match parse_checkpoint (toy_checkpoint_text active_log) with
                        | Ok cp => cp | Raise _ => demo_checkpoint 0 [] [] end;
       se_entries := imap (λ i d, {| ie_index := Z.of_nat i; ie_data := d |}) active_log;
       se_complete := true; se_checkpoint_bytes := utf8_bytes (toy_checkpoint_text active_log);
       se_completeness_mode := lit "full-scan"; se_complete_through_size := Some 4; se_response_bytes := Some 5000 |}.
Definition serve_active (reference : ParsedC2spTlogLr) (domain : str) : res StreamEvidence := Ok active_evidence.

Definition toy_limits : C2spMigrationVerificationLimits :=
  {| max_depth := 2; max_history_events := 100; max_response_bytes := 100000 |}.
Definition toy_reader : reader_config :=
  {| rc_parsed := toy_parsed; rc_policy := toy_policy; rc_source := RawSource serve_active; rc_proofs := [];
     rc_unchained := Some false; rc_entity_key := Some entity; rc_max_clock_skew_ms := 60000;
     rc_checkpoint_freshness_ms := Some 600000; rc_max_tree_size := Some 1000; rc_migration_limits := toy_limits;
     rc_store := 0%nat |}.
Definition toy_now : Z := 1700001000000.
Definition toy_object : reader_object := {| ro_stores := ∅; ro_cache := ∅; ro_trusted := None |}.
Definition toy_world : world :=
  {| w_stores := ∅; w_budget := new_budget toy_limits [lr_lr toy_parsed] |}.
Definition no_history : VerifiedHistory :=
  {| vh_events := []; vh_checkpoint_witness_time := 0; vh_complete_through := ThroughSize 0; vh_completeness_mode := [];
     vh_checkpoint := NoCheckpoint; vh_evidence_expires_at := None; vh_current_stream_events := []; vh_event_refs := [] |}.
Definition value_of {A} (d : A) (r : res A) : A := match r with Ok a => a | Raise _ => d end.

(** The history it loads: the issuance and the rotation. *)
Definition toy_load (fuel : nat) : world * res VerifiedHistory :=
  load_history toy_now no_deadline fuel toy_reader None [] toy_domain entity None 0 toy_world.
Definition toy_verified : VerifiedHistory := Eval vm_compute in value_of no_history (toy_load 2).2.
Example toy_verified_bodies : map ev_body (vh_events toy_verified) = [issuance_body; ev_body rotation].
Proof. vm_compute. reflexivity. Qed.

(** Only the value is evaluated. *)
Local Abbreviation gives run v := (run = (fst run, Ok v)).
Ltac evaluate := apply pair_by_snd; vm_compute; reflexivity.

Lemma toy_loads : gives (load_history toy_now no_deadline 2 toy_reader None [] toy_domain entity None 0 toy_world) toy_verified.
Proof. evaluate. Qed.

(** ** Witnesses *)
Lemma migration_recursion_terminates_witness : toy_load 7 = toy_load (Z.to_nat (max_depth toy_limits - 0)).
Proof.
  exact (migration_recursion_terminates toy_now no_deadline toy_reader None [] toy_domain entity None 0 toy_world 7
    ltac:(vm_compute; discriminate)).
Defined.

Lemma raw_history_sound_witness :
  authentic_scan toy_now toy_reader active_evidence 1700000900 ∧ vh_complete_through toy_verified = ThroughSize 4.
Proof.
  destruct (raw_history_sound toy_now no_deadline 2 toy_reader serve_active None [] toy_domain entity 0 toy_world _
    toy_verified eq_refl wf_store_empty toy_loads) as (ev & [= <-] & Has & Ht & _).
  split; [exact Has|exact Ht].
Defined.

(** One call on a new object. *)
Definition toy_after : reader_object :=
  Eval vm_compute in (perform toy_reader None toy_now no_deadline [] (PreloadHistory toy_domain entity) toy_object).1.
Lemma toy_after_perform : (perform toy_reader None toy_now no_deadline [] (PreloadHistory toy_domain entity) toy_object).1 = toy_after.
Proof. vm_compute. reflexivity. Qed.
Lemma toy_after_reached : rtc (reader_step toy_reader None) toy_object toy_after.
Proof. apply rtc_once. rewrite <- toy_after_perform. apply step_call. Qed.

Lemma reader_invariant_witness : cache_ok toy_reader None toy_after ∧ ro_cache toy_after !! (toy_domain, toy_thumb entity) = Some toy_verified.
Proof.
  split; [|vm_compute; reflexivity].
  apply (reader_invariant toy_reader None toy_object toy_after); [reflexivity|exact toy_after_reached].
Defined.

(** The source of a reader that cannot be read. *)
Definition broken_reader : reader_config :=
  {| rc_parsed := toy_parsed; rc_policy := toy_policy; rc_source := RawSource (λ _ _, Raise (OSError OSConnection (lit "refused")));
     rc_proofs := []; rc_unchained := None; rc_entity_key := Some entity; rc_max_clock_skew_ms := 60000;
     rc_checkpoint_freshness_ms := None; rc_max_tree_size := None; rc_migration_limits := toy_limits; rc_store := 0%nat |}.
Lemma reader_errors_adapted_witness :
  is_Ok (perform broken_reader None toy_now no_deadline [] (RebuildHistory toy_domain) toy_object).2 = false
  ∧ outside_c2sp (perform broken_reader None toy_now no_deadline [] (RebuildHistory toy_domain) toy_object).2.
Proof. split; [vm_compute; reflexivity|]. apply reader_errors_adapted. intros p. left. reflexivity. Defined.

(** Between the rotation and the revocation of the full log. *)
Definition toy_at : datetime := utc 1700000150000000.
Definition toy_voucher : LoggedStateEvidence :=
  {| le_log_reference := toy_lr_text; le_logged_state := Active; le_history_start := toy_lr_text ++ lit "@1";
     le_history_end := toy_lr_text ++ lit "@3"; le_complete_through := ThroughSize 4; le_completeness_mode := lit "full-scan";
     le_checkpoint := vh_checkpoint toy_verified; le_freshness_time := 1700000900 |}.
Lemma toy_vouched : gives (verify_non_revocation toy_now no_deadline toy_reader None [] toy_domain toy_at toy_after) toy_voucher.
Proof. evaluate. Qed.
Lemma non_revocation_sound_witness : ∃ thumb v before,
  came_from toy_reader None toy_domain thumb v ∧ active_until toy_at (vh_events v) before
  ∧ vh_event_refs v !! (length before - 1)%nat = Some (toy_lr_text ++ lit "@3").
Proof.
  destruct (non_revocation_sound toy_reader None toy_object toy_after _ toy_now no_deadline [] toy_domain toy_at toy_voucher
    eq_refl toy_after_reached toy_vouched) as (trusted & t & v & before & _ & _ & Hf & _ & Ha & _ & _ & Hl & _).
  exists t, v, before. split; [exact Hf|]. split; [exact Ha|exact Hl].
Defined.

(** The history through the rotation, within the tightest bounds. *)
Definition toy_request : cutoff_request :=
  {| cr_domain := toy_domain; cr_final_entry_ref := toy_lr_text ++ lit "@3"; cr_entity_key := entity; cr_max_depth := 1;
     cr_max_events := 2; cr_max_response_bytes := 5000; cr_seen := [] |}.
Definition toy_cutoff : VerifiedCutoffHistory :=
  {| vc_events := vh_events toy_verified; vc_event_refs := [toy_lr_text ++ lit "@1"; toy_lr_text ++ lit "@3"]; vc_response_bytes := 5000 |}.
Lemma toy_rebuilds : gives (rebuild_history_through toy_now no_deadline toy_reader None [] toy_request toy_object) toy_cutoff.
Proof. evaluate. Qed.
Lemma cutoff_history_bounded_witness :
  1 ≤ len (vc_events toy_cutoff) ≤ 2 ∧ last (vc_event_refs toy_cutoff) = Some (toy_lr_text ++ lit "@3").
Proof.
  destruct (cutoff_history_bounded toy_reader None toy_now no_deadline [] toy_request toy_object _ toy_cutoff toy_rebuilds) as (H1 & _ & _ & H2). split; [exact H1|exact H2].
Defined.

Definition toy_binding : BilateralBindingResult :=
  Eval vm_compute in
    {| bb_initial_operational_thumbprint := toy_thumb op1; bb_initial_entity_thumbprint := toy_thumb entity;
       bb_timestamp := ev_timestamp issuance |}.
Lemma toy_binds :
  gives (verify_bilateral_binding toy_now no_deadline toy_reader None [] toy_domain (Some (lit "gi-1")) entity op2 toy_after) toy_binding.
Proof. evaluate. Qed.
Lemma bilateral_binding_sound_witness : ∃ v e, came_from toy_reader None toy_domain (toy_thumb entity) v
  ∧ e ∈ vh_events v ∧ introduces (toy_thumb op2) e.
Proof.
  destruct (bilateral_binding_sound toy_reader None toy_object toy_after _ toy_now no_deadline [] toy_domain
    (Some (lit "gi-1")) entity op2 toy_binding eq_refl toy_after_reached toy_binds)
    as (_ & v & i & gi & ek & ku & current & _ & Hf & _ & _ & _ & _ & _ & _ & _ & _ & Hc & e & Hin & He).
  exists v, e. split; [exact Hf|]. split; [exact Hin|]. vm_compute in Hc. apply Ok_inj in Hc. subst current. exact He.
Defined.
