(* ===== verification/Manager.v ===== *)
(** * The identity manager ([dnsid/manager.py])

    Verification of an identity from DNS, key sets, status and lifecycle log,
    with its cache, its per-caller policies and its configuration.

    Every call of something outside is numbered by the path that leads to it,
    and the environment answers each on its own: no order is assumed between
    the answers given to branches that run concurrently.  The manager's cache is
    explicit state, which survives exceptions. *)
From S2P Require Import Prelude Errors Concurrency PyText Base64 Utils Lr ResourceFetcher Canonical Keys PyTime EventCodec DomainLog TxtRecord Identity HttpsClient Reader.

(** ** Interfaces *)

(** [TXTRecord]; [txt_ttl] is [None] for a value that is not an [int]. *)
Record TXTRecord : Set := { txt_strings : list bytes; txt_ttl : option Z }.

(** [.decode("ascii")] and [.encode("ascii")] *)
Definition ascii_only (s : list Z) : res (list Z) :=
  raise_if (negb (forallb (λ c, c <? 128) s)) (ValueError (lit "ordinal not in range(128)")) ;; Ok s.
Definition concatenate_strings (r : TXTRecord) : res str := ascii_only (concat (txt_strings r)).

(** What [DNSResolver.fetch_txt] does: an answer (the state is [None] when it is
    not a [DNSSECState]), [NXDOMAIN] or [NoAnswer], [ValidationFailure], or
    another exception. *)
Inductive dns_outcome : Set :=
| DnsAnswer (records : list TXTRecord) (state : option DNSSECState)
| DnsNoRecord
| DnsBogus
| DnsRaised (e : exn).

(** A log reader, with its identity as an object; optional methods are [None]
    when the object lacks them.  The bilateral binding is given by its
    [initial_operational_thumbprint]. *)
Record log_binding : Type := {
  lb_id : nat;
  lb_preload_history : option (list nat → str → JWK → res unit);
  lb_verify_bilateral_binding : option (list nat → DnsIdTxtRecord → JWK → JWK → res str);
  lb_verify_operational_continuity : option (list nat → str → str → str → res unit);
  lb_key_timestamp : list nat → str → str → res datetime;
  lb_verify_non_revocation : list nat → str → datetime → res LoggedStateEvidence;
  lb_rebuild_history : list nat → str → res (list LogEvent);
  lb_canonical : list nat → LogEvent → res bytes
}.

(** [NoopLogReader] *)
Definition noop_error (method : str) : exn :=
  VerificationError LOG_ERROR (lit "no LogReader registered for log method " ++ method) false None.
Definition unsupported_error : exn := vfail LOG_ERROR "does not support an operation required by draft 01 verification".
Definition NoopLogReader (method : str) : log_binding :=
  {| lb_id := 0; lb_preload_history := None;
     lb_verify_bilateral_binding := Some (λ _ _ _ _, Raise unsupported_error);
     lb_verify_operational_continuity := Some (λ _ _ _ _, Raise unsupported_error);
     lb_key_timestamp := λ _ _ _, Raise (noop_error method);
     lb_verify_non_revocation := λ _ _ _, Raise (noop_error method);
     lb_rebuild_history := λ _ _, Raise (noop_error method);
     lb_canonical := λ _ _, Raise (noop_error method) |}.

(** [LogRegistry]: the factories by method, last registration first. *)
Definition LogRegistry : Type := list (str * (list nat → str → res log_binding)).

Definition register (method : str) (factory : list nat → str → res log_binding) (r : LogRegistry) : res LogRegistry :=
  raise_if (negb (is_valid_ledger_method method)) (ArgumentError (lit "log method must match [a-z][a-z0-9-]*")) ;;
  Ok (dict_set method factory r).

Definition new_reader (path : list nat) (lr : str) (r : LogRegistry) : res log_binding :=
  '(method, _) ← parse_ledger_ref lr;
  match dict_get method r with
  | None => Ok (NoopLogReader method)
  | Some factory => factory path lr
  end.

(** The HTTPS side: an injected [HTTPSFetcher], or the manager's own client. *)
Inductive https_source : Type :=
| InjectedFetcher (fetch_strict_json : list nat → str → option (str * bool) → bool → res (json * TLSCertificate))
| OwnClient (stream : list nat → bool → str → res https_response).

(** ** Configuration *)
Record TrustedEntity : Set := { te_governance_id : str; te_entity_key_thumbprints : option (list str) }.

Record VerificationConfig : Set := {
  vc_status_check_interval : Z;
  vc_dnssec_mode : option DNSSECMode;
  vc_trusted_entities : option (list TrustedEntity)
}.

Section config.
Context `{Platform}.

Definition valid_pin (pin : str) : bool :=
  match b64url_decode_strict pin with Ok b => len b =? 32 | Raise _ => false end.

Definition check_pins (pins : list str) : res unit :=
  raise_if (match pins with [] => true | _ => false end) (ArgumentError (lit "entity_key_thumbprints must be a non-empty list")) ;;
  raise_if (negb (bool_decide (NoDup pins))) (ArgumentError (lit "duplicate entity_key_thumbprints")) ;;
  raise_if (negb (forallb valid_pin pins)) (ArgumentError (lit "invalid entity key thumbprint")).

Fixpoint normalize_entities (seen : list str) (entities : list TrustedEntity) : res (list TrustedEntity) :=
  match entities with
  | [] => Ok []
  | entity :: entities =>
      gi ← try_except (normalize_fqdn idna_encode (te_governance_id entity) false)
             (λ e, match e with ValidationError _ => Raise (ArgumentError (lit "invalid trusted entity governance_id")) | e => Raise e end);
      raise_if (bool_decide (gi ∈ seen)) (ArgumentError (lit "duplicate trusted entity")) ;;
      match te_entity_key_thumbprints entity with None => Ok () | Some pins => check_pins pins end ;;
      rest ← normalize_entities (gi :: seen) entities;
      Ok ({| te_governance_id := gi; te_entity_key_thumbprints := te_entity_key_thumbprints entity |} :: rest)
  end.

(** [_validate_verification_config], on settings of the declared types. *)
Definition validate_verification_config (cfg : VerificationConfig) : res VerificationConfig :=
  raise_if (vc_status_check_interval cfg <? 0) (ArgumentError (lit "status_check_interval must be a non-negative timedelta")) ;;
  let mode := default AUTO (vc_dnssec_mode cfg) in
  entities ← match vc_trusted_entities cfg with
             | None => Ok None
             | Some l => normalized ← normalize_entities [] l; Ok (Some normalized)
             end;
  Ok {| vc_status_check_interval := vc_status_check_interval cfg; vc_dnssec_mode := Some mode; vc_trusted_entities := entities |}.
End config.

(** ** The environment *)
Record environment : Type := {
  env_now : list nat → Z;
  env_check : list nat → res unit;
  env_schedule : list nat → schedule;
  env_fetch_txt : list nat → str → dns_outcome;
  env_https : https_source;
  env_registry : option LogRegistry
}.

(** Aware times in UTC. *)
Definition utc (us : Z) : datetime := {| dt_wall := us; dt_utcoffset := Some 0 |}.

Abbreviation Verified := (VerifiedDomain log_binding) (only parsing).

Section manager.
Context `{Platform, PyLib, Zlib} (env : environment) (cfg : VerificationConfig).

Definition now (path : list nat) : datetime := utc (env_now env path).
Definition remaining (path : list nat) : res unit := env_check env path.

(** [run_concurrently] with the two budgets it opens. *)
Definition concurrently {T U} (path : list nat) (primary : res T) (secondary : res U) : res (T * U) :=
  run_concurrently (env_schedule env path)
    (operation (env_check env) (0 :: path)%nat primary) (operation (env_check env) (1 :: path)%nat secondary).

(** ** The record *)
Definition record_from_dns (domain : str) (records : list TXTRecord) (dnssec_state : option DNSSECState) (acquired : datetime)
    : res (DnsIdTxtRecord * Z * datetime * DNSSECState) :=
  match dnssec_state with
  | None => Raise (vfail DNSSEC_FAILED "DNS resolver returned an invalid DNSSEC state")
  | Some state =>
      raise_if (bool_decide (state = FAILED)) (vfail DNSSEC_FAILED "DNSSEC validation failed") ;;
      raise_if (bool_decide (vc_dnssec_mode cfg = Some VALIDATED) && bool_decide (state = UNKNOWN))
        (vfail DNSSEC_FAILED "DNSSEC validation status is unknown") ;;
      raise_if (bool_decide (vc_dnssec_mode cfg = Some REQUIRED) && negb (bool_decide (state = VALID)))
        (vfail DNSSEC_FAILED "DNSSEC required") ;;
      match records with
      | [] => Raise (vfail RECORD_NOT_FOUND "no _dnsid TXT record found")
      | [r] =>
          raw ← concatenate_strings r;
          match txt_ttl r with
          | None => Raise (vfail DNS_RESOLUTION "invalid DNS TTL")
          | Some ttl =>
              raise_if (ttl <? 0) (vfail DNS_RESOLUTION "invalid DNS TTL") ;;
              expires ← try_except (dt_add acquired (ttl * second_us)) (λ _, Raise (vfail DNS_RESOLUTION "invalid DNS TTL"));
              record ← try_except (parse_record raw) (λ _, Raise (vfail RECORD_INVALID "TXT record parse failed"));
              let record := set_identity domain record in
              try_except (validate_record record) (λ _, Raise (vfail RECORD_INVALID "TXT record validation failed")) ;;
              Ok (record, ttl, expires, state)
          end
      | _ => Raise (vfail RECORD_INVALID "expected exactly one _dnsid TXT record")
      end
  end.

Definition authenticate_record (record : DnsIdTxtRecord) (ek_jwks : JWKS) : res JWK :=
  signing_key ← current_record_signing_key (rec_v record) ek_jwks;
  canonical_bytes ← ascii_only (record_canonical record);
  raise_if (contains (lit "..") (rec_sg record) || bool_decide (58 ∈ rec_sg record))
    (vfail SIGNATURE_INVALID "draft 01 sg must be bare unpadded base64url raw signature bytes") ;;
  sig_decoded ← try_except (b64url_decode_strict (rec_sg record))
    (λ _, Raise (vfail SIGNATURE_INVALID "sg= value is not valid base64url"));
  valid ← jwk_verify signing_key canonical_bytes sig_decoded;
  raise_if (negb valid) (vfail SIGNATURE_INVALID "_dnsid record signature invalid") ;;
  Ok signing_key.

(** ** Hosts *)

(** [urlparse(uri).hostname or ""] *)
Definition extract_host (uri : str) : res str :=
  parsed ← urlsplit netloc_ok uri; Ok (default [] (hostname str_lower (url_netloc parsed))).

Definition ek_pinning_host (gi ek_uri : str) : res str :=
  host ← extract_host ek_uri;
  ek_host ← normalize_fqdn idna_encode host false;
  raise_if (negb (is_domain_name gi)) (vfail RECORD_INVALID "draft 01 gi must be a lowercase ASCII DNS domain") ;;
  gi_domain ← normalize_fqdn idna_encode gi false;
  raise_if (negb (at_or_beneath ek_host gi_domain)) (vfail RECORD_INVALID "ek host must equal or be beneath gi") ;;
  Ok gi_domain.

(** ** Network reads *)
Definition fetch_key_set (path : list nat) (uri allowed_host : str) (domain_boundary revalidate : bool)
    : res (JWKS * TLSCertificate) :=
  match env_https env with
  | InjectedFetcher fetch =>
      '(raw, cert) ← fetch path uri (Some (allowed_host, domain_boundary)) revalidate;
      keys ← keys_of raw;
      Ok (keys, cert)
  | OwnClient stream => fetch_jwks (env_check env) stream path uri allowed_host domain_boundary revalidate
  end.

(** [_status_fetch_boundary] *)
Definition status_fetch_boundary {A} (m : res A) : res A :=
  try_except m (λ e,
    match e with
    | VerificationError code _ transient _ =>
        if bool_decide (code = DEADLINE_EXCEEDED) then Raise e
        else if transient || bool_decide (code = DNS_RESOLUTION)
        then Raise (VerificationError STATUS_UNAVAILABLE (lit "status endpoint unavailable: " ++ exn_str e) true None)
        else Raise e
    | ValidationError _ => Raise (vfail RECORD_INVALID "invalid agent status document")
    | e => Raise e
    end).

Definition fetch_status (path : list nat) (su : str) (revalidate : bool) : res AgentStatus :=
  status_fetch_boundary (
    status ← match env_https env with
             | InjectedFetcher fetch => '(raw, _) ← fetch path su None revalidate; parse_agent_status_from_dict raw
             | OwnClient stream => fetch_agent_status (env_check env) stream path su revalidate
             end;
    validate_status status ;;
    Ok status).

Definition not_active : exn := vfail STATUS_NOT_ACTIVE "identity is not ACTIVE".

Definition require_active_status (status : AgentStatus) : res AgentStatus :=
  raise_if (negb (is_str "ACTIVE" (as_state status))) not_active ;; Ok status.

Definition fetch_active_status (path : list nat) (su : str) (revalidate : bool) : res AgentStatus :=
  status ← fetch_status path su revalidate; require_active_status status.

(** ** Identity evidence *)
Definition identity_log_reader (path : list nat) (domain : str) (record : DnsIdTxtRecord) : res log_binding :=
  ku_host ← extract_host (rec_ku record);
  name ← normalize_fqdn idna_encode ku_host false;
  raise_if (negb (name ==? domain)) (vfail RECORD_INVALID "ku host does not match identity domain") ;;
  match env_registry env with
  | Some registry => new_reader path (rec_lr record) registry
  | None => '(method, _) ← parse_ledger_ref (rec_lr record); Ok (NoopLogReader method)
  end.

Definition separate_operational_key (record : DnsIdTxtRecord) (ek_jwks jwks : JWKS) (signing_key : JWK) : res JWK :=
  operational_key ← current_operational_signing_key (rec_v record) jwks;
  ek_thumbprints ← mapM_res thumbprint ek_jwks;
  ku_thumbprints ← mapM_res thumbprint jwks;
  raise_if (share ek_thumbprints ku_thumbprints) (vfail RECORD_INVALID "ek and ku JWK Sets share a key") ;;
  ts ← thumbprint signing_key;
  tu ← thumbprint operational_key;
  raise_if (ts ==? tu) (vfail RECORD_INVALID "draft 01 ek and ku keys must be distinct") ;;
  Ok operational_key.

(** [_require_log_method] *)
Definition require_log_method {A} (method : option A) : res A :=
  match method with Some f => Ok f | None => Raise unsupported_error end.

Definition check_key_age (path : list nat) (record : DnsIdTxtRecord) (key_bound_at : datetime) : res unit :=
  age ← dt_sub (now path) key_bound_at;
  days ← parse_ka_duration (rec_ka record);
  raise_if (days * day_us <? age) (vfail KEY_AGE_EXCEEDED "signing key exceeds maximum key age").

Record identity_evidence : Type := {
  ie_jwks : JWKS; ie_tls_cert : TLSCertificate; ie_log_reader : log_binding; ie_key_bound_at : datetime
}.

Definition verify_identity_evidence (path : list nat) (domain : str) (record : DnsIdTxtRecord) (ek_jwks : JWKS)
    (signing_key : JWK) (revalidate : bool) : res identity_evidence :=
  reader ← identity_log_reader (0 :: path)%nat domain record;
  '(fetched, _) ← concurrently (1 :: path)%nat
    (fetch_key_set (2 :: path)%nat (rec_ku record) domain false revalidate)
    (match lb_preload_history reader with Some preload => preload (3 :: path)%nat domain signing_key | None => Ok () end);
  operational_key ← separate_operational_key record ek_jwks fetched.1 signing_key;
  bilateral ← require_log_method (lb_verify_bilateral_binding reader);
  initial ← bilateral (4 :: path)%nat record signing_key operational_key;
  continuity ← require_log_method (lb_verify_operational_continuity reader);
  current ← thumbprint operational_key;
  continuity (5 :: path)%nat domain initial current ;;
  bound ← (if rec_ka record ==? [] then Ok ZERO_TIME
           else bound ← lb_key_timestamp reader (6 :: path)%nat domain current;
                check_key_age (7 :: path)%nat record bound ;; Ok bound);
  Ok {| ie_jwks := fetched.1; ie_tls_cert := fetched.2; ie_log_reader := reader; ie_key_bound_at := bound |}.

(** [_verify_domain_uncached] up to the result. *)
Definition gather_evidence (path : list nat) (domain : str) (revalidate : bool) : res Verified :=
  let acquired := now (0 :: path)%nat in
  '(records, state) ← match env_fetch_txt env (1 :: path)%nat (lit "_dnsid." ++ domain) with
                      | DnsAnswer records state => Ok (records, state)
                      | DnsNoRecord => Ok ([], Some UNKNOWN)
                      | DnsBogus => Ok ([], Some FAILED)
                      | DnsRaised e => if is_verification e then Raise e
                                       else Raise (VerificationError DNS_RESOLUTION (lit "DNS lookup failed") true None)
                      end;
  '(record, ttl, expires, state) ← record_from_dns domain records state acquired;
  ek_allowed_host ← ek_pinning_host (rec_gi record) (rec_ek record);
  '(ek_jwks, ek_cert) ← fetch_key_set (2 :: path)%nat (rec_ek record) ek_allowed_host true revalidate;
  signing_key ← authenticate_record record ek_jwks;
  '(evidence, status) ← concurrently (3 :: path)%nat
    (verify_identity_evidence (4 :: path)%nat domain record ek_jwks signing_key revalidate)
    (fetch_active_status (5 :: path)%nat (rec_su record) revalidate);
  Ok {| vd_domain := domain; vd_record := record; vd_jwks := ie_jwks evidence; vd_signing_key := signing_key;
        vd_tls_cert := ie_tls_cert evidence; vd_registry_status := status; vd_verified_at := now (6 :: path)%nat;
        vd_dns_ttl := ttl; vd_key_bound_at := ie_key_bound_at evidence; vd_last_status_check_at := now (7 :: path)%nat;
        vd_dnssec_state := state; vd_log_reader := ie_log_reader evidence; vd_record_signing_jwks := Some ek_jwks;
        vd_record_signing_tls_cert := Some ek_cert; vd_dns_expires_at := Some expires |}.

(** ** Per-caller policies *)
Definition enforce_mtls_policy (record : DnsIdTxtRecord) (domain : str) (peer_cert : option TLSCertificate) : res unit :=
  if negb (bool_decide (lit "mtls" ∈ policy_flags record)) then Ok ()
  else match peer_cert with
       | None => Raise (vfail TLS_ERROR "fl=mtls requires a peer certificate but none was supplied")
       | Some cert => try_except (validate_against_fqdn cert domain)
                        (λ _, Raise (vfail TLS_ERROR "fl=mtls peer certificate does not match"))
       end.

(** The loop over the entries: the first with the governance identifier decides. *)
Fixpoint accepted_by (gi thumb : str) (entities : list TrustedEntity) : bool :=
  match entities with
  | [] => false
  | entity :: entities =>
      if negb (te_governance_id entity ==? gi) then accepted_by gi thumb entities
      else match te_entity_key_thumbprints entity with None => true | Some pins => bool_decide (thumb ∈ pins) end
  end.

Definition enforce_counterparty_acceptance (result : Verified) : res unit :=
  match vc_trusted_entities cfg with
  | None => Ok ()
  | Some entities =>
      thumb ← thumbprint (vd_signing_key result);
      raise_if (negb (accepted_by (rec_gi (vd_record result)) thumb entities))
        (vfail COUNTERPARTY_NOT_ACCEPTED "counterparty not accepted")
  end.
End manager.

(** ** The cache *)

(** Operations on the manager: its cache, and an outcome. *)
Definition MM (C A : Type) : Type := C → C * res A.
#[global] Instance MM_ret C : MRet (MM C) := λ A a c, (c, Ok a).
#[global] Instance MM_bind C : MBind (MM C) := λ A B k m c,
  match m c with
  | (c', Ok a) => k a c'
  | (c', Raise e) => (c', Raise e)
  end.
Definition pure {C A} (r : res A) : MM C A := λ c, (c, r).

(** [a != b] of two results.  [JWK._raw] and the set of parsed optional tags take
    no part in comparisons; log readers are compared by identity. *)
Definition same_key (a b : JWK) : bool :=
  py_eq (jwk_kty a) (jwk_kty b) && py_eq (jwk_alg a) (jwk_alg b) && py_eq (jwk_kid a) (jwk_kid b) && py_eq (jwk_use a) (jwk_use b).
Fixpoint same_keys (a b : list JWK) : bool :=
  match a, b with
  | [], [] => true
  | x :: a, y :: b => same_key x y && same_keys a b
  | _, _ => false
  end.
Definition same_record (a b : DnsIdTxtRecord) : bool :=
  forallb (λ t, get_tag a t ==? get_tag b t) known_tags && (rec_identity_fqdn a ==? rec_identity_fqdn b)
  && (len (rec_unknown_tags a) =? len (rec_unknown_tags b))
  && forallb (λ kv, dict_get kv.1 (rec_unknown_tags b) ==? Some kv.2) (rec_unknown_tags a).
Definition same_cert (a b : TLSCertificate) : bool :=
  dt_eq (tls_not_after a) (tls_not_after b) && (tls_san_dns_names a ==? tls_san_dns_names b) && (tls_der a ==? tls_der b).
Definition same_option {A} (same : A → A → bool) (a b : option A) : bool :=
  match a, b with Some x, Some y => same x y | None, None => true | _, _ => false end.
Definition same_status (a b : AgentStatus) : bool :=
  py_eq (as_state a) (as_state b) && dt_eq (as_last_transition_at a) (as_last_transition_at b)
  && py_eq (as_revocation_reason a) (as_revocation_reason b).
Definition same_result (a b : Verified) : bool :=
  (vd_domain a ==? vd_domain b) && same_record (vd_record a) (vd_record b) && same_keys (vd_jwks a) (vd_jwks b)
  && same_key (vd_signing_key a) (vd_signing_key b) && same_cert (vd_tls_cert a) (vd_tls_cert b)
  && same_status (vd_registry_status a) (vd_registry_status b) && dt_eq (vd_verified_at a) (vd_verified_at b)
  && (vd_dns_ttl a =? vd_dns_ttl b) && dt_eq (vd_key_bound_at a) (vd_key_bound_at b)
  && dt_eq (vd_last_status_check_at a) (vd_last_status_check_at b) && bool_decide (vd_dnssec_state a = vd_dnssec_state b)
  && (lb_id (vd_log_reader a) =? lb_id (vd_log_reader b))%nat
  && same_option same_keys (vd_record_signing_jwks a) (vd_record_signing_jwks b)
  && same_option same_cert (vd_record_signing_tls_cert a) (vd_record_signing_tls_cert b)
  && same_option dt_eq (vd_dns_expires_at a) (vd_dns_expires_at b).

Section stateful.
Context `{Platform, PyLib, Zlib} (env : environment) (cfg : VerificationConfig) {C : Type} `{IdentityCache C Verified}.

#[local] Abbreviation M := (MM C).
Definition get_cached (path : list nat) (domain : str) : M (option Verified) := cache_get (now env path) domain.
Definition put_cached (path : list nat) (domain : str) (result : Verified) : M unit := cache_put (now env path) domain result.
Definition evict (domain : str) : M unit := λ c, (cache_evict domain c, Ok ()).

(** [IdentityManager._require_fresh_evidence] *)
Definition evict_on_failure (domain : str) (r : res unit) : M unit := λ c,
  match r with
  | Ok u => (c, Ok u)
  | Raise e => ((if is_verification e then cache_evict domain c else c), Raise e)
  end.
Definition require_fresh_evidence (path : list nat) (result : Verified) (fresh_dns_lookup : bool) : M unit :=
  pure (remaining env (0 :: path)%nat) ;;
  evict_on_failure (vd_domain result) (require_fresh_evidence_at (now env (1 :: path)%nat) fresh_dns_lookup result).

Definition cache_verification (path : list nat) (result : Verified) (cache_result : bool) : M Verified :=
  require_fresh_evidence (0 :: path)%nat result true ;;
  if negb cache_result then mret result
  else if 0 <? vd_dns_ttl result then put_cached (1 :: path)%nat (vd_domain result) result ;; mret result
  else evict (vd_domain result) ;; mret result.

(** [_verify_domain_uncached], with the budget of [@verification_operation]. *)
Definition verify_domain_uncached (path : list nat) (domain : str) (revalidate : bool) : M Verified :=
  pure (remaining env (0 :: path)%nat) ;;
  result ← pure (gather_evidence env cfg (1 :: path)%nat domain revalidate);
  result ← cache_verification (2 :: path)%nat result true;
  pure (remaining env (3 :: path)%nat) ;;
  mret result.

Definition with_status (v : Verified) (status : AgentStatus) (checked : datetime) : Verified :=
  {| vd_domain := vd_domain v; vd_record := vd_record v; vd_jwks := vd_jwks v; vd_signing_key := vd_signing_key v;
     vd_tls_cert := vd_tls_cert v; vd_registry_status := status; vd_verified_at := vd_verified_at v;
     vd_dns_ttl := vd_dns_ttl v; vd_key_bound_at := vd_key_bound_at v; vd_last_status_check_at := checked;
     vd_dnssec_state := vd_dnssec_state v; vd_log_reader := vd_log_reader v;
     vd_record_signing_jwks := vd_record_signing_jwks v; vd_record_signing_tls_cert := vd_record_signing_tls_cert v;
     vd_dns_expires_at := vd_dns_expires_at v |}.

Definition cache_refreshed_status (path : list nat) (domain : str) (cached : Verified) (status : AgentStatus) : M Verified :=
  if negb (is_str "ACTIVE" (as_state status)) then evict domain ;; pure (Raise not_active)
  else
    let refreshed := with_status cached status (now env (0 :: path)%nat) in
    require_fresh_evidence (1 :: path)%nat refreshed false ;;
    current ← get_cached (2 :: path)%nat domain;
    match current with
    | None => pure (Raise (VerificationError STATUS_UNAVAILABLE (lit "identity invalidated during status refresh") true None))
    | Some current =>
        if negb (same_result current cached) then mret current
        else put_cached (3 :: path)%nat domain refreshed ;; mret refreshed
    end.

(** [_complete_verification] and [_finish_verification]: the deadline tests
    around the work, and the eviction of an identity that is not active. *)
Definition is_not_active (e : exn) : bool :=
  match e with VerificationError code _ _ _ => bool_decide (code = STATUS_NOT_ACTIVE) | _ => false end.
Definition finish_verification {A} (domain : str) (m : M A) : M A := λ c,
  match m c with
  | (c', Ok a) => (c', Ok a)
  | (c', Raise e) => ((if is_not_active e then cache_evict domain c' else c'), Raise e)
  end.
Definition complete_verification (path : list nat) (domain : str) (work : M Verified) : M Verified :=
  finish_verification domain (
    pure (remaining env (0 :: path)%nat) ;;
    result ← work;
    pure (remaining env (1 :: path)%nat) ;;
    mret result).

(** [_coalesce] for a caller that leads: the work is done for whoever needs it,
    and the caller waits within its own budget. *)
Definition coalesce (path : list nat) (domain : str) (work : M Verified) : M Verified := λ c,
  let '(c', outcome) := complete_verification (0 :: path)%nat domain work c in
  (c', remaining env (1 :: path)%nat ;; outcome).

(** [_refresh_status] led by this caller, with the rounds of
    [_complete_verification] that follow when the cached entry is gone: the
    acquired evidence is joined through a future, and evidence with a zero TTL
    is discarded for another round, until the budget of the work ends.  [rounds]
    is how many of them fit in the budget. *)
Fixpoint refresh_status (rounds : nat) (path : list nat) (domain : str) (cached : Verified) : M Verified :=
  match rounds with
  | O => pure (Raise BudgetExhausted)
  | S rounds =>
      latest ← get_cached (0 :: rounds :: path)%nat domain;
      match latest with
      | None =>
          joined ← complete_verification (1 :: rounds :: path)%nat domain
                     (verify_domain_uncached (2 :: rounds :: path)%nat domain false);
          pure (remaining env (3 :: rounds :: path)%nat) ;;
          if vd_dns_ttl joined =? 0
          then pure (remaining env (6 :: rounds :: path)%nat) ;; refresh_status rounds path domain cached
          else mret joined
      | Some latest =>
          newer ← pure (dt_gt (vd_last_status_check_at latest) (vd_last_status_check_at cached));
          if newer : bool then mret latest
          else
            status ← pure (fetch_status env (4 :: rounds :: path)%nat (rec_su (vd_record latest)) false);
            cache_refreshed_status (5 :: rounds :: path)%nat domain latest status
      end
  end.

(** [_reusable_verification] when no other call is at work on the domain. *)
Definition reusable_verification (rounds : nat) (path : list nat) (domain : str) : M Verified :=
  cached ← get_cached (0 :: path)%nat domain;
  match cached with
  | Some cached =>
      elapsed ← pure (dt_sub (now env (1 :: path)%nat) (vd_last_status_check_at cached));
      if elapsed <? vc_status_check_interval cfg then mret cached
      else coalesce (2 :: path)%nat domain (refresh_status rounds (3 :: path)%nat domain cached)
  | None => coalesce (4 :: path)%nat domain (verify_domain_uncached (5 :: path)%nat domain false)
  end.

Definition accept_verification (path : list nat) (domain : str) (result : Verified) (peer_cert : option TLSCertificate)
    (acceptance : bool) : M Verified :=
  (if acceptance then
     pure (enforce_mtls_policy (vd_record result) domain peer_cert) ;;
     pure (enforce_counterparty_acceptance cfg result)
   else mret ()) ;;
  require_fresh_evidence path result (vd_dns_ttl result =? 0) ;;
  mret result.

(** [_verify]; [closed] tells that the manager is closing or closed. *)
Definition verify (rounds : nat) (path : list nat) (closed : bool) (domain : str) (peer_cert : option TLSCertificate)
    (acceptance refresh : bool) : M Verified :=
  pure (raise_if closed (RuntimeError (lit "IdentityManager is closing or closed"))) ;;
  domain ← pure (normalize_fqdn idna_encode domain false);
  result ← (if refresh
            then coalesce (0 :: path)%nat domain (
                   pure (remaining env (1 :: path)%nat) ;; verify_domain_uncached (2 :: path)%nat domain true)
            else reusable_verification rounds (3 :: path)%nat domain);
  accept_verification (4 :: path)%nat domain result peer_cert acceptance.

(** The public operations; each opens the default budget. *)
Definition bounded {A} (path : list nat) (m : M A) : M A :=
  pure (remaining env (0 :: path)%nat) ;; a ← m; pure (remaining env (1 :: path)%nat) ;; mret a.

Definition verify_domain (rounds : nat) (path : list nat) (closed : bool) (domain : str) (peer_cert : option TLSCertificate)
    : M Verified := bounded (0 :: path)%nat (verify rounds (1 :: path)%nat closed domain peer_cert true false).
Definition refresh_domain (rounds : nat) (path : list nat) (closed : bool) (domain : str) (peer_cert : option TLSCertificate)
    : M Verified := bounded (0 :: path)%nat (verify rounds (1 :: path)%nat closed domain peer_cert true true).
Definition verify_local_publication (rounds : nat) (path : list nat) (closed : bool) (local_domain : option str) : M Verified :=
  match local_domain with
  | None => pure (Raise (ArgumentError (lit "verify_local_publication requires a local identity; this manager is verification-only")))
  | Some domain => bounded (0 :: path)%nat (verify rounds (1 :: path)%nat closed domain None false true)
  end.

Definition evict_domain (domain : str) : M unit :=
  name ← pure (normalize_fqdn idna_encode domain false); evict name.

(** Log evidence of a verified identity; the cache is not involved. *)
Definition verify_log_evidence (path : list nat) (vd : Verified) (at_ : option datetime) : res LoggedStateEvidence :=
  lb_verify_non_revocation (vd_log_reader vd) (0 :: path)%nat (vd_domain vd) (default (now env (1 :: path)%nat) at_).
Definition load_domain_log (path : list nat) (vd : Verified) : res (str * list LogEvent) :=
  events ← lb_rebuild_history (vd_log_reader vd) path (vd_domain vd); Ok (vd_domain vd, events).
End stateful.
