(* ===== verification/ManagerSpec.v ===== *)
(** * What a verified identity rests on

    The caches keep only what was put in them and return it only while it is
    usable; every result of a verification, fresh or cached, rests on evidence
    that was authenticated step by step, and passed the caller's policies. *)
From S2P Require Import Prelude Errors Concurrency PyText Base64 Utils Lr ResourceFetcher Canonical JsonScan JsonRoundtrip Keys PyTime EventCodec DomainLog TxtRecord Identity IdentitySpec HttpsClient Reader Manager.

(** ** Caches *)

(** What a cache of results promises: [holds P] says that everything it may
    return satisfies [P], by domain. *)
Class CacheSpec (C V : Type) `{IdentityCache C V} (usable : datetime → V → Prop) := {
  holds : (str → V → Prop) → C → Prop;
  holds_weaken (P Q : str → V → Prop) c : (∀ d v, P d v → Q d v) → holds P c → holds Q c;
  holds_get P now d c c' r : holds P c → cache_get now d c = (c', r) →
    holds P c' ∧ ∀ v, r = Ok (Some v) → P d v ∧ usable now v;
  holds_put P now d v c c' r : holds P c → P d v → cache_put now d v c = (c', r) → holds P c';
  holds_evict P d c : holds P c → holds (λ d' v, d' ≠ d ∧ P d' v) (cache_evict d c);
  get_raises now d c c' e : cache_get now d c = (c', Raise e) → is_verification e = false;
  put_raises now d v c c' e : cache_put now d v c = (c', Raise e) → is_verification e = false
}.

(** A backend returns what was last put under a key, or nothing. *)
Class BackendSpec (B V : Type) `{CacheBackend B V} := {
  get_put k k' v w b : backend_get k' (backend_put k v b) = Some w → (k' = k ∧ w = v) ∨ (k' ≠ k ∧ backend_get k' b = Some w);
  get_evict k k' w b : backend_get k' (backend_evict k b) = Some w → k' ≠ k ∧ backend_get k' b = Some w
}.

Definition usable {R} (now : datetime) (v : VerifiedDomain R) : Prop := 0 < vd_dns_ttl v ∧ unusable now v = Ok false.

Lemma unusable_false {R} now (v : VerifiedDomain R) : unusable now v = Ok false → usable now v.
Proof. intros Hx. split; [|done]. unfold unusable in Hx. destruct (Z.leb_spec (vd_dns_ttl v) 0); [done|lia]. Qed.

(** Reading the expiry of a result raises arithmetic and type errors only. *)
Lemma dt_gt_raises a b e : dt_gt a b = Raise e → is_verification e = false.
Proof. unfold dt_gt. destruct (dt_utcoffset a), (dt_utcoffset b); by intros [= <-]. Qed.
Lemma dt_ge_raises a b e : dt_ge a b = Raise e → is_verification e = false.
Proof. unfold dt_ge. destruct (dt_gt b a) as [|e'] eqn:E; [done|]. intros [= <-]. by eapply dt_gt_raises. Qed.
Lemma dt_add_raises a us e : dt_add a us = Raise e → is_verification e = false.
Proof. unfold dt_add. destruct (_ || _); by intros [= <-]. Qed.
Lemma key_age_raises {R} (v : VerifiedDomain R) e : key_age_limit v = Raise e → is_verification e = false.
Proof.
  unfold key_age_limit, parse_ka_duration. repeat (destruct (_ ==? _); cbn [mbind result_bind]; [apply dt_add_raises|]). by intros [= <-].
Qed.
Lemma dt_min_raises best l e : dt_min best l = Raise e → is_verification e = false.
Proof.
  revert best. induction l as [|d l IH]; intros best; cbn [dt_min]; [done|]. destruct (dt_gt best d) as [b|e'] eqn:E; cbn; [apply IH|].
  intros [= <-]. by eapply dt_gt_raises.
Qed.
Lemma expiry_raises {R} (v : VerifiedDomain R) e : expiry v = Raise e → is_verification e = false.
Proof.
  unfold expiry. destruct (dns_expiry v) as [dns|e'] eqn:E; cbn [mbind result_bind].
  - destruct (permitted_ka _ && _); [|apply dt_min_raises]. destruct (key_age_limit v) as [l|e'] eqn:Ek; cbn [mbind result_bind]; [apply dt_min_raises|].
    intros [= <-]. by eapply key_age_raises.
  - intros [= <-]. unfold dns_expiry in E. destruct (vd_dns_expires_at v); [done|]. by eapply dt_add_raises.
Qed.
Lemma unusable_raises {R} now (v : VerifiedDomain R) e : unusable now v = Raise e → is_verification e = false.
Proof.
  unfold unusable. destruct (_ <=? _); [done|]. destruct (expiry v) as [at_|e'] eqn:E; cbn; [apply dt_ge_raises|].
  intros [= <-]. by eapply expiry_raises.
Qed.

#[export] Program Instance InMemoryCache_spec R : CacheSpec (gmap str (VerifiedDomain R)) (VerifiedDomain R) usable := {|
  holds P c := map_Forall P c
|}.
Next Obligation. intros R P Q c HPQ Hc d v Hl. auto. Qed.
Next Obligation.
  intros R P now d c c' r Hc. cbn. destruct (c !! d) as [entry|] eqn:Hl; [|by intros [= <- <-]].
  destruct (unusable now entry) as [[]|e] eqn:Hu; intros [= <- <-]; (split; [|naive_solver eauto using unusable_false]); [|done..].
  intros d' v' Hv. apply lookup_delete_Some in Hv as [_ Hv]. eauto.
Qed.
Next Obligation.
  intros R P now d v c c' r Hc Hv. cbn. destruct (unusable now v) as [[]|e]; intros [= <- <-]; [|by apply map_Forall_insert_2|done].
  intros d' v' Hl. apply lookup_delete_Some in Hl as [_ Hl]. eauto.
Qed.
Next Obligation. intros R P d c Hc d' v Hl. cbn in Hl. apply lookup_delete_Some in Hl as [? Hl]. split; [done|]. eauto. Qed.
Next Obligation.
  intros R now d c c' e. cbn. destruct (c !! d) as [entry|]; [|done]. destruct (unusable now entry) as [[]|e'] eqn:Hu; intros [= <- <-].
  by eapply unusable_raises.
Qed.
Next Obligation. intros R now d v c c' e. cbn. destruct (unusable now v) as [[]|e'] eqn:Hu; intros [= <- <-]. by eapply unusable_raises. Qed.

#[export] Program Instance PrivateCache_spec B R `{BackendSpec B (VerifiedDomain R)} : CacheSpec (PrivateCache B) (VerifiedDomain R) usable := {|
  holds P c := ∀ d v, backend_get (pc_prefix c ++ d) (pc_backend c) = Some v → P d v
|}.
Next Obligation. intros B R ? ? P Q c HPQ Hc d v Hl. apply HPQ. by apply Hc. Qed.
Next Obligation.
  intros B R ? ? P now d c c' r Hc. cbn. destruct (backend_get _ _) as [entry|] eqn:Hl; [|by intros [= <- <-]].
  destruct (unusable now entry) as [[]|e] eqn:Hu; intros [= <- <-]; (split; [|naive_solver eauto using unusable_false]); [|done..].
  cbn. intros d' v' [_ Hv]%get_evict. eauto.
Qed.
Next Obligation.
  intros B R ? ? P now d v c c' r Hc Hv. cbn. destruct (unusable now v) as [[]|e]; intros [= <- <-]; cbn; [| |done].
  - intros d' v' [_ Hl]%get_evict. eauto.
  - intros d' v' [[E ->]|[_ Hl]]%get_put; [|eauto]. by apply app_inv_head in E as ->.
Qed.
Next Obligation. intros B R ? ? P d c Hc d' v Hl. cbn in Hl. apply get_evict in Hl as [Hne Hl]. split; [congruence|]. eauto. Qed.
Next Obligation.
  intros B R ? ? now d c c' e. cbn. destruct (backend_get _ _) as [entry|]; [|done]. destruct (unusable now entry) as [[]|e'] eqn:Hu; intros [= <- <-].
  by eapply unusable_raises.
Qed.
Next Obligation. intros B R ? ? now d v c c' e. cbn. destruct (unusable now v) as [[]|e'] eqn:Hu; intros [= <- <-]. by eapply unusable_raises. Qed.

(** ** Evidence *)
Section evidence.
Context `{Platform, PyLib, Zlib} (env : environment) (cfg : VerificationConfig).

(** DNS policy. *)
Definition dnssec_permits (mode : option DNSSECMode) (state : DNSSECState) : Prop :=
  state ≠ FAILED ∧ (mode = Some VALIDATED → state ≠ UNKNOWN) ∧ (mode = Some REQUIRED → state = VALID).

(** The record is the only TXT record of the name, authenticated by its one
    current entity key, which was read within the boundary of [gi]. *)
Record authentic_record (domain : str) (vd : Verified) : Prop := {
  ar_domain : vd_domain vd = domain;
  ar_dns : ∃ path acquired r raw parsed, env_fetch_txt env path (lit "_dnsid." ++ domain) = DnsAnswer [r] (Some (vd_dnssec_state vd))
    ∧ concatenate_strings r = Ok raw ∧ txt_ttl r = Some (vd_dns_ttl vd) ∧ 0 ≤ vd_dns_ttl vd
    ∧ vd_dns_expires_at vd = Some {| dt_wall := acquired + vd_dns_ttl vd * second_us; dt_utcoffset := Some 0 |}
    ∧ parse_record raw = Ok parsed ∧ vd_record vd = set_identity domain parsed;
  ar_dnssec : dnssec_permits (vc_dnssec_mode cfg) (vd_dnssec_state vd);
  ar_valid : validate_record (vd_record vd) = Ok ();
  ar_entity : ∃ path revalidate boundary keys cert sig,
    ek_pinning_host (rec_gi (vd_record vd)) (rec_ek (vd_record vd)) = Ok boundary
    ∧ fetch_key_set env path (rec_ek (vd_record vd)) boundary true revalidate = Ok (keys, cert)
    ∧ vd_record_signing_jwks vd = Some keys ∧ vd_record_signing_tls_cert vd = Some cert
    ∧ current_record_signing_key (rec_v (vd_record vd)) keys = Ok (vd_signing_key vd)
    ∧ b64url_decode_strict (rec_sg (vd_record vd)) = Ok sig
    ∧ jwk_verify (vd_signing_key vd) (record_canonical (vd_record vd)) sig = Ok true
}.

(** The operational key was read from the identity's own host, shares no key
    with the entity's set, and is bound to both by the lifecycle log. *)
Record authentic_keys (domain : str) (vd : Verified) : Prop := {
  ak_fetched : ∃ path revalidate, fetch_key_set env path (rec_ku (vd_record vd)) domain false revalidate = Ok (vd_jwks vd, vd_tls_cert vd);
  ak_reader : ∃ path, identity_log_reader env path domain (vd_record vd) = Ok (vd_log_reader vd);
  ak_distinct : ∃ keys, vd_record_signing_jwks vd = Some keys ∧
    ∀ k k' t, k ∈ keys → k' ∈ vd_jwks vd → thumbprint k = Ok t → thumbprint k' ≠ Ok t;
  ak_bound : ∃ operational current initial bilateral continuity p q,
    current_operational_signing_key (rec_v (vd_record vd)) (vd_jwks vd) = Ok operational
    ∧ thumbprint operational = Ok current ∧ thumbprint (vd_signing_key vd) ≠ Ok current
    ∧ lb_verify_bilateral_binding (vd_log_reader vd) = Some bilateral
    ∧ bilateral p (vd_record vd) (vd_signing_key vd) operational = Ok initial
    ∧ lb_verify_operational_continuity (vd_log_reader vd) = Some continuity
    ∧ continuity q domain initial current = Ok ()
    ∧ (rec_ka (vd_record vd) ≠ [] → ∃ r, lb_key_timestamp (vd_log_reader vd) r domain current = Ok (vd_key_bound_at vd))
}.

(** The status was read from [su], is well formed and says ACTIVE. *)
Record authentic_status (vd : Verified) : Prop := {
  at_fetched : ∃ path revalidate, fetch_status env path (rec_su (vd_record vd)) revalidate = Ok (vd_registry_status vd);
  at_valid : validate_status (vd_registry_status vd) = Ok ();
  at_active : as_state (vd_registry_status vd) = JStr (lit "ACTIVE")
}.

Record established (domain : str) (vd : Verified) : Prop := {
  es_record : authentic_record domain vd;
  es_keys : authentic_keys domain vd;
  es_status : authentic_status vd
}.

Lemma try_Raise_Ok {A} (m : res A) (e : exn) a : try_except m (λ _, Raise e) = Ok a → m = Ok a.
Proof. by destruct m. Qed.

Lemma record_from_dns_Ok domain records state acquired record ttl expires state' :
  record_from_dns cfg domain records state acquired = Ok (record, ttl, expires, state') →
  ∃ r raw parsed, records = [r] ∧ state = Some state' ∧ dnssec_permits (vc_dnssec_mode cfg) state'
    ∧ concatenate_strings r = Ok raw ∧ txt_ttl r = Some ttl ∧ 0 ≤ ttl ∧ dt_add acquired (ttl * second_us) = Ok expires
    ∧ parse_record raw = Ok parsed ∧ record = set_identity domain parsed ∧ validate_record record = Ok ().
Proof.
  unfold record_from_dns. destruct state as [state|]; [|done]. intros Hx. guard_step Hx as H1'. guard_step Hx as H2'. guard_step Hx as H3'.
  destruct records as [|r [|]]; [done| |done]. bind_step Hx as raw Hraw. destruct (txt_ttl r) as [t|] eqn:Ht; [|done]. guard_step Hx as Hneg.
  bind_step Hx as ex Hex. apply try_Raise_Ok in Hex. bind_step Hx as parsed Hp. apply try_Raise_Ok in Hp.
  apply bind_unit_Ok in Hx as [Hv Hx]. apply try_Raise_Ok in Hv. injection Hx as <- <- <- <-. exists r, raw, parsed.
  rewrite bool_decide_eq_false in H1'. apply Z.ltb_ge in Hneg. apply andb_false_iff in H2', H3'. split_and!; try done.
  split_and!; [done| |].
  - intros Hm. destruct H2' as [H2'|H2']; rewrite bool_decide_eq_false in H2'; [done|done].
  - intros Hm. destruct H3' as [H3'|H3']; [by rewrite bool_decide_eq_false in H3'|]. by rewrite negb_false_iff, bool_decide_eq_true in H3'.
Qed.

Lemma ascii_only_Ok s t : ascii_only s = Ok t → t = s.
Proof. unfold ascii_only. intros Hx. guard_step Hx as Hb. by apply Ok_inj in Hx as ->. Qed.

Lemma authenticate_record_Ok record keys key : authenticate_record record keys = Ok key →
  current_record_signing_key (rec_v record) keys = Ok key ∧ ∃ sig, b64url_decode_strict (rec_sg record) = Ok sig
    ∧ jwk_verify key (record_canonical record) sig = Ok true.
Proof.
  unfold authenticate_record. intros Hx. bind_step Hx as k Hk. bind_step Hx as bytes Hb. apply ascii_only_Ok in Hb as ->.
  guard_step Hx as Hsg. bind_step Hx as sig Hs. apply try_Raise_Ok in Hs. bind_step Hx as valid Hv. guard_step Hx as Hn.
  apply Ok_inj in Hx as <-. rewrite negb_false_iff in Hn. subst valid. split; [done|]. eauto.
Qed.

Lemma share_false a b t : share a b = false → t ∈ a → t ∈ b → False.
Proof.
  unfold share. intros Hs Ha Hb. apply not_true_iff_false in Hs. apply Hs. apply List.existsb_exists. exists t.
  split; [by apply list_elem_of_In|by apply bool_decide_eq_true_2].
Qed.

Lemma separate_Ok record ek ku key op : separate_operational_key record ek ku key = Ok op →
  current_operational_signing_key (rec_v record) ku = Ok op
  ∧ (∀ k k' t, k ∈ ek → k' ∈ ku → thumbprint k = Ok t → thumbprint k' ≠ Ok t)
  ∧ ∃ t, thumbprint op = Ok t ∧ thumbprint key ≠ Ok t.
Proof.
  unfold separate_operational_key. intros Hx. bind_step Hx as o Ho. bind_step Hx as te Hte. bind_step Hx as tu Htu. guard_step Hx as Hsh.
  bind_step Hx as ts Hts. bind_step Hx as t Ht. guard_step Hx as Hne. apply Ok_inj in Hx as <-. rewrite eqb_false in Hne.
  apply mapM_res_Ok in Hte, Htu. split_and!; [done| |exists t; split; [done|congruence]].
  intros k k' x Hk Hk' Hx Hx'. eapply share_false; [exact Hsh| |].
  - apply list_elem_of_lookup in Hk as [i Hi]. destruct (Forall2_lookup_l _ _ _ _ _ Hte Hi) as (y & Hy & E). rewrite Hx in E. injection E as <-.
    by eapply list_elem_of_lookup_2.
  - apply list_elem_of_lookup in Hk' as [i Hi]. destruct (Forall2_lookup_l _ _ _ _ _ Htu Hi) as (y & Hy & E). rewrite Hx' in E. injection E as <-.
    by eapply list_elem_of_lookup_2.
Qed.

Lemma concurrently_Ok {T U} path (p : res T) (s : res U) a b : concurrently env path p s = Ok (a, b) → p = Ok a ∧ s = Ok b.
Proof. unfold concurrently. intros [Hp Hs]%run_concurrently_Ok. split; by eapply operation_Ok. Qed.

Lemma status_boundary_Ok {A} (m : res A) a : status_fetch_boundary m = Ok a → m = Ok a.
Proof.
  unfold status_fetch_boundary. destruct m as [x|e]; [done|]. cbn. destruct e; try done. case_bool_decide; [done|]. by destruct (_ || _).
Qed.

Lemma fetch_status_valid path su revalidate s : fetch_status env path su revalidate = Ok s → validate_status s = Ok ().
Proof.
  unfold fetch_status. intros Hx%status_boundary_Ok. bind_step Hx as s' Hs. apply bind_unit_Ok in Hx as [Hv Hx]. congruence.
Qed.

(** The identity branch. *)
Lemma identity_evidence_Ok path domain record ek key revalidate ev :
  verify_identity_evidence env path domain record ek key revalidate = Ok ev →
  (∃ p rv, fetch_key_set env p (rec_ku record) domain false rv = Ok (ie_jwks ev, ie_tls_cert ev))
  ∧ (∃ p, identity_log_reader env p domain record = Ok (ie_log_reader ev))
  ∧ (∀ k k' t, k ∈ ek → k' ∈ ie_jwks ev → thumbprint k = Ok t → thumbprint k' ≠ Ok t)
  ∧ ∃ operational current initial bilateral continuity p q,
    current_operational_signing_key (rec_v record) (ie_jwks ev) = Ok operational
    ∧ thumbprint operational = Ok current ∧ thumbprint key ≠ Ok current
    ∧ lb_verify_bilateral_binding (ie_log_reader ev) = Some bilateral ∧ bilateral p record key operational = Ok initial
    ∧ lb_verify_operational_continuity (ie_log_reader ev) = Some continuity ∧ continuity q domain initial current = Ok ()
    ∧ (rec_ka record ≠ [] → ∃ r, lb_key_timestamp (ie_log_reader ev) r domain current = Ok (ie_key_bound_at ev)).
Proof.
  unfold verify_identity_evidence. intros Hx. bind_step Hx as reader Hr. bind_step Hx as [fetched u] Hc.
  apply concurrently_Ok in Hc as [Hf _]. bind_step Hx as op Ho. apply separate_Ok in Ho as (Hop & Hd & t & Ht & Hne).
  bind_step Hx as bil Hb. bind_step Hx as initial Hi. bind_step Hx as cont Hco. bind_step Hx as cur Hcur.
  apply bind_unit_Ok in Hx as [Hcc Hx]. bind_step Hx as bound Hbd. apply Ok_inj in Hx as <-. cbn. rewrite Hcur in Ht. injection Ht as ->.
  destruct (lb_verify_bilateral_binding reader) as [b|] eqn:Eb; [|done]. cbn in Hb. apply Ok_inj in Hb as <-.
  destruct (lb_verify_operational_continuity reader) as [c|] eqn:Ec; [|done]. cbn in Hco. apply Ok_inj in Hco as <-.
  destruct fetched as [jwks cert]. cbn in *. split_and!; [eauto..|]. exists op, t, initial, b, c. eexists _, _. split_and!; [done..|].
  intros Hka. rewrite (proj2 (eqb_false _ _) Hka) in Hbd. bind_step Hbd as at_ Hat. apply bind_unit_Ok in Hbd as [_ [= <-]]. eauto.
Qed.

Lemma gather_established path domain revalidate vd : gather_evidence env cfg path domain revalidate = Ok vd → established domain vd.
Proof.
  unfold gather_evidence. intros Hx. bind_step Hx as [records state] Hdns. bind_step Hx as [[[record ttl] expires] st] Hrec.
  apply record_from_dns_Ok in Hrec as (r & raw & parsed & -> & -> & Hsec & Hraw & Httl & Hneg & Hexp & Hparse & Heq & Hval).
  bind_step Hx as boundary Hpin. bind_step Hx as [ek cert] Hek. bind_step Hx as key Hkey.
  apply authenticate_record_Ok in Hkey as (Hcur & sig & Hsig & Hver). bind_step Hx as [ev status] Hc.
  apply concurrently_Ok in Hc as [Hev Hst]. apply Ok_inj in Hx as <-.
  apply identity_evidence_Ok in Hev as (Hku & Hrd & Hdist & op & cur & initial & bil & cont & p & q & Hbound).
  unfold fetch_active_status in Hst. bind_step Hst as s Hs. unfold require_active_status in Hst. guard_step Hst as Hact. apply Ok_inj in Hst as ->.
  rewrite negb_false_iff in Hact. apply is_str_true in Hact.
  split; split; cbn; try done; try (by eauto 20).
  - destruct (env_fetch_txt env _ _) as [rs s'| | |e] eqn:Hf; [| | |by destruct (is_verification e)]; injection Hdns as ??; try congruence. subst.
    unfold dt_add in Hexp. guard_step Hexp as Hrange. apply Ok_inj in Hexp as <-. do 5 eexists. split_and!; [exact Hf|done..].
  - by eapply fetch_status_valid.
Qed.

(** A refreshed status keeps the rest. *)
Lemma with_status_established domain vd status checked path revalidate : established domain vd →
  fetch_status env path (rec_su (vd_record vd)) revalidate = Ok status → as_state status = JStr (lit "ACTIVE") →
  established domain (with_status vd status checked).
Proof.
  intros [[] [] _] Hs Ha. split; split; cbn; eauto. by eapply fetch_status_valid.
Qed.
End evidence.

(** ** Operations on the manager *)
Section operations.
Context `{Platform, PyLib, Zlib} (env : environment) (cfg : VerificationConfig).
Context {C : Type} `{CacheSpec C Verified usable}.

(** [m] keeps the cache within [P], even when it raises; a returned value
    satisfies [Q]. *)
Definition keeping {A} (P : str → Verified → Prop) (m : MM C A) (Q : A → Prop) : Prop :=
  ∀ c c' r, holds P c → m c = (c', r) → holds P c' ∧ ∀ a, r = Ok a → Q a.

Implicit Types P : str → Verified → Prop.

Lemma keeping_pure {A} P (r : res A) (Q : A → Prop) : (∀ a, r = Ok a → Q a) → keeping P (pure r) Q.
Proof. intros HQ c c' r' Hc [= <- <-]. done. Qed.
Lemma keeping_ret {A} P (a : A) (Q : A → Prop) : Q a → keeping P (mret a) Q.
Proof. intros HQ c c' r' Hc [= <- <-]. naive_solver. Qed.
Lemma keeping_bind {A B} P (m : MM C A) (k : A → MM C B) Q Q' :
  keeping P m Q → (∀ a, Q a → keeping P (k a) Q') → keeping P (m ≫= k) Q'.
Proof.
  intros Hm Hk c c' r Hc. unfold mbind, MM_bind. destruct (m c) as [c1 [a|e]] eqn:E; intros Hx.
  - apply Hm in E as [Hc1 HQ]; [|done]. eapply Hk; [by apply HQ|exact Hc1|exact Hx].
  - apply Hm in E as [Hc1 _]; [|done]. injection Hx as <- <-. done.
Qed.
Lemma keeping_weaken {A} P (m : MM C A) (Q Q' : A → Prop) : keeping P m Q → (∀ a, Q a → Q' a) → keeping P m Q'.
Proof. intros Hm HQ c c' r Hc Hx. destruct (Hm _ _ _ Hc Hx). naive_solver. Qed.

Lemma holds_evict' P d c : holds P c → holds P (cache_evict d c).
Proof. intros Hc. eapply holds_weaken; [|by apply holds_evict]. naive_solver. Qed.
Lemma keeping_evict P d : keeping P (evict d) (λ _, True).
Proof. intros c c' r Hc [= <- <-]. split; [by apply holds_evict'|done]. Qed.
Lemma keeping_get P path d : keeping P (get_cached env path d) (λ r, ∀ v, r = Some v → P d v ∧ usable (now env path) v).
Proof. intros c c' r Hc Hx. destruct (holds_get _ _ _ _ _ _ Hc Hx) as [? HQ]. split; [done|]. intros a -> v ->. by apply HQ. Qed.
Lemma keeping_put P path d v : P d v → keeping P (put_cached env path d v) (λ _, True).
Proof. intros Hv c c' r Hc Hx. split; [|done]. by eapply holds_put. Qed.

(** Freshness at a reading of the clock. *)
Definition fresh_at (path : list nat) (fresh_dns : bool) (vd : Verified) : Prop :=
  require_fresh_evidence_at (now env path) fresh_dns vd = Ok ().

Lemma keeping_fresh P path vd fresh_dns :
  keeping P (require_fresh_evidence env path vd fresh_dns) (λ _, fresh_at (1%nat :: path) fresh_dns vd).
Proof.
  eapply keeping_bind; [apply keeping_pure with (Q := λ _, True); done|]. intros _ _ c c' r Hc. unfold evict_on_failure, fresh_at.
  destruct (require_fresh_evidence_at _ _ _) as [[]|e]; intros [= <- <-]; [done|]. split; [|done]. destruct (is_verification e); [by apply holds_evict'|done].
Qed.

Lemma keeping_finish {A} P d (m : MM C A) Q : keeping P m Q → keeping P (finish_verification d m) Q.
Proof.
  intros Hm c c' r Hc. unfold finish_verification. destruct (m c) as [c1 [a|e]] eqn:E; intros [= <- <-]; apply Hm in E as [Hc1 HQ]; [done|done| |done].
  split; [|done]. destruct (is_not_active e); [by apply holds_evict'|done].
Qed.

Lemma keeping_complete P path d m Q : keeping P m Q → keeping P (complete_verification env path d m) Q.
Proof.
  intros Hm. apply keeping_finish. eapply keeping_bind; [apply keeping_pure with (Q := λ _, True); done|]. intros _ _.
  eapply keeping_bind; [exact Hm|]. intros a Ha. eapply keeping_bind; [apply keeping_pure with (Q := λ _, True); done|]. intros _ _. by apply keeping_ret.
Qed.

Lemma keeping_coalesce P path d m Q : keeping P m Q → keeping P (coalesce env path d m) Q.
Proof.
  intros Hm c c' r Hc. unfold coalesce. destruct (complete_verification _ _ _ _ _) as [c1 o] eqn:E.
  apply (keeping_complete _ _ _ _ _ Hm) in E as [Hc1 HQ]; [|done]. intros [= <- <-]. split; [done|]. intros a Ha.
  apply bind_unit_Ok in Ha as [_ Ha]. auto.
Qed.

(** The cache of a manager holds established evidence with a positive TTL. *)
Definition kept (d : str) (vd : Verified) : Prop := established env cfg d vd ∧ 0 < vd_dns_ttl vd.

Lemma keeping_cache_verification path d vd cache_result : established env cfg d vd →
  keeping kept (cache_verification env path vd cache_result) (λ v, v = vd ∧ fresh_at (1 :: 0 :: path)%nat true vd).
Proof.
  intros Hv. unfold cache_verification. eapply keeping_bind; [apply keeping_fresh|]. intros [] Hf. destruct cache_result; cbn [negb]; [|by apply keeping_ret].
  assert (vd_domain vd = d) as Hd by apply (es_record _ _ _ _ Hv). destruct (Z.ltb_spec 0 (vd_dns_ttl vd)).
  - eapply keeping_bind; [apply keeping_put; split; [by rewrite Hd|done]|]. intros _ _. by apply keeping_ret.
  - eapply keeping_bind; [apply keeping_evict|]. intros _ _. by apply keeping_ret.
Qed.

Lemma keeping_uncached path d revalidate : keeping kept (verify_domain_uncached env cfg path d revalidate) (established env cfg d).
Proof.
  unfold verify_domain_uncached. eapply keeping_bind; [apply keeping_pure with (Q := λ _, True); done|]. intros _ _.
  eapply keeping_bind; [apply keeping_pure; apply gather_established|]. intros vd Hv.
  eapply keeping_bind; [apply (keeping_cache_verification _ d), Hv|]. intros ? [-> _].
  eapply keeping_bind; [apply keeping_pure with (Q := λ _, True); done|]. intros _ _. by apply keeping_ret.
Qed.

Lemma keeping_refreshed path d cached status p rv : established env cfg d cached → 0 < vd_dns_ttl cached →
  fetch_status env p (rec_su (vd_record cached)) rv = Ok status →
  keeping kept (cache_refreshed_status env path d cached status) (established env cfg d).
Proof.
  intros Hc Httl Hs. unfold cache_refreshed_status. destruct (is_str "ACTIVE" (as_state status)) eqn:Ha; cbn [negb].
  2: { eapply keeping_bind; [apply keeping_evict|]. intros _ _. by apply keeping_pure. }
  apply is_str_true in Ha. eapply keeping_bind; [apply keeping_fresh|]. intros _ _.
  eapply keeping_bind; [apply keeping_get|]. intros [current|] Hcur; [|by apply keeping_pure].
  destruct (Hcur _ eq_refl) as [[Hec _] _]. destruct (negb _); [by apply keeping_ret|].
  assert (established env cfg d (with_status cached status (now env (0%nat :: path)))) as Hr by by eapply with_status_established.
  eapply keeping_bind; [by apply keeping_put|]. intros _ _. by apply keeping_ret.
Qed.

Lemma keeping_refresh_status rounds path d cached : keeping kept (refresh_status env cfg rounds path d cached) (established env cfg d).
Proof.
  induction rounds as [|rounds IH]; cbn [refresh_status]; [by apply keeping_pure|].
  eapply keeping_bind; [apply keeping_get|]. intros [latest|] Hl.
  - destruct (Hl _ eq_refl) as [[He Ht] _]. eapply keeping_bind; [apply keeping_pure with (Q := λ _, True); done|]. intros newer _.
    destruct newer; [by apply keeping_ret|]. eapply keeping_bind; [apply keeping_pure; intros a Ha; exact Ha|]. intros status Hs. eapply keeping_refreshed; [done|done|exact Hs].
  - eapply keeping_bind; [apply keeping_complete, keeping_uncached|]. intros joined Hj.
    eapply keeping_bind; [apply keeping_pure with (Q := λ _, True); done|]. intros _ _. destruct (_ =? 0); [|by apply keeping_ret].
    eapply keeping_bind; [apply keeping_pure with (Q := λ _, True); done|]. by intros _ _.
Qed.

Lemma keeping_reusable rounds path d : keeping kept (reusable_verification env cfg rounds path d) (established env cfg d).
Proof.
  unfold reusable_verification. eapply keeping_bind; [apply keeping_get|]. intros [cached|] Hc.
  - eapply keeping_bind; [apply keeping_pure with (Q := λ _, True); done|]. intros elapsed _. destruct (elapsed <? _).
    + apply keeping_ret. by destruct (Hc _ eq_refl) as [[? _] _].
    + apply keeping_coalesce, keeping_refresh_status.
  - apply keeping_coalesce, keeping_uncached.
Qed.

(** What a caller is given, at the reading of the clock at [path]: evidence that
    is established and has not expired, for the peer of this connection and
    under the configured allow-list. *)
Record accepted (path : list nat) (domain : str) (peer : option TLSCertificate) (vd : Verified) : Prop := {
  ac_established : established env cfg domain vd;
  ac_certificates : Forall (λ c, dt_ge (now env path) (tls_not_after c) = Ok false) (dated_certs vd);
  ac_key_age : rec_ka (vd_record vd) ≠ [] → ∃ limit, key_age_limit vd = Ok limit ∧ dt_ge (now env path) limit = Ok false;
  ac_dns : vd_dns_ttl vd ≠ 0 → ∃ at_, dns_expiry vd = Ok at_ ∧ dt_ge (now env path) at_ = Ok false;
  ac_mtls : lit "mtls" ∈ policy_flags (vd_record vd) → ∃ cert, peer = Some cert ∧ validate_against_fqdn cert domain = Ok ();
  ac_counterparty : ∀ entities, vc_trusted_entities cfg = Some entities → ∃ thumb, thumbprint (vd_signing_key vd) = Ok thumb
    ∧ accepted_by (rec_gi (vd_record vd)) thumb entities = true
}.

Lemma fresh_meaning {R} at_ fresh_dns (vd : VerifiedDomain R) : require_fresh_evidence_at at_ fresh_dns vd = Ok () →
  Forall (λ c, dt_ge at_ (tls_not_after c) = Ok false) (dated_certs vd)
  ∧ (rec_ka (vd_record vd) ≠ [] → ∃ limit, key_age_limit vd = Ok limit ∧ dt_ge at_ limit = Ok false)
  ∧ (fresh_dns && (vd_dns_ttl vd =? 0) = false → ∃ dns, dns_expiry vd = Ok dns ∧ dt_ge at_ dns = Ok false).
Proof.
  unfold require_fresh_evidence_at. intros Hx. bind_step Hx as expired Hexp. bind_step Hx as aged Hag. bind_step Hx as dns Hdns.
  apply mapM_res_Ok in Hexp. bind_step Hx as code Hcode. destruct code; [done|].
  destruct aged; [done|]. destruct (existsb id expired) eqn:He; [done|]. split_and!.
  - apply not_true_iff_false in He. apply Forall_forall. intros c Hc. apply list_elem_of_lookup in Hc as [i Hi].
    destruct (Forall2_lookup_l _ _ _ _ _ Hexp Hi) as (b & Hb & ->). destruct b; [|done]. destruct He. apply List.existsb_exists. exists true.
    split; [|done]. apply list_elem_of_In. by eapply list_elem_of_lookup_2.
  - intros Hka. rewrite (proj2 (eqb_false _ _) Hka) in Hag. bind_step Hag as limit Hl. eauto.
  - intros Hb. rewrite Hb in Hcode. bind_step Hcode as stale Hst. destruct stale; [done|]. eauto.
Qed.

Lemma mtls_meaning record domain peer : enforce_mtls_policy record domain peer = Ok () → lit "mtls" ∈ policy_flags record →
  ∃ cert, peer = Some cert ∧ validate_against_fqdn cert domain = Ok ().
Proof.
  unfold enforce_mtls_policy. intros Hx Hin. rewrite bool_decide_eq_true_2 in Hx by done. destruct peer as [cert|]; [|done].
  apply try_Raise_Ok in Hx. eauto.
Qed.

Lemma keeping_accept path d vd peer : established env cfg d vd →
  keeping kept (accept_verification env cfg path d vd peer true) (accepted (1%nat :: path) d peer).
Proof.
  intros Hv. unfold accept_verification. apply keeping_bind with (Q := λ _, enforce_mtls_policy (vd_record vd) d peer = Ok () ∧ enforce_counterparty_acceptance cfg vd = Ok ()).
  - eapply keeping_bind; [apply keeping_pure; intros a Ha; exact Ha|]. intros [] Hm. apply keeping_pure. intros [] Ha. done.
  - intros [] [Hm Ha]. eapply keeping_bind; [apply keeping_fresh|]. intros [] Hf. apply keeping_ret.
    apply fresh_meaning in Hf as (Hcert & Hka & Hdns). split; [done|done|done| |by apply mtls_meaning|].
    + intros Hne. apply Hdns. by apply andb_false_iff; left; apply Z.eqb_neq.
    + intros entities He. unfold enforce_counterparty_acceptance in Ha. rewrite He in Ha. bind_step Ha as thumb Ht.
      apply raise_if_Ok, negb_false_iff in Ha. eauto.
Qed.

Lemma keeping_verify rounds path closed domain peer refresh :
  keeping kept (verify env cfg rounds path closed domain peer true refresh)
    (λ vd, ∃ name, normalize_fqdn idna_encode domain false = Ok name ∧ accepted (1 :: 4 :: path)%nat name peer vd).
Proof.
  unfold verify. eapply keeping_bind; [apply keeping_pure with (Q := λ _, True); done|]. intros _ _.
  eapply keeping_bind; [apply keeping_pure; intros a Ha; exact Ha|]. intros name Hn.
  apply keeping_bind with (Q := established env cfg name).
  - destruct refresh; [|apply keeping_reusable]. apply keeping_coalesce.
    eapply keeping_bind; [apply keeping_pure with (Q := λ _, True); done|]. intros _ _. apply keeping_uncached.
  - intros vd Hv. eapply keeping_weaken; [by apply keeping_accept|]. intros a Ha. exists name. split; [exact Hn|exact Ha].
Qed.

Lemma keeping_bounded {A} P path (m : MM C A) Q : keeping P m Q → keeping P (bounded env path m) Q.
Proof.
  intros Hm. unfold bounded. eapply keeping_bind; [apply keeping_pure with (Q := λ _, True); done|]. intros _ _.
  eapply keeping_bind; [exact Hm|]. intros a Ha. eapply keeping_bind; [apply keeping_pure with (Q := λ _, True); done|]. intros _ _. by apply keeping_ret.
Qed.

(** ** The manager as a machine *)
Inductive manager_call : Set :=
| VerifyDomain (domain : str) (peer : option TLSCertificate)
| RefreshDomain (domain : str) (peer : option TLSCertificate)
| VerifyLocalPublication (domain : str)
| EvictDomain (domain : str).

(** The cache after a call. *)
Definition after (rounds : nat) (path : list nat) (closed : bool) (k : manager_call) (c : C) : C :=
  match k with
  | VerifyDomain d peer => (verify_domain env cfg rounds path closed d peer c).1
  | RefreshDomain d peer => (refresh_domain env cfg rounds path closed d peer c).1
  | VerifyLocalPublication d => (verify_local_publication env cfg rounds path closed (Some d) c).1
  | EvictDomain d => (evict_domain d c).1
  end.

Inductive manager_step (c : C) : C → Prop :=
| step_call rounds path closed k : manager_step c (after rounds path closed k c).

Lemma keeping_accept_local path d vd : established env cfg d vd →
  keeping kept (accept_verification env cfg path d vd None false) (established env cfg d).
Proof.
  intros Hv. unfold accept_verification. eapply keeping_bind; [apply keeping_ret with (Q := λ _, True); done|]. intros _ _.
  eapply keeping_bind; [apply keeping_fresh|]. intros [] _. by apply keeping_ret.
Qed.

Lemma keeping_fst {A} P (m : MM C A) Q c : keeping P m Q → holds P c → holds P (m c).1.
Proof. intros Hm Hc. destruct (m c) as [c' r] eqn:E. by destruct (Hm _ _ _ Hc E). Qed.

Lemma step_kept c c' : manager_step c c' → holds kept c → holds kept c'.
Proof.
  intros [rounds path closed k] Hc. destruct k as [d peer|d peer|d|d]; cbn [after].
  - eapply keeping_fst; [|done]. apply keeping_bounded, keeping_verify.
  - eapply keeping_fst; [|done]. apply keeping_bounded, keeping_verify.
  - eapply keeping_fst with (Q := λ _, True); [|done]. cbn [verify_local_publication]. eapply keeping_bounded. unfold verify.
    eapply keeping_bind; [apply keeping_pure with (Q := λ _, True); done|]. intros _ _.
    eapply keeping_bind; [apply keeping_pure with (Q := λ _, True); done|]. intros name _.
    apply keeping_bind with (Q := established env cfg name); [|intros vd Hv; eapply keeping_weaken; [by apply keeping_accept_local|done]].
    apply keeping_coalesce.
    eapply keeping_bind; [apply keeping_pure with (Q := λ _, True); done|]. intros _ _. apply keeping_uncached.
  - eapply keeping_fst; [|done]. unfold evict_domain. eapply keeping_bind; [apply keeping_pure with (Q := λ _, True); done|]. intros name _. apply keeping_evict.
Qed.

Lemma steps_kept c c' : rtc manager_step c c' → holds kept c → holds kept c'.
Proof. induction 1 as [|c1 c2 c3 Hs _ IH]; [done|]. intros Hc. by apply IH, (step_kept _ _ Hs). Qed.
End operations.

(** ** Identities that are not active *)
Section inactive.
Context `{Platform, PyLib, Zlib} (env : environment) (cfg : VerificationConfig).
Context {C : Type} `{CacheSpec C Verified usable}.
Context (Hcheck : ∀ p e, env_check env p = Raise e → e = BudgetExhausted).

(** When [m] raises that the identity is not active, the cache no longer holds it. *)
Definition flushing {A} (d : str) (m : MM C A) : Prop :=
  ∀ c c' e, holds (kept env cfg) c → m c = (c', Raise e) → is_not_active e = true → holds (λ d' v, d' ≠ d ∧ kept env cfg d' v) c'.

Lemma not_active_verification e : is_verification e = false → is_not_active e = false.
Proof. by destruct e. Qed.

Lemma flushing_quiet {A} d (m : MM C A) : (∀ c c' e, m c = (c', Raise e) → is_not_active e = false) → flushing d m.
Proof. intros Hq c c' e _ Hx He. apply Hq in Hx. congruence. Qed.
Lemma flushing_pure {A} d (r : res A) : (∀ e, r = Raise e → is_not_active e = false) → flushing d (pure r).
Proof. intros Hr. apply flushing_quiet. intros c c' e [= _ Hx]. by apply Hr. Qed.
Lemma flushing_bind {A B} d (m : MM C A) (k : A → MM C B) Q : keeping (kept env cfg) m Q → flushing d m → (∀ a, Q a → flushing d (k a)) → flushing d (m ≫= k).
Proof.
  intros Hkeep Hm Hk c c' e Hc. unfold mbind, MM_bind. destruct (m c) as [c1 [a|e']] eqn:E; intros Hx He.
  - apply Hkeep in E as [Hc1 HQ]; [|done]. by eapply (Hk a); [apply HQ| |exact Hx|].
  - injection Hx as <- <-. by eapply Hm.
Qed.
Lemma check_quiet p e : remaining env p = Raise e → is_not_active e = false.
Proof. intros ->%Hcheck. done. Qed.

Lemma flushing_finish {A} d (m : MM C A) Q : keeping (kept env cfg) m Q → flushing d (finish_verification d m).
Proof.
  intros Hm c c' e Hc. unfold finish_verification. destruct (m c) as [c1 [a|e']] eqn:E; [done|]. intros [= <- <-] He. rewrite He.
  apply Hm in E as [Hc1 _]; [|done]. by apply holds_evict.
Qed.

Lemma flushing_coalesce d path m Q : keeping (kept env cfg) m Q → flushing d (coalesce env path d m).
Proof.
  intros Hm c c' e Hc. unfold coalesce. destruct (complete_verification _ _ _ _ _) as [c1 o] eqn:E. intros [= <- Hx] He.
  destruct (remaining env _) as [[]|e'] eqn:Hr; cbn in Hx.
  - subst o. eapply flushing_finish; [|exact Hc|exact E|exact He]. eapply keeping_bind; [apply keeping_pure with (Q := λ _, True); done|]. intros _ _.
    eapply keeping_bind; [exact Hm|]. intros a Ha. eapply keeping_bind; [apply keeping_pure with (Q := λ _, True); done|]. intros _ _. by apply keeping_ret.
  - injection Hx as <-. apply check_quiet in Hr. congruence.
Qed.

Lemma normalize_quiet name agent e : normalize_fqdn idna_encode name agent = Raise e → is_not_active e = false.
Proof. by intros [m ->]%normalize_raises. Qed.

Lemma fresh_quiet {R} at_ b (vd : VerifiedDomain R) e : require_fresh_evidence_at at_ b vd = Raise e → is_not_active e = false.
Proof.
  unfold require_fresh_evidence_at. destruct (mapM_res _ _) as [expired|e'] eqn:E; cbn [mbind result_bind].
  - destruct (if rec_ka (vd_record vd) ==? [] then _ else _) as [aged|e'] eqn:Ea; cbn [mbind result_bind].
    + destruct (dns_expiry vd) as [dns|e'] eqn:Ed; cbn [mbind result_bind].
      * match goal with |- context [match ?c with Some _ => _ | None => if _ then _ else _ end] => destruct c as [code|] eqn:Ec end; cbn [mbind result_bind].
        -- destruct aged; [injection Ec as <-; by intros [= <-]|]. destruct (existsb id expired); [injection Ec as <-; by intros [= <-]|done].
        -- destruct (b && _); [done|]. destruct (dt_ge at_ dns) as [[]|e'] eqn:Eg; cbn; [by intros [= <-]|done|]. intros [= <-].
           by eapply not_active_verification, dt_ge_raises.
      * intros [= <-]. unfold dns_expiry in Ed. destruct (vd_dns_expires_at vd); [done|]. by eapply not_active_verification, dt_add_raises.
    + intros [= <-]. destruct (_ ==? []); [done|]. destruct (key_age_limit vd) as [l|e''] eqn:Ek; cbn in Ea.
      * by eapply not_active_verification, dt_ge_raises.
      * injection Ea as <-. by eapply not_active_verification, key_age_raises.
  - intros [= <-]. apply not_active_verification. revert E. generalize (dated_certs vd). intros l. induction l as [|c l IH]; cbn [mapM_res]; [done|].
    destruct (dt_ge at_ _) as [x|e''] eqn:Eg; cbn; [|intros [= <-]; by eapply dt_ge_raises]. destruct (mapM_res _ l); cbn; [done|]. intros [= <-]. by apply IH.
Qed.
Lemma dumps_quiet v e : dumps_sorted v = Raise e → is_not_active e = false.
Proof.
  revert e. induction v as [| | | | |l IH|d IH] using json_nested_ind; intros e; cbn [dumps_sorted]; try done.
  - destruct (_ <? _); cbn; [by intros [= <-]|done].
  - destruct (mapM_res dumps_sorted l) as [|e'] eqn:E; cbn; [done|]. intros [= <-]. revert E.
    induction IH as [|x l Hx _ IH']; cbn [mapM_res]; [done|]. destruct (dumps_sorted x) eqn:Ex; cbn; [|intros Hy; injection Hy as ->; by apply Hx].
    destruct (mapM_res _ l); cbn; [done|]. intros Hy. injection Hy as ->. by apply IH'.
  - destruct (mapM_res _ (sort_members _)) as [|e'] eqn:E; cbn; [done|]. intros [= <-].
    assert (Forall (λ m : list Z * res str, ∀ e, m.2 = Raise e → is_not_active e = false) (sort_members (map (λ kv, (kv.1, dumps_sorted kv.2)) d))) as Hf.
    { rewrite sort_members_perm. apply Forall_map. eapply Forall_impl; [exact IH|]. done. }
    revert E. induction Hf as [|m l Hm _ IH']; cbn [mapM_res]; [done|]. destruct (m.2) eqn:Em; cbn; [|intros Hy; injection Hy as ->; by apply Hm].
    destruct (mapM_res _ l); cbn; [done|]. intros Hy. injection Hy as ->. by apply IH'.
Qed.

Lemma thumbprint_quiet k e : thumbprint k = Raise e → is_not_active e = false.
Proof.
  unfold thumbprint, compute_thumbprint. destruct (negb _); [by intros [= <-]|]. cbn [raise_if mbind result_bind].
  destruct (thumbprint_members _) as [ms|]; [|by intros [= <-]]. destruct (existsb _ ms); [by intros [= <-]|]. cbn [raise_if mbind result_bind].
  destruct (mapM_res _ ms) as [l|e'] eqn:El; cbn [mbind result_bind].
  - destruct (dumps_sorted _) as [|e'] eqn:Ed; cbn; [done|]. intros [= <-]. by eapply dumps_quiet.
  - intros [= <-]. revert El. induction ms as [|m ms IH]; cbn [mapM_res]; [done|].
    destruct (item m _) as [v|e1] eqn:Hi; cbn [mbind result_bind].
    + destruct (mapM_res _ ms) as [|e2]; cbn; [done|]. intros Hx. injection Hx as ->. by apply IH.
    + intros Hx. injection Hx as ->. unfold item in Hi. destruct (member _ _); [done|by injection Hi as <-].
Qed.

Lemma flushing_reusable d rounds path : flushing d (reusable_verification env cfg rounds path d).
Proof.
  unfold reusable_verification. eapply flushing_bind; [apply keeping_get| |].
  - apply flushing_quiet. intros c c' e Hx. by eapply not_active_verification, get_raises.
  - intros [cached|] Hc; [|by eapply flushing_coalesce, keeping_uncached].
    eapply flushing_bind with (Q := λ _, True); [by apply keeping_pure| |].
    + apply flushing_pure. intros e. unfold dt_sub. destruct (dt_utcoffset _), (dt_utcoffset _); by intros [= <-].
    + intros elapsed _. destruct (elapsed <? _); [by apply flushing_quiet|]. by eapply flushing_coalesce, keeping_refresh_status.
Qed.

Lemma flushing_accept d path vd peer acceptance : flushing d (accept_verification env cfg path d vd peer acceptance).
Proof.
  unfold accept_verification. eapply flushing_bind with (Q := λ _, True).
  - intros c c' r Hc Hx. split; [|done]. destruct acceptance; [|by injection Hx as <- _].
    revert Hx. unfold mbind, MM_bind, pure. destruct (enforce_mtls_policy _ _ _); by intros [= <- _].
  - apply flushing_quiet. intros c c' e. destruct acceptance; [|done]. unfold mbind, MM_bind, pure.
    destruct (enforce_mtls_policy _ _ _) as [[]|e'] eqn:Em; intros [= _ Hx].
    + unfold enforce_counterparty_acceptance in Hx. destruct (vc_trusted_entities cfg); [|done].
      destruct (thumbprint _) as [t|e'] eqn:Et; cbn [mbind result_bind] in Hx; [destruct (negb _); [by injection Hx as <-|done]|]. injection Hx as <-.
      by eapply thumbprint_quiet.
    + subst e'. unfold enforce_mtls_policy in Em. destruct (negb _); [done|]. destruct peer; [|by injection Em as <-].
      destruct (validate_against_fqdn _ _); cbn in Em; [done|by injection Em as <-].
  - intros [] _. eapply flushing_bind with (Q := λ _, True); [eapply keeping_weaken; [apply keeping_fresh|done]| |by intros [] _; apply flushing_quiet].
    apply flushing_quiet. intros c c' e. unfold require_fresh_evidence, mbind, MM_bind, pure.
    destruct (remaining env _) as [[]|e'] eqn:Er; [|intros [= _ <-]; by eapply check_quiet].
    unfold evict_on_failure. destruct (require_fresh_evidence_at _ _ _) as [[]|e'] eqn:Ef; intros [= _ <-]. by eapply fresh_quiet.
Qed.

Lemma flushing_verify rounds path closed domain peer name : normalize_fqdn idna_encode domain false = Ok name →
  flushing name (verify env cfg rounds path closed domain peer true false).
Proof.
  intros Hn. unfold verify. eapply flushing_bind with (Q := λ _, True); [by apply keeping_pure|by apply flushing_pure; destruct closed; intros e [= <-]|].
  intros [] _. eapply flushing_bind; [apply keeping_pure; intros a Ha; exact Ha|by rewrite Hn|]. intros d Hd. rewrite Hn in Hd. injection Hd as <-.
  eapply flushing_bind; [apply keeping_reusable|apply flushing_reusable|]. intros vd Hv. apply flushing_accept.
Qed.
Lemma flushing_bounded {A} d path (m : MM C A) Q : keeping (kept env cfg) m Q → flushing d m → flushing d (bounded env path m).
Proof.
  intros Hk Hm. unfold bounded. eapply flushing_bind with (Q := λ _, True); [by apply keeping_pure|by apply flushing_pure, check_quiet|].
  intros [] _. eapply flushing_bind; [exact Hk|exact Hm|]. intros a _.
  eapply flushing_bind with (Q := λ _, True); [by apply keeping_pure|by apply flushing_pure, check_quiet|]. intros [] _. by apply flushing_quiet.
Qed.
End inactive.

(** ** Zero TTLs *)
Lemma MM_bind_Ok {C A B} (m : MM C A) (k : A → MM C B) c c' b : (m ≫= k) c = (c', Ok b) →
  ∃ c1 a, m c = (c1, Ok a) ∧ k a c1 = (c', Ok b).
Proof. unfold mbind, MM_bind. destruct (m c) as [c1 [a|e]]; [eauto|discriminate]. Qed.

Lemma uncached_zero_ttl `{Platform, PyLib, Zlib} (env : environment) (cfg : VerificationConfig) (path : list nat) (domain : str) (rv : bool)
    (c c' : gmap str Verified) (vd : Verified) :
  (∀ p v, gather_evidence env cfg p domain rv = Ok v → vd_dns_ttl v = 0) →
  verify_domain_uncached env cfg path domain rv c = (c', Ok vd) → vd_dns_ttl vd = 0 ∧ c' !! domain = None.
Proof.
  intros Hz Hx. apply MM_bind_Ok in Hx as (c1 & [] & Hp & Hx). injection Hp as <- _. apply MM_bind_Ok in Hx as (c2 & v & Hp & Hx). injection Hp as <- Hg.
  apply MM_bind_Ok in Hx as (c3 & v' & Hc & Hx). apply MM_bind_Ok in Hx as (c4 & [] & Hp & Hx). injection Hp as <- _. injection Hx as <- <-.
  pose proof (gather_established _ _ _ _ _ _ Hg) as He. apply Hz in Hg. apply MM_bind_Ok in Hc as (c5 & [] & _ & Hc). cbn [negb] in Hc. rewrite Hg in Hc. cbn [Z.ltb] in Hc.
  apply MM_bind_Ok in Hc as (c6 & [] & Hev & Hc). injection Hev as <-. injection Hc as <- <-. split; [done|].
  rewrite (ar_domain _ _ _ _ (es_record _ _ _ _ He)). apply lookup_delete_eq.
Qed.

(** ** The allow-list *)

(** An entry of a validated allow-list, for the entry it was given as. *)
Definition entity_of `{Platform} (given entity : TrustedEntity) : Prop :=
  normalize_fqdn idna_encode (te_governance_id given) false = Ok (te_governance_id entity)
  ∧ te_entity_key_thumbprints entity = te_entity_key_thumbprints given
  ∧ ∀ pins, te_entity_key_thumbprints entity = Some pins →
      pins ≠ [] ∧ NoDup pins ∧ Forall (λ pin, ∃ digest, b64url_decode_strict pin = Ok digest ∧ len digest = 32) pins.

Lemma check_pins_Ok pins : check_pins pins = Ok () →
  pins ≠ [] ∧ NoDup pins ∧ Forall (λ pin, ∃ digest, b64url_decode_strict pin = Ok digest ∧ len digest = 32) pins.
Proof.
  unfold check_pins. intros Hx. guard_step Hx as Hne. guard_step Hx as Hnd. apply raise_if_Ok in Hx.
  rewrite negb_false_iff in Hnd, Hx. rewrite bool_decide_eq_true in Hnd. split_and!; [by destruct pins|done|].
  rewrite forallb_Forall in Hx. eapply Forall_impl; [exact Hx|]. intros pin Hp. unfold valid_pin in Hp.
  destruct (b64url_decode_strict pin) as [b|]; [|done]. exists b. split; [done|]. by apply Z.eqb_eq in Hp.
Qed.

Lemma normalize_entities_Ok `{Platform} seen given entities : normalize_entities seen given = Ok entities →
  Forall2 entity_of given entities ∧ NoDup (te_governance_id <$> entities) ∧ Forall (λ e, te_governance_id e ∉ seen) entities.
Proof.
  revert seen entities. induction given as [|g given IH]; intros seen entities Hx; cbn [normalize_entities] in Hx.
  - apply Ok_inj in Hx as <-. split_and!; constructor.
  - bind_step Hx as gi Hgi. guard_step Hx as Hseen. apply bind_unit_Ok in Hx as [Hpins Hx]. bind_step Hx as rest Hrest. apply Ok_inj in Hx as <-.
    rewrite bool_decide_eq_false in Hseen. apply IH in Hrest as (Hf & Hnd & Hout).
    destruct (normalize_fqdn idna_encode (te_governance_id g) false) as [gi'|e] eqn:Hn; [|by destruct e]. cbn in Hgi. injection Hgi as ->.
    split_and!.
    + constructor; [|exact Hf]. split_and!; [done|done|]. cbn. intros pins Hp. rewrite Hp in Hpins. by apply check_pins_Ok.
    + cbn. constructor; [|done]. rewrite list_elem_of_fmap. intros (e & E & He). rewrite Forall_forall in Hout. apply (Hout e He). rewrite <- E. left.
    + constructor; [done|]. eapply Forall_impl; [exact Hout|]. intros e He Hin. apply He. by right.
Qed.

(** Governance identifiers being distinct, the first entry with one is the only. *)
Lemma accepted_by_iff gi thumb entities : NoDup (te_governance_id <$> entities) →
  accepted_by gi thumb entities = true ↔
  ∃ e, e ∈ entities ∧ te_governance_id e = gi ∧ ∀ pins, te_entity_key_thumbprints e = Some pins → thumb ∈ pins.
Proof.
  induction entities as [|e entities IH]; cbn [accepted_by fmap list_fmap]; intros Hnd.
  - split; [done|]. intros (e & He & _). by apply not_elem_of_nil in He.
  - apply NoDup_cons in Hnd as [Hout Hnd]. destruct (te_governance_id e ==? gi) eqn:E; cbn [negb].
    + rewrite eqb_true in E. split.
      * intros Hx. exists e. split_and!; [left|done|]. intros pins Hp. rewrite Hp in Hx. by apply bool_decide_eq_true in Hx.
      * intros (e' & He & Egi & Hp). apply elem_of_cons in He as [->|He].
        -- destruct (te_entity_key_thumbprints e) as [pins|]; [|done]. apply bool_decide_eq_true_2. by apply Hp.
        -- destruct Hout. rewrite E, <- Egi. by apply list_elem_of_fmap_2.
    + rewrite IH by done. rewrite eqb_false in E. split; intros (e' & He & Hx).
      * exists e'. split; [by right|done].
      * exists e'. apply elem_of_cons in He as [->|He]; [|done]. by destruct Hx.
Qed.

(** C29 Acceptance of counterparties is the configured allow-list.  A validated
    configuration keeps the given entries in order, with normalized and
    pairwise distinct governance identifiers and their pins, each a strict
    base64url SHA-256 digest, present at most once; and [verify_domain] accepts a
    counterparty exactly when the entity key has a thumbprint and some entry
    carries the record's governance identifier and, if it has pins, pins that key. *)
Theorem acceptance_is_allow_list `{Platform} (cfg cfg' : VerificationConfig) (given : list TrustedEntity)
    (Hvalid : validate_verification_config cfg = Ok cfg') (Hgiven : vc_trusted_entities cfg = Some given) :
  ∃ entities, vc_trusted_entities cfg' = Some entities ∧ Forall2 entity_of given entities ∧ NoDup (te_governance_id <$> entities) ∧
  ∀ vd : Verified, enforce_counterparty_acceptance cfg' vd = Ok () ↔
    ∃ thumb e, thumbprint (vd_signing_key vd) = Ok thumb ∧ e ∈ entities ∧ te_governance_id e = rec_gi (vd_record vd)
      ∧ ∀ pins, te_entity_key_thumbprints e = Some pins → thumb ∈ pins.
Proof.
  unfold validate_verification_config in Hvalid. guard_step Hvalid as Hneg. rewrite Hgiven in Hvalid. bind_step Hvalid as l Hl.
  bind_step Hl as entities He. apply Ok_inj in Hl as <-. apply Ok_inj in Hvalid as <-. apply normalize_entities_Ok in He as (Hf & Hnd & _).
  exists entities. split_and!; [done|done|done|]. intros vd. unfold enforce_counterparty_acceptance. cbn [vc_trusted_entities].
  destruct (thumbprint (vd_signing_key vd)) as [thumb|e]; cbn [mbind result_bind]; [|naive_solver].
  pose proof (accepted_by_iff (rec_gi (vd_record vd)) thumb entities Hnd) as Hiff. destruct (accepted_by _ _ _); cbn [negb raise_if].
  - split; [|done]. intros _. destruct (proj1 Hiff eq_refl) as (e & ?). eauto.
  - split; [done|]. intros (t & e & [= <-] & Hx). assert (false = true) as E; [|discriminate E]. apply Hiff. eauto.
Qed.

(** C1 What a verified identity rests on.  Whatever calls a manager has served
    since its cache was empty, when [verify_domain] returns a result, fresh or
    cached: the only TXT record of the name parses and validates for it, under the
    DNSSEC policy; the one current key of an entity key set read within the
    boundary of [gi] verifies the record's signature over its canonical form; the
    operational keys were read from the identity's own host and share no
    thumbprint with the entity's; the log reader of the record's reference binds
    the operational key to the entity key and connects it to the initial one; the
    status document read from [su] is valid and says ACTIVE; and at the final
    reading of the clock no dated certificate has expired, nor the key age, nor
    (unless the TTL is zero) the DNS answer; a record with the [mtls] flag was
    presented with a certificate for the name, and the allow-list, if any,
    accepts the governance identifier and the entity key. *)
Theorem verify_domain_sound `{Platform, PyLib, Zlib} (env : environment) (cfg : VerificationConfig) {C : Type}
    `{CacheSpec C Verified usable} (c0 c c' : C) (rounds : nat) (path : list nat) (closed : bool) (domain : str)
    (peer : option TLSCertificate) (vd : Verified)
    (Hempty : holds (λ _ _, False) c0) (Hreach : rtc (manager_step env cfg) c0 c)
    (Hok : verify_domain env cfg rounds path closed domain peer c = (c', Ok vd)) :
  ∃ name, normalize_fqdn idna_encode domain false = Ok name ∧ accepted env cfg (1 :: 4 :: 1 :: path)%nat name peer vd.
Proof.
  assert (holds (kept env cfg) c) as Hc. { eapply steps_kept; [exact Hreach|]. eapply holds_weaken; [|exact Hempty]. done. }
  eapply keeping_bounded in Hok; [|apply keeping_verify|exact Hc]. by apply Hok.
Qed.

(** An identity that is not active does not stay in the cache: when
    [verify_domain] raises STATUS_NOT_ACTIVE, the cache holds nothing for the
    name afterwards, and what it holds for other names is unchanged evidence. *)
Theorem inactive_identity_evicted `{Platform, PyLib, Zlib} (env : environment) (cfg : VerificationConfig) {C : Type}
    `{CacheSpec C Verified usable} (c0 c c' : C) (rounds : nat) (path : list nat) (closed : bool) (domain name : str)
    (peer : option TLSCertificate) (e : exn)
    (Hcheck : ∀ p e, env_check env p = Raise e → e = BudgetExhausted) (Hempty : holds (λ _ _, False) c0)
    (Hreach : rtc (manager_step env cfg) c0 c) (Hname : normalize_fqdn idna_encode domain false = Ok name)
    (Hraise : verify_domain env cfg rounds path closed domain peer c = (c', Raise e)) (He : is_not_active e = true) :
  holds (λ d v, d ≠ name ∧ kept env cfg d v) c'.
Proof.
  assert (holds (kept env cfg) c) as Hc. { eapply steps_kept; [exact Hreach|]. eapply holds_weaken; [|exact Hempty]. done. }
  refine (flushing_bounded env cfg Hcheck name _ _ _ _ _ c c' e Hc Hraise He); [apply keeping_verify|by apply flushing_verify].
Qed.

(** C15 The invariant of the cache.  Whatever calls a manager has served, its cache
    holds only evidence established for the name it is kept under, with a
    positive TTL (zero-TTL answers are never kept); and what it returns has not
    reached its expiry at that time. *)
Theorem cache_invariant `{Platform, PyLib, Zlib} (env : environment) (cfg : VerificationConfig) {C : Type}
    `{CacheSpec C Verified usable} (c0 c : C) (Hempty : holds (λ _ _, False) c0) (Hreach : rtc (manager_step env cfg) c0 c) :
  holds (λ d v, established env cfg d v ∧ 0 < vd_dns_ttl v) c ∧
  ∀ at_ d c' v, cache_get at_ d c = (c', Ok (Some v)) →
    established env cfg d v ∧ 0 < vd_dns_ttl v ∧ ∃ expires, expiry v = Ok expires ∧ dt_ge at_ expires = Ok false.
Proof.
  assert (holds (kept env cfg) c) as Hc. { eapply steps_kept; [exact Hreach|]. eapply holds_weaken; [|exact Hempty]. done. }
  split; [exact Hc|]. intros at_ d c' v Hx. destruct (holds_get _ _ _ _ _ _ Hc Hx) as [_ Hv]. destruct (Hv v eq_refl) as [[He Ht] [_ Hu]].
  split_and!; [done|done|]. unfold unusable in Hu. destruct (Z.leb_spec (vd_dns_ttl v) 0); [lia|]. bind_step Hu as expires Hexp. eauto.
Qed.

(** A status refresh that finds its cached entry gone, led by a caller of the
    synchronous interface, never accepts evidence with a zero TTL: it acquires
    it, discards it and starts again until its budget is exhausted, although it
    acquired the evidence itself (the asynchronous interface keeps it). *)
Theorem zero_ttl_refresh_starves `{Platform, PyLib, Zlib} (env : environment) (cfg : VerificationConfig) (rounds : nat) (path : list nat)
    (domain : str) (cached : Verified) (c : gmap str Verified)
    (Hzero : ∀ p vd, gather_evidence env cfg p domain false = Ok vd → vd_dns_ttl vd = 0) (Hgone : c !! domain = None) :
  ∀ c' vd, refresh_status env cfg rounds path domain cached c ≠ (c', Ok vd).
Proof.
  revert c Hgone. induction rounds as [|rounds IH]; intros c Hgone c' vd; [done|]. cbn [refresh_status]. unfold mbind at 1, MM_bind at 1, get_cached.
  cbn [cache_get InMemoryCache]. rewrite Hgone. unfold mbind at 1, MM_bind at 1. destruct (complete_verification _ _ _ _ _) as [c1 [joined|e]] eqn:E; [|done].
  assert (vd_dns_ttl joined = 0 ∧ c1 !! domain = None) as [Ht Hg].
  { unfold complete_verification, finish_verification in E. match type of E with match ?m c with _ => _ end = _ => destruct (m c) as [c2 [j|e]] eqn:E2; [|done] end.
    injection E as -> ->. apply MM_bind_Ok in E2 as (c3 & [] & Hp & E2). injection Hp as <- _. apply MM_bind_Ok in E2 as (c4 & j & Hw & E2).
    apply MM_bind_Ok in E2 as (c5 & [] & Hp & E2). injection Hp as <- _. injection E2 as <- <-.
    by eapply uncached_zero_ttl. }
  unfold mbind at 1, MM_bind at 1, pure at 1. destruct (remaining env _) as [[]|]; [|done]. rewrite Ht. cbn [Z.eqb].
  unfold mbind at 1, MM_bind at 1, pure at 1. destruct (remaining env _) as [[]|]; [|done]. by apply IH.
Qed.
