(* ===== verification/Publication.v ===== *)
(** * Publishing a local identity ([dnsid/manager.py])

    Identity configuration, the record an identity publishes, the signatures of
    lifecycle events, and publication through a registry. *)
From S2P Require Import Prelude Errors PyText Base64 Utils Canonical Keys EventCodec TxtRecord Identity Reader Manager.

(** ** Configuration *)
Record IdentityConfig : Set := {
  ic_domain : str; ic_governance_id : str; ic_log_ref : str; ic_status_url : str; ic_policy_flags : str;
  ic_max_key_age : str; ic_ek_url : str; ic_ku_url : str; ic_capabilities_url : str; ic_publish_profile : str
}.

(** [KeyProvider], as far as it signs. *)
Record SigningProvider : Type := {
  sp_signing_key : res JWK;
  sp_sign : bytes → res bytes;
  sp_sign_key : str → bytes → res bytes
}.

(** The registry operations of a publication. *)
Record RegistryClient (Published : Type) : Type := {
  rg_publication_authority : str → res (option str);
  rg_canonical_record_content : str → json → res (str * json);
  rg_publish_signature : str → str → res Published
}.
Arguments rg_publication_authority {Published}.
Arguments rg_canonical_record_content {Published}.
Arguments rg_publish_signature {Published}.

(** The parts of a manager that publish and write. *)
Record local_manager : Type := {
  lm_identity : option IdentityConfig;
  lm_key_provider : option SigningProvider;
  lm_entity_key_provider : option SigningProvider;
  lm_log_binding : option log_binding;
  lm_write_event : option (LogEvent → res (str * str))
}.

Definition arg_error (msg : string) : exn := ArgumentError (lit msg).

Section publication.
Context `{Platform}.

(** [_maybe_normalize_fqdn] *)
Definition maybe_normalize_fqdn (s : str) : res str :=
  if is_domain_name s then normalize_fqdn idna_encode s false else Ok s.

(** [except ValidationError as exc: raise ArgumentError(str(exc))] *)
Definition as_argument_error {A} (m : res A) : res A :=
  try_except m (λ e, match e with ValidationError msg => Raise (ArgumentError msg) | e => Raise e end).

(** [_validate_identity_config], on strings. *)
Definition validate_identity_config (cfg : IdentityConfig) : res unit :=
  raise_if (ic_domain cfg ==? []) (arg_error "identity.domain is required") ;;
  raise_if (ic_governance_id cfg ==? []) (arg_error "identity.governance_id is required") ;;
  raise_if (ic_log_ref cfg ==? []) (arg_error "identity.log_ref is required") ;;
  raise_if (ic_status_url cfg ==? []) (arg_error "identity.status_url is required") ;;
  as_argument_error (normalize_fqdn idna_encode (ic_domain cfg) true ;; maybe_normalize_fqdn (ic_governance_id cfg)) ;;
  raise_if (negb (ic_publish_profile cfg ==? []) && negb (publish_allowed_version (ic_publish_profile cfg)))
    (arg_error "unsupported DNSid publish profile") ;;
  raise_if (negb (ic_max_key_age cfg ==? []) && negb (permitted_ka (ic_max_key_age cfg)))
    (arg_error "identity.max_key_age is not permitted") ;;
  forM_res (λ '(name, value),
    if value ==? [] then Ok () else as_argument_error (parse_https_uri_host value name ;; Ok ()))
    [("identity.status_url"%string, ic_status_url cfg); ("identity.ek_url"%string, ic_ek_url cfg);
     ("identity.ku_url"%string, ic_ku_url cfg); ("identity.capabilities_url"%string, ic_capabilities_url cfg)].

(** The identity a constructed manager works with. *)
Definition normalize_identity (cfg : IdentityConfig) : res IdentityConfig :=
  domain ← normalize_fqdn idna_encode (ic_domain cfg) true;
  gi ← maybe_normalize_fqdn (ic_governance_id cfg);
  Ok {| ic_domain := domain; ic_governance_id := gi; ic_log_ref := ic_log_ref cfg; ic_status_url := ic_status_url cfg;
        ic_policy_flags := ic_policy_flags cfg; ic_max_key_age := ic_max_key_age cfg; ic_ek_url := ic_ek_url cfg;
        ic_ku_url := ic_ku_url cfg; ic_capabilities_url := ic_capabilities_url cfg; ic_publish_profile := ic_publish_profile cfg |}.

(** ** The record *)
Definition profile_of (cfg : IdentityConfig) : str := if ic_publish_profile cfg ==? [] then DRAFT01 else ic_publish_profile cfg.

Definition config_record (cfg : IdentityConfig) : DnsIdTxtRecord :=
  {| rec_v := profile_of cfg; rec_gi := ic_governance_id cfg; rec_ek := ic_ek_url cfg; rec_ku := ic_ku_url cfg;
     rec_lr := ic_log_ref cfg; rec_su := ic_status_url cfg; rec_sg := []; rec_fl := ic_policy_flags cfg;
     rec_ka := ic_max_key_age cfg; rec_cu := ic_capabilities_url cfg; rec_identity_fqdn := ic_domain cfg;
     rec_unknown_tags := []; rec_parsed_optional_tags := ∅ |}.

Definition build_unsigned_txt_record (cfg : IdentityConfig) : res DnsIdTxtRecord :=
  raise_if (negb (publish_allowed_version (profile_of cfg))) (arg_error "unsupported DNSid publish profile") ;;
  raise_if ((ic_ek_url cfg ==? []) || (ic_ku_url cfg ==? [])) (arg_error "draft 01 publishing requires ek_url and ku_url") ;;
  let record := config_record cfg in
  try_except (validate_record record) (λ _, Raise (arg_error "invalid TXT record configuration")) ;;
  Ok record.

Context (m : local_manager).

Definition local_identity : res IdentityConfig :=
  match lm_identity m with Some cfg => Ok cfg | None => Raise (arg_error "operation requires a local identity; this manager is verification-only") end.
Definition require_operational_key_provider : res SigningProvider :=
  match lm_key_provider m with Some p => Ok p | None => Raise (arg_error "requires a key_provider; this manager is verification-only") end.
Definition require_local_identity : res unit :=
  match lm_identity m with Some _ => Ok () | None => Raise (arg_error "requires a local identity; this manager is verification-only") end.

(** [_require_entity_provider_for_publication] *)
Definition require_entity_provider : res SigningProvider :=
  match lm_entity_key_provider m with
  | None => Raise (arg_error "draft 01 publishing requires deps.entity_key_provider")
  | Some provider =>
      entity_key ← sp_signing_key provider;
      operational ← require_operational_key_provider;
      agent_key ← sp_signing_key operational;
      distinct ← try_except (te ← thumbprint entity_key; ta ← thumbprint agent_key; Ok (negb (te ==? ta)))
        (λ e, if is_value_error e then Raise (arg_error "cannot compute JWK thumbprint") else Raise e);
      raise_if (negb distinct) (arg_error "draft 01 entity and agent keys must be distinct") ;;
      Ok provider
  end.

Definition get_key_set : res JWKS := p ← require_operational_key_provider; k ← sp_signing_key p; Ok [k].
Definition get_entity_key_set : res JWKS :=
  require_local_identity ;;
  match lm_entity_key_provider m with
  | None => Raise (arg_error "get_entity_key_set requires deps.entity_key_provider")
  | Some p => k ← sp_signing_key p; Ok [k]
  end.

Definition create_txt_record : res str :=
  cfg ← local_identity;
  record ← build_unsigned_txt_record cfg;
  canonical_bytes ← ascii_only (record_canonical record);
  provider ← require_entity_provider;
  signing_key ← sp_signing_key provider;
  signature_alg signing_key ;;
  sig ← sp_sign provider canonical_bytes;
  Ok (serialize_record (set_tag Tsg (b64url_encode sig false) record)).

Definition publish_client_controlled_record {Published} (registry : RegistryClient Published) : res Published :=
  require_local_identity ;;
  cfg ← local_identity;
  authority ← rg_publication_authority registry (ic_domain cfg);
  match authority with
  | None => Raise (ValidationError (lit "local identity is not registered"))
  | Some authority =>
      raise_if (negb (authority ==? lit "client")) (ValidationError (lit "registry controls accountable-entity publication")) ;;
      expected ← build_unsigned_txt_record cfg;
      provider ← require_entity_provider;
      signing_key ← sp_signing_key provider;
      raise_if (falsy (jwk_kid signing_key)) (ValidationError (lit "active record-signing key missing kid")) ;;
      '(canonical, signing_kid) ← rg_canonical_record_content registry (ic_domain cfg) (jwk_kid signing_key);
      raise_if (negb (py_eq signing_kid (jwk_kid signing_key)))
        (ValidationError (lit "registry canonical content targets a different active signing kid")) ;;
      record ← try_except (parse_unsigned_canonical canonical (Some (ic_domain cfg)))
        (λ _, Raise (ValidationError (lit "registry canonical content is invalid")));
      raise_if (negb (publish_allowed_version (rec_v record)))
        (ValidationError (lit "registry canonical content uses an unsupported DNSid publish profile")) ;;
      raise_if (negb (rec_v record ==? rec_v expected))
        (ValidationError (lit "registry canonical content uses an unexpected DNSid version")) ;;
      raise_if (negb (known_tags_canonical record ==? known_tags_canonical expected))
        (ValidationError (lit "registry canonical content does not match local unsigned DNSid record")) ;;
      signature_alg signing_key ;;
      data ← utf8_encode canonical;
      sig ← sp_sign provider data;
      rg_publish_signature registry (ic_domain cfg) (b64url_encode sig false)
  end.

(** ** Lifecycle events *)
Inductive LogSignerRole : Set := ENTITY | OPERATIONAL | OPERATIONAL_COUNTERSIGNATURE | PREVIOUS_OPERATIONAL.
#[global] Instance signer_role_eq_dec : EqDecision LogSignerRole.
Proof. solve_decision. Defined.

Definition required_log_signatures (event : LogEvent) : list LogSignerRole :=
  match ev_body event with
  | IssuanceEvent _ _ _ => [ENTITY; OPERATIONAL_COUNTERSIGNATURE]
  | KeyRotationEvent _ _ _ _ _ _ _ => [PREVIOUS_OPERATIONAL]
  | _ => [ENTITY]
  end.

Definition role_signature_missing (event : LogEvent) (role : LogSignerRole) : bool :=
  match role with
  | OPERATIONAL_COUNTERSIGNATURE => ev_operational_countersig event ==? []
  | _ => ev_sig event ==? []
  end.

Definition with_sig (event : LogEvent) (kid sig : str) : LogEvent :=
  {| ev_domain := ev_domain event; ev_timestamp := ev_timestamp event; ev_signing_kid := kid; ev_sig := sig;
     ev_operational_countersig := ev_operational_countersig event; ev_body := ev_body event |}.
Definition with_countersig (event : LogEvent) (sig : str) : LogEvent :=
  {| ev_domain := ev_domain event; ev_timestamp := ev_timestamp event; ev_signing_kid := ev_signing_kid event;
     ev_sig := ev_sig event; ev_operational_countersig := sig; ev_body := ev_body event |}.

(** The [kid] of a provider's key, which is a string. *)
Definition key_kid (k : JWK) : res str := match jwk_kid k with JStr s => Ok s | _ => Raise (TypeError (lit "kid")) end.

Definition sign_event_with_provider (path : list nat) (event : LogEvent) (role : LogSignerRole) (provider : SigningProvider)
    (binding : log_binding) : res LogEvent :=
  canonical ← lb_canonical binding path event;
  match role with
  | PREVIOUS_OPERATIONAL =>
      match ev_body event with
      | KeyRotationEvent previous_kid _ _ _ _ _ _ =>
          raise_if (previous_kid ==? [])
            (arg_error "PreviousOperational signing requires a KEY_ROTATION event with previous_kid set") ;;
          sig ← sp_sign_key provider previous_kid canonical;
          Ok (with_sig event previous_kid (b64url_encode sig false))
      | _ => Raise (arg_error "PreviousOperational signing requires a KEY_ROTATION event with previous_kid set")
      end
  | OPERATIONAL_COUNTERSIGNATURE => sig ← sp_sign provider canonical; Ok (with_countersig event (b64url_encode sig false))
  | _ =>
      key ← sp_signing_key provider;
      kid ← key_kid key;
      sig ← sp_sign provider canonical;
      Ok (with_sig event kid (b64url_encode sig false))
  end.

Definition sign_event (path : list nat) (event : LogEvent) (role : LogSignerRole) : res LogEvent :=
  require_local_identity ;;
  provider ← match role with
             | ENTITY => match lm_entity_key_provider m with
                         | Some p => Ok p
                         | None => Raise (arg_error "signing an Entity role requires deps.entity_key_provider")
                         end
             | _ => require_operational_key_provider
             end;
  match lm_log_binding m with
  | None => Raise (arg_error "sign_event requires a LogRegistry binding for config.identity.log_ref")
  | Some binding => sign_event_with_provider path event role provider binding
  end.

Definition write_signed_event (event : LogEvent) : res (str * str) :=
  require_local_identity ;;
  match lm_write_event m with
  | None => Raise (arg_error "write_signed_event requires a LogRegistry with a Log implementation")
  | Some write =>
      raise_if (existsb (role_signature_missing event) (required_log_signatures event))
        (arg_error "event is missing a required signature") ;;
      write event
  end.

Definition configured_for_role (role : LogSignerRole) : bool :=
  match role with
  | ENTITY => bool_decide (is_Some (lm_entity_key_provider m))
  | _ => bool_decide (is_Some (lm_key_provider m))
  end.

(** The signatures this manager can add. *)
Fixpoint sign_missing (path : list nat) (event : LogEvent) (roles : list LogSignerRole) : res LogEvent :=
  match roles with
  | [] => Ok event
  | role :: roles =>
      event ← (if role_signature_missing event role && configured_for_role role
               then sign_event (length roles :: path) event role else Ok event);
      sign_missing path event roles
  end.

Definition sign_and_write_event (path : list nat) (event : LogEvent) : res (str * str) :=
  require_local_identity ;;
  match lm_write_event m with
  | None => Raise (arg_error "sign_and_write_event requires a LogRegistry with a Log implementation")
  | Some _ => event ← sign_missing path event (required_log_signatures event); write_signed_event event
  end.
End publication.
