(* ===== verification/PublicationSpec.v ===== *)
(** * What is published verifies

    A record made from a grammatical configuration parses, validates and
    authenticates under the published entity key; a registry can have nothing
    signed but the identity's own record; only events with every required
    signature are written. *)
From S2P Require Import Prelude Sha256 Errors PyText Base64 Utils SignedNote Lr Canonical JsonScan JsonRoundtrip Keys EventCodec LifecycleDemo TxtRecord TxtRecordSpec Identity Reader Manager Publication.

(** ** Signature values *)
Lemma contains_head x p s : x ∉ s → contains (x :: p) s = false.
Proof.
  intros Hn. unfold contains, find. assert (∀ k, find_at k (x :: p) s = -1) as ->; [|done].
  induction s as [|y s IH]; intros k; cbn [find_at].
  - done.
  - apply not_elem_of_cons in Hn as [Hy Hn]. cbn [startswith]. rewrite (proj2 (Z.eqb_neq x y)) by done. cbn [andb]. by apply IH.
Qed.

Lemma b64url_valid_value b : is_bytes b → b ≠ [] →
  is_valid_tag_value (b64url_encode b false) = true ∧ b64url_encode b false ≠ []
  ∧ contains (lit "..") (b64url_encode b false) = false ∧ 58 ∉ b64url_encode b false.
Proof.
  intros Hb Hne. destruct (b64url_encode_padding b Hb) as [_ Hre]. specialize (Hre Hne). unfold b64url_strict_re in Hre.
  apply andb_true_iff in Hre as [Hn Hf]. rewrite negb_true_iff, eqb_false in Hn. rewrite forallb_Forall, Forall_forall in Hf.
  assert (∀ c, c ∈ b64url_encode b false → is_b64url c = true) as Hc by (intros c Hin; by apply Hf). split_and!; [|done| |].
  - unfold is_valid_tag_value. rewrite forallb_Forall, Forall_forall. intros c Hin. specialize (Hc c Hin).
    unfold is_b64url, is_alnum, is_alpha, is_upper, is_lower, is_digit in Hc. lia.
  - apply contains_head. intros Hin. by apply Hc in Hin.
  - intros Hin. by apply Hc in Hin.
Qed.

(** ** The published record *)

(** The values of a configuration that go into the record are of the grammar. *)
Definition grammatical (cfg : IdentityConfig) : Prop :=
  Forall (λ v, is_valid_tag_value v = true)
    [ic_governance_id cfg; ic_ek_url cfg; ic_ku_url cfg; ic_log_ref cfg; ic_status_url cfg; ic_policy_flags cfg;
     ic_max_key_age cfg; ic_capabilities_url cfg].
#[global] Instance grammatical_dec cfg : Decision (grammatical cfg).
Proof. unfold grammatical. apply _. Defined.

Lemma config_well_tagged cfg : grammatical cfg → publish_allowed_version (profile_of cfg) = true → well_tagged (config_record cfg).
Proof.
  intros Hg Hv. unfold publish_allowed_version in Hv. rewrite bool_decide_eq_true in Hv. apply list_elem_of_singleton in Hv.
  unfold grammatical in Hg. rewrite !Forall_cons in Hg. destruct Hg as (? & ? & ? & ? & ? & ? & ? & ? & _).
  split; [|constructor|constructor]. intros []; cbn; try done. by rewrite Hv.
Qed.

Section published.
Context `{Platform} (m : local_manager).

(** A provider whose signatures verify under the key it publishes. *)
Definition honest (p : SigningProvider) (key : JWK) : Prop :=
  sp_signing_key p = Ok key ∧ current_record_signing_key DRAFT01 [key] = Ok key ∧
  ∀ data sig, sp_sign p data = Ok sig → is_bytes sig ∧ sig ≠ [] ∧ jwk_verify key data sig = Ok true.

Lemma build_unsigned_Ok cfg r : build_unsigned_txt_record cfg = Ok r →
  r = config_record cfg ∧ publish_allowed_version (profile_of cfg) = true ∧ ic_ek_url cfg ≠ [] ∧ ic_ku_url cfg ≠ [] ∧ validate_record r = Ok ().
Proof.
  unfold build_unsigned_txt_record. intros Hx. guard_step Hx as Hp. guard_step Hx as Hu. apply bind_unit_Ok in Hx as [Hv Hx].
  apply Ok_inj in Hx as <-. rewrite negb_false_iff in Hp. rewrite orb_false_iff, !eqb_false in Hu. destruct (validate_record _) as [[]|] eqn:E; [|done]. naive_solver.
Qed.

Lemma config_printable cfg s : grammatical cfg → publish_allowed_version (profile_of cfg) = true → ic_ek_url cfg ≠ [] → ic_ku_url cfg ≠ [] →
  ic_governance_id cfg ≠ [] → ic_log_ref cfg ≠ [] → ic_status_url cfg ≠ [] → s ≠ [] → is_valid_tag_value s = true →
  printable (set_tag Tsg s (config_record cfg)).
Proof.
  intros Hg Hv Hek Hku Hgi Hlr Hsu Hs Hsv. assert (profile_of cfg = DRAFT01) as Hp.
  { unfold publish_allowed_version in Hv. rewrite bool_decide_eq_true in Hv. by apply list_elem_of_singleton in Hv. }
  split; [| |by apply set_sg_well; [|apply config_well_tagged]].
  - unfold required_tags. rewrite !Forall_cons. unfold set_tag. cbn. rewrite Hp. split_and!; try done.
  - unfold set_tag. cbn. by rewrite Hp.
Qed.

Lemma config_required cfg : validate_identity_config cfg = Ok () → ic_governance_id cfg ≠ [] ∧ ic_log_ref cfg ≠ [] ∧ ic_status_url cfg ≠ [].
Proof.
  unfold validate_identity_config. intros Hx. guard_step Hx as H1. guard_step Hx as H2. guard_step Hx as H3. guard_step Hx as H4.
  rewrite eqb_false in H2, H3, H4. done.
Qed.
End published.

(** C23 What a manager publishes verifies: if the configuration is accepted and its
    values are of the tag grammar, and the entity's provider signs under the key
    it publishes, then the text of [create_txt_record] parses as a record that
    validates for the identity's domain and authenticates under the entity key
    set of the same manager, with every configured value. *)
Theorem published_record_verifies `{Platform} (m : local_manager) (cfg : IdentityConfig) (p : SigningProvider) (key : JWK) (text : str)
    (Hidentity : lm_identity m = Some cfg) (Hconfig : validate_identity_config cfg = Ok ()) (Hgrammar : grammatical cfg)
    (Hprovider : lm_entity_key_provider m = Some p) (Hhonest : honest p key) (Hcreate : create_txt_record m = Ok text) :
  ∃ r, parse_record text = Ok r ∧ validate_record (set_identity (ic_domain cfg) r) = Ok ()
    ∧ get_entity_key_set m = Ok [key] ∧ authenticate_record (set_identity (ic_domain cfg) r) [key] = Ok key
    ∧ ∀ t, t ≠ Tsg → get_tag r t = get_tag (config_record cfg) t.
Proof.
  destruct Hhonest as (Hkey & Hcur & Hsign). destruct (config_required _ Hconfig) as (Hgi & Hlr & Hsu).
  unfold create_txt_record, local_identity in Hcreate. rewrite Hidentity in Hcreate. cbn [mbind result_bind] in Hcreate.
  bind_step Hcreate as record Hb. apply build_unsigned_Ok in Hb as (-> & Hpub & Hek & Hku & Hval). bind_step Hcreate as data Hd.
  bind_step Hcreate as provider Hp. unfold require_entity_provider in Hp. rewrite Hprovider in Hp.
  bind_step Hp as k1 _. bind_step Hp as p1 _. bind_step Hp as k2 _. bind_step Hp as dist _. guard_step Hp as Hdist. apply Ok_inj in Hp as <-.
  bind_step Hcreate as k Hk. bind_step Hcreate as alg _. bind_step Hcreate as sig Hs. apply Ok_inj in Hcreate as <-.
  assert (data = record_canonical (config_record cfg)) as ->. { unfold ascii_only in Hd. guard_step Hd as Hasc. by apply Ok_inj in Hd as <-. }
  destruct (Hsign _ _ Hs) as (Hbytes & Hne & Hver). destruct (b64url_valid_value sig Hbytes Hne) as (Hsv & Hsne & Hdots & Hcolon).
  set (r0 := set_tag Tsg (b64url_encode sig false) (config_record cfg)).
  assert (printable r0) as Hpr by by apply config_printable. exists (as_parsed r0). split; [by apply parse_serialize|]. split; [exact Hval|].
  split; [unfold get_entity_key_set, require_local_identity; by rewrite Hidentity, Hprovider, Hkey|].
  assert (record_canonical (set_identity (ic_domain cfg) (as_parsed r0)) = record_canonical (config_record cfg)) as Hcan.
  { rewrite (proj1 (set_identity_same _ _)), canonical_as_parsed by done. apply canonical_set_sg; [done|by apply config_well_tagged]. }
  assert (profile_of cfg = DRAFT01) as Hprof.
  { unfold publish_allowed_version in Hpub. rewrite bool_decide_eq_true in Hpub. by apply list_elem_of_singleton in Hpub. }
  split.
  - unfold authenticate_record. rewrite Hcan, Hd. change (rec_v (set_identity (ic_domain cfg) (as_parsed r0))) with (profile_of cfg).
    rewrite Hprof, Hcur. cbn [mbind result_bind]. change (rec_sg (set_identity (ic_domain cfg) (as_parsed r0))) with (b64url_encode sig false).
    rewrite Hdots, (bool_decide_eq_false_2 _ Hcolon). cbn [orb raise_if mbind result_bind].
    rewrite b64url_strict_decode by done. cbn [try_except mbind result_bind]. by rewrite Hver.
  - intros t Ht. unfold as_parsed, r0, set_tag. rewrite !get_build. by rewrite decide_False.
Qed.

(** ** Publication through a registry *)
Lemma ascii_utf8 s : Forall (λ c, 0 ≤ c < 128) s → utf8_encode s = Ok s.
Proof.
  intros Hs. unfold utf8_encode. assert (existsb is_surrogate s = false) as ->.
  2: { f_equal. induction Hs as [|c s Hc _ IH]; [done|]. cbn. unfold utf8_char at 1. rewrite (proj2 (Z.ltb_lt c 128)) by lia. cbn. by f_equal. }
  apply not_true_is_false. rewrite List.existsb_exists. intros (c & Hin & Hc). rewrite Forall_forall in Hs. apply list_elem_of_In in Hin.
  specialize (Hs _ Hin). unfold is_surrogate in Hc. lia.
Qed.

Lemma pair_ascii kv : pair_ok kv → Forall (λ c, 0 ≤ c < 128) (tag_text kv).
Proof.
  intros [Hn Hv]. apply Forall_forall. intros c [Hc|[->|Hc]%elem_of_cons]%elem_of_app; [| |].
  - apply (tag_name_chars _ c Hn) in Hc. unfold is_alnum, is_alpha, is_lower, is_upper, is_digit in Hc. lia.
  - lia.
  - unfold is_valid_tag_value in Hv. rewrite forallb_Forall, Forall_forall in Hv. specialize (Hv _ Hc). cbn in Hv. lia.
Qed.

Lemma join_Forall (P : Z → Prop) sep ls : Forall P sep → Forall (Forall P) ls → Forall P (join sep ls).
Proof.
  intros Hsep Hls. induction Hls as [|l ls Hl Hls IH]; [constructor|]. destruct ls as [|l' ls]; [done|].
  change (join sep (l :: l' :: ls)) with (l ++ sep ++ join sep (l' :: ls)). by repeat (apply Forall_app; split).
Qed.

Lemma canonical_ascii r : well_tagged r → Forall (λ c, 0 ≤ c < 128) (record_canonical r).
Proof.
  intros Hr. destruct (canonical_pairs r Hr) as (kvs & Hp & ->). apply join_Forall; [by constructor|]. apply Forall_map.
  eapply Forall_impl; [|apply pair_ascii]. rewrite Hp. by apply signed_ok.
Qed.

Lemma signed_tags_filter : List.filter (λ t, negb (bool_decide (t = Tsg))) known_tags = signed_tags.
Proof. reflexivity. Qed.

(** Equal canonical forms of the known tags have equal values. *)
Lemma known_canonical_inj r1 r2 : well_tagged r1 → well_tagged r2 → known_tags_canonical r1 = known_tags_canonical r2 →
  ∀ t, t ≠ Tsg → get_tag r1 t = get_tag r2 t.
Proof.
  intros H1 H2 E t Ht. unfold known_tags_canonical in E. rewrite signed_tags_filter in E.
  assert (∀ r, well_tagged r → ∃ kvs, kvs ≡ₚ tag_pairs signed_tags r ∧ sort_texts id (map tag_text (tag_pairs signed_tags r)) = map tag_text kvs) as Hk.
  { intros r Hr. destruct (Permutation_map_inv tag_text _ (sort_texts_perm id (map tag_text (tag_pairs signed_tags r)))) as (kvs & Ek & Hp).
    exists kvs. split; [by symmetry|done]. }
  assert (∀ r, well_tagged r → Forall pair_ok (tag_pairs signed_tags r)) as Hok.
  { intros r Hr. apply Forall_forall. intros kv (t' & _ & _ & ->)%tag_pairs_elem. split; [apply known_tag_name_valid|apply pr_values, Hr]. }
  destruct (Hk r1 H1) as (k1 & P1 & E1), (Hk r2 H2) as (k2 & P2 & E2). rewrite E1, E2 in E.
  apply join_texts_inj in E; [|rewrite P1; by apply Hok|rewrite P2; by apply Hok]. subst k2. rewrite P1 in P2.
  assert (t ∈ signed_tags) as Hin by (destruct t; try done; by_decide).
  assert (∀ r r', tag_pairs signed_tags r ≡ₚ tag_pairs signed_tags r' → get_tag r t ≠ [] → get_tag r' t = get_tag r t) as Hget.
  { intros r r' Hp Hne. assert ((tag_name t, get_tag r t) ∈ tag_pairs signed_tags r') as Hx.
    { rewrite <- Hp. apply tag_pairs_elem. exists t. split_and!; [done|by left|done]. }
    apply tag_pairs_elem in Hx as (t' & _ & _ & Hx). injection Hx as Hn Hx. by apply (inj tag_name) in Hn as ->. }
  destruct (decide (get_tag r1 t = [])) as [E0|Hne]; [|symmetry; by apply Hget]. destruct (decide (get_tag r2 t = [])) as [E0'|Hne]; [congruence|].
  by apply (Hget _ r1) in Hne; [|symmetry].
Qed.

(** A registry gets a signature only over the identity's own record: if
    [publish_client_controlled_record] returns for a grammatical configuration,
    the signed text is canonical text of a record of this identity that agrees
    with the local configuration on every known tag, the signature is the
    provider's over exactly that text, and the record with this signature prints
    as one that parses to the same canonical form. *)
Theorem publication_signs_own_record `{Platform} {Published : Type} (m : local_manager) (cfg : IdentityConfig) (p : SigningProvider) (key : JWK)
    (registry : RegistryClient Published) (published : Published)
    (Hidentity : lm_identity m = Some cfg) (Hgrammar : grammatical cfg)
    (Hprovider : lm_entity_key_provider m = Some p) (Hhonest : honest p key)
    (Hpublish : publish_client_controlled_record m registry = Ok published) :
  ∃ canonical record sig r, sp_sign p canonical = Ok sig ∧ rg_publish_signature registry (ic_domain cfg) (b64url_encode sig false) = Ok published
    ∧ parse_unsigned_canonical canonical (Some (ic_domain cfg)) = Ok record
    ∧ (∀ t, t ≠ Tsg → get_tag record t = get_tag (config_record cfg) t)
    ∧ parse_record (serialize_record (set_tag Tsg (b64url_encode sig false) record)) = Ok r ∧ record_canonical r = canonical
    ∧ jwk_verify key canonical sig = Ok true.
Proof.
  destruct Hhonest as (Hkey & _ & Hsign). unfold publish_client_controlled_record, require_local_identity, local_identity in Hpublish.
  rewrite Hidentity in Hpublish. cbn [mbind result_bind] in Hpublish. bind_step Hpublish as authority Ha. destruct authority as [authority|]; [|done].
  guard_step Hpublish as Hauth. bind_step Hpublish as expected Hb. apply build_unsigned_Ok in Hb as (-> & Hpub & _ & _ & _).
  bind_step Hpublish as provider Hp. unfold require_entity_provider in Hp. rewrite Hprovider in Hp.
  bind_step Hp as k1 _. bind_step Hp as p1 _. bind_step Hp as k2 _. bind_step Hp as dist _. guard_step Hp as Hdist. apply Ok_inj in Hp as <-.
  bind_step Hpublish as k Hk. guard_step Hpublish as Hkid. bind_step Hpublish as [canonical kid] Hcc. guard_step Hpublish as Hkk.
  bind_step Hpublish as record Hr. destruct (parse_unsigned_canonical canonical _) as [rec|] eqn:Hparse; [|done]. apply Ok_inj in Hr as ->.
  guard_step Hpublish as Hallowed. guard_step Hpublish as Hversion. guard_step Hpublish as Hknown. bind_step Hpublish as alg _. bind_step Hpublish as data Hd.
  bind_step Hpublish as sig Hs. rewrite negb_false_iff, eqb_true in Hknown. destruct (Hsign _ _ Hs) as (Hbytes & Hne & Hver).
  destruct (b64url_valid_value sig Hbytes Hne) as (Hsv & Hsne & _ & _).
  destruct (parse_unsigned_of _ _ _ _ Hparse Hsne Hsv) as (Hpr & Hraw & Hw).
  assert (data = canonical) as ->.
  { rewrite <- Hraw in Hd. rewrite (ascii_utf8 (record_canonical record)) in Hd; [apply Ok_inj in Hd as <-; by rewrite Hraw|]. by apply canonical_ascii. }
  exists canonical, record, sig, (as_parsed (set_tag Tsg (b64url_encode sig false) record)). split_and!; try done.
  - intros t Ht. eapply known_canonical_inj; [exact Hw|by apply config_well_tagged|exact Hknown|exact Ht].
  - by apply parse_serialize.
  - by rewrite canonical_as_parsed, canonical_set_sg.
Qed.

(** ** Lifecycle events *)
Section events.
Context (m : local_manager).

(** An event with the same content, whose signatures were kept or filled in. *)
Definition filled (e e' : LogEvent) : Prop :=
  ev_domain e' = ev_domain e ∧ ev_timestamp e' = ev_timestamp e ∧ ev_body e' = ev_body e
  ∧ (ev_sig e ≠ [] → ev_sig e' = ev_sig e ∧ ev_signing_kid e' = ev_signing_kid e)
  ∧ (ev_operational_countersig e ≠ [] → ev_operational_countersig e' = ev_operational_countersig e).

#[local] Instance filled_preorder : PreOrder filled.
Proof.
  split; [by intros e; split_and!|]. intros a b c (A1 & A2 & A3 & A4 & A5) (B1 & B2 & B3 & B4 & B5).
  split_and!; [congruence..| |]; intros Hne.
  - destruct (A4 Hne) as [E1 E2]. rewrite <- E1, <- E2. apply B4. by rewrite E1.
  - rewrite <- (A5 Hne). apply B5. by rewrite (A5 Hne).
Qed.

Lemma sign_event_filled path e role e' : role_signature_missing e role = true → sign_event m path e role = Ok e' → filled e e'.
Proof.
  intros Hm Hx. unfold sign_event in Hx. apply bind_unit_Ok in Hx as [_ Hx]. bind_step Hx as provider _. destruct (lm_log_binding m) as [b|]; [|done].
  unfold sign_event_with_provider in Hx. bind_step Hx as data _. destruct role; cbn [role_signature_missing] in Hm; rewrite eqb_true in Hm.
  - bind_step Hx as k _. bind_step Hx as kid _. bind_step Hx as sig _. apply Ok_inj in Hx as <-. by split_and!; cbn.
  - bind_step Hx as k _. bind_step Hx as kid _. bind_step Hx as sig _. apply Ok_inj in Hx as <-. by split_and!; cbn.
  - bind_step Hx as sig _. apply Ok_inj in Hx as <-. by split_and!; cbn.
  - destruct (ev_body e); try done. guard_step Hx as Hk. bind_step Hx as sig _. apply Ok_inj in Hx as <-. by split_and!; cbn.
Qed.

Lemma sign_missing_filled path e roles e' : sign_missing m path e roles = Ok e' → filled e e'.
Proof.
  revert e. induction roles as [|role roles IH]; intros e Hx; cbn [sign_missing] in Hx; [by apply Ok_inj in Hx as <-|].
  bind_step Hx as e1 H1. etrans; [|by apply IH]. destruct (role_signature_missing e role && _) eqn:Hb; [|by apply Ok_inj in H1 as <-].
  apply andb_true_iff in Hb as [Hb _]. by eapply sign_event_filled.
Qed.
End events.

(** Only complete events are written.  When [sign_and_write_event] returns, what
    was written is the given event with its content and the signatures it
    already had unchanged, and with every signature its kind requires: entity and
    operational countersignature for an ISSUANCE, the previous operational key's
    for a KEY_ROTATION, the entity's for the rest. *)
Theorem written_event_complete (m : local_manager) (path : list nat) (event : LogEvent) (ref : str * str)
    (Hok : sign_and_write_event m path event = Ok ref) :
  ∃ write event', lm_write_event m = Some write ∧ write event' = Ok ref ∧ filled event event'
    ∧ Forall (λ role, role_signature_missing event' role = false) (required_log_signatures event).
Proof.
  unfold sign_and_write_event in Hok. apply bind_unit_Ok in Hok as [_ Hok]. destruct (lm_write_event m) as [write|] eqn:Hw; [|done].
  bind_step Hok as event' Hs. apply sign_missing_filled in Hs as Hf. unfold write_signed_event in Hok. apply bind_unit_Ok in Hok as [_ Hok]. rewrite Hw in Hok.
  guard_step Hok as Hm. exists write, event'. split_and!; [done..|].
  assert (required_log_signatures event' = required_log_signatures event) as <- by (unfold required_log_signatures; by rewrite (proj1 (proj2 (proj2 Hf)))).
  apply Forall_forall. intros role Hin. apply not_true_iff_false in Hm. apply not_true_is_false. intros Hx. apply Hm.
  apply List.existsb_exists. exists role. split; [by apply list_elem_of_In|done].
Qed.

(** ** Concrete publications *)
Definition toy_provider (key : JWK) (secret : bytes) : SigningProvider :=
  {| sp_signing_key := Ok key; sp_sign := λ data, Ok (toy_sign secret data); sp_sign_key := λ _ data, Ok (toy_sign secret data) |}.
Definition toy_config (status_url : string) : IdentityConfig :=
  {| ic_domain := lit "agent.example.com"; ic_governance_id := lit "example.com"; ic_log_ref := lit "c2sp-tlog:example.com/log:7";
     ic_status_url := lit status_url; ic_policy_flags := lit "mtls"; ic_max_key_age := lit "30d"; ic_ek_url := lit "https://example.com/ek";
     ic_ku_url := lit "https://agent.example.com/ku"; ic_capabilities_url := []; ic_publish_profile := [] |}.
Definition toy_local_binding : log_binding :=
  {| lb_id := 1; lb_preload_history := None; lb_verify_bilateral_binding := None; lb_verify_operational_continuity := None;
     lb_key_timestamp := λ _ _ _, Raise unsupported_error; lb_verify_non_revocation := λ _ _ _, Raise unsupported_error;
     lb_rebuild_history := λ _ _, Raise unsupported_error; lb_canonical := λ _ e, utf8_encode (ev_domain e) |}.
Definition toy_manager (status_url : string) : local_manager :=
  {| lm_identity := Some (toy_config status_url); lm_key_provider := Some (toy_provider op1 op1_bytes);
     lm_entity_key_provider := Some (toy_provider entity entity_bytes); lm_log_binding := Some toy_local_binding;
     lm_write_event := Some (λ e, Ok (lit "c2sp-tlog", ev_sig e)) |}.

Lemma toy_key_verifies kid key data : is_bytes key → valid_ed25519_public_key key = true → jwk_verify (toy_key kid key) data (toy_sign key data) = Ok true.
Proof.
  intros Hb Hk. change (jwk_verify (toy_key kid key)) with (verify_signature (toy_jwk kid key)). unfold verify_signature, verify_with_alg.
  change (falsy (get "alg" (JStr []) (toy_jwk kid key))) with false. cbn iota.
  change (get "kty" (JStr []) (toy_jwk kid key)) with (JStr (lit "OKP")). change (get "alg" (JStr []) (toy_jwk kid key)) with (JStr (lit "EdDSA")).
  cbn [hashable negb raise_if mbind result_bind]. change (is_str "EdDSA" (JStr (lit "EdDSA"))) with true. cbn [orb negb].
  change (is_str "EC" (JStr (lit "OKP"))) with false. change (is_str "OKP" (JStr (lit "OKP"))) with true. cbn iota.
  unfold verify_okp. change (item "x" (toy_jwk kid key)) with (Ok (JStr (b64url_encode key false)) : res json).
  change (get "crv" (JStr []) (toy_jwk kid key)) with (JStr (lit "Ed25519")). change (is_str "Ed25519" (JStr (lit "Ed25519"))) with true.
  cbn [negb raise_if mbind result_bind b64url_decode_value]. rewrite b64url_decode_encode by done. cbn [mbind result_bind].
  rewrite Hk. cbn [negb try_except ed25519_verify toy_platform]. by rewrite eqb_refl.
Qed.
Lemma toy_signature_bytes key data : is_bytes key → is_bytes (toy_sign key data).
Proof. intros Hk. apply Forall_app. split; [exact Hk|apply is_bytes_sha256]. Qed.
Lemma toy_provider_honest : honest (toy_provider entity entity_bytes) entity.
Proof.
  split_and!; [done|vm_compute; reflexivity|]. intros data sig Hs. cbn [toy_provider sp_sign] in Hs. apply Ok_inj in Hs as <-. split_and!.
  - apply toy_signature_bytes. by_decide.
  - done.
  - apply toy_key_verifies; [by_decide|vm_compute; reflexivity].
Qed.

Definition toy_text : str := Eval vm_compute in match create_txt_record (toy_manager "https://example.com/su") with Ok t => t | Raise _ => [] end.
Lemma toy_text_Ok : create_txt_record (toy_manager "https://example.com/su") = Ok toy_text.
Proof. vm_compute. reflexivity. Qed.

Lemma published_record_verifies_witness : ∃ r, parse_record toy_text = Ok r ∧ validate_record (set_identity (lit "agent.example.com") r) = Ok ().
Proof.
  destruct (published_record_verifies (toy_manager "https://example.com/su") (toy_config "https://example.com/su") (toy_provider entity entity_bytes) entity toy_text)
    as (r & Hp & Hv & _); [reflexivity|vm_compute; reflexivity|by_decide|reflexivity|apply toy_provider_honest|apply toy_text_Ok|]. by exists r.
Defined.

(** Values of a configuration are signed and published without being checked
    against the tag grammar: with a semicolon in the status URL the configuration
    is accepted and [create_txt_record] returns a text, which no verifier can
    parse. *)
Theorem ungrammatical_record_published :
  let m := toy_manager "https://example.com/su;beta" in
  validate_identity_config (toy_config "https://example.com/su;beta") = Ok ()
  ∧ match create_txt_record m with Ok text => is_Ok (parse_record text) = false | Raise _ => False end.
Proof. by vm_compute. Qed.

(** A registry that returns the identity's record with a tag of its own. *)
Definition toy_registry_text : str := lit "ek=https://example.com/ek;exp=99;fl=mtls;gi=example.com;ka=30d;ku=https://agent.example.com/ku;lr=c2sp-tlog:example.com/log:7;su=https://example.com/su;v=dnsid-draft-01".
Definition toy_registry : RegistryClient str :=
  {| rg_publication_authority := λ _, Ok (Some (lit "client"));
     rg_canonical_record_content := λ _ kid, Ok (toy_registry_text, kid);
     rg_publish_signature := λ _ sig, Ok sig |}.
Definition toy_published_signature : str := Eval vm_compute in
  match publish_client_controlled_record (toy_manager "https://example.com/su") toy_registry with Ok s => s | Raise _ => [] end.

Lemma publication_signs_own_record_witness :
  ∃ canonical sig, toy_sign entity_bytes canonical = sig ∧ jwk_verify entity canonical sig = Ok true.
Proof.
  destruct (publication_signs_own_record (toy_manager "https://example.com/su") (toy_config "https://example.com/su") (toy_provider entity entity_bytes) entity
    toy_registry toy_published_signature) as (canonical & record & sig & r & Hs & _ & _ & _ & _ & _ & Hv);
    [reflexivity|by_decide|reflexivity|apply toy_provider_honest|vm_compute; reflexivity|]. exists canonical, sig. split; [|done]. by injection Hs.
Defined.

Definition toy_retirement : LogEvent :=
  {| ev_domain := lit "agent.example.com"; ev_timestamp := utc 0; ev_signing_kid := []; ev_sig := []; ev_operational_countersig := []; ev_body := RetirementEvent |}.
Definition toy_ref : str * str := Eval vm_compute in
  match sign_and_write_event (toy_manager "https://example.com/su") [] toy_retirement with Ok r => r | Raise _ => ([], []) end.
Lemma written_event_complete_witness : ∃ event', filled toy_retirement event' ∧ ev_sig event' ≠ [].
Proof.
  destruct (written_event_complete (toy_manager "https://example.com/su") [] toy_retirement toy_ref) as (w & e & _ & _ & Hf & Hr); [vm_compute; reflexivity|].
  exists e. split; [done|]. apply Forall_cons in Hr as [Hr _]. by apply eqb_false in Hr.
Defined.
