(* ===== verification/ManagerDemo.v ===== *)
(** * A manager at work on a concrete identity

    The identity of the publication example: its record as [create_txt_record]
    makes it, its documents, a log reader that answers, and a manager with an
    empty cache.  The theorems on verification are evaluated on it. *)
From S2P Require Import Prelude Sha256 Errors Concurrency PyText Base64 Utils SignedNote Lr ResourceFetcher PyFloat PyTime Canonical Keys EventCodec LifecycleDemo DomainLog TxtRecord Identity HttpsClient Reader Manager ManagerSpec Publication PublicationSpec.

Definition toy_now : Z := 1700000000 * second_us.

#[export] Instance toy_pylib : PyLib := {|
  json_loads := λ body, if body ==? lit "keys" then Ok (JDict [(lit "keys", JList [JDict (jwk_raw entity)])])
                        else Raise (ValueError (lit "Expecting value"));
  urljoin := λ _ url, Ok url;
  fromisoformat := λ text, if text ==? [] then Raise (ValueError (lit "Invalid isoformat string")) else Ok (utc (toy_now - day_us))
|}.
#[export] Instance toy_zlib : Zlib := {|
  decompressobj := unit; new_decompressor := λ _, tt; decompress := λ _ _ _, None; eof := λ _, true; unused_data := λ _, []
|}.

(** The documents of the identity. *)
Definition toy_cert : TLSCertificate :=
  {| tls_not_after := utc (toy_now + 90 * day_us); tls_san_dns_names := [lit "*.example.com"]; tls_der := [1] |}.
Definition key_set (k : JWK) : json := JDict [(lit "keys", JList [JDict (jwk_raw k)])].
Definition status_document (state : string) : json :=
  JDict [(lit "state", JStr (lit state)); (lit "lastTransitionAt", JStr (lit "2023-11-13T22:13:20Z")); (lit "revocationReason", JStr (lit "superseded"))].
Definition toy_fetch (state : list nat → string) (path : list nat) (url : str) (boundary : option (str * bool)) (revalidate : bool)
    : res (json * TLSCertificate) :=
  if url ==? lit "https://example.com/ek" then Ok (key_set entity, toy_cert)
  else if url ==? lit "https://agent.example.com/ku" then Ok (key_set op1, toy_cert)
  else if url ==? lit "https://example.com/su" then Ok (status_document (state path), toy_cert)
  else Raise (VerificationError TLS_ERROR (lit "not found") true None).

(** A reader that knows the initial operational key. *)
Definition toy_reader : log_binding :=
  {| lb_id := 7; lb_preload_history := Some (λ _ _ _, Ok ());
     lb_verify_bilateral_binding := Some (λ _ record signing operational, thumbprint operational);
     lb_verify_operational_continuity := Some (λ _ _ initial current,
       raise_if (negb (initial ==? current)) (vfail LOG_ERROR "operational key is not connected"));
     lb_key_timestamp := λ _ _ _, Ok (utc (toy_now - day_us));
     lb_verify_non_revocation := λ _ _ _, Raise unsupported_error;
     lb_rebuild_history := λ _ _, Ok []; lb_canonical := λ _ e, utf8_encode (ev_domain e) |}.

(** Calls are numbered by the last entry of their path; ten minutes pass between
    two of them. *)
Definition call_number (path : list nat) : nat := List.last path 0%nat.
Definition toy_env (state : list nat → string) (ttl : Z) (text : bytes) : environment :=
  {| env_now := λ p, toy_now + 600 * second_us * Z.of_nat (call_number p); env_check := λ _, Ok ();
     env_schedule := λ _, {| cancel_seen := false; gave_up := false |};
     env_fetch_txt := λ _ name, if name ==? lit "_dnsid.agent.example.com"
                                then DnsAnswer [{| txt_strings := [text]; txt_ttl := Some ttl |}] (Some VALID) else DnsNoRecord;
     env_https := InjectedFetcher (toy_fetch state);
     env_registry := Some [(lit "c2sp-tlog", λ _ _, Ok toy_reader)] |}.

Definition toy_verification : VerificationConfig :=
  {| vc_status_check_interval := 300 * second_us; vc_dnssec_mode := Some REQUIRED;
     vc_trusted_entities := Some [{| te_governance_id := lit "Example.COM"; te_entity_key_thumbprints := Some [toy_thumb entity] |}] |}.
Definition toy_policy : VerificationConfig :=
  Eval vm_compute in match validate_verification_config toy_verification with Ok c => c | Raise _ => toy_verification end.


(** ** Verification *)
Definition active : environment := toy_env (λ _, "ACTIVE"%string) 3600 toy_text.
Definition later_revoked : environment := toy_env (λ p, if (call_number p <? 2)%nat then "ACTIVE" else "REVOKED")%string 3600 toy_text.
Definition toy_name : str := lit "Agent.Example.com".
Abbreviation toy_cache := (gmap str (VerifiedDomain log_binding)) (only parsing).
Definition toy_call (env : environment) (n : nat) (c : toy_cache) : toy_cache * res (VerifiedDomain log_binding) :=
  verify_domain env toy_policy 3 [n] false toy_name (Some toy_cert) c.

Definition code_of {A} (r : res A) : option exn := match r with Ok _ => None | Raise e => Some e end.
Lemma is_Ok_true {A} (r : res A) : is_Ok r = true → ∃ a, r = Ok a.
Proof. destruct r; [eauto|done]. Qed.
Lemma is_Ok_false {A} (c : toy_cache * res A) : is_Ok c.2 = false → ∃ e, c = (c.1, Raise e) ∧ code_of c.2 = Some e.
Proof. destruct c as [c [a|e]]; [discriminate|eauto]. Qed.
Definition is_some {A} (o : option A) : bool := match o with Some _ => true | None => false end.
Lemma is_some_true {A} (o : option A) : is_some o = true → ∃ a, o = Some a.
Proof. destruct o; [eauto|done]. Qed.
Lemma toy_call_reach env n : rtc (manager_step env toy_policy) (∅ : toy_cache) (toy_call env n ∅).1.
Proof. apply rtc_once. apply (step_call env toy_policy ∅ 3 [n] false (VerifyDomain toy_name (Some toy_cert))). Qed.
Lemma nothing_held P : holds P (∅ : toy_cache).
Proof. apply map_Forall_empty. Qed.

(** The second call is served from the cache, after the status was read again. *)
Lemma verify_domain_sound_witness : ∃ vd, (toy_call active 2 (toy_call active 1 ∅).1).2 = Ok vd
  ∧ accepted active toy_policy [1; 4; 1; 2]%nat toy_domain (Some toy_cert) vd.
Proof.
  destruct (is_Ok_true (toy_call active 2 (toy_call active 1 ∅).1).2) as [vd Hvd]; [vm_compute; reflexivity|].
  exists vd. split; [exact Hvd|].
  destruct (verify_domain_sound active toy_policy ∅ (toy_call active 1 ∅).1 (toy_call active 2 (toy_call active 1 ∅).1).1 3 [2%nat] false toy_name (Some toy_cert) vd)
    as (name & Hn & Hacc).
  - apply nothing_held.
  - apply toy_call_reach.
  - rewrite <- Hvd. apply surjective_pairing.
  - assert (name = toy_domain) as ->; [|exact Hacc]. vm_compute in Hn. injection Hn as <-. reflexivity.
Defined.

Lemma inactive_identity_evicted_witness :
  (∃ v, (toy_call later_revoked 1 ∅).1 !! toy_domain = Some v) ∧
  holds (λ d v, d ≠ toy_domain ∧ kept later_revoked toy_policy d v) (toy_call later_revoked 2 (toy_call later_revoked 1 ∅).1).1.
Proof.
  split; [apply is_some_true; vm_compute; reflexivity|].
  destruct (is_Ok_false (toy_call later_revoked 2 (toy_call later_revoked 1 ∅).1)) as (e & He & Hcode); [vm_compute; reflexivity|].
  apply (inactive_identity_evicted later_revoked toy_policy ∅ (toy_call later_revoked 1 ∅).1 (toy_call later_revoked 2 (toy_call later_revoked 1 ∅).1).1 3 [2%nat] false
    toy_name toy_domain (Some toy_cert) e).
  - intros p e' Hx. discriminate Hx.
  - apply nothing_held.
  - apply toy_call_reach.
  - vm_compute. reflexivity.
  - exact He.
  - vm_compute in Hcode. injection Hcode as <-. reflexivity.
Defined.

Lemma cache_invariant_witness : ∃ v, (toy_call active 1 ∅).1 !! toy_domain = Some v ∧ established active toy_policy toy_domain v.
Proof.
  destruct (cache_invariant active toy_policy ∅ (toy_call active 1 ∅).1) as [Hall _]; [apply nothing_held|apply toy_call_reach|].
  destruct (is_some_true ((toy_call active 1 ∅).1 !! toy_domain)) as [v E]; [vm_compute; reflexivity|]. exists v. split; [exact E|].
  destruct (Hall toy_domain v E) as [He _]. exact He.
Defined.

Definition zero_ttl : environment := toy_env (λ _, "ACTIVE"%string) 0 toy_text.
Lemma zero_ttl_gathered p vd : gather_evidence zero_ttl toy_policy p toy_domain false = Ok vd → vd_dns_ttl vd = 0.
Proof.
  intros Hg%gather_established. destruct (ar_dns _ _ _ _ (es_record _ _ _ _ Hg)) as (q & acq & r & raw & parsed & Hr & _ & Ht & _).
  cbn [env_fetch_txt zero_ttl toy_env] in Hr. change (lit "_dnsid." ++ toy_domain ==? lit "_dnsid.agent.example.com") with true in Hr. cbn iota in Hr.
  injection Hr as <- _. by injection Ht.
Qed.
Definition toy_stale (d : VerifiedDomain log_binding) := refresh_status zero_ttl toy_policy 5 [2%nat] toy_domain d (∅ : toy_cache).
Lemma zero_ttl_refresh_starves_witness : is_Ok (gather_evidence zero_ttl toy_policy [] toy_domain false) = true ∧
  ∃ cached, ∀ c' vd, toy_stale cached ≠ (c', Ok vd).
Proof.
  split; [vm_compute; reflexivity|]. destruct (is_Ok_true (gather_evidence zero_ttl toy_policy [] toy_domain false)) as [cached _]; [vm_compute; reflexivity|].
  exists cached. apply (zero_ttl_refresh_starves zero_ttl toy_policy 5 [2%nat] toy_domain cached ∅); [exact (λ p vd, zero_ttl_gathered p vd)|apply lookup_empty].
Defined.

(** A TXT record with a byte that is not ASCII makes [verify_domain] raise the
    [UnicodeDecodeError] of its decoding, which is no [VerificationError]: callers
    that handle verification failures do not handle this one, although anyone who
    controls the zone decides on it. *)
Theorem undecodable_record_escapes :
  let outcome := (toy_call (toy_env (λ _, "ACTIVE"%string) 3600 [255]) 1 ∅).2 in
  match outcome with Ok _ => False | Raise e => is_value_error e = true ∧ is_verification e = false end.
Proof. by vm_compute. Qed.

(** ** The client *)

(** The key set is behind a redirect; [elsewhere] answers on another host. *)
Definition toy_response (location : option str) (body : bytes) : https_response :=
  {| hs_response := {| hr_is_redirect := is_some location; hr_status_code := if is_some location then 302 else 200; hr_content_length := None;
                       hr_content_encoding := None; hr_is_stream_consumed := false; hr_chunks := [body]; hr_failure := None |};
     hs_location := location; hs_peer_cert := Some toy_cert |}.
Definition toy_stream (elsewhere : res https_response) (path : list nat) (revalidate : bool) (url : str) : res https_response :=
  if url ==? lit "https://example.com/ek" then Ok (toy_response (Some (lit "https://keys.example.com/ek")) [])
  else if url ==? lit "https://keys.example.com/ek" then Ok (toy_response None (lit "keys"))
  else if url ==? lit "https://keys.example.org/ek" then elsewhere
  else Raise (VerificationError TLS_ERROR (lit "not found") true None).
Definition toy_fetch_jwks (elsewhere : res https_response) : res (list JWK * TLSCertificate) :=
  fetch_jwks no_deadline (toy_stream elsewhere) [] (lit "https://example.com/ek") (lit "example.com") true false.

Lemma elsewhere_forbidden : ~ permitted_url (lit "https://example.com/ek") (lit "example.com") true (lit "https://keys.example.org/ek").
Proof.
  intros (_ & [E|(u & Hu & Hx)]); [discriminate E|]. vm_compute in Hu. injection Hu as <-. specialize (Hx (lit "keys.example.org")).
  vm_compute in Hx. discriminate Hx; done.
Qed.


(** ** The allow-list *)
Lemma toy_policy_valid : validate_verification_config toy_verification = Ok toy_policy.
Proof. vm_compute. reflexivity. Qed.
Lemma acceptance_is_allow_list_witness : ∃ entities, vc_trusted_entities toy_policy = Some entities
  ∧ Forall2 entity_of (default [] (vc_trusted_entities toy_verification)) entities.
Proof.
  destruct (acceptance_is_allow_list toy_verification toy_policy (default [] (vc_trusted_entities toy_verification))) as (entities & He & Hf & _);
    [apply toy_policy_valid|reflexivity|]. exists entities. split; [exact He|exact Hf].
Defined.
