(* ===== verification/LocalKeys.v ===== *)
(** * Key providers ([KeyProvider] of [dnsid/interfaces.py], [dnsid/local_key_provider.py])

    The interface of key management with the life of a key (pending, active,
    retained, superseded) as its abstract state, and the file-backed provider.
    A call that changes a provider meets one of three fates: it is done, it fails
    without effect, or it takes effect and then fails. *)
From S2P Require Import Prelude Sha256 Errors PyText Base64 Utils PyFloat Canonical Keys LifecycleDemo.

(** ** The interface *)
Inductive fate : Set := Done | Lost (e : exn) | Unconfirmed (e : exn).

(** [signing_key] gives [None] when it raises [NoActiveSigningKeyError]. *)
Class KeyProviderOps (P : Type) := {
  kp_signing_key : P → res (option JWK);
  kp_public : P → json → res JWK;
  kp_list_key_ids : P → list json;
  kp_sign_with : P → json → bytes → res bytes;
  kp_generation_algorithm : P → res str;
  kp_allows_active : P → bool;
  kp_generate_key : list nat → fate → P → P * res json;
  kp_activate : fate → json → P → P * res unit;
  kp_supersede : fate → json → bool → P → P * res unit
}.

(** ** The abstract state *)
Record KeyView : Set := { kv_active : option JWK; kv_retained : list JWK; kv_pending : list JWK }.

Definition kid_is (kid : json) (k : JWK) : bool := py_eq (jwk_kid k) kid.
Definition kv_live (v : KeyView) : list JWK := option_list (kv_active v) ++ kv_retained v.
Definition kv_all (v : KeyView) : list JWK := kv_live v ++ kv_pending v.

(** The first element with a property, and the rest. *)
Fixpoint take_first {A} (f : A → bool) (l : list A) : option (A * list A) :=
  match l with
  | [] => None
  | x :: l => if f x then Some (x, l) else '(y, rest) ← take_first f l; Some (y, x :: rest)
  end.

Definition view_activate (kid : json) (v : KeyView) : option KeyView :=
  '(k, rest) ← take_first (kid_is kid) (kv_pending v);
  Some {| kv_active := Some k; kv_retained := kv_retained v ++ option_list (kv_active v); kv_pending := rest |}.

Definition active_is (kid : json) (v : KeyView) : bool :=
  match kv_active v with Some k => kid_is kid k | None => false end.
Definition view_supersede (kid : json) (allow_active : bool) (v : KeyView) : option KeyView :=
  if active_is kid v then
    if allow_active then Some {| kv_active := None; kv_retained := kv_retained v; kv_pending := kv_pending v |} else None
  else
    '(_, rest) ← take_first (kid_is kid) (kv_retained v);
    Some {| kv_active := kv_active v; kv_retained := rest; kv_pending := kv_pending v |}.

Definition view_generate (k : JWK) (v : KeyView) : KeyView :=
  {| kv_active := kv_active v; kv_retained := kv_retained v; kv_pending := kv_pending v ++ [k] |}.

(** What a call did to a provider: nothing and an error, or the change. *)
Definition outcome_of {A} (before after : KeyView) (r : res A) (change : option KeyView) : Prop :=
  (after = before ∧ is_Ok r = false) ∨ change = Some after.

(** What the interface promises: the provider behaves as its view. *)
Class KeyProviderSpec (P : Type) `{KeyProviderOps P} := {
  kp_in_use : P → Prop;
  kp_view : P → KeyView;
  signing_key_view p : kp_in_use p → kp_signing_key p = Ok (kv_active (kp_view p));
  public_view p kid : kp_in_use p → match List.find (kid_is kid) (kv_all (kp_view p)) with
                                   | Some k => kp_public p kid = Ok k
                                   | None => is_Ok (kp_public p kid) = false
                                   end;
  key_ids_view p : kp_in_use p → kp_list_key_ids p = jwk_kid <$> kv_live (kp_view p);
  generate_view path w p p' r : kp_in_use p → kp_generate_key path w p = (p', r) →
    kp_in_use p' ∧ ∃ k, outcome_of (kp_view p) (kp_view p') r (Some (view_generate k (kp_view p))) ∧ ∀ kid, r = Ok kid → jwk_kid k = kid;
  activate_view w kid p p' r : kp_in_use p → kp_activate w kid p = (p', r) →
    kp_in_use p' ∧ outcome_of (kp_view p) (kp_view p') r (view_activate kid (kp_view p));
  activate_done kid p p' r : kp_in_use p → kp_activate Done kid p = (p', r) → is_Some (view_activate kid (kp_view p)) → r = Ok ();
  supersede_view w kid allow p p' r : kp_in_use p → kp_supersede w kid allow p = (p', r) →
    kp_in_use p' ∧ outcome_of (kp_view p) (kp_view p') r (view_supersede kid allow (kp_view p));
  supersede_done kid allow p p' r : kp_in_use p → kp_supersede Done kid allow p = (p', r) →
    is_Some (view_supersede kid allow (kp_view p)) → r = Ok ()
}.

(** ** Stored keys *)
Record StoredKey : Set := {
  sk_kty : json; sk_crv : json; sk_alg : json; sk_use : json; sk_kid : json; sk_x : json; sk_y : json; sk_d : json
}.

Definition y_member (y : json) : list (str * json) := if falsy y then [] else [(lit "y", y)].

Definition stored_to_dict (k : StoredKey) : list (str * json) :=
  [(lit "kty", sk_kty k); (lit "crv", sk_crv k); (lit "alg", sk_alg k); (lit "use", sk_use k); (lit "kid", sk_kid k);
   (lit "x", sk_x k); (lit "d", sk_d k)] ++ y_member (sk_y k).

Definition stored_from_dict (data : json) : res StoredKey :=
  match data with
  | JDict d =>
      kty ← item "kty" d;
      crv ← item "crv" d;
      let alg := get "alg" (JStr (if is_str "EC" (get "kty" JNull d) && is_str "P-256" (get "crv" JNull d)
                                  then lit "ES256" else lit "EdDSA")) d in
      kid ← item "kid" d;
      x ← item "x" d;
      secret ← item "d" d;
      Ok {| sk_kty := kty; sk_crv := crv; sk_alg := alg; sk_use := get "use" (JStr (lit "sig")) d; sk_kid := kid;
            sk_x := x; sk_y := get "y" (JStr []) d; sk_d := secret |}
  | _ => Raise (TypeError (lit "indices must be integers"))
  end.

Definition public_raw (k : StoredKey) : list (str * json) :=
  [(lit "kty", sk_kty k); (lit "crv", sk_crv k); (lit "alg", sk_alg k); (lit "use", sk_use k); (lit "kid", sk_kid k);
   (lit "x", sk_x k)] ++ y_member (sk_y k).
Definition public_jwk (k : StoredKey) : JWK :=
  {| jwk_kty := sk_kty k; jwk_alg := sk_alg k; jwk_kid := sk_kid k; jwk_use := sk_use k; jwk_raw := public_raw k |}.

Lemma public_jwk_from_dict k : jwk_from_dict (JDict (public_raw k)) = Ok (public_jwk k).
Proof. destruct k as [kty crv alg use kid x y d]. unfold public_jwk, public_raw, y_member. cbn [sk_y]. by destruct (falsy y). Qed.

Record KeyStore : Set := { ks_active : option StoredKey; ks_retained : list StoredKey; ks_pending : list StoredKey }.

Definition store_to_dict (s : KeyStore) : json :=
  JDict [(lit "active", match ks_active s with Some k => JDict (stored_to_dict k) | None => JNull end);
         (lit "retained", JList (JDict ∘ stored_to_dict <$> ks_retained s));
         (lit "pending", JList (JDict ∘ stored_to_dict <$> ks_pending s))].

(** Iteration over a JSON value. *)
Definition iterate (v : json) : res (list json) :=
  match v with
  | JList l => Ok l
  | JDict d => Ok (map (λ kv, JStr kv.1) d)
  | JStr s => Ok (map (λ c, JStr [c]) s)
  | _ => Raise (TypeError (lit "object is not iterable"))
  end.

Definition store_from_dict (data : json) : res KeyStore :=
  match data with
  | JDict d =>
      active ← item "active" d;
      active ← match active with JNull => Ok None | v => k ← stored_from_dict v; Ok (Some k) end;
      retained ← (l ← iterate (get "retained" (JList []) d); mapM_res stored_from_dict l);
      pending ← (l ← iterate (get "pending" (JList []) d); mapM_res stored_from_dict l);
      Ok {| ks_active := active; ks_retained := retained; ks_pending := pending |}
  | _ => Raise (TypeError (lit "indices must be integers"))
  end.

(** ** Key generation and signing *)

(** A private key of [cryptography]: Ed25519, P-256, another elliptic curve or
    another kind. *)
Inductive PrivateKey : Set :=
| Ed25519Private (seed : bytes)
| P256Private (private_value : Z)
| OtherCurvePrivate
| OtherPrivate.

(** [cryptography]: fresh private keys at a call, public keys, the range of P-256
    private values, and signatures (for P-256 as the numbers [r] and [s]). *)
Class KeyMaterial := {
  generate_ed25519 : list nat → bytes;
  generate_p256 : list nat → Z;
  ed25519_public : bytes → bytes;
  p256_public : Z → Z * Z;
  p256_derivable : Z → bool;
  ed25519_raw_sign : bytes → bytes → bytes;
  p256_raw_sign : Z → bytes → Z * Z
}.

(** [value.to_bytes(32, "big")] *)
Definition to_bytes_32 (value : Z) : res bytes :=
  raise_if (value <? 0) (OverflowError (lit "can't convert negative int to unsigned")) ;;
  raise_if (2 ^ 256 <=? value) (OverflowError (lit "int too big to convert")) ;;
  Ok (be_bytes 32 value).

Definition with_kid (k : StoredKey) (kid : json) : StoredKey :=
  {| sk_kty := sk_kty k; sk_crv := sk_crv k; sk_alg := sk_alg k; sk_use := sk_use k; sk_kid := kid;
     sk_x := sk_x k; sk_y := sk_y k; sk_d := sk_d k |}.

Section local.
Context `{KeyMaterial}.

(** [Ed25519PrivateKey.from_private_bytes] and [derive_private_key]. *)
Definition load_ed25519 (private_bytes : bytes) : res PrivateKey :=
  raise_if (negb (len private_bytes =? 32)) (ValueError (lit "An Ed25519 private key is 32 bytes long")) ;;
  Ok (Ed25519Private private_bytes).
Definition load_p256 (private_bytes : bytes) : res PrivateKey :=
  raise_if (negb (p256_derivable (from_bytes_big private_bytes))) (ValueError (lit "Invalid private value")) ;;
  Ok (P256Private (from_bytes_big private_bytes)).

Definition private_key (k : StoredKey) : res PrivateKey :=
  private_bytes ← b64url_decode_value (sk_d k);
  if is_str "OKP" (sk_kty k) && is_str "Ed25519" (sk_crv k) then load_ed25519 private_bytes
  else if is_str "EC" (sk_kty k) && is_str "P-256" (sk_crv k) then load_p256 private_bytes
  else Raise (ValueError (lit "unsupported local key type")).

Definition stored_key_from_private (private : PrivateKey) (kid : json) : res StoredKey :=
  let text b := JStr (b64url_encode b false) in
  match private with
  | Ed25519Private seed =>
      Ok {| sk_kty := JStr (lit "OKP"); sk_crv := JStr (lit "Ed25519"); sk_alg := JStr (lit "EdDSA"); sk_use := JStr (lit "sig");
            sk_kid := kid; sk_x := text (ed25519_public seed); sk_y := JStr []; sk_d := text seed |}
  | P256Private value =>
      x ← to_bytes_32 (p256_public value).1;
      y ← to_bytes_32 (p256_public value).2;
      d ← to_bytes_32 value;
      Ok {| sk_kty := JStr (lit "EC"); sk_crv := JStr (lit "P-256"); sk_alg := JStr (lit "ES256"); sk_use := JStr (lit "sig");
            sk_kid := kid; sk_x := text x; sk_y := text y; sk_d := text d |}
  | _ => Raise (ValueError (lit "local keys must use Ed25519 or P-256"))
  end.

Definition kid_by_thumbprint (k : StoredKey) : res StoredKey :=
  kid ← compute_thumbprint (public_raw k); Ok (with_kid k (JStr kid)).

Definition validate_and_normalize_private_jwk (data : list (str * json)) : res StoredKey :=
  let kty := get "kty" JNull data in
  let crv := get "crv" JNull data in
  let ed25519 := is_str "OKP" kty && is_str "Ed25519" crv in
  let p256 := is_str "EC" kty && is_str "P-256" crv in
  let text_member n := match get n JNull data with JStr _ => true | _ => false end in
  raise_if (negb (hashable kty) || negb (hashable crv)) unhashable ;;
  raise_if (negb (ed25519 || p256) || negb (forallb text_member (if ed25519 then ["x"; "d"] else ["x"; "y"; "d"])%string))
    (ValueError (lit "must include Ed25519 or P-256 private key material")) ;;
  normalized ← try_except
    (private_bytes ← b64url_decode_value (get "d" JNull data);
     private ← (if ed25519 then load_ed25519 private_bytes else load_p256 private_bytes);
     stored_key_from_private private (JStr []))
    (λ _, Raise (ValueError (lit "cannot load private key")));
  raise_if (negb (py_eq (get "x" JNull data) (sk_x normalized)) || negb (py_eq (get "y" (JStr []) data) (sk_y normalized)))
    (ValueError (lit "mismatched Ed25519 or P-256 public/private key material")) ;;
  match get "kid" JNull data with
  | JStr ((_ :: _) as kid) => Ok (with_kid normalized (JStr kid))
  | _ => kid_by_thumbprint normalized
  end.

Definition generate_stored_key (path : list nat) (algorithm : json) : res StoredKey :=
  private ← (if is_str "EdDSA" algorithm then Ok (Ed25519Private (generate_ed25519 path))
             else if is_str "ES256" algorithm then Ok (P256Private (generate_p256 path))
             else Raise (ArgumentError (lit "unsupported local key algorithm")));
  stored ← stored_key_from_private private (JStr []);
  kid_by_thumbprint stored.

(** [ec_sign]: the two numbers as 32 octets each. *)
Definition ec_sign (private_value : Z) (payload : bytes) : res bytes :=
  let '(r, s) := p256_raw_sign private_value payload in
  r ← to_bytes_32 r; s ← to_bytes_32 s; Ok (r ++ s).

Definition sign_stored_key (key : StoredKey) (payload : bytes) : res bytes :=
  private ← private_key key;
  match private with
  | Ed25519Private seed => Ok (ed25519_raw_sign seed payload)
  | P256Private value => ec_sign value payload
  | _ => Raise (TypeError (lit "not a local private key"))
  end.

(** ** The provider: its snapshot, and the file when there is one *)
Record LocalKeyProvider : Set := { lk_store : KeyStore; lk_file : option json }.

Definition stored_is (kid : json) (k : StoredKey) : bool := py_eq (sk_kid k) kid.

Definition signing_key (p : LocalKeyProvider) : option JWK := public_jwk <$> ks_active (lk_store p).

Definition stored_keys (s : KeyStore) : list StoredKey := option_list (ks_active s) ++ ks_retained s ++ ks_pending s.
Definition jwk (p : LocalKeyProvider) (kid : json) : res JWK :=
  match List.find (stored_is kid) (stored_keys (lk_store p)) with
  | Some k => Ok (public_jwk k)
  | None => Raise (ArgumentError (lit "key not found"))
  end.

Definition list_key_ids (p : LocalKeyProvider) : list json :=
  option_list (sk_kid <$> ks_active (lk_store p)) ++ (sk_kid <$> ks_retained (lk_store p)).

Definition no_active_key : exn := ArgumentError (lit "provider has no active signing key").
Definition sign (p : LocalKeyProvider) (payload : bytes) : res bytes :=
  match ks_active (lk_store p) with None => Raise no_active_key | Some k => sign_stored_key k payload end.
Definition sign_key (p : LocalKeyProvider) (kid : json) (payload : bytes) : res bytes :=
  match List.find (stored_is kid) (option_list (ks_active (lk_store p)) ++ ks_pending (lk_store p)) with
  | Some k => sign_stored_key k payload
  | None => Raise (ArgumentError (lit "key is not active or pending for signing"))
  end.
Definition generation_algorithm (p : LocalKeyProvider) : res str :=
  match signing_key p with None => Raise no_active_key | Some k => signature_alg k end.

(** [_mutate]: the change is made to a copy; a file is read again before, and
    whatever became of the writing, after it. *)
Definition mutate {A} (w : fate) (change : KeyStore → res (KeyStore * A)) (p : LocalKeyProvider) : LocalKeyProvider * res A :=
  match lk_file p with
  | None =>
      match copy ← store_from_dict (store_to_dict (lk_store p)); change copy with
      | Ok (store, a) => ({| lk_store := store; lk_file := None |}, Ok a)
      | Raise e => (p, Raise e)
      end
  | Some data =>
      match store_from_dict data with
      | Raise e => (p, Raise e)
      | Ok current =>
          let reloaded := {| lk_store := current; lk_file := Some data |} in
          match copy ← store_from_dict (store_to_dict current); change copy with
          | Raise e => (reloaded, Raise e)
          | Ok (store, a) =>
              let written := store_to_dict store in
              let reload r := match store_from_dict written with
                              | Ok s => ({| lk_store := s; lk_file := Some written |}, r)
                              | Raise e => ({| lk_store := current; lk_file := Some written |}, Raise e)
                              end in
              match w with
              | Done => reload (Ok a)
              | Unconfirmed e => reload (Raise e)
              | Lost e => (reloaded, Raise e)
              end
          end
      end
  end.

Definition generate_key (path : list nat) (w : fate) : LocalKeyProvider → LocalKeyProvider * res json :=
  mutate w (λ store,
    match ks_active store with
    | None => Raise (ArgumentError (lit "provider has no active algorithm; select another provider"))
    | Some active =>
        key ← generate_stored_key path (sk_alg active);
        Ok ({| ks_active := ks_active store; ks_retained := ks_retained store; ks_pending := ks_pending store ++ [key] |}, sk_kid key)
    end).

Definition activate (w : fate) (kid : json) : LocalKeyProvider → LocalKeyProvider * res unit :=
  mutate w (λ store,
    match take_first (stored_is kid) (ks_pending store) with
    | None => Raise (ArgumentError (lit "no pending key with kid"))
    | Some (incoming, rest) =>
        Ok ({| ks_active := Some incoming; ks_retained := ks_retained store ++ option_list (ks_active store); ks_pending := rest |}, ())
    end).

Definition supersede (w : fate) (kid : json) (allow_active : bool) : LocalKeyProvider → LocalKeyProvider * res unit :=
  mutate w (λ store,
    if match ks_active store with Some k => stored_is kid k | None => false end then
      raise_if (negb allow_active) (ArgumentError (lit "cannot supersede the active key; activate a replacement first")) ;;
      Ok ({| ks_active := None; ks_retained := ks_retained store; ks_pending := ks_pending store |}, ())
    else
      match take_first (stored_is kid) (ks_retained store) with
      | None => Raise (ArgumentError (lit "no retained key with kid"))
      | Some (_, rest) => Ok ({| ks_active := ks_active store; ks_retained := rest; ks_pending := ks_pending store |}, ())
      end).

(** ** Factories *)
Definition one_key (k : StoredKey) : KeyStore := {| ks_active := Some k; ks_retained := []; ks_pending := [] |}.

Definition generate (path : list nat) (algorithm : json) : res LocalKeyProvider :=
  k ← generate_stored_key path algorithm; Ok {| lk_store := one_key k; lk_file := None |}.

(** A file as [json.loads] reads it: missing, not JSON, or a value. *)
Inductive json_file : Set := Missing | NotJson | Holds (v : json).

Definition file_not_found : exn := OSError OSOther (lit "key store not found").

(** [name in data] for a decoded value. *)
Definition contains (name : string) (data : json) : res bool :=
  match data with
  | JDict d => Ok (has name d)
  | JList l => Ok (existsb (is_str name) l)
  | JStr s => Ok (negb (PyText.find (lit name) s <? 0))
  | _ => Raise (TypeError (lit "argument is not iterable"))
  end.

(** [load]: [first] is the file as it is read without the lock, [locked] as it is
    under the lock, and [w] what becomes of a write.  The provider's file is what
    is on disk when the call returns. *)
Definition load (path : list nat) (create_if_missing : bool) (algorithm : json) (first locked : json_file) (w : fate) : res LocalKeyProvider :=
  let not_json := ValueError (lit "JSONDecodeError") in
  let write store := match w with Done => Ok {| lk_store := store; lk_file := Some (store_to_dict store) |} | Lost e | Unconfirmed e => Raise e end in
  current ← match first with
            | Missing => raise_if (negb create_if_missing) file_not_found ;; Ok None
            | NotJson => Raise not_json
            | Holds data => b ← contains "active" data; Ok (if b : bool then Some data else None)
            end : res (option json);
  match current with
  | Some data => store ← store_from_dict data; Ok {| lk_store := store; lk_file := Some data |}
  | None =>
      match locked with
      | NotJson => Raise not_json
      | Holds data =>
          active ← contains "active" data;
          secret ← (if active : bool then Ok false else contains "d" data);
          if secret : bool then
            store ← store_from_dict (JDict [(lit "active", data); (lit "retained", JList []); (lit "pending", JList [])]);
            write store
          else
            store ← store_from_dict data; Ok {| lk_store := store; lk_file := Some data |}
      | Missing =>
          raise_if (negb create_if_missing) file_not_found ;;
          k ← generate_stored_key path algorithm;
          write (one_key k)
      end
  end.

Definition from_private_jwk (file : json_file) : res LocalKeyProvider :=
  match file with
  | Missing => Raise file_not_found
  | NotJson => Raise (ValueError (lit "invalid JSON"))
  | Holds (JDict raw) => stored ← validate_and_normalize_private_jwk raw; Ok {| lk_store := one_key stored; lk_file := None |}
  | Holds _ => Raise (ValueError (lit "must contain a JSON object"))
  end.

(** [private.jwk] and [private.pem] of a directory; [load_pem_private_key] gives
    [None] when it raises. *)
Record cli_directory : Set := { private_jwk : json_file; private_pem : option (option PrivateKey) }.
Definition from_cli_directory (d : cli_directory) : res LocalKeyProvider :=
  match private_jwk d, private_pem d with
  | Missing, None => Raise file_not_found
  | Missing, Some None => Raise (ValueError (lit "failed to parse"))
  | Missing, Some (Some OtherPrivate) => Raise (ValueError (lit "must contain an Ed25519 or P-256 private key"))
  | Missing, Some (Some private) =>
      stored ← try_except (stored_key_from_private private (JStr []))
        (λ e, if is_value_error e then Raise (ValueError (lit "must contain an Ed25519 or P-256 private key")) else Raise e);
      stored ← kid_by_thumbprint stored;
      Ok {| lk_store := one_key stored; lk_file := None |}
  | file, _ => from_private_jwk file
  end.

Definition from_domain `{Platform} (directories : str → cli_directory) (domain : str) : res LocalKeyProvider :=
  normalized ← normalize_fqdn idna_encode domain true; from_cli_directory (directories normalized).

#[export] Instance local_provider_ops : KeyProviderOps LocalKeyProvider := {|
  kp_signing_key p := Ok (signing_key p);
  kp_public := jwk;
  kp_list_key_ids := list_key_ids;
  kp_sign_with := sign_key;
  kp_generation_algorithm := generation_algorithm;
  kp_allows_active _ := true;
  kp_generate_key := generate_key;
  kp_activate := activate;
  kp_supersede := supersede
|}.
End local.

(** ** The store in a file *)
Definition normal (k : StoredKey) : StoredKey :=
  {| sk_kty := sk_kty k; sk_crv := sk_crv k; sk_alg := sk_alg k; sk_use := sk_use k; sk_kid := sk_kid k; sk_x := sk_x k;
     sk_y := if falsy (sk_y k) then JStr [] else sk_y k; sk_d := sk_d k |}.
Definition normal_store (s : KeyStore) : KeyStore :=
  {| ks_active := normal <$> ks_active s; ks_retained := normal <$> ks_retained s; ks_pending := normal <$> ks_pending s |}.

Lemma stored_roundtrip k : stored_from_dict (JDict (stored_to_dict k)) = Ok (normal k).
Proof. destruct k as [kty crv alg use kid x y d]. unfold stored_to_dict, normal, y_member. cbn [sk_y]. by destruct (falsy y). Qed.

Lemma stored_list_roundtrip (l : list StoredKey) : mapM_res stored_from_dict (JDict ∘ stored_to_dict <$> l) = Ok (normal <$> l).
Proof. induction l as [|k l IH]; [done|]. rewrite !fmap_cons. cbn [mapM_res]. change ((JDict ∘ stored_to_dict) k) with (JDict (stored_to_dict k)). rewrite stored_roundtrip. cbn [mbind result_bind]. by rewrite IH. Qed.

Lemma store_roundtrip s : store_from_dict (store_to_dict s) = Ok (normal_store s).
Proof.
  unfold store_to_dict, store_from_dict. set (a := match ks_active s with Some k => JDict (stored_to_dict k) | None => JNull end).
  set (d := [_; _; _]). change (item "active" d) with (Ok a : res json).
  change (get "retained" (JList []) d) with (JList (JDict ∘ stored_to_dict <$> ks_retained s)).
  change (get "pending" (JList []) d) with (JList (JDict ∘ stored_to_dict <$> ks_pending s)). cbn [iterate mbind result_bind].
  rewrite !stored_list_roundtrip. subst a. unfold normal_store. destruct (ks_active s) as [k|]; [rewrite stored_roundtrip|]; done.
Qed.

(** ** The provider as its abstract state *)
Definition view_of (s : KeyStore) : KeyView :=
  {| kv_active := public_jwk <$> ks_active s; kv_retained := public_jwk <$> ks_retained s; kv_pending := public_jwk <$> ks_pending s |}.

Lemma public_normal k : public_jwk (normal k) = public_jwk k.
Proof.
  unfold public_jwk, public_raw, y_member, normal. cbn [sk_kty sk_crv sk_alg sk_use sk_kid sk_x sk_y].
  destruct (falsy (sk_y k)) eqn:E; [done|]. by rewrite E.
Qed.
Lemma public_normal_list (l : list StoredKey) : public_jwk <$> (normal <$> l) = public_jwk <$> l.
Proof. rewrite <- list_fmap_compose. apply list_fmap_ext. intros i k _. apply public_normal. Qed.
Lemma view_normal s : view_of (normal_store s) = view_of s.
Proof. unfold view_of. cbn. rewrite !public_normal_list. by destruct (ks_active s); cbn; rewrite ?public_normal. Qed.

Lemma take_first_public kid (l : list StoredKey) :
  take_first (kid_is kid) (public_jwk <$> l) = option_map (λ '(k, rest), (public_jwk k, public_jwk <$> rest)) (take_first (stored_is kid) l).
Proof.
  induction l as [|k l IH]; [done|]. rewrite fmap_cons. cbn [take_first]. change (kid_is kid (public_jwk k)) with (stored_is kid k).
  destruct (stored_is kid k); [done|]. rewrite IH. by destruct (take_first _ l) as [[y rest]|].
Qed.
Lemma find_public kid (l : list StoredKey) : List.find (kid_is kid) (public_jwk <$> l) = public_jwk <$> List.find (stored_is kid) l.
Proof. induction l as [|k l IH]; [done|]. rewrite fmap_cons. cbn [List.find]. change (kid_is kid (public_jwk k)) with (stored_is kid k). by destruct (stored_is kid k). Qed.

(** A provider is in use while its snapshot shows what is in its file. *)
Definition in_use (p : LocalKeyProvider) : Prop :=
  match lk_file p with
  | None => True
  | Some data => ∃ s, store_from_dict data = Ok s ∧ view_of s = view_of (lk_store p)
  end.

(** A change of stores that follows a change of views. *)
Definition follows {A} (change : KeyStore → res (KeyStore * A)) (spec : KeyView → option KeyView) : Prop :=
  ∀ s, match change s with Ok (s', _) => spec (view_of s) = Some (view_of s') | Raise _ => True end.

Lemma mutate_view {A} w (change : KeyStore → res (KeyStore * A)) spec p p' r : follows change spec → in_use p →
  mutate w change p = (p', r) → in_use p' ∧ outcome_of (view_of (lk_store p)) (view_of (lk_store p')) r (spec (view_of (lk_store p))).
Proof.
  unfold in_use, mutate. intros Hf Hp. destruct (lk_file p) as [data|] eqn:Hfile.
  - destruct Hp as (s & Hs & Hv). rewrite Hs. rewrite store_roundtrip. cbn [mbind result_bind]. specialize (Hf (normal_store s)).
    destruct (change (normal_store s)) as [[store a]|e].
    + rewrite view_normal, Hv in Hf. rewrite store_roundtrip. destruct w; intros [= <- <-]; cbn [lk_file lk_store].
      * split; [exists (normal_store store); split; [apply store_roundtrip|done]|]. right. by rewrite view_normal.
      * split; [by exists s|]. left. done.
      * split; [exists (normal_store store); split; [apply store_roundtrip|done]|]. right. by rewrite view_normal.
    + intros [= <- <-]. cbn. split; [by exists s|]. by left.
  - rewrite store_roundtrip. cbn [mbind result_bind]. specialize (Hf (normal_store (lk_store p))).
    destruct (change (normal_store (lk_store p))) as [[store a]|e]; intros [= <- <-]; cbn.
    + split; [done|]. right. by rewrite view_normal in Hf.
    + rewrite Hfile. split; [done|]. by left.
Qed.

Lemma mutate_result {A} w (change : KeyStore → res (KeyStore * A)) p p' a : in_use p → mutate w change p = (p', Ok a) →
  ∃ s s', change s = Ok (s', a) ∧ view_of s = view_of (lk_store p).
Proof.
  unfold in_use, mutate. intros Hp. destruct (lk_file p) as [data|].
  - destruct Hp as (s & Hs & Hv). rewrite Hs, store_roundtrip. cbn [mbind result_bind]. destruct (change (normal_store s)) as [[store a']|e] eqn:E; [|done].
    rewrite store_roundtrip. destruct w; intros [= _ <-]. eexists _, _. split; [exact E|]. by rewrite view_normal.
  - rewrite store_roundtrip. cbn [mbind result_bind]. destruct (change _) as [[store a']|e] eqn:E; intros [= _ <-]. eexists _, _. split; [exact E|]. apply view_normal.
Qed.

(** Without a failure, a change that is possible is made. *)
Lemma mutate_done {A} (change : KeyStore → res (KeyStore * A)) (spec : KeyView → option KeyView) p p' r : in_use p →
  (∀ s, is_Some (spec (view_of s)) → is_Ok (change s) = true) → is_Some (spec (view_of (lk_store p))) →
  mutate Done change p = (p', r) → is_Ok r = true.
Proof.
  unfold in_use, mutate. intros Hp Hok Hsome. destruct (lk_file p) as [data|].
  - destruct Hp as (s & Hs & Hv). rewrite Hs, store_roundtrip. cbn [mbind result_bind]. specialize (Hok (normal_store s)). rewrite view_normal, Hv in Hok.
    destruct (change (normal_store s)) as [[store a]|e]; [|by specialize (Hok Hsome)]. rewrite store_roundtrip. by intros [= <- <-].
  - rewrite store_roundtrip. cbn [mbind result_bind]. specialize (Hok (normal_store (lk_store p))). rewrite view_normal in Hok.
    destruct (change _) as [[store a]|e]; [by intros [= <- <-]|by specialize (Hok Hsome)].
Qed.

Lemma active_is_public kid s : active_is kid (view_of s) = match ks_active s with Some k => stored_is kid k | None => false end.
Proof. unfold active_is. cbn. by destruct (ks_active s). Qed.

(** [LocalKeyProvider] keeps the promises of [KeyProvider]. *)
#[export] Program Instance local_provider_spec `{KeyMaterial} : KeyProviderSpec LocalKeyProvider := {|
  kp_in_use := in_use;
  kp_view p := view_of (lk_store p)
|}.
Next Obligation. done. Qed.
Next Obligation.
  intros ? p kid _. unfold kv_all, kv_live. cbn. assert (option_list (public_jwk <$> ks_active (lk_store p)) = public_jwk <$> option_list (ks_active (lk_store p))) as ->
    by by destruct (ks_active _). rewrite <- !fmap_app, find_public. unfold jwk, stored_keys. rewrite app_assoc. by destruct (List.find _ _).
Qed.
Next Obligation.
  intros ? p _. cbn. unfold kv_live, list_key_ids. rewrite fmap_app. cbn [view_of kv_active kv_retained]. rewrite <- list_fmap_compose.
  by destruct (ks_active _).
Qed.
Next Obligation.
  intros ? path w p p' r Hp Hx. cbn in Hx.
  set (key a := generate_stored_key path (jwk_alg a)).
  set (spec v := match kv_active v with Some a => match key a with Ok k => Some (view_generate (public_jwk k) v) | Raise _ => None end | None => None end).
  pose proof Hx as Hm. unfold generate_key in Hm. eapply (mutate_view _ _ spec) in Hm as [Hp' Ho]; [|intros s|exact Hp].
  - split; [exact Hp'|]. unfold spec in Ho. destruct (kv_active (view_of (lk_store p))) as [a|] eqn:Ea; [destruct (key a) as [k|e] eqn:Ek|].
    + exists (public_jwk k). split; [exact Ho|]. intros kid ->. apply mutate_result in Hx as (s & s' & Hx & Hv); [|done].
      apply (f_equal kv_active) in Hv. rewrite Ea in Hv. cbn in Hv. destruct (ks_active s) as [b|]; [|done]. injection Hv as <-.
      unfold key in Ek. cbn [public_jwk jwk_alg] in Ek. rewrite Ek in Hx. cbn in Hx. by injection Hx as _ <-.
    + exists a. destruct Ho as [Ho|Ho]; [|done]. split; [by left|]. intros kid ->. by destruct Ho.
    + exists {| jwk_kty := JNull; jwk_alg := JNull; jwk_kid := JNull; jwk_use := JNull; jwk_raw := [] |}. destruct Ho as [Ho|Ho]; [|done].
      split; [by left|]. intros kid ->. by destruct Ho.
  - unfold spec, key. cbn [view_of kv_active]. destruct (ks_active s) as [a|] eqn:Ea; [|done]. cbn [fmap option_fmap option_map public_jwk jwk_alg].
    destruct (generate_stored_key path (sk_alg a)) as [k|e]; [|done]. cbn [mbind result_bind]. f_equal. unfold view_generate, view_of.
    cbn [kv_active kv_retained kv_pending ks_active ks_retained ks_pending]. by rewrite Ea, fmap_app.
Qed.
Next Obligation.
  intros ? w kid p p' r Hp Hx. eapply mutate_view; [|exact Hp|exact Hx]. intros s. unfold view_activate. cbn [view_of kv_pending].
  rewrite take_first_public. destruct (take_first _ _) as [[k rest]|]; [|done]. cbn. f_equal. unfold view_of. cbn. f_equal. rewrite fmap_app. by destruct (ks_active s).
Qed.
Next Obligation.
  intros ? kid p p' r Hp Hx Hs. cbn in Hx. assert (is_Ok r = true) as Hr; [|by destruct r as [[]|]].
  eapply (mutate_done _ (view_activate kid)); [exact Hp| |exact Hs|exact Hx]. intros s [v Hv]. unfold view_activate in Hv. cbn [view_of kv_pending] in Hv.
  rewrite take_first_public in Hv. by destruct (take_first _ _) as [[k rest]|].
Qed.
Next Obligation.
  intros ? w kid allow p p' r Hp Hx. eapply mutate_view; [|exact Hp|exact Hx]. intros s. unfold view_supersede. rewrite active_is_public.
  destruct (match ks_active s with Some _ => _ | None => _ end); [by destruct allow|]. cbn [view_of kv_retained]. rewrite take_first_public.
  by destruct (take_first _ _) as [[k rest]|].
Qed.
Next Obligation.
  intros ? kid allow p p' r Hp Hx Hs. cbn in Hx. assert (is_Ok r = true) as Hr; [|by destruct r as [[]|]].
  eapply (mutate_done _ (view_supersede kid allow)); [exact Hp| |exact Hs|exact Hx]. intros s. unfold view_supersede. rewrite active_is_public.
  destruct (match ks_active s with Some _ => _ | None => _ end); [by destruct allow; [|intros [v ?]]|]. cbn [view_of kv_retained]. rewrite take_first_public.
  destruct (take_first _ _) as [[k rest]|]; [done|by intros [v ?]].
Qed.

(** ** Steps *)
Inductive view_step (v : KeyView) : KeyView → Prop :=
| view_generates k : view_step v (view_generate k v)
| view_activates kid v' : view_activate kid v = Some v' → view_step v v'
| view_supersedes kid allow v' : view_supersede kid allow v = Some v' → view_step v v'.

Inductive local_step `{KeyMaterial} (p : LocalKeyProvider) : LocalKeyProvider → Prop :=
| local_generates path w : local_step p (generate_key path w p).1
| local_activates w kid : local_step p (activate w kid p).1
| local_supersedes w kid allow : local_step p (supersede w kid allow p).1.

Lemma outcome_step {A} v v' (r : res A) change : outcome_of v v' r change → (∀ w, change = Some w → view_step v w) → rtc view_step v v'.
Proof. intros [[-> _]|Hc] Hs; [done|]. by apply rtc_once, Hs. Qed.

Lemma local_step_view `{KeyMaterial} p p' : local_step p p' → in_use p → in_use p' ∧ rtc view_step (view_of (lk_store p)) (view_of (lk_store p')).
Proof.
  intros [path w|w kid|w kid allow] Hp; change (kp_in_use p) in Hp.
  - destruct (generate_key path w p) as [q r] eqn:E. destruct (generate_view path w p q r Hp E) as (Hq & k & Ho & _). split; [exact Hq|].
    eapply outcome_step; [exact Ho|]. intros ? [= <-]. constructor.
  - destruct (activate w kid p) as [q r] eqn:E. destruct (activate_view w kid p q r Hp E) as (Hq & Ho). split; [exact Hq|].
    eapply outcome_step; [exact Ho|]. intros. by eapply view_activates.
  - destruct (supersede w kid allow p) as [q r] eqn:E. destruct (supersede_view w kid allow p q r Hp E) as (Hq & Ho). split; [exact Hq|].
    eapply outcome_step; [exact Ho|]. intros. by eapply view_supersedes.
Qed.


(** A provider whose file was replaced although the call failed. *)
Definition toy_public (seed : bytes) : bytes := if seed ==? op1_bytes then op1_bytes else op2_bytes.
#[export] Instance toy_material : KeyMaterial := {|
  generate_ed25519 path := replicate 32 1;
  generate_p256 path := 1;
  ed25519_public := toy_public;
  p256_public value := (value, value);
  p256_derivable value := bool_decide (0 < value < 2 ^ 256);
  ed25519_raw_sign seed payload := toy_sign (toy_public seed) payload;
  p256_raw_sign value payload := (value, value)
|}.
Definition toy_key_file : json :=
  store_to_dict {| ks_active := match generate_stored_key [] (JStr (lit "EdDSA")) with Ok k => Some k | Raise _ => None end; ks_retained := []; ks_pending := [] |}.
Definition toy_store : LocalKeyProvider :=
  {| lk_store := match store_from_dict toy_key_file with Ok s => s | Raise _ => {| ks_active := None; ks_retained := []; ks_pending := [] |} end;
     lk_file := Some toy_key_file |}.
Definition disk_full : exn := OSError OSOther (lit "No space left on device").
Definition toy_generated : LocalKeyProvider * res json := generate_key [1%nat] (Unconfirmed disk_full) toy_store.
