(* ===== verification/LocalKeysSpec.v ===== *)
(** * Signatures of local keys

    Keys a [LocalKeyProvider] makes or imports sign what their public keys
    verify, through any sequence of changes of the provider. *)
From S2P Require Import Prelude Sha256 Errors PyText Base64 Utils PyFloat Canonical Keys LifecycleDemo LocalKeys.

(** ** Octets *)
Lemma b64_value_sextet c x : b64_value c = Some x → sextet x.
Proof. unfold b64_value, sextet, is_upper, is_lower, is_digit. repeat case_match; intros [= <-]; bool_prop; lia. Qed.

Lemma a2b_is_bytes (s : str) quad left pads b : a2b_base64 s quad left pads = Ok b →
  (quad = 0 ∨ quad = 1 ∧ 0 ≤ left < 64 ∨ quad = 2 ∧ 0 ≤ left < 16 ∨ quad = 3 ∧ 0 ≤ left < 4) → is_bytes b.
Proof.
  revert quad left pads b. induction s as [|c s IH]; intros quad left pads b; cbn [a2b_base64].
  - repeat case_match; intros [= <-] _; constructor.
  - case_match; [repeat case_match; try (intros [= <-] _; constructor); apply IH|].
    destruct (b64_value c) as [x|] eqn:Ex; [|apply IH]. pose proof (b64_value_sextet _ _ Ex) as Hx. unfold sextet in Hx. intros Hb Hq.
    repeat (case_match; [|]); rewrite ?Z.eqb_eq, ?Z.eqb_neq in *.
    + eapply IH; [exact Hb|]. lia.
    + apply bind_Ok in Hb as (r & Hr & Hb). injection Hb as <-. constructor; [unfold is_byte; lia|]. eapply IH; [exact Hr|]. lia.
    + apply bind_Ok in Hb as (r & Hr & Hb). injection Hb as <-. constructor; [unfold is_byte; lia|]. eapply IH; [exact Hr|]. lia.
    + apply bind_Ok in Hb as (r & Hr & Hb). injection Hb as <-. constructor; [unfold is_byte; lia|]. eapply IH; [exact Hr|]. lia.
Qed.

Lemma b64url_decode_is_bytes s b : b64url_decode s = Ok b → is_bytes b.
Proof.
  unfold b64url_decode, urlsafe_b64decode, b64decode. intros Hb. guard_step Hb as Hc. eapply a2b_is_bytes; [exact Hb|]. by left.
Qed.

Lemma from_bytes_be_acc n z acc : foldl (λ a x, a * 256 + x) acc (be_bytes n z) = acc * 2 ^ (8 * Z.of_nat n) + z mod 2 ^ (8 * Z.of_nat n).
Proof.
  revert acc. induction n as [|n IH]; intros acc; [cbn; rewrite Z.mod_1_r; lia|]. cbn [be_bytes foldl]. rewrite IH.
  rewrite Z.shiftr_div_pow2 by lia. replace (8 * Z.of_nat (S n)) with (8 * Z.of_nat n + 8) by lia. rewrite Z.pow_add_r by lia.
  rewrite Z.rem_mul_r by lia. change (2 ^ 8) with 256. lia.
Qed.

Lemma to_bytes_32_Ok z b : to_bytes_32 z = Ok b → length b = 32%nat ∧ is_bytes b ∧ from_bytes_big b = z.
Proof.
  unfold to_bytes_32. intros Hb. guard_step Hb as H0. guard_step Hb as H1. apply Ok_inj in Hb. subst b. rewrite Z.ltb_ge in H0. rewrite Z.leb_gt in H1.
  split; [apply length_be_bytes|]. split; [apply is_bytes_be_bytes|]. unfold from_bytes_big. rewrite from_bytes_be_acc.
  change (8 * Z.of_nat 32) with 256. rewrite Z.mod_small; lia.
Qed.
Lemma to_bytes_32_in_range z : 0 ≤ z < 2 ^ 256 → ∃ b, to_bytes_32 z = Ok b.
Proof. intros Hz. unfold to_bytes_32. rewrite (proj2 (Z.ltb_ge _ _)), (proj2 (Z.leb_gt _ _)) by lia. by eexists. Qed.

(** ** Keys that sign *)

(** What [cryptography] documents of the keys it makes and loads. *)
Class KeyMaterialLaws `{Platform, KeyMaterial} : Prop := {
  ed25519_generated path : length (generate_ed25519 path) = 32%nat ∧ is_bytes (generate_ed25519 path);
  ed25519_point seed : length seed = 32%nat → is_bytes (ed25519_public seed) ∧ valid_ed25519_public_key (ed25519_public seed) = true;
  ed25519_signed seed payload : length seed = 32%nat → ed25519_verify (ed25519_public seed) (ed25519_raw_sign seed payload) payload = true;
  p256_generated path : p256_derivable (generate_p256 path) = true;
  p256_range value : p256_derivable value = true → 0 ≤ value < 2 ^ 256;
  p256_point value : p256_derivable value = true → 0 ≤ (p256_public value).1 < 2 ^ 256 ∧ 0 ≤ (p256_public value).2 < 2 ^ 256;
  p256_signature value payload : p256_derivable value = true →
    0 ≤ (p256_raw_sign value payload).1 < 2 ^ 256 ∧ 0 ≤ (p256_raw_sign value payload).2 < 2 ^ 256;
  p256_signed value payload : p256_derivable value = true →
    ecdsa_p256_verify (p256_public value).1 (p256_public value).2 (p256_raw_sign value payload).1 (p256_raw_sign value payload).2 payload = true
}.

Section signing.
Context `{KeyMaterialLaws}.

Definition usable (private : PrivateKey) : Prop :=
  match private with
  | Ed25519Private seed => length seed = 32%nat ∧ is_bytes seed
  | P256Private value => p256_derivable value = true
  | _ => False
  end.
Definition sound_key (k : StoredKey) : Prop := ∃ private kid, usable private ∧ stored_key_from_private private kid = Ok k.
Definition signs (k : StoredKey) (payload : bytes) : Prop :=
  ∃ sig, sign_stored_key k payload = Ok sig ∧ jwk_verify (public_jwk k) payload sig = Ok true.

Lemma ed25519_signs seed kid k payload : length seed = 32%nat → is_bytes seed →
  stored_key_from_private (Ed25519Private seed) kid = Ok k → signs k payload.
Proof.
  intros Hl Hb Hk. apply Ok_inj in Hk. subst k. destruct (ed25519_point seed Hl) as [Hp Hv]. exists (ed25519_raw_sign seed payload). split.
  - unfold sign_stored_key, private_key. cbn [sk_d sk_kty sk_crv b64url_decode_value]. rewrite b64url_decode_encode by done.
    cbn [mbind result_bind]. change (is_str "OKP" (JStr (lit "OKP")) && is_str "Ed25519" (JStr (lit "Ed25519"))) with true. cbv iota.
    unfold load_ed25519, len. by rewrite Hl.
  - unfold jwk_verify, public_jwk. cbn [jwk_raw].
    set (raw := public_raw _). change (verify_signature raw payload (ed25519_raw_sign seed payload))
      with (try_except (verify_okp raw payload (ed25519_raw_sign seed payload)) (λ _, Ok false)).
    unfold verify_okp. change (item "x" raw) with (Ok (JStr (b64url_encode (ed25519_public seed) false)) : res json).
    change (is_str "Ed25519" (get "crv" (JStr []) raw)) with true. cbn [negb raise_if mbind result_bind b64url_decode_value].
    rewrite b64url_decode_encode by done. cbn [mbind result_bind]. rewrite Hv. cbn [negb try_except]. by rewrite ed25519_signed.
Qed.

Lemma p256_signs value kid k payload : p256_derivable value = true →
  stored_key_from_private (P256Private value) kid = Ok k → signs k payload.
Proof.
  intros Hd Hk. unfold stored_key_from_private in Hk. bind_step Hk as x Hx. bind_step Hk as y Hy. bind_step Hk as d Hdb. apply Ok_inj in Hk. subst k.
  apply to_bytes_32_Ok in Hx as (Hlx & Hbx & Hx), Hy as (Hly & Hby & Hy), Hdb as (Hld & Hbd & Hdb).
  destruct (p256_signature value payload Hd) as [Hr Hs]. pose proof (p256_signed value payload Hd) as Hver.
  destruct (p256_raw_sign value payload) as [r s] eqn:Ers. cbn [fst snd] in *.
  destruct (to_bytes_32_in_range r Hr) as [rb Hrb], (to_bytes_32_in_range s Hs) as [sb Hsb].
  pose proof (to_bytes_32_Ok _ _ Hrb) as (Hlr & _ & Hrv). pose proof (to_bytes_32_Ok _ _ Hsb) as (Hls & _ & Hsv).
  exists (rb ++ sb). split.
  - unfold sign_stored_key, private_key. cbn [sk_d sk_kty sk_crv b64url_decode_value]. rewrite b64url_decode_encode by done.
    cbn [mbind result_bind]. change (is_str "OKP" (JStr (lit "EC")) && is_str "Ed25519" (JStr (lit "P-256"))) with false.
    change (is_str "EC" (JStr (lit "EC")) && is_str "P-256" (JStr (lit "P-256"))) with true. cbv iota.
    unfold load_p256. rewrite Hdb, Hd. cbn [negb raise_if mbind result_bind]. unfold ec_sign. rewrite Ers, Hrb. cbn [mbind result_bind]. by rewrite Hsb.
  - unfold jwk_verify, public_jwk. cbn [jwk_raw]. unfold public_raw. cbn [sk_y].
    assert (falsy (JStr (b64url_encode y false)) = false) as Hfy.
    { pose proof (b64url_decode_encode y Hby) as Hdec. destruct (b64url_encode y false) as [|c t]; [|done]. vm_compute in Hdec. by injection Hdec as <-. }
    unfold y_member. rewrite Hfy. cbn [sk_kty sk_crv sk_alg sk_use sk_kid sk_x app]. set (raw := _ :: _).
    change (verify_signature raw payload (rb ++ sb)) with (try_except (verify_ec raw (JStr (lit "ES256")) payload (rb ++ sb)) (λ _, Ok false)).
    unfold verify_ec. change (item "x" raw) with (Ok (JStr (b64url_encode x false)) : res json). change (item "y" raw) with (Ok (JStr (b64url_encode y false)) : res json).
    change (get "crv" (JStr []) raw) with (JStr (lit "P-256")). change (is_str "P-256" (JStr (lit "P-256"))) with true.
    change (is_str "ES256" (JStr (lit "ES256"))) with true. cbn [hashable negb raise_if mbind result_bind b64url_decode_value].
    rewrite !b64url_decode_encode by done. cbn [mbind result_bind]. unfold len. rewrite length_app, Hlx, Hly, Hlr, Hls. cbn [Z.eqb Nat.add negb orb Z.of_nat].
    rewrite (take_app_length' _ _ _ (eq_sym Hlr)), (drop_app_length' _ _ _ (eq_sym Hlr)), Hx, Hy, Hrv, Hsv. cbn. by rewrite Hver.
Qed.

Lemma sound_key_signs k payload : sound_key k → signs k payload.
Proof. intros ([seed|value| |] & kid & Hu & Hk); [destruct Hu; by eapply ed25519_signs|by eapply p256_signs|done..]. Qed.

Lemma sound_with_kid k kid : sound_key k → sound_key (with_kid k kid).
Proof.
  intros (private & kid' & Hu & Hk). exists private, kid. split; [done|]. unfold stored_key_from_private in *. destruct private as [seed|value| |]; [..|done|done].
  - apply Ok_inj in Hk. by subst k.
  - bind_step Hk as x Hx. bind_step Hk as y Hy. bind_step Hk as d Hdb. apply Ok_inj in Hk. subst k. rewrite Hx. cbn [mbind result_bind]. rewrite Hy.
    cbn [mbind result_bind]. by rewrite Hdb.
Qed.
Lemma kid_by_thumbprint_sound k k' : kid_by_thumbprint k = Ok k' → sound_key k → sound_key k'.
Proof. unfold kid_by_thumbprint. intros Hk. bind_step Hk as kid Hkid. apply Ok_inj in Hk. subst k'. apply sound_with_kid. Qed.

Lemma generated_sound path algorithm k : generate_stored_key path algorithm = Ok k → sound_key k.
Proof.
  unfold generate_stored_key. intros Hk. bind_step Hk as private Hp. bind_step Hk as stored Hs. eapply kid_by_thumbprint_sound; [exact Hk|].
  exists private, (JStr []). split; [|done]. repeat case_match; apply Ok_inj in Hp || discriminate Hp; subst private; [apply ed25519_generated|apply p256_generated].
Qed.

Lemma load_ed25519_usable b private : is_bytes b → load_ed25519 b = Ok private → usable private.
Proof. unfold load_ed25519, len. intros Hb Hp. guard_step Hp as Hl. apply Ok_inj in Hp. subst private. split; [|done]. bool_prop. lia. Qed.
Lemma load_p256_usable b private : load_p256 b = Ok private → usable private.
Proof. unfold load_p256. intros Hp. guard_step Hp as Hl. apply Ok_inj in Hp. subst private. cbn. by bool_prop. Qed.

Lemma b64url_decode_value_is_bytes v b : b64url_decode_value v = Ok b → is_bytes b.
Proof. destruct v; try done. apply b64url_decode_is_bytes. Qed.

Lemma imported_sound data k : validate_and_normalize_private_jwk data = Ok k → sound_key k.
Proof.
  unfold validate_and_normalize_private_jwk. intros Hk. guard_step Hk as G1. guard_step Hk as G2. bind_step Hk as normalized Hn. guard_step Hk as G3.
  assert (sound_key normalized) as Hsound.
  { destruct (mbind _ _) as [n|e] eqn:E in Hn; [|done]. apply Ok_inj in Hn. subst n. bind_step E as b Hb. apply b64url_decode_value_is_bytes in Hb.
    bind_step E as private Hp. exists private, (JStr []). split; [|exact E]. destruct (is_str "OKP" _ && _); [by eapply load_ed25519_usable|by eapply load_p256_usable]. }
  repeat case_match; try (by eapply kid_by_thumbprint_sound); apply Ok_inj in Hk; subst k; by apply sound_with_kid.
Qed.

(** ** Providers *)
Definition sound_store (s : KeyStore) : Prop := Forall sound_key (stored_keys s).
Definition sound_provider (p : LocalKeyProvider) : Prop :=
  sound_store (lk_store p) ∧ ∀ data, lk_file p = Some data → ∃ s, store_from_dict data = Ok s ∧ sound_store s.

Lemma sound_normal k : sound_key k → normal k = k.
Proof.
  intros (private & kid & _ & Hk). unfold stored_key_from_private in Hk. destruct private as [seed|value| |]; [..|done|done].
  - apply Ok_inj in Hk. by subst k.
  - bind_step Hk as x Hx. bind_step Hk as y Hy. bind_step Hk as d Hdb. apply Ok_inj in Hk. subst k. unfold normal. cbn [sk_y].
    by destruct (b64url_encode y false).
Qed.
Lemma sound_normal_store s : sound_store s → normal_store s = s.
Proof.
  unfold sound_store, stored_keys. rewrite !Forall_app. intros (Ha & Hr & Hp).
  assert (∀ l, Forall sound_key l → normal <$> l = l) as Hl by (intros l; induction 1 as [|k l Hk _ IH]; [done|]; by rewrite fmap_cons, IH, sound_normal).
  destruct s as [a r q]. unfold normal_store. cbn in *. rewrite !Hl by done. destruct a as [k|]; [|done]. cbn. rewrite sound_normal; [done|]. by inversion Ha.
Qed.

Lemma mutate_sound {A} w (change : KeyStore → res (KeyStore * A)) p :
  (∀ s s' a, change s = Ok (s', a) → sound_store s → sound_store s') → sound_provider p → sound_provider (mutate w change p).1.
Proof.
  intros Hc [Hs Hf]. unfold mutate. destruct (lk_file p) as [data|] eqn:Efile.
  - destruct (Hf data eq_refl) as (s & Hd & Hsound). rewrite Hd, store_roundtrip. cbn [mbind result_bind]. rewrite sound_normal_store by done.
    assert (sound_provider {| lk_store := s; lk_file := Some data |}) as Hsame by (split; [done|intros ? [= <-]; by exists s]).
    destruct (change s) as [[s' a]|e] eqn:E; [|exact Hsame]. pose proof (Hc _ _ _ E Hsound) as Hs'. rewrite store_roundtrip, sound_normal_store by done.
    assert (sound_provider {| lk_store := s'; lk_file := Some (store_to_dict s') |}) as Hnew.
    { split; [done|]. intros ? [= <-]. exists s'. rewrite store_roundtrip. by rewrite sound_normal_store. }
    destruct w; [exact Hnew|exact Hsame|exact Hnew].
  - rewrite store_roundtrip. cbn [mbind result_bind]. rewrite sound_normal_store by done. destruct (change (lk_store p)) as [[s' a]|e] eqn:E.
    + split; [by eapply Hc|]. done.
    + split; [done|]. cbn [fst]. by rewrite Efile.
Qed.

Lemma take_first_Forall {A} (P : A → Prop) f (l : list A) x rest : take_first f l = Some (x, rest) → Forall P l → P x ∧ Forall P rest.
Proof.
  revert x rest. induction l as [|y l IH]; intros x rest; [done|]. cbn [take_first]. intros Hx Hl. inversion Hl as [|?? Hy Hl']. subst.
  destruct (f y); [by injection Hx as <- <-|]. destruct (take_first f l) as [[z r]|]; [|done]. injection Hx as <- <-. destruct (IH z r eq_refl Hl'). split; [done|]. by constructor.
Qed.

Lemma local_step_sound p p' : local_step p p' → sound_provider p → sound_provider p'.
Proof.
  unfold sound_store. intros [path w|w kid|w kid allow] Hp; apply mutate_sound; [|exact Hp| |exact Hp| |exact Hp]; unfold sound_store, stored_keys; intros s s' a Hx;
    rewrite !Forall_app; intros (Ha & Hr & Hq).
  - destruct (ks_active s) as [k|] eqn:Ek; [|done]. bind_step Hx as g Hg. injection Hx as <- <-. cbn [ks_active ks_retained ks_pending].
    rewrite Forall_app. do 2 (split; [done|]). split; [done|]. constructor; [by eapply generated_sound|constructor].
  - destruct (take_first _ _) as [[k rest]|] eqn:Et; [|done]. injection Hx as <- <-. destruct (take_first_Forall _ _ _ _ _ Et Hq). cbn.
    rewrite Forall_app. split; [by constructor|]. done.
  - destruct (match ks_active s with Some _ => _ | None => _ end).
    + guard_step Hx as Hallow. injection Hx as <- <-. cbn. split; [constructor|done].
    + destruct (take_first _ _) as [[k rest]|] eqn:Et; [|done]. injection Hx as <- <-. destruct (take_first_Forall _ _ _ _ _ Et Hr). done.
Qed.

(** A provider as it is made: with a new key in memory, with an imported private
    JWK, or as a new key store. *)
Inductive created : LocalKeyProvider → Prop :=
| created_in_memory path algorithm p : generate path algorithm = Ok p → created p
| created_from_jwk file p : from_private_jwk file = Ok p → created p
| created_store path algorithm w p : load path true algorithm Missing Missing w = Ok p → created p.

Lemma one_key_sound k : sound_key k → sound_store (one_key k).
Proof. intros Hk. by apply Forall_singleton. Qed.

Lemma created_sound p : created p → sound_provider p.
Proof.
  intros [path algorithm q Hq|file q Hq|path algorithm w q Hq].
  - unfold generate in Hq. bind_step Hq as k Hk. apply Ok_inj in Hq. subst q. split; [|done]. by eapply one_key_sound, generated_sound.
  - unfold from_private_jwk in Hq. repeat case_match; try discriminate Hq. bind_step Hq as k Hk. apply Ok_inj in Hq. subst q. split; [|done].
    by eapply one_key_sound, imported_sound.
  - unfold load in Hq. cbn [negb raise_if mbind result_bind] in Hq. bind_step Hq as k Hk. destruct w; apply Ok_inj in Hq || discriminate Hq. subst q.
    pose proof (one_key_sound k (generated_sound _ _ _ Hk)) as Hs. split; [exact Hs|]. intros ? [= <-]. exists (one_key k). split; [|done].
    change (store_from_dict (store_to_dict (one_key k)) = Ok (one_key k)). by rewrite store_roundtrip, sound_normal_store.
Qed.
End signing.

(** C32 A local provider signs what its public keys verify: start from a provider
    with a new key, an imported private JWK or a new key store, generate, activate
    and supersede keys in any order, with writes of the file that fail at any
    point; then signing succeeds whenever there is an active key, and the signature
    verifies under the JWK that [signing_key] reports; and a signature made by key
    identifier verifies under an active or pending key with that identifier. *)
Theorem local_signatures_verify `{KeyMaterialLaws} (p p' : LocalKeyProvider) (payload : bytes) (Hp : created p) (Hsteps : rtc local_step p p') :
  (∀ k, signing_key p' = Some k → ∃ sig, sign p' payload = Ok sig ∧ jwk_verify k payload sig = Ok true)
  ∧ (∀ kid sig, sign_key p' kid payload = Ok sig →
       ∃ k, k ∈ option_list (ks_active (lk_store p')) ++ ks_pending (lk_store p') ∧ stored_is kid k = true ∧ jwk_verify (public_jwk k) payload sig = Ok true).
Proof.
  assert (sound_provider p') as [Hs _]. { apply created_sound in Hp. induction Hsteps as [q|q r t Hstep _ IH]; [done|]. by eapply IH, local_step_sound. }
  unfold sound_store, stored_keys in Hs. rewrite !Forall_app in Hs. destruct Hs as (Ha & _ & Hq). split.
  - intros k Hk. unfold signing_key, sign in *. destruct (ks_active (lk_store p')) as [a|]; [|done]. injection Hk as <-.
    apply sound_key_signs. by inversion Ha.
  - intros kid sig Hx. unfold sign_key in Hx. destruct (List.find _ _) as [k|] eqn:Ef; [|done]. apply find_some in Ef as [Hin Hkid]. exists k.
    apply list_elem_of_In in Hin. split; [exact Hin|]. split; [exact Hkid|].
    assert (sound_key k) as Hk. { eapply Forall_forall in Hin; [exact Hin|]. by apply Forall_app. }
    destruct (sound_key_signs k payload Hk) as (sig' & Hs' & Hv). rewrite Hs' in Hx. apply Ok_inj in Hx. by subst sig'.
Qed.

(** A platform on which P-256 signatures are the point itself. *)
Definition signing_platform : Platform := {|
  idna_encode := idna_encode;
  netloc_ok := netloc_ok;
  str_lower := str_lower;
  ed25519_verify := ed25519_verify;
  ecdsa_p256_verify := λ x y r s _, (x =? r) && (y =? s);
  rsa_pkcs1_verify := rsa_pkcs1_verify;
  naive_timestamp_ms := naive_timestamp_ms
|}.
Lemma toy_public_point seed : is_bytes (toy_public seed) ∧ valid_ed25519_public_key (toy_public seed) = true.
Proof. unfold toy_public. destruct (seed ==? op1_bytes); by_decide. Qed.
Lemma toy_laws : @KeyMaterialLaws signing_platform toy_material.
Proof.
  split; cbn -[toy_public toy_sign].
  - intros _. by_decide.
  - intros seed _. apply toy_public_point.
  - intros seed payload _. apply eqb_refl.
  - intros _. by_decide.
  - intros value Hv. apply bool_decide_eq_true in Hv. lia.
  - intros value Hv. apply bool_decide_eq_true in Hv. lia.
  - intros value _ Hv. apply bool_decide_eq_true in Hv. lia.
  - intros value _ _. by rewrite Z.eqb_refl.
Qed.

Definition toy_new : LocalKeyProvider :=
  match generate [] (JStr (lit "ES256")) with Ok p => p | Raise _ => {| lk_store := {| ks_active := None; ks_retained := []; ks_pending := [] |}; lk_file := None |} end.
Definition toy_next : LocalKeyProvider := (generate_key [1%nat] Done toy_new).1.
Definition toy_active : JWK := Eval vm_compute in match signing_key toy_next with Some k => k | None => op1 end.
Lemma toy_new_created : created toy_new.
Proof. apply (created_in_memory [] (JStr (lit "ES256"))). vm_compute. reflexivity. Qed.
Lemma toy_next_reached : rtc local_step toy_new toy_next.
Proof. exact (rtc_once _ _ (local_generates toy_new [1%nat] Done)). Qed.
Lemma toy_next_active : signing_key toy_next = Some toy_active.
Proof. vm_compute. reflexivity. Qed.
Lemma local_signatures_verify_witness :
  ∃ sig, sign toy_next (lit "payload") = Ok sig ∧ @jwk_verify signing_platform toy_active (lit "payload") sig = Ok true.
Proof.
  pose proof (@local_signatures_verify signing_platform toy_material toy_laws toy_new toy_next (lit "payload") toy_new_created toy_next_reached) as [Hx _].
  exact (Hx toy_active toy_next_active).
Defined.
