(* ===== verification/Rotation.v ===== *)
(** * Managed rotation of the operational key ([dnsid/manager.py])

    A rotation crosses a registry, two key providers, a persistence hook and a
    hook that pauses application signing.  Every call outside meets a fate of its
    own, so that a run that stops anywhere, or whose calls take effect and then
    fail, is a run of the model.  The world keeps what survives: the state of the
    providers, the manager's own fields, and the trace of what was done. *)
From stdpp Require Import functions.
From S2P Require Import Prelude Sha256 Errors PyText Base64 Utils ResourceFetcher Canonical Keys EventCodec TxtRecord Identity HttpsClient Prepared Reader Manager Publication LocalKeys.

(** ** Data *)
Record SubmissionResult : Set := {
  sr_state : str; sr_entry_hash : str; sr_index : option Z; sr_log_ref : option (str * str); sr_key_id : str; sr_error_code : str
}.
Definition VALID_SUBMISSION_STATES : list str := lit <$> ["pending"; "accepted"; "rejected"]%string.
Definition accepted (s : SubmissionResult) : bool := sr_state s ==? lit "accepted".

(** [str(log_ref)] *)
Definition log_ref_str (r : option (str * str)) : str :=
  match r with Some (method, entry_ref) => method ++ [58] ++ entry_ref | None => lit "None" end.

Record KeyRotationResult : Set := {
  kr_previous_kid : json;
  kr_new_kid : json;
  kr_entry_bytes : bytes;
  kr_domain : str;
  kr_log_reference : str;
  kr_previous_thumbprint : str;
  kr_new_thumbprint : str;
  kr_previous_public_key : option JWK;
  kr_entry_hash : str;
  kr_idempotency_key : str;
  kr_submission : option SubmissionResult;
  kr_activated : bool;
  kr_application_signing_paused : bool;
  kr_previous_provider_reference : str;
  kr_new_provider_reference : str
}.

(** [replace(rotation, submission=..., activated=..., application_signing_paused=...)] *)
Definition with_progress (r : KeyRotationResult) (submission : option SubmissionResult) (activated paused : bool) : KeyRotationResult :=
  {| kr_previous_kid := kr_previous_kid r; kr_new_kid := kr_new_kid r; kr_entry_bytes := kr_entry_bytes r; kr_domain := kr_domain r;
     kr_log_reference := kr_log_reference r; kr_previous_thumbprint := kr_previous_thumbprint r; kr_new_thumbprint := kr_new_thumbprint r;
     kr_previous_public_key := kr_previous_public_key r; kr_entry_hash := kr_entry_hash r; kr_idempotency_key := kr_idempotency_key r;
     kr_submission := submission; kr_activated := activated; kr_application_signing_paused := paused;
     kr_previous_provider_reference := kr_previous_provider_reference r; kr_new_provider_reference := kr_new_provider_reference r |}.
Definition with_submission (r : KeyRotationResult) (s : SubmissionResult) : KeyRotationResult :=
  with_progress r (Some s) (kr_activated r) (kr_application_signing_paused r).
Definition submission_accepted (r : KeyRotationResult) : bool :=
  match kr_submission r with Some s => accepted s | None => false end.

(** Exceptions of a rotation; the two managed ones carry the recovery state. *)
Inductive rotation_error : Set :=
| Plain (e : exn)
| ManagedKeyRotationSubmissionError (rotation : KeyRotationResult) (state : str) (transient retry_same_bytes : bool) (cause : option exn)
| ManagedKeyRotationActivationError (rotation : KeyRotationResult) (cause : exn).

(** ** Checks *)
Definition sha256_hexdigest (data : bytes) : str := bytes_hex (sha256 data).

Definition validate_rotation_idempotency_key (value : str) : res unit :=
  let invalid := ArgumentError (lit "idempotency_key must be 1 to 200 bytes without surrounding whitespace") in
  raise_if ((value ==? []) || negb (value ==? strip is_space value)) invalid ;;
  encoded ← utf8_encode value;
  raise_if (200 <? len encoded) invalid.

Definition validate_rotation_submission (rotation : KeyRotationResult) (submission : SubmissionResult) : res unit :=
  let invalid msg := ValidationError (lit msg) in
  raise_if (negb (bool_decide (sr_state submission ∈ VALID_SUBMISSION_STATES))) (invalid "unknown rotation submission state") ;;
  raise_if match kr_submission rotation with
           | Some prior => negb (sr_entry_hash prior ==? []) && negb (sr_entry_hash submission ==? [])
                           && negb (sr_entry_hash prior ==? sr_entry_hash submission)
           | None => false
           end (invalid "registry reconciled a different rotation entry hash") ;;
  raise_if (negb (sr_entry_hash submission ==? []) && negb (sr_entry_hash submission ==? kr_entry_hash rotation))
    (invalid "submission entry hash does not match persisted bytes") ;;
  raise_if (negb (sr_key_id submission ==? []) && negb (py_eq (JStr (sr_key_id submission)) (kr_new_kid rotation)))
    (invalid "submission key_id does not match persisted new key") ;;
  if negb (accepted submission) then Ok ()
  else
    raise_if (sr_entry_hash submission ==? []) (invalid "accepted rotation submission is missing entry_hash") ;;
    raise_if (negb (py_eq (JStr (sr_key_id submission)) (kr_new_kid rotation))) (invalid "accepted rotation key_id does not match persisted new key") ;;
    raise_if match sr_index submission with
             | None => true
             | Some index => (index <? 0) || negb (log_ref_str (sr_log_ref submission) ==? kr_log_reference rotation ++ [64] ++ str_of_int index)
             end (invalid "accepted rotation has no matching final log reference").

Section rotation.
Context `{Platform, PyLib, Zlib}.

Definition rotation_context (previous : JWK) (domain : str) : C2spVerificationContext :=
  {| vc_entity_key := None; vc_previous_operational_key := Some previous; vc_operational_key := None;
     vc_fqdn := Some domain; vc_gi := None; vc_new_lr := None |}.

(** The event of the entry bytes against the saved state. *)
Definition metadata_differs (rotation : KeyRotationResult) (domain : str) (body : event_body) : res bool :=
  match body with
  | KeyRotationEvent previous_kid previous_thumbprint _ new_kid new_thumbprint new_public_key _ =>
      if negb (domain ==? kr_domain rotation) || negb (py_eq (JStr previous_kid) (kr_previous_kid rotation))
         || negb (previous_thumbprint ==? kr_previous_thumbprint rotation) || negb (py_eq new_kid (kr_new_kid rotation))
         || negb (new_thumbprint ==? kr_new_thumbprint rotation) then Ok true
      else match new_public_key with
           | None => Ok true
           | Some k => t ← thumbprint k; Ok (negb (t ==? kr_new_thumbprint rotation))
           end
  | _ => Raise (ValidationError (lit "persisted entry is not a KEY_ROTATION"))
  end.

Definition validate_persisted_rotation (identity : IdentityConfig) (rotation : KeyRotationResult) : res unit :=
  let invalid msg := ValidationError (lit msg) in
  let incomplete := ArgumentError (lit "complete persisted key-rotation state is required") in
  raise_if ((kr_domain rotation ==? []) || (kr_log_reference rotation ==? []) || falsy (kr_previous_kid rotation)
            || (kr_previous_thumbprint rotation ==? []) || falsy (kr_new_kid rotation) || (kr_new_thumbprint rotation ==? [])) incomplete ;;
  match kr_previous_public_key rotation with
  | None => Raise incomplete
  | Some previous_public_key =>
      raise_if ((kr_entry_bytes rotation ==? []) || (kr_entry_hash rotation ==? [])) incomplete ;;
      validate_rotation_idempotency_key (kr_idempotency_key rotation) ;;
      raise_if (negb (kr_domain rotation ==? ic_domain identity)) (invalid "persisted rotation belongs to a different domain") ;;
      raise_if (negb (kr_log_reference rotation ==? ic_log_ref identity)) (invalid "persisted rotation belongs to a different log reference") ;;
      raise_if (negb (kr_entry_hash rotation ==? sha256_hexdigest (kr_entry_bytes rotation))) (invalid "persisted entry hash does not match entry bytes") ;;
      t ← thumbprint previous_public_key;
      raise_if (negb (t ==? kr_previous_thumbprint rotation)) (invalid "persisted previous key does not match its thumbprint") ;;
      parse_prepared_event (kr_entry_bytes rotation) (kr_log_reference rotation) (rotation_context previous_public_key (kr_domain rotation)) ;;
      event ← parse_c2sp_event_entry (kr_entry_bytes rotation) empty_context false;
      differs ← metadata_differs rotation (ev_domain event) (ev_body event);
      raise_if differs (invalid "persisted rotation metadata does not match entry bytes") ;;
      match kr_submission rotation with None => Ok () | Some submission => validate_rotation_submission rotation submission end
  end.

(** ** The world *)
Inductive effect : Set :=
| Generates (provider : nat)
| Persisted (rotation : KeyRotationResult)
| SigningPaused (paused : bool)
| Submits (domain : str) (entry : bytes) (idempotency_key : str)
| Activates (provider : nat) (kid : json)
| Supersedes (provider : nat) (kid : json).

Record world {P C : Type} : Type := {
  w_providers : nat → P;
  w_key_provider : nat;
  w_identity : IdentityConfig;
  w_cache : C;
  w_trace : list effect
}.
Arguments world : clear implicits.

Record rotation_env : Type := {
  re_verification : environment;
  re_config : VerificationConfig;
  re_rounds : nat;
  re_closed : bool;
  re_fate : list nat → fate;
  re_prepare_key_rotation : list nat → str → str → JWK → str → res bytes;
  re_submit_prepared_event : list nat → str → bytes → str → res SubmissionResult;
  (** the index and data of the current stream's events; [None] for a reader
      that is not a [C2spTlogReader] *)
  re_complete_history : log_binding → option (list nat → str → res (list (Z * bytes)))
}.
End rotation.
Arguments world : clear implicits.

(** ** Operations on the world *)
Definition RM (W E A : Type) : Type := W → W * result E A.
#[global] Instance RM_ret W E : MRet (RM W E) := λ A a w, (w, Ok a).
#[global] Instance RM_bind W E : MBind (RM W E) := λ A B k m w,
  match m w with
  | (w', Ok a) => k a w'
  | (w', Raise e) => (w', Raise e)
  end.
Definition lift {W E A} (r : result E A) : RM W E A := λ w, (w, r).
(** [except Exception as exc: raise wrap(exc)] *)
Definition wrapped {W E E' A} (wrap : E → E') (m : RM W E A) : RM W E' A := λ w,
  let '(w', r) := m w in (w', match r with Ok a => Ok a | Raise e => Raise (wrap e) end).

Section operations.
Context `{Platform, PyLib, Zlib} {P C : Type} `{KeyProviderOps P, IdentityCache C Verified} (env : rotation_env).

#[local] Abbreviation W := (world P C) (only parsing).
#[local] Abbreviation PM := (RM W exn) (only parsing).
#[local] Abbreviation M := (RM W rotation_error) (only parsing).

Definition emit (e : effect) (w : W) : W :=
  {| w_providers := w_providers w; w_key_provider := w_key_provider w; w_identity := w_identity w; w_cache := w_cache w; w_trace := e :: w_trace w |}.
Definition set_provider (i : nat) (p : P) (w : W) : W :=
  {| w_providers := <[i := p]> (w_providers w); w_key_provider := w_key_provider w; w_identity := w_identity w; w_cache := w_cache w; w_trace := w_trace w |}.

(** A hook: what it does happens or not, whether or not it returns. *)
Definition hook (path : list nat) (e : effect) : PM unit := λ w,
  match re_fate env path with
  | Done => (emit e w, Ok ())
  | Lost x => (w, Raise x)
  | Unconfirmed x => (emit e w, Raise x)
  end.
Definition persist_rotation (path : list nat) (r : KeyRotationResult) : PM unit := hook path (Persisted r).
Definition set_application_signing_paused (path : list nat) (paused : bool) : PM unit := hook path (SigningPaused paused).

(** Reading a provider, which may fail. *)
Definition ask {A} (path : list nat) (i : nat) (f : P → res A) : PM A := λ w,
  match re_fate env path with
  | Done => (w, f (w_providers w i))
  | Lost x | Unconfirmed x => (w, Raise x)
  end.
Definition require_signing_key (path : list nat) (i : nat) : PM JWK :=
  active ← ask path i kp_signing_key;
  lift match active with Some k => Ok k | None => Raise no_active_key end.

Definition change_provider {A} (i : nat) (e : effect) (f : P → P * res A) : PM A := λ w,
  let '(p, r) := f (w_providers w i) in (set_provider i p (emit e w), r).
Definition generate_target_key (path : list nat) (i : nat) : PM json :=
  change_provider i (Generates i) (kp_generate_key path (re_fate env path)).
Definition activate_key (path : list nat) (i : nat) (kid : json) : PM unit :=
  change_provider i (Activates i kid) (kp_activate (re_fate env path) kid).
Definition supersede_key (path : list nat) (i : nat) (kid : json) (allow_active : bool) : PM unit :=
  change_provider i (Supersedes i kid) (kp_supersede (re_fate env path) kid allow_active).

(** [k.kid == kid and k.thumbprint() == thumb] *)
Definition key_is (kid : json) (thumb : str) (k : JWK) : res bool :=
  if negb (py_eq (jwk_kid k) kid) then Ok false else t ← thumbprint k; Ok (t ==? thumb).
Definition invalid (msg : string) : exn := ValidationError (lit msg).
Definition require_key (kid : json) (thumb : str) (k : JWK) (msg : string) : res unit :=
  same ← key_is kid thumb k; raise_if (negb same) (invalid msg).

Definition validate_rotation_keys (path : list nat) (rotation : KeyRotationResult) (previous target : nat) : PM bool :=
  new_key ← ask (0 :: path)%nat target (λ p, kp_public p (kr_new_kid rotation));
  lift (require_key (kr_new_kid rotation) (kr_new_thumbprint rotation) new_key "target key does not match persisted rotation") ;;
  active_target ← ask (1 :: path)%nat target kp_signing_key;
  target_is_active ← lift match active_target with None => Ok false | Some k => key_is (kr_new_kid rotation) (kr_new_thumbprint rotation) k end;
  let was_accepted := submission_accepted rotation in
  lift (raise_if (kr_activated rotation && (negb was_accepted || negb target_is_active))
          (invalid "activated rotation requires acceptance and the saved active target key")) ;;
  ids ← ask (2 :: path)%nat previous (λ p, Ok (kp_list_key_ids p));
  if existsb (py_eq (kr_previous_kid rotation)) ids then
    old_key ← ask (3 :: path)%nat previous (λ p, kp_public p (kr_previous_kid rotation));
    lift (require_key (kr_previous_kid rotation) (kr_previous_thumbprint rotation) old_key "previous provider key changed") ;;
    active_source ← require_signing_key (4 :: path)%nat previous;
    if (previous =? target)%nat && was_accepted && target_is_active then mret target_is_active
    else
      lift (require_key (kr_previous_kid rotation) (kr_previous_thumbprint rotation) active_source
              "active source key does not match persisted previous key") ;;
      mret target_is_active
  else
    lift (raise_if (negb was_accepted || negb target_is_active) (invalid "absent previous key requires saved acceptance and active target")) ;;
    (if (previous =? target)%nat then mret ()
     else active ← ask (5 :: path)%nat previous kp_signing_key;
          lift (raise_if (bool_decide (is_Some active)) (invalid "superseded source provider still has an active key"))) ;;
    mret target_is_active.

(** The manager verifies its own publication, with its cache. *)
Definition verify_publication (path : list nat) : PM Verified := λ w,
  let '(c, r) := Manager.verify_local_publication (re_verification env) (re_config env) (re_rounds env) path (re_closed env)
                   (Some (ic_domain (w_identity w))) (w_cache w) in
  ({| w_providers := w_providers w; w_key_provider := w_key_provider w; w_identity := w_identity w; w_cache := c; w_trace := w_trace w |}, r).
Definition get_identity : PM IdentityConfig := λ w, (w, Ok (w_identity w)).

Definition rotation_publication (path : list nat) (rotation : KeyRotationResult) : PM str :=
  observed ← verify_publication (0 :: path)%nat;
  key ← lift (current_operational_signing_key (rec_v (vd_record observed)) (vd_jwks observed));
  identity ← get_identity;
  same ← lift (if negb (rec_gi (vd_record observed) ==? ic_governance_id identity) || negb (rec_lr (vd_record observed) ==? kr_log_reference rotation)
               then Ok false else key_is (kr_new_kid rotation) (kr_new_thumbprint rotation) key);
  lift (raise_if (negb same) (invalid "published identity does not bind the accepted rotation")) ;;
  match re_complete_history env (vd_log_reader observed) with
  | None => lift (Raise (invalid "managed rotation requires a c2sp-tlog reader"))
  | Some load =>
      match kr_submission rotation with
      | None => lift (Raise (invalid "accepted rotation requires a submission"))
      | Some submission =>
          events ← lift (load (1 :: path)%nat (kr_domain rotation));
          lift (raise_if (negb (existsb (λ e, bool_decide (Some e.1 = sr_index submission) && (e.2 ==? kr_entry_bytes rotation)) events))
                  (invalid "accepted rotation does not match verified lifecycle entry")) ;;
          mret (rec_ku (vd_record observed))
      end
  end.

Definition retire_previous_key (path : list nat) (rotation : KeyRotationResult) (previous target : nat) : PM unit :=
  ids ← ask (0 :: path)%nat previous (λ p, Ok (kp_list_key_ids p));
  if existsb (py_eq (kr_previous_kid rotation)) ids then
    old_key ← ask (1 :: path)%nat previous (λ p, kp_public p (kr_previous_kid rotation));
    t ← lift (thumbprint old_key);
    lift (raise_if (negb (t ==? kr_previous_thumbprint rotation)) (invalid "previous provider key changed")) ;;
    supersede_key (2 :: path)%nat previous (kr_previous_kid rotation) (negb (previous =? target)%nat)
  else mret ().

Definition reconcile_rotation_keys (path : list nat) (rotation : KeyRotationResult) (previous target : nat) : PM unit :=
  is_active ← validate_rotation_keys (0 :: path)%nat rotation previous target;
  (if is_active : bool then mret () else activate_key (1 :: path)%nat target (kr_new_kid rotation)) ;;
  retire_previous_key (2 :: path)%nat rotation previous target.

(** The manager switches to the target provider. *)
Definition use_provider (target : nat) (ku_url : option str) : M unit := λ w,
  let identity := match ku_url with None => w_identity w | Some ku =>
    {| ic_domain := ic_domain (w_identity w); ic_governance_id := ic_governance_id (w_identity w); ic_log_ref := ic_log_ref (w_identity w);
       ic_status_url := ic_status_url (w_identity w); ic_policy_flags := ic_policy_flags (w_identity w); ic_max_key_age := ic_max_key_age (w_identity w);
       ic_ek_url := ic_ek_url (w_identity w); ic_ku_url := ku; ic_capabilities_url := ic_capabilities_url (w_identity w);
       ic_publish_profile := ic_publish_profile (w_identity w) |} end in
  ({| w_providers := w_providers w; w_key_provider := target; w_identity := identity; w_cache := w_cache w; w_trace := w_trace w |}, Ok ()).

Definition finish_accepted_rotation (path : list nat) (rotation : KeyRotationResult) (previous target : nat) : M KeyRotationResult :=
  ku_url ← wrapped (ManagedKeyRotationActivationError rotation)
    (ku_url ← rotation_publication (0 :: path)%nat rotation;
     reconcile_rotation_keys (1 :: path)%nat rotation previous target ;;
     mret ku_url);
  let activated := with_progress rotation (kr_submission rotation) true true in
  wrapped (ManagedKeyRotationActivationError rotation) (persist_rotation (2 :: path)%nat activated) ;;
  use_provider target (Some ku_url) ;;
  wrapped (ManagedKeyRotationActivationError activated) (set_application_signing_paused (3 :: path)%nat false) ;;
  let completed := with_progress activated (kr_submission activated) true false in
  wrapped (ManagedKeyRotationActivationError activated) (persist_rotation (4 :: path)%nat completed) ;;
  mret completed.

(** [isinstance(exc, (ArgumentError, ValidationError))], or a verification error
    that is not transient. *)
Definition is_terminal (e : exn) : bool :=
  match e with
  | ArgumentError _ | ValidationError _ | LifecycleVerificationError _ _ _ => true
  | VerificationError _ _ transient _ => negb transient
  | _ => false
  end.

Definition request_submission (path : list nat) (rotation : KeyRotationResult) : M (res SubmissionResult) := λ w,
  (emit (Submits (kr_domain rotation) (kr_entry_bytes rotation) (kr_idempotency_key rotation)) w,
   Ok (re_submit_prepared_event env path (kr_domain rotation) (kr_entry_bytes rotation) (kr_idempotency_key rotation))).

(** Persisting the indeterminate state; a failure only changes the cause. *)
Definition persist_indeterminate (path : list nat) (candidate : KeyRotationResult) (cause : exn) : M rotation_error := λ w,
  let '(w', r) := persist_rotation path candidate w in
  (w', Ok (ManagedKeyRotationSubmissionError candidate (lit "pending") true true
             (Some match r with Ok _ => cause | Raise _ => RuntimeError (lit "persistence also failed") end))).

Definition submit_rotation (path : list nat) (rotation : KeyRotationResult) (previous target : nat) : M KeyRotationResult :=
  response ← request_submission (0 :: path)%nat rotation;
  match response with
  | Raise e =>
      if is_terminal e then lift (Raise (ManagedKeyRotationSubmissionError rotation (lit "rejected") false false (Some e)))
      else
        let pending := {| sr_state := lit "pending"; sr_entry_hash := kr_entry_hash rotation; sr_index := None; sr_log_ref := None;
                          sr_key_id := []; sr_error_code := lit "TLOG_SUBMISSION_INDETERMINATE" |} in
        error ← persist_indeterminate (1 :: path)%nat (with_submission rotation pending) e;
        lift (Raise error)
  | Ok submission =>
      wrapped (λ e, ManagedKeyRotationSubmissionError rotation (lit "rejected") false false (Some e))
        (lift (validate_rotation_submission rotation submission)) ;;
      let candidate := with_submission rotation submission in
      wrapped (λ e, ManagedKeyRotationSubmissionError candidate (sr_state submission) true (negb (sr_state submission ==? lit "rejected")) (Some e))
        (persist_rotation (2 :: path)%nat candidate) ;;
      if sr_state submission ==? lit "rejected"
      then lift (Raise (ManagedKeyRotationSubmissionError candidate (lit "rejected") false false None))
      else if negb (accepted submission) then mret candidate
      else finish_accepted_rotation (3 :: path)%nat candidate previous target
  end.

(** ** Starting a rotation *)
Record rotation_request : Set := {
  rq_idempotency_key : str;
  rq_target : option nat;
  rq_previous_reference : str;
  rq_target_reference : str;
  rq_target_algorithm : option str
}.

Definition signing_view (path : list nat) (i : nat) (w : W) : Prepared.KeyProvider :=
  let guarded {A} (r : res A) := match re_fate env path with Done => r | Lost x | Unconfirmed x => Raise x end in
  {| kp_jwk := λ kid, guarded (kp_public (w_providers w i) kid); kp_sign_key := λ kid data, guarded (kp_sign_with (w_providers w i) kid data) |}.
Definition sign_prepared (path : list nat) (i : nat) (prepared : PreparedC2spTlogEvent) (role : C2spSignerRole) (context : C2spVerificationContext)
    : PM PreparedC2spTlogEvent := λ w, (w, sign_prepared_event prepared role (signing_view path i w) context false).

(** Everything up to the complete signed entry. *)
Definition prepare_rotation (path : list nat) (rq : rotation_request) (key_provider target : nat) (identity : IdentityConfig) : PM KeyRotationResult :=
  previous_key ← require_signing_key (0 :: path)%nat key_provider;
  lift (raise_if (falsy (jwk_kid previous_key)) (ArgumentError (lit "active operational key missing kid"))) ;;
  (if negb (target =? key_provider)%nat then
     lift (raise_if ((rq_previous_reference rq ==? []) || (rq_target_reference rq ==? []) || (rq_previous_reference rq ==? rq_target_reference rq))
             (ArgumentError (lit "cross-provider rotation requires both stable provider references"))) ;;
     allowed ← ask (1 :: path)%nat key_provider (λ p, Ok (kp_allows_active p));
     lift (raise_if (negb allowed) (ArgumentError (lit "previous provider cannot retire its active key")))
   else lift (raise_if (negb (rq_previous_reference rq ==? rq_target_reference rq))
                (ArgumentError (lit "same-provider rotation requires matching provider references")))) ;;
  selected ← lift match rq_target_algorithm rq with None => signature_alg previous_key | Some a => Ok a end;
  generation ← ask (2 :: path)%nat target kp_generation_algorithm;
  lift (raise_if (negb (generation ==? selected)) (ArgumentError (lit "target provider is not configured for the selected algorithm"))) ;;
  new_kid ← generate_target_key (3 :: path)%nat target;
  new_key ← ask (4 :: path)%nat target (λ p, kp_public p new_kid);
  alg ← lift (signature_alg new_key);
  lift (raise_if (negb (alg ==? selected)) (invalid "generated key does not use the selected algorithm")) ;;
  previous_thumbprint ← lift (thumbprint previous_key);
  new_thumbprint ← lift (thumbprint new_key);
  lift (raise_if (previous_thumbprint ==? new_thumbprint) (invalid "managed KEY_ROTATION requires a distinct pending key")) ;;
  response ← lift (re_prepare_key_rotation env (5 :: path)%nat (ic_domain identity) previous_thumbprint new_key (rq_idempotency_key rq));
  let context := rotation_context previous_key (ic_domain identity) in
  prepared ← lift (parse_prepared_event response (ic_log_ref identity) context);
  lift (raise_if (negb (is_str "KEY_ROTATION" (Keys.get "type" JNull (pe_envelope prepared))))
          (invalid "registry preparation returned a non-KEY_ROTATION envelope")) ;;
  prepared ← sign_prepared (6 :: path)%nat key_provider prepared Prepared.PREVIOUS_OPERATIONAL context;
  prepared ← sign_prepared (7 :: path)%nat target prepared Prepared.NEW_OPERATIONAL context;
  final_bytes ← lift (entry_bytes prepared context);
  mret {| kr_previous_kid := jwk_kid previous_key; kr_new_kid := new_kid; kr_entry_bytes := final_bytes; kr_domain := ic_domain identity;
          kr_log_reference := ic_log_ref identity; kr_previous_thumbprint := previous_thumbprint; kr_new_thumbprint := new_thumbprint;
          kr_previous_public_key := Some previous_key; kr_entry_hash := sha256_hexdigest final_bytes;
          kr_idempotency_key := rq_idempotency_key rq; kr_submission := None; kr_activated := false; kr_application_signing_paused := true;
          kr_previous_provider_reference := rq_previous_reference rq; kr_new_provider_reference := rq_target_reference rq |}.

Definition get_key_provider : PM nat := λ w, (w, Ok (w_key_provider w)).

(** For a manager with a local identity; the hooks are callable. *)
Definition rotate_operational_key (path : list nat) (rq : rotation_request) : M KeyRotationResult :=
  identity ← wrapped Plain get_identity;
  wrapped Plain (lift (validate_rotation_idempotency_key (rq_idempotency_key rq))) ;;
  key_provider ← wrapped Plain get_key_provider;
  let target := default key_provider (rq_target rq) in
  result ← wrapped Plain (prepare_rotation (0 :: path)%nat rq key_provider target identity);
  let prepared e := ManagedKeyRotationSubmissionError result (lit "prepared") true true (Some e) in
  wrapped prepared (persist_rotation (1 :: path)%nat result) ;;
  wrapped prepared (set_application_signing_paused (2 :: path)%nat true) ;;
  submit_rotation (3 :: path)%nat result key_provider target.

(** ** Resuming one *)
Definition rotation_target (path : list nat) (rotation : KeyRotationResult) (previous target : option nat) (previous_reference target_reference : str)
    : M (nat * nat) :=
  let same_reference := previous_reference ==? target_reference in
  wrapped Plain (lift (raise_if (negb ((previous_reference ==? kr_previous_provider_reference rotation)
    && (target_reference ==? kr_new_provider_reference rotation))) (invalid "rotation provider references changed"))) ;;
  wrapped Plain (lift (raise_if (negb same_reference && bool_decide (target = None))
    (ArgumentError (lit "reopen the target provider from its saved reference")))) ;;
  current ← wrapped Plain get_key_provider;
  let previous := default current previous in
  let target := default previous target in
  wrapped Plain (lift (raise_if (negb same_reference && (target =? previous)%nat)
    (ArgumentError (lit "reopen both saved providers before cross-provider reconciliation")))) ;;
  wrapped Plain (lift (raise_if (same_reference && negb (target =? previous)%nat)
    (ArgumentError (lit "same-provider recovery requires one reopened saved provider")))) ;;
  wrapped (ManagedKeyRotationActivationError rotation) (validate_rotation_keys path rotation previous target) ;;
  mret (previous, target).

(** An activated rotation: the signer is restored, then signing resumes. *)
Definition resume_activated (path : list nat) (rotation : KeyRotationResult) (target : nat) : M KeyRotationResult :=
  wrapped (ManagedKeyRotationActivationError rotation)
    (active ← require_signing_key (0 :: path)%nat target;
     lift (require_key (kr_new_kid rotation) (kr_new_thumbprint rotation) active "active target key does not match persisted rotation")) ;;
  use_provider target None ;;
  if negb (kr_application_signing_paused rotation) then mret rotation
  else
    wrapped (ManagedKeyRotationActivationError rotation) (set_application_signing_paused (1 :: path)%nat false) ;;
    let completed := with_progress rotation (kr_submission rotation) (kr_activated rotation) false in
    wrapped (ManagedKeyRotationActivationError rotation) (persist_rotation (2 :: path)%nat completed) ;;
    mret completed.

Definition resume_key_rotation (path : list nat) (rotation : KeyRotationResult) (previous target : option nat)
    (previous_reference target_reference : str) : M KeyRotationResult :=
  identity ← wrapped Plain get_identity;
  wrapped Plain (lift (validate_persisted_rotation identity rotation)) ;;
  '(previous, target) ← rotation_target (0 :: path)%nat rotation previous target previous_reference target_reference;
  if kr_activated rotation then resume_activated (1 :: path)%nat rotation target
  else
    lift (raise_if match kr_submission rotation with Some s => sr_state s ==? lit "rejected" | None => false end
            (ManagedKeyRotationSubmissionError rotation (lit "rejected") false false None)) ;;
    let state := match kr_submission rotation with Some s => sr_state s | None => lit "prepared" end in
    wrapped (λ e, ManagedKeyRotationSubmissionError rotation state true true (Some e))
      (persist_rotation (2 :: path)%nat rotation ;; set_application_signing_paused (3 :: path)%nat true) ;;
    if submission_accepted rotation then finish_accepted_rotation (4 :: path)%nat rotation previous target
    else submit_rotation (5 :: path)%nat rotation previous target.
End operations.
