(* ===== verification/RotationSpec.v ===== *)
(** * What a managed rotation guarantees

    The order of what a rotation does, whatever fails: nothing is submitted that
    is not saved, keys change only after a saved acceptance, signing resumes only
    after a saved activation.  And recovery: after any number of failed attempts,
    one undisturbed attempt completes the rotation. *)
From stdpp Require Import functions.
From S2P Require Import Prelude Sha256 Errors Concurrency PyText Base64 Utils SignedNote Lr ResourceFetcher PyFloat PyTime Canonical Keys EventCodec LifecycleDemo DomainLog TxtRecord Identity HttpsClient Prepared Reader Manager ManagerSpec Publication PublicationSpec ManagerDemo LocalKeys Rotation.

(** ** What a trace says, newest first *)
Fixpoint paused (t : list effect) : bool :=
  match t with
  | [] => false
  | SigningPaused b :: _ => b
  | _ :: t => paused t
  end.
Fixpoint durable (t : list effect) : option KeyRotationResult :=
  match t with
  | [] => None
  | Persisted r :: _ => Some r
  | _ :: t => durable t
  end.

(** What never changes in a rotation. *)
Definition core (r : KeyRotationResult) : KeyRotationResult := with_progress r None false false.

(** [r'] is [r], further on. *)
Definition advances (r r' : KeyRotationResult) : Prop :=
  core r = core r' ∧ (submission_accepted r = true → kr_submission r' = kr_submission r)
  ∧ (kr_activated r = true → kr_activated r' = true) ∧ (kr_activated r' = true → submission_accepted r' = true).

Definition starts (r : KeyRotationResult) : Prop :=
  kr_submission r = None ∧ kr_activated r = false ∧ kr_application_signing_paused r = true ∧ kr_entry_hash r = sha256_hexdigest (kr_entry_bytes r).

(** When each effect may come. *)
Definition allowed (e : effect) (t : list effect) : Prop :=
  match e with
  | Generates _ => True
  | Persisted r => starts r ∨ ∃ r0, durable t = Some r0 ∧ advances r0 r
  | SigningPaused true => ∃ r, durable t = Some r ∧ kr_activated r = false
  | SigningPaused false => ∃ r, durable t = Some r ∧ kr_activated r = true ∧ submission_accepted r = true
  | Submits domain entry key => paused t = true ∧ ∃ r, durable t = Some r ∧ kr_domain r = domain ∧ kr_entry_bytes r = entry
      ∧ kr_idempotency_key r = key ∧ kr_activated r = false ∧ submission_accepted r = false
  | Activates _ kid => paused t = true ∧ ∃ r, durable t = Some r ∧ kr_activated r = false ∧ submission_accepted r = true ∧ kid = kr_new_kid r
  | Supersedes _ kid => paused t = true ∧ ∃ r, durable t = Some r ∧ kr_activated r = false ∧ submission_accepted r = true ∧ kid = kr_previous_kid r
  end.
Fixpoint disciplined (t : list effect) : Prop :=
  match t with [] => True | e :: t => allowed e t ∧ disciplined t end.

Lemma durable_emits t r : durable (Persisted r :: t) = Some r.
Proof. done. Qed.
Lemma advances_refl r : (kr_activated r = true → submission_accepted r = true) → advances r r.
Proof. by intros. Qed.

(** ** Triples on traces *)
Section discipline.
Context `{Platform, PyLib, Zlib} {P C : Type} `{KeyProviderOps P, IdentityCache C Verified}.

Definition keeps {E A} (m : RM (world P C) E A) (Pre : list effect → Prop) (Q : A → list effect → Prop) : Prop :=
  ∀ w w' r, disciplined (w_trace w) → Pre (w_trace w) → m w = (w', r) →
    disciplined (w_trace w') ∧ ∀ a, r = Ok a → Q a (w_trace w').

Definition silent {E A} (m : RM (world P C) E A) : Prop := ∀ w, w_trace (m w).1 = w_trace w.

Lemma keeps_bind {E A B} (m : RM (world P C) E A) (k : A → RM (world P C) E B) Pre Q R :
  keeps m Pre Q → (∀ a, keeps (k a) (Q a) R) → keeps (m ≫= k) Pre R.
Proof.
  intros Hm Hk w w' r Hd Hp. unfold mbind, RM_bind. destruct (m w) as [w1 [a|e]] eqn:E'; intros Hx.
  - apply Hm in E' as [Hd1 HQ]; [|done..]. by eapply Hk; [| |exact Hx]; [|apply HQ].
  - apply Hm in E' as [Hd1 _]; [|done..]. injection Hx as <- <-. done.
Qed.
Lemma keeps_silent {E A} (m : RM (world P C) E A) (Pre : list effect → Prop) : silent m → keeps m Pre (λ _, Pre).
Proof. intros Hm w w' r Hd Hp Hx. specialize (Hm w). rewrite Hx in Hm. cbn in Hm. by rewrite Hm. Qed.
Lemma keeps_lift {E A} (r : result E A) (Pre : list effect → Prop) (Q : A → list effect → Prop) :
  (∀ a t, r = Ok a → Pre t → Q a t) → keeps (lift r) Pre Q.
Proof. intros HQ w w' r' Hd Hp [= <- <-]. split; [done|]. intros a Ha. by apply HQ. Qed.
Lemma keeps_ret {E A} (a : A) (Pre : list effect → Prop) (Q : A → list effect → Prop) :
  (∀ t, Pre t → Q a t) → keeps (E := E) (mret a) Pre Q.
Proof. intros HQ w w' r' Hd Hp [= <- <-]. split; [done|]. intros ? [= <-]. by apply HQ. Qed.
Lemma keeps_wrapped {E E' A} (f : E → E') (m : RM (world P C) E A) Pre Q : keeps m Pre Q → keeps (wrapped f m) Pre Q.
Proof.
  intros Hm w w' r Hd Hp. unfold wrapped. destruct (m w) as [w1 r1] eqn:E1. intros [= <- <-]. apply Hm in E1 as [? HQ]; [|done..].
  split; [done|]. intros a. destruct r1; [|done]. intros [= ->]. by apply HQ.
Qed.
Lemma keeps_weaken {E A} (m : RM (world P C) E A) (Pre Pre' : list effect → Prop) (Q Q' : A → list effect → Prop) :
  keeps m Pre Q → (∀ t, Pre' t → Pre t) → (∀ a t, Q a t → Q' a t) → keeps m Pre' Q'.
Proof. intros Hm HP HQ w w' r Hd Hp Hx. destruct (Hm _ _ _ Hd (HP _ Hp) Hx). naive_solver. Qed.

Lemma silent_bind {E A B} (m : RM (world P C) E A) (k : A → RM (world P C) E B) : silent m → (∀ a, silent (k a)) → silent (m ≫= k).
Proof. intros Hm Hk w. unfold mbind, RM_bind. specialize (Hm w). destruct (m w) as [w1 [a|e]]; cbn in *; [|done]. by rewrite Hk. Qed.
Lemma silent_lift {E A} (r : result E A) : silent (lift r).
Proof. done. Qed.
Lemma silent_ret {E A} (a : A) : silent (E := E) (mret a).
Proof. done. Qed.

Context (env : rotation_env).

Lemma silent_ask {A} path i (f : P → res A) : silent (ask env path i f).
Proof. intros w. unfold ask. by destruct (re_fate env path). Qed.
Lemma silent_require path i : silent (require_signing_key env path i).
Proof. apply silent_bind; [apply silent_ask|]. intros. apply silent_lift. Qed.

Ltac solve_silent := repeat first [apply silent_ask | apply silent_require | apply silent_lift | apply silent_ret | apply silent_bind; [|intros ?]
  | match goal with |- silent (if ?b then _ else _) => destruct b | |- silent (match ?o with Some _ => _ | None => _ end) => destruct o end].

Lemma silent_validate path rot i j : silent (validate_rotation_keys env path rot i j).
Proof. unfold validate_rotation_keys. solve_silent. Qed.
Lemma silent_verify_publication path : silent (verify_publication env path).
Proof. intros w. unfold verify_publication. by destruct (Manager.verify_local_publication _ _ _ _ _ _ _). Qed.
Lemma silent_publication path rot : silent (rotation_publication env path rot).
Proof. unfold rotation_publication. apply silent_bind; [apply silent_verify_publication|]. intros. solve_silent. by intros w. Qed.

(** A hook: its effect has to be allowed, and is there when the hook returns. *)
Lemma keeps_hook path e (Pre : list effect → Prop) : (∀ t, Pre t → allowed e t) →
  keeps (hook env path e) Pre (λ _ t, ∃ t', t = e :: t' ∧ Pre t').
Proof. intros Ha w w' r Hd Hp. unfold hook. destruct (re_fate env path); intros [= <- <-]; cbn; naive_solver. Qed.
Lemma keeps_change {A} i e (f : P → P * res A) (Pre : list effect → Prop) : (∀ t, Pre t → allowed e t) →
  keeps (change_provider i e f) Pre (λ _ t, ∃ t', t = e :: t' ∧ Pre t').
Proof. intros Ha w w' r Hd Hp. unfold change_provider. destruct (f _) as [p r']. intros [= <- <-]. cbn. naive_solver. Qed.

Definition holding (r : KeyRotationResult) (t : list effect) : Prop := durable t = Some r ∧ paused t = true.

Ltac silently := eapply keeps_bind; [apply keeps_silent; solve_silent|intros ?].

Lemma keeps_validate path rot i j (Pre : list effect → Prop) :
  keeps (validate_rotation_keys env path rot i j) Pre (λ _ t, Pre t ∧ (kr_activated rot = true → submission_accepted rot = true)).
Proof.
  unfold validate_rotation_keys. do 4 silently. eapply keeps_bind.
  - apply keeps_lift with (Q := λ _ t, Pre t ∧ (kr_activated rot = true → submission_accepted rot = true)). intros [] t Hx Hp. split; [done|].
    intros Ha. apply raise_if_Ok in Hx. rewrite Ha in Hx. by destruct (submission_accepted rot).
  - intros []. apply (keeps_silent _ (λ t, Pre t ∧ (kr_activated rot = true → submission_accepted rot = true))). solve_silent.
Qed.

Lemma keeps_reconcile path rot i j : submission_accepted rot = true → kr_activated rot = false →
  keeps (reconcile_rotation_keys env path rot i j) (holding rot) (λ _, holding rot).
Proof.
  intros Hacc Hact. unfold reconcile_rotation_keys. eapply keeps_bind; [apply keeps_silent, silent_validate|]. intros b.
  apply keeps_bind with (Q := λ _, holding rot).
  - destruct b; [by apply keeps_ret|]. eapply keeps_weaken; [apply keeps_change with (Pre := holding rot)|done|].
    + intros t [Hd Hp]. split; [done|]. eauto.
    + by intros [] t (t' & -> & Hh).
  - intros []. unfold retire_previous_key. silently. destruct (existsb _ _); [|by apply keeps_ret]. do 3 silently.
    eapply keeps_weaken; [apply keeps_change with (Pre := holding rot)|done|].
    + intros t [Hd Hp]. split; [done|]. eauto.
    + by intros [] t (t' & -> & Hh).
Qed.

Lemma keeps_persist path rot rot' : advances rot rot' → keeps (persist_rotation env path rot') (holding rot) (λ _, holding rot').
Proof.
  intros Ha. eapply keeps_weaken; [apply keeps_hook with (Pre := holding rot)|done|].
  - intros t [Hd _]. right. eauto.
  - intros [] t (t' & -> & [_ Hp]). by split.
Qed.

(** What a returned state is: saved. *)
Definition saved (r : KeyRotationResult) (t : list effect) : Prop := durable t = Some r.

Lemma keeps_finish path rot i j : submission_accepted rot = true → kr_activated rot = false →
  keeps (finish_accepted_rotation env path rot i j) (holding rot) saved.
Proof.
  intros Hacc Hact. unfold finish_accepted_rotation. set (activated := with_progress rot (kr_submission rot) true true).
  apply keeps_bind with (Q := λ _, holding rot).
  { apply keeps_wrapped. eapply keeps_bind; [apply keeps_silent, silent_publication|]. intros ku.
    eapply keeps_bind; [by apply keeps_reconcile|]. intros []. by apply keeps_ret. }
  intros ku. eapply keeps_bind; [apply keeps_wrapped, (keeps_persist _ rot activated)|].
  { split_and!; [done|done|done|]. intros _. exact Hacc. }
  intros []. eapply keeps_bind; [by apply keeps_silent|]. intros [].
  eapply keeps_bind with (Q := λ _ t, durable t = Some activated).
  { apply keeps_wrapped. eapply keeps_weaken; [apply keeps_hook with (Pre := holding activated)|done|by intros [] t (t' & -> & [Hd _])].
    intros t [Hd _]. exists activated. done. }
  intros []. apply keeps_bind with (Q := λ _ t, durable t = Some (with_progress activated (kr_submission activated) true false)).
  { apply keeps_wrapped. eapply keeps_weaken; [apply keeps_hook with (Pre := λ t, durable t = Some activated)|done|by intros [] t (t' & -> & _)].
    intros t Hd. right. exists activated. by split_and!. }
  intros []. by apply keeps_ret.
Qed.

Lemma keeps_submit path rot i j : submission_accepted rot = false → kr_activated rot = false →
  keeps (submit_rotation env path rot i j) (holding rot) saved.
Proof.
  intros Hacc Hact. unfold submit_rotation. apply keeps_bind with (Q := λ _, holding rot).
  { intros w w' r Hd [Hdur Hp] [= <- <-]. cbn. split; [|done]. split; [|done]. split; [done|]. eauto 10. }
  intros [submission|e].
  - eapply keeps_bind with (Q := λ _, holding rot); [by apply keeps_wrapped, keeps_lift|]. intros [].
    assert (advances rot (with_submission rot submission)) as Hadv.
    { split_and!; [done|by rewrite Hacc|done|]. cbn. by rewrite Hact. }
    eapply keeps_bind; [by apply keeps_wrapped, keeps_persist|]. intros [].
    destruct (sr_state submission ==? lit "rejected"); [by apply keeps_lift|].
    destruct (accepted submission) eqn:Ea; cbn [negb]; [|apply keeps_ret; by intros t [Hd _]].
    by apply keeps_finish.
  - destruct (is_terminal e); [by apply keeps_lift|]. eapply keeps_bind with (Q := λ _ _, True); [|intros; by apply keeps_lift].
    intros w w' r Hd Hh. unfold persist_indeterminate. destruct (persist_rotation env _ _ w) as [w1 r1] eqn:E1. intros [= <- <-]. split; [|done].
    eapply keeps_persist in E1; [by apply E1| |exact Hd|exact Hh]. split_and!; [done|by rewrite Hacc|done|]. cbn. by rewrite Hact.
Qed.

Lemma keeps_prepare path rq i j identity (Pre : list effect → Prop) : (∀ t k, Pre t → Pre (Generates k :: t)) →
  keeps (prepare_rotation env path rq i j identity) Pre (λ r t, starts r).
Proof.
  intros HP. unfold prepare_rotation. do 2 silently. eapply keeps_bind; [apply keeps_silent; destruct (negb _); solve_silent|intros []].
  do 3 silently. apply keeps_bind with (Q := λ _, Pre).
  { eapply keeps_weaken; [by apply keeps_change with (Pre := Pre)|done|]. intros kid t (t' & -> & Ht). by apply HP. }
  intros new_kid. do 9 silently. eapply keeps_bind; [by apply keeps_silent|intros ?]. eapply keeps_bind; [by apply keeps_silent|intros ?]. silently.
  by apply keeps_ret.
Qed.

Lemma keeps_start path r : starts r → keeps (persist_rotation env path r) (λ _, True) (λ _ t, durable t = Some r).
Proof.
  intros Hs. eapply keeps_weaken; [apply keeps_hook with (Pre := λ _, True)|done|by intros [] t (t' & -> & _)].
  intros t _. by left.
Qed.
Lemma keeps_pause path r : kr_activated r = false → keeps (set_application_signing_paused env path true) (λ t, durable t = Some r) (λ _, holding r).
Proof.
  intros Hact. eapply keeps_weaken; [apply keeps_hook with (Pre := λ t, durable t = Some r)|done|by intros [] t (t' & -> & Hd)].
  intros t Hd. exists r. done.
Qed.

Lemma keeps_rotate path rq : keeps (rotate_operational_key env path rq) (λ _, True) saved.
Proof.
  unfold rotate_operational_key. eapply keeps_bind; [apply keeps_wrapped; by apply keeps_silent|]. intros identity.
  eapply keeps_bind; [apply keeps_wrapped; by apply keeps_silent|]. intros []. eapply keeps_bind; [apply keeps_wrapped; by apply keeps_silent|]. intros i.
  eapply keeps_bind; [apply keeps_wrapped; by apply keeps_prepare|]. intros r.
  intros w w' o Hd Hs. refine ((_ : keeps _ (λ _, True) saved) w w' o Hd I). clear w w' o Hd. apply keeps_bind with (Q := λ _ t, durable t = Some r); [by apply keeps_wrapped, keeps_start|]. intros [].
  destruct Hs as (Hsub & Hact & _). eapply keeps_bind; [by apply keeps_wrapped, keeps_pause|]. intros []. apply keeps_submit; [|done].
  unfold submission_accepted. by rewrite Hsub.
Qed.

Lemma keeps_target path rot i j pr tr (Pre : list effect → Prop) :
  keeps (rotation_target env path rot i j pr tr) Pre (λ _ t, Pre t ∧ (kr_activated rot = true → submission_accepted rot = true)).
Proof.
  unfold rotation_target. do 2 (eapply keeps_bind; [apply keeps_wrapped; by apply keeps_silent|intros []]).
  eapply keeps_bind; [apply keeps_wrapped; by apply keeps_silent|intros k]. do 2 (eapply keeps_bind; [apply keeps_wrapped; by apply keeps_silent|intros []]).
  eapply keeps_bind; [apply keeps_wrapped, keeps_validate|]. intros b. apply keeps_ret. done.
Qed.

Lemma keeps_resume path rot i j pr tr : keeps (resume_key_rotation env path rot i j pr tr) (λ t, durable t = Some rot) saved.
Proof.
  unfold resume_key_rotation. eapply keeps_bind; [apply keeps_wrapped; by apply keeps_silent|]. intros identity.
  eapply keeps_bind; [apply keeps_wrapped; by apply keeps_silent|]. intros []. eapply keeps_bind; [apply keeps_target|]. intros [i' j'].
  intros w w' o Hd [Hdur Hacc]. refine ((_ : keeps _ (λ t, durable t = Some rot) saved) w w' o Hd Hdur). clear w w' o Hd Hdur. destruct (kr_activated rot) eqn:Hact.
  - unfold resume_activated. apply keeps_bind with (Q := λ _ t, durable t = Some rot).
    { apply keeps_wrapped, (keeps_silent _ (λ t, durable t = Some rot)). solve_silent. }
    intros []. eapply keeps_bind; [by apply (keeps_silent _ (λ t, durable t = Some rot))|]. intros []. destruct (negb _); [by apply keeps_ret|].
    eapply keeps_bind with (Q := λ _ t, durable t = Some rot).
    { apply keeps_wrapped. eapply keeps_weaken; [apply keeps_hook with (Pre := λ t, durable t = Some rot)|done|by intros [] t (t' & -> & Hd)].
      intros t Hd. exists rot. split_and!; [done|done|]. by apply Hacc. }
    intros []. apply keeps_bind with (Q := λ _ t, durable t = Some (with_progress rot (kr_submission rot) (kr_activated rot) false)).
    { apply keeps_wrapped. eapply keeps_weaken; [apply keeps_hook with (Pre := λ t, durable t = Some rot)|done|by intros [] t (t' & -> & _)].
      intros t Hd. right. exists rot. split; [done|]. split_and!; [done|done|done|]. intros _. by apply Hacc. }
    intros []. by apply keeps_ret.
  - apply keeps_bind with (Q := λ _ t, durable t = Some rot).
    { by apply keeps_lift. }
    intros []. apply keeps_bind with (Q := λ _, holding rot).
    { apply keeps_wrapped. apply keeps_bind with (Q := λ _ t, durable t = Some rot); [|intros []; by apply keeps_pause].
      eapply keeps_weaken; [apply keeps_hook with (Pre := λ t, durable t = Some rot)|done|by intros [] t (t' & -> & _)].
      intros t Hd. right. exists rot. split; [done|]. apply advances_refl. by rewrite Hact. }
    intros []. destruct (submission_accepted rot) eqn:Hs; [by apply keeps_finish|by apply keeps_submit].
Qed.
End discipline.

(** ** Runs *)

(** A manager's rotations: a new one, or one resumed from its saved state, with
    whatever providers and references the caller passes. *)
Inductive rotation_step `{Platform, PyLib, Zlib} {P C : Type} `{KeyProviderOps P, IdentityCache C Verified} (w : world P C) : world P C → Prop :=
| step_rotate env path rq : rotation_step w (rotate_operational_key env path rq w).1
| step_resume env path r i j previous_reference target_reference : durable (w_trace w) = Some r →
    rotation_step w (resume_key_rotation env path r i j previous_reference target_reference w).1.

Lemma step_disciplined `{Platform, PyLib, Zlib} {P C : Type} `{KeyProviderOps P, IdentityCache C Verified} (w w' : world P C) :
  rotation_step w w' → disciplined (w_trace w) → disciplined (w_trace w').
Proof.
  intros [env path rq|env path r i j pr tr Hr] Hd.
  - destruct (rotate_operational_key env path rq w) as [w1 o] eqn:E. eapply keeps_rotate in E as [? _]; done.
  - destruct (resume_key_rotation env path r i j pr tr w) as [w1 o] eqn:E. eapply keeps_resume in E as [? _]; done.
Qed.

(** C4 The order of a rotation.  Over any sequence of rotations and resumptions from
    the saved state, whatever the registry answers and wherever hooks, providers
    and publication checks fail, before or after they took effect: an entry is
    submitted only while application signing is paused and the saved state holds
    exactly these bytes, this domain and this idempotency key, not yet accepted;
    a key is activated or superseded only while signing is paused and the saved
    state is accepted and names that key; signing resumes only when the saved
    state is accepted and activated; and a saved state is followed only by a new
    rotation or by one with the same bytes, hash, keys and idempotency key that
    keeps its acceptance and its activation. *)
Theorem rotation_ordered `{Platform, PyLib, Zlib} {P C : Type} `{KeyProviderOps P, IdentityCache C Verified} (w w' : world P C)
    (Hreach : rtc rotation_step w w') (Hstart : w_trace w = []) (t : list effect) (e : effect) (later : list effect)
    (Hcut : w_trace w' = later ++ e :: t) : allowed e t.
Proof.
  assert (disciplined (w_trace w')) as Hd.
  { clear Hcut. assert (disciplined (w_trace w)) as Hw by by rewrite Hstart. clear Hstart. induction Hreach as [|x y z Hs _ IH]; [done|].
    apply IH. by eapply step_disciplined. }
  rewrite Hcut in Hd. clear -Hd. induction later as [|x later IH]; cbn in Hd; [by destruct Hd|]. apply IH, Hd.
Qed.

(** ** Recovery *)

(** The two keys of a rotation. *)
Record rotation_keys (r : KeyRotationResult) (old new : JWK) : Prop := {
  rk_old : ∃ a, kr_previous_kid r = JStr a ∧ jwk_kid old = JStr a;
  rk_new : ∃ b, kr_new_kid r = JStr b ∧ jwk_kid new = JStr b;
  rk_old_thumbprint : thumbprint old = Ok (kr_previous_thumbprint r);
  rk_new_thumbprint : thumbprint new = Ok (kr_new_thumbprint r);
  rk_differ : jwk_kid old ≠ jwk_kid new
}.

Definition absent (k : JWK) (l : list JWK) : Prop := Forall (λ x, jwk_kid x ≠ jwk_kid k) l.

(** How far the keys of the previous and the target provider have come, for one
    provider in both roles and for two. *)
Inductive progress : Set := Untouched | Activated | Superseded.
#[global] Instance progress_eq_dec : EqDecision progress.
Proof. solve_decision. Defined.
Definition same_stage (old new : JWK) (v : KeyView) (s : progress) : Prop :=
  match s with
  | Untouched => kv_active v = Some old ∧ ∃ l l', kv_pending v = l ++ new :: l' ∧ absent new (kv_retained v ++ l) ∧ absent old (kv_retained v)
  | Activated => kv_active v = Some new ∧ ∃ l l', kv_retained v = l ++ old :: l' ∧ absent old (l ++ l')
  | Superseded => kv_active v = Some new ∧ absent old (kv_retained v)
  end.
Definition cross_stage (old new : JWK) (vp vt : KeyView) (s : progress) : Prop :=
  absent old (kv_retained vp) ∧
  match s with
  | Untouched => kv_active vp = Some old ∧ ∃ l l', kv_pending vt = l ++ new :: l' ∧ absent new (kv_live vt ++ l)
  | Activated => kv_active vp = Some old ∧ kv_active vt = Some new
  | Superseded => kv_active vp = None ∧ kv_active vt = Some new
  end.

(** Looking for a key by its identifier. *)
Lemma kid_is_key kid a k x : kid = JStr a → jwk_kid k = JStr a → kid_is kid x = true ↔ jwk_kid x = jwk_kid k.
Proof. intros -> ->. apply py_eq_str. Qed.
Lemma find_key kid a k l l' : kid = JStr a → jwk_kid k = JStr a → absent k l → List.find (kid_is kid) (l ++ k :: l') = Some k.
Proof.
  intros Hkid Hk. induction 1 as [|x l Hx _ IH]; cbn [List.find app].
  - by rewrite (proj2 (kid_is_key kid a k k Hkid Hk)).
  - destruct (kid_is kid x) eqn:E; [|done]. by apply (kid_is_key kid a k x Hkid Hk) in E.
Qed.
Lemma take_first_key kid a k l l' : kid = JStr a → jwk_kid k = JStr a → absent k l → take_first (kid_is kid) (l ++ k :: l') = Some (k, l ++ l').
Proof.
  intros Hkid Hk. induction 1 as [|x l Hx _ IH]; cbn [take_first app].
  - by rewrite (proj2 (kid_is_key kid a k k Hkid Hk)).
  - destruct (kid_is kid x) eqn:E; [by apply (kid_is_key kid a k x Hkid Hk) in E|]. by rewrite IH.
Qed.
Lemma take_first_absent kid a k l : kid = JStr a → jwk_kid k = JStr a → absent k l → take_first (kid_is kid) l = None.
Proof.
  intros Hkid Hk. induction 1 as [|x l Hx _ IH]; cbn [take_first]; [done|].
  destruct (kid_is kid x) eqn:E; [by apply (kid_is_key kid a k x Hkid Hk) in E|]. by rewrite IH.
Qed.
Lemma listed_key kid a k l l' : kid = JStr a → jwk_kid k = JStr a → existsb (py_eq kid) (jwk_kid <$> (l ++ k :: l')) = true.
Proof.
  intros -> Hk. apply List.existsb_exists. exists (JStr a). split; [|by apply py_eq_str]. apply list_elem_of_In. rewrite <- Hk. apply list_elem_of_fmap_2.
  apply elem_of_app. right. left.
Qed.
Lemma unlisted_key kid a k l : kid = JStr a → jwk_kid k = JStr a → absent k l → existsb (py_eq kid) (jwk_kid <$> l) = false.
Proof.
  intros -> Hk Ha. apply not_true_iff_false. intros Hx. apply List.existsb_exists in Hx as (y & Hy & E). apply py_eq_str_l in E as ->.
  apply list_elem_of_In, list_elem_of_fmap in Hy as (x & Ex & Hx). unfold absent in Ha. rewrite Forall_forall in Ha. apply (Ha x Hx). congruence.
Qed.

Section recovery.
Context `{Platform, PyLib, Zlib} {P C : Type} `{KeyProviderSpec P, IdentityCache C Verified}.
Context (old new : JWK) (i j : nat).
Implicit Types w : world P C.

Definition stage_of (s : progress) (w : world P C) : Prop :=
  if (i =? j)%nat then same_stage old new (kp_view (w_providers w i)) s
  else cross_stage old new (kp_view (w_providers w i)) (kp_view (w_providers w j)) s.

(** What the providers answer at a stage. *)
Record answers (r : KeyRotationResult) (s : progress) (w : world P C) : Prop := {
  an_new : kp_public (w_providers w j) (kr_new_kid r) = Ok new;
  an_active : ∃ active, kp_signing_key (w_providers w j) = Ok active
    ∧ match active with None => Ok false | Some k => key_is (kr_new_kid r) (kr_new_thumbprint r) k end = Ok (bool_decide (s ≠ Untouched));
  an_ids : existsb (py_eq (kr_previous_kid r)) (kp_list_key_ids (w_providers w i)) = bool_decide (s ≠ Superseded);
  an_old : s ≠ Superseded → kp_public (w_providers w i) (kr_previous_kid r) = Ok old;
  an_source : s ≠ Superseded → ∃ source, kp_signing_key (w_providers w i) = Ok (Some source) ∧ (i ≠ j ∨ s = Untouched → source = old);
  an_retired : s = Superseded → i ≠ j → kp_signing_key (w_providers w i) = Ok None
}.

Lemma key_is_same kid a k t : kid = JStr a → jwk_kid k = JStr a → thumbprint k = Ok t → key_is kid t k = Ok true.
Proof. intros -> Hk Ht. unfold key_is. rewrite Hk, (proj2 (py_eq_str _ _) eq_refl), Ht. cbn. by rewrite eqb_refl. Qed.
Lemma key_is_other kid a k x t : kid = JStr a → jwk_kid k = JStr a → jwk_kid x ≠ jwk_kid k → key_is kid t x = Ok false.
Proof.
  intros -> Hk Hx. unfold key_is. destruct (py_eq (jwk_kid x) (JStr a)) eqn:E; [|done]. apply py_eq_str in E. congruence.
Qed.

Lemma public_at p kid a k l l' : kp_in_use p → kid = JStr a → jwk_kid k = JStr a → kv_all (kp_view p) = l ++ k :: l' → absent k l → kp_public p kid = Ok k.
Proof. intros Hu Hkid Hk Hl Ha. pose proof (public_view p kid Hu) as Hp. rewrite Hl, (find_key _ a _ _ _ Hkid Hk Ha) in Hp. done. Qed.

Lemma same_answers r s w : rotation_keys r old new → kp_in_use (w_providers w i) → i = j → same_stage old new (kp_view (w_providers w i)) s → answers r s w.
Proof.
  intros [(a & Ea & Ha) (b & Eb & Hb) Ht Ht' Hd] Hi E Hs. destruct s; cbn in Hs.
  - destruct Hs as (Hact & l & l' & Hpend & Hn & Ho). split; rewrite <- ?E, ?(signing_key_view _ Hi), ?(key_ids_view _ Hi), ?Hact; try done.
    + eapply public_at with (l := old :: kv_retained (kp_view (w_providers w i)) ++ l) (l' := l'); [done|exact Eb|done| |by constructor].
      unfold kv_all, kv_live. rewrite Hact, Hpend. cbn. by rewrite <- app_assoc.
    + eexists. split; [done|]. by eapply key_is_other.
    + unfold kv_live. rewrite Hact. by apply (listed_key _ a old []).
    + intros _. eapply public_at with (l := []); [done|exact Ea|done| |constructor]. unfold kv_all, kv_live. by rewrite Hact.
    + intros _. by exists old.
  - destruct Hs as (Hact & l & l' & Hret & Ho). split; rewrite <- ?E, ?(signing_key_view _ Hi), ?(key_ids_view _ Hi), ?Hact; try done.
    + eapply public_at with (l := []); [done|exact Eb|done| |constructor]. unfold kv_all, kv_live. by rewrite Hact.
    + eexists. split; [done|]. by eapply key_is_same.
    + unfold kv_live. rewrite Hact, Hret. by apply (listed_key _ a old (new :: l)).
    + intros _. eapply public_at with (l := new :: l) (l' := l' ++ kv_pending (kp_view (w_providers w i))); [done|exact Ea|done| |].
      * unfold kv_all, kv_live. rewrite Hact, Hret. cbn. by rewrite <- app_assoc.
      * constructor; [congruence|]. by apply Forall_app in Ho as [? _].
    + intros _. exists new. split; [done|]. by intros [|].
  - destruct Hs as (Hact & Ho). split; rewrite <- ?E, ?(signing_key_view _ Hi), ?(key_ids_view _ Hi), ?Hact; try done.
    + eapply public_at with (l := []); [done|exact Eb|done| |constructor]. unfold kv_all, kv_live. by rewrite Hact.
    + eexists. split; [done|]. by eapply key_is_same.
    + unfold kv_live. rewrite Hact. eapply unlisted_key; [exact Ea|exact Ha|]. constructor; [congruence|done].
Qed.

Lemma cross_answers r s w : rotation_keys r old new → kp_in_use (w_providers w i) → kp_in_use (w_providers w j) → i ≠ j →
  cross_stage old new (kp_view (w_providers w i)) (kp_view (w_providers w j)) s → answers r s w.
Proof.
  intros [(a & Ea & Ha) (b & Eb & Hb) Ht Ht' Hd] Hi Hj Hne [Ho Hs]. destruct s.
  - destruct Hs as (Hact & l & l' & Hpend & Hn). split; rewrite ?(signing_key_view _ Hi), ?(signing_key_view _ Hj), ?(key_ids_view _ Hi), ?Hact; try done.
    + eapply public_at with (l := kv_live (kp_view (w_providers w j)) ++ l) (l' := l'); [done|exact Eb|done| |done]. unfold kv_all. rewrite Hpend. by rewrite <- app_assoc.
    + eexists. split; [done|]. unfold kv_live in Hn. destruct (kv_active (kp_view (w_providers w j))) as [k|]; [|done]. eapply key_is_other; [done|exact Hb|].
      rewrite <- app_assoc in Hn. apply Forall_app in Hn as [Hn _]. by inversion Hn.
    + unfold kv_live. rewrite Hact. by apply (listed_key _ a old []).
    + intros _. eapply public_at with (l := []); [done|exact Ea|done| |constructor]. unfold kv_all, kv_live. by rewrite Hact.
    + intros _. by exists old.
  - destruct Hs as (Hact & Hact'). split; rewrite ?(signing_key_view _ Hi), ?(signing_key_view _ Hj), ?(key_ids_view _ Hi), ?Hact, ?Hact'; try done.
    + eapply public_at with (l := []); [done|exact Eb|done| |constructor]. unfold kv_all, kv_live. by rewrite Hact'.
    + eexists. split; [done|]. by eapply key_is_same.
    + unfold kv_live. rewrite Hact. by apply (listed_key _ a old []).
    + intros _. eapply public_at with (l := []); [done|exact Ea|done| |constructor]. unfold kv_all, kv_live. by rewrite Hact.
    + intros _. by exists old.
  - destruct Hs as (Hact & Hact'). split; rewrite ?(signing_key_view _ Hi), ?(signing_key_view _ Hj), ?(key_ids_view _ Hi), ?Hact, ?Hact'; try done.
    + eapply public_at with (l := []); [done|exact Eb|done| |constructor]. unfold kv_all, kv_live. by rewrite Hact'.
    + eexists. split; [done|]. by eapply key_is_same.
    + unfold kv_live. rewrite Hact. by eapply unlisted_key.
Qed.

Lemma stage_answers r s w : rotation_keys r old new → kp_in_use (w_providers w i) → kp_in_use (w_providers w j) → stage_of s w → answers r s w.
Proof. intros Hk Hi Hj. unfold stage_of. destruct (Nat.eqb_spec i j); [by apply same_answers|by apply cross_answers]. Qed.

(** ** An undisturbed run, and what it says of a disturbed one *)
Definition calm (env : rotation_env) : Prop := ∀ path, re_fate env path = Done.
Definition hush (env : rotation_env) : rotation_env :=
  {| re_verification := re_verification env; re_config := re_config env; re_rounds := re_rounds env; re_closed := re_closed env;
     re_fate := λ _, Done; re_prepare_key_rotation := re_prepare_key_rotation env; re_submit_prepared_event := re_submit_prepared_event env;
     re_complete_history := re_complete_history env |}.

Lemma bind_run {E A B} (m : RM (world P C) E A) (k : A → RM (world P C) E B) w w' a : m w = (w', Ok a) → (m ≫= k) w = k a w'.
Proof. intros Hm. unfold mbind, RM_bind. by rewrite Hm. Qed.
Lemma ask_calm {A} env path n (f : P → res A) w : calm env → ask env path n f w = (w, f (w_providers w n)).
Proof. intros Hc. unfold ask. by rewrite Hc. Qed.

Ltac run t := erewrite bind_run; [|t]; cbn beta.

Lemma validate_calm env path r s w : calm env → rotation_keys r old new → answers r s w →
  (s ≠ Untouched → submission_accepted r = true) → (kr_activated r = true → s ≠ Untouched) →
  validate_rotation_keys env path r i j w = (w, Ok (bool_decide (s ≠ Untouched))).
Proof.
  intros Hc [(a & Ea & Ha) (b & Eb & Hb) Ht Ht' Hd] [Hn (act & Hact & Hflag) Hids Ho Hsrc Hret] Hacc Hactd. unfold validate_rotation_keys.
  run ltac:(rewrite ask_calm by done; by rewrite Hn). run ltac:(unfold lift, require_key; rewrite (key_is_same _ b) by done; reflexivity).
  run ltac:(rewrite ask_calm by done; by rewrite Hact). run ltac:(unfold lift; by rewrite Hflag).
  run ltac:(unfold lift; instantiate (1 := ()); instantiate (1 := w); destruct (kr_activated r); [rewrite Hacc by auto; by rewrite bool_decide_eq_true_2 by auto|done]).
  run ltac:(by rewrite ask_calm by done). rewrite Hids. destruct (decide (s = Superseded)) as [->|Hns].
  - rewrite bool_decide_eq_false_2 by naive_solver. rewrite Hacc by done. run ltac:(reflexivity). destruct (Nat.eqb_spec i j).
    + by run ltac:(reflexivity).
    + run ltac:(run ltac:(rewrite ask_calm by done; by rewrite Hret); reflexivity). reflexivity.
  - rewrite bool_decide_eq_true_2 by done. run ltac:(rewrite ask_calm by done; by rewrite Ho). run ltac:(unfold lift, require_key; rewrite (key_is_same _ a) by done; reflexivity).
    destruct (Hsrc Hns) as (src & Hs & Hold). run ltac:(unfold require_signing_key; run ltac:(rewrite ask_calm by done; by rewrite Hs); reflexivity).
    destruct (_ && _) eqn:Hb'; [done|]. assert (src = old) as ->.
    { apply Hold. destruct (Nat.eqb_spec i j) as [E|]; [|by left]. right. destruct (decide (s = Untouched)) as [|Hnu]; [done|].
      rewrite Hacc in Hb' by done. by rewrite bool_decide_eq_true_2 in Hb'. }
    run ltac:(unfold lift, require_key; rewrite (key_is_same _ a) by done; reflexivity). reflexivity.
Qed.

(** What a disturbed run returns, the undisturbed one does too. *)
Definition calmer {E A} (m m' : RM (world P C) E A) : Prop := ∀ w w' a, m w = (w', Ok a) → m' w = (w', Ok a).
Lemma calmer_bind {E A B} (m m' : RM (world P C) E A) (k k' : A → RM (world P C) E B) : calmer m m' → (∀ a, calmer (k a) (k' a)) → calmer (m ≫= k) (m' ≫= k').
Proof.
  intros Hm Hk w w' b. unfold mbind, RM_bind. destruct (m w) as [w1 [a|e]] eqn:E1; [|done]. rewrite (Hm _ _ _ E1). by apply Hk.
Qed.
Lemma calmer_refl {E A} (m : RM (world P C) E A) : calmer m m.
Proof. by intros w w' a. Qed.
Lemma calmer_ask {A} env path n (f : P → res A) : calmer (ask env path n f) (ask (hush env) path n f).
Proof. intros w w' a. unfold ask. by destruct (re_fate env path). Qed.
Ltac solve_calmer := repeat first [apply calmer_ask | apply calmer_bind; [|intros ?] | match goal with |- calmer (if ?b then _ else _) _ => destruct b end | apply calmer_refl].
Lemma validate_calmer env path r n m : calmer (validate_rotation_keys env path r n m) (validate_rotation_keys (hush env) path r n m).
Proof. unfold validate_rotation_keys, require_signing_key. solve_calmer. Qed.

(** Reading changes nothing. *)
Definition inert {E A} (m : RM (world P C) E A) : Prop := ∀ w, (m w).1 = w.
Lemma inert_bind {E A B} (m : RM (world P C) E A) (k : A → RM (world P C) E B) : inert m → (∀ a, inert (k a)) → inert (m ≫= k).
Proof. intros Hm Hk w. unfold mbind, RM_bind. specialize (Hm w). destruct (m w) as [w1 [a|e]]; cbn in *; [|done]. by rewrite Hk. Qed.
Lemma inert_ask {A} env path n (f : P → res A) : inert (ask env path n f).
Proof. intros w. unfold ask. by destruct (re_fate env path). Qed.
Ltac solve_inert := repeat first [apply inert_ask | apply inert_bind; [|intros ?] | match goal with |- inert (if ?b then _ else _) => destruct b end | (intros ?; reflexivity)].
Lemma validate_inert env path r n m : inert (validate_rotation_keys env path r n m).
Proof. unfold validate_rotation_keys, require_signing_key. solve_inert. Qed.

(** ** Steps of the keys *)
Lemma set_provider_at n p w : w_providers (set_provider n p w) n = p.
Proof. apply fn_lookup_insert. Qed.
Lemma set_provider_other n m p w : n ≠ m → w_providers (set_provider n p w) m = w_providers w m.
Proof. apply fn_lookup_insert_ne. Qed.

Definition used w : Prop := kp_in_use (w_providers w i) ∧ kp_in_use (w_providers w j).

Lemma activate_stage r f p o w : rotation_keys r old new → used w → stage_of Untouched w →
  kp_activate f (kr_new_kid r) (w_providers w j) = (p, o) →
  used (set_provider j p w) ∧ (stage_of Activated (set_provider j p w) ∨ (is_Ok o = false ∧ stage_of Untouched (set_provider j p w))).
Proof.
  intros [(a & Ea & Ha) (b & Eb & Hb) Ht Ht' Hd] [Hi Hj] Hs Hx. destruct (activate_view _ _ _ _ _ Hj Hx) as [Hp Ho]. unfold used, stage_of in *.
  rewrite set_provider_at. destruct (Nat.eqb_spec i j) as [E|Hne].
  - rewrite E, set_provider_at in *. split; [done|]. destruct Ho as [[Ev Hf]|Hv]; [right; by rewrite Ev|left].
    destruct Hs as (Hact & l & l' & Hpend & Hn & Ho). unfold view_activate in Hv. rewrite Hpend in Hv. apply Forall_app in Hn as [_ Hn].
    rewrite (take_first_key _ b new) in Hv by done. cbn in Hv. injection Hv as <-. split; [done|]. exists (kv_retained (kp_view (w_providers w j))), []. cbn. rewrite Hact, app_nil_r. done.
  - rewrite set_provider_other by done. split; [done|]. destruct Ho as [[Ev Hf]|Hv]; [right; by rewrite Ev|left]. destruct Hs as (Ho & Hact & l & l' & Hpend & Hn).
    unfold view_activate in Hv. rewrite Hpend in Hv. apply Forall_app in Hn as [_ Hn]. rewrite (take_first_key _ b new) in Hv by done. cbn in Hv. injection Hv as <-. done.
Qed.

Lemma supersede_stage r f p o w : rotation_keys r old new → used w → stage_of Activated w →
  kp_supersede f (kr_previous_kid r) (negb (i =? j)%nat) (w_providers w i) = (p, o) →
  used (set_provider i p w) ∧ (stage_of Superseded (set_provider i p w) ∨ (is_Ok o = false ∧ stage_of Activated (set_provider i p w))).
Proof.
  intros [(a & Ea & Ha) (b & Eb & Hb) Ht Ht' Hd] [Hi Hj] Hs Hx. destruct (supersede_view _ _ _ _ _ _ Hi Hx) as [Hp Ho]. unfold used, stage_of in *.
  rewrite set_provider_at. destruct (Nat.eqb_spec i j) as [E|Hne].
  - rewrite <- E, set_provider_at in *. split; [done|]. destruct Ho as [[Ev Hf]|Hv]; [right; by rewrite Ev|left].
    destruct Hs as (Hact & l & l' & Hret & Ho). unfold view_supersede, active_is in Hv. rewrite Hact, Hret in Hv.
    destruct (kid_is (kr_previous_kid r) new) eqn:Ek; [apply (kid_is_key _ a old) in Ek; [congruence|done|done]|]. apply Forall_app in Ho as Ho'.
    rewrite (take_first_key _ a old) in Hv by naive_solver. cbn in Hv. injection Hv as <-. by split.
  - rewrite set_provider_other by done. split; [done|]. destruct Ho as [[Ev Hf]|Hv]; [right; by rewrite Ev|left]. destruct Hs as (Ho & Hact & Hact').
    unfold view_supersede, active_is in Hv. rewrite Hact in Hv. rewrite (proj2 (kid_is_key _ a old old Ea Ha)) in Hv by done. cbn in Hv. injection Hv as <-. done.
Qed.

(** Without a failure they are made. *)
Lemma activate_calm r p o w : rotation_keys r old new → used w → stage_of Untouched w → kp_activate Done (kr_new_kid r) (w_providers w j) = (p, o) → o = Ok ().
Proof.
  intros [_ (b & Eb & Hb) _ _ _] [Hi Hj] Hs Hx. eapply activate_done; [exact Hj|exact Hx|]. unfold stage_of in Hs. unfold view_activate.
  destruct (Nat.eqb_spec i j) as [E|Hne].
  - rewrite E in Hs. destruct Hs as (Hact & l & l' & Hpend & Hn & Ho). rewrite Hpend. apply Forall_app in Hn as [_ Hn].
    by rewrite (take_first_key _ b new) by done.
  - destruct Hs as (Ho & Hact & l & l' & Hpend & Hn). rewrite Hpend. apply Forall_app in Hn as [_ Hn]. by rewrite (take_first_key _ b new) by done.
Qed.
Lemma supersede_calm r p o w : rotation_keys r old new → used w → stage_of Activated w →
  kp_supersede Done (kr_previous_kid r) (negb (i =? j)%nat) (w_providers w i) = (p, o) → o = Ok ().
Proof.
  intros [(a & Ea & Ha) (b & Eb & Hb) _ _ Hd] [Hi Hj] Hs Hx. eapply supersede_done; [exact Hi|exact Hx|]. unfold stage_of in Hs. unfold view_supersede, active_is.
  destruct (Nat.eqb_spec i j) as [E|Hne].
  - destruct Hs as (Hact & l & l' & Hret & Ho). rewrite Hact, Hret.
    destruct (kid_is (kr_previous_kid r) new) eqn:Ek; [apply (kid_is_key _ a old) in Ek; [congruence|done|done]|]. apply Forall_app in Ho as Ho'.
    by rewrite (take_first_key _ a old) by naive_solver.
  - destruct Hs as (Ho & Hact & Hact'). rewrite Hact. by rewrite (proj2 (kid_is_key _ a old old Ea Ha)) by done.
Qed.

(** ** Reconciling the keys *)
Lemma stage_emit e s w : stage_of s (emit e w) ↔ stage_of s w.
Proof. done. Qed.

Record reconciled w w' : Prop := {
  rn_identity : w_identity w' = w_identity w;
  rn_key_provider : w_key_provider w' = w_key_provider w;
  rn_durable : durable (w_trace w') = durable (w_trace w);
  rn_paused : paused (w_trace w') = paused (w_trace w)
}.

Lemma retire_stage env path r s w w' o : rotation_keys r old new → used w → stage_of s w → s ≠ Untouched →
  retire_previous_key env path r i j w = (w', o) →
  reconciled w w' ∧ used w' ∧ (∃ s', stage_of s' w' ∧ s' ≠ Untouched ∧ (o = Ok () → s' = Superseded)) ∧ (calm env → o = Ok ()).
Proof.
  intros Hk Hu Hs Hnu. pose proof (stage_answers _ _ _ Hk (proj1 Hu) (proj2 Hu) Hs) as [_ _ Hids Ho _ _]. unfold retire_previous_key.
  unfold mbind at 1, RM_bind at 1, ask at 1. destruct (re_fate env (0%nat :: path)) eqn:Ef;
    [|by intros [= <- <-]; split_and!; [|done|exists s; by split_and!|intros Hc; rewrite Hc in Ef]..].
  rewrite Hids. destruct (decide (s = Superseded)) as [->|Hns].
  { rewrite bool_decide_eq_false_2 by naive_solver. intros [= <- <-]. split_and!; [done|done|by exists Superseded|done]. }
  assert (s = Activated) as -> by by destruct s. rewrite bool_decide_eq_true_2 by done. unfold mbind at 1, RM_bind at 1, ask at 1. rewrite Ho by done.
  destruct (re_fate env (1%nat :: path)) eqn:Ef';
    [|by intros [= <- <-]; split_and!; [|done|exists Activated; by split_and!|intros Hc; rewrite Hc in Ef']..].
  unfold mbind at 1, RM_bind at 1, lift at 1. rewrite (rk_old_thumbprint _ _ _ Hk). unfold mbind at 1, RM_bind at 1, lift at 1. rewrite eqb_refl. cbn [negb raise_if].
  unfold supersede_key, change_provider. destruct (kp_supersede _ _ _ _) as [p x] eqn:Ep. intros [= <- <-].
  destruct (supersede_stage r _ p x (emit (Supersedes i (kr_previous_kid r)) w) Hk Hu Hs Ep) as [Hu' Hs']. split_and!; [done|done| |].
  - destruct Hs' as [Hs'|[Hx Hs']]; [exists Superseded; done|]. exists Activated. split_and!; [done|done|]. by intros ->.
  - intros Hc. rewrite Hc in Ep. by eapply (supersede_calm r _ _ (emit (Supersedes i (kr_previous_kid r)) w)).
Qed.

Lemma reconciled_trans w1 w2 w3 : reconciled w1 w2 → reconciled w2 w3 → reconciled w1 w3.
Proof. intros [] []. split; congruence. Qed.

Lemma reconcile_stage env path r s w w' o : rotation_keys r old new → used w → stage_of s w → submission_accepted r = true →
  (kr_activated r = true → s ≠ Untouched) → reconcile_rotation_keys env path r i j w = (w', o) →
  reconciled w w' ∧ used w' ∧ (∃ s', stage_of s' w' ∧ (o = Ok () → s' = Superseded)) ∧ (calm env → o = Ok ()).
Proof.
  intros Hk Hu Hs Hacc Hact. pose proof (stage_answers _ _ _ Hk (proj1 Hu) (proj2 Hu) Hs) as Han.
  pose proof (validate_inert env (0%nat :: path) r i j w) as Hin. pose proof (validate_calm (hush env) (0%nat :: path) r s w (λ _, eq_refl) Hk Han (λ _, Hacc) Hact) as Hh.
  unfold reconcile_rotation_keys, mbind at 1, RM_bind at 1. destruct (validate_rotation_keys env (0%nat :: path) r i j w) as [w0 [b|e]] eqn:Ev; cbn in Hin; subst w0.
  2: { intros [= <- <-]. split_and!; [done|done|by exists s|]. intros Hc. pose proof (validate_calm env (0%nat :: path) r s w Hc Hk Han (λ _, Hacc) Hact). congruence. }
  apply validate_calmer in Ev. rewrite Hh in Ev. injection Ev as <-. destruct (decide (s = Untouched)) as [->|Hnu].
  - rewrite bool_decide_eq_false_2 by naive_solver. unfold mbind at 1, RM_bind at 1, activate_key, change_provider at 1.
    destruct (kp_activate _ _ _) as [p x] eqn:Ep. destruct (activate_stage r _ p x (emit (Activates j (kr_new_kid r)) w) Hk Hu Hs Ep) as [Hu' Hs'].
    destruct x as [[]|e].
    + destruct Hs' as [Hs'|[? _]]; [|done]. intros Hx. destruct (retire_stage _ _ _ _ _ _ _ Hk Hu' Hs' ltac:(done) Hx) as (Hr & Hu2 & (s' & Hs2 & _ & Hd) & Hc).
      split_and!; [|done|by exists s'|done]. eapply reconciled_trans; [|exact Hr]. done.
    + intros [= <- <-]. split_and!; [done|done| |].
      * destruct Hs' as [Hs'|[_ Hs']]; by eexists.
      * intros Hc. rewrite Hc in Ep. eapply (activate_calm r _ _ (emit (Activates j (kr_new_kid r)) w)) in Ep; done.
  - rewrite bool_decide_eq_true_2 by done. intros Hx. change (retire_previous_key env (2%nat :: path) r i j w = (w', o)) in Hx.
    destruct (retire_stage _ _ _ _ _ _ _ Hk Hu Hs Hnu Hx) as (Hr & Hu2 & (s' & Hs2 & _ & Hd) & Hc). split_and!; [done|done|by exists s'|done].
Qed.

(** ** States from which a rotation can be completed *)
Record recoverable (r : KeyRotationResult) w : Prop := {
  rv_durable : durable (w_trace w) = Some r;
  rv_keys : rotation_keys r old new;
  rv_valid : validate_persisted_rotation (w_identity w) r = Ok ();
  rv_references : (kr_previous_provider_reference r ==? kr_new_provider_reference r) = (i =? j)%nat;
  rv_used : used w;
  rv_stage : ∃ s, stage_of s w ∧ (s ≠ Untouched → submission_accepted r = true) ∧ (kr_activated r = true → s = Superseded);
  rv_paused : kr_application_signing_paused r = false → kr_activated r = true ∧ paused (w_trace w) = false
}.

Lemma valid_progress identity r sub activated flag : validate_persisted_rotation identity r = Ok () →
  match sub with None => True | Some s => validate_rotation_submission (with_progress r sub activated flag) s = Ok () end →
  validate_persisted_rotation identity (with_progress r sub activated flag) = Ok ().
Proof.
  unfold validate_persisted_rotation. cbn [with_progress kr_domain kr_log_reference kr_previous_kid kr_previous_thumbprint kr_new_kid kr_new_thumbprint
    kr_previous_public_key kr_entry_bytes kr_entry_hash kr_idempotency_key kr_submission]. intros Hx Hsub. guard_step Hx as Hg. rewrite Hg.
  destruct (kr_previous_public_key r) as [k|]; [|done]. guard_step Hx as Hg'. apply bind_unit_Ok in Hx as [Hi Hx]. rewrite Hg', Hi. res_cbn.
  guard_step Hx as H3'. guard_step Hx as H4'. guard_step Hx as H5'. bind_step Hx as t Ht. guard_step Hx as H6'. rewrite H3', H4', H5', Ht. res_cbn. rewrite H6'. res_cbn.
  bind_step Hx as prepared Hp. bind_step Hx as event He. bind_step Hx as differs Hd. guard_step Hx as H7'. rewrite Hp, He. res_cbn.
  change (metadata_differs (with_progress r sub activated flag)) with (metadata_differs r). rewrite Hd. res_cbn. rewrite H7'. res_cbn. by destruct sub.
Qed.
Lemma valid_submission identity r s : validate_persisted_rotation identity r = Ok () → kr_submission r = Some s → validate_rotation_submission r s = Ok ().
Proof.
  unfold validate_persisted_rotation. intros Hx Es. guard_step Hx as Hg. destruct (kr_previous_public_key r) as [k|]; [|done]. guard_step Hx as Hg'.
  apply bind_unit_Ok in Hx as [_ Hx]. guard_step Hx as H3'. guard_step Hx as H4'. guard_step Hx as H5'. bind_step Hx as t Ht. guard_step Hx as H6'.
  bind_step Hx as prepared Hp. bind_step Hx as event He. bind_step Hx as differs Hd. guard_step Hx as H7'. by rewrite Es in Hx.
Qed.

(** A validated submission is valid as the saved one. *)
Lemma submission_saved r s activated flag : validate_rotation_submission r s = Ok () → validate_rotation_submission (with_progress r (Some s) activated flag) s = Ok ().
Proof.
  unfold validate_rotation_submission. intros Hx. guard_step Hx as H1'. guard_step Hx as H2'. rewrite H1'. cbn [with_progress kr_submission kr_entry_hash kr_new_kid kr_log_reference].
  rewrite eqb_refl. cbn [negb]. rewrite andb_false_r. res_cbn. exact Hx.
Qed.

Context (r0 : KeyRotationResult) (env : rotation_env).

Definition advancing w : Prop := ∃ r, recoverable r w ∧ core r = core r0.
Definition recovers {E A} (G : Prop) (m : RM (world P C) E A) (Pre : world P C → Prop) (Q : A → world P C → Prop) : Prop :=
  ∀ w w' o, Pre w → m w = (w', o) → advancing w' ∧ (∀ a, o = Ok a → Q a w') ∧ (G → is_Ok o = true).

Lemma rec_bind {E A B} G (m : RM (world P C) E A) (k : A → RM (world P C) E B) Pre Q R :
  recovers G m Pre Q → (∀ a, recovers G (k a) (Q a) R) → recovers G (m ≫= k) Pre R.
Proof.
  intros Hm Hk w w' o Hp. unfold mbind, RM_bind. destruct (m w) as [w1 [a|e]] eqn:E1; intros Hx.
  - apply Hm in E1 as (_ & HQ & _); [|done]. by eapply Hk; [apply HQ|].
  - apply Hm in E1 as (Ha & _ & Hg); [|done]. injection Hx as <- <-. split_and!; [done|done|]. intros HG. by specialize (Hg HG).
Qed.
Lemma rec_wrapped {E E' A} G (f : E → E') (m : RM (world P C) E A) Pre Q : recovers G m Pre Q → recovers G (wrapped f m) Pre Q.
Proof.
  intros Hm w w' o Hp. unfold wrapped. destruct (m w) as [w1 o1] eqn:E1. intros [= <- <-]. apply Hm in E1 as (Ha & HQ & Hg); [|done].
  split_and!; [done| |].
  - intros a. destruct o1; [|done]. intros [= ->]. by apply HQ.
  - intros HG. specialize (Hg HG). by destruct o1.
Qed.
Lemma rec_weaken {E A} (G G' : Prop) (m : RM (world P C) E A) (Pre Pre' : world P C → Prop) (Q Q' : A → world P C → Prop) :
  recovers G m Pre Q → (G' → G) → (∀ w, Pre' w → Pre w) → (∀ a w, Q a w → Q' a w) → recovers G' m Pre' Q'.
Proof. intros Hm HG HP HQ w w' o Hp Hx. destruct (Hm _ _ _ (HP _ Hp) Hx) as (?&?&?). naive_solver. Qed.
Lemma rec_ret {E A} G (a : A) (Pre : world P C → Prop) (Q : A → world P C → Prop) : (∀ w, Pre w → advancing w ∧ Q a w) → recovers G (mret a : RM (world P C) E A) Pre Q.
Proof. intros HQ w w' o Hp [= <- <-]. destruct (HQ w Hp). split_and!; [done|by intros ? [= <-]|done]. Qed.
Lemma rec_inert {E A} G (m : RM (world P C) E A) (Pre : world P C → Prop) (Q : A → world P C → Prop) : inert m → (∀ w, Pre w → advancing w) →
  (∀ w w' a, Pre w → m w = (w', Ok a) → Q a w) → (G → ∀ w, Pre w → is_Ok (m w).2 = true) → recovers G m Pre Q.
Proof.
  intros Hi Ha HQ Hg w w' o Hp Hx. pose proof (Hi w) as Ei. rewrite Hx in Ei. cbn in Ei. subst w'. split_and!; [by apply Ha|intros a ->; by eapply HQ|].
  intros HG. specialize (Hg HG w Hp). by rewrite Hx in Hg.
Qed.
Lemma rec_hook path e (Pre : world P C → Prop) (Q : unit → world P C → Prop) : (∀ w, Pre w → advancing w ∧ advancing (emit e w) ∧ Q () (emit e w)) →
  recovers (calm env) (hook env path e) Pre Q.
Proof.
  intros Hp w w' o Hw. destruct (Hp w Hw) as (Ha & Ha' & HQ). unfold hook. destruct (re_fate env path) eqn:Ef; intros [= <- <-]; (split_and!; [done| |]); try done.
  - by intros [] _.
  - intros Hc. by rewrite Hc in Ef.
  - intros Hc. by rewrite Hc in Ef.
Qed.

(** ** Each operation *)
Lemma with_progress_id r : with_progress r (kr_submission r) (kr_activated r) (kr_application_signing_paused r) = r.
Proof. by destruct r. Qed.

Lemma recoverable_persist r sub activated flag w : recoverable r w →
  match sub with None => True | Some s => validate_rotation_submission (with_progress r sub activated flag) s = Ok () end →
  (∃ s, stage_of s w ∧ (s ≠ Untouched → submission_accepted (with_progress r sub activated flag) = true) ∧ (activated = true → s = Superseded)) →
  (flag = false → activated = true ∧ paused (w_trace w) = false) →
  recoverable (with_progress r sub activated flag) (emit (Persisted (with_progress r sub activated flag)) w).
Proof.
  intros [Hd Hk Hv Hr Hu Hs Hp] Hsub Hstage Hflag. split; [done| |by apply valid_progress|done|done|done|done].
  destruct Hk. by split.
Qed.
Lemma recoverable_same r w : recoverable r w → recoverable r (emit (Persisted r) w).
Proof. intros [Hd Hk Hv Hr Hu Hs Hp]. by split. Qed.
Lemma recoverable_pause r b w : recoverable r w → (b = true → kr_application_signing_paused r = true) → recoverable r (emit (SigningPaused b) w).
Proof. intros [Hd Hk Hv Hr Hu Hs Hp] Hb. split; try done. intros Hf. split; [by apply Hp|]. cbn. destruct b; [|done]. by rewrite Hb in Hf. Qed.

(** Only the cache changes. *)
Definition with_cache (c : C) w : world P C :=
  {| w_providers := w_providers w; w_key_provider := w_key_provider w; w_identity := w_identity w; w_cache := c; w_trace := w_trace w |}.
Definition caches {E A} (m : RM (world P C) E A) : Prop := ∀ w, ∃ c, (m w).1 = with_cache c w.
Lemma inert_caches {E A} (m : RM (world P C) E A) : inert m → caches m.
Proof. intros Hm w. exists (w_cache w). rewrite Hm. by destruct w. Qed.
Lemma caches_bind {E A B} (m : RM (world P C) E A) (k : A → RM (world P C) E B) : caches m → (∀ a, caches (k a)) → caches (m ≫= k).
Proof.
  intros Hm Hk w. unfold mbind, RM_bind. destruct (Hm w) as [c Hc]. destruct (m w) as [w1 [a|e]]; cbn in *; [|eauto]. destruct (Hk a w1) as [c' Hc'].
  exists c'. rewrite Hc'. by subst w1.
Qed.
Lemma caches_publication path r : caches (rotation_publication env path r).
Proof.
  unfold rotation_publication. apply caches_bind.
  - intros w. unfold verify_publication. destruct (Manager.verify_local_publication _ _ _ _ _ _ _) as [c o]. by exists c.
  - intros vd. apply inert_caches. do 4 (apply inert_bind; [by intros w|intros ?]). destruct (re_complete_history env _); [|by intros w]. destruct (kr_submission r); [|by intros w].
    do 2 (apply inert_bind; [by intros w|intros ?]). by intros w.
Qed.

Context (identity : IdentityConfig).
Definition at_ (r : KeyRotationResult) w : Prop := recoverable r w ∧ core r = core r0 ∧ w_identity w = identity.
Lemma at_advancing r w : at_ r w → advancing w.
Proof. intros (? & ? & _). by exists r. Qed.

(** The publication of the rotation verifies. *)
Definition verifies (r : KeyRotationResult) : Prop := ∀ path w, w_identity w = identity → is_Ok (rotation_publication env path r w).2 = true.

Lemma rec_publication path r : recovers (verifies r) (rotation_publication env path r) (at_ r) (λ _, at_ r).
Proof.
  intros w w' o (Hr & Hc & Hid) Hx. destruct (caches_publication path r w) as [c Ec]. rewrite Hx in Ec. cbn in Ec. subst w'.
  assert (at_ r (with_cache c w)) as Ha. { split; [|done]. destruct Hr. by split. }
  split_and!; [by eapply at_advancing|done|]. intros Hv. specialize (Hv path w Hid). by rewrite Hx in Hv.
Qed.

Lemma rec_reconcile path r : submission_accepted r = true → kr_activated r = false →
  recovers (calm env) (reconcile_rotation_keys env path r i j) (at_ r) (λ _ w, at_ r w ∧ stage_of Superseded w).
Proof.
  intros Hacc Hact w w' o (Hr & Hc & Hid) Hx. destruct Hr as [Hd Hk Hv Href Hu (s & Hs & _) Hp].
  destruct (reconcile_stage env path r s w w' o Hk Hu Hs Hacc) as ([Ei Ek Ed Ep] & Hu' & (s' & Hs' & Hdone) & Hcalm); [by rewrite Hact|done|].
  assert (at_ r w') as Ha.
  { split; [|by rewrite Ei]. split; [by rewrite Ed|done|by rewrite Ei|done|done| |by rewrite Ep]. exists s'. by rewrite Hact. }
  split_and!; [by eapply at_advancing| |intros G; by rewrite Hcalm]. intros [] ->. split; [done|]. by rewrite <- Hdone.
Qed.

(** A rotation that is over. *)
Record completed (r : KeyRotationResult) w : Prop := {
  cp_recoverable : recoverable r w;
  cp_core : core r = core r0;
  cp_activated : kr_activated r = true;
  cp_resumed : kr_application_signing_paused r = false;
  cp_provider : w_key_provider w = j;
  cp_stage : stage_of Superseded w
}.

(** The activated state, with the manager on the target provider or not yet. *)
Definition settled (r : KeyRotationResult) w : Prop := recoverable r w ∧ core r = core r0 ∧ kr_activated r = true ∧ stage_of Superseded w.
Lemma settled_advancing r w : settled r w → advancing w.
Proof. intros (? & ? & _). by exists r. Qed.

Lemma valid_identity id id' r : ic_domain id' = ic_domain id → ic_log_ref id' = ic_log_ref id → validate_persisted_rotation id' r = validate_persisted_rotation id r.
Proof. intros Hd Hl. unfold validate_persisted_rotation. by rewrite Hd, Hl. Qed.

Lemma rec_use_provider G r ku : recovers G (use_provider j ku) (settled r) (λ _ w, settled r w ∧ w_key_provider w = j).
Proof.
  intros w w' o (Hr & Hc & Ha & Hs) [= <- <-].
  match goal with |- advancing ?w1 ∧ _ => assert (settled r w1) as Hset end.
  { split; [|split_and!; [exact Hc|exact Ha|exact Hs]]. destruct Hr as [Hd Hk Hv Href Hu Hst Hp]. split; [exact Hd|exact Hk| |exact Href|exact Hu|exact Hst|exact Hp].
    etrans; [|exact Hv]. by apply valid_identity; destruct ku. }
  split_and!; [by eapply settled_advancing|done|done].
Qed.

(** Signing resumes, and the completion is saved. *)
Lemma rec_release path path' r : recovers (calm env)
  (wrapped (ManagedKeyRotationActivationError r) (set_application_signing_paused env path false) ;;
   wrapped (ManagedKeyRotationActivationError r) (persist_rotation env path' (with_progress r (kr_submission r) true false)) ;;
   mret (with_progress r (kr_submission r) true false))
  (λ w, settled r w ∧ w_key_provider w = j) completed.
Proof.
  eapply rec_bind.
  { apply rec_wrapped, rec_hook with (Q := λ _ w, (settled r w ∧ w_key_provider w = j) ∧ paused (w_trace w) = false). intros w [(Hr & Hc & Ha & Hs) Hj].
    assert (settled r (emit (SigningPaused false) w)) as He by (split; [by apply recoverable_pause|done]).
    split_and!; [by exists r|by eapply settled_advancing|done|done|done]. }
  intros []. eapply rec_bind.
  { apply rec_wrapped, rec_hook with (Q := λ _, completed (with_progress r (kr_submission r) true false)). intros w [[(Hr & Hc & Ha & Hs) Hj] Hpz].
    assert (recoverable (with_progress r (kr_submission r) true false) (emit (Persisted (with_progress r (kr_submission r) true false)) w)) as He.
    { apply recoverable_persist; [done| | |done].
      - destruct (kr_submission r) as [s|] eqn:E; [|done]. apply submission_saved. by eapply valid_submission; [apply Hr|].
      - destruct Hr as [_ _ _ _ _ (s & Hs' & Hacc & Hact) _]. exists s. split_and!; [done|exact Hacc|]. intros _. by apply Hact. }
    split_and!; [by exists r|by eexists|]. split; done. }
  intros []. apply rec_ret. intros w Hw. split; [|done]. eexists. split; [apply Hw|apply Hw].
Qed.

Lemma rec_finish path r : submission_accepted r = true → kr_activated r = false →
  recovers (calm env ∧ verifies r) (finish_accepted_rotation env path r i j) (at_ r) completed.
Proof.
  intros Hacc Hact. unfold finish_accepted_rotation. set (activated := with_progress r (kr_submission r) true true).
  apply rec_bind with (Q := λ _ w, at_ r w ∧ stage_of Superseded w).
  { apply rec_wrapped. eapply rec_bind; [eapply rec_weaken; [apply rec_publication|naive_solver|done|done]|]. intros ku. cbn beta.
    eapply rec_bind; [eapply rec_weaken; [by apply rec_reconcile|naive_solver|done|done]|]. intros []. apply rec_ret. intros w [Ha Hs]. split; [by eapply at_advancing|done]. }
  intros ku. eapply rec_bind.
  { apply rec_wrapped. eapply rec_weaken; [apply rec_hook with (Pre := λ w, at_ r w ∧ stage_of Superseded w) (Q := λ _, settled activated)|naive_solver|done|done].
    intros w [(Hr & Hc & Hid) Hs]. assert (recoverable activated (emit (Persisted activated) w)) as He.
    { apply recoverable_persist; [done| | |done].
      - destruct (kr_submission r) as [sub|] eqn:E; [|done]. apply submission_saved. by eapply valid_submission; [apply Hr|].
      - exists Superseded. by split_and!. }
    split_and!; [by exists r|by exists activated|]. by split_and!. }
  intros []. eapply rec_bind; [apply rec_use_provider|]. intros [].
  eapply rec_weaken; [apply (rec_release (3 :: path)%nat (4 :: path)%nat activated)|naive_solver|done|done].
Qed.

Definition rejected (r : KeyRotationResult) : bool := match kr_submission r with Some s => sr_state s ==? lit "rejected" | None => false end.

(** The registry accepts the entry, and the publication then verifies. *)
Definition accepts (r : KeyRotationResult) : Prop := ∃ s,
  (∀ path, re_submit_prepared_event env path (kr_domain r) (kr_entry_bytes r) (kr_idempotency_key r) = Ok s)
  ∧ accepted s = true ∧ validate_rotation_submission r s = Ok () ∧ verifies (with_submission r s).

Lemma at_untouched r w : at_ r w → submission_accepted r = false → stage_of Untouched w.
Proof.
  intros ([_ _ _ _ _ (s & Hs & Hacc & _) _] & _) Hna. destruct (decide (s = Untouched)) as [->|Hn]; [done|]. by rewrite Hacc in Hna.
Qed.

(** Saving a submission. *)
Lemma at_submission r s w : at_ r w → submission_accepted r = false → kr_activated r = false → validate_rotation_submission (with_submission r s) s = Ok () →
  at_ (with_submission r s) (emit (Persisted (with_submission r s)) w).
Proof.
  intros Ha Hna Hact Hs. pose proof (at_untouched r w Ha Hna) as Hst. destruct Ha as (Hr & Hc & Hid). split_and!; [|done|done].
  apply recoverable_persist; [done|done| |]; [|apply Hr]. exists Untouched. split_and!; [done|done|]. by rewrite Hact.
Qed.

Lemma pending_saved r : validate_rotation_submission
  (with_submission r {| sr_state := lit "pending"; sr_entry_hash := kr_entry_hash r; sr_index := None; sr_log_ref := None; sr_key_id := []; sr_error_code := lit "TLOG_SUBMISSION_INDETERMINATE" |})
  {| sr_state := lit "pending"; sr_entry_hash := kr_entry_hash r; sr_index := None; sr_log_ref := None; sr_key_id := []; sr_error_code := lit "TLOG_SUBMISSION_INDETERMINATE" |} = Ok ().
Proof.
  unfold validate_rotation_submission, with_submission. cbn [sr_state sr_entry_hash sr_key_id kr_submission with_progress kr_entry_hash]. rewrite !eqb_refl. cbn [negb]. rewrite !andb_false_r.
  by rewrite bool_decide_eq_true_2 by by_decide.
Qed.

Lemma rec_submit path r : submission_accepted r = false → kr_activated r = false →
  recovers (calm env ∧ accepts r) (submit_rotation env path r i j) (at_ r) (λ r' w, calm env ∧ accepts r → completed r' w).
Proof.
  intros Hna Hact. unfold submit_rotation.
  apply rec_bind with (Q := λ response w, at_ r w ∧ response = re_submit_prepared_event env (0%nat :: path) (kr_domain r) (kr_entry_bytes r) (kr_idempotency_key r)).
  { intros w w' o (Hr & Hc & Hid) [= <- <-]. match goal with |- advancing ?w1 ∧ _ => assert (at_ r w1) as Ha end.
    { split; [|done]. destruct Hr. by split. }
    split_and!; [by eapply at_advancing|by intros ? [= <-]|done]. }
  intros response w w' o [Ha ->]. destruct (re_submit_prepared_event env _ _ _ _) as [submission|e] eqn:Es.
  - revert w w' o Ha. change (recovers (calm env ∧ accepts r) (
      wrapped (λ e, ManagedKeyRotationSubmissionError r (lit "rejected") false false (Some e)) (lift (validate_rotation_submission r submission)) ;;
      wrapped (λ e, ManagedKeyRotationSubmissionError (with_submission r submission) (sr_state submission) true (negb (sr_state submission ==? lit "rejected")) (Some e))
        (persist_rotation env (2 :: path)%nat (with_submission r submission)) ;;
      if sr_state submission ==? lit "rejected"
      then lift (Raise (ManagedKeyRotationSubmissionError (with_submission r submission) (lit "rejected") false false None))
      else if negb (accepted submission) then mret (with_submission r submission)
      else finish_accepted_rotation env (3 :: path)%nat (with_submission r submission) i j) (at_ r) (λ r' w, calm env ∧ accepts r → completed r' w)).
    assert (accepts r → accepted submission = true ∧ validate_rotation_submission r submission = Ok () ∧ verifies (with_submission r submission)) as Hok.
    { intros (s & Hs & Hr). rewrite Hs in Es. injection Es as <-. exact Hr. }
    apply rec_bind with (Q := λ _ w, at_ r w ∧ validate_rotation_submission r submission = Ok ()).
    { apply rec_wrapped, rec_inert; [done|intros w; apply at_advancing| |].
      - intros w w' [] Ha [= _ Hv]. done.
      - intros [_ HG] w _. cbn. by rewrite (proj1 (proj2 (Hok HG))). }
    intros []. eapply rec_bind.
    { apply rec_wrapped. eapply rec_weaken; [apply rec_hook with (Q := λ _, at_ (with_submission r submission))|naive_solver|intros w Hw; exact Hw|done].
      intros w [Ha Hv]. assert (at_ (with_submission r submission) (emit (Persisted (with_submission r submission)) w)) as Ha'.
      { apply at_submission; [done..|]. by apply submission_saved. }
      split_and!; [by eapply at_advancing|by eapply at_advancing|done]. }
    intros []. destruct (sr_state submission ==? lit "rejected") eqn:Erej.
    { apply rec_inert; [done|intros w; apply at_advancing|done|]. intros [_ HG]. destruct (Hok HG) as [Hacc _]. unfold accepted in Hacc. rewrite eqb_true in Erej, Hacc. rewrite Hacc in Erej. by vm_compute in Erej. }
    destruct (accepted submission) eqn:Eacc; cbn [negb].
    + eapply rec_weaken; [by apply rec_finish| |done|done]. intros [Hc HG]. split; [done|]. by apply Hok.
    + apply rec_ret. intros w Ha. split; [by eapply at_advancing|]. intros [_ HG]. by destruct (Hok HG).
  - assert (accepts r → False) as Hno by (intros (s & Hs & _); by rewrite Hs in Es).
    destruct (is_terminal e).
    { intros [= <- <-]. split_and!; [by eapply at_advancing|done|naive_solver]. }
    unfold mbind, RM_bind, persist_indeterminate. destruct (persist_rotation env _ _ w) as [w1 o1] eqn:Ep. intros [= <- <-]. split_and!; [|done|naive_solver].
    unfold persist_rotation, hook in Ep. pose proof (at_submission r _ w Ha Hna Hact (pending_saved r)) as Hp.
    destruct (re_fate env _); injection Ep as <- _; [by eapply at_advancing|by eapply at_advancing|by eapply at_advancing].
Qed.

(** What one undisturbed attempt needs. *)
Definition favourable (r : KeyRotationResult) : Prop := calm env ∧
  if kr_activated r then True else rejected r = false ∧ if submission_accepted r then verifies r else accepts r.

Lemma rec_guard {E E'} G (f : E → E') b e (Pre : world P C → Prop) : (∀ w, Pre w → advancing w) → (∀ w, Pre w → b = false) →
  recovers G (wrapped f (lift (raise_if b e))) Pre (λ _, Pre).
Proof.
  intros Ha Hb. apply rec_wrapped, rec_inert; [done|done|done|]. intros _ w Hw. by rewrite (Hb w Hw).
Qed.

Lemma rec_validate path r : recovers (calm env) (validate_rotation_keys env path r i j) (at_ r) (λ _, at_ r).
Proof.
  apply rec_inert; [apply validate_inert|intros w; apply at_advancing|done|]. intros Hc w ([_ Hk _ _ Hu (s & Hs & Hacc & Hact) _] & _).
  rewrite (validate_calm env path r s w Hc Hk (stage_answers _ _ _ Hk (proj1 Hu) (proj2 Hu) Hs) Hacc); [done|]. intros Ha. by rewrite (Hact Ha).
Qed.

Lemma rec_target path r : recovers (calm env)
  (rotation_target env path r (Some i) (Some j) (kr_previous_provider_reference r) (kr_new_provider_reference r)) (at_ r) (λ p w, at_ r w ∧ p = (i, j)).
Proof.
  unfold rotation_target. cbn [default]. eapply rec_bind; [apply rec_guard; [intros w; apply at_advancing|intros w _; by rewrite !eqb_refl]|intros []].
  eapply rec_bind; [apply rec_guard; [intros w; apply at_advancing|intros w _; apply andb_false_r]|intros []].
  eapply rec_bind; [apply rec_wrapped, (rec_inert _ _ _ (λ _, at_ r)); [done|intros w; apply at_advancing|done|done]|intros current].
  eapply rec_bind; [apply rec_guard; [intros w; apply at_advancing|]|intros []].
  { intros w ([_ _ _ Href _ _ _] & _). unfold id. rewrite Href, (Nat.eqb_sym j i). by destruct (i =? j)%nat. }
  eapply rec_bind; [apply rec_guard; [intros w; apply at_advancing|]|intros []].
  { intros w ([_ _ _ Href _ _ _] & _). unfold id. rewrite Href, (Nat.eqb_sym j i). by destruct (i =? j)%nat. }
  eapply rec_bind; [apply rec_wrapped, rec_validate|]. intros b. apply rec_ret. intros w Ha. split; [by eapply at_advancing|done].
Qed.

Lemma at_settled r w : at_ r w → kr_activated r = true → settled r w.
Proof. intros (Hr & Hc & _) Hact. split_and!; [done..|]. destruct Hr as [_ _ _ _ _ (s & Hs & _ & Hd) _]. by rewrite <- Hd. Qed.

Lemma rec_activated path r : kr_activated r = true → recovers (calm env) (resume_activated env path r j) (at_ r) completed.
Proof.
  intros Hact. unfold resume_activated. apply rec_bind with (Q := λ _, at_ r).
  { apply rec_wrapped, rec_inert; [unfold require_signing_key; solve_inert|intros w; apply at_advancing|done|].
    intros Hc w ([_ Hk _ _ Hu (s & Hs & Hacc & Hd) _] & _). rewrite (Hd Hact) in Hs. destruct (stage_answers _ _ _ Hk (proj1 Hu) (proj2 Hu) Hs) as [_ (active & Ha & Hf) _ _ _ _].
    destruct active as [k|]; [|done]. unfold require_signing_key. erewrite bind_run; [|erewrite bind_run; [|by rewrite ask_calm, Ha]; reflexivity].
    unfold lift, require_key. by rewrite Hf. }
  intros []. eapply rec_bind; [eapply rec_weaken; [apply rec_use_provider|done|intros w Ha; by apply (at_settled r)|done]|]. intros [].
  destruct (kr_application_signing_paused r) eqn:Hp; cbn [negb].
  - rewrite Hact. apply rec_release.
  - apply rec_ret. intros w [Hs Hj]. split; [by eapply settled_advancing|]. destruct Hs as (Hr & Hc & _ & Hs). by split.
Qed.

(** A rotation that is not activated yet: saved again, paused, and continued. *)
Lemma rec_continue path path' path'' path3 r error error' : kr_activated r = false →
  let G := calm env ∧ rejected r = false ∧ if submission_accepted r then verifies r else accepts r in
  recovers G (lift (raise_if (rejected r) error) ;;
    wrapped error' (persist_rotation env path r ;; set_application_signing_paused env path' true) ;;
    if submission_accepted r then finish_accepted_rotation env path'' r i j else submit_rotation env path3 r i j) (at_ r) (λ r' w, G → completed r' w).
Proof.
  intros Hact G. eapply rec_bind with (Q := λ _, at_ r).
  { apply rec_inert; [done|intros w; apply at_advancing|done|]. intros (_ & Hrej & _) w _. by rewrite Hrej. }
  intros []. eapply rec_bind with (Q := λ _, at_ r).
  { apply rec_wrapped. eapply rec_bind with (Q := λ _, at_ r).
    - eapply rec_weaken; [apply rec_hook with (Pre := at_ r) (Q := λ _, at_ r)|by intros [? _]|done|done].
      intros w (Hr & Hc & Hid). assert (at_ r (emit (Persisted r) w)) as Ha by (split; [by apply recoverable_same|done]).
      split_and!; [by exists r|by eapply at_advancing|done].
    - intros []. eapply rec_weaken; [apply rec_hook with (Pre := at_ r) (Q := λ _, at_ r)|by intros [? _]|done|done].
      intros w (Hr & Hc & Hid). assert (at_ r (emit (SigningPaused true) w)) as Ha.
      { split; [|done]. apply recoverable_pause; [done|]. intros _. destruct (kr_application_signing_paused r) eqn:Hf; [done|].
        destruct (rv_paused _ _ Hr Hf). congruence. }
      split_and!; [by exists r|by eapply at_advancing|done]. }
  intros []. subst G. destruct (submission_accepted r) eqn:Hacc.
  - eapply rec_weaken; [by apply rec_finish|naive_solver|done|done].
  - eapply rec_weaken; [by apply rec_submit|naive_solver|done|]. intros r' w Hx (Hc & _ & Ha). by apply Hx.
Qed.

Lemma rec_resume path r : recovers (favourable r)
  (resume_key_rotation env path r (Some i) (Some j) (kr_previous_provider_reference r) (kr_new_provider_reference r)) (at_ r) (λ r' w, favourable r → completed r' w).
Proof.
  unfold resume_key_rotation. eapply rec_bind.
  { apply rec_wrapped, (rec_inert _ _ _ (λ id w, at_ r w ∧ id = w_identity w)); [done|intros w; apply at_advancing|by intros w w' a Ha [= _ <-]|done]. }
  intros id. eapply rec_bind with (Q := λ _, at_ r).
  { apply rec_wrapped, rec_inert; [done|intros w [Ha _]; by eapply at_advancing|by intros w w' [] [Ha _]|]. intros _ w [(Hr & _) ->]. cbn. by rewrite (rv_valid _ _ Hr). }
  intros []. eapply rec_bind; [eapply rec_weaken; [apply rec_target|by intros [? _]|done|done]|]. intros [i' j'].
  intros w w' o [Ha [= -> ->]]. revert w w' o Ha. unfold favourable. destruct (kr_activated r) eqn:Hact.
  - assert (recovers (calm env ∧ True) (resume_activated env (1%nat :: path) r j) (at_ r) (λ r' w, calm env ∧ True → completed r' w)) as Hr; [|exact Hr].
    eapply rec_weaken; [by apply rec_activated|by intros [? _]|done|done].
  - exact (rec_continue (2 :: path)%nat (3 :: path)%nat (4 :: path)%nat (5 :: path)%nat r _ _ Hact).
Qed.
End recovery.

(** ** Attempts *)

(** An attempt to resume from the saved state with the reopened providers,
    whatever happens to it. *)
Inductive attempt `{Platform, PyLib, Zlib} {P C : Type} `{KeyProviderOps P, IdentityCache C Verified} (i j : nat) (w : world P C) : world P C → Prop :=
| attempt_resume env path r : durable (w_trace w) = Some r →
    attempt i j w (resume_key_rotation env path r (Some i) (Some j) (kr_previous_provider_reference r) (kr_new_provider_reference r) w).1.

Lemma attempt_recoverable `{Platform, PyLib, Zlib} {P C : Type} `{KeyProviderSpec P, IdentityCache C Verified} (old new : JWK) (i j : nat) (r : KeyRotationResult)
    (w w' : world P C) : attempt i j w w' → advancing old new i j r w → advancing old new i j r w'.
Proof.
  intros [env path r1 Hd] (r2 & Hr & Hc). assert (r1 = r2) as -> by (pose proof (rv_durable _ _ _ _ _ _ Hr); congruence).
  destruct (resume_key_rotation env path r2 _ _ _ _ w) as [w1 o] eqn:E. by eapply (rec_resume old new i j r env (w_identity w)) in E as (? & _ & _).
Qed.

(** C27 A rotation can always be completed.  Take a saved rotation whose two keys sit
    in their providers, and any number of attempts to resume it, each failing
    anywhere or not at all.  Then a state with the same bytes, hash, keys and
    idempotency key is saved, and unless the registry has rejected the entry, one
    undisturbed attempt (the registry accepts, the publication verifies) completes
    the rotation: the returned state is saved, activated and no longer paused,
    application signing is resumed, the manager signs with the target provider,
    whose active key is the new one, and the previous key is out of use. *)
Theorem rotation_recovers `{Platform, PyLib, Zlib} {P C : Type} `{KeyProviderSpec P, IdentityCache C Verified} (old new : JWK) (i j : nat)
    (r : KeyRotationResult) (w w1 : world P C) (Hsaved : recoverable old new i j r w) (Hattempts : rtc (attempt i j) w w1) :
  ∃ r1, durable (w_trace w1) = Some r1 ∧ core r1 = core r ∧
  ∀ env path, favourable (P := P) (C := C) env (w_identity w1) r1 → ∃ w2 r2,
    resume_key_rotation env path r1 (Some i) (Some j) (kr_previous_provider_reference r1) (kr_new_provider_reference r1) w1 = (w2, Ok r2)
    ∧ durable (w_trace w2) = Some r2 ∧ core r2 = core r ∧ kr_activated r2 = true ∧ kr_application_signing_paused r2 = false ∧ paused (w_trace w2) = false
    ∧ w_key_provider w2 = j ∧ kp_signing_key (w_providers w2 j) = Ok (Some new)
    ∧ existsb (py_eq (kr_previous_kid r)) (kp_list_key_ids (w_providers w2 i)) = false.
Proof.
  assert (advancing old new i j r w1) as (r1 & Hr1 & Hc1).
  { assert (advancing old new i j r w) as Hw by by exists r. clear Hsaved. induction Hattempts as [|x y z Hs _ IH]; [done|]. by apply IH, (attempt_recoverable _ _ _ _ _ _ _ Hs). }
  exists r1. split_and!; [apply Hr1|done|]. intros env path Hf.
  destruct (resume_key_rotation env path r1 _ _ _ _ w1) as [w2 o] eqn:E. pose proof E as Hx.
  eapply (rec_resume old new i j r env (w_identity w1)) in Hx as (_ & HQ & Hok); [|by split_and!]. specialize (Hok Hf). destruct o as [r2|e]; [|done].
  destruct (HQ r2 eq_refl Hf) as [Hr Hc Ha Hp Hj Hs]. exists w2, r2. destruct (rv_paused _ _ _ _ _ _ Hr Hp) as [_ Hpz].
  destruct (rv_used _ _ _ _ _ _ Hr) as [Hui Huj]. destruct (stage_answers _ _ _ _ _ _ _ (rv_keys _ _ _ _ _ _ Hr) Hui Huj Hs) as [_ _ Hids _ _ _].
  split_and!; try done; [apply Hr| |].
  - unfold stage_of in Hs. rewrite (signing_key_view _ Huj). destruct (Nat.eqb_spec i j) as [<-|]; [by destruct Hs as [-> _]|by destruct Hs as (_ & _ & ->)].
  - assert (kr_previous_kid r2 = kr_previous_kid r) as <-; [|by rewrite Hids]. by apply (f_equal kr_previous_kid) in Hc.
Qed.

(** ** A concrete rotation *)
Definition log_reference : str := lit "c2sp-tlog:public:https://log.example/dns#abc-1".
Definition rotating : IdentityConfig :=
  {| ic_domain := toy_domain; ic_governance_id := lit "example.com"; ic_log_ref := log_reference; ic_status_url := lit "https://example.com/su";
     ic_policy_flags := []; ic_max_key_age := []; ic_ek_url := lit "https://example.com/ek"; ic_ku_url := lit "https://agent.example.com/ku";
     ic_capabilities_url := []; ic_publish_profile := [] |}.

Definition first_key : StoredKey :=
  {| sk_kty := JStr (lit "OKP"); sk_crv := JStr (lit "Ed25519"); sk_alg := JStr (lit "EdDSA"); sk_use := JStr (lit "sig"); sk_kid := JStr (lit "ku-1");
     sk_x := JStr (b64url_encode op1_bytes false); sk_y := JStr []; sk_d := JStr (b64url_encode op1_bytes false) |}.
Definition second_key : StoredKey :=
  Eval vm_compute in match generate_stored_key [] (JStr (lit "EdDSA")) with Ok k => k | Raise _ => first_key end.

(** What is published after the rotation. *)
Definition rotating_manager : local_manager :=
  {| lm_identity := Some rotating; lm_key_provider := Some (toy_provider op1 op1_bytes); lm_entity_key_provider := Some (toy_provider entity entity_bytes);
     lm_log_binding := Some toy_local_binding; lm_write_event := None |}.
Definition rotating_text : str := Eval vm_compute in match create_txt_record rotating_manager with Ok t => t | Raise _ => [] end.
Definition rotating_fetch (path : list nat) (url : str) (boundary : option (str * bool)) (revalidate : bool) : res (json * TLSCertificate) :=
  if url ==? lit "https://example.com/ek" then Ok (key_set entity, toy_cert)
  else if url ==? lit "https://agent.example.com/ku" then Ok (key_set (public_jwk second_key), toy_cert)
  else Ok (status_document "ACTIVE", toy_cert).
Definition publication : environment :=
  {| env_now := λ _, toy_now; env_check := λ _, Ok (); env_schedule := λ _, {| cancel_seen := false; gave_up := false |};
     env_fetch_txt := λ _ _, DnsAnswer [{| txt_strings := [rotating_text]; txt_ttl := Some 60 |}] (Some VALID);
     env_https := InjectedFetcher rotating_fetch; env_registry := Some [(lit "c2sp-tlog", λ _ _, Ok toy_reader)] |}.

(** The registry: it prepares the event, and accepts whatever it is given. *)
Definition rotation_event (previous_thumbprint new_thumbprint : str) (new_key : JWK) : LogEvent :=
  toy_event 1700000100 [] [] [] (KeyRotationEvent (lit "ku-1") previous_thumbprint None (jwk_kid new_key) new_thumbprint (Some new_key) []).
Definition registry_prepare (path : list nat) (domain previous_thumbprint : str) (new_key : JWK) (key : str) : res bytes :=
  t ← thumbprint new_key;
  prepared ← prepare_event (rotation_event previous_thumbprint t new_key) log_reference
    (Some {| sequence := 1; previous_event_id := ctx_prev_event_id LifecycleDemo.rotation_context; previous_state_hash := ctx_prev_state_hash LifecycleDemo.rotation_context |});
  canonical_bytes (JDict (pe_envelope prepared)).
Definition registry_submit (path : list nat) (domain : str) (entry : bytes) (key : str) : res SubmissionResult :=
  Ok {| sr_state := lit "accepted"; sr_entry_hash := sha256_hexdigest entry; sr_index := Some 5;
        sr_log_ref := Some (lit "c2sp-tlog", lit "public:https://log.example/dns#abc-1@5");
        sr_key_id := match sk_kid second_key with JStr s => s | _ => [] end; sr_error_code := [] |}.

Definition rotation_world (file : option json) : world LocalKeyProvider (gmap str (VerifiedDomain log_binding)) :=
  {| w_providers := λ _, {| lk_store := {| ks_active := Some first_key; ks_retained := []; ks_pending := [] |}; lk_file := file |};
     w_key_provider := 0; w_identity := rotating; w_cache := ∅; w_trace := [] |}.
Definition toy_request : rotation_request :=
  {| rq_idempotency_key := lit "rotation-1"; rq_target := None; rq_previous_reference := []; rq_target_reference := []; rq_target_algorithm := None |}.

(** The entry, which the log then shows. *)
Definition toy_rotation_env (fates : list nat → fate) (events : list (Z * bytes)) : rotation_env :=
  {| re_verification := publication; re_config := {| vc_status_check_interval := 0; vc_dnssec_mode := Some REQUIRED; vc_trusted_entities := None |};
     re_rounds := 3; re_closed := false; re_fate := fates; re_prepare_key_rotation := registry_prepare; re_submit_prepared_event := registry_submit;
     re_complete_history := λ _, Some (λ _ _, Ok events) |}.
Definition toy_started : world LocalKeyProvider (gmap str (VerifiedDomain log_binding)) * result rotation_error KeyRotationResult :=
  rotate_operational_key (toy_rotation_env (λ _, Done) []) [] toy_request (rotation_world None).
Definition no_rotation : KeyRotationResult :=
  {| kr_previous_kid := JNull; kr_new_kid := JNull; kr_entry_bytes := []; kr_domain := []; kr_log_reference := []; kr_previous_thumbprint := [];
     kr_new_thumbprint := []; kr_previous_public_key := None; kr_entry_hash := []; kr_idempotency_key := []; kr_submission := None; kr_activated := false;
     kr_application_signing_paused := false; kr_previous_provider_reference := []; kr_new_provider_reference := [] |}.
(** Accepted and saved, before the log shows the entry. *)
Definition toy_accepted : KeyRotationResult := Eval vm_compute in default no_rotation (durable (w_trace toy_started.1)).
Lemma toy_accepted_durable : durable (w_trace toy_started.1) = Some toy_accepted.
Proof. vm_compute. reflexivity. Qed.
Definition toy_events : list (Z * bytes) := [(4, noise); (5, kr_entry_bytes toy_accepted)].

Lemma toy_recoverable : recoverable (public_jwk first_key) (public_jwk second_key) 0 0 toy_accepted toy_started.1.
Proof.
  split.
  - apply toy_accepted_durable.
  - split; [by eexists|by eexists|vm_compute; reflexivity|vm_compute; reflexivity|discriminate].
  - vm_compute. reflexivity.
  - reflexivity.
  - assert (in_use (w_providers toy_started.1 0%nat)) as Hu; [|by split].
    unfold in_use. assert (lk_file (w_providers toy_started.1 0%nat) = None) as -> by (vm_compute; reflexivity). done.
  - exists Untouched. split_and!; [|done|discriminate]. unfold stage_of. cbn [Nat.eqb].
    assert (kp_view (w_providers toy_started.1 0%nat) = {| kv_active := Some (public_jwk first_key); kv_retained := []; kv_pending := [public_jwk second_key] |}) as ->
      by (vm_compute; reflexivity).
    split; [done|]. exists [], []. split_and!; [done|constructor|constructor].
  - discriminate.
Qed.

(** An attempt that reconciles the keys and then cannot save that. *)
Definition full_at (n : nat) (path : list nat) : fate := if bool_decide (path = [2; 4; n]%nat) then Lost disk_full else Done.
Definition toy_attempt : world LocalKeyProvider (gmap str (VerifiedDomain log_binding)) * result rotation_error KeyRotationResult :=
  resume_key_rotation (toy_rotation_env (full_at 1) toy_events) [1%nat] toy_accepted (Some 0%nat) (Some 0%nat)
    (kr_previous_provider_reference toy_accepted) (kr_new_provider_reference toy_accepted) toy_started.1.
Lemma toy_attempt_fails : toy_attempt.2 = Raise (ManagedKeyRotationActivationError toy_accepted disk_full)
  ∧ kv_active (kp_view (w_providers toy_attempt.1 0%nat)) = Some (public_jwk second_key).
Proof. split; vm_compute; reflexivity. Qed.

Lemma toy_verifies (r : KeyRotationResult) (path : list nat) (w : world LocalKeyProvider (gmap str (VerifiedDomain log_binding))) : r = toy_accepted → w_identity w = rotating →
  is_Ok (rotation_publication (toy_rotation_env (λ _, Done) toy_events) path r w).2 = true.
Proof. intros -> Hid. destruct w as [providers n identity cache trace]. cbn in Hid. subst identity. vm_compute. reflexivity. Qed.

Lemma toy_attempt_trace : durable (w_trace toy_attempt.1) = Some toy_accepted ∧ w_identity toy_attempt.1 = rotating.
Proof. split; vm_compute; reflexivity. Qed.

Lemma toy_attempt_step : attempt 0 0 toy_started.1 toy_attempt.1.
Proof. unfold toy_attempt. exact (attempt_resume 0 0 toy_started.1 (toy_rotation_env (full_at 1) toy_events) [1%nat] toy_accepted toy_accepted_durable). Qed.

Lemma rotation_recovers_witness : ∃ w2 r2,
  resume_key_rotation (toy_rotation_env (λ _, Done) toy_events) [2%nat] toy_accepted (Some 0%nat) (Some 0%nat) [] [] toy_attempt.1 = (w2, Ok r2)
  ∧ kr_activated r2 = true ∧ kp_signing_key (w_providers w2 0%nat) = Ok (Some (public_jwk second_key)).
Proof.
  destruct (rotation_recovers (public_jwk first_key) (public_jwk second_key) 0 0 toy_accepted toy_started.1 toy_attempt.1) as (r1 & Hd & _ & Hf).
  - apply toy_recoverable.
  - apply rtc_once, toy_attempt_step.
  - destruct toy_attempt_trace as [Ht Hid]. rewrite Ht in Hd. injection Hd as <-.
    destruct (Hf (toy_rotation_env (λ _, Done) toy_events) [2%nat]) as (w2 & r2 & Hx & _ & _ & Ha & _ & _ & _ & Hk & _).
    + rewrite Hid. split; [intros ?; reflexivity|]. split; [vm_compute; reflexivity|]. intros path w Hw. apply toy_verifies; [reflexivity|exact Hw].
    + exists w2, r2. split; [exact Hx|]. split; [exact Ha|exact Hk].
Defined.

Lemma toy_runs : rtc rotation_step (rotation_world None) toy_attempt.1.
Proof.
  eapply rtc_l; [exact (step_rotate (rotation_world None) (toy_rotation_env (λ _, Done) []) [] toy_request)|]. apply rtc_once. change (rotation_step toy_started.1 toy_attempt.1).
  unfold toy_attempt. exact (step_resume toy_started.1 (toy_rotation_env (full_at 1) toy_events) [1%nat] toy_accepted (Some 0%nat) (Some 0%nat)
    (kr_previous_provider_reference toy_accepted) (kr_new_provider_reference toy_accepted) toy_accepted_durable).
Qed.

(** The one submission of this run, and what was done before and after it. *)
Definition toy_trace : list effect := w_trace toy_attempt.1.
Definition toy_before : list effect := drop 6 toy_trace.
Lemma toy_trace_cut : toy_trace = take 5 toy_trace ++ Submits toy_domain (kr_entry_bytes toy_accepted) (lit "rotation-1") :: toy_before.
Proof. vm_compute. reflexivity. Qed.
Lemma rotation_ordered_witness : paused toy_before = true ∧ ∃ r, durable toy_before = Some r ∧ kr_entry_bytes r = kr_entry_bytes toy_accepted ∧ submission_accepted r = false.
Proof.
  destruct (rotation_ordered (rotation_world None) toy_attempt.1 toy_runs eq_refl toy_before (Submits toy_domain (kr_entry_bytes toy_accepted) (lit "rotation-1"))
    (take 5 toy_trace) toy_trace_cut) as (Hp & r & Hd & _ & Hb & _ & _ & Ha). split; [exact Hp|]. exists r. split; [exact Hd|]. split; [exact Hb|exact Ha].
Defined.
