(* ===== verification/HttpModels.v ===== *)
(** * HTTP messages and their signature parameters ([dnsid/models.py])

    Buffered messages, component identifiers and the [Signature-Input] field of
    RFC 9421.  Structured fields are parsed and written by the package
    [http_sf], which is a parameter. *)
From S2P Require Import Prelude Errors PyText Utils Keys Identity Manager.

(** ** Structured fields *)

(** The Python values of bare items: [int], [Decimal], [str], [Token], [bytes],
    [bool], [datetime] and [DisplayString]. *)
Inductive bare_item : Set :=
| SfInt (z : Z) | SfDecimal (text : str) | SfString (s : str) | SfToken (s : str)
| SfBytes (b : bytes) | SfBool (b : bool) | SfDate (seconds : Z) | SfDisplay (s : str).
#[global] Instance bare_item_eq_dec : EqDecision bare_item.
Proof. solve_decision. Defined.

Abbreviation sf_params := (list (str * bare_item)) (only parsing).
Inductive sf_member : Set :=
| SfItem (value : bare_item) (parameters : sf_params)
| SfInner (items : list (bare_item * sf_params)) (parameters : sf_params).

(** [http_sf.parse] with the keys it reports as duplicates (key and context), and
    [http_sf.ser] of a bare item, an item and a dictionary. *)
Class StructuredFields := {
  sf_parse_dictionary : bytes → res (list (str * sf_member) * list (str * str));
  sf_parse_item : bytes → res (bare_item * sf_params * list (str * str));
  sf_ser_bare : bare_item → res str;
  sf_ser_item : bare_item → sf_params → res str;
  sf_ser_dictionary : list (str * sf_member) → res str
}.

Definition is_rfc9651 (v : bare_item) : bool := match v with SfDate _ | SfDisplay _ => true | _ => false end.
Definition any_rfc9651 (ps : sf_params) : bool := existsb (λ p, is_rfc9651 p.2) ps.
Definition item_rfc9651 (i : bare_item * sf_params) : bool := is_rfc9651 i.1 || any_rfc9651 i.2.
Definition member_rfc9651 (m : sf_member) : bool :=
  match m with
  | SfItem v ps => item_rfc9651 (v, ps)
  | SfInner items ps => existsb item_rfc9651 items || any_rfc9651 ps
  end.
Definition reject_rfc9651_values (found : bool) : res unit :=
  raise_if found (ValueError (lit "RFC 9651 Date and Display String values are unsupported")).

(** [except (UnicodeEncodeError, ValueError)] around a parse. *)
Definition as_value_error {A} (m : res A) : res A :=
  try_except m (λ e, if is_value_error e then Raise (ValueError (exn_str e)) else Raise e).

Definition profile_parameter_names : list str :=
  lit <$> ["keyid"; "alg"; "created"; "expires"; "nonce"; "tag"; "req"; "key"; "name"]%string.

Section fields.
Context `{StructuredFields}.

Definition parse_sf_dictionary (value : str) (reject_duplicate_parameters : bool) : res (list (str * sf_member)) :=
  '(parsed, duplicates) ← as_value_error (b ← ascii_only value; sf_parse_dictionary b);
  raise_if (existsb (λ d, reject_duplicate_parameters || (d.2 ==? lit "dictionary") || bool_decide (d.1 ∈ profile_parameter_names)) duplicates)
    (ValueError (lit "duplicate key")) ;;
  reject_rfc9651_values (existsb (λ m, member_rfc9651 m.2) parsed) ;;
  Ok parsed.

(** ** Component identifiers *)
Definition derived_components : list str :=
  lit <$> ["@method"; "@authority"; "@target-uri"; "@path"; "@query"; "@query-param"; "@status"; "@request-target"; "@scheme"]%string.

Definition component_structure (component : str) : res (str * sf_params) :=
  serialized ← match List.find (λ name, (component ==? name) || startswith (name ++ [59]) component) derived_components with
               | Some name => quoted ← sf_ser_bare (SfString name); Ok (quoted ++ drop (length name) component)
               | None => Ok component
               end;
  '(parsed, duplicates) ← as_value_error (b ← ascii_only serialized; sf_parse_item b);
  raise_if (negb (duplicates ==? [])) (ValueError (lit "duplicate key")) ;;
  match parsed with
  | (SfString name, ps) | (SfToken name, ps) =>
      reject_rfc9651_values (any_rfc9651 ps) ;;
      Ok (name, ps)
  | _ => Raise (ValueError (lit "component identifier must be a String or Token item"))
  end.

Definition component_public_text (name : str) (parameters : sf_params) : res str :=
  item ← sf_ser_item (SfString name) parameters;
  prefix ← sf_ser_bare (SfString name);
  raise_if (negb (startswith prefix item)) (ValueError (lit "invalid component serialization")) ;;
  Ok (name ++ drop (length prefix) item).

Definition canonical_component_identifier (component : str) : res str :=
  '(name, parameters) ← component_structure component; sf_ser_item (SfString name) parameters.

Definition simple_derived : list str :=
  lit <$> ["@method"; "@authority"; "@target-uri"; "@path"; "@query"; "@request-target"; "@scheme"]%string.

(** [(name, frozenset(parameters))], and equality of two of them. *)
Abbreviation identity := (str * sf_params)%type (only parsing).
Definition same_identity (a b : identity) : bool :=
  (a.1 ==? b.1) && forallb (λ p, bool_decide (p ∈ b.2)) a.2 && forallb (λ p, bool_decide (p ∈ a.2)) b.2.

Definition nonempty_string (v : option bare_item) : bool :=
  match v with Some (SfString (_ :: _)) => true | _ => false end.

(** The parameters a component may have; [request_context] is [False] for the
    signature of a request, [True] for a response and [None] when not known. *)
Definition allowed_parameters (name : str) (values : sf_params) (request_context : option bool) : res (list str) :=
  if bool_decide (name ∈ simple_derived) then Ok [lit "req"]
  else if name ==? lit "@query-param" then
    raise_if (negb (nonempty_string (dict_get (lit "name") values)))
      (vfail RECORD_INVALID "@query-param requires a non-empty string name parameter") ;;
    Ok [lit "name"; lit "req"]
  else if name ==? lit "@status" then
    raise_if (bool_decide (request_context = Some false)) (vfail RECORD_INVALID "@status is unavailable for a request signature") ;;
    Ok []
  else if is_lowercase_http_field_name name then
    raise_if (bool_decide (is_Some (dict_get (lit "key") values)) && negb (nonempty_string (dict_get (lit "key") values)))
      (vfail RECORD_INVALID "field component key parameter must be a non-empty string") ;;
    Ok [lit "key"; lit "req"]
  else Raise (vfail RECORD_INVALID "unsupported component identifier").

Definition validate_component (component : str) (request_context : option bool) : res identity :=
  '(name, values) ← try_except (component_structure component)
    (λ e, if is_value_error e then Raise (vfail RECORD_INVALID "malformed component identifier") else Raise e);
  allowed ← allowed_parameters name values request_context;
  raise_if (existsb (λ p, negb (bool_decide (p.1 ∈ allowed))) values) (vfail RECORD_INVALID "unsupported component parameter") ;;
  match dict_get (lit "req") values with
  | None => Ok ()
  | Some v =>
      raise_if (negb (bool_decide (v = SfBool true))) (vfail RECORD_INVALID "component req parameter must be Boolean true") ;;
      raise_if (bool_decide (request_context = Some false)) (vfail RECORD_INVALID "component req parameter requires response request context")
  end ;;
  Ok (name, values).

Fixpoint validate_components (seen : list identity) (components : list str) (request_context : option bool) : res unit :=
  match components with
  | [] => Ok ()
  | component :: components =>
      id ← validate_component component request_context;
      raise_if (existsb (same_identity id) seen) (vfail RECORD_INVALID "duplicate equivalent covered component") ;;
      validate_components (id :: seen) components request_context
  end.
Definition validate_component_identifiers : list str → option bool → res unit := validate_components [].

(** ** Signature parameters *)
Record SignatureParams : Set := {
  sp_label : str;
  sp_key_id : str;
  sp_alg : str;
  sp_created : option Z;
  sp_expires : option Z;
  sp_nonce : str;
  sp_components : list str;
  sp_tag : option str;
  sp_parameters : sf_params
}.

(** The members of [known], [None] where the value is [None]. *)
Definition known_parameters (p : SignatureParams) : list (str * option bare_item) :=
  [(lit "keyid", Some (SfString (sp_key_id p))); (lit "alg", Some (SfString (sp_alg p))); (lit "created", SfInt <$> sp_created p);
   (lit "expires", SfInt <$> sp_expires p); (lit "nonce", Some (SfString (sp_nonce p))); (lit "tag", SfString <$> sp_tag p)].

Definition ordered_parameters (p : SignatureParams) : sf_params :=
  let known := known_parameters p in
  match sp_parameters p with
  | [] => omap (λ '(name, value), match value with Some (SfString []) | None => None | Some v => Some (name, v) end) known
  | given => omap (λ '(name, value), match dict_get name known with
                                     | None => Some (name, value)
                                     | Some None => None
                                     | Some (Some v) => Some (name, v)
                                     end) given
  end.

Definition structured_value (p : SignatureParams) : res sf_member :=
  items ← mapM_res (λ c, '(name, ps) ← component_structure c; Ok (SfString name, ps)) (sp_components p);
  let ordered := ordered_parameters p in
  raise_if (negb (bool_decide (NoDup ordered.*1))) (ValueError (lit "duplicate Signature-Input parameter")) ;;
  reject_rfc9651_values (any_rfc9651 ordered) ;;
  Ok (SfInner items ordered).

Definition removeprefix (p s : str) : str := if startswith p s then drop (length p) s else s.
Definition value_string (p : SignatureParams) : res str :=
  value ← structured_value p;
  serialized ← sf_ser_dictionary [(lit "x", value)];
  Ok (removeprefix (lit "x=") serialized).
Definition serialize_params (p : SignatureParams) : res str :=
  value ← structured_value p; sf_ser_dictionary [(sp_label p, value)].

(** [created] and [expires]: absent, or an [int]. *)
Definition int_parameter (v : option bare_item) (msg : string) : res (option Z) :=
  match v with
  | None => Ok None
  | Some (SfInt z) => Ok (Some z)
  | Some _ => Raise (vfail RECORD_INVALID msg)
  end.
(** [keyid], [alg], [nonce] and [tag]: absent, or a [str]. *)
Definition string_parameter (v : option bare_item) : res (option str) :=
  match v with
  | None => Ok None
  | Some (SfString s) => Ok (Some s)
  | Some _ => Raise (vfail RECORD_INVALID "Signature-Input keyid, alg, nonce, and tag parameters must be strings")
  end.

Definition from_structured_member (label : str) (member : sf_member) : res SignatureParams :=
  match member with
  | SfItem _ _ => Raise (vfail RECORD_INVALID "Signature-Input member must be an Inner List")
  | SfInner raw_components parameters =>
      components ← mapM_res (λ i, match i with
        | (SfString name, ps) => component_public_text name ps
        | _ => Raise (vfail RECORD_INVALID "Signature-Input components must be RFC 8941 Strings")
        end) raw_components;
      validate_component_identifiers components None ;;
      raise_if (negb (bool_decide (NoDup (filter (λ n, n ∈ (lit <$> ["keyid"; "alg"; "created"; "expires"; "nonce"; "tag"]%string)) parameters.*1))))
        (vfail RECORD_INVALID "duplicate known Signature-Input parameter") ;;
      created ← int_parameter (dict_get (lit "created") parameters) "Signature-Input 'created' must be an integer";
      expires ← int_parameter (dict_get (lit "expires") parameters) "Signature-Input 'expires' must be an integer";
      keyid ← string_parameter (dict_get (lit "keyid") parameters);
      alg ← string_parameter (dict_get (lit "alg") parameters);
      nonce ← string_parameter (dict_get (lit "nonce") parameters);
      tag ← string_parameter (dict_get (lit "tag") parameters);
      Ok {| sp_label := label; sp_key_id := default [] keyid; sp_alg := default [] alg; sp_created := created; sp_expires := expires;
            sp_nonce := default [] nonce; sp_components := components; sp_tag := tag; sp_parameters := parameters |}
  end.

Definition parse_input_dictionary (sig_input : str) : res (list (str * sf_member)) :=
  try_except (parse_sf_dictionary sig_input false)
    (λ e, if is_value_error e then Raise (vfail RECORD_INVALID "malformed Signature-Input dictionary") else Raise e).

(** [SignatureParams.parse] *)
Definition parse_params (sig_input : str) : res SignatureParams :=
  members ← parse_input_dictionary sig_input;
  match members with
  | [] => Raise (vfail RECORD_INVALID "Signature-Input has no members")
  | (label, member) :: _ => from_structured_member label member
  end.

(** [SignatureParams.parse_dictionary]; each value carries its label. *)
Definition parse_dictionary (sig_input : str) : res (list SignatureParams) :=
  members ← parse_input_dictionary sig_input;
  mapM_res (λ '(label, member), from_structured_member label member) members.
End fields.

(** ** Messages *)
Record HttpRequest : Set := {
  hr_method : str;
  hr_url : str;
  hr_headers : list (str * str);
  hr_body : option bytes;
  hr_status : option Z
}.
#[global] Instance HttpRequest_eq_dec : EqDecision HttpRequest.
Proof. solve_decision. Defined.

Definition with_headers (r : HttpRequest) (headers : list (str * str)) : HttpRequest :=
  {| hr_method := hr_method r; hr_url := hr_url r; hr_headers := headers; hr_body := hr_body r; hr_status := hr_status r |}.
Definition with_body (r : HttpRequest) (body : option bytes) : HttpRequest :=
  {| hr_method := hr_method r; hr_url := hr_url r; hr_headers := hr_headers r; hr_body := body; hr_status := hr_status r |}.

Section messages.
Context `{Platform}.

(** [value.strip(" \t")] *)
Definition strip_blanks (s : str) : str := strip (λ c, (c =? 32) || (c =? 9)) s.

Definition named (name : str) (h : str * str) : bool := str_lower h.1 ==? str_lower name.
Definition get_header (r : HttpRequest) (name : str) : str :=
  join (lit ", ") (map (λ h, strip_blanks h.2) (List.filter (named name) (hr_headers r))).
Definition has_header (r : HttpRequest) (name : str) : bool := existsb (named name) (hr_headers r).
Definition set_header (r : HttpRequest) (name value : str) : HttpRequest :=
  with_headers r (dict_set (str_lower name) value (List.filter (λ h, negb (named name h)) (hr_headers r))).
End messages.

(** ** Options *)
Record ResponseSignatureOptions : Set := { ro_expected_domain : str; ro_additional_components : list str }.
Record HttpSigningOptions : Set := {
  so_additional_components : list str;
  so_label : str;
  so_tag : str;
  so_expires_in_seconds : Z;
  so_response_signature : option ResponseSignatureOptions
}.
Record HttpVerificationOptions : Set := { vo_required_components : list str; vo_required_tag : option str }.
Definition default_verification : HttpVerificationOptions :=
  {| vo_required_components := lit <$> ["@method"; "@authority"; "@target-uri"]%string; vo_required_tag := None |}.
