(* ===== verification/HttpSignatures.v ===== *)
(** * HTTP message signatures ([dnsid/http_signatures.py])

    The RFC 9421 profile: signature bases, signing and verification of requests,
    and negotiated signatures of responses.  The identity of a signer is resolved
    through the interface [IdentityResolver]. *)
From S2P Require Import Prelude Sha256 Errors PyText Base64 Utils Lr Canonical Keys Identity Manager Publication HttpModels.

(** ** [urllib.parse] *)
Definition trailing_octets (b0 : Z) : nat :=
  if (0xC2 <=? b0) && (b0 <=? 0xDF) then 1
  else if (0xE0 <=? b0) && (b0 <=? 0xEF) then 2
  else if (0xF0 <=? b0) && (b0 <=? 0xF4) then 3 else 0.
Definition second_ok (b0 b1 : Z) : bool :=
  cont b1 && negb ((b0 =? 0xE0) && (b1 <? 0xA0)) && negb ((b0 =? 0xED) && (0x9F <? b1))
  && negb ((b0 =? 0xF0) && (b1 <? 0x90)) && negb ((b0 =? 0xF4) && (0x8F <? b1)).
(** The octets after [b0] that continue a character. *)
Definition continuation (b0 : Z) (r : bytes) : bytes :=
  match take (trailing_octets b0) r with
  | b1 :: r' => if second_ok b0 b1 then b1 :: take_while cont r' else []
  | [] => []
  end.
(** [b.decode("utf-8", errors="replace")]; every step consumes an octet. *)
Fixpoint utf8_decode_replace (fuel : nat) (b : bytes) : str :=
  match fuel, b with
  | S fuel, b0 :: r =>
      if b0 <? 0x80 then b0 :: utf8_decode_replace fuel r
      else
        let good := continuation b0 r in
        let n := trailing_octets b0 in
        (if negb (n =? 0)%nat && (length good =? n)%nat
         then foldl (λ a x, a * 64 + (x - 0x80)) (b0 - match n with 1%nat => 0xC0 | 2%nat => 0xE0 | _ => 0xF0 end) good
         else 0xFFFD) :: utf8_decode_replace fuel (drop (length good) r)
  | _, _ => []
  end.

Fixpoint unquote_to_bytes (s : str) : bytes :=
  match s with
  | 37 :: ((a :: b :: s') as rest) =>
      if is_hex a && is_hex b then (16 * hex_value a + hex_value b) :: unquote_to_bytes s' else 37 :: unquote_to_bytes rest
  | c :: s => c :: unquote_to_bytes s
  | [] => []
  end.
Definition is_ascii (c : Z) : bool := c <? 128.
(** [unquote]: every run of ASCII characters is decoded; a step consumes a run. *)
Fixpoint unquote_runs (fuel : nat) (s : str) : str :=
  match fuel, s with
  | S fuel, c :: _ =>
      let run := take_while (if is_ascii c then is_ascii else λ c, negb (is_ascii c)) s in
      (if is_ascii c then let b := unquote_to_bytes run in utf8_decode_replace (length b) b else run)
      ++ unquote_runs fuel (drop (length run) s)
  | _, _ => []
  end.
Definition unquote (s : str) : str := unquote_runs (length s) s.
Definition unquote_plus (s : str) : str := unquote (map (λ c, if c =? 43 then 32 else c) s).

(** [parse_qsl(qs, keep_blank_values=True)] *)
Definition parse_qsl (qs : str) : list (str * str) :=
  omap (λ name_value, match name_value with
        | [] => None
        | _ => let '(name, _, value) := partition_at 61 name_value in Some (unquote_plus name, unquote_plus value)
        end) (split 38 qs).

Definition upper_hex_digit (n : Z) : Z := if n <? 10 then 48 + n else 55 + n.
(** [quote(s, safe="*-._")] *)
Definition quote_octet (b : Z) : str :=
  if is_alnum b || existsb (Z.eqb b) (lit "_.-~*") then [b] else [37; upper_hex_digit (b / 16); upper_hex_digit (b mod 16)].
Definition quote (s : str) : res str := b ← utf8_encode s; Ok (concat (map quote_octet b)).

(** ** Parameters *)

(** [str.isdigit] of one character, [str.upper], and [str] of a JSON value that is
    no string. *)
Class HttpPlatform := { unicode_isdigit : Z → bool; str_upper : str → str; other_str : json → str }.

(** [IdentityResolver]: resolving a domain in a state [S]. *)
Class IdentityResolver (S V : Type) := resolve_domain : list nat → str → option TLSCertificate → MM S V.

(** Freshness settings, in microseconds. *)
Record HttpMessageSignatureConfig : Set := { hc_max_age : Z; hc_clock_skew : Z }.
Definition check_http_config (c : HttpMessageSignatureConfig) : res unit :=
  raise_if (hc_max_age c <=? 0) (ArgumentError (lit "HTTP message signature max_age must be positive")) ;;
  raise_if (hc_clock_skew c <? 0) (ArgumentError (lit "HTTP message signature clock_skew must be non-negative")).
Definition default_http_config : HttpMessageSignatureConfig := {| hc_max_age := 300 * 1000000; hc_clock_skew := 5 * 1000000 |}.
(** [int(delta.total_seconds())] of a non-negative [delta]. *)
Definition whole_seconds (us : Z) : Z := us / 1000000.

Record HttpSignatureProfile : Type := {
  hp_key_provider : option SigningProvider;
  hp_domain : str;
  hp_config : HttpMessageSignatureConfig
}.

(** The clock in microseconds, [os.urandom(32)], and the deadline. *)
Record http_env : Type := { he_clock : list nat → Z; he_urandom : list nat → bytes; he_check : list nat → res unit }.

Definition RESPONSE_SIGNATURE_LIFETIME : Z := 60.
Definition NO_CONTENT_STATUSES : list Z := [204; 205; 304].
Definition MAX_BODY : Z := 8 * 1024 * 1024.
Definition MAX_ACCEPT_SIGNATURE : Z := 16384.
Definition MAX_NONCE : Z := 1024.

Definition response_error (msg : string) : exn := vfail SIGNATURE_INVALID msg.
Definition invalid_record (msg : string) : exn := vfail RECORD_INVALID msg.

(** [isinstance(exc, DNSidError)] *)
Definition is_dnsid (e : exn) : bool :=
  match e with ParseError _ | ValidationError _ | ArgumentError _ | NetworkError _ | OAuthError _ _ => true | e => is_verification e end.

Section signatures.
Context `{Platform, HttpPlatform, StructuredFields}.

Definition init_profile (provider : option SigningProvider) (domain : str) (config : option HttpMessageSignatureConfig) : res HttpSignatureProfile :=
  domain ← (if domain ==? [] then Ok [] else normalize_fqdn idna_encode domain false);
  Ok {| hp_key_provider := provider; hp_domain := domain; hp_config := default default_http_config config |}.

Definition local_domain (m : local_manager) : str := match lm_identity m with Some c => ic_domain c | None => [] end.
Definition from_identity_manager (m : local_manager) (config : option HttpMessageSignatureConfig) : res HttpSignatureProfile :=
  init_profile (lm_key_provider m) (local_domain m) config.

(** ** Authorities and targets *)
Definition isdigit (s : str) : bool := negb (s ==? []) && forallb (λ c, is_digit c || unicode_isdigit c) s.

Definition default_port (scheme port : str) : bool :=
  ((scheme ==? lit "https") && (port ==? lit "443")) || ((scheme ==? lit "http") && (port ==? lit "80")).
Definition normalize_authority (authority scheme : str) : str :=
  let '(host, sep, port_str) := rpartition_at 58 authority in
  if sep && negb (bool_decide (58 ∈ host)) && isdigit port_str then
    if default_port scheme port_str then str_lower host else str_lower host ++ [58] ++ port_str
  else str_lower authority.

Definition resolve_authority (req : HttpRequest) : res str :=
  let host_header := get_header req (lit "host") in
  parsed ← urlsplit netloc_ok (hr_url req);
  if negb (host_header ==? []) then Ok (normalize_authority host_header (url_scheme parsed))
  else
    let host := str_lower (default [] (hostname str_lower (url_netloc parsed))) in
    port ← port (url_netloc parsed);
    match port with
    | Some n => if negb (n =? 0) && negb (((url_scheme parsed ==? lit "https") && (n =? 443)) || ((url_scheme parsed ==? lit "http") && (n =? 80)))
                then Ok (host ++ [58] ++ str_of_int n) else Ok host
    | None => Ok host
    end.

Definition target_uri (url : str) : res str :=
  parts ← urlsplit netloc_ok url;
  let origin := url_scheme parts ++ lit "://" ++ url_netloc parts in
  if negb (url_path parts ==? []) || (url_netloc parts ==? []) || negb (str_lower (take (length origin) url) ==? str_lower origin)
  then Ok url else Ok (origin ++ [47] ++ drop (length origin) url).

(** ** Dictionary members *)
Definition sf_dictionary_member (field_value member : str) : res (option str) :=
  dictionary ← try_except (parse_sf_dictionary field_value false)
    (λ e, if is_value_error e then Raise (invalid_record "malformed Structured Fields Dictionary") else Raise e);
  match dict_get member dictionary with
  | None => Ok None
  | Some (SfInner items ps) => text ← sf_ser_dictionary [(member, SfInner items ps)]; Ok (Some (drop (length member + 1) text))
  | Some (SfItem v ps) => text ← sf_ser_item v ps; Ok (Some text)
  end.

Definition parse_signature_dictionary (sig_header : str) : res (list (str * bytes)) :=
  dictionary ← try_except (parse_sf_dictionary sig_header false)
    (λ e, if is_value_error e then Raise (response_error "malformed Signature dictionary") else Raise e);
  mapM_res (λ '(label, member), match member with
    | SfItem (SfBytes b) [] => Ok (label, b)
    | _ => Raise (response_error "Signature member must be an unparameterized byte sequence")
    end) dictionary.

Definition extract_signature_bytes (sig_header label : str) : res bytes :=
  signatures ← parse_signature_dictionary sig_header;
  match dict_get label signatures with
  | Some b => Ok b
  | None => Raise (response_error "Signature header missing entry for label")
  end.

(** ** The signature base *)
Definition query_param_value (req : HttpRequest) (selected_name : str) : res str :=
  parsed ← urlsplit netloc_ok (hr_url req);
  match List.filter (λ kv, kv.1 ==? unquote_plus selected_name) (parse_qsl (url_query parsed)) with
  | [(_, value)] => q ← quote value; Ok (concat (map (λ c, if c =? 126 then lit "%7E" else [c]) q))
  | _ => Raise (invalid_record "@query-param selected parameter must be present exactly once")
  end.

Definition with_query (path query : str) : str := path ++ (if query ==? [] then [] else [63] ++ query).

(** The message a component is read from. *)
Definition component_source (response : HttpRequest) (request_context : option HttpRequest) (name : str) (ps : sf_params) : res HttpRequest :=
  if bool_decide (is_Some (dict_get (lit "req") ps)) then
    match request_context with Some r => Ok r | None => Raise (invalid_record "originating request is unavailable") end
  else
    raise_if (bool_decide (is_Some (hr_status response)) && startswith [64] name && negb (name ==? lit "@status"))
      (invalid_record "request derived component requires req") ;;
    Ok response.

Definition string_of (v : option bare_item) : str := match v with Some (SfString s) => s | _ => [] end.

(** The value of a component whose identifier was validated. *)
Definition component_value (response req : HttpRequest) (name : str) (ps : sf_params) : res str :=
  let split := urlsplit netloc_ok (hr_url req) in
  let slash p := if p ==? [] then [47] else p in
  if name ==? lit "@method" then Ok (hr_method req)
  else if name ==? lit "@authority" then resolve_authority req
  else if name ==? lit "@target-uri" then target_uri (hr_url req)
  else if name ==? lit "@path" then p ← split; Ok (slash (url_path p))
  else if name ==? lit "@query" then p ← split; Ok ([63] ++ url_query p)
  else if name ==? lit "@request-target" then p ← split; Ok (with_query (slash (url_path p)) (url_query p))
  else if name ==? lit "@scheme" then p ← split; Ok (str_lower (url_scheme p))
  else if name ==? lit "@query-param" then query_param_value req (string_of (dict_get (lit "name") ps))
  else if name ==? lit "@status" then
    match hr_status response with
    | Some n => raise_if (negb ((100 <=? n) && (n <=? 599))) (invalid_record "actual response status is unavailable") ;; Ok (str_of_int n)
    | None => Raise (invalid_record "actual response status is unavailable")
    end
  else if startswith [64] name then Raise (invalid_record "unsupported or unavailable derived component")
  else
    raise_if (negb (has_header req name)) (invalid_record "covered component header is absent from the message") ;;
    match dict_get (lit "key") ps with
    | None => Ok (get_header req name)
    | Some v =>
        value ← sf_dictionary_member (get_header req name) (string_of (Some v));
        match value with Some v => Ok v | None => Raise (invalid_record "field has no such dictionary member") end
    end.

Definition component_line (response : HttpRequest) (request_context : option HttpRequest) (component : str) : res str :=
  '(name, ps) ← component_structure component;
  identifier ← canonical_component_identifier component;
  req ← component_source response request_context name ps;
  value ← component_value response req name ps;
  Ok (identifier ++ lit ": " ++ value).

Definition QUOTED_SIGNATURE_PARAMS : str := [34] ++ lit "@signature-params" ++ [34].
Definition build_signature_base (req : HttpRequest) (params : SignatureParams) (request_context : option HttpRequest) : res bytes :=
  validate_component_identifiers (sp_components params)
    (Some (bool_decide (is_Some (hr_status req)) || bool_decide (is_Some request_context))) ;;
  lines ← mapM_res (component_line req request_context) (sp_components params);
  value ← value_string params;
  utf8_encode (join [10] (lines ++ [QUOTED_SIGNATURE_PARAMS ++ lit ": " ++ value])).

(** ** Fields that signing writes *)
Definition replace_signature_input_member (header : str) (params : SignatureParams) : res str :=
  members ← (if header ==? [] then Ok [] else parse_dictionary header);
  let members := dict_set (sp_label params) params (map (λ p, (sp_label p, p)) members) in
  texts ← mapM_res (λ m, serialize_params m.2) members;
  Ok (join (lit ", ") texts).

Definition byte_member (name : str) (value : bytes) : str := name ++ lit "=:" ++ b64_std_encode value ++ [58].
Definition replace_signature_member (header label : str) (signature : bytes) : res str :=
  members ← (if header ==? [] then Ok [] else parse_signature_dictionary header);
  Ok (join (lit ", ") (map (λ m, byte_member m.1 m.2) (dict_set label signature members))).

Definition digest_field (content : bytes) : str := byte_member (lit "sha-256") (sha256 content).

(** ** Content digests and limits *)
Definition parse_content_digest (header_value : str) : res bytes :=
  dictionary ← try_except (parse_sf_dictionary header_value false)
    (λ e, if is_value_error e then Raise (response_error "malformed Content-Digest header") else Raise e);
  match dict_get (lit "sha-256") dictionary with
  | Some (SfItem (SfBytes b) _) => Ok b
  | _ => Raise (response_error "Content-Digest does not contain the required sha-256 member")
  end.

(** [any(_parse_component_identifier(c)[0] == name for c in components)] *)
Fixpoint any_component (name : str) (components : list str) : res bool :=
  match components with
  | [] => Ok false
  | c :: components => '(n, _) ← component_structure c; if n ==? name then Ok true else any_component name components
  end.

(** The comparison is remembered per header value for the candidates of one
    message, which share header and body. *)
Definition check_content_digest (message : HttpRequest) (params : SignatureParams) : res unit :=
  raise_if (bool_decide (is_Some (hr_body message)) && negb (bool_decide (lit "content-digest" ∈ sp_components params)))
    (invalid_record "supplied content requires covered Content-Digest") ;;
  covered ← any_component (lit "content-digest") (sp_components params);
  if covered : bool then
    match hr_body message with
    | None => Raise (invalid_record "covered Content-Digest requires supplied content")
    | Some body =>
        raise_if (negb (has_header message (lit "content-digest"))) (invalid_record "covered Content-Digest header is absent") ;;
        expected ← parse_content_digest (get_header message (lit "content-digest"));
        raise_if (negb (expected ==? sha256 body)) (response_error "Content-Digest does not match content")
    end
  else Ok ().

Definition check_message_limits (message : HttpRequest) : res unit :=
  raise_if ((65536 <? len (get_header message (lit "signature-input")) + len (get_header message (lit "signature")))
            || (16384 <? len (get_header message (lit "content-digest")))
            || match hr_body message with Some b => MAX_BODY <? len b | None => false end)
    (invalid_record "HTTP signature input too large").

(** ** Negotiated responses *)
Definition response_components (request_label : str) : list str :=
  let key := dumps_ascii_str request_label in
  [lit "@status"; lit "@method;req"; lit "@authority;req"; lit "@target-uri;req"; lit "accept-signature;req";
   lit "signature-input;req;key=" ++ key; lit "signature;req;key=" ++ key; lit "content-digest"; lit "cache-control"].

Definition requires_req (component : str) : res unit :=
  '(name, ps) ← component_structure component;
  let req := bool_decide (dict_get (lit "req") ps = Some (SfBool true)) in
  raise_if (startswith [64] name && negb (name ==? lit "@status") && negb req)
    (response_error "request derived response components require req") ;;
  raise_if (((name ==? lit "signature") || (name ==? lit "signature-input")) && negb req)
    (response_error "response components cannot cover response signature fields").
Definition validate_response_components (components : list str) : res unit :=
  raise_if (64 <? len components) (response_error "response component limit exceeded") ;;
  validate_component_identifiers components (Some true) ;;
  forM_res requires_req components.

(** The additions that are not among the identities already required. *)
Fixpoint new_additions (identities : list (str * sf_params)) (components : list str) : res (list str) :=
  match components with
  | [] => Ok []
  | component :: components =>
      validate_response_components [component] ;;
      id ← component_structure component;
      if existsb (same_identity id) identities then new_additions identities components
      else rest ← new_additions (id :: identities) components; Ok (component :: rest)
  end.

Definition response_policy (opts : ResponseSignatureOptions) (request_label : str) : res ResponseSignatureOptions :=
  try_except
    (domain ← normalize_fqdn idna_encode (ro_expected_domain opts) true;
     let required := response_components request_label in
     identities ← mapM_res component_structure required;
     additions ← new_additions identities (ro_additional_components opts);
     validate_response_components (required ++ additions) ;;
     Ok {| ro_expected_domain := domain; ro_additional_components := additions |})
    (λ e, match e with
          | ValidationError _ | ValueError _ => Raise (ArgumentError (exn_str e))
          | e => if is_verification e then Raise (ArgumentError (exn_str e)) else Raise e
          end).

Definition https_target (url : str) : res bool :=
  parsed ← urlsplit netloc_ok url;
  if (url_scheme parsed ==? lit "https") && negb (default [] (hostname str_lower (url_netloc parsed)) ==? [])
  then p ← port (url_netloc parsed); Ok (negb (bool_decide (p = Some 0))) else Ok false.
Definition require_https (request : HttpRequest) : res unit :=
  ok ← try_except (https_target (hr_url request)) (λ e, if is_value_error e then Ok false else Raise e);
  raise_if (negb ok) (ArgumentError (lit "negotiated response authentication requires an HTTPS target")).

Definition prepare_response_negotiation (request : HttpRequest) (opts : ResponseSignatureOptions) (request_label nonce : str) : res HttpRequest :=
  policy ← response_policy opts request_label;
  require_https request ;;
  raise_if (has_header request (lit "accept-signature")) (ArgumentError (lit "Accept-Signature is already present")) ;;
  check_message_limits request ;;
  items ← mapM_res (λ c, '(name, ps) ← component_structure c; Ok (SfString name, ps))
            (response_components request_label ++ ro_additional_components policy);
  header ← sf_ser_dictionary [(lit "sig1", SfInner items [(lit "created", SfBool true); (lit "expires", SfBool true); (lit "nonce", SfString nonce)])];
  raise_if (MAX_ACCEPT_SIGNATURE <? len header) (ArgumentError (lit "Accept-Signature exceeds 16 KiB")) ;;
  Ok (set_header request (lit "accept-signature") header).

(** The string [key] parameters of the [req] components with a name. *)
Fixpoint request_keys (name : str) (components : list str) : res (list str) :=
  match components with
  | [] => Ok []
  | component :: components =>
      '(n, ps) ← component_structure component;
      rest ← request_keys name components;
      match dict_get (lit "key") ps with
      | Some (SfString k) => Ok (if (n ==? name) && bool_decide (dict_get (lit "req") ps = Some (SfBool true)) then k :: rest else rest)
      | _ => Ok rest
      end
  end.
Definition requested_signature_member (components : list str) : res str :=
  inputs ← request_keys (lit "signature-input") components;
  signatures ← request_keys (lit "signature") components;
  match inputs, signatures with
  | [k], [k'] => raise_if (negb (k ==? k')) (response_error "response negotiation must bind one request signature member") ;; Ok k'
  | _, _ => Raise (response_error "response negotiation must bind one request signature member")
  end.

Definition covers_all (identities : list (str * sf_params)) (components : list str) : res bool :=
  required ← mapM_res component_structure components;
  Ok (forallb (λ r, existsb (same_identity r) identities) required).

Definition valid_nonce (nonce : str) : res unit :=
  decoded ← b64url_decode nonce;
  raise_if ((len decoded <? 32) || negb (b64url_encode decoded false ==? nonce)) (ValueError (lit "noncanonical or short nonce")).

(** The parameters with integers in place of the time flags. *)
Definition with_zero_times (ps : sf_params) : sf_params := dict_set (lit "expires") (SfInt 0) (dict_set (lit "created") (SfInt 0) ps).

Definition parse_response_negotiation (request : HttpRequest) : res SignatureParams :=
  let header := get_header request (lit "accept-signature") in
  raise_if (MAX_ACCEPT_SIGNATURE <? len header) (response_error "Accept-Signature exceeds 16 KiB") ;;
  check_message_limits request ;;
  dictionary ← try_except (parse_sf_dictionary header true)
    (λ e, if is_value_error e then Raise (response_error "malformed Accept-Signature") else Raise e);
  match dictionary with
  | [(label, SfInner items parameters)] =>
      let names := lit <$> ["created"; "expires"; "nonce"]%string in
      raise_if (negb (forallb (λ p, bool_decide (p.1 ∈ names)) parameters && forallb (λ n, bool_decide (n ∈ parameters.*1)) names)
                || negb (bool_decide (dict_get (lit "created") parameters = Some (SfBool true)))
                || negb (bool_decide (dict_get (lit "expires") parameters = Some (SfBool true))))
        (response_error "Accept-Signature requires only true time flags and nonce") ;;
      nonce ← match dict_get (lit "nonce") parameters with
              | Some (SfString s) => raise_if (negb ((43 <=? len s) && (len s <=? MAX_NONCE))) (response_error "response nonce must be canonical base64url") ;; Ok s
              | _ => Raise (response_error "response nonce must be canonical base64url")
              end;
      try_except (valid_nonce nonce) (λ e, if is_value_error e || is_dnsid e then Raise (response_error "invalid response challenge nonce") else Raise e) ;;
      parsed ← from_structured_member label (SfInner items (with_zero_times parameters));
      validate_response_components (sp_components parsed) ;;
      identities ← mapM_res component_structure (sp_components parsed);
      request_label ← requested_signature_member (sp_components parsed);
      complete ← covers_all identities (response_components request_label);
      raise_if (negb complete) (response_error "Accept-Signature omits required response components") ;;
      Ok parsed
  | [_] => Raise (response_error "Accept-Signature member must be an Inner List")
  | _ => Raise (response_error "Accept-Signature requires exactly one member")
  end.

Definition response_content (request response : HttpRequest) (signing : bool) : res bytes :=
  check_message_limits response ;;
  let method_is m := str_upper (hr_method request) ==? lit m in
  match hr_status response with
  | None => Raise (response_error "negotiated authentication requires an ordinary final response")
  | Some status =>
      raise_if (negb ((200 <=? status) && (status <=? 599)) || (method_is "CONNECT"%string && (200 <=? status) && (status <? 300)))
        (response_error "negotiated authentication requires an ordinary final response") ;;
      if method_is "HEAD"%string || bool_decide (status ∈ NO_CONTENT_STATUSES) then
        raise_if (negb (default [] (hr_body response) ==? []) && negb signing) (response_error "no-content response contains content") ;;
        Ok []
      else match hr_body response with
           | None => Raise (response_error "ordinary response content is unavailable")
           | Some body => Ok body
           end
  end.

(** ** [Cache-Control] *)

(** The rest after a quoted string whose opening quote was read. *)
Fixpoint quoted_rest (s : str) : option str :=
  match s with
  | [] => None
  | 34 :: s => Some s
  | 92 :: c :: s => if c =? 10 then None else quoted_rest s
  | 92 :: [] => None
  | _ :: s => quoted_rest s
  end.
Definition plain (c : Z) : bool := negb ((c =? 44) || (c =? 34) || (c =? 92)).
(** The tokens of [re.findall], [None] when they do not cover the text; a step
    consumes a character. *)
Fixpoint cache_tokens (fuel : nat) (s : str) : option (list str) :=
  match fuel, s with
  | _, [] => Some []
  | O, _ => None
  | S fuel, c :: rest =>
      if c =? 44 then l ← cache_tokens fuel rest; Some ([44] :: l)
      else if c =? 34 then
        after ← quoted_rest rest;
        l ← cache_tokens fuel after;
        Some (take (length s - length after) s :: l)
      else if c =? 92 then None
      else
        let run := take_while plain s in
        l ← cache_tokens fuel (drop (length run) s); Some (run :: l)
  end.
Fixpoint directives (current : str) (tokens : list str) : list str :=
  match tokens with
  | [] => [str_lower (strip is_space current)]
  | token :: tokens =>
      if token ==? [44] then str_lower (strip is_space current) :: directives [] tokens else directives (current ++ token) tokens
  end.
Definition has_no_store (cache_control : str) : bool :=
  match cache_tokens (length cache_control) cache_control with
  | None => false
  | Some tokens => bool_decide (lit "no-store" ∈ directives [] tokens)
  end.
End signatures.
