(* ===== verification/HttpProfile.v ===== *)
(** * The HTTP signature profile ([HttpSignatureProfile] of [dnsid/http_signatures.py])

    Signing of requests and responses, freshness, the selection of candidate
    signatures and verification against resolved identities. *)
From S2P Require Import Prelude Sha256 Errors PyText Base64 Utils Lr Canonical Keys Identity Manager Publication HttpModels HttpSignatures.

Section profile.
Context `{Platform, HttpPlatform, StructuredFields} (env : http_env) (profile : HttpSignatureProfile).

Definition now_ts (path : list nat) : Z := whole_seconds (he_clock env path).
Definition max_age : Z := whole_seconds (hc_max_age (hp_config profile)).
Definition skew : Z := whole_seconds (hc_clock_skew (hp_config profile)).
Definition generate_nonce (path : list nat) : str := b64url_encode (he_urandom env path) false.

Definition require_signing_provider : res SigningProvider :=
  match hp_key_provider profile with
  | Some provider =>
      raise_if (hp_domain profile ==? []) (ArgumentError (lit "HTTP message signing requires a key_provider; profile is verification-only")) ;;
      Ok provider
  | None => Raise (ArgumentError (lit "HTTP message signing requires a key_provider; profile is verification-only"))
  end.

(** A [kid] is a string, as the interface of providers demands. *)
Definition kid_text (k : JWK) : res str :=
  match jwk_kid k with JStr s => Ok s | _ => Raise (TypeError (lit "argument is not a string")) end.

(** ** Signing requests *)
Definition add_component (components : list str) (component : str) : list str :=
  if bool_decide (component ∈ components) then components else components ++ [component].

Definition request_components (req : HttpRequest) (opts : HttpSigningOptions) : list str :=
  let components := (lit <$> ["@method"; "@authority"; "@target-uri"]%string)
    ++ (if so_response_signature opts then [lit "accept-signature"] else []) in
  let components := if hr_body req then add_component components (lit "content-digest") else components in
  foldl add_component components (so_additional_components opts).

(** [pure] and updates of the request that is signed in place. *)
Definition update (f : HttpRequest → res HttpRequest) : MM HttpRequest unit := λ r,
  match f r with Ok r' => (r', Ok ()) | Raise e => (r, Raise e) end.
Definition get_request : MM HttpRequest HttpRequest := λ r, (r, Ok r).

Definition request_params (path : list nat) (opts : HttpSigningOptions) (kid alg : str) (components : list str) : SignatureParams :=
  let created := now_ts (0 :: path)%nat in
  {| sp_label := so_label opts; sp_key_id := hp_domain profile ++ [35] ++ kid; sp_alg := alg; sp_created := Some created;
     sp_expires := Some (created + so_expires_in_seconds opts); sp_nonce := generate_nonce (1 :: path)%nat; sp_components := components;
     sp_tag := if so_tag opts ==? [] then None else Some (so_tag opts); sp_parameters := [] |}.

Definition sign_http_request (path : list nat) (opts : HttpSigningOptions) : MM HttpRequest unit :=
  match so_response_signature opts with
  | None => mret ()
  | Some response => update (λ r, prepare_response_negotiation r response (so_label opts) (generate_nonce (0 :: path)%nat))
  end ;;
  key_provider ← pure require_signing_provider;
  signing_key ← pure (sp_signing_key key_provider);
  kid ← pure (kid_text signing_key);
  pure (raise_if (bool_decide (35 ∈ kid)) (ArgumentError (lit "signing key kid must not contain '#'"))) ;;
  update (λ r, Ok match hr_body r with Some body => set_header r (lit "content-digest") (digest_field body) | None => r end) ;;
  req ← get_request;
  let components := request_components req opts in
  pure (try_except (validate_component_identifiers components (Some false))
          (λ e, if is_verification e then Raise (ArgumentError (exn_str e)) else Raise e)) ;;
  alg ← pure (a ← signature_alg signing_key; jose_alg_to_http_sig_alg a);
  let params := request_params (1 :: path)%nat opts kid alg components in
  sig_base ← pure (build_signature_base req params None);
  sig_bytes ← pure (sp_sign key_provider sig_base);
  update (λ r, t ← replace_signature_input_member (get_header r (lit "signature-input")) params; Ok (set_header r (lit "signature-input") t)) ;;
  update (λ r, t ← replace_signature_member (get_header r (lit "signature")) (so_label opts) sig_bytes; Ok (set_header r (lit "signature") t)).

Definition create_signed_http_request (path : list nat) (opts : HttpSigningOptions) : MM HttpRequest unit := λ req,
  if negb ((0 <? so_expires_in_seconds opts) && (so_expires_in_seconds opts <=? max_age))
  then (req, Raise (ArgumentError (lit "HTTP message signature expiry must be positive and no greater than max_age")))
  else
    let '(req', r) := sign_http_request path opts req in
    match so_response_signature opts, r with
    | Some _, Raise e => (with_headers req' (hr_headers req), Raise e)
    | _, _ => (req', r)
    end.

(** ** Freshness *)
Definition check_freshness (path : list nat) (params : SignatureParams) : res unit :=
  let now := now_ts path in
  match sp_created params with
  | None => Raise (invalid_record "Signature-Input missing required `created` parameter")
  | Some created =>
      raise_if (max_age <? now - created) (invalid_record "HTTP message signature has expired (created too far in the past)") ;;
      raise_if (now + skew <? created) (invalid_record "HTTP message signature created time is in the future") ;;
      match sp_expires params with
      | None => Ok ()
      | Some expires =>
          raise_if (expires <? created) (invalid_record "HTTP message signature expires before created") ;;
          raise_if (expires + skew <? now) (invalid_record "HTTP message signature has expired (expires parameter)") ;;
          raise_if (max_age <? expires - created) (invalid_record "HTTP message signature lifetime exceeds maximum allowed age")
      end
  end.

Definition without_expires (p : SignatureParams) : SignatureParams :=
  {| sp_label := sp_label p; sp_key_id := sp_key_id p; sp_alg := sp_alg p; sp_created := sp_created p; sp_expires := None;
     sp_nonce := sp_nonce p; sp_components := sp_components p; sp_tag := sp_tag p; sp_parameters := sp_parameters p |}.
Definition check_response_freshness (path : list nat) (params : SignatureParams) : res unit :=
  match sp_created params, sp_expires params with
  | Some created, Some expires =>
      raise_if (negb ((0 <? expires - created) && (expires - created <=? RESPONSE_SIGNATURE_LIFETIME)))
        (response_error "response signature lifetime must be 1 to 60 seconds") ;;
      check_freshness (0 :: path)%nat (without_expires params) ;;
      raise_if (expires + skew <? now_ts (1 :: path)%nat) (response_error "response signature has expired")
  | _, _ => Raise (response_error "response signature lifetime must be 1 to 60 seconds")
  end.

(** ** Candidates *)
Definition signature_candidates (req : HttpRequest) (opts : HttpVerificationOptions) : res (list SignatureParams * list (str * bytes)) :=
  let sig_input_header := get_header req (lit "signature-input") in
  let sig_header := get_header req (lit "signature") in
  raise_if ((sig_input_header ==? []) || (sig_header ==? [])) (response_error "missing Signature or Signature-Input headers") ;;
  check_message_limits req ;;
  sig_inputs ← parse_dictionary sig_input_header;
  signatures ← parse_signature_dictionary sig_header;
  raise_if ((16 <? len sig_inputs) || (16 <? len signatures) || existsb (λ p, 64 <? len (sp_components p)) sig_inputs)
    (invalid_record "HTTP signature limits exceeded") ;;
  let complete := List.filter (λ p, bool_decide (sp_label p ∈ signatures.*1)) sig_inputs in
  let candidates := match vo_required_tag opts with
                    | None => complete
                    | Some tag => List.filter (λ p, bool_decide (sp_tag p = Some tag)) complete
                    end in
  match vo_required_tag opts, candidates, complete with
  | Some _, [], [p] =>
      match sp_tag p with
      | None => Raise (invalid_record "Signature-Input missing required `tag` parameter")
      | Some _ => Raise (response_error "Signature-Input tag mismatch")
      end
  | _, [], _ => Raise (response_error "expected at least one complete HTTP message signature")
  | _, _, _ => Ok (candidates, signatures)
  end.

Definition verify_candidate_input (path : list nat) (req : HttpRequest) (params : SignatureParams) (opts : HttpVerificationOptions) : res (str * str) :=
  forM_res (λ required, raise_if (negb (bool_decide (required ∈ sp_components params)))
    (response_error "Signature-Input missing required covered component")) (vo_required_components opts) ;;
  key ← parse_key_id idna_encode (sp_key_id params);
  check_freshness path params ;;
  check_content_digest req params ;;
  Ok key.

Definition verify_candidate_signature {R} (req : HttpRequest) (params : SignatureParams) (raw_sig : bytes) (kid : str)
    (verified : VerifiedDomain R) (request_context : option HttpRequest) : res (VerifiedDomain R) :=
  match key_by_id (JStr kid) (vd_jwks verified) with
  | None => Raise (vfail KEY_NOT_FOUND "request kid not found in signer JWKS")
  | Some signing_key =>
      expected ← (a ← signature_alg signing_key; jose_alg_to_http_sig_alg a);
      raise_if (negb (sp_alg params ==? []) && negb (sp_alg params ==? expected)) (response_error "HTTP sig alg mismatch") ;;
      sig_base ← build_signature_base req params request_context;
      valid ← jwk_verify signing_key sig_base raw_sig;
      raise_if (negb valid) (response_error "HTTP message signature invalid") ;;
      Ok verified
  end.

(** ** Requests *)
Section resolution.
Context {S R : Type} `{IdentityResolver S (VerifiedDomain R)}.
Abbreviation M := (MM S).

(** The budget of [@verification_operation]. *)
Definition within_budget {A} (path : list nat) (m : M A) : M A :=
  pure (he_check env (0 :: path)%nat) ;; a ← m; pure (he_check env (1 :: path)%nat) ;; mret a.

Definition verify_signature_candidate (path : list nat) (req : HttpRequest) (params : SignatureParams) (raw_sig : bytes)
    (opts : HttpVerificationOptions) (peer_cert : option TLSCertificate) : M (VerifiedDomain R) :=
  '(domain, kid) ← pure (verify_candidate_input (0 :: path)%nat req params opts);
  verified ← resolve_domain (1 :: path)%nat domain peer_cert;
  pure (verify_candidate_signature req params raw_sig kid verified None).

(** [signatures[label]] of a complete candidate. *)
Definition signature_of (signatures : list (str * bytes)) (params : SignatureParams) : bytes := default [] (dict_get (sp_label params) signatures).

Fixpoint verify_candidates (path : list nat) (req : HttpRequest) (opts : HttpVerificationOptions) (peer_cert : option TLSCertificate)
    (signatures : list (str * bytes)) (candidates : list SignatureParams) (verified : option (VerifiedDomain R)) (last_error : option exn)
    : M (VerifiedDomain R) := λ s,
  match candidates with
  | [] => (s, match verified, last_error with
              | Some v, _ => Ok v
              | None, Some e => Raise e
              | None, None => Raise (response_error "no valid HTTP message signature")
              end)
  | params :: candidates =>
      match verify_signature_candidate (length candidates :: path) req params (signature_of signatures params) opts peer_cert s with
      | (s, Raise e) => if is_dnsid e then verify_candidates path req opts peer_cert signatures candidates verified (Some e) s else (s, Raise e)
      | (s, Ok candidate) =>
          match verified with
          | Some _ => (s, Raise (invalid_record "multiple valid HTTP message signatures"))
          | None => verify_candidates path req opts peer_cert signatures candidates (Some candidate) last_error s
          end
      end
  end.

Definition verify_signed_http_request (path : list nat) (req : HttpRequest) (opts : HttpVerificationOptions) (peer_cert : option TLSCertificate)
    : M (VerifiedDomain R) :=
  within_budget (0 :: path)%nat
    ('(candidates, signatures) ← pure (signature_candidates req opts);
     verify_candidates (1 :: path)%nat req opts peer_cert signatures candidates None None).

(** ** Responses *)
Definition response_verification_input (path : list nat) (request response : HttpRequest) (opts : ResponseSignatureOptions)
    : res (SignatureParams * bytes * str * str) :=
  policy ← response_policy opts (lit "sig1");
  require_https request ;;
  challenge ← parse_response_negotiation request;
  requested ← mapM_res component_structure (sp_components challenge);
  covered ← covers_all requested (ro_additional_components policy);
  raise_if (negb covered) (response_error "saved negotiation omits locally required response coverage") ;;
  check_message_limits response ;;
  '(candidates, signatures) ← signature_candidates response default_verification;
  match List.find (λ p, sp_label p ==? sp_label challenge) candidates with
  | None => Raise (response_error "response is missing the requested complete signature")
  | Some selected =>
      selected_ids ← mapM_res component_structure (sp_components selected);
      raise_if (negb ((length selected_ids =? length requested)%nat && forallb (λ ab, same_identity ab.1 ab.2) (zip selected_ids requested))
                || negb (sp_nonce selected ==? sp_nonce challenge))
        (response_error "response components or nonce differ from the saved challenge") ;;
      check_response_freshness path selected ;;
      raise_if (negb ((sp_alg selected ==? lit "ed25519") || (sp_alg selected ==? lit "ecdsa-p256-sha256")))
        (response_error "response signature requires a supported alg") ;;
      '(domain, kid) ← try_except (parse_key_id idna_encode (sp_key_id selected))
        (λ e, match e with ArgumentError _ | ValidationError _ => Raise (response_error "response requires a valid compound keyid") | e => Raise e end);
      raise_if (negb (domain ==? ro_expected_domain policy)) (response_error "response keyid domain differs from expected_domain") ;;
      Ok (selected, signature_of signatures selected, domain, kid)
  end.

Definition finish_response_verification (path : list nat) (request response : HttpRequest) (params : SignatureParams) (signature : bytes)
    (kid : str) (resolved : VerifiedDomain R) : res (VerifiedDomain R) :=
  verify_candidate_signature response params signature kid resolved (Some request) ;;
  content ← response_content request response false;
  check_content_digest (with_body response (Some content)) params ;;
  raise_if (negb (has_no_store (get_header response (lit "cache-control")))) (response_error "signed response Cache-Control must contain no-store") ;;
  check_response_freshness path params ;;
  Ok resolved.

Definition verify_signed_http_response (path : list nat) (request response : HttpRequest) (opts : ResponseSignatureOptions)
    (peer_cert : option TLSCertificate) : M (VerifiedDomain R) :=
  within_budget (0 :: path)%nat
    ('(params, signature, domain, kid) ← pure (response_verification_input (1 :: path)%nat request response opts);
     resolved ← resolve_domain (2 :: path)%nat domain peer_cert;
     pure (finish_response_verification (3 :: path)%nat request response params signature kid resolved)).
End resolution.

(** ** Signing responses *)
Definition public_members (raw : list (str * json)) : list (str * json) :=
  filter (λ m, m.1 ∉ (lit <$> ["d"; "p"; "q"; "dp"; "dq"; "qi"; "oth"; "k"]%string)) raw.

(** [str(value)], and [JWK.from_dict]. *)
Definition py_str (v : json) : str := match v with JStr s => s | v => other_str v end.
Definition jwk_of_members (d : list (str * json)) : JWK :=
  let text name := JStr (py_str (get name (JStr []) d)) in
  {| jwk_kty := text "kty"%string; jwk_alg := text "alg"%string; jwk_kid := text "kid"%string; jwk_use := text "use"%string; jwk_raw := d |}.

(** The response as it is afterwards; a failure leaves it as it was. *)
Definition sign_response (path : list nat) (request response : HttpRequest) : res HttpRequest :=
  if negb (has_header request (lit "accept-signature")) then Ok response
  else
    challenge ← parse_response_negotiation request;
    check_message_limits response ;;
    let inputs := get_header response (lit "signature-input") in
    let signatures := get_header response (lit "signature") in
    present ← (if inputs ==? [] then Ok [] else parse_dictionary inputs);
    raise_if (bool_decide (sp_label challenge ∈ map sp_label present)) (response_error "requested response signature label already exists") ;;
    signed ← (if signatures ==? [] then Ok [] else parse_signature_dictionary signatures);
    raise_if (bool_decide (sp_label challenge ∈ signed.*1)) (response_error "requested response signature label already exists") ;;
    content ← response_content request response true;
    let staged := set_header (with_body response (Some content)) (lit "content-digest") (digest_field content) in
    let cache := get_header staged (lit "cache-control") in
    let staged := if has_no_store cache then staged
                  else set_header staged (lit "cache-control") (if cache ==? [] then lit "no-store" else cache ++ lit ", no-store") in
    provider ← require_signing_provider;
    signing_key ← sp_signing_key provider;
    let key := jwk_of_members (public_members (jwk_raw signing_key)) in
    kid ← kid_text key;
    raise_if ((kid ==? []) || bool_decide (35 ∈ kid)) (ArgumentError (lit "signing key kid must be nonempty and must not contain '#'")) ;;
    let created := now_ts (0 :: path)%nat in
    alg ← (a ← signature_alg key; jose_alg_to_http_sig_alg a);
    let params := {| sp_label := sp_label challenge; sp_key_id := hp_domain profile ++ [35] ++ kid; sp_alg := alg; sp_created := Some created;
                     sp_expires := Some (created + RESPONSE_SIGNATURE_LIFETIME); sp_nonce := sp_nonce challenge;
                     sp_components := sp_components challenge; sp_tag := None; sp_parameters := [] |} in
    base ← build_signature_base staged params (Some request);
    signature ← sp_sign provider base;
    valid ← jwk_verify key base signature;
    raise_if (negb valid) (ArgumentError (lit "response signing key changed during signing")) ;;
    raise_if ((created + RESPONSE_SIGNATURE_LIFETIME) * 1000000 <=? he_clock env (1 :: path)%nat)
      (ArgumentError (lit "response signature expired during signing")) ;;
    input_text ← replace_signature_input_member inputs params;
    signature_text ← replace_signature_member signatures (sp_label params) signature;
    let staged := set_header (set_header staged (lit "signature-input") input_text) (lit "signature") signature_text in
    signature_candidates staged default_verification ;;
    Ok (with_headers response (hr_headers staged)).
Definition sign_requested_http_response (path : list nat) (request : HttpRequest) : MM HttpRequest unit :=
  pure (he_check env (0 :: path)%nat) ;;
  update (λ response, sign_response (1 :: path)%nat request response) ;;
  pure (he_check env (2 :: path)%nat).
End profile.

(** [IdentityManager] is an [IdentityResolver]. *)
Definition manager_resolver `{Platform, HttpsClient.PyLib, ResourceFetcher.Zlib} (env : environment) (cfg : VerificationConfig) (rounds : nat) (closed : bool) {C}
    `{IdentityCache C (VerifiedDomain log_binding)} : IdentityResolver C (VerifiedDomain log_binding) :=
  λ path domain cert, verify_domain env cfg rounds path closed domain cert.
#[export] Existing Instance manager_resolver.
