(* ===== verification/HttpSpec.v ===== *)
(** * What a verified HTTP message rests on

    Soundness of request and response verification over the interface of
    identity resolvers, which the identity manager implements, and what a
    signature base determines. *)
From S2P Require Import Prelude Sha256 Errors PyText Base64 Utils Lr ResourceFetcher Canonical Keys TxtRecord TxtRecordSpec Identity HttpsClient Manager ManagerSpec Publication PublicationSpec HttpModels HttpSignatures HttpProfile.

(** ** Resolvers *)

(** What a resolver promises: from a state with its invariant, the result vouches
    for the domain it was asked for. *)
Class ResolverSpec (S V : Type) `{IdentityResolver S V} := {
  rs_inv : S → Prop;
  rs_vouches : str → option TLSCertificate → V → Prop;
  resolve_sound path domain cert s s' r : rs_inv s → resolve_domain path domain cert s = (s', r) →
    rs_inv s' ∧ ∀ v, r = Ok v → rs_vouches domain cert v
}.

(** The identity manager: its cache holds established evidence, and what it
    returns was accepted for the name. *)
#[export] Program Instance manager_resolver_spec `{Platform, PyLib, Zlib} (env : environment) (cfg : VerificationConfig) (rounds : nat) (closed : bool)
    {C : Type} `{CacheSpec C (VerifiedDomain log_binding) usable} : @ResolverSpec C _ (manager_resolver env cfg rounds closed) := {|
  rs_inv := holds (kept env cfg);
  rs_vouches domain cert vd := ∃ name path, normalize_fqdn idna_encode domain false = Ok name ∧ accepted env cfg path name cert vd
|}.
Next Obligation.
  intros ??? env cfg rounds closed C ?? path domain cert s s' r Hs Hx.
  eapply keeping_bounded in Hx; [|apply keeping_verify|exact Hs]. destruct Hx as [Hs' Hv]. split; [exact Hs'|].
  intros v Hr. destruct (Hv v Hr) as (name & Hn & Ha). eauto.
Qed.

(** ** Structured fields *)

(** RFC 8941: a field name in lower case is a token. *)
Class SfTokens `{StructuredFields} : Prop :=
  parse_token name : is_lowercase_http_field_name name = true → sf_parse_item name = Ok (SfToken name, [], []).

Lemma field_char_ascii c : is_lower c || is_digit c || existsb (Z.eqb c) (lit "!#$%&'*+-.^_`|~") = true → c <? 128 = true.
Proof.
  rewrite !orb_true_iff, existsb_exists. unfold is_lower, is_digit. intros [[Hc|Hc]|(x & Hx & Hc)]; bool_prop; [lia..|]. subst x.
  assert (Forall (λ c, c < 128) (lit "!#$%&'*+-.^_`|~")) as Hall by by_decide. rewrite Forall_forall in Hall. apply Hall. by apply list_elem_of_In.
Qed.

Lemma field_name_ascii name : is_lowercase_http_field_name name = true → ascii_only name = Ok name.
Proof.
  destruct name as [|c s]; [done|]. cbn [is_lowercase_http_field_name]. rewrite andb_true_iff, forallb_forall. intros [Hc Hs]. unfold ascii_only.
  assert (forallb (λ c, c <? 128) (c :: s) = true) as ->; [|done]. apply forallb_forall. intros x [<-|Hx]; apply field_char_ascii; [by rewrite Hc|by apply Hs].
Qed.

Lemma not_derived c s : c ≠ 64 → List.find (λ n, ((c :: s) ==? n) || startswith (n ++ [59]) (c :: s)) derived_components = None.
Proof.
  intros Hc. assert (Forall (λ n, head n = Some 64) derived_components) as Hd by by_decide. induction Hd as [|n l Hn _ IH]; [done|]. cbn [List.find].
  destruct n as [|x n]; [done|]. injection Hn as ->. rewrite (proj2 (eqb_false (c :: s) (64 :: n))) by congruence. cbn [app startswith orb].
  rewrite (proj2 (Z.eqb_neq 64 c)) by congruence. cbn [andb]. exact IH.
Qed.

Lemma field_component `{SfTokens} name : is_lowercase_http_field_name name = true → component_structure name = Ok (name, []).
Proof.
  intros Hn. unfold component_structure. destruct name as [|c s]; [done|]. rewrite not_derived.
  - cbn [mbind result_bind]. rewrite field_name_ascii by done. cbn [mbind result_bind]. by rewrite parse_token.
  - cbn [is_lowercase_http_field_name] in Hn. apply andb_true_iff in Hn as [Hn _]. unfold is_lower in Hn. bool_prop. lia.
Qed.

(** ** Requests *)
Section requests.
Context `{Platform, HttpPlatform, StructuredFields} (env : http_env) (profile : HttpSignatureProfile).

Lemma forM_required (required components : list str) :
  forM_res (λ r, raise_if (negb (bool_decide (r ∈ components))) (response_error "Signature-Input missing required covered component")) required = Ok () →
  Forall (λ r, r ∈ components) required.
Proof.
  intros Hx. apply forM_res_Ok in Hx. eapply Forall_impl; [exact Hx|]. intros r Hr. cbn beta in Hr. destruct (bool_decide_reflect (r ∈ components)); [done|discriminate Hr].
Qed.

(** Freshness of a signature at a reading of the clock. *)
Definition fresh_signature (t : Z) (p : SignatureParams) : Prop :=
  ∃ created, sp_created p = Some created ∧ t - max_age profile ≤ created ≤ t + skew profile ∧
  ∀ expires, sp_expires p = Some expires → created ≤ expires ∧ t ≤ expires + skew profile ∧ expires - created ≤ max_age profile.

Lemma check_freshness_Ok path p : check_freshness env profile path p = Ok () → fresh_signature (now_ts env path) p.
Proof.
  unfold check_freshness. destruct (sp_created p) as [created|] eqn:Ec; [|done]. intros Hx. guard_step Hx as G1. guard_step Hx as G2. rewrite Z.ltb_ge in G1, G2.
  exists created. split; [done|]. split; [lia|]. intros expires He. rewrite He in Hx. guard_step Hx as G3. guard_step Hx as G4.
  destruct (max_age profile <? expires - created) eqn:G5; [done|]. rewrite Z.ltb_ge in G3, G4, G5. lia.
Qed.

(** The body of a message is the one its covered digest names. *)
Definition content_bound (req : HttpRequest) (p : SignatureParams) : Prop :=
  ∀ body, hr_body req = Some body → lit "content-digest" ∈ sp_components p ∧
    parse_content_digest (get_header req (lit "content-digest")) = Ok (sha256 body).

Lemma any_component_listed name components b : any_component name components = Ok b → name ∈ components →
  component_structure name = Ok (name, []) → b = true.
Proof.
  induction components as [|c components IH]; cbn [any_component]; intros Hx Hin Hn; [by apply not_elem_of_nil in Hin|].
  destruct (component_structure c) as [[n ps]|e] eqn:E; [|done]. cbn [mbind result_bind] in Hx. destruct (n ==? name) eqn:En; [by injection Hx as <-|].
  apply elem_of_cons in Hin as [<-|Hin]; [|by apply IH]. rewrite Hn in E. injection E as <- <-. by rewrite eqb_refl in En.
Qed.

Lemma check_content_digest_Ok `{!SfTokens} req p : check_content_digest req p = Ok () → content_bound req p.
Proof.
  unfold check_content_digest. intros Hx body Hb. guard_step Hx as G1. rewrite Hb in G1. cbn [is_Some] in G1.
  assert (lit "content-digest" ∈ sp_components p) as Hin.
  { rewrite bool_decide_eq_true_2 in G1 by by eexists. cbn [andb] in G1. rewrite negb_false_iff in G1. by apply bool_decide_eq_true in G1. }
  split; [exact Hin|]. bind_step Hx as covered Hc. rewrite (any_component_listed _ _ _ Hc Hin (field_component (lit "content-digest") ltac:(reflexivity))), Hb in Hx.
  guard_step Hx as G2. bind_step Hx as expected He. rewrite He. destruct (expected ==? sha256 body) eqn:E; [|discriminate Hx]. by rewrite eqb_true in E; subst.
Qed.

(** A candidate signature and what its acceptance shows. *)
Definition candidate (req : HttpRequest) (opts : HttpVerificationOptions) (p : SignatureParams) (sig : bytes) : Prop :=
  ∃ members signatures, parse_dictionary (get_header req (lit "signature-input")) = Ok members ∧ p ∈ members ∧
    parse_signature_dictionary (get_header req (lit "signature")) = Ok signatures ∧ dict_get (sp_label p) signatures = Some sig ∧
    (∀ tag, vo_required_tag opts = Some tag → sp_tag p = Some tag).

(** The signature is one of the named key of the identity over the base that
    message and parameters determine. *)
Definition signed_by {R} (req : HttpRequest) (context : option HttpRequest) (p : SignatureParams) (sig : bytes) (kid : str) (vd : VerifiedDomain R) : Prop :=
  ∃ key base, key_by_id (JStr kid) (vd_jwks vd) = Some key ∧ build_signature_base req p context = Ok base ∧ jwk_verify key base sig = Ok true ∧
    ∃ alg http_alg, signature_alg key = Ok alg ∧ jose_alg_to_http_sig_alg alg = Ok http_alg ∧ (sp_alg p = [] ∨ sp_alg p = http_alg).

Lemma verify_candidate_signature_Ok {R} req p sig kid (vd vd' : VerifiedDomain R) context :
  verify_candidate_signature req p sig kid vd context = Ok vd' → vd' = vd ∧ signed_by req context p sig kid vd.
Proof.
  unfold verify_candidate_signature, signed_by. destruct (key_by_id _ _) as [key|]; [|done]. intros Hx. bind_step Hx as alg Ha. bind_step Ha as a Hs.
  guard_step Hx as G. bind_step Hx as base Hb. bind_step Hx as valid Hv. destruct valid; [|discriminate Hx]. cbn [negb raise_if mbind result_bind] in Hx.
  injection Hx as <-. split; [done|]. exists key, base. split_and!; [done..|]. exists a, alg. split_and!; [done..|].
  destruct (sp_alg p ==? []) eqn:E1; [left; by apply eqb_true|]. destruct (sp_alg p ==? alg) eqn:E2; [right; by apply eqb_true|done].
Qed.

Lemma signature_candidates_Ok req opts candidates signatures : signature_candidates req opts = Ok (candidates, signatures) →
  Forall (λ p, candidate req opts p (signature_of signatures p)) candidates.
Proof.
  unfold signature_candidates. intros Hx. guard_step Hx as G1. apply bind_unit_Ok in Hx as [_ Hx]. bind_step Hx as inputs Hi. bind_step Hx as sigs Hs. guard_step Hx as G2.
  set (complete := List.filter (λ p, bool_decide (sp_label p ∈ sigs.*1)) inputs) in Hx.
  assert (∀ p, p ∈ complete → (∀ tag, vo_required_tag opts = Some tag → sp_tag p = Some tag) → candidate req opts p (signature_of sigs p)) as Hc.
  { intros p Hp Ht. apply list_elem_of_In, filter_In in Hp as [Hp Hl]. apply bool_decide_eq_true in Hl. exists inputs, sigs.
    split_and!; [done|by apply list_elem_of_In|done| |done]. unfold signature_of. destruct (dict_get (sp_label p) sigs) eqn:E; [done|]. by apply dict_get_None in E. }
  destruct (vo_required_tag opts) as [tag|].
  - set (tagged := List.filter (λ p, bool_decide (sp_tag p = Some tag)) complete) in Hx.
    assert ((tagged, sigs) = (candidates, signatures)) as Hy. { repeat case_match; simplify_eq; done. }
    injection Hy as <- <-. apply Forall_forall. intros p Hp. apply list_elem_of_In, filter_In in Hp as [Hp Ht].
    apply bool_decide_eq_true in Ht. apply Hc; [by apply list_elem_of_In|]. by intros ? [= <-].
  - assert ((complete, sigs) = (candidates, signatures)) as Hy. { repeat case_match; simplify_eq; done. }
    injection Hy as <- <-. apply Forall_forall. intros p Hp. by apply Hc.
Qed.

(** ** The loop over candidates *)
Section resolved.
Context {S R : Type} `{ResolverSpec S (VerifiedDomain R)} `{!SfTokens}.

(** What one accepted candidate shows. *)
Record request_accepted (req : HttpRequest) (opts : HttpVerificationOptions) (cert : option TLSCertificate) (p : SignatureParams) (sig : bytes)
    (vd : VerifiedDomain R) : Prop := {
  ra_required : Forall (λ c, c ∈ sp_components p) (vo_required_components opts);
  ra_identity : ∃ domain kid, parse_key_id idna_encode (sp_key_id p) = Ok (domain, kid) ∧ rs_vouches domain cert vd ∧ signed_by req None p sig kid vd;
  ra_fresh : ∃ path, fresh_signature (now_ts env path) p;
  ra_content : content_bound req p
}.

Lemma verify_signature_candidate_sound path req p sig opts cert s s' r : rs_inv s →
  verify_signature_candidate env profile path req p sig opts cert s = (s', r) →
  rs_inv s' ∧ ∀ vd, r = Ok vd → request_accepted req opts cert p sig vd.
Proof.
  intros Hs. unfold verify_signature_candidate, mbind, MM_bind, pure. destruct (verify_candidate_input _ _ _ _ _ _) as [[domain kid]|e] eqn:Ei; [|by intros [= <- <-]].
  destruct (resolve_domain (1 :: path)%nat domain cert s) as [s1 o] eqn:Er. destruct (resolve_sound _ _ _ _ _ _ Hs Er) as [Hs1 Hv].
  destruct o as [vd|e]; [|by intros [= <- <-]]. intros [= <- <-]. split; [exact Hs1|]. intros vd' Hx.
  apply verify_candidate_signature_Ok in Hx as [-> Hsig]. unfold verify_candidate_input in Ei. apply bind_unit_Ok in Ei as [Hreq Ei]. bind_step Ei as key Hk.
  apply bind_unit_Ok in Ei as [Hf Ei]. apply bind_unit_Ok in Ei as [Hd Ei]. apply Ok_inj in Ei. subst key.
  split; [by apply forM_required|exists domain, kid; split_and!; [done|by apply Hv|done]|eexists; by apply check_freshness_Ok|by apply check_content_digest_Ok].
Qed.

(** The attempt on a candidate, and that it failed. *)
Definition attempted (path : list nat) (req : HttpRequest) (opts : HttpVerificationOptions) (cert : option TLSCertificate) (signatures : list (str * bytes))
    (p : SignatureParams) (r : res (VerifiedDomain R)) : Prop :=
  ∃ path' s s', verify_signature_candidate env profile path' req p (signature_of signatures p) opts cert s = (s', r).
Definition failed path req opts cert signatures (p : SignatureParams) : Prop := ∃ e, attempted path req opts cert signatures p (Raise e).

Lemma verify_candidates_sound path req opts cert signatures candidates verified last s s' vd : rs_inv s →
  verify_candidates env profile path req opts cert signatures candidates verified last s = (s', Ok vd) →
  rs_inv s' ∧
  match verified with
  | Some v => vd = v ∧ Forall (failed path req opts cert signatures) candidates
  | None => ∃ before p after, candidates = before ++ p :: after ∧ Forall (failed path req opts cert signatures) (before ++ after)
              ∧ request_accepted req opts cert p (signature_of signatures p) vd
  end.
Proof.
  revert verified last s. induction candidates as [|p candidates IH]; intros verified last s Hs; cbn [verify_candidates].
  - destruct verified as [v|], last; intros [= <- <-]; done.
  - destruct (verify_signature_candidate _ _ _ _ _ _ _ _ s) as [s1 [v|e]] eqn:E; pose proof (verify_signature_candidate_sound _ _ _ _ _ _ _ _ _ Hs E) as [Hs1 Hv].
    + destruct verified as [w|]; [done|]. intros Hx. apply IH in Hx as [Hs' [-> Hall]]; [|done]. split; [done|]. exists [], p, candidates. split; [done|]. split; [done|]. by apply Hv.
    + destruct (is_dnsid e); [|done]. intros Hx. apply IH in Hx as [Hs' Hx]; [|done]. split; [done|].
      assert (failed path req opts cert signatures p) as Hfail by (exists e; by eexists _, _, _).
      destruct verified as [w|].
      * destruct Hx as [-> Hall]. split; [done|]. by constructor.
      * destruct Hx as (before & q & after & -> & Hall & Hacc). exists (p :: before), q, after. split; [done|]. split; [by constructor|done].
Qed.
End resolved.
End requests.

(** ** What a signature base determines *)

(** RFC 8941: serialisation is printable ASCII, a dictionary member with a list is
    its key, an equals sign and the list, and a dictionary without decimals is read
    back as it was written. *)
Definition exact_value (v : bare_item) : bool :=
  match v with SfInt _ | SfString _ | SfToken _ | SfBytes _ | SfBool _ => true | _ => false end.
Definition exact_params (ps : sf_params) : bool := forallb (λ p, exact_value p.2) ps.
Definition exact_member (m : sf_member) : bool :=
  match m with
  | SfItem v ps => exact_value v && exact_params ps
  | SfInner items ps => forallb (λ i, exact_value i.1 && exact_params i.2) items && exact_params ps
  end.
Class SfSerialization `{StructuredFields} : Prop := {
  ser_item_printable v ps t : sf_ser_item v ps = Ok t → Forall (λ c, 32 ≤ c < 127) t;
  ser_dictionary_printable d t : sf_ser_dictionary d = Ok t → Forall (λ c, 32 ≤ c < 127) t;
  ser_inner_member k items ps t : sf_ser_dictionary [(k, SfInner items ps)] = Ok t → ∃ v, t = k ++ [61] ++ v;
  dictionary_roundtrip d t : forallb (λ m, exact_member m.2) d = true → sf_ser_dictionary d = Ok t → sf_parse_dictionary t = Ok (d, [])
}.

Section bases.
Context `{Platform, HttpPlatform, SfSerialization}.

(** Characters of a line. *)
Definition line_char (c : Z) : Prop := is_code_point c ∧ c ≠ 10.

(** The value a message has for a component. *)
Definition covered_value (response : HttpRequest) (context : option HttpRequest) (component : str) : res str :=
  '(name, ps) ← component_structure component;
  req ← component_source response context name ps;
  component_value response req name ps.
Definition single_lines (response : HttpRequest) (context : option HttpRequest) (p : SignatureParams) : Prop :=
  ∀ c v, c ∈ sp_components p → covered_value response context c = Ok v → Forall line_char v.
Definition exact_signature (p : SignatureParams) : Prop := ∃ m, structured_value p = Ok m ∧ exact_member m = true.

Lemma printable_single t : Forall (λ c, 32 ≤ c < 127) t → Forall line_char t.
Proof. intros Ht. eapply Forall_impl; [exact Ht|]. unfold line_char, is_code_point. lia. Qed.
Lemma line_no_break t : Forall line_char t → 10 ∉ t.
Proof. intros Ht Hin. rewrite Forall_forall in Ht. by destruct (Ht _ Hin). Qed.

Lemma component_line_Ok response context c line : component_line response context c = Ok line →
  ∃ name ps identifier v, component_structure c = Ok (name, ps) ∧ sf_ser_item (SfString name) ps = Ok identifier ∧
    covered_value response context c = Ok v ∧ line = identifier ++ lit ": " ++ v.
Proof.
  unfold component_line, covered_value, canonical_component_identifier. intros Hx. destruct (component_structure c) as [[name ps]|e]; [|done].
  cbn [mbind result_bind] in *. bind_step Hx as identifier Hi. bind_step Hx as req Hr. rewrite Hr. cbn [mbind result_bind]. bind_step Hx as v Hv.
  apply Ok_inj in Hx. exists name, ps, identifier, v. by rewrite Hv.
Qed.

Lemma component_line_single response context c line p : component_line response context c = Ok line → c ∈ sp_components p →
  single_lines response context p → Forall line_char line.
Proof.
  intros Hx Hc Hp. apply component_line_Ok in Hx as (name & ps & i & v & _ & Hi & Hv & ->). rewrite !Forall_app. split_and!.
  - by eapply printable_single, ser_item_printable.
  - apply printable_single. by_decide.
  - by eapply Hp.
Qed.

Lemma app_last_nonempty {A} (l : list A) x : l ++ [x] ≠ [].
Proof. by destruct l. Qed.

(** Lines are read back from what they are joined to. *)
Lemma joined_lines_inj (a b : list str) base : a ≠ [] → b ≠ [] → Forall (Forall line_char) a → Forall (Forall line_char) b →
  utf8_encode (join [10] a) = Ok base → utf8_encode (join [10] b) = Ok base → a = b.
Proof.
  intros Ha Hb La Lb Ea Eb. assert (∀ l, Forall (Forall line_char) l → Forall is_code_point (join [10] l)) as Hcp.
  { intros l Hl. apply join_Forall; [by repeat constructor; unfold is_code_point; lia|]. eapply Forall_impl; [exact Hl|]. intros x Hx. eapply Forall_impl; [exact Hx|]. by intros ? []. }
  pose proof (utf8_encode_inj _ _ _ (Hcp _ La) (Hcp _ Lb) Ea Eb) as E. apply (f_equal (PyText.split 10)) in E.
  rewrite !split_join in E; [done|done|eapply Forall_impl; [exact Lb|apply line_no_break]|done|eapply Forall_impl; [exact La|apply line_no_break]].
Qed.

(** The lines of a base, and the value of its last one. *)
Lemma build_signature_base_Ok req p context base : build_signature_base req p context = Ok base →
  ∃ lines value, mapM_res (component_line req context) (sp_components p) = Ok lines ∧ value_string p = Ok value ∧
    utf8_encode (join [10] (lines ++ [QUOTED_SIGNATURE_PARAMS ++ lit ": " ++ value])) = Ok base.
Proof.
  unfold build_signature_base. intros Hx. apply bind_unit_Ok in Hx as [_ Hx]. bind_step Hx as lines Hl. bind_step Hx as value Hv. by exists lines, value.
Qed.

Lemma value_string_Ok p v : value_string p = Ok v → ∃ m, structured_value p = Ok m ∧ sf_ser_dictionary [(lit "x", m)] = Ok (lit "x=" ++ v).
Proof.
  unfold value_string. intros Hx. bind_step Hx as m Hm. bind_step Hx as t Ht. apply Ok_inj in Hx. exists m. split; [done|].
  assert (∃ items ps, m = SfInner items ps) as (items & ps & ->).
  { unfold structured_value in Hm. bind_step Hm as items Hi. guard_step Hm as G. apply bind_unit_Ok in Hm as [_ Hm]. apply Ok_inj in Hm. eauto. }
  destruct (ser_inner_member _ _ _ _ Ht) as [w ->]. rewrite Ht. f_equal. change (lit "x" ++ [61] ++ w) with (lit "x=" ++ w). f_equal. subst v. done.
Qed.

Lemma base_lines req p context lines : single_lines req context p →
  mapM_res (component_line req context) (sp_components p) = Ok lines → Forall (Forall line_char) lines.
Proof.
  intros Hs Hl. apply mapM_res_Ok in Hl. assert (∀ c, c ∈ sp_components p → c ∈ sp_components p) as Hin by done.
  revert Hl Hin. generalize (sp_components p) at 1 2 as cs. intros cs Hl. induction Hl as [|c line cs lines Hc _ IH]; intros Hin; constructor.
  - eapply component_line_single; [exact Hc| |exact Hs]. apply Hin. by left.
  - apply IH. intros d Hd. apply Hin. by right.
Qed.

Lemma last_line_single p v : value_string p = Ok v → Forall line_char (QUOTED_SIGNATURE_PARAMS ++ lit ": " ++ v).
Proof.
  intros Hv. apply value_string_Ok in Hv as (m & _ & Hm). apply ser_dictionary_printable, printable_single in Hm.
  rewrite !Forall_app in *. split_and!; [apply printable_single; by_decide|apply printable_single; by_decide|]. by destruct Hm.
Qed.

Lemma structured_value_determined p q v : exact_signature p → exact_signature q → value_string p = Ok v → value_string q = Ok v →
  structured_value p = structured_value q.
Proof.
  intros (m & Hm & Em) (m' & Hm' & Em') Hp Hq. apply value_string_Ok in Hp as (m1 & E1 & Hp), Hq as (m2 & E2 & Hq).
  assert (m1 = m) as -> by congruence. assert (m2 = m') as -> by congruence.
  apply dictionary_roundtrip in Hp; [|by cbn; rewrite Em]. apply dictionary_roundtrip in Hq; [|by cbn; rewrite Em']. congruence.
Qed.

Lemma structured_value_parts p q : structured_value p = structured_value q → is_Ok (structured_value p) = true →
  ordered_parameters p = ordered_parameters q ∧ Forall2 (λ c d, component_structure c = component_structure d) (sp_components p) (sp_components q).
Proof.
  unfold structured_value. set (f := λ c : str, _). intros Hpq Hok.
  destruct (mapM_res f (sp_components p)) as [items|e] eqn:Ep; [|done]. cbn [mbind result_bind] in *.
  destruct (raise_if _ _) as [[]|e] in Hpq, Hok; [|done]. cbn [mbind result_bind] in *.
  destruct (reject_rfc9651_values (any_rfc9651 (ordered_parameters p))) as [[]|e]; [|done]. cbn [mbind result_bind] in *. symmetry in Hpq.
  bind_step Hpq as items' Eq. guard_step Hpq as G. apply bind_unit_Ok in Hpq as [_ Hpq]. apply Ok_inj in Hpq. injection Hpq as -> ->. split; [done|].
  apply mapM_res_Ok in Ep, Eq. clear -Ep Eq. revert Eq. generalize (sp_components q). induction Ep as [|c i cs items Hc _ IH]; intros ds Eq; inversion Eq as [|d ? ds' ? Hd Hds]; subst; constructor.
  - unfold f in Hc, Hd. destruct (component_structure c) as [[n ps]|]; [|done]. destruct (component_structure d) as [[n' ps']|]; [|done]. cbn in *. congruence.
  - by apply IH.
Qed.

Lemma lines_determined req req' context context' cs ds lines :
  Forall2 (λ c line, component_line req context c = Ok line) cs lines → Forall2 (λ c line, component_line req' context' c = Ok line) ds lines →
  Forall2 (λ c d, component_structure c = component_structure d) cs ds →
  Forall2 (λ c d, component_structure c = component_structure d ∧ ∃ v, covered_value req context c = Ok v ∧ covered_value req' context' d = Ok v) cs ds.
Proof.
  intros Hc. revert ds. induction Hc as [|c line cs lines Hc _ IH]; intros ds Hd Hs; inversion Hs as [|? d ? ds' Hcd Hs']; subst; inversion Hd as [|? ? ? ? Hd1 Hd2]; subst; constructor.
  - split; [done|]. apply component_line_Ok in Hc as (n & ps & i & v & E1 & Hi & Hv & ->), Hd1 as (n' & ps' & i' & v' & E1' & Hi' & Hv' & E).
    assert (n' = n ∧ ps' = ps) as [-> ->] by (rewrite E1, E1' in Hcd; by injection Hcd). assert (i' = i) as -> by congruence.
    apply app_inv_head, app_inv_head in E. subst v'. eauto.
  - by apply IH.
Qed.
End bases.


(** C5 What a verified request rests on.  When [verify_signed_http_request] returns
    an identity, exactly one of the complete signatures with the required tag was
    accepted and every other one was refused; the accepted one covers all required
    components, was made within the permitted age and skew at a reading of the
    clock, has a key identifier whose domain the resolver vouches for with this very
    result, and verifies, under the key of that identifier in the resolved key set
    and the algorithm of that key, over the base of the message and the signature's
    own parameters; and a body is the one whose SHA-256 digest the covered
    [Content-Digest] field names. *)
Theorem http_request_sound `{Platform, HttpPlatform, StructuredFields, !SfTokens} {S R : Type} `{ResolverSpec S (VerifiedDomain R)} (env : http_env)
    (profile : HttpSignatureProfile) (path : list nat) (req : HttpRequest) (opts : HttpVerificationOptions) (cert : option TLSCertificate)
    (s s' : S) (vd : VerifiedDomain R) (Hs : rs_inv s) (Hok : verify_signed_http_request env profile path req opts cert s = (s', Ok vd)) :
  rs_inv s' ∧ ∃ before p after signatures sig,
    signature_candidates req opts = Ok (before ++ p :: after, signatures)
    ∧ Forall (failed (S:=S) (R:=R) env profile (1 :: path)%nat req opts cert signatures) (before ++ after)
    ∧ candidate req opts p sig ∧ request_accepted env profile req opts cert p sig vd.
Proof.
  unfold verify_signed_http_request, within_budget, mbind, MM_bind, pure in Hok. destruct (he_check env _) as [[]|e]; [|done].
  destruct (signature_candidates req opts) as [[candidates signatures]|e] eqn:Ec; [|done].
  destruct (verify_candidates _ _ _ _ _ _ _ _ _ _ s) as [s1 [v|e]] eqn:E; [|done]. destruct (he_check env _) as [[]|e]; [|done]. injection Hok as <- <-.
  destruct (verify_candidates_sound env profile _ _ _ _ _ _ _ _ _ _ _ Hs E) as [Hs' (before & p & after & -> & Hall & Hacc)]. split; [done|].
  exists before, p, after, signatures, (signature_of signatures p). split_and!; [done|done| |done].
  apply signature_candidates_Ok, Forall_app in Ec as [_ Ec]. by inversion Ec.
Qed.

(** ** Responses *)

(** A component of one list stands in another, up to the order of parameters. *)
Definition covers `{StructuredFields} (components : list str) (c : str) : Prop :=
  ∃ id c' id', component_structure c = Ok id ∧ c' ∈ components ∧ component_structure c' = Ok id' ∧ same_identity id id' = true.

Lemma dict_get_set_ne {A} k k' (v : A) d : k ≠ k' → dict_get k (dict_set k' v d) = dict_get k d.
Proof.
  intros Hk. induction d as [|[k1 v1] d IH]; cbn [dict_set dict_get].
  - by rewrite (proj2 (eqb_false k' k)) by congruence.
  - destruct (k1 ==? k') eqn:E; cbn [dict_get]; [|by rewrite IH]. apply eqb_true in E as ->. by rewrite (proj2 (eqb_false k' k)) by congruence.
Qed.

Section responses.
Context `{Platform, HttpPlatform, StructuredFields} (env : http_env) (profile : HttpSignatureProfile).

Lemma covers_all_Ok components identities required : mapM_res component_structure components = Ok identities →
  covers_all identities required = Ok true → Forall (covers components) required.
Proof.
  intros Hi Hc. unfold covers_all in Hc. bind_step Hc as ids Hr. apply Ok_inj in Hc. apply mapM_res_Ok in Hi, Hr. rewrite forallb_forall in Hc.
  apply Forall_forall. intros c Hin. apply list_elem_of_lookup in Hin as [i Hc0]. destruct (Forall2_lookup_l _ _ _ _ _ Hr Hc0) as (id & Hid & Hs).
  assert (existsb (same_identity id) identities = true) as Hex by (apply Hc, list_elem_of_In; by eapply list_elem_of_lookup_2).
  apply existsb_exists in Hex as (id' & Hin' & Hsame). apply list_elem_of_In, list_elem_of_lookup in Hin' as [j Hj].
  destruct (Forall2_lookup_r _ _ _ _ _ Hi Hj) as (c' & Hc' & Hs'). exists id, c', id'. split_and!; [done|by eapply list_elem_of_lookup_2|done|done].
Qed.

(** What a challenge asks for. *)
Lemma parse_response_negotiation_Ok request challenge : parse_response_negotiation request = Ok challenge →
  ∃ label, requested_signature_member (sp_components challenge) = Ok label ∧ Forall (covers (sp_components challenge)) (response_components label)
    ∧ valid_nonce (sp_nonce challenge) = Ok ().
Proof.
  unfold parse_response_negotiation. intros Hx. guard_step Hx as G1. apply bind_unit_Ok in Hx as [_ Hx]. bind_step Hx as d Hd.
  destruct d as [|[label [v ps|items ps]] [|]]; try done. guard_step Hx as G2. bind_step Hx as nonce Hn. apply bind_unit_Ok in Hx as [Hv Hx]. bind_step Hx as parsed Hp.
  apply bind_unit_Ok in Hx as [_ Hx]. bind_step Hx as ids Hi. bind_step Hx as l Hl. bind_step Hx as complete Hc. destruct complete; [|done].
  cbn [negb raise_if mbind result_bind] in Hx. apply Ok_inj in Hx. subst parsed. exists l. split_and!; [done|by eapply covers_all_Ok|].
  assert (sp_nonce challenge = nonce) as ->.
  { unfold from_structured_member in Hp. bind_step Hp as cs Hcs. apply bind_unit_Ok in Hp as [_ Hp]. guard_step Hp as G3. do 4 bind_step Hp as ? ?. bind_step Hp as n Hn'. bind_step Hp as t Ht.
    apply Ok_inj in Hp. subst challenge. cbn [sp_nonce].
    assert (dict_get (lit "nonce") (with_zero_times ps) = dict_get (lit "nonce") ps) as E.
    { unfold with_zero_times. rewrite !dict_get_set_ne by by_decide. done. }
    rewrite E in Hn'. destruct (dict_get (lit "nonce") ps) as [[]|]; try done. guard_step Hn as G4. apply Ok_inj in Hn. subst. cbn in Hn'. by injection Hn' as <-. }
  destruct (valid_nonce nonce) as [[]|e]; [done|]. cbn in Hv. by destruct (is_value_error e || is_dnsid e).
Qed.

Lemma check_response_freshness_Ok path p : check_response_freshness env profile path p = Ok () →
  ∃ created expires, sp_created p = Some created ∧ sp_expires p = Some expires ∧ 0 < expires - created ≤ RESPONSE_SIGNATURE_LIFETIME ∧
    now_ts env (0 :: path)%nat - max_age profile ≤ created ≤ now_ts env (0 :: path)%nat + skew profile ∧ now_ts env (1 :: path)%nat ≤ expires + skew profile.
Proof.
  unfold check_response_freshness. destruct (sp_created p) as [created|] eqn:Ec; [|done]. destruct (sp_expires p) as [expires|] eqn:Ee; [|done].
  intros Hx. guard_step Hx as G1. apply bind_unit_Ok in Hx as [Hf Hx]. apply check_freshness_Ok in Hf as (c & Hc & Hr & _). cbn [without_expires sp_created] in Hc.
  assert (c = created) as -> by congruence. destruct (expires + skew profile <? now_ts env (1 :: path)%nat) eqn:G2; [done|]. exists created, expires. bool_prop. split_and!; try done; lia.
Qed.

Lemma same_identities_pairs (a b : list (str * sf_params)) :
  (length a =? length b)%nat && forallb (λ ab, same_identity ab.1 ab.2) (zip a b) = true → Forall2 (λ x y, same_identity x y = true) a b.
Proof.
  rewrite andb_true_iff. intros [Hl Hf]. apply Nat.eqb_eq in Hl. revert b Hl Hf. induction a as [|x a IH]; intros [|y b] Hl Hf; try discriminate Hl; constructor.
  - cbn in Hf. by apply andb_true_iff in Hf as [? _].
  - apply IH; [cbn in Hl; lia|]. cbn in Hf. by apply andb_true_iff in Hf as [_ ?].
Qed.

Section resolved_responses.
Context {S R : Type} `{ResolverSpec S (VerifiedDomain R)} `{!SfTokens}.

(** What an accepted response shows. *)
Record response_accepted (path path' : list nat) (request response : HttpRequest) (opts : ResponseSignatureOptions) (cert : option TLSCertificate)
    (challenge p : SignatureParams) (sig : bytes) (vd : VerifiedDomain R) : Prop := {
  rp_challenge : parse_response_negotiation request = Ok challenge ∧ sp_label p = sp_label challenge ∧ sp_nonce p = sp_nonce challenge;
  rp_candidate : candidate response default_verification p sig;
  rp_components : ∃ ids ids', mapM_res component_structure (sp_components p) = Ok ids ∧ mapM_res component_structure (sp_components challenge) = Ok ids'
                    ∧ Forall2 (λ x y, same_identity x y = true) ids ids';
  rp_coverage : ∃ label, requested_signature_member (sp_components challenge) = Ok label ∧ Forall (covers (sp_components challenge)) (response_components label);
  rp_identity : ∃ domain kid, normalize_fqdn idna_encode (ro_expected_domain opts) true = Ok domain ∧ parse_key_id idna_encode (sp_key_id p) = Ok (domain, kid)
                  ∧ rs_vouches domain cert vd ∧ signed_by response (Some request) p sig kid vd;
  rp_content : ∃ content, response_content request response false = Ok content ∧ content_bound (with_body response (Some content)) p;
  rp_no_store : has_no_store (get_header response (lit "cache-control")) = true;
  rp_fresh : check_response_freshness env profile path p = Ok () ∧ check_response_freshness env profile path' p = Ok ()
}.

Lemma response_policy_Ok opts label policy : response_policy opts label = Ok policy → normalize_fqdn idna_encode (ro_expected_domain opts) true = Ok (ro_expected_domain policy).
Proof.
  unfold response_policy. intros Hx. destruct (mbind _ _) as [p|e] eqn:E in Hx; [|destruct e; done]. apply Ok_inj in Hx. subst p.
  bind_step E as d Hd. bind_step E as ids Hi. bind_step E as adds Ha. apply bind_unit_Ok in E as [_ E]. apply Ok_inj in E. by subst policy.
Qed.

Lemma response_input_Ok path request response opts p sig domain kid : response_verification_input env profile path request response opts = Ok (p, sig, domain, kid) →
  ∃ challenge, parse_response_negotiation request = Ok challenge ∧ sp_label p = sp_label challenge ∧ sp_nonce p = sp_nonce challenge ∧
    candidate response default_verification p sig ∧
    (∃ ids ids', mapM_res component_structure (sp_components p) = Ok ids ∧ mapM_res component_structure (sp_components challenge) = Ok ids'
       ∧ Forall2 (λ x y, same_identity x y = true) ids ids') ∧
    normalize_fqdn idna_encode (ro_expected_domain opts) true = Ok domain ∧ parse_key_id idna_encode (sp_key_id p) = Ok (domain, kid) ∧
    check_response_freshness env profile path p = Ok ().
Proof.
  unfold response_verification_input. intros Hx. bind_step Hx as policy Hp. apply response_policy_Ok in Hp. apply bind_unit_Ok in Hx as [_ Hx].
  bind_step Hx as challenge Hc. exists challenge. split; [done|]. bind_step Hx as ids' Hi'. bind_step Hx as covered Hcov. guard_step Hx as G1.
  apply bind_unit_Ok in Hx as [_ Hx]. destruct (signature_candidates response default_verification) as [[candidates signatures]|e] eqn:Ecs; [|done]. cbn [mbind result_bind] in Hx.
  destruct (List.find _ candidates) as [q|] eqn:Ef; [|done]. apply find_some in Ef as [Hin Hlabel]. rewrite eqb_true in Hlabel.
  bind_step Hx as ids Hi. guard_step Hx as G2. apply orb_false_iff in G2 as [G2 G3]. apply negb_false_iff in G2, G3. rewrite eqb_true in G3.
  apply bind_unit_Ok in Hx as [Hf Hx]. guard_step Hx as G4.
  destruct (try_except _ _) as [[d k]|e] eqn:Ek in Hx; [|done]. cbn [mbind result_bind] in Hx. guard_step Hx as G5. apply negb_false_iff in G5. rewrite eqb_true in G5.
  apply Ok_inj in Hx. injection Hx as <- <- <- <-. destruct (parse_key_id idna_encode (sp_key_id q)) as [dk|e] eqn:Epk; [|destruct e; done].
  apply Ok_inj in Ek. subst dk d. split_and!; [done|done| | |done|done|done].
  - apply signature_candidates_Ok in Ecs. rewrite Forall_forall in Ecs. apply Ecs. by apply list_elem_of_In.
  - exists ids, ids'. split_and!; [done|done|]. by apply same_identities_pairs.
Qed.
End resolved_responses.
End responses.


(** ** Failures of signing *)
Section atomicity.
Context `{Platform, HttpPlatform, StructuredFields} (env : http_env) (profile : HttpSignatureProfile).

Definition only_headers {A} (m : MM HttpRequest A) : Prop := ∀ r r' o, m r = (r', o) → ∃ h, r' = with_headers r h.

Lemma with_same_headers r : with_headers r (hr_headers r) = r.
Proof. by destruct r. Qed.
Lemma only_headers_pure {A} (o : res A) : only_headers (pure o).
Proof. intros r r' o' [= <- <-]. exists (hr_headers r). by rewrite with_same_headers. Qed.
Lemma only_headers_get : only_headers get_request.
Proof. intros r r' o' [= <- <-]. exists (hr_headers r). by rewrite with_same_headers. Qed.
Lemma only_headers_update f : (∀ r r', f r = Ok r' → ∃ h, r' = with_headers r h) → only_headers (update f).
Proof.
  intros Hf r r' o. unfold update. destruct (f r) as [r1|e] eqn:E; intros [= <- <-]; [by apply Hf|]. exists (hr_headers r). by rewrite with_same_headers.
Qed.
Lemma only_headers_bind {A B} (m : MM HttpRequest A) (k : A → MM HttpRequest B) :
  only_headers m → (∀ a, only_headers (k a)) → only_headers (m ≫= k).
Proof.
  intros Hm Hk r r' o. unfold mbind, MM_bind. destruct (m r) as [r1 [a|e]] eqn:E; intros Hx; apply Hm in E as [h ->].
  - apply Hk in Hx as [h' ->]. by exists h'.
  - injection Hx as <- <-. by exists h.
Qed.
Lemma set_header_only r name v : ∃ h, set_header r name v = with_headers r h.
Proof. eexists. reflexivity. Qed.
Lemma prepare_only r opts label nonce r' : prepare_response_negotiation r opts label nonce = Ok r' → ∃ h, r' = with_headers r h.
Proof.
  unfold prepare_response_negotiation. intros Hx. bind_step Hx as policy Hp. apply bind_unit_Ok in Hx as [_ Hx]. guard_step Hx as G1. apply bind_unit_Ok in Hx as [_ Hx].
  bind_step Hx as items Hi. bind_step Hx as header Hh. guard_step Hx as G2. apply Ok_inj in Hx. subst r'. apply set_header_only.
Qed.

Lemma sign_http_request_only path opts : only_headers (sign_http_request env profile path opts).
Proof.
  unfold sign_http_request. apply only_headers_bind.
  { destruct (so_response_signature opts); [apply only_headers_update; intros ? ?; apply prepare_only|apply (only_headers_pure (Ok ()))]. }
  intros _. repeat (apply only_headers_bind; [apply only_headers_pure|intros ?]). apply only_headers_bind.
  { apply only_headers_update. intros r r' Hr. apply Ok_inj in Hr. subst r'. destruct (hr_body r); [apply set_header_only|exists (hr_headers r); by rewrite with_same_headers]. }
  intros _. apply only_headers_bind; [apply only_headers_get|]. intros req. repeat (apply only_headers_bind; [apply only_headers_pure|intros ?]).
  assert (∀ f name, only_headers (update (λ r, t ← f r; Ok (set_header r name t)))) as Hset.
  { intros f name. apply only_headers_update. intros r r' Hr. bind_step Hr as t Ht. apply Ok_inj in Hr. subst r'. apply set_header_only. }
  apply only_headers_bind; [apply Hset|]. intros _. apply Hset.
Qed.

Lemma create_signed_failed path opts response req req' e : so_response_signature opts = Some response →
  create_signed_http_request env profile path opts req = (req', Raise e) → req' = req.
Proof.
  intros Hr. unfold create_signed_http_request. rewrite Hr. destruct (negb _); [by intros [= <- _]|].
  destruct (sign_http_request env profile path opts req) as [r1 o] eqn:E. apply sign_http_request_only in E as [h ->].
  destruct o; intros [= <- _]. by destruct req.
Qed.
Lemma sign_requested_failed path request response response' e :
  sign_requested_http_response env profile path request response = (response', Raise e) → response' = response ∨ he_check env (2 :: path)%nat = Raise e.
Proof.
  unfold sign_requested_http_response, mbind, MM_bind, pure, update. destruct (he_check env (0 :: path)%nat) as [[]|e0]; [|intros [= <- _]; by left].
  destruct (sign_response env profile (1 :: path)%nat request response) as [r|e0]; [|intros [= <- _]; by left]. intros [= _ <-]. by right.
Qed.
End atomicity.

(** Failed signing leaves messages as they were: a request that is signed with a
    negotiated response is unchanged, headers included, when
    [create_signed_http_request] raises, at whatever step; and a response is
    unchanged when [sign_requested_http_response] raises, unless what raised is
    the deadline, read after the signature was put on the response. *)
Theorem failed_signing_unchanged `{Platform, HttpPlatform, StructuredFields} (env : http_env) (profile : HttpSignatureProfile) (path : list nat)
    (opts : HttpSigningOptions) (response_opts : ResponseSignatureOptions) (Hopts : so_response_signature opts = Some response_opts) :
  (∀ req req' e, create_signed_http_request env profile path opts req = (req', Raise e) → req' = req)
  ∧ (∀ request response response' e, sign_requested_http_response env profile path request response = (response', Raise e) →
       response' = response ∨ he_check env (2 :: path)%nat = Raise e).
Proof. split; intros; [by eapply create_signed_failed|by eapply sign_requested_failed]. Qed.
