(* ===== verification/HttpRoundtrip.v ===== *)
(** * Signed requests verify

    What [create_signed_http_request] produces is accepted by
    [verify_signed_http_request]. *)
From S2P Require Import Prelude Sha256 Errors PyText Base64 Utils Lr ResourceFetcher Canonical Keys TxtRecord TxtRecordSpec Identity HttpsClient Manager ManagerSpec Publication PublicationSpec HttpModels HttpSignatures HttpProfile HttpSpec.

(** ** Structured fields *)

(** Keys of RFC 8941. *)
Definition sf_key (k : str) : bool :=
  match k with
  | [] => false
  | c :: k => (is_lower c || (c =? 42)) && forallb (λ c, is_lower c || is_digit c || existsb (Z.eqb c) (lit "_-.*")) k
  end.

(** RFC 8941: strings are read back; an item without parameters is its value; keys
    are checked; no blanks around; and a byte sequence is base64 between colons. *)
Class SfGrammar `{StructuredFields} : Prop := {
  grammar_tokens :: SfTokens;
  grammar_serialization :: SfSerialization;
  string_roundtrip s t : sf_ser_bare (SfString s) = Ok t → sf_parse_item t = Ok (SfString s, [], []);
  ser_plain_item v : sf_ser_item v [] = sf_ser_bare v;
  ser_dictionary_key k m t : sf_ser_dictionary [(k, m)] = Ok t → sf_key k = true;
  ser_dictionary_stripped d t : sf_ser_dictionary d = Ok t → strip_blanks t = t;
  parse_byte_member k b : sf_key k = true → is_bytes b → sf_parse_dictionary (byte_member k b) = Ok ([(k, SfItem (SfBytes b) [])], [])
}.

(** ** Headers *)
Section headers.
Context `{Platform}.

Lemma set_header_lines r n v : str_lower (str_lower n) = str_lower n →
  hr_headers (set_header r n v) = List.filter (λ h, negb (named n h)) (hr_headers r) ++ [(str_lower n, v)].
Proof.
  intros Hn. unfold set_header. cbn [hr_headers with_headers]. apply dict_set_snoc. intros Hin. apply list_elem_of_fmap in Hin as ([k w] & Hk & Hin).
  apply list_elem_of_In, filter_In in Hin as [_ Hx]. cbn in Hk. subst k. unfold named in Hx. cbn [fst] in Hx. rewrite Hn, eqb_refl in Hx. done.
Qed.

Lemma named_other n m h : str_lower n ≠ str_lower m → named m h = true → named n h = false.
Proof. unfold named. rewrite eqb_true, eqb_false. congruence. Qed.
Lemma filter_other n m (l : list (str * str)) : str_lower n ≠ str_lower m → List.filter (named m) (List.filter (λ h, negb (named n h)) l) = List.filter (named m) l.
Proof.
  intros Hne. induction l as [|h l IH]; [done|]. cbn [List.filter]. destruct (named m h) eqn:Em.
  - rewrite (named_other _ _ _ Hne Em). cbn [negb List.filter]. by rewrite Em, IH.
  - destruct (negb (named n h)); cbn [List.filter]; [by rewrite Em|done].
Qed.
Lemma filter_same n (l : list (str * str)) : List.filter (named n) (List.filter (λ h, negb (named n h)) l) = [].
Proof. induction l as [|h l IH]; [done|]. cbn [List.filter]. destruct (named n h) eqn:E; cbn [negb List.filter]; [done|by rewrite E]. Qed.

Lemma set_header_filter r n v m : str_lower (str_lower n) = str_lower n →
  List.filter (named m) (hr_headers (set_header r n v)) =
    if str_lower n ==? str_lower m then [(str_lower n, v)] else List.filter (named m) (hr_headers r).
Proof.
  intros Hn. rewrite set_header_lines by done. rewrite List.filter_app. cbn [List.filter]. change (named m (str_lower n, v)) with (str_lower (str_lower n) ==? str_lower m). rewrite Hn.
  destruct (str_lower n ==? str_lower m) eqn:E.
  - rewrite eqb_true in E. assert (List.filter (named m) (List.filter (λ h, negb (named n h)) (hr_headers r)) = []) as ->; [|done].
    unfold named. rewrite <- E. apply (filter_same n).
  - rewrite eqb_false in E. rewrite app_nil_r. by apply filter_other.
Qed.

Lemma has_header_filter r n : has_header r n = negb (bool_decide (List.filter (named n) (hr_headers r) = [])).
Proof.
  unfold has_header. induction (hr_headers r) as [|h l IH]; [done|]. cbn [existsb List.filter]. destruct (named n h); [done|]. by rewrite IH.
Qed.

Lemma get_set_same r n v : str_lower (str_lower n) = str_lower n → get_header (set_header r n v) n = strip_blanks v ∧ has_header (set_header r n v) n = true.
Proof. intros Hn. rewrite has_header_filter. unfold get_header. rewrite set_header_filter, eqb_refl by done. done. Qed.
Lemma get_set_other r n v m : str_lower (str_lower n) = str_lower n → str_lower n ≠ str_lower m →
  get_header (set_header r n v) m = get_header r m ∧ has_header (set_header r n v) m = has_header r m.
Proof.
  intros Hn Hne. rewrite !has_header_filter. unfold get_header. rewrite set_header_filter by done. by rewrite (proj2 (eqb_false _ _) Hne).
Qed.
Lemma get_absent r n : has_header r n = false → get_header r n = [].
Proof. rewrite has_header_filter. unfold get_header. by destruct (List.filter _ _). Qed.
End headers.

(** ** Plain components *)

(** A component that is a simple derived name or a field name. *)
Definition plain_component (c : str) : Prop := c ∈ simple_derived ∨ is_lowercase_http_field_name c = true.

Section plain.
Context `{Platform, HttpPlatform, SfGrammar}.

Lemma ascii_printable t : Forall (λ c, 32 ≤ c < 127) t → ascii_only t = Ok t.
Proof.
  intros Ht. unfold ascii_only. assert (forallb (λ c, c <? 128) t = true) as ->; [|done]. apply forallb_forall. intros c Hc.
  rewrite Forall_forall in Ht. apply list_elem_of_In, Ht in Hc. cbn in Hc. apply Z.ltb_lt. lia.
Qed.

Lemma derived_component name t : name ∈ simple_derived → sf_ser_bare (SfString name) = Ok t → component_structure name = Ok (name, []).
Proof.
  intros Hin Ht. unfold component_structure.
  assert (List.find (λ n, (name ==? n) || startswith (n ++ [59]) name) derived_components = Some name) as ->.
  { assert (Forall (λ n, List.find (λ m, (n ==? m) || startswith (m ++ [59]) n) derived_components = Some n) simple_derived) as Hall by by_decide.
    rewrite Forall_forall in Hall. by apply Hall. }
  rewrite Ht. cbn [mbind result_bind]. rewrite drop_all, app_nil_r.
  assert (Forall (λ c, 32 ≤ c < 127) t) as Hp by (eapply (ser_item_printable _ []); by rewrite ser_plain_item).
  rewrite (ascii_printable _ Hp). cbn [mbind result_bind]. by rewrite (string_roundtrip _ _ Ht).
Qed.

(** A plain component that has a structure is its own name. *)
Lemma plain_structure c id : plain_component c → component_structure c = Ok id → id = (c, []).
Proof.
  intros [Hd|Hf] Hs; [|rewrite (field_component c Hf) in Hs; by injection Hs as <-].
  unfold component_structure in Hs.
  assert (List.find (λ n, (c ==? n) || startswith (n ++ [59]) c) derived_components = Some c) as E.
  { assert (Forall (λ n, List.find (λ m, (n ==? m) || startswith (m ++ [59]) n) derived_components = Some n) simple_derived) as Hall by by_decide.
    rewrite Forall_forall in Hall. by apply Hall. }
  rewrite E in Hs. destruct (sf_ser_bare (SfString c)) as [t|e] eqn:Et; [|done].
  assert (component_structure c = Ok (c, [])) as Hs' by by eapply derived_component.
  assert (component_structure c = Ok id) as Hs''. { unfold component_structure. rewrite E, Et. exact Hs. }
  congruence.
Qed.

Lemma plain_public_text c t : sf_ser_item (SfString c) [] = Ok t → component_public_text c [] = Ok c.
Proof.
  intros Ht. unfold component_public_text. rewrite Ht. cbn [mbind result_bind]. rewrite <- ser_plain_item, Ht. cbn [mbind result_bind].
  assert (startswith t t = true) as -> by (apply startswith_app; exists []; by rewrite app_nil_r). cbn [negb raise_if mbind result_bind].
  by rewrite drop_all, app_nil_r.
Qed.

(** Components valid in a request are valid without knowing the context. *)
Lemma validate_component_weaken c id : validate_component c (Some false) = Ok id → validate_component c None = Ok id.
Proof.
  unfold validate_component. intros Hx. bind_step Hx as nv Hnv. rewrite Hnv. cbn [mbind result_bind]. destruct nv as [name values].
  bind_step Hx as allowed Ha. guard_step Hx as G. destruct (dict_get (lit "req") values) as [v|] eqn:Er.
  - exfalso. destruct (negb (bool_decide (v = SfBool true))); done.
  - assert (allowed_parameters name values None = Ok allowed) as ->.
    { unfold allowed_parameters in *. destruct (bool_decide (name ∈ simple_derived)); [done|]. destruct (name ==? lit "@query-param"); [done|].
      destruct (name ==? lit "@status"); [done|]. done. }
    cbn [mbind result_bind]. rewrite G. cbn [raise_if mbind result_bind]. exact Hx.
Qed.
Lemma validate_components_weaken seen cs : validate_components seen cs (Some false) = Ok () → validate_components seen cs None = Ok ().
Proof.
  revert seen. induction cs as [|c cs IH]; intros seen; cbn [validate_components]; [done|]. intros Hx. bind_step Hx as id Hid.
  rewrite (validate_component_weaken _ _ Hid). cbn [mbind result_bind]. guard_step Hx as G. rewrite G. cbn [raise_if mbind result_bind]. by apply IH.
Qed.

(** ** Messages that differ in their signature fields *)
Record agree (r r' : HttpRequest) : Prop := {
  agree_method : hr_method r = hr_method r';
  agree_url : hr_url r = hr_url r';
  agree_status : hr_status r = hr_status r';
  agree_headers : ∀ n, str_lower n ≠ lit "signature" → str_lower n ≠ lit "signature-input" → get_header r n = get_header r' n ∧ has_header r n = has_header r' n
}.

Lemma component_value_agree r r' name ps : agree r r' → str_lower (lit "host") = lit "host" → str_lower name ≠ lit "signature" → str_lower name ≠ lit "signature-input" →
  component_value r r name ps = component_value r' r' name ps.
Proof.
  intros [Hm Hu Hs Hh] Hhost Hn1 Hn2. destruct (Hh name Hn1 Hn2) as [Hg Hhas]. destruct (Hh (lit "host")) as [Hg' _]; [by rewrite Hhost..|].
  unfold component_value, resolve_authority, query_param_value. by rewrite Hm, Hu, Hs, Hg, Hhas, Hg'.
Qed.
Lemma component_line_agree r r' c : agree r r' → str_lower (lit "host") = lit "host" → plain_component c → str_lower c ≠ lit "signature" → str_lower c ≠ lit "signature-input" →
  component_line r None c = component_line r' None c.
Proof.
  intros Ha Hhost Hp Hn1 Hn2. unfold component_line. destruct (component_structure c) as [id|e] eqn:E; [|done]. rewrite (plain_structure c id Hp E). cbn [mbind result_bind].
  destruct (canonical_component_identifier c) as [i|e]; [|done]. cbn [mbind result_bind]. unfold component_source. cbn [dict_get]. rewrite (agree_status _ _ Ha).
  rewrite bool_decide_eq_false_2 by by intros [? ?]. destruct (raise_if _ _); [|done]. cbn [mbind result_bind]. by rewrite (component_value_agree r r').
Qed.
End plain.

(** ** Signature parameters *)

(** The parameters a signer makes. *)
Record made (p : SignatureParams) (created expires : Z) : Prop := {
  made_created : sp_created p = Some created;
  made_expires : sp_expires p = Some expires;
  made_alg : sp_alg p ≠ [];
  made_key_id : sp_key_id p ≠ [];
  made_tag : sp_tag p ≠ Some [];
  made_parameters : sp_parameters p = []
}.
Definition received (p : SignatureParams) : SignatureParams :=
  {| sp_label := sp_label p; sp_key_id := sp_key_id p; sp_alg := sp_alg p; sp_created := sp_created p; sp_expires := sp_expires p;
     sp_nonce := sp_nonce p; sp_components := sp_components p; sp_tag := sp_tag p; sp_parameters := ordered_parameters p |}.

Section params.
Context `{Platform, HttpPlatform, SfGrammar}.

Lemma received_ordered p created expires : made p created expires → ordered_parameters (received p) = ordered_parameters p.
Proof.
  intros [Hc He Ha Hk Ht Hp]. destruct p as [label [|k0 k] [|a0 a] cr ex nonce cs tag ps]; try done. cbn in *. subst.
  destruct nonce as [|n0 n], tag as [[|t0 t]|]; done.
Qed.

Lemma exact_ordered p created expires : made p created expires → exact_params (ordered_parameters p) = true ∧ any_rfc9651 (ordered_parameters p) = false
  ∧ NoDup (ordered_parameters p).*1.
Proof.
  intros [Hc He Ha Hk Ht Hp]. destruct p as [label [|k0 k] [|a0 a] cr ex nonce cs tag ps]; try done. cbn in *. subst.
  destruct nonce as [|n0 n], tag as [[|t0 t]|]; try done; (split; [done|split; [done|]]); cbn [fmap list_fmap fst omap list_omap]; by_decide.
Qed.

Lemma member_received p created expires items : made p created expires →
  mapM_res (λ i : bare_item * sf_params, match i with (SfString name, ps) => component_public_text name ps
                | _ => Raise (vfail RECORD_INVALID "Signature-Input components must be RFC 8941 Strings") end) items = Ok (sp_components p) →
  validate_component_identifiers (sp_components p) None = Ok () →
  from_structured_member (sp_label p) (SfInner items (ordered_parameters p)) = Ok (received p).
Proof.
  intros [Hc He Ha Hk Ht Hp] Hi Hv. unfold from_structured_member. rewrite Hi. cbn [mbind result_bind]. rewrite Hv. cbn [mbind result_bind].
  destruct p as [label [|k0 k] [|a0 a] cr ex nonce cs tag ps]; try done. cbn [sp_created sp_expires sp_parameters sp_tag] in *. subst.
  destruct nonce as [|n0 n], tag as [[|t0 t]|]; try done.
Qed.

Lemma plain_items cs items : Forall plain_component cs →
  mapM_res (λ c, '(name, ps) ← component_structure c; Ok (SfString name, ps)) cs = Ok items → items = map (λ c, (SfString c, [])) cs.
Proof.
  intros Hp Hi. apply mapM_res_Ok in Hi. revert Hp. induction Hi as [|c i cs items Hc _ IH]; intros Hp; [done|]. inversion Hp as [|?? Hpc Hpcs]; subst. cbn [map].
  rewrite <- IH by done. f_equal. destruct (component_structure c) as [id|e] eqn:E; [|done]. rewrite (plain_structure c id Hpc E) in Hc. cbn in Hc. by injection Hc as <-.
Qed.

Lemma plain_texts cs : Forall (λ c, is_Ok (sf_ser_item (SfString c) []) = true) cs →
  mapM_res (λ i : bare_item * sf_params, match i with (SfString name, ps) => component_public_text name ps
                | _ => Raise (vfail RECORD_INVALID "Signature-Input components must be RFC 8941 Strings") end) (map (λ c, (SfString c, [])) cs) = Ok cs.
Proof.
  intros Hs. apply mapM_res_Ok. induction Hs as [|c cs Hc _ IH]; cbn [map]; constructor; [|done].
  destruct (sf_ser_item (SfString c) []) as [t|e] eqn:E; [|done]. by eapply plain_public_text.
Qed.

(** The [Signature-Input] field is read back. *)
Lemma input_roundtrip p created expires text : made p created expires → Forall plain_component (sp_components p) →
  Forall (λ c, is_Ok (sf_ser_item (SfString c) []) = true) (sp_components p) → validate_component_identifiers (sp_components p) (Some false) = Ok () →
  serialize_params p = Ok text → parse_dictionary text = Ok [received p] ∧ strip_blanks text = text ∧ sf_key (sp_label p) = true.
Proof.
  intros Hm Hp Hs Hv Ht. unfold serialize_params in Ht. bind_step Ht as m Hsv. destruct (exact_ordered _ _ _ Hm) as (Hex & Hr & Hnd).
  unfold structured_value in Hsv. bind_step Hsv as items Hi. apply plain_items in Hi; [|done]. guard_step Hsv as G. rewrite Hr in Hsv. cbn in Hsv. apply Ok_inj in Hsv. subst m items.
  set (items := map (λ c, (SfString c, [])) (sp_components p)) in *.
  assert (exact_member (SfInner items (ordered_parameters p)) = true) as Hem.
  { cbn [exact_member]. rewrite Hex, andb_true_r. apply forallb_forall. intros i Hin. apply in_map_iff in Hin as (c & <- & _). done. }
  assert (member_rfc9651 (SfInner items (ordered_parameters p)) = false) as Hmr.
  { cbn [member_rfc9651]. rewrite Hr, orb_false_r. clear. subst items. by induction (sp_components p). }
  split_and!; [|by eapply ser_dictionary_stripped|by eapply ser_dictionary_key].
  unfold parse_dictionary, parse_input_dictionary, parse_sf_dictionary, as_value_error. rewrite (ascii_printable text) by by eapply ser_dictionary_printable.
  cbn [mbind result_bind]. assert (forallb (λ m : str * sf_member, exact_member m.2) [(sp_label p, SfInner items (ordered_parameters p))] = true) as Hall by (cbn [forallb snd]; by rewrite Hem).
  rewrite (dictionary_roundtrip _ _ Hall Ht).
  cbn [mbind result_bind try_except existsb raise_if snd]. rewrite Hmr. cbn [orb reject_rfc9651_values raise_if mbind result_bind try_except mapM_res].
  rewrite (member_received p created expires items Hm); [done|by apply plain_texts|]. by apply validate_components_weaken.
Qed.

(** Parameters with the same structure give the same base. *)
Lemma received_value p created expires : made p created expires → value_string (received p) = value_string p.
Proof. intros Hm. unfold value_string, structured_value. by rewrite (received_ordered _ _ _ Hm). Qed.

Lemma base_received req p created expires : made p created expires → build_signature_base req (received p) None = build_signature_base req p None.
Proof. intros Hm. unfold build_signature_base. rewrite (received_value _ _ _ Hm). done. Qed.

Lemma mapM_res_ext {A B} (f g : A → res B) l : (∀ x, x ∈ l → f x = g x) → mapM_res f l = mapM_res g l.
Proof.
  intros Hfg. induction l as [|x l IH]; [done|]. cbn [mapM_res]. rewrite Hfg by by left. destruct (g x); [|done]. cbn [mbind result_bind]. rewrite IH; [done|]. intros y Hy. apply Hfg. by right.
Qed.
Lemma base_agree r r' p : agree r r' → str_lower (lit "host") = lit "host" → Forall plain_component (sp_components p) →
  Forall (λ c, str_lower c ≠ lit "signature" ∧ str_lower c ≠ lit "signature-input") (sp_components p) → build_signature_base r p None = build_signature_base r' p None.
Proof.
  intros Ha Hhost Hp Hn. unfold build_signature_base. rewrite (agree_status _ _ Ha). destruct (validate_component_identifiers _ _); [|done]. cbn [mbind result_bind].
  rewrite (mapM_res_ext (component_line r None) (component_line r' None)); [done|]. intros c Hc. rewrite Forall_forall in Hp, Hn. destruct (Hn c Hc). apply component_line_agree; auto.
Qed.
End params.

(** ** A signing run *)

(** [str.lower] leaves ASCII text without capital letters as it is. *)
Definition lower_case (s : str) : bool := forallb (λ c, (32 <=? c) && (c <? 127) && negb (is_upper c)) s.
Definition lowers_ascii `{Platform} : Prop := ∀ s, lower_case s = true → str_lower s = s.

Definition with_digest `{Platform} (r : HttpRequest) : HttpRequest :=
  match hr_body r with Some body => set_header r (lit "content-digest") (digest_field body) | None => r end.

(** Additional components that are ordinary fields. *)
Definition ordinary_field (c : str) : Prop :=
  is_lowercase_http_field_name c = true ∧ c ≠ lit "signature" ∧ c ≠ lit "signature-input" ∧ c ≠ lit "content-digest".

Section run.
Context `{Platform, HttpPlatform, SfGrammar} (env : http_env) (profile : HttpSignatureProfile).

Lemma field_lower_case c : is_lowercase_http_field_name c = true → lower_case c = true.
Proof.
  destruct c as [|x c]; [done|]. cbn [is_lowercase_http_field_name]. rewrite andb_true_iff, forallb_forall. intros [Hx Hc].
  assert (∀ y, is_lower y || is_digit y || existsb (Z.eqb y) (lit "!#$%&'*+-.^_`|~") = true → (32 <=? y) && (y <? 127) && negb (is_upper y) = true) as Hy.
  { intros y. rewrite !orb_true_iff, existsb_exists. unfold is_lower, is_digit, is_upper. intros [[Hy|Hy]|(z & Hz & Hy)]; [lia..|].
    apply Z.eqb_eq in Hy. subst z. assert (Forall (λ y, (32 <=? y) && (y <? 127) && negb ((65 <=? y) && (y <=? 90)) = true) (lit "!#$%&'*+-.^_`|~")) as Hall by by_decide.
    rewrite Forall_forall in Hall. apply Hall. by apply list_elem_of_In. }
  unfold lower_case. apply forallb_forall. intros y [<-|Hin]; apply Hy; [by rewrite Hx|by apply Hc].
Qed.

(** What signing found and wrote. *)
Record signing_run (path : list nat) (opts : HttpSigningOptions) (req req' : HttpRequest) (provider : SigningProvider) (key : JWK) (kid alg : str) (base sig : bytes) (text : str)
    (p : SignatureParams) : Prop := {
  sr_provider : hp_key_provider profile = Some provider ∧ hp_domain profile ≠ [];
  sr_key : sp_signing_key provider = Ok key ∧ jwk_kid key = JStr kid ∧ 35 ∉ kid;
  sr_alg : ∃ a, signature_alg key = Ok a ∧ jose_alg_to_http_sig_alg a = Ok alg;
  sr_params : p = request_params env profile (1 :: path)%nat opts kid alg (request_components (with_digest req) opts);
  sr_valid : validate_component_identifiers (sp_components p) (Some false) = Ok ();
  sr_base : build_signature_base (with_digest req) p None = Ok base;
  sr_sig : sp_sign provider base = Ok sig;
  sr_text : serialize_params p = Ok text;
  sr_result : req' = set_header (set_header (with_digest req) (lit "signature-input") text) (lit "signature") (byte_member (so_label opts) sig)
}.

Lemma with_digest_header r n : lowers_ascii → str_lower n ≠ lit "content-digest" →
  get_header (with_digest r) n = get_header r n ∧ has_header (with_digest r) n = has_header r n.
Proof.
  intros Hl Hn. pose proof (Hl (lit "content-digest") ltac:(reflexivity)) as E. unfold with_digest. destruct (hr_body r); [|done]. apply get_set_other; rewrite !E; [done|]. congruence.
Qed.

Lemma create_signed_run path opts req req' : lowers_ascii → so_response_signature opts = None →
  has_header req (lit "signature-input") = false → has_header req (lit "signature") = false →
  create_signed_http_request env profile path opts req = (req', Ok ()) →
  0 < so_expires_in_seconds opts ≤ max_age profile ∧ ∃ provider key kid alg base sig text p, signing_run path opts req req' provider key kid alg base sig text p.
Proof.
  intros Hl Hr Hi Hs. unfold create_signed_http_request. destruct (negb _) eqn:Eexp; [done|]. rewrite Hr.
  apply negb_false_iff, andb_true_iff in Eexp as [E1 E2]. apply Z.ltb_lt in E1. apply Z.leb_le in E2.
  destruct (sign_http_request env profile path opts req) as [r o] eqn:E. intros [= <- ->]. split; [lia|].
  unfold sign_http_request in E. rewrite Hr in E. unfold mbind at 1, MM_bind at 1, mret at 1, MM_ret at 1 in E.
  unfold mbind, MM_bind, pure, update, get_request in E.
  destruct (require_signing_provider profile) as [provider|e] eqn:Ep; [|done]. destruct (sp_signing_key provider) as [key|e] eqn:Ek; [|done].
  destruct (kid_text key) as [kid|e] eqn:Ekid; [|done]. destruct (raise_if (bool_decide (35 ∈ kid)) _) as [[]|e] eqn:Eh; [|done].
  change (match hr_body req with Some body => set_header req (lit "content-digest") (digest_field body) | None => req end) with (with_digest req) in E.
  set (components := request_components (with_digest req) opts) in *.
  destruct (try_except (validate_component_identifiers components (Some false)) _) as [[]|e] eqn:Ev; [|done].
  destruct (signature_alg key) as [a|e] eqn:Ea; [|done]. cbn [mbind result_bind] in E. destruct (jose_alg_to_http_sig_alg a) as [alg|e] eqn:Ealg; [|done].
  set (p := request_params env profile (1 :: path)%nat opts kid alg components) in *.
  destruct (build_signature_base (with_digest req) p None) as [base|e] eqn:Eb; [|done]. destruct (sp_sign provider base) as [sig|e] eqn:Esig; [|done].
  assert (get_header (with_digest req) (lit "signature-input") = []) as Hin.
  { rewrite (proj1 (with_digest_header req (lit "signature-input") Hl ltac:(rewrite Hl by done; by_decide))). by apply get_absent. }
  rewrite Hin in E. destruct (result_bind _ _ _ _) as [r1|e] eqn:Et in E; [|done]. bind_step Et as text Htext. apply Ok_inj in Et. subst r1.
  unfold replace_signature_input_member in Htext. cbn [eqb] in Htext. change ([] ==? []) with true in Htext. cbn [mbind result_bind map dict_set mapM_res snd] in Htext.
  bind_step Htext as texts Hts. bind_step Hts as t Hser. apply Ok_inj in Hts. subst texts. apply Ok_inj in Htext. cbn [join] in Htext. subst t.
  set (r1 := set_header (with_digest req) (lit "signature-input") text) in *.
  assert (get_header r1 (lit "signature") = []) as Hsg.
  { pose proof (Hl (lit "signature-input") ltac:(reflexivity)) as L1. pose proof (Hl (lit "signature") ltac:(reflexivity)) as L2.
    unfold r1. rewrite (proj1 (get_set_other _ (lit "signature-input") _ (lit "signature") ltac:(by rewrite !L1) ltac:(rewrite L1, L2; by_decide))).
    rewrite (proj1 (with_digest_header req (lit "signature") Hl ltac:(rewrite L2; by_decide))). by apply get_absent. }
  rewrite Hsg in E. unfold replace_signature_member in E. change ([] ==? []) with true in E. cbn [mbind result_bind map dict_set fst snd join] in E.
  injection E as <-.
  exists provider, key, kid, alg, base, sig, text, p. split; [| | |done| |done|done|done|done].
  - unfold require_signing_provider in Ep. destruct (hp_key_provider profile) as [q|]; [|done]. guard_step Ep as G. rewrite eqb_false in G. apply Ok_inj in Ep. by subst q.
  - unfold kid_text in Ekid. destruct (jwk_kid key) as [| | | |k| |]; try done. apply Ok_inj in Ekid. subst k. split_and!; [done|done|].
    by destruct (bool_decide_reflect (35 ∈ kid)).
  - eauto.
  - unfold validate_component_identifiers in *. destruct (validate_components [] components (Some false)) as [[]|e] eqn:Evc; [exact Evc|]. cbn in Ev. by destruct (is_verification e).
Qed.
End run.

(** ** Fields as they are received *)
Lemma strip_blanks_id (s : str) c d : head s = Some c → last s = Some d → c ≠ 32 → c ≠ 9 → d ≠ 32 → d ≠ 9 → strip_blanks s = s.
Proof.
  intros Hc Hd Hc1 Hc2 Hd1 Hd2. unfold strip_blanks, strip. destruct s as [|x s]; [done|]. injection Hc as ->. cbn [lstrip].
  rewrite (proj2 (Z.eqb_neq c 32)), (proj2 (Z.eqb_neq c 9)) by done. cbn [orb]. unfold rstrip. rewrite last_Some in Hd. destruct Hd as [l' Hl]. rewrite Hl, rev_app_distr. cbn [rev app lstrip].
  rewrite (proj2 (Z.eqb_neq d 32)), (proj2 (Z.eqb_neq d 9)) by done. cbn [orb]. cbn [rev]. by rewrite rev_involutive.
Qed.

Section received_fields.
Context `{Platform, HttpPlatform, SfGrammar}.

Lemma sf_key_head k : sf_key k = true → ∃ c k', k = c :: k' ∧ c ≠ 32 ∧ c ≠ 9.
Proof. destruct k as [|c k]; [done|]. cbn [sf_key]. intros Hk. exists c, k. split; [done|]. apply andb_true_iff in Hk as [Hk _]. unfold is_lower in Hk. lia. Qed.
Lemma sf_key_ascii k : sf_key k = true → forallb (λ c, c <? 128) k = true.
Proof.
  destruct k as [|c k]; [done|]. cbn [sf_key]. rewrite andb_true_iff, forallb_forall. intros [Hc Hk]. apply forallb_forall. intros x [<-|Hx]; [unfold is_lower in Hc; lia|].
  specialize (Hk x Hx). rewrite !orb_true_iff, existsb_exists in Hk. unfold is_lower, is_digit in Hk. destruct Hk as [[Hk|Hk]|(z & Hz & Hk)]; [lia..|].
  apply Z.eqb_eq in Hk. subst z. assert (Forall (λ c, c <? 128 = true) (lit "_-.*")) as Hall by by_decide. rewrite Forall_forall in Hall. apply Hall. by apply list_elem_of_In.
Qed.

Lemma byte_member_stripped k b : sf_key k = true → strip_blanks (byte_member k b) = byte_member k b.
Proof.
  intros Hk. destruct (sf_key_head k Hk) as (c & k' & -> & Hc1 & Hc2). eapply (strip_blanks_id _ c 58); try done. unfold byte_member. rewrite !app_assoc. by rewrite last_snoc.
Qed.
Lemma parse_bytes k b reject : sf_key k = true → is_bytes b → parse_sf_dictionary (byte_member k b) reject = Ok [(k, SfItem (SfBytes b) [])].
Proof.
  intros Hk Hb. unfold parse_sf_dictionary, as_value_error. assert (ascii_only (byte_member k b) = Ok (byte_member k b)) as ->.
  { unfold ascii_only, byte_member. rewrite !forallb_app, sf_key_ascii by done. cbn [andb]. assert (forallb (λ c, c <? 128) (b64_std_encode b) = true) as ->; [|done].
    apply forallb_forall. intros c Hc. pose proof (b64encode_ascii b Hb) as He. destruct (c <? 128) eqn:E; [done|]. exfalso.
    assert (existsb (λ c, 127 <? c) (b64encode b) = true) as Ht; [|congruence]. apply existsb_exists. exists c. split; [exact Hc|]. lia. }
  cbn [mbind result_bind]. by rewrite parse_byte_member.
Qed.

Lemma any_component_plain n cs : Forall plain_component cs → Forall (λ c, is_Ok (component_structure c) = true) cs →
  any_component n cs = Ok (bool_decide (n ∈ cs)).
Proof.
  intros Hp Hs. induction Hs as [|c cs Hc _ IH]; cbn [any_component]; [done|]. inversion Hp as [|?? Hpc Hpcs]; subst.
  destruct (component_structure c) as [id|e] eqn:E; [|done]. rewrite (plain_structure c id Hpc E). cbn [mbind result_bind].
  destruct (c ==? n) eqn:En; [rewrite eqb_true in En; subst; by rewrite bool_decide_eq_true_2 by by left|]. rewrite eqb_false in En. rewrite IH by done. f_equal.
  apply bool_decide_ext. rewrite elem_of_cons. naive_solver.
Qed.

Lemma line_structures req cs lines : Forall2 (λ c l, component_line req None c = Ok l) cs lines → Forall plain_component cs →
  Forall (λ c, is_Ok (component_structure c) = true) cs ∧ Forall (λ c, is_Ok (sf_ser_item (SfString c) []) = true) cs.
Proof.
  induction 1 as [|c l cs lines Hc _ IH]; intros Hp; [done|]. inversion Hp as [|?? Hpc Hpcs]; subst. destruct (IH Hpcs) as [H1' H2'].
  apply component_line_Ok in Hc as (n & ps & i & v & Hs & Hi & _ & _). pose proof (plain_structure c _ Hpc Hs) as [= -> ->]. split; constructor; [by rewrite Hs|done|by rewrite Hi|done].
Qed.
End received_fields.

(** ** The parameters of a signing run *)
Section verification.
Context `{Platform, HttpPlatform, SfGrammar} (env : http_env) (profile : HttpSignatureProfile).

Lemma add_component_elem cs c d : d ∈ add_component cs c ↔ d ∈ cs ∨ d = c.
Proof.
  unfold add_component. destruct (bool_decide_reflect (c ∈ cs)); [naive_solver|]. rewrite elem_of_app, list_elem_of_singleton. done.
Qed.
Lemma foldl_add_elem l cs d : d ∈ foldl add_component cs l ↔ d ∈ cs ∨ d ∈ l.
Proof.
  revert cs. induction l as [|c l IH]; intros cs; cbn [foldl]; [rewrite elem_of_nil; tauto|]. rewrite IH, add_component_elem, elem_of_cons. tauto.
Qed.
Lemma foldl_add_length l cs : (length (foldl add_component cs l) ≤ length cs + length l)%nat.
Proof.
  revert cs. induction l as [|c l IH]; intros cs; cbn [foldl length]; [lia|]. etrans; [apply IH|]. unfold add_component. case_match; [|rewrite length_app; cbn]; lia.
Qed.

Definition base_components : list str := lit <$> ["@method"; "@authority"; "@target-uri"]%string.
Lemma request_components_elem req opts c : so_response_signature opts = None →
  c ∈ request_components req opts ↔ c ∈ base_components ∨ (is_Some (hr_body req) ∧ c = lit "content-digest") ∨ c ∈ so_additional_components opts.
Proof.
  intros Hr. unfold request_components. rewrite Hr, app_nil_r. fold base_components. rewrite foldl_add_elem. destruct (hr_body req) as [b|].
  - rewrite add_component_elem. split; [|naive_solver]. intros [[?| ->]|?]; [tauto| |tauto]. right. left. by split.
  - split; [tauto|]. intros [?|[[[? ?] _]|?]]; [tauto|done|tauto].
Qed.
Lemma request_components_length req opts : so_response_signature opts = None → (length (request_components req opts) ≤ 4 + length (so_additional_components opts))%nat.
Proof.
  intros Hr. unfold request_components. rewrite Hr, app_nil_r. etrans; [apply foldl_add_length|]. destruct (hr_body req); [|cbn; lia]. unfold add_component. case_match; cbn; lia.
Qed.

Lemma ordinary_component c : c ∈ base_components ∨ c = lit "content-digest" ∨ ordinary_field c →
  plain_component c ∧ lower_case c = true ∧ c ≠ lit "signature" ∧ c ≠ lit "signature-input".
Proof.
  intros [Hb|[Hcd|(Hf & Hs1 & Hs2 & _)]]; [|subst c|].
  - assert (Forall (λ c, c ∈ simple_derived ∧ lower_case c = true ∧ c ≠ lit "signature" ∧ c ≠ lit "signature-input") base_components) as Hall by by_decide.
    rewrite Forall_forall in Hall. destruct (Hall c Hb) as (? & ? & ? & ?). split; [by left|]. done.
  - split; [by right|]. by_decide.
  - split; [by right|]. split; [by apply field_lower_case|done].
Qed.

Lemma jose_alg_nonempty a alg : jose_alg_to_http_sig_alg a = Ok alg → alg ≠ [].
Proof. unfold jose_alg_to_http_sig_alg. repeat case_match; try done; intros E; apply Ok_inj in E; by subst alg. Qed.

Lemma run_made path opts req req' provider key kid alg base sig text p : signing_run env profile path opts req req' provider key kid alg base sig text p →
  made p (now_ts env (0 :: 1 :: path)%nat) (now_ts env (0 :: 1 :: path)%nat + so_expires_in_seconds opts).
Proof.
  intros Hrun. destruct (sr_alg _ _ _ _ _ _ _ _ _ _ _ _ _ _ Hrun) as (a & _ & Ha). rewrite (sr_params _ _ _ _ _ _ _ _ _ _ _ _ _ _ Hrun). apply jose_alg_nonempty in Ha. split; try done.
  - cbn. by destruct (hp_domain profile).
  - cbn. destruct (so_tag opts ==? []) eqn:E; [done|]. rewrite eqb_false in E. congruence.
Qed.

Lemma run_agree path opts req req' provider key kid alg base sig text p : lowers_ascii →
  signing_run env profile path opts req req' provider key kid alg base sig text p →
  agree (with_digest req) req' ∧ hr_body req' = hr_body req ∧ get_header req' (lit "signature-input") = strip_blanks text ∧
    get_header req' (lit "signature") = strip_blanks (byte_member (so_label opts) sig).
Proof.
  intros Hl Hrun. rewrite (sr_result _ _ _ _ _ _ _ _ _ _ _ _ _ _ Hrun). clear Hrun. pose proof (Hl (lit "signature-input") ltac:(reflexivity)) as L1. pose proof (Hl (lit "signature") ltac:(reflexivity)) as L2.
  set (r1 := set_header (with_digest req) (lit "signature-input") text).
  assert (∀ n, str_lower n ≠ lit "signature" → get_header (set_header r1 (lit "signature") (byte_member (so_label opts) sig)) n = get_header r1 n
             ∧ has_header (set_header r1 (lit "signature") (byte_member (so_label opts) sig)) n = has_header r1 n) as Hother.
  { intros n Hn. apply get_set_other; rewrite !L2; [done|congruence]. }
  split_and!; [split; try done| | |].
  - intros n Hn1 Hn2. destruct (Hother n Hn1) as [-> ->]. subst r1. destruct (get_set_other (with_digest req) (lit "signature-input") text n) as [-> ->]; rewrite ?L1; [done|congruence|done].
  - change (hr_body (with_digest req) = hr_body req). unfold with_digest. by destruct (hr_body req) eqn:E.
  - rewrite (proj1 (Hother (lit "signature-input") ltac:(rewrite L1; by_decide))). apply get_set_same. by rewrite !L1.
  - apply get_set_same. by rewrite !L2.
Qed.
End verification.

(** ** Verification of what a run produced *)
Section accepted.
Context `{Platform, HttpPlatform, SfGrammar} (env : http_env) (profile : HttpSignatureProfile).
Context (path : list nat) (opts : HttpSigningOptions) (req req' : HttpRequest) (provider : SigningProvider) (key : JWK) (kid alg : str) (base sig : bytes) (text : str) (p : SignatureParams).
Context (Hlower : lowers_ascii) (Hrun : signing_run env profile path opts req req' provider key kid alg base sig text p)
  (Hopts : so_response_signature opts = None) (Hadditional : Forall ordinary_field (so_additional_components opts)).

Let created : Z := now_ts env (0 :: 1 :: path)%nat.

Lemma run_components c : c ∈ sp_components p ↔ c ∈ base_components ∨ (is_Some (hr_body req) ∧ c = lit "content-digest") ∨ c ∈ so_additional_components opts.
Proof.
  rewrite (sr_params _ _ _ _ _ _ _ _ _ _ _ _ _ _ Hrun). cbn [request_params sp_components]. rewrite request_components_elem by done.
  assert (hr_body (with_digest req) = hr_body req) as ->; [|done]. unfold with_digest. by destruct (hr_body req) eqn:E.
Qed.
Lemma run_ordinary : Forall (λ c, plain_component c ∧ lower_case c = true ∧ c ≠ lit "signature" ∧ c ≠ lit "signature-input") (sp_components p).
Proof.
  apply Forall_forall. intros c Hc. apply run_components in Hc. apply ordinary_component. destruct Hc as [?|[[_ ?]|Hc]]; [tauto..|]. rewrite Forall_forall in Hadditional. auto.
Qed.
Lemma run_plain : Forall plain_component (sp_components p).
Proof. eapply Forall_impl; [apply run_ordinary|]. by intros c (? & _). Qed.

Lemma run_lines : Forall (λ c, is_Ok (component_structure c) = true) (sp_components p) ∧ Forall (λ c, is_Ok (sf_ser_item (SfString c) []) = true) (sp_components p).
Proof.
  destruct (build_signature_base_Ok _ _ _ _ (sr_base _ _ _ _ _ _ _ _ _ _ _ _ _ _ Hrun)) as (lines & v & Hl & _). apply mapM_res_Ok in Hl. eapply line_structures; [exact Hl|apply run_plain].
Qed.

Lemma run_input : parse_dictionary (get_header req' (lit "signature-input")) = Ok [received p] ∧ get_header req' (lit "signature-input") = text ∧ sf_key (so_label opts) = true.
Proof.
  destruct (input_roundtrip p _ _ text (run_made _ _ _ _ _ _ _ _ _ _ _ _ _ _ Hrun) run_plain (proj2 run_lines) (sr_valid _ _ _ _ _ _ _ _ _ _ _ _ _ _ Hrun) (sr_text _ _ _ _ _ _ _ _ _ _ _ _ _ _ Hrun)) as (Hp & Hs & Hk).
  destruct (run_agree _ _ _ _ _ _ _ _ _ _ _ _ _ _ Hlower Hrun) as (_ & _ & Hi & _). rewrite Hi, Hs. split_and!; [done|done|].
  by rewrite (sr_params _ _ _ _ _ _ _ _ _ _ _ _ _ _ Hrun) in Hk.
Qed.

Lemma run_signature : is_bytes sig → parse_signature_dictionary (get_header req' (lit "signature")) = Ok [(so_label opts, sig)]
  ∧ get_header req' (lit "signature") = byte_member (so_label opts) sig.
Proof.
  intros Hb. destruct run_input as (_ & _ & Hk). destruct (run_agree _ _ _ _ _ _ _ _ _ _ _ _ _ _ Hlower Hrun) as (_ & _ & _ & Hs).
  rewrite Hs, byte_member_stripped by done. split; [|done]. unfold parse_signature_dictionary. by rewrite parse_bytes.
Qed.

Lemma run_candidates : is_bytes sig → check_message_limits req' = Ok () → (length (so_additional_components opts) ≤ 60)%nat →
  signature_candidates req' default_verification = Ok ([received p], [(so_label opts, sig)]).
Proof.
  intros Hb Hlim Hlen. destruct run_input as (Hi & Ht & Hk). destruct (run_signature Hb) as [Hs Hm]. unfold signature_candidates.
  assert (text ≠ []) as Hne.
  { pose proof (sr_text _ _ _ _ _ _ _ _ _ _ _ _ _ _ Hrun) as Hser. unfold serialize_params in Hser. bind_step Hser as m Hsv. unfold structured_value in Hsv. bind_step Hsv as items Hit.
    guard_step Hsv as G. apply bind_unit_Ok in Hsv as [_ Hsv]. apply Ok_inj in Hsv. subst m. destruct (ser_inner_member _ _ _ _ Hser) as [v Hv]. rewrite Hv. by destruct (sp_label p). }
  rewrite Hi, Hs. rewrite Ht, Hm. rewrite (proj2 (eqb_false text [])) by done.
  assert (byte_member (so_label opts) sig ==? [] = false) as -> by (apply eqb_false; destruct (sf_key_head _ Hk) as (c & k & -> & _); done).
  cbn [orb raise_if mbind result_bind]. rewrite Hlim. cbn [mbind result_bind].
  assert (64 <? len (sp_components (received p)) = false) as Hc.
  { cbn [received sp_components]. rewrite (sr_params _ _ _ _ _ _ _ _ _ _ _ _ _ _ Hrun). cbn [request_params sp_components].
    pose proof (request_components_length (with_digest req) opts Hopts). unfold len. apply Z.ltb_ge. lia. }
  cbn [existsb]. rewrite Hc. cbn [orb]. change ((16 <? len [received p]) || (16 <? len [(so_label opts, sig)]) || false) with false. cbn [raise_if mbind result_bind vo_required_tag default_verification].
  assert (sp_label (received p) = so_label opts) as Hl. { cbn [received sp_label]. by rewrite (sr_params _ _ _ _ _ _ _ _ _ _ _ _ _ _ Hrun). }
  cbn [List.filter]. rewrite bool_decide_eq_true_2; [done|]. cbn [fmap list_fmap fst]. rewrite Hl. by left.
Qed.

Lemma run_content : is_bytes sig → check_content_digest req' (received p) = Ok ().
Proof.
  intros Hb. destruct (run_agree _ _ _ _ _ _ _ _ _ _ _ _ _ _ Hlower Hrun) as (Ha & Hbody & _ & _). unfold check_content_digest. cbn [received sp_components]. rewrite Hbody.
  rewrite (any_component_plain (lit "content-digest") _ run_plain (proj1 run_lines)).
  destruct (hr_body req) as [body|] eqn:Eb.
  - assert (lit "content-digest" ∈ sp_components p) as Hin. { apply run_components. right. left. rewrite Eb. by split. }
    rewrite !(bool_decide_eq_true_2 (lit "content-digest" ∈ sp_components p)) by done. rewrite andb_false_r. cbn [raise_if mbind result_bind].
    pose proof (Hlower (lit "content-digest") ltac:(reflexivity)) as L. destruct (agree_headers _ _ Ha (lit "content-digest")) as [Hg Hh]; [rewrite L; by_decide..|].
    destruct (get_set_same req (lit "content-digest") (digest_field body)) as [Hg' Hh']; [by rewrite !L|]. unfold with_digest in Hg, Hh. rewrite Eb in Hg, Hh. rewrite <- Hh, <- Hg, Hg', Hh'. cbn [negb raise_if mbind result_bind].
    unfold digest_field. rewrite byte_member_stripped by done. unfold parse_content_digest. rewrite parse_bytes by (done || apply is_bytes_sha256).
    cbn [try_except mbind result_bind dict_get]. rewrite eqb_refl. cbn [mbind result_bind]. by rewrite eqb_refl.
  - assert (lit "content-digest" ∉ sp_components p) as Hnin.
    { intros Hin. apply run_components in Hin as [Hin|[[Hs _]|Hin]]; [|by rewrite Eb in Hs; destruct Hs|].
      - assert (lit "content-digest" ∉ base_components) as Hn by by_decide. done.
      - rewrite Forall_forall in Hadditional. by destruct (Hadditional _ Hin) as (_ & _ & _ & ?). }
    rewrite (bool_decide_eq_false_2 (is_Some None)) by by intros [? ?]. cbn [andb raise_if mbind result_bind]. by rewrite bool_decide_eq_false_2.
Qed.

Lemma run_base : build_signature_base req' (received p) None = Ok base.
Proof.
  destruct (run_agree _ _ _ _ _ _ _ _ _ _ _ _ _ _ Hlower Hrun) as (Ha & _). rewrite (base_received _ _ _ _ (run_made _ _ _ _ _ _ _ _ _ _ _ _ _ _ Hrun)).
  rewrite <- (base_agree (with_digest req) req' p Ha (Hlower (lit "host") ltac:(reflexivity)) run_plain); [exact (sr_base _ _ _ _ _ _ _ _ _ _ _ _ _ _ Hrun)|].
  eapply Forall_impl; [apply run_ordinary|]. intros c (_ & Hc & H1' & H2'). by rewrite (Hlower c Hc).
Qed.
End accepted.

(** A provider whose signatures its own key verifies. *)
Definition honest_signer `{Platform} (provider : SigningProvider) (key : JWK) : Prop :=
  sp_signing_key provider = Ok key ∧ ∀ payload sig, sp_sign provider payload = Ok sig → is_bytes sig ∧ jwk_verify key payload sig = Ok true.

(** The verifier's clock is within the window of the signature. *)
Definition within_window (verifier : HttpSignatureProfile) (created lifetime t : Z) : Prop :=
  created - skew verifier ≤ t ≤ created + max_age verifier ∧ t ≤ created + lifetime + skew verifier ∧ lifetime ≤ max_age verifier.

Lemma freshness_holds env verifier path p created lifetime : sp_created p = Some created → sp_expires p = Some (created + lifetime) → 0 < lifetime →
  within_window verifier created lifetime (now_ts env path) → check_freshness env verifier path p = Ok ().
Proof.
  intros Hc He Hpos (Hw1 & Hw2 & Hw3). unfold check_freshness. rewrite Hc, He.
  repeat (rewrite (proj2 (Z.ltb_ge _ _)) by lia; cbn [raise_if mbind result_bind]). done.
Qed.

(** C24 What is signed verifies: when [create_signed_http_request] signs a request that
    carried no signature, with a provider whose signatures its key verifies and
    with ordinary additional fields, then [verify_signed_http_request] accepts the
    result, body and digest included, for a verifier that resolves the signer's
    domain to a key set with that key, whose clock is within the signature's window
    and whose limits the message respects; and it returns that identity. *)
Theorem signed_request_verifies `{Platform, HttpPlatform, StructuredFields, !SfGrammar} {S R : Type} `{IdentityResolver S (VerifiedDomain R)}
    (env env' : http_env) (signer verifier : HttpSignatureProfile) (path path' : list nat) (opts : HttpSigningOptions) (req req' : HttpRequest)
    (provider : SigningProvider) (key : JWK) (kid domain : str) (cert : option TLSCertificate) (s s' : S) (vd : VerifiedDomain R)
    (Hlower : lowers_ascii) (Hopts : so_response_signature opts = None) (Hadditional : Forall ordinary_field (so_additional_components opts))
    (Hcount : (length (so_additional_components opts) ≤ 60)%nat)
    (Hunsigned : has_header req (lit "signature-input") = false ∧ has_header req (lit "signature") = false)
    (Hprovider : hp_key_provider signer = Some provider) (Hhonest : honest_signer provider key) (Hkid : jwk_kid key = JStr kid ∧ kid ≠ [])
    (Hdomain : normalize_fqdn idna_encode (hp_domain signer) false = Ok domain ∧ 35 ∉ hp_domain signer)
    (Hsigned : create_signed_http_request env signer path opts req = (req', Ok ()))
    (Hlimits : check_message_limits req' = Ok ()) (Hcheck : ∀ q, he_check env' q = Ok ())
    (Hclock : ∀ q, within_window verifier (now_ts env (0 :: 1 :: path)%nat) (so_expires_in_seconds opts) (now_ts env' q))
    (Hresolve : ∀ q, resolve_domain q domain cert s = (s', Ok vd)) (Hjwks : key_by_id (JStr kid) (vd_jwks vd) = Some key) :
  verify_signed_http_request env' verifier path' req' default_verification cert s = (s', Ok vd).
Proof.
  destruct (create_signed_run env signer path opts req req' Hlower Hopts (proj1 Hunsigned) (proj2 Hunsigned) Hsigned)
    as ((Hpos & _) & prov & key' & kid' & alg & base & sig & text & p & Hrun).
  destruct (sr_provider _ _ _ _ _ _ _ _ _ _ _ _ _ _ Hrun) as [Hprov Hdom]. assert (prov = provider) as -> by congruence.
  destruct Hhonest as [Hkey Hver]. destruct (sr_key _ _ _ _ _ _ _ _ _ _ _ _ _ _ Hrun) as (Hk' & Hkid' & Hhash). assert (key' = key) as -> by congruence.
  assert (kid' = kid) as -> by (destruct Hkid; congruence). destruct (Hver _ _ (sr_sig _ _ _ _ _ _ _ _ _ _ _ _ _ _ Hrun)) as [Hb Hv].
  unfold verify_signed_http_request, within_budget, mbind, MM_bind, pure. rewrite Hcheck.
  rewrite (run_candidates env signer path opts req req' provider key kid alg base sig text p Hlower Hrun Hopts Hadditional Hb Hlimits Hcount). cbn [verify_candidates].
  assert (∀ q, verify_candidate_input env' verifier q req' (received p) default_verification = Ok (domain, kid)) as Hinput.
  { intros q. unfold verify_candidate_input. cbn [received sp_components sp_key_id].
    assert (forM_res (λ r, raise_if (negb (bool_decide (r ∈ sp_components p))) (response_error "Signature-Input missing required covered component")) (vo_required_components default_verification) = Ok ()) as ->.
    { apply forM_res_Ok. apply Forall_forall. intros c Hc. rewrite bool_decide_eq_true_2; [done|]. eapply run_components; [done..|]. left. exact Hc. }
    cbn [mbind result_bind]. assert (parse_key_id idna_encode (sp_key_id p) = Ok (domain, kid)) as ->.
    { apply parse_key_id_spec. exists (hp_domain signer). destruct Hkid, Hdomain. rewrite (sr_params _ _ _ _ _ _ _ _ _ _ _ _ _ _ Hrun). done. }
    cbn [mbind result_bind]. destruct (run_made _ _ _ _ _ _ _ _ _ _ _ _ _ _ Hrun) as [Hc He _ _ _ _].
    rewrite (freshness_holds env' verifier q (received p) _ _ Hc He Hpos (Hclock q)). cbn [mbind result_bind].
    change {| sp_label := sp_label p; sp_key_id := sp_key_id p; sp_alg := sp_alg p; sp_created := sp_created p; sp_expires := sp_expires p; sp_nonce := sp_nonce p;
      sp_components := sp_components p; sp_tag := sp_tag p; sp_parameters := ordered_parameters p |} with (received p).
    by rewrite (run_content env signer path opts req req' provider key kid alg base sig text p Hlower Hrun Hopts Hadditional Hb). }
  unfold verify_signature_candidate, mbind, MM_bind, pure. rewrite Hinput, Hresolve.
  assert (signature_of [(so_label opts, sig)] (received p) = sig) as ->.
  { unfold signature_of. cbn [received sp_label]. rewrite (sr_params _ _ _ _ _ _ _ _ _ _ _ _ _ _ Hrun). cbn [request_params sp_label dict_get]. by rewrite eqb_refl. }
  assert (verify_candidate_signature req' (received p) sig kid vd None = Ok vd) as ->.
  { unfold verify_candidate_signature. rewrite Hjwks. destruct (sr_alg _ _ _ _ _ _ _ _ _ _ _ _ _ _ Hrun) as (a & Ha & Halg). rewrite Ha. cbn [mbind result_bind]. rewrite Halg. cbn [mbind result_bind].
    assert (sp_alg (received p) = alg) as ->. { cbn [received sp_alg]. by rewrite (sr_params _ _ _ _ _ _ _ _ _ _ _ _ _ _ Hrun). }
    rewrite eqb_refl, andb_false_r. cbn [raise_if mbind result_bind].
    rewrite (run_base env signer path opts req req' provider key kid alg base sig text p Hlower Hrun Hopts Hadditional). cbn [mbind result_bind]. by rewrite Hv. }
  by rewrite Hcheck.
Qed.
