(* ===== verification/HttpDemo.v ===== *)
(** * Concrete HTTP messages

    A reader and writer of structured fields that satisfies the laws of
    [SfGrammar] (items as in RFC 8941, lists in a code of its own), and messages
    that are signed and verified with it. *)
From S2P Require Import Prelude Sha256 Errors PyText Base64 Utils SignedNote Lr ResourceFetcher PyTime Canonical Keys LifecycleDemo TxtRecord TxtRecordSpec Identity HttpsClient Manager ManagerSpec Publication PublicationSpec ManagerDemo HttpModels HttpSignatures HttpProfile HttpSpec HttpRoundtrip.

(** ** A code for lists *)
#[local] Instance bare_item_countable : Countable bare_item.
Proof.
  refine (inj_countable' (A := Z + str + str + str + bytes + bool + Z + str)
    (λ v, match v with
          | SfInt z => inl (inl (inl (inl (inl (inl (inl z)))))) | SfDecimal s => inl (inl (inl (inl (inl (inl (inr s))))))
          | SfString s => inl (inl (inl (inl (inl (inr s))))) | SfToken s => inl (inl (inl (inl (inr s))))
          | SfBytes s => inl (inl (inl (inr s))) | SfBool b => inl (inl (inr b)) | SfDate z => inl (inr z) | SfDisplay s => inr s
          end)
    (λ v, match v with
          | inl (inl (inl (inl (inl (inl (inl z)))))) => SfInt z | inl (inl (inl (inl (inl (inl (inr s)))))) => SfDecimal s
          | inl (inl (inl (inl (inl (inr s))))) => SfString s | inl (inl (inl (inl (inr s)))) => SfToken s
          | inl (inl (inl (inr s))) => SfBytes s | inl (inl (inr b)) => SfBool b | inl (inr z) => SfDate z | inr s => SfDisplay s
          end) _). by intros [].
Defined.
#[local] Instance sf_member_eq_dec : EqDecision sf_member.
Proof. solve_decision. Defined.
#[local] Instance sf_member_countable : Countable sf_member.
Proof.
  refine (inj_countable' (A := bare_item * sf_params + list (bare_item * sf_params) * sf_params)
    (λ m, match m with SfItem v ps => inl (v, ps) | SfInner items ps => inr (items, ps) end)
    (λ m, match m with inl (v, ps) => SfItem v ps | inr (items, ps) => SfInner items ps end) _). by intros [].
Defined.

Fixpoint bits_of (p : positive) : list bool := match p with xH => [] | xO p => false :: bits_of p | xI p => true :: bits_of p end.
Fixpoint of_bits (l : list bool) : positive := match l with [] => xH | false :: l => xO (of_bits l) | true :: l => xI (of_bits l) end.
Definition bit (b : bool) : Z := if b then 1 else 0.
(** Five bits a letter from [@] to [_]; the last ones as [0] and [1]. *)
Fixpoint letters (l : list bool) : str :=
  match l with
  | a :: b :: c :: d :: e :: l => (64 + bit a + 2 * bit b + 4 * bit c + 8 * bit d + 16 * bit e) :: letters l
  | l => map (λ b, 48 + bit b) l
  end.
Definition letter_bits (c : Z) : list bool :=
  if c <? 64 then [Z.testbit c 0] else map (Z.testbit (c - 64)) [0; 1; 2; 3; 4].

Lemma of_bits_of p : of_bits (bits_of p) = p.
Proof. induction p; cbn; by f_equal. Qed.
Lemma letters_ind (P : list bool → Prop) : (∀ l, (length l < 5)%nat → P l) → (∀ a b c d e l, P l → P (a :: b :: c :: d :: e :: l)) → ∀ l, P l.
Proof.
  intros Hs Hl l. assert (∀ n l, (length l ≤ n)%nat → P l) as H; [|by eapply H]. clear l. induction n as [|n IH]; intros l Hn; [apply Hs; lia|].
  destruct l as [|a [|b [|c [|d [|e l]]]]]; try (apply Hs; cbn; lia). apply Hl, IH. cbn in Hn. lia.
Qed.
Lemma read_letters l : concat (map letter_bits (letters l)) = l.
Proof.
  induction l as [l Hl|a b c d e l IH] using letters_ind.
  - destruct l as [|a [|b [|c [|d [|e l]]]]]; cbn in Hl; try lia; repeat match goal with b : bool |- _ => destruct b; clear b || idtac end; reflexivity.
  - cbn [letters map concat]. rewrite IH. by destruct a, b, c, d, e.
Qed.
Lemma letters_printable l : Forall (λ c, 48 ≤ c < 127) (letters l).
Proof.
  induction l as [l Hl|a b c d e l IH] using letters_ind.
  - destruct l as [|a [|b [|c [|d [|e l]]]]]; cbn in Hl; try lia; repeat constructor; unfold bit; repeat case_match; lia.
  - cbn [letters]. constructor; [|done]. unfold bit. repeat case_match; lia.
Qed.

Definition printable_text (s : str) : bool := forallb (λ c, (32 <=? c) && (c <? 127)) s.
Definition checked (t : option str) : res str :=
  match t with Some t => if printable_text t then Ok t else Raise (ValueError (lit "unserializable")) | None => Raise (ValueError (lit "unserializable")) end.
Definition bare_text (v : bare_item) : option str :=
  match v with
  | SfString s => if bool_decide (34 ∈ s) || bool_decide (92 ∈ s) then None else Some ([34] ++ s ++ [34])
  | SfToken s => Some s
  | SfInt z => Some (str_of_int z)
  | SfBytes b => Some ([58] ++ b64_std_encode b ++ [58])
  | SfBool b => Some (if b then lit "?1" else lit "?0")
  | _ => None
  end.
Fixpoint params_text (ps : sf_params) : option str :=
  match ps with
  | [] => Some []
  | (k, SfBool true) :: ps => rest ← params_text ps; Some ([59] ++ k ++ rest)
  | (k, v) :: ps => t ← bare_text v; rest ← params_text ps; Some ([59] ++ k ++ [61] ++ t ++ rest)
  end.
Definition item_text (v : bare_item) (ps : sf_params) : option str := t ← bare_text v; p ← params_text ps; Some (t ++ p).

(** Parameters that are flags, strings or tokens; a step reads one. *)
Fixpoint parse_params_text (fuel : nat) (s : str) : option sf_params :=
  match fuel, s with
  | _, [] => Some []
  | S fuel, 59 :: s =>
      let k := take_while (λ c, is_lower c || is_digit c || (c =? 45)) s in
      match drop (length k) s with
      | 61 :: 34 :: r => let '(v, _, rest) := partition_at 34 r in ps ← parse_params_text fuel rest; Some ((k, SfString v) :: ps)
      | 61 :: r => let v := take_while (λ c, negb (c =? 59)) r in ps ← parse_params_text fuel (drop (length v) r); Some ((k, SfToken v) :: ps)
      | rest => ps ← parse_params_text fuel rest; Some ((k, SfBool true) :: ps)
      end
  | _, _ => None
  end.
Definition parse_item_text (b : str) : option (bare_item * sf_params) :=
  match b with
  | 34 :: r => let '(s, closed, rest) := partition_at 34 r in if closed : bool then ps ← parse_params_text (length rest) rest; Some (SfString s, ps) else None
  | _ =>
      let name := take_while (λ c, negb (c =? 59)) b in
      let rest := drop (length name) b in
      if is_lowercase_http_field_name name then ps ← parse_params_text (length rest) rest; Some (SfToken name, ps) else None
  end.
Definition malformed : exn := ValueError (lit "malformed").

Definition parse_member_text (v : str) : option sf_member :=
  match v with
  | 58 :: r => match b64_std_decode (take (length r - 1) r) with Ok b => Some (SfItem (SfBytes b) []) | Raise _ => None end
  | 34 :: _ => '(v, ps) ← parse_item_text v; Some (SfItem v ps)
  | _ => decode (of_bits (concat (map letter_bits v)))
  end.
#[export] Instance toy_fields : StructuredFields := {|
  sf_parse_dictionary b := let '(k, eq, v) := partition_at 61 b in
    match parse_member_text v with Some m => if eq && sf_key k then Ok ([(k, m)], []) else Raise malformed | None => Raise malformed end;
  sf_parse_item b := match parse_item_text b with Some i => Ok (i, []) | None => Raise malformed end;
  sf_ser_bare v := checked (bare_text v);
  sf_ser_item v ps := checked (item_text v ps);
  sf_ser_dictionary d := match d with [(k, m)] => if sf_key k then Ok (k ++ [61] ++ letters (bits_of (encode m))) else Raise malformed | _ => Raise malformed end
|}.
#[export] Instance toy_http : HttpPlatform := {| unicode_isdigit _ := false; str_upper s := upper_ascii <$> s; other_str _ := [] |}.

(** ** Its laws *)
Lemma partition_at_first c (a b : str) : c ∉ a → partition_at c (a ++ c :: b) = (a, true, b).
Proof.
  induction a as [|x a IH]; cbn [app partition_at]; intros Hc; [by rewrite Z.eqb_refl|]. rewrite not_elem_of_cons in Hc. destruct Hc as [Hx Hc].
  rewrite (proj2 (Z.eqb_neq x c)) by congruence. by rewrite IH.
Qed.
Lemma checked_Ok t s : checked t = Ok s → t = Some s ∧ Forall (λ c, 32 ≤ c < 127) s.
Proof.
  unfold checked. destruct t as [t|]; [|done]. destruct (printable_text t) eqn:E; [|done]. intros Hs. apply Ok_inj in Hs. subst t. split; [done|].
  unfold printable_text in E. rewrite forallb_forall in E. apply Forall_forall. intros c Hc. apply list_elem_of_In, E in Hc. lia.
Qed.
Lemma sf_key_chars k : sf_key k = true → Forall (λ c, 33 ≤ c < 127 ∧ c ≠ 61) k.
Proof.
  destruct k as [|c k]; [done|]. cbn [sf_key]. rewrite andb_true_iff, forallb_forall. intros [Hc Hk]. constructor; [unfold is_lower in Hc; lia|].
  apply Forall_forall. intros x Hx. apply list_elem_of_In, Hk in Hx. rewrite !orb_true_iff, existsb_exists in Hx. unfold is_lower, is_digit in Hx. destruct Hx as [[Hx|Hx]|(z & Hz & Hx)]; [lia..|].
  apply Z.eqb_eq in Hx. subst z. assert (Forall (λ c, 33 ≤ c < 127 ∧ c ≠ 61) (lit "_-.*")) as Hall by by_decide. rewrite Forall_forall in Hall. apply Hall. by apply list_elem_of_In.
Qed.
Lemma toy_dictionary_Ok d t : sf_ser_dictionary d = Ok t → ∃ k m, d = [(k, m)] ∧ sf_key k = true ∧ t = k ++ [61] ++ letters (bits_of (encode m)) ∧ Forall (λ c, 33 ≤ c < 127) t.
Proof.
  cbn [sf_ser_dictionary toy_fields]. destruct d as [|[k m] [|]]; try done. destruct (sf_key k) eqn:E; [|done]. intros Ht. apply Ok_inj in Ht. subst t. exists k, m. split_and!; try done.
  apply Forall_app. split; [|constructor; [lia|]]; [eapply Forall_impl; [by apply sf_key_chars|]|eapply Forall_impl; [apply letters_printable|]]; cbn; lia.
Qed.
Lemma take_while_all f (s : str) : forallb f s = true → take_while f s = s.
Proof. induction s as [|c s IH]; cbn; [done|]. rewrite andb_true_iff. intros [-> Hs]. by rewrite IH. Qed.

Lemma letters_head l : head (letters l) ≠ Some 58 ∧ head (letters l) ≠ Some 34.
Proof. split; intros Hh; pose proof (letters_printable l) as Hp; destruct l as [|a [|b [|c [|d [|e l]]]]]; cbn in Hh; try done; unfold bit in Hh; repeat case_match; discriminate Hh. Qed.
Lemma decode_letters m : parse_member_text (letters (bits_of (encode m))) = Some m.
Proof.
  pose proof (letters_head (bits_of (encode m))) as [Hh Hh']. unfold parse_member_text. destruct (letters _) as [|c r] eqn:E.
  - change (decode (of_bits (concat (map letter_bits []))) = Some m). rewrite <- E, read_letters, of_bits_of. apply decode_encode.
  - assert (c ≠ 58 ∧ c ≠ 34) as [Hc Hc'] by (split; intros ->; done). assert (decode (of_bits (concat (map letter_bits (c :: r)))) = Some m) as Hd by (rewrite <- E, read_letters, of_bits_of; apply decode_encode).
    destruct c as [|c|c]; try exact Hd. do 6 (destruct c as [c|c|]; try exact Hd); try done.
Qed.

Lemma toy_tokens : SfTokens.
Proof.
  intros name Hn. cbn [sf_parse_item toy_fields]. unfold parse_item_text. assert (take_while (λ c, negb (c =? 59)) name = name) as Ht.
  { apply take_while_all. apply field_lower_case in Hn as Hl. destruct name as [|c s]; [done|]. cbn [is_lowercase_http_field_name] in Hn. apply andb_true_iff in Hn as [Hc Hs].
    cbn [forallb]. apply andb_true_iff. split; [unfold is_lower in Hc; lia|]. rewrite forallb_forall in Hs. apply forallb_forall. intros x Hx. specialize (Hs x Hx).
    rewrite !orb_true_iff, existsb_exists in Hs. unfold is_lower, is_digit in Hs. destruct Hs as [[Hs|Hs]|(z & Hz & Hs)]; [lia..|]. apply Z.eqb_eq in Hs. subst z.
    assert (Forall (λ c, negb (c =? 59) = true) (lit "!#$%&'*+-.^_`|~")) as Hall by by_decide. rewrite Forall_forall in Hall. apply Hall. by apply list_elem_of_In. }
  rewrite Ht, drop_all, Hn. cbn [length parse_params_text]. destruct name as [|c s]; [done|].
  assert (c ≠ 34) as Hc. { cbn [is_lowercase_http_field_name] in Hn. apply andb_true_iff in Hn as [Hc _]. unfold is_lower in Hc. lia. }
  destruct c as [|c|c]; try reflexivity. do 6 (destruct c as [c|c|]; try reflexivity). done.
Qed.

Lemma toy_serialization : SfSerialization.
Proof.
  split.
  - intros v ps t Ht. by apply checked_Ok in Ht as [_ ?].
  - intros d t Ht. apply toy_dictionary_Ok in Ht as (k & m & _ & _ & _ & Hp). eapply Forall_impl; [exact Hp|]. cbn. lia.
  - intros k items ps t Ht. apply toy_dictionary_Ok in Ht as (k' & m & [= <- <-] & _ & -> & _). eauto.
  - intros d t _ Ht. apply toy_dictionary_Ok in Ht as (k & m & -> & Hk & -> & _). cbn [sf_parse_dictionary toy_fields]. cbn [app]. rewrite (partition_at_first 61 k).
    + by rewrite decode_letters, Hk.
    + intros Hin. apply sf_key_chars in Hk. rewrite Forall_forall in Hk. apply Hk in Hin. lia.
Qed.

Lemma strip_none (s : str) : Forall (λ c, 33 ≤ c < 127) s → strip_blanks s = s.
Proof.
  intros Hs. destruct s as [|c s]; [done|]. destruct (last (c :: s)) as [d|] eqn:E; [|by apply last_None in E].
  assert (33 ≤ d < 127) as Hd. { rewrite last_Some in E. destruct E as [l E]. rewrite E in Hs. apply Forall_app in Hs as [_ Hs]. by inversion Hs. }
  inversion Hs; subst. eapply strip_blanks_id; [done|exact E|lia..].
Qed.

#[export] Instance toy_grammar : SfGrammar.
Proof.
  split.
  - apply toy_tokens.
  - apply toy_serialization.
  - intros s t Ht. apply checked_Ok in Ht as [Ht _]. cbn [bare_text] in Ht. destruct (bool_decide_reflect (34 ∈ s)); [done|]. destruct (bool_decide (92 ∈ s)); [done|]. cbn [orb] in Ht.
    injection Ht as <-. cbn [sf_parse_item toy_fields]. unfold parse_item_text. cbn [app]. rewrite (partition_at_first 34 s []) by done. done.
  - intros v. cbn [sf_ser_item sf_ser_bare toy_fields]. unfold item_text. destruct (bare_text v) as [t|]; [|done]. cbn [mbind option_bind params_text]. by rewrite app_nil_r.
  - intros k m t Ht. by apply toy_dictionary_Ok in Ht as (k' & m' & [= <- <-] & Hk & _).
  - intros d t Ht. apply toy_dictionary_Ok in Ht as (k & m & _ & _ & _ & Hp). by apply strip_none.
  - intros k b Hk Hb. cbn [sf_parse_dictionary toy_fields]. unfold byte_member. change (lit "=:" ++ b64_std_encode b ++ [58]) with (61 :: 58 :: b64_std_encode b ++ [58]).
    rewrite partition_at_first.
    + cbn [parse_member_text]. rewrite length_app. cbn [length]. rewrite Nat.add_sub, take_app_length, b64_std_decode_encode by done. by rewrite Hk.
    + intros Hin. apply sf_key_chars in Hk. rewrite Forall_forall in Hk. apply Hk in Hin. lia.
Qed.

(** ** Messages *)
Definition toy_http_env : http_env := {| he_clock := λ _, toy_now + 500000; he_urandom := λ _, replicate 32 5; he_check := λ _, Ok () |}.
Definition toy_signer : HttpSignatureProfile :=
  {| hp_key_provider := Some (toy_provider op1 op1_bytes); hp_domain := toy_domain; hp_config := default_http_config |}.
Definition toy_message (body : string) (status : option Z) (headers : list (string * string)) : HttpRequest :=
  {| hr_method := lit "POST"; hr_url := lit "https://api.example.com/v1/things?x=1"; hr_headers := prod_map lit lit <$> headers;
     hr_body := Some (lit body); hr_status := status |}.
Definition toy_request : HttpRequest := toy_message "hello" None [("Host", "API.example.com:443"); ("Content-Type", "text/plain")]%string.
Definition toy_answer : HttpRequest := toy_message "world" (Some 200) [("content-type", "text/plain")]%string.
Definition toy_signing (response : option ResponseSignatureOptions) : HttpSigningOptions :=
  {| so_additional_components := [lit "content-type"]; so_label := lit "sig1"; so_tag := []; so_expires_in_seconds := 60; so_response_signature := response |}.
Definition toy_negotiation : ResponseSignatureOptions := {| ro_expected_domain := toy_domain; ro_additional_components := [lit "content-type"] |}.

Definition toy_signed := create_signed_http_request toy_http_env toy_signer [] (toy_signing None) toy_request.
#[local] Instance toy_resolver : IdentityResolver toy_cache (VerifiedDomain log_binding) := manager_resolver active toy_policy 3 false.
Definition toy_verified (c : toy_cache) := verify_signed_http_request toy_http_env toy_signer [1%nat] toy_signed.1 default_verification (Some toy_cert) c.
Definition toy_asked := create_signed_http_request toy_http_env toy_signer [] (toy_signing (Some toy_negotiation)) toy_request.
Definition toy_answered := sign_requested_http_response toy_http_env toy_signer [2%nat] toy_asked.1 toy_answer.
Definition toy_response_verified (c : toy_cache) :=
  verify_signed_http_response toy_http_env toy_signer [3%nat] toy_asked.1 toy_answered.1 toy_negotiation (Some toy_cert) c.

Lemma http_request_sound_witness : ∃ vd p sig, (toy_verified ∅).2 = Ok vd
  ∧ request_accepted toy_http_env toy_signer toy_signed.1 default_verification (Some toy_cert) p sig vd.
Proof.
  destruct (is_Ok_true (toy_verified ∅).2) as [vd Hvd]; [vm_compute; reflexivity|].
  destruct (http_request_sound toy_http_env toy_signer [1%nat] toy_signed.1 default_verification (Some toy_cert) ∅ (toy_verified ∅).1 vd)
    as (_ & before & p & after & signatures & sig & _ & _ & _ & Hacc).
  - apply nothing_held.
  - rewrite <- Hvd. apply surjective_pairing.
  - exists vd, p, sig. split; [exact Hvd|exact Hacc].
Defined.


(** A profile without a key: the negotiated challenge and the digest are put on the
    request before the signing fails, and are gone afterwards. *)
Definition keyless : HttpSignatureProfile := {| hp_key_provider := None; hp_domain := toy_domain; hp_config := default_http_config |}.
Definition toy_refused := create_signed_http_request toy_http_env keyless [] (toy_signing (Some toy_negotiation)) toy_request.
Lemma failed_signing_unchanged_witness : is_Ok toy_refused.2 = false ∧ toy_refused.1 = toy_request.
Proof.
  destruct (failed_signing_unchanged toy_http_env keyless [] (toy_signing (Some toy_negotiation)) toy_negotiation) as [Hcreate _]; [reflexivity|].
  split; [vm_compute; reflexivity|]. destruct toy_refused as [r o] eqn:E. cbn [fst]. destruct o as [[]|e]; [vm_compute in E; discriminate E|].
  exact (Hcreate _ _ _ E).
Defined.

(** A verifier that knows one identity. *)
Definition fixed_resolver {R} (vd : VerifiedDomain R) : IdentityResolver () (VerifiedDomain R) := λ _ _ _ s, (s, Ok vd).
Lemma ascii_lower_lowers : lowers_ascii.
Proof.
  intros s. cbn [str_lower toy_platform]. unfold lower_case, ascii_lower. rewrite forallb_forall. intros Hs. induction s as [|c s IH]; [done|]. cbn.
  assert (is_upper c = false) as Hc. { specialize (Hs c (or_introl eq_refl)). by destruct (is_upper c); [rewrite andb_false_r in Hs|]. }
  f_equal; [unfold is_upper in Hc; unfold lower_ascii; unfold is_upper; by rewrite Hc|]. apply IH. intros x Hx. apply Hs. by right.
Qed.
Lemma toy_signer_honest : honest_signer (toy_provider op1 op1_bytes) op1.
Proof.
  split; [done|]. intros data sig Hs. cbn [toy_provider sp_sign] in Hs. apply Ok_inj in Hs as <-. split; [apply toy_signature_bytes; by_decide|].
  apply toy_key_verifies; [by_decide|vm_compute; reflexivity].
Qed.
Lemma toy_identity_jwks vd : (toy_verified ∅).2 = Ok vd → key_by_id (JStr (lit "ku-1")) (vd_jwks vd) = Some op1.
Proof.
  intros Hvd. assert ((vd ← (toy_verified ∅).2; Ok (key_by_id (JStr (lit "ku-1")) (vd_jwks vd))) = Ok (Some op1)) as E by (vm_compute; reflexivity).
  rewrite Hvd in E. cbn [mbind result_bind] in E. by apply Ok_inj in E.
Qed.
Lemma signed_request_verifies_witness : ∃ vd, (toy_verified ∅).2 = Ok vd ∧
  verify_signed_http_request (H2 := fixed_resolver vd) toy_http_env toy_signer [1%nat] toy_signed.1 default_verification None () = ((), Ok vd).
Proof.
  destruct (is_Ok_true (toy_verified ∅).2) as [vd Hvd]; [vm_compute; reflexivity|]. exists vd. split; [exact Hvd|].
  apply (signed_request_verifies (H3 := fixed_resolver vd) toy_http_env toy_http_env toy_signer toy_signer [] [1%nat] (toy_signing None) toy_request toy_signed.1 (toy_provider op1 op1_bytes) op1
    (lit "ku-1") toy_domain None () () vd); try reflexivity.
  - apply ascii_lower_lowers.
  - apply Forall_singleton. unfold ordinary_field. split_and!; by_decide.
  - by_decide.
  - split; vm_compute; reflexivity.
  - apply toy_signer_honest.
  - split; [vm_compute; reflexivity|by_decide].
  - split; [vm_compute; reflexivity|by_decide].
  - intros q. unfold within_window. change (now_ts toy_http_env q) with (now_ts toy_http_env []). vm_compute. intuition discriminate.
  - by apply toy_identity_jwks.
Defined.

(** The same request with the authority spelled otherwise and a field that the
    signature does not cover. *)
Definition toy_params : SignatureParams :=
  {| sp_label := lit "sig1"; sp_key_id := toy_domain ++ lit "#ku-1"; sp_alg := lit "ed25519"; sp_created := Some 1700000000; sp_expires := Some 1700000060; sp_nonce := lit "n";
     sp_components := lit <$> ["@method"; "@authority"; "@target-uri"; "content-type"]%string; sp_tag := None; sp_parameters := [] |}.
Definition toy_variant : HttpRequest := toy_message "bye" None [("Host", "api.example.com"); ("Content-Type", " text/plain"); ("X-Trace", "1")]%string.
Definition toy_base : bytes := match build_signature_base toy_request toy_params None with Ok b => b | Raise _ => [] end.

Definition line_charb (c : Z) : bool := (0 <=? c) && (c <? 128) && negb (c =? 10).
Lemma single_lines_checked req context p :
  forallb (λ c, match covered_value req context c with Ok v => forallb line_charb v | Raise _ => true end) (sp_components p) = true → single_lines req context p.
Proof.
  rewrite forallb_forall. intros Hall c v Hc Hv. apply list_elem_of_In, Hall in Hc. rewrite Hv, forallb_forall in Hc. apply Forall_forall. intros x Hx.
  apply list_elem_of_In, Hc in Hx. unfold line_charb in Hx. unfold line_char, is_code_point. lia.
Qed.
Lemma exact_signature_checked p m : structured_value p = Ok m → exact_member m = true → exact_signature p.
Proof. by exists m. Qed.
