(* ===== verification/Jose.v ===== *)
(** * JWTs and JWSs of an identity ([dnsid/jose.py])

    Compact tokens: their strict decoding, the checks on header and claims, and
    verification against a resolved identity.  Recursion limits of the JSON
    parser are not modelled. *)
From S2P Require Import Prelude Errors PyText Base64 Utils PyFloat PyNum PyTime Canonical Keys Identity Manager Publication HttpSignatures HttpProfile.

(** ** Configuration *)

(** [JoseConfig], in microseconds. *)
Record JoseConfig : Set := { jc_max_lifetime : Z; jc_clock_skew : Z }.
Definition default_jose_config : JoseConfig := {| jc_max_lifetime := 900 * second_us; jc_clock_skew := 60 * second_us |}.
Definition DEFAULT_JWT_EXPIRY : Z := 15 * 60 * second_us.

Definition validate_duration (value : Z) (allow_zero : bool) : res unit :=
  raise_if (if allow_zero then value <? 0 else value <=? 0) (ArgumentError (lit "must be a finite duration")).

Record JoseProfile : Type := { jp_key_provider : option SigningProvider; jp_domain : str; jp_config : JoseConfig }.

Record JWTOptions : Set := { jo_audience : str; jo_expiry : option Z; jo_additional_claims : list (str * json) }.

Definition APPLICATION_JOSE_ALGS : list str := [lit "EdDSA"; lit "ES256"].
Definition RESERVED_CLAIMS : list str := lit <$> ["iss"; "sub"; "aud"; "iat"; "exp"; "jti"]%string.

(** [json.dumps(value, separators=(",", ":"))] *)
Fixpoint dumps (v : json) : res str :=
  match v with
  | JNull => Ok (lit "null")
  | JBool b => Ok (if b then lit "true" else lit "false")
  | JInt z =>
      raise_if (int_max_str_digits <? len (str_of_nonneg (Z.abs z)))
        (ValueError (lit "Exceeds the limit for integer string conversion")) ;;
      Ok (str_of_int z)
  | JFloat f => Ok (float_text f)
  | JStr s => Ok (dumps_ascii_str s)
  | JList l => parts ← mapM_res dumps l; Ok (bracket 91 93 parts)
  | JDict d =>
      parts ← mapM_res (λ kv, t ← dumps kv.2; Ok (dumps_ascii_str kv.1 ++ [58] ++ t)) d;
      Ok (bracket 123 125 parts)
  end.

(** ** Decoding *)
Definition jose_invalid (msg : string) : exn := vfail RECORD_INVALID msg.
Definition jose_refused (msg : string) : exn := vfail SIGNATURE_INVALID msg.

Definition decode_segment (value : str) : res bytes :=
  try_except
    (decoded ← (if value ==? [] then Ok [] else b64url_decode_strict value);
     raise_if (negb (b64url_encode decoded false ==? value)) (ValueError (lit "non-canonical base64url")) ;;
     Ok decoded)
    (λ e, if is_value_error e then Raise (jose_invalid "invalid JOSE base64url") else Raise e).

Definition MAX_TOKEN : Z := 1024 * 1024.
Definition compact_parts (token : str) : res (str * str * str) :=
  raise_if (MAX_TOKEN <? len token) (jose_invalid "JOSE token exceeds size limit") ;;
  match split 46 token with
  | [a; b; c] =>
      raise_if (16384 <? len a) (jose_invalid "malformed JOSE compact token") ;;
      forM_res (λ part, decode_segment part ;; Ok ()) [a; b; c] ;;
      Ok (a, b, c)
  | _ => Raise (jose_invalid "malformed JOSE compact token")
  end.

(** The hooks [members] and [invalid_constant]. *)
Definition jose_hooks : json_hooks := {|
  parse_constant name := Raise (ValueError (lit "invalid JSON constant: " ++ name));
  object_pairs_hook pairs := raise_if (negb (bool_decide (NoDup pairs.*1))) (ValueError (lit "duplicate JSON member")) ;; Ok pairs
|}.
Definition b64url_decode_json (b64 : str) : res (list (str * json)) :=
  try_except
    (decoded ← decode_segment b64;
     text ← utf8_decode decoded;
     v ← loads jose_hooks text;
     match v with JDict d => Ok d | _ => Raise (ValueError (lit "expected JSON object")) end)
    (λ e, if is_value_error e then Raise (jose_invalid "malformed JOSE JSON") else Raise e).

(** ** Checks on header and claims *)
Definition nonempty_text (v : option json) : bool := match v with Some (JStr (_ :: _)) => true | _ => false end.
Definition text_of (v : option json) : str := match v with Some (JStr s) => s | _ => [] end.

Definition validate_protected_header (header : list (str * json)) (algorithms : list str) : res unit :=
  raise_if (negb (nonempty_text (member (lit "alg") header)) || negb (nonempty_text (member (lit "kid") header))
            || match member (lit "typ") header with None | Some (JStr _) => false | Some _ => true end
            || has "crit" header
            || match member (lit "b64") header with None | Some (JBool true) => false | Some _ => true end)
    (jose_invalid "invalid JOSE protected header") ;;
  raise_if (negb (bool_decide (text_of (member (lit "alg") header) ∈ algorithms))) (jose_refused "JOSE algorithm is not allowed").

Definition require_numeric_date (claims : list (str * json)) (name : string) : res num :=
  match member (lit name) claims ≫= finite_number with
  | Some n => Ok n
  | None => Raise (jose_invalid "missing or invalid date")
  end.

Section jose.
Context `{Platform}.

Definition claim_fqdn (value : option json) : res str :=
  match value with
  | Some (JStr ((_ :: _) as s)) => try_except (normalize_fqdn idna_encode s false) (λ _, Raise (jose_invalid "invalid JWT FQDN claim"))
  | _ => Raise (jose_invalid "invalid JWT FQDN claim")
  end.

(** [JoseProfile.__init__] *)
Definition init_jose (provider : option SigningProvider) (domain : str) (config : option JoseConfig) : res JoseProfile :=
  domain ← (if domain ==? [] then Ok [] else normalize_fqdn idna_encode domain false);
  let config := default default_jose_config config in
  validate_duration (jc_max_lifetime config) false ;;
  validate_duration (jc_clock_skew config) true ;;
  Ok {| jp_key_provider := provider; jp_domain := domain; jp_config := config |}.
Definition jose_from_identity_manager (m : local_manager) (config : option JoseConfig) : res JoseProfile :=
  init_jose (lm_key_provider m) (local_domain m) config.

Context (env : http_env) (uuid4 : list nat → str) (profile : JoseProfile).

Definition require_jose_provider : res SigningProvider :=
  match jp_key_provider profile with
  | Some provider =>
      raise_if (jp_domain profile ==? []) (ArgumentError (lit "JOSE signing requires a key_provider; profile is verification-only")) ;;
      Ok provider
  | None => Raise (ArgumentError (lit "JOSE signing requires a key_provider; profile is verification-only"))
  end.

(** ** Creation *)
Definition compact (header_b64 body_b64 : str) : str := header_b64 ++ [46] ++ body_b64.
Definition jose_header (alg : str) (kid : json) (typ : string) : json :=
  JDict [(lit "alg", JStr alg); (lit "kid", kid); (lit "typ", JStr (lit typ))].

Definition jwt_claims (aud : str) (iat exp : Z) (jti : str) (additional : list (str * json)) : list (str * json) :=
  [(lit "iss", JStr (jp_domain profile)); (lit "sub", JStr (jp_domain profile)); (lit "aud", JStr aud); (lit "iat", JInt iat); (lit "exp", JInt exp);
   (lit "jti", JStr jti)] ++ additional.

Definition create_jwt (path : list nat) (opts : JWTOptions) : res str :=
  raise_if (jo_audience opts ==? []) (ArgumentError (lit "audience is required")) ;;
  let expiry := default DEFAULT_JWT_EXPIRY (jo_expiry opts) in
  validate_duration expiry false ;;
  raise_if (jc_max_lifetime (jp_config profile) <? expiry) (ArgumentError (lit "JWT expiry exceeds maximum lifetime")) ;;
  let now := utc (he_clock env (0 :: path)%nat) in
  aud ← normalize_fqdn idna_encode (jo_audience opts) false;
  raise_if (existsb (λ c, bool_decide (c.1 ∈ RESERVED_CLAIMS)) (jo_additional_claims opts))
    (ArgumentError (lit "additional_claims must not override reserved claim")) ;;
  until ← dt_add now expiry;
  let iat := int_of_num (seconds_of (dt_wall now)) in
  let exp := int_of_num (seconds_of (dt_wall until)) in
  let claims := jwt_claims aud iat exp (uuid4 (1 :: path)%nat) (jo_additional_claims opts) in
  raise_if (exp <=? iat) (ArgumentError (lit "JWT expiry is below timestamp resolution")) ;;
  key_provider ← require_jose_provider;
  signing_key ← sp_signing_key key_provider;
  alg ← signature_alg signing_key;
  header_text ← dumps (jose_header alg (jwk_kid signing_key) "JWT");
  claims_text ← dumps (JDict claims);
  let signing_input := compact (b64url_encode header_text false) (b64url_encode claims_text false) in
  sig_bytes ← sp_sign key_provider signing_input;
  Ok (compact signing_input (b64url_encode sig_bytes false)).

Definition create_jws (payload : bytes) : res str :=
  key_provider ← require_jose_provider;
  signing_key ← sp_signing_key key_provider;
  kid ← kid_text signing_key;
  raise_if (bool_decide (35 ∈ kid)) (ArgumentError (lit "signing key kid must not contain '#'")) ;;
  alg ← signature_alg signing_key;
  header_text ← dumps (jose_header alg (JStr (jp_domain profile ++ [35] ++ kid)) "jose");
  let sig_input := compact (b64url_encode header_text false) (b64url_encode payload false) in
  sig_bytes ← sp_sign key_provider sig_input;
  Ok (compact sig_input (b64url_encode sig_bytes false)).

(** ** Verification *)
Definition jwt_audiences (claims : list (str * json)) : res (list str) :=
  match get "aud" (JList []) claims with
  | JStr s => mapM_res (λ a, claim_fqdn (Some a)) [JStr s]
  | JList ((_ :: _) as l) => mapM_res (λ a, claim_fqdn (Some a)) l
  | _ => Raise (jose_invalid "invalid JWT audience")
  end.

(** The checks on times at a reading of the clock; the expiry. *)
Definition check_jwt_times (path : list nat) (claims : list (str * json)) : res num :=
  let now := seconds_of (he_clock env path) in
  let skew := seconds_of (jc_clock_skew (jp_config profile)) in
  let max_lifetime := seconds_of (jc_max_lifetime (jp_config profile)) in
  iat ← require_numeric_date claims "iat";
  latest ← num_add now skew;
  raise_if (num_lt latest iat) (jose_invalid "JWT issued-at time is in the future") ;;
  exp ← require_numeric_date claims "exp";
  raise_if (num_le exp iat) (jose_invalid "JWT exp must be after iat") ;;
  lifetime ← num_sub exp iat;
  raise_if (num_lt max_lifetime lifetime) (jose_invalid "JWT lifetime exceeds maximum") ;;
  raise_if (num_le exp now) (jose_invalid "JWT is expired") ;;
  (if has "nbf" claims then
     nbf ← require_numeric_date claims "nbf";
     raise_if (num_lt latest nbf) (jose_invalid "JWT not yet valid (nbf)")
   else Ok ()) ;;
  Ok exp.

(** Everything [verify_jwt] checks before it resolves the issuer. *)
Definition check_jwt (path : list nat) (jwt : str) (expected_audience : option str)
    : res (list (str * json) * list (str * json) * num) :=
  let audience := default (jp_domain profile) expected_audience in
  raise_if (audience ==? []) (ArgumentError (lit "expected audience is required")) ;;
  audience ← try_except (normalize_fqdn idna_encode audience false) (λ _, Raise (ArgumentError (lit "expected audience must be an FQDN")));
  '(a, b, _) ← compact_parts jwt;
  header ← b64url_decode_json a;
  claims ← b64url_decode_json b;
  validate_protected_header header APPLICATION_JOSE_ALGS ;;
  raise_if (negb (nonempty_text (member (lit "iss") claims))) (jose_invalid "JWT missing iss claim") ;;
  iss ← claim_fqdn (member (lit "iss") claims);
  sub ← claim_fqdn (member (lit "sub") claims);
  raise_if (negb (sub ==? iss)) (jose_invalid "JWT sub must equal iss") ;;
  audiences ← jwt_audiences claims;
  raise_if (negb (bool_decide (audience ∈ audiences))) (jose_invalid "JWT audience mismatch") ;;
  exp ← check_jwt_times path claims;
  Ok (header, claims, exp).

(** The key a header names, of the algorithm it declares. *)
Definition token_key {R} (header : list (str * json)) (kid : json) (vd : VerifiedDomain R) : res JWK :=
  match key_by_id kid (vd_jwks vd) with
  | None => Raise (vfail KEY_NOT_FOUND "kid not found in JWKS")
  | Some signing_key =>
      let alg := text_of (member (lit "alg") header) in
      raise_if (negb (bool_decide (alg ∈ APPLICATION_JOSE_ALGS))) (jose_refused "alg not in application-layer allowlist") ;;
      key_alg ← signature_alg signing_key;
      raise_if (negb (alg ==? key_alg)) (jose_refused "alg mismatch") ;;
      Ok signing_key
  end.

Section resolution.
Context {S R : Type} `{IdentityResolver S (VerifiedDomain R)}.

Definition finish_jwt (path : list nat) (jwt : str) (header : list (str * json)) (exp : num) (vd : VerifiedDomain R) : res (VerifiedDomain R) :=
  signing_key ← token_key header (get "kid" (JStr []) header) vd;
  '(a, b, c) ← match split 46 jwt with [a; b; c] => Ok (a, b, c) | _ => Raise (IndexError (lit "list index out of range")) end;
  sig ← b64url_decode_strict c;
  valid ← jwk_verify signing_key (compact a b) sig;
  raise_if (negb valid) (jose_refused "JWT signature invalid") ;;
  raise_if (num_le exp (seconds_of (he_clock env path))) (jose_invalid "JWT expired during verification") ;;
  Ok vd.

Definition verify_jwt (path : list nat) (jwt : str) (expected_audience : option str) (peer_cert : option TLSCertificate) : MM S (VerifiedDomain R) :=
  within_budget env (0 :: path)%nat
    ('(header, claims, exp) ← pure (check_jwt (1 :: path)%nat jwt expected_audience);
     vd ← resolve_domain (2 :: path)%nat (text_of (member (lit "iss") claims)) peer_cert;
     pure (finish_jwt (3 :: path)%nat jwt header exp vd)).

Definition check_jws (jws : str) : res (str * str * str * list (str * json) * bytes * str * str) :=
  '(a, b, c) ← compact_parts jws;
  header ← b64url_decode_json a;
  validate_protected_header header APPLICATION_JOSE_ALGS ;;
  payload ← decode_segment b;
  raise_if (falsy (get "kid" JNull header)) (jose_invalid "JWS missing kid header parameter") ;;
  '(domain, kid) ← parse_key_id idna_encode (text_of (member (lit "kid") header));
  Ok (a, b, c, header, payload, domain, kid).

Definition finish_jws (a b c : str) (header : list (str * json)) (payload : bytes) (kid : str) (vd : VerifiedDomain R) : res (bytes * VerifiedDomain R) :=
  signing_key ← token_key header (JStr kid) vd;
  sig ← decode_segment c;
  valid ← jwk_verify signing_key (compact a b) sig;
  raise_if (negb valid) (jose_refused "JWS signature invalid") ;;
  Ok (payload, vd).

Definition verify_jws (path : list nat) (jws : str) (peer_cert : option TLSCertificate) : MM S (bytes * VerifiedDomain R) :=
  within_budget env (0 :: path)%nat
    ('(a, b, c, header, payload, domain, kid) ← pure (check_jws jws);
     vd ← resolve_domain (1 :: path)%nat domain peer_cert;
     pure (finish_jws a b c header payload kid vd)).
End resolution.
End jose.
