(* ===== verification/JoseSpec.v ===== *)
(** * What a verified token rests on

    Soundness of [verify_jwt] and [verify_jws] over the interface of identity
    resolvers, and the round trip of signed payloads. *)
From S2P Require Import Prelude Sha256 Errors PyText Base64 Utils SignedNote Lr ResourceFetcher PyFloat PyTime Canonical CanonicalSpec JsonScan PyNum Keys LifecycleDemo TxtRecord TxtRecordSpec Identity HttpsClient Manager ManagerSpec Publication PublicationSpec ManagerDemo HttpModels HttpSignatures HttpProfile HttpSpec HttpRoundtrip HttpDemo Jose.

(** ** Tokens *)

(** A segment is the one encoding of the octets it decodes to. *)
Lemma decode_segment_Ok s b : decode_segment s = Ok b → s = b64url_encode b false.
Proof.
  unfold decode_segment. intros Hs. destruct (mbind _ _) as [x|e] eqn:E in Hs; [|cbn in Hs; by destruct (is_value_error e)]. apply Ok_inj in Hs. subst x.
  bind_step E as decoded Hd. guard_step E as G. apply Ok_inj in E. subst decoded. apply negb_false_iff in G. rewrite eqb_true in G. done.
Qed.
Lemma decode_encoded b : is_bytes b → decode_segment (b64url_encode b false) = Ok b.
Proof.
  intros Hb. unfold decode_segment. destruct (decide (b = [])) as [->|Hne]; [done|]. rewrite b64url_strict_decode by done.
  destruct (b64url_encode b false ==? []) eqn:E.
  - rewrite eqb_true in E. pose proof (b64url_strict_decode b Hb Hne) as Hx. rewrite E in Hx. done.
  - cbn [mbind result_bind]. by rewrite eqb_refl.
Qed.

(** A compact token: three canonical segments. *)
Definition token (jwt a b c : str) : Prop := jwt = compact (compact a b) c.
Lemma compact_parts_Ok jwt a b c : compact_parts jwt = Ok (a, b, c) → split 46 jwt = [a; b; c] ∧ token jwt a b c ∧ len jwt ≤ MAX_TOKEN.
Proof.
  unfold compact_parts. intros Hx. guard_step Hx as G1. apply Z.ltb_ge in G1. destruct (split 46 jwt) as [|x [|y [|z [|]]]] eqn:Es; try done.
  guard_step Hx as G2. apply bind_unit_Ok in Hx as [_ Hx]. apply Ok_inj in Hx. injection Hx as -> -> ->. split_and!; [done| |done].
  rewrite <- (join_split 46 jwt), Es. cbn [join]. unfold token, compact. by rewrite <- !app_assoc.
Qed.

(** An object that was read is empty or what the hook returned. *)
Lemma scan_number_scalar neg s v rest : scan_number neg s = Ok (v, rest) → ∀ d, v ≠ JDict d.
Proof.
  unfold scan_number. intros Hx d ->. destruct (if startswith [48] s then _ else _) as [i r]. destruct (i ==? []); [done|]. destruct (scan_frac r) as [frac r1]. destruct (scan_exp r1) as [exp r2].
  destruct ((frac ==? []) && (exp ==? None)); [|done]. guard_step Hx as G. done.
Qed.
Lemma scan_value_object hooks fuel s d rest : (∀ name v, parse_constant hooks name = Ok v → ∀ d, v ≠ JDict d) → scan_value hooks fuel s = Ok (JDict d, rest) →
  d = [] ∨ ∃ pairs, object_pairs_hook hooks pairs = Ok d.
Proof.
  intros Hc. destruct fuel as [|fuel]; [done|]. destruct s as [|c s]; [done|]. cbn [scan_value].
  assert (∀ name n, (v ← parse_constant hooks name; Ok (v, drop n (c :: s))) = Ok (JDict d, rest) → False) as Hk.
  { intros name n Hx. bind_step Hx as v Hv. apply Ok_inj in Hx. injection Hx as -> _. by eapply Hc. }
  assert (∀ name n, (v ← parse_constant hooks name; Ok (v, drop n s)) = Ok (JDict d, rest) → False) as Hk'.
  { intros name n Hx. bind_step Hx as v Hv. apply Ok_inj in Hx. injection Hx as -> _. by eapply Hc. }
  destruct (c =? 34). { intros Hx. destruct (scan_string s) as [[]|]; discriminate Hx. }
  destruct (c =? 123).
  { destruct (startswith [125] (skip_ws s)); [intros [= <- _]; by left|]. destruct (scan_members _ _ _) as [[pairs r]|]; [|done]. cbn [mbind result_bind].
    intros Hx. bind_step Hx as d' Hd. apply Ok_inj in Hx. injection Hx as -> _. right. eauto. }
  destruct (c =? 91). { destruct (startswith [93] (skip_ws s)); [done|]. destruct (scan_elements _ _ _) as [[]|]; done. }
  destruct (c =? 45).
  { destruct (startswith (lit "Infinity") s); [by intros ?%Hk'|]. intros Hx. by eapply scan_number_scalar in Hx. }
  destruct (startswith (lit "null") _); [done|]. destruct (startswith (lit "true") _); [done|]. destruct (startswith (lit "false") _); [done|].
  destruct (startswith (lit "NaN") _); [by intros ?%Hk|]. destruct (startswith (lit "Infinity") _); [by intros ?%Hk|]. intros Hx. by eapply scan_number_scalar in Hx.
Qed.

(** What a segment with a JSON object is. *)
Definition object_segment (s : str) (d : list (str * json)) : Prop :=
  ∃ b text, s = b64url_encode b false ∧ utf8_decode b = Ok text ∧ loads jose_hooks text = Ok (JDict d) ∧ NoDup d.*1.
Lemma b64url_decode_json_Ok s d : b64url_decode_json s = Ok d → object_segment s d.
Proof.
  unfold b64url_decode_json. intros Hs. destruct (mbind _ _) as [x|e] eqn:E in Hs; [|cbn in Hs; by destruct (is_value_error e)]. apply Ok_inj in Hs. subst x.
  bind_step E as b Hb. bind_step E as text Ht. bind_step E as v Hv. destruct v; try done. apply Ok_inj in E. subst. exists b, text. split_and!; [by apply decode_segment_Ok|done|done|].
  unfold loads in Hv. guard_step Hv as G. destruct (scan_value _ _ _) as [[v r]|] eqn:Ev; [|done]. cbn [mbind result_bind] in Hv. guard_step Hv as G2. apply Ok_inj in Hv. subst v.
  apply scan_value_object in Ev as [->|[pairs Hp]]; [constructor| |done]. cbn in Hp. guard_step Hp as G3. apply Ok_inj in Hp. subst pairs.
  apply negb_false_iff in G3. by apply bool_decide_eq_true in G3.
Qed.

(** ** Soundness *)
Section soundness.
Context `{Platform} (env : http_env) (profile : JoseProfile).

Definition header_ok (header : list (str * json)) : Prop :=
  (∃ alg, member (lit "alg") header = Some (JStr alg) ∧ alg ∈ APPLICATION_JOSE_ALGS) ∧
  (∃ kid, member (lit "kid") header = Some (JStr kid) ∧ kid ≠ []) ∧
  member (lit "crit") header = None ∧ (∀ v, member (lit "b64") header = Some v → v = JBool true).

Lemma nonempty_text_Ok v : nonempty_text v = true → ∃ s, v = Some (JStr s) ∧ s ≠ [].
Proof. destruct v as [[]|]; try done. destruct s; [done|]. eauto. Qed.

Lemma validate_protected_header_Ok header : validate_protected_header header APPLICATION_JOSE_ALGS = Ok () → header_ok header.
Proof.
  unfold validate_protected_header. intros Hx. guard_step Hx as G. rewrite !orb_false_iff, !negb_false_iff in G. destruct G as ((((Ha & Hk) & _) & Hcrit) & Hb).
  destruct (nonempty_text_Ok _ Ha) as (alg & Ea & _), (nonempty_text_Ok _ Hk) as (kid & Ek & Hne). split_and!.
  - exists alg. split; [done|]. rewrite Ea in Hx. cbn [text_of] in Hx. destruct (bool_decide_reflect (alg ∈ APPLICATION_JOSE_ALGS)); [done|discriminate Hx].
  - eauto.
  - unfold has in Hcrit. by destruct (member (lit "crit") header).
  - intros v Hv. rewrite Hv in Hb. by destruct v as [|[]| | | | |].
Qed.

(** A claim that names a domain. *)
Definition names (v : json) (domain : str) : Prop := ∃ s, v = JStr s ∧ s ≠ [] ∧ normalize_fqdn idna_encode s false = Ok domain.
Lemma claim_fqdn_Ok v domain : claim_fqdn v = Ok domain → ∃ w, v = Some w ∧ names w domain.
Proof.
  unfold claim_fqdn. destruct v as [[]|]; try done. destruct s as [|c s]; [done|]. intros Hx.
  destruct (normalize_fqdn idna_encode (c :: s) false) eqn:E; [|done]. apply Ok_inj in Hx. subst. eexists. split; [done|]. by exists (c :: s).
Qed.

(** The audience of a set of claims: one name or a list of names. *)
Definition audience_of (claims : list (str * json)) (domain : str) : Prop :=
  ∃ v, names v domain ∧ (member (lit "aud") claims = Some v ∨ ∃ l, member (lit "aud") claims = Some (JList l) ∧ v ∈ l).
Lemma jwt_audiences_Ok claims l domain : jwt_audiences claims = Ok l → domain ∈ l → audience_of claims domain.
Proof.
  unfold jwt_audiences, get. destruct (member (lit "aud") claims) as [v|] eqn:Em; [|done].
  assert (∀ vs, mapM_res (λ a, claim_fqdn (Some a)) vs = Ok l → domain ∈ l → ∃ w, w ∈ vs ∧ names w domain) as Hm.
  { intros vs Hx Hd. apply mapM_res_Ok in Hx. apply list_elem_of_lookup in Hd as [i Hi]. destruct (Forall2_lookup_r _ _ _ _ _ Hx Hi) as (w & Hw & Hc).
    apply claim_fqdn_Ok in Hc as (? & [= <-] & Hn). exists w. split; [by eapply list_elem_of_lookup_2|done]. }
  destruct v as [| | | |s|vs|]; try done; cbn [default]; intros Hx Hd.
  - destruct (Hm _ Hx Hd) as (w & Hw & Hn). apply list_elem_of_singleton in Hw as ->. exists (JStr s). split; [done|]. by left.
  - destruct vs as [|v0 vs]; [done|]. destruct (Hm _ Hx Hd) as (w & Hw & Hn). exists w. split; [done|]. right. eauto.
Qed.

(** Times at a reading of the clock, in microseconds: issued, not expired, not too
    long-lived and valid already, up to the skew. *)
Definition timely (t : Z) (claims : list (str * json)) (exp : num) : Prop :=
  ∃ iat latest lifetime, (member (lit "iat") claims ≫= finite_number) = Some iat ∧ (member (lit "exp") claims ≫= finite_number) = Some exp
    ∧ num_add (seconds_of t) (seconds_of (jc_clock_skew (jp_config profile))) = Ok latest ∧ num_lt latest iat = false
    ∧ num_le exp iat = false ∧ num_sub exp iat = Ok lifetime ∧ num_lt (seconds_of (jc_max_lifetime (jp_config profile))) lifetime = false
    ∧ num_le exp (seconds_of t) = false
    ∧ ∀ v, member (lit "nbf") claims = Some v → ∃ nbf, finite_number v = Some nbf ∧ num_lt latest nbf = false.

Lemma require_numeric_date_Ok claims name n : require_numeric_date claims name = Ok n → (member (lit name) claims ≫= finite_number) = Some n.
Proof. unfold require_numeric_date. destruct (_ ≫= _); [|done]. intros Hx. apply Ok_inj in Hx. by subst. Qed.

Lemma check_jwt_times_Ok path claims exp : check_jwt_times env profile path claims = Ok exp → timely (he_clock env path) claims exp.
Proof.
  unfold check_jwt_times. intros Hx. bind_step Hx as iat Hi. bind_step Hx as latest Hl. guard_step Hx as G1. bind_step Hx as e He. guard_step Hx as G2. bind_step Hx as lifetime Hlt.
  guard_step Hx as G3. guard_step Hx as G4. apply bind_unit_Ok in Hx as [Hn Hx]. apply Ok_inj in Hx. subst e. apply require_numeric_date_Ok in Hi, He.
  exists iat, latest, lifetime. split_and!; try done. intros v Hv. unfold has in Hn. rewrite Hv in Hn. bind_step Hn as nbf Hnbf. apply require_numeric_date_Ok in Hnbf.
  rewrite Hv in Hnbf. exists nbf. split; [done|]. by destruct (num_lt latest nbf).
Qed.

(** What is checked before the issuer is resolved. *)
Record jwt_checked (t : Z) (jwt : str) (expected : option str) (header claims : list (str * json)) (exp : num) : Prop := {
  jk_token : ∃ a b c, token jwt a b c ∧ split 46 jwt = [a; b; c] ∧ object_segment a header ∧ object_segment b claims;
  jk_header : header_ok header;
  jk_subject : ∃ iss domain sub, member (lit "iss") claims = Some (JStr iss) ∧ names (JStr iss) domain ∧ member (lit "sub") claims = Some sub ∧ names sub domain;
  jk_audience : ∃ domain, normalize_fqdn idna_encode (default (jp_domain profile) expected) false = Ok domain ∧ audience_of claims domain;
  jk_times : timely t claims exp
}.

Lemma check_jwt_Ok path jwt expected header claims exp : check_jwt env profile path jwt expected = Ok (header, claims, exp) →
  jwt_checked (he_clock env path) jwt expected header claims exp.
Proof.
  unfold check_jwt. intros Hx. guard_step Hx as G1. destruct (normalize_fqdn idna_encode (default (jp_domain profile) expected) false) as [audience|] eqn:Ea; [|done].
  cbn [try_except mbind result_bind] in Hx. destruct (compact_parts jwt) as [[[a b] c]|] eqn:Ec; [|done]. cbn [mbind result_bind] in Hx.
  bind_step Hx as h Hh. bind_step Hx as cl Hcl. apply bind_unit_Ok in Hx as [Hhd Hx]. guard_step Hx as G2. bind_step Hx as iss Hi. bind_step Hx as sub Hsub. guard_step Hx as G3.
  bind_step Hx as audiences Hau. guard_step Hx as G4. bind_step Hx as e He. apply Ok_inj in Hx. injection Hx as -> -> ->.
  apply negb_false_iff in G2, G3, G4. rewrite eqb_true in G3. subst sub. apply bool_decide_eq_true in G4. apply compact_parts_Ok in Ec as (Es & Ht & _).
  destruct (nonempty_text_Ok _ G2) as (s & Hs & _). apply claim_fqdn_Ok in Hi as (w & Hw & Hn), Hsub as (w' & Hw' & Hn'). rewrite Hs in Hw. injection Hw as <-. split.
  - exists a, b, c. split_and!; [done|done|by apply b64url_decode_json_Ok..].
  - by apply validate_protected_header_Ok.
  - exists s, iss, w'. done.
  - exists audience. split; [done|]. by eapply jwt_audiences_Ok.
  - by apply check_jwt_times_Ok.
Qed.

(** The key that verified a token. *)
Definition token_verified {R} (header : list (str * json)) (kid : json) (vd : VerifiedDomain R) (input sig : bytes) : Prop :=
  ∃ key alg, key_by_id kid (vd_jwks vd) = Some key ∧ signature_alg key = Ok alg ∧ member (lit "alg") header = Some (JStr alg) ∧ jwk_verify key input sig = Ok true.

Lemma token_key_Ok {R} header kid (vd : VerifiedDomain R) key : header_ok header → token_key header kid vd = Ok key →
  key_by_id kid (vd_jwks vd) = Some key ∧ ∃ alg, signature_alg key = Ok alg ∧ member (lit "alg") header = Some (JStr alg).
Proof.
  intros ((alg & Ha & _) & _) Hx. unfold token_key in Hx. destruct (key_by_id kid (vd_jwks vd)) as [k|]; [|done]. guard_step Hx as G1. bind_step Hx as key_alg Hk. guard_step Hx as G2.
  apply Ok_inj in Hx. subst k. split; [done|]. exists alg. split; [|done]. rewrite Ha in G2. cbn [text_of] in G2. apply negb_false_iff in G2. rewrite eqb_true in G2. by subst.
Qed.
End soundness.

(** C8 What a verified JWT rests on.  When [verify_jwt] returns an identity, the
    token consists of three segments of which the first two are the only base64url
    encodings of UTF-8 JSON objects with distinct members; the header declares one
    of the two allowed algorithms, has no critical extension and names a key; issuer
    and subject are the same domain and the expected audience is among the
    audiences; the token was issued, valid and unexpired, with a bounded lifetime, at
    a reading of the clock before the issuer was resolved, and still unexpired
    after; the resolver vouches for the issuer with this very result; and the key
    of that name in the resolved key set, whose algorithm is the declared one,
    verifies the third segment over exactly the first two. *)
Theorem jwt_sound `{Platform} {S R : Type} `{ResolverSpec S (VerifiedDomain R)} (env : http_env) (profile : JoseProfile) (path : list nat) (jwt : str)
    (expected : option str) (cert : option TLSCertificate) (s s' : S) (vd : VerifiedDomain R) (Hs : rs_inv s)
    (Hok : verify_jwt env profile path jwt expected cert s = (s', Ok vd)) :
  rs_inv s' ∧ ∃ header claims exp a b c sig iss,
    jwt_checked profile (he_clock env (1 :: path)%nat) jwt expected header claims exp
    ∧ member (lit "iss") claims = Some (JStr iss) ∧ rs_vouches iss cert vd
    ∧ token jwt a b c ∧ b64url_decode_strict c = Ok sig ∧ token_verified header (get "kid" (JStr []) header) vd (compact a b) sig
    ∧ num_le exp (seconds_of (he_clock env (3 :: path)%nat)) = false.
Proof.
  unfold verify_jwt, within_budget, mbind, MM_bind, pure in Hok. destruct (he_check env _) as [[]|e]; [|done].
  destruct (check_jwt _ _ _ _ _) as [[[header claims] exp]|e] eqn:Ec; [|done]. pose proof (check_jwt_Ok _ _ _ _ _ _ _ _ Ec) as Hc.
  destruct (resolve_domain _ _ _ s) as [s1 [v|e]] eqn:Er; [|done]. destruct (resolve_sound _ _ _ _ _ _ Hs Er) as [Hs1 Hv].
  destruct (finish_jwt _ _ _ _ _ _) as [v'|e] eqn:Ef; [|done]. destruct (he_check env _) as [[]|e]; [|done]. injection Hok as <- <-. split; [done|].
  destruct (jk_token _ _ _ _ _ _ _ Hc) as (a & b & c & Ht & Hsp & _). destruct (jk_subject _ _ _ _ _ _ _ Hc) as (iss & domain & sub & Hi & _). rewrite Hi in Er, Hv. cbn [text_of] in Er, Hv.
  unfold finish_jwt in Ef. bind_step Ef as key Hk. rewrite Hsp in Ef. cbn [mbind result_bind] in Ef. bind_step Ef as sig Hsig. bind_step Ef as valid Hvalid. destruct valid; [|done].
  cbn [negb raise_if mbind result_bind] in Ef. guard_step Ef as G. apply Ok_inj in Ef. subst v'. destruct (token_key_Ok _ _ _ _ (jk_header _ _ _ _ _ _ _ Hc) Hk) as (Hkey & alg & Ha & Hm).
  exists header, claims, exp, a, b, c, sig, iss. split_and!; [done|done|by apply Hv|done|done|by exists key, alg|done].
Qed.

(** ** The round trip *)
Lemma hex_digit_hex n : 0 ≤ n < 16 → is_hex (hex_digit n) = true.
Proof. intros Hn. unfold hex_digit, is_hex, is_digit. destruct (Z.ltb_spec n 10); lia. Qed.
Lemma hex4_read u : 0 ≤ u < 0x10000 → hex4 (hex_digit (u / 4096)) (hex_digit (u / 256 mod 16)) (hex_digit (u / 16 mod 16)) (hex_digit (u mod 16)) = Some u.
Proof.
  intros Hu. unfold hex4. rewrite !hex_digit_hex by dlia. cbn [andb]. rewrite !hex_value_digit by dlia. f_equal. dlia.
Qed.

(** ASCII escapes are read back, those of two code units included. *)
Lemma ascii_escape_readable : readable ascii_escape.
Proof.
  intros c r Hc. unfold ascii_escape. destruct (Z.ltb_spec c 127) as [?|Hge]; [by apply scan_string_char|]. destruct Hc as [Hc Hs]. unfold is_code_point in Hc. unfold utf16_units.
  unfold is_surrogate in Hs. destruct (Z.ltb_spec c 0x10000) as [Hlt|Hbig]; cbn [fmap list_fmap concat]; unfold hex4_text; cbn [app].
  - apply scan_string_unicode; [by apply hex4_read; lia|]. unfold is_high. lia.
  - set (u := 0xD800 + (c - 0x10000) / 1024). set (u' := 0xDC00 + (c - 0x10000) mod 1024). assert (0xD800 ≤ u ≤ 0xDBFF) as Hu by (subst u; dlia). assert (0xDC00 ≤ u' ≤ 0xDFFF) as Hu' by (subst u'; dlia).
    cbn [scan_string Z.eqb Pos.eqb]. rewrite !hex4_read by lia. unfold is_high, is_low. replace ((0xD800 <=? u) && (u <=? 0xDBFF)) with true by lia. cbn [andb Z.eqb Pos.eqb].
    replace ((0xDC00 <=? u') && (u' <=? 0xDFFF)) with true by lia. f_equal. subst u u'. dlia.
Qed.
Lemma jose_keeps_members : keeps_members jose_hooks.
Proof. intros d Hd. cbn. by rewrite bool_decide_eq_true_2. Qed.

Lemma ascii_escape_ascii c : char_ok c → Forall (λ c, 0 ≤ c < 128) (ascii_escape c).
Proof.
  intros [Hc Hs]. unfold is_code_point in Hc. assert (∀ n, 0 ≤ n < 16 → 0 ≤ hex_digit n < 128) as Hh by (intros n Hn; unfold hex_digit; destruct (Z.ltb_spec n 10); lia).
  unfold ascii_escape. destruct (Z.ltb_spec c 127).
  - unfold escape_char. repeat (case_match; [repeat constructor; lia|]). destruct (Z.ltb_spec c 32); repeat constructor; try lia; apply Hh; dlia.
  - unfold utf16_units. destruct (Z.ltb_spec c 0x10000); cbn [fmap list_fmap concat app]; unfold hex4_text; cbn [app]; repeat constructor; try lia; apply Hh; dlia.
Qed.
Lemma dumps_ascii_ascii s : text_ok s → Forall (λ c, 0 ≤ c < 128) (dumps_ascii_str s).
Proof.
  intros Hs. unfold dumps_ascii_str. apply Forall_app. split; [repeat constructor; lia|]. apply Forall_app. split; [|repeat constructor; lia].
  induction Hs as [|c s Hc _ IH]; cbn [fmap list_fmap concat]; [constructor|]. apply Forall_app. split; [by apply ascii_escape_ascii|exact IH].
Qed.

Lemma encoded_no_dot b : is_bytes b → 46 ∉ b64url_encode b false.
Proof.
  intros Hb. destruct (decide (b = [])) as [->|Hne]; [by_decide|]. destruct (b64url_encode_padding b Hb) as [_ Hre]. specialize (Hre Hne). unfold b64url_strict_re in Hre.
  apply andb_true_iff in Hre as [_ Hf]. rewrite forallb_forall in Hf. intros Hin. apply list_elem_of_In, Hf in Hin. done.
Qed.

(** A token of encoded segments is taken apart. *)
Lemma split_encoded x y z : is_bytes x → is_bytes y → is_bytes z →
  split 46 (compact (compact (b64url_encode x false) (b64url_encode y false)) (b64url_encode z false)) = [b64url_encode x false; b64url_encode y false; b64url_encode z false].
Proof.
  intros Hx Hy Hz. rewrite <- (split_join 46 [b64url_encode x false; b64url_encode y false; b64url_encode z false]); [|done|by repeat constructor; apply encoded_no_dot].
  f_equal. unfold compact. cbn [join]. by rewrite <- !app_assoc.
Qed.
Lemma compact_parts_encoded x y z : is_bytes x → is_bytes y → is_bytes z → let t := compact (compact (b64url_encode x false) (b64url_encode y false)) (b64url_encode z false) in
  len t ≤ MAX_TOKEN → len (b64url_encode x false) ≤ 16384 → compact_parts t = Ok (b64url_encode x false, b64url_encode y false, b64url_encode z false).
Proof.
  intros Hx Hy Hz t Ht Hh. unfold compact_parts. rewrite (proj2 (Z.ltb_ge _ _) Ht). cbn [raise_if mbind result_bind].
  subst t. rewrite split_encoded by done.
  rewrite (proj2 (Z.ltb_ge _ _) Hh). cbn [raise_if mbind result_bind forM_res]. by rewrite !decode_encoded.
Qed.

Lemma signature_alg_allowed key alg : signature_alg key = Ok alg → alg ∈ APPLICATION_JOSE_ALGS.
Proof.
  unfold signature_alg. intros Hx. bind_step Hx as d Hd. guard_step Hx as G. apply Ok_inj in Hx. subst d. destruct (signature_alg_from_raw (jwk_raw key)) as [a|e] eqn:E; [|cbn in Hd; by destruct (is_value_error e)].
  apply Ok_inj in Hd. subst a. unfold signature_alg_from_raw in E. guard_step E as G1. destruct (is_str "OKP" _ && _); [apply Ok_inj in E; subst; by_decide|]. destruct (is_str "EC" _ && _); [apply Ok_inj in E; subst; by_decide|done].
Qed.

(** ASCII text of a value is read back from its segment. *)
Lemma object_roundtrip d text : JsonScan.plain (JDict d) → text = render_with ascii_escape (JDict d) → Forall (λ c, 0 ≤ c < 128) text →
  is_bytes text ∧ b64url_decode_json (b64url_encode text false) = Ok d.
Proof.
  intros Hd -> Ha. assert (is_bytes (render_with ascii_escape (JDict d))) as Hb by (eapply Forall_impl; [exact Ha|]; cbn; unfold is_byte; lia). split; [done|].
  unfold b64url_decode_json. rewrite decode_encoded by done. cbn [mbind result_bind].
  rewrite (utf8_roundtrip (render_with ascii_escape (JDict d)) (render_with ascii_escape (JDict d))); [|eapply Forall_impl; [exact Ha|]; unfold is_code_point; lia|by apply ascii_utf8].
  cbn [mbind result_bind]. by rewrite (loads_rendered jose_hooks ascii_escape ascii_escape_readable jose_keeps_members).
Qed.

Lemma algorithm_text alg : alg ∈ APPLICATION_JOSE_ALGS → text_ok alg.
Proof.
  intros Ha. assert (Forall text_ok APPLICATION_JOSE_ALGS) as Hall by (repeat constructor; by_decide). rewrite Forall_forall in Hall. by apply Hall.
Qed.

(** The header that signing writes is read back. *)
Definition written_header (alg kid : str) (typ : string) : list (str * json) := [(lit "alg", JStr alg); (lit "kid", JStr kid); (lit "typ", JStr (lit typ))].
Lemma header_roundtrip alg kid typ text : alg ∈ APPLICATION_JOSE_ALGS → text_ok kid → text_ok (lit typ) → dumps (jose_header alg (JStr kid) typ) = Ok text →
  is_bytes text ∧ b64url_decode_json (b64url_encode text false) = Ok (written_header alg kid typ).
Proof.
  intros Ha Hk Ht Hx. apply algorithm_text in Ha. assert (∀ name, name ∈ [lit "alg"; lit "kid"; lit "typ"] → text_ok name) as Hn.
  { intros name Hin. assert (Forall text_ok [lit "alg"; lit "kid"; lit "typ"]) as Hall by (repeat constructor; by_decide). rewrite Forall_forall in Hall. by apply Hall. }
  apply object_roundtrip.
  - apply plain_dict. split; [by_decide|]. repeat constructor; cbn [fst snd JsonScan.plain]; try done; apply Hn; by_decide.
  - unfold jose_header in Hx. cbn in Hx. apply Ok_inj in Hx. by subst text.
  - set (m := λ k v, dumps_ascii_str k ++ [58] ++ dumps_ascii_str v).
    assert (text = [123] ++ (m (lit "alg") alg ++ [44] ++ m (lit "kid") kid ++ [44] ++ m (lit "typ") (lit typ)) ++ [125]) as -> by (apply Ok_inj in Hx; by subst text). subst m. cbn beta.
    rewrite !Forall_app. split_and!; try (repeat constructor; lia); apply dumps_ascii_ascii; try done; apply Hn; by_decide.
Qed.

Lemma header_valid alg kid typ : alg ∈ APPLICATION_JOSE_ALGS → kid ≠ [] → validate_protected_header (written_header alg kid typ) APPLICATION_JOSE_ALGS = Ok ().
Proof.
  intros Ha Hk. unfold validate_protected_header. change (member (lit "alg") (written_header alg kid typ)) with (Some (JStr alg)).
  change (member (lit "kid") (written_header alg kid typ)) with (Some (JStr kid)). change (member (lit "typ") (written_header alg kid typ)) with (Some (JStr (lit typ))).
  assert (alg ≠ []) as Hne. { intros ->. assert ([] ∉ APPLICATION_JOSE_ALGS) as Hn by by_decide. done. }
  destruct alg as [|c alg]; [done|]. destruct kid as [|d kid]; [done|]. cbn [nonempty_text negb orb text_of]. change (has "crit" (written_header (c :: alg) (d :: kid) typ)) with false.
  change (member (lit "b64") (written_header (c :: alg) (d :: kid) typ)) with (None : option json). cbn [orb raise_if mbind result_bind]. by rewrite bool_decide_eq_true_2.
Qed.

(** C25 What is signed verifies: a payload that [create_jws] signs, with a provider
    whose signatures its key verifies, is returned by [verify_jws] together with
    the identity, for a verifier that resolves the signer's domain to a key set with
    that key; whatever text the key identifier is, JSON escapes included, as long as
    the token is within the limits. *)
Theorem created_jws_verifies `{Platform} {S R : Type} `{IdentityResolver S (VerifiedDomain R)} (env : http_env) (signer : JoseProfile) (path : list nat) (payload : bytes)
    (token : str) (provider : SigningProvider) (key : JWK) (kid domain : str) (cert : option TLSCertificate) (s s' : S) (vd : VerifiedDomain R)
    (Hpayload : is_bytes payload) (Hprovider : jp_key_provider signer = Some provider) (Hhonest : honest_signer provider key)
    (Hkid : jwk_kid key = JStr kid ∧ kid ≠ [] ∧ text_ok kid)
    (Hdomain : normalize_fqdn idna_encode (jp_domain signer) false = Ok domain ∧ 35 ∉ jp_domain signer ∧ text_ok (jp_domain signer))
    (Hcreated : create_jws signer payload = Ok token) (Hlimits : len token ≤ MAX_TOKEN ∧ len (List.hd [] (split 46 token)) ≤ 16384)
    (Hcheck : ∀ q, he_check env q = Ok ()) (Hresolve : ∀ q, resolve_domain q domain cert s = (s', Ok vd)) (Hjwks : key_by_id (JStr kid) (vd_jwks vd) = Some key) :
  verify_jws env path token cert s = (s', Ok (payload, vd)).
Proof.
  destruct Hhonest as [Hkey Hsign], Hkid as (Hkid & Hne & Hkt), Hdomain as (Hnorm & Hhash & Hdt). unfold create_jws, require_jose_provider in Hcreated. rewrite Hprovider in Hcreated.
  destruct (jp_domain signer ==? []) eqn:Ed; [done|]. cbn [raise_if mbind result_bind] in Hcreated. rewrite Hkey in Hcreated. cbn [mbind result_bind] in Hcreated. unfold kid_text in Hcreated. rewrite Hkid in Hcreated.
  cbn [mbind result_bind] in Hcreated. guard_step Hcreated as G. apply bool_decide_eq_false in G. bind_step Hcreated as alg Ha. bind_step Hcreated as header_text Hh. bind_step Hcreated as sig Hs. apply Ok_inj in Hcreated.
  destruct (Hsign _ _ Hs) as [Hsb Hv]. pose proof (signature_alg_allowed _ _ Ha) as Hallowed.
  assert (text_ok (jp_domain signer ++ [35] ++ kid)) as Htext by (apply Forall_app; split; [done|]; apply Forall_app; split; [by_decide|done]).
  destruct (header_roundtrip alg _ "jose" header_text Hallowed Htext ltac:(by_decide) Hh) as [Hhb Hdec].
  subst token. rewrite split_encoded in Hlimits by done. destruct Hlimits as [Hl1 Hl2]. cbn [List.hd] in Hl2.
  unfold verify_jws, within_budget, mbind, MM_bind, pure. rewrite Hcheck. unfold check_jws. rewrite compact_parts_encoded by done. cbn [mbind result_bind]. rewrite Hdec. cbn [mbind result_bind].
  rewrite header_valid by (done || by destruct (jp_domain signer)). cbn [mbind result_bind]. rewrite decode_encoded by done. cbn [mbind result_bind].
  change (get "kid" JNull (written_header alg (jp_domain signer ++ [35] ++ kid) "jose")) with (JStr (jp_domain signer ++ [35] ++ kid)).
  change (text_of (member (lit "kid") (written_header alg (jp_domain signer ++ [35] ++ kid) "jose"))) with (jp_domain signer ++ [35] ++ kid).
  assert (falsy (JStr (jp_domain signer ++ [35] ++ kid)) = false) as -> by (apply eqb_false; by destruct (jp_domain signer)). cbn [raise_if mbind result_bind].
  assert (parse_key_id idna_encode (jp_domain signer ++ [35] ++ kid) = Ok (domain, kid)) as ->.
  { apply parse_key_id_spec. exists (jp_domain signer). apply eqb_false in Ed. split_and!; done. }
  cbn [mbind result_bind].
  rewrite Hresolve. unfold finish_jws, token_key. rewrite Hjwks. change (text_of (member (lit "alg") (written_header alg (jp_domain signer ++ [35] ++ kid) "jose"))) with alg.
  rewrite bool_decide_eq_true_2 by done. cbn [negb raise_if mbind result_bind]. rewrite Ha. cbn [mbind result_bind]. rewrite eqb_refl. cbn [negb raise_if mbind result_bind].
  rewrite decode_encoded by done. cbn [mbind result_bind]. rewrite Hv. cbn [negb raise_if mbind result_bind]. by rewrite Hcheck.
Qed.

(** ** Concrete tokens *)
Definition toy_jose : JoseProfile := {| jp_key_provider := Some (toy_provider op1 op1_bytes); jp_domain := toy_domain; jp_config := default_jose_config |}.
Definition toy_audience : str := lit "peer.example.com".
Definition toy_options : JWTOptions := {| jo_audience := toy_audience; jo_expiry := None; jo_additional_claims := [(lit "scope", JList [JStr (lit "read"); JInt 3])] |}.
Definition or_text (r : res str) : str := match r with Ok t => t | Raise _ => [] end.
Definition toy_jwt : str := or_text (create_jwt toy_http_env (λ _, lit "00000000-0000-4000-8000-000000000000") toy_jose [] toy_options).
Definition toy_jws : str := or_text (create_jws toy_jose [0; 255; 46]).

#[local] Instance toy_jose_resolver : IdentityResolver toy_cache (VerifiedDomain log_binding) := manager_resolver active toy_policy 3 false.
Definition toy_jwt_verified (c : toy_cache) := verify_jwt toy_http_env toy_jose [1%nat] toy_jwt (Some toy_audience) (Some toy_cert) c.

Lemma jwt_sound_witness : ∃ vd iss, (toy_jwt_verified ∅).2 = Ok vd ∧ @rs_vouches _ _ _ (manager_resolver_spec active toy_policy 3 false) iss (Some toy_cert) vd.
Proof.
  destruct (is_Ok_true (toy_jwt_verified ∅).2) as [vd Hvd]; [vm_compute; reflexivity|].
  destruct (jwt_sound toy_http_env toy_jose [1%nat] toy_jwt (Some toy_audience) (Some toy_cert) ∅ (toy_jwt_verified ∅).1 vd)
    as (_ & header & claims & exp & a & b & c & sig & iss & _ & _ & Hvouch & _).
  - apply nothing_held.
  - rewrite <- Hvd. apply surjective_pairing.
  - exists vd, iss. split; [exact Hvd|exact Hvouch].
Defined.

Lemma created_jws_verifies_witness : ∃ vd, (toy_verified ∅).2 = Ok vd ∧
  verify_jws (H0 := fixed_resolver vd) toy_http_env [1%nat] toy_jws None () = ((), Ok ([0; 255; 46], vd)).
Proof.
  destruct (is_Ok_true (toy_verified ∅).2) as [vd Hvd]; [vm_compute; reflexivity|]. exists vd. split; [exact Hvd|].
  apply (created_jws_verifies (H0 := fixed_resolver vd) toy_http_env toy_jose [1%nat] [0; 255; 46] toy_jws (toy_provider op1 op1_bytes) op1 (lit "ku-1") toy_domain None () () vd); try reflexivity.
  - by_decide.
  - apply toy_signer_honest.
  - split_and!; [vm_compute; reflexivity|by_decide|by_decide].
  - split_and!; [vm_compute; reflexivity|by_decide|by_decide].
  - split; vm_compute; discriminate.
  - apply toy_identity_jwks, Hvd.
Defined.

(** Errors that are no verification errors: a token whose third segment is empty
    passes the check of its parts, is decoded strictly only after the issuer was
    resolved, and raises the [ValueError] of that decoding; and a token with a
    fractional [iat] and an [exp] beyond the range of doubles raises the
    [OverflowError] of their difference. *)
Definition raised {A} (r : res A) : option exn := match r with Ok _ => None | Raise e => Some e end.
Definition unsigned_jwt : str := match split 46 toy_jwt with [a; b; c] => compact (compact a b) [] | _ => [] end.
Definition huge_claims : list (str * json) :=
  [(lit "iss", JStr toy_domain); (lit "sub", JStr toy_domain); (lit "aud", JStr toy_audience); (lit "iat", JFloat (float_of_ratio 3 2)); (lit "exp", JInt (10 ^ 400))].
Definition segment (v : json) : str := b64url_encode (or_text (dumps v)) false.
Definition huge_jwt : str := compact (compact (segment (jose_header (lit "EdDSA") (JStr (lit "ku-1")) "JWT")) (segment (JDict huge_claims))) [].
Theorem jwt_errors_escape :
  raised (verify_jwt toy_http_env toy_jose [1%nat] unsigned_jwt (Some toy_audience) (Some toy_cert) (∅ : toy_cache)).2 = Some (ValueError (lit "not valid unpadded base64url"))
  ∧ raised (verify_jwt toy_http_env toy_jose [1%nat] huge_jwt (Some toy_audience) (Some toy_cert) (∅ : toy_cache)).2 = Some (OverflowError (lit "int too large to convert to float")).
Proof. split; vm_compute; reflexivity. Qed.
