(* ===== verification/Wba.v ===== *)
(** * Web Bot Auth ([dnsid/wba_signer.py] and [dnsid/wba_verifier.py])

    Requests signed with a key that a directory on the signer's host publishes,
    signs itself, and that has to be the current operational key of the signer's
    identity. *)
From S2P Require Import Prelude Sha256 Errors PyText Base64 Utils Lr ResourceFetcher PyFloat PyNum PyTime Canonical Keys TxtRecord Identity HttpsClient Manager Publication HttpModels HttpSignatures HttpProfile Jose.

(** ** Parameters *)

(** [str] of an [httpx.URL] without query and fragment, its path [/] when empty,
    and [email.utils.parsedate_to_datetime]. *)
Class WbaLib := { httpx_identifier : str → res str; parsedate_to_datetime : str → res datetime }.

(** [RefreshingIdentityResolver] *)
Class RefreshingIdentityResolver (S V : Type) := {
  #[global] rr_resolver :: IdentityResolver S V;
  refresh_identity : list nat → str → option TLSCertificate → MM S V
}.

Definition WBA_TAG : str := lit "web-bot-auth".
Definition WBA_DIRECTORY_TAG : str := lit "http-message-signatures-directory".
Definition WBA_DIRECTORY_MEDIA_TYPE : str := lit "application/http-message-signatures-directory+json".
Definition WBA_DIRECTORY_WELL_KNOWN_PATH : str := lit "/.well-known/http-message-signatures-directory".
Definition DEFAULT_LABEL : str := lit "sig1".

(** ** Configuration *)
Definition finite_num (v : num) : bool := bool_decide (is_Some (exact v)).
Definition integral (v : num) : bool := match exact v with Some (n, d) => n mod d =? 0 | None => false end.
Definition validate_ttl (ttl : num) : res unit :=
  raise_if (negb (finite_num ttl) || negb (num_le (NInt 1) ttl && num_le ttl (NInt 300)) || negb (integral ttl))
    (ArgumentError (lit "Web Bot Auth TTL must be an integer between 1 and 300 seconds")).

Record WebBotAuthConfig : Set := {
  wc_directory_url : str;
  wc_signature_agent_uri : str;
  wc_signature_agent_type : str;
  wc_signature_ttl : num;
  wc_include_signature_agent : bool;
  wc_directory_signature_ttl : num;
  wc_clock_skew : num
}.
Definition check_wba_config (c : WebBotAuthConfig) : res unit :=
  raise_if (negb (wc_include_signature_agent c)) (ArgumentError (lit "Web Bot Auth requires Signature-Agent")) ;;
  raise_if (negb ((wc_signature_agent_type c ==? lit "directory") || (wc_signature_agent_type c ==? lit "jwks_uri")))
    (ArgumentError (lit "Web Bot Auth discovery type must be directory or jwks_uri")) ;;
  validate_ttl (wc_signature_ttl c) ;;
  validate_ttl (wc_directory_signature_ttl c) ;;
  raise_if (negb (finite_num (wc_clock_skew c)) || num_lt (wc_clock_skew c) (NInt 0))
    (ArgumentError (lit "Web Bot Auth clock_skew must be finite and non-negative")).
Definition default_wba_config : WebBotAuthConfig :=
  {| wc_directory_url := []; wc_signature_agent_uri := []; wc_signature_agent_type := lit "directory"; wc_signature_ttl := NInt 60;
     wc_include_signature_agent := true; wc_directory_signature_ttl := NInt 300; wc_clock_skew := NInt 5 |}.

(** ** URLs *)
Definition unreserved (c : Z) : bool := is_alnum c || existsb (Z.eqb c) (lit "-._~").
Definition upper_char (c : Z) : Z := if is_lower c then c - 32 else c.
(** [re.sub(r"%[0-9a-fA-F]{2}", normalize_escape, uri)] *)
Fixpoint normalize_escapes (s : str) : str :=
  match s with
  | 37 :: ((a :: b :: s') as rest) =>
      if is_hex a && is_hex b then
        let c := 16 * hex_value a + hex_value b in
        (if unreserved c then [c] else [37; upper_char a; upper_char b]) ++ normalize_escapes s'
      else 37 :: normalize_escapes rest
  | c :: s => c :: normalize_escapes s
  | [] => []
  end.

Section wba.
Context `{Platform, HttpPlatform, StructuredFields, WbaLib, Zlib}.

Definition wba_identifier (uri : str) : res str := httpx_identifier (normalize_escapes uri).

Definition is_https_origin (uri : str) : res bool :=
  parsed ← urlsplit netloc_ok uri;
  let host := default [] (hostname str_lower (url_netloc parsed)) in
  let host := if bool_decide (58 ∈ host) then [91] ++ host ++ [93] else host in
  p ← port (url_netloc parsed);
  let suffix := match p with None => [] | Some n => if n =? 443 then [] else [58] ++ str_of_int n end in
  Ok (negb (host ==? []) && forallb is_ascii uri && (uri ==? lit "https://" ++ host ++ suffix)).

Definition reject (msg : string) : exn := vfail SIGNATURE_INVALID msg.

(** [_directory_url] *)
Definition directory_url (uri discovery_type : str) : res str :=
  '(parsed, host) ← try_except
    (parsed ← urlsplit netloc_ok uri;
     port (url_netloc parsed) ;;
     host ← normalize_fqdn idna_encode (default [] (hostname str_lower (url_netloc parsed))) false;
     Ok (parsed, host))
    (λ e, match e with ValueError _ | ValidationError _ => Raise (vfail TLS_ERROR "invalid discovery URI") | e => Raise e end);
  full ← (if discovery_type ==? lit "directory" then
            origin ← is_https_origin uri;
            raise_if (negb origin) (reject "Signature-Agent directory URI must be an ASCII HTTPS origin") ;;
            Ok (uri ++ WBA_DIRECTORY_WELL_KNOWN_PATH)
          else
            raise_if (negb (discovery_type ==? lit "jwks_uri")) (reject "unsupported Signature-Agent discovery type") ;;
            Ok uri);
  raise_if (has_credentials (url_netloc parsed)) (reject "Signature-Agent credentials are forbidden") ;;
  assert_same_host_https_redirect full host false ;;
  Ok full.

(** ** Signing *)
Record wba_signer : Type := {
  wg_provider : SigningProvider;
  wg_domain : str;
  wg_config : WebBotAuthConfig;
  wg_directory_url : str;
  wg_label : str;
  wg_expires_in : num
}.

(** [a or b or c] on strings. *)
Definition first_text (l : list str) : str := default [] (List.find (λ s, negb (s ==? [])) l).

(** [WBAHttpSigner.__init__] *)
Definition init_signer (provider : SigningProvider) (domain : str) (config : option WebBotAuthConfig) (signature_agent : option str) (ku_url label : str)
    (expires_in_seconds : option num) : res wba_signer :=
  domain ← normalize_fqdn idna_encode domain false;
  let config := default default_wba_config config in
  check_wba_config config ;;
  let url := first_text [default [] signature_agent; wc_signature_agent_uri config; wc_directory_url config; lit "https://" ++ domain] in
  parsed ← try_except
    (parsed ← urlsplit netloc_ok url;
     port (url_netloc parsed) ;;
     (if (wc_signature_agent_type config ==? lit "jwks_uri") && negb (ku_url ==? []) then
        a ← wba_identifier url; b ← wba_identifier ku_url;
        raise_if (a ==? b) (ArgumentError (lit "Web Bot Auth discovery must not identify local ku"))
      else Ok ()) ;;
     Ok parsed)
    (λ e, match e with ValueError _ | HttpxError _ _ => Raise (ArgumentError (lit "invalid Web Bot Auth Signature-Agent URI")) | e => Raise e end);
  raise_if (negb (url_scheme parsed ==? lit "https") || (default [] (hostname str_lower (url_netloc parsed)) ==? []) || has_credentials (url_netloc parsed))
    (ArgumentError (lit "Web Bot Auth Signature-Agent must be https")) ;;
  (if wc_signature_agent_type config ==? lit "directory" then
     origin ← is_https_origin url; raise_if (negb origin) (ArgumentError (lit "Web Bot Auth directory URI must be an ASCII HTTPS origin"))
   else raise_if (negb (url_fragment parsed ==? [])) (ArgumentError (lit "Web Bot Auth jwks_uri must not contain a fragment"))) ;;
  let expires_in := default (wc_signature_ttl config) expires_in_seconds in
  validate_ttl expires_in ;;
  Ok {| wg_provider := provider; wg_domain := domain; wg_config := config; wg_directory_url := url; wg_label := label; wg_expires_in := expires_in |}.

Inductive WBAVariant : Set := ACTIVE_SIG | REVOKED_SIG | KEY_MISMATCH | NO_SIG | TAMPERED | EXPIRED_SIG.
#[global] Instance WBAVariant_eq_dec : EqDecision WBAVariant.
Proof. solve_decision. Defined.

Record WebBotAuthSigningOptions : Set := { wo_additional_components : list str; wo_signature_agent : option bool; wo_ttl : option num }.

(** [_replace_signature_agent_member] *)
Definition replace_signature_agent_member (header label uri discovery_type : str) : res str :=
  quoted ← sf_ser_bare (SfString uri);
  '(members, replacement) ← try_except
    (members ← (if header ==? [] then Ok [] else parse_sf_dictionary header false);
     replacement ← parse_sf_dictionary (label ++ [61] ++ quoted ++ lit ";type=" ++ discovery_type) false;
     Ok (members, replacement))
    (λ e, if is_value_error e then Raise (ArgumentError (lit "malformed Signature-Agent dictionary")) else Raise e);
  match dict_get label replacement with
  | None => Raise (KeyError label)
  | Some m => sf_ser_dictionary (dict_set label m members)
  end.

(** A copy of the public part of the provider's key. *)
Definition public_signing_key (provider : SigningProvider) : res JWK :=
  key ← sp_signing_key provider; Ok (jwk_of_members (public_members (jwk_raw key))).

Definition agent_component (label : str) : str := lit "signature-agent;key=" ++ [34] ++ label ++ [34].

(** The components of a request: its authority, the digest of a body and the
    covered member of [Signature-Agent]. *)
Definition wba_components (req : HttpRequest) (label : str) (additional : list str) : list str :=
  foldl add_component ([lit "@authority"] ++ (if hr_body req then [lit "content-digest"] else []) ++ [agent_component label]) additional.

Section signing.
Context (env : http_env) (urandom64 : list nat → bytes) (other_sign : list nat → bytes → res bytes) (signer : wba_signer).

Definition wba_params (path : list nat) (expired : bool) (ttl : Z) (key_id alg : str) (components : list str) : SignatureParams :=
  let t := now_ts env (0 :: path)%nat in
  {| sp_label := wg_label signer; sp_key_id := key_id; sp_alg := alg; sp_created := Some (if expired then t - ttl - 60 else t);
     sp_expires := Some (if expired then t - 60 else t + ttl); sp_nonce := b64url_encode (urandom64 (1 :: path)%nat) false; sp_components := components;
     sp_tag := Some WBA_TAG; sp_parameters := [] |}.

(** The names of components that signing itself replaces. *)
Fixpoint nested_component (components : list str) : res bool :=
  match components with
  | [] => Ok false
  | c :: components =>
      '(n, _) ← component_structure c;
      if (n ==? lit "signature") || (n ==? lit "signature-input") then Ok true else nested_component components
  end.

(** [WBAHttpSigner.sign] *)
Definition sign (path : list nat) (variant : WBAVariant) (opts : WebBotAuthSigningOptions) : MM HttpRequest unit :=
  if bool_decide (variant = NO_SIG) then mret ()
  else
    pure (raise_if (bool_decide (wo_signature_agent opts = Some false)) (ArgumentError (lit "Web Bot Auth requires Signature-Agent"))) ;;
    let ttl := default (wg_expires_in signer) (wo_ttl opts) in
    pure (validate_ttl ttl) ;;
    let ttl := int_of_num ttl in
    signing_key ← pure (public_signing_key (wg_provider signer));
    alg ← pure (signature_alg signing_key);
    pure (raise_if (negb (alg ==? lit "EdDSA")) (ArgumentError (lit "Web Bot Auth signing requires Ed25519"))) ;;
    update (λ r, Ok match hr_body r with Some body => set_header r (lit "content-digest") (digest_field body) | None => r end) ;;
    update (λ r, t ← replace_signature_agent_member (get_header r (lit "signature-agent")) (wg_label signer) (wg_directory_url signer)
                       (wc_signature_agent_type (wg_config signer));
                 Ok (set_header r (lit "signature-agent") t)) ;;
    req ← get_request;
    let components := wba_components req (wg_label signer) (wo_additional_components opts) in
    pure (try_except
            (validate_component_identifiers components (Some false) ;;
             nested ← nested_component components;
             raise_if nested (ArgumentError (lit "Web Bot Auth nested signing is unsupported")))
            (λ e, if is_verification e then Raise (ArgumentError (lit "unknown signature component")) else Raise e)) ;;
    key_id ← pure (thumbprint signing_key);
    http_alg ← pure (jose_alg_to_http_sig_alg alg);
    let params := wba_params path (bool_decide (variant = EXPIRED_SIG)) ttl key_id http_alg components in
    base ← pure (build_signature_base req params None);
    sig_bytes ← (if bool_decide (variant = KEY_MISMATCH) then pure (other_sign (2 :: path)%nat base)
                 else
                   sig ← pure (sp_sign (wg_provider signer) base);
                   valid ← pure (jwk_verify signing_key base sig);
                   pure (raise_if (negb valid) (ArgumentError (lit "Web Bot Auth signing key changed during signing"))) ;;
                   mret sig);
    update (λ r, t ← serialize_params params; Ok (set_header r (lit "signature-input") t)) ;;
    update (λ r, Ok (set_header r (lit "signature") (byte_member (wg_label signer) sig_bytes))) ;;
    update (λ r, Ok (if bool_decide (variant = TAMPERED) then with_body r (Some (default [] (hr_body r) ++ lit "-tampered")) else r)).
End signing.

(** ** Serving a directory *)
Definition wba_directory_jwk (signing_key : JWK) : res (list (str * json)) :=
  alg ← signature_alg signing_key;
  raise_if (negb (alg ==? lit "EdDSA")) (ArgumentError (lit "Web Bot Auth directory keys require Ed25519")) ;;
  let text name := JStr (py_str (get name (JStr []) (jwk_raw signing_key))) in
  kid ← thumbprint signing_key;
  http_alg ← jose_alg_to_http_sig_alg (lit "EdDSA");
  Ok [(lit "kty", text "kty"%string); (lit "crv", text "crv"%string); (lit "x", text "x"%string); (lit "kid", JStr kid); (lit "alg", JStr http_alg); (lit "use", JStr (lit "sig"))].

Definition DIRECTORY_COMPONENTS : list str := lit <$> ["@authority;req"; "content-type"; "cache-control"; "content-digest"]%string.

Definition serve_http_message_signatures_directory (env : http_env) (urandom64 : list nat → bytes) (path : list nat) (req : HttpRequest)
    (provider : SigningProvider) (config : option WebBotAuthConfig) : res HttpRequest :=
  let cfg := default default_wba_config config in
  check_wba_config cfg ;;
  signing_key ← public_signing_key provider;
  alg ← signature_alg signing_key;
  raise_if (negb (alg ==? lit "EdDSA")) (ArgumentError (lit "Web Bot Auth directory signing requires Ed25519")) ;;
  directory_key ← wba_directory_jwk signing_key;
  body ← dumps (JDict [(lit "keys", JList [JDict directory_key])]);
  let ttl := int_of_num (wc_directory_signature_ttl cfg) in
  let backdate := Z.min 5 (ttl - 1) in
  let headers := [(lit "content-type", WBA_DIRECTORY_MEDIA_TYPE); (lit "cache-control", lit "max-age=" ++ str_of_int (ttl - backdate) ++ lit ", must-revalidate");
                  (lit "content-digest", digest_field body)] in
  let created := now_ts env (0 :: path)%nat - backdate in
  key_id ← thumbprint signing_key;
  http_alg ← jose_alg_to_http_sig_alg alg;
  let params := {| sp_label := DEFAULT_LABEL; sp_key_id := key_id; sp_alg := http_alg; sp_created := Some created; sp_expires := Some (created + ttl);
                   sp_nonce := b64url_encode (urandom64 (1 :: path)%nat) false; sp_components := DIRECTORY_COMPONENTS; sp_tag := Some WBA_DIRECTORY_TAG;
                   sp_parameters := [] |} in
  let response := {| hr_method := hr_method req; hr_url := hr_url req; hr_headers := headers; hr_body := Some body; hr_status := Some 200 |} in
  base ← build_signature_base response params (Some req);
  sig ← sp_sign provider base;
  valid ← jwk_verify signing_key base sig;
  raise_if (negb valid) (ArgumentError (lit "Web Bot Auth directory signing key changed during signing")) ;;
  raise_if (num_le (NInt (created + ttl)) (seconds_of (he_clock env (2 :: path)%nat))) (ArgumentError (lit "directory signature expired during signing")) ;;
  input ← serialize_params params;
  Ok (with_headers response (headers ++ [(lit "signature-input", input); (lit "signature", byte_member DEFAULT_LABEL sig)])).
End wba.
