(* ===== verification/WbaVerifier.v ===== *)
(** * Verification of Web Bot Auth requests ([dnsid/wba_verifier.py])

    The request, the directory that is fetched for it, and the identity of the
    signer.  Fetching is a parameter: [stream path url] is the answer to the one
    request; the deadlines of refreshes are the state of the verifier, next to
    that of its resolver. *)
From S2P Require Import Prelude Sha256 Errors PyText Base64 Utils Lr ResourceFetcher PyFloat PyNum PyTime Canonical Keys TxtRecord Identity HttpsClient Manager Publication HttpModels HttpSignatures HttpProfile Jose Wba.

(** ** Options *)
Record WebBotAuthVerificationOptions : Type := {
  wv_signer_domain : str;
  wv_discovery_uri : str;
  wv_discovery_type : str;
  wv_allow_signature_agent_domain : bool;
  wv_peer_cert : option TLSCertificate;
  wv_timeout : num;
  wv_replay_policy : option (list nat → str → str → str → Z → res bool);
  wv_required_components : list str
}.

(** An answer: status and body as they are read, [dict(response.headers)] and the
    URL of the request. *)
Record directory_exchange : Set := { dx_response : http_response; dx_headers : list (str * str); dx_url : str }.

(** ** Freshness of a directory *)
Definition is_tchar (c : Z) : bool := is_alnum c || existsb (Z.eqb c) (lit "!#$%&'*+.^_`|~-").

(** The rest after a quoted string whose opening quote was read. *)
Fixpoint quoted_value (s : str) : option str :=
  match s with
  | [] => None
  | c :: s =>
      if c =? 34 then Some s
      else if (c =? 13) || (c =? 10) then None
      else if c =? 92 then
        match s with
        | d :: s => if (d =? 13) || (d =? 10) then None else quoted_value s
        | [] => None
        end
      else quoted_value s
  end.
Definition skip_space (s : str) : str := lstrip is_space s.

(** A directive: its name, its value and what follows the comma. *)
Definition directive (s : str) : option (str * option str * str) :=
  let s := skip_space s in
  let name := take_while is_tchar s in
  if name ==? [] then None
  else
    let s := skip_space (drop (length name) s) in
    '(value, s) ← match s with
                  | 61 :: s =>
                      let s := skip_space s in
                      match s with
                      | 34 :: s' => rest ← quoted_value s'; Some (Some (take (length s - length rest) s), rest)
                      | _ => let v := take_while is_tchar s in if v ==? [] then None else Some (Some v, drop (length v) s)
                      end
                  | _ => Some (None, s)
                  end;
    match skip_space s with
    | [] => Some (name, value, [])
    | 44 :: rest => Some (name, value, rest)
    | _ => None
    end.

Definition all_digits (s : str) : bool := negb (s ==? []) && forallb is_digit s.
(** [int(text)] of decimal digits. *)
Definition int_text (s : str) : res Z :=
  raise_if (int_max_str_digits <? len s) (ValueError (lit "Exceeds the limit for integer string conversion")) ;; Ok (int_of_digits s).

Definition num_max (a b : num) : num := if num_lt a b then b else a.

(** [math.ceil] *)
Definition num_ceil (a : num) : res Z :=
  match exact a with
  | Some (n, d) => Ok (- ((- n) / d))
  | None => Raise (match a with NFloat NaN => ValueError (lit "cannot convert float NaN to integer") | _ => OverflowError (lit "cannot convert float infinity to integer") end)
  end.

Section verifier.
Context `{Platform, HttpPlatform, StructuredFields, WbaLib, Zlib}.

(** [max-age]; every directive consumes a character. *)
Fixpoint max_age_of (fuel : nat) (control : str) (max_age : option Z) : res (option Z) :=
  match control, fuel with
  | [], _ => Ok max_age
  | _, O => Raise (reject "invalid directory cache control")
  | _, S fuel =>
      match directive control with
      | None => Raise (reject "invalid directory cache control")
      | Some (name, value, rest) =>
          max_age ← (if str_lower name ==? lit "max-age" then
                       raise_if (bool_decide (is_Some max_age) || negb (all_digits (default [] value))) (reject "invalid directory max-age") ;;
                       n ← int_text (default [] value);
                       raise_if (2 ^ 64 <=? n) (reject "invalid directory max-age") ;;
                       Ok (Some n)
                     else Ok max_age);
          max_age_of fuel rest max_age
      end
  end.

Definition directory_freshness (headers : list (str * str)) (started received : num) : res (option num) :=
  let header name := default [] (dict_get (lit name) headers) in
  let control := strip is_space (header "cache-control"%string) in
  max_age ← max_age_of (length control) control None;
  let raw_age := header "age"%string in
  upstream_age ← (if raw_age ==? [] then Ok 0
                  else
                    raise_if (negb (all_digits raw_age)) (reject "invalid directory age") ;;
                    n ← int_text raw_age;
                    raise_if (2 ^ 31 <=? n) (reject "invalid directory age") ;;
                    Ok n);
  waited ← num_sub received started;
  age ← num_add (NInt upstream_age) (num_max (NInt 0) waited);
  age ← match parsedate_to_datetime (header "date"%string) with
        | Ok date => since ← num_sub received (seconds_of (dt_wall date - default 0 (dt_utcoffset date))); Ok (num_max age since)
        | Raise e => match e with ValueError _ | TypeError _ | OverflowError _ => Ok age | e => Raise e end
        end;
  match max_age with
  | None => Ok None
  | Some n =>
      if (n =? 0) && (upstream_age =? 0) then Ok None
      else
        until ← num_add received (NInt (Z.min n (2 ^ 31)));
        deadline ← num_sub until age;
        raise_if (num_le deadline received) (reject "HTTP-stale directory") ;;
        Ok (Some deadline)
  end.

(** ** The directory document *)

(** Nesting of brackets outside strings. *)
Fixpoint nesting_ok (depth : Z) (quoted escaped : bool) (body : bytes) : bool :=
  match body with
  | [] => true
  | byte :: body =>
      if quoted then
        if escaped then nesting_ok depth true false body
        else if byte =? 92 then nesting_ok depth true true body
        else nesting_ok depth (negb (byte =? 34)) false body
      else if byte =? 34 then nesting_ok depth true escaped body
      else if (byte =? 91) || (byte =? 123) then (depth + 1 <=? 16) && nesting_ok (depth + 1) false escaped body
      else if (byte =? 93) || (byte =? 125) then nesting_ok (depth - 1) false escaped body
      else nesting_ok depth false escaped body
  end.

(** [json.loads] without hooks: the last of equal members counts. *)
Definition python_hooks : json_hooks := {|
  parse_constant := python_constant;
  object_pairs_hook pairs := Ok (foldl (λ d kv, dict_set kv.1 kv.2 d) [] pairs)
|}.

Definition bounded_json (body : bytes) : res (list json) :=
  raise_if (negb (nesting_ok 0 false false body)) (reject "directory JSON depth exceeded") ;;
  data ← try_except (text ← utf8_decode body; loads python_hooks text)
    (λ e, if is_value_error e then Raise (vfail RECORD_INVALID "invalid directory JSON") else Raise e);
  match data with
  | JDict d =>
      match member (lit "keys") d with
      | Some (JList keys) =>
          raise_if (negb ((1 <=? len keys) && (len keys <=? 32))) (reject "directory key count limit exceeded") ;; Ok keys
      | _ => Raise (reject "directory must contain a JWKS key array")
      end
  | _ => Raise (reject "directory must contain a JWKS key array")
  end.

(** 43 characters of the base64url alphabet, in canonical form. *)
Definition thumbprint_shape (s : str) : bool := (len s =? 43) && forallb is_b64url s.
Definition canonical_b64 (s : str) : res bool := decoded ← b64url_decode s; Ok (b64url_encode decoded false ==? s).

Definition key_ops_ok (v : json) : bool :=
  match v with
  | JList ops =>
      forallb (λ o, match o with JStr s => (s ==? lit "sign") || (s ==? lit "verify") | _ => false end) ops
      && existsb (is_str "verify") ops && bool_decide (NoDup (map (λ o, text_of (Some o)) ops))
  | _ => false
  end.

(** A key of the directory, its private part absent; [None] when the key is not
    the named one. *)
Definition directory_key (key_id : str) (raw : json) : res (option JWK) :=
  let invalid := reject "invalid public directory JWK" in
  match raw with
  | JDict d =>
      raise_if (negb (is_str "OKP" (get "kty" JNull d)) || negb (is_str "Ed25519" (get "crv" JNull d)) || has "d" d
                || negb (is_str "ed25519" (get "alg" (JStr (lit "ed25519")) d)) || negb (is_str "sig" (get "use" (JStr (lit "sig")) d))) invalid ;;
      match member (lit "x") d with
      | Some (JStr x) =>
          raise_if (negb (thumbprint_shape x)) invalid ;;
          canonical ← canonical_b64 x;
          raise_if (negb canonical) invalid
      | _ => Raise invalid
      end ;;
      raise_if (match member (lit "key_ops") d with Some v => negb (key_ops_ok v) | None => false end) (reject "invalid directory JWK key_ops") ;;
      let key := jwk_of_members (dict_set (lit "alg") (JStr (lit "EdDSA")) d) in
      t ← thumbprint key;
      raise_if (negb (match member (lit "kid") d with Some v => py_eq (JStr t) v | None => false end)) (reject "directory kid does not match its thumbprint") ;;
      Ok (if t ==? key_id then Some key else None)
  | _ => Raise invalid
  end.

(** The keys of the document that have the name. *)
Definition matching_key (key_id : str) (keys : list json) : res JWK :=
  found ← mapM_res (directory_key key_id) keys;
  match omap id found with
  | [key] => Ok key
  | _ => Raise (reject "expected exactly one matching directory key")
  end.

(** ** Signatures and times *)
Definition header_octets (r : HttpRequest) : Z := foldr (λ h n, len h.1 + len h.2 + n) 0 (hr_headers r).

Definition wba_signatures (message : HttpRequest) (tag : str) : res (list (SignatureParams * bytes)) :=
  raise_if ((65536 <? header_octets message) || match hr_body message with Some b => MAX_BODY <? len b | None => false end) (reject "WBA input limit exceeded") ;;
  let inputs := get_header message (lit "signature-input") in
  let signatures := get_header message (lit "signature") in
  raise_if ((inputs ==? []) || (signatures ==? [])) (reject "missing WBA signature fields") ;;
  params ← parse_dictionary inputs;
  raw ← parse_signature_dictionary signatures;
  raise_if ((16 <? len params) || (16 <? len raw) || existsb (λ p, 64 <? len (sp_components p)) params)
    (reject "WBA signature count or component limit exceeded") ;;
  Ok (omap (λ p, match dict_get (sp_label p) raw with
                 | Some sig => if bool_decide (sp_tag p = Some tag) then Some (p, sig) else None
                 | None => None
                 end) params).

Context (env : http_env) (config : WebBotAuthConfig).

(** [_check_time] *)
Definition check_time (path : list nat) (params : SignatureParams) (directory : bool) : res unit :=
  let now := seconds_of (he_clock env path) in
  let invalid := reject "invalid WBA timestamps, algorithm, or thumbprint" in
  match sp_created params, sp_expires params with
  | Some created, Some expires =>
      raise_if (negb ((0 <=? expires - created) && (expires - created <=? 300))) invalid ;;
      latest ← num_add now (if directory then NInt 0 else wc_clock_skew config);
      raise_if (num_lt latest (NInt created)) invalid ;;
      last ← num_add (NInt expires) (wc_clock_skew config);
      raise_if (num_lt last now || negb (sp_alg params ==? lit "ed25519") || negb (thumbprint_shape (sp_key_id params))) invalid ;;
      canonical ← canonical_b64 (sp_key_id params);
      raise_if (negb canonical) invalid
  | _, _ => Raise invalid
  end.

(** The members of [Signature-Agent] that the signature covers on their own. *)
Fixpoint covered_agents (components : list str) : res (list bare_item) :=
  match components with
  | [] => Ok []
  | c :: components =>
      '(name, ps) ← component_structure c;
      rest ← covered_agents components;
      Ok (match ps with [(k, v)] => if (name ==? lit "signature-agent") && (k ==? lit "key") then v :: rest else rest | _ => rest end)
  end.

(** The discovery URI and its kind. *)
Definition agent_member (req : HttpRequest) (key : bare_item) : res (str * str) :=
  let invalid := vfail RECORD_INVALID "invalid Signature-Agent member" in
  dictionary ← try_except (parse_sf_dictionary (get_header req (lit "signature-agent")) false) (λ e, if is_value_error e then Raise invalid else Raise e);
  match key with
  | SfString k =>
      match dict_get k dictionary with
      | Some (SfItem (SfString uri) ps) =>
          match dict_get (lit "type") ps with
          | None => Ok (uri, lit "directory")
          | Some (SfToken kind) => Ok (uri, kind)
          | Some _ => Raise invalid
          end
      | _ => Raise invalid
      end
  | _ => Raise invalid
  end.

(** What the request itself has to show: its signature, the base it signs and the
    URL of the directory, on the host of the signer. *)
Definition check_wba_request (path : list nat) (req : HttpRequest) (opts : WebBotAuthVerificationOptions)
    : res (SignatureParams * bytes * bytes * str * str) :=
  try_except (validate_component_identifiers (wv_required_components opts) (Some false))
    (λ e, if is_verification e then Raise (ArgumentError (lit "invalid required_components policy")) else Raise e) ;;
  candidates ← wba_signatures req WBA_TAG;
  match candidates with
  | [(params, signature)] =>
      check_time path params false ;;
      raise_if (negb (bool_decide (lit "@authority" ∈ sp_components params))) (reject "WBA request requires exact @authority coverage") ;;
      covered ← mapM_res component_structure (sp_components params);
      complete ← covers_all covered (wv_required_components opts);
      raise_if (negb complete) (reject "WBA request missing required component coverage") ;;
      check_content_digest req params ;;
      request_base ← build_signature_base req params None;
      raise_if (negb (has_header req (lit "signature-agent"))) (reject "missing required Signature-Agent") ;;
      selected ← covered_agents (sp_components params);
      match selected with
      | [key] =>
          '(uri, kind) ← agent_member req key;
          url ← directory_url uri kind;
          (if wv_discovery_uri opts ==? [] then Ok ()
           else
             a ← wba_identifier url;
             trusted ← directory_url (wv_discovery_uri opts) (wv_discovery_type opts);
             b ← wba_identifier trusted;
             raise_if (negb (a ==? b)) (reject "Signature-Agent does not match trusted discovery URI")) ;;
          parsed ← urlsplit netloc_ok url;
          host ← normalize_fqdn idna_encode (default [] (hostname str_lower (url_netloc parsed))) false;
          raise_if ((wv_signer_domain opts ==? []) && negb (wv_allow_signature_agent_domain opts)) (reject "Signature-Agent signer discovery is not permitted") ;;
          domain ← (if wv_signer_domain opts ==? [] then Ok host else normalize_fqdn idna_encode (wv_signer_domain opts) false);
          raise_if (negb (domain ==? host)) (reject "cross-host WBA delegation is unsupported") ;;
          Ok (params, signature, request_base, url, domain)
      | _ => Raise (reject "Signature-Agent requires exactly one covered member")
      end
  | _ => Raise (reject "expected exactly one complete WBA request signature")
  end.

(** ** Fetching the directory *)
Context (stream : list nat → str → res directory_exchange) (permanent : exn → bool).

Definition without_coding (r : http_response) : http_response :=
  {| hr_is_redirect := hr_is_redirect r; hr_status_code := hr_status_code r; hr_content_length := hr_content_length r; hr_content_encoding := None;
     hr_is_stream_consumed := hr_is_stream_consumed r; hr_chunks := hr_chunks r; hr_failure := hr_failure r |}.

(** [_fetch]: the request and the response as messages, and the end of freshness. *)
Definition fetch_directory (path : list nat) (url domain : str) : res (HttpRequest * HttpRequest * option num) :=
  try_except
    (assert_same_host_https_redirect url domain false ;;
     let started := seconds_of (he_clock env (0 :: path)%nat) in
     he_check env (1 :: path)%nat ;;
     x ← stream (2 :: path)%nat url;
     let status := hr_status_code (dx_response x) in
     raise_if (negb (status =? 200))
       (VerificationError TLS_ERROR (lit "directory response must have status 200") ((500 <=? status) || (status =? 429)) None) ;;
     raise_if (bool_decide (is_Some (dict_get (lit "content-encoding") (dx_headers x)))) (reject "compressed directory responses are forbidden") ;;
     expiry ← directory_freshness (dx_headers x) started (seconds_of (he_clock env (3 :: path)%nat));
     body ← read_limited (he_check env) (4 :: path)%nat (without_coding (dx_response x)) (1024 * 1024) RECORD_INVALID;
     Ok ({| hr_method := lit "GET"; hr_url := dx_url x; hr_headers := []; hr_body := None; hr_status := None |},
         {| hr_method := lit "GET"; hr_url := url; hr_headers := dx_headers x; hr_body := Some body; hr_status := Some status |}, expiry))
    (λ e, if is_transport_error e then Raise (VerificationError TLS_ERROR (lit "directory fetch failed") (negb (permanent e)) None) else Raise e).

(** [content-type] up to a semicolon. *)
Definition media_type (r : HttpRequest) : str := str_lower (strip is_space (take_while (λ c, negb (c =? 59)) (get_header r (lit "content-type")))).

(** The directory vouches, with its own signature, for the key that signed the
    request. *)
Definition check_directory (path : list nat) (params : SignatureParams) (request_base signature : bytes) (directory_request response : HttpRequest)
    : res (JWK * SignatureParams) :=
  raise_if (negb (media_type response ==? WBA_DIRECTORY_MEDIA_TYPE)) (reject "invalid directory media type") ;;
  keys ← bounded_json (default [] (hr_body response));
  key ← matching_key (sp_key_id params) keys;
  signatures ← wba_signatures response WBA_DIRECTORY_TAG;
  match List.filter (λ c, sp_key_id c.1 ==? sp_key_id params) signatures with
  | [(directory_params, directory_signature)] =>
      check_time path directory_params true ;;
      raise_if (negb (forallb (λ c, bool_decide (c ∈ sp_components directory_params)) DIRECTORY_COMPONENTS)) (reject "directory signature missing required coverage") ;;
      check_content_digest response directory_params ;;
      base ← build_signature_base response directory_params (Some directory_request);
      valid ← jwk_verify key base directory_signature;
      raise_if (negb valid) (reject "invalid directory signature") ;;
      valid ← jwk_verify key request_base signature;
      raise_if (negb valid) (reject "invalid WBA request signature") ;;
      Ok (key, directory_params)
  | _ => Raise (reject "expected exactly one matching directory signature")
  end.

(** ** Verification *)
Section resolution.
Context {S R : Type} `{RefreshingIdentityResolver S (VerifiedDomain R)} (monotonic : list nat → Z).

(** The state of the resolver and, for each domain, when a refresh is allowed
    again; [None] while one runs. *)
Record wba_state : Type := { ws_resolver : S; ws_refresh : gmap str (option Z) }.
Abbreviation M := (MM wba_state).
Definition lift {A} (m : MM S A) : M A := λ s,
  let '(r, o) := m (ws_resolver s) in ({| ws_resolver := r; ws_refresh := ws_refresh s |}, o).
Definition put_refresh (f : gmap str (option Z) → gmap str (option Z)) (s : wba_state) : wba_state :=
  {| ws_resolver := ws_resolver s; ws_refresh := f (ws_refresh s) |}.

Definition current_key (verified : VerifiedDomain R) (domain url key_id : str) : res bool :=
  raise_if (negb (vd_domain verified ==? domain)) (reject "DNSid resolver returned a different signer domain") ;;
  a ← wba_identifier url;
  b ← wba_identifier (rec_ku (vd_record verified));
  raise_if (a ==? b) (reject "WBA discovery must not identify the authenticated ku endpoint") ;;
  key ← current_operational_signing_key (rec_v (vd_record verified)) (vd_jwks verified);
  alg ← signature_alg key;
  if alg ==? lit "EdDSA" then t ← thumbprint key; Ok (t ==? key_id) else Ok false.

(** [_refresh]: one attempt a domain, and then none for five seconds. *)
Definition refresh_identity_once (path : list nat) (domain : str) (peer_cert : option TLSCertificate) : M (VerifiedDomain R) := λ s,
  match he_check env (0 :: path)%nat with
  | Raise e => (s, Raise e)
  | Ok _ =>
      let now := monotonic (1 :: path)%nat in
      let pending := filter (λ kv, match kv.2 with Some deadline => now <? deadline | None => true end = true) (ws_refresh s) in
      let s := put_refresh (λ _, pending) s in
      if bool_decide (is_Some (pending !! domain)) || (1024 <=? size pending)%nat
      then (s, Raise (reject "WBA ku signing key mismatch refresh suppressed"))
      else
        let '(s, o) := lift (refresh_identity (2 :: path)%nat domain peer_cert) (put_refresh <[domain := None]> s) in
        (put_refresh <[domain := Some (now + 5 * second_us)]> s, o)
  end.

(** [_final_check] *)
Definition final_check (path : list nat) (params directory : SignatureParams) (verified : VerifiedDomain R) (directory_expiry : option num) : res unit :=
  he_check env (0 :: path)%nat ;;
  raise_if (match directory_expiry with Some e => num_le e (seconds_of (he_clock env (1 :: path)%nat)) | None => false end) (reject "HTTP-stale directory") ;;
  check_time (2 :: path)%nat params false ;;
  check_time (3 :: path)%nat directory true ;;
  require_fresh_evidence_at (utc (he_clock env (4 :: path)%nat)) true verified.

(** The identity whose current key signed, refreshed once when it differs. *)
Definition identify (path : list nat) (domain url : str) (peer_cert : option TLSCertificate) (params directory : SignatureParams) (expiry : option num)
    : M (VerifiedDomain R) :=
  verified ← lift (resolve_domain (0 :: path)%nat domain peer_cert);
  pure (final_check (1 :: path)%nat params directory verified expiry) ;;
  current ← pure (current_key verified domain url (sp_key_id params));
  if current : bool then mret verified
  else
    verified ← refresh_identity_once (2 :: path)%nat domain peer_cert;
    current ← pure (current_key verified domain url (sp_key_id params));
    pure (raise_if (negb current) (reject "WBA key is not the verified current DNSid ku signing key")) ;;
    pure (final_check (3 :: path)%nat params directory verified expiry) ;;
    mret verified.

Definition check_replay (path : list nat) (opts : WebBotAuthVerificationOptions) (domain : str) (params directory : SignatureParams)
    (verified : VerifiedDomain R) (expiry : option num) : res unit :=
  match wv_replay_policy opts with
  | None => Ok ()
  | Some policy =>
      raise_if (sp_nonce params ==? []) (reject "replay policy requires a non-empty nonce") ;;
      match sp_expires params with
      | None => Raise (reject "replay policy requires an expiry")
      | Some expires =>
          accepted ← try_except (last ← num_add (NInt expires) (wc_clock_skew config);
                                 retain_until ← num_ceil last;
                                 policy (0 :: path)%nat domain (sp_key_id params) (sp_nonce params) retain_until)
            (λ _, Raise (VerificationError SIGNATURE_INVALID (lit "WBA replay store failed") true None));
          raise_if (negb accepted) (reject "WBA nonce replay rejected") ;;
          final_check (1 :: path)%nat params directory verified expiry
      end
  end.

(** [_verify] *)
Definition verify_request (path : list nat) (req : HttpRequest) (opts : WebBotAuthVerificationOptions) : M (VerifiedDomain R) :=
  '(params, signature, request_base, url, domain) ← pure (check_wba_request (0 :: path)%nat req opts);
  '(directory_request, response, expiry) ← pure (fetch_directory (1 :: path)%nat url domain);
  '(key, directory) ← pure (check_directory (2 :: path)%nat params request_base signature directory_request response);
  verified ← identify (3 :: path)%nat domain url (wv_peer_cert opts) params directory expiry;
  pure (check_replay (4 :: path)%nat opts domain params directory verified expiry) ;;
  mret verified.

Definition catch {A} (m : M A) (handler : exn → res A) : M A := λ s,
  match m s with (s, Ok a) => (s, Ok a) | (s, Raise e) => (s, handler e) end.

Definition verify_web_bot_auth_signed_request (closed : bool) (path : list nat) (req : HttpRequest) (opts : WebBotAuthVerificationOptions)
    : M (VerifiedDomain R) :=
  pure (raise_if closed (RuntimeError (lit "WBA verifier is closed"))) ;;
  pure (raise_if (negb (finite_num (wv_timeout opts)) || num_le (wv_timeout opts) (NInt 0))
          (ArgumentError (lit "verification timeout must be a finite positive number"))) ;;
  pure (he_check env (0 :: path)%nat) ;;
  verified ← catch (verify_request (1 :: path)%nat req opts)
    (λ e, match e with ParseError _ | ValidationError _ | ValueError _ => Raise (vfail RECORD_INVALID "invalid WBA evidence") | e => Raise e end);
  pure (he_check env (2 :: path)%nat) ;;
  mret verified.
End resolution.
End verifier.

(** [IdentityManager] is a [RefreshingIdentityResolver]. *)
Definition manager_refreshing `{Platform, PyLib, Zlib} (env : environment) (cfg : VerificationConfig) (rounds : nat) (closed : bool) {C}
    `{IdentityCache C (VerifiedDomain log_binding)} : RefreshingIdentityResolver C (VerifiedDomain log_binding) := {|
  rr_resolver := manager_resolver env cfg rounds closed;
  refresh_identity path domain cert := refresh_domain env cfg rounds path closed domain cert
|}.
