(* ===== verification/WbaSpec.v ===== *)
(** * What a verified Web Bot Auth request rests on *)
From S2P Require Import Prelude Sha256 Errors PyText Base64 Utils SignedNote Lr ResourceFetcher PyFloat PyTime Canonical PyNum Keys LifecycleDemo TxtRecord Identity HttpsClient Manager ManagerSpec Publication PublicationSpec ManagerDemo HttpModels HttpSignatures HttpProfile HttpSpec HttpRoundtrip HttpDemo Jose Wba WbaVerifier.

(** A refreshing resolver vouches for what either operation returns. *)
Class RefreshingSpec (S V : Type) `{!RefreshingIdentityResolver S V} := {
  #[global] rf_resolver :: ResolverSpec S V;
  refresh_sound path domain cert s s' r : rs_inv s → refresh_identity path domain cert s = (s', r) →
    rs_inv s' ∧ ∀ v, r = Ok v → rs_vouches domain cert v
}.

Definition manager_refreshing_spec `{Platform, PyLib, Zlib} (env : environment) (cfg : VerificationConfig) (rounds : nat) (closed : bool)
    {C : Type} `{CacheSpec C (VerifiedDomain log_binding) usable} : @RefreshingSpec C _ (manager_refreshing env cfg rounds closed).
Proof.
  refine (@Build_RefreshingSpec C _ (manager_refreshing env cfg rounds closed) (manager_resolver_spec env cfg rounds closed) _). intros path domain cert s s' r Hs Hx.
  eapply keeping_bounded in Hx; [|apply keeping_verify|exact Hs]. destruct Hx as [Hs' Hv]. split; [exact Hs'|].
  intros v Hr. destruct (Hv v Hr) as (name & Hn & Ha). by exists name, (1 :: 4 :: 1 :: path)%nat.
Defined.

Section requests.
Context `{Platform, HttpPlatform, StructuredFields, WbaLib, Zlib} (env : http_env) (config : WebBotAuthConfig).

(** What the request shows by itself. *)
Record request_shown (req : HttpRequest) (opts : WebBotAuthVerificationOptions) (params : SignatureParams) (sig base : bytes) (url domain : str) : Prop := {
  rq_only : wba_signatures req WBA_TAG = Ok [(params, sig)];
  rq_authority : lit "@authority" ∈ sp_components params;
  rq_required : Forall (covers (sp_components params)) (wv_required_components opts);
  rq_content : content_bound req params;
  rq_base : build_signature_base req params None = Ok base;
  rq_agent : ∃ key uri kind, covered_agents (sp_components params) = Ok [key] ∧ agent_member req key = Ok (uri, kind) ∧ directory_url uri kind = Ok url;
  rq_host : ∃ parsed, urlsplit netloc_ok url = Ok parsed ∧ normalize_fqdn idna_encode (default [] (hostname str_lower (url_netloc parsed))) false = Ok domain;
  rq_signer : if wv_signer_domain opts ==? [] then wv_allow_signature_agent_domain opts = true
              else normalize_fqdn idna_encode (wv_signer_domain opts) false = Ok domain
}.

Lemma check_wba_request_Ok `{!SfTokens} path req opts params sig base url domain : check_wba_request env config path req opts = Ok (params, sig, base, url, domain) →
  request_shown req opts params sig base url domain ∧ check_time env config path params false = Ok ().
Proof.
  unfold check_wba_request. intros Hx. apply bind_unit_Ok in Hx as [_ Hx]. bind_step Hx as candidates Hc. destruct candidates as [|[p sg] [|]]; try done.
  apply bind_unit_Ok in Hx as [Ht Hx]. guard_step Hx as G1. bind_step Hx as covered Hcov. bind_step Hx as complete Hcomp. guard_step Hx as G2. apply bind_unit_Ok in Hx as [Hd Hx].
  bind_step Hx as b Hb. guard_step Hx as G3. bind_step Hx as selected Hsel. destruct selected as [|key [|]]; try done.
  destruct (agent_member req key) as [[uri kind]|e] eqn:Ea; [|done]. cbn [mbind result_bind] in Hx. bind_step Hx as u Hu. apply bind_unit_Ok in Hx as [_ Hx].
  bind_step Hx as parsed Hp. bind_step Hx as host Hh. guard_step Hx as G4. bind_step Hx as dom Hdom. guard_step Hx as G5. apply Ok_inj in Hx. injection Hx as -> -> -> -> ->.
  apply negb_false_iff in G1, G2, G5. apply bool_decide_eq_true in G1. rewrite eqb_true in G5. subst complete host. split; [|done]. split; try done.
  - by eapply covers_all_Ok.
  - by apply check_content_digest_Ok.
  - by exists key, uri, kind.
  - by exists parsed.
  - destruct (wv_signer_domain opts ==? []); [|done]. cbn [andb] in G4. by apply negb_false_iff in G4.
Qed.

(** ** The directory *)
Lemma directory_key_Ok key_id raw key : directory_key key_id raw = Ok (Some key) → thumbprint key = Ok key_id.
Proof.
  unfold directory_key. destruct raw; try done. intros Hx. guard_step Hx as G1. apply bind_unit_Ok in Hx as [_ Hx]. guard_step Hx as G2. bind_step Hx as t Ht. guard_step Hx as G3.
  destruct (t ==? key_id) eqn:E; [|done]. apply Ok_inj in Hx. injection Hx as <-. rewrite eqb_true in E. by subst.
Qed.
Lemma matching_key_Ok key_id keys key : matching_key key_id keys = Ok key → thumbprint key = Ok key_id ∧ ∃ raw, raw ∈ keys ∧ directory_key key_id raw = Ok (Some key).
Proof.
  unfold matching_key. intros Hx. bind_step Hx as found Hf. apply mapM_res_Ok in Hf. destruct (omap id found) as [|k [|]] eqn:Eo; try done. apply Ok_inj in Hx. subst k.
  assert (key ∈ omap id found) as Hin by (rewrite Eo; by left). apply list_elem_of_omap in Hin as (o & Hin & Ho). cbn in Ho. subst o.
  apply list_elem_of_lookup in Hin as [i Hi]. destruct (Forall2_lookup_r _ _ _ _ _ Hf Hi) as (raw & Hraw & Hk). split; [by eapply directory_key_Ok|].
  exists raw. split; [by eapply list_elem_of_lookup_2|done].
Qed.

(** The directory, and the key it vouches for. *)
Record directory_shown (params : SignatureParams) (base sig : bytes) (dreq resp : HttpRequest) (key : JWK) (dparams : SignatureParams) : Prop := {
  ds_key : thumbprint key = Ok (sp_key_id params) ∧ ∃ keys raw, bounded_json (default [] (hr_body resp)) = Ok keys ∧ raw ∈ keys ∧ directory_key (sp_key_id params) raw = Ok (Some key);
  ds_self : ∃ signatures dsig dbase, wba_signatures resp WBA_DIRECTORY_TAG = Ok signatures ∧ (dparams, dsig) ∈ signatures
              ∧ sp_key_id dparams = sp_key_id params ∧ build_signature_base resp dparams (Some dreq) = Ok dbase ∧ jwk_verify key dbase dsig = Ok true;
  ds_coverage : Forall (λ c, c ∈ sp_components dparams) DIRECTORY_COMPONENTS;
  ds_content : content_bound resp dparams;
  ds_request : jwk_verify key base sig = Ok true
}.

Lemma check_directory_Ok `{!SfTokens} path params base sig dreq resp key dparams : check_directory env config path params base sig dreq resp = Ok (key, dparams) →
  directory_shown params base sig dreq resp key dparams.
Proof.
  unfold check_directory. intros Hx. guard_step Hx as G1. bind_step Hx as keys Hk. bind_step Hx as k Hm. bind_step Hx as signatures Hs.
  destruct (List.filter _ signatures) as [|[dp dsig] [|]] eqn:Ef; try done. apply bind_unit_Ok in Hx as [_ Hx]. guard_step Hx as G2. apply bind_unit_Ok in Hx as [Hd Hx]. bind_step Hx as dbase Hb.
  bind_step Hx as valid Hv. destruct valid; [|done]. cbn [negb raise_if mbind result_bind] in Hx. bind_step Hx as valid' Hv'. destruct valid'; [|done].
  cbn [negb raise_if mbind result_bind] in Hx. apply Ok_inj in Hx. injection Hx as -> ->. destruct (matching_key_Ok _ _ _ Hm) as (Ht & raw & Hin & Hraw).
  assert (In (dparams, dsig) (List.filter (λ c : SignatureParams * bytes, sp_key_id c.1 ==? sp_key_id params) signatures)) as Hf by (rewrite Ef; by left).
  apply filter_In in Hf as [Hf Hid]. cbn in Hid. rewrite eqb_true in Hid. split.
  - split; [done|]. by exists keys, raw.
  - exists signatures, dsig, dbase. split_and!; [done|by apply list_elem_of_In|done|done|done].
  - apply negb_false_iff in G2. rewrite forallb_forall in G2. apply Forall_forall. intros c Hc. apply list_elem_of_In, G2 in Hc. by apply bool_decide_eq_true in Hc.
  - by apply check_content_digest_Ok.
  - done.
Qed.

(** A directory is fetched, with status 200 and without coding, from the host it
    was found on. *)
Definition fetched (stream : list nat → str → res directory_exchange) (url domain : str) (dreq resp : HttpRequest) : Prop :=
  assert_same_host_https_redirect url domain false = Ok () ∧ hr_status resp = Some 200 ∧
  ∃ p x, stream p url = Ok x ∧ hr_url dreq = dx_url x ∧ hr_headers resp = dx_headers x ∧ dict_get (lit "content-encoding") (dx_headers x) = None.
Lemma fetch_directory_Ok stream permanent path url domain dreq resp expiry : fetch_directory env stream permanent path url domain = Ok (dreq, resp, expiry) →
  fetched stream url domain dreq resp.
Proof.
  unfold fetch_directory. intros Hx. destruct (mbind _ _) as [[[a b] c]|e] eqn:E in Hx; [|cbn in Hx; by destruct (is_transport_error e)]. apply Ok_inj in Hx. injection Hx as -> -> ->.
  apply bind_unit_Ok in E as [Hh E]. apply bind_unit_Ok in E as [_ E]. bind_step E as x Hs. guard_step E as G1. guard_step E as G2. bind_step E as ex He. bind_step E as body Hb.
  apply Ok_inj in E. injection E as <- <- <-. apply negb_false_iff, Z.eqb_eq in G1. apply bool_decide_eq_false in G2. split_and!; [done|by cbn; rewrite G1|].
  eexists _, x. split_and!; [exact Hs|done|done|]. destruct (dict_get _ _); [|done]. exfalso. apply G2. by eexists.
Qed.
End requests.

(** ** Identities *)
Section identities.
Context `{Platform, HttpPlatform, StructuredFields, WbaLib, Zlib} (env : http_env) (config : WebBotAuthConfig).
Context {S R : Type} `{RefreshingSpec S (VerifiedDomain R)} (monotonic : list nat → Z).

(** The current operational key of an identity has the thumbprint, and discovery
    did not lead to the key set itself. *)
Definition current_for (vd : VerifiedDomain R) (domain url key_id : str) : Prop :=
  vd_domain vd = domain ∧ (∃ a b, wba_identifier url = Ok a ∧ wba_identifier (rec_ku (vd_record vd)) = Ok b ∧ a ≠ b) ∧
  ∃ key, current_operational_signing_key (rec_v (vd_record vd)) (vd_jwks vd) = Ok key ∧ signature_alg key = Ok (lit "EdDSA") ∧ thumbprint key = Ok key_id.

Lemma current_key_Ok vd domain url key_id : current_key vd domain url key_id = Ok true → current_for vd domain url key_id.
Proof.
  unfold current_key. intros Hx. guard_step Hx as G1. bind_step Hx as a Ha. bind_step Hx as b Hb. guard_step Hx as G2. bind_step Hx as key Hk. bind_step Hx as alg Halg.
  destruct (alg ==? lit "EdDSA") eqn:E; [|done]. bind_step Hx as t Ht. apply Ok_inj in Hx. rewrite eqb_true in Hx, E. subst t alg. apply negb_false_iff in G1. rewrite eqb_true in G1. apply eqb_false in G2.
  split_and!; [done|by exists a, b|by exists key].
Qed.

Lemma refresh_once_sound path domain cert s s' r : rs_inv (ws_resolver s) → refresh_identity_once env monotonic path domain cert s = (s', r) →
  rs_inv (ws_resolver s') ∧ ∀ v, r = Ok v → rs_vouches domain cert v.
Proof.
  intros Hs. unfold refresh_identity_once. destruct (he_check env _) as [u|e]; [|by intros [= <- <-]]. destruct (_ || _); [by intros [= <- <-]|].
  unfold lift. destruct (refresh_identity _ domain cert _) as [s1 o] eqn:E. cbn [ws_resolver put_refresh] in E. intros [= <- <-]. cbn [ws_resolver put_refresh]. by eapply refresh_sound.
Qed.

(** The last check of times and evidence. *)
Definition finally (params directory : SignatureParams) (vd : VerifiedDomain R) (expiry : option num) : Prop :=
  ∃ path, final_check env config path params directory vd expiry = Ok ().

Lemma identify_sound path domain url cert params directory expiry s s' vd : rs_inv (ws_resolver s) →
  identify env config monotonic path domain url cert params directory expiry s = (s', Ok vd) →
  rs_inv (ws_resolver s') ∧ rs_vouches domain cert vd ∧ current_for vd domain url (sp_key_id params) ∧ finally params directory vd expiry.
Proof.
  intros Hs. unfold identify, mbind, MM_bind, pure, mret, MM_ret. unfold lift at 1.
  destruct (resolve_domain _ domain cert (ws_resolver s)) as [s1 [v|e]] eqn:Er; [|done]. destruct (resolve_sound _ _ _ _ _ _ Hs Er) as [Hs1 Hv].
  destruct (final_check _ _ (1 :: path)%nat _ _ v _) as [[]|e] eqn:Ef; [|done]. destruct (current_key v domain url _) as [[]|e] eqn:Ec; [| |done].
  - intros [= <- <-]. split_and!; [done|by apply Hv|by apply current_key_Ok|by eexists].
  - destruct (refresh_identity_once _ _ _ domain cert _) as [s2 [w|e]] eqn:Ew; [|done].
    destruct (refresh_once_sound _ _ _ {| ws_resolver := s1; ws_refresh := ws_refresh s |} _ _ Hs1 Ew) as [Hs2 Hw].
    destruct (current_key w domain url _) as [[]|e] eqn:Ec'; [| |done]; cbn [negb raise_if]; [|done].
    destruct (final_check _ _ (3 :: path)%nat _ _ w _) as [[]|e] eqn:Ef'; [|done]. intros [= <- <-].
    split_and!; [done|by apply Hw|by apply current_key_Ok|by eexists].
Qed.
End identities.


(** ** Refreshes *)
Section refreshes.
Context `{Platform, HttpPlatform, StructuredFields, WbaLib, Zlib} (env : http_env) (config : WebBotAuthConfig).
Context {S R : Type} `{!RefreshingIdentityResolver S (VerifiedDomain R)} (monotonic : list nat → Z).
Implicit Types s : wba_state (S:=S).

Definition bounded_refreshes s : Prop := (size (ws_refresh s) ≤ 1024)%nat.
Definition keeps_bound {A} (m : MM (wba_state (S:=S)) A) : Prop := ∀ s, bounded_refreshes s → bounded_refreshes (m s).1.

Lemma keeps_bound_pure {A} (r : res A) : keeps_bound (pure r).
Proof. by intros s Hs. Qed.
Lemma keeps_bound_bind {A B} (m : MM wba_state A) (k : A → MM wba_state B) : keeps_bound m → (∀ a, keeps_bound (k a)) → keeps_bound (m ≫= k).
Proof. intros Hm Hk s Hs. unfold mbind, MM_bind. specialize (Hm s Hs). destruct (m s) as [s1 [a|e]]; [by apply Hk|done]. Qed.
Lemma keeps_bound_lift {A} (m : MM S A) : keeps_bound (lift m).
Proof. intros s Hs. unfold lift. by destruct (m (ws_resolver s)). Qed.
Lemma keeps_bound_ret {A} (a : A) : keeps_bound (mret a).
Proof. by intros s Hs. Qed.

(** Domains whose refresh runs or ended less than five seconds ago. *)
Definition suppressed (now : Z) (domain : str) s : Prop := ∃ d, ws_refresh s !! domain = Some d ∧ ∀ deadline, d = Some deadline → now < deadline.

Lemma keeps_bound_refresh path domain cert : keeps_bound (refresh_identity_once env monotonic path domain cert).
Proof.
  intros s Hs. unfold refresh_identity_once. destruct (he_check env _) as [u|e]; [|done]. set (pending := filter _ (ws_refresh s)).
  assert (size pending ≤ size (ws_refresh s))%nat as Hp by (apply map_subseteq_size, map_filter_subseteq).
  destruct (bool_decide_reflect (is_Some (pending !! domain))) as [Hin|Hnin]; cbn [orb]; [unfold bounded_refreshes in *; cbn; lia|].
  destruct (Nat.leb_spec 1024 (size pending)); [unfold bounded_refreshes in *; cbn; lia|]. unfold lift. destruct (refresh_identity _ domain cert _) as [r o].
  unfold bounded_refreshes. cbn [fst ws_refresh put_refresh]. rewrite insert_insert. rewrite decide_True by done. rewrite map_size_insert_None; [lia|]. by apply eq_None_not_Some.
Qed.

Lemma keeps_bound_request stream permanent path req opts : keeps_bound (verify_request env config stream permanent monotonic path req opts).
Proof.
  unfold verify_request. apply keeps_bound_bind; [apply keeps_bound_pure|]. intros [[[[params sig] base] url] domain]. apply keeps_bound_bind; [apply keeps_bound_pure|]. intros [[dreq resp] expiry].
  apply keeps_bound_bind; [apply keeps_bound_pure|]. intros [key directory]. apply keeps_bound_bind; [|intros v; apply keeps_bound_bind; [apply keeps_bound_pure|intros _; apply keeps_bound_ret]].
  unfold identify. apply keeps_bound_bind; [apply keeps_bound_lift|]. intros v. apply keeps_bound_bind; [apply keeps_bound_pure|]. intros _. apply keeps_bound_bind; [apply keeps_bound_pure|].
  intros [|]; [apply keeps_bound_ret|]. apply keeps_bound_bind; [apply keeps_bound_refresh|]. intros w. repeat (apply keeps_bound_bind; [apply keeps_bound_pure|intros ?]). apply keeps_bound_ret.
Qed.

Lemma keeps_bound_catch {A} (m : MM wba_state A) handler : keeps_bound m → keeps_bound (catch m handler).
Proof. intros Hm s Hs. unfold catch. specialize (Hm s Hs). by destruct (m s) as [s1 [a|e]]. Qed.

(** A domain survives the expiry of deadlines exactly when it is suppressed. *)
Lemma pending_suppressed now domain s :
  is_Some (filter (λ kv : str * option Z, match kv.2 with Some deadline => now <? deadline | None => true end = true) (ws_refresh s) !! domain) ↔ suppressed now domain s.
Proof.
  unfold suppressed. split.
  - intros [d Hd]. apply map_lookup_filter_Some in Hd as [Hd Hp]. exists d. split; [done|]. intros deadline ->. cbn in Hp. lia.
  - intros (d & Hd & Hp). exists d. apply map_lookup_filter_Some. split; [done|]. destruct d as [deadline|]; [|done]. cbn. specialize (Hp _ eq_refl). lia.
Qed.
End refreshes.

(** C34 Refreshes of identities are rationed: no verification lets the table of
    refreshed domains grow beyond 1024 entries; a refresh of a domain that is being
    refreshed, or was within the last five seconds, is refused without the resolver
    being asked; and one that is not refused, whether it succeeds or fails, closes
    its domain for five seconds. *)
Theorem refreshes_rationed `{Platform, HttpPlatform, StructuredFields, WbaLib, Zlib} {S R : Type} `{!RefreshingIdentityResolver S (VerifiedDomain R)} (env : http_env)
    (config : WebBotAuthConfig) (stream : list nat → str → res directory_exchange) (permanent : exn → bool) (monotonic : list nat → Z) :
  (∀ closed path req opts (s : wba_state (S:=S)), bounded_refreshes s →
     bounded_refreshes (verify_web_bot_auth_signed_request env config stream permanent monotonic closed path req opts s).1)
  ∧ (∀ path domain cert (s : wba_state (S:=S)), he_check env (0 :: path)%nat = Ok () →
       let now := monotonic (1 :: path)%nat in let s' := (refresh_identity_once env monotonic path domain cert s).1 in
       suppressed now domain s ∧ ws_resolver s' = ws_resolver s ∧ is_Ok (refresh_identity_once env monotonic path domain cert s).2 = false
       ∨ ws_resolver s' = ws_resolver s ∧ (size (ws_refresh s) ≥ 1024)%nat ∧ is_Ok (refresh_identity_once env monotonic path domain cert s).2 = false
       ∨ ~ suppressed now domain s ∧ ws_refresh s' !! domain = Some (Some (now + 5 * second_us))).
Proof.
  split.
  - intros closed path req opts. change (keeps_bound (verify_web_bot_auth_signed_request env config stream permanent monotonic closed path req opts)).
    unfold verify_web_bot_auth_signed_request. do 3 (apply keeps_bound_bind; [apply keeps_bound_pure|intros _]).
    apply keeps_bound_bind; [apply keeps_bound_catch, keeps_bound_request|]. intros v. apply keeps_bound_bind; [apply keeps_bound_pure|intros _; apply keeps_bound_ret].
  - intros path domain cert s Hc. pose proof (pending_suppressed (monotonic (1 :: path)%nat) domain s) as Hsup. unfold refresh_identity_once. rewrite Hc. cbv zeta in *.
    set (pending := filter _ (ws_refresh s)) in *. assert (size pending ≤ size (ws_refresh s))%nat as Hp by (apply map_subseteq_size, map_filter_subseteq).
    destruct (bool_decide_reflect (is_Some (pending !! domain))) as [Hin|Hnin]; cbn [orb]; [left; split_and!; [by apply Hsup|done|done]|].
    destruct (Nat.leb_spec 1024 (size pending)); [right; left; cbn; split_and!; [done|lia|done]|]. right; right. split; [by rewrite <- Hsup|].
    unfold lift. destruct (refresh_identity _ domain cert _) as [r o]. cbn. by rewrite lookup_insert_eq.
Qed.

(** ** A concrete Web Bot Auth request *)
#[export] Instance toy_wba_lib : WbaLib := {| httpx_identifier u := Ok u; parsedate_to_datetime _ := Raise (ValueError (lit "Invalid date value")) |}.

(** The signer and its request. *)
Definition or_signer (r : res wba_signer) : wba_signer :=
  match r with
  | Ok s => s
  | Raise _ => {| wg_provider := toy_provider op1 op1_bytes; wg_domain := []; wg_config := default_wba_config; wg_directory_url := []; wg_label := []; wg_expires_in := NInt 0 |}
  end.
Definition toy_bot : wba_signer := or_signer (init_signer (toy_provider op1 op1_bytes) toy_domain None None [] DEFAULT_LABEL None).
Definition random64 (_ : list nat) : bytes := replicate 64 6.
Definition toy_bot_signing : WebBotAuthSigningOptions := {| wo_additional_components := [lit "@method"]; wo_signature_agent := None; wo_ttl := None |}.
Definition bot_signed (variant : WBAVariant) := sign toy_http_env random64 (λ _ base, Ok (toy_sign op2_bytes base)) toy_bot [] variant toy_bot_signing toy_request.

(** The directory it serves. *)
Definition toy_directory_url : str := lit "https://agent.example.com" ++ WBA_DIRECTORY_WELL_KNOWN_PATH.
Definition toy_directory_request : HttpRequest := {| hr_method := lit "GET"; hr_url := toy_directory_url; hr_headers := []; hr_body := None; hr_status := None |}.
Definition toy_directory : res HttpRequest := serve_http_message_signatures_directory toy_http_env random64 [] toy_directory_request (toy_provider op1 op1_bytes) None.
Definition toy_directory_stream (_ : list nat) (url : str) : res directory_exchange :=
  if url ==? toy_directory_url then
    r ← toy_directory;
    Ok {| dx_response := {| hr_is_redirect := false; hr_status_code := 200; hr_content_length := None; hr_content_encoding := None; hr_is_stream_consumed := false;
                            hr_chunks := [default [] (hr_body r)]; hr_failure := None |};
          dx_headers := hr_headers r; dx_url := url |}
  else Raise (HttpxError HConnect (lit "not found")).

(** The verifier, with a replay policy. *)
Definition toy_replay (_ : list nat) (domain key_id nonce : str) (until : Z) : res bool := Ok (until <? 1700000066).
Definition toy_wba_options : WebBotAuthVerificationOptions :=
  {| wv_signer_domain := toy_domain; wv_discovery_uri := []; wv_discovery_type := lit "directory"; wv_allow_signature_agent_domain := false; wv_peer_cert := Some toy_cert;
     wv_timeout := NInt 30; wv_replay_policy := Some toy_replay; wv_required_components := [lit "@method"] |}.
#[local] Instance toy_refreshing : RefreshingIdentityResolver toy_cache (VerifiedDomain log_binding) := manager_refreshing active toy_policy 3 false.
#[local] Instance toy_refreshing_spec : RefreshingSpec toy_cache (VerifiedDomain log_binding) := manager_refreshing_spec active toy_policy 3 false.
Definition fresh_verifier : wba_state (S:=toy_cache) := {| ws_resolver := ∅; ws_refresh := ∅ |}.
Definition bot_verified (req : HttpRequest) :=
  verify_web_bot_auth_signed_request toy_http_env default_wba_config toy_directory_stream (λ _, false) (λ _, 0) false [1%nat] req toy_wba_options fresh_verifier.



(** What the test variants of the signer break is what the verifier reports. *)
Definition bot_error (variant : WBAVariant) : option exn := match (bot_verified (bot_signed variant).1).2 with Ok _ => None | Raise e => Some e end.
Example bot_variants : map bot_error [ACTIVE_SIG; KEY_MISMATCH; TAMPERED; EXPIRED_SIG; NO_SIG] =
  [None; Some (reject "invalid WBA request signature"); Some (reject "Content-Digest does not match content");
   Some (reject "invalid WBA timestamps, algorithm, or thumbprint"); Some (reject "missing WBA signature fields")].
Proof. vm_compute. reflexivity. Qed.
