(* ===== verification/Oidc.v ===== *)
(** * OIDC federation ([dnsid/oidc.py])

    Assertions signed for an issuer, the discovery of issuers, the exchange of
    assertions for tokens, and the verification of issued tokens back to an
    identity.  The HTTP clients are parameters: what a client answers to a request
    is a response whose decoded chunks are given; which client serves a request and
    with which time limits is not told apart. *)
From S2P Require Import Prelude Errors PyText Base64 Utils Lr ResourceFetcher PyFloat PyNum PyTime Canonical Keys TxtRecord Identity HttpsClient Manager Publication HttpSignatures HttpProfile Jose.

(** [ipaddress.ip_address(host).is_loopback], false when it raises [ValueError]. *)
Class OidcLib := { ip_is_loopback : str → bool }.

(** ** Configuration and options *)
Record OIDCConfig : Set := {
  oc_default_scope : str;
  oc_assertion_lifetime : Z;
  oc_max_assertion_lifetime : Z;
  oc_clock_skew : Z;
  oc_allowed_issuers : list str;
  oc_allowed_token_algorithms : list str;
  oc_allow_http_loopback_issuer : bool;
  oc_default_issuer : str;
  oc_default_server_url : str;
  oc_default_discovery_url : str;
  oc_default_token_endpoint : str
}.
Definition default_oidc_config : OIDCConfig :=
  {| oc_default_scope := lit "openid"; oc_assertion_lifetime := 300 * second_us; oc_max_assertion_lifetime := 900 * second_us;
     oc_clock_skew := 30 * second_us; oc_allowed_issuers := []; oc_allowed_token_algorithms := [lit "RS256"];
     oc_allow_http_loopback_issuer := false; oc_default_issuer := []; oc_default_server_url := []; oc_default_discovery_url := [];
     oc_default_token_endpoint := [] |}.

Record OIDCAssertionOptions : Set := { oa_issuer : str; oa_expiry : option Z; oa_additional_claims : list (str * json) }.

(** [str | list[str]] *)
Inductive oidc_scope : Set := ScopeText (s : str) | ScopeList (l : list str).
Record OIDCTokenExchangeOptions : Set := {
  ox_issuer : str;
  ox_audience : str;
  ox_scope : oidc_scope;
  ox_assertion : str;
  ox_server_url : str;
  ox_discovery_url : str;
  ox_token_endpoint : str;
  ox_assertion_expiry : option Z
}.
Record OIDCDiscoveryDocument : Set := { od_issuer : str; od_token_endpoint : str; od_jwks_uri : str; od_raw : list (str * json) }.
Record OIDCTokenResponse : Set := {
  ot_access_token : str;
  ot_token_type : str;
  ot_id_token : str;
  ot_expires_in : option json;
  ot_scope : str;
  ot_raw : list (str * json);
  ot_issuer : str;
  ot_token_endpoint : str;
  ot_audience : str;
  ot_requested_scope : str;
  ot_assertion_issued_at : option datetime;
  ot_assertion_expires_at : option datetime
}.
Record VerifyOIDCTokenOptions : Set := { vo_issuer : str; vo_audience : str; vo_verify_dnsid_subject : bool }.
Record VerifiedOIDCSubject (R : Type) : Type := {
  os_issuer : str;
  os_subject : str;
  os_audience : str;
  os_verified_domain : option (VerifiedDomain R);
  os_claims : list (str * json)
}.
Arguments os_issuer {R} _.
Arguments os_subject {R} _.
Arguments os_audience {R} _.
Arguments os_verified_domain {R} _.
Arguments os_claims {R} _.

Record OIDCProfile : Type := { op_key_provider : option SigningProvider; op_domain : str; op_config : OIDCConfig }.

(** A response: its chunks as [iter_bytes] yields them, and the error that ends
    them, if any. *)
Record oidc_response : Set := { or_is_redirect : bool; or_status_code : Z; or_chunks : list bytes; or_failure : option exn }.

Definition JWT_RESERVED : list str := lit <$> ["iss"; "sub"; "aud"; "iat"; "exp"; "jti"; "fqdn"]%string.
Definition MAX_BODY_BYTES : Z := 1024 * 1024.
Definition first_non_empty (a b : str) : str := if a ==? [] then b else a.

(** ** URLs *)

(** The schemes whose paths have parameters, and [urlparse]: the parameters and
    what [urlsplit] returns, with the path without them. *)
Definition uses_params : list str :=
  lit <$> [""; "ftp"; "hdl"; "prospero"; "http"; "https"; "shttp"; "rtsp"; "rtsps"; "rtspu"; "sip"; "sips"; "mms"; "sftp"; "tel"]%string.
Definition splitparams (path : str) : str * str :=
  let '(dir, slash, base) := rpartition_at 47 path in
  let '(name, semicolon, params) := partition_at 59 base in
  if semicolon : bool then (dir ++ (if slash : bool then [47] else []) ++ name, params) else (path, []).
Definition with_path (p : SplitResult) (path : str) : SplitResult :=
  {| url_scheme := url_scheme p; url_netloc := url_netloc p; url_path := path; url_query := url_query p; url_fragment := url_fragment p |}.

Section urls.
Context `{Platform, OidcLib}.

Definition urlparse (raw : str) : res (SplitResult * str) :=
  p ← urlsplit netloc_ok raw;
  Ok (if bool_decide (url_scheme p ∈ uses_params) then let '(path, params) := splitparams (url_path p) in (with_path p path, params) else (p, [])).
Definition url_host (p : SplitResult) : str := default [] (hostname str_lower (url_netloc p)).

Definition is_loopback_host (host : str) : bool :=
  bool_decide (host ∈ [lit "localhost"; lit "127.0.0.1"; lit "::1"]) || ip_is_loopback host.
Definition loopback_http_host (url : str) : res (option str) :=
  '(p, _) ← urlparse url;
  Ok (if (url_scheme p ==? lit "http") && is_loopback_host (url_host p) then Some (url_host p) else None).

(** The condition that is common to issuers, base URLs and endpoints. *)
Definition malformed_url (p : SplitResult) (params : str) : bool :=
  (url_scheme p ==? []) || (url_netloc p ==? []) || negb (params ==? []) || negb (url_query p ==? []) || negb (url_fragment p ==? [])
  || has_credentials (url_netloc p).

Definition validate_configured_base_url (raw : str) : res str :=
  '(p, params) ← urlparse raw;
  raise_if (malformed_url p params) (arg_error "invalid OIDC URL") ;;
  if (url_scheme p ==? lit "https") || ((url_scheme p ==? lit "http") && is_loopback_host (url_host p)) then Ok (rstrip (λ c, c =? 47) raw)
  else Raise (arg_error "OIDC URL must use HTTPS unless it is loopback HTTP").

Definition validate_configured_endpoint (raw : str) : res str :=
  '(p, params) ← urlparse raw;
  raise_if (malformed_url p params) (arg_error "invalid OIDC URL") ;;
  raise_if (url_path p ==? []) (arg_error "OIDC URL must include a path") ;;
  if (url_scheme p ==? lit "https") || ((url_scheme p ==? lit "http") && is_loopback_host (url_host p)) then Ok raw
  else Raise (arg_error "OIDC URL must use HTTPS unless it is loopback HTTP").

Definition validate_exact_oidc_issuer (issuer : str) (config : OIDCConfig) : res str :=
  '(p, params) ← urlparse issuer;
  raise_if (malformed_url p params) (arg_error "invalid OIDC issuer") ;;
  raise_if (endswith [47] issuer) (arg_error "invalid OIDC issuer") ;;
  if (url_scheme p ==? lit "https") || ((url_scheme p ==? lit "http") && oc_allow_http_loopback_issuer config && is_loopback_host (url_host p)) then Ok issuer
  else Raise (arg_error "OIDC issuer must use HTTPS").

Definition validate_discovered_issuer (issuer : str) (config : OIDCConfig) : res str :=
  try_except (validate_exact_oidc_issuer issuer config)
    (λ e, match e with ArgumentError _ => Raise (vfail RECORD_INVALID "OIDC discovery issuer is invalid") | e => Raise e end).

Definition validate_same_origin_endpoint (endpoint issuer : str) : res unit :=
  '(e, _) ← urlparse endpoint;
  '(i, _) ← urlparse issuer;
  raise_if ((url_scheme e ==? []) || (url_netloc e ==? []) || negb (url_scheme e ==? url_scheme i) || negb (url_netloc e ==? url_netloc i))
    (vfail RECORD_INVALID "OIDC endpoint must use the issuer origin") ;;
  raise_if ((url_path e ==? []) || negb (url_query e ==? []) || negb (url_fragment e ==? [])) (vfail RECORD_INVALID "invalid OIDC endpoint").
End urls.

Definition discovery_url_of (issuer : str) : str := issuer ++ lit "/.well-known/openid-configuration".

(** ** Values *)
Definition require_str (data : list (str * json)) (key : string) : res str :=
  match member (lit key) data with
  | Some (JStr ((_ :: _) as s)) => Ok s
  | _ => Raise (vfail RECORD_INVALID "OIDC discovery misses a member")
  end.

Definition to_string_list (value : option json) : list str :=
  match value with
  | Some (JStr s) => [s]
  | Some (JList l) => if forallb (λ v, match v with JStr _ => true | _ => false end) l then map (λ v, text_of (Some v)) l else []
  | _ => []
  end.

Definition scope_value (scope : oidc_scope) : res str :=
  match scope with
  | ScopeText s => Ok s
  | ScopeList l =>
      forM_res (λ token,
        raise_if ((token ==? []) || negb (strip is_space token ==? token)) (arg_error "scope list entries must be non-empty tokens") ;;
        raise_if (existsb is_space token) (arg_error "scope list entries must not contain whitespace")) l ;;
      Ok (join [32] l)
  end.

(** [_numeric_date] *)
Definition numeric_date (value : option json) : option num := value ≫= finite_number.

(** [datetime.fromtimestamp(t, UTC)]: the fraction times [10^6] is a double that is
    rounded to the even neighbour when halfway; seconds outside of [time_t], of the
    years of the C library and of those of [datetime] raise different errors. *)
Definition round_half_even (n d : Z) : Z :=
  let q := n / d in
  match Z.compare (2 * (n - q * d)) d with Lt => q | Gt => q + 1 | Eq => if Z.even q then q else q + 1 end.
Definition microseconds (f : pyfloat) (seconds : Z) : Z :=
  match exact (NFloat f) with
  | Some (n, d) =>
      match exact (NFloat (float_of_ratio ((n - seconds * d) * 1000000) d)) with
      | Some (fn, fd) => round_half_even fn fd
      | None => 0
      end
  | None => 0
  end.
Definition fromtimestamp (t : num) : res datetime :=
  let seconds := int_of_num t in
  let us := seconds * 1000000 + match t with NInt _ => 0 | NFloat f => microseconds f seconds end in
  let seconds := us / 1000000 in
  raise_if ((seconds <? - 2 ^ 63) || (2 ^ 63 <=? seconds)) (OverflowError (lit "timestamp out of range for platform time_t")) ;;
  raise_if ((seconds <? -67768040609740800) || (67768036191676799 <? seconds)) (OSError OSOther (lit "Value too large for defined data type")) ;;
  raise_if ((us <? datetime_min) || (datetime_max <? us)) (ValueError (lit "year is out of range")) ;;
  Ok (utc us).
Definition assertion_datetimes (claims : list (str * json)) : res (option datetime * option datetime) :=
  let date name := match numeric_date (member (lit name) claims) with Some t => d ← fromtimestamp t; Ok (Some d) | None => Ok None end in
  issued_at ← date "iat"%string;
  expires_at ← date "exp"%string;
  Ok (issued_at, expires_at).

(** [_decode_jwt_header_claims] *)
Definition decode_jwt (token : str) : res (list (str * json) * list (str * json)) :=
  '(a, b, _) ← compact_parts token;
  header ← b64url_decode_json a;
  claims ← b64url_decode_json b;
  Ok (header, claims).

(** ** Keys of an issuer *)
Definition oidc_key_by_id (jwks : list (str * json)) (kid : str) : res (option JWK) :=
  match member (lit "keys") jwks with
  | Some (JList keys) =>
      match List.find (λ raw, match raw with JDict d => py_eq (get "kid" JNull d) (JStr kid) | _ => false end) keys with
      | Some raw => key ← jwk_from_dict raw; Ok (Some key)
      | None => Ok None
      end
  | _ => Ok None
  end.

Definition oidc_key_supports_alg (key : JWK) (alg : str) : bool :=
  let raw := jwk_raw key in
  let raw_alg := get "alg" JNull raw in
  if negb (falsy raw_alg) && negb (py_eq raw_alg (JStr alg)) then false
  else if negb (falsy (jwk_use key)) && negb (is_str "sig" (jwk_use key)) then false
  else if match get "key_ops" JNull raw with
          | JNull => false
          | JList ops => negb (existsb (is_str "verify") ops)
          | _ => true
          end then false
  else if alg ==? lit "RS256" then is_str "RSA" (jwk_kty key) && negb (falsy (get "n" JNull raw)) && negb (falsy (get "e" JNull raw))
  else match signature_alg key with Ok a => a ==? alg | Raise _ => false end.

Section signatures.
Context `{Platform}.
Definition verify_oidc_signature (key : JWK) (alg : str) (payload sig : bytes) : res bool :=
  verify_signature (if falsy (get "alg" JNull (jwk_raw key)) then dict_set (lit "alg") (JStr alg) (jwk_raw key) else jwk_raw key) payload sig.
End signatures.

(** ** Requests *)
Section requests.
Context `{Platform, PyLib, OidcLib, HttpPlatform} (env : http_env).
(** What a client answers: to a request for a URL, and to a form that is posted to
    one; with the loopback host it may connect to. *)
Context (http_get : list nat → str → option str → res oidc_response)
        (http_post : list nat → str → list (str * str) → option str → res oidc_response).

(** The loop over the chunks. *)
Fixpoint read_body (path : list nat) (body : bytes) (chunks : list bytes) (failure : option exn) : res bytes :=
  match chunks with
  | [] => match failure with Some e => Raise e | None => Ok body end
  | chunk :: chunks =>
      he_check env (length chunks :: path)%nat ;;
      raise_if (MAX_BODY_BYTES <? len body + len chunk) (NetworkError (lit "OIDC response body too large")) ;;
      read_body path (body ++ chunk) chunks failure
  end.

Definition response_json (content : bytes) : res (list (str * json)) :=
  raise_if (MAX_BODY_BYTES <? len content) (NetworkError (lit "OIDC response body too large")) ;;
  data ← try_except (json_loads content) (λ _, Raise (vfail RECORD_INVALID "OIDC response is not valid JSON"));
  match data with JDict d => Ok d | _ => Raise (vfail RECORD_INVALID "OIDC response is not a JSON object") end.

Definition as_network_error {A} (m : res A) : res A :=
  try_except m (λ e, if is_transport_error e then Raise (NetworkError (exn_str e)) else Raise e).

Definition get_json (path : list nat) (url : str) (allow_http_loopback : bool) : res (list (str * json)) :=
  loopback_host ← loopback_http_host url;
  raise_if (bool_decide (is_Some loopback_host) && negb allow_http_loopback) (arg_error "OIDC loopback HTTP requires explicit opt-in") ;;
  as_network_error
    (he_check env (0 :: path)%nat ;;
     response ← http_get (1 :: path)%nat url loopback_host;
     raise_if (or_is_redirect response) (NetworkError (lit "OIDC redirects are not allowed")) ;;
     raise_if (negb (or_status_code response =? 200)) (NetworkError (lit "OIDC GET returned another status")) ;;
     body ← read_body (2 :: path)%nat [] (or_chunks response) (or_failure response);
     response_json body).

(** [str(value or "")] *)
Definition text_or_empty (v : json) : str := if falsy v then [] else py_str v.

Definition post_form_json (path : list nat) (url : str) (form : list (str * str)) (allow_http_loopback : bool) : res (list (str * json)) :=
  loopback_host ← loopback_http_host url;
  raise_if (bool_decide (is_Some loopback_host) && negb allow_http_loopback) (arg_error "OIDC loopback HTTP requires explicit opt-in") ;;
  as_network_error
    (he_check env (0 :: path)%nat ;;
     response ← http_post (1 :: path)%nat url form loopback_host;
     raise_if (or_is_redirect response) (NetworkError (lit "OIDC token endpoint redirects are not allowed")) ;;
     body ← read_body (2 :: path)%nat [] (or_chunks response) (or_failure response);
     if or_status_code response =? 200 then response_json body
     else
       data ← try_except (json_loads body) (λ _, Ok (JDict []));
       match data with
       | JDict d => Raise (OAuthError (text_or_empty (get "error" JNull d)) (text_or_empty (get "error_description" JNull d)))
       | _ => Raise (AttributeError (lit "object has no attribute 'get'"))
       end).

(** ** The profile *)

(** [OIDCProfile.__init__] *)
Definition init_oidc (provider : option SigningProvider) (domain : str) (config : option OIDCConfig) : res OIDCProfile :=
  domain ← (if domain ==? [] then Ok [] else normalize_fqdn idna_encode domain false);
  let config := default default_oidc_config config in
  validate_duration (oc_assertion_lifetime config) false ;;
  validate_duration (oc_max_assertion_lifetime config) false ;;
  validate_duration (oc_clock_skew config) true ;;
  Ok {| op_key_provider := provider; op_domain := domain; op_config := config |}.
Definition oidc_from_identity_manager (m : local_manager) (config : option OIDCConfig) : res OIDCProfile :=
  init_oidc (lm_key_provider m) (local_domain m) config.

Context (uuid4_hex : list nat → str) (profile : OIDCProfile).
Abbreviation config := (op_config profile).

Definition require_oidc_provider : res SigningProvider :=
  match op_key_provider profile with
  | Some provider =>
      raise_if (op_domain profile ==? []) (arg_error "OIDC signing requires a key_provider; profile is verification-only") ;;
      Ok provider
  | None => Raise (arg_error "OIDC signing requires a key_provider; profile is verification-only")
  end.

Definition sign_jwt (header claims : json) (key_provider : SigningProvider) : res str :=
  header_text ← dumps header;
  claims_text ← dumps claims;
  let signing_input := compact (b64url_encode header_text false) (b64url_encode claims_text false) in
  sig_bytes ← sp_sign key_provider signing_input;
  Ok (compact signing_input (b64url_encode sig_bytes false)).

Definition assertion_claims (issuer : str) (iat exp : Z) (jti : str) (additional : list (str * json)) : list (str * json) :=
  [(lit "iss", JStr (op_domain profile)); (lit "sub", JStr (op_domain profile)); (lit "aud", JList [JStr issuer]); (lit "iat", JInt iat);
   (lit "exp", JInt exp); (lit "jti", JStr jti); (lit "fqdn", JStr (op_domain profile))] ++ additional.

Definition create_oidc_assertion (path : list nat) (opts : OIDCAssertionOptions) : res str :=
  issuer ← validate_exact_oidc_issuer (oa_issuer opts) config;
  let expiry := default (oc_assertion_lifetime config) (oa_expiry opts) in
  validate_duration expiry false ;;
  raise_if (oc_max_assertion_lifetime config <? expiry) (arg_error "OIDC assertion expiry exceeds maximum lifetime") ;;
  raise_if (existsb (λ c, bool_decide (c.1 ∈ JWT_RESERVED)) (oa_additional_claims opts))
    (arg_error "additional_claims must not override reserved claim") ;;
  let now := utc (he_clock env (0 :: path)%nat) in
  until ← dt_add now expiry;
  let iat := int_of_num (seconds_of (dt_wall now)) in
  let exp := int_of_num (seconds_of (dt_wall until)) in
  let claims := assertion_claims issuer iat exp (uuid4_hex (1 :: path)%nat) (oa_additional_claims opts) in
  raise_if (exp <=? iat) (arg_error "OIDC assertion expiry is below timestamp resolution") ;;
  key_provider ← require_oidc_provider;
  signing_key ← sp_signing_key key_provider;
  alg ← signature_alg signing_key;
  sign_jwt (jose_header alg (jwk_kid signing_key) "JWT") (JDict claims) key_provider.

(** *** Discovery *)
Definition discover_oidc_document (path : list nat) (issuer : option str) (discovery_url : str) : res OIDCDiscoveryDocument :=
  url ← (if negb (discovery_url ==? []) then validate_configured_endpoint discovery_url
         else match issuer with Some i => Ok (discovery_url_of i) | None => Raise (arg_error "OIDC issuer is required") end);
  data ← get_json path url (oc_allow_http_loopback_issuer config);
  named ← require_str data "issuer";
  discovered ← validate_discovered_issuer named config;
  raise_if (match issuer with Some i => negb (discovered ==? i) | None => false end) (vfail RECORD_INVALID "OIDC discovery issuer mismatch") ;;
  token_endpoint ← require_str data "token_endpoint";
  jwks_uri ← require_str data "jwks_uri";
  validate_same_origin_endpoint token_endpoint discovered ;;
  validate_same_origin_endpoint jwks_uri discovered ;;
  Ok {| od_issuer := discovered; od_token_endpoint := token_endpoint; od_jwks_uri := jwks_uri; od_raw := data |}.

Definition discover_oidc_issuer (path : list nat) (issuer discovery_url : str) : res OIDCDiscoveryDocument :=
  issuer ← validate_exact_oidc_issuer issuer config;
  discover_oidc_document path (Some issuer) discovery_url.

Definition discover_issuer_only (path : list nat) (discovery_url : str) : res str :=
  url ← validate_configured_endpoint discovery_url;
  data ← get_json path url (oc_allow_http_loopback_issuer config);
  named ← require_str data "issuer";
  validate_discovered_issuer named config.

(** *** Exchange *)

(** The issuer and the endpoint. *)
Definition resolve_token_exchange_target (path : list nat) (opts : OIDCTokenExchangeOptions) : res (str * str) :=
  let issuer := first_non_empty (ox_issuer opts) (oc_default_issuer config) in
  let server_url := first_non_empty (ox_server_url opts) (oc_default_server_url config) in
  let discovery_url := first_non_empty (ox_discovery_url opts) (oc_default_discovery_url config) in
  let token_endpoint := first_non_empty (ox_token_endpoint opts) (oc_default_token_endpoint config) in
  server_url ← (if server_url ==? [] then Ok [] else validate_configured_base_url server_url);
  issuer ← (if issuer ==? [] then Ok [] else validate_exact_oidc_issuer issuer config);
  let discovers := (token_endpoint ==? []) && (server_url ==? []) in
  '(issuer, token_endpoint) ←
    (if negb (server_url ==? []) && (issuer ==? []) then
       i ← discover_issuer_only path (first_non_empty discovery_url (discovery_url_of server_url)); Ok (i, token_endpoint)
     else if negb (discovery_url ==? []) then
       doc ← discover_oidc_document path (if issuer ==? [] then None else Some issuer) discovery_url;
       Ok (od_issuer doc, if discovers then od_token_endpoint doc else token_endpoint)
     else if issuer ==? [] then Raise (arg_error "OIDC issuer is required")
     else if discovers then doc ← discover_oidc_issuer path issuer []; Ok (issuer, od_token_endpoint doc)
     else Ok (issuer, token_endpoint));
  token_endpoint ← (if negb (token_endpoint ==? []) then validate_configured_endpoint token_endpoint
                    else if negb (server_url ==? []) then validate_configured_endpoint (server_url ++ lit "/token")
                    else Raise (arg_error "OIDC token endpoint is required"));
  Ok (issuer, token_endpoint).

Definition exchange_form (assertion audience scope : str) : list (str * str) :=
  [(lit "grant_type", lit "urn:ietf:params:oauth:grant-type:jwt-bearer"); (lit "assertion", assertion); (lit "audience", audience)]
  ++ (if scope ==? [] then [] else [(lit "scope", scope)]).

Definition exchange_oidc_token (path : list nat) (opts : OIDCTokenExchangeOptions) : res OIDCTokenResponse :=
  raise_if (ox_audience opts ==? []) (arg_error "audience is required") ;;
  '(issuer, token_endpoint) ← resolve_token_exchange_target (0 :: path)%nat opts;
  assertion ← (if negb (ox_assertion opts ==? []) then Ok (ox_assertion opts)
               else create_oidc_assertion (1 :: path)%nat {| oa_issuer := issuer; oa_expiry := ox_assertion_expiry opts; oa_additional_claims := [] |});
  '(_, claims) ← decode_jwt assertion;
  raise_if (negb (ox_assertion opts ==? []) && negb (bool_decide (to_string_list (member (lit "aud") claims) = [issuer])))
    (arg_error "OIDC assertion audience must exactly match issuer") ;;
  '(issued_at, expires_at) ← assertion_datetimes claims;
  scope ← scope_value (ox_scope opts);
  let scope := if scope ==? [] then oc_default_scope config else scope in
  data ← post_form_json (2 :: path)%nat token_endpoint (exchange_form assertion (ox_audience opts) scope) (oc_allow_http_loopback_issuer config);
  let access_token := text_or_empty (get "access_token" JNull data) in
  let token_type := text_or_empty (get "token_type" JNull data) in
  raise_if (access_token ==? []) (vfail RECORD_INVALID "OIDC token response missing access_token") ;;
  raise_if (negb (str_lower token_type ==? lit "bearer")) (vfail RECORD_INVALID "OIDC token response token_type must be Bearer") ;;
  Ok {| ot_access_token := access_token; ot_token_type := token_type; ot_id_token := text_or_empty (get "id_token" JNull data);
        ot_expires_in := match get "expires_in" JNull data with JInt n => Some (JInt n) | JBool b => Some (JBool b) | _ => None end;
        ot_scope := text_or_empty (get "scope" JNull data); ot_raw := data; ot_issuer := issuer; ot_token_endpoint := token_endpoint;
        ot_audience := ox_audience opts; ot_requested_scope := scope; ot_assertion_issued_at := issued_at; ot_assertion_expires_at := expires_at |}.

(** With a fresh assertion, whatever the options hold. *)
Definition without_assertion (opts : OIDCTokenExchangeOptions) : OIDCTokenExchangeOptions :=
  {| ox_issuer := ox_issuer opts; ox_audience := ox_audience opts; ox_scope := ox_scope opts; ox_assertion := []; ox_server_url := ox_server_url opts;
     ox_discovery_url := ox_discovery_url opts; ox_token_endpoint := ox_token_endpoint opts; ox_assertion_expiry := ox_assertion_expiry opts |}.
Definition mint_oidc_token (path : list nat) (opts : OIDCTokenExchangeOptions) : res OIDCTokenResponse := exchange_oidc_token path (without_assertion opts).
Definition get_oidc_token (path : list nat) (opts : OIDCTokenExchangeOptions) : res OIDCTokenResponse := mint_oidc_token path opts.

(** *** Verification *)
Definition validate_token_times (path : list nat) (claims : list (str * json)) : res unit :=
  let skew := seconds_of (oc_clock_skew config) in
  let now := seconds_of (he_clock env path) in
  match numeric_date (member (lit "exp") claims), numeric_date (member (lit "iat") claims) with
  | None, _ => Raise (vfail RECORD_INVALID "OIDC token missing or invalid exp")
  | _, None => Raise (vfail RECORD_INVALID "OIDC token missing or invalid iat")
  | Some exp, Some iat =>
      raise_if (num_le exp iat) (vfail RECORD_INVALID "OIDC token exp must be after iat") ;;
      latest ← num_add now skew;
      (if has "nbf" claims then
         match numeric_date (member (lit "nbf") claims) with
         | None => Raise (vfail RECORD_INVALID "OIDC token invalid nbf")
         | Some nbf => raise_if (num_lt latest nbf) (vfail RECORD_INVALID "OIDC token not yet valid")
         end
       else Ok ()) ;;
      raise_if (num_lt latest iat) (vfail RECORD_INVALID "OIDC token issued-at time is in the future") ;;
      raise_if (num_le exp now) (vfail RECORD_INVALID "OIDC token is expired")
  end.

(** What the token shows by itself: header, claims and algorithm. *)
Definition check_oidc_token (path : list nat) (token : str) (opts : VerifyOIDCTokenOptions)
    : res (str * list (str * json) * list (str * json) * str) :=
  issuer ← validate_exact_oidc_issuer (vo_issuer opts) config;
  raise_if (negb (bool_decide (issuer ∈ oc_allowed_issuers config))) (vfail RECORD_INVALID "OIDC issuer is not allowed") ;;
  raise_if (vo_audience opts ==? []) (arg_error "audience is required") ;;
  '(header, claims) ← decode_jwt token;
  validate_protected_header header (oc_allowed_token_algorithms config) ;;
  validate_token_times path claims ;;
  raise_if (negb (py_eq (get "iss" JNull claims) (JStr issuer))) (vfail RECORD_INVALID "OIDC issuer mismatch") ;;
  raise_if (negb (bool_decide (to_string_list (member (lit "aud") claims) = [vo_audience opts]))) (vfail RECORD_INVALID "OIDC audience mismatch") ;;
  raise_if (match get "azp" JNull claims with JNull => false | azp => negb (py_eq azp (JStr (vo_audience opts))) end) (vfail RECORD_INVALID "OIDC azp mismatch") ;;
  raise_if (negb (forallb (λ m, bool_decide (m.1 ∈ [lit "alg"; lit "kid"; lit "typ"])) header)) (vfail RECORD_INVALID "unsupported OIDC token header") ;;
  let alg := text_or_empty (get "alg" JNull header) in
  raise_if (negb (bool_decide (alg ∈ oc_allowed_token_algorithms config))) (vfail SIGNATURE_INVALID "OIDC token signing algorithm is not allowed") ;;
  raise_if (negb (bool_decide (alg ∈ [lit "RS256"; lit "ES256"; lit "EdDSA"]))) (vfail SIGNATURE_INVALID "OIDC token signing algorithm is not implemented") ;;
  Ok (issuer, header, claims, alg).

(** The signature, with a key of the issuer. *)
Definition check_oidc_signature (path : list nat) (token issuer : str) (header : list (str * json)) (alg : str) : res unit :=
  doc ← discover_oidc_issuer (0 :: path)%nat issuer [];
  jwks ← get_json (1 :: path)%nat (od_jwks_uri doc) (oc_allow_http_loopback_issuer config);
  found ← oidc_key_by_id jwks (text_or_empty (get "kid" JNull header));
  let mismatch := vfail SIGNATURE_INVALID "OIDC signing key mismatch" in
  match found with
  | None => Raise mismatch
  | Some signing_key =>
      raise_if (negb (oidc_key_supports_alg signing_key alg)) mismatch ;;
      '(a, b, c) ← match split 46 token with [a; b; c] => Ok (a, b, c) | _ => Raise (IndexError (lit "list index out of range")) end;
      sig_bytes ← try_except (b64url_decode c) (λ _, Raise (vfail SIGNATURE_INVALID "OIDC token signature encoding invalid"));
      valid ← verify_oidc_signature signing_key alg (compact a b) sig_bytes;
      raise_if (negb valid) (vfail SIGNATURE_INVALID "OIDC token signature invalid")
  end.

Section resolution.
Context {S R : Type} `{IdentityResolver S (VerifiedDomain R)}.

Definition verify_oidc_token (path : list nat) (token : str) (opts : VerifyOIDCTokenOptions) (peer_cert : option TLSCertificate)
    : MM S (VerifiedOIDCSubject R) :=
  within_budget env (0 :: path)%nat
    ('(issuer, header, claims, alg) ← pure (check_oidc_token (1 :: path)%nat token opts);
     pure (check_oidc_signature (2 :: path)%nat token issuer header alg) ;;
     pure (validate_token_times (3 :: path)%nat claims) ;;
     sub ← pure (match member (lit "sub") claims with Some (JStr ((_ :: _) as s)) => Ok s | _ => Raise (vfail RECORD_INVALID "OIDC token missing sub") end);
     verified ← (if vo_verify_dnsid_subject opts then vd ← resolve_domain (4 :: path)%nat sub peer_cert; mret (Some vd) else mret None);
     pure (validate_token_times (5 :: path)%nat claims) ;;
     mret {| os_issuer := issuer; os_subject := sub; os_audience := vo_audience opts; os_verified_domain := verified; os_claims := claims |}).
End resolution.
End requests.
