(* ===== verification/OidcSpec.v ===== *)
(** * What OIDC tokens and their exchange rest on *)
From S2P Require Import Prelude Sha256 Errors PyText Base64 Utils SignedNote Lr ResourceFetcher PyFloat PyTime Canonical CanonicalSpec JsonScan PyNum Keys LifecycleDemo TxtRecord Identity HttpsClient Manager ManagerSpec Publication PublicationSpec ManagerDemo HttpModels HttpSignatures HttpProfile HttpSpec HttpRoundtrip HttpDemo Jose JoseSpec WbaVerifier Oidc.

(** ** URLs *)
Section urls.
Context `{Platform, OidcLib}.

(** A URL an assertion or a request may go to: HTTPS, or HTTP to a loopback host,
    without parameters, query, fragment and credentials. *)
Record sound_url (loopback : bool) (url : str) (p : SplitResult) : Prop := {
  su_parsed : urlparse url = Ok (p, []);
  su_netloc : url_netloc p ≠ [];
  su_bare : url_query p = [] ∧ url_fragment p = [] ∧ has_credentials (url_netloc p) = false;
  su_scheme : url_scheme p = lit "https" ∨ loopback = true ∧ url_scheme p = lit "http" ∧ is_loopback_host (url_host p) = true
}.

Lemma malformed_url_false p params : malformed_url p params = false →
  params = [] ∧ url_netloc p ≠ [] ∧ url_query p = [] ∧ url_fragment p = [] ∧ has_credentials (url_netloc p) = false.
Proof.
  unfold malformed_url. rewrite !orb_false_iff, !negb_false_iff. intros (((((_ & Hn) & Hp) & Hq) & Hf) & Hc). rewrite eqb_true in Hp, Hq, Hf. apply eqb_false in Hn. done.
Qed.

Lemma validate_exact_oidc_issuer_Ok issuer config i : validate_exact_oidc_issuer issuer config = Ok i →
  i = issuer ∧ endswith [47] issuer = false ∧ ∃ p, sound_url (oc_allow_http_loopback_issuer config) issuer p.
Proof.
  unfold validate_exact_oidc_issuer. intros Hx. destruct (urlparse issuer) as [[p params]|] eqn:Ep; [|done]. cbn [mbind result_bind] in Hx. guard_step Hx as G1. guard_step Hx as G2.
  destruct (malformed_url_false _ _ G1) as (-> & Hn & Hq & Hf & Hc). destruct (_ || _) eqn:E in Hx; [|done]. apply Ok_inj in Hx. subst i. split_and!; [done..|]. exists p. split; try done.
  apply orb_true_iff in E as [E|E]; [left; by rewrite eqb_true in E|right]. rewrite !andb_true_iff in E. destruct E as [[E1 E2] E3]. by rewrite eqb_true in E1.
Qed.
Lemma validate_configured_endpoint_Ok raw e : validate_configured_endpoint raw = Ok e → e = raw ∧ ∃ p, sound_url true raw p ∧ url_path p ≠ [].
Proof.
  unfold validate_configured_endpoint. intros Hx. destruct (urlparse raw) as [[p params]|] eqn:Ep; [|done]. cbn [mbind result_bind] in Hx. guard_step Hx as G1. guard_step Hx as G2. apply eqb_false in G2.
  destruct (malformed_url_false _ _ G1) as (-> & Hn & Hq & Hf & Hc). destruct (_ || _) eqn:E in Hx; [|done]. apply Ok_inj in Hx. subst e. split; [done|]. exists p. split; [|done]. split; try done.
  apply orb_true_iff in E as [E|E]; [left; by rewrite eqb_true in E|right]. rewrite !andb_true_iff in E. destruct E as [E1 E3]. by rewrite eqb_true in E1.
Qed.
Lemma validate_discovered_issuer_Ok issuer config i : validate_discovered_issuer issuer config = Ok i → validate_exact_oidc_issuer issuer config = Ok i.
Proof. unfold validate_discovered_issuer. destruct (validate_exact_oidc_issuer issuer config) as [x|e]; cbn; [done|]. by destruct e. Qed.

(** An endpoint with the scheme and the authority of the issuer. *)
Definition same_origin (endpoint issuer : str) : Prop := ∃ e i ps ps',
  urlparse endpoint = Ok (e, ps) ∧ urlparse issuer = Ok (i, ps') ∧ url_scheme e = url_scheme i ∧ url_netloc e = url_netloc i ∧ url_path e ≠ []
  ∧ url_query e = [] ∧ url_fragment e = [].
Lemma validate_same_origin_endpoint_Ok endpoint issuer : validate_same_origin_endpoint endpoint issuer = Ok () → same_origin endpoint issuer.
Proof.
  unfold validate_same_origin_endpoint. intros Hx. destruct (urlparse endpoint) as [[e ps]|] eqn:Ee; [|done]. cbn [mbind result_bind] in Hx.
  destruct (urlparse issuer) as [[i ps']|] eqn:Ei; [|done]. cbn [mbind result_bind] in Hx. guard_step Hx as G1. destruct (_ || _) eqn:G2 in Hx; [done|].
  rewrite !orb_false_iff, !negb_false_iff in G1. rewrite !orb_false_iff, !negb_false_iff in G2. destruct G1 as [[[_ _] Gs] Gn], G2 as [[Gp Gq] Gf]. rewrite eqb_true in Gs, Gn, Gq, Gf. apply eqb_false in Gp.
  by exists e, i, ps, ps'.
Qed.
End urls.

(** ** Requests *)
Section requests.
Context `{Platform, PyLib, OidcLib, HttpPlatform} (env : http_env).

Lemma read_body_Ok path body chunks failure b : read_body env path body chunks failure = Ok b →
  failure = None ∧ b = body ++ concat chunks ∧ (len body ≤ MAX_BODY_BYTES → len b ≤ MAX_BODY_BYTES).
Proof.
  revert body. induction chunks as [|chunk chunks IH]; intros body Hx; cbn [read_body] in Hx.
  - destruct failure; [done|]. apply Ok_inj in Hx. subst b. by rewrite app_nil_r.
  - apply bind_unit_Ok in Hx as [_ Hx]. guard_step Hx as G. apply Z.ltb_ge in G. destruct (IH _ Hx) as (Hf & -> & Hl). cbn [concat]. rewrite app_assoc. split_and!; [done..|].
    intros _. apply Hl. unfold len in *. rewrite length_app. lia.
Qed.

(** A response that was accepted as the JSON object of a request. *)
Definition answered (r : oidc_response) (d : list (str * json)) : Prop :=
  or_is_redirect r = false ∧ or_status_code r = 200 ∧ or_failure r = None ∧ len (concat (or_chunks r)) ≤ MAX_BODY_BYTES ∧ json_loads (concat (or_chunks r)) = Ok (JDict d).

Lemma response_json_Ok content d : response_json content = Ok d → len content ≤ MAX_BODY_BYTES ∧ json_loads content = Ok (JDict d).
Proof.
  unfold response_json. intros Hx. guard_step Hx as G. apply Z.ltb_ge in G. split; [done|]. destruct (json_loads content) as [v|e]; [|done]. cbn [try_except mbind result_bind] in Hx.
  destruct v; try done. apply Ok_inj in Hx. by subst.
Qed.
Lemma as_network_error_Ok {A} (m : res A) a : as_network_error m = Ok a → m = Ok a.
Proof. unfold as_network_error. destruct m as [x|e]; cbn; [done|]. by destruct (is_transport_error e). Qed.

(** A URL with a loopback host and without TLS is asked for only when allowed. *)
Definition permitted (loopback : bool) (url : str) : Prop := ∃ host, loopback_http_host url = Ok host ∧ (is_Some host → loopback = true).
Lemma permitted_guard url loopback host : loopback_http_host url = Ok host → bool_decide (is_Some host) && negb loopback = false → permitted loopback url.
Proof. intros Hh G. exists host. split; [done|]. intros Hs. rewrite (bool_decide_eq_true_2 _ Hs) in G. by destruct loopback. Qed.

Lemma post_form_json_Ok (http_post : list nat → str → list (str * str) → option str → res oidc_response) path url form loopback d : post_form_json env http_post path url form loopback = Ok d →
  permitted loopback url ∧ ∃ q host r, http_post q url form host = Ok r ∧ answered r d.
Proof.
  unfold post_form_json. intros Hx. bind_step Hx as host Hh. guard_step Hx as G. split; [by eapply permitted_guard|]. apply as_network_error_Ok in Hx. apply bind_unit_Ok in Hx as [_ Hx]. bind_step Hx as r Hr.
  guard_step Hx as G1. bind_step Hx as body Hb. destruct (read_body_Ok _ _ _ _ _ Hb) as (Hf & -> & _). destruct (or_status_code r =? 200) eqn:E.
  - apply Z.eqb_eq in E. apply response_json_Ok in Hx as [Hl Hj]. by exists (1 :: path)%nat, host, r.
  - bind_step Hx as data Hd. by destruct data.
Qed.

Context (http_get : list nat → str → option str → res oidc_response).
Definition served (url : str) (d : list (str * json)) : Prop := ∃ q host r, http_get q url host = Ok r ∧ answered r d.

Lemma get_json_Ok path url loopback d : get_json env http_get path url loopback = Ok d → permitted loopback url ∧ served url d.
Proof.
  unfold get_json. intros Hx. bind_step Hx as host Hh. guard_step Hx as G. split; [by eapply permitted_guard|]. apply as_network_error_Ok in Hx. apply bind_unit_Ok in Hx as [_ Hx]. bind_step Hx as r Hr.
  guard_step Hx as G1. guard_step Hx as G2. bind_step Hx as body Hb. apply negb_false_iff, Z.eqb_eq in G2. destruct (read_body_Ok _ _ _ _ _ Hb) as (Hf & -> & _).
  apply response_json_Ok in Hx as [Hl Hj]. exists (1 :: path)%nat, host, r. done.
Qed.

Context (profile : OIDCProfile).
Abbreviation config := (op_config profile).

Lemma require_str_Ok data key s : require_str data key = Ok s → member (lit key) data = Some (JStr s) ∧ s ≠ [].
Proof. unfold require_str. destruct (member (lit key) data) as [[| | | |[|c t]| |]|]; try done. intros Hx. apply Ok_inj in Hx. by subst. Qed.

(** A discovery document of an issuer. *)
Record discovered (url : str) (doc : OIDCDiscoveryDocument) : Prop := {
  dv_served : served url (od_raw doc);
  dv_issuer : member (lit "issuer") (od_raw doc) = Some (JStr (od_issuer doc)) ∧ ∃ p, sound_url (oc_allow_http_loopback_issuer config) (od_issuer doc) p;
  dv_token : member (lit "token_endpoint") (od_raw doc) = Some (JStr (od_token_endpoint doc)) ∧ same_origin (od_token_endpoint doc) (od_issuer doc);
  dv_jwks : member (lit "jwks_uri") (od_raw doc) = Some (JStr (od_jwks_uri doc)) ∧ same_origin (od_jwks_uri doc) (od_issuer doc)
}.

Lemma discover_oidc_document_Ok path issuer url doc : discover_oidc_document env http_get profile path issuer url = Ok doc →
  (∃ u, discovered u doc ∧ (url = [] → ∃ i, issuer = Some i ∧ u = discovery_url_of i) ∧ (url ≠ [] → u = url)) ∧ ∀ i, issuer = Some i → od_issuer doc = i.
Proof.
  unfold discover_oidc_document. intros Hx. bind_step Hx as u Hu. bind_step Hx as data Hd. bind_step Hx as named Hn. bind_step Hx as i Hi. guard_step Hx as G. bind_step Hx as te Hte. bind_step Hx as ju Hju.
  apply bind_unit_Ok in Hx as [Ht Hx]. apply bind_unit_Ok in Hx as [Hj Hx]. apply Ok_inj in Hx. subst doc. cbn [od_issuer od_token_endpoint od_jwks_uri od_raw].
  apply validate_discovered_issuer_Ok, validate_exact_oidc_issuer_Ok in Hi as (-> & _ & Hp). apply require_str_Ok in Hn as [Hn _], Hte as [Hte _], Hju as [Hju _]. apply get_json_Ok in Hd as [_ Hd]. split.
  - exists u. split; [split; cbn; [done|done|split; [done|by apply validate_same_origin_endpoint_Ok]..]|]. destruct (url ==? []) eqn:E.
    + rewrite eqb_true in E. cbn [negb] in Hu. split; [|done]. intros _. destruct issuer as [i|]; [|done]. apply Ok_inj in Hu. subst u. by exists i.
    + apply eqb_false in E. cbn [negb] in Hu. split; [done|]. intros _. by apply validate_configured_endpoint_Ok in Hu as [-> _].
  - intros i ->. apply negb_false_iff in G. by rewrite eqb_true in G.
Qed.

(** ** Tokens *)

(** Times at a reading of the clock, in microseconds. *)
Definition oidc_timely (t : Z) (claims : list (str * json)) : Prop :=
  ∃ iat exp latest, (member (lit "iat") claims ≫= finite_number) = Some iat ∧ (member (lit "exp") claims ≫= finite_number) = Some exp
    ∧ num_le exp iat = false ∧ num_add (seconds_of t) (seconds_of (oc_clock_skew config)) = Ok latest ∧ num_lt latest iat = false ∧ num_le exp (seconds_of t) = false
    ∧ ∀ v, member (lit "nbf") claims = Some v → ∃ nbf, finite_number v = Some nbf ∧ num_lt latest nbf = false.
Lemma validate_token_times_Ok path claims : validate_token_times env profile path claims = Ok () → oidc_timely (he_clock env path) claims.
Proof.
  unfold validate_token_times, numeric_date. intros Hx. destruct (member (lit "exp") claims ≫= finite_number) as [exp|] eqn:Ee; [|done]. destruct (member (lit "iat") claims ≫= finite_number) as [iat|] eqn:Ei; [|done].
  guard_step Hx as G1. bind_step Hx as latest Hl. apply bind_unit_Ok in Hx as [Hn Hx]. guard_step Hx as G2. destruct (num_le exp _) eqn:G3 in Hx; [done|]. exists iat, exp, latest. split_and!; try done.
  intros v Hv. unfold has in Hn. rewrite Hv in Hn. cbn in Hn. destruct (finite_number v) as [nbf|]; [|done]. exists nbf. split; [done|]. by destruct (num_lt latest nbf).
Qed.

(** What a token shows by itself. *)
Record oidc_checked (t : Z) (token : str) (opts : VerifyOIDCTokenOptions) (header claims : list (str * json)) (alg : str) : Prop := {
  ok_token : ∃ a b c, split 46 token = [a; b; c] ∧ JoseSpec.token token a b c ∧ object_segment a header ∧ object_segment b claims;
  ok_alg : member (lit "alg") header = Some (JStr alg) ∧ alg ∈ oc_allowed_token_algorithms config ∧ alg ∈ [lit "RS256"; lit "ES256"; lit "EdDSA"];
  ok_header : Forall (λ m, m.1 ∈ [lit "alg"; lit "kid"; lit "typ"]) header;
  ok_issuer : member (lit "iss") claims = Some (JStr (vo_issuer opts)) ∧ vo_issuer opts ∈ oc_allowed_issuers config
              ∧ ∃ p, sound_url (oc_allow_http_loopback_issuer config) (vo_issuer opts) p;
  ok_audience : member (lit "aud") claims = Some (JStr (vo_audience opts)) ∨ member (lit "aud") claims = Some (JList [JStr (vo_audience opts)]);
  ok_azp : ∀ azp, member (lit "azp") claims = Some azp → azp = JNull ∨ azp = JStr (vo_audience opts);
  ok_times : oidc_timely t claims
}.

Lemma to_string_list_single v s : to_string_list v = [s] → v = Some (JStr s) ∨ v = Some (JList [JStr s]).
Proof.
  unfold to_string_list. destruct v as [[| | | |x|l|]|]; try done; [intros [= ->]; by left|]. destruct (forallb _ l) eqn:E; [|done]. destruct l as [|v [|]]; try done. destruct v; try done. intros [= ->]. by right.
Qed.
Lemma get_str_eq name d s : py_eq (get name JNull d) (JStr s) = true → member (lit name) d = Some (JStr s).
Proof. unfold get. destruct (member (lit name) d) as [v|]; cbn [default]; [|done]. intros Hx. apply py_eq_str in Hx. unfold id in Hx. by subst. Qed.

Lemma check_oidc_token_Ok path token opts issuer header claims alg : check_oidc_token env profile path token opts = Ok (issuer, header, claims, alg) →
  issuer = vo_issuer opts ∧ oidc_checked (he_clock env path) token opts header claims alg.
Proof.
  unfold check_oidc_token. intros Hx. bind_step Hx as i Hi. guard_step Hx as G1. guard_step Hx as G2. destruct (decode_jwt token) as [[h cl]|] eqn:Ed; [|done]. cbn [mbind result_bind] in Hx.
  apply bind_unit_Ok in Hx as [Hh Hx]. apply bind_unit_Ok in Hx as [Ht Hx]. guard_step Hx as G3. guard_step Hx as G4. guard_step Hx as G5. guard_step Hx as G6. cbv zeta in Hx. guard_step Hx as G7. guard_step Hx as G8.
  apply Ok_inj in Hx. injection Hx as -> -> -> <-. apply validate_exact_oidc_issuer_Ok in Hi as (-> & _ & Hp). split; [done|].
  apply negb_false_iff in G1, G3, G4, G6, G7, G8. apply bool_decide_eq_true in G1, G4, G7, G8. unfold decode_jwt in Ed. destruct (compact_parts token) as [[[a b] c]|] eqn:Ec; [|done]. cbn [mbind result_bind] in Ed.
  bind_step Ed as h' Hh'. bind_step Ed as cl' Hcl'. apply Ok_inj in Ed. injection Ed as -> ->. apply compact_parts_Ok in Ec as (Es & Hk & _). split.
  - exists a, b, c. split_and!; [done|done|by apply b64url_decode_json_Ok..].
  - split_and!; [|done|done]. unfold validate_protected_header in Hh. guard_step Hh as G. rewrite !orb_false_iff, !negb_false_iff in G. destruct G as ((((Ha & _) & _) & _) & _).
    destruct (nonempty_text_Ok _ Ha) as (s & Hs & Hne). unfold get. rewrite Hs. change (default JNull (Some (JStr s))) with (JStr s). unfold text_or_empty. destruct s; [done|]. reflexivity.
  - rewrite forallb_forall in G6. apply Forall_forall. intros m Hm. apply list_elem_of_In, G6 in Hm. by apply bool_decide_eq_true in Hm.
  - split_and!; [by apply get_str_eq|done|done].
  - by apply to_string_list_single.
  - intros azp Hz. unfold get in G5. rewrite Hz in G5. cbn [default] in G5. destruct azp; try (by left); right; apply negb_false_iff in G5; by apply py_eq_str in G5.
  - by apply validate_token_times_Ok.
Qed.

(** A signature by a key that the issuer serves. *)
Definition signed_by_issuer (token issuer alg : str) (header : list (str * json)) : Prop := ∃ doc jwks keys raw key a b c sig,
  discovered (discovery_url_of issuer) doc ∧ od_issuer doc = issuer ∧ served (od_jwks_uri doc) jwks
  ∧ member (lit "keys") jwks = Some (JList keys) ∧ raw ∈ keys ∧ jwk_from_dict raw = Ok key
  ∧ member (lit "kid") (jwk_raw key) = Some (JStr (text_or_empty (get "kid" JNull header)))
  ∧ oidc_key_supports_alg key alg = true ∧ token = compact (compact a b) c ∧ b64url_decode c = Ok sig ∧ verify_oidc_signature key alg (compact a b) sig = Ok true.

Lemma oidc_key_by_id_Ok jwks kid key : oidc_key_by_id jwks kid = Ok (Some key) →
  ∃ keys raw, member (lit "keys") jwks = Some (JList keys) ∧ raw ∈ keys ∧ jwk_from_dict raw = Ok key ∧ member (lit "kid") (jwk_raw key) = Some (JStr kid).
Proof.
  unfold oidc_key_by_id. destruct (member (lit "keys") jwks) as [[| | | | |keys|]|]; try done. destruct (List.find _ keys) as [raw|] eqn:Ef; [|done]. intros Hx. bind_step Hx as k Hk. apply Ok_inj in Hx. injection Hx as ->.
  apply List.find_some in Ef as [Hin Hp]. exists keys, raw. split_and!; [done|by apply list_elem_of_In|done|]. destruct raw; try done. cbn in Hk. apply Ok_inj in Hk. subst key. cbn [jwk_raw]. by apply get_str_eq.
Qed.

Lemma check_oidc_signature_Ok path token issuer header alg : check_oidc_signature env http_get profile path token issuer header alg = Ok () → signed_by_issuer token issuer alg header.
Proof.
  unfold check_oidc_signature. intros Hx. bind_step Hx as doc Hd. bind_step Hx as jwks Hj. bind_step Hx as found Hf. destruct found as [key|]; [|done]. guard_step Hx as G1. apply negb_false_iff in G1.
  destruct (split 46 token) as [|a [|b [|c [|]]]] eqn:Es; try done. cbn [mbind result_bind] in Hx. destruct (b64url_decode c) as [sig|] eqn:Ed; [|done]. cbn [try_except mbind result_bind] in Hx.
  bind_step Hx as valid Hv. destruct valid; [|done]. unfold discover_oidc_issuer in Hd. bind_step Hd as i Hi. apply validate_exact_oidc_issuer_Ok in Hi as (-> & _).
  apply discover_oidc_document_Ok in Hd as [(u & Hu & Hnil & _) Hi]. destruct (Hnil eq_refl) as (i & [= <-] & ->). apply get_json_Ok in Hj as [_ Hj]. apply oidc_key_by_id_Ok in Hf as (keys & raw & Hk & Hin & Hr & Hkid).
  exists doc, jwks, keys, raw, key, a, b, c, sig. split_and!; try done; [by apply Hi|]. rewrite <- (join_split 46 token), Es. cbn [join]. unfold compact. by rewrite <- !app_assoc.
Qed.

(** *** Exchange *)
Lemma resolve_target_Ok path opts issuer endpoint : resolve_token_exchange_target env http_get profile path opts = Ok (issuer, endpoint) →
  (∃ p, sound_url (oc_allow_http_loopback_issuer config) issuer p) ∧ ∃ p, sound_url true endpoint p ∧ url_path p ≠ [].
Proof.
  unfold resolve_token_exchange_target. intros Hx. bind_step Hx as server Hs. bind_step Hx as i0 Hi0. cbv zeta in Hx. destruct (if _ && _ then _ else _) as [[i te]|] eqn:E in Hx; [|done]. cbn [mbind result_bind] in Hx.
  bind_step Hx as te' Hte. apply Ok_inj in Hx. injection Hx as -> ->. split.
  - destruct (negb (server ==? []) && (i0 ==? [])).
    + bind_step E as i' Hi'. apply Ok_inj in E. injection E as -> _. unfold discover_issuer_only in Hi'. bind_step Hi' as u Hu. bind_step Hi' as data Hd. bind_step Hi' as named Hn.
      by apply validate_discovered_issuer_Ok, validate_exact_oidc_issuer_Ok in Hi' as (-> & _ & Hp).
    + destruct (negb (first_non_empty (ox_discovery_url opts) _ ==? [])).
      * bind_step E as doc Hd. apply Ok_inj in E. injection E as <- _. apply discover_oidc_document_Ok in Hd as [(u & [_ [_ Hp] _ _] & _) _]. done.
      * destruct (i0 ==? []) eqn:Ei; [done|]. assert (issuer = i0) as ->. { destruct (_ && _) in E; [bind_step E as doc Hd|]; apply Ok_inj in E; by injection E as ->. }
        destruct (first_non_empty (ox_issuer opts) _ ==? []); [apply Ok_inj in Hi0; by subst i0|]. by apply validate_exact_oidc_issuer_Ok in Hi0 as (-> & _ & Hp).
  - destruct (negb (te ==? [])); [by apply validate_configured_endpoint_Ok in Hte as [-> Hp]|]. destruct (negb (server ==? [])); [|done]. by apply validate_configured_endpoint_Ok in Hte as [-> Hp].
Qed.
End requests.


(** Where an assertion goes.  When [exchange_oidc_token] returns, the form it
    posted carried an assertion that decodes and that either names exactly the
    issuer as its audience or was created for that very issuer; issuer and token
    endpoint are HTTPS URLs, or HTTP ones of a loopback host, which is contacted only
    when allowed, without query, fragment and credentials; and the answer has status
    200, is no redirect and holds a bearer token. *)
Theorem exchange_targets_issuer `{Platform, PyLib, OidcLib, HttpPlatform} (env : http_env)
    (http_get : list nat → str → option str → res oidc_response) (http_post : list nat → str → list (str * str) → option str → res oidc_response)
    (uuid4_hex : list nat → str) (profile : OIDCProfile) (path : list nat) (opts : OIDCTokenExchangeOptions) (t : OIDCTokenResponse)
    (Hok : exchange_oidc_token env http_get http_post uuid4_hex profile path opts = Ok t) :
  ∃ assertion header claims q host r,
    http_post q (ot_token_endpoint t) (exchange_form assertion (ox_audience opts) (ot_requested_scope t)) host = Ok r ∧ answered r (ot_raw t)
    ∧ decode_jwt assertion = Ok (header, claims)
    ∧ (ox_assertion opts = assertion ∧ to_string_list (member (lit "aud") claims) = [ot_issuer t]
       ∨ ox_assertion opts = [] ∧ ∃ q, create_oidc_assertion env uuid4_hex profile q
           {| oa_issuer := ot_issuer t; oa_expiry := ox_assertion_expiry opts; oa_additional_claims := [] |} = Ok assertion)
    ∧ (∃ p, sound_url (oc_allow_http_loopback_issuer (op_config profile)) (ot_issuer t) p)
    ∧ (∃ p, sound_url true (ot_token_endpoint t) p ∧ url_path p ≠ []) ∧ permitted (oc_allow_http_loopback_issuer (op_config profile)) (ot_token_endpoint t)
    ∧ ot_access_token t ≠ [] ∧ str_lower (ot_token_type t) = lit "bearer".
Proof.
  unfold exchange_oidc_token in Hok. guard_step Hok as G1. destruct (resolve_token_exchange_target _ _ _ _ _) as [[issuer endpoint]|] eqn:Er; [|done]. cbn [mbind result_bind] in Hok.
  bind_step Hok as assertion Ha. destruct (decode_jwt assertion) as [[header claims]|] eqn:Ed; [|done]. cbn [mbind result_bind] in Hok. guard_step Hok as G2.
  destruct (assertion_datetimes claims) as [[ia ea]|]; [|done]. cbn [mbind result_bind] in Hok. bind_step Hok as scope Hsc. cbv zeta in Hok. bind_step Hok as data Hp. guard_step Hok as G3. guard_step Hok as G4.
  apply Ok_inj in Hok. subst t. cbn. apply post_form_json_Ok in Hp as [Hperm (q & host & r & Hpost & Hans)]. destruct (resolve_target_Ok _ _ _ _ _ _ _ Er) as [Hi He].
  exists assertion, header, claims, q, host, r. apply eqb_false in G3. apply negb_false_iff in G4. rewrite eqb_true in G4. split_and!; try done.
  destruct (ox_assertion opts ==? []) eqn:Eo; cbn [negb andb] in Ha, G2.
  - right. rewrite eqb_true in Eo. split; [done|]. by eexists.
  - left. apply Ok_inj in Ha. split; [done|]. apply negb_false_iff in G2. by apply bool_decide_eq_true in G2.
Qed.

(** ** A concrete OIDC issuer *)
#[local] Instance oidc_resolver : IdentityResolver toy_cache (VerifiedDomain log_binding) := manager_resolver active toy_policy 3 false.
#[local] Instance oidc_resolver_spec : ResolverSpec toy_cache (VerifiedDomain log_binding) := manager_resolver_spec active toy_policy 3 false.

(** [json.loads] of UTF-8, and addresses that start with [127.]. *)
#[local] Instance oidc_pylib : PyLib := {|
  json_loads := λ body, text ← utf8_decode body; loads python_hooks text;
  urljoin := λ _ url, Ok url;
  fromisoformat := λ _, Raise (ValueError (lit "Invalid isoformat string"))
|}.
#[local] Instance oidc_lib : OidcLib := {| ip_is_loopback host := startswith (lit "127.") host |}.

(** The documents of the issuer. *)
Definition toy_issuer : str := lit "https://issuer.example.net".
Definition toy_document : json :=
  JDict [(lit "issuer", JStr toy_issuer); (lit "token_endpoint", JStr (toy_issuer ++ lit "/token")); (lit "jwks_uri", JStr (toy_issuer ++ lit "/keys"))].
Definition respond (status : Z) (v : json) : oidc_response :=
  {| or_is_redirect := false; or_status_code := status; or_chunks := [or_text (dumps v)]; or_failure := None |}.
Definition toy_get (_ : list nat) (url : str) (_ : option str) : res oidc_response :=
  if url ==? discovery_url_of toy_issuer then Ok (respond 200 toy_document)
  else if url ==? toy_issuer ++ lit "/keys" then Ok (respond 200 (key_set op1))
  else Raise (HttpxError HConnect (lit "not found")).
Definition toy_post (status : Z) (v : json) (_ : list nat) (_ : str) (_ : list (str * str)) (_ : option str) : res oidc_response := Ok (respond status v).

(** A token that it issued for the identity. *)
Definition oidc_audience : str := lit "client-7".
Definition oidc_claims : list (str * json) :=
  [(lit "iss", JStr toy_issuer); (lit "sub", JStr toy_domain); (lit "aud", JList [JStr oidc_audience]); (lit "iat", JInt 1699999990); (lit "exp", JInt 1700000300)].
Definition oidc_token : str := or_text (sign_jwt (jose_header (lit "EdDSA") (JStr (lit "ku-1")) "JWT") (JDict oidc_claims) (toy_provider op1 op1_bytes)).
Definition toy_oidc_config : OIDCConfig :=
  {| oc_default_scope := lit "openid"; oc_assertion_lifetime := 300 * second_us; oc_max_assertion_lifetime := 900 * second_us; oc_clock_skew := 30 * second_us;
     oc_allowed_issuers := [toy_issuer]; oc_allowed_token_algorithms := [lit "EdDSA"]; oc_allow_http_loopback_issuer := false; oc_default_issuer := toy_issuer;
     oc_default_server_url := []; oc_default_discovery_url := []; oc_default_token_endpoint := [] |}.
Definition toy_oidc : OIDCProfile := {| op_key_provider := Some (toy_provider op1 op1_bytes); op_domain := toy_domain; op_config := toy_oidc_config |}.
Definition oidc_options : VerifyOIDCTokenOptions := {| vo_issuer := toy_issuer; vo_audience := oidc_audience; vo_verify_dnsid_subject := true |}.
Definition oidc_verified (c : toy_cache) := verify_oidc_token toy_http_env toy_get toy_oidc [1%nat] oidc_token oidc_options (Some toy_cert) c.


(** An exchange with a fresh assertion. *)
Definition toy_exchange : OIDCTokenExchangeOptions :=
  {| ox_issuer := []; ox_audience := oidc_audience; ox_scope := ScopeList [lit "openid"; lit "email"]; ox_assertion := []; ox_server_url := []; ox_discovery_url := [];
     ox_token_endpoint := []; ox_assertion_expiry := None |}.
Definition toy_grant : json := JDict [(lit "access_token", JStr (lit "secret")); (lit "token_type", JStr (lit "Bearer")); (lit "expires_in", JInt 300)].
Definition exchanged (status : Z) (v : json) : res OIDCTokenResponse :=
  exchange_oidc_token toy_http_env toy_get (toy_post status v) (λ _, lit "00000000000040008000000000000000") toy_oidc [] toy_exchange.

Lemma exchange_targets_issuer_witness : ∃ t p, exchanged 200 toy_grant = Ok t ∧ sound_url true (ot_token_endpoint t) p.
Proof.
  destruct (is_Ok_true (exchanged 200 toy_grant)) as [t Ht]; [vm_compute; reflexivity|]. exists t.
  destruct (exchange_targets_issuer toy_http_env toy_get (toy_post 200 toy_grant) (λ _, lit "00000000000040008000000000000000") toy_oidc [] toy_exchange t Ht)
    as (_ & _ & _ & _ & _ & _ & _ & _ & _ & _ & _ & (p & Hp & _) & _). exists p. split; [exact Ht|exact Hp].
Defined.

(** Errors of other classes: an error answer whose JSON is no object, and a
    discovery document with a malformed endpoint. *)
Definition broken_get (_ : list nat) (url : str) (_ : option str) : res oidc_response :=
  Ok (respond 200 (JDict [(lit "issuer", JStr toy_issuer); (lit "token_endpoint", JStr (toy_issuer ++ lit "/token")); (lit "jwks_uri", JStr (lit "https://[issuer"))])).
Theorem oidc_errors_escape :
  raised (exchanged 400 (JList [])) = Some (AttributeError (lit "object has no attribute 'get'"))
  ∧ raised (verify_oidc_token toy_http_env broken_get toy_oidc [1%nat] oidc_token oidc_options None (∅ : toy_cache)).2 = Some (ValueError (lit "Invalid IPv6 URL")).
Proof. split; vm_compute; reflexivity. Qed.
