(* ===== verification/BotAuth.v ===== *)
(** * Bot bearer tokens ([dnsid/web_bot_auth.py])

    Requests that carry a JWT of the bot's identity as a bearer token.  The HTTP
    client with a signing transport is not modelled; a request is its URL and its
    headers as [dict(request.headers)] gives them. *)
From S2P Require Import Prelude Errors PyText Base64 Utils Lr PyFloat PyNum PyTime Canonical Keys TxtRecord Identity HttpsClient Manager Publication HttpModels HttpSignatures HttpProfile Jose Oidc.

(** Texts when a request is signed; whatever JSON values the claim has when one is
    verified. *)
Record BotIdentity (T : Type) : Type := { bi_name : T; bi_version : T; bi_purpose : T; bi_operator_url : T }.
Arguments bi_name {T} _.
Arguments bi_version {T} _.
Arguments bi_purpose {T} _.
Arguments bi_operator_url {T} _.

Record BotAuthConfig : Set := { bc_max_lifetime : Z; bc_clock_skew : Z; bc_require_bot_claim : bool }.
Definition default_bot_config : BotAuthConfig := {| bc_max_lifetime := 15 * 60 * second_us; bc_clock_skew := 60 * second_us; bc_require_bot_claim := false |}.
Record VerifiedBotRequest (R : Type) : Type := { vb_domain : str; vb_bot : option (BotIdentity json); vb_verified_domain : VerifiedDomain R; vb_claims : list (str * json) }.
Arguments vb_domain {R} _.
Arguments vb_bot {R} _.
Arguments vb_verified_domain {R} _.
Arguments vb_claims {R} _.
Definition DEFAULT_BOT_JWT_EXPIRY : Z := 5 * 60 * second_us.
Definition BOT_RESERVED : list str := RESERVED_CLAIMS ++ [lit "bot"].

Record WebBotAuthProfile : Type := { wp_key_provider : option SigningProvider; wp_domain : str; wp_bot : option (BotIdentity str); wp_config : BotAuthConfig }.

(** [_get_header_ci] *)
Definition get_header_ci `{Platform} (headers : list (str * str)) (name : str) : str :=
  match List.find (λ h, str_lower h.1 ==? str_lower name) headers with Some h => h.2 | None => [] end.

(** [int(delta.total_seconds())] *)
Definition total_seconds_int (us : Z) : Z := Z.quot us 1000000.

Section bots.
Context `{Platform, PyLib}.

(** [WebBotAuthProfile.__init__] *)
Definition init_bot (provider : option SigningProvider) (domain : str) (bot : option (BotIdentity str)) (config : option BotAuthConfig) : res WebBotAuthProfile :=
  domain ← (if domain ==? [] then Ok [] else normalize_fqdn idna_encode domain false);
  Ok {| wp_key_provider := provider; wp_domain := domain; wp_bot := bot; wp_config := default default_bot_config config |}.
Definition bot_from_identity_manager (m : local_manager) (bot : option (BotIdentity str)) (config : option BotAuthConfig) : res WebBotAuthProfile :=
  init_bot (lm_key_provider m) (local_domain m) bot config.

(** ** Signing *)

(** The origin of a URL, the default port left out. *)
Definition target_audience (target_url : str) : res str :=
  parsed ← urlsplit netloc_ok target_url;
  let scheme := url_scheme parsed in
  match hostname str_lower (url_netloc parsed) with
  | Some host =>
      raise_if ((scheme ==? []) || (host ==? [])) (arg_error "target_url must be a valid URL with scheme and host") ;;
      p ← port (url_netloc parsed);
      let suffix := match p with
                    | Some n =>
                        if (n =? 0) || ((scheme ==? lit "https") && (n =? 443)) || ((scheme ==? lit "http") && (n =? 80)) then [] else 58 :: str_of_int n
                    | None => []
                    end in
      Ok (scheme ++ lit "://" ++ host ++ suffix)
  | None => Raise (arg_error "target_url must be a valid URL with scheme and host")
  end.

Definition bot_claim (bot : BotIdentity str) : json :=
  let optional name (v : str) := if v ==? [] then [] else [(lit name, JStr v)] in
  JDict ([(lit "name", JStr (bi_name bot))] ++ optional "version"%string (bi_version bot) ++ optional "purpose"%string (bi_purpose bot)
         ++ optional "operator_url"%string (bi_operator_url bot)).

Context (env : http_env) (uuid4 : list nat → str) (profile : WebBotAuthProfile).
Abbreviation config := (wp_config profile).

Definition bot_claims (aud : str) (iat exp : Z) (jti : str) (additional : list (str * json)) : list (str * json) :=
  [(lit "iss", JStr (wp_domain profile)); (lit "sub", JStr (wp_domain profile)); (lit "aud", JStr aud); (lit "iat", JInt iat); (lit "exp", JInt exp);
   (lit "jti", JStr jti)] ++ match wp_bot profile with Some bot => [(lit "bot", bot_claim bot)] | None => [] end ++ additional.

Definition create_bot_token (path : list nat) (target_url : str) (expiry : option Z) (additional : list (str * json)) : res str :=
  match wp_key_provider profile with
  | None => Raise (arg_error "bot token signing requires a key_provider; profile is verification-only")
  | Some key_provider =>
      raise_if (wp_domain profile ==? []) (arg_error "bot token signing requires a key_provider; profile is verification-only") ;;
      audience ← target_audience target_url;
      let token_expiry := match expiry with Some e => if e =? 0 then DEFAULT_BOT_JWT_EXPIRY else e | None => DEFAULT_BOT_JWT_EXPIRY end in
      raise_if (bc_max_lifetime config <? token_expiry) (arg_error "bot token expiry exceeds maximum lifetime") ;;
      let now := utc (he_clock env (0 :: path)%nat) in
      raise_if (existsb (λ c, bool_decide (c.1 ∈ BOT_RESERVED)) additional) (arg_error "additional_claims must not override reserved claim") ;;
      until ← dt_add now token_expiry;
      let claims := bot_claims audience (int_of_num (seconds_of (dt_wall now))) (int_of_num (seconds_of (dt_wall until))) (uuid4 (1 :: path)%nat) additional in
      signing_key ← sp_signing_key key_provider;
      alg ← signature_alg signing_key;
      sign_jwt (jose_header alg (jwk_kid signing_key) "JWT") (JDict claims) key_provider
  end.

Definition bot_user_agent (bot : BotIdentity str) : str :=
  join [32] ([if bi_version bot ==? [] then bi_name bot else bi_name bot ++ [47] ++ bi_version bot]
             ++ (if bi_operator_url bot ==? [] then [] else [lit "(+" ++ bi_operator_url bot ++ lit ")"])).

(** The headers of the new request. *)
Definition sign_bot_request (path : list nat) (url : str) (headers : list (str * str)) (expiry : option Z) (additional : list (str * json)) : res (list (str * str)) :=
  raise_if (bool_decide (is_Some (dict_get (lit "authorization") headers))) (arg_error "request already contains Authorization") ;;
  token ← create_bot_token path url expiry additional;
  let headers := dict_set (lit "authorization") (lit "Bearer " ++ token) headers in
  Ok (match wp_bot profile with Some bot => dict_set (lit "user-agent") (bot_user_agent bot) headers | None => headers end).

(** ** Verification *)
Definition bearer_token (headers : list (str * str)) : res str :=
  let auth_value := get_header_ci headers (lit "authorization") in
  raise_if (auth_value ==? []) (jose_refused "missing Authorization header") ;;
  raise_if (negb (startswith (lit "bearer ") (str_lower auth_value))) (jose_refused "Authorization header must use Bearer scheme") ;;
  let token := strip is_space (drop 7 auth_value) in
  raise_if (token ==? []) (jose_refused "empty Bearer token") ;;
  Ok token.

Definition decode_jwt_parts (jwt : str) : res (json * json) :=
  match split 46 jwt with
  | [a; b; _] =>
      h ← b64url_decode a; header ← json_loads h;
      c ← b64url_decode b; claims ← json_loads c;
      Ok (header, claims)
  | _ => Raise (jose_invalid "malformed JWT: expected 3 dot-separated components")
  end.

Definition as_dict (v : json) : res (list (str * json)) :=
  match v with JDict d => Ok d | _ => Raise (AttributeError (lit "object has no attribute 'get'")) end.

Definition bot_issuer (claims : list (str * json)) : res str :=
  let iss := get "iss" JNull claims in
  raise_if (falsy iss) (jose_invalid "JWT missing iss claim") ;;
  iss ← match iss with JStr s => Ok s | _ => Raise (jose_invalid "JWT iss claim must be a string") end;
  iss ← normalize_fqdn idna_encode iss false;
  match member (lit "sub") claims with
  | None => Ok ()
  | Some (JStr sub) =>
      if sub ==? [] then Ok () else s ← normalize_fqdn idna_encode sub false; raise_if (negb (s ==? iss)) (jose_invalid "JWT sub must equal iss")
  | Some _ => Raise (jose_invalid "JWT sub claim must be a string")
  end ;;
  Ok iss.

Definition bot_audience (claims : list (str * json)) (expected : str) : res unit :=
  aud_list ← match get "aud" JNull claims with
             | JNull => Raise (jose_invalid "JWT audience mismatch")
             | JStr s => Ok [s]
             | JList l => mapM_res (λ v, match v with JStr s => Ok s | _ => Raise (jose_invalid "JWT aud claim contains non-string value") end) l
             | _ => Raise (jose_invalid "JWT aud claim must be a string or array of strings")
             end;
  raise_if (negb (bool_decide (expected ∈ aud_list))) (jose_invalid "JWT audience mismatch").

Definition integer_claim (claims : list (str * json)) (name : string) : res Z :=
  match get name (JInt 0) claims with
  | JInt n => raise_if (n =? 0) (jose_invalid "JWT missing claim") ;; Ok n
  | _ => Raise (jose_invalid "JWT claim must be an integer")
  end.
Definition bot_times (path : list nat) (claims : list (str * json)) : res unit :=
  let now_ts := whole_seconds (he_clock env path) in
  iat ← integer_claim claims "iat";
  raise_if (now_ts + total_seconds_int (bc_clock_skew config) <? iat) (jose_invalid "JWT iat is in the future") ;;
  exp ← integer_claim claims "exp";
  raise_if (exp <=? iat) (jose_invalid "JWT exp must be after iat") ;;
  raise_if (total_seconds_int (bc_max_lifetime config) <? exp - iat) (jose_invalid "JWT lifetime exceeds maximum") ;;
  raise_if (exp <? now_ts) (jose_invalid "JWT is expired").

Definition bot_data (claims : list (str * json)) : res (option (BotIdentity json)) :=
  let data := get "bot" JNull claims in
  (if bc_require_bot_claim config then
     raise_if (falsy data) (jose_invalid "JWT missing required bot claim") ;;
     match data with JDict _ => Ok () | _ => Raise (jose_invalid "JWT bot claim must be an object") end
   else Ok ()) ;;
  Ok (match data with
      | JDict d => let field name := get name (JStr []) d in
                   Some {| bi_name := field "name"%string; bi_version := field "version"%string; bi_purpose := field "purpose"%string; bi_operator_url := field "operator_url"%string |}
      | _ => None
      end).

(** Everything that is checked before the issuer is resolved. *)
Definition check_bot_request (path : list nat) (headers : list (str * str)) (expected : str) : res (str * json * list (str * json) * str * option (BotIdentity json)) :=
  raise_if (expected ==? []) (arg_error "expected_audience must be a non-empty string") ;;
  token ← bearer_token headers;
  '(header, claims) ← decode_jwt_parts token;
  claims ← as_dict claims;
  iss ← bot_issuer claims;
  bot_audience claims expected ;;
  bot_times path claims ;;
  bot ← bot_data claims;
  Ok (token, header, claims, iss, bot).

Section resolution.
Context {S R : Type} `{IdentityResolver S (VerifiedDomain R)}.

Definition bot_key (header : json) (vd : VerifiedDomain R) : res JWK :=
  header ← as_dict header;
  match key_by_id (get "kid" (JStr []) header) (vd_jwks vd) with
  | None => Raise (vfail KEY_NOT_FOUND "JWT kid not found in issuer JWKS")
  | Some signing_key =>
      let alg := get "alg" (JStr []) header in
      raise_if (negb (hashable alg)) unhashable ;;
      raise_if (negb (existsb (λ a, py_eq alg (JStr a)) APPLICATION_JOSE_ALGS)) (jose_refused "JWT alg not in allowlist") ;;
      key_alg ← signature_alg signing_key;
      raise_if (negb (py_eq alg (JStr key_alg))) (jose_refused "JWT alg mismatch") ;;
      Ok signing_key
  end.

Definition finish_bot (token : str) (header : json) (claims : list (str * json)) (iss : str) (bot : option (BotIdentity json)) (vd : VerifiedDomain R)
    : res (VerifiedBotRequest R) :=
  signing_key ← bot_key header vd;
  '(a, b, c) ← match split 46 token with [a; b; c] => Ok (a, b, c) | _ => Raise (IndexError (lit "list index out of range")) end;
  sig ← b64url_decode c;
  valid ← jwk_verify signing_key (compact a b) sig;
  raise_if (negb valid) (jose_refused "JWT signature invalid") ;;
  Ok {| vb_domain := iss; vb_bot := bot; vb_verified_domain := vd; vb_claims := claims |}.

Definition verify_bot_request (path : list nat) (headers : list (str * str)) (expected_audience : str) (peer_cert : option TLSCertificate) : MM S (VerifiedBotRequest R) :=
  '(token, header, claims, iss, bot) ← pure (check_bot_request (0 :: path)%nat headers expected_audience);
  vd ← resolve_domain (1 :: path)%nat iss peer_cert;
  pure (finish_bot token header claims iss bot vd).
End resolution.
End bots.
