(* ===== verification/BotAuthSpec.v ===== *)
(** * What a verified bot request rests on, and a concrete one *)
From S2P Require Import Prelude Sha256 Errors PyText Base64 Utils SignedNote Lr ResourceFetcher PyNum PyTime Canonical CanonicalSpec Keys LifecycleDemo TxtRecord Identity HttpsClient Manager ManagerSpec Publication PublicationSpec ManagerDemo HttpModels HttpSignatures HttpProfile HttpSpec HttpRoundtrip HttpDemo Jose JoseSpec WbaVerifier Oidc OidcSpec BotAuth.

Section soundness.
Context `{Platform, PyLib} (env : http_env) (profile : WebBotAuthProfile).
Abbreviation config := (wp_config profile).

(** Times in whole seconds. *)
Definition bot_timely (now : Z) (claims : list (str * json)) : Prop := ∃ iat exp, member (lit "iat") claims = Some (JInt iat) ∧ member (lit "exp") claims = Some (JInt exp)
  ∧ iat ≠ 0 ∧ iat ≤ now + total_seconds_int (bc_clock_skew config) ∧ iat < exp ∧ exp - iat ≤ total_seconds_int (bc_max_lifetime config) ∧ now ≤ exp.
Lemma integer_claim_Ok claims name n : integer_claim claims name = Ok n → member (lit name) claims = Some (JInt n) ∧ n ≠ 0.
Proof.
  unfold integer_claim, get. destruct (member (lit name) claims) as [v|]; [|done]. destruct v; try done. cbn. intros Hx. guard_step Hx as G. apply Z.eqb_neq in G. apply Ok_inj in Hx. by subst.
Qed.
Lemma bot_times_Ok path claims : bot_times env profile path claims = Ok () → bot_timely (whole_seconds (he_clock env path)) claims.
Proof.
  unfold bot_times. intros Hx. bind_step Hx as iat Hi. guard_step Hx as G1. bind_step Hx as exp He. guard_step Hx as G2. guard_step Hx as G3. destruct (exp <? _) eqn:G4 in Hx; [done|].
  apply integer_claim_Ok in Hi as [Hi Hne], He as [He _]. exists iat, exp. split_and!; try done; lia.
Qed.

(** What is checked before the issuer is resolved. *)
Record bot_checked (t : Z) (headers : list (str * str)) (expected token iss : str) (header : json) (claims : list (str * json)) : Prop := {
  bk_bearer : bearer_token headers = Ok token;
  bk_token : ∃ a b c h d, split 46 token = [a; b; c] ∧ b64url_decode a = Ok h ∧ json_loads h = Ok header ∧ b64url_decode b = Ok d ∧ json_loads d = Ok (JDict claims);
  bk_issuer : ∃ text, member (lit "iss") claims = Some (JStr text) ∧ normalize_fqdn idna_encode text false = Ok iss;
  bk_subject : ∀ sub, member (lit "sub") claims = Some sub → sub = JStr [] ∨ ∃ text, sub = JStr text ∧ normalize_fqdn idna_encode text false = Ok iss;
  bk_audience : expected ≠ [] ∧ (member (lit "aud") claims = Some (JStr expected) ∨ ∃ l, member (lit "aud") claims = Some (JList l) ∧ JStr expected ∈ l);
  bk_times : bot_timely (whole_seconds t) claims;
  bk_bot : bc_require_bot_claim config = true → ∃ d, member (lit "bot") claims = Some (JDict d)
}.

Lemma bot_issuer_Ok claims iss : bot_issuer claims = Ok iss → (∃ text, member (lit "iss") claims = Some (JStr text) ∧ normalize_fqdn idna_encode text false = Ok iss) ∧
  ∀ sub, member (lit "sub") claims = Some sub → sub = JStr [] ∨ ∃ text, sub = JStr text ∧ normalize_fqdn idna_encode text false = Ok iss.
Proof.
  unfold bot_issuer, get. intros Hx. guard_step Hx as G1. bind_step Hx as text Ht. bind_step Hx as i Hi. apply bind_unit_Ok in Hx as [Hs Hx]. apply Ok_inj in Hx. subst i. split.
  - destruct (member (lit "iss") claims) as [v|]; [|done]. destruct v; try done. apply Ok_inj in Ht. subst. eauto.
  - intros sub Hsub. rewrite Hsub in Hs. destruct sub as [| | | |s| |]; try done. destruct (s ==? []) eqn:E; [rewrite eqb_true in E; subst; by left|]. right. exists s. split; [done|].
    bind_step Hs as n Hn. destruct (n ==? iss) eqn:E'; [|done]. rewrite eqb_true in E'. by subst.
Qed.
Lemma bot_audience_Ok claims expected : bot_audience claims expected = Ok () →
  member (lit "aud") claims = Some (JStr expected) ∨ ∃ l, member (lit "aud") claims = Some (JList l) ∧ JStr expected ∈ l.
Proof.
  unfold bot_audience, get. intros Hx. bind_step Hx as l Hl. destruct (bool_decide_reflect (expected ∈ l)) as [Hin|]; [|done]. destruct (member (lit "aud") claims) as [v|]; [|done]. destruct v as [| | | |s|vs|]; try done.
  - apply Ok_inj in Hl. subst l. apply list_elem_of_singleton in Hin as ->. by left.
  - right. exists vs. split; [done|]. cbn in Hl. apply mapM_res_Ok in Hl. apply list_elem_of_lookup in Hin as [i Hi]. destruct (Forall2_lookup_r _ _ _ _ _ Hl Hi) as (v & Hv & Hs).
    destruct v; try done. apply Ok_inj in Hs. subst. by eapply list_elem_of_lookup_2.
Qed.

Lemma check_bot_request_Ok path headers expected token header claims iss bot : check_bot_request env profile path headers expected = Ok (token, header, claims, iss, bot) →
  bot_checked (he_clock env path) headers expected token iss header claims ∧ bot_data profile claims = Ok bot.
Proof.
  unfold check_bot_request. intros Hx. guard_step Hx as G. apply eqb_false in G. bind_step Hx as tk Hb. destruct (decode_jwt_parts tk) as [[h c]|] eqn:Ed; [|done]. cbn [mbind result_bind] in Hx. bind_step Hx as cl Hcl.
  bind_step Hx as i Hi. apply bind_unit_Ok in Hx as [Ha Hx]. apply bind_unit_Ok in Hx as [Ht Hx]. bind_step Hx as bt Hbt. apply Ok_inj in Hx. injection Hx as -> -> -> -> ->. split; [|done].
  destruct c; try done. apply Ok_inj in Hcl. subst. destruct (bot_issuer_Ok _ _ Hi) as [Hiss Hsub]. split; try done.
  - unfold decode_jwt_parts in Ed. destruct (split 46 token) as [|x [|y [|z [|]]]]; try done. bind_step Ed as hb Hhb. bind_step Ed as hd Hhd. bind_step Ed as cb Hcb. bind_step Ed as cd Hcd.
    apply Ok_inj in Ed. injection Ed as -> ->. by exists x, y, z, hb, cb.
  - split; [done|]. by apply bot_audience_Ok.
  - by apply bot_times_Ok.
  - intros Hr. unfold bot_data in Hbt. rewrite Hr in Hbt. unfold get in Hbt. apply bind_unit_Ok in Hbt as [Hq _]. guard_step Hq as Gf. destruct (member (lit "bot") claims) as [v|]; [|done]. destruct v; try done. eauto.
Qed.

Lemma bot_key_Ok {R} header (vd : VerifiedDomain R) key : bot_key header vd = Ok key → ∃ d alg,
  header = JDict d ∧ key_by_id (get "kid" (JStr []) d) (vd_jwks vd) = Some key ∧ signature_alg key = Ok alg ∧ alg ∈ APPLICATION_JOSE_ALGS ∧ get "alg" (JStr []) d = JStr alg.
Proof.
  unfold bot_key. intros Hx. bind_step Hx as d Hd. destruct header; try done. apply Ok_inj in Hd. subst d. destruct (key_by_id _ _) as [k|] eqn:Ek; [|done]. guard_step Hx as G1. guard_step Hx as G2. bind_step Hx as alg Ha. guard_step Hx as G3.
  apply Ok_inj in Hx. subst k. apply negb_false_iff in G3. apply py_eq_str in G3. eexists _, alg. split_and!; try done. by eapply signature_alg_allowed.
Qed.
End soundness.

(** What a verified bot request rests on.  When [verify_bot_request] returns, the
    [Authorization] header holds a bearer token whose issuer, also its subject when it
    names one, is the domain that is returned, and whose audience is exactly the
    expected one; it was issued, unexpired and of bounded lifetime at a reading of
    the clock; it has the metadata of the bot when that is required; the resolver
    vouches for the issuer with the result; and the key of the name in the header,
    of the algorithm it declares, verifies the signature over exactly the first two
    segments. *)
Theorem bot_request_sound `{Platform, PyLib} {S R : Type} `{ResolverSpec S (VerifiedDomain R)} (env : http_env) (profile : WebBotAuthProfile) (path : list nat)
    (headers : list (str * str)) (expected : str) (cert : option TLSCertificate) (s s' : S) (v : VerifiedBotRequest R) (Hs : rs_inv s)
    (Hok : verify_bot_request env profile path headers expected cert s = (s', Ok v)) :
  rs_inv s' ∧ rs_vouches (vb_domain v) cert (vb_verified_domain v) ∧ ∃ header token a b c sig key alg,
    bot_checked profile (he_clock env (0 :: path)%nat) headers expected token (vb_domain v) (JDict header) (vb_claims v)
    ∧ token = compact (compact a b) c ∧ b64url_decode c = Ok sig ∧ key_by_id (get "kid" (JStr []) header) (vd_jwks (vb_verified_domain v)) = Some key
    ∧ signature_alg key = Ok alg ∧ alg ∈ APPLICATION_JOSE_ALGS ∧ get "alg" (JStr []) header = JStr alg ∧ jwk_verify key (compact a b) sig = Ok true.
Proof.
  unfold verify_bot_request, mbind, MM_bind, pure in Hok. destruct (check_bot_request _ _ _ _ _) as [[[[[token header] claims] iss] bot]|e] eqn:Ec; [|done].
  destruct (resolve_domain _ _ _ s) as [s1 [vd|e]] eqn:Er; [|done]. destruct (resolve_sound _ _ _ _ _ _ Hs Er) as [Hs1 Hv]. destruct (finish_bot _ _ _ _ _ _) as [w|e] eqn:Ef; [|done]. injection Hok as <- <-.
  unfold finish_bot in Ef. bind_step Ef as key Hk. destruct (split 46 token) as [|a [|b [|c [|]]]] eqn:Es; try done. cbn [mbind result_bind] in Ef. bind_step Ef as sig Hsig. bind_step Ef as valid Hvalid. destruct valid; [|done].
  apply Ok_inj in Ef. subst w. cbn. split_and!; [done|by apply Hv|]. apply check_bot_request_Ok in Ec as [Hc _]. apply bot_key_Ok in Hk as (d & alg & -> & Hkey & Halg & Hin & Hget).
  exists d, token, a, b, c, sig, key, alg. split_and!; try done. rewrite <- (join_split 46 token), Es. cbn [join]. unfold compact. by rewrite <- !app_assoc.
Qed.

(** ** A concrete request *)
#[local] Instance bot_resolver : IdentityResolver toy_cache (VerifiedDomain log_binding) := oidc_resolver.
#[local] Instance bot_resolver_spec : ResolverSpec toy_cache (VerifiedDomain log_binding) := oidc_resolver_spec.
Definition acme_bot : BotIdentity str := {| bi_name := lit "AcmeBot"; bi_version := lit "1.0"; bi_purpose := []; bi_operator_url := lit "https://acme.example/bot" |}.
Definition toy_bot_profile : WebBotAuthProfile := {| wp_key_provider := Some (toy_provider op1 op1_bytes); wp_domain := toy_domain; wp_bot := Some acme_bot; wp_config := default_bot_config |}.
Definition bot_headers : list (str * str) :=
  match sign_bot_request toy_http_env (λ _, lit "00000000-0000-4000-8000-000000000000") toy_bot_profile [] (lit "https://target.example:443/api") [(lit "host", lit "target.example")] None [] with
  | Ok h => h | Raise _ => []
  end.
Definition bot_request_verified (headers : list (str * str)) (c : toy_cache) :=
  verify_bot_request (H0 := oidc_pylib) toy_http_env toy_bot_profile [1%nat] headers (lit "https://target.example") (Some toy_cert) c.

Lemma bot_request_sound_witness : ∃ v, (bot_request_verified bot_headers ∅).2 = Ok v ∧ rs_vouches (vb_domain v) (Some toy_cert) (vb_verified_domain v).
Proof.
  destruct (is_Ok_true (bot_request_verified bot_headers ∅).2) as [v Hv]; [vm_compute; reflexivity|]. exists v. split; [exact Hv|].
  destruct (bot_request_sound (H0 := oidc_pylib) toy_http_env toy_bot_profile [1%nat] bot_headers (lit "https://target.example") (Some toy_cert) ∅ (bot_request_verified bot_headers ∅).1 v) as (_ & Hvouch & _).
  - apply nothing_held.
  - rewrite <- Hv. apply surjective_pairing.
  - exact Hvouch.
Defined.

(** A token that cannot be decoded raises the error of the decoder. *)
Theorem bot_malformed_escapes : raised (bot_request_verified [(lit "Authorization", lit "Bearer a.b.c")] ∅).2 = Some (ValueError (lit "Invalid base64-encoded string: number of data characters cannot be 1 more than a multiple of 4")).
Proof. vm_compute. reflexivity. Qed.
