(* ===== verification/Destination.v ===== *)
(** * Destinations of SDK-managed reads ([dnsid/safe_transport.py])

    Which address a connection may go to: all addresses of a host are resolved and
    checked, and one of those very addresses is connected to.  The asynchronous
    backend repeats the same steps; the sockets, TLS and the connection pool are not
    modelled. *)
From S2P Require Import Prelude Errors PyText Utils Lr ResourceFetcher Keys.

(** ** Addresses *)

(** An address of [ipaddress]: its text, version and value, and the properties the
    code asks for. *)
Record address : Set := {
  ad_text : str;
  ad_version : Z;
  ad_value : Z;
  ad_is_global : bool;
  ad_is_loopback : bool;
  ad_is_private : bool;
  ad_is_link_local : bool;
  ad_is_reserved : bool;
  ad_is_multicast : bool;
  ad_is_unspecified : bool
}.

(** What [dnspython] answers to a question for [A] or [AAAA] records. *)
Inductive address_answer : Set := Answers (texts : list str) | NoAnswer | DnsFailure.

(** [ipaddress.ip_address], [None] when it raises [ValueError]; the IPv4 address in
    an IPv4-mapped one; and [encode("idna")], [None] when it raises. *)
Class IpLib := { ip_address : str → option address; ipv4_mapped : address → option address; idna_codec : str → option str }.

(** [ip in network] of the same version. *)
Definition in_network (bits prefix base : Z) (ip : address) : bool := Z.shiftr (ad_value ip) (bits - prefix) =? Z.shiftr base (bits - prefix).
Definition RFC1918 (ip : address) : bool :=
  in_network 32 8 (10 * 2 ^ 24) ip || in_network 32 12 (172 * 2 ^ 24 + 16 * 2 ^ 16) ip || in_network 32 16 (192 * 2 ^ 24 + 168 * 2 ^ 16) ip.
Definition RFC4193 (ip : address) : bool := in_network 128 7 (0xfc00 * 2 ^ 112) ip.

(** [httpcore.ConnectError], which the transport turns into [httpx.ConnectError]. *)
Definition unresolved : exn := HttpxError HConnect (lit "unable to resolve").
Definition blocked (host address : str) : exn :=
  HttpxError HConnect (SSRF_BLOCK_MARKER ++ lit ": " ++ host ++ lit " resolves to disallowed address " ++ address).

Record TransportConfig : Set := { tc_dns_server : str; tc_ca_bundle_path : str; tc_private_address_hosts : list str }.

Section destinations.
Context `{Platform, IpLib}.

Definition effective_address (ip : address) : address := default ip (ipv4_mapped ip).
Definition is_disallowed_ip (ip_text : str) : bool :=
  match ip_address ip_text with
  | None => true
  | Some ip =>
      let ip := effective_address ip in
      negb (ad_is_global ip) || ad_is_loopback ip || ad_is_private ip || ad_is_link_local ip || ad_is_reserved ip || ad_is_multicast ip || ad_is_unspecified ip
  end.
Definition is_private_or_loopback_ip (ip_text : str) : bool :=
  match ip_address ip_text with
  | None => false
  | Some ip =>
      let ip := effective_address ip in
      if ad_is_loopback ip then true else if ad_version ip =? 4 then RFC1918 ip else RFC4193 ip
  end.

(** ** Hosts *)
Definition is_ip_literal (host : str) : bool := bool_decide (is_Some (ip_address (strip (λ c, (c =? 91) || (c =? 93)) host))).
Definition normalize_host (host : str) : res str :=
  match ip_address host with
  | Some ip => Ok (ad_text ip)
  | None =>
      match idna_codec (rstrip (λ c, c =? 46) host) with
      | Some name => Ok (str_lower name)
      | None => Raise (ValueError (lit "label empty or too long"))
      end
  end.

Definition matches_entry (normalized entry : str) : res bool :=
  match entry with
  | 46 :: name => suffix ← normalize_host name; Ok ((normalized ==? suffix) || endswith (46 :: suffix) normalized)
  | _ => name ← normalize_host entry; Ok (normalized ==? name)
  end.
Fixpoint matches_any (normalized : str) (entries : list str) : res bool :=
  match entries with
  | [] => Ok false
  | entry :: entries => m ← matches_entry normalized entry; if m : bool then Ok true else matches_any normalized entries
  end.
Definition matches_private_allowlist (host : str) (private_address_hosts : list str) : res bool :=
  normalized ← normalize_host host;
  matches_any normalized private_address_hosts.

(** [_DOMAIN_NAME_RE.fullmatch(name)] *)
Definition domain_name_re (name : str) : bool := forallb is_dns_label (split 46 name).
Definition is_private_address_host_entry (entry : str) : bool :=
  let name := match entry with 46 :: name => name | _ => entry end in
  let name := drop_root_dot name in
  if name ==? [] then false
  else if bool_decide (is_Some (ip_address name)) then false
  else match idna_codec name with Some name => domain_name_re name | None => false end.
Definition validate_private_address_hosts (entries : list str) : res unit :=
  forM_res (λ entry, raise_if (negb (is_private_address_host_entry entry)) (ArgumentError (lit "transport.private_address_hosts entry must be a bare hostname or leading-dot suffix"))) entries.

Definition is_allowed_loopback_resolution (host resolved_ip : str) (allow_loopback_host : option str) : bool :=
  match allow_loopback_host with
  | Some allowed => if str_lower host ==? str_lower allowed then match ip_address resolved_ip with Some ip => ad_is_loopback ip | None => false end else false
  | None => false
  end.

(** The policy: all addresses, or none. *)
Definition checked_address (host : str) (addresses : list str) (private_address_hosts : list str) (allow_loopback_host : option str) : res str :=
  match addresses with
  | [] => Raise unresolved
  | first :: _ =>
      allow_private ← (if is_ip_literal host then Ok false else matches_private_allowlist host private_address_hosts);
      let unsafe :=
        if allow_private && existsb is_disallowed_ip addresses then List.filter (λ a, negb (is_private_or_loopback_ip a)) addresses
        else List.filter (λ a, is_disallowed_ip a && negb (is_allowed_loopback_resolution host a allow_loopback_host)) addresses in
      match unsafe with
      | [] => Ok first
      | a :: _ => Raise (blocked host a)
      end
  end.

(** ** Resolution *)

(** Distinct addresses, in canonical text. *)
Fixpoint unique_addresses (seen : list str) (addresses : list str) : res (list str) :=
  match addresses with
  | [] => Ok []
  | a :: addresses =>
      match ip_address a with
      | None => Raise (ValueError (lit "does not appear to be an IPv4 or IPv6 address"))
      | Some ip =>
          if bool_decide (ad_text ip ∈ seen) then unique_addresses seen addresses
          else rest ← unique_addresses (ad_text ip :: seen) addresses; Ok (ad_text ip :: rest)
      end
  end.

(** [dns path server host family]: the answer of a name server, of the system's one
    when there is no [server]. *)
Context (check : list nat → res unit) (dns : list nat → option (str * Z) → str → string → address_answer).

Definition family_addresses (path : list nat) (server : option (str * Z)) (host : str) (family : string) : res (list str) :=
  check (0 :: path)%nat ;;
  match dns (1 :: path)%nat server host family with
  | Answers texts => Ok texts
  | NoAnswer => Ok []
  | DnsFailure => Raise unresolved
  end.
Definition resolve_with_dns_server (path : list nat) (server : option (str * Z)) (host : str) : res (list str) :=
  a ← family_addresses (0 :: path)%nat server host "A";
  aaaa ← family_addresses (1 :: path)%nat server host "AAAA";
  result ← unique_addresses [] (a ++ aaaa);
  match result with [] => Raise unresolved | _ => Ok result end.
Definition resolve_with_system (path : list nat) (host : str) : res (list str) :=
  if str_lower (rstrip (λ c, c =? 46) host) ==? lit "localhost" then Ok [lit "127.0.0.1"; lit "::1"]
  else resolve_with_dns_server path None host.
Definition resolve_addresses (path : list nat) (host dns_host : str) (dns_port : Z) : res (list str) :=
  match ip_address host with
  | Some ip => Ok [ad_text ip]
  | None => if negb (dns_host ==? []) then resolve_with_dns_server path (Some (dns_host, dns_port)) host else resolve_with_system path host
  end.
Definition resolve_checked_address (path : list nat) (host dns_host : str) (dns_port : Z) (private_address_hosts : list str) (allow_loopback_host : option str)
    : res str :=
  addresses ← resolve_addresses path host dns_host dns_port;
  checked_address host addresses private_address_hosts allow_loopback_host.

(** [_transport_settings], without the TLS context. *)
Definition transport_settings (config : option TransportConfig) : res (str * Z) :=
  match config with
  | None => Ok ([], 53)
  | Some c =>
      let dns_server := tc_dns_server c in
      if (dns_server ==? []) || startswith (lit "http") dns_server then Ok ([], 53)
      else
        let '(raw_host, _, port_text) := rpartition_at 58 dns_server in
        let dns_host := if raw_host ==? [] then dns_server else raw_host in
        match port_text with
        | [] => Ok (dns_host, 53)
        | _ => match py_int port_text with Some n => Ok (dns_host, n) | None => Raise (ValueError (lit "invalid literal for int() with base 10")) end
        end
  end.

(** ** Connections *)
Record CheckedResolveBackend : Set := { cb_dns_host : str; cb_dns_port : Z; cb_private_address_hosts : list str; cb_allow_loopback_host : option str }.
Definition make_ssrf_safe_transport (config : option TransportConfig) (allow_loopback_host : option str) : res CheckedResolveBackend :=
  let hosts := match config with Some c => tc_private_address_hosts c | None => [] end in
  validate_private_address_hosts hosts ;;
  '(dns_host, dns_port) ← transport_settings config;
  Ok {| cb_dns_host := dns_host; cb_dns_port := dns_port; cb_private_address_hosts := hosts; cb_allow_loopback_host := allow_loopback_host |}.

(** The backend connects with what [connect] of [httpcore] does for an address. *)
Definition connect_tcp {Stream : Type} (connect : list nat → str → Z → res Stream) (backend : CheckedResolveBackend) (path : list nat) (host : str) (port : Z) : res Stream :=
  address ← resolve_checked_address (0 :: path)%nat host (cb_dns_host backend) (cb_dns_port backend) (cb_private_address_hosts backend) (cb_allow_loopback_host backend);
  check (1 :: path)%nat ;;
  connect (2 :: path)%nat address port.
End destinations.

(** ** Properties *)
Section policy.
Context `{Platform, IpLib}.

(** A host that an entry of the allow list names: itself, or a name beneath it. *)
Definition listed (host entry : str) : Prop := ∃ n e, normalize_host host = Ok n ∧
  match entry with
  | 46 :: name => normalize_host name = Ok e ∧ (n = e ∨ endswith (46 :: e) n = true)
  | _ => normalize_host entry = Ok e ∧ n = e
  end.
Lemma matches_private_allowlist_true host entries : matches_private_allowlist host entries = Ok true → ∃ entry, entry ∈ entries ∧ listed host entry.
Proof.
  unfold matches_private_allowlist. intros Hx. bind_step Hx as n Hn. induction entries as [|entry entries IH]; [done|]. cbn [matches_any] in Hx. bind_step Hx as m Hm. destruct m.
  - exists entry. split; [by left|]. unfold matches_entry in Hm.
    assert ((name ← normalize_host entry; Ok (n ==? name)) = Ok true → (∃ e, normalize_host entry = Ok e ∧ n = e)) as Hexact.
    { intros Hy. bind_step Hy as e He. apply Ok_inj in Hy. rewrite eqb_true in Hy. by exists e. }
    unfold listed. exists n. destruct entry as [|c name]; [destruct (Hexact Hm) as (e & He); by exists e|].
    destruct (decide (c = 46)) as [->|Hc].
    + bind_step Hm as e He. apply Ok_inj in Hm. exists e. split; [done|]. split; [done|]. apply orb_true_iff in Hm as [Hm|Hm]; [left; by rewrite eqb_true in Hm|by right].
    + assert ((name0 ← normalize_host (c :: name); Ok (n ==? name0)) = Ok true) as Hm'. { rewrite <- Hm. destruct c as [|p|p]; try done. do 6 (destruct p as [p|p|]; try done). }
      destruct (Hexact Hm') as (e & He & ->). exists e. split; [done|]. destruct c as [|p|p]; try done. do 6 (destruct p as [p|p|]; try done).
  - destruct (IH Hx) as (e & He & Hl). exists e. split; [by right|done].
Qed.

(** The three ways an address may be connected to. *)
Inductive permitted_destination (host : str) (private_address_hosts : list str) (allow_loopback_host : option str) (addresses : list str) (a : str) : Prop :=
| public_address : is_disallowed_ip a = false → permitted_destination host private_address_hosts allow_loopback_host addresses a
| loopback_address ip allowed : allow_loopback_host = Some allowed → str_lower host = str_lower allowed → ip_address a = Some ip → ad_is_loopback ip = true →
    permitted_destination host private_address_hosts allow_loopback_host addresses a
| private_address entry : is_ip_literal host = false → entry ∈ private_address_hosts → listed host entry → Forall (λ b, is_private_or_loopback_ip b = true) addresses → a ∈ addresses →
    permitted_destination host private_address_hosts allow_loopback_host addresses a.

Lemma filter_nil {A} (f : A → bool) l : List.filter f l = [] → Forall (λ x, f x = false) l.
Proof. induction l as [|x l IH]; [by constructor|]. cbn. destruct (f x) eqn:E; [done|]. intros Hl. constructor; [done|by apply IH]. Qed.

Lemma checked_address_Ok host addresses hosts loopback a : checked_address host addresses hosts loopback = Ok a →
  a ∈ addresses ∧ Forall (permitted_destination host hosts loopback addresses) addresses.
Proof.
  unfold checked_address. destruct addresses as [|first rest]; [done|]. set (addresses := first :: rest). intros Hx. bind_step Hx as allow Ha. cbv zeta in Hx. destruct (if _ && _ then _ else _) as [|] eqn:Eu in Hx; [|done].
  apply Ok_inj in Hx. subst a. split; [by left|]. destruct (allow && existsb is_disallowed_ip addresses) eqn:E; apply filter_nil in Eu.
  - apply andb_true_iff in E as [-> _]. destruct (is_ip_literal host) eqn:El; [done|]. destruct (matches_private_allowlist_true _ _ Ha) as (entry & Hin & Hl).
    assert (Forall (λ b, is_private_or_loopback_ip b = true) addresses) as Hall by (eapply Forall_impl; [exact Eu|]; cbn; intros b; apply negb_false_iff).
    apply Forall_forall. intros b Hb. by eapply private_address.
  - eapply Forall_impl; [exact Eu|]. cbn. intros b Hb. apply andb_false_iff in Hb as [Hb|Hb]; [by apply public_address|]. apply negb_false_iff in Hb.
    unfold is_allowed_loopback_resolution in Hb. destruct loopback as [allowed|]; [|done]. destruct (str_lower host ==? str_lower allowed) eqn:Es; [|done]. rewrite eqb_true in Es.
    destruct (ip_address b) as [ip|] eqn:Ei; [|done]. by eapply loopback_address.
Qed.
End policy.


(** ** A concrete resolution *)
Definition toy_address (text : str) (value : Z) (global : bool) : address :=
  {| ad_text := text; ad_version := 4; ad_value := value; ad_is_global := global; ad_is_loopback := false; ad_is_private := negb global; ad_is_link_local := false;
     ad_is_reserved := false; ad_is_multicast := false; ad_is_unspecified := false |}.
#[local] Instance toy_ip : IpLib := {|
  ip_address text := if text ==? lit "93.184.216.34" then Some (toy_address text (93 * 2 ^ 24 + 184 * 2 ^ 16 + 216 * 2 ^ 8 + 34) true)
                     else if text ==? lit "10.0.0.7" then Some (toy_address text (10 * 2 ^ 24 + 7) false) else None;
  ipv4_mapped _ := None;
  idna_codec s := Some s
|}.
#[local] Instance toy_names : Platform := {|
  idna_encode s := Ok s; netloc_ok _ := true; str_lower s := lower_ascii <$> s; ed25519_verify _ _ _ := false; ecdsa_p256_verify _ _ _ _ _ := false;
  rsa_pkcs1_verify _ _ _ _ := false; naive_timestamp_ms _ := (false, 0, 0)
|}.
Definition toy_dns (_ : list nat) (_ : option (str * Z)) (host : str) (family : string) : address_answer :=
  if String.eqb family "AAAA" then NoAnswer
  else if host ==? lit "log.example" then Answers [lit "93.184.216.34"] else if host ==? lit "registry.test" then Answers [lit "10.0.0.7"] else DnsFailure.
Definition toy_backend (hosts : list str) : CheckedResolveBackend := {| cb_dns_host := []; cb_dns_port := 53; cb_private_address_hosts := hosts; cb_allow_loopback_host := None |}.
Definition toy_connected (hosts : list str) (host : string) : res (str * Z) :=
  connect_tcp (λ _, Ok ()) toy_dns (λ _ a p, Ok (a, p)) (toy_backend hosts) [] (lit host) 443.


(** Without the entry the private address is refused; the public one is not. *)
Example destinations : map (toy_connected []) ["log.example"; "registry.test"]%string = [Ok (lit "93.184.216.34", 443); Raise (blocked (lit "registry.test") (lit "10.0.0.7"))].
Proof. vm_compute. reflexivity. Qed.
