(* ===== verification/Registries.v ===== *)
(** * Verification registries ([c2sp_tlog/verification_registry.py] and
      [c2sp_tlog/managed_verification_registry.py])

    From an explicit trust decision to readers of logs: the checks on the options,
    the policy, and which references a reader is made for.  A registry is the one
    factory it registers, with the options it closes over; the migration factory of
    its readers is the registry itself. *)
From S2P Require Import Prelude Sha256 Errors PyText Utils Merkle SignedNote Policy Lr Canonical Keys ResourceFetcher HashTiles StreamSource TrustProfile LifecycleDemo Identity StreamBundle ReaderState Reader Destination.

Definition DEFAULT_MAX_POLICY_BYTES : Z := 1048576.
Definition DEFAULT_MAX_BUNDLE_LIFETIME_MS : Z := 300000.
Definition DEFAULT_MAX_STREAM_BUNDLE_BYTES : Z := 8 * 1024 * 1024.
Definition DEFAULT_MAX_STREAM_BUNDLE_EVENTS : Z := 10000.

Record C2spTlogVerificationOptions : Type := {
  cv_policy_document : option bytes;
  cv_policy_url : option str;
  cv_trust_profile : option C2spTlogTrustProfile;
  cv_bundle_verifier_keys : option (list SignedNoteKey);
  cv_resource_fetcher : option injected;
  cv_transport_config : option TransportConfig;
  cv_scan_limits : option C2spScanLimits;
  cv_migration_limits : option C2spMigrationVerificationLimits;
  cv_trusted_checkpoint_store : option nat;
  cv_max_policy_bytes : Z;
  cv_checkpoint_freshness_ms : option Z;
  cv_max_clock_skew_ms : Z;
  cv_max_bundle_lifetime_ms : option Z;
  cv_max_stream_bundle_bytes : Z;
  cv_max_stream_bundle_events : Z;
  cv_require_stream_bundle : bool
}.

Definition arg_fail (msg : string) : exn := ArgumentError (lit msg).
Definition positive_integer (v : Z) (name : string) : res unit := raise_if (v <? 1) (arg_fail (String.append name " must be a positive integer")).
Definition non_negative_integer (v : Z) (name : string) : res unit := raise_if (v <? 0) (arg_fail (String.append name " must be a non-negative integer")).
Definition count_some {A B C} (a : option A) (b : option B) (c : option C) : Z :=
  (if a then 1 else 0) + (if b then 1 else 0) + (if c then 1 else 0).

Definition validate_direct_bundle_verifier_keys (keys checkpoint_keys : list SignedNoteKey) : res unit :=
  try_except (validate_c2sp_bundle_verifier_keys keys checkpoint_keys None)
    (λ e, match e with C2spTlogParseError _ => Raise (arg_fail "invalid c2sp-tlog bundle_verifier_keys") | e => Raise e end).

(** What a registry of this method keeps: the options of its readers, and the scope
    and log prefix of the trust profile, if there is one. *)
Record verification_registry : Type := { vr_options : C2spTlogReaderOptions; vr_trusted : option (str * str) }.

Definition default_migration_limits : C2spMigrationVerificationLimits := {| max_depth := 8; max_history_events := 10000; max_response_bytes := 8 * 1024 * 1024 |}.

Section registries.
Context `{Platform} (now_ms : Z) (check : list nat → res unit).
(** [SafeC2spResourceFetcher(transport_config)] and a new in-memory store. *)
Context (safe_fetcher : option TransportConfig → injected) (new_store : nat).

Definition validate_policy_url (url : str) : res unit :=
  parsed ← try_except (p ← urlsplit netloc_ok url; port (url_netloc p) ;; Ok p)
    (λ e, match e with TypeError _ | ValueError _ => Raise (arg_fail "c2sp-tlog policy_url must be a valid HTTPS URL") | e => Raise e end);
  raise_if (negb (url_scheme parsed ==? lit "https") || bool_decide (hostname str_lower (url_netloc parsed) = None) || has_credentials (url_netloc parsed)
            || negb (url_fragment parsed ==? []))
    (arg_fail "c2sp-tlog policy_url must be an absolute HTTPS URL without userinfo or fragment").

(** The checks before anything is fetched; the bundle keys. *)
Definition check_verification_options (o : C2spTlogVerificationOptions) : res (list SignedNoteKey) :=
  raise_if (negb (count_some (cv_trust_profile o) (cv_policy_document o) (cv_policy_url o) =? 1))
    (arg_fail "exactly one c2sp-tlog trust_profile, policy_document, or policy_url is required") ;;
  match cv_trust_profile o with
  | Some profile =>
      validate_c2sp_tlog_trust_profile netloc_ok str_lower profile ;;
      raise_if (bool_decide (is_Some (cv_bundle_verifier_keys o))) (arg_fail "c2sp-tlog trust_profile is mutually exclusive with direct bundle_verifier_keys")
  | None => Ok ()
  end ;;
  match cv_bundle_verifier_keys o with Some keys => validate_direct_bundle_verifier_keys keys [] | None => Ok () end ;;
  let bundle_keys := match cv_trust_profile o with Some p => tp_bundle_verifier_keys p | None => default [] (cv_bundle_verifier_keys o) end in
  let has_bundle_trust := negb (bundle_keys ==? []) in
  positive_integer (cv_max_policy_bytes o) "max_policy_bytes" ;;
  match cv_max_bundle_lifetime_ms o with Some v => positive_integer v "max_bundle_lifetime_ms" | None => Ok () end ;;
  raise_if (has_bundle_trust && bool_decide (cv_max_bundle_lifetime_ms o = None)) (arg_fail "c2sp-tlog bundle verifier keys require max_bundle_lifetime_ms") ;;
  positive_integer (cv_max_stream_bundle_bytes o) "max_stream_bundle_bytes" ;;
  positive_integer (cv_max_stream_bundle_events o) "max_stream_bundle_events" ;;
  raise_if (cv_require_stream_bundle o && negb has_bundle_trust) (arg_fail "c2sp-tlog require_stream_bundle requires bundle verifier keys") ;;
  non_negative_integer (cv_max_clock_skew_ms o) "max_clock_skew_ms" ;;
  match cv_checkpoint_freshness_ms o with Some v => positive_integer v "checkpoint_freshness_ms" | None => Ok () end ;;
  raise_if (bool_decide (is_Some (cv_resource_fetcher o)) && bool_decide (is_Some (cv_transport_config o)))
    (arg_fail "c2sp-tlog transport_config is mutually exclusive with resource_fetcher") ;;
  Ok bundle_keys.

(** The keys of every origin. *)
Fixpoint checkpoint_keys_of (policy : C2spTlogPolicy) (names : list str) : res (list SignedNoteKey) :=
  match names with
  | [] => Ok []
  | origin :: names =>
      p ← normalized_origin_policy policy origin;
      rest ← checkpoint_keys_of policy names;
      Ok (n_log_keys p ++ n_witness_keys p ++ rest)
  end.

Definition policy_document_of (o : C2spTlogVerificationOptions) (fetcher : injected) : res bytes :=
  match cv_trust_profile o, cv_policy_url o, cv_policy_document o with
  | Some profile, _, _ => Ok (tp_policy_document profile)
  | None, Some url, _ => validate_policy_url url ;; fetch_bounded_bytes check fetcher url (cv_max_policy_bytes o)
  | None, None, Some document => Ok document
  | None, None, None => Raise (arg_fail "c2sp-tlog policy_document must be bytes")
  end.

Definition create_c2sp_tlog_verification_registry (o : C2spTlogVerificationOptions) : res verification_registry :=
  bundle_keys ← check_verification_options o;
  let fetcher := default (safe_fetcher (cv_transport_config o)) (cv_resource_fetcher o) in
  validate_resource_fetcher_capabilities fetcher ;;
  document ← policy_document_of o fetcher;
  policy_text ← try_except (utf8_decode document) (λ _, Raise (verr "c2sp-tlog policy document must be UTF-8"));
  policy ← parse_c2sp_policy_file policy_text;
  (if match cv_bundle_verifier_keys o with Some (_ :: _) => true | _ => false end then
     checkpoint_keys ← checkpoint_keys_of policy (origins policy).*1;
     validate_direct_bundle_verifier_keys bundle_keys checkpoint_keys
   else Ok ()) ;;
  let max_bundle_lifetime_ms := default DEFAULT_MAX_BUNDLE_LIFETIME_MS (cv_max_bundle_lifetime_ms o) in
  Ok {| vr_options := {| op_policy := policy; op_transport := Some fetcher; op_source := None; op_proofs := []; op_unchained := None; op_entity_key := None;
                         op_max_clock_skew_ms := cv_max_clock_skew_ms o; op_checkpoint_freshness_ms := cv_checkpoint_freshness_ms o; op_max_tree_size := None;
                         op_scan_limits := cv_scan_limits o; op_migration_limits := default default_migration_limits (cv_migration_limits o);
                         op_checkpoint_store := default new_store (cv_trusted_checkpoint_store o);
                         op_bundle_policy_document := if bundle_keys ==? [] then None else Some document; op_bundle_keys := bundle_keys;
                         op_bundle_checkpoint_freshness_ms := default max_bundle_lifetime_ms (cv_checkpoint_freshness_ms o);
                         op_max_bundle_lifetime_ms := max_bundle_lifetime_ms; op_max_bundle_bytes := cv_max_stream_bundle_bytes o;
                         op_max_bundle_events := cv_max_stream_bundle_events o; op_require_stream_bundle := cv_require_stream_bundle o |};
        vr_trusted := match cv_trust_profile o with Some p => Some (tp_scope p, tp_log_prefix p) | None => None end |}.

Context (tick : tile_moment → res unit) (dummy : JWK).

(** The factory [reader]. *)
Definition registry_reader (r : verification_registry) (lr : str) : res reader_config :=
  match vr_trusted r with
  | Some (scope, log_prefix) =>
      reference ← parse_c2sp_tlog_lr netloc_ok str_lower lr;
      raise_if (negb (lr_scope reference ==? scope) || negb (lr_log_prefix reference ==? log_prefix)) (verr "c2sp-tlog reference is not accepted by the trust profile")
  | None => Ok ()
  end ;;
  init_reader now_ms check lr (vr_options r) tick dummy.

(** [LogRegistry.new_reader] of a registry with this one method; [None] is the
    [NoopLogReader] of another method. *)
Definition method_reader (factory : str → res reader_config) (lr : str) : res (option reader_config) :=
  '(method, _) ← parse_ledger_ref lr;
  if method ==? lit "c2sp-tlog" then c ← factory lr; Ok (Some c) else Ok None.

(** ** The managed catalog *)
Record ManagedTrustEntry : Set := { me_scope : str; me_log_prefix : str; me_trust_profile_document : option bytes; me_policy_document : option bytes }.
Record DnsidManagedVerificationOptions : Type := { dm_resource_fetcher : option injected; dm_trusted_checkpoint_store : option nat }.
Definition MANAGED_FRESHNESS_MS : Z := 10 * 60 * 1000.

(** The options for one document of the catalog. *)
Definition managed_options (profile : option C2spTlogTrustProfile) (document : option bytes) (fetcher : injected) (store : nat) : C2spTlogVerificationOptions :=
  {| cv_policy_document := document; cv_policy_url := None; cv_trust_profile := profile; cv_bundle_verifier_keys := None; cv_resource_fetcher := Some fetcher;
     cv_transport_config := None; cv_scan_limits := None; cv_migration_limits := None; cv_trusted_checkpoint_store := Some store;
     cv_max_policy_bytes := DEFAULT_MAX_POLICY_BYTES; cv_checkpoint_freshness_ms := Some MANAGED_FRESHNESS_MS; cv_max_clock_skew_ms := 0;
     cv_max_bundle_lifetime_ms := if profile then Some MANAGED_FRESHNESS_MS else None; cv_max_stream_bundle_bytes := DEFAULT_MAX_STREAM_BUNDLE_BYTES;
     cv_max_stream_bundle_events := DEFAULT_MAX_STREAM_BUNDLE_EVENTS; cv_require_stream_bundle := false |}.

Definition managed_entry (fetcher : injected) (store : nat) (registries : list (str * str * verification_registry)) (entry : ManagedTrustEntry)
    : res (list (str * str * verification_registry)) :=
  reference ← parse_c2sp_tlog_lr netloc_ok str_lower (lit "c2sp-tlog:" ++ me_scope entry ++ lit ":" ++ me_log_prefix entry ++ lit "#managed-catalog");
  let selector := (lr_scope reference, lr_log_prefix reference) in
  raise_if (bool_decide (selector ∈ registries.*1)) (perr "duplicate DNSid managed trust selector") ;;
  options ← match me_trust_profile_document entry, me_policy_document entry with
            | Some document, None =>
                profile ← parse_c2sp_tlog_trust_profile netloc_ok str_lower document;
                raise_if (negb (bool_decide ((tp_scope profile, tp_log_prefix profile) = selector))) (perr "DNSid managed trust profile selector mismatch") ;;
                Ok (managed_options (Some profile) None fetcher store)
            | None, Some document =>
                text ← try_except (utf8_decode document) (λ _, Raise (perr "DNSid managed policy is not UTF-8"));
                policy ← parse_c2sp_policy_file text;
                origin ← checkpoint_origin netloc_ok (lr_log_prefix reference);
                raise_if (negb (forallb (λ o, o ==? origin) (origins policy).*1 && bool_decide (origin ∈ (origins policy).*1))) (perr "DNSid managed policy selector mismatch") ;;
                Ok (managed_options None (Some document) fetcher store)
            | _, _ => Raise (perr "DNSid managed catalog entry must contain exactly one trust document")
            end;
  registry ← create_c2sp_tlog_verification_registry options;
  Ok (registries ++ [(selector, registry)]).

Fixpoint managed_entries (fetcher : injected) (store : nat) (registries : list (str * str * verification_registry)) (catalog : list ManagedTrustEntry)
    : res (list (str * str * verification_registry)) :=
  match catalog with
  | [] => Ok registries
  | entry :: catalog => registries ← managed_entry fetcher store registries entry; managed_entries fetcher store registries catalog
  end.

Definition create_managed_from (options : DnsidManagedVerificationOptions) (catalog : list ManagedTrustEntry) : res (list (str * str * verification_registry)) :=
  managed_entries (default (safe_fetcher None) (dm_resource_fetcher options)) (default new_store (dm_trusted_checkpoint_store options)) [] catalog.

(** The factory of the managed registry. *)
Definition managed_reader (registries : list (str * str * verification_registry)) (lr : str) : res reader_config :=
  reference ← parse_c2sp_tlog_lr netloc_ok str_lower lr;
  match List.find (λ r, bool_decide (r.1 = (lr_scope reference, lr_log_prefix reference))) registries with
  | None => Raise (perr "unknown DNSid managed trust selector")
  | Some (_, selected) =>
      bound ← method_reader (registry_reader selected) lr;
      match bound with
      | Some c => Ok c
      | None => Raise (verr "managed c2sp-tlog registry returned an incompatible reader")
      end
  end.

(** The embedded documents: lines, with the double quotes written as single ones. *)
Definition embedded (lines : list string) : bytes := join [10] (map (λ l, map (λ c, if c =? 39 then 34 else c) (lit l)) lines).
Definition DEVELOPMENT_TRUST_PROFILE : bytes := embedded
  ["{"; "  'version': 1,"; "  'scope': 'public',"; "  'log_prefix': 'https://log.dev.dnsid.ai',";
   "  'tlog_policy': 'log log.dev.dnsid.ai+cad12acd+Afnd3sdzfp8nCXzDQchrnWn9QOox5AglR147bURESRqu\nwitness dnsid-witness-1 witness.dev.dnsid.ai/w1+50822ded+BAH9KuulelD3yZBDTneG46gKZY+OWwdUPBmLmq/YjOkO\nquorum dnsid-witness-1\n',";
   "  'bundle_verifier_keys': ["; "    'dnsid-stream-bundle+0c241174+AeuT9PKyiewb9hkzygvki7UuOs5ly2kfY/C4Tfh7/ix0'"; "  ]"; "}"]%string.
Definition PRODUCTION_TRUST_PROFILE : bytes := embedded
  ["{"; "  'version': 1,"; "  'scope': 'public',"; "  'log_prefix': 'https://log.dnsid.ai',";
   "  'tlog_policy': 'log log.dnsid.ai+f10a26bc+Aeo6u4o1XvQlcRczgY462ZdIGpm/ejBC2G3vSbyYYqqY\nwitness dnsid-witness-1 witness.dnsid.ai/w1+706fd4fb+BLqX21Sx9xG5+5vK7kSK5omcu9+2il20PLdfpOp8lQOJ\nquorum dnsid-witness-1\n',";
   "  'bundle_verifier_keys': ["; "    'dnsid-stream-bundle+2e77a3f1+AbKj/zrAfK04/NM07Zj7kxP2YXbM5neT8ym6juXC2PXG'"; "  ]"; "}"]%string.
Definition PARTNERS_TRUST_PROFILE : bytes := embedded
  ["{"; "  'version': 1,"; "  'scope': 'public',"; "  'log_prefix': 'https://log.partners.dnsid.ai',";
   "  'tlog_policy': 'log log.partners.dnsid.ai+f0143e09+Ae5vrTVQUr0h2GKbeHq70ml37N+uVBsU4NpZD4qMqAu1\nwitness dnsid-witness-1 witness.partners.dnsid.ai/w1+a115eb67+BB0avWVeSelUBk2w8FtTbT+orf2i826q9VemA0jaXxg4\nquorum dnsid-witness-1\n',";
   "  'bundle_verifier_keys': ["; "    'dnsid-stream-bundle+b1e0b597+AQt9ol4cfwPHxdH4NHNRidsAvU2bYE7KVItOlBG/bsaZ'"; "  ]"; "}"]%string.
Definition profile_entry (prefix : string) (document : bytes) : ManagedTrustEntry :=
  {| me_scope := public; me_log_prefix := lit prefix; me_trust_profile_document := Some document; me_policy_document := None |}.
Definition MANAGED_CATALOG : list ManagedTrustEntry :=
  [profile_entry "https://log.dev.dnsid.ai" DEVELOPMENT_TRUST_PROFILE; profile_entry "https://log.dnsid.ai" PRODUCTION_TRUST_PROFILE;
   profile_entry "https://log.partners.dnsid.ai" PARTNERS_TRUST_PROFILE].

Definition create_dnsid_managed_verification_registry (options : option DnsidManagedVerificationOptions) : res (list (str * str * verification_registry)) :=
  create_managed_from (default {| dm_resource_fetcher := None; dm_trusted_checkpoint_store := None |} options) MANAGED_CATALOG.
Definition managed_new_reader (registries : list (str * str * verification_registry)) (lr : str) : res (option reader_config) :=
  method_reader (managed_reader registries) lr.
End registries.

(** ** Properties *)
Section properties.
Context `{Platform} (now_ms : Z) (check : list nat → res unit) (safe_fetcher : option TransportConfig → injected) (new_store : nat).
Context (tick : tile_moment → res unit) (dummy : JWK).

(** What the options of a registry come from. *)
Record configured (o : C2spTlogVerificationOptions) (r : verification_registry) : Prop := {
  cf_document : ∃ fetcher document text, policy_document_of check o fetcher = Ok document ∧ utf8_decode document = Ok text ∧ parse_c2sp_policy_file text = Ok (op_policy (vr_options r))
                  ∧ (op_bundle_keys (vr_options r) ≠ [] → op_bundle_policy_document (vr_options r) = Some document)
                  ∧ op_transport (vr_options r) = Some fetcher ∧ validate_resource_fetcher_capabilities fetcher = Ok ();
  cf_keys : op_bundle_keys (vr_options r) = match cv_trust_profile o with Some p => tp_bundle_verifier_keys p | None => default [] (cv_bundle_verifier_keys o) end;
  cf_freshness : op_checkpoint_freshness_ms (vr_options r) = cv_checkpoint_freshness_ms o ∧ op_max_clock_skew_ms (vr_options r) = cv_max_clock_skew_ms o;
  cf_store : op_checkpoint_store (vr_options r) = default new_store (cv_trusted_checkpoint_store o) ∧ op_entity_key (vr_options r) = None ∧ op_source (vr_options r) = None;
  cf_trusted : vr_trusted r = match cv_trust_profile o with Some p => Some (tp_scope p, tp_log_prefix p) | None => None end
}.
Lemma check_verification_options_Ok o keys : check_verification_options o = Ok keys →
  keys = match cv_trust_profile o with Some p => tp_bundle_verifier_keys p | None => default [] (cv_bundle_verifier_keys o) end.
Proof.
  unfold check_verification_options. intros Hx. guard_step Hx as G1. do 2 (apply bind_unit_Ok in Hx as [_ Hx]). cbv zeta in Hx. do 9 (apply bind_unit_Ok in Hx as [_ Hx]). by apply Ok_inj in Hx.
Qed.
Lemma create_registry_Ok o r : create_c2sp_tlog_verification_registry check safe_fetcher new_store o = Ok r → configured o r.
Proof.
  unfold create_c2sp_tlog_verification_registry. intros Hx. bind_step Hx as keys Hk. cbv zeta in Hx. apply bind_unit_Ok in Hx as [Hcap Hx]. bind_step Hx as document Hd. bind_step Hx as text Ht. bind_step Hx as policy Hp.
  apply bind_unit_Ok in Hx as [_ Hx]. apply Ok_inj in Hx. subst r. apply check_verification_options_Ok in Hk. split; cbn; try done.
  eexists _, document, text. split_and!; [exact Hd|by destruct (utf8_decode document)|done| |done|done]. intros Hne. by rewrite (proj2 (eqb_false _ _) Hne).
Qed.

(** The selector of an entry, and the policy document it embeds. *)
Definition selects (entry : ManagedTrustEntry) (scope log_prefix : str) : Prop := ∃ reference,
  parse_c2sp_tlog_lr netloc_ok str_lower (lit "c2sp-tlog:" ++ me_scope entry ++ lit ":" ++ me_log_prefix entry ++ lit "#managed-catalog") = Ok reference
  ∧ scope = lr_scope reference ∧ log_prefix = lr_log_prefix reference.
Definition embeds (entry : ManagedTrustEntry) (profile : option C2spTlogTrustProfile) (document : bytes) : Prop :=
  match profile with
  | Some p => ∃ d, me_trust_profile_document entry = Some d ∧ parse_c2sp_tlog_trust_profile netloc_ok str_lower d = Ok p ∧ document = tp_policy_document p ∧ selects entry (tp_scope p) (tp_log_prefix p)
  | None => me_policy_document entry = Some document
  end.

(** A registry that an entry of the catalog accounts for. *)
Definition accounted (store : nat) (catalog : list ManagedTrustEntry) (x : str * str * verification_registry) : Prop := ∃ entry profile document fetcher,
  entry ∈ catalog ∧ selects entry x.1.1 x.1.2 ∧ embeds entry profile document ∧ configured (managed_options profile (if profile then None else Some document) fetcher store) x.2.

Lemma managed_entry_Ok fetcher store registries entry registries' catalog : entry ∈ catalog → Forall (accounted store catalog) registries →
  managed_entry check safe_fetcher new_store fetcher store registries entry = Ok registries' → Forall (accounted store catalog) registries'.
Proof.
  intros Hin Hall Hx. unfold managed_entry in Hx. bind_step Hx as reference Hr. cbv zeta in Hx. guard_step Hx as G. bind_step Hx as options Ho. bind_step Hx as registry Hreg. apply Ok_inj in Hx. subst registries'.
  apply Forall_app. split; [done|]. constructor; [|done]. apply create_registry_Ok in Hreg. destruct (me_trust_profile_document entry) as [d|] eqn:Et, (me_policy_document entry) as [d'|] eqn:Ed; try done.
  - bind_step Ho as profile Hp. guard_step Ho as G2. apply negb_false_iff, bool_decide_eq_true in G2. apply Ok_inj in Ho. subst options. injection G2 as Hsc Hpf.
    exists entry, (Some profile), (tp_policy_document profile), fetcher. split_and!; [done|by exists reference| |done]. exists d. split_and!; try done. by exists reference.
  - bind_step Ho as text Htx. bind_step Ho as policy Hp. bind_step Ho as origin Hor. guard_step Ho as G2. apply Ok_inj in Ho. subst options. exists entry, None, d', fetcher. split_and!; [done|by exists reference|done|done].
Qed.
Lemma managed_entries_Ok fetcher store registries entries registries' catalog : entries ⊆ catalog → Forall (accounted store catalog) registries →
  managed_entries check safe_fetcher new_store fetcher store registries entries = Ok registries' → Forall (accounted store catalog) registries'.
Proof.
  revert registries. induction entries as [|entry entries IH]; intros registries Hsub Hall Hx; cbn [managed_entries] in Hx; [apply Ok_inj in Hx; by subst|]. bind_step Hx as next Hn.
  eapply IH; [|eapply managed_entry_Ok; [|exact Hall|exact Hn]|exact Hx]; [intros e He; apply Hsub; by right|apply Hsub; by left].
Qed.

Lemma init_reader_Ok lr o c : init_reader now_ms check lr o tick dummy = Ok c → ∃ reference source declared, parse_c2sp_tlog_lr netloc_ok str_lower lr = Ok reference ∧ lr_entry_index reference = None
  ∧ reader_source_of now_ms check reference o tick dummy = Ok (source, declared) ∧ c = config_with reference o source.
Proof.
  unfold init_reader. intros Hx. bind_step Hx as reference Hr. guard_step Hx as G. apply bind_unit_Ok in Hx as [_ Hx]. destruct (reader_source_of _ _ _ _ _ _) as [[source declared]|] eqn:Es; [|done]. cbn [mbind result_bind] in Hx.
  apply bind_unit_Ok in Hx as [_ Hx]. apply Ok_inj in Hx. subst c. exists reference, source, declared. split_and!; try done. apply bool_decide_eq_false in G. destruct (lr_entry_index reference); [|done]. exfalso. apply G. by eexists.
Qed.
End properties.

(** C14 Managed trust is pinned.  A reader that the managed registry makes for a
    reference belongs to an entry of the catalog with exactly the canonical scope and
    log prefix of that reference; its policy is the one in the document embedded in
    that entry; checkpoints may be ten minutes old, without any clock skew; the store
    is the shared one and no entity key is preset; and for a trust profile the reader
    prefers bundles that are signed by the keys of that very profile, over that very
    policy. *)
Theorem managed_trust_pinned `{Platform} (now_ms : Z) (check : list nat → res unit) (safe_fetcher : option TransportConfig → injected) (new_store : nat)
    (tick : tile_moment → res unit) (dummy : JWK) (options : DnsidManagedVerificationOptions) (catalog : list ManagedTrustEntry)
    (registries : list (str * str * verification_registry)) (lr : str) (c : reader_config)
    (Hcreate : create_managed_from check safe_fetcher new_store options catalog = Ok registries)
    (Hread : managed_new_reader now_ms check tick dummy registries lr = Ok (Some c)) :
  ∃ entry profile document text, entry ∈ catalog ∧ parse_c2sp_tlog_lr netloc_ok str_lower lr = Ok (rc_parsed c) ∧ selects entry (lr_scope (rc_parsed c)) (lr_log_prefix (rc_parsed c))
    ∧ embeds entry profile document ∧ utf8_decode document = Ok text ∧ parse_c2sp_policy_file text = Ok (rc_policy c)
    ∧ rc_checkpoint_freshness_ms c = Some MANAGED_FRESHNESS_MS ∧ rc_max_clock_skew_ms c = 0 ∧ rc_store c = default new_store (dm_trusted_checkpoint_store options) ∧ rc_entity_key c = None
    ∧ (∀ p, profile = Some p → tp_bundle_verifier_keys p ≠ [] →
         ∃ src cfg, rc_source c = FetchedStreamBundleSource src cfg ∧ bo_bundle_keys cfg = tp_bundle_verifier_keys p ∧ bo_policy_bytes cfg = document).
Proof.
  unfold managed_new_reader, method_reader in Hread. destruct (parse_ledger_ref lr) as [[method rest]|]; [|done]. cbn [mbind result_bind] in Hread. destruct (method ==? lit "c2sp-tlog"); [|done].
  bind_step Hread as c' Hc. apply Ok_inj in Hread. injection Hread as ->. unfold managed_reader in Hc. bind_step Hc as reference Hr. destruct (List.find _ registries) as [[selector selected]|] eqn:Ef; [|done].
  bind_step Hc as bound Hb. destruct bound as [c0|]; [|done]. apply Ok_inj in Hc. subst c0. unfold method_reader in Hb. destruct (parse_ledger_ref lr) as [[m' ?]|]; [|done]. cbn [mbind result_bind] in Hb. destruct (m' ==? _); [|done].
  bind_step Hb as c1 Hc1. apply Ok_inj in Hb. injection Hb as ->. unfold registry_reader in Hc1. apply bind_unit_Ok in Hc1 as [_ Hi]. apply List.find_some in Ef as [Hin Hsel]. apply bool_decide_eq_true in Hsel. cbn in Hsel. subst selector.
  assert (Forall (accounted check new_store (default new_store (dm_trusted_checkpoint_store options)) catalog) registries) as Hall by (eapply managed_entries_Ok; [done|constructor|exact Hcreate]).
  rewrite Forall_forall in Hall. apply list_elem_of_In, Hall in Hin as (entry & profile & document & fetcher & He & Hs & Hem & [(fetcher' & d & text & Hdoc & Ht & Hp & Hbd & Htr & _) Hk [Hf Hsk] (Hst & Hek & Hso) _]). cbn in *.
  apply init_reader_Ok in Hi as (reference' & source & declared & Hr' & _ & Hsrc & ->). rewrite Hr in Hr'. apply Ok_inj in Hr'. subst reference'. cbn.
  assert (d = document) as ->. { unfold policy_document_of in Hdoc. cbn in Hdoc. destruct profile as [p|]; cbn in Hdoc; apply Ok_inj in Hdoc; [|done]. destruct Hem as (x & _ & _ & -> & _). done. }
  exists entry, profile, document, text. split_and!; try done. intros p -> Hne. cbn in Hk. unfold reader_source_of in Hsrc. rewrite Hso, Htr in Hsrc. apply bind_unit_Ok in Hsrc as [_ Hsrc].
  unfold has_bundle_keys in Hsrc. rewrite Hk in Hsrc. destruct (tp_bundle_verifier_keys p) as [|k ks] eqn:Ek; [done|]. cbn [negb] in Hsrc. guard_step Hsrc as G. rewrite Hbd in Hsrc by by rewrite Hk. apply Ok_inj in Hsrc. injection Hsrc as <- _.
  eexists _, _. split_and!; [done| |done]. cbn. by rewrite Hk.
Qed.

(** ** The embedded catalog *)
Definition capable_fetcher : injected :=
  {| in_fetch_bounded := Some (λ _ _, Raise (HttpxError HConnect (lit "offline"))); in_security_guarantees := Some (Ok (Some safe_fetcher_guarantees)); in_call := λ _, Ok ROther |}.
Definition no_options : DnsidManagedVerificationOptions := {| dm_resource_fetcher := None; dm_trusted_checkpoint_store := None |}.
Definition toy_registries : list (str * str * verification_registry) :=
  match create_dnsid_managed_verification_registry (λ _, Ok ()) (λ _, capable_fetcher) 1 None with Ok r => r | Raise _ => [] end.
(** All three documents load, each with a log key, a witness and a bundle signer. *)
Example catalog_loads : map (λ r, (r.1, len (op_bundle_keys (vr_options r.2)), map (λ o, (len (log_keys o.2), len (witness_keys o.2), quorum o.2)) (origins (op_policy (vr_options r.2))))) toy_registries
  = map (λ p, (public, lit p, 1, [(1, 1, Some 1)])) ["https://log.dev.dnsid.ai"; "https://log.dnsid.ai"; "https://log.partners.dnsid.ai"]%string.
Proof. vm_compute. reflexivity. Qed.

Definition production_lr : str := lit "c2sp-tlog:public:https://log.dnsid.ai#abc-1".
Definition production_reader := managed_new_reader 0 (λ _, Ok ()) (λ _, Ok ()) entity toy_registries production_lr.
Lemma managed_trust_pinned_witness : ∃ c entry, production_reader = Ok (Some c) ∧ entry ∈ MANAGED_CATALOG ∧ selects entry (lr_scope (rc_parsed c)) (lr_log_prefix (rc_parsed c)).
Proof.
  assert (∃ c, production_reader = Ok (Some c)) as [c Hc].
  { assert (match production_reader with Ok (Some _) => true | _ => false end = true) as Hb by (vm_compute; reflexivity). destruct production_reader as [[c|]|]; [by exists c|done..]. }
  assert (create_managed_from (λ _, Ok ()) (λ _, capable_fetcher) 1 no_options MANAGED_CATALOG = Ok toy_registries) as Hr.
  { assert (is_Ok (create_managed_from (λ _, Ok ()) (λ _, capable_fetcher) 1 no_options MANAGED_CATALOG) = true) as Hb by (vm_compute; reflexivity). unfold toy_registries, create_dnsid_managed_verification_registry, default.
    change (create_managed_from (λ _, Ok ()) (λ _, capable_fetcher) 1 {| dm_resource_fetcher := None; dm_trusted_checkpoint_store := None |} MANAGED_CATALOG) with (create_managed_from (λ _, Ok ()) (λ _, capable_fetcher) 1 no_options MANAGED_CATALOG).
    destruct (create_managed_from _ _ _ _ _); [done|done]. }
  destruct (managed_trust_pinned 0 (λ _, Ok ()) (λ _, capable_fetcher) 1 (λ _, Ok ()) entity no_options MANAGED_CATALOG toy_registries production_lr c Hr Hc) as (entry & _ & _ & _ & Hin & _ & Hs & _).
  exists c, entry. split; [exact Hc|split; [exact Hin|exact Hs]].
Defined.
