(* ===== verification/RegistryApi.v ===== *)
(** * The registry client ([dnsid/registry_client.py])

    Every operation of the client is a generator in the source: it yields calls, and a
    driver, synchronous or asynchronous, performs a call and resumes the generator with
    its result or by throwing its exception.  The model keeps that shape: an operation
    is a tree of [steps], and [run_registry] is the synchronous driver.  What the
    registry answers is a parameter; the requests sent are kept in a trace.  Interpolated
    paths and domains are left out of messages. *)
From S2P Require Import Prelude Sha256 Errors PyText Base64 Utils Lr ResourceFetcher PyFloat PyNum PyTime Canonical Keys TxtRecord Identity HttpsClient Manager Publication StreamBundle Rotation HttpSignatures HttpProfile Oidc WbaVerifier Destination.

Abbreviation object := (list (str * json)) (only parsing).

(** ** Data ([dnsid/models.py]) *)
Record AgentRegistrationInput : Set := {
  ri_domain : str;
  ri_public_key_jwk : option JWK;
  ri_environment : str;
  ri_managed : bool;
  ri_capabilities_url : str;
  ri_name : str;
  ri_zone_id : str;
  ri_idempotency_key : str;
  ri_governance_domain : str;
  ri_root_domain : str;
  ri_tier : str
}.
Record LiveAgentRegistrationInput : Set := { li_public_key_jwk : JWK; li_environment : str; li_capabilities_url : str; li_name : str }.
Record PublicationConfig : Set := {
  pc_publish_profile : str;
  pc_governance_id : str;
  pc_ku_url : str;
  pc_ek_url : str;
  pc_log_ref : str;
  pc_status_url : str;
  pc_capabilities_url : str;
  pc_max_key_age : str
}.
Record AgentRegistration : Set := {
  ag_domain : str;
  ag_publication_authority : str;
  ag_registry_status : str;
  ag_registry_url : str;
  ag_dns_published : option bool;
  ag_protocol_status : option AgentStatus;
  ag_publication_config : option PublicationConfig;
  ag_raw : object;
  ag_oidc_issuer_url : str;
  ag_id : str
}.
Record LiveChallengeTranscript : Set := {
  lt_protocol : str; lt_org_id : str; lt_agent_id : str; lt_fqdn : str; lt_key_id : str; lt_nonce : str; lt_expires_at : datetime
}.
Record LiveProvisioningResponse : Set := {
  lp_request_id : str;
  lp_agent_id : str;
  lp_status : str;
  lp_challenge : str;
  lp_challenge_message : str;
  lp_domain : str;
  lp_challenge_transcript : option LiveChallengeTranscript;
  lp_raw : object
}.
Record LiveProofRequest : Set := { lq_request_id : str; lq_challenge : str; lq_public_key_jwk : JWK; lq_signature : str }.
Record LiveProofResponse : Set := { lv_request_id : str; lv_agent_id : str; lv_status : str; lv_raw : object }.
Record LiveProofReissueRequest : Set := { lx_request_id : str; lx_public_key_jwk : JWK }.
Record LiveProofReissueResponse : Set := {
  ly_request_id : str;
  ly_agent_id : str;
  ly_status : str;
  ly_challenge : str;
  ly_challenge_message : str;
  ly_domain : str;
  ly_challenge_transcript : LiveChallengeTranscript;
  ly_raw : object
}.
Record LifecycleResult : Set := { lf_id : str; lf_state : str; lf_status_note : str; lf_raw : object }.
Record RegistryAgentStatus : Set := {
  rs_registry_status : str;
  rs_dns_published : option bool;
  rs_protocol_status : option AgentStatus;
  rs_ready_for_publication : bool;
  rs_published : bool;
  rs_failed : bool;
  rs_terminal : bool;
  rs_publication_config : option PublicationConfig;
  rs_raw : object
}.
Record CanonicalRecordContentResponse : Set := { cc_canonical : str; cc_signing_kid : str }.
(** The texts of a published record are what the registry sent. *)
Record PublishedRecord : Set := {
  pr_domain : json;
  pr_owner_name : json;
  pr_txt_record : json;
  pr_ttl : Z;
  pr_publication_status : str;
  pr_protocol_status : option AgentStatus;
  pr_raw : object
}.
Record PreparedRegistryEvent : Set := { pe_entry_bytes : bytes }.
Record KeyRotationPreparationRequest : Set := { kp_previous_key_id : str; kp_public_key : JWK }.
(** [RegistryRevocationReason] *)
Inductive RegistryRevocationReason : Set := OWNER_REQUEST | KEY_COMPROMISE.
Definition reason_value (r : RegistryRevocationReason) : str := match r with OWNER_REQUEST => lit "owner_request" | KEY_COMPROMISE => lit "key_compromise" end.

(** ** Failures

    An exception with the attributes that [DNSidError] declares. *)
Record failure : Set := {
  fl_exn : exn;
  fl_status_code : option Z;
  fl_error_code : str;
  fl_registration_request : option object;
  fl_registration_idempotency_key : str;
  fl_registration_response : option object
}.
Definition plain (e : exn) : failure :=
  {| fl_exn := e; fl_status_code := None; fl_error_code := []; fl_registration_request := None; fl_registration_idempotency_key := [];
     fl_registration_response := None |}.
Definition with_status (status : Z) (code : str) (f : failure) : failure :=
  {| fl_exn := fl_exn f; fl_status_code := Some status; fl_error_code := code; fl_registration_request := fl_registration_request f;
     fl_registration_idempotency_key := fl_registration_idempotency_key f; fl_registration_response := fl_registration_response f |}.
Definition with_response (response : option object) (f : failure) : failure :=
  {| fl_exn := fl_exn f; fl_status_code := fl_status_code f; fl_error_code := fl_error_code f; fl_registration_request := fl_registration_request f;
     fl_registration_idempotency_key := fl_registration_idempotency_key f; fl_registration_response := response |}.
Abbreviation outcome := (result failure).
Definition raised {A} (r : res A) : outcome A := match r with Ok a => Ok a | Raise e => Raise (plain e) end.

(** [RegistryRequestError] *)
Definition RegistryRequestError (status : Z) (code : str) : failure :=
  with_status status code (plain (VerificationError LOG_ERROR (lit "Registry request returned HTTP " ++ str_of_int status) (500 <=? status) None)).

(** ** Requests, responses and generators *)
Inductive request_body : Set := NoBody | JsonBody (data : object) | Content (data : bytes).
Record registry_request : Set := { rq_method : string; rq_url : str; rq_headers : list (str * str); rq_body : request_body }.
(** A buffered response: the status and the decoded body. *)
Record registry_response : Set := { rp_status_code : Z; rp_content : bytes }.
Definition is_success (r : registry_response) : bool := (200 <=? rp_status_code r) && (rp_status_code r <=? 299).

(** [_RegistryCall]: the calls of the innermost generators, and those of the others. *)
Inductive HttpCall : Type → Type := HttpRequestCall (r : registry_request) : HttpCall registry_response.
Inductive RegistryCall : Type → Type :=
| DirectCall {R} (c : HttpCall R) : RegistryCall R
| PostCall (path : str) (body : option object) (extra_headers : list (str * str)) (expected_status : option Z) : RegistryCall object
| GetRegistrationCall (domain : str) : RegistryCall (option AgentRegistration)
| GetAgentDetailCall (domain : str) : RegistryCall (option AgentRegistration).

Inductive steps (E : Type → Type) (A : Type) : Type :=
| Return (r : outcome A)
| Yield {R : Type} (call : E R) (resume : outcome R → steps E A).
Arguments Return {E A} r.
Arguments Yield {E A R} call resume.

Fixpoint steps_bind {E A B} (k : A → steps E B) (s : steps E A) : steps E B :=
  match s with
  | Return (Ok a) => k a
  | Return (Raise f) => Return (Raise f)
  | Yield call resume => Yield call (λ o, steps_bind k (resume o))
  end.
#[global] Instance steps_ret E : MRet (steps E) := λ A a, Return (Ok a).
#[global] Instance steps_mbind E : MBind (steps E) := λ A B k s, steps_bind k s.

(** [yield call]; a value or an exception of pure code; [try: s except: h]. *)
Definition yield {E R} (call : E R) : steps E R := Yield call Return.
Definition returns {E A} (r : res A) : steps E A := Return (raised r).
Definition fails {E A} (e : exn) : steps E A := Return (Raise (plain e)).
Fixpoint catching {E A} (h : failure → steps E A) (s : steps E A) : steps E A :=
  match s with
  | Return (Ok a) => Return (Ok a)
  | Return (Raise f) => h f
  | Yield call resume => Yield call (λ o, catching h (resume o))
  end.

(** ** The client *)
Record registry_client : Set := { cl_base_url : str; cl_is_loopback : bool; cl_api_key : option str; cl_transport_config : TransportConfig }.

Definition DEFAULT_REGISTRY_URL : str := lit "http://127.0.0.1:7755".
Definition LOOPBACK_HOSTS : list str := lit <$> ["localhost"; "127.0.0.1"; "::1"]%string.
Definition has_control (s : str) : bool := existsb (λ c, (c <? 32) || (c =? 127)) s.
Definition url_loopback `{Platform} (p : SplitResult) : bool :=
  match hostname str_lower (url_netloc p) with Some h => bool_decide (h ∈ LOOPBACK_HOSTS) | None => false end.

Section client.
Context `{Platform, PyLib, Zlib, HttpPlatform, IpLib}.

(** [RegistryClient.__init__] *)
Definition check_base_url (resolved : str) : res bool :=
  parsed ← try_except (p ← urlsplit netloc_ok resolved; port (url_netloc p) ;; Ok p)
    (λ e, if is_value_error e then Raise (ValueError (lit "base_url must be an HTTPS URL")) else Raise e);
  let is_loopback := url_loopback parsed in
  raise_if (bool_decide (default [] (hostname str_lower (url_netloc parsed)) = [])
            || negb (url_scheme parsed ==? lit "https") && negb ((url_scheme parsed ==? lit "http") && is_loopback))
    (ValueError (lit "base_url must be HTTPS (or HTTP on loopback)")) ;;
  raise_if (has_credentials (url_netloc parsed)) (ValueError (lit "base_url must not include userinfo")) ;;
  raise_if (negb (url_query parsed ==? []) || negb (url_fragment parsed ==? [])) (ValueError (lit "base_url must not include query or fragment")) ;;
  Ok is_loopback.

Definition default_transport : TransportConfig := {| tc_dns_server := []; tc_ca_bundle_path := []; tc_private_address_hosts := [] |}.

Definition init_registry_client (base_url : option str) (api_key : option str) (transport_config : option TransportConfig) : res registry_client :=
  let resolved := match base_url with Some ((_ :: _) as url) => url | _ => DEFAULT_REGISTRY_URL end in
  is_loopback ← check_base_url resolved;
  let stripped := strip is_space (default [] api_key) in
  raise_if (has_control stripped) (ValueError (lit "api_key contains illegal control characters")) ;;
  let transport := default default_transport transport_config in
  validate_private_address_hosts (tc_private_address_hosts transport) ;;
  Ok {| cl_base_url := rstrip (λ c, c =? 47) resolved; cl_is_loopback := is_loopback;
        cl_api_key := if stripped ==? [] then None else Some stripped; cl_transport_config := transport |}.

(** ** Helpers of the module *)
Definition is_ready_for_publication (status : str) : bool := status ==? lit "VERIFIED".
Definition is_failed_status (status : str) : bool := bool_decide (status ∈ (lit <$> ["ERROR"; "REJECTED"; "CANCELLED"]%string)).
Definition is_terminal_status (status : str) : bool := bool_decide (status ∈ (lit <$> ["RETIRED"; "REVOKED"; "REJECTED"; "CANCELLED"]%string)).

(** [resp.json()] *)
Definition response_data (r : registry_response) : res json := json_loads (rp_content r).

Definition creation_facts (r : registry_response) : option object :=
  match response_data r with
  | Ok (JDict d) =>
      Some (omap (λ name, match member (lit name) d with Some v => Some (lit name, v) | None => None end)
              ["id"; "domain"; "publication_config"; "oidc_issuer_url"]%string)
  | _ => None
  end.

(** [_ERROR_CODE_RE.fullmatch] *)
Definition error_code_re (s : str) : bool :=
  (1 <=? len s) && (len s <=? 64) && forallb (λ c, ((65 <=? c) && (c <=? 90)) || is_digit c || (c =? 95)) s.
Definition registry_error_code (r : registry_response) : str :=
  match response_data r with
  | Ok (JDict d) => match get "error" JNull d with JStr code => if error_code_re code then code else [] | _ => [] end
  | _ => []
  end.

Definition parse_json (r : registry_response) : res object :=
  match response_data r with
  | Raise _ => Raise (vfail LOG_ERROR "non-JSON response")
  | Ok (JDict d) => Ok d
  | Ok _ => Raise (vfail LOG_ERROR "expected JSON object")
  end.

Definition require_string (data : object) (field : string) : res str :=
  match get field JNull data with JStr s => Ok s | _ => Raise (vfail RECORD_INVALID "member must be a string") end.
Definition require_nonempty (data : object) (field : string) : res str :=
  value ← require_string data field;
  raise_if (value ==? []) (vfail RECORD_INVALID "member must be a non-empty string") ;;
  Ok value.

Definition bad_idempotency_key : exn := ArgumentError (lit "idempotency_key must be 1 to 200 bytes without surrounding whitespace").
Definition validate_tlog_idempotency_key (key : str) : res unit :=
  raise_if ((key ==? []) || negb (key ==? strip is_space key)) bad_idempotency_key ;;
  encoded ← utf8_encode key;
  raise_if ((200 <? len encoded) || has_control key) bad_idempotency_key.

(** *** Public keys *)
Definition PRIVATE_JWK_MEMBERS : list str := lit <$> ["d"; "p"; "q"; "dp"; "dq"; "qi"; "k"; "oth"]%string.
Definition is_private_member (name : str) : bool := bool_decide (name ∈ PRIVATE_JWK_MEMBERS).
(** [private_fields(value)] is not empty. *)
Fixpoint private_fields (value : json) : bool :=
  match value with
  | JDict d => existsb (λ kv, is_private_member kv.1 || private_fields kv.2) d
  | JList l => existsb private_fields l
  | _ => false
  end.
(** [JWK.to_dict] *)
Definition jwk_to_dict (key : JWK) : object := List.filter (λ kv, negb (is_private_member kv.1)) (jwk_raw key).
Definition public_jwk_dict (key : JWK) : res object :=
  raise_if (private_fields (JDict (jwk_raw key))) (ArgumentError (lit "public_key_jwk contains private JWK members")) ;;
  Ok (jwk_to_dict key).

Definition live_key_ok (raw : object) : res unit :=
  let bad := ValueError [] in
  raise_if (negb (is_str "OKP" (get "kty" JNull raw) && is_str "Ed25519" (get "crv" JNull raw) && is_str "EdDSA" (get "alg" JNull raw))) bad ;;
  let use := get "use" (JStr []) raw in
  raise_if (negb (hashable use)) unhashable ;;
  raise_if (negb (is_str "" use || is_str "sig" use)) bad ;;
  match get "x" JNull raw, get "kid" JNull raw with
  | JStr x, JStr ((_ :: _) as kid) =>
      public ← b64url_decode_strict x;
      raise_if (negb (len public =? 32)) (ValueError (lit "An Ed25519 public key is 32 bytes long")) ;;
      thumb ← compute_thumbprint raw;
      raise_if (negb (kid ==? thumb)) bad
  | _, _ => Raise bad
  end.
Definition live_public_jwk_dict (key : JWK) : res object :=
  raw ← public_jwk_dict key;
  try_except (live_key_ok raw)
    (λ e, match e with
          | TypeError _ | ValueError _ => Raise (ArgumentError (lit "live public_key_jwk must be a valid public OKP/Ed25519 JWK with alg='EdDSA' and a matching kid"))
          | e => Raise e
          end) ;;
  Ok raw.

(** ** Responses *)
Definition lifecycle_result_from_response (data : object) : LifecycleResult :=
  let raw_status := py_or (get "status" JNull data) (get "state" JNull data) in
  {| lf_id := text_or_empty (get "id" JNull data);
     lf_state := match raw_status with JNull => [] | v => str_upper (py_str v) end;
     lf_status_note := text_or_empty (get "status_note" JNull data); lf_raw := data |}.

(** [text(name)] *)
Definition transcript_text (raw : object) (name : string) : res str :=
  match get name JNull raw with JStr ((_ :: _) as s) => Ok s | _ => Raise (ValueError []) end.

Definition read_transcript (agent_id challenge challenge_message : str) (expected_key_id expected_domain : option str) : res (str * LiveChallengeTranscript) :=
  let bad := ValueError [] in
  octets ← b64url_decode_strict challenge_message;
  text ← utf8_decode octets;
  raw ← loads python_hooks text;
  match raw with
  | JDict raw =>
      protocol ← transcript_text raw "protocol";
      org_id ← transcript_text raw "org_id";
      transcript_agent_id ← transcript_text raw "agent_id";
      fqdn ← transcript_text raw "fqdn";
      key_id ← transcript_text raw "key_id";
      nonce ← transcript_text raw "nonce";
      expires ← transcript_text raw "expires_at";
      raise_if (negb (protocol ==? lit "dnsid-live-provisioning-pop/v1")) bad ;;
      raise_if (negb (transcript_agent_id ==? agent_id) || negb (nonce ==? challenge)) bad ;;
      raise_if (match expected_key_id with Some k => negb (key_id ==? k) | None => false end) bad ;;
      domain ← normalize_fqdn idna_encode fqdn true;
      match expected_domain with
      | None => Ok ()
      | Some d => expected ← normalize_fqdn idna_encode d true; raise_if (negb (domain ==? expected)) bad
      end ;;
      expires_at ← fromisoformat (replace_z expires);
      raise_if (bool_decide (dt_utcoffset expires_at = None)) bad ;;
      Ok (domain, {| lt_protocol := protocol; lt_org_id := org_id; lt_agent_id := transcript_agent_id; lt_fqdn := fqdn; lt_key_id := key_id;
                     lt_nonce := nonce; lt_expires_at := expires_at |})
  | _ => Raise bad
  end.
Definition live_challenge_from_response (agent_id challenge challenge_message : str) (expected_key_id expected_domain : option str)
    : res (str * LiveChallengeTranscript) :=
  try_except (read_transcript agent_id challenge challenge_message expected_key_id expected_domain)
    (λ _, Raise (vfail RECORD_INVALID "invalid challenge transcript")).

Definition live_provisioning_from_response (data : object) (public_key : JWK) : res LiveProvisioningResponse :=
  request_id ← require_nonempty data "request_id";
  agent_id ← require_nonempty data "agent_id";
  status ← require_nonempty data "status";
  challenge ← require_string data "challenge";
  challenge_message ← require_string data "challenge_message";
  '(domain, transcript) ←
    (if status ==? lit "challenge_pending" then
       thumb ← thumbprint public_key;
       '(domain, t) ← live_challenge_from_response agent_id challenge challenge_message (Some thumb) None;
       Ok (domain, Some t)
     else Ok ([], None));
  Ok {| lp_request_id := request_id; lp_agent_id := agent_id; lp_status := status; lp_challenge := challenge;
        lp_challenge_message := challenge_message; lp_domain := domain; lp_challenge_transcript := transcript; lp_raw := data |}.

Definition live_proof_reissue_from_response (data : object) (expected_domain expected_key_id : str) : res LiveProofReissueResponse :=
  request_id ← require_nonempty data "request_id";
  agent_id ← require_nonempty data "agent_id";
  status ← require_nonempty data "status";
  challenge ← require_nonempty data "challenge";
  challenge_message ← require_nonempty data "challenge_message";
  '(domain, transcript) ← live_challenge_from_response agent_id challenge challenge_message (Some expected_key_id) (Some expected_domain);
  Ok {| ly_request_id := request_id; ly_agent_id := agent_id; ly_status := status; ly_challenge := challenge;
        ly_challenge_message := challenge_message; ly_domain := domain; ly_challenge_transcript := transcript; ly_raw := data |}.

(** A result of a submission; its [raw] member is left out. *)
Definition submission (state error_code : str) : SubmissionResult :=
  {| sr_state := state; sr_entry_hash := []; sr_index := None; sr_log_ref := None; sr_key_id := []; sr_error_code := error_code |}.
Definition submission_result_from_response (data : object) : res SubmissionResult :=
  let state := str_lower (strip is_space (text_or_empty (get "state" JNull data))) in
  raise_if (negb (bool_decide (state ∈ VALID_SUBMISSION_STATES))) (vfail LOG_ERROR "registry submission response: unknown state") ;;
  let log_ref_raw := py_or (py_or (get "lr" JNull data) (get "logRef" JNull data)) (get "log_ref" JNull data) in
  Ok {| sr_state := state;
        sr_entry_hash := text_or_empty (py_or (get "entryHash" JNull data) (get "entry_hash" JNull data));
        sr_index := match get "index" JNull data with JInt i => Some i | _ => None end;
        sr_log_ref := match log_ref_raw with
                      | JStr ((_ :: _) as text) => match parse_ledger_ref text with Ok r => Some r | Raise _ => None end
                      | _ => None
                      end;
        sr_key_id := text_or_empty (py_or (get "keyId" JNull data) (get "key_id" JNull data));
        sr_error_code := text_or_empty (py_or (get "errorCode" JNull data) (get "error_code" JNull data)) |}.

(** [data.get(a, data.get(b))] *)
Definition get_either (a b : string) (data : object) : json := get a (get b JNull data) data.

Definition protocol_status_from_response (data : object) : res (option AgentStatus) :=
  match get_either "protocolStatus" "protocol_status" data with
  | JNull => Ok None
  | JDict raw =>
      match get "state" JNull raw, get_either "lastTransitionAt" "last_transition_at" raw with
      | JStr state, JStr transition =>
          parsed_transition ← try_except (fromisoformat (replace_z transition))
            (λ e, if is_value_error e then Raise (ValidationError (lit "registry protocolStatus has invalid lastTransitionAt")) else Raise e);
          let result := {| as_state := JStr state; as_last_transition_at := parsed_transition;
                           as_revocation_reason := JStr (py_str (get "revocationReason" (get "revocation_reason" (JStr []) raw) raw)) |} in
          validate_status result ;;
          Ok (Some result)
      | _, _ => Raise (ValidationError (lit "registry protocolStatus is incomplete"))
      end
  | _ => Raise (ValidationError (lit "registry protocolStatus must be an object"))
  end.

(** [int(value)] *)
Definition int_of_json (v : json) : res Z :=
  match v with
  | JInt z => Ok z
  | JBool b => Ok (if b then 1 else 0)
  | JFloat NaN => Raise (ValueError (lit "cannot convert float NaN to integer"))
  | JFloat (Infinite _) => Raise (OverflowError (lit "cannot convert float infinity to integer"))
  | JFloat f => Ok (int_of_num (NFloat f))
  | JStr s => match py_int s with Some z => Ok z | None => Raise (ValueError (lit "invalid literal for int() with base 10")) end
  | _ => Raise (TypeError (lit "int() argument must be a string, a bytes-like object or a real number"))
  end.

Definition published_record_from_response (domain : str) (data : object) : res PublishedRecord :=
  publication_status ← require_nonempty data "status";
  protocol_status ← protocol_status_from_response data;
  let '(source, owner_name, txt_record) :=
    match get "records" JNull data with
    | JList (JDict first :: _) => (first, "name", "value")
    | _ => (data, "ownerName", "txtRecord")
    end%string in
  ttl ← int_of_json (get "ttl" (JInt 300) source);
  Ok {| pr_domain := py_or (get "fqdn" JNull data) (JStr domain); pr_owner_name := get owner_name (JStr []) source;
        pr_txt_record := get txt_record (JStr []) source; pr_ttl := ttl; pr_publication_status := publication_status;
        pr_protocol_status := protocol_status; pr_raw := data |}.

(** *** Publication configuration *)
Definition required_field (raw : object) (name : string) : res str :=
  match get name JNull raw with
  | JStr ((_ :: _) as s) => Ok s
  | _ => Raise (ValidationError (lit "registry publication_config is missing " ++ lit name))
  end.
Definition optional_field (raw : object) (name : string) : res str :=
  match get name (JStr []) raw with JStr s => Ok s | _ => Raise (ValidationError (lit "registry publication_config field must be a string")) end.
Definition publication_config_from_response (data : object) : res (option PublicationConfig) :=
  match get_either "publication_config" "publicationConfig" data with
  | JNull => Ok None
  | JDict raw =>
      publish_profile ← required_field raw "publish_profile";
      governance_id ← required_field raw "governance_id";
      ku_url ← required_field raw "ku_url";
      ek_url ← required_field raw "ek_url";
      log_ref ← required_field raw "log_ref";
      status_url ← required_field raw "status_url";
      capabilities_url ← optional_field raw "capabilities_url";
      max_key_age ← optional_field raw "max_key_age";
      Ok (Some {| pc_publish_profile := publish_profile; pc_governance_id := governance_id; pc_ku_url := ku_url; pc_ek_url := ek_url;
                  pc_log_ref := log_ref; pc_status_url := status_url; pc_capabilities_url := capabilities_url; pc_max_key_age := max_key_age |})
  | _ => Raise (ValidationError (lit "registry publication_config must be an object"))
  end.

Definition publication_values (c : PublicationConfig) : list str :=
  [pc_publish_profile c; pc_governance_id c; pc_ku_url c; pc_ek_url c; pc_log_ref c; pc_status_url c; pc_capabilities_url c; pc_max_key_age c].
Definition publication_record (c : PublicationConfig) (domain : str) : DnsIdTxtRecord :=
  {| rec_v := pc_publish_profile c; rec_gi := pc_governance_id c; rec_ek := pc_ek_url c; rec_ku := pc_ku_url c; rec_lr := pc_log_ref c;
     rec_su := pc_status_url c; rec_sg := []; rec_fl := []; rec_ka := pc_max_key_age c; rec_cu := pc_capabilities_url c;
     rec_identity_fqdn := domain; rec_unknown_tags := []; rec_parsed_optional_tags := ∅ |}.
Definition validate_publication_config (config : PublicationConfig) (domain : str) : res unit :=
  raise_if (negb (publish_allowed_version (pc_publish_profile config))) (ValidationError (lit "registry returned unsupported publish_profile")) ;;
  raise_if (existsb (λ value, negb (is_valid_tag_value value)) (publication_values config))
    (ValidationError (lit "registry publication_config contains invalid record values")) ;;
  validate_record (publication_record config domain).

Definition dns_published_of (data : object) : option bool :=
  match get_either "dns_published" "dnsPublished" data with JBool b => Some b | _ => None end.

Definition registration_from_response (requested_domain registry_url : str) (data : object) : res AgentRegistration :=
  match py_or (py_or (get "domain" JNull data) (get "fqdn" JNull data)) (JStr requested_domain) with
  | JStr ((_ :: _) as domain_value) =>
      domain_value ← normalize_fqdn idna_encode domain_value true;
      requested ← normalize_fqdn idna_encode requested_domain true;
      raise_if (negb (domain_value ==? requested)) (ValidationError (lit "registry registration names a different domain")) ;;
      let managed := get "managed" JNull data in
      authority ← (if is_str "dnsid" managed then Ok (lit "registry")
                   else if is_str "self" managed then Ok (lit "client")
                   else Raise (ValidationError (lit "registry registration has unknown publication authority")));
      match get "serverStatus" (get_either "registryStatus" "status" data) data with
      | JStr ((_ :: _) as raw_status) =>
          publication_config ← publication_config_from_response data;
          match publication_config with None => Ok () | Some config => validate_publication_config config domain_value end ;;
          protocol_status ← protocol_status_from_response data;
          issuer ← (if has "oidc_issuer_url" data then require_string data "oidc_issuer_url" else Ok []);
          Ok {| ag_domain := domain_value; ag_publication_authority := authority; ag_registry_status := raw_status;
                ag_registry_url := registry_url; ag_dns_published := dns_published_of data; ag_protocol_status := protocol_status;
                ag_publication_config := publication_config; ag_raw := data; ag_oidc_issuer_url := issuer;
                ag_id := match get "id" JNull data with JStr id => id | _ => [] end |}
      | _ => Raise (ValidationError (lit "registry registration is missing registry status"))
      end
  | _ => Raise (ValidationError (lit "registry registration is missing domain"))
  end.

(** ** Credentials and errors of the transport *)
Context (client : registry_client).

Definition auth_headers : list (str * str) :=
  match cl_api_key client with Some key => [(lit "Authorization", lit "Bearer " ++ key)] | None => [] end.

(** [text.replace(old, "***")] for a non-empty [old]: the text is scanned from left to
    right; [skip] characters of the current occurrence remain. *)
Fixpoint mask_from (old : str) (skip : nat) (text : str) : str :=
  match text with
  | [] => []
  | c :: rest =>
      match skip with
      | S n => mask_from old n rest
      | O => if startswith old text then lit "***" ++ mask_from old (length old - 1) rest else c :: mask_from old 0 rest
      end
  end.
Definition sanitize (text : str) : str :=
  match cl_api_key client with Some key => if contains key text then mask_from key 0 text else text | None => text end.

Definition transport_detail (e : exn) : str :=
  match e with
  | HttpxError HConnect _ =>
      if cl_is_loopback client then lit "no registry; run `dnsid local up` or set DNSID_REGISTRY_URL" else sanitize (exn_str e)
  | _ => sanitize (exn_str e)
  end.

Definition require_auth : res unit :=
  raise_if (bool_decide (cl_api_key client = None) && negb (cl_is_loopback client))
    (ArgumentError (lit "operation requires registry credentials; construct RegistryClient(api_key=...)")).

(** [except httpx.TransportError as exc]: the error that is raised instead. *)
Definition transport_failure (f : failure) : failure :=
  if is_transport_error (fl_exn f)
  then plain (VerificationError LOG_ERROR (lit "Registry request failed: " ++ transport_detail (fl_exn f)) true None)
  else f.
Definition http_call (method : string) (path : str) (headers : list (str * str)) (body : request_body) : registry_request :=
  {| rq_method := method; rq_url := cl_base_url client ++ path; rq_headers := headers; rq_body := body |}.
Definition send (r : registry_request) : steps HttpCall registry_response :=
  catching (λ f, Return (Raise (transport_failure f))) (yield (HttpRequestCall r)).
(** An answer that is no success, without its error code. *)
Definition http_status_error (r : registry_response) : exn :=
  VerificationError LOG_ERROR (lit "Registry request returned HTTP " ++ str_of_int (rp_status_code r)) (500 <=? rp_status_code r) None.

(** ** Generators that make requests themselves *)
Definition set_headers (extra headers : list (str * str)) : list (str * str) := foldl (λ h kv, dict_set kv.1 kv.2 h) headers extra.

Definition post_steps (path : str) (body : option object) (extra_headers : list (str * str)) (expected_status : option Z) : steps HttpCall object :=
  resp ← send (http_call "POST" path (set_headers extra_headers auth_headers) match body with Some d => JsonBody d | None => NoBody end);
  let noted f := if path ==? lit "/api/v1/agent" then with_response (creation_facts resp) f else f in
  if negb (is_success resp) then Return (Raise (noted (RegistryRequestError (rp_status_code resp) (registry_error_code resp))))
  else if match expected_status with Some s => negb (rp_status_code resp =? s) | None => false end
  then Return (Raise (noted (with_status (rp_status_code resp) (registry_error_code resp)
                               (plain (vfail RECORD_INVALID "Registry request expected another HTTP status")))))
  else match parse_json resp with
       | Ok d => Return (Ok d)
       | Raise e => Return (Raise (with_status (rp_status_code resp) [] (plain e)))
       end.

Definition agent_path (domain : str) (tail : string) : res str :=
  quoted ← StreamBundle.quote domain; Ok (lit "/api/v1/agent/" ++ quoted ++ lit tail).

Definition get_status_document_steps (domain : str) : steps HttpCall (option object) :=
  path ← returns (agent_path domain "/status");
  resp ← send (http_call "GET" path auth_headers NoBody);
  if rp_status_code resp =? 404 then mret None
  else if negb (is_success resp) then fails (http_status_error resp)
  else data ← returns (parse_json resp); mret (Some data).

Definition get_status_steps (domain : str) : steps HttpCall (option str) :=
  data ← get_status_document_steps domain;
  mret match data with
       | None => None
       | Some data => match py_or (get "status" JNull data) (get "state" JNull data) with JNull => None | v => Some (str_upper (py_str v)) end
       end.

Definition agent_status_of (data : object) : res RegistryAgentStatus :=
  let raw_status := str_upper (text_or_empty (py_or (get "status" JNull data) (get "state" JNull data))) in
  let dns_published := dns_published_of data in
  protocol_status ← protocol_status_from_response data;
  publication_config ← publication_config_from_response data;
  Ok {| rs_registry_status := raw_status; rs_dns_published := dns_published; rs_protocol_status := protocol_status;
        rs_ready_for_publication := is_ready_for_publication raw_status || ((raw_status ==? lit "READY") && bool_decide (dns_published = Some false));
        rs_published := bool_decide (dns_published = Some true); rs_failed := is_failed_status raw_status;
        rs_terminal := is_terminal_status raw_status; rs_publication_config := publication_config; rs_raw := data |}.
Definition get_agent_status_steps (domain : str) : steps HttpCall (option RegistryAgentStatus) :=
  data ← get_status_document_steps domain;
  match data with None => mret None | Some data => status ← returns (agent_status_of data); mret (Some status) end.

Definition get_registration_steps (domain : str) : steps HttpCall (option AgentRegistration) :=
  returns require_auth ;;
  path ← returns (agent_path domain "/status");
  resp ← send (http_call "GET" path auth_headers NoBody);
  if rp_status_code resp =? 404 then mret None
  else if negb (is_success resp) then Return (Raise (RegistryRequestError (rp_status_code resp) (registry_error_code resp)))
  else
    data ← returns (parse_json resp);
    registration ← returns (registration_from_response domain (cl_base_url client) data);
    mret (Some registration).

(** *** Onboarding *)
Definition optional_object (v : json) : res (option object) :=
  match v with JNull => Ok None | JDict d => Ok (Some d) | _ => Raise (ValidationError (lit "onboarding member must be an object")) end.
(** [bool(gi and proof and ... and delegation.get("status") == "verified")] *)
Definition bindings_ready (gi : option str) (proof delegation : option object) : bool :=
  match gi, proof, delegation with
  | Some (_ :: _), Some ((_ :: _) as p), Some ((_ :: _) as d) =>
      negb (falsy (get "domain" JNull p)) && is_str "verified" (get "state" JNull p)
      && match get "gate_authorized" JNull p with JBool true => true | _ => false end && is_str "verified" (get "status" JNull d)
  | _, _, _ => false
  end.
Definition onboarding_of (expected_org_id expected_gi : option str) (data : object) : res object :=
  match get "org_id" JNull data with
  | JStr org_id =>
      raise_if (strip is_space org_id ==? []) (ValidationError (lit "onboarding org_id must be nonempty")) ;;
      raise_if (match expected_org_id with Some e => negb (org_id ==? e) | None => false end) (ValidationError (lit "onboarding organization ID changed")) ;;
      gi ← match get "governance_domain" JNull data with
           | JNull => Ok None
           | JStr governance => name ← normalize_fqdn idna_encode governance false; Ok (Some name)
           | _ => Raise (ValidationError (lit "onboarding governance_domain must be a domain"))
           end;
      match expected_gi with
      | None => Ok ()
      | Some e => name ← normalize_fqdn idna_encode e false; raise_if (negb (bool_decide (gi = Some name))) (ValidationError (lit "onboarding governance ID changed"))
      end ;;
      proof ← optional_object (get "gi" JNull data);
      delegation ← optional_object (get "ek" JNull data);
      match get "domain" JNull (default [] proof) with
      | JNull => Ok ()
      | JStr d => name ← normalize_fqdn idna_encode d false; raise_if (negb (bool_decide (gi = Some name))) (ValidationError (lit "onboarding governance proof domain mismatch"))
      | _ => Raise (ValidationError (lit "onboarding gi.domain must be a domain"))
      end ;;
      Ok (dict_set (lit "bindings_ready") (JBool (bindings_ready gi proof delegation)) data)
  | _ => Raise (ValidationError (lit "onboarding org_id must be nonempty"))
  end.
Definition get_organization_onboarding_steps (expected_org_id expected_gi : option str) : steps HttpCall object :=
  returns require_auth ;;
  resp ← send (http_call "GET" (lit "/api/v1/org/onboarding") auth_headers NoBody);
  if negb (is_success resp) then Return (Raise (RegistryRequestError (rp_status_code resp) (registry_error_code resp)))
  else data ← returns (parse_json resp); returns (onboarding_of expected_org_id expected_gi data).

(** *** Challenges, and removal *)
Definition challenge_result (data : object) : LifecycleResult :=
  {| lf_id := text_or_empty (get "id" JNull data);
     lf_state := match get "status" JNull data with JStr ((_ :: _) as s) => str_upper s | _ => [] end;
     lf_status_note := text_or_empty (get "status_note" JNull data); lf_raw := data |}.
(** [bytes | str] *)
Inductive challenge_signature : Set := SignatureBytes (b : bytes) | SignatureText (s : str).
Definition submit_challenge_signature_steps (domain nonce : str) (signature : challenge_signature) : steps HttpCall LifecycleResult :=
  returns require_auth ;;
  let sig_text := match signature with SignatureText s => s | SignatureBytes b => b64url_encode b false end in
  path ← returns (agent_path domain "/challenge");
  resp ← send (http_call "POST" path auth_headers (JsonBody [(lit "nonce", JStr nonce); (lit "signature", JStr sig_text)]));
  if negb (is_success resp) then fails (http_status_error resp)
  else mret (challenge_result match response_data resp with Ok (JDict d) => d | _ => [] end).

Definition unregister_agent_steps (domain : str) : steps HttpCall unit :=
  returns require_auth ;;
  path ← returns (agent_path domain "");
  resp ← send (http_call "DELETE" path auth_headers NoBody);
  if negb (is_success resp) && negb (bool_decide (rp_status_code resp ∈ [404; 405])) then fails (http_status_error resp) else mret ().

(** *** Prepared events *)
Definition idempotency_header (key : str) : list (str * str) := [(lit "Idempotency-Key", key)].
Definition json_content : list (str * str) := [(lit "Content-Type", lit "application/json")].

Definition prepare_issuance_steps (domain idempotency_key : str) : steps HttpCall PreparedRegistryEvent :=
  returns require_auth ;;
  returns (validate_tlog_idempotency_key idempotency_key) ;;
  path ← returns (agent_path domain "/tlog/issuance/prepare");
  resp ← send (http_call "POST" path (auth_headers ++ json_content ++ idempotency_header idempotency_key) NoBody);
  if negb (is_success resp) then fails (http_status_error resp) else mret {| pe_entry_bytes := rp_content resp |}.

Definition prepare_key_rotation_steps (domain : str) (request : KeyRotationPreparationRequest) (idempotency_key : str) : steps HttpCall PreparedRegistryEvent :=
  returns require_auth ;;
  returns (validate_tlog_idempotency_key idempotency_key) ;;
  let raw_jwk := jwk_raw (kp_public_key request) in
  returns (raise_if (existsb (λ kv, is_private_member kv.1) raw_jwk) (ArgumentError (lit "public_key contains private JWK members"))) ;;
  returns (raise_if (falsy (get "kid" JNull raw_jwk) || falsy (get "alg" JNull raw_jwk)) (ArgumentError (lit "public_key must include kid and alg"))) ;;
  path ← returns (agent_path domain "/tlog/key-rotation/prepare");
  resp ← send (http_call "POST" path (auth_headers ++ idempotency_header idempotency_key)
                 (JsonBody [(lit "previous_key_id", JStr (kp_previous_key_id request)); (lit "public_key", JDict raw_jwk)]));
  if negb (is_success resp) then fails (http_status_error resp) else mret {| pe_entry_bytes := rp_content resp |}.

(** The result that an answer stands for. *)
Definition http_code (r : registry_response) : str := lit "TLOG_SUBMISSION_HTTP_" ++ str_of_int (rp_status_code r).
Definition indeterminate (r : registry_response) : bool := 500 <=? rp_status_code r.
Definition pending_or_rejected (b : bool) : str := if b then lit "pending" else lit "rejected".
Definition submission_answer (resp : registry_response) : SubmissionResult :=
  match response_data resp with
  | Ok (JDict data) =>
      if is_success resp then
        match submission_result_from_response data with
        | Ok result => result
        | Raise _ => submission (lit "pending") (lit "TLOG_SUBMISSION_INVALID_RESPONSE")
        end
      else
        let error_code := text_or_empty (get "error" JNull data) in
        if bool_decide (error_code ∈ (lit <$> ["TLOG_SUBMISSION_BUSY"; "TLOG_SUBMISSION_INDETERMINATE"]%string)) then submission (lit "pending") error_code
        else if bool_decide (rp_status_code resp ∈ [400; 404; 409; 422]) then submission (lit "rejected") error_code
        else submission (pending_or_rejected (indeterminate resp)) (if error_code ==? [] then http_code resp else error_code)
  | _ => submission (pending_or_rejected (is_success resp || indeterminate resp)) (http_code resp)
  end.
Definition submit_prepared_event_steps (domain : str) (entry_bytes : bytes) (idempotency_key : str) : steps HttpCall SubmissionResult :=
  returns require_auth ;;
  returns (validate_tlog_idempotency_key idempotency_key) ;;
  returns (raise_if (entry_bytes ==? []) (ArgumentError (lit "submit_prepared_event requires non-empty entry bytes"))) ;;
  path ← returns (agent_path domain "/tlog/events");
  answer ← catching (λ f, if is_transport_error (fl_exn f) then mret None else Return (Raise f))
    (resp ← yield (HttpRequestCall (http_call "POST" path (auth_headers ++ json_content ++ idempotency_header idempotency_key) (Content entry_bytes)));
     mret (Some resp));
  match answer with
  | None => mret (submission (lit "pending") (lit "TLOG_SUBMISSION_TRANSPORT_ERROR"))
  | Some resp =>
      let result := submission_answer resp in
      returns (raise_if (accepted result && ((sr_entry_hash result ==? []) || negb (sr_entry_hash result ==? sha256_hexdigest entry_bytes)))
                 (vfail RECORD_INVALID "registry accepted a different prepared-event byte sequence")) ;;
      mret result
  end.

(** ** Generators that call other operations *)
Definition post (path : str) (body : option object) (extra_headers : list (str * str)) (expected_status : option Z) : steps RegistryCall object :=
  yield (PostCall path body extra_headers expected_status).

(** *** Registration *)
Definition invalid_name_error {A} (m : res A) : res A :=
  try_except m (λ e, match e with ValidationError _ | ValueError _ => Raise (ArgumentError (lit "invalid domain")) | e => Raise e end).
(** [if value: body[name] = value] *)
Definition text_entry (name : string) (value : str) : object := if value ==? [] then [] else [(lit name, JStr value)].
Definition domain_entry (name : string) (value : str) (agent_fqdn : bool) : res object :=
  if value ==? [] then Ok [] else name' ← invalid_name_error (normalize_fqdn idna_encode value agent_fqdn); Ok [(lit name, JStr name')].

Definition check_registration_input (input : AgentRegistrationInput) (idempotency_key : option str) : res str :=
  raise_if (negb (ri_environment input ==? []) && negb (bool_decide (ri_environment input ∈ (lit <$> ["production"; "sandbox"]%string))))
    (arg_error "environment must be production or sandbox") ;;
  raise_if (negb (ri_domain input ==? []) && negb (ri_root_domain input ==? [])) (arg_error "domain and root_domain cannot both be supplied") ;;
  raise_if (negb (ri_zone_id input ==? []) && negb (ri_domain input ==? [])) (arg_error "zone_id and domain cannot both be supplied") ;;
  raise_if (((ri_domain input ==? []) || ri_managed input || negb (ri_zone_id input ==? [])) && bool_decide (ri_public_key_jwk input = None))
    (arg_error "assigned or managed registration requires public_key_jwk") ;;
  raise_if (ri_tier input ==? lit "live") (arg_error "use register_live_agent for managed Live registration") ;;
  raise_if (match idempotency_key with Some k => negb (ri_idempotency_key input ==? []) && negb (k ==? ri_idempotency_key input) | None => false end)
    (arg_error "conflicting idempotency keys") ;;
  let key := default (ri_idempotency_key input) idempotency_key in
  (if negb (key ==? []) then validate_tlog_idempotency_key key
   else raise_if (bool_decide (is_Some idempotency_key)) (arg_error "idempotency_key must not be empty")) ;;
  Ok key.

Definition registration_body (input : AgentRegistrationInput) : res object :=
  domain ← domain_entry "domain" (ri_domain input) true;
  governance_domain ← domain_entry "governance_domain" (ri_governance_domain input) false;
  root_domain ← domain_entry "root_domain" (ri_root_domain input) false;
  public_key ← match ri_public_key_jwk input with None => Ok [] | Some key => d ← public_jwk_dict key; Ok [(lit "public_key", JDict d)] end;
  (if ri_capabilities_url input ==? [] then Ok ()
   else as_argument_error (parse_https_uri_host (ri_capabilities_url input) "capabilities_url" ;; Ok ())) ;;
  let name := strip is_space (ri_name input) in
  raise_if (255 <? len name) (arg_error "name must be at most 255 characters after trimming") ;;
  Ok (domain ++ governance_domain ++ root_domain ++ public_key ++ text_entry "environment" (ri_environment input) ++ text_entry "tier" (ri_tier input)
      ++ text_entry "zone_id" (ri_zone_id input) ++ (if ri_managed input then [(lit "managed", JBool true)] else [])
      ++ text_entry "capabilities_url" (ri_capabilities_url input) ++ (if ri_name input ==? [] then [] else [(lit "name", JStr name)])).

(** [body.get(name)], when it is true *)
Definition body_text (body : object) (name : string) : option str := match get name JNull body with JStr ((_ :: _) as s) => Some s | _ => None end.

(** The checks between the answer to the creation and the reading of the detail. *)
Definition created_agent (body data : object) : res (str * str * PublicationConfig * str) :=
  created_id ← require_nonempty data "id";
  named ← require_nonempty data "domain";
  domain ← normalize_fqdn idna_encode named true;
  raise_if (match body_text body "domain" with Some d => negb (domain ==? d) | None => false end) (ValidationError (lit "registry returned a different domain")) ;;
  raise_if (match body_text body "root_domain" with Some r => negb (endswith ([46] ++ r) domain) | None => false end)
    (ValidationError (lit "registry domain is not beneath root_domain")) ;;
  config ← publication_config_from_response data;
  match config with
  | None => Raise (ValidationError (lit "registry register response is missing publication_config"))
  | Some config =>
      validate_publication_config config domain ;;
      raise_if (match body_text body "governance_domain" with Some g => negb (pc_governance_id config ==? g) | None => false end)
        (ValidationError (lit "registry returned a different governance domain")) ;;
      match get "oidc_issuer_url" (JStr []) data with
      | JStr issuer =>
          (if issuer ==? [] then Ok () else parse_https_uri_host issuer "oidc_issuer_url" ;; Ok ()) ;;
          Ok (created_id, domain, config, issuer)
      | _ => Raise (ValidationError (lit "registry register response has invalid oidc_issuer_url"))
      end
  end.

Definition confirmed_registration (created_id domain : str) (config : PublicationConfig) (issuer : str) (registration : option AgentRegistration) : res AgentRegistration :=
  match registration with
  | None => Raise (ValidationError (lit "registry created the agent but returned no registration"))
  | Some r =>
      raise_if (negb (ag_domain r ==? domain)) (ValidationError (lit "registry detail names a different domain")) ;;
      raise_if (negb (ag_id r ==? []) && negb (ag_id r ==? created_id)) (ValidationError (lit "registry detail names a different agent than the one created")) ;;
      raise_if (negb (bool_decide (ag_publication_authority r ∈ (lit <$> ["client"; "registry"]%string))))
        (ValidationError (lit "registry registration has unknown publication authority")) ;;
      Ok {| ag_domain := ag_domain r; ag_publication_authority := ag_publication_authority r; ag_registry_status := ag_registry_status r;
            ag_registry_url := ag_registry_url r; ag_dns_published := ag_dns_published r; ag_protocol_status := ag_protocol_status r;
            ag_publication_config := Some config; ag_raw := ag_raw r; ag_oidc_issuer_url := issuer; ag_id := created_id |}
  end.

(** [except DNSidError as exc]: the facts a caller needs for a retry. *)
Definition retain_request (body : object) (key : str) (data : option object) (f : failure) : failure :=
  if is_dnsid (fl_exn f) then
    {| fl_exn := fl_exn f; fl_status_code := fl_status_code f; fl_error_code := fl_error_code f; fl_registration_request := Some body;
       fl_registration_idempotency_key := key;
       fl_registration_response := match data with Some ((_ :: _) as d) => Some d | _ => fl_registration_response f end |}
  else f.

Definition register_agent_steps (input : AgentRegistrationInput) (idempotency_key : option str) : steps RegistryCall AgentRegistration :=
  returns require_auth ;;
  key ← returns (check_registration_input input idempotency_key);
  body ← returns (registration_body input);
  data ← catching (λ f, Return (Raise (retain_request body key None f)))
    (post (lit "/api/v1/agent") (Some body) (if key ==? [] then [] else idempotency_header key) (Some 201));
  catching (λ f, Return (Raise (retain_request body key (Some data) f)))
    ('(created_id, domain, config, issuer) ← returns (created_agent body data);
     registration ← yield (GetAgentDetailCall domain);
     returns (confirmed_registration created_id domain config issuer registration)).

Definition register_live_agent_steps (input : LiveAgentRegistrationInput) (idempotency_key : str) : steps RegistryCall LiveProvisioningResponse :=
  returns require_auth ;;
  returns (raise_if (negb (bool_decide (li_environment input ∈ (lit <$> [""; "production"]%string)))) (arg_error "live registration environment must be production or omitted")) ;;
  returns (validate_tlog_idempotency_key idempotency_key) ;;
  public_key ← returns (live_public_jwk_dict (li_public_key_jwk input));
  let body := [(lit "public_key", JDict public_key); (lit "environment", JStr (lit "production")); (lit "tier", JStr (lit "live")); (lit "managed", JBool true)]
              ++ text_entry "capabilities_url" (li_capabilities_url input) ++ text_entry "name" (li_name input) in
  data ← post (lit "/api/v1/agent") (Some body) (idempotency_header idempotency_key) (Some 202);
  returns (live_provisioning_from_response data (li_public_key_jwk input)).

Definition submit_live_proof_steps (domain : str) (request : LiveProofRequest) : steps RegistryCall LiveProofResponse :=
  returns require_auth ;;
  returns (validate_tlog_idempotency_key (lq_request_id request)) ;;
  path ← returns (agent_path domain "/proof");
  public_key ← returns (live_public_jwk_dict (lq_public_key_jwk request));
  data ← post path (Some [(lit "request_id", JStr (lq_request_id request)); (lit "challenge", JStr (lq_challenge request));
                          (lit "public_key", JDict public_key); (lit "signature", JStr (lq_signature request))])
           (idempotency_header (lq_request_id request)) (Some 202);
  returns (request_id ← require_nonempty data "request_id"; agent_id ← require_nonempty data "agent_id"; status ← require_nonempty data "status";
           Ok {| lv_request_id := request_id; lv_agent_id := agent_id; lv_status := status; lv_raw := data |}).

Definition reissue_live_proof_steps (domain : str) (request : LiveProofReissueRequest) : steps RegistryCall LiveProofReissueResponse :=
  returns require_auth ;;
  returns (validate_tlog_idempotency_key (lx_request_id request)) ;;
  returns (live_public_jwk_dict (lx_public_key_jwk request)) ;;
  expected_key_id ← returns (thumbprint (lx_public_key_jwk request));
  path ← returns (agent_path domain "/proof/reissue");
  data ← post path (Some [(lit "request_id", JStr (lx_request_id request))]) (idempotency_header (lx_request_id request)) (Some 202);
  returns (live_proof_reissue_from_response data domain expected_key_id).

(** *** Lifecycle *)
Definition verify_agent_steps (domain : str) : steps RegistryCall AgentRegistration :=
  returns require_auth ;;
  path ← returns (agent_path domain "/verify");
  data ← post path None [] None;
  registration ← yield (GetRegistrationCall match get "fqdn" JNull data with JStr ((_ :: _) as fqdn) => fqdn | _ => domain end);
  match registration with
  | Some r => mret r
  | None => fails (ValidationError (lit "registry accepted verification but returned no registration"))
  end.

(** [_lifecycle_result_from_response] of the answer to a transition. *)
Definition transition_steps (domain : str) (tail : string) (body : option object) : steps RegistryCall LifecycleResult :=
  returns require_auth ;;
  path ← returns (agent_path domain tail);
  data ← post path body [] None;
  mret (lifecycle_result_from_response data).
Definition revoke_agent_steps (domain agent_id : str) (reason : RegistryRevocationReason) : steps RegistryCall LifecycleResult :=
  transition_steps domain "/revoke" (Some [(lit "agent_id", JStr agent_id); (lit "reason", JStr (reason_value reason))]).
Definition retire_agent_steps (domain agent_id : str) : steps RegistryCall LifecycleResult :=
  transition_steps domain "/retire" (Some [(lit "agent_id", JStr agent_id)]).
Definition cancel_agent_steps (domain : str) : steps RegistryCall LifecycleResult := transition_steps domain "/cancel" None.

(** *** Publication *)
Definition canonical_record_content_steps (domain : str) (signing_kid : json) : steps RegistryCall CanonicalRecordContentResponse :=
  returns require_auth ;;
  path ← returns (agent_path domain "/record");
  data ← post path (Some [(lit "signingKid", signing_kid)]) [] None;
  returns (canonical ← require_nonempty data "canonicalContent"; registry_kid ← require_nonempty data "signingKid";
           Ok {| cc_canonical := canonical; cc_signing_kid := registry_kid |}).
Definition publish_signature_steps (domain sig : str) : steps RegistryCall PublishedRecord :=
  returns require_auth ;;
  path ← returns (agent_path domain "/signature");
  data ← post path (Some [(lit "signature", JStr sig)]) [] None;
  returns (published_record_from_response domain data).
End client.

(** ** The driver *)

(** What survives a call: the pooled connection, once there is one, and the requests
    that were sent, the last one first. *)
Record registry_world : Set := { rw_http_client : option CheckedResolveBackend; rw_sent : list registry_request }.
Definition RM (A : Type) : Type := registry_world → registry_world * outcome A.

(** [_run_registry]: the exceptions of a call are thrown into the generator. *)
Fixpoint run_registry {E : Type → Type} {A} (perform : ∀ R, E R → RM R) (s : steps E A) : RM A := λ w,
  match s with
  | Return r => (w, r)
  | Yield call resume => let '(w', o) := perform _ call w in run_registry perform (resume o) w'
  end.

Section driver.
Context `{Platform, PyLib, Zlib, HttpPlatform, IpLib}.
(** What the requests are answered with, over the connection of a backend, and the
    deadline of each; both by the number of the request. *)
Context (exchange : nat → CheckedResolveBackend → registry_request → res http_response) (check : list nat → res unit).
Context (client : registry_client).

Definition ACCEPT_ENCODING : list (str * str) := [(lit "Accept-Encoding", lit "gzip, deflate")].
Definition MAX_REGISTRY_BODY : Z := 4 * 1024 * 1024.
Definition allow_loopback_host : res (option str) :=
  if cl_is_loopback client then p ← urlsplit netloc_ok (cl_base_url client); Ok (hostname str_lower (url_netloc p)) else Ok None.
Definition connection (w : registry_world) : res CheckedResolveBackend :=
  match rw_http_client w with
  | Some backend => Ok backend
  | None => host ← allow_loopback_host; make_ssrf_safe_transport (Some (cl_transport_config client)) host
  end.
Definition with_default_headers (r : registry_request) : registry_request :=
  {| rq_method := rq_method r; rq_url := rq_url r; rq_headers := set_headers (rq_headers r) ACCEPT_ENCODING; rq_body := rq_body r |}.

(** [_http_request] *)
Definition http_request (r : registry_request) : RM registry_response := λ w,
  let n := length (rw_sent w) in
  match check [n; 0]%nat with
  | Raise e => (w, Raise (plain e))
  | Ok _ =>
      match connection w with
      | Raise e => (w, Raise (plain e))
      | Ok backend =>
          let r := with_default_headers r in
          ({| rw_http_client := Some backend; rw_sent := r :: rw_sent w |},
           raised (response ← exchange n backend r;
                   body ← read_limited check [n; 1]%nat response MAX_REGISTRY_BODY LOG_ERROR;
                   Ok {| rp_status_code := hr_status_code response; rp_content := body |}))
      end
  end.

Definition perform_http (R : Type) (c : HttpCall R) : RM R := match c with HttpRequestCall r => http_request r end.
(** The method of the client that a call names. *)
Definition perform (R : Type) (c : RegistryCall R) : RM R :=
  match c with
  | DirectCall c => perform_http _ c
  | PostCall path body extra_headers expected_status => run_registry perform_http (post_steps client path body extra_headers expected_status)
  | GetRegistrationCall domain | GetAgentDetailCall domain => run_registry perform_http (get_registration_steps client domain)
  end.

(** *** Operations *)
Definition register_agent input key : RM AgentRegistration := run_registry perform (register_agent_steps client input key).
Definition register_live_agent input key : RM LiveProvisioningResponse := run_registry perform (register_live_agent_steps client input key).
Definition submit_live_proof domain request : RM LiveProofResponse := run_registry perform (submit_live_proof_steps client domain request).
Definition reissue_live_proof domain request : RM LiveProofReissueResponse := run_registry perform (reissue_live_proof_steps client domain request).
Definition verify_agent domain : RM AgentRegistration := run_registry perform (verify_agent_steps client domain).
Definition revoke_agent domain id reason : RM LifecycleResult := run_registry perform (revoke_agent_steps client domain id reason).
Definition retire_agent domain id : RM LifecycleResult := run_registry perform (retire_agent_steps client domain id).
Definition cancel_agent domain : RM LifecycleResult := run_registry perform (cancel_agent_steps client domain).
Definition canonical_record_content domain kid : RM CanonicalRecordContentResponse := run_registry perform (canonical_record_content_steps client domain kid).
Definition publish_signature domain sig : RM PublishedRecord := run_registry perform (publish_signature_steps client domain sig).
Definition get_status domain : RM (option str) := run_registry perform_http (get_status_steps client domain).
Definition get_agent_status domain : RM (option RegistryAgentStatus) := run_registry perform_http (get_agent_status_steps client domain).
Definition get_registration domain : RM (option AgentRegistration) := run_registry perform_http (get_registration_steps client domain).
Definition get_organization_onboarding org gi : RM object := run_registry perform_http (get_organization_onboarding_steps client org gi).
Definition submit_challenge_signature domain nonce signature : RM LifecycleResult := run_registry perform_http (submit_challenge_signature_steps client domain nonce signature).
Definition unregister_agent domain : RM unit := run_registry perform_http (unregister_agent_steps client domain).
Definition prepare_issuance domain key : RM PreparedRegistryEvent := run_registry perform_http (prepare_issuance_steps client domain key).
Definition prepare_key_rotation domain request key : RM PreparedRegistryEvent := run_registry perform_http (prepare_key_rotation_steps client domain request key).
Definition submit_prepared_event domain entry key : RM SubmissionResult := run_registry perform_http (submit_prepared_event_steps client domain entry key).

(** [wait_for_status], on times in one unit: [clock n] is the reading after the
    [n]-th poll, [deadline] the first reading plus the timeout.  [None] when the
    polls run out; a negative [interval] is refused by [time.sleep]. *)
Fixpoint wait_loop (polls n : nat) (clock : nat → Z) (deadline interval : Z) (domain : str) (target_state : str) : registry_world → registry_world * option (outcome RegistryAgentStatus) := λ w,
  match polls with
  | O => (w, None)
  | S polls =>
      let fail e := Some (Raise (plain e)) in
      match get_agent_status domain w with
      | (w', Raise f) => (w', Some (Raise f))
      | (w', Ok None) => (w', fail (vfail LOG_ERROR "Agent not found in registry"))
      | (w', Ok (Some status)) =>
          if negb (target_state ==? []) && (rs_registry_status status ==? target_state) then (w', Some (Ok status))
          else if rs_published status || rs_failed status || rs_terminal status then
            if negb (target_state ==? []) && negb (rs_published status) then (w', fail (vfail LOG_ERROR "Agent reached another state before the target"))
            else (w', Some (Ok status))
          else
            let remaining := deadline - clock n in
            if remaining <=? 0 then (w', fail (VerificationError LOG_ERROR (lit "Timed out waiting") true None))
            else if Z.min interval remaining <? 0 then (w', fail (ValueError (lit "sleep length must be non-negative")))
            else wait_loop polls (S n) clock deadline interval domain target_state w'
      end
  end.
Definition wait_for_status (polls : nat) (start : Z) (clock : nat → Z) (timeout interval : Z) (domain target_state : str) :=
  wait_loop polls 0 clock (start + timeout) interval domain target_state.
End driver.

(** ** Publication by the registry ([IdentityManager.await_registry_managed_publication]) *)
Section awaiting.
Context `{Platform, PyLib, Zlib, HttpPlatform, IpLib} {C : Type} `{IdentityCache C Verified}.
Context (exchange : nat → CheckedResolveBackend → registry_request → res http_response) (check : list nat → res unit) (client : registry_client).
Context (env : environment) (cfg : VerificationConfig).

(** The states of the client and of the manager; [None] when the polls run out. *)
Definition AM (A : Type) : Type := registry_world * C → (registry_world * C) * option (outcome A).
#[global] Instance AM_ret : MRet AM := λ A a s, (s, Some (Ok a)).
#[global] Instance AM_bind : MBind AM := λ A B k m s,
  match m s with
  | (s', Some (Ok a)) => k a s'
  | (s', Some (Raise f)) => (s', Some (Raise f))
  | (s', None) => (s', None)
  end.
Definition of_registry {A} (m : RM A) : AM A := λ '(w, c), let '(w', o) := m w in ((w', c), Some o).
Definition of_wait {A} (m : registry_world → registry_world * option (outcome A)) : AM A := λ '(w, c), let '(w', o) := m w in ((w', c), o).
Definition of_manager {A} (m : MM C A) : AM A := λ '(w, c), let '(c', r) := m c in ((w, c'), Some (raised r)).
Definition of_res {A} (r : res A) : AM A := λ s, (s, Some (raised r)).

Definition managed_by_registry (registration : option AgentRegistration) (absent other : string) : res AgentRegistration :=
  match registration with
  | None => Raise (ValidationError (lit absent))
  | Some r => raise_if (negb (ag_publication_authority r ==? lit "registry")) (ValidationError (lit other)) ;; Ok r
  end.

Definition await_registry_managed_publication (polls rounds : nat) (path : list nat) (closed : bool) (start : Z) (clock : nat → Z) (timeout interval : Z)
    (m : local_manager) : AM PublishedRecord :=
  of_res (require_local_identity m) ;;
  identity ← of_res (local_identity m);
  let domain := ic_domain identity in
  registration ← of_registry (get_registration exchange check client domain);
  of_res (managed_by_registry registration "local identity is not registered" "client controls accountable-entity publication") ;;
  status ← of_wait (wait_for_status exchange check client polls start clock timeout interval domain []);
  of_res (raise_if (negb (rs_published status)) (ValidationError (lit "registry did not report DNS publication complete"))) ;;
  registration ← of_registry (get_registration exchange check client domain);
  registration ← of_res (managed_by_registry registration "registry registration disappeared after publication" "registry publication authority changed while waiting");
  of_res (raise_if (bool_decide (ag_registry_status registration ∈ (lit <$> ["REJECTED"; "CANCELLED"; "ERROR"]%string))) (ValidationError (lit "registry publication failed"))) ;;
  of_res (raise_if (negb (bool_decide (ag_dns_published registration = Some true))) (ValidationError (lit "registry did not confirm DNS publication"))) ;;
  verified ← of_manager (bounded env (0 :: path)%nat (verify env cfg rounds (1 :: path)%nat closed domain None false false));
  of_res (raise_if (negb (rec_v (vd_record verified) ==? profile_of identity)) (ValidationError (lit "published DNSid record uses an unexpected version"))) ;;
  mret {| pr_domain := JStr (vd_domain verified); pr_owner_name := JStr (lit "_dnsid." ++ vd_domain verified);
          pr_txt_record := JStr (serialize_record (vd_record verified)); pr_ttl := vd_dns_ttl verified;
          pr_publication_status := ag_registry_status registration; pr_protocol_status := Some (vd_registry_status verified); pr_raw := ag_raw registration |}.
End awaiting.
