(* ===== verification/RegistryApiSpec.v ===== *)
(** * What the registry client guarantees

    Every request goes to the configured registry, authorized with the client's
    credential, and its keys have no private members of their own; what is taken from an answer agrees with what was
    asked; failures leave what a retry needs. *)
From S2P Require Import Prelude Sha256 Errors PyText Base64 Utils Lr ResourceFetcher PyTime Canonical Keys EventCodecSpec LifecycleDemo TxtRecord TxtRecordSpec Identity HttpsClient Manager ManagerSpec Publication PublicationSpec ManagerDemo StreamBundle Rotation HttpSignatures HttpProfile HttpSpec Oidc WbaVerifier Destination RegistryApi.

(** ** URLs that extend another *)
Lemma lstrip_app f a b : lstrip f (a ++ b) = if forallb f a then lstrip f b else lstrip f a ++ b.
Proof. induction a as [|x a IH]; cbn; [done|]. destruct (f x); cbn; [apply IH|done]. Qed.

(** The text before the first colon is the scheme. *)
Lemma split_scheme_head c head v : 58 ∉ c :: head →
  split_scheme (c :: head ++ 58 :: v) = if is_alpha c && forallb is_scheme_char (c :: head) then (lower_ascii <$> c :: head, v) else ([], c :: head ++ 58 :: v).
Proof.
  intros Hn. unfold split_scheme. change (c :: head ++ 58 :: v) with ((c :: head) ++ 58 :: v).
  rewrite find_char, drop_len_cons by done.
  replace (Z.to_nat (len (c :: head))) with (length (c :: head)) by (unfold len; lia). rewrite take_app_length.
  destruct (Z.ltb_spec 0 (len (c :: head))) as [_|Hl]; [|rewrite len_cons in Hl; pose proof (len_nonneg head); lia].
  cbn [app]. done.
Qed.
Lemma split_scheme_Some url s v : split_scheme url = (s, v) → s ≠ [] →
  ∃ head, url = head ++ 58 :: v ∧ ∀ v', split_scheme (head ++ 58 :: v') = (s, v').
Proof.
  intros E Hs. destruct url as [|c url]; [cbn in E; congruence|].
  destruct (find_cases 58 (c :: url)) as [[Hn Hf]|(a & b & Eu & Ha & _)].
  - unfold split_scheme in E. rewrite Hf in E. cbn in E. congruence.
  - destruct a as [|c' a]; injection Eu as -> ->; [cbn in E; congruence|].
    rewrite split_scheme_head in E by done. destruct (is_alpha c' && _) eqn:Hok; [|congruence].
    injection E as Es <-. exists (c' :: a). split; [done|]. intros v'. cbn [app]. rewrite split_scheme_head, Hok by done. by f_equal.
Qed.

Lemma take_while_stop f a b : Forall (λ c, f c = true) a → match b with [] => True | c :: _ => f c = false end → take_while f (a ++ b) = a.
Proof. intros Ha Hb. induction Ha as [|c a Hc _ IH]; cbn; [destruct b; cbn; [done|by rewrite Hb]|by rewrite Hc, IH]. Qed.
Lemma take_while_split f s : ∃ b, s = take_while f s ++ b ∧ Forall (λ c, f c = true) (take_while f s) ∧ match b with [] => True | c :: _ => f c = false end.
Proof.
  induction s as [|c s (b & E & Ha & Hb)]; cbn; [by exists []|].
  destruct (f c) eqn:Hc; [|by exists (c :: s)]. exists b. by rewrite E at 1; repeat constructor.
Qed.
Definition ends_netloc (p : str) : Prop := match p with [] => True | c :: _ => is_delim c = true end.
Lemma split_netloc_Some url n p : split_netloc url = (n, p) → n ≠ [] → url = 47 :: 47 :: n ++ p ∧ Forall (λ c, is_delim c = false) n ∧ ends_netloc p.
Proof.
  unfold split_netloc. destruct (startswith [47; 47] url) eqn:Hs; [|congruence]. apply startswith_app in Hs as (t & ->). cbn [app drop]. rewrite drop_0.
  destruct (take_while_split (λ c, negb (is_delim c)) t) as (b & E & Ha & Hb). revert E Ha. generalize (take_while (λ c, negb (is_delim c)) t) as n'.
  intros n' -> Ha [= <- <-] _. rewrite drop_app_length. split; [done|]. split; [|destruct b; [done|by apply negb_false_iff in Hb]].
  eapply Forall_impl; [exact Ha|]. intros c Hc. by apply negb_true_iff in Hc.
Qed.
Lemma split_netloc_app n p : Forall (λ c, is_delim c = false) n → ends_netloc p → split_netloc (47 :: 47 :: n ++ p) = (n, p).
Proof.
  intros Hn Hp. unfold split_netloc. cbn [startswith Z.eqb Pos.eqb andb drop]. rewrite drop_0, take_while_stop, drop_app_length; [done| |].
  - eapply Forall_impl; [exact Hn|]. intros c Hc. by rewrite Hc.
  - destruct p; [done|]. cbn in *. by rewrite Hp.
Qed.

Definition url_clean (raw : str) : str := filter (λ c, c ≠ 9 ∧ c ≠ 10 ∧ c ≠ 13) (lstrip (λ c, (0 <=? c) && (c <=? 32)) raw).
Lemma slashes_clean t : Forall (λ c, (c =? 47) = true) t → url_clean t = t ∧ filter (λ c, c ≠ 9 ∧ c ≠ 10 ∧ c ≠ 13) t = t.
Proof.
  intros Ht. assert (filter (λ c, c ≠ 9 ∧ c ≠ 10 ∧ c ≠ 13) t = t) as Hf.
  { induction Ht as [|c t Hc _ IH]; [done|]. apply Z.eqb_eq in Hc as ->. by rewrite filter_cons_True, IH by lia. }
  split; [|done]. unfold url_clean. destruct Ht as [|c t Hc Ht]; [done|]. apply Z.eqb_eq in Hc as ->. done.
Qed.

(** The text before the slashes at the end of a URL, extended by a path, has the same
    scheme and network location. *)
Lemma urlsplit_extend netloc_ok base t rest p : urlsplit netloc_ok (base ++ t) = Ok p → Forall (λ c, (c =? 47) = true) t →
  url_scheme p ≠ [] → url_netloc p ≠ [] →
  ∃ p', urlsplit netloc_ok (base ++ 47 :: rest) = Ok p' ∧ url_scheme p' = url_scheme p ∧ url_netloc p' = url_netloc p.
Proof.
  unfold urlsplit. fold (url_clean (base ++ t)) (url_clean (base ++ 47 :: rest)). intros E Ht Hs Hn.
  destruct (slashes_clean t Ht) as [Hct Hft]. assert (58 ∉ t) as Hcolon. { intros Hin. eapply Forall_forall in Ht; [|exact Hin]. done. }
  destruct (forallb (λ c, (0 <=? c) && (c <=? 32)) base) eqn:Hb.
  { unfold url_clean in E at 1. rewrite lstrip_app, Hb in E. fold (url_clean t) in E. rewrite Hct in E.
    destruct (split_scheme t) as [s v] eqn:Es. destruct (split_netloc v) as [n q]. repeat (apply bind_Ok in E as ([] & _ & E)).
    destruct (partition_at 35 q) as [[? ?] ?], (partition_at 63 _) as [[? ?] ?]. injection E as <-. cbn in Hs.
    destruct (split_scheme_Some _ _ _ Es Hs) as (head & -> & _). exfalso. apply Hcolon. set_solver. }
  assert (∀ x, url_clean (base ++ x) = url_clean base ++ filter (λ c, c ≠ 9 ∧ c ≠ 10 ∧ c ≠ 13) x) as Hx.
  { intros x. unfold url_clean. by rewrite lstrip_app, Hb, filter_app. }
  rewrite !Hx in *. rewrite Hft in E. rewrite filter_cons_True by lia. set (rest' := filter _ rest).
  destruct (split_scheme (url_clean base ++ t)) as [s v] eqn:Es. destruct (split_netloc v) as [n q] eqn:En.
  assert (s = url_scheme p ∧ n = url_netloc p) as [-> ->].
  { repeat (apply bind_Ok in E as ([] & _ & E)). destruct (partition_at 35 q) as [[? ?] ?], (partition_at 63 _) as [[? ?] ?]. by injection E as <-. }
  destruct (split_scheme_Some _ _ _ Es Hs) as (head & Eu & Hv).
  destruct (split_netloc_Some _ _ _ En Hn) as (-> & Hdelim & Hends).
  assert (∃ v0, url_clean base = head ++ 58 :: v0 ∧ 47 :: 47 :: url_netloc p ++ q = v0 ++ t) as (v0 & Eb & Ev).
  { apply app_eq_inv in Eu as [(k & Ek & E2)|(k & -> & ->)].
    - destruct k as [|c k]; [rewrite app_nil_r in Ek; exfalso; apply Hcolon; cbn in E2; rewrite <-E2; left|].
      injection E2 as <- E2. by exists k.
    - exfalso. apply Hcolon. set_solver. }
  assert (∃ q0, v0 = 47 :: 47 :: url_netloc p ++ q0 ∧ ends_netloc (q0 ++ 47 :: rest')) as (q0 & -> & Hends').
  { change (47 :: 47 :: url_netloc p ++ q) with ((47 :: 47 :: url_netloc p) ++ q) in Ev.
    apply app_eq_inv in Ev as [(k & Ek & ->)|(k & -> & ->)].
    - exists []. split; [|done]. rewrite app_nil_r. destruct (decide (k = [])) as [->|Hk]; [by rewrite app_nil_r in Ek|exfalso].
      destruct (exists_last Hk) as (k' & c & ->). apply Forall_app in Ht as [Ht _]. apply Forall_app in Ht as [_ Ht]. inv Ht as [|?? Hc].
      apply Z.eqb_eq in Hc as ->. destruct (exists_last Hn) as (n' & c & Ec). rewrite Ec in Ek, Hdelim.
      change (47 :: 47 :: n' ++ [c]) with ((47 :: 47 :: n') ++ [c]) in Ek. rewrite app_assoc in Ek. apply app_inj_tail in Ek as [_ ->].
      apply Forall_app in Hdelim as [_ Hd]. by inv Hd.
    - exists k. split; [done|]. by destruct k. }
  rewrite Eb. replace ((head ++ 58 :: 47 :: 47 :: url_netloc p ++ q0) ++ 47 :: rest') with (head ++ 58 :: 47 :: 47 :: url_netloc p ++ q0 ++ 47 :: rest')
    by (rewrite <-!app_assoc; cbn; by rewrite <-!app_assoc).
  rewrite Hv, split_netloc_app by done.
  apply bind_Ok in E as ([] & Hg1 & E). apply bind_Ok in E as ([] & Hg2 & _). rewrite Hg1, Hg2. cbn [mbind result_bind].
  destruct (partition_at 35 _) as [[a ?] ?], (partition_at 63 a) as [[? ?] ?]. eexists. by split_and!.
Qed.

(** ** Calls of a generator, whatever it is resumed with *)
Inductive yields_only {E A} (P : ∀ R, E R → Prop) : steps E A → Prop :=
| only_return r : yields_only P (Return r)
| only_yield R (call : E R) resume : P R call → (∀ o, yields_only P (resume o)) → yields_only P (Yield call resume).

Section yields.
Context {E : Type → Type} (P : ∀ R, E R → Prop).
Lemma only_bind {A B} (k : A → steps E B) s : yields_only P s → (∀ a, yields_only P (k a)) → yields_only P (s ≫= k).
Proof. intros Hs Hk. induction Hs as [[a|f]|R call resume Hc _ IH]; [apply Hk|constructor|by constructor]. Qed.
Lemma only_catching {A} h (s : steps E A) : yields_only P s → (∀ f, yields_only P (h f)) → yields_only P (catching h s).
Proof. intros Hs Hh. induction Hs as [[a|f]|R call resume Hc _ IH]; cbn; [constructor|apply Hh|by constructor]. Qed.
Lemma only_yielded {R} (call : E R) : P R call → yields_only P (yield call).
Proof. intros Hc. constructor; [done|]. constructor. Qed.
Lemma only_returns {A} (r : res A) : yields_only (E := E) P (returns r).
Proof. constructor. Qed.
(** After pure code, which may have failed. *)
Lemma only_after {A B} (r : res A) (k : A → steps E B) : (∀ a, r = Ok a → yields_only P (k a)) → yields_only P (returns r ≫= k).
Proof. intros Hk. destruct r as [a|e]; [by apply Hk|constructor]. Qed.
End yields.

(** What a computation adds to the trace. *)
Definition sends_only {B} (Q : registry_request → Prop) (m : registry_world → registry_world * B) : Prop :=
  ∀ w w' o, m w = (w', o) → ∃ new, rw_sent w' = new ++ rw_sent w ∧ Forall Q new.
Lemma run_sends {E A} (P : ∀ R, E R → Prop) Q (perform : ∀ R, E R → RM R) (s : steps E A) :
  yields_only P s → (∀ R c, P R c → sends_only Q (perform R c)) → sends_only Q (run_registry perform s).
Proof.
  intros Hs Hp. induction Hs as [r|R call resume Hc _ IH]; intros w w' o; cbn; [intros [= <- <-]; by exists []|].
  destruct (perform R call w) as [w1 o1] eqn:E1. intros E2.
  destruct (Hp _ _ Hc _ _ _ E1) as (new1 & En1 & H1).
  destruct (IH o1 _ _ _ E2) as (new2 & En2 & H2). exists (new2 ++ new1). rewrite En2, En1, <-app_assoc. split; [done|]. by apply Forall_app.
Qed.

(** ** Requests *)

(** The routes of the registry; a domain is one quoted segment. *)
Definition agent_tails : list string :=
  [""; "/status"; "/challenge"; "/verify"; "/revoke"; "/retire"; "/cancel"; "/proof"; "/proof/reissue"; "/record"; "/signature";
   "/tlog/issuance/prepare"; "/tlog/key-rotation/prepare"; "/tlog/events"]%string.
Inductive registry_route : str → Prop :=
| route_creation : registry_route (lit "/api/v1/agent")
| route_onboarding : registry_route (lit "/api/v1/org/onboarding")
| route_agent domain quoted tail : StreamBundle.quote domain = Ok quoted → tail ∈ agent_tails →
    registry_route (lit "/api/v1/agent/" ++ quoted ++ lit tail).

(** A key that is sent has no private member among its own. *)
Definition public_body (data : object) : Prop :=
  ∀ key, member (lit "public_key") data = Some (JDict key) → Forall (λ kv, kv.1 ∉ PRIVATE_JWK_MEMBERS) key.
Definition public_request (b : request_body) : Prop := match b with JsonBody data => public_body data | _ => True end.

(** The credential is the value of the Authorization header, and nothing but a legacy read is sent
    to a hosted registry without it. *)
Record authorized (c : registry_client) (r : registry_request) : Prop := {
  au_route : ∃ path, rq_url r = cl_base_url c ++ path ∧ registry_route path;
  au_header : dict_get (lit "Authorization") (rq_headers r) = (λ key, lit "Bearer " ++ key) <$> cl_api_key c;
  au_anonymous : cl_api_key c = None → cl_is_loopback c = true ∨ rq_method r = "GET"%string ∧ rq_body r = NoBody;
  au_public : public_request (rq_body r)
}.

Section requests.
Context `{Platform, PyLib, Zlib, HttpPlatform, IpLib} (c : registry_client).

Lemma agent_path_route domain tail path : agent_path domain tail = Ok path → tail ∈ agent_tails → registry_route path.
Proof. unfold agent_path. intros E Ht. bind_step E as q Hq. injection E as <-. by eapply route_agent. Qed.

Lemma require_auth_Ok u : require_auth c = Ok u → cl_api_key c = None → cl_is_loopback c = true.
Proof. unfold require_auth. intros E Hk. apply raise_if_Ok in E. rewrite bool_decide_true in E by done. by destruct (cl_is_loopback c). Qed.

(** A request of a generator: the credential first, other headers after it. *)
Inductive call_ok : registry_request → Prop :=
| call_authorized method path others body : registry_route path → lit "Authorization" ∉ others.*1 →
    (cl_api_key c = None → cl_is_loopback c = true ∨ method = "GET"%string ∧ body = NoBody) → public_request body →
    call_ok (http_call c method path (auth_headers c ++ others) body).

Lemma set_headers_other k extra h : k ∉ extra.*1 → dict_get k (set_headers extra h) = dict_get k h.
Proof.
  unfold set_headers. revert h. induction extra as [|[k' v] extra IH]; intros h Hk; cbn in *; [done|].
  rewrite IH by set_solver. apply dict_get_set_ne. set_solver.
Qed.
Lemma call_sent r : call_ok r → authorized c (with_default_headers r).
Proof.
  intros [method path others body Hr Ho Ha Hb]. constructor; [by exists path| |done|done]. unfold with_default_headers, http_call. cbn [rq_headers]. unfold auth_headers.
  destruct (cl_api_key c) as [key|]; cbn [app fmap option_fmap option_map]; [|by rewrite set_headers_other].
  transitivity (dict_get (lit "Authorization") (set_headers others (ACCEPT_ENCODING ++ [(lit "Authorization", lit "Bearer " ++ key)]))); [done|].
  by rewrite set_headers_other.
Qed.

(** *** Generators that make requests *)
Definition http_ok (R : Type) (call : HttpCall R) : Prop := match call with HttpRequestCall r => call_ok r end.

Lemma only_send method path others body : registry_route path → lit "Authorization" ∉ others.*1 →
  (cl_api_key c = None → cl_is_loopback c = true ∨ method = "GET"%string ∧ body = NoBody) → public_request body →
  yields_only http_ok (send c (http_call c method path (auth_headers c ++ others) body)).
Proof. intros. apply only_catching; [by apply only_yielded; constructor|]. constructor. Qed.
Lemma only_send_auth method path body : registry_route path →
  (cl_api_key c = None → cl_is_loopback c = true ∨ method = "GET"%string ∧ body = NoBody) → public_request body →
  yields_only http_ok (send c (http_call c method path (auth_headers c) body)).
Proof. intros. rewrite <-(app_nil_r (auth_headers c)). apply only_send; [done|by apply not_elem_of_nil|done|done]. Qed.
End requests.

(** What is left of a generator after its requests. *)
Ltac only_rest :=
  repeat first
    [ apply only_returns | apply only_return | apply only_after; intros ? ? | apply only_bind; [|intros ?]
    | case_match ].

Section generators.
Context `{Platform, PyLib, Zlib, HttpPlatform, IpLib} (c : registry_client).

Lemma tail_listed tail : bool_decide (tail ∈ agent_tails) = true → tail ∈ agent_tails.
Proof. apply bool_decide_eq_true_1. Qed.
#[local] Hint Extern 1 (_ ∈ agent_tails) => (apply tail_listed; vm_compute; reflexivity) : core.
#[local] Hint Resolve agent_path_route : core.
#[local] Hint Constructors registry_route : core.
Lemma no_credential_in key : lit "Authorization" ∉ (idempotency_header key).*1 ∧ lit "Authorization" ∉ (json_content ++ idempotency_header key).*1.
Proof. split; intros Hin; repeat (apply elem_of_cons in Hin as [Hin|Hin]; [by vm_compute in Hin|]); by apply elem_of_nil in Hin. Qed.
Lemma public_absent data : member (lit "public_key") data = None → public_body data.
Proof. intros Hn key. congruence. Qed.
Lemma public_listed key : existsb (λ kv : str * json, is_private_member kv.1) key = false → Forall (λ kv, kv.1 ∉ PRIVATE_JWK_MEMBERS) key.
Proof.
  intros Hk. apply Forall_forall. intros kv Hin Hp. apply not_true_iff_false in Hk. apply Hk, existsb_exists. exists kv.
  split; [by apply list_elem_of_In|]. unfold is_private_member. by apply bool_decide_eq_true_2.
Qed.

(** Operations that need a credential. *)
Lemma only_with_auth {A} P (k : unit → steps HttpCall A) : ((cl_api_key c = None → cl_is_loopback c = true) → yields_only P (k tt)) → yields_only P (returns (require_auth c) ≫= k).
Proof. intros Hk. apply only_after. intros [] Ha. apply Hk. intros Hn. by eapply require_auth_Ok. Qed.

Lemma only_status_document domain : yields_only (http_ok c) (get_status_document_steps c domain).
Proof.
  unfold get_status_document_steps. apply only_after. intros path Hp. apply only_bind; [|intros; only_rest].
  apply only_send_auth; [by eauto|by eauto|done].
Qed.
Lemma only_status domain : yields_only (http_ok c) (get_status_steps c domain).
Proof. apply only_bind; [apply only_status_document|intros; only_rest]. Qed.
Lemma only_agent_status domain : yields_only (http_ok c) (get_agent_status_steps c domain).
Proof. apply only_bind; [apply only_status_document|intros; only_rest]. Qed.
Lemma only_registration domain : yields_only (http_ok c) (get_registration_steps c domain).
Proof.
  apply only_with_auth. intros Ha. apply only_after. intros path Hp. apply only_bind; [|intros; only_rest]. apply only_send_auth; [by eauto|by eauto|done].
Qed.
Lemma only_onboarding org gi : yields_only (http_ok c) (get_organization_onboarding_steps c org gi).
Proof. apply only_with_auth. intros Ha. apply only_bind; [|intros; only_rest]. apply only_send_auth; [by eauto|by eauto|done]. Qed.
Lemma only_challenge domain nonce signature : yields_only (http_ok c) (submit_challenge_signature_steps c domain nonce signature).
Proof.
  apply only_with_auth. intros Ha. apply only_after. intros path Hp. apply only_bind; [|intros; only_rest].
  apply only_send_auth; [by eauto|by eauto|by apply public_absent].
Qed.
Lemma only_unregister domain : yields_only (http_ok c) (unregister_agent_steps c domain).
Proof. apply only_with_auth. intros Ha. apply only_after. intros path Hp. apply only_bind; [|intros; only_rest]. apply only_send_auth; [by eauto|by eauto|done]. Qed.
Lemma only_prepare_issuance domain key : yields_only (http_ok c) (prepare_issuance_steps c domain key).
Proof.
  apply only_with_auth. intros Ha. apply only_after. intros _ _. apply only_after. intros path Hp. apply only_bind; [|intros; only_rest].
  apply only_send; [by eauto|by apply no_credential_in|by eauto|done].
Qed.
Lemma only_prepare_rotation domain request key : yields_only (http_ok c) (prepare_key_rotation_steps c domain request key).
Proof.
  apply only_with_auth. intros Ha. apply only_after. intros _ _. apply only_after. intros [] Hpriv. apply only_after. intros _ _. apply only_after. intros path Hp.
  apply only_bind; [|intros; only_rest]. apply only_send; [by eauto|by apply no_credential_in|by eauto|].
  intros k Hk. vm_compute in Hk. injection Hk as <-. apply public_listed. by apply raise_if_Ok in Hpriv.
Qed.
Lemma only_submission domain entry key : yields_only (http_ok c) (submit_prepared_event_steps c domain entry key).
Proof.
  apply only_with_auth. intros Ha. apply only_after. intros _ _. apply only_after. intros _ _. apply only_after. intros path Hp.
  apply only_bind; [|intros; only_rest]. apply only_catching; [|intros; only_rest]. apply only_bind; [|intros; only_rest]. apply only_yielded.
  constructor; [by eauto|by apply no_credential_in|by eauto|done].
Qed.
Lemma only_post path body extra expected : registry_route path → extra = [] ∨ (∃ key, extra = idempotency_header key) →
  (cl_api_key c = None → cl_is_loopback c = true) → match body with Some d => public_body d | None => True end →
  yields_only (http_ok c) (post_steps c path body extra expected).
Proof.
  intros Hr He Ha Hb. apply only_bind; [|intros; only_rest].
  assert (set_headers extra (auth_headers c) = auth_headers c ++ extra) as ->.
  { unfold auth_headers. destruct He as [->|(key & ->)], (cl_api_key c); done. }
  apply only_send; [done| |by eauto|by destruct body]. destruct He as [->|(key & ->)]; [by apply not_elem_of_nil|by apply no_credential_in].
Qed.

(** *** Generators that call other operations *)
Definition registry_ok (R : Type) (call : RegistryCall R) : Prop :=
  match call with
  | DirectCall call => http_ok c _ call
  | PostCall path body extra _ =>
      registry_route path ∧ (extra = [] ∨ ∃ key, extra = idempotency_header key) ∧ (cl_api_key c = None → cl_is_loopback c = true)
      ∧ match body with Some d => public_body d | None => True end
  | GetRegistrationCall _ | GetAgentDetailCall _ => True
  end.

Lemma only_auth_call {A} P (k : unit → steps RegistryCall A) : ((cl_api_key c = None → cl_is_loopback c = true) → yields_only P (k tt)) → yields_only P (returns (require_auth c) ≫= k).
Proof. intros Hk. apply only_after. intros [] Ha. apply Hk. intros Hn. by eapply require_auth_Ok. Qed.
Lemma only_posted path body extra expected : registry_route path → extra = [] ∨ (∃ key, extra = idempotency_header key) →
  (cl_api_key c = None → cl_is_loopback c = true) → match body with Some d => public_body d | None => True end →
  yields_only registry_ok (post path body extra expected).
Proof. intros. by apply only_yielded. Qed.

Lemma public_jwk_Ok key d : public_jwk_dict key = Ok d → Forall (λ kv, kv.1 ∉ PRIVATE_JWK_MEMBERS) d.
Proof.
  unfold public_jwk_dict. intros E. guard_step E as Hp. injection E as <-. apply Forall_forall. intros kv Hin Hk.
  unfold jwk_to_dict in Hin. apply list_elem_of_In, filter_In in Hin as [_ Hin]. unfold is_private_member in Hin. by rewrite bool_decide_true in Hin.
Qed.
Lemma live_jwk_Ok key d : live_public_jwk_dict key = Ok d → Forall (λ kv, kv.1 ∉ PRIVATE_JWK_MEMBERS) d.
Proof. unfold live_public_jwk_dict. intros E. bind_step E as raw Hraw. bind_step E as u Hu. injection E as <-. by eapply public_jwk_Ok. Qed.

Definition flat (d : object) : Prop := Forall (λ kv, match kv.2 with JDict _ => False | _ => True end) d.
Lemma flat_text name value : flat (text_entry name value).
Proof. unfold text_entry. case_match; repeat constructor. Qed.
Lemma flat_domain name value b d : domain_entry name value b = Ok d → flat d.
Proof. unfold domain_entry. intros E. case_match; [by injection E as <-; constructor|]. bind_step E as n Hn. injection E as <-. by repeat constructor. Qed.
Lemma public_flat d : flat d → public_body d.
Proof. intros Hd key Hk. apply member_in in Hk. by eapply Forall_forall in Hk; [|exact Hd]. Qed.
Lemma public_registration input body : registration_body input = Ok body → public_body body.
Proof.
  unfold registration_body. intros E. bind_step E as d1 Hd1. bind_step E as d2 Hd2. bind_step E as d3 Hd3. bind_step E as pk Hpk. bind_step E as u Hu. guard_step E as Hn.
  injection E as <-. intros key Hk. apply member_in in Hk. apply flat_domain in Hd1, Hd2, Hd3.
  assert (∀ d, flat d → (lit "public_key", JDict key) ∈ d → False) as Hflat. { intros d Hd Hin. by eapply Forall_forall in Hin; [|exact Hd]. }
  rewrite !elem_of_app in Hk. destruct (ri_public_key_jwk input) as [jwk|]; [bind_step Hpk as d Hd|]; injection Hpk as <-.
  - apply public_jwk_Ok in Hd. destruct Hk as [Hk|[Hk|[Hk|[Hk|Hk]]]]; [exfalso; by eauto..| |].
    + apply list_elem_of_singleton in Hk. by injection Hk as ->.
    + exfalso. revert Hk. rewrite <-!elem_of_app. apply Hflat. repeat apply Forall_app_2; try apply flat_text; repeat case_match; repeat constructor.
  - exfalso. revert Hk. rewrite <-!elem_of_app. apply Hflat. repeat apply Forall_app_2; try apply flat_text; try done; repeat case_match; repeat constructor.
Qed.

Lemma only_register input key : yields_only registry_ok (register_agent_steps c input key).
Proof.
  apply only_auth_call. intros Ha. apply only_after. intros k _. apply only_after. intros body Hb. apply only_bind.
  - apply only_catching; [|intros; only_rest]. apply only_posted; [by eauto| |done|by eapply public_registration].
    case_match; [by left|right; by eexists].
  - intros data. apply only_catching; [|intros; only_rest]. apply only_after. intros [[[id domain] config] issuer] _.
    apply only_bind; [by apply only_yielded|intros; only_rest].
Qed.
Lemma only_register_live input key : yields_only registry_ok (register_live_agent_steps c input key).
Proof.
  apply only_auth_call. intros Ha. do 2 (apply only_after; intros _ _). apply only_after. intros pk Hpk. apply only_bind; [|intros; only_rest].
  apply only_posted; [by eauto|right; by eexists|done|]. intros k Hk. cbn in Hk. injection Hk as <-. by eapply live_jwk_Ok.
Qed.
Lemma only_live_proof domain request : yields_only registry_ok (submit_live_proof_steps c domain request).
Proof.
  apply only_auth_call. intros Ha. apply only_after; intros _ _. apply only_after. intros path Hp. apply only_after. intros pk Hpk. apply only_bind; [|intros; only_rest].
  apply only_posted; [by eauto|right; by eexists|done|]. intros k Hk. cbn in Hk. injection Hk as <-. by eapply live_jwk_Ok.
Qed.
Lemma only_reissue domain request : yields_only registry_ok (reissue_live_proof_steps c domain request).
Proof.
  apply only_auth_call. intros Ha. apply only_after; intros _ _. do 2 (apply only_after; intros ? _). apply only_after. intros path Hp. apply only_bind; [|intros; only_rest].
  apply only_posted; [by eauto|right; by eexists|done|by apply public_absent].
Qed.
Lemma only_verify domain : yields_only registry_ok (verify_agent_steps c domain).
Proof.
  apply only_auth_call. intros Ha. apply only_after. intros path Hp. apply only_bind; [by apply only_posted; eauto|].
  intros data. apply only_bind; [by apply only_yielded|intros; only_rest].
Qed.
Lemma only_transition domain tail body : tail ∈ agent_tails → match body with Some d => public_body d | None => True end →
  yields_only registry_ok (transition_steps c domain tail body).
Proof. intros Ht Hb. apply only_auth_call. intros Ha. apply only_after. intros path Hp. apply only_bind; [by apply only_posted; eauto|intros; only_rest]. Qed.
Lemma only_record domain kid : yields_only registry_ok (canonical_record_content_steps c domain kid).
Proof.
  apply only_auth_call. intros Ha. apply only_after. intros path Hp. apply only_bind; [|intros; only_rest].
  apply only_posted; [by eauto|by left|done|by apply public_absent].
Qed.
Lemma only_signature domain sig : yields_only registry_ok (publish_signature_steps c domain sig).
Proof.
  apply only_auth_call. intros Ha. apply only_after. intros path Hp. apply only_bind; [|intros; only_rest].
  apply only_posted; [by eauto|by left|done|by apply public_absent].
Qed.
End generators.

(** ** Operations *)
Section operations.
Context `{Platform, PyLib, Zlib, HttpPlatform, IpLib}.
Context (exchange : nat → CheckedResolveBackend → registry_request → res http_response) (check : list nat → res unit) (c : registry_client).

Inductive registry_operation : ∀ {B}, (registry_world → registry_world * B) → Prop :=
| op_register input key : registry_operation (register_agent exchange check c input key)
| op_register_live input key : registry_operation (register_live_agent exchange check c input key)
| op_live_proof domain request : registry_operation (submit_live_proof exchange check c domain request)
| op_reissue domain request : registry_operation (reissue_live_proof exchange check c domain request)
| op_verify domain : registry_operation (verify_agent exchange check c domain)
| op_revoke domain id reason : registry_operation (revoke_agent exchange check c domain id reason)
| op_retire domain id : registry_operation (retire_agent exchange check c domain id)
| op_cancel domain : registry_operation (cancel_agent exchange check c domain)
| op_record domain kid : registry_operation (canonical_record_content exchange check c domain kid)
| op_signature domain sig : registry_operation (publish_signature exchange check c domain sig)
| op_status domain : registry_operation (get_status exchange check c domain)
| op_agent_status domain : registry_operation (get_agent_status exchange check c domain)
| op_registration domain : registry_operation (get_registration exchange check c domain)
| op_onboarding org gi : registry_operation (get_organization_onboarding exchange check c org gi)
| op_challenge domain nonce signature : registry_operation (submit_challenge_signature exchange check c domain nonce signature)
| op_unregister domain : registry_operation (unregister_agent exchange check c domain)
| op_prepare_issuance domain key : registry_operation (prepare_issuance exchange check c domain key)
| op_prepare_rotation domain request key : registry_operation (prepare_key_rotation exchange check c domain request key)
| op_submit domain entry key : registry_operation (submit_prepared_event exchange check c domain entry key)
| op_wait polls start clock timeout interval domain target : registry_operation (wait_for_status exchange check c polls start clock timeout interval domain target).

Lemma http_sends R (call : HttpCall R) : http_ok c R call → sends_only (authorized c) (perform_http exchange check c R call).
Proof.
  destruct call as [r]. intros Hr w w' o. cbn. unfold http_request. destruct (check _) as [[]|e]; [|intros [= <- <-]; by exists []].
  destruct (connection c w) as [backend|e]; [|intros [= <- <-]; by exists []].
  intros [= <- <-]. exists [with_default_headers r]. split; [done|]. constructor; [by apply call_sent|done].
Qed.
Lemma http_run_sends {A} (s : steps HttpCall A) : yields_only (http_ok c) s → sends_only (authorized c) (run_registry (perform_http exchange check c) s).
Proof. intros Hs. eapply run_sends; [exact Hs|apply http_sends]. Qed.
Lemma run_calls_send {A} (s : steps RegistryCall A) : yields_only (registry_ok c) s → sends_only (authorized c) (run_registry (perform exchange check c) s).
Proof.
  intros Hs. eapply run_sends; [exact Hs|]. intros R call Hc. destruct call as [? call|path body extra expected|domain|domain]; cbn [perform].
  - by apply http_sends.
  - destruct Hc as (? & ? & ? & ?). by apply http_run_sends, only_post.
  - apply http_run_sends, only_registration.
  - apply http_run_sends, only_registration.
Qed.
Lemma wait_sends polls n clock deadline interval domain target : sends_only (authorized c) (wait_loop exchange check c polls n clock deadline interval domain target).
Proof.
  revert n. induction polls as [|polls IH]; intros n w w' o; cbn [wait_loop]; [intros [= <- <-]; by exists []|].
  destruct (get_agent_status exchange check c domain w) as [w1 o1] eqn:E1.
  destruct (http_run_sends _ (only_agent_status c domain) _ _ _ E1) as (new & En & Hnew).
  destruct o1 as [[status|]|f]; [|intros ?; simplify_eq; by exists new..].
  repeat case_match; try (intros ?; simplify_eq; by exists new).
  intros E2. destruct (IH _ _ _ _ E2) as (new2 & En2 & Hnew2). exists (new2 ++ new). rewrite En2, En, <-app_assoc. split; [done|]. by apply Forall_app.
Qed.
Lemma operation_sends {B} (op : registry_world → registry_world * B) : registry_operation op → sends_only (authorized c) op.
Proof.
  intros []; lazymatch goal with |- sends_only _ (wait_for_status _ _ _ _ _ _ _ _ _ _) => apply wait_sends | _ => first [apply http_run_sends|apply run_calls_send] end.
  all: auto using only_register, only_register_live, only_live_proof, only_reissue, only_verify, only_record, only_signature, only_status, only_agent_status,
    only_registration, only_onboarding, only_challenge, only_unregister, only_prepare_issuance, only_prepare_rotation, only_submission.
  all: apply only_transition; [by apply tail_listed|try done; by apply public_absent].
Qed.
End operations.

(** ** Where requests go *)

(** A request to the server of a base URL, over TLS or to the loopback interface. *)
Definition to_server `{Platform} (base_url : str) (r : registry_request) : Prop := ∃ p p',
  urlsplit netloc_ok base_url = Ok p ∧ urlsplit netloc_ok (rq_url r) = Ok p' ∧ url_scheme p' = url_scheme p ∧ url_netloc p' = url_netloc p
  ∧ (url_scheme p' = lit "https" ∨ url_scheme p' = lit "http" ∧ url_loopback p' = true) ∧ has_credentials (url_netloc p') = false.

Section destinations.
Context `{Platform, PyLib, Zlib, HttpPlatform, IpLib}.

Lemma route_slash path : registry_route path → ∃ rest, path = 47 :: rest.
Proof. intros []; by eexists. Qed.
Lemma init_client_Ok base_url api_key transport c : init_registry_client (Some base_url) api_key transport = Ok c → base_url ≠ [] →
  check_base_url base_url = Ok (cl_is_loopback c) ∧ ∃ t, base_url = cl_base_url c ++ t ∧ Forall (λ x, (x =? 47) = true) t.
Proof.
  unfold init_registry_client. intros E Hb. destruct base_url as [|x base_url]; [done|]. bind_step E as loopback Hl. guard_step E as Hc. bind_step E as u Hv.
  injection E as <-. split; [done|]. apply rstrip_prefix.
Qed.
Lemma check_base_url_Ok base_url loopback : check_base_url base_url = Ok loopback → ∃ p, urlsplit netloc_ok base_url = Ok p ∧ url_netloc p ≠ []
  ∧ loopback = url_loopback p ∧ (url_scheme p = lit "https" ∨ url_scheme p = lit "http" ∧ loopback = true) ∧ has_credentials (url_netloc p) = false.
Proof.
  unfold check_base_url. intros E. bind_step E as p Hp. guard_step E as Hs. guard_step E as Hc. guard_step E as Hq. injection E as <-.
  assert (urlsplit netloc_ok base_url = Ok p) as Hsplit.
  { destruct (urlsplit netloc_ok base_url) as [q|e]; cbn [mbind result_bind try_except] in Hp; [|by destruct (is_value_error e)].
    destruct (port (url_netloc q)) as [u|e]; cbn [mbind result_bind try_except] in Hp; [by injection Hp as ->|by destruct (is_value_error e)]. }
  apply orb_false_iff in Hs as [Hh Hs]. exists p. split; [done|]. split_and!; [|done| |done].
  - intros En. rewrite En in Hh. vm_compute in Hh. done.
  - apply andb_false_iff in Hs as [Hs|Hs]; apply negb_false_iff in Hs; [left; by apply (proj1 (eqb_true _ _)) in Hs|right].
    apply andb_true_iff in Hs as [Hs Hl]. by apply (proj1 (eqb_true _ _)) in Hs.
Qed.
Lemma authorized_to_server base_url api_key transport c r : init_registry_client (Some base_url) api_key transport = Ok c → base_url ≠ [] →
  authorized c r → to_server base_url r.
Proof.
  intros Hi Hb [(path & Eu & Hr) _ _ _]. destruct (init_client_Ok _ _ _ _ Hi Hb) as (Hc & t & Et & Ht).
  destruct (check_base_url_Ok _ _ Hc) as (p & Hp & Hn & Hl & Hs & Hcred). destruct (route_slash _ Hr) as (rest & ->).
  rewrite Et in Hp. destruct (urlsplit_extend _ _ _ rest _ Hp Ht) as (p' & Hp' & Es & En); [by destruct Hs as [->|[-> _]]|done|].
  exists p, p'. rewrite Et at 1. rewrite Eu, Es, En. split_and!; try done. destruct Hs as [Hs|[Hs Hloop]]; [by left|right].
  split; [done|]. unfold url_loopback in *. rewrite En. congruence.
Qed.
End destinations.

(** C10 Whatever the registry answers, and whatever an operation is called with: every request of every operation of a
    constructed client goes to the server of the configured base URL, over TLS unless that is a loopback host, to one of the
    registry's routes; its Authorization header carries exactly the client's credential, and is absent without one; without
    one, a hosted registry is only read; and no key it sends has a private member among its own members. *)
Theorem registry_requests_confined `{Platform, PyLib, Zlib, HttpPlatform, IpLib} (exchange : nat → CheckedResolveBackend → registry_request → res http_response)
  (check : list nat → res unit) (base_url : str) (api_key : option str) (transport : option TransportConfig) (c : registry_client)
  {B} (op : registry_world → registry_world * B) (w w' : registry_world) (o : B) :
  init_registry_client (Some base_url) api_key transport = Ok c → base_url ≠ [] → registry_operation exchange check c op → op w = (w', o) →
  ∃ sent, rw_sent w' = sent ++ rw_sent w ∧ Forall (λ r, authorized c r ∧ to_server base_url r) sent.
Proof.
  intros Hi Hb Hop E. destruct (operation_sends _ _ _ _ Hop _ _ _ E) as (sent & -> & Hs). exists sent. split; [done|].
  eapply Forall_impl; [exact Hs|]. intros r Hr. split; [done|]. by eapply authorized_to_server.
Qed.

(** ** Runs *)
Section runs.
Context {E : Type → Type} (perform : ∀ R, E R → RM R).
Lemma run_bind {A B} (s : steps E A) (k : A → steps E B) w :
  run_registry perform (s ≫= k) w = let '(w', o) := run_registry perform s w in match o with Ok a => run_registry perform (k a) w' | Raise f => (w', Raise f) end.
Proof.
  revert w. induction s as [[a|f]|R call resume IH]; intros w; cbn; [done..|]. destruct (perform R call w) as [w1 o1]. apply IH.
Qed.
Lemma run_catching {A} h (s : steps E A) w :
  run_registry perform (catching h s) w = let '(w', o) := run_registry perform s w in match o with Ok a => (w', Ok a) | Raise f => run_registry perform (h f) w' end.
Proof.
  revert w. induction s as [[a|f]|R call resume IH]; intros w; cbn; [done..|]. destruct (perform R call w) as [w1 o1]. apply IH.
Qed.
Lemma run_yield {R} (call : E R) w : run_registry perform (yield call) w = perform R call w.
Proof. cbn. by destruct (perform R call w). Qed.

(** A run that succeeds, and one that fails, part by part. *)
Lemma run_bind_Ok {A B} (s : steps E A) (k : A → steps E B) w w' b : run_registry perform (s ≫= k) w = (w', Ok b) →
  ∃ w1 a, run_registry perform s w = (w1, Ok a) ∧ run_registry perform (k a) w1 = (w', Ok b).
Proof. rewrite run_bind. destruct (run_registry perform s w) as [w1 [a|f]]; [by eauto|done]. Qed.
Lemma run_after_Ok {A B} (r : res A) (k : A → steps E B) w w' b : run_registry perform (returns r ≫= k) w = (w', Ok b) →
  ∃ a, r = Ok a ∧ run_registry perform (k a) w = (w', Ok b).
Proof. rewrite run_bind. destruct r as [a|e]; cbn; [by eauto|done]. Qed.
Lemma run_returns_Ok {A} (r : res A) w w' a : run_registry perform (returns (E := E) r) w = (w', Ok a) → w' = w ∧ r = Ok a.
Proof. destruct r; cbn; intros [= -> ->]; done. Qed.
Lemma run_catching_Ok {A} (h : failure → failure) (s : steps E A) w w' a :
  run_registry perform (catching (λ f, Return (Raise (h f))) s) w = (w', Ok a) → run_registry perform s w = (w', Ok a).
Proof. rewrite run_catching. by destruct (run_registry perform s w) as [w1 [b|f]]. Qed.
End runs.

(** ** Submissions *)
Section submissions.
Context `{Platform, PyLib, Zlib, HttpPlatform, IpLib}.

Lemma submission_result_state d result : submission_result_from_response d = Ok result → sr_state result ∈ VALID_SUBMISSION_STATES.
Proof. unfold submission_result_from_response. intros E. guard_step E as Hs. injection E as <-. apply negb_false_iff in Hs. by apply bool_decide_eq_true_1 in Hs. Qed.
Lemma pending_or_rejected_valid b code : sr_state (submission (pending_or_rejected b) code) ∈ VALID_SUBMISSION_STATES.
Proof. destruct b; by_decide. Qed.

(** What an answer is taken for. *)
Lemma submission_answer_spec resp : let result := submission_answer resp in sr_state result ∈ VALID_SUBMISSION_STATES
  ∧ (sr_state result = lit "pending" ∨ rp_status_code resp < 500)
  ∧ (is_success resp = true → sr_state result = lit "pending" ∨ ∃ d, response_data resp = Ok (JDict d) ∧ submission_result_from_response d = Ok result)
  ∧ (accepted result = true → is_success resp = true).
Proof.
  assert (is_success resp = true → rp_status_code resp < 500) as Hlt by (unfold is_success; lia).
  assert (∀ b code, (b = false → rp_status_code resp < 500 ∧ is_success resp = false) → let result := submission (pending_or_rejected b) code in
    sr_state result ∈ VALID_SUBMISSION_STATES ∧ (sr_state result = lit "pending" ∨ rp_status_code resp < 500)
    ∧ (is_success resp = true → sr_state result = lit "pending" ∨ ∃ d, response_data resp = Ok (JDict d) ∧ submission_result_from_response d = Ok result)
    ∧ (accepted result = true → is_success resp = true)) as Hplain.
  { intros [] code Hb; (split; [apply pending_or_rejected_valid|]); cbn; [by split_and!; auto|]. destruct Hb as [Hb1 Hb2]; [done|]. rewrite Hb2. by split_and!; auto. }
  unfold submission_answer. destruct (response_data resp) as [v|e].
  1: destruct v as [|?|?|?|?|?|data].
  all: try (apply Hplain; unfold indeterminate; intros Hb; apply orb_false_iff in Hb as [-> Hb]; lia).
  destruct (is_success resp) eqn:Hok.
  - destruct (submission_result_from_response data) as [result|e] eqn:Er; [|by apply (Hplain true)].
    cbn. split_and!; [by eapply submission_result_state|right; auto|intros _; right; by exists data|done].
  - case_bool_decide; [by apply (Hplain true)|]. case_bool_decide as Hst.
    + apply (Hplain false). intros _. split; [|done]. rewrite !elem_of_cons, elem_of_nil in Hst. lia.
    + apply Hplain. unfold indeterminate. intros Hb. split; [lia|done].
Qed.
End submissions.

(** C11 A submission that returns has sent the given bytes under the given idempotency key once.  If the exchange failed, the
    result is pending.  Otherwise the result has a state of the protocol; it is accepted only for a successful answer that
    names the hash of exactly these bytes; and it is rejected only by a definite answer: a status below 500, and, when that is
    a success, a body that says so. *)
Theorem submission_faithful `{Platform, PyLib, Zlib, HttpPlatform, IpLib} (exchange : nat → CheckedResolveBackend → registry_request → res http_response)
  (check : list nat → res unit) (c : registry_client) (domain : str) (entry : bytes) (key : str) (w w' : registry_world) (result : SubmissionResult) :
  submit_prepared_event exchange check c domain entry key w = (w', Ok result) →
  ∃ path, agent_path domain "/tlog/events" = Ok path ∧
    let request := http_call c "POST" path (auth_headers c ++ json_content ++ idempotency_header key) (Content entry) in
    (∃ f, http_request exchange check c request w = (w', Raise f) ∧ is_transport_error (fl_exn f) = true ∧ sr_state result = lit "pending")
    ∨ ∃ resp, http_request exchange check c request w = (w', Ok resp) ∧ sr_state result ∈ VALID_SUBMISSION_STATES
      ∧ (accepted result = true → is_success resp = true ∧ sr_entry_hash result = sha256_hexdigest entry)
      ∧ (sr_state result = lit "rejected" → rp_status_code resp < 500
         ∧ (is_success resp = true → ∃ d, response_data resp = Ok (JDict d) ∧ submission_result_from_response d = Ok result)).
Proof.
  unfold submit_prepared_event, submit_prepared_event_steps. intros E.
  apply run_after_Ok in E as (u1 & _ & E). apply run_after_Ok in E as (u2 & _ & E). apply run_after_Ok in E as (u3 & _ & E).
  apply run_after_Ok in E as (path & Hp & E). exists path. split; [done|]. cbv zeta.
  apply run_bind_Ok in E as (w1 & answer & E1 & E2). rewrite run_catching, run_bind, run_yield in E1. cbn [perform_http] in E1.
  destruct (http_request _ _ _ _ w) as [w2 [resp|f]] eqn:Ehttp; cbn in E1.
  - injection E1 as <- <-. apply run_after_Ok in E2 as (u & Hg & E2). cbn in E2. injection E2 as <- <-. right. exists resp. split; [done|].
    destruct (submission_answer_spec resp) as (Hv & Hdef & Hsay & Hacc). apply raise_if_Ok in Hg. split; [done|]. split.
    + intros Ha. split; [by apply Hacc|]. rewrite Ha in Hg. apply orb_false_iff in Hg as [_ Hg]. apply negb_false_iff in Hg. by apply (proj1 (eqb_true _ _)) in Hg.
    + intros Hr. rewrite Hr in *. split; [by destruct Hdef|]. intros Hok. by destruct (Hsay Hok).
  - destruct (is_transport_error (fl_exn f)) eqn:Ht; cbn in E1; [|done]. injection E1 as <- <-. cbn in E2. injection E2 as <- <-. left. by exists f.
Qed.

(** ** Registration *)

(** A name that was asked for, normalised. *)
Definition asked `{Platform} (raw : str) (agent_fqdn : bool) (P : str → Prop) : Prop :=
  raw ≠ [] → ∃ name, normalize_fqdn idna_encode raw agent_fqdn = Ok name ∧ (name ≠ [] → P name).

(** A registration that answers a request. *)
Record registered `{Platform} (c : registry_client) (input : AgentRegistrationInput) (reg : AgentRegistration) : Prop := {
  rd_domain : asked (ri_domain input) true (λ name, ag_domain reg = name);
  rd_root : asked (ri_root_domain input) false (λ name, endswith ([46] ++ name) (ag_domain reg) = true);
  rd_config : ∃ config, ag_publication_config reg = Some config ∧ validate_publication_config config (ag_domain reg) = Ok ()
    ∧ asked (ri_governance_domain input) false (λ name, pc_governance_id config = name);
  rd_authority : ag_publication_authority reg ∈ (lit <$> ["client"; "registry"]%string);
  rd_registry : ag_registry_url reg = cl_base_url c;
  rd_id : ag_id reg ≠ []
}.

Section registration.
Context `{Platform, PyLib, Zlib, HttpPlatform, IpLib}.

Lemma domain_entry_Ok name raw b d : domain_entry name raw b = Ok d →
  raw = [] ∧ d = [] ∨ ∃ n, normalize_fqdn idna_encode raw b = Ok n ∧ d = [(lit name, JStr n)].
Proof.
  unfold domain_entry. destruct (raw ==? []) eqn:Er; [apply (proj1 (eqb_true _ _)) in Er; intros [= <-]; by left|].
  intros E. bind_step E as n Hn. injection E as <-. right. exists n. split; [|done]. unfold invalid_name_error in Hn.
  destruct (normalize_fqdn idna_encode raw b) as [m|[]]; cbn in Hn; congruence.
Qed.
(** The names of a body are those that were asked for. *)
Lemma registration_names input body : registration_body input = Ok body →
  asked (ri_domain input) true (λ name, body_text body "domain" = Some name)
  ∧ asked (ri_root_domain input) false (λ name, body_text body "root_domain" = Some name)
  ∧ asked (ri_governance_domain input) false (λ name, body_text body "governance_domain" = Some name).
Proof.
  unfold registration_body. intros E. bind_step E as d1 Hd1. bind_step E as d2 Hd2. bind_step E as d3 Hd3. bind_step E as pk Hpk. bind_step E as u Hu. guard_step E as Hn.
  apply (f_equal (λ r, match r with Ok b => b | Raise _ => [] end)) in E. cbn beta iota in E. clear Hpk Hu Hn. revert E.
  generalize (pk ++ text_entry "environment" (ri_environment input) ++ text_entry "tier" (ri_tier input) ++ text_entry "zone_id" (ri_zone_id input)
    ++ (if ri_managed input then [(lit "managed", JBool true)] else []) ++ text_entry "capabilities_url" (ri_capabilities_url input)
    ++ (if ri_name input ==? [] then [] else [(lit "name", JStr (strip is_space (ri_name input)))])). intros rest <-.
  apply domain_entry_Ok in Hd1 as [[Ed ->]|(n1 & Hn1 & ->)], Hd2 as [[Eg ->]|(n2 & Hn2 & ->)], Hd3 as [[Er ->]|(n3 & Hn3 & ->)].
  all: split_and!; intros Hne; try congruence; eexists; (split; [eassumption|]); intros Hnn.
  all: match goal with |- body_text _ _ = Some ?n => destruct n; [done|vm_compute; reflexivity] end.
Qed.

Lemma created_agent_Ok body data id domain config issuer : created_agent body data = Ok (id, domain, config, issuer) → id ≠ []
  ∧ (∀ d, body_text body "domain" = Some d → domain = d) ∧ (∀ r, body_text body "root_domain" = Some r → endswith ([46] ++ r) domain = true)
  ∧ validate_publication_config config domain = Ok () ∧ (∀ g, body_text body "governance_domain" = Some g → pc_governance_id config = g).
Proof.
  unfold created_agent. intros E. bind_step E as id' Hid. bind_step E as named Hnamed. bind_step E as domain' Hd. guard_step E as Hsame. guard_step E as Hroot.
  bind_step E as cfg Hcfg. destruct cfg as [cfg|]; [|done]. bind_step E as [] Hval. guard_step E as Hgov. destruct (get "oidc_issuer_url" _ data); try done.
  bind_step E as [] Hiss. injection E as -> -> -> ->. split_and!; [|..|done|].
  - unfold require_nonempty in Hid. bind_step Hid as v Hv. guard_step Hid as Hne. injection Hid as <-. intros ->. done.
  - intros d Ed. rewrite Ed in Hsame. apply negb_false_iff in Hsame. by apply (proj1 (eqb_true _ _)) in Hsame.
  - intros r Er. rewrite Er in Hroot. by apply negb_false_iff in Hroot.
  - intros g Eg. rewrite Eg in Hgov. apply negb_false_iff in Hgov. by apply (proj1 (eqb_true _ _)) in Hgov.
Qed.

Context (exchange : nat → CheckedResolveBackend → registry_request → res http_response) (check : list nat → res unit) (c : registry_client).
Lemma get_registration_Ok domain w w' r : get_registration exchange check c domain w = (w', Ok (Some r)) → ag_registry_url r = cl_base_url c.
Proof.
  unfold get_registration, get_registration_steps. intros E. apply run_after_Ok in E as (u & _ & E). apply run_after_Ok in E as (path & _ & E).
  apply run_bind_Ok in E as (w1 & resp & _ & E). do 2 (case_match; [done|]). apply run_after_Ok in E as (data & _ & E). apply run_after_Ok in E as (reg & Hr & E).
  cbn in E. injection E as _ <-. unfold registration_from_response in Hr. do 2 (case_match; try done). bind_step Hr as d Hd. bind_step Hr as q Hq. guard_step Hr as Hsame.
  bind_step Hr as a Ha. do 2 (case_match; try done). bind_step Hr as cfg Hcfg. bind_step Hr as u' Hu'. bind_step Hr as st Hst. bind_step Hr as iss Hiss. by injection Hr as <-.
Qed.
End registration.


(** ** Failed registrations *)
Section failures.
Context `{Platform, PyLib, Zlib, HttpPlatform, IpLib}.
Context (exchange : nat → CheckedResolveBackend → registry_request → res http_response) (check : list nat → res unit) (c : registry_client).

Lemma http_request_trace r w w' o : http_request exchange check c r w = (w', o) → is_Ok o = false ∧ rw_sent w' = rw_sent w ∨ rw_sent w' = with_default_headers r :: rw_sent w.
Proof. unfold http_request. repeat case_match; intros [= <- <-]; auto. Qed.
Lemma post_trace path body extra expected w w' o : run_registry (perform_http exchange check c) (post_steps c path body extra expected) w = (w', o) →
  let request := http_call c "POST" path (set_headers extra (auth_headers c)) match body with Some d => JsonBody d | None => NoBody end in
  is_Ok o = false ∧ rw_sent w' = rw_sent w ∨ rw_sent w' = with_default_headers request :: rw_sent w.
Proof.
  cbv zeta. unfold post_steps, send. rewrite run_bind, run_catching, run_yield. cbn [perform_http].
  destruct (http_request _ _ _ _ w) as [w1 o1] eqn:E1. apply http_request_trace in E1.
  destruct o1 as [resp|f]; cbn; [destruct E1 as [[]|E1]; [done|]; repeat case_match|]; intros [= <- <-]; auto.
Qed.
Lemma run_after_Raise {E A B} (perform : ∀ R, E R → RM R) (r : res A) (k : A → steps E B) w w' f : run_registry perform (returns r ≫= k) w = (w', Raise f) →
  w' = w ∨ ∃ a, r = Ok a ∧ run_registry perform (k a) w = (w', Raise f).
Proof. rewrite run_bind. destruct r as [a|e]; cbn; [by eauto|]. intros [= <- _]. by left. Qed.
Lemma later_requests {A} (s : steps RegistryCall A) w w' o : yields_only (registry_ok c) s → run_registry (perform exchange check c) s w = (w', o) →
  ∃ later, rw_sent w' = later ++ rw_sent w.
Proof. intros Hs E. destruct (run_calls_send exchange check c s Hs _ _ _ E) as (later & Hl & _). by exists later. Qed.
Lemma require_nonempty_has data field v : require_nonempty data field = Ok v → has field data = true.
Proof.
  unfold require_nonempty, require_string, get, has. intros E. bind_step E as x Hx. by destruct (member (lit field) data).
Qed.
Lemma created_members body data r : created_agent body data = Ok r → has "id" data = true ∧ has "domain" data = true.
Proof. unfold created_agent. intros E. bind_step E as id Hid. bind_step E as d Hd. eauto using require_nonempty_has. Qed.
Lemma retained body key data f : is_dnsid (fl_exn (retain_request body key data f)) = true →
  fl_registration_request (retain_request body key data f) = Some body ∧ fl_registration_idempotency_key (retain_request body key data f) = key
  ∧ ∀ d, data = Some d → d ≠ [] → fl_registration_response (retain_request body key data f) = Some d.
Proof.
  unfold retain_request. destruct (is_dnsid (fl_exn f)) eqn:Hd; [|congruence]. intros _. split_and!; [done..|]. intros [|kv d] -> Hne; done.
Qed.
End failures.


(** ** Managed Live challenges *)

(** The message that is signed is the text of an object with the members of the transcript. *)
Definition transcript_message (message : str) (t : LiveChallengeTranscript) : Prop := ∃ octets text raw,
  b64url_decode_strict message = Ok octets ∧ utf8_decode octets = Ok text ∧ loads python_hooks text = Ok (JDict raw)
  ∧ Forall (λ '(name, value), get name JNull raw = JStr value)
      [("protocol"%string, lt_protocol t); ("org_id"%string, lt_org_id t); ("agent_id"%string, lt_agent_id t); ("fqdn"%string, lt_fqdn t);
       ("key_id"%string, lt_key_id t); ("nonce"%string, lt_nonce t)].

(** A challenge for a key, as the registry named its agent and its nonce. *)
Record challenge_for `{Platform, PyLib} (key : JWK) (agent_id challenge message domain : str) (t : LiveChallengeTranscript) : Prop := {
  cf_protocol : lt_protocol t = lit "dnsid-live-provisioning-pop/v1";
  cf_key : thumbprint key = Ok (lt_key_id t);
  cf_agent : lt_agent_id t = agent_id;
  cf_nonce : lt_nonce t = challenge;
  cf_domain : normalize_fqdn idna_encode (lt_fqdn t) true = Ok domain;
  cf_expires : dt_utcoffset (lt_expires_at t) ≠ None;
  cf_message : transcript_message message t
}.

Section challenges.
Context `{Platform, PyLib, Zlib, HttpPlatform, IpLib}.
Lemma transcript_text_Ok raw name v : transcript_text raw name = Ok v → get name JNull raw = JStr v.
Proof. unfold transcript_text. by repeat case_match; intros [= <-]. Qed.
Lemma live_challenge_Ok agent_id challenge message key thumb expected_domain domain t : thumbprint key = Ok thumb →
  live_challenge_from_response agent_id challenge message (Some thumb) expected_domain = Ok (domain, t) →
  challenge_for key agent_id challenge message domain t ∧ match expected_domain with Some d => normalize_fqdn idna_encode d true = Ok domain | None => True end.
Proof.
  intros Hthumb E. unfold live_challenge_from_response in E. destruct (read_transcript _ _ _ _ _) as [r|] eqn:Er; [|done]. cbn in E. injection E as ->.
  unfold read_transcript in Er. bind_step Er as octets Ho. bind_step Er as text Ht. bind_step Er as v Hv. destruct v as [|?|?|?|?|?|raw]; try done.
  bind_step Er as protocol Hprotocol. bind_step Er as org Horg. bind_step Er as agent Hagent. bind_step Er as fqdn Hfqdn. bind_step Er as kid Hkid.
  bind_step Er as nonce Hnonce. bind_step Er as expires Hexp. guard_step Er as Hp. guard_step Er as Hsame. guard_step Er as Hkey. bind_step Er as d Hd.
  bind_step Er as [] Hexpected. bind_step Er as at_ Hat. guard_step Er as Hoff. injection Er as -> <-.
  apply negb_false_iff in Hp, Hkey. apply orb_false_iff in Hsame as [Ha Hn]. apply negb_false_iff in Ha, Hn. apply bool_decide_eq_false in Hoff.
  apply (proj1 (eqb_true _ _)) in Hp, Hkey, Ha, Hn. split.
  - constructor; cbn; try done; [congruence|]. exists octets, text, raw. split_and!; try done. repeat constructor; by apply transcript_text_Ok.
  - destruct expected_domain as [e|]; [|done]. bind_step Hexpected as x Hx. apply raise_if_Ok, negb_false_iff in Hexpected. by apply (proj1 (eqb_true _ _)) in Hexpected as ->.
Qed.
End challenges.

(** A challenge that starts managed Live provisioning, or replaces one, is for the caller's key: the message to sign names
    the thumbprint of that key, the agent and the nonce of the answer, and the domain that is reported; a replacement is for the
    domain that was asked for. *)
Theorem live_challenges_bound `{Platform, PyLib, Zlib, HttpPlatform, IpLib} (exchange : nat → CheckedResolveBackend → registry_request → res http_response)
  (check : list nat → res unit) (c : registry_client) (w w' : registry_world) :
  (∀ input key resp, register_live_agent exchange check c input key w = (w', Ok resp) → lp_status resp = lit "challenge_pending" →
     ∃ t, lp_challenge_transcript resp = Some t
       ∧ challenge_for (li_public_key_jwk input) (lp_agent_id resp) (lp_challenge resp) (lp_challenge_message resp) (lp_domain resp) t)
  ∧ (∀ domain request resp, reissue_live_proof exchange check c domain request w = (w', Ok resp) →
     normalize_fqdn idna_encode domain true = Ok (ly_domain resp)
     ∧ challenge_for (lx_public_key_jwk request) (ly_agent_id resp) (ly_challenge resp) (ly_challenge_message resp) (ly_domain resp) (ly_challenge_transcript resp)).
Proof.
  split.
  - intros input key resp E Hst. unfold register_live_agent, register_live_agent_steps in E. do 4 apply run_after_Ok in E as (? & _ & E).
    apply run_bind_Ok in E as (w1 & data & _ & E). apply run_returns_Ok in E as [_ E]. unfold live_provisioning_from_response in E.
    bind_step E as rid Hrid. bind_step E as aid Haid. bind_step E as st Hst'. bind_step E as ch Hch. bind_step E as msg Hmsg. bind_step E as [d t] Ht. injection E as <-.
    cbn in Hst. subst st. rewrite eqb_refl in Ht. bind_step Ht as thumb Hthumb. bind_step Ht as [d' t'] Hc. injection Ht as <- <-.
    exists t'. split; [done|]. by apply (live_challenge_Ok _ _ _ _ _ _ _ _ Hthumb Hc).
  - intros domain request resp E. unfold reissue_live_proof, reissue_live_proof_steps in E. do 3 apply run_after_Ok in E as (? & _ & E).
    apply run_after_Ok in E as (thumb & Hthumb & E). apply run_after_Ok in E as (? & _ & E). apply run_bind_Ok in E as (w1 & data & _ & E).
    apply run_returns_Ok in E as [_ E]. unfold live_proof_reissue_from_response in E.
    bind_step E as rid Hrid. bind_step E as aid Haid. bind_step E as st Hst'. bind_step E as ch Hch. bind_step E as msg Hmsg. bind_step E as [d t] Hc. injection E as <-.
    destruct (live_challenge_Ok _ _ _ _ _ _ _ _ Hthumb Hc) as [Hfor Hd]. by split.
Qed.

(** ** Waiting *)

(** Polling for a status ends: when the clock advances by at least what was slept and the interval is positive, the loop
    has a result, whatever the registry answers, after at most as many polls as intervals fit into the timeout, plus two. *)
Theorem wait_terminates `{Platform, PyLib, Zlib, HttpPlatform, IpLib} (exchange : nat → CheckedResolveBackend → registry_request → res http_response)
  (check : list nat → res unit) (c : registry_client) (start : Z) (clock : nat → Z) (timeout interval : Z) (domain target : str) (w : registry_world) :
  0 < interval → start ≤ clock 0%nat → (∀ n, clock n + Z.min interval (start + timeout - clock n) ≤ clock (S n)) →
  ∃ o, snd (wait_for_status exchange check c (Z.to_nat (timeout / interval) + 2) start clock timeout interval domain target w) = Some o.
Proof.
  intros Hi Hs Hc. unfold wait_for_status. set (deadline := start + timeout) in *.
  assert (∀ polls n w, (0 < polls)%nat → deadline - clock n ≤ (Z.of_nat polls - 1) * interval →
    ∃ o, snd (wait_loop exchange check c polls n clock deadline interval domain target w) = Some o) as Hloop.
  { induction polls as [|polls IH]; intros n w0 Hp Hn; [lia|]. cbn [wait_loop]. destruct (get_agent_status _ _ _ _ w0) as [w1 [[status|]|f]]; [|by eexists..].
    destruct (_ && _); [by eexists|]. destruct (_ || _ || _); [destruct (_ && _); by eexists|].
    destruct (Z.leb_spec (deadline - clock n) 0) as [|Hr]; [by eexists|]. destruct (_ <? 0); [by eexists|].
    specialize (Hc n). assert (0 < Z.of_nat polls) as Hpos. { destruct polls; [exfalso; lia|lia]. }
    apply IH; [lia|]. destruct (Z.min_spec interval (deadline - clock n)) as [[_ Em]|[_ Em]]; rewrite Em in Hc; nia. }
  apply Hloop; [lia|]. pose proof (Z.div_mod timeout interval ltac:(lia)). pose proof (Z.mod_pos_bound timeout interval Hi). nia.
Qed.

(** ** Credentials in messages *)
Section masking.
Context (key : str) (Hne : key ≠ []) (Hstar : 42 ∉ key).

Lemma mask_skip n text : mask_from key n text = mask_from key 0 (drop n text).
Proof. revert n. induction text as [|x text IH]; intros [|n]; [done..|]. cbn [mask_from drop]. apply IH. Qed.
(** The result one step at a time. *)
Lemma mask_cases text : (∃ rest, text = key ++ rest ∧ mask_from key 0 text = lit "***" ++ mask_from key 0 rest) ∨ startswith key text = false
  ∧ (text = [] ∧ mask_from key 0 text = [] ∨ ∃ x rest, text = x :: rest ∧ mask_from key 0 text = x :: mask_from key 0 rest).
Proof.
  destruct text as [|x text]; [right; split; [by destruct key|by left]|].
  destruct (startswith key (x :: text)) eqn:Hs; cbn [mask_from]; rewrite Hs; [left|right; split; [done|]; right; by eexists _, _].
  apply startswith_app in Hs as (rest & E). exists rest. split; [done|]. rewrite mask_skip. destruct key as [|y k]; [done|]. injection E as -> ->.
  cbn [length]. by rewrite Nat.sub_succ, Nat.sub_0_r, drop_app_length.
Qed.
(** What the result starts with without a star, the text starts with. *)
Lemma mask_prefix p text b : 42 ∉ p → mask_from key 0 text = p ++ b → ∃ b', text = p ++ b'.
Proof.
  revert p. induction text as [|x text IH]; intros p Hp E; [destruct p; [by exists []|done]|]. destruct p as [|y p]; [by eexists|].
  destruct (mask_cases (x :: text)) as [(rest & _ & Em)|(_ & [[? _]|(x' & rest & Ex & Em)])]; [|done|]; rewrite Em in E.
  - injection E as <- _. exfalso. apply Hp. left.
  - injection Ex as <- <-. injection E as <- E. destruct (IH p) as (b' & ->); [set_solver|done|]. by exists b'.
Qed.
Lemma mask_hides_within n text : (length text ≤ n)%nat → ∀ a b, mask_from key 0 text ≠ a ++ key ++ b.
Proof.
  revert text. induction n as [|n IH]; intros text Hl a b E; (destruct (mask_cases text) as [(rest & -> & Em)|(Hs & [[-> Em]|(x & rest & -> & Em)])]; rewrite Em in E).
  all: try (symmetry in E; apply app_eq_nil in E as [_ E]; apply app_eq_nil in E as [E _]; by rewrite E in Hne).
  - rewrite length_app in Hl. destruct key; [done|cbn in Hl; lia].
  - cbn in Hl. lia.
  - assert (length rest ≤ n)%nat as Hr. { rewrite length_app in Hl. destruct key; [done|cbn in Hl; lia]. }
    assert (∃ y k, key = y :: k ∧ y ≠ 42) as (y & k & Ek & Hy). { destruct key as [|y k]; [done|]. exists y, k. split; [done|]. intros ->. apply Hstar. left. }
    change (lit "***" ++ mask_from key 0 rest) with (42 :: 42 :: 42 :: mask_from key 0 rest) in E.
    destruct a as [|a1 [|a2 [|a3 a]]]; [rewrite Ek in E; cbn [app] in E; congruence..|]. injection E as _ _ _ E. by apply (IH rest Hr a b).
  - destruct a as [|a1 a]; [|injection E as _ E; apply (IH rest ltac:(cbn in Hl; lia) a b E)].
    rewrite <-Em in E. cbn [app] in E. destruct (mask_prefix key _ _ Hstar E) as (b' & Eb). apply not_true_iff_false in Hs. apply Hs, startswith_app. by exists b'.
Qed.
Lemma find_at_absent k sub s : (∀ a b, s ≠ a ++ sub ++ b) → find_at k sub s = -1.
Proof.
  revert k. induction s as [|x s IH]; intros k Hn; cbn [find_at].
  - destruct (startswith sub []) eqn:Hs; [|done]. apply startswith_app in Hs as (t & Ht). by destruct (Hn [] t).
  - destruct (startswith sub (x :: s)) eqn:Hs; [apply startswith_app in Hs as (t & Ht); by destruct (Hn [] t)|].
    apply IH. intros a b E. apply (Hn (x :: a) b). by rewrite E.
Qed.
End masking.

(** Text of an error that is reported does not contain a credential without stars... *)
Lemma sanitize_hides (client : registry_client) (key text : str) : cl_api_key client = Some key → key ≠ [] → 42 ∉ key → contains key (sanitize client text) = false.
Proof.
  intros Hk Hne Hstar. unfold sanitize. rewrite Hk. destruct (contains key text) eqn:Hc; [|done]. unfold contains, find.
  rewrite find_at_absent; [done|]. intros a b. by eapply mask_hides_within.
Qed.
(** ...but one with a star can be put together from the mask and the text around it. *)
Example sanitize_reveals : contains (lit "a*") (sanitize {| cl_base_url := []; cl_is_loopback := false; cl_api_key := Some (lit "a*");
  cl_transport_config := default_transport |} (lit "aa*")) = true.
Proof. vm_compute. reflexivity. Qed.

(** ** Publication by the registry *)
Section awaiting.
Context `{Platform, PyLib, Zlib, HttpPlatform, IpLib} (env : environment) (cfg : VerificationConfig) {C : Type} `{CacheSpec C Verified usable}.

Lemma AM_bind_Ok {A B} (m : AM (C := C) A) (k : A → AM B) s s' b : (m ≫= k) s = (s', Some (Ok b)) → ∃ s1 a, m s = (s1, Some (Ok a)) ∧ k a s1 = (s', Some (Ok b)).
Proof. unfold mbind, AM_bind. destruct (m s) as [s1 [[a|f]|]]; [by eauto|done..]. Qed.
Lemma of_res_Ok {A} (r : res A) s s' a : of_res (C := C) r s = (s', Some (Ok a)) → s' = s ∧ r = Ok a.
Proof. unfold of_res. destruct r; cbn; intros [= -> ->]; done. Qed.
Lemma of_registry_Ok {A} (m : RM A) s s' a : of_registry (C := C) m s = (s', Some (Ok a)) → m s.1 = (s'.1, Ok a) ∧ s'.2 = s.2.
Proof. destruct s as [w c]. unfold of_registry. destruct (m w) as [w1 o] eqn:E. intros [= <- ->]. split; [exact E|done]. Qed.
Lemma of_wait_Ok {A} (m : registry_world → registry_world * option (outcome A)) s s' a : of_wait (C := C) m s = (s', Some (Ok a)) → m s.1 = (s'.1, Some (Ok a)) ∧ s'.2 = s.2.
Proof. destruct s as [w c]. unfold of_wait. destruct (m w) as [w1 o] eqn:E. intros [= <- ->]. split; [exact E|done]. Qed.

(** Local publication is verified like any identity, but for acceptance. *)
Lemma keeping_local rounds path closed domain : keeping (kept env cfg) (bounded env (0 :: path)%nat (verify env cfg rounds (1 :: path)%nat closed domain None false false))
  (λ vd, ∃ name, normalize_fqdn idna_encode domain false = Ok name ∧ established env cfg name vd).
Proof.
  apply keeping_bounded. unfold verify. eapply keeping_bind; [apply keeping_pure with (Q := λ _, True); done|]. intros _ _.
  eapply keeping_bind; [apply keeping_pure; intros a Ha; exact Ha|]. intros name Hn.
  apply keeping_bind with (Q := established env cfg name); [apply keeping_reusable|]. intros vd Hv.
  eapply keeping_weaken; [by apply keeping_accept_local|]. intros a Ha. by exists name.
Qed.
End awaiting.

(** C12 Publication by the registry is believed on evidence only: when waiting for it returns a record, the registry claimed the
    publication authority in the detail it gave last and confirmed the publication, and the record is the one of an identity that the
    manager itself verified for its own name, from DNS to the log, in the configured profile. *)
Theorem managed_publication_verified `{Platform, PyLib, Zlib, HttpPlatform, IpLib} (exchange : nat → CheckedResolveBackend → registry_request → res http_response)
  (check : list nat → res unit) (client : registry_client) (env : environment) (cfg : VerificationConfig) {C : Type} `{CacheSpec C Verified usable}
  (polls rounds : nat) (path : list nat) (closed : bool) (start : Z) (clock : nat → Z) (timeout interval : Z) (m : local_manager) (identity : IdentityConfig)
  (w w' : registry_world) (c0 c c' : C) (published : PublishedRecord)
  (Hempty : holds (λ _ _, False) c0) (Hreach : rtc (manager_step env cfg) c0 c) (Hlocal : lm_identity m = Some identity)
  (Hok : await_registry_managed_publication exchange check client env cfg polls rounds path closed start clock timeout interval m (w, c) = ((w', c'), Some (Ok published))) :
  ∃ name vd registration, normalize_fqdn idna_encode (ic_domain identity) false = Ok name ∧ established env cfg name vd ∧ rec_v (vd_record vd) = profile_of identity
    ∧ pr_txt_record published = JStr (serialize_record (vd_record vd)) ∧ pr_protocol_status published = Some (vd_registry_status vd)
    ∧ (∃ w0 w1, get_registration exchange check client (ic_domain identity) w0 = (w1, Ok (Some registration)))
    ∧ ag_publication_authority registration = lit "registry" ∧ ag_dns_published registration = Some true ∧ pr_raw published = ag_raw registration.
Proof.
  assert (holds (kept env cfg) c) as Hc. { eapply steps_kept; [exact Hreach|]. eapply holds_weaken; [|exact Hempty]. done. }
  unfold await_registry_managed_publication in Hok. apply AM_bind_Ok in Hok as (s1 & u1 & E1 & Hok). apply of_res_Ok in E1 as [-> _].
  apply AM_bind_Ok in Hok as (s1 & id & E1 & Hok). apply of_res_Ok in E1 as [-> E1]. unfold local_identity in E1. rewrite Hlocal in E1. injection E1 as <-.
  apply AM_bind_Ok in Hok as (s2 & r1 & E2 & Hok). apply of_registry_Ok in E2 as [_ Hs2]. apply AM_bind_Ok in Hok as (s3 & u2 & E3 & Hok). apply of_res_Ok in E3 as [-> _].
  apply AM_bind_Ok in Hok as (s3 & status & E3 & Hok). apply of_wait_Ok in E3 as [_ Hs3]. apply AM_bind_Ok in Hok as (s4 & u3 & E4 & Hok). apply of_res_Ok in E4 as [-> _].
  apply AM_bind_Ok in Hok as (s4 & r2 & E4 & Hok). apply of_registry_Ok in E4 as [E4 Hs4]. apply AM_bind_Ok in Hok as (s5 & reg & E5 & Hok). apply of_res_Ok in E5 as [-> E5].
  apply AM_bind_Ok in Hok as (s5 & u4 & E6 & Hok). apply of_res_Ok in E6 as [-> _]. apply AM_bind_Ok in Hok as (s5 & u5 & E7 & Hok). apply of_res_Ok in E7 as [-> Hpub].
  apply AM_bind_Ok in Hok as (s5 & vd & E8 & Hok). apply AM_bind_Ok in Hok as (s6 & u6 & E9 & Hok). apply of_res_Ok in E9 as [-> Hv]. injection Hok as _ <-.
  destruct r2 as [r2|]; [|done]. unfold managed_by_registry in E5. guard_step E5 as Hauth. injection E5 as ->.
  apply negb_false_iff in Hauth. apply (proj1 (eqb_true _ _)) in Hauth. apply raise_if_Ok, negb_false_iff in Hpub, Hv. apply bool_decide_eq_true_1 in Hpub. apply (proj1 (eqb_true _ _)) in Hv.
  destruct s4 as [w4 c4]. cbn in Hs4. assert (c4 = c) as -> by (cbn in Hs2; congruence). unfold of_manager in E8.
  destruct (bounded env (0 :: path)%nat _ c) as [c5 o] eqn:Eb. injection E8 as _ E8. destruct o as [v|e]; [|done]. injection E8 as ->.
  destruct (keeping_local env cfg rounds path closed (ic_domain identity) _ _ _ Hc Eb) as [_ HQ]. destruct (HQ vd eq_refl) as (name & Hn & He).
  exists name, vd, reg. split_and!; try done. by eexists _, _.
Qed.

(** ** A registry at work *)
#[local] Instance registry_pylib : PyLib := {|
  json_loads := λ body, text ← utf8_decode body; loads python_hooks text;
  urljoin := λ _ url, Ok url;
  fromisoformat := λ _, Ok (utc (toy_now - day_us))
|}.
#[local] Instance registry_texts : HttpPlatform := {| unicode_isdigit _ := false; str_upper s := upper_ascii <$> s; other_str _ := [] |}.
#[local] Instance registry_addresses : IpLib := {| ip_address _ := None; ipv4_mapped _ := None; idna_codec s := Some s |}.

(** Texts with quotation marks in place of apostrophes. *)
Definition quoted_text (s : string) : str := map (λ x, if x =? 39 then 34 else x) (lit s).
Definition toy_publication : str := quoted_text
  "{'publish_profile':'dnsid-draft-01','governance_id':'example.com','ku_url':'https://agent.example.com/ku','ek_url':'https://example.com/ek','log_ref':'c2sp-tlog:public:https://log.example/dns#abc-1','status_url':'https://example.com/su'}".
Definition toy_created : str := quoted_text "{'id':'agent-1','domain':'Agent.Example.com','publication_config':" ++ toy_publication ++ quoted_text "}".
Definition toy_detail (id : string) : str := quoted_text "{'id':'" ++ lit id ++ quoted_text "','status':'ACTIVE','managed':'dnsid','dns_published':true}".
Definition answer (status : Z) (body : str) : http_response :=
  {| hr_is_redirect := false; hr_status_code := status; hr_content_length := None; hr_content_encoding := None; hr_is_stream_consumed := false;
     hr_chunks := [body]; hr_failure := None |}.
(** A registry that creates one agent and accepts every entry; [id] is the agent of the detail. *)
Definition toy_registry (id : string) (_ : nat) (_ : CheckedResolveBackend) (r : registry_request) : res http_response :=
  match rq_body r with
  | JsonBody _ => Ok (answer 201 toy_created)
  | Content entry => Ok (answer 200 (quoted_text "{'state':'accepted','entryHash':'" ++ sha256_hexdigest entry ++ quoted_text "'}"))
  | NoBody => Ok (answer 200 (toy_detail id))
  end.
Definition toy_base : str := lit "https://registry.example/base/".
Definition toy_client : registry_client :=
  {| cl_base_url := lit "https://registry.example/base"; cl_is_loopback := false; cl_api_key := Some (lit "secret"); cl_transport_config := default_transport |}.
Definition fresh_world : registry_world := {| rw_http_client := None; rw_sent := [] |}.
Definition toy_input : AgentRegistrationInput :=
  {| ri_domain := toy_name; ri_public_key_jwk := Some op1; ri_environment := []; ri_managed := false; ri_capabilities_url := []; ri_name := []; ri_zone_id := [];
     ri_idempotency_key := []; ri_governance_domain := lit "example.com"; ri_root_domain := []; ri_tier := [] |}.
Definition toy_registration (id : string) := register_agent (toy_registry id) (λ _, Ok ()) toy_client toy_input (Some (lit "key-1")) fresh_world.

Lemma toy_client_made : init_registry_client (Some toy_base) (Some (lit " secret ")) None = Ok toy_client.
Proof. vm_compute. reflexivity. Qed.

Lemma registry_requests_confined_witness : ∃ sent, rw_sent (toy_registration "agent-1").1 = sent ++ [] ∧ length sent = 2%nat
  ∧ Forall (λ r, authorized toy_client r ∧ to_server toy_base r) sent.
Proof.
  destruct (registry_requests_confined (toy_registry "agent-1") (λ _, Ok ()) toy_base (Some (lit " secret ")) None toy_client
    (register_agent (toy_registry "agent-1") (λ _, Ok ()) toy_client toy_input (Some (lit "key-1"))) fresh_world (toy_registration "agent-1").1 (toy_registration "agent-1").2)
    as (sent & Hs & Hall).
  - exact toy_client_made.
  - discriminate.
  - apply op_register.
  - apply surjective_pairing.
  - exists sent. split; [exact Hs|]. split; [|exact Hall]. apply (f_equal length) in Hs. rewrite app_nil_r in Hs. rewrite <-Hs. vm_compute. reflexivity.
Defined.

Definition toy_entry : bytes := lit "entry".
Definition toy_submission := submit_prepared_event (toy_registry "agent-1") (λ _, Ok ()) toy_client toy_domain toy_entry (lit "key-1") fresh_world.
Lemma submission_faithful_witness : ∃ result, toy_submission.2 = Ok result ∧ accepted result = true ∧ sr_entry_hash result = sha256_hexdigest toy_entry.
Proof.
  destruct (is_Ok toy_submission.2) eqn:Hok; [|vm_compute in Hok; discriminate]. destruct toy_submission.2 as [result|f] eqn:Hr; [|discriminate].
  assert (toy_submission = (toy_submission.1, Ok result)) as Hrun. { rewrite <-Hr. apply surjective_pairing. }
  assert (accepted result = true) as Ha. { apply (f_equal (λ o, match o with Ok r => accepted r | Raise _ => false end)) in Hr. rewrite <-Hr. vm_compute. reflexivity. }
  exists result. split; [reflexivity|]. split; [exact Ha|].
  destruct (submission_faithful (toy_registry "agent-1") (λ _, Ok ()) toy_client toy_domain toy_entry (lit "key-1") fresh_world toy_submission.1 result Hrun)
    as (path & _ & [(f & _ & _ & Hpending)|(resp & _ & _ & Hacc & _)]).
  - unfold accepted in Ha. rewrite Hpending in Ha. vm_compute in Ha. discriminate.
  - apply Hacc. exact Ha.
Defined.



(** A status that never settles: the loop ends with the timeout. *)
Definition toy_pending (_ : nat) (_ : CheckedResolveBackend) (_ : registry_request) : res http_response := Ok (answer 200 (quoted_text "{'status':'pending'}")).
Definition toy_clock (n : nat) : Z := 5 * Z.of_nat n.
Definition toy_wait := wait_for_status toy_pending (λ _, Ok ()) toy_client 4 0 toy_clock 12 5 toy_domain (lit "VERIFIED") fresh_world.
Lemma wait_terminates_witness : (∃ o, toy_wait.2 = Some o) ∧ length (rw_sent toy_wait.1) = 4%nat.
Proof.
  split; [|vm_compute; reflexivity]. apply (wait_terminates toy_pending (λ _, Ok ()) toy_client 0 toy_clock 12 5 toy_domain (lit "VERIFIED") fresh_world).
  - lia.
  - unfold toy_clock. lia.
  - intros n. unfold toy_clock. lia.
Defined.

(** Publication by the registry, verified by the manager of the example. *)
Definition toy_await := await_registry_managed_publication (C := gmap str (VerifiedDomain log_binding)) (toy_registry "agent-1") (λ _, Ok ()) toy_client active toy_policy
  1 3 [1%nat] false 0 toy_clock 12 5 (toy_manager "https://example.com/su") (fresh_world, ∅).
Lemma managed_publication_verified_witness : ∃ published vd, toy_await.2 = Some (Ok published) ∧ established active toy_policy toy_domain vd
  ∧ pr_txt_record published = JStr (serialize_record (vd_record vd)).
Proof.
  destruct toy_await.2 as [[published|f]|] eqn:Hr.
  2-3: exfalso; apply (f_equal (λ o, match o with Some (Ok _) => true | _ => false end)) in Hr; vm_compute in Hr; discriminate.
  destruct (managed_publication_verified (C := gmap str (VerifiedDomain log_binding)) (toy_registry "agent-1") (λ _, Ok ()) toy_client active toy_policy
    1 3 [1%nat] false 0 toy_clock 12 5 (toy_manager "https://example.com/su") (toy_config "https://example.com/su") fresh_world toy_await.1.1 ∅ ∅ toy_await.1.2 published) as (name & vd & reg & Hn & He & _ & Htxt & _).
  - apply nothing_held.
  - apply rtc_refl.
  - reflexivity.
  - transitivity (toy_await.1, toy_await.2); [apply surjective_pairing|]. rewrite Hr. destruct toy_await.1. reflexivity.
  - assert (name = toy_domain) as ->. { vm_compute in Hn. injection Hn as <-. reflexivity. }
    exists published, vd. split; [reflexivity|]. split; [exact He|exact Htxt].
Defined.

(** A base URL that ends with an empty query is accepted; the routes then become part of it. *)
Example empty_query_accepted : (λ c, urlsplit no_netloc (cl_base_url c ++ lit "/api/v1/agent")) <$> init_registry_client (Some (lit "https://registry.example?")) None None
  = Ok (Ok {| url_scheme := lit "https"; url_netloc := lit "registry.example"; url_path := []; url_query := lit "/api/v1/agent"; url_fragment := [] |}).
Proof. vm_compute. reflexivity. Qed.

(** Registration refuses a key with a private member at any depth; the preparation of a rotation looks at the first level only. *)
Definition nested_private : JWK :=
  {| jwk_kty := JStr (lit "OKP"); jwk_alg := JStr (lit "EdDSA"); jwk_kid := JStr (lit "k"); jwk_use := JStr [];
     jwk_raw := [(lit "kid", JStr (lit "k")); (lit "alg", JStr (lit "EdDSA")); (lit "ext", JDict [(lit "d", JStr (lit "secret"))])] |}.
Example nested_private_sent : is_Ok (public_jwk_dict nested_private) = false ∧
  map rq_body (rw_sent (prepare_key_rotation toy_pending (λ _, Ok ()) toy_client toy_domain {| kp_previous_key_id := lit "p"; kp_public_key := nested_private |} (lit "key-1") fresh_world).1)
  = [JsonBody [(lit "previous_key_id", JStr (lit "p")); (lit "public_key", JDict (jwk_raw nested_private))]].
Proof. split; vm_compute; reflexivity. Qed.

(** A challenge for a key whose [kid] is its thumbprint. *)
Definition live_key : JWK :=
  {| jwk_kty := JStr (lit "OKP"); jwk_alg := JStr (lit "EdDSA"); jwk_kid := JStr (toy_thumb op1); jwk_use := JStr [];
     jwk_raw := dict_set (lit "kid") (JStr (toy_thumb op1)) (jwk_raw op1) |}.
Definition live_message : str := b64url_encode (quoted_text
  "{'protocol':'dnsid-live-provisioning-pop/v1','org_id':'org','agent_id':'agent-1','fqdn':'Agent.Example.com','nonce':'n','expires_at':'2030-01-01T00:00:00Z','key_id':'"
  ++ toy_thumb op1 ++ quoted_text "'}") false.
Definition live_registry (_ : nat) (_ : CheckedResolveBackend) (_ : registry_request) : res http_response :=
  Ok (answer 202 (quoted_text "{'request_id':'r','agent_id':'agent-1','status':'challenge_pending','challenge':'n','challenge_message':'" ++ live_message ++ quoted_text "'}")).
Definition toy_live := register_live_agent live_registry (λ _, Ok ()) toy_client
  {| li_public_key_jwk := live_key; li_environment := []; li_capabilities_url := []; li_name := [] |} (lit "key-1") fresh_world.
Lemma live_challenges_bound_witness : ∃ resp t, toy_live.2 = Ok resp ∧ lp_challenge_transcript resp = Some t ∧ thumbprint live_key = Ok (lt_key_id t).
Proof.
  destruct toy_live.2 as [resp|f] eqn:Hr; [|apply (f_equal is_Ok) in Hr; vm_compute in Hr; discriminate].
  destruct (proj1 (live_challenges_bound live_registry (λ _, Ok ()) toy_client fresh_world toy_live.1)
    {| li_public_key_jwk := live_key; li_environment := []; li_capabilities_url := []; li_name := [] |} (lit "key-1") resp) as (t & Ht & Hfor).
  - rewrite <-Hr. apply surjective_pairing.
  - apply (f_equal (λ o, match o with Ok r => lp_status r | Raise _ => [] end)) in Hr. rewrite <-Hr. vm_compute. reflexivity.
  - exists resp, t. split; [reflexivity|]. split; [exact Ht|]. exact (cf_key _ _ _ _ _ _ Hfor).
Defined.
